(* ===== verification/_CoqProject ===== *)
-Q . S2P
Prelude.v
Slices.v
Bitmap.v
OrdinalSet.v
BitmapSpec.v
BitmapTheorems.v
Uint128.v
NetIP.v
IPBits.v
NetIPUtil.v
AddrSet.v
AddrSetSpec.v
AddrSetTheorems.v
DefaultIPAM.v
DefaultIPAMSpec.v
DefaultIPAMTheorems.v
PortAllocator.v
PortAllocatorTheorems.v
ContainerState.v
ContainerStateTheorems.v
RestartManager.v
RefStore.v
RefStoreTheorems.v
StdCopy.v
StdCopyTheorems.v
BytesPipe.v
BytesPipeTheorems.v
NetworkDB.v
NetworkDBPaths.v
NetworkDBSpec.v
NetworkDBInv.v
NetworkDBSteps.v
NetworkDBTheorems.v
Counting.v
LayerStore.v
LayerStoreSpec.v
LayerStoreSystem.v
LayerStoreRestore.v
LayerStoreTheorems.v
LogRing.v
LogRingTheorems.v
LogQueue.v
LogQueueTheorems.v
ImageStore.v
ImageStoreSpec.v
ImageStoreFamily.v
ImageStoreTheorems.v
SortedMaps.v
NFTables.v
NFTablesSpec.v
NFTablesUndo.v
NFTablesKernel.v
NFTablesSync.v
NFTablesTheorems.v
Datastore.v
DatastoreSpec.v
DatastoreOps.v
DatastoreTheorems.v
Transfer.v
TransferSpec.v
TransferSteps.v
TransferTheorems.v
VolumeStore.v
VolumeStoreSpec.v
VolumeStoreTheorems.v
SetMatrix.v
Discovery.v
DiscoverySpec.v
DiscoverySteps.v
DiscoveryTheorems.v
OverlayKeys.v
OverlayKeysSpec.v
AgentKeys.v
AgentKeysSpec.v
AgentKeysSteps.v
AgentKeysTheorems.v
OverlayPeers.v
OverlayPeersSpec.v
OverlayPeersSteps.v
OverlayPeersTheorems.v
