(* ===== verification/Prelude.v ===== *)
(** * Verification of the moby engine core

    A verification library for the Go container engine under [src/moby].  It models the
    parts of the engine that keep state by themselves (allocators, the gossip database,
    container state, stores and stream buffers), as executable definitions translated from the source, and proves
    what each of them promises.  Paths below are relative to [src/moby].

    ** The parts and how they interact

    - Network resources.  [daemon/libnetwork/bitmap] is a run-length encoded bit vector;
      [daemon/libnetwork/internal/addrset] keeps the addresses of a pool in such vectors;
      [daemon/libnetwork/ipams/defaultipam] manages the pools of an address space and hands
      out pools and addresses; it computes with [daemon/libnetwork/ipbits],
      [daemon/internal/netiputil], [daemon/libnetwork/ipamutils] and
      [daemon/libnetwork/internal/uint128].  [daemon/libnetwork/portallocator] hands out
      transport ports.  [daemon/libnetwork/networkdb] is the gossip database that the
      nodes of a cluster share their endpoint tables with.
      [daemon/libnetwork/internal/nftables] keeps the packet-filter tables of the bridge
      driver in step with the kernel; [daemon/libnetwork/datastore] stores the objects of
      the network controller in a bolt database with a cache in front.
      Service discovery ([daemon/libnetwork/network.go], [service.go],
      [service_common.go]) turns the endpoint table of the gossip database, whose events
      [agent.go] handles, into DNS records and load balancers.
      Encryption keys: the manager of a cluster distributes them; [agent.go] follows its
      versions and passes the keys on to the gossip database ([networkdb/cluster.go]) and to
      the overlay driver ([drivers/overlay/encryption.go]), which keeps the associations
      and policies of IPsec for every remote node.
      Overlay networks: the gossip database also tells the overlay driver the peers of a
      network on other nodes ([drivers/overlay/joinleave.go], [peerdb.go]); the driver
      programs them into the sandbox of the network ([ov_network.go],
      [osl/neigh_linux.go]) while a local endpoint has joined it, and counts the nodes that
      need encryption.
    - Containers.  [daemon/container/state.go] and [health.go] keep the state of a
      container and wake the callers that wait for it; [daemon/pause.go] and
      [daemon/unpause.go] change it; [daemon/internal/restartmanager] decides on restarts
      by the policies of [api/types/container/hostconfig.go].
    - Images.  [daemon/internal/refstore] maps references to image identifiers;
      [daemon/internal/layer] keeps the layers of images and containers by counting their
      references; [daemon/internal/image] keeps the images, each with a reference to its
      layer; [daemon/internal/distribution/xfer/transfer.go] shares and schedules the
      transfers of layers.
    - Volumes.  [daemon/volume/service] keeps the volumes with the containers that refer to
      them, and their drivers ([daemon/volume/drivers]).
    - Streams.  [api/pkg/stdcopy] multiplexes the output of a container;
      [daemon/internal/stream/bytespipe] buffers it between writers and readers;
      [daemon/logger/ring.go] and [daemon/logger/loggerutils/queue.go] are the buffers in
      front of the log drivers.

    ** Files

    - [Prelude]: Go integers as [Z] with their wrap-around, results with errors and panics
      ([go_result]), big-endian encoding, counting over ranges, hint databases and tactics.
      [Slices]: the functions of Go's [slices] and [strings] the code uses.
    - [Bitmap] models [sequence.go] function by function; [OrdinalSet] is the interface
      (operations and laws) that address sets rely on; [BitmapSpec] proves the laws for
      [Bitmap]; [BitmapTheorems] states the properties of the exported operations.
    - [Uint128], [NetIP] (Go's [net/netip]), [IPBits], [NetIPUtil]: address arithmetic.
    - [AddrSet] is written against [OrdinalSet], as are its proofs [AddrSetSpec];
      [AddrSetTheorems] gives the refinement to finite sets.
    - [DefaultIPAM] models [structures.go], [address_space.go] and [allocator.go];
      [DefaultIPAMSpec] has the invariant and the proof of the search for a free pool;
      [DefaultIPAMTheorems] the properties.
    - [PortAllocator], [PortAllocatorTheorems].
    - [ContainerState] (the state, its waiters as channels and goroutines, the health
      monitor), [ContainerStateTheorems]; [RestartManager] (model and theorems).
    - [RefStore], [RefStoreTheorems].
    - [StdCopy], [StdCopyTheorems]; [BytesPipe], [BytesPipeTheorems].
    - [NetworkDB] models [networkdb.go], [delegate.go], [nodemgmt.go], [event_delegate.go],
      [watch.go], [broadcast.go] and the periodic work of [cluster.go].  [NetworkDBPaths]:
      paths and prefix walks; [NetworkDBSpec]: the abstract view of the two trees and what
      the walks do; [NetworkDBInv] and [NetworkDBSteps]: the invariant and that every
      operation keeps it; [NetworkDBTheorems]: the properties.
    - [Counting]: counting the elements of a list.
    - [LayerStore] models [layer_store.go], [ro_layer.go] and [mounted_layer.go].
      [LayerStoreSpec]: the invariant on reference counts; [LayerStoreSystem]: it is kept
      by every section of every call; [LayerStoreRestore]: loading from the metadata
      directory; [LayerStoreTheorems]: the properties.
    - [ImageStore] models [store.go] and [fs.go] against the interface
      [LayerGetReleaser]; [ImageStoreSpec] proves what images retain against the interface
      and that [LayerStore] implements it; [ImageStoreFamily]: parents, children and
      restart; [ImageStoreTheorems]: the properties.
    - [LogRing], [LogRingTheorems] ([ring.go]); [LogQueue], [LogQueueTheorems]
      ([queue.go]).
    - [SortedMaps]: walking a map in the order of its keys.  [NFTables] models
      [nftables_linux.go] with the command files as lists of commands; [NFTablesSpec]: what
      each object does to a table and that tables stay well formed; [NFTablesUndo]:
      roll-back and reversal; [NFTablesKernel]: the rules that nft follows and the kernel
      they give; [NFTablesSync]: the kernel follows the table; [NFTablesTheorems].
    - [Datastore] models [datastore.go], [cache.go], [boltdb.go] and the update and delete
      of [libnetwork/store.go]; [DatastoreSpec]: the cache against the database;
      [DatastoreOps]: what each operation keeps; [DatastoreTheorems].
    - [Transfer] models [transfer.go] as a transition system; [TransferSpec]: the invariant;
      [TransferSteps]: every step keeps it; [TransferTheorems].
    - [VolumeStore] models [store.go], [db.go], [restore.go], [by.go] and [extpoint.go]
      against the class [VolumeDrivers]; [VolumeStoreSpec]: what each call changes;
      [VolumeStoreTheorems].
    - [SetMatrix] models [setmatrix.go] and [countmap.go].  [Discovery] models the records,
      services and endpoint events; [DiscoverySpec]: what the records and the services are
      for a table of endpoints; [DiscoverySteps]: every call keeps that relation;
      [DiscoveryTheorems]: the properties, the sections of additions and removals in any
      interleaving, and a concrete library.
    - [OverlayKeys] models [encryption.go] and the notifications of [overlay.go] against the
      class [Xfrm] (the netlink handle); [OverlayKeysSpec]: what each call does to the keys,
      the nodes and, by the laws [XfrmLaws], to the kernel, which the calls keep exact.
      [AgentKeys] models [SetKeys], [handleKeyChange] and the key part of
      [agentInit], with the key ring of [memberlist]; [AgentKeysSpec]: the loops, the sorting
      and the ring; [AgentKeysSteps]: a new version of the keys; [AgentKeysTheorems]: the
      properties, a kernel of two tables that keeps the laws, and examples.
    - [OverlayPeers] models [peerdb.go], [peer.go], [ov_network.go], [ov_endpoint.go],
      [joinleave.go], the rules of [encryption.go] and [neigh_linux.go] on the keys of
      [OverlayKeys], against the class [Host] (namespaces, links, iptables) and the class
      [PeerCodec] (peer records); [OverlayPeersSpec]: the laws [HostLaws] and [Healthy], and
      the tables of a sandbox for a set of peers; [OverlayPeersSteps]: the calls on one
      network keep its tables; [OverlayPeersTheorems]: all networks of a node, the
      properties, a host of tables that keeps the laws, and examples.

    Names follow the source; a method of a mutable object becomes a function from the state
    to the new state and the result.  A method that runs under the mutex of its object is
    one step.  Where the source waits or starts goroutines (container waiters, pending
    restarts, blocked pipe calls, the loop of [deleteFromStore], calls of the layer store around the graph driver, senders
    and closers of the log buffers, the goroutines of a transfer, additions and removals of
    service bindings) the pieces between two waits are steps of a transition
    relation, and the theorems quantify over all its runs.

    ** What the theorems show

    - Bit vector: the encoding invariant and the free count in every reachable state, the
      effect of each operation on every branch, allocation policy, counting, canonicity of
      the encoding, and the round trip through its binary form.
    - Address sets: every run of operations is a run of a finite-set specification, so no
      address is handed out twice; counts are exact in 128 bits.
    - IPAM: the invariant of address spaces; the search for a pool always ends and its
      result is free; master pools never share an address; address requests on every branch;
      releases undo requests; status counts and pool identifiers.
    - Ports: a granted port was free for all overlapping bindings, bindings stay exclusive,
      releases undo requests.
    - Container state: consistent flags, no lost wakeup and no blocked notification, exactly
      one result per wait, safe monitor channel.  Restarts: bounds, decision, backoff.
    - Reference store: refinement of a single map including failing writes, agreement of its
      two indexes, exact reload from its file.
    - Gossip database: nodes that receive the same events in any order converge; a watcher
      sees exactly the live entries of the other nodes; the trees, clocks, memberships and
      node lists stay consistent; writes propagate, a bulk sync catches up, and the reaper
      collects tombstones before the network.
    - Layer store: reference counts are exact in every interleaving and after a restore, so
      that no release panics, nothing in use is removed and nothing unused is kept;
      registering is deduplicated, a reference is released once, chains are bounded.
    - Image store: every image keeps its layers in any interleaving and beside other clients
      of the layer store; parents and children agree; a restart rebuilds the store.
    - Streams: the demultiplexer inverts the multiplexer however reads cut the stream and
      always returns; the pipe is a bounded queue in which every write hands over its bytes
      and no call panics, however often it waits.
    - Log buffers: the driver gets the accepted messages in order and [Close] returns; the
      message queue never sends on a closed channel, is a bounded queue, accepts nothing
      after [Close], and [Close] does not get stuck behind blocked senders.
    - Packet filter: through failing applications and leftovers of an earlier daemon the
      kernel has what the table says; incremental updates and reloads agree; a failed
      application leaves the kernel as it was; reversing a modifier undoes it.
    - Datastore: no write is lost in a run of one process, the cache is transparent to
      whoever leaves its objects alone, a delete ends when others let it.
    - Transfers: the limit on concurrent transfers and that no slot is lost; a watcher sees
      the last progress; a transfer in use is neither cancelled nor released, and a call
      that releases it returns.
    - Volumes: a reference protects its volume, a call touches one volume only, a created
      volume survives a restart, filters select what they say.
    - Service discovery: after the events of a sensible table the names, their addresses and
      the load balancers are exactly those of the table; in any interleaving of the locked
      sections no binding ends up in a service that nobody finds.
    - Encryption keys: after any rotations the controller, the gossip key ring and the
      driver have the keys of the last version with the second oldest as the primary one;
      the kernel has exactly the associations and policies of the nodes in use; hosts that
      are one version apart can read each other.
    - Overlay networks: every call returns, without endless recursion and without a missing
      sandbox being dereferenced; on a healthy host the sandbox of a network has
      the neighbours and forwarding entries of exactly the peers of its table, in whatever
      order sandboxes, peers and keys come and go, and the traffic to the peers of an
      encrypted network is encrypted in both directions.
    - Deviations from the documented behaviour are stated as theorems or lemmas as well, for
      instance [nested_reserved_overlap], [New_overflow], [add_retry_unsaved],
      [leave_hits_longer_id], [failed_deletion_leaks_parent], [create_delete_race],
      [failed_apply_reorders], [restart_loses_update], [Map_missing_parent],
      [probed_volume_forgotten], [or_ignores_drivers], [permuted_ports_leak],
      [getLBIndex_panics], [query_resp_never_matches],
      [missed_version_keeps_stale_key], [refused_update_forgets_nodes],
      [leave_after_reset_panics], [prune_primary_panics],
      [retried_join_forgets_peers], [foreign_address_drops_encryption],
      [conflict_leaves_entries], [leave_leaks_encryption] and [failed_join_keeps_sandbox].

    ** Bounds and fuel

    Recursion that is not structural carries fuel, and the theorems show that the fuel
    given is enough, never that results are right only if it was: 32 steps scan the bits
    of a block; the search for a free bit looks at a run at most twice; [OnesCount]
    visits each run at most twice ([2 * length + 2]); the pool search makes progress in
    the allocated, the reserved or the predefined list at every turn (the sum of their
    lengths and one); binary search halves an interval bounded by the length of the
    slice; the port search visits each port of its range once; a read loop of [StdCopy]
    consumes a byte or a chunk per turn and its outer loop at least a header; a [Write]
    to the pipe writes a byte per turn after the first; a bulk sync makes one turn per
    network; the release of a layer and the depth and size of a chain go to parents, which
    are older than the layer (its number and one); loading a layer follows a chain of
    distinct files (their number and one); the calls of [deleteFromStore] are steps without
    fuel, of which there are at most [2 * m + 3] when other callers of the store make [m]
    calls in between; the loop of [addServiceBinding] makes one turn when no removal is in
    between; joining a sandbox comes back to itself through the known peers only once, since
    the sandbox counts as initialised by then (two turns, [joinFuel]).

    ** What is not modelled

    System calls, containerd, the network drivers, HTTP routes, the registry protocol,
    BuildKit and swarm are left out; their effects are arguments where the modelled code
    depends on them (the result of a runtime call, of a write to disk, the range of dynamic
    ports, the time).  Text formatting ([String] methods) and JSON are left out, except that
    the parser and the printer of prefixes and the parser of image references are parameters
    with their round trip as a hypothesis.  Go's [int] counters that cannot reach their
    width in practice (restart counts, bytes written, sizes of layers and buffers) are
    unbounded.  Of the gossip database the transport, its retransmission queues and the
    encoding of messages are left out; of the layer store the tar streams and the removal of
    orphaned directories.  The tool nft, bbolt, volume drivers and plugins are parameters or
    follow documented rules that are stated as hypotheses.  The functions that download or
    upload a layer are any that follow the protocol of the transfer manager (wait for the
    start, then perhaps become inactive, close their progress last).  The calls of service
    discovery into the data plane (IPVS, sandboxes) are recorded; the part of the agent that
    announces the tasks of the node itself is left out.  The transformation tables of the
    kernel follow documented rules; the properties of the keys are for agents that miss no
    version, for versions whose times fit the 32 bits of a tag and for nodes whose indices
    the hash keeps apart.  Namespaces,
    links and iptables follow the rules of [HostLaws]; the properties of the peers of overlay
    networks are for a host on which nothing fails, networks whose sandboxes and devices have
    names of their own, and tables without an address or a MAC address twice and without
    addresses outside of the subnets.  Static routes between the subnets of an overlay network
    are left out.

    ** Plan

    What is left that could be modelled in the same way: the retries of downloads and
    uploads, the firewall rules of the bridge driver, the announcements of the
    agent for the tasks of the node. *)

From Stdlib Require Export ZArith Lia.
From stdpp Require Export base list gmap strings numbers option.

#[global] Open Scope Z_scope.

(** ** Machine integers

    Go's unsigned integers are modelled as [Z] values in range, with the
    wrap-around of every operation written out. *)

Definition wrap64 (z : Z) : Z := z mod 2 ^ 64.
Definition wrap32 (z : Z) : Z := z mod 2 ^ 32.

Definition add64 (x y : Z) : Z := wrap64 (x + y).
Definition sub64 (x y : Z) : Z := wrap64 (x - y).
Definition mul64 (x y : Z) : Z := wrap64 (x * y).

Declare Scope u64_scope.
Delimit Scope u64_scope with u64.
Infix "⊞" := add64 (at level 50, left associativity) : u64_scope.
Infix "⊟" := sub64 (at level 50, left associativity) : u64_scope.
Infix "⊠" := mul64 (at level 40, left associativity) : u64_scope.

(** The range predicates of the widths the code uses. *)
Definition is_u64 (z : Z) : Prop := 0 <= z < 2 ^ 64.
Definition is_u32 (z : Z) : Prop := 0 <= z < 2 ^ 32.
Definition is_byte (z : Z) : Prop := 0 <= z < 256.

(** Outcome of a Go call that returns a value and an error, and that may panic. *)
Inductive go_result (E A : Type) : Type :=
| GoOk (a : A)
| GoErr (e : E)
| GoPanic.
Arguments GoOk {E A} a.
Arguments GoErr {E A} e.
Arguments GoPanic {E A}.

(** [err != nil] *)
Definition is_err {E} (err : option E) : bool :=
  match err with Some _ => true | None => false end.

(** ** encoding/binary, big endian *)

(** [binary.BigEndian.PutUintN] of an [8*n]-bit value, as a list of bytes. *)
Fixpoint be_put (n : nat) (z : Z) : list Z :=
  match n with
  | O => []
  | S n' => (Z.shiftr z (8 * Z.of_nat n')) mod 256 :: be_put n' z
  end.

(** [binary.BigEndian.UintN] of the bytes given. *)
Fixpoint be_get (acc : Z) (bs : list Z) : Z :=
  match bs with
  | [] => acc
  | b :: bs' => be_get (Z.lor (Z.shiftl acc 8) b) bs'
  end.

(** ** Machine-integer lemmas *)

Create Rewrite HintDb u64.

Lemma wrap64_small z : 0 <= z < 2 ^ 64 -> wrap64 z = z.
Proof. intros. unfold wrap64. by apply Z.mod_small. Qed.

Lemma add64_small x y : 0 <= x + y < 2 ^ 64 -> add64 x y = x + y.
Proof. apply wrap64_small. Qed.

Lemma sub64_small x y : 0 <= x - y < 2 ^ 64 -> sub64 x y = x - y.
Proof. apply wrap64_small. Qed.

Lemma mul64_small x y : 0 <= x * y < 2 ^ 64 -> mul64 x y = x * y.
Proof. apply wrap64_small. Qed.

Lemma wrap64_range z : 0 <= wrap64 z < 2 ^ 64.
Proof. apply Z.mod_pos_bound. lia. Qed.

Lemma wrap32_small z : 0 <= z < 2 ^ 32 -> wrap32 z = z.
Proof. intros. unfold wrap32. by apply Z.mod_small. Qed.

Lemma wrap32_range z : 0 <= wrap32 z < 2 ^ 32.
Proof. apply Z.mod_pos_bound. lia. Qed.

#[export] Hint Rewrite wrap64_small add64_small sub64_small mul64_small using lia : u64.

(** Remove the wrap-around of every operation whose exact result is in range. *)
Ltac no_wrap := autorewrite with u64.
Ltac no_wrap_in H := autorewrite with u64 in H.

(** Linear arithmetic with division and remainder by constants. *)
Ltac dlia := Z.to_euclidean_division_equations; lia.

(** ** Bits of Z *)

Lemma testbit_high (b k w : Z) : 0 <= b < 2 ^ w -> 0 <= w <= k -> Z.testbit b k = false.
Proof.
  intros Hb Hk. destruct (Z.eq_dec b 0) as [->|Hne]; [apply Z.testbit_0_l|].
  apply Z.bits_above_log2; [lia|].
  assert (Z.log2 b < w) by (apply Z.log2_lt_pow2; lia). lia.
Qed.

Lemma u32_bits_ext (a b : Z) :
  is_u32 a -> is_u32 b ->
  (forall k, 0 <= k < 32 -> Z.testbit a k = Z.testbit b k) -> a = b.
Proof.
  intros Ha Hb H. apply Z.bits_inj'. intros k Hk.
  destruct (Z.lt_ge_cases k 32) as [Hlt|Hge]; [apply H; lia|].
  unfold is_u32 in *. by rewrite !(testbit_high _ k 32) by lia.
Qed.

Lemma pow2_testbit (k i : Z) : 0 <= k -> Z.testbit (2 ^ k) i = (k =? i).
Proof.
  intros Hk. destruct (Z.eqb_spec k i) as [->|Hne].
  - by apply Z.pow2_bits_true.
  - by apply Z.pow2_bits_false.
Qed.

Lemma land_pow2_eq0 (b k : Z) : 0 <= k -> (Z.land b (2 ^ k) =? 0) = negb (Z.testbit b k).
Proof.
  intros Hk. destruct (Z.eqb_spec (Z.land b (2 ^ k)) 0) as [E|E].
  - assert (H : Z.testbit (Z.land b (2 ^ k)) k = false) by (rewrite E; apply Z.testbit_0_l).
    rewrite Z.land_spec, Z.pow2_bits_true, andb_true_r in H by done. by rewrite H.
  - destruct (Z.testbit b k) eqn:Hb; [done|]. exfalso. apply E.
    apply Z.bits_inj'. intros i Hi.
    rewrite Z.land_spec, Z.testbit_0_l, pow2_testbit by done.
    destruct (Z.eqb_spec k i) as [->|]; [by rewrite Hb | by rewrite andb_false_r].
Qed.

(** Joining a shifted value and a value below the shift is adding them. *)
Lemma lor_shiftl_add (a b w : Z) :
  0 <= w -> 0 <= b < 2 ^ w -> Z.lor (Z.shiftl a w) b = a * 2 ^ w + b.
Proof.
  intros Hw Hb. assert (Hd : Z.land (Z.shiftl a w) b = 0).
  { apply Z.bits_inj'. intros i Hi. rewrite Z.land_spec, Z.testbit_0_l.
    destruct (Z.lt_ge_cases i w) as [Hlt|Hge].
    - by rewrite Z.shiftl_spec_low by lia.
    - rewrite (testbit_high b i w) by lia. apply andb_false_r. }
  rewrite <- Z.lxor_lor, <- Z.add_nocarry_lxor by done.
  by rewrite Z.shiftl_mul_pow2 by done.
Qed.

Lemma is_u32_of_bits (a : Z) :
  0 <= a -> (forall k, 32 <= k -> Z.testbit a k = false) -> is_u32 a.
Proof.
  intros Ha H. split; [done|]. destruct (Z.eq_dec a 0) as [->|]; [done|].
  apply Z.log2_lt_pow2; [lia|]. destruct (Z.lt_ge_cases (Z.log2 a) 32) as [|Hge]; [done|].
  pose proof (Z.bit_log2 a ltac:(lia)) as Hb. rewrite H in Hb by lia. done.
Qed.

(** ** Counting the elements of an interval that satisfy a test *)

Fixpoint count_from (f : Z -> bool) (lo : Z) (n : nat) : Z :=
  match n with
  | O => 0
  | S n' => Z.b2z (f lo) + count_from f (lo + 1) n'
  end.

(** The number of [i] with [lo <= i < hi] and [f i]. *)
Definition count_in (f : Z -> bool) (lo hi : Z) : Z := count_from f lo (Z.to_nat (hi - lo)).

Lemma count_in_empty f lo hi : hi <= lo -> count_in f lo hi = 0.
Proof. intros. unfold count_in. by replace (Z.to_nat (hi - lo)) with O by lia. Qed.

Lemma count_in_step f lo hi :
  lo < hi -> count_in f lo hi = Z.b2z (f lo) + count_in f (lo + 1) hi.
Proof.
  intros. unfold count_in. replace (Z.to_nat (hi - lo)) with (S (Z.to_nat (hi - (lo + 1)))) by lia.
  done.
Qed.

(** Induction on the length of an interval of integers. *)
Lemma interval_ind (P : Z -> Prop) (hi : Z) :
  (forall lo, hi <= lo -> P lo) ->
  (forall lo, lo < hi -> P (lo + 1) -> P lo) ->
  forall lo, P lo.
Proof.
  intros H0 HS lo. remember (Z.to_nat (hi - lo)) as n eqn:Hn. revert lo Hn.
  induction n as [|n IH]; intros lo Hn; [apply H0; lia|].
  apply HS; [lia|]. apply IH. lia.
Qed.

Lemma count_in_bounds f lo hi : lo <= hi -> 0 <= count_in f lo hi <= hi - lo.
Proof.
  revert lo. apply (interval_ind (fun lo => lo <= hi -> 0 <= count_in f lo hi <= hi - lo) hi).
  - intros lo ??. rewrite count_in_empty by lia. lia.
  - intros lo Hlo IH _. rewrite count_in_step by lia.
    specialize (IH ltac:(lia)). destruct (f lo); simpl; lia.
Qed.

Lemma count_in_split f lo mid hi :
  lo <= mid <= hi -> count_in f lo hi = count_in f lo mid + count_in f mid hi.
Proof.
  revert lo. apply (interval_ind (fun lo => lo <= mid <= hi ->
    count_in f lo hi = count_in f lo mid + count_in f mid hi) mid).
  - intros lo ? ?. replace lo with mid by lia. rewrite (count_in_empty f mid mid) by lia. lia.
  - intros lo Hlo IH ?. rewrite (count_in_step f lo hi), (count_in_step f lo mid) by lia.
    rewrite IH by lia. lia.
Qed.

Lemma count_in_ext f g lo hi :
  (forall i, lo <= i < hi -> f i = g i) -> count_in f lo hi = count_in g lo hi.
Proof.
  revert lo. apply (interval_ind (fun lo => (forall i, lo <= i < hi -> f i = g i) ->
    count_in f lo hi = count_in g lo hi) hi).
  - intros. by rewrite !count_in_empty by lia.
  - intros lo Hlo IH H. rewrite !(count_in_step _ lo) by lia.
    rewrite H by lia. rewrite IH; [done|]. intros. apply H. lia.
Qed.

Lemma count_in_false f lo hi :
  (forall i, lo <= i < hi -> f i = false) -> count_in f lo hi = 0.
Proof.
  intros H. rewrite (count_in_ext f (fun _ => false) lo hi H).
  revert lo H. apply (interval_ind (fun lo => _ -> count_in (fun _ => false) lo hi = 0) hi).
  - intros. by rewrite count_in_empty by lia.
  - intros lo Hlo IH H. rewrite count_in_step by lia. simpl. apply IH. intros; apply H; lia.
Qed.

Lemma count_in_zero f lo hi i :
  count_in f lo hi = 0 -> lo <= i < hi -> f i = false.
Proof.
  intros Hz Hi. rewrite (count_in_split f lo i hi), (count_in_step f i hi) in Hz by lia.
  pose proof (count_in_bounds f lo i ltac:(lia)). pose proof (count_in_bounds f (i + 1) hi ltac:(lia)).
  destruct (f i); simpl in Hz; [lia|done].
Qed.

Lemma count_in_full f lo hi :
  lo <= hi -> count_in f lo hi = hi - lo <-> (forall i, lo <= i < hi -> f i = true).
Proof.
  revert lo. apply (interval_ind (fun lo => lo <= hi ->
    count_in f lo hi = hi - lo <-> (forall i, lo <= i < hi -> f i = true)) hi).
  - intros lo ??. rewrite count_in_empty by lia. split; intros; lia.
  - intros lo Hlo IH _. rewrite count_in_step by lia.
    pose proof (count_in_bounds f (lo + 1) hi ltac:(lia)) as Hb.
    destruct (IH ltac:(lia)) as [IH1 IH2]. split.
    + intros Hc i Hi. destruct (f lo) eqn:Hf; simpl in Hc; [|lia].
      destruct (Z.eq_dec i lo) as [->|]; [done|]. apply IH1; lia.
    + intros H. rewrite (H lo) by lia. simpl.
      rewrite IH2; [lia|]. intros; apply H; lia.
Qed.

(** Changing one element of the interval. *)
Lemma count_in_update f g o lo hi :
  lo <= o < hi -> (forall i, i <> o -> g i = f i) ->
  count_in g lo hi = count_in f lo hi - Z.b2z (f o) + Z.b2z (g o).
Proof.
  intros Ho H. rewrite (count_in_split g lo o hi), (count_in_split f lo o hi) by lia.
  rewrite (count_in_step g o hi), (count_in_step f o hi) by lia.
  rewrite (count_in_ext g f lo o) by (intros; apply H; lia).
  rewrite (count_in_ext g f (o + 1) hi) by (intros; apply H; lia). lia.
Qed.

Lemma count_in_shift f lo hi d :
  count_in (fun i => f (i + d)) lo hi = count_in f (lo + d) (hi + d).
Proof.
  revert lo. apply (interval_ind (fun lo =>
    count_in (fun i => f (i + d)) lo hi = count_in f (lo + d) (hi + d)) hi).
  - intros. by rewrite !count_in_empty by lia.
  - intros lo Hlo IH. rewrite (count_in_step _ lo), (count_in_step f (lo + d)) by lia.
    rewrite IH. do 2 f_equal. lia.
Qed.

(** ** The first element of an interval that fails a test *)

(** [r] is the least index of [[lo, hi)] where [f] is false. *)
Definition first_unset (f : Z -> bool) (lo hi r : Z) : Prop :=
  lo <= r < hi /\ f r = false /\ (forall i, lo <= i < r -> f i = true).

Lemma first_unset_unique f lo hi r r' :
  first_unset f lo hi r -> first_unset f lo hi r' -> r = r'.
Proof.
  intros (?&Hr&H) (?&Hr'&H').
  destruct (Z.lt_trichotomy r r') as [Hlt|[->|Hlt]]; [|done|].
  - rewrite H' in Hr by lia. done.
  - rewrite H in Hr' by lia. done.
Qed.

Lemma first_unset_skip f lo mid hi r :
  lo <= mid -> (forall i, lo <= i < mid -> f i = true) ->
  first_unset f mid hi r -> first_unset f lo hi r.
Proof.
  intros Hle Hset (Hr&Hf&H). split; [lia|]. split; [done|].
  intros i Hi. destruct (Z.lt_ge_cases i mid); [apply Hset; lia | apply H; lia].
Qed.

(** ** encoding/binary lemmas *)

Lemma be_put_length n z : length (be_put n z) = n.
Proof. induction n as [|n IH]; simpl; [done|]. by rewrite IH. Qed.

Lemma be_get_app acc bs z : be_get acc (bs ++ z) = be_get (be_get acc bs) z.
Proof. revert acc. induction bs as [|b bs IH]; intros acc; simpl; [done|apply IH]. Qed.

Lemma be_get_put_aux n acc z :
  0 <= acc ->
  be_get acc (be_put n z) = acc * 2 ^ (8 * Z.of_nat n) + z mod 2 ^ (8 * Z.of_nat n).
Proof.
  revert acc. induction n as [|n IH]; intros acc Hacc.
  - simpl. rewrite Z.mod_1_r. lia.
  - cbn [be_put be_get]. set (b := Z.shiftr z (8 * Z.of_nat n) mod 256).
    assert (Hb : 0 <= b < 256) by (apply Z.mod_pos_bound; lia).
    assert (Hlor : Z.lor (Z.shiftl acc 8) b = acc * 256 + b)
      by (rewrite (lor_shiftl_add acc b 8) by lia; lia).
    rewrite Hlor, IH by lia.
    subst b. rewrite Z.shiftr_div_pow2 by lia.
    replace (8 * Z.of_nat (S n)) with (8 * Z.of_nat n + 8) by lia.
    rewrite Z.pow_add_r by lia. change (2 ^ 8) with 256.
    rewrite (Z.rem_mul_r z (2 ^ (8 * Z.of_nat n)) 256) by lia. lia.
Qed.

Lemma be_get_put n z :
  0 <= z < 2 ^ (8 * Z.of_nat n) -> be_get 0 (be_put n z) = z.
Proof. intros Hz. rewrite be_get_put_aux by lia. rewrite Z.mod_small by done. lia. Qed.

Lemma be_get_put_mod n z : be_get 0 (be_put n z) = z mod 2 ^ (8 * Z.of_nat n).
Proof. rewrite be_get_put_aux by lia. lia. Qed.

Lemma be_put_app n m z :
  be_put (n + m) z = be_put n (z / 2 ^ (8 * Z.of_nat m)) ++ be_put m z.
Proof.
  induction n as [|n IH]; [done|]. cbn [be_put Nat.add app]. rewrite IH. f_equal. f_equal.
  rewrite !Z.shiftr_div_pow2, Z.div_div by lia. rewrite <- Z.pow_add_r by lia. do 2 f_equal. lia.
Qed.

Lemma be_put_mod n k z : (n <= k)%nat -> be_put n (z mod 2 ^ (8 * Z.of_nat k)) = be_put n z.
Proof.
  induction n as [|n IH]; intros Hn; [done|]. cbn [be_put]. rewrite IH by lia. f_equal.
  change 256 with (2 ^ 8). rewrite <- !Z.land_ones by lia. apply Z.bits_inj'. intros i Hi.
  rewrite !Z.land_spec, !Z.shiftr_spec by done. destruct (Z.lt_ge_cases i 8).
  - rewrite Z.land_spec, (Z.ones_spec_low (8 * Z.of_nat k)) by lia. by rewrite andb_true_r.
  - by rewrite Z.ones_spec_high, !andb_false_r by lia.
Qed.

Lemma be_get_nonneg bs acc : 0 <= acc -> Forall is_byte bs -> 0 <= be_get acc bs.
Proof.
  intros Ha Hbs. revert acc Ha. induction Hbs as [|b bs [??] _ IH]; intros acc Ha; simpl; [done|].
  apply IH. apply Z.lor_nonneg. split; [by apply Z.shiftl_nonneg|done].
Qed.

Lemma be_get_bound bs :
  Forall is_byte bs -> 0 <= be_get 0 bs < 2 ^ (8 * Z.of_nat (length bs)).
Proof.
  assert (H : forall acc, 0 <= acc -> Forall is_byte bs ->
    acc * 2 ^ (8 * Z.of_nat (length bs)) <= be_get acc bs
    < (acc + 1) * 2 ^ (8 * Z.of_nat (length bs))).
  { induction bs as [|b bs IH]; intros acc Ha Hbs; [simpl; lia|].
    inversion Hbs as [|? ? [Hb0 Hb1] Hbs']; subst. cbn [be_get length].
    rewrite (lor_shiftl_add acc b 8) by lia.
    specialize (IH (acc * 2 ^ 8 + b) ltac:(lia) Hbs').
    replace (8 * Z.of_nat (S (length bs))) with (8 + 8 * Z.of_nat (length bs)) by lia.
    rewrite Z.pow_add_r by lia. change (2 ^ 8) with 256 in *.
    pose proof (Z.pow_pos_nonneg 2 (8 * Z.of_nat (length bs)) ltac:(lia) ltac:(lia)). nia. }
  intros Hbs. specialize (H 0 ltac:(lia) Hbs). lia.
Qed.

(** ** List lemmas *)

Lemma take_app_exact {A} (l k : list A) n : n = length l -> take n (l ++ k) = l.
Proof. intros ->. apply take_app_length. Qed.

Lemma drop_app_exact {A} (l k : list A) n : n = length l -> drop n (l ++ k) = k.
Proof. intros ->. apply drop_app_length. Qed.

#[global] Arguments be_put : simpl never.
#[global] Arguments be_get : simpl never.
