(* ===== verification/Slices.v ===== *)
(** * Go slices and strings

    The functions of Go's [slices] and [strings] packages the components use,
    with the facts about them that the proofs share. *)

From Stdlib Require Export Sorted.
From S2P Require Import Prelude.

Section Slices.
Context {A : Type}.
Implicit Types (l : list A) (cmp : A -> A -> Z).

(** The loop of [slices.BinarySearchFunc] on the window [[i, j)]. *)
Fixpoint search_loop (fuel : nat) l (target : A) cmp (i j : nat) : nat :=
  match fuel with
  | O => i
  | S fuel =>
      if (i <? j)%nat then
        let h := ((i + j) / 2)%nat in
        match l !! h with
        | Some x => if cmp x target <? 0 then search_loop fuel l target cmp (S h) j
                    else search_loop fuel l target cmp i h
        | None => i
        end
      else i
  end.

(** [slices.BinarySearchFunc]: the position and whether the target is there.  The
    window shrinks in every round, so the length of the slice is enough fuel. *)
Definition BinarySearchFunc l (target : A) cmp : nat * bool :=
  let i := search_loop (length l) l target cmp 0 (length l) in
  (i, match l !! i with Some x => cmp x target =? 0 | None => false end).

(** [slices.Insert] of one element, for [i <= len]. *)
Definition insert_at (i : nat) (x : A) l : list A := take i l ++ x :: drop i l.

(** [slices.Delete(l, i, i+1)]. *)
Definition delete_at (i : nat) l : list A := take i l ++ drop (S i) l.

(** [slices.SortFunc]: insertion sort, what it runs on up to 12 elements; the
    sorted list is unique up to the order of elements that compare equal. *)
Fixpoint sort_insert cmp (x : A) l : list A :=
  match l with
  | [] => [x]
  | y :: l' => if cmp x y <? 0 then x :: l else y :: sort_insert cmp x l'
  end.

Definition SortFunc cmp l : list A := foldl (fun acc x => sort_insert cmp x acc) [] l.

(** ** Facts *)

(** The search ends at the boundary between the elements below the target and
    the rest, when there is one. *)
Lemma search_loop_spec fuel l target cmp i j b :
  (j - i <= fuel)%nat -> (i <= b <= j)%nat -> (j <= length l)%nat ->
  (forall k x, l !! k = Some x -> (k < b)%nat <-> cmp x target < 0) ->
  search_loop fuel l target cmp i j = b.
Proof.
  revert i j. induction fuel as [|fuel IH]; intros i j Hf Hb Hj Hcut; cbn [search_loop]; [lia|].
  destruct (Nat.ltb_spec i j) as [Hij|]; [|lia].
  assert (Hh : (i <= (i + j) / 2 < j)%nat).
  { split; [apply Nat.div_le_lower_bound|apply Nat.Div0.div_lt_upper_bound]; lia. }
  cbv zeta. set (h := ((i + j) / 2)%nat) in *.
  destruct (l !! h) as [x|] eqn:Hx; [|apply lookup_ge_None in Hx; lia].
  specialize (Hcut h x Hx) as Hc. destruct (Z.ltb_spec (cmp x target) 0) as [Hlt|Hge].
  - apply IH; try done; lia.
  - apply IH; try done; lia.
Qed.

Lemma BinarySearchFunc_spec l target cmp b :
  (b <= length l)%nat ->
  (forall k x, l !! k = Some x -> (k < b)%nat <-> cmp x target < 0) ->
  BinarySearchFunc l target cmp
  = (b, match l !! b with Some x => cmp x target =? 0 | None => false end).
Proof.
  intros Hb Hcut. unfold BinarySearchFunc.
  by rewrite (search_loop_spec (length l) l target cmp 0 (length l) b) by (done || lia).
Qed.

Lemma insert_at_perm i x l : insert_at i x l ≡ₚ x :: l.
Proof. unfold insert_at. by rewrite <- Permutation_middle, take_drop. Qed.

Lemma elem_of_insert_at i x l y : y ∈ insert_at i x l <-> y = x \/ y ∈ l.
Proof. rewrite insert_at_perm. apply elem_of_cons. Qed.

Lemma delete_at_perm i x l : l !! i = Some x -> x :: delete_at i l ≡ₚ l.
Proof.
  intros Hx. unfold delete_at. rewrite <- (take_drop_middle l i x Hx) at 3. apply Permutation_middle.
Qed.

Lemma sort_insert_perm cmp x l : sort_insert cmp x l ≡ₚ x :: l.
Proof.
  induction l as [|y l IH]; simpl; [done|]. destruct (cmp x y <? 0); [done|].
  rewrite IH. apply Permutation_swap.
Qed.

Lemma SortFunc_perm cmp l : SortFunc cmp l ≡ₚ l.
Proof.
  unfold SortFunc. enough (H : forall acc, foldl (fun acc x => sort_insert cmp x acc) acc l ≡ₚ acc ++ l).
  { by rewrite H. }
  induction l as [|x l IH]; intros acc; simpl; [by rewrite app_nil_r|].
  rewrite IH, sort_insert_perm. simpl. apply Permutation_middle.
Qed.

Lemma sort_insert_sorted (R : A -> A -> Prop) cmp x l `{!Transitive R} :
  (forall a b, a ∈ x :: l -> b ∈ x :: l -> cmp a b < 0 -> R a b) ->
  (forall a b, a ∈ x :: l -> b ∈ x :: l -> 0 <= cmp a b -> R b a) ->
  StronglySorted R l -> StronglySorted R (sort_insert cmp x l).
Proof.
  intros Hlt Hge Hs. induction Hs as [|y l Hs IH Hall]; simpl; [by repeat constructor|].
  destruct (Z.ltb_spec (cmp x y) 0) as [Hxy|Hxy].
  - assert (R x y) by (apply Hlt; [left|right; left|done]).
    constructor; [by constructor|]. constructor; [done|].
    apply (Forall_impl (R x) (P:=R y)); [|exact Hall]. intros z ?. by transitivity y.
  - constructor.
    + apply IH; intros a b Ha Hb; [apply Hlt|apply Hge]; set_solver.
    + rewrite sort_insert_perm. constructor; [|done]. apply Hge; [left|right; left|done].
Qed.

Lemma SortFunc_sorted (R : A -> A -> Prop) cmp l `{!Transitive R} :
  (forall a b, a ∈ l -> b ∈ l -> cmp a b < 0 -> R a b) ->
  (forall a b, a ∈ l -> b ∈ l -> 0 <= cmp a b -> R b a) ->
  StronglySorted R (SortFunc cmp l).
Proof.
  intros Hlt Hge. unfold SortFunc.
  enough (H : forall l1 acc, (forall a, a ∈ acc ++ l1 -> a ∈ l) -> StronglySorted R acc ->
    StronglySorted R (foldl (fun acc x => sort_insert cmp x acc) acc l1)).
  { apply H; [done|constructor]. }
  induction l1 as [|x l1 IH]; intros acc Hin Hs; simpl; [done|]. apply IH.
  - intros a. rewrite sort_insert_perm. intros Ha. apply Hin. set_solver.
  - apply sort_insert_sorted; [done| | |done]; intros a b Ha Hb; [apply Hlt|apply Hge]; apply Hin; set_solver.
Qed.

End Slices.

(** ** Strings *)

(** [strings.Split(s, sep)] for a one-character separator. *)
Fixpoint Split (s : string) (sep : Ascii.ascii) : list string :=
  match s with
  | EmptyString => [EmptyString]
  | String c s' =>
      if Ascii.eqb c sep then EmptyString :: Split s' sep
      else match Split s' sep with
           | p :: ps => String c p :: ps
           | [] => [String c EmptyString]
           end
  end.

Fixpoint has_char (c : Ascii.ascii) (s : string) : bool :=
  match s with
  | EmptyString => false
  | String c' s' => Ascii.eqb c' c || has_char c s'
  end.

Lemma Split_nonempty s sep : Split s sep <> [].
Proof. destruct s; simpl; [done|]. destruct (Ascii.eqb a sep); [done|]. by destruct (Split s sep). Qed.

Lemma Split_none s sep : has_char sep s = false -> Split s sep = [s].
Proof.
  induction s as [|c s IH]; simpl; [done|]. destruct (Ascii.eqb c sep); simpl; [done|].
  intros H. by rewrite IH.
Qed.

(** Splitting at the first separator. *)
Lemma Split_app s t sep :
  has_char sep s = false -> Split (s ++ String sep t) sep = s :: Split t sep.
Proof.
  induction s as [|c s IH]; simpl; [by rewrite Ascii.eqb_refl|].
  destruct (Ascii.eqb c sep); simpl; [done|]. intros H. by rewrite IH.
Qed.

Lemma append_cons_assoc x c y z : ((x ++ String c y) ++ z = x ++ String c (y ++ z))%string.
Proof.
  induction x as [|ch x IH]; [done|].
  change (String ch ((x ++ String c y) ++ z) = String ch (x ++ String c (y ++ z)))%string. by rewrite IH.
Qed.
