(* ===== verification/Bitmap.v ===== *)
(** * The run-length encoded bit vector

    Model of [daemon/libnetwork/bitmap/sequence.go]: a [Bitmap] is a
    fixed-length vector of bits kept as a linked list of run-length encoded
    32-bit blocks.  The linked list of [*sequence] nodes is owned by one
    [Bitmap] and is never shared (the Go type is marked [noCopy]), so it is a
    Rocq list here; a pointer into the middle of it is the list split at that
    node.  All positions, counts and ordinals are [uint64], blocks are
    [uint32]. *)

From S2P Require Import Prelude.
Open Scope u64_scope.

(** ** Data *)

Definition blockLen : Z := 32.
Definition blockBytes : Z := 4.
Definition blockMAX : Z := 2 ^ 32 - 1.
Definition blockFirstBit : Z := 2 ^ 31.
Definition invalidPos : Z := 2 ^ 64 - 1.

(** The errors of the package.  [ErrRange] stands for the formatted "invalid
    bit range" errors, [ErrOrdinal] for "bit does not belong to the sequence".
    [ErrFuel] is not an error of the Go code: it marks a [retry] loop that did
    not finish within the model's fuel, and is proved never to occur. *)
Inductive BitErr :=
| ErrNoBitAvailable
| ErrBitAllocated
| ErrRange
| ErrOrdinal
| ErrFuel.

Record sequence := mkSeq { sq_block : Z; sq_count : Z }.

Record Bitmap := mkBitmap {
  bm_bits : Z;
  bm_unselected : Z;
  bm_head : list sequence;
  bm_curr : Z
}.

(** ** Construction *)

Definition New (n : Z) : Bitmap :=
  mkBitmap n n [mkSeq 0 ((n ⊞ blockLen ⊟ 1) / blockLen)] 0.

Fixpoint getCopy (s : list sequence) : list sequence :=
  match s with
  | [] => []
  | p :: ps => mkSeq (sq_block p) (sq_count p) :: getCopy ps
  end.

Definition Copy (b : Bitmap) : Bitmap :=
  mkBitmap (bm_bits b) (bm_unselected b) (getCopy (bm_head b)) (bm_curr b).

(** ** Searching a block *)

(** The [for bitSel > 0 && s.block&bitSel != 0] loop; [bitSel] is a [uint32]
    that loses one bit per round, so 32 rounds always reach its exit. *)
Fixpoint bitScan (fuel : nat) (blk bitSel bits : Z) : Z * Z :=
  match fuel with
  | O => (bitSel, bits)
  | S fuel' =>
      if (0 <? bitSel) && negb (Z.land blk bitSel =? 0)
      then bitScan fuel' blk (Z.shiftr bitSel 1) (bits ⊞ 1)
      else (bitSel, bits)
  end.

Definition getAvailableBit (s : sequence) (from : Z) : Z * Z * option BitErr :=
  if (sq_block s =? blockMAX) || (sq_count s =? 0)
  then (invalidPos, invalidPos, Some ErrNoBitAvailable)
  else
    let '(bitSel, bits) := bitScan 32 (sq_block s) (Z.shiftr blockFirstBit from) from in
    if bitSel =? 0
    then (invalidPos, invalidPos, Some ErrNoBitAvailable)
    else (bits / 8, bits mod 8, None).

Fixpoint equal (this other : list sequence) : bool :=
  match this, other with
  | [], [] => true
  | [], _ :: _ => false
  | _ :: _, [] => false
  | a :: this', b :: other' =>
      if negb (sq_block a =? sq_block b) || negb (sq_count a =? sq_count b)
      then false
      else equal this' other'
  end.

(** ** Positions *)

Definition ordinalToPos (ordinal : Z) : Z * Z := (ordinal / 8, ordinal mod 8).
Definition posToOrdinal (bytePos bitPos : Z) : Z := bytePos ⊠ 8 ⊞ bitPos.

(** What [findSequence] returns when the byte is inside the list: the nodes
    before the one that holds the byte, that node, the nodes after it, the
    number of its blocks that precede the byte's block, and the position of the
    byte in its block.  The Go pointer [previous] is the last node of
    [fs_before], or the head itself when there is none. *)
Record found := mkFound {
  fs_before : list sequence;
  fs_current : sequence;
  fs_after : list sequence;
  fs_precBlocks : Z;
  fs_inBlockBytePos : Z
}.

Fixpoint findSequenceLoop (before : list sequence) (current : sequence)
    (after : list sequence) (n bytePos : Z) : option found :=
  match after with
  | next :: after' =>
      if sq_count current ⊠ blockBytes <=? n
      then findSequenceLoop (before ++ [current]) next after'
             (n ⊟ (sq_count current ⊠ blockBytes)) bytePos
      else Some (mkFound before current after (n / blockBytes) (bytePos mod blockBytes))
  | [] =>
      if sq_count current ⊠ blockBytes <=? n
      then None
      else Some (mkFound before current after (n / blockBytes) (bytePos mod blockBytes))
  end.

(** [None] is the [(nil, nil, 0, invalidPos)] answer. *)
Definition findSequence (head : list sequence) (bytePos : Z) : option found :=
  match head with
  | [] => None
  | s :: ss => findSequenceLoop [] s ss bytePos bytePos
  end.

Definition checkIfAvailable (head : list sequence) (ordinal : Z)
  : Z * Z * option BitErr :=
  let '(bytePos, bitPos) := ordinalToPos ordinal in
  match findSequence head bytePos with
  | Some f =>
      let bitSel := Z.shiftr blockFirstBit (fs_inBlockBytePos f ⊠ 8 ⊞ bitPos) in
      if Z.land (sq_block (fs_current f)) bitSel =? 0
      then (bytePos, bitPos, None)
      else (invalidPos, invalidPos, Some ErrBitAllocated)
  | None => (invalidPos, invalidPos, Some ErrBitAllocated)
  end.

(** ** First free bit *)

Inductive retried :=
| RFound (bytePos bitPos : Z)
| RNext (byteOffset precBlocks : Z)
| RFuel.

(** The [retry:] label: search the current instance of the block; when it has
    no free bit from the offset on, go to the next instance of the same block,
    or leave for the next node when this was the last one. *)
Fixpoint retryBlock (fuel : nat) (current : sequence)
    (bitOffset byteOffset precBlocks : Z) : retried :=
  match fuel with
  | O => RFuel
  | S fuel' =>
      match getAvailableBit current bitOffset with
      | (bytePos, bitPos, None) => RFound (byteOffset ⊞ bytePos) bitPos
      | (_, _, Some _) =>
          if precBlocks =? sq_count current ⊟ 1
          then RNext byteOffset precBlocks
          else retryBlock fuel' current 0 (byteOffset ⊞ blockBytes) (precBlocks ⊞ 1)
      end
  end.

(** Two rounds are enough: the second one starts at offset 0 of a block that is
    not full ([getFirstAvailableLoop_spec] of BitmapSpec). *)
Definition retryFuel : nat := 2.

Fixpoint getFirstAvailableLoop (nodes : list sequence)
    (byteOffset bitOffset precBlocks : Z) : Z * Z * option BitErr :=
  match nodes with
  | [] => (invalidPos, invalidPos, Some ErrNoBitAvailable)
  | current :: nodes' =>
      let next byteOffset precBlocks :=
        getFirstAvailableLoop nodes'
          (byteOffset ⊞ (sq_count current ⊠ blockBytes ⊟ precBlocks ⊠ blockBytes)) 0 0 in
      if negb (sq_block current =? blockMAX) then
        match retryBlock retryFuel current bitOffset byteOffset precBlocks with
        | RFound bytePos bitPos => (bytePos, bitPos, None)
        | RNext byteOffset precBlocks => next byteOffset precBlocks
        | RFuel => (invalidPos, invalidPos, Some ErrFuel)
        end
      else next byteOffset precBlocks
  end.

Definition getFirstAvailable (head : list sequence) (start : Z) : Z * Z * option BitErr :=
  let '(byteStart, bitStart) := ordinalToPos start in
  match findSequence head byteStart with
  | None => (invalidPos, invalidPos, Some ErrNoBitAvailable)
  | Some f =>
      getFirstAvailableLoop (fs_current f :: fs_after f)
        (byteStart ⊟ fs_inBlockBytePos f)
        (fs_inBlockBytePos f ⊠ 8 ⊞ bitStart)
        (fs_precBlocks f)
  end.

Definition getAvailableFromCurrent (head : list sequence) (start curr end_ : Z)
  : Z * Z * option BitErr :=
  let begin :=
    let '(bytePos, bitPos, err) := getFirstAvailable head start in
    let ret := posToOrdinal bytePos bitPos in
    if (end_ <? ret) || is_err err
    then (invalidPos, invalidPos, Some ErrNoBitAvailable)
    else (bytePos, bitPos, None) in
  if negb (curr =? 0) && (start <? curr) then
    let '(bytePos, bitPos, err) := getFirstAvailable head curr in
    let ret := posToOrdinal bytePos bitPos in
    if (end_ <? ret) || is_err err
    then begin
    else (bytePos, bitPos, None)
  else begin.

(** ** Updating the run-length encoding *)

(** [mergeSequences]: the inner loop folds the nodes that repeat the block of
    [seq] into it, the recursion goes on from the first node that differs. *)
Fixpoint mergeSequencesLoop (seq : sequence) (rest : list sequence) : list sequence :=
  match rest with
  | [] => [seq]
  | next :: rest' =>
      if sq_block seq =? sq_block next
      then mergeSequencesLoop (mkSeq (sq_block seq) (sq_count seq ⊞ sq_count next)) rest'
      else seq :: mergeSequencesLoop next rest'
  end.

Definition mergeSequences (seq : list sequence) : list sequence :=
  match seq with
  | [] => []
  | s :: rest => mergeSequencesLoop s rest
  end.

(** The node after [newSequence] in case (A): [current] unless it is empty. *)
Definition removeCurrentIfEmpty (current : sequence) (after : list sequence)
  : list sequence :=
  if sq_count current =? 0 then after else current :: after.

(** The list from [previous] on is merged; the nodes before it are kept. *)
Fixpoint splitPrevious (before : list sequence) : list sequence * list sequence :=
  match before with
  | [] => ([], [])
  | [previous] => ([], [previous])
  | s :: before' => let '(kept, previous) := splitPrevious before' in (s :: kept, previous)
  end.

Definition pushReservation (bytePos bitPos : Z) (head : list sequence) (release : bool)
  : list sequence * bool :=
  match findSequence head bytePos with
  | None => (head, false)
  | Some f =>
      let current := fs_current f in
      let bitSel := Z.shiftr blockFirstBit (fs_inBlockBytePos f ⊠ 8 ⊞ bitPos) in
      let newBlock :=
        if release then Z.ldiff (sq_block current) bitSel
        else Z.lor (sq_block current) bitSel in
      if sq_block current =? newBlock then (head, false)
      else
        let current := mkSeq (sq_block current) (sq_count current ⊟ 1) in
        let newSequence := mkSeq newBlock 1 in
        let newHead :=
          if fs_precBlocks f =? 0 then
            let '(kept, previous) := splitPrevious (fs_before f) in
            kept ++ mergeSequences
              (previous ++ newSequence :: removeCurrentIfEmpty current (fs_after f))
          else if fs_precBlocks f =? sq_count current then
            fs_before f ++ mergeSequences (current :: newSequence :: fs_after f)
          else
            let currPre := mkSeq (sq_block current) (fs_precBlocks f) in
            let currPost := mkSeq (sq_block current) (sq_count current ⊟ fs_precBlocks f) in
            fs_before f ++ currPre :: newSequence :: currPost :: fs_after f in
        (newHead, true)
  end.

(** ** Operations *)

Definition validateOrdinal (h : Bitmap) (ordinal : Z) : option BitErr :=
  if bm_bits h <=? ordinal then Some ErrOrdinal else None.

(** The set/reset step shared by all mutators: new state, returned ordinal,
    error. *)
Definition set (h : Bitmap) (ordinal start end_ : Z) (isAvailable release serial : bool)
  : Bitmap * Z * option BitErr :=
  let curr := if serial then bm_curr h else 0 in
  let '(bytePos, bitPos, ret, err, hcurr) :=
    if release then
      let '(bytePos, bitPos) := ordinalToPos ordinal in
      (bytePos, bitPos, 0, None, bm_curr h)
    else if isAvailable then
      let '(bytePos, bitPos, err) := getAvailableFromCurrent (bm_head h) start curr end_ in
      let ret := posToOrdinal bytePos bitPos in
      (bytePos, bitPos, ret, err,
       match err with None => ret ⊞ 1 | Some _ => bm_curr h end)
    else
      let '(bytePos, bitPos, err) := checkIfAvailable (bm_head h) ordinal in
      (bytePos, bitPos, ordinal, err, bm_curr h) in
  match err with
  | Some e => (mkBitmap (bm_bits h) (bm_unselected h) (bm_head h) hcurr, ret, Some e)
  | None =>
      let '(newHead, changed) := pushReservation bytePos bitPos (bm_head h) release in
      let unselected :=
        if changed then
          (if release then bm_unselected h ⊞ 1 else bm_unselected h ⊟ 1)
        else bm_unselected h in
      (mkBitmap (bm_bits h) unselected newHead hcurr, ret, None)
  end.

Definition Unselected (h : Bitmap) : Z := bm_unselected h.
Definition Bits (h : Bitmap) : Z := bm_bits h.

Definition SetAnyInRange (h : Bitmap) (start end_ : Z) (serial : bool)
  : Bitmap * Z * option BitErr :=
  if (end_ <? start) || (bm_bits h <=? end_) then (h, invalidPos, Some ErrRange)
  else if Unselected h =? 0 then (h, invalidPos, Some ErrNoBitAvailable)
  else set h 0 start end_ true false serial.

Definition SetAny (h : Bitmap) (serial : bool) : Bitmap * Z * option BitErr :=
  if Unselected h =? 0 then (h, invalidPos, Some ErrNoBitAvailable)
  else set h 0 0 (bm_bits h ⊟ 1) true false serial.

Definition Set_ (h : Bitmap) (ordinal : Z) : Bitmap * option BitErr :=
  match validateOrdinal h ordinal with
  | Some e => (h, Some e)
  | None => let '(h', _, err) := set h ordinal 0 0 false false false in (h', err)
  end.

Definition Unset (h : Bitmap) (ordinal : Z) : Bitmap * option BitErr :=
  match validateOrdinal h ordinal with
  | Some e => (h, Some e)
  | None => let '(h', _, err) := set h ordinal 0 0 false true false in (h', err)
  end.

Definition IsSet (h : Bitmap) (ordinal : Z) : bool :=
  match validateOrdinal h ordinal with
  | Some _ => false
  | None =>
      match checkIfAvailable (bm_head h) ordinal with
      | (_, _, Some _) => true
      | (_, _, None) => false
      end
  end.

(** ** Counting *)

(** [bits.OnesCount32]. *)
Fixpoint onesCount (n : nat) (b : Z) : Z :=
  match n with
  | O => 0
  | S n' => Z.b2z (Z.testbit b (Z.of_nat n')) + onesCount n' b
  end.
Definition OnesCount32 (b : Z) : Z := onesCount 32 b.

(** The [for blocksToCount > 0] loop of [OnesCount]: [current] and the nodes
    after it, then the loop's variables. *)
Fixpoint onesCountLoop (fuel : nat) (current : sequence) (after : list sequence)
    (end_ blocksToCount curblocks mask runlen count : Z) : Z :=
  match fuel with
  | O => count
  | S fuel' =>
      if 0 <? blocksToCount then
        let mask :=
          if blocksToCount =? 1
          then Z.land mask
                 (wrap32 (Z.shiftl blockMAX (blockLen ⊟ end_ mod blockLen ⊟ 1)))
          else mask in
        let count := count ⊞ OnesCount32 (Z.land (sq_block current) mask) ⊠ runlen in
        let mask := blockMAX in
        let blocksToCount := blocksToCount ⊟ runlen in
        let curblocks := curblocks ⊟ runlen in
        if curblocks =? 0 then
          match after with
          | [] => count
          | current :: after =>
              let curblocks := Z.min (sq_count current) blocksToCount in
              onesCountLoop fuel' current after end_ blocksToCount curblocks mask
                (Z.max 1 (Z.min curblocks (blocksToCount ⊟ 1))) count
          end
        else
          onesCountLoop fuel' current after end_ blocksToCount curblocks mask
            (Z.max 1 (Z.min curblocks (blocksToCount ⊟ 1))) count
      else count
  end.

(** A node is counted in at most two rounds, the first node in three. *)
Definition onesCountFuel (head : list sequence) : nat := 2 * length head + 2.

(** [GoPanic] is the nil dereference of [current.count] when [start] is outside
    of the list. *)
Definition OnesCount (h : Bitmap) (start end_ : Z) : go_result BitErr Z :=
  if (end_ <? start) || (bm_bits h <=? end_) then GoErr ErrRange
  else
    match findSequence (bm_head h) (start / 8) with
    | None => GoPanic
    | Some f =>
        let blocksToCount := end_ / blockLen ⊟ start / blockLen ⊞ 1 in
        let curblocks := Z.min (sq_count (fs_current f) ⊟ fs_precBlocks f) blocksToCount in
        GoOk (onesCountLoop (onesCountFuel (bm_head h)) (fs_current f) (fs_after f)
                end_ blocksToCount curblocks
                (Z.shiftr blockMAX (start mod blockLen)) 1 0)
    end.

(** ** Serialisation *)

Fixpoint toByteArray (s : list sequence) : list Z :=
  match s with
  | [] => []
  | p :: ps => be_put 4 (sq_block p) ++ be_put 8 (sq_count p) ++ toByteArray ps
  end.

(** The errors of decoding: a length that is no multiple of 12, a nil array. *)
Inductive DecodeErr := ErrLength | ErrNilArray.

(** The decoding loop runs once per 12 bytes; it reads before it tests for the
    end, so it indexes out of range on an empty array. *)
Fixpoint fromByteArrayLoop (rounds : nat) (data : list Z) : list sequence :=
  match rounds with
  | O => []
  | S rounds' =>
      mkSeq (be_get 0 (take 4 data)) (be_get 0 (take 8 (drop 4 data)))
        :: fromByteArrayLoop rounds' (drop 12 data)
  end.

Definition fromByteArray (data : list Z) : go_result DecodeErr (list sequence) :=
  if negb (length data mod 12 =? 0)%nat then GoErr ErrLength
  else if (length data =? 0)%nat then GoPanic
  else GoOk (fromByteArrayLoop (length data / 12) data).

Definition MarshalBinary (h : Bitmap) : list Z :=
  be_put 8 (bm_bits h) ++ be_put 8 (bm_unselected h) ++ toByteArray (bm_head h).

(** [None] is the nil slice.  The slice expression [ba[16:]] panics on fewer
    than 16 bytes.  The scan position of [h] is kept. *)
Definition UnmarshalBinary (h : Bitmap) (ba : option (list Z))
  : go_result DecodeErr Bitmap :=
  match ba with
  | None => GoErr ErrNilArray
  | Some ba =>
      if (length ba <? 16)%nat then GoPanic
      else
        match fromByteArray (drop 16 ba) with
        | GoErr e => GoErr e
        | GoPanic => GoPanic
        | GoOk nh =>
            GoOk (mkBitmap (be_get 0 (take 8 ba)) (be_get 0 (take 8 (drop 8 ba))) nh (bm_curr h))
        end
  end.
