(* ===== verification/OrdinalSet.v ===== *)
(** * Interface of a set of ordinals

    What the address sets of [addrset.go] rely on from the bit vector of
    [sequence.go]: the operations, and their laws stated on the abstract
    membership function.  [BitmapSpec] discharges the laws for [Bitmap]. *)

From S2P Require Import Prelude Bitmap.

(** One ordinal gets a value. *)
Definition update (f : Z -> bool) (o : Z) (v : bool) (i : Z) : bool :=
  if i =? o then v else f i.

(** The allocation policy: [r] is the first free ordinal of [[curr, end]] when
    there is one and [curr] is past [start], else the first of [[start, end]]. *)
Definition next_ordinal (f : Z -> bool) (start curr end_ r : Z) : Prop :=
  (start < curr /\ first_unset f curr (end_ + 1) r)
  \/ ((start < curr -> forall i, curr <= i <= end_ -> f i = true)
      /\ first_unset f start (end_ + 1) r).

(** The operations of [*bitmap.Bitmap] its clients call. *)
Class OrdinalSet (B : Type) := {
  os_new : Z -> B;
  os_bits : B -> Z;
  os_unselected : B -> Z;
  os_set : B -> Z -> B * option BitErr;
  os_unset : B -> Z -> B * option BitErr;
  os_set_any : B -> bool -> B * Z * option BitErr;
  os_set_any_in_range : B -> Z -> Z -> bool -> B * Z * option BitErr;
  os_ones_count : B -> Z -> Z -> go_result BitErr Z
}.

(** What they promise. *)
Class OrdinalSetLaws (B : Type) `{OrdinalSet B} := {
  os_valid : B -> Prop;
  os_mem : B -> Z -> bool;

  os_bits_range b : os_valid b -> 0 < os_bits b < 2 ^ 64;
  os_mem_bits b o : os_valid b -> 0 <= o -> os_mem b o = true -> o < os_bits b;
  os_unselected_count b :
    os_valid b -> os_unselected b = os_bits b - count_in (os_mem b) 0 (os_bits b);

  os_new_valid n : 0 < n <= 2 ^ 63 -> os_valid (os_new n) /\ os_bits (os_new n) = n;
  os_new_mem n o : os_mem (os_new n) o = false;

  os_set_law b o : os_valid b -> is_u64 o ->
    let '(b', err) := os_set b o in
    err = (if os_bits b <=? o then Some ErrOrdinal
           else if os_mem b o then Some ErrBitAllocated else None)
    /\ match err with
       | None => os_valid b' /\ os_bits b' = os_bits b
           /\ (forall i, 0 <= i -> os_mem b' i = update (os_mem b) o true i)
       | Some _ => b' = b
       end;

  os_unset_law b o : os_valid b -> is_u64 o ->
    let '(b', err) := os_unset b o in
    err = (if os_bits b <=? o then Some ErrOrdinal else None)
    /\ match err with
       | None => os_valid b' /\ os_bits b' = os_bits b
           /\ (forall i, 0 <= i -> os_mem b' i = update (os_mem b) o false i)
       | Some _ => b' = b
       end;

  os_set_any_law b serial : os_valid b ->
    let '(b', r, err) := os_set_any b serial in
    match err with
    | None => os_valid b' /\ os_bits b' = os_bits b /\ 0 <= r < os_bits b
        /\ (exists curr, next_ordinal (os_mem b) 0 curr (os_bits b - 1) r
              /\ (serial = false -> curr = 0))
        /\ (forall i, 0 <= i -> os_mem b' i = update (os_mem b) r true i)
    | Some e => e = ErrNoBitAvailable /\ b' = b
        /\ forall i, 0 <= i < os_bits b -> os_mem b i = true
    end;

  os_set_any_in_range_law b start end_ serial :
    os_valid b -> 0 <= start <= end_ -> end_ < os_bits b ->
    let '(b', r, err) := os_set_any_in_range b start end_ serial in
    match err with
    | None => os_valid b' /\ os_bits b' = os_bits b /\ start <= r <= end_
        /\ (exists curr, next_ordinal (os_mem b) start curr end_ r
              /\ (serial = false -> curr = 0))
        /\ (forall i, 0 <= i -> os_mem b' i = update (os_mem b) r true i)
    | Some e => e = ErrNoBitAvailable /\ b' = b
        /\ forall i, start <= i <= end_ -> os_mem b i = true
    end;

  os_ones_count_law b start end_ :
    os_valid b -> 0 <= start <= end_ -> end_ < os_bits b ->
    os_ones_count b start end_ = GoOk (count_in (os_mem b) start (end_ + 1))
}.

(** A newly allocated ordinal was free, whatever the policy. *)
Lemma next_ordinal_free f start curr end_ r :
  next_ordinal f start curr end_ r -> f r = false.
Proof. intros [[_ (_&?&_)]|[_ (_&?&_)]]; done. Qed.

(** Without a scan position the policy is "lowest first". *)
Lemma next_ordinal_lowest f start end_ r :
  0 <= start -> next_ordinal f start 0 end_ r -> first_unset f start (end_ + 1) r.
Proof. intros Hs [[? _]|[_ ?]]; [lia|done]. Qed.

Lemma update_eq f o v : update f o v o = v.
Proof. unfold update. by rewrite Z.eqb_refl. Qed.

Lemma update_ne f o v i : i <> o -> update f o v i = f i.
Proof. intros. unfold update. by destruct (Z.eqb_spec i o). Qed.
