(* ===== verification/BitmapSpec.v ===== *)
(** * Correctness of the run-length encoded bit vector

    The abstraction of a [Bitmap] is the function [bitAt] from ordinals to
    booleans; [Inv] is the invariant every operation keeps.  The lemmas follow
    the structure of [sequence.go]: locating a block, searching a free bit,
    rewriting the encoding, counting, and serialising. *)

From S2P Require Import Prelude Bitmap OrdinalSet.
Open Scope u64_scope.

(** ** Abstraction *)

Fixpoint total (l : list sequence) : Z :=
  match l with
  | [] => 0
  | s :: l' => sq_count s + total l'
  end.

(** The 32-bit block with index [i] in the expansion of the encoding. *)
Fixpoint blockAt (l : list sequence) (i : Z) : Z :=
  match l with
  | [] => 0
  | s :: l' => if i <? sq_count s then sq_block s else blockAt l' (i - sq_count s)
  end.

(** The bit with ordinal [o]: bit 0 is the most significant bit of block 0. *)
Definition bitAt (l : list sequence) (o : Z) : bool :=
  Z.testbit (blockAt l (o / 32)) (31 - o mod 32).

Definition seq_ok (s : sequence) : Prop := is_u32 (sq_block s) /\ 0 < sq_count s.

(** Adjacent nodes hold different blocks: the encoding is as short as it can be. *)
Fixpoint canonical (l : list sequence) : Prop :=
  match l with
  | s :: ((t :: _) as l') => sq_block s <> sq_block t /\ canonical l'
  | _ => True
  end.

(** The longest vector whose block arithmetic does not overflow a [uint64]. *)
Definition maxBits : Z := 2 ^ 64 - 32.

Record Inv (h : Bitmap) : Prop := {
  inv_bits : 0 < bm_bits h <= maxBits;
  inv_seqs : Forall seq_ok (bm_head h);
  inv_canonical : canonical (bm_head h);
  inv_total : total (bm_head h) = (bm_bits h + 31) / 32;
  inv_tail : forall o, bm_bits h <= o -> bitAt (bm_head h) o = false;
  inv_unselected :
    bm_unselected h = bm_bits h - count_in (bitAt (bm_head h)) 0 (bm_bits h);
  inv_curr : is_u64 (bm_curr h)
}.

(** ** Lists of sequences *)

Lemma total_app l k : total (l ++ k) = total l + total k.
Proof. induction l as [|s l IH]; simpl; lia. Qed.

Lemma total_nonneg l : Forall seq_ok l -> 0 <= total l.
Proof. induction 1 as [|s l [??] _ IH]; simpl; lia. Qed.

Lemma blockAt_app l k i :
  Forall seq_ok l -> 0 <= i ->
  blockAt (l ++ k) i = if i <? total l then blockAt l i else blockAt k (i - total l).
Proof.
  intros Hl. revert i. induction Hl as [|s l [? Hc] Hl IH]; intros i Hi; simpl.
  - destruct (Z.ltb_spec i 0); [lia|]. f_equal. lia.
  - pose proof (total_nonneg l Hl).
    destruct (Z.ltb_spec i (sq_count s)); destruct (Z.ltb_spec i (sq_count s + total l));
      try done; try lia; rewrite IH by lia;
      destruct (Z.ltb_spec (i - sq_count s) (total l)); try lia; try done.
    f_equal. lia.
Qed.

Lemma blockAt_u32 l i : Forall seq_ok l -> is_u32 (blockAt l i).
Proof.
  intros Hl. revert i. induction Hl as [|s l [??] Hl IH]; intros i; simpl.
  - unfold is_u32. lia.
  - by destruct (_ <? _).
Qed.

Lemma bitAt_outside l o :
  Forall seq_ok l -> 32 * total l <= o -> bitAt l o = false.
Proof.
  intros Hl Ho. unfold bitAt.
  assert (total l <= o / 32) by (apply Z.div_le_lower_bound; lia).
  replace (blockAt l (o / 32)) with 0; [apply Z.testbit_0_l|].
  generalize dependent (o / 32). clear Ho o.
  induction Hl as [|s l [??] Hl IH]; intros i Hi; simpl in *; [done|].
  pose proof (total_nonneg l Hl).
  destruct (Z.ltb_spec i (sq_count s)); [lia|]. apply IH. lia.
Qed.

(** ** Locating a block *)

Record found_ok (l : list sequence) (bytePos : Z) (f : found) : Prop := {
  fo_split : l = fs_before f ++ fs_current f :: fs_after f;
  fo_prec : 0 <= fs_precBlocks f < sq_count (fs_current f);
  fo_index : bytePos / 4 = total (fs_before f) + fs_precBlocks f;
  fo_byte : fs_inBlockBytePos f = bytePos mod 4
}.

Lemma findSequenceLoop_spec before current after n bytePos :
  Forall seq_ok before -> Forall seq_ok (current :: after) ->
  4 * total (before ++ current :: after) < 2 ^ 64 -> 0 <= n < 2 ^ 64 ->
  bytePos = 4 * total before + n ->
  match findSequenceLoop before current after n bytePos with
  | Some f => found_ok (before ++ current :: after) bytePos f
  | None => 4 * total (before ++ current :: after) <= bytePos
  end.
Proof.
  intros Hb. revert before current n Hb.
  induction after as [|next after IH]; intros before current n Hb Hca Ht Hn ->;
    inversion Hca as [|? ? [Hblk Hcnt] Ha]; subst; simpl; unfold blockBytes;
    pose proof (total_nonneg before Hb) as Hpos;
    rewrite total_app in Ht; simpl in Ht.
  - rewrite mul64_small by lia. destruct (Z.leb_spec (sq_count current * 4) n).
    + rewrite total_app. simpl. lia.
    + constructor; simpl; [done| | |done]; dlia.
  - pose proof (total_nonneg _ Ha) as Hpa. simpl in Hpa.
    rewrite mul64_small by lia. destruct (Z.leb_spec (sq_count current * 4) n).
    + rewrite sub64_small by lia.
      specialize (IH (before ++ [current]) next (n - sq_count current * 4)).
      rewrite <- app_assoc in IH. simpl in IH. apply IH.
      * apply Forall_app; split; [done|]. constructor; [by split|constructor].
      * done.
      * rewrite total_app. simpl. lia.
      * lia.
      * rewrite total_app. simpl. lia.
    + constructor; simpl; [done| | |done]; dlia.
Qed.

Lemma findSequence_spec l bytePos :
  Forall seq_ok l -> l <> [] -> 4 * total l < 2 ^ 64 -> 0 <= bytePos < 2 ^ 64 ->
  match findSequence l bytePos with
  | Some f => found_ok l bytePos f /\ bytePos < 4 * total l
  | None => 4 * total l <= bytePos
  end.
Proof.
  intros Hl Hne Ht Hp. destruct l as [|s l]; [done|]. unfold findSequence.
  pose proof (findSequenceLoop_spec [] s l bytePos bytePos ltac:(constructor) Hl Ht Hp ltac:(simpl; lia)) as H.
  destruct (findSequenceLoop _ _ _ _ _) as [f|]; [|done].
  split; [done|]. destruct H as [Hs Hpr Hi _]. simpl in Hs. rewrite Hs.
  rewrite total_app. simpl.
  assert (Ha : Forall seq_ok (fs_after f)).
  { rewrite Hs in Hl. apply Forall_app in Hl as [_ Hl]. by inversion Hl. }
  pose proof (total_nonneg _ Ha). dlia.
Qed.

(** The block that [findSequence] locates is the block of the ordinal. *)
Lemma found_blockAt l bytePos f :
  Forall seq_ok l -> found_ok l bytePos f ->
  blockAt l (bytePos / 4) = sq_block (fs_current f).
Proof.
  intros Hl [-> Hpr Hi _]. apply Forall_app in Hl as [Hb Hc].
  pose proof (total_nonneg _ Hb).
  rewrite Hi, blockAt_app by (done || lia).
  destruct (Z.ltb_spec (total (fs_before f) + fs_precBlocks f) (total (fs_before f))); [lia|].
  simpl. destruct (Z.ltb_spec (total (fs_before f) + fs_precBlocks f - total (fs_before f))
    (sq_count (fs_current f))); [done|lia].
Qed.

(** [blockFirstBit >> k] selects the bit with position [k] from the left. *)
Lemma firstBit_shift k : 0 <= k < 32 -> Z.shiftr blockFirstBit k = 2 ^ (31 - k).
Proof. intros. unfold blockFirstBit. rewrite Z.shiftr_div_pow2, <- Z.pow_sub_r by lia. done. Qed.

Lemma ordinal_pos o :
  0 <= o -> o / 8 / 4 = o / 32 /\ (o / 8) mod 4 * 8 + o mod 8 = o mod 32.
Proof. intros. split; dlia. Qed.

(** Bounds under which the search arithmetic does not wrap. *)
Definition list_ok (l : list sequence) : Prop :=
  Forall seq_ok l /\ l <> [] /\ 32 * total l < 2 ^ 64.

Lemma bitSel_pos f bytePos bitPos l :
  found_ok l bytePos f -> 0 <= bitPos < 8 ->
  fs_inBlockBytePos f ⊠ 8 ⊞ bitPos = bytePos mod 4 * 8 + bitPos
  /\ 0 <= bytePos mod 4 * 8 + bitPos < 32.
Proof.
  intros [_ _ _ ->] Hb. pose proof (Z.mod_pos_bound bytePos 4 ltac:(lia)).
  rewrite mul64_small, add64_small by lia. lia.
Qed.

Lemma checkIfAvailable_spec l o :
  list_ok l -> 0 <= o < 2 ^ 64 ->
  checkIfAvailable l o =
    if (o <? 32 * total l) && negb (bitAt l o)
    then (o / 8, o mod 8, None)
    else (invalidPos, invalidPos, Some ErrBitAllocated).
Proof.
  intros (Hl&Hne&Ht) Ho. unfold checkIfAvailable, ordinalToPos.
  destruct (ordinal_pos o ltac:(lia)) as [Ho1 Ho2].
  assert (Hb8 : 0 <= o mod 8 < 8) by (apply Z.mod_pos_bound; lia).
  pose proof (findSequence_spec l (o / 8) Hl Hne ltac:(lia) ltac:(dlia)) as H.
  destruct (findSequence l (o / 8)) as [f|].
  - destruct H as [Hf Hlt].
    destruct (bitSel_pos f (o / 8) (o mod 8) l Hf Hb8) as [-> Hr].
    rewrite Ho2 in *. rewrite firstBit_shift by done.
    rewrite land_pow2_eq0 by lia.
    rewrite <- (found_blockAt l (o / 8) f Hl Hf), Ho1. fold (bitAt l o).
    destruct (Z.ltb_spec o (32 * total l)); [|dlia].
    simpl. by destruct (bitAt l o).
  - destruct (Z.ltb_spec o (32 * total l)); [dlia|]. done.
Qed.

(** ** Searching for a free bit *)

(** The search of a block: [b] is the first position from [from] on that is
    free, or 32. *)
Lemma bitScan_spec blk fuel from :
  0 <= from <= 32 -> (Z.to_nat (32 - from) <= fuel)%nat ->
  exists b, bitScan fuel blk (Z.shiftr blockFirstBit from) from
            = (Z.shiftr blockFirstBit b, b)
    /\ from <= b <= 32
    /\ (forall i, from <= i < b -> Z.testbit blk (31 - i) = true)
    /\ (b < 32 -> Z.testbit blk (31 - b) = false).
Proof.
  revert from. induction fuel as [|fuel IH]; intros from Hf Hfuel.
  - simpl. exists 32. replace from with 32 by lia. split_and!; try done; intros; lia.
  - destruct (Z.eq_dec from 32) as [->|Hne].
    { simpl. exists 32.
      split_and!; try done; intros; lia. }
    assert (Hc : (0 <? Z.shiftr blockFirstBit from)
                 && negb (Z.land blk (Z.shiftr blockFirstBit from) =? 0)
                 = Z.testbit blk (31 - from)).
    { rewrite firstBit_shift, land_pow2_eq0, negb_involutive by lia.
      pose proof (Z.pow_pos_nonneg 2 (31 - from) ltac:(lia) ltac:(lia)).
      by destruct (Z.ltb_spec 0 (2 ^ (31 - from))); [|lia]. }
    cbn [bitScan]. rewrite Hc.
    destruct (Z.testbit blk (31 - from)) eqn:Hbit.
    + rewrite Z.shiftr_shiftr by lia. rewrite add64_small by lia.
      destruct (IH (from + 1) ltac:(lia) ltac:(lia)) as (b&->&Hb&Hset&Hfree).
      exists b. split_and!; try done; try lia.
      intros i Hi. destruct (Z.eq_dec i from) as [->|]; [done|]. apply Hset. lia.
    + exists from. split_and!; try done; try lia; intros; lia.
Qed.

Lemma getAvailableBit_spec s from :
  seq_ok s -> 0 <= from < 32 ->
  (exists b, getAvailableBit s from = (b / 8, b mod 8, None)
    /\ first_unset (fun i => Z.testbit (sq_block s) (31 - i)) from 32 b)
  \/ (getAvailableBit s from = (invalidPos, invalidPos, Some ErrNoBitAvailable)
    /\ forall i, from <= i < 32 -> Z.testbit (sq_block s) (31 - i) = true).
Proof.
  intros [Hu Hc] Hf. unfold getAvailableBit.
  destruct (Z.eqb_spec (sq_count s) 0); [lia|]. rewrite orb_false_r.
  destruct (Z.eqb_spec (sq_block s) blockMAX) as [E|E].
  { right. split; [done|]. intros i Hi. rewrite E. unfold blockMAX.
    change (2 ^ 32 - 1) with (Z.ones 32).
    apply Z.ones_spec_low. lia. }
  destruct (bitScan_spec (sq_block s) 32 from ltac:(lia) ltac:(lia))
    as (b&->&Hb&Hset&Hfree).
  destruct (Z.eq_dec b 32) as [->|Hne].
  - right. done.
  - left. exists b. rewrite firstBit_shift by lia.
    pose proof (Z.pow_pos_nonneg 2 (31 - b) ltac:(lia) ltac:(lia)).
    destruct (Z.eqb_spec (2 ^ (31 - b)) 0); [lia|]. split; [done|].
    split; [lia|]. split; [apply Hfree; lia|done].
Qed.

(** A block other than [blockMAX] has a free bit. *)
Lemma notfull_free b :
  is_u32 b -> b <> blockMAX -> ~ (forall i, 0 <= i < 32 -> Z.testbit b (31 - i) = true).
Proof.
  intros Hb Hne H. apply Hne. apply u32_bits_ext; [done|unfold is_u32, blockMAX; lia|].
  intros k Hk. change blockMAX with (Z.ones 32). rewrite Z.ones_spec_low by lia.
  specialize (H (31 - k) ltac:(lia)). by replace (31 - (31 - k)) with k in H by lia.
Qed.

(** The bits of the node [current] that starts at block [base]. *)
Lemma bitAt_node before current after base i :
  Forall seq_ok before -> 0 < sq_count current -> base = total before ->
  32 * base <= i < 32 * (base + sq_count current) ->
  bitAt (before ++ current :: after) i = Z.testbit (sq_block current) (31 - i mod 32).
Proof.
  intros Hb Hc -> Hi. unfold bitAt. pose proof (total_nonneg _ Hb).
  rewrite blockAt_app by (done || dlia).
  destruct (Z.ltb_spec (i / 32) (total before)); [dlia|].
  simpl. destruct (Z.ltb_spec (i / 32 - total before) (sq_count current)); [done|dlia].
Qed.

(** Reading a position in an instance of the block as an ordinal. *)
Lemma block_bit before current after p i :
  Forall seq_ok before -> 0 < sq_count current ->
  total before <= p < total before + sq_count current ->
  32 * p <= i < 32 * p + 32 ->
  bitAt (before ++ current :: after) i = Z.testbit (sq_block current) (31 - (i - 32 * p)).
Proof.
  intros Hb Hc Hp Hi. rewrite (bitAt_node before current after (total before)) by (done || lia).
  do 2 f_equal. dlia.
Qed.

(** A free position of an instance of the block, as an ordinal of the vector. *)
Lemma block_first_unset before current after p from b :
  Forall seq_ok before -> 0 < sq_count current ->
  total before <= p < total before + sq_count current -> 0 <= from ->
  first_unset (fun i => Z.testbit (sq_block current) (31 - i)) from 32 b ->
  first_unset (bitAt (before ++ current :: after)) (32 * p + from)
    (32 * (total before + sq_count current)) (32 * p + b).
Proof.
  intros Hb Hc Hp Hf (Hr&Hfree&Hset). split; [lia|]. split.
  - rewrite (block_bit before current after p) by (done || lia).
    by replace (32 * p + b - 32 * p) with b by lia.
  - intros i Hi. rewrite (block_bit before current after p) by (done || lia).
    apply Hset. lia.
Qed.

(** What a search that starts at ordinal [start] must answer. *)
Definition search_result (l : list sequence) (start : Z) (res : Z * Z * option BitErr) : Prop :=
  (exists r, res = (r / 8, r mod 8, None) /\ first_unset (bitAt l) start (32 * total l) r)
  \/ (res = (invalidPos, invalidPos, Some ErrNoBitAvailable)
      /\ forall i, start <= i < 32 * total l -> bitAt l i = true).

Lemma retryBlock_spec before current after prec bitOffset :
  let l := before ++ current :: after in
  let p := total before + prec in
  let stop := 32 * (total before + sq_count current) in
  list_ok l -> sq_block current <> blockMAX ->
  0 <= prec < sq_count current -> 0 <= bitOffset < 32 ->
  match retryBlock retryFuel current bitOffset (4 * p) prec with
  | RFound bytePos bitPos =>
      exists r, bytePos = r / 8 /\ bitPos = r mod 8
        /\ first_unset (bitAt l) (32 * p + bitOffset) stop r
  | RNext byteOffset prec' =>
      prec' = sq_count current - 1 /\ byteOffset = 4 * (total before + prec')
      /\ forall i, 32 * p + bitOffset <= i < stop -> bitAt l i = true
  | RFuel => False
  end.
Proof.
  intros l p stop (Hl&_&Ht) Hnf Hprec Hoff. unfold l, p, stop in *. clear l p stop.
  rewrite total_app in Ht. simpl in Ht.
  apply Forall_app in Hl as [Hb Hca]. inversion Hca as [|? ? Hs Ha]; subst.
  pose proof (total_nonneg _ Hb). pose proof (total_nonneg _ Ha).
  destruct Hs as [Hu Hcnt]. unfold retryFuel. cbn [retryBlock].
  destruct (getAvailableBit_spec current bitOffset ltac:(by split) Hoff)
    as [(b&->&Hfu)|[-> Hset]].
  - pose proof Hfu as (Hr&_). exists (32 * (total before + prec) + b).
    rewrite add64_small by dlia. split; [dlia|]. split; [dlia|].
    apply block_first_unset; try done; lia.
  - assert (Hrow : forall i, 32 * (total before + prec) + bitOffset <= i
                     < 32 * (total before + prec) + 32 ->
                     bitAt (before ++ current :: after) i = true).
    { intros i Hi. rewrite (block_bit before current after (total before + prec)) by (done || lia).
      apply Hset. lia. }
    rewrite sub64_small by lia. destruct (Z.eqb_spec prec (sq_count current - 1)) as [E|E].
    + split; [lia|]. split; [done|]. intros i Hi. apply Hrow. lia.
    + rewrite !add64_small by (unfold blockBytes; lia). unfold blockBytes.
      destruct (getAvailableBit_spec current 0 ltac:(by split) ltac:(lia))
        as [(b&->&Hfu)|[_ Hall]]; [|exfalso; by eapply notfull_free].
      pose proof Hfu as (Hr&_). exists (32 * (total before + (prec + 1)) + b).
      rewrite add64_small by dlia. split; [dlia|]. split; [dlia|].
      apply (first_unset_skip _ _ (32 * (total before + (prec + 1)) + 0));
        [lia|intros; apply Hrow; lia|]. apply block_first_unset; try done; lia.
Qed.

Lemma search_result_skip l start mid res :
  start <= mid -> (forall i, start <= i < mid -> bitAt l i = true) ->
  search_result l mid res -> search_result l start res.
Proof.
  intros Hle Hset [(r&->&Hr)|[-> Hall]].
  - left. exists r. split; [done|]. by apply (first_unset_skip _ _ mid).
  - right. split; [done|]. intros i Hi.
    destruct (Z.lt_ge_cases i mid); [apply Hset; lia | apply Hall; lia].
Qed.

Lemma blockMAX_bits i : 0 <= i < 32 -> Z.testbit blockMAX i = true.
Proof. intros. change blockMAX with (Z.ones 32). apply Z.ones_spec_low. lia. Qed.

(** One node of the search, given that the search from the next node is right. *)
Lemma getFirstAvailableLoop_node before current after prec bitOffset :
  let l := before ++ current :: after in
  let p := total before + prec in
  let stop := total before + sq_count current in
  list_ok l -> 0 <= prec < sq_count current -> 0 <= bitOffset < 32 ->
  search_result l (32 * stop) (getFirstAvailableLoop after (4 * stop) 0 0) ->
  search_result l (32 * p + bitOffset)
    (getFirstAvailableLoop (current :: after) (4 * p) bitOffset prec).
Proof.
  intros l p stop Hok Hprec Hoff Hafter.
  pose proof Hok as (Hl&_&Ht). unfold l in Hl, Ht. rewrite total_app in Ht. simpl in Ht.
  apply Forall_app in Hl as [Hb Hca]. inversion Hca as [|? ? [Hu Hcnt] Ha]; subst.
  pose proof (total_nonneg _ Hb). pose proof (total_nonneg _ Ha).
  assert (Hnext : forall prec', 0 <= prec' < sq_count current ->
    4 * (total before + prec') ⊞ (sq_count current ⊠ blockBytes ⊟ prec' ⊠ blockBytes)
    = 4 * stop).
  { intros. unfold blockBytes, stop. rewrite !mul64_small, sub64_small, add64_small by lia. lia. }
  assert (Hskip : (forall i, 32 * p + bitOffset <= i < 32 * stop -> bitAt l i = true) ->
    search_result l (32 * p + bitOffset) (getFirstAvailableLoop after (4 * stop) 0 0)).
  { intros Hall. apply (search_result_skip l _ (32 * stop)); [unfold p, stop; lia|done|done]. }
  cbn [getFirstAvailableLoop]. destruct (Z.eqb_spec (sq_block current) blockMAX) as [E|E]; cbn [negb].
  - unfold p at 2. rewrite Hnext by done. apply Hskip. intros i Hi. unfold p, stop in Hi. unfold l.
    rewrite (bitAt_node before current after (total before)); [|done|done|done|lia].
    rewrite E. apply blockMAX_bits. dlia.
  - pose proof (retryBlock_spec before current after prec bitOffset Hok E Hprec Hoff) as Hretry.
    fold p in Hretry.
    destruct (retryBlock retryFuel current bitOffset (4 * p) prec) as [bp bt|bo pb|]; [| |done].
    + destruct Hretry as (r&->&->&(Hr&Hfree&Hset)). left. exists r. split; [done|].
      split; [|done]. unfold l. rewrite total_app. simpl. lia.
    + destruct Hretry as (->&->&Hall). rewrite Hnext by lia. by apply Hskip.
Qed.

Lemma getFirstAvailableLoop_spec after before current prec bitOffset :
  let l := before ++ current :: after in
  let p := total before + prec in
  list_ok l -> 0 <= prec < sq_count current -> 0 <= bitOffset < 32 ->
  search_result l (32 * p + bitOffset)
    (getFirstAvailableLoop (current :: after) (4 * p) bitOffset prec).
Proof.
  revert before current prec bitOffset.
  induction after as [|next after IH]; intros before current prec bitOffset l p Hok Hprec Hoff;
    apply getFirstAvailableLoop_node; try done.
  - right. split; [done|]. intros i Hi. rewrite total_app in Hi. simpl in Hi. lia.
  - assert (Hl : before ++ current :: next :: after
               = (before ++ [current]) ++ next :: after) by (by rewrite <- app_assoc).
    specialize (IH (before ++ [current]) next 0 0).
    rewrite <- Hl, total_app in IH. cbn [total] in IH.
    rewrite !Z.add_0_r in IH. apply IH; [done| |lia].
    destruct Hok as (Hf&_). unfold l in Hf. rewrite Hl in Hf.
    apply Forall_app in Hf as [_ Hf]. inversion Hf as [|? ? [??]]. lia.
Qed.

(** The search from any ordinal finds the first free bit from there on. *)
Lemma getFirstAvailable_spec l start :
  list_ok l -> 0 <= start < 2 ^ 64 -> search_result l start (getFirstAvailable l start).
Proof.
  intros Hok Hs. pose proof Hok as (Hl&Hne&Ht). unfold getFirstAvailable, ordinalToPos.
  destruct (ordinal_pos start ltac:(lia)) as [Ho1 Ho2].
  pose proof (findSequence_spec l (start / 8) Hl Hne ltac:(lia) ltac:(dlia)) as H.
  destruct (findSequence l (start / 8)) as [f|].
  - destruct H as [Hf Hlt].
    destruct (bitSel_pos f (start / 8) (start mod 8) l Hf ltac:(dlia)) as [-> Hr].
    destruct Hf as [Hsplit Hprec Hidx Hbyte]. rewrite Hbyte, Ho2 in *.
    rewrite Hsplit in Hok |- *.
    pose proof (getFirstAvailableLoop_spec _ _ _ (fs_precBlocks f) (start mod 32) Hok Hprec Hr) as HL.
    simpl in HL. rewrite <- Hidx, Ho1 in HL.
    replace (32 * (start / 32) + start mod 32) with start in HL by dlia.
    rewrite sub64_small by dlia.
    by replace (start / 8 - (start / 8) mod 4) with (4 * (start / 32)) by dlia.
  - right. split; [done|]. intros i Hi. dlia.
Qed.

Lemma posToOrdinal_ordinal r : 0 <= r < 2 ^ 64 -> posToOrdinal (r / 8) (r mod 8) = r.
Proof. intros. unfold posToOrdinal. rewrite mul64_small, add64_small by dlia. dlia. Qed.

Lemma first_unset_sub f lo hi hi' r :
  first_unset f lo hi r -> r < hi' -> first_unset f lo hi' r.
Proof. intros (?&?&?) ?. split; [lia|done]. Qed.

Lemma getAvailableFromCurrent_spec l start curr end_ :
  list_ok l -> 0 <= start -> 0 <= curr < 2 ^ 64 -> start <= end_ < 32 * total l ->
  (exists r, getAvailableFromCurrent l start curr end_ = (r / 8, r mod 8, None)
     /\ next_ordinal (bitAt l) start curr end_ r /\ start <= r <= end_)
  \/ (getAvailableFromCurrent l start curr end_
        = (invalidPos, invalidPos, Some ErrNoBitAvailable)
      /\ forall i, start <= i <= end_ -> bitAt l i = true).
Proof.
  intros Hok Hs Hc He. pose proof Hok as (_&_&Ht). unfold getAvailableFromCurrent.
  set (begin := let '(_, _, _) := getFirstAvailable l start in _).
  assert (Hbegin : (exists r, begin = (r / 8, r mod 8, None)
       /\ first_unset (bitAt l) start (end_ + 1) r /\ start <= r <= end_)
     \/ (begin = (invalidPos, invalidPos, Some ErrNoBitAvailable)
        /\ forall i, start <= i <= end_ -> bitAt l i = true)).
  { unfold begin. clear begin.
    destruct (getFirstAvailable_spec l start Hok ltac:(lia)) as [(r&->&Hr)|[-> Hall]].
    - pose proof Hr as (Hrr&_&Hset). rewrite posToOrdinal_ordinal by lia. simpl. rewrite orb_false_r.
      destruct (Z.ltb_spec end_ r).
      + right. split; [done|]. intros. apply Hset. lia.
      + left. exists r. split; [done|]. split; [eapply first_unset_sub; [done|lia]|lia].
    - right. simpl. rewrite orb_true_r. split; [done|]. intros. apply Hall. lia. }
  assert (Hback : (start < curr -> forall i, curr <= i <= end_ -> bitAt l i = true) ->
    (exists r, begin = (r / 8, r mod 8, None)
       /\ next_ordinal (bitAt l) start curr end_ r /\ start <= r <= end_)
     \/ (begin = (invalidPos, invalidPos, Some ErrNoBitAvailable)
        /\ forall i, start <= i <= end_ -> bitAt l i = true)).
  { intros Hfull. destruct Hbegin as [(r&->&Hr&?)|Hb]; [|by right].
    left. exists r. split; [done|]. split; [by right|done]. }
  clearbody begin.
  destruct (negb (curr =? 0) && (start <? curr)) eqn:Hcond; [|apply Hback; intros; lia].
  destruct (getFirstAvailable_spec l curr Hok ltac:(lia)) as [(r&->&Hr)|[-> Hall]].
  - pose proof Hr as (Hrr&_&Hset). rewrite posToOrdinal_ordinal by lia. simpl. rewrite orb_false_r.
    destruct (Z.ltb_spec end_ r).
    + apply Hback. intros _ i Hi. apply Hset. lia.
    + left. exists r. split; [done|]. split; [|lia].
      left. split; [lia|]. eapply first_unset_sub; [done|lia].
  - simpl. rewrite orb_true_r. apply Hback. intros _ i Hi. apply Hall. lia.
Qed.

(** ** Rewriting the encoding *)

(** Two encodings of the same vector. *)
Definition same_bits (l k : list sequence) : Prop :=
  total l = total k /\ forall i, 0 <= i -> blockAt l i = blockAt k i.

#[export] Instance same_bits_equiv : Equivalence same_bits.
Proof.
  split.
  - done.
  - intros l k [H1 H2]. split; [done|]. intros. by rewrite H2.
  - intros l k m [H1 H2] [H3 H4]. split; [congruence|]. intros. by rewrite H2, H4.
Qed.

Lemma same_bits_app l k k' :
  Forall seq_ok l -> same_bits k k' -> same_bits (l ++ k) (l ++ k').
Proof.
  intros Hl [Ht Hb]. split; [rewrite !total_app; lia|]. intros i Hi.
  rewrite !blockAt_app by done. destruct (Z.ltb_spec i (total l)); [done|]. apply Hb. lia.
Qed.

Lemma same_bits_cons s k k' :
  0 < sq_count s -> same_bits k k' -> same_bits (s :: k) (s :: k').
Proof.
  intros Hs [Ht Hb]. split; [simpl; lia|]. intros i Hi. simpl.
  destruct (Z.ltb_spec i (sq_count s)); [done|]. apply Hb. lia.
Qed.

Lemma same_bits_join b c d k :
  0 < c -> 0 < d -> same_bits (mkSeq b (c + d) :: k) (mkSeq b c :: mkSeq b d :: k).
Proof.
  intros Hc Hd. split; [simpl; lia|]. intros i Hi. simpl.
  destruct (Z.ltb_spec i (c + d)), (Z.ltb_spec i c); try lia; try done;
    destruct (Z.ltb_spec (i - c) d); try lia; try done. f_equal. lia.
Qed.

Lemma canonical_app l t r :
  canonical (l ++ t :: r) <-> canonical (l ++ [t]) /\ canonical (t :: r).
Proof.
  induction l as [|s l IH]; [simpl; tauto|].
  destruct l as [|s' l]; [simpl; tauto|]. simpl in IH |- *. rewrite IH. tauto.
Qed.

(** Only the block of the last node matters to what follows it. *)
Lemma canonical_last l t t' :
  sq_block t' = sq_block t -> canonical (l ++ [t]) -> canonical (l ++ [t']).
Proof.
  intros E. induction l as [|s l IH]; [done|].
  destruct l as [|s' l]; simpl in *; [by rewrite E|]. intros [??]. split; [done|by apply IH].
Qed.

Lemma canonical_replace l t t' r :
  sq_block t' = sq_block t -> canonical (l ++ [t]) -> canonical (t' :: r) ->
  canonical (l ++ t' :: r).
Proof. intros. apply canonical_app. split; [by eapply canonical_last|done]. Qed.

Lemma mergeSequencesLoop_spec s rest :
  Forall seq_ok (s :: rest) -> total (s :: rest) < 2 ^ 64 ->
  let m := mergeSequencesLoop s rest in
  Forall seq_ok m /\ canonical m /\ same_bits m (s :: rest)
  /\ exists t m', m = t :: m' /\ sq_block t = sq_block s.
Proof.
  revert s. induction rest as [|n rest IH]; intros s Hok Ht; simpl.
  - split_and!; try done. by exists s, [].
  - inversion Hok as [|? ? [Hu Hc] Hok']; subst. inversion Hok' as [|? ? [Hu' Hc'] Hr]; subst.
    simpl in Ht. pose proof (total_nonneg _ Hr).
    destruct (Z.eqb_spec (sq_block s) (sq_block n)) as [E|E].
    + rewrite add64_small by lia.
      destruct (IH (mkSeq (sq_block s) (sq_count s + sq_count n))) as (H1&H2&H3&H4).
      { constructor; [split; simpl; [done|lia]|done]. }
      { simpl. lia. }
      split_and!; try done. rewrite H3.
      destruct s as [b c], n as [b' c']; simpl in *; subst. by apply same_bits_join.
    + destruct (IH n Hok' ltac:(simpl; lia)) as (H1&H2&H3&t&m'&Hm&Hb).
      split_and!.
      * by constructor.
      * rewrite Hm in *. simpl in *. split; [congruence|done].
      * by apply same_bits_cons.
      * by exists s, (mergeSequencesLoop n rest).
Qed.

Lemma splitPrevious_spec before kept previous :
  splitPrevious before = (kept, previous) ->
  before = kept ++ previous /\ ((before = [] /\ previous = []) \/ exists p, previous = [p]).
Proof.
  revert kept previous. induction before as [|s before IH]; intros kept previous.
  - intros [= <- <-]. split; [done|by left].
  - destruct before as [|s' before].
    + intros [= <- <-]. split; [done|]. right. by exists s.
    + change (splitPrevious (s :: s' :: before)) with
        (let '(k, p) := splitPrevious (s' :: before) in (s :: k, p)).
      destruct (splitPrevious (s' :: before)) as [k p] eqn:E.
      intros [= <- <-]. destruct (IH k p eq_refl) as [H1 [H2|H2]].
      { by destruct H2. }
      split; [by rewrite H1|by right].
Qed.

(** The list before merging: the run of [current] is cut around the changed block. *)
Definition cut (before : list sequence) (b c prec newBlock : Z) (after : list sequence)
  : list sequence :=
  before ++ (if prec =? 0 then [] else [mkSeq b prec])
    ++ mkSeq newBlock 1 :: (if c - prec - 1 =? 0 then [] else [mkSeq b (c - prec - 1)]) ++ after.

Lemma cut_ok before b c prec nb after :
  Forall seq_ok (before ++ mkSeq b c :: after) -> is_u32 nb -> 0 <= prec < c ->
  Forall seq_ok (cut before b c prec nb after)
  /\ total (cut before b c prec nb after) = total (before ++ mkSeq b c :: after).
Proof.
  intros [Hb Hca]%Forall_app Hnb Hp. inversion Hca as [|? ? [Hu Hc] Ha]; subst. simpl in *.
  unfold cut. split.
  - apply Forall_app; split; [done|]. apply Forall_app; split.
    { destruct (Z.eqb_spec prec 0); [constructor|]. apply Forall_singleton. split; simpl; [done|lia]. }
    constructor; [split; simpl; [done|lia]|]. apply Forall_app; split; [|done].
    destruct (Z.eqb_spec (c - prec - 1) 0); [constructor|]. apply Forall_singleton.
    split; simpl; [done|lia].
  - rewrite !total_app. simpl. rewrite total_app.
    destruct (Z.eqb_spec prec 0), (Z.eqb_spec (c - prec - 1) 0); simpl; lia.
Qed.

Lemma cut_blockAt before b c prec nb after i :
  Forall seq_ok (before ++ mkSeq b c :: after) -> is_u32 nb -> 0 <= prec < c -> 0 <= i ->
  blockAt (cut before b c prec nb after) i
  = if i =? total before + prec then nb else blockAt (before ++ mkSeq b c :: after) i.
Proof.
  intros [Hb Hca]%Forall_app Hnb Hp Hi. inversion Hca as [|? ? [Hu Hc] Ha]; subst. simpl in *.
  pose proof (total_nonneg _ Hb). unfold cut. rewrite !(blockAt_app before) by done.
  destruct (Z.ltb_spec i (total before)).
  { destruct (Z.eqb_spec i (total before + prec)); [lia|done]. }
  destruct (Z.eqb_spec prec 0), (Z.eqb_spec (c - prec - 1) 0), (Z.eqb_spec i (total before + prec));
    simpl; repeat match goal with
    | |- context [Z.ltb ?x ?y] => destruct (Z.ltb_spec x y); try lia
    end; try done; f_equal; lia.
Qed.

(** Setting or clearing one bit of a block. *)
Lemma bit_update b k (release : bool) :
  is_u32 b -> 0 <= k < 32 ->
  let nb := if release then Z.ldiff b (2 ^ k) else Z.lor b (2 ^ k) in
  is_u32 nb
  /\ (forall j, 0 <= j -> Z.testbit nb j = if j =? k then negb release else Z.testbit b j)
  /\ (b =? nb) = negb (Bool.eqb (Z.testbit b k) release).
Proof.
  intros Hb Hk nb.
  assert (Hbits : forall j, 0 <= j ->
    Z.testbit nb j = if j =? k then negb release else Z.testbit b j).
  { intros j Hj. unfold nb. destruct release; [rewrite Z.ldiff_spec | rewrite Z.lor_spec];
      rewrite pow2_testbit, (Z.eqb_sym k j) by lia; destruct (j =? k), (Z.testbit b j); done. }
  assert (Hu : is_u32 nb).
  { apply is_u32_of_bits.
    - unfold is_u32 in Hb. pose proof (Z.pow_nonneg 2 k ltac:(lia)). unfold nb.
      destruct release; [apply Z.ldiff_nonneg; lia | apply Z.lor_nonneg; lia].
    - intros j Hj. rewrite Hbits by lia. destruct (Z.eqb_spec j k); [lia|].
      apply (testbit_high b j 32); [done|lia]. }
  split_and!; [done|done|].
  destruct (Z.eqb_spec b nb) as [E|E].
  - specialize (Hbits k ltac:(lia)). rewrite <- E, Z.eqb_refl in Hbits. rewrite Hbits.
    by destruct release.
  - destruct (Z.testbit b k) eqn:Hbk, release; try done; exfalso; apply E;
      apply u32_bits_ext; try done; intros j Hj; rewrite Hbits by lia;
      destruct (Z.eqb_spec j k); by subst.
Qed.

(** The new encoding of each of the three cases is the cut list, merged. *)
Lemma pushReservation_merge before b c prec nb after :
  let l := before ++ mkSeq b c :: after in
  let newHead :=
    if prec =? 0 then
      let '(kept, previous) := splitPrevious before in
      kept ++ mergeSequences (previous ++ mkSeq nb 1 :: removeCurrentIfEmpty (mkSeq b (c - 1)) after)
    else if prec =? c - 1 then
      before ++ mergeSequences (mkSeq b (c - 1) :: mkSeq nb 1 :: after)
    else before ++ mkSeq b prec :: mkSeq nb 1 :: mkSeq b (c - 1 - prec) :: after in
  Forall seq_ok l -> total l < 2 ^ 64 -> canonical l -> is_u32 nb -> nb <> b -> 0 <= prec < c ->
  Forall seq_ok newHead /\ canonical newHead /\ same_bits newHead (cut before b c prec nb after).
Proof.
  intros l newHead Hl Ht Hcan Hnb Hne Hp. unfold l in *.
  destruct (cut_ok before b c prec nb after Hl Hnb Hp) as [Hcut Htot]. rewrite <- Htot in Ht.
  apply canonical_app in Hcan as [Hcb Hca].
  apply Forall_app in Hl as [Hb _]. pose proof (total_nonneg _ Hb).
  unfold newHead, cut, removeCurrentIfEmpty in *. clear newHead l Htot. cbn [sq_count].
  destruct (Z.eqb_spec prec 0) as [->|Hp0].
  - destruct (splitPrevious before) as [kept previous] eqn:E.
    destruct (splitPrevious_spec _ _ _ E) as [-> Hprev]. rewrite Z.sub_0_r in *.
    set (tail := mkSeq nb 1 :: if c - 1 =? 0 then after else mkSeq b (c - 1) :: after).
    assert (Htail : mkSeq nb 1 :: (if c - 1 =? 0 then [] else [mkSeq b (c - 1)]) ++ after = tail)
      by (unfold tail; by destruct (c - 1 =? 0)).
    simpl in Hcut, Ht |- *. rewrite Htail in *. rewrite <- app_assoc in *.
    rewrite total_app in Ht. apply Forall_app in Hcut as [Hk Hpt].
    pose proof (total_nonneg _ Hk).
    destruct (previous ++ tail) as [|s m] eqn:Em.
    { destruct previous; done. }
    destruct (mergeSequencesLoop_spec s m Hpt ltac:(lia)) as (H1&H2&H3&t&m'&Hm&Hbt).
    simpl. split_and!.
    + by apply Forall_app.
    + rewrite Hm in *. destruct Hprev as [[Hbn ->]|[p ->]].
      * apply app_nil in Hbn as [-> _]. done.
      * injection Em as -> _. apply (canonical_replace kept s); try done.
        by apply canonical_app in Hcb as [??].
    + by apply same_bits_app.
  - destruct (Z.eqb_spec prec (c - 1)) as [->|Hp1].
    + replace (c - (c - 1) - 1) with 0 in * by lia. simpl in Hcut, Ht. cbn [Z.eqb app].
      apply Forall_app in Hcut as [_ Hcut]. rewrite total_app in Ht. cbn [total] in Ht.
      destruct (mergeSequencesLoop_spec (mkSeq b (c - 1)) (mkSeq nb 1 :: after) Hcut
        ltac:(cbn [total]; lia)) as (H1&H2&H3&t&m'&Hm&Hbt).
      cbn [mergeSequences]. split_and!.
      * by apply Forall_app.
      * rewrite Hm in *. by apply (canonical_replace before (mkSeq b c)).
      * by apply same_bits_app.
    + destruct (Z.eqb_spec (c - prec - 1) 0); [lia|].
      replace (c - 1 - prec) with (c - prec - 1) by lia. simpl in Hcut |- *.
      split_and!; [done| |done].
      apply (canonical_replace before (mkSeq b c)); [done|done|].
      simpl. split_and!; [congruence|done|]. by destruct after.
Qed.

#[local] Arguments mergeSequences : simpl never.

Lemma pushReservation_spec l o release :
  list_ok l -> canonical l -> 0 <= o < 32 * total l ->
  let '(l', changed) := pushReservation (o / 8) (o mod 8) l release in
  list_ok l' /\ canonical l' /\ total l' = total l
  /\ changed = Bool.eqb (bitAt l o) release
  /\ forall i, 0 <= i -> bitAt l' i = if i =? o then negb release else bitAt l i.
Proof.
  intros Hok Hcan Ho. pose proof Hok as (Hl&Hne&Ht).
  destruct (ordinal_pos o ltac:(lia)) as [Ho1 Ho2]. unfold pushReservation.
  pose proof (findSequence_spec l (o / 8) Hl Hne ltac:(lia) ltac:(dlia)) as H.
  destruct (findSequence l (o / 8)) as [f|]; [|dlia]. destruct H as [Hf _].
  destruct (bitSel_pos f (o / 8) (o mod 8) l Hf ltac:(dlia)) as [-> Hr].
  rewrite Ho2 in *. rewrite firstBit_shift by done.
  pose proof (found_blockAt l (o / 8) f Hl Hf) as Hblk. rewrite Ho1 in Hblk.
  destruct f as [before [b c] after prec ibp]; destruct Hf as [Hsplit Hprec Hidx _]; simpl in *.
  rewrite Ho1 in Hidx.
  assert (Hub : is_u32 b) by (rewrite <- Hblk; by apply blockAt_u32).
  destruct (bit_update b (31 - o mod 32) release Hub ltac:(lia)) as (Hnb&Hbits&Heq).
  set (nb := if release then _ else _) in *. rewrite Heq.
  assert (Hbo : Z.testbit b (31 - o mod 32) = bitAt l o) by (unfold bitAt; by rewrite Hblk).
  rewrite Hbo in *.
  destruct (Bool.eqb (bitAt l o) release) eqn:Hch; simpl.
  - rewrite Hsplit in Hl, Ht, Hcan.
    assert (Hc1 : c ⊟ 1 = c - 1).
    { rewrite total_app in Ht. simpl in Ht. apply Forall_app in Hl as [Hb Hca].
      inversion Hca as [|? ? ? Ha]. pose proof (total_nonneg _ Hb). pose proof (total_nonneg _ Ha).
      subst. rewrite sub64_small by lia. done. }
    pose proof (pushReservation_merge before b c prec nb after Hl ltac:(lia) Hcan Hnb
      ltac:(intros E; rewrite E, Z.eqb_refl in Heq; done) Hprec) as Hm.
    rewrite Hc1.
    assert (Hc2 : prec <> 0 -> prec <> c - 1 -> c - 1 ⊟ prec = c - 1 - prec).
    { intros. rewrite sub64_small by (rewrite <- Hc1 in *; pose proof (wrap64_range (c - 1));
        unfold sub64 in *; lia). done. }
    set (nh := if prec =? 0 then _ else _) in Hm.
    match goal with |- (list_ok ?x /\ _) => assert (Hnh : x = nh) end.
    { unfold nh. destruct (Z.eqb_spec prec 0); [done|].
      destruct (Z.eqb_spec prec (c - 1)); [done|]. by rewrite Hc2. }
    rewrite Hnh. clearbody nh. clear Hnh.
    destruct Hm as (Hnok&Hncan&Hntot&Hnblk).
    destruct (cut_ok before b c prec nb after Hl Hnb Hprec) as [_ Hct].
    assert (Htt : total nh = total l) by (by rewrite Hntot, Hct, Hsplit).
    split_and!; try done.
    + split; [done|]. split; [|by rewrite Htt, Hsplit].
      intros ->. simpl in Htt. lia.
    + intros i Hi. unfold bitAt.
      rewrite Hnblk by dlia. rewrite cut_blockAt by (done || dlia). rewrite <- Hidx, <- Hsplit.
      destruct (Z.eqb_spec (i / 32) (o / 32)) as [E|E].
      * rewrite Hbits by dlia. rewrite E, Hblk.
        destruct (Z.eqb_spec i o) as [->|Hio]; [by rewrite Z.eqb_refl|].
        destruct (Z.eqb_spec (31 - i mod 32) (31 - o mod 32)); [dlia|done].
      * destruct (Z.eqb_spec i o) as [->|]; [done|done].
  - split_and!; try done. intros i Hi. destruct (Z.eqb_spec i o) as [->|]; [|done].
    destruct (bitAt l o), release; done.
Qed.

(** ** The operations keep the invariant *)

Lemma Inv_list_ok h : Inv h -> list_ok (bm_head h) /\ bm_bits h <= 32 * total (bm_head h) < 2 ^ 64.
Proof.
  intros [Hb Hs _ Ht _ _ _]. unfold maxBits in *.
  assert (bm_bits h <= 32 * total (bm_head h) < 2 ^ 64) by (rewrite Ht; dlia).
  split; [|done]. split; [done|]. split; [|lia]. intros E. rewrite E in *. simpl in *. lia.
Qed.

Lemma New_bitAt n o : bitAt (bm_head (New n)) o = false.
Proof. unfold bitAt, New. simpl. destruct (_ <? _); apply Z.testbit_0_l. Qed.

Lemma New_Inv n : 0 < n <= maxBits -> Inv (New n).
Proof.
  unfold maxBits. intros Hn.
  assert (Hc : (n ⊞ blockLen ⊟ 1) / blockLen = (n + 31) / 32).
  { unfold blockLen, add64, sub64, wrap64. rewrite Zminus_mod_idemp_l.
    rewrite Z.mod_small by lia. f_equal. lia. }
  constructor; unfold New; simpl; rewrite ?Hc.
  - unfold maxBits. lia.
  - apply Forall_singleton. split; simpl; [unfold is_u32; lia|dlia].
  - done.
  - dlia.
  - intros o _. pose proof (New_bitAt n o) as H. unfold New in H. simpl in H. by rewrite Hc in H.
  - rewrite count_in_false; [lia|]. intros i _.
    pose proof (New_bitAt n i) as H. unfold New in H. simpl in H. by rewrite Hc in H.
  - unfold is_u64. lia.
Qed.

(** [pushReservation] on a bitmap, with the bookkeeping of [unselected]. *)
Lemma push_Inv h o release c :
  Inv h -> 0 <= o < bm_bits h -> is_u64 c ->
  let '(l', changed) := pushReservation (o / 8) (o mod 8) (bm_head h) release in
  let h' := mkBitmap (bm_bits h)
    (if changed then (if release then bm_unselected h ⊞ 1 else bm_unselected h ⊟ 1)
     else bm_unselected h) l' c in
  Inv h' /\ forall i, 0 <= i -> bitAt l' i = update (bitAt (bm_head h)) o (negb release) i.
Proof.
  intros HI Ho Hc. destruct (Inv_list_ok h HI) as [Hok Ht].
  destruct HI as [Hb Hs Hcan Htot Htail Hun _].
  pose proof (pushReservation_spec (bm_head h) o release Hok Hcan ltac:(lia)) as H.
  destruct (pushReservation _ _ _ _) as [l' changed].
  destruct H as ((Hs'&_&_)&Hcan'&Ht'&->&Hbits). split; [|done].
  assert (Hcnt : count_in (bitAt l') 0 (bm_bits h)
    = count_in (bitAt (bm_head h)) 0 (bm_bits h) - Z.b2z (bitAt (bm_head h) o) + Z.b2z (negb release)).
  { rewrite (count_in_ext (bitAt l') (update (bitAt (bm_head h)) o (negb release)))
      by (intros; apply Hbits; lia).
    rewrite (count_in_update (bitAt (bm_head h)) _ o) by
      (try lia; intros i Hi; unfold update; by destruct (Z.eqb_spec i o)).
    unfold update. by rewrite Z.eqb_refl. }
  pose proof (count_in_bounds (bitAt (bm_head h)) 0 (bm_bits h) ltac:(lia)) as Hb1.
  pose proof (count_in_bounds (bitAt l') 0 (bm_bits h) ltac:(lia)) as Hb2.
  unfold maxBits in *.
  constructor; simpl; try done; unfold maxBits.
  - by rewrite Ht'.
  - intros i Hi. rewrite Hbits by lia. destruct (Z.eqb_spec i o); [lia|]. apply Htail. lia.
  - rewrite Hcnt in *. destruct (bitAt (bm_head h) o), release; simpl in *;
      rewrite ?add64_small, ?sub64_small by lia; lia.
Qed.

Lemma set_eta h : mkBitmap (bm_bits h) (bm_unselected h) (bm_head h) (bm_curr h) = h.
Proof. by destruct h. Qed.

(** What is free is what [unselected] counts. *)
Lemma unselected_zero h :
  Inv h -> bm_unselected h = 0 <-> forall i, 0 <= i < bm_bits h -> bitAt (bm_head h) i = true.
Proof.
  intros [Hb _ _ _ _ Hun _].
  rewrite <- (count_in_full (bitAt (bm_head h)) 0 (bm_bits h)) by lia. lia.
Qed.

Lemma IsSet_bitAt h o : Inv h -> is_u64 o -> IsSet h o = bitAt (bm_head h) o.
Proof.
  intros HI Ho. destruct (Inv_list_ok h HI) as [Hok Ht]. unfold IsSet, validateOrdinal.
  destruct (Z.leb_spec (bm_bits h) o).
  - by rewrite (inv_tail h HI).
  - rewrite checkIfAvailable_spec by done.
    destruct (Z.ltb_spec o (32 * total (bm_head h))); [|lia].
    by destruct (bitAt (bm_head h) o).
Qed.

Lemma Set_effect h o :
  Inv h -> is_u64 o ->
  let '(h', err) := Set_ h o in
  err = (if bm_bits h <=? o then Some ErrOrdinal
         else if bitAt (bm_head h) o then Some ErrBitAllocated else None)
  /\ match err with
     | None => Inv h' /\ bm_bits h' = bm_bits h
               /\ (forall i, 0 <= i -> bitAt (bm_head h') i = update (bitAt (bm_head h)) o true i)
     | Some _ => h' = h
     end.
Proof.
  intros HI Ho. destruct (Inv_list_ok h HI) as [Hok Ht]. unfold Set_, validateOrdinal.
  destruct (Z.leb_spec (bm_bits h) o); [done|]. unfold set.
  rewrite checkIfAvailable_spec by done.
  destruct (Z.ltb_spec o (32 * total (bm_head h))); [|lia].
  unfold is_u64 in Ho.
  destruct (bitAt (bm_head h) o); simpl; [by rewrite set_eta|].
  pose proof (push_Inv h o false (bm_curr h) HI ltac:(lia) (inv_curr h HI)) as Hp.
  destruct (pushReservation _ _ _ _) as [l' changed]. by destruct Hp.
Qed.

Lemma Unset_effect h o :
  Inv h -> is_u64 o ->
  let '(h', err) := Unset h o in
  err = (if bm_bits h <=? o then Some ErrOrdinal else None)
  /\ match err with
     | None => Inv h' /\ bm_bits h' = bm_bits h
               /\ (forall i, 0 <= i -> bitAt (bm_head h') i = update (bitAt (bm_head h)) o false i)
     | Some _ => h' = h
     end.
Proof.
  intros HI Ho. unfold Unset, validateOrdinal.
  destruct (Z.leb_spec (bm_bits h) o); [done|]. unfold set, ordinalToPos.
  unfold is_u64 in Ho.
  pose proof (push_Inv h o true (bm_curr h) HI ltac:(lia) (inv_curr h HI)) as Hp.
  destruct (pushReservation _ _ _ _) as [l' changed]. by destruct Hp.
Qed.

(** The shared part of [SetAny] and [SetAnyInRange]. *)
Lemma set_any_effect h start end_ serial :
  Inv h -> 0 <= start <= end_ -> end_ < bm_bits h ->
  let '(h', r, err) := set h 0 start end_ true false serial in
  match err with
  | None => Inv h' /\ bm_bits h' = bm_bits h
      /\ next_ordinal (bitAt (bm_head h)) start (if serial then bm_curr h else 0) end_ r
      /\ start <= r <= end_
      /\ (forall i, 0 <= i -> bitAt (bm_head h') i = update (bitAt (bm_head h)) r true i)
      /\ bm_curr h' = r + 1
  | Some e => e = ErrNoBitAvailable /\ h' = h
      /\ forall i, start <= i <= end_ -> bitAt (bm_head h) i = true
  end.
Proof.
  intros HI Hs He. destruct (Inv_list_ok h HI) as [Hok Ht]. unfold set.
  set (c := if serial then bm_curr h else 0).
  assert (Hc : 0 <= c < 2 ^ 64) by (unfold c; pose proof (inv_curr h HI); unfold is_u64 in *;
    destruct serial; lia).
  destruct (getAvailableFromCurrent_spec (bm_head h) start c end_ Hok ltac:(lia) Hc ltac:(lia))
    as [(r&->&Hn&Hr)|[-> Hall]].
  - rewrite posToOrdinal_ordinal by lia. rewrite add64_small by lia.
    pose proof (push_Inv h r false (r + 1) HI ltac:(lia) ltac:(unfold is_u64; lia)) as Hp.
    destruct (pushReservation _ _ _ _) as [l' changed]. destruct Hp. split_and!; done || lia.
  - by rewrite set_eta.
Qed.

(** ** Counting *)

Lemma onesCount_count n x :
  (n <= 32)%nat -> onesCount n x = count_in (fun i => Z.testbit x (31 - i)) (32 - Z.of_nat n) 32.
Proof.
  induction n as [|n IH]; intros Hn; [done|]. cbn [onesCount]. rewrite IH by lia.
  rewrite (count_in_step _ (32 - Z.of_nat (S n))) by lia. do 2 f_equal; try f_equal; lia.
Qed.

Lemma OnesCount32_mask blk mask a b :
  0 <= a <= b -> b <= 32 ->
  (forall i, 0 <= i < 32 -> Z.testbit mask (31 - i) = (a <=? i) && (i <? b)) ->
  OnesCount32 (Z.land blk mask) = count_in (fun i => Z.testbit blk (31 - i)) a b.
Proof.
  intros Ha Hb Hm. unfold OnesCount32. rewrite onesCount_count by lia.
  change (32 - Z.of_nat 32) with 0.
  rewrite (count_in_split _ 0 a 32), (count_in_split _ a b 32) by lia.
  rewrite (count_in_false _ 0 a), (count_in_false _ b 32).
  - rewrite (count_in_ext _ (fun i => Z.testbit blk (31 - i)) a b); [lia|].
    intros i Hi. rewrite Z.land_spec, Hm by lia.
    destruct (Z.leb_spec a i), (Z.ltb_spec i b); try lia. apply andb_true_r.
  - intros i Hi. rewrite Z.land_spec, Hm by lia.
    destruct (Z.ltb_spec i b); [lia|]. by rewrite !andb_false_r.
  - intros i Hi. rewrite Z.land_spec, Hm by lia.
    destruct (Z.leb_spec a i); [lia|]. apply andb_false_r.
Qed.

(** The mask that drops the first [off] positions, and the one that drops the
    positions after [e]. *)
Lemma startMask_bits off i :
  0 <= off < 32 -> 0 <= i < 32 ->
  Z.testbit (Z.shiftr blockMAX off) (31 - i) = (off <=? i).
Proof.
  intros Ho Hi. rewrite Z.shiftr_spec by lia. destruct (Z.leb_spec off i).
  - apply blockMAX_bits. lia.
  - apply (testbit_high _ _ 32); unfold blockMAX; lia.
Qed.

Lemma endMask_bits e i :
  0 <= e < 32 -> 0 <= i < 32 ->
  Z.testbit (wrap32 (Z.shiftl blockMAX (31 - e))) (31 - i) = (i <? e + 1).
Proof.
  intros He Hi. unfold wrap32. rewrite Z.mod_pow2_bits_low by lia.
  rewrite Z.shiftl_spec by lia. destruct (Z.ltb_spec i (e + 1)).
  - apply blockMAX_bits. lia.
  - rewrite Z.testbit_neg_r by lia. done.
Qed.

(** The bits of [r] whole instances of a block, and of a part of one. *)
Lemma count_instance before current after p a b :
  Forall seq_ok before -> 0 < sq_count current ->
  total before <= p < total before + sq_count current -> 0 <= a <= b -> b <= 32 ->
  count_in (bitAt (before ++ current :: after)) (32 * p + a) (32 * p + b)
  = count_in (fun i => Z.testbit (sq_block current) (31 - i)) a b.
Proof.
  intros Hb Hc Hp Ha Hb32.
  rewrite (Z.add_comm _ a), (Z.add_comm _ b), <- count_in_shift.
  apply count_in_ext. intros i Hi.
  rewrite (block_bit before current after p) by (done || lia). do 2 f_equal. lia.
Qed.

Lemma count_instances before current after p r :
  Forall seq_ok before -> 0 < sq_count current -> 0 <= r ->
  total before <= p -> p + r <= total before + sq_count current ->
  count_in (bitAt (before ++ current :: after)) (32 * p) (32 * (p + r))
  = r * count_in (fun i => Z.testbit (sq_block current) (31 - i)) 0 32.
Proof.
  intros Hb Hc Hr. revert p. pattern r. apply natlike_ind; [| |done].
  - intros p Hp Hpr. rewrite count_in_empty by lia. lia.
  - intros x Hx IH p Hp Hpr.
    rewrite (count_in_split _ (32 * p) (32 * p + 32)) by lia.
    pose proof (count_instance before current after p 0 32 Hb Hc ltac:(lia) ltac:(lia) ltac:(lia)) as H1.
    rewrite Z.add_0_r in H1. rewrite H1.
    replace (32 * p + 32) with (32 * (p + 1)) by lia.
    replace (p + Z.succ x) with (p + 1 + x) by lia. rewrite IH by lia. lia.
Qed.

(** One round of the loop counts the bits from its position to the end of its
    run, or to the end ordinal. *)
Lemma onesCount_round before current after p off end_ r :
  Forall seq_ok before -> seq_ok current ->
  total before <= p -> p + r <= total before + sq_count current ->
  0 <= off < 32 -> 1 <= r -> (off <> 0 -> r = 1) -> 32 * p + off <= end_ ->
  let B := end_ / 32 - p + 1 in
  (r = 1 \/ r <= B - 1) ->
  let mask := Z.shiftr blockMAX off in
  let mask' := if B =? 1 then Z.land mask (wrap32 (Z.shiftl blockMAX (31 - end_ mod 32))) else mask in
  OnesCount32 (Z.land (sq_block current) mask') * r
  = count_in (bitAt (before ++ current :: after)) (32 * p + off) (Z.min (32 * (p + r)) (end_ + 1)).
Proof.
  intros Hb [_ Hc] Hp Hpr Hoff Hr Hoff1 Hend B HrB mask mask'. unfold mask'. clear mask'.
  destruct (Z.eqb_spec B 1) as [EB|EB].
  - assert (r = 1) as -> by lia. unfold B in EB.
    rewrite (OnesCount32_mask _ _ off (end_ mod 32 + 1)) by
      (dlia || (intros i Hi; rewrite Z.land_spec; unfold mask;
       rewrite startMask_bits, endMask_bits by (lia || dlia); done)).
    rewrite Z.min_r by dlia. replace (end_ + 1) with (32 * p + (end_ mod 32 + 1)) by dlia.
    rewrite count_instance by (done || dlia). lia.
  - rewrite (OnesCount32_mask _ _ off 32) by
      (lia || (intros i Hi; unfold mask; rewrite startMask_bits by lia;
       destruct (Z.ltb_spec i 32); [by rewrite andb_true_r|lia])).
    rewrite Z.min_l by (unfold B in *; dlia).
    destruct (Z.eq_dec off 0) as [->|Hne].
    + rewrite Z.add_0_r, count_instances by (done || lia). lia.
    + rewrite (Hoff1 Hne) in *. replace (32 * (p + 1)) with (32 * p + 32) by lia.
      rewrite count_instance by (done || lia). lia.
Qed.

Lemma onesCountLoop_done fuel current after end_ cb mask r count :
  onesCountLoop fuel current after end_ 0 cb mask r count = count.
Proof. by destruct fuel. Qed.

(** Rounds the loop still needs. *)
Definition roundsLeft (after : list sequence) (B cb r : Z) : nat :=
  2 * length after + (if r =? cb then 1 else if r =? B - 1 then 2 else 3).

Lemma onesCountLoop_spec fuel before current after prec off end_ r count :
  let l := before ++ current :: after in
  let p := total before + prec in
  let B := end_ / 32 - p + 1 in
  let cb := Z.min (sq_count current - prec) B in
  list_ok l -> end_ < 32 * total l -> 0 <= prec < sq_count current ->
  0 <= off < 32 -> 32 * p + off <= end_ ->
  1 <= r <= cb -> (off <> 0 -> r = 1) -> (r = 1 \/ r <= B - 1) ->
  0 <= count -> count + count_in (bitAt l) (32 * p + off) (end_ + 1) < 2 ^ 64 ->
  (roundsLeft after B cb r <= fuel)%nat ->
  onesCountLoop fuel current after end_ B cb (Z.shiftr blockMAX off) r count
  = count + count_in (bitAt l) (32 * p + off) (end_ + 1).
Proof.
  revert before current after prec off r count.
  induction fuel as [|fuel IH];
    intros before current after prec off r count l p B cb Hok Hend Hprec Hoff Hlo Hr Hoff1 HrB Hcnt Hlt Hfuel.
  { unfold roundsLeft in Hfuel. exfalso. destruct (r =? cb), (r =? B - 1); lia. }
  pose proof Hend as Hend0.
  pose proof Hok as (Hl&_&Ht). unfold l in Hl, Ht, Hend.
  rewrite total_app in Ht, Hend. cbn [total] in Ht, Hend.
  apply Forall_app in Hl as [Hb Hca]. inversion Hca as [|? ? Hs Ha]; subst.
  pose proof (total_nonneg _ Hb). pose proof (total_nonneg _ Ha).
  assert (HB : 1 <= B) by (unfold B; dlia).
  pose proof (onesCount_round before current after p off end_ r Hb Hs ltac:(unfold p; lia)
    ltac:(unfold p, cb in *; lia) Hoff ltac:(lia) Hoff1 Hlo HrB) as Hround.
  fold l B in Hround. cbv zeta in Hround.
  set (mid := Z.min (32 * (p + r)) (end_ + 1)) in *.
  rewrite (count_in_split (bitAt l) (32 * p + off) mid (end_ + 1)) in Hlt |- * by (unfold mid, B in *; dlia).
  pose proof (count_in_bounds (bitAt l) (32 * p + off) mid ltac:(unfold mid, B in *; dlia)).
  pose proof (count_in_bounds (bitAt l) mid (end_ + 1) ltac:(unfold mid; lia)).
  cbn [onesCountLoop]. destruct (Z.ltb_spec 0 B); [|lia].
  replace (blockLen ⊟ end_ mod blockLen ⊟ 1) with (31 - end_ mod 32)
    by (unfold blockLen; rewrite !sub64_small by (try rewrite !sub64_small by dlia; dlia); dlia).
  fold B. set (mask' := if B =? 1 then _ else _) in *.
  rewrite (mul64_small _ r) by (rewrite Hround; lia). rewrite Hround, add64_small by lia.
  rewrite (sub64_small B r), (sub64_small cb r) by (unfold cb, B, p in *; dlia).
  change blockMAX with (Z.shiftr blockMAX 0).
  destruct (Z.eqb_spec (cb - r) 0) as [Ecb|Ecb].
  - assert (Hmid : after = [] \/ B - r = 0 -> mid = end_ + 1).
    { intros [->|Hz]; unfold mid, cb, B, p in *; simpl in *; dlia. }
    destruct after as [|next after].
    { rewrite Hmid by (by left). rewrite (count_in_empty _ (end_ + 1)) by lia. lia. }
    destruct (Z.eq_dec (B - r) 0) as [EB|EB].
    { rewrite EB, onesCountLoop_done, Hmid by (by right).
      rewrite (count_in_empty _ (end_ + 1)) by lia. lia. }
    assert (Hcbr : sq_count current - prec = r) by (unfold cb in *; lia).
    assert (Hln : l = (before ++ [current]) ++ next :: after) by (unfold l; by rewrite <- app_assoc).
    assert (Htn : total (before ++ [current]) = p + r) by (rewrite total_app; cbn [total]; unfold p; lia).
    assert (Hcn : 0 < sq_count next) by (by inversion Ha as [|? ? [_ ?]]).
    specialize (IH (before ++ [current]) next after 0 0
      (Z.max 1 (Z.min (Z.min (sq_count next) (B - r)) (B - r - 1)))
      (count + count_in (bitAt l) (32 * p + off) mid)).
    cbv zeta in IH. rewrite <- Hln, Htn in IH.
    replace (end_ / 32 - (p + r + 0) + 1) with (B - r) in IH by (unfold B; lia).
    rewrite !Z.sub_0_r, !Z.add_0_r in IH.
    assert (Hmid' : mid = 32 * (p + r)) by (unfold mid, B in *; dlia).
    rewrite <- Hmid' in IH. rewrite (sub64_small (B - r) 1) by (unfold B, p in *; dlia).
    rewrite IH; try lia.
    + done.
    + unfold mid, B in *. dlia.
    + unfold roundsLeft in *. cbn [length] in Hfuel.
      destruct (Z.eqb_spec r cb); [|lia]. repeat case_match; lia.
  - assert (Hmid' : mid = 32 * (p + r)) by (unfold mid, cb, B in *; dlia).
    specialize (IH before current after (prec + r) 0
      (Z.max 1 (Z.min (cb - r) (B - r - 1))) (count + count_in (bitAt l) (32 * p + off) mid)).
    cbv zeta in IH. fold l in IH. replace (total before + (prec + r)) with (p + r) in IH by (unfold p; lia).
    replace (end_ / 32 - (p + r) + 1) with (B - r) in IH by (unfold B; lia).
    replace (Z.min (sq_count current - (prec + r)) (B - r)) with (cb - r) in IH by (unfold cb; lia).
    rewrite !Z.add_0_r, <- Hmid' in IH. rewrite (sub64_small (B - r) 1) by (unfold cb, B, p in *; dlia).
    rewrite IH; try (unfold cb in *; lia).
    + done.
    + unfold mid, cb, B in *. dlia.
    + unfold roundsLeft in *. destruct (Z.eqb_spec r cb); [lia|].
      repeat match goal with
      | H : context [Z.eqb ?x ?y] |- _ => destruct (Z.eqb_spec x y)
      | |- context [Z.eqb ?x ?y] => destruct (Z.eqb_spec x y)
      end; unfold cb in *; lia.
Qed.

Lemma OnesCount_count h start end_ :
  Inv h -> is_u64 start -> is_u64 end_ ->
  OnesCount h start end_ =
    if (end_ <? start) || (bm_bits h <=? end_) then GoErr ErrRange
    else GoOk (count_in (bitAt (bm_head h)) start (end_ + 1)).
Proof.
  intros HI Hs He. unfold is_u64 in *. unfold OnesCount.
  destruct (Z.ltb_spec end_ start), (Z.leb_spec (bm_bits h) end_); try done. simpl.
  destruct (Inv_list_ok h HI) as [Hok Ht]. pose proof Hok as (Hl&Hne&_).
  pose proof (findSequence_spec (bm_head h) (start / 8) Hl Hne ltac:(lia) ltac:(dlia)) as H1.
  destruct (findSequence _ _) as [f|]; [|dlia]. destruct H1 as [[Hsplit Hprec Hidx _] _].
  f_equal. unfold blockLen.
  assert (Hidx' : start / 32 = total (fs_before f) + fs_precBlocks f) by (rewrite <- Hidx; dlia).
  pose proof (count_in_bounds (bitAt (bm_head h)) start (end_ + 1) ltac:(lia)) as Hb.
  assert (Hcnt : sq_count (fs_current f) < 2 ^ 64).
  { rewrite Hsplit, total_app in Ht. cbn [total] in Ht. rewrite Hsplit in Hl.
    apply Forall_app in Hl as [Hb1 Hca]. inversion Hca as [|? ? ? Ha]; subst.
    pose proof (total_nonneg _ Hb1). pose proof (total_nonneg _ Ha). lia. }
  rewrite sub64_small, add64_small, sub64_small by dlia. rewrite Hidx'.
  pose proof (onesCountLoop_spec (onesCountFuel (bm_head h)) (fs_before f) (fs_current f) (fs_after f)
    (fs_precBlocks f) (start mod 32) end_ 1 0) as H2.
  cbv zeta in H2. rewrite <- Hsplit, <- Hidx' in H2. rewrite <- Hidx'.
  replace (32 * (start / 32) + start mod 32) with start in H2 by dlia.
  rewrite H2; try (done || dlia).
  unfold roundsLeft, onesCountFuel. rewrite Hsplit, length_app. simpl.
  repeat case_match; lia.
Qed.

(** ** Serialisation *)

Lemma toByteArray_length l : length (toByteArray l) = (12 * length l)%nat.
Proof.
  induction l as [|s l IH]; [done|]. cbn [toByteArray].
  rewrite !length_app, !be_put_length, IH. simpl. lia.
Qed.

Lemma fromByteArrayLoop_toByteArray l :
  Forall (fun s => is_u32 (sq_block s) /\ is_u64 (sq_count s)) l ->
  fromByteArrayLoop (length l) (toByteArray l) = l.
Proof.
  induction 1 as [|[b c] l [Hb Hc] _ IH]; [done|]. cbn [length fromByteArrayLoop toByteArray].
  unfold is_u32, is_u64 in *. cbn [sq_block sq_count] in *.
  rewrite take_app_exact by (by rewrite be_put_length).
  rewrite (drop_app_exact (be_put 4 b)) by (by rewrite be_put_length).
  rewrite take_app_exact by (by rewrite be_put_length).
  rewrite app_assoc, drop_app_exact by (by rewrite length_app, !be_put_length).
  rewrite IH, !be_get_put by (simpl; lia). done.
Qed.

Lemma seq_counts l :
  Forall seq_ok l -> total l < 2 ^ 64 ->
  Forall (fun s => is_u32 (sq_block s) /\ is_u64 (sq_count s)) l.
Proof.
  induction 1 as [|s l [Hu Hc] Hl IH]; intros Ht; [constructor|]. simpl in Ht.
  pose proof (total_nonneg l Hl). constructor; [split; [done|unfold is_u64; lia]|]. apply IH. lia.
Qed.

Lemma fromByteArray_toByteArray l :
  Forall seq_ok l -> l <> [] -> total l < 2 ^ 64 -> fromByteArray (toByteArray l) = GoOk l.
Proof.
  intros Hl Hne Ht. unfold fromByteArray. rewrite toByteArray_length.
  rewrite (Nat.mul_comm 12), Nat.Div0.mod_mul, Nat.div_mul by lia. simpl.
  destruct (Nat.eqb_spec (length l * 12) 0) as [E|E].
  { destruct l; simpl in *; [done|lia]. }
  by rewrite fromByteArrayLoop_toByteArray by (by apply seq_counts).
Qed.

(** ** The interface *)

#[export] Instance Bitmap_OrdinalSet : OrdinalSet Bitmap := {
  os_new := New;
  os_bits := Bits;
  os_unselected := Unselected;
  os_set := Set_;
  os_unset := Unset;
  os_set_any := SetAny;
  os_set_any_in_range := SetAnyInRange;
  os_ones_count := OnesCount
}.

Lemma SetAnyInRange_effect h start end_ serial :
  Inv h -> 0 <= start <= end_ -> end_ < bm_bits h ->
  let '(h', r, err) := SetAnyInRange h start end_ serial in
  match err with
  | None => Inv h' /\ bm_bits h' = bm_bits h /\ start <= r <= end_
      /\ next_ordinal (bitAt (bm_head h)) start (if serial then bm_curr h else 0) end_ r
      /\ (forall i, 0 <= i -> bitAt (bm_head h') i = update (bitAt (bm_head h)) r true i)
      /\ bm_curr h' = r + 1
  | Some e => e = ErrNoBitAvailable /\ h' = h
      /\ forall i, start <= i <= end_ -> bitAt (bm_head h) i = true
  end.
Proof.
  intros HI Hs He. unfold SetAnyInRange, Unselected.
  destruct (Z.ltb_spec end_ start), (Z.leb_spec (bm_bits h) end_); try lia. simpl.
  destruct (Z.eqb_spec (bm_unselected h) 0) as [E|E].
  - pose proof (proj1 (unselected_zero h HI) E) as Hall. split_and!; try done. intros; apply Hall; lia.
  - pose proof (set_any_effect h start end_ serial HI Hs He) as H1.
    destruct (set h 0 start end_ true false serial) as [[h' r] [e|]]; [done|].
    destruct H1 as (?&?&?&?&?&?). split_and!; done || lia.
Qed.

Lemma SetAny_range h serial :
  Inv h -> SetAny h serial = SetAnyInRange h 0 (bm_bits h - 1) serial.
Proof.
  intros HI. pose proof (inv_bits h HI). unfold maxBits in *. unfold SetAny, SetAnyInRange.
  destruct (Z.ltb_spec (bm_bits h - 1) 0), (Z.leb_spec (bm_bits h) (bm_bits h - 1)); try lia.
  by rewrite sub64_small by lia.
Qed.

#[export] Instance Bitmap_OrdinalSetLaws : OrdinalSetLaws Bitmap.
Proof.
  refine {| os_valid := Inv; os_mem := fun b => bitAt (bm_head b) |}; simpl; unfold Bits, Unselected.
  - intros b HI. pose proof (inv_bits b HI). unfold maxBits in *. lia.
  - intros b o HI Ho Hm. destruct (Z.lt_ge_cases o (bm_bits b)); [done|].
    by rewrite (inv_tail b HI) in Hm.
  - intros b HI. apply (inv_unselected b HI).
  - intros n Hn. split; [|done]. apply New_Inv. unfold maxBits. lia.
  - intros n o. apply New_bitAt.
  - intros b o HI Ho. by apply Set_effect.
  - intros b o HI Ho. by apply Unset_effect.
  - intros b serial HI. pose proof (inv_bits b HI) as Hb. rewrite SetAny_range by done.
    pose proof (SetAnyInRange_effect b 0 (bm_bits b - 1) serial HI ltac:(lia) ltac:(lia)) as H.
    destruct (SetAnyInRange b 0 (bm_bits b - 1) serial) as [[b' r] [e|]].
    + destruct H as (->&->&H). split_and!; try done. intros; apply H; lia.
    + destruct H as (?&?&?&?&?&_). split_and!; try done; try lia.
      eexists. split; [done|]. by intros ->.
  - intros b start end_ serial HI Hs He.
    pose proof (SetAnyInRange_effect b start end_ serial HI Hs He) as H.
    destruct (SetAnyInRange b start end_ serial) as [[b' r] [e|]]; [done|].
    destruct H as (?&?&?&?&?&_). split_and!; try done; try lia.
    eexists. split; [done|]. by intros ->.
  - intros b start end_ HI Hs He. pose proof (inv_bits b HI). unfold maxBits in *.
    rewrite OnesCount_count by (done || (unfold is_u64; lia)).
    destruct (Z.ltb_spec end_ start), (Z.leb_spec (bm_bits b) end_); try lia. done.
Defined.
