(* ===== verification/BitmapTheorems.v ===== *)
(** * Theorems about the bit vector

    The properties of [daemon/libnetwork/bitmap] stated for its exported
    operations, each with a concrete instance. *)

From S2P Require Import Prelude Bitmap OrdinalSet BitmapSpec.
Open Scope u64_scope.

(** ** Canonical form *)

Lemma canonical_tail s l : canonical (s :: l) -> canonical l.
Proof. destruct l; [done|]. by intros [_ ?]. Qed.

(** A run ends where the next block differs, so equal vectors have equal runs. *)
Lemma canonical_run s l t k :
  Forall seq_ok (s :: l) -> Forall seq_ok (t :: k) -> canonical (s :: l) ->
  same_bits (s :: l) (t :: k) -> sq_block s = sq_block t /\ sq_count t <= sq_count s.
Proof.
  intros Hl Hk Hc [Ht Hb].
  inversion Hl as [|? ? [_ Hs] Hl']; inversion Hk as [|? ? [_ Htc] Hk']; subst.
  assert (E : sq_block s = sq_block t).
  { specialize (Hb 0 ltac:(lia)). simpl in Hb.
    destruct (Z.ltb_spec 0 (sq_count s)), (Z.ltb_spec 0 (sq_count t)); try lia; done. }
  split; [done|]. destruct (Z.le_gt_cases (sq_count t) (sq_count s)) as [|Hlt]; [done|exfalso].
  specialize (Hb (sq_count s) ltac:(lia)). simpl in Hb, Ht.
  destruct (Z.ltb_spec (sq_count s) (sq_count s)); [lia|].
  destruct (Z.ltb_spec (sq_count s) (sq_count t)); [|lia].
  pose proof (total_nonneg _ Hk').
  destruct l as [|s' l]; simpl in *; [lia|]. destruct Hc as [Hne _].
  inversion Hl' as [|? ? [_ Hs'] _]; subst.
  destruct (Z.ltb_spec (sq_count s - sq_count s) (sq_count s')); [congruence|lia].
Qed.

Lemma canonical_unique l k :
  Forall seq_ok l -> Forall seq_ok k -> canonical l -> canonical k -> same_bits l k -> l = k.
Proof.
  revert k. induction l as [|s l IH]; intros k Hl Hk Hcl Hck Hsb.
  - destruct Hsb as [Ht _]. destruct k as [|t k]; [done|]. inversion Hk as [|? ? [_ ?] Hk']; subst.
    pose proof (total_nonneg _ Hk'). simpl in Ht. lia.
  - destruct k as [|t k].
    { destruct Hsb as [Ht _]. inversion Hl as [|? ? [_ ?] Hl']; subst.
      pose proof (total_nonneg _ Hl'). simpl in Ht. lia. }
    destruct (canonical_run s l t k) as [E1 H1]; try done.
    destruct (canonical_run t k s l) as [_ H2]; try done.
    assert (sq_count s = sq_count t) as E2 by lia.
    assert (s = t) as -> by (destruct s, t; simpl in *; congruence).
    f_equal. inversion Hl as [|? ? [_ Hc] Hl']; inversion Hk; subst. apply IH; try done.
    + by eapply canonical_tail.
    + by eapply canonical_tail.
    + destruct Hsb as [Ht Hb]. simpl in Ht. split; [lia|]. intros i Hi.
      specialize (Hb (i + sq_count t) ltac:(lia)). simpl in Hb.
      destruct (Z.ltb_spec (i + sq_count t) (sq_count t)); [lia|].
      by replace (i + sq_count t - sq_count t) with i in Hb by lia.
Qed.

(** Equal bits mean equal blocks. *)
Lemma bits_blocks l k i :
  Forall seq_ok l -> Forall seq_ok k -> 0 <= i ->
  (forall o, 0 <= o -> bitAt l o = bitAt k o) -> blockAt l i = blockAt k i.
Proof.
  intros Hl Hk Hi H. apply u32_bits_ext; [by apply blockAt_u32..|]. intros j Hj.
  specialize (H (32 * i + (31 - j)) ltac:(lia)). unfold bitAt in H.
  replace ((32 * i + (31 - j)) / 32) with i in H by dlia.
  by replace (31 - (32 * i + (31 - j)) mod 32) with j in H by dlia.
Qed.

Lemma Inv_head_unique h h' :
  Inv h -> Inv h' -> bm_bits h = bm_bits h' ->
  (forall o, 0 <= o -> bitAt (bm_head h) o = bitAt (bm_head h') o) -> bm_head h = bm_head h'.
Proof.
  intros HI HI' Hb H. apply canonical_unique; try apply HI; try apply HI'.
  split; [rewrite (inv_total h HI), (inv_total h' HI'); by rewrite Hb|].
  intros i Hi. apply bits_blocks; try done; [apply HI|apply HI'].
Qed.

Lemma equal_eq l k : equal l k = true <-> l = k.
Proof.
  revert k. induction l as [|[b c] l IH]; intros [|[b' c'] k]; simpl; try done.
  destruct (Z.eqb_spec b b'), (Z.eqb_spec c c'); simpl; try (split; [done|congruence]).
  rewrite IH. split; congruence.
Qed.

Lemma getCopy_id l : getCopy l = l.
Proof. induction l as [|[b c] l IH]; simpl; [done|]. by rewrite IH. Qed.

Lemma Copy_id h : Copy h = h.
Proof. unfold Copy. rewrite getCopy_id. by destruct h. Qed.

Lemma Marshal_Unmarshal h g :
  Inv h ->
  UnmarshalBinary g (Some (MarshalBinary h))
  = GoOk (mkBitmap (bm_bits h) (bm_unselected h) (bm_head h) (bm_curr g)).
Proof.
  intros HI. destruct (Inv_list_ok h HI) as [(Hl&Hne&_) Ht].
  pose proof (inv_bits h HI) as Hb. pose proof (inv_unselected h HI) as Hu.
  pose proof (count_in_bounds (bitAt (bm_head h)) 0 (bm_bits h) ltac:(lia)).
  unfold maxBits in *. unfold UnmarshalBinary, MarshalBinary.
  rewrite !length_app, !be_put_length, toByteArray_length.
  destruct (Nat.ltb_spec (8 + (8 + 12 * length (bm_head h))) 16); [lia|].
  rewrite app_assoc, (drop_app_exact (be_put 8 _ ++ be_put 8 _)), <- app_assoc
    by (by rewrite length_app, !be_put_length).
  rewrite fromByteArray_toByteArray by (done || lia).
  rewrite take_app_exact, (drop_app_exact (be_put 8 (bm_bits h))), take_app_exact
    by (by rewrite be_put_length).
  rewrite !be_get_put by (simpl; lia). done.
Qed.

(** ** Reachable states *)

(** One call of an exported method that changes the vector, with any [uint64]
    arguments, or a copy or a decoding of an encoded vector. *)
Inductive bitmap_step : Bitmap -> Bitmap -> Prop :=
| step_Set h o : is_u64 o -> bitmap_step h (fst (Set_ h o))
| step_Unset h o : is_u64 o -> bitmap_step h (fst (Unset h o))
| step_SetAny h serial : bitmap_step h (fst (fst (SetAny h serial)))
| step_SetAnyInRange h start end_ serial :
    is_u64 start -> is_u64 end_ ->
    bitmap_step h (fst (fst (SetAnyInRange h start end_ serial)))
| step_Copy h : bitmap_step h (Copy h)
| step_Decode h h' : UnmarshalBinary h (Some (MarshalBinary h)) = GoOk h' -> bitmap_step h h'.

Definition bitmap_reachable (n : Z) : Bitmap -> Prop := rtc bitmap_step (New n).

Lemma bitmap_step_Inv h h' :
  Inv h -> bitmap_step h h' -> Inv h' /\ bm_bits h' = bm_bits h.
Proof.
  intros HI Hstep. destruct Hstep as [h o Ho|h o Ho|h serial|h start end_ serial Hs He|h|h h' Hd].
  - pose proof (Set_effect h o HI Ho) as H. destruct (Set_ h o) as [h' [e|]]; destruct H as [_ H];
      [by subst|]. by destruct H as (?&?&_).
  - pose proof (Unset_effect h o HI Ho) as H. destruct (Unset h o) as [h' [e|]]; destruct H as [_ H];
      [by subst|]. by destruct H as (?&?&_).
  - pose proof (inv_bits h HI). rewrite SetAny_range by done.
    pose proof (SetAnyInRange_effect h 0 (bm_bits h - 1) serial HI ltac:(lia) ltac:(lia)) as H1.
    destruct (SetAnyInRange _ _ _ _) as [[h' r] [e|]]; [by destruct H1 as (_&->&_)|].
    by destruct H1 as (?&?&_).
  - unfold is_u64 in *.
    destruct (Z.ltb_spec end_ start) as [Hlt|Hge].
    { unfold SetAnyInRange. by destruct (Z.ltb_spec end_ start); [|lia]. }
    destruct (Z.leb_spec (bm_bits h) end_) as [Hout|Hin].
    { unfold SetAnyInRange. destruct (Z.leb_spec (bm_bits h) end_); [|lia]. by rewrite orb_true_r. }
    pose proof (SetAnyInRange_effect h start end_ serial HI ltac:(lia) ltac:(lia)) as H1.
    destruct (SetAnyInRange _ _ _ _) as [[h' r] [e|]]; [by destruct H1 as (_&->&_)|].
    by destruct H1 as (?&?&_).
  - by rewrite Copy_id.
  - rewrite Marshal_Unmarshal in Hd by done. injection Hd as <-. by rewrite set_eta.
Qed.

Lemma bitmap_reachable_valid n h :
  0 < n <= maxBits -> bitmap_reachable n h -> Inv h /\ bm_bits h = n.
Proof.
  intros Hn. apply (rtc_ind_r (fun h => Inv h /\ bm_bits h = n)).
  - split; [by apply New_Inv|done].
  - intros h1 h2 _ Hstep [HI <-]. by apply bitmap_step_Inv.
Qed.

(** The exported view of a valid vector agrees with the abstraction. *)
Lemma IsSet_update h h' o v :
  Inv h -> Inv h' -> (forall i, 0 <= i -> bitAt (bm_head h') i = update (bitAt (bm_head h)) o v i) ->
  forall i, is_u64 i -> IsSet h' i = update (IsSet h) o v i.
Proof.
  intros HI HI' H i Hi. rewrite IsSet_bitAt, H by (done || (unfold is_u64 in *; lia)).
  unfold update. destruct (Z.eqb_spec i o); [done|]. by rewrite IsSet_bitAt.
Qed.

Lemma count_IsSet h lo hi :
  Inv h -> 0 <= lo -> hi <= 2 ^ 64 ->
  count_in (IsSet h) lo hi = count_in (bitAt (bm_head h)) lo hi.
Proof.
  intros HI Hlo Hhi. apply count_in_ext. intros i Hi. apply IsSet_bitAt; [done|].
  unfold is_u64. lia.
Qed.

(** How an update of one bit moves the free count. *)
Lemma unselected_update h h' o v :
  Inv h -> Inv h' -> bm_bits h' = bm_bits h -> 0 <= o < bm_bits h ->
  (forall i, 0 <= i -> bitAt (bm_head h') i = update (bitAt (bm_head h)) o v i) ->
  Unselected h' = Unselected h + Z.b2z (bitAt (bm_head h) o) - Z.b2z v.
Proof.
  intros HI HI' Hb Ho H. unfold Unselected. rewrite (inv_unselected h HI), (inv_unselected h' HI'), Hb.
  rewrite (count_in_ext (bitAt (bm_head h')) (update (bitAt (bm_head h)) o v))
    by (intros; apply H; lia).
  rewrite (count_in_update (bitAt (bm_head h)) _ o) by (lia || (intros; by apply update_ne)).
  rewrite update_eq. lia.
Qed.

(** [Set] then [Unset] of the same ordinal. *)
Lemma Set_then_Unset h o :
  Inv h -> is_u64 o -> snd (Set_ h o) = None -> fst (Unset (fst (Set_ h o)) o) = h.
Proof.
  intros HI Ho. pose proof (Set_effect h o HI Ho) as H.
  assert (Hcurr : bm_curr (fst (Set_ h o)) = bm_curr h).
  { unfold Set_, set. destruct (validateOrdinal h o); [done|].
    destruct (checkIfAvailable (bm_head h) o) as [[? ?] [?|]]; simpl; [done|].
    by destruct (pushReservation _ _ _ _). }
  destruct (Set_ h o) as [h1 err1]. simpl in *. intros ->. destruct H as [Herr (HI1&Hb1&Hbits1)].
  destruct (Z.leb_spec (bm_bits h) o); [done|].
  destruct (bitAt (bm_head h) o) eqn:Hfree; [done|].
  pose proof (Unset_effect h1 o HI1 Ho) as H2.
  assert (Hcurr2 : bm_curr (fst (Unset h1 o)) = bm_curr h1).
  { unfold Unset, set. destruct (validateOrdinal h1 o); [done|]. unfold ordinalToPos.
    by destruct (pushReservation _ _ _ _). }
  destruct (Unset h1 o) as [h2 err2]. simpl in *. destruct H2 as [-> H2]. rewrite Hb1 in H2.
  destruct (Z.leb_spec (bm_bits h) o); [lia|]. destruct H2 as (HI2&Hb2&Hbits2).
  assert (Hsame : forall i, 0 <= i -> bitAt (bm_head h2) i = bitAt (bm_head h) i).
  { intros i Hi. rewrite Hbits2 by done. unfold update.
    destruct (Z.eqb_spec i o) as [->|Hne]; [done|]. rewrite Hbits1 by done. by apply update_ne. }
  assert (Hh : bm_head h2 = bm_head h) by (apply Inv_head_unique; congruence || done).
  pose proof (inv_unselected h HI) as Hu. pose proof (inv_unselected h2 HI2) as Hu2.
  destruct h, h2; simpl in *. subst. congruence.
Qed.

(** C3: for [n] of at least 1 and at most [2^64 - 32], every vector obtained from [New n] by
    exported calls satisfies the representation invariant (nodes non-empty, adjacent blocks
    different, the nodes cover exactly [n] bits, no bit beyond [n] is set), keeps its length,
    and [Unselected] is the number of ordinals that [IsSet] reports as free. *)
Theorem bitmap_reachable_invariant (n : Z) (h : Bitmap) :
  0 < n <= maxBits -> bitmap_reachable n h ->
  Inv h /\ Bits h = n /\ Unselected h = n - count_in (IsSet h) 0 n.
Proof.
  intros Hn Hr. destruct (bitmap_reachable_valid n h Hn Hr) as [HI Hb].
  split; [done|]. split; [done|]. unfold Unselected. unfold maxBits in Hn.
  rewrite count_IsSet by (done || lia). rewrite <- Hb. apply (inv_unselected h HI).
Qed.

Lemma reachable_example : bitmap_reachable 40 (fst (Set_ (New 40) 33)).
Proof. apply rtc_once, step_Set. unfold is_u64. lia. Qed.

Lemma bitmap_reachable_invariant_witness :
  Unselected (fst (Set_ (New 40) 33)) = 39.
Proof.
  destruct (bitmap_reachable_invariant 40 (fst (Set_ (New 40) 33))) as (_&_&->).
  - unfold maxBits. lia.
  - apply reachable_example.
  - vm_compute. reflexivity.
Defined.

(** [Set] on a reachable vector fails with "bit does not belong" outside of
    the vector and with [ErrBitAllocated] on a set bit, and changes nothing
    then; otherwise it sets exactly that bit and the free count drops by one. *)
Theorem Set_correct (n : Z) (h : Bitmap) (o : Z) :
  0 < n <= maxBits -> bitmap_reachable n h -> is_u64 o ->
  let '(h', err) := Set_ h o in
  (n <= o -> err = Some ErrOrdinal /\ h' = h)
  /\ (o < n -> IsSet h o = true -> err = Some ErrBitAllocated /\ h' = h)
  /\ (o < n -> IsSet h o = false ->
      err = None /\ Unselected h' = Unselected h - 1
      /\ forall i, is_u64 i -> IsSet h' i = update (IsSet h) o true i).
Proof.
  intros Hn Hr Ho. destruct (bitmap_reachable_valid n h Hn Hr) as [HI <-].
  pose proof (Set_effect h o HI Ho) as H. destruct (Set_ h o) as [h' err].
  destruct H as [-> H]. rewrite IsSet_bitAt by done. unfold is_u64 in Ho.
  destruct (Z.leb_spec (bm_bits h) o); [split_and!; intros; done || lia|].
  destruct (bitAt (bm_head h) o) eqn:Hbit; [split_and!; intros; done || lia|].
  destruct H as (HI'&Hb&Hbits). split_and!; try (intros; done || lia).
  intros _ _. split_and!; [done| |by apply IsSet_update].
  rewrite (unselected_update h h' o true) by (done || lia). rewrite Hbit. simpl. lia.
Qed.

Lemma Set_correct_witness :
  snd (Set_ (fst (Set_ (New 40) 33)) 33) = Some ErrBitAllocated.
Proof.
  pose proof (Set_correct 40 (fst (Set_ (New 40) 33)) 33 ltac:(unfold maxBits; lia)
    reachable_example ltac:(unfold is_u64; lia)) as H.
  destruct (Set_ (fst (Set_ (New 40) 33)) 33) as [h' err]. destruct H as (_&H&_).
  apply H; [lia|]. vm_compute. reflexivity.
Defined.

(** [Unset] on a reachable vector clears exactly its bit, and the free count
    grows by one exactly when the bit was set; releasing a free bit is no error
    and changes no bit. *)
Theorem Unset_correct (n : Z) (h : Bitmap) (o : Z) :
  0 < n <= maxBits -> bitmap_reachable n h -> is_u64 o ->
  let '(h', err) := Unset h o in
  (n <= o -> err = Some ErrOrdinal /\ h' = h)
  /\ (o < n ->
      err = None /\ Unselected h' = Unselected h + Z.b2z (IsSet h o)
      /\ forall i, is_u64 i -> IsSet h' i = update (IsSet h) o false i).
Proof.
  intros Hn Hr Ho. destruct (bitmap_reachable_valid n h Hn Hr) as [HI <-].
  pose proof (Unset_effect h o HI Ho) as H. destruct (Unset h o) as [h' err].
  destruct H as [-> H]. rewrite IsSet_bitAt by done. unfold is_u64 in Ho.
  destruct (Z.leb_spec (bm_bits h) o); [split_and!; intros; done || lia|].
  destruct H as (HI'&Hb&Hbits). split; [intros; lia|].
  intros _. split_and!; [done| |by apply IsSet_update].
  rewrite (unselected_update h h' o false) by (done || lia). simpl. lia.
Qed.

Lemma Unset_correct_witness :
  Unselected (fst (Unset (fst (Set_ (New 40) 33)) 33)) = 40.
Proof.
  pose proof (Unset_correct 40 (fst (Set_ (New 40) 33)) 33 ltac:(unfold maxBits; lia)
    reachable_example ltac:(unfold is_u64; lia)) as H.
  destruct (Unset (fst (Set_ (New 40) 33)) 33) as [h' err]. destruct H as [_ H].
  cbn [fst]. destruct (H ltac:(lia)) as (_&->&_). vm_compute. reflexivity.
Defined.

(** [SetAnyInRange] on a reachable vector rejects a range that is empty or
    leaves the vector; otherwise it fails exactly when every ordinal of the
    range is set, and else sets one free ordinal of the range: the first free
    one from the scan position on when [serial] is set and there is one, the
    lowest free one of the range if not.  The scan position moves behind it. *)
Theorem SetAnyInRange_correct (n : Z) (h : Bitmap) (start end_ : Z) (serial : bool) :
  0 < n <= maxBits -> bitmap_reachable n h -> is_u64 start -> is_u64 end_ ->
  let '(h', r, err) := SetAnyInRange h start end_ serial in
  let bit := bitAt (bm_head h) in
  (end_ < start \/ n <= end_ -> err = Some ErrRange /\ h' = h)
  /\ (start <= end_ < n -> (forall i, start <= i <= end_ -> bit i = true) ->
      err = Some ErrNoBitAvailable /\ h' = h)
  /\ (start <= end_ < n -> ~ (forall i, start <= i <= end_ -> bit i = true) ->
      err = None
      /\ next_ordinal bit start (if serial then bm_curr h else 0) end_ r
      /\ bm_curr h' = r + 1
      /\ forall i, 0 <= i -> bitAt (bm_head h') i = update bit r true i).
Proof.
  intros Hn Hr Hs He. destruct (bitmap_reachable_valid n h Hn Hr) as [HI <-]. unfold is_u64 in *.
  destruct (Z.lt_ge_cases end_ start) as [Hlt|Hge];
    [|destruct (Z.lt_ge_cases end_ (bm_bits h)) as [Hin|Hout]].
  - unfold SetAnyInRange. destruct (Z.ltb_spec end_ start); [|lia]. simpl.
    split_and!; intros; done || lia.
  - pose proof (SetAnyInRange_effect h start end_ serial HI ltac:(lia) ltac:(lia)) as H.
    destruct (SetAnyInRange h start end_ serial) as [[h' r] err]. simpl.
    split; [intros; lia|].
    destruct err as [e|].
    + destruct H as (->&->&Hall). split; [done|]. intros _ Hne. done.
    + destruct H as (_&_&Hrr&Hnext&Hbits&Hcurr). split; [|done].
      intros _ Hall. apply next_ordinal_free in Hnext. rewrite Hall in Hnext by lia. done.
  - unfold SetAnyInRange. destruct (Z.ltb_spec end_ start); [lia|].
    destruct (Z.leb_spec (bm_bits h) end_); [|lia]. simpl. split_and!; intros; done || lia.
Qed.

Lemma SetAnyInRange_correct_witness :
  exists h' r, SetAnyInRange (fst (Set_ (New 40) 33)) 33 35 false = (h', r, None) /\ r = 34.
Proof.
  pose proof (SetAnyInRange_correct 40 (fst (Set_ (New 40) 33)) 33 35 false
    ltac:(unfold maxBits; lia) reachable_example ltac:(unfold is_u64; lia) ltac:(unfold is_u64; lia)) as H.
  destruct (SetAnyInRange (fst (Set_ (New 40) 33)) 33 35 false) as [[h' r] err] eqn:E.
  destruct H as (_&_&H). destruct H as (->&_); [lia| |].
  - intros Hall. specialize (Hall 34 ltac:(lia)). vm_compute in Hall. discriminate.
  - exists h', r. split; [done|]. vm_compute in E. congruence.
Defined.

(** [SetAny] without [serial] on a reachable vector returns the lowest free
    ordinal of the whole vector and sets it, and fails with
    [ErrNoBitAvailable] exactly when the vector is full. *)
Theorem SetAny_lowest (n : Z) (h : Bitmap) :
  0 < n <= maxBits -> bitmap_reachable n h ->
  let '(h', r, err) := SetAny h false in
  (err = None <-> Unselected h <> 0)
  /\ (err = None -> first_unset (IsSet h) 0 n r /\ Unselected h' = Unselected h - 1
      /\ forall i, is_u64 i -> IsSet h' i = update (IsSet h) r true i)
  /\ (err <> None -> err = Some ErrNoBitAvailable /\ h' = h).
Proof.
  intros Hn Hr. destruct (bitmap_reachable_valid n h Hn Hr) as [HI <-].
  rewrite SetAny_range by done.
  pose proof (SetAnyInRange_effect h 0 (bm_bits h - 1) false HI ltac:(lia) ltac:(lia)) as H.
  pose proof (unselected_zero h HI) as Hz. unfold Unselected at 1. unfold maxBits in Hn.
  destruct (SetAnyInRange h 0 (bm_bits h - 1) false) as [[h' r] [e|]].
  - destruct H as (->&->&Hall). split_and!; try done. split; [done|]. intros Hne. exfalso.
    apply Hne, Hz. intros; apply Hall; lia.
  - destruct H as (HI'&Hb&Hrr&Hnext&Hbits&_).
    pose proof (next_ordinal_free _ _ _ _ _ Hnext) as Hfree.
    split_and!; [split; [|done]| |done].
    + intros _ E. rewrite (proj1 Hz E) in Hfree by lia. done.
    + intros _. apply next_ordinal_lowest in Hnext as (H1&H2&H3); [|lia]. split_and!.
      * split; [lia|]. split; [rewrite IsSet_bitAt by (done || (unfold is_u64; lia)); done|].
        intros i Hi. rewrite IsSet_bitAt by (done || (unfold is_u64; lia)). apply H3. lia.
      * rewrite (unselected_update h h' r true) by (done || lia). rewrite Hfree. simpl. lia.
      * by apply IsSet_update.
Qed.

Lemma SetAny_lowest_witness :
  exists h' r, SetAny (fst (Set_ (New 40) 33)) false = (h', r, None) /\ Unselected h' = 38.
Proof.
  pose proof (SetAny_lowest 40 (fst (Set_ (New 40) 33)) ltac:(unfold maxBits; lia)
    reachable_example) as H.
  destruct (SetAny (fst (Set_ (New 40) 33)) false) as [[h' r] err] eqn:E.
  destruct H as (H1&H2&_).
  assert (err = None) as -> by (apply H1; vm_compute; discriminate).
  exists h', r. split; [done|]. destruct (H2 eq_refl) as (_&->&_). vm_compute. reflexivity.
Defined.

(** [OnesCount] on a reachable vector rejects exactly the ranges that are
    empty or leave the vector, never panics, and returns the number of set
    ordinals in the closed range, computed on the encoded runs. *)
Theorem OnesCount_correct (n : Z) (h : Bitmap) (start end_ : Z) :
  0 < n <= maxBits -> bitmap_reachable n h -> is_u64 start -> is_u64 end_ ->
  OnesCount h start end_ =
    if (end_ <? start) || (n <=? end_) then GoErr ErrRange
    else GoOk (count_in (IsSet h) start (end_ + 1)).
Proof.
  intros Hn Hr Hs He. destruct (bitmap_reachable_valid n h Hn Hr) as [HI <-].
  rewrite OnesCount_count by done. unfold is_u64 in *. by rewrite count_IsSet by (done || lia).
Qed.

Lemma OnesCount_correct_witness : OnesCount (fst (Set_ (New 40) 33)) 3 39 = GoOk 1.
Proof.
  rewrite (OnesCount_correct 40 (fst (Set_ (New 40) 33)) 3 39).
  - vm_compute. reflexivity.
  - unfold maxBits. lia.
  - apply reachable_example.
  - unfold is_u64. lia.
  - unfold is_u64. lia.
Defined.

(** decoding what [MarshalBinary] wrote gives back the same vector, with the
    scan position of the receiver. *)
Theorem Marshal_roundtrip (n : Z) (h g : Bitmap) :
  0 < n <= maxBits -> bitmap_reachable n h ->
  UnmarshalBinary g (Some (MarshalBinary h))
  = GoOk (mkBitmap (bm_bits h) (bm_unselected h) (bm_head h) (bm_curr g)).
Proof. intros Hn Hr. apply Marshal_Unmarshal. by eapply bitmap_reachable_valid. Qed.

Lemma Marshal_roundtrip_witness :
  UnmarshalBinary (New 7) (Some (MarshalBinary (fst (Set_ (New 40) 33))))
  = GoOk (fst (Set_ (New 40) 33)).
Proof.
  rewrite (Marshal_roundtrip 40 (fst (Set_ (New 40) 33)) (New 7)).
  - vm_compute. reflexivity.
  - unfold maxBits. lia.
  - apply reachable_example.
Defined.

(** the encoding is canonical: two reachable vectors of one length have the
    same list of runs, as [equal] compares them, exactly when they have the
    same bits; so [Unset] after a successful [Set] restores the very encoding. *)
Theorem equal_canonical (n : Z) (h g : Bitmap) :
  0 < n <= maxBits -> bitmap_reachable n h -> bitmap_reachable n g ->
  (equal (bm_head h) (bm_head g) = true <-> forall i, is_u64 i -> IsSet h i = IsSet g i)
  /\ (forall o, is_u64 o -> snd (Set_ h o) = None -> fst (Unset (fst (Set_ h o)) o) = h).
Proof.
  intros Hn Hr Hg. destruct (bitmap_reachable_valid n h Hn Hr) as [HI Hb].
  destruct (bitmap_reachable_valid n g Hn Hg) as [HG Hbg]. split.
  - rewrite equal_eq. split.
    + intros E i Hi. by rewrite !IsSet_bitAt, E.
    + intros H. apply Inv_head_unique; try done; [congruence|]. intros o Ho.
      destruct (Z.lt_ge_cases o n) as [Hlt|Hge].
      * specialize (H o ltac:(unfold is_u64, maxBits in *; lia)).
        by rewrite !IsSet_bitAt in H by (done || (unfold is_u64, maxBits in *; lia)).
      * rewrite (inv_tail h HI), (inv_tail g HG) by lia. done.
  - intros o Ho. apply Set_then_Unset; done.
Qed.

Lemma equal_canonical_witness :
  fst (Unset (fst (Set_ (fst (Set_ (New 40) 33)) 5)) 5) = fst (Set_ (New 40) 33).
Proof.
  apply (equal_canonical 40 (fst (Set_ (New 40) 33)) (fst (Set_ (New 40) 33))).
  - unfold maxBits. lia.
  - apply reachable_example.
  - apply reachable_example.
  - unfold is_u64. lia.
  - vm_compute. reflexivity.
Defined.

(** the longest usable vector has [2^64 - 32] bits: for a longer one the
    rounding in [New] wraps around, the vector gets no storage, and [Set]
    reports every ordinal as already allocated although none is set. *)
Theorem New_overflow (n o : Z) :
  maxBits < n < 2 ^ 64 -> 0 <= o < n ->
  total (bm_head (New n)) = 0 /\ Set_ (New n) o = (New n, Some ErrBitAllocated).
Proof.
  unfold maxBits. intros Hn Ho.
  assert (Hc : (n ⊞ blockLen ⊟ 1) / blockLen = 0).
  { unfold blockLen, add64, sub64, wrap64. rewrite Zminus_mod_idemp_l.
    replace (n + 32 - 1) with (n - (2 ^ 64 - 31) + 1 * 2 ^ 64) by lia.
    rewrite Z.mod_add, Z.mod_small by lia. apply Z.div_small. lia. }
  unfold New. rewrite Hc. split; [done|]. unfold Set_, validateOrdinal. cbn [bm_bits].
  destruct (Z.leb_spec n o); [lia|]. unfold set, checkIfAvailable, ordinalToPos.
  cbn [bm_head findSequence findSequenceLoop sq_count]. change (0 ⊠ blockBytes) with 0.
  destruct (Z.leb_spec 0 (o / 8)); [reflexivity|dlia].
Qed.

Lemma New_overflow_witness :
  snd (Set_ (New (2 ^ 64 - 1)) 0) = Some ErrBitAllocated.
Proof.
  rewrite (proj2 (New_overflow (2 ^ 64 - 1) 0 ltac:(unfold maxBits; lia) ltac:(lia))).
  reflexivity.
Defined.
