(* ===== verification/Uint128.v ===== *)
(** * 128-bit unsigned arithmetic

    Model of [daemon/libnetwork/internal/uint128/uint128.go]: a pair of
    [uint64] words, with the refinement of every operation to arithmetic on
    [Z] modulo [2^128]. *)

From S2P Require Import Prelude.
Open Scope u64_scope.

Record Uint128 := mkU128 { hi : Z; lo : Z }.

(** [math/bits]: sum or difference and the carry or borrow out. *)
Definition Add64 (x y carry : Z) : Z * Z := (wrap64 (x + y + carry), (x + y + carry) / 2 ^ 64).
Definition Sub64 (x y borrow : Z) : Z * Z :=
  (wrap64 (x - y - borrow), if x - y - borrow <? 0 then 1 else 0).

(** Shifts of a [uint64]: a count of 64 or more gives 0. *)
Definition shl64 (x n : Z) : Z := wrap64 (Z.shiftl x n).
Definition shr64 (x n : Z) : Z := Z.shiftr x n.

Definition From16 (b : list Z) : Uint128 :=
  mkU128 (be_get 0 (take 8 b)) (be_get 0 (take 8 (drop 8 b))).
Definition From (x y : Z) : Uint128 := mkU128 x y.

Definition Add (x y : Uint128) : Uint128 :=
  let '(lo', carry) := Add64 (lo x) (lo y) 0 in
  let '(hi', _) := Add64 (hi x) (hi y) carry in
  mkU128 hi' lo'.

Definition Sub (x y : Uint128) : Uint128 :=
  let '(lo', carry) := Sub64 (lo x) (lo y) 0 in
  let '(hi', _) := Sub64 (hi x) (hi y) carry in
  mkU128 hi' lo'.

Definition Lsh (x : Uint128) (n : Z) : Uint128 :=
  if 64 <? n then mkU128 (shl64 (lo x) (n - 64)) 0
  else mkU128 (Z.lor (shl64 (hi x) n) (shr64 (lo x) (64 - n))) (shl64 (lo x) n).

Definition Rsh (x : Uint128) (n : Z) : Uint128 :=
  if 64 <? n then mkU128 0 (shr64 (hi x) (n - 64))
  else mkU128 (shr64 (hi x) n) (Z.lor (shr64 (lo x) n) (shl64 (hi x) (64 - n))).

Definition And (x y : Uint128) : Uint128 := mkU128 (Z.land (hi x) (hi y)) (Z.land (lo x) (lo y)).
Definition Not (x : Uint128) : Uint128 := mkU128 (2 ^ 64 - 1 - hi x) (2 ^ 64 - 1 - lo x).
Definition Fill16 (x : Uint128) : list Z := be_put 8 (hi x) ++ be_put 8 (lo x).
Definition Uint64 (x : Uint128) : Z := lo x.
Definition Uint64Sat (x : Uint128) : Z := if negb (hi x =? 0) then 2 ^ 64 - 1 else lo x.

(** ** Refinement to Z *)

Definition u128_ok (x : Uint128) : Prop := is_u64 (hi x) /\ is_u64 (lo x).
Definition to_Z (x : Uint128) : Z := hi x * 2 ^ 64 + lo x.

Lemma to_Z_range x : u128_ok x -> 0 <= to_Z x < 2 ^ 128.
Proof. unfold u128_ok, is_u64, to_Z. lia. Qed.

Lemma to_Z_inj x y : u128_ok x -> u128_ok y -> to_Z x = to_Z y -> x = y.
Proof.
  unfold u128_ok, is_u64, to_Z. destruct x as [a b], y as [c d]; simpl. intros.
  assert (a = c) by lia. assert (b = d) by lia. by subst.
Qed.

Lemma to_Z_mod x : u128_ok x -> to_Z x mod 2 ^ 64 = lo x /\ to_Z x / 2 ^ 64 = hi x.
Proof. unfold u128_ok, is_u64, to_Z. intros. split; dlia. Qed.

Lemma Add_spec x y :
  u128_ok x -> u128_ok y -> u128_ok (Add x y) /\ to_Z (Add x y) = (to_Z x + to_Z y) mod 2 ^ 128.
Proof.
  unfold u128_ok, is_u64, to_Z, Add, Add64, wrap64. destruct x as [a b], y as [c d]; simpl.
  intros. split; dlia.
Qed.

Lemma Sub_spec x y :
  u128_ok x -> u128_ok y -> u128_ok (Sub x y) /\ to_Z (Sub x y) = (to_Z x - to_Z y) mod 2 ^ 128.
Proof.
  unfold u128_ok, is_u64, to_Z, Sub, Sub64, wrap64. destruct x as [a b], y as [c d]; simpl.
  intros. destruct (Z.ltb_spec (b - d - 0) 0); split; dlia.
Qed.

Lemma to_Z_testbit x i :
  u128_ok x -> 0 <= i ->
  Z.testbit (to_Z x) i = if i <? 64 then Z.testbit (lo x) i else Z.testbit (hi x) (i - 64).
Proof.
  intros [Hh Hl] Hi. unfold to_Z. unfold is_u64 in *.
  rewrite <- (lor_shiftl_add (hi x) (lo x) 64) by lia.
  rewrite Z.lor_spec. destruct (Z.ltb_spec i 64).
  - by rewrite Z.shiftl_spec_low by lia.
  - rewrite Z.shiftl_spec by lia. rewrite (testbit_high (lo x) i 64) by lia. apply orb_false_r.
Qed.

Lemma shl64_testbit x n i :
  0 <= i -> Z.testbit (shl64 x n) i = (i <? 64) && Z.testbit x (i - n).
Proof.
  intros Hi. unfold shl64, wrap64. destruct (Z.ltb_spec i 64).
  - rewrite Z.mod_pow2_bits_low by lia. by rewrite Z.shiftl_spec by lia.
  - by rewrite Z.mod_pow2_bits_high by lia.
Qed.

Lemma shr64_testbit x n i : 0 <= i -> Z.testbit (shr64 x n) i = Z.testbit x (i + n).
Proof. intros Hi. unfold shr64. by rewrite Z.shiftr_spec. Qed.

Lemma u64_of_bits a : 0 <= a -> (forall k, 64 <= k -> Z.testbit a k = false) -> is_u64 a.
Proof.
  intros Ha H. split; [done|]. destruct (Z.eq_dec a 0) as [->|]; [lia|].
  apply Z.log2_lt_pow2; [lia|]. destruct (Z.lt_ge_cases (Z.log2 a) 64) as [|Hge]; [done|].
  pose proof (Z.bit_log2 a ltac:(lia)) as Hb. rewrite H in Hb by lia. done.
Qed.

Lemma u64_lor a b : is_u64 a -> is_u64 b -> is_u64 (Z.lor a b).
Proof.
  unfold is_u64. intros Ha Hb. apply u64_of_bits; [apply Z.lor_nonneg; lia|].
  intros k Hk. rewrite Z.lor_spec, !(testbit_high _ k 64) by lia. done.
Qed.

Lemma u64_shl a n : is_u64 (shl64 a n).
Proof. apply wrap64_range. Qed.

Lemma u64_shr a n : is_u64 a -> 0 <= n -> is_u64 (shr64 a n).
Proof.
  unfold is_u64, shr64. intros Ha Hn. rewrite Z.shiftr_div_pow2 by done.
  pose proof (Z.pow_pos_nonneg 2 n ltac:(lia) ltac:(lia)).
  split; [apply Z.div_pos; lia|]. apply Z.div_lt_upper_bound; nia.
Qed.

Lemma Lsh_ok x n : u128_ok x -> 0 <= n -> u128_ok (Lsh x n).
Proof.
  intros [Hh Hl] Hn. unfold Lsh. destruct (Z.ltb_spec 64 n); split; simpl.
  - apply u64_shl.
  - unfold is_u64. lia.
  - apply u64_lor; [apply u64_shl|apply u64_shr; [done|lia]].
  - apply u64_shl.
Qed.

Lemma Rsh_ok x n : u128_ok x -> 0 <= n -> u128_ok (Rsh x n).
Proof.
  intros [Hh Hl] Hn. unfold Rsh. destruct (Z.ltb_spec 64 n); split; simpl.
  - unfold is_u64. lia.
  - apply u64_shr; [done|lia].
  - apply u64_shr; [done|lia].
  - apply u64_lor; [apply u64_shr; [done|lia]|apply u64_shl].
Qed.

(** Case analysis on the word boundaries that decide a bit. *)
Ltac word_bits :=
  repeat match goal with
  | |- context [Z.ltb ?a ?b] => destruct (Z.ltb_spec a b); try lia
  end; simpl; rewrite ?orb_false_r, ?andb_false_r;
  try done; try (f_equal; lia).

Lemma Lsh_spec x n :
  u128_ok x -> 0 <= n -> to_Z (Lsh x n) = (to_Z x * 2 ^ n) mod 2 ^ 128.
Proof.
  intros Hx Hn. pose proof (Lsh_ok x n Hx Hn) as Hok. pose proof Hx as [Hh Hl].
  unfold is_u64 in *. rewrite <- Z.shiftl_mul_pow2 by done. apply Z.bits_inj'. intros i Hi.
  rewrite to_Z_testbit by done. destruct (Z.lt_ge_cases i 128) as [Hlt|Hge].
  - rewrite Z.mod_pow2_bits_low, Z.shiftl_spec by lia.
    assert (Hbit : Z.testbit (to_Z x) (i - n) =
      if i - n <? 0 then false else if i - n <? 64 then Z.testbit (lo x) (i - n)
      else Z.testbit (hi x) (i - n - 64)).
    { destruct (Z.ltb_spec (i - n) 0); [by rewrite Z.testbit_neg_r by lia|].
      by rewrite to_Z_testbit by (done || lia). }
    rewrite Hbit. unfold Lsh. destruct (Z.ltb_spec 64 n); simpl.
    + rewrite Z.testbit_0_l. destruct (Z.ltb_spec i 64).
      * word_bits.
      * rewrite shl64_testbit by lia. destruct (Z.ltb_spec (i - n) 0).
        -- rewrite Z.testbit_neg_r by lia. by rewrite andb_false_r.
        -- word_bits.
    + destruct (Z.ltb_spec i 64).
      * rewrite shl64_testbit by lia. destruct (Z.ltb_spec (i - n) 0).
        -- rewrite Z.testbit_neg_r by lia. by rewrite andb_false_r.
        -- word_bits.
      * rewrite Z.lor_spec, shl64_testbit, shr64_testbit by lia.
        destruct (Z.ltb_spec (i - n) 64).
        -- rewrite (Z.testbit_neg_r (hi x)) by lia. rewrite andb_false_r. word_bits.
        -- rewrite (testbit_high (lo x) _ 64) by lia. word_bits.
  - rewrite Z.mod_pow2_bits_high by lia. destruct (Z.ltb_spec i 64); [lia|].
    apply (testbit_high _ _ 64); [apply Hok|lia].
Qed.

Lemma Rsh_spec x n : u128_ok x -> 0 <= n -> to_Z (Rsh x n) = to_Z x / 2 ^ n.
Proof.
  intros Hx Hn. pose proof (Rsh_ok x n Hx Hn) as Hok. pose proof Hx as [Hh Hl].
  unfold is_u64 in *. rewrite <- Z.shiftr_div_pow2 by done. apply Z.bits_inj'. intros i Hi.
  rewrite to_Z_testbit by done. rewrite Z.shiftr_spec by done.
  rewrite (to_Z_testbit x (i + n)) by (done || lia).
  unfold Rsh. destruct (Z.ltb_spec 64 n); simpl.
  - rewrite Z.testbit_0_l. destruct (Z.ltb_spec i 64).
    + rewrite shr64_testbit by lia. word_bits.
    + destruct (Z.ltb_spec (i + n) 64); [lia|].
      by rewrite (testbit_high (hi x) (i + n - 64) 64) by lia.
  - destruct (Z.ltb_spec i 64).
    + rewrite Z.lor_spec, shr64_testbit, shl64_testbit by lia.
      destruct (Z.ltb_spec i 64); [|lia]. destruct (Z.ltb_spec (i + n) 64).
      * rewrite (Z.testbit_neg_r (hi x)) by lia. word_bits.
      * rewrite (testbit_high (lo x) (i + n) 64) by lia. word_bits.
    + rewrite shr64_testbit by lia. word_bits.
Qed.

Lemma And_spec x y :
  u128_ok x -> u128_ok y -> u128_ok (And x y) /\ to_Z (And x y) = Z.land (to_Z x) (to_Z y).
Proof.
  intros Hx Hy. assert (Hok : u128_ok (And x y)).
  { destruct Hx as [Hh Hl], Hy as [Hh' Hl']. unfold is_u64 in *. split; simpl;
      (apply u64_of_bits; [apply Z.land_nonneg; lia|]; intros k Hk;
       rewrite Z.land_spec, !(testbit_high _ k 64) by lia; done). }
  split; [done|]. apply Z.bits_inj'. intros i Hi.
  rewrite Z.land_spec, !to_Z_testbit by done. simpl.
  destruct (i <? 64); by rewrite Z.land_spec.
Qed.

Lemma Not_spec x : u128_ok x -> u128_ok (Not x) /\ to_Z (Not x) = 2 ^ 128 - 1 - to_Z x.
Proof. unfold u128_ok, is_u64, Not, to_Z. simpl. intros. lia. Qed.

Lemma From16_spec v : 0 <= v < 2 ^ 128 -> u128_ok (From16 (be_put 16 v)) /\ to_Z (From16 (be_put 16 v)) = v.
Proof.
  intros Hv. unfold From16. change 16%nat with (8 + 8)%nat. rewrite be_put_app.
  rewrite take_app_exact, drop_app_exact by (by rewrite be_put_length).
  rewrite <- (app_nil_r (be_put 8 v)), take_app_exact by (by rewrite be_put_length).
  rewrite !be_get_put_mod. simpl (8 * _). unfold u128_ok, is_u64, to_Z. simpl. split; dlia.
Qed.

Lemma Fill16_spec x : u128_ok x -> be_get 0 (Fill16 x) = to_Z x.
Proof.
  intros [Hh Hl]. unfold is_u64 in *. unfold Fill16, to_Z.
  rewrite be_get_app, be_get_put by (simpl; lia).
  rewrite be_get_put_aux by lia. rewrite Z.mod_small by (simpl; lia). done.
Qed.

(** the two-word arithmetic is arithmetic modulo [2^128]: addition,
    subtraction, both shifts for every count, masking, complement, the byte
    encoding, and the saturating conversion. *)
Theorem uint128_refines_Z (x y : Uint128) (n v : Z) :
  u128_ok x -> u128_ok y -> 0 <= n -> 0 <= v < 2 ^ 128 ->
  to_Z (Add x y) = (to_Z x + to_Z y) mod 2 ^ 128
  /\ to_Z (Sub x y) = (to_Z x - to_Z y) mod 2 ^ 128
  /\ to_Z (Lsh x n) = (to_Z x * 2 ^ n) mod 2 ^ 128
  /\ to_Z (Rsh x n) = to_Z x / 2 ^ n
  /\ to_Z (And x y) = Z.land (to_Z x) (to_Z y)
  /\ to_Z (Not x) = 2 ^ 128 - 1 - to_Z x
  /\ Fill16 (From16 (be_put 16 v)) = be_put 16 v
  /\ Uint64Sat x = Z.min (to_Z x) (2 ^ 64 - 1).
Proof.
  intros Hx Hy Hn Hv. split_and!.
  - by apply Add_spec.
  - by apply Sub_spec.
  - by apply Lsh_spec.
  - by apply Rsh_spec.
  - by apply And_spec.
  - by apply Not_spec.
  - unfold Fill16, From16. change 16%nat with (8 + 8)%nat. rewrite be_put_app.
    rewrite take_app_exact, drop_app_exact by (by rewrite be_put_length).
    rewrite <- (app_nil_r (be_put 8 v)), take_app_exact by (by rewrite be_put_length).
    rewrite !be_get_put_mod, app_nil_r. cbn [hi lo]. by rewrite !be_put_mod by lia.
  - unfold Uint64Sat, to_Z. destruct Hx as [Hh Hl]. unfold is_u64 in *.
    destruct (Z.eqb_spec (hi x) 0); simpl; lia.
Qed.

Lemma uint128_refines_Z_witness : to_Z (Add (From 1 (2 ^ 64 - 1)) (From 0 1)) = 2 ^ 65.
Proof.
  destruct (uint128_refines_Z (From 1 (2 ^ 64 - 1)) (From 0 1) 0 0) as [-> _].
  - unfold u128_ok, is_u64. simpl. lia.
  - unfold u128_ok, is_u64. simpl. lia.
  - lia.
  - lia.
  - vm_compute. reflexivity.
Defined.
