(* ===== verification/NetIP.v ===== *)
(** * Addresses and prefixes

    The part of Go's [net/netip] the address management uses, as plain values:
    an [Addr] is invalid, a 32-bit or a 128-bit number, and a [Prefix] is an
    address with a number of bits, [-1] when it is not valid.  IPv6 zones do
    not occur: [ParsePrefix] and [PrefixFrom] drop them and addresses come from
    byte slices.  The lemmas describe a masked prefix by the interval of
    addresses it covers. *)

From S2P Require Import Prelude.

Inductive Addr :=
| AddrZero
| Addr4 (v : Z)
| Addr6 (v : Z).

Record Prefix := mkPrefix { pfx_addr : Addr; pfx_bits : Z }.

#[export] Instance Addr_eq_dec : EqDecision Addr.
Proof. solve_decision. Defined.
#[export] Instance Addr_countable : Countable Addr.
Proof.
  refine (inj_countable'
    (fun a => match a with AddrZero => inl () | Addr4 v => inr (inl v) | Addr6 v => inr (inr v) end)
    (fun x => match x with inl _ => AddrZero | inr (inl v) => Addr4 v | inr (inr v) => Addr6 v end) _).
  by intros [].
Defined.
#[export] Instance Prefix_eq_dec : EqDecision Prefix.
Proof. solve_decision. Defined.
#[export] Instance Prefix_countable : Countable Prefix.
Proof.
  refine (inj_countable' (fun p => (pfx_addr p, pfx_bits p)) (fun x => mkPrefix x.1 x.2) _).
  by intros [].
Defined.

(** [netip.Prefix{}] *)
Definition PrefixZero : Prefix := mkPrefix AddrZero (-1).

Definition Is4 (a : Addr) : bool := match a with Addr4 _ => true | _ => false end.
Definition Is6 (a : Addr) : bool := match a with Addr6 _ => true | _ => false end.
Definition AddrIsValid (a : Addr) : bool := match a with AddrZero => false | _ => true end.
Definition BitLen (a : Addr) : Z :=
  match a with AddrZero => 0 | Addr4 _ => 32 | Addr6 _ => 128 end.

(** The address as a number. *)
Definition addr_val (a : Addr) : Z := match a with AddrZero => 0 | Addr4 v | Addr6 v => v end.

(** The number as an address of the same family. *)
Definition with_val (a : Addr) (v : Z) : Addr :=
  match a with AddrZero => AddrZero | Addr4 _ => Addr4 v | Addr6 _ => Addr6 v end.

Definition As4 (a : Addr) : list Z := be_put 4 (addr_val a).
(** An IPv4 address is seen as its IPv4-mapped IPv6 address. *)
Definition As16 (a : Addr) : list Z :=
  match a with
  | Addr4 v => be_put 16 (Z.lor (Z.shiftl 65535 32) v)
  | _ => be_put 16 (addr_val a)
  end.
Definition AddrFrom4 (b : list Z) : Addr := Addr4 (be_get 0 b).
Definition AddrFrom16 (b : list Z) : Addr := Addr6 (be_get 0 b).

(** [netip.AddrFromSlice] *)
Definition AddrFromSlice (b : list Z) : option Addr :=
  if (length b =? 4)%nat then Some (AddrFrom4 b)
  else if (length b =? 16)%nat then Some (AddrFrom16 b)
  else None.

Definition Is4In6 (a : Addr) : bool :=
  match a with Addr6 v => Z.shiftr v 32 =? 65535 | _ => false end.
Definition Unmap (a : Addr) : Addr :=
  if Is4In6 a then Addr4 (addr_val a mod 2 ^ 32) else a.

Definition IPv4Unspecified : Addr := Addr4 0.
Definition IPv6Unspecified : Addr := Addr6 0.
Definition IsUnspecified (a : Addr) : bool :=
  bool_decide (a = IPv4Unspecified) || bool_decide (a = IPv6Unspecified).

Definition Compare (a b : Addr) : Z :=
  if BitLen a <? BitLen b then -1
  else if BitLen b <? BitLen a then 1
  else if addr_val a <? addr_val b then -1
  else if addr_val b <? addr_val a then 1
  else 0.
Definition Less (a b : Addr) : bool := Compare a b =? -1.

(** The address before, or the zero [Addr] when there is none. *)
Definition Prev (a : Addr) : Addr :=
  if addr_val a =? 0 then AddrZero else with_val a (addr_val a - 1).

(** Clear all but the [b] most significant bits. *)
Definition mask_addr (a : Addr) (b : Z) : Addr :=
  let k := BitLen a - b in with_val a (Z.shiftl (Z.shiftr (addr_val a) k) k).

Definition PrefixFrom (a : Addr) (bits : Z) : Prefix :=
  if AddrIsValid a && (0 <=? bits) && (bits <=? BitLen a) then mkPrefix a bits
  else mkPrefix a (-1).

(** [Addr.Prefix]: [None] is an error. *)
Definition AddrPrefix (a : Addr) (b : Z) : option Prefix :=
  if b <? 0 then None
  else match a with
       | AddrZero => Some PrefixZero
       | _ => if BitLen a <? b then None else Some (PrefixFrom (mask_addr a b) b)
       end.

Definition PrefixIsValid (p : Prefix) : bool := 0 <=? pfx_bits p.
Definition Masked (p : Prefix) : Prefix :=
  default PrefixZero (AddrPrefix (pfx_addr p) (pfx_bits p)).

Definition Contains (p : Prefix) (a : Addr) : bool :=
  if negb (PrefixIsValid p) then false
  else if (BitLen (pfx_addr p) =? 0) || (BitLen a =? 0)
          || negb (BitLen (pfx_addr p) =? BitLen a) then false
  else Z.shiftr (Z.lxor (addr_val a) (addr_val (pfx_addr p))) (BitLen a - pfx_bits p) =? 0.

Definition Overlaps (p o : Prefix) : bool :=
  if negb (PrefixIsValid p) || negb (PrefixIsValid o) then false
  else if bool_decide (p = o) then true
  else if negb (Bool.eqb (Is4 (pfx_addr p)) (Is4 (pfx_addr o))) then false
  else
    let minBits := if pfx_bits p <? pfx_bits o then pfx_bits p else pfx_bits o in
    if minBits =? 0 then true
    else match AddrPrefix (pfx_addr p) minBits, AddrPrefix (pfx_addr o) minBits with
         | Some p', Some o' => bool_decide (pfx_addr p' = pfx_addr o')
         | _, _ => false
         end.

(** ** Well-formed values *)

(** A valid address: its number fits its family. *)
Definition addr_ok (a : Addr) : Prop :=
  AddrIsValid a = true /\ 0 <= addr_val a < 2 ^ BitLen a.

(** Number of host bits of a prefix. *)
Definition host_bits (p : Prefix) : Z := BitLen (pfx_addr p) - pfx_bits p.

(** A valid prefix with no host bit set, as [Masked] gives it. *)
Definition prefix_ok (p : Prefix) : Prop :=
  addr_ok (pfx_addr p) /\ 0 <= pfx_bits p <= BitLen (pfx_addr p)
  /\ addr_val (pfx_addr p) mod 2 ^ host_bits p = 0.

(** First and last address number of a prefix. *)
Definition first_val (p : Prefix) : Z := addr_val (pfx_addr p).
Definition last_val (p : Prefix) : Z := addr_val (pfx_addr p) + 2 ^ host_bits p - 1.

Definition same_family (a b : Addr) : Prop := BitLen a = BitLen b.

Lemma BitLen_cases a : addr_ok a -> BitLen a = 32 \/ BitLen a = 128.
Proof. intros [H _]. destruct a; simpl in *; [done|lia|lia]. Qed.

Lemma with_val_self a : addr_ok a -> with_val a (addr_val a) = a.
Proof. by destruct a. Qed.

Lemma with_val_val a v : AddrIsValid a = true -> addr_val (with_val a v) = v.
Proof. by destruct a. Qed.

Lemma with_val_BitLen a v : BitLen (with_val a v) = BitLen a.
Proof. by destruct a. Qed.

Lemma with_val_valid a v : AddrIsValid (with_val a v) = AddrIsValid a.
Proof. by destruct a. Qed.

(** Two valid addresses with the same family and number are equal. *)
Lemma addr_eq a b :
  AddrIsValid a = true -> BitLen a = BitLen b -> addr_val a = addr_val b -> a = b.
Proof. destruct a, b; simpl; intros; congruence || lia. Qed.

Lemma with_val_eq a b v : AddrIsValid a = true -> BitLen a = BitLen b -> with_val a v = with_val b v.
Proof. by destruct a, b. Qed.

Lemma BitLen_Is4 a b :
  AddrIsValid a = true -> AddrIsValid b = true ->
  (Is4 a = Is4 b <-> BitLen a = BitLen b).
Proof. destruct a, b; simpl; intros; split; intros; done || lia. Qed.

Lemma pow_host_pos p : prefix_ok p -> 0 < 2 ^ host_bits p.
Proof. intros (_&?&_). apply Z.pow_pos_nonneg; unfold host_bits; lia. Qed.

(** Clearing host bits rounds down to a multiple of the block size. *)
Lemma mask_val v k : 0 <= k -> Z.shiftl (Z.shiftr v k) k = v - v mod 2 ^ k.
Proof.
  intros Hk. rewrite Z.shiftl_mul_pow2, Z.shiftr_div_pow2 by done.
  pose proof (Z.pow_pos_nonneg 2 k ltac:(lia) Hk). rewrite (Z.mod_eq v (2 ^ k)) by lia. lia.
Qed.

Lemma mask_addr_val a b :
  addr_ok a -> 0 <= b <= BitLen a ->
  addr_val (mask_addr a b) = addr_val a - addr_val a mod 2 ^ (BitLen a - b).
Proof.
  intros [Hv _] Hb. unfold mask_addr. rewrite with_val_val by done. apply mask_val. lia.
Qed.

Lemma mask_addr_BitLen a b : BitLen (mask_addr a b) = BitLen a.
Proof. apply with_val_BitLen. Qed.

Lemma mask_addr_ok a b : addr_ok a -> 0 <= b <= BitLen a -> addr_ok (mask_addr a b).
Proof.
  intros Ha Hb. pose proof (mask_addr_val a b Ha Hb) as Hval. destruct Ha as [Hv Hr]. split.
  - unfold mask_addr. by rewrite with_val_valid.
  - rewrite mask_addr_BitLen, Hval.
    pose proof (Z.pow_pos_nonneg 2 (BitLen a - b) ltac:(lia) ltac:(lia)).
    pose proof (Z.mod_pos_bound (addr_val a) (2 ^ (BitLen a - b)) ltac:(lia)).
    pose proof (Z.mod_le (addr_val a) (2 ^ (BitLen a - b)) ltac:(lia) ltac:(lia)). lia.
Qed.

(** The prefix of length [b] around an address. *)
Lemma AddrPrefix_ok a b :
  addr_ok a -> 0 <= b <= BitLen a ->
  AddrPrefix a b = Some (mkPrefix (mask_addr a b) b) /\ prefix_ok (mkPrefix (mask_addr a b) b).
Proof.
  intros Ha Hb. pose proof (mask_addr_ok a b Ha Hb) as Hm. split.
  - unfold AddrPrefix, PrefixFrom. destruct (Z.ltb_spec b 0); [lia|].
    destruct (Z.ltb_spec (BitLen a) b); [lia|]. rewrite mask_addr_BitLen.
    destruct (Z.leb_spec 0 b); [|lia]. destruct (Z.leb_spec b (BitLen a)); [|lia].
    destruct a as [|v|v]; [by destruct Ha|done|done].
  - split; [done|]. unfold host_bits. simpl. rewrite mask_addr_BitLen. split; [done|].
    rewrite mask_addr_val by done. rewrite Zminus_mod_idemp_r, Z.sub_diag. apply Z.mod_0_l.
    pose proof (Z.pow_pos_nonneg 2 (BitLen a - b) ltac:(lia) ltac:(lia)). lia.
Qed.

Lemma AddrPrefix_self p : prefix_ok p -> AddrPrefix (pfx_addr p) (pfx_bits p) = Some p.
Proof.
  intros (Ha&Hb&Hm). destruct (AddrPrefix_ok _ _ Ha Hb) as [-> _]. f_equal.
  destruct p as [a b]. simpl in *. f_equal. unfold host_bits in Hm. simpl in Hm.
  apply addr_eq.
  - by apply mask_addr_ok.
  - apply mask_addr_BitLen.
  - rewrite mask_addr_val by done. lia.
Qed.

Lemma Masked_id p : prefix_ok p -> Masked p = p.
Proof. intros Hp. unfold Masked. by rewrite AddrPrefix_self. Qed.

(** ** Prefixes as intervals *)

Lemma prefix_interval p : prefix_ok p -> 0 <= first_val p <= last_val p /\ last_val p < 2 ^ BitLen (pfx_addr p).
Proof.
  intros Hp. pose proof (pow_host_pos p Hp). destruct Hp as ([Hv Hr]&Hb&Hm).
  unfold first_val, last_val. split; [lia|].
  assert (Hd : (2 ^ host_bits p | addr_val (pfx_addr p))) by (apply Z.mod_divide; lia).
  assert (Hd2 : (2 ^ host_bits p | 2 ^ BitLen (pfx_addr p))).
  { exists (2 ^ pfx_bits p). rewrite <- Z.pow_add_r by (unfold host_bits; lia). f_equal.
    unfold host_bits. lia. }
  destruct Hd as [c Hc], Hd2 as [d Hd2]. rewrite Hc, Hd2 in *. clear Hm Hc Hd2.
  assert (c < d) by nia. nia.
Qed.

Lemma lxor_shiftr_eq a b k : 0 <= k -> (Z.shiftr (Z.lxor a b) k =? 0) = (a / 2 ^ k =? b / 2 ^ k).
Proof.
  intros Hk. rewrite Z.shiftr_lxor, <- !Z.shiftr_div_pow2 by done.
  destruct (Z.eqb_spec (Z.shiftr a k) (Z.shiftr b k)) as [->|Hne].
  - by rewrite Z.lxor_nilpotent.
  - apply Z.eqb_neq. intros E. by apply Z.lxor_eq in E.
Qed.

(** The block of size [2^k] of an aligned value. *)
Lemma same_block v lo k :
  0 <= k -> lo mod 2 ^ k = 0 -> v / 2 ^ k = lo / 2 ^ k <-> lo <= v <= lo + 2 ^ k - 1.
Proof.
  intros Hk Hm. pose proof (Z.pow_pos_nonneg 2 k ltac:(lia) Hk).
  pose proof (Z.div_mod v (2 ^ k) ltac:(lia)). pose proof (Z.div_mod lo (2 ^ k) ltac:(lia)).
  pose proof (Z.mod_pos_bound v (2 ^ k) ltac:(lia)). split; [nia|]. intros Hr.
  symmetry. apply (Z.div_unique_pos _ _ _ (v - lo)); nia.
Qed.

Lemma Contains_spec p a :
  prefix_ok p -> addr_ok a ->
  Contains p a = true <-> BitLen (pfx_addr p) = BitLen a /\ first_val p <= addr_val a <= last_val p.
Proof.
  intros (Hpa&Hb&Hm) Ha. unfold Contains, PrefixIsValid.
  destruct (Z.leb_spec 0 (pfx_bits p)); [|lia]. simpl.
  pose proof (BitLen_cases _ Hpa). pose proof (BitLen_cases _ Ha).
  destruct (Z.eqb_spec (BitLen (pfx_addr p)) 0); [lia|].
  destruct (Z.eqb_spec (BitLen a) 0); [lia|].
  destruct (Z.eqb_spec (BitLen (pfx_addr p)) (BitLen a)) as [E|E]; simpl; [|split; [done|tauto]].
  rewrite lxor_shiftr_eq by lia. rewrite Z.eqb_eq. unfold first_val, last_val, host_bits in *.
  rewrite E in *. rewrite same_block by (done || lia). tauto.
Qed.

Lemma mod_pow_le v k j : 0 <= k <= j -> v mod 2 ^ j = 0 -> v mod 2 ^ k = 0.
Proof.
  intros Hk Hm. pose proof (Z.pow_pos_nonneg 2 k ltac:(lia) ltac:(lia)).
  pose proof (Z.pow_pos_nonneg 2 j ltac:(lia) ltac:(lia)).
  apply Z.mod_divide; [lia|]. apply Z.mod_divide in Hm; [|lia].
  eapply Z.divide_trans; [|done]. exists (2 ^ (j - k)). rewrite <- Z.pow_add_r by lia. f_equal. lia.
Qed.

(** Aligned blocks are nested or disjoint. *)
Lemma aligned_blocks x y k j :
  0 <= j <= k -> x mod 2 ^ k = 0 -> y mod 2 ^ j = 0 ->
  (y / 2 ^ k = x / 2 ^ k <-> x <= y + 2 ^ j - 1 /\ y <= x + 2 ^ k - 1).
Proof.
  intros Hj Hx Hy. rewrite same_block by (done || lia).
  pose proof (Z.pow_pos_nonneg 2 j ltac:(lia) ltac:(lia)). split; [lia|]. intros [H1 H2].
  split; [|lia]. destruct (Z.le_gt_cases x y) as [|Hgt]; [done|exfalso].
  assert (Hd : (x - y) mod 2 ^ j = 0).
  { rewrite Zminus_mod, Hy, (mod_pow_le x j k) by (done || lia). by rewrite Z.mod_0_l by lia. }
  rewrite Z.mod_small in Hd by lia. lia.
Qed.

Lemma mask_addr_eq a b k :
  addr_ok a -> addr_ok b -> BitLen a = BitLen b -> 0 <= k <= BitLen a ->
  mask_addr a k = mask_addr b k <->
  addr_val a / 2 ^ (BitLen a - k) = addr_val b / 2 ^ (BitLen a - k).
Proof.
  intros Ha Hb E Hk. pose proof (Z.pow_pos_nonneg 2 (BitLen a - k) ltac:(lia) ltac:(lia)) as Hp.
  assert (Hq : forall v, v - v mod 2 ^ (BitLen a - k) = 2 ^ (BitLen a - k) * (v / 2 ^ (BitLen a - k)))
    by (intros v; rewrite (Z.mod_eq v) by lia; lia).
  split.
  - intros Hm. apply (f_equal addr_val) in Hm.
    rewrite !mask_addr_val in Hm by (done || lia). rewrite <- E, !Hq in Hm. nia.
  - intros Hd. apply addr_eq; [by apply mask_addr_ok|by rewrite !mask_addr_BitLen|].
    rewrite !mask_addr_val by (done || lia). rewrite <- E, !Hq. by rewrite Hd.
Qed.

Lemma Overlaps_spec p o :
  prefix_ok p -> prefix_ok o ->
  Overlaps p o = true <->
  BitLen (pfx_addr p) = BitLen (pfx_addr o) /\ first_val p <= last_val o /\ first_val o <= last_val p.
Proof.
  intros Hp Ho. pose proof (prefix_interval p Hp). pose proof (prefix_interval o Ho).
  pose proof Hp as (Hpa&Hpb&Hpm). pose proof Ho as (Hoa&Hob&Hom).
  unfold Overlaps, PrefixIsValid.
  destruct (Z.leb_spec 0 (pfx_bits p)); [|lia]. destruct (Z.leb_spec 0 (pfx_bits o)); [|lia]. simpl.
  destruct (bool_decide_reflect (p = o)) as [->|Hne]; [split; [intros; split; [done|lia]|done]|].
  pose proof (BitLen_Is4 (pfx_addr p) (pfx_addr o) (proj1 Hpa) (proj1 Hoa)) as Hfam.
  destruct (Bool.eqb (Is4 (pfx_addr p)) (Is4 (pfx_addr o))) eqn:E4; simpl.
  2: { split; [done|]. intros [E _]. apply Hfam in E. by rewrite E, eqb_reflx in E4. }
  apply Bool.eqb_prop, Hfam in E4.
  set (minBits := if pfx_bits p <? pfx_bits o then pfx_bits p else pfx_bits o).
  assert (Hmin : minBits = Z.min (pfx_bits p) (pfx_bits o))
    by (unfold minBits; destruct (Z.ltb_spec (pfx_bits p) (pfx_bits o)); lia).
  clearbody minBits. subst minBits.
  destruct (AddrPrefix_ok (pfx_addr p) (Z.min (pfx_bits p) (pfx_bits o)) Hpa ltac:(lia)) as [-> _].
  destruct (AddrPrefix_ok (pfx_addr o) (Z.min (pfx_bits p) (pfx_bits o)) Hoa ltac:(lia)) as [-> _].
  simpl. unfold first_val, last_val in *.
  assert (Hmask : mask_addr (pfx_addr p) (Z.min (pfx_bits p) (pfx_bits o))
    = mask_addr (pfx_addr o) (Z.min (pfx_bits p) (pfx_bits o)) <->
    addr_val (pfx_addr p) <= addr_val (pfx_addr o) + 2 ^ host_bits o - 1
    /\ addr_val (pfx_addr o) <= addr_val (pfx_addr p) + 2 ^ host_bits p - 1).
  { rewrite mask_addr_eq by (done || lia). unfold host_bits in *. rewrite E4 in *.
    destruct (Z.le_ge_cases (pfx_bits p) (pfx_bits o)).
    - rewrite Z.min_l by done. rewrite <- (aligned_blocks _ _ _ (BitLen (pfx_addr o) - pfx_bits o)) by (done || lia).
      split; congruence.
    - rewrite Z.min_r by done.
      rewrite (aligned_blocks (addr_val (pfx_addr o)) (addr_val (pfx_addr p)) _
        (BitLen (pfx_addr o) - pfx_bits p)) by (done || lia). tauto. }
  destruct (Z.eqb_spec (Z.min (pfx_bits p) (pfx_bits o)) 0) as [E0|E0].
  - split; [|done]. intros _. split; [done|]. apply Hmask. apply mask_addr_eq; try (done || lia).
    rewrite E0, Z.sub_0_r. destruct Hpa as [_ Hpr], Hoa as [_ Hor]. rewrite <- E4 in Hor.
    by rewrite !Z.div_small by lia.
  - rewrite bool_decide_eq_true, Hmask. tauto.
Qed.

(** Nested or disjoint: two prefixes of one family. *)
Lemma prefix_nested p k :
  prefix_ok p -> prefix_ok k -> Overlaps p k = true -> pfx_bits p <= pfx_bits k ->
  first_val p <= first_val k /\ last_val k <= last_val p.
Proof.
  intros Hp Hk Ho Hle. apply Overlaps_spec in Ho as (E&H1&H2); [|done|done].
  destruct Hp as (_&Hpb&Hpm), Hk as (_&Hkb&Hkm). unfold first_val, last_val, host_bits in *.
  rewrite E in *. set (L := BitLen (pfx_addr k)) in *.
  set (x := L - pfx_bits p) in *. set (y := L - pfx_bits k) in *.
  assert (Hxy : y <= x) by (unfold x, y; lia). assert (Hy : 0 <= y) by (unfold y; lia).
  pose proof (Z.pow_pos_nonneg 2 y ltac:(lia) ltac:(lia)).
  assert (Hd : (2 ^ y | 2 ^ x)).
  { exists (2 ^ (x - y)). rewrite <- Z.pow_add_r by lia. f_equal. lia. }
  pose proof (mod_pow_le _ y x ltac:(lia) Hpm) as Hpm'.
  apply Z.mod_divide in Hpm' as [c1 E1]; [|lia]. apply Z.mod_divide in Hkm as [c2 E2]; [|lia].
  destruct Hd as [c3 E3]. rewrite E1, E2, E3 in *.
  assert (c1 <= c2) by nia. assert (c2 < c1 + c3) by nia. nia.
Qed.
