(* ===== verification/IPBits.v ===== *)
(** * Addresses as numbers

    Model of [daemon/libnetwork/ipbits/ipbits.go]. *)

From S2P Require Import Prelude Uint128 NetIP.
Open Scope u64_scope.

(** [ip + (x << shift)] in the width of the family; everything that is not IPv4,
    the zero [Addr] included, goes through the 16-byte form. *)
Definition Add (ip : Addr) (x shift : Z) : Addr :=
  if Is4 ip then
    let addr := be_get 0 (As4 ip) in
    let addr := wrap32 (addr + wrap32 (Z.shiftl (wrap32 x) shift)) in
    AddrFrom4 (be_put 4 addr)
  else
    let addr := Uint128.From16 (As16 ip) in
    let addr := Uint128.Add addr (Uint128.Lsh (Uint128.From 0 x) shift) in
    AddrFrom16 (Uint128.Fill16 addr).

Definition subAddr (ip1 ip2 : Addr) : Uint128 :=
  Uint128.Sub (Uint128.From16 (As16 ip1)) (Uint128.From16 (As16 ip2)).

Definition SubnetsBetween (a1 a2 : Addr) (sz : Z) : Z :=
  if negb (AddrIsValid a1) || negb (AddrIsValid a2)
     || negb (Bool.eqb (Is4 a1) (Is4 a2)) || Less a2 a1
  then 0
  else
    let p1 := default PrefixZero (AddrPrefix a1 sz) in
    let p2 := default PrefixZero (AddrPrefix a2 sz) in
    Uint128.Uint64 (Uint128.Rsh (subAddr (pfx_addr p2) (pfx_addr p1)) (wrap64 (BitLen a1 - sz))).

(** The bits [[u, v)] of [ip], bit 0 the most significant one. *)
Definition Field (ip : Addr) (u v : Z) : Z :=
  if Is4 ip then
    let mask := Z.shiftr (2 ^ 32 - 1) u in
    Z.shiftr (Z.land (be_get 0 (As4 ip)) mask) (wrap64 (32 - v))
  else
    let mask := Uint128.Rsh (Uint128.Not (Uint128.From 0 0)) u in
    Uint128.Uint64
      (Uint128.Rsh (Uint128.And (Uint128.From16 (As16 ip)) mask) (wrap64 (128 - v))).

(** ** Lemmas *)

Lemma addr4_bytes v : 0 <= v < 2 ^ 32 -> be_get 0 (As4 (Addr4 v)) = v.
Proof. intros. unfold As4. simpl addr_val. rewrite be_get_put by (simpl; lia). done. Qed.

(** The number of the 16-byte form. *)
Definition val16 (a : Addr) : Z :=
  match a with Addr4 v => 65535 * 2 ^ 32 + v | _ => addr_val a end.

Lemma From16_As16 a :
  addr_ok a \/ a = AddrZero ->
  u128_ok (From16 (As16 a)) /\ to_Z (From16 (As16 a)) = val16 a.
Proof.
  intros Ha. assert (E : As16 a = be_put 16 (val16 a) /\ 0 <= val16 a < 2 ^ 128).
  { destruct Ha as [[Hv Hr]| ->]; [|done]. destruct a as [|v|v]; [done| |]; simpl in *; [|done].
    split; [|lia]. unfold As16, val16. by rewrite lor_shiftl_add by lia. }
  destruct E as [-> Hr]. by apply From16_spec.
Qed.

(** Addition in the width of the family. *)
Lemma Add_val ip x shift :
  addr_ok ip -> is_u64 x -> 0 <= shift < BitLen ip ->
  Add ip x shift = with_val ip ((addr_val ip + x * 2 ^ shift) mod 2 ^ BitLen ip).
Proof.
  intros Hip Hx Hs. destruct ip as [|v|v]; [by destruct Hip| |]; unfold Add; simpl Is4; cbv iota.
  - destruct Hip as [_ Hr]. simpl in Hr, Hs. rewrite addr4_bytes by done. unfold AddrFrom4. simpl.
    rewrite be_get_put by (apply wrap32_range). f_equal.
    unfold wrap32. rewrite Z.shiftl_mul_pow2 by lia.
    rewrite Zplus_mod_idemp_r, Zplus_mod, Zmult_mod_idemp_l, <- Zplus_mod. done.
  - destruct (From16_As16 (Addr6 v) (or_introl Hip)) as [Hok Hval]. simpl in Hs.
    assert (Hx0 : u128_ok (From 0 x)) by (unfold u128_ok, is_u64 in *; simpl; lia).
    destruct (Add_spec _ _ Hok (Lsh_ok _ shift Hx0 ltac:(lia))) as [Hok2 Hval2].
    unfold AddrFrom16. rewrite Fill16_spec, Hval2, Hval, Lsh_spec by (done || lia).
    rewrite Zplus_mod_idemp_r. done.
Qed.

Lemma Add_zero x shift :
  is_u64 x -> 0 <= shift -> Add AddrZero x shift = Addr6 ((x * 2 ^ shift) mod 2 ^ 128).
Proof.
  intros Hx Hs. unfold Add. simpl Is4. cbv iota.
  destruct (From16_As16 AddrZero (or_intror eq_refl)) as [Hok Hval].
  assert (Hx0 : u128_ok (From 0 x)) by (unfold u128_ok, is_u64 in *; simpl; lia).
  destruct (Add_spec _ _ Hok (Lsh_ok _ shift Hx0 ltac:(lia))) as [Hok2 Hval2].
  unfold AddrFrom16. rewrite Fill16_spec, Hval2, Hval, Lsh_spec by (done || lia).
  rewrite Zplus_mod_idemp_r. done.
Qed.

(** The whole host part of an address. *)
Lemma Field_host ip u :
  addr_ok ip -> 0 <= u <= BitLen ip -> (BitLen ip = 128 -> 64 <= u) ->
  Field ip u (BitLen ip) = addr_val ip mod 2 ^ (BitLen ip - u).
Proof.
  intros Hip Hu H64. destruct ip as [|v|v]; [by destruct Hip| |]; unfold Field; simpl Is4; cbv iota.
  - destruct Hip as [_ Hr]. simpl in *. rewrite addr4_bytes by done.
    change (wrap64 (32 - 32)) with 0. rewrite Z.shiftr_0_r.
    assert (Hm : Z.shiftr (2 ^ 32 - 1) u = Z.ones (32 - u)).
    { change (2 ^ 32 - 1) with (Z.ones 32). apply Z.bits_inj'. intros i Hi.
      rewrite Z.shiftr_spec by done. destruct (Z.lt_ge_cases i (32 - u)).
      - by rewrite !Z.ones_spec_low by lia.
      - by rewrite !Z.ones_spec_high by lia. }
    rewrite Hm. apply Z.land_ones. lia.
  - destruct (From16_As16 (Addr6 v) (or_introl Hip)) as [Hok Hval].
    change (BitLen (Addr6 v)) with 128 in *. change (val16 (Addr6 v)) with v in Hval.
    cbn [addr_val].
    assert (H0 : u128_ok (From 0 0)) by (unfold u128_ok, is_u64; simpl; lia).
    destruct (Not_spec _ H0) as [Hn Hnv].
    pose proof (Rsh_ok _ u Hn ltac:(lia)) as Hro. pose proof (Rsh_spec _ u Hn ltac:(lia)) as Hrv.
    destruct (And_spec _ _ Hok Hro) as [Hao Hav].
    change (wrap64 (128 - 128)) with 0.
    pose proof (Rsh_ok _ 0 Hao ltac:(lia)) as Hro2.
    pose proof (Rsh_spec _ 0 Hao ltac:(lia)) as Hrv2.
    unfold Uint64. rewrite <- (proj1 (to_Z_mod _ Hro2)), Hrv2, Z.pow_0_r, Z.div_1_r, Hav, Hval, Hrv, Hnv.
    change (2 ^ 128 - 1 - to_Z (From 0 0)) with (Z.ones 128).
    rewrite <- Z.shiftr_div_pow2 by lia.
    assert (Hm : Z.shiftr (Z.ones 128) u = Z.ones (128 - u)).
    { apply Z.bits_inj'. intros i Hi.
      rewrite Z.shiftr_spec by done. destruct (Z.lt_ge_cases i (128 - u)).
      - by rewrite !Z.ones_spec_low by lia.
      - by rewrite !Z.ones_spec_high by lia. }
    rewrite Hm, Z.land_ones by lia. apply Z.mod_small.
    specialize (H64 eq_refl).
    pose proof (Z.pow_le_mono_r 2 (128 - u) 64 ltac:(lia) ltac:(lia)).
    pose proof (Z.pow_pos_nonneg 2 (128 - u) ltac:(lia) ltac:(lia)).
    pose proof (Z.mod_pos_bound v (2 ^ (128 - u)) ltac:(lia)). lia.
Qed.

Lemma Compare_spec a b :
  BitLen a = BitLen b ->
  Compare a b = if addr_val a <? addr_val b then -1
                else if addr_val b <? addr_val a then 1 else 0.
Proof.
  intros E. unfold Compare. rewrite E. destruct (Z.ltb_spec (BitLen b) (BitLen b)); [lia|done].
Qed.

Lemma Less_spec a b : BitLen a = BitLen b -> Less a b = (addr_val a <? addr_val b).
Proof.
  intros E. unfold Less. rewrite Compare_spec by done.
  destruct (Z.ltb_spec (addr_val a) (addr_val b)); [done|].
  by destruct (addr_val b <? addr_val a).
Qed.

(** The number of whole [sz]-subnets from the one of [a1] to the one of [a2],
    modulo [2^64]. *)
Lemma SubnetsBetween_val a1 a2 sz :
  addr_ok a1 -> addr_ok a2 -> BitLen a1 = BitLen a2 -> 0 <= sz <= BitLen a1 ->
  SubnetsBetween a1 a2 sz =
    if addr_val a2 <? addr_val a1 then 0
    else (addr_val a2 / 2 ^ (BitLen a1 - sz) - addr_val a1 / 2 ^ (BitLen a1 - sz)) mod 2 ^ 64.
Proof.
  intros H1 H2 E Hsz. unfold SubnetsBetween. pose proof H1 as [Hv1 Hr1]. pose proof H2 as [Hv2 Hr2].
  rewrite Hv1, Hv2, (proj2 (BitLen_Is4 a1 a2 Hv1 Hv2) E), eqb_reflx. simpl.
  rewrite Less_spec by done. destruct (Z.ltb_spec (addr_val a2) (addr_val a1)) as [|Hle]; [done|].
  destruct (AddrPrefix_ok a1 sz H1 ltac:(lia)) as [-> _].
  destruct (AddrPrefix_ok a2 sz H2 ltac:(lia)) as [-> _]. simpl.
  pose proof (mask_addr_ok a1 sz H1 ltac:(lia)) as Hm1.
  pose proof (mask_addr_ok a2 sz H2 ltac:(lia)) as Hm2.
  destruct (From16_As16 _ (or_introl Hm1)) as [Hk1 Hz1].
  destruct (From16_As16 _ (or_introl Hm2)) as [Hk2 Hz2].
  assert (Hd : val16 (mask_addr a2 sz) - val16 (mask_addr a1 sz)
    = addr_val (mask_addr a2 sz) - addr_val (mask_addr a1 sz))
    by (destruct a1, a2; simpl in *; try done; lia).
  set (k := BitLen a1 - sz) in *.
  pose proof (Z.pow_pos_nonneg 2 k ltac:(lia) ltac:(unfold k; lia)) as Hpk.
  assert (Hk : wrap64 k = k) by (apply wrap64_small; pose proof (BitLen_cases _ H1); unfold k; lia).
  unfold subAddr. destruct (Sub_spec _ _ Hk2 Hk1) as [Hso Hsv]. rewrite Hk.
  pose proof (Rsh_ok _ k Hso ltac:(unfold k; lia)) as Hro. unfold Uint64.
  rewrite <- (proj1 (to_Z_mod _ Hro)), Rsh_spec, Hsv, Hz1, Hz2, Hd by (done || (unfold k; lia)).
  rewrite !mask_addr_val by (done || lia). rewrite <- E. fold k.
  assert (Hq : forall v, v - v mod 2 ^ k = v / 2 ^ k * 2 ^ k)
    by (intros v; rewrite (Z.mod_eq v) by lia; lia).
  rewrite !Hq, <- Z.mul_sub_distr_r.
  assert (addr_val a1 / 2 ^ k <= addr_val a2 / 2 ^ k) by (by apply Z.div_le_mono).
  assert (Hub : addr_val a2 / 2 ^ k * 2 ^ k <= addr_val a2)
    by (pose proof (Z.mul_div_le (addr_val a2) (2 ^ k) ltac:(lia)); lia).
  assert (0 <= addr_val a1 / 2 ^ k) by (apply Z.div_pos; lia).
  assert (2 ^ BitLen a2 <= 2 ^ 128) by (apply Z.pow_le_mono_r; [lia|destruct (BitLen_cases _ H2); lia]).
  rewrite (Z.mod_small (_ * _)) by nia. by rewrite Z.div_mul by lia.
Qed.
