(* ===== verification/NetIPUtil.v ===== *)
(** * Prefix utilities

    Model of [daemon/internal/netiputil/netiputil.go] and of
    [daemon/libnetwork/ipamutils/utils.go]. *)

From S2P Require Import Prelude Uint128 NetIP IPBits.
Open Scope u64_scope.

(** ** netiputil *)

Definition HostID (addr : Addr) (bits : Z) : Z := IPBits.Field addr bits (BitLen addr).

(** Offsets of the first and last address of [subnet] in [network]. *)
Definition SubnetRange (network subnet : Prefix) : Z * Z :=
  let start := HostID (pfx_addr subnet) (pfx_bits network) in
  let end_ := start
    ⊞ shl64 1 (wrap64 (BitLen (pfx_addr subnet) - pfx_bits subnet)) ⊟ 1 in
  (start, end_).

Definition LastAddr (p : Prefix) : Addr :=
  IPBits.Add (Prev (pfx_addr p)) 1 (wrap64 (BitLen (pfx_addr p) - pfx_bits p)).

Definition PrefixCompare (a b : Prefix) : Z :=
  let cmp := Compare (pfx_addr a) (pfx_addr b) in
  if negb (cmp =? 0) then cmp else pfx_bits a - pfx_bits b.

Definition PrefixAfter (prev : Prefix) (sz : Z) : Prefix :=
  let s := if pfx_bits prev <? sz then pfx_bits prev else sz in
  let addr := IPBits.Add (pfx_addr prev) 1 (wrap64 (BitLen (pfx_addr prev) - s)) in
  if IsUnspecified addr then PrefixZero else Masked (PrefixFrom addr sz).

(** [netiputil.Unmap], the unmapping of a prefix. *)
Definition UnmapPrefix (p : Prefix) : Prefix :=
  let bits := BitLen (Unmap (pfx_addr p)) - BitLen (pfx_addr p) + pfx_bits p in
  PrefixFrom (Unmap (pfx_addr p)) (Z.max 0 bits).

(** ** ipamutils *)

Record NetworkToSplit := mkNetworkToSplit { nts_Base : Prefix; nts_Size : Z }.

Definition FirstPrefix (n : NetworkToSplit) : Prefix :=
  PrefixFrom (pfx_addr (nts_Base n)) (nts_Size n).

Definition NtsOverlaps (n : NetworkToSplit) (p : Prefix) : bool := Overlaps (nts_Base n) p.

Definition ip4 (a b c d : Z) : Addr := Addr4 (((a * 256 + b) * 256 + c) * 256 + d).

Definition localScopeDefaultNetworks : list NetworkToSplit := [
  mkNetworkToSplit (mkPrefix (ip4 172 17 0 0) 16) 16;
  mkNetworkToSplit (mkPrefix (ip4 172 18 0 0) 16) 16;
  mkNetworkToSplit (mkPrefix (ip4 172 19 0 0) 16) 16;
  mkNetworkToSplit (mkPrefix (ip4 172 20 0 0) 14) 16;
  mkNetworkToSplit (mkPrefix (ip4 172 24 0 0) 14) 16;
  mkNetworkToSplit (mkPrefix (ip4 172 28 0 0) 14) 16;
  mkNetworkToSplit (mkPrefix (ip4 192 168 0 0) 16) 20 ].

Definition globalScopeDefaultNetworks : list NetworkToSplit := [
  mkNetworkToSplit (mkPrefix (ip4 10 0 0 0) 8) 24 ].

(** ** Lemmas *)

Lemma HostID_val a bits :
  addr_ok a -> 0 <= bits <= BitLen a -> (BitLen a = 128 -> 64 <= bits) ->
  HostID a bits = addr_val a mod 2 ^ (BitLen a - bits).
Proof. apply Field_host. Qed.

Lemma wrap64_bits a b : addr_ok a -> 0 <= b <= BitLen a -> wrap64 (BitLen a - b) = BitLen a - b.
Proof. intros Ha Hb. apply wrap64_small. pose proof (BitLen_cases a Ha). lia. Qed.

Lemma pow2_63 k : 0 <= k <= 63 -> 1 <= 2 ^ k <= 2 ^ 63.
Proof.
  intros. split; [|apply Z.pow_le_mono_r; lia].
  pose proof (Z.pow_pos_nonneg 2 k ltac:(lia) ltac:(lia)). lia.
Qed.

(** Offsets of a sub-prefix inside a prefix with at most 63 host bits. *)
Lemma SubnetRange_val network subnet :
  prefix_ok network -> prefix_ok subnet -> BitLen (pfx_addr network) = BitLen (pfx_addr subnet) ->
  host_bits network <= 63 -> pfx_bits network <= pfx_bits subnet ->
  first_val network <= first_val subnet <= last_val network ->
  SubnetRange network subnet = (first_val subnet - first_val network, last_val subnet - first_val network)
  /\ 0 <= first_val subnet - first_val network <= last_val subnet - first_val network
  /\ last_val subnet - first_val network < 2 ^ host_bits network.
Proof.
  intros Hn Hs E H63 Hbits Hin. pose proof Hn as (Hna&Hnb&Hnm). pose proof Hs as (Hsa&Hsb&Hsm).
  pose proof (BitLen_cases _ Hsa) as Hlen. unfold first_val, last_val, host_bits in *.
  rewrite E in *.
  set (kn := BitLen (pfx_addr subnet) - pfx_bits network) in *.
  set (ks := BitLen (pfx_addr subnet) - pfx_bits subnet) in *.
  pose proof (pow2_63 kn ltac:(unfold kn; lia)) as Hpn.
  pose proof (pow2_63 ks ltac:(unfold ks, kn in *; lia)) as Hps.
  set (vn := addr_val (pfx_addr network)) in *. set (vs := addr_val (pfx_addr subnet)) in *.
  assert (Hmod : vs mod 2 ^ kn = vs - vn).
  { symmetry. apply (Z.mod_unique_pos _ _ (vn / 2 ^ kn)); [lia|].
    pose proof (Z.div_mod vn (2 ^ kn) ltac:(lia)) as Hd. rewrite Hnm in Hd. lia. }
  assert (Hend : vs - vn + 2 ^ ks <= 2 ^ kn).
  { assert (Hd : (2 ^ ks | 2 ^ kn)).
    { exists (2 ^ (kn - ks)). rewrite <- Z.pow_add_r by (unfold kn, ks in *; lia). f_equal. lia. }
    assert (Hd2 : (2 ^ ks | vs - vn)).
    { rewrite <- Hmod. apply Z.mod_divide; [lia|].
      rewrite Z.mod_mod_divide by done. exact Hsm. }
    destruct Hd as [c Hc], Hd2 as [d Hd]. rewrite Hc, Hd. assert (d < c) by nia. nia. }
  unfold SubnetRange. rewrite HostID_val by (done || lia). fold kn vs. rewrite Hmod.
  rewrite wrap64_bits by (done || lia). fold ks.
  assert (Hshl : shl64 1 ks = 2 ^ ks).
  { unfold shl64. rewrite Z.shiftl_1_l. apply wrap64_small. lia. }
  rewrite Hshl, add64_small, sub64_small by lia. split; [f_equal; lia|lia].
Qed.

(** The last address of a prefix, when the prefix does not start at zero. *)
Lemma LastAddr_val p :
  prefix_ok p -> 0 < first_val p -> host_bits p < BitLen (pfx_addr p) ->
  LastAddr p = with_val (pfx_addr p) (last_val p).
Proof.
  intros Hp Hpos Hh. pose proof (prefix_interval p Hp). pose proof Hp as (Ha&Hb&_).
  unfold first_val, last_val, LastAddr, Prev in *. rewrite wrap64_bits by done. fold (host_bits p).
  destruct (Z.eqb_spec (addr_val (pfx_addr p)) 0); [lia|].
  pose proof Ha as [Hv Hr].
  rewrite Add_val.
  - rewrite with_val_val, with_val_BitLen by done. rewrite Z.mod_small by lia.
    rewrite Z.mul_1_l. replace (addr_val (pfx_addr p) - 1 + 2 ^ host_bits p)
      with (addr_val (pfx_addr p) + 2 ^ host_bits p - 1) by lia.
    by destruct (pfx_addr p).
  - split; [by rewrite with_val_valid|]. rewrite with_val_val, with_val_BitLen by done. lia.
  - unfold is_u64. lia.
  - rewrite with_val_BitLen. unfold host_bits in *. lia.
Qed.

(** The order used to keep allocations sorted: by address, then shortest first. *)
Lemma PrefixCompare_spec a b :
  BitLen (pfx_addr a) = BitLen (pfx_addr b) ->
  (PrefixCompare a b < 0 <-> first_val a < first_val b
     \/ first_val a = first_val b /\ pfx_bits a < pfx_bits b)
  /\ (PrefixCompare a b = 0 <-> first_val a = first_val b /\ pfx_bits a = pfx_bits b).
Proof.
  intros E. unfold PrefixCompare, first_val. rewrite Compare_spec by done.
  destruct (Z.ltb_spec (addr_val (pfx_addr a)) (addr_val (pfx_addr b)));
    [simpl; lia|]. destruct (Z.ltb_spec (addr_val (pfx_addr b)) (addr_val (pfx_addr a))); simpl; lia.
Qed.

Lemma PrefixCompare_eq a b :
  prefix_ok a -> BitLen (pfx_addr a) = BitLen (pfx_addr b) ->
  PrefixCompare a b = 0 <-> a = b.
Proof.
  intros Ha E. rewrite (proj2 (PrefixCompare_spec a b E)). unfold first_val.
  destruct a as [x n], b as [y m]; simpl in *. split.
  - intros [Hv ->]. f_equal. apply addr_eq; [apply Ha|done|done].
  - by intros [= -> ->].
Qed.

(** The block of [sz] bits right after [prev], or after the block of [sz] bits
    that contains it. *)
Lemma IsUnspecified_with_val a w : AddrIsValid a = true -> IsUnspecified (with_val a w) = (w =? 0).
Proof.
  intros Hv. unfold IsUnspecified, IPv4Unspecified, IPv6Unspecified. destruct a; [done| |]; simpl;
    destruct (Z.eqb_spec w 0) as [->|Hne]; try done;
    rewrite !bool_decide_eq_false_2 by congruence; done.
Qed.

Lemma Masked_PrefixFrom a sz :
  addr_ok a -> 0 <= sz <= BitLen a -> Masked (PrefixFrom a sz) = mkPrefix (mask_addr a sz) sz.
Proof.
  intros Ha Hsz. unfold PrefixFrom. destruct Ha as [Hv Hr] eqn:E. rewrite Hv. simpl.
  destruct (Z.leb_spec 0 sz); [|lia]. destruct (Z.leb_spec sz (BitLen a)); [|lia]. simpl.
  unfold Masked. simpl. by destruct (AddrPrefix_ok _ sz Ha) as [-> _].
Qed.

Lemma PrefixAfter_val prev sz :
  prefix_ok prev -> 0 < sz <= BitLen (pfx_addr prev) -> 0 < pfx_bits prev ->
  let L := BitLen (pfx_addr prev) in
  let k := L - Z.min (pfx_bits prev) sz in
  let next := (first_val prev / 2 ^ k + 1) * 2 ^ k in
  (next < 2 ^ L -> PrefixAfter prev sz = mkPrefix (with_val (pfx_addr prev) next) sz)
  /\ (2 ^ L <= next ->
      PrefixAfter prev sz = PrefixZero \/ first_val (PrefixAfter prev sz) = 0).
Proof.
  intros Hp Hsz Hbits L k next. pose proof Hp as (Ha&Hb&Hm). pose proof Ha as [Hv Hr].
  unfold PrefixAfter, first_val in *.
  replace (if pfx_bits prev <? sz then pfx_bits prev else sz) with (Z.min (pfx_bits prev) sz)
    by (destruct (Z.ltb_spec (pfx_bits prev) sz); lia).
  rewrite wrap64_bits by (done || lia). fold L k in Hb, Hsz, Hr |- *.
  set (v := addr_val (pfx_addr prev)) in *.
  assert (Hk : 0 <= k < L) by (unfold k; lia).
  pose proof (Z.pow_pos_nonneg 2 k ltac:(lia) ltac:(lia)) as Hpk.
  assert (HLk : 2 ^ L = 2 ^ (L - k) * 2 ^ k) by (rewrite <- Z.pow_add_r by lia; f_equal; lia).
  pose proof (Z.div_mod v (2 ^ k) ltac:(lia)) as Hdm.
  pose proof (Z.mod_pos_bound v (2 ^ k) ltac:(lia)) as Hmb.
  assert (Hq : 0 <= v / 2 ^ k < 2 ^ (L - k)).
  { split; [apply Z.div_pos; lia|]. apply Z.div_lt_upper_bound; lia. }
  rewrite Add_val by (done || (unfold is_u64; lia)). fold L v. rewrite Z.mul_1_l.
  set (w := (v + 2 ^ k) mod 2 ^ L).
  assert (HwL : 0 <= w < 2 ^ L) by (apply Z.mod_pos_bound; lia).
  assert (Hwa : addr_ok (with_val (pfx_addr prev) w)).
  { split; [by rewrite with_val_valid|]. rewrite with_val_val, with_val_BitLen by done. done. }
  assert (Hun : IsUnspecified (with_val (pfx_addr prev) w) = (w =? 0)) by (by apply IsUnspecified_with_val).
  assert (Hpf : Masked (PrefixFrom (with_val (pfx_addr prev) w) sz)
    = mkPrefix (mask_addr (with_val (pfx_addr prev) w) sz) sz)
    by (apply Masked_PrefixFrom; [done|rewrite with_val_BitLen; fold L; lia]).
  rewrite Hun, Hpf.
  assert (Hmv : addr_val (mask_addr (with_val (pfx_addr prev) w) sz) = w - w mod 2 ^ (L - sz)).
  { rewrite mask_addr_val by (done || (rewrite with_val_BitLen; fold L; lia)).
    by rewrite with_val_val, with_val_BitLen. }
  split; intros Hnext.
  - assert (Hw : w = v + 2 ^ k).
    { unfold w. apply Z.mod_small. unfold next in Hnext.
      assert (v / 2 ^ k + 1 < 2 ^ (L - k)) by nia. nia. }
    destruct (Z.eqb_spec w 0); [lia|]. f_equal. apply addr_eq.
    + by apply mask_addr_ok; [|rewrite with_val_BitLen; fold L; lia].
    + by rewrite mask_addr_BitLen, !with_val_BitLen.
    + rewrite Hmv, with_val_val by done. unfold next.
      destruct (Z.le_ge_cases (pfx_bits prev) sz) as [Hle|Hge].
      * assert (Hmk : v mod 2 ^ k = 0).
        { unfold k. rewrite Z.min_l by done. exact Hm. }
        rewrite (mod_pow_le w (L - sz) k); [lia|unfold k; lia|].
        rewrite Hw, Zplus_mod, Hmk, Z.mod_same, Z.mod_0_l by lia. done.
      * assert (Hks : k = L - sz) by (unfold k; lia). rewrite <- Hks.
        rewrite Hw, <- (Z.mul_1_l (2 ^ k)) at 1 2. rewrite Z.mod_add by lia. lia.
  - destruct (Z.eqb_spec w 0); [by left|]. right. cbn [pfx_addr]. rewrite Hmv.
    assert (Hkk : k <= L - sz \/ L - sz < k) by lia.
    assert (Hw : w = v mod 2 ^ k).
    { unfold w. unfold next in Hnext. assert (v / 2 ^ k + 1 = 2 ^ (L - k)) by nia.
      symmetry. apply (Z.mod_unique_pos _ _ 1); nia. }
    destruct (Z.le_ge_cases (pfx_bits prev) sz) as [Hle|Hge].
    + assert (Hmk : v mod 2 ^ k = 0) by (unfold k; rewrite Z.min_l by done; exact Hm). lia.
    + assert (Hks : k = L - sz) by (unfold k; lia). rewrite <- Hks, Hw, Z.mod_mod by lia. lia.
Qed.
