(* ===== verification/AddrSet.v ===== *)
(** * Sets of IP addresses

    Model of [daemon/libnetwork/internal/addrset/addrset.go]: the addresses of
    a pool as bit vectors of at most [2^63] bits, one per block of the pool,
    created on demand.  The file is written against the interface
    [OrdinalSet]; [DefaultIPAM] instantiates it with [Bitmap]. *)

From S2P Require Import Prelude Bitmap OrdinalSet Uint128 NetIP IPBits NetIPUtil.

(** The package's errors: [ErrNotInPool] and [ErrNotInSubnet] are the formatted
    errors for addresses and ranges outside of the pool, [ErrPrefix] an error of
    [Addr.Prefix], [ErrBitmap] any other error of the bit vector. *)
Inductive AddrErr :=
| ErrNotAvailable
| ErrAllocated
| ErrNotInPool
| ErrNotInSubnet
| ErrPrefix
| ErrBitmap (e : BitErr).

Definition maxBitsPerBitmap : Z := 63.
Definition minPrefixLen : Z := 16 * 8 - maxBitsPerBitmap.

Section AddrSet.
Context {B : Type} `{OS : OrdinalSet B}.

Record AddrSet := mkAddrSet { as_pool : Prefix; as_bitmaps : gmap Prefix B }.

Definition New (pool : Prefix) : AddrSet := mkAddrSet (Masked pool) ∅.

Definition mapErr (err : BitErr) : AddrErr :=
  match err with
  | ErrBitAllocated => ErrAllocated
  | ErrNoBitAvailable => ErrNotAvailable
  | e => ErrBitmap e
  end.

(** Host bits of the pool that one vector covers. *)
Definition bitsPerBitmap (s : AddrSet) : Z :=
  let bits := BitLen (pfx_addr (as_pool s)) - pfx_bits (as_pool s) in
  if maxBitsPerBitmap <? bits then maxBitsPerBitmap else bits.

Definition addrsPerBitmap (s : AddrSet) : Z := shl64 1 (bitsPerBitmap s).

Definition prefixLenPerBitmap (s : AddrSet) : Z :=
  let bits := pfx_bits (as_pool s) in
  if Is6 (pfx_addr (as_pool s)) && (bits <? minPrefixLen) then minPrefixLen else bits.

(** The vector for an address and its key; a missing vector is created and
    stored first.  [None] is an error of [Addr.Prefix]. *)
Definition getBitmap (s : AddrSet) (addr : Addr) : option (AddrSet * B * Prefix) :=
  match AddrPrefix addr (BitLen (pfx_addr (as_pool s)) - bitsPerBitmap s) with
  | None => None
  | Some bmKey =>
      match as_bitmaps s !! bmKey with
      | Some bm => Some (s, bm, bmKey)
      | None =>
          let bm := os_new (addrsPerBitmap s) in
          Some (mkAddrSet (as_pool s) (<[bmKey := bm]> (as_bitmaps s)), bm, bmKey)
      end
  end.

(** The map holds pointers: a change of the vector is a change of the entry. *)
Definition storeBitmap (s : AddrSet) (key : Prefix) (bm : B) : AddrSet :=
  mkAddrSet (as_pool s) (<[key := bm]> (as_bitmaps s)).

Definition Add (s : AddrSet) (addr : Addr) : AddrSet * option AddrErr :=
  if negb (Contains (as_pool s) addr) then (s, Some ErrNotInPool)
  else
    match getBitmap s addr with
    | Some (s1, bm, key) =>
        let bit := HostID addr (prefixLenPerBitmap s1) in
        let '(bm', err) := os_set bm bit in
        (storeBitmap s1 key bm', mapErr <$> err)
    | None => (s, Some ErrPrefix)
    end.

Definition AddAny (s : AddrSet) (serial : bool) : AddrSet * go_result AddrErr Addr :=
  match getBitmap s (pfx_addr (as_pool s)) with
  | Some (s1, bm, key) =>
      let '(bm', ordinal, err) := os_set_any bm serial in
      let s2 := storeBitmap s1 key bm' in
      match err with
      | Some e => (s2, GoErr (mapErr e))
      | None => (s2, GoOk (IPBits.Add (pfx_addr (as_pool s2)) ordinal 0))
      end
  | None => (s, GoErr ErrPrefix)
  end.

Definition AddAnyInRange (s : AddrSet) (ipr : Prefix) (serial : bool)
  : AddrSet * go_result AddrErr Addr :=
  if negb (Contains (as_pool s) (pfx_addr ipr)) || (pfx_bits ipr <? pfx_bits (as_pool s))
  then (s, GoErr ErrNotInSubnet)
  else
    let iprMasked := Masked ipr in
    match getBitmap s (pfx_addr iprMasked) with
    | Some (s1, bm, bmKey) =>
        let '(bm', ordinal, err) :=
          if pfx_bits ipr <=? pfx_bits bmKey then os_set_any bm serial
          else
            let '(start, end_) := SubnetRange bmKey iprMasked in
            os_set_any_in_range bm start end_ serial in
        let s2 := storeBitmap s1 bmKey bm' in
        match err with
        | Some e => (s2, GoErr (mapErr e))
        | None => (s2, GoOk (IPBits.Add (pfx_addr bmKey) ordinal 0))
        end
    | None => (s, GoErr ErrPrefix)
    end.

Definition Remove (s : AddrSet) (addr : Addr) : AddrSet * option AddrErr :=
  if negb (Contains (as_pool s) addr) then (s, Some ErrNotInPool)
  else
    match getBitmap s addr with
    | Some (s1, bm, bmKey) =>
        let bit := HostID addr (prefixLenPerBitmap s1) in
        let '(bm', err) := os_unset bm bit in
        let s2 := storeBitmap s1 bmKey bm' in
        match err with
        | Some e => (s2, Some (ErrBitmap e))
        | None =>
            if sub64 (os_bits bm') (os_unselected bm') =? 0
            then (mkAddrSet (as_pool s2) (delete bmKey (as_bitmaps s2)), None)
            else (s2, None)
        end
    | None => (s, Some ErrPrefix)
    end.

(** The two-word running sum over the vectors, in any order. *)
Definition addCount (ones : Z) (acc : Z * Z) : Z * Z :=
  let '(hi', lo') := acc in
  let '(lo'', carry) := Add64 lo' ones 0 in
  (add64 hi' carry, lo'').

Definition Len (s : AddrSet) : Z * Z :=
  map_fold (fun _ bm acc => addCount (sub64 (os_bits bm) (os_unselected bm)) acc)
    (0, 0) (as_bitmaps s).

(** A range error of [OnesCount] panics. *)
Definition AddrsInPrefix (s : AddrSet) (prefix : Prefix) : go_result AddrErr (Z * Z) :=
  let prefix := Masked prefix in
  if negb (Overlaps (as_pool s) prefix) then GoOk (0, 0)
  else if pfx_bits prefix <=? pfx_bits (as_pool s) then GoOk (Len s)
  else
    map_fold (fun bmKey bm acc =>
      match acc with
      | GoOk acc =>
          if negb (Overlaps prefix bmKey) then GoOk acc
          else if pfx_bits prefix <=? pfx_bits bmKey
          then GoOk (addCount (sub64 (os_bits bm) (os_unselected bm)) acc)
          else
            let '(start, end_) := SubnetRange bmKey prefix in
            match os_ones_count bm start end_ with
            | GoOk ones => GoOk (addCount ones acc)
            | _ => GoPanic
            end
      | r => r
      end) (GoOk (0, 0)) (as_bitmaps s).

End AddrSet.

Arguments AddrSet B : clear implicits.
