(* ===== verification/AddrSetSpec.v ===== *)
(** * Correctness of the address sets

    The abstraction of an [AddrSet] is its membership function [mem]; [valid] is
    the invariant.  Everything is proved from the laws of [OrdinalSet]. *)

From S2P Require Import Prelude Bitmap OrdinalSet Uint128 NetIP IPBits NetIPUtil AddrSet.

Section Spec.
Context {B : Type} {OS : OrdinalSet B} {OL : OrdinalSetLaws B}.
Implicit Types (s : AddrSet B) (a b : Addr) (bm : B).

(** Family width and length of the keys. *)
Definition poolLen s : Z := BitLen (pfx_addr (as_pool s)).
Definition keyLen s : Z := poolLen s - bitsPerBitmap s.

(** The key of the vector an address belongs to. *)
Definition keyOf s a : Prefix := mkPrefix (mask_addr a (keyLen s)) (keyLen s).
(** The ordinal of the address in its vector. *)
Definition ordOf s a : Z := addr_val a mod 2 ^ bitsPerBitmap s.

Definition mem s a : bool :=
  match as_bitmaps s !! keyOf s a with
  | Some bm => os_mem bm (ordOf s a)
  | None => false
  end.

(** An address of the pool. *)
Definition in_pool s a : Prop := addr_ok a /\ Contains (as_pool s) a = true.

Record entry_ok s (k : Prefix) bm : Prop := {
  eo_valid : os_valid bm;
  eo_bits : os_bits bm = 2 ^ bitsPerBitmap s;
  eo_key : prefix_ok k;
  eo_keyLen : pfx_bits k = keyLen s;
  eo_family : BitLen (pfx_addr k) = poolLen s;
  eo_pool : Contains (as_pool s) (pfx_addr k) = true
}.

Record valid s : Prop := {
  va_pool : prefix_ok (as_pool s);
  va_entries : forall k bm, as_bitmaps s !! k = Some bm -> entry_ok s k bm
}.

(** ** Geometry *)

Lemma bitsPerBitmap_range s :
  prefix_ok (as_pool s) ->
  0 <= bitsPerBitmap s <= 63 /\ bitsPerBitmap s <= host_bits (as_pool s)
  /\ 0 <= keyLen s <= poolLen s /\ pfx_bits (as_pool s) <= keyLen s
  /\ (poolLen s = 128 -> 65 <= keyLen s) /\ (poolLen s = 32 -> keyLen s = pfx_bits (as_pool s)).
Proof.
  intros (Ha&Hb&_). pose proof (BitLen_cases _ Ha).
  unfold keyLen, poolLen, bitsPerBitmap, host_bits, maxBitsPerBitmap in *.
  destruct (Z.ltb_spec 63 (BitLen (pfx_addr (as_pool s)) - pfx_bits (as_pool s))); lia.
Qed.

Lemma prefixLenPerBitmap_keyLen s : prefix_ok (as_pool s) -> prefixLenPerBitmap s = keyLen s.
Proof.
  intros Hp. pose proof (bitsPerBitmap_range s Hp) as H. destruct Hp as (Ha&Hb&_).
  unfold keyLen, poolLen, bitsPerBitmap, prefixLenPerBitmap, minPrefixLen, maxBitsPerBitmap in *.
  destruct (pfx_addr (as_pool s)); simpl in *; [by destruct Ha| |];
    repeat match goal with |- context [Z.ltb ?x ?y] => destruct (Z.ltb_spec x y); try lia end.
Qed.

Lemma addrsPerBitmap_pow s : prefix_ok (as_pool s) -> addrsPerBitmap s = 2 ^ bitsPerBitmap s.
Proof.
  intros Hp. pose proof (bitsPerBitmap_range s Hp) as [? _].
  unfold addrsPerBitmap, shl64. rewrite Z.shiftl_1_l. apply wrap64_small.
  pose proof (pow2_63 (bitsPerBitmap s) ltac:(lia)). lia.
Qed.

Lemma in_pool_family s a : prefix_ok (as_pool s) -> in_pool s a -> BitLen a = poolLen s.
Proof. intros Hp [Ha Hc]. apply Contains_spec in Hc as [E _]; [|done|done]. by symmetry. Qed.

Lemma ordOf_range s a : prefix_ok (as_pool s) -> 0 <= ordOf s a < 2 ^ bitsPerBitmap s.
Proof.
  intros Hp. pose proof (bitsPerBitmap_range s Hp) as [? _]. apply Z.mod_pos_bound.
  apply Z.pow_pos_nonneg; lia.
Qed.

Lemma ordOf_u64 s a : prefix_ok (as_pool s) -> is_u64 (ordOf s a).
Proof.
  intros Hp. pose proof (ordOf_range s a Hp). pose proof (bitsPerBitmap_range s Hp) as [? _].
  pose proof (pow2_63 (bitsPerBitmap s) ltac:(lia)). unfold is_u64. lia.
Qed.

Lemma HostID_ordOf s a :
  prefix_ok (as_pool s) -> in_pool s a -> HostID a (prefixLenPerBitmap s) = ordOf s a.
Proof.
  intros Hp Ha. pose proof (in_pool_family s a Hp Ha) as E.
  pose proof (bitsPerBitmap_range s Hp) as (?&?&?&?&?&?).
  rewrite prefixLenPerBitmap_keyLen by done.
  rewrite HostID_val by (try apply Ha; rewrite E; lia).
  unfold ordOf. do 2 f_equal. rewrite E. unfold keyLen. lia.
Qed.

Lemma keyOf_spec s a :
  prefix_ok (as_pool s) -> in_pool s a ->
  AddrPrefix a (keyLen s) = Some (keyOf s a) /\ prefix_ok (keyOf s a)
  /\ BitLen (pfx_addr (keyOf s a)) = poolLen s
  /\ first_val (keyOf s a) = addr_val a - ordOf s a
  /\ Contains (as_pool s) (pfx_addr (keyOf s a)) = true.
Proof.
  intros Hp Hin. pose proof (in_pool_family s a Hp Hin) as E. pose proof Hin as [Ha Hc].
  pose proof (bitsPerBitmap_range s Hp) as (Hb&Hbh&Hk&Hpk&_).
  destruct (AddrPrefix_ok a (keyLen s) Ha ltac:(lia)) as [H1 H2].
  pose proof (mask_addr_ok a (keyLen s) Ha ltac:(lia)) as Hmok.
  assert (Hv : addr_val (mask_addr a (keyLen s)) = addr_val a - ordOf s a).
  { rewrite mask_addr_val by (done || lia). unfold ordOf. do 3 f_equal. rewrite E. unfold keyLen. lia. }
  split_and!; [done|done| |done|].
  - simpl. by rewrite mask_addr_BitLen.
  - apply Contains_spec; [done|done|]. simpl. rewrite mask_addr_BitLen, E. split; [done|].
    apply Contains_spec in Hc as [_ Hc]; [|done|done]. rewrite Hv.
    pose proof (ordOf_range s a Hp). split; [|lia].
    (* the pool starts at a multiple of the vector size *)
    destruct Hp as (_&_&Hm). unfold first_val in *.
    pose proof (Z.pow_pos_nonneg 2 (bitsPerBitmap s) ltac:(lia) ltac:(lia)) as Hpos.
    pose proof (mod_pow_le _ (bitsPerBitmap s) (host_bits (as_pool s)) ltac:(lia) Hm) as Hm'.
    unfold ordOf in *. set (P := 2 ^ bitsPerBitmap s) in *.
    set (f := addr_val (pfx_addr (as_pool s))) in *.
    pose proof (Z.div_mod f P ltac:(lia)). pose proof (Z.div_mod (addr_val a) P ltac:(lia)).
    assert (f / P <= addr_val a / P) by (apply Z.div_le_mono; lia). nia.
Qed.

(** An address is its key and its ordinal. *)
Lemma keyOf_inj s a b :
  prefix_ok (as_pool s) -> in_pool s a -> in_pool s b ->
  keyOf s a = keyOf s b -> ordOf s a = ordOf s b -> a = b.
Proof.
  intros Hp Ha Hb Hk Ho.
  destruct (keyOf_spec s a Hp Ha) as (_&_&_&Hfa&_). destruct (keyOf_spec s b Hp Hb) as (_&_&_&Hfb&_).
  apply addr_eq.
  - apply Ha.
  - by rewrite (in_pool_family s a), (in_pool_family s b).
  - rewrite Hk in Hfa. lia.
Qed.

(** The address of an ordinal of the vector [k]. *)
Lemma ordinal_addr s k bm o :
  valid s -> entry_ok s k bm -> 0 <= o < 2 ^ bitsPerBitmap s ->
  let a := IPBits.Add (pfx_addr k) o 0 in
  in_pool s a /\ keyOf s a = k /\ ordOf s a = o /\ addr_val a = first_val k + o.
Proof.
  intros Hv [_ _ Hk Hkl Hkf Hkp] Ho a. destruct Hv as [Hp _].
  pose proof (bitsPerBitmap_range s Hp) as (Hb&Hbh&Hkr&Hpk&_).
  pose proof (pow2_63 (bitsPerBitmap s) Hb) as H63.
  pose proof (prefix_interval k Hk) as Hki. pose proof Hk as (Hka&_&Hkm).
  assert (Hhk : host_bits k = bitsPerBitmap s) by (unfold host_bits, keyLen in *; lia).
  unfold last_val, first_val in Hki. rewrite Hhk in Hki, Hkm.
  assert (Ea : a = with_val (pfx_addr k) (first_val k + o)).
  { unfold a. rewrite Add_val; [|done|unfold is_u64; lia|destruct (BitLen_cases _ Hka); lia].
    f_equal. unfold first_val. rewrite Z.pow_0_r, Z.mul_1_r. apply Z.mod_small. lia. }
  assert (Hval : addr_val a = first_val k + o) by (rewrite Ea; apply with_val_val, Hka).
  assert (HL : BitLen a = poolLen s) by (by rewrite Ea, with_val_BitLen).
  assert (Haok : addr_ok a).
  { split; [rewrite Ea, with_val_valid; apply Hka|]. rewrite HL, <- Hkf, Hval. unfold first_val. lia. }
  assert (Hord : ordOf s a = o).
  { unfold ordOf. rewrite Hval, Zplus_mod. unfold first_val. rewrite Hkm, Z.add_0_l, Z.mod_mod by lia.
    apply Z.mod_small. lia. }
  assert (Hin : in_pool s a).
  { split; [done|]. apply Contains_spec; [done|done|]. split; [by rewrite HL|].
    apply Contains_spec in Hkp as [_ Hkp]; [|done|done].
    rewrite Hval. unfold first_val, last_val in *. split; [lia|].
    (* both the pool's end and the key are multiples of the vector size *)
    destruct Hp as (_&_&Hpm).
    assert (Hd : (2 ^ bitsPerBitmap s | 2 ^ host_bits (as_pool s))).
    { exists (2 ^ (host_bits (as_pool s) - bitsPerBitmap s)). rewrite <- Z.pow_add_r by lia. f_equal. lia. }
    pose proof (mod_pow_le _ (bitsPerBitmap s) (host_bits (as_pool s)) ltac:(lia) Hpm) as Hpm'.
    apply Z.mod_divide in Hpm' as [c1 H1]; [|lia]. apply Z.mod_divide in Hkm as [c2 H2]; [|lia].
    destruct Hd as [c3 H3]. rewrite H1, H2, H3 in *. assert (c2 < c1 + c3) by nia. nia. }
  split_and!; try done. unfold keyOf. destruct k as [ka kb]. simpl in *. subst kb. f_equal.
  apply addr_eq.
  - by apply mask_addr_ok; [|lia].
  - by rewrite mask_addr_BitLen, HL.
  - rewrite mask_addr_val by (done || lia).
    replace (BitLen a - keyLen s) with (bitsPerBitmap s) by (rewrite HL; unfold keyLen; lia).
    change (addr_val a mod 2 ^ bitsPerBitmap s) with (ordOf s a). rewrite Hord, Hval.
    unfold first_val. simpl. lia.
Qed.

(** ** State changes *)

(** The geometry depends on the pool only. *)
Lemma same_pool s s' :
  as_pool s' = as_pool s ->
  bitsPerBitmap s' = bitsPerBitmap s /\ poolLen s' = poolLen s /\ keyLen s' = keyLen s
  /\ (forall a, keyOf s' a = keyOf s a) /\ (forall a, ordOf s' a = ordOf s a)
  /\ (forall a, in_pool s' a <-> in_pool s a).
Proof.
  intros E. unfold in_pool, keyOf, ordOf, keyLen, poolLen, bitsPerBitmap. rewrite E.
  split_and!; done.
Qed.

Lemma entry_same_pool s s' k bm : as_pool s' = as_pool s -> entry_ok s k bm -> entry_ok s' k bm.
Proof.
  intros E [H1 H2 H3 H4 H5 H6]. destruct (same_pool s s' E) as (Eb&El&Ek&_).
  constructor; try done; congruence.
Qed.

(** Replacing the vector of a key. *)
Lemma store_valid s k bm :
  valid s -> entry_ok s k bm -> valid (storeBitmap s k bm).
Proof.
  intros [Hp He] Hk. constructor; [done|]. intros k' bm'. simpl.
  destruct (decide (k' = k)) as [->|Hne].
  - rewrite lookup_insert_eq. intros [= <-]. by apply (entry_same_pool s).
  - rewrite lookup_insert_ne by done. intros Hl. by apply (entry_same_pool s), He.
Qed.

Lemma store_mem s k bm a :
  mem (storeBitmap s k bm) a =
    if decide (keyOf s a = k) then os_mem bm (ordOf s a) else mem s a.
Proof.
  unfold mem. destruct (same_pool s (storeBitmap s k bm) eq_refl) as (_&_&_&Ek&Eo&_).
  rewrite Ek, Eo. simpl. case_decide as E.
  - rewrite E. by rewrite lookup_insert_eq.
  - by rewrite lookup_insert_ne by done.
Qed.

(** A new, empty vector is a valid entry for the key of any pool address. *)
Lemma new_entry s a :
  valid s -> in_pool s a -> entry_ok s (keyOf s a) (os_new (addrsPerBitmap s)).
Proof.
  intros [Hp _] Ha. destruct (keyOf_spec s a Hp Ha) as (_&Hk&Hf&_&Hc).
  pose proof (bitsPerBitmap_range s Hp) as [Hb _]. pose proof (pow2_63 _ Hb).
  rewrite addrsPerBitmap_pow by done.
  destruct (os_new_valid (2 ^ bitsPerBitmap s) ltac:(lia)) as [Hv Hbits].
  by constructor.
Qed.

Lemma getBitmap_spec s a :
  valid s -> in_pool s a ->
  exists s1 bm, getBitmap s a = Some (s1, bm, keyOf s a)
    /\ valid s1 /\ as_pool s1 = as_pool s /\ entry_ok s1 (keyOf s a) bm
    /\ as_bitmaps s1 !! keyOf s a = Some bm /\ forall b, mem s1 b = mem s b.
Proof.
  intros Hv Ha. pose proof Hv as [Hp He].
  destruct (keyOf_spec s a Hp Ha) as (HAP&_). unfold getBitmap.
  fold (poolLen s). fold (keyLen s). rewrite HAP.
  destruct (as_bitmaps s !! keyOf s a) as [bm|] eqn:El.
  - exists s, bm. by split_and!; auto.
  - pose proof (new_entry s a Hv Ha) as Hn.
    exists (storeBitmap s (keyOf s a) (os_new (addrsPerBitmap s))), (os_new (addrsPerBitmap s)).
    split_and!.
    + done.
    + by apply store_valid.
    + done.
    + by apply (entry_same_pool s).
    + simpl. apply lookup_insert_eq.
    + intros b. rewrite store_mem. case_decide as E; [|done]. rewrite os_new_mem.
      unfold mem. by rewrite E, El.
Qed.

(** One ordinal of a stored vector changes: one address changes. *)
Lemma store_update s a bm bm' v :
  valid s -> in_pool s a -> as_bitmaps s !! keyOf s a = Some bm -> entry_ok s (keyOf s a) bm ->
  os_valid bm' -> os_bits bm' = os_bits bm ->
  (forall i, 0 <= i -> os_mem bm' i = update (os_mem bm) (ordOf s a) v i) ->
  valid (storeBitmap s (keyOf s a) bm')
  /\ forall b, in_pool s b ->
       mem (storeBitmap s (keyOf s a) bm') b = if decide (b = a) then v else mem s b.
Proof.
  intros Hv Ha Hl [H1 H2 H3 H4 H5 H6] Hv' Hb' Hm. split.
  - apply store_valid; [done|]. constructor; try done. congruence.
  - intros b Hb. rewrite store_mem. pose proof (va_pool s Hv) as Hp. case_decide as E.
    + rewrite Hm by (pose proof (ordOf_range s b Hp); lia). unfold update.
      case_decide as Eab.
      * subst b. by rewrite Z.eqb_refl.
      * destruct (Z.eqb_spec (ordOf s b) (ordOf s a)) as [Eo|Eo].
        { exfalso. apply Eab. by eapply keyOf_inj. }
        unfold mem. by rewrite E, Hl.
    + case_decide as Eab; [by subst b|done].
Qed.

(** The entry of a key gives the membership of its addresses. *)
Lemma mem_entry s a bm : as_bitmaps s !! keyOf s a = Some bm -> mem s a = os_mem bm (ordOf s a).
Proof. intros E. unfold mem. by rewrite E. Qed.

(** Storing an unchanged vector changes nothing. *)
Lemma store_same s k bm : as_bitmaps s !! k = Some bm -> storeBitmap s k bm = s.
Proof. intros Hl. unfold storeBitmap. rewrite insert_id by done. by destruct s. Qed.

(** The pointwise view of an update of the set. *)
Definition set_addr s s' a (v : bool) : Prop :=
  forall b, in_pool s b -> mem s' b = if decide (b = a) then v else mem s b.

Lemma Add_effect s a :
  valid s -> addr_ok a ->
  let '(s', err) := Add s a in
  valid s' /\ as_pool s' = as_pool s
  /\ (Contains (as_pool s) a = false -> err = Some ErrNotInPool /\ s' = s)
  /\ (Contains (as_pool s) a = true -> mem s a = true ->
      err = Some ErrAllocated /\ forall b, mem s' b = mem s b)
  /\ (Contains (as_pool s) a = true -> mem s a = false -> err = None /\ set_addr s s' a true).
Proof.
  intros Hv Ha. unfold Add. destruct (Contains (as_pool s) a) eqn:Hc; simpl; [|by split_and!].
  assert (Hin : in_pool s a) by done.
  destruct (getBitmap_spec s a Hv Hin) as (s1&bm&->&Hv1&Hp1&He1&Hl1&Hm1).
  destruct (same_pool s s1 Hp1) as (Eb&El&Ek&Eko&Eoo&Ein).
  pose proof (va_pool s1 Hv1) as Hpool1. rewrite <- (Ein a) in Hin.
  rewrite HostID_ordOf by done. rewrite <- Eko in Hl1, He1 |- *.
  pose proof (os_set_law bm (ordOf s1 a) (eo_valid _ _ _ He1) (ordOf_u64 s1 a Hpool1)) as Hset.
  pose proof (ordOf_range s1 a Hpool1) as Hor. rewrite <- (eo_bits _ _ _ He1) in Hor.
  destruct (os_set bm (ordOf s1 a)) as [bm' err]. destruct Hset as [-> Hset].
  destruct (Z.leb_spec (os_bits bm) (ordOf s1 a)); [lia|].
  pose proof (mem_entry s1 a bm Hl1) as Hma. rewrite Hm1 in Hma. rewrite Hma.
  destruct (os_mem bm (ordOf s1 a)) eqn:Hbit.
  - subst bm'. rewrite store_same by done. by split_and!.
  - destruct Hset as (Hv'&Hb'&Hm').
    destruct (store_update s1 a bm bm' true Hv1 Hin Hl1 He1 Hv' Hb' Hm') as [Hvs Hms].
    split_and!; try done. intros _ _. split; [done|]. intros b Hb. rewrite Hms by (by apply Ein).
    case_decide; [done|]. apply Hm1.
Qed.

Lemma Remove_effect s a :
  valid s -> addr_ok a ->
  let '(s', err) := Remove s a in
  valid s' /\ as_pool s' = as_pool s
  /\ (Contains (as_pool s) a = false -> err = Some ErrNotInPool /\ s' = s)
  /\ (Contains (as_pool s) a = true -> err = None /\ set_addr s s' a false).
Proof.
  intros Hv Ha. unfold Remove. destruct (Contains (as_pool s) a) eqn:Hc; simpl; [|by split_and!].
  assert (Hin : in_pool s a) by done.
  destruct (getBitmap_spec s a Hv Hin) as (s1&bm&->&Hv1&Hp1&He1&Hl1&Hm1).
  destruct (same_pool s s1 Hp1) as (Eb&El&Ek&Eko&Eoo&Ein).
  pose proof (va_pool s1 Hv1) as Hpool1. rewrite <- (Ein a) in Hin.
  rewrite HostID_ordOf by done. rewrite <- Eko in Hl1, He1 |- *.
  pose proof (os_unset_law bm (ordOf s1 a) (eo_valid _ _ _ He1) (ordOf_u64 s1 a Hpool1)) as Hset.
  pose proof (ordOf_range s1 a Hpool1) as Hor. rewrite <- (eo_bits _ _ _ He1) in Hor.
  destruct (os_unset bm (ordOf s1 a)) as [bm' err]. destruct Hset as [-> Hset].
  destruct (Z.leb_spec (os_bits bm) (ordOf s1 a)); [lia|]. destruct Hset as (Hv'&Hb'&Hm').
  destruct (store_update s1 a bm bm' false Hv1 Hin Hl1 He1 Hv' Hb' Hm') as [Hvs Hms].
  assert (Hset : set_addr s (storeBitmap s1 (keyOf s1 a) bm') a false).
  { intros b Hb. rewrite Hms by (by apply Ein). case_decide; [done|]. apply Hm1. }
  pose proof (os_bits_range bm' Hv') as Hbr.
  assert (Hcb : 0 <= count_in (os_mem bm') 0 (os_bits bm') <= os_bits bm' - 0)
    by (apply count_in_bounds; lia).
  rewrite os_unselected_count, sub64_small by (done || lia).
  destruct (Z.eqb_spec (os_bits bm' - (os_bits bm' - count_in (os_mem bm') 0 (os_bits bm'))) 0) as [Ez|Ez];
    [|by split_and!].
  assert (Hnone : forall i, 0 <= i < os_bits bm' -> os_mem bm' i = false).
  { intros i Hi. apply (count_in_zero _ 0 (os_bits bm')); lia. }
  simpl. rewrite delete_insert_eq. split_and!; try done.
  - constructor; [done|]. intros k b. simpl. intros [_ Hl]%lookup_delete_Some.
    apply (entry_same_pool s1); [done|]. by apply Hv1.
  - intros _. split; [done|]. intros b Hb. rewrite <- (Hset b Hb), store_mem.
    unfold mem. destruct (same_pool s1 (mkAddrSet (as_pool s1) (delete (keyOf s1 a) (as_bitmaps s1))) eq_refl)
      as (_&_&_&Ek2&Eo2&_). rewrite Ek2, Eo2. simpl. case_decide as E.
    + rewrite E, lookup_delete_eq. symmetry. apply Hnone.
      rewrite Hb', (eo_bits _ _ _ He1). apply ordOf_range, Hpool1.
    + by rewrite lookup_delete_ne by done.
Qed.

(** ** Allocation of any address *)

Lemma pool_addr_in_pool s : prefix_ok (as_pool s) -> in_pool s (pfx_addr (as_pool s)).
Proof.
  intros Hp. split; [apply Hp|]. apply Contains_spec; [done|apply Hp|]. split; [done|].
  pose proof (prefix_interval _ Hp). unfold first_val in *. lia.
Qed.

(** An aligned address is the address of its own key. *)
Lemma keyOf_aligned s a :
  prefix_ok (as_pool s) -> in_pool s a -> addr_val a mod 2 ^ bitsPerBitmap s = 0 ->
  pfx_addr (keyOf s a) = a.
Proof.
  intros Hp Ha Hm. destruct (keyOf_spec s a Hp Ha) as (_&Hk&Hf&Hv&_).
  apply addr_eq; [apply Hk| |].
  - by rewrite Hf, (in_pool_family s a).
  - unfold first_val in Hv. rewrite Hv. unfold ordOf. lia.
Qed.

(** Addresses of the block of a key. *)
Lemma keyOf_block s a b :
  prefix_ok (as_pool s) -> in_pool s a -> in_pool s b ->
  first_val (keyOf s a) <= addr_val b < first_val (keyOf s a) + 2 ^ bitsPerBitmap s ->
  keyOf s b = keyOf s a /\ ordOf s b = addr_val b - first_val (keyOf s a).
Proof.
  intros Hp Ha Hb Hr. destruct (keyOf_spec s a Hp Ha) as (_&Hka&Hfa&_).
  pose proof (bitsPerBitmap_range s Hp) as (Hbb&_&Hkl&_).
  pose proof (pow2_63 _ Hbb) as H63.
  assert (Hm : first_val (keyOf s a) mod 2 ^ bitsPerBitmap s = 0).
  { destruct Hka as (_&_&Hm). unfold host_bits in Hm. rewrite Hfa in Hm. simpl in Hm.
    by replace (poolLen s - keyLen s) with (bitsPerBitmap s) in Hm by (unfold keyLen; lia). }
  assert (Ho : ordOf s b = addr_val b - first_val (keyOf s a)).
  { unfold ordOf. symmetry. apply (Z.mod_unique_pos _ _ (first_val (keyOf s a) / 2 ^ bitsPerBitmap s));
      [lia|]. pose proof (Z.div_mod (first_val (keyOf s a)) (2 ^ bitsPerBitmap s) ltac:(lia)). lia. }
  split; [|done]. destruct (keyOf_spec s b Hp Hb) as (_&Hkb&Hfb&Hvb&_).
  unfold first_val in *. unfold keyOf in *. simpl in *. f_equal. apply addr_eq; [apply Hkb| |]; [congruence|lia].
Qed.

(** The shared step of [AddAny] and [AddAnyInRange]: an ordinal [r] of the vector
    of [a0] has been taken. *)
Lemma any_effect s a0 s1 bm bm' r :
  valid s -> in_pool s a0 -> valid s1 -> as_pool s1 = as_pool s ->
  as_bitmaps s1 !! keyOf s a0 = Some bm -> entry_ok s1 (keyOf s a0) bm ->
  (forall b, mem s1 b = mem s b) ->
  os_valid bm' -> os_bits bm' = os_bits bm -> 0 <= r < os_bits bm -> os_mem bm r = false ->
  (forall i, 0 <= i -> os_mem bm' i = update (os_mem bm) r true i) ->
  let a := IPBits.Add (pfx_addr (keyOf s a0)) r 0 in
  valid (storeBitmap s1 (keyOf s a0) bm') /\ in_pool s a /\ mem s a = false
  /\ set_addr s (storeBitmap s1 (keyOf s a0) bm') a true
  /\ addr_val a = first_val (keyOf s a0) + r.
Proof.
  intros Hv Ha0 Hv1 Hp1 Hl1 He1 Hm1 Hv' Hb' Hr Hfree Hm' a.
  destruct (same_pool s s1 Hp1) as (Eb&El&Ek&Eko&Eoo&Ein).
  rewrite (eo_bits _ _ _ He1) in Hr.
  destruct (ordinal_addr s1 (keyOf s a0) bm r Hv1 He1 Hr) as (Hin&Hkey&Hord&Hval). fold a in Hin, Hkey, Hord, Hval.
  assert (Hl2 : as_bitmaps s1 !! keyOf s1 a = Some bm) by (by rewrite Hkey).
  rewrite <- Hkey in He1.
  destruct (store_update s1 a bm bm' true Hv1 Hin Hl2 He1 Hv' Hb') as [Hvs Hms].
  { by rewrite Hord. }
  rewrite Hkey in Hvs, Hms. split_and!; try done.
  - by apply Ein.
  - rewrite <- Hm1, (mem_entry s1 a bm Hl2), Hord. done.
  - intros b Hb. rewrite Hms by (by apply Ein). case_decide; [done|]. apply Hm1.
Qed.

(** All ordinals of an interval of a vector are taken: so are the addresses. *)
Lemma all_mem s a0 bm lo hi b :
  valid s -> in_pool s a0 -> as_bitmaps s !! keyOf s a0 = Some bm ->
  (forall i, lo <= i < hi -> os_mem bm i = true) -> 0 <= lo -> hi <= 2 ^ bitsPerBitmap s ->
  in_pool s b -> first_val (keyOf s a0) + lo <= addr_val b < first_val (keyOf s a0) + hi ->
  mem s b = true.
Proof.
  intros Hv Ha0 Hl Hall Hlo Hhi Hb Hr.
  destruct (keyOf_block s a0 b (va_pool s Hv) Ha0 Hb ltac:(lia)) as [Hk Ho].
  unfold mem. rewrite Hk, Hl, Ho. apply Hall. lia.
Qed.

Lemma AddAny_effect s serial :
  valid s ->
  let '(s', res) := AddAny s serial in
  valid s' /\ as_pool s' = as_pool s /\
  match res with
  | GoOk a => in_pool s a /\ mem s a = false /\ set_addr s s' a true
      /\ (serial = false ->
          forall b, in_pool s b -> addr_val b < addr_val a -> mem s b = true)
  | GoErr e => e = ErrNotAvailable /\ (forall b, mem s' b = mem s b)
      /\ forall b, in_pool s b -> addr_val b < first_val (as_pool s) + 2 ^ 63 -> mem s b = true
  | GoPanic => False
  end.
Proof.
  intros Hv. pose proof (va_pool s Hv) as Hp. unfold AddAny.
  pose proof (pool_addr_in_pool s Hp) as Hin.
  destruct (getBitmap_spec s _ Hv Hin) as (s1&bm&->&Hv1&Hp1&He1&Hl1&Hm1).
  destruct (same_pool s s1 Hp1) as (Eb&El&Ek&Eko&Eoo&Ein).
  pose proof (bitsPerBitmap_range s Hp) as (Hbb&Hbh&_). pose proof (pow2_63 _ Hbb) as H63.
  assert (Hka : pfx_addr (keyOf s (pfx_addr (as_pool s))) = pfx_addr (as_pool s)).
  { apply keyOf_aligned; [done|done|]. destruct Hp as (_&_&Hm). apply (mod_pow_le _ _ (host_bits (as_pool s))); [lia|done]. }
  set (k := keyOf s (pfx_addr (as_pool s))) in *.
  assert (Hfk : first_val k = first_val (as_pool s)) by (unfold first_val; by rewrite Hka).
  pose proof (os_set_any_law bm serial (eo_valid _ _ _ He1)) as Hlaw.
  destruct (os_set_any bm serial) as [[bm' r] [e|]].
  - destruct Hlaw as (->&->&Hall). rewrite store_same by done. split_and!; try done.
    intros b Hb Hlt. rewrite <- Hm1. rewrite (eo_bits _ _ _ He1) in Hall.
    apply (all_mem s1 (pfx_addr (as_pool s)) bm 0 (2 ^ bitsPerBitmap s1)); rewrite ?Eko; try done.
    + by apply Ein.
    + by apply Ein.
    + fold k. rewrite Hfk, Eb. destruct Hb as [Hba Hbc].
      apply Contains_spec in Hbc as [_ Hbc]; [|done|done]. unfold last_val in Hbc.
      unfold bitsPerBitmap, maxBitsPerBitmap, host_bits in *. unfold first_val in *.
      destruct (Z.ltb_spec 63 (BitLen (pfx_addr (as_pool s)) - pfx_bits (as_pool s))); lia.
  - destruct Hlaw as (Hv'&Hb'&Hr&(c&Hnext&Hser)&Hm').
    pose proof (next_ordinal_free _ _ _ _ _ Hnext) as Hfree. simpl. rewrite Hp1, <- Hka.
    destruct (any_effect s _ s1 bm bm' r Hv Hin Hv1 Hp1 Hl1 He1 Hm1 Hv' Hb' Hr Hfree Hm')
      as (H1&H2&H3&H4&H5). fold k in H1, H2, H3, H4, H5.
    split_and!; try done. intros Hs b Hb Hlt. rewrite (Hser Hs) in Hnext.
    apply next_ordinal_lowest in Hnext as (_&_&Hset); [|lia]. rewrite <- Hm1.
    apply (all_mem s1 (pfx_addr (as_pool s)) bm 0 r); rewrite ?Eko; try done.
    + by apply Ein.
    + rewrite (eo_bits _ _ _ He1) in Hr. lia.
    + by apply Ein.
    + fold k. rewrite Hfk in *. destruct Hb as [Hba Hbc].
      apply Contains_spec in Hbc as [_ Hbc]; [|done|done]. lia.
Qed.

(** A range of the pool: masked, in the pool, not wider than the pool. *)
Definition range_ok s (ipr : Prefix) : Prop :=
  prefix_ok ipr /\ Contains (as_pool s) (pfx_addr ipr) = true /\ pfx_bits (as_pool s) <= pfx_bits ipr.

Lemma range_family s ipr :
  prefix_ok (as_pool s) -> range_ok s ipr -> BitLen (pfx_addr ipr) = poolLen s.
Proof. intros Hp (Hi&Hc&_). apply (in_pool_family s); [done|]. split; [apply Hi|done]. Qed.

(** A range that is not shorter than a vector starts one. *)
Lemma range_wide s ipr :
  prefix_ok (as_pool s) -> range_ok s ipr -> pfx_bits ipr <= keyLen s ->
  first_val (keyOf s (pfx_addr ipr)) = first_val ipr
  /\ first_val ipr + 2 ^ bitsPerBitmap s - 1 <= last_val ipr.
Proof.
  intros Hp Hr Hle. pose proof (range_family s ipr Hp Hr) as Hf. destruct Hr as (Hi&Hc&_).
  pose proof (bitsPerBitmap_range s Hp) as (Hbb&_&Hkl&_).
  assert (Hh : bitsPerBitmap s <= host_bits ipr) by (unfold host_bits, keyLen in *; lia).
  pose proof Hi as (Hia&_&Him). unfold first_val, last_val.
  rewrite keyOf_aligned; [|done|by split|].
  - split; [done|]. pose proof (Z.pow_le_mono_r 2 _ _ ltac:(lia) Hh). lia.
  - apply (mod_pow_le _ _ (host_bits ipr)); [lia|done].
Qed.

(** A shorter range lies in one vector. *)
Lemma range_narrow s ipr :
  prefix_ok (as_pool s) -> range_ok s ipr -> keyLen s < pfx_bits ipr ->
  let k := keyOf s (pfx_addr ipr) in
  SubnetRange k ipr = (first_val ipr - first_val k, last_val ipr - first_val k)
  /\ 0 <= first_val ipr - first_val k <= last_val ipr - first_val k
  /\ last_val ipr - first_val k < 2 ^ bitsPerBitmap s.
Proof.
  intros Hp Hr Hlt k. pose proof (range_family s ipr Hp Hr) as Hf. destruct Hr as (Hi&Hc&_).
  assert (Hin : in_pool s (pfx_addr ipr)) by (split; [apply Hi|done]).
  destruct (keyOf_spec s _ Hp Hin) as (_&Hk&Hkf&Hkv&_). fold k in Hk, Hkf, Hkv.
  pose proof (bitsPerBitmap_range s Hp) as (Hbb&_&Hkl&_).
  pose proof (ordOf_range s (pfx_addr ipr) Hp) as Ho.
  assert (Hh : host_bits k = bitsPerBitmap s) by (unfold host_bits, keyLen in *; rewrite Hkf; simpl; unfold keyLen; lia).
  rewrite <- Hh in *.
  apply SubnetRange_val; try done; try (simpl; lia); [congruence|].
  unfold first_val, last_val in *. lia.
Qed.

Lemma range_in_pool s ipr b :
  prefix_ok (as_pool s) -> range_ok s ipr -> addr_ok b -> Contains ipr b = true -> in_pool s b.
Proof.
  intros Hp Hr Hb Hc. pose proof (range_family s ipr Hp Hr) as Hf. destruct Hr as (Hi&Hpc&Hle).
  split; [done|]. apply Contains_spec in Hc as [E Hc]; [|done|done].
  apply Contains_spec; [done|done|]. split; [fold (poolLen s); congruence|].
  apply Contains_spec in Hpc as [_ Hpc]; [|done|apply Hi].
  destruct Hp as (Hpa&Hpb&Hpm), Hi as (_&Hib&Him). unfold poolLen, first_val, last_val, host_bits in *.
  rewrite Hf in *. set (L := BitLen (pfx_addr (as_pool s))) in *.
  set (kp := L - pfx_bits (as_pool s)) in *. set (ki := L - pfx_bits ipr) in *.
  assert (Hd : (2 ^ ki | 2 ^ kp)).
  { exists (2 ^ (kp - ki)). rewrite <- Z.pow_add_r by (unfold kp, ki; lia). f_equal. lia. }
  pose proof (Z.pow_pos_nonneg 2 ki ltac:(lia) ltac:(unfold ki; lia)).
  pose proof (mod_pow_le _ ki kp ltac:(unfold kp, ki; lia) Hpm) as Hpm'.
  apply Z.mod_divide in Hpm' as [c1 H1]; [|lia]. apply Z.mod_divide in Him as [c2 H2]; [|lia].
  destruct Hd as [c3 H3]. rewrite H1, H2, H3 in *. assert (c2 < c1 + c3) by nia. nia.
Qed.

(** The ordinals that a search within a range looks at: an interval of the vector, and what
    the search returns. *)
Definition searched s ipr serial bm (lo hi : Z) : Prop :=
  let k := keyOf s (pfx_addr ipr) in
  0 <= lo <= hi /\ hi < os_bits bm
  /\ first_val ipr = first_val k + lo /\ first_val k + hi <= last_val ipr
  /\ (first_val k + hi = last_val ipr
      \/ first_val k + hi = first_val ipr + 2 ^ bitsPerBitmap s - 1 /\ pfx_bits ipr <= keyLen s)
  /\ let '(bm', r, err) :=
       if pfx_bits ipr <=? keyLen s then os_set_any bm serial
       else let '(start, end_) := SubnetRange k ipr in os_set_any_in_range bm start end_ serial in
     match err with
     | None => os_valid bm' /\ os_bits bm' = os_bits bm /\ lo <= r <= hi
         /\ (exists curr, next_ordinal (os_mem bm) lo curr hi r /\ (serial = false -> curr = 0))
         /\ (forall i, 0 <= i -> os_mem bm' i = update (os_mem bm) r true i)
     | Some e => e = ErrNoBitAvailable /\ bm' = bm /\ forall i, lo <= i <= hi -> os_mem bm i = true
     end.

Lemma range_searched s ipr serial bm :
  prefix_ok (as_pool s) -> range_ok s ipr -> os_valid bm -> os_bits bm = 2 ^ bitsPerBitmap s ->
  exists lo hi, searched s ipr serial bm lo hi.
Proof.
  intros Hp Hr Hbm Hbits. pose proof (bitsPerBitmap_range s Hp) as (Hbb&_). pose proof (pow2_63 _ Hbb) as H63.
  unfold searched. set (k := keyOf s (pfx_addr ipr)).
  destruct (Z.leb_spec (pfx_bits ipr) (keyLen s)) as [Hw|Hn].
  - destruct (range_wide s ipr Hp Hr Hw) as [Hfk Hlast]. fold k in Hfk.
    exists 0, (os_bits bm - 1). rewrite Hbits. split_and!; try lia.
    pose proof (os_set_any_law bm serial Hbm) as Hlaw.
    destruct (os_set_any bm serial) as [[bm' r] [e|]].
    + destruct Hlaw as (->&->&Hall). split_and!; try done. intros i Hii. apply Hall. lia.
    + destruct Hlaw as (?&?&?&?&?). rewrite Hbits in *. split_and!; try done; lia.
  - destruct (range_narrow s ipr Hp Hr Hn) as (Hsr&Hlo&Hhi). fold k in Hsr, Hlo, Hhi.
    rewrite Hsr. exists (first_val ipr - first_val k), (last_val ipr - first_val k).
    split_and!; try lia.
    pose proof (os_set_any_in_range_law bm (first_val ipr - first_val k) (last_val ipr - first_val k)
      serial Hbm) as Hlaw. apply Hlaw; lia.
Qed.

Lemma AddAnyInRange_effect s ipr serial :
  valid s -> range_ok s ipr ->
  let '(s', res) := AddAnyInRange s ipr serial in
  valid s' /\ as_pool s' = as_pool s /\
  match res with
  | GoOk a => in_pool s a /\ Contains ipr a = true /\ mem s a = false /\ set_addr s s' a true
      /\ (serial = false -> forall b, addr_ok b -> Contains ipr b = true ->
            addr_val b < addr_val a -> mem s b = true)
  | GoErr e => e = ErrNotAvailable /\ (forall b, mem s' b = mem s b)
      /\ forall b, addr_ok b -> Contains ipr b = true ->
            addr_val b < first_val ipr + 2 ^ 63 -> mem s b = true
  | GoPanic => False
  end.
Proof.
  intros Hv Hr. pose proof (va_pool s Hv) as Hp. pose proof (range_family s ipr Hp Hr) as Hfam.
  pose proof Hr as (Hi&Hc&Hle). pose proof (bitsPerBitmap_range s Hp) as (Hbb&Hbh&Hkl&Hpk&_).
  pose proof (pow2_63 _ Hbb) as H63.
  assert (Hin : in_pool s (pfx_addr ipr)) by (split; [apply Hi|done]).
  unfold AddAnyInRange. rewrite Hc, Masked_id by done.
  destruct (Z.ltb_spec (pfx_bits ipr) (pfx_bits (as_pool s))); [lia|]. simpl.
  destruct (getBitmap_spec s _ Hv Hin) as (s1&bm&->&Hv1&Hp1&He1&Hl1&Hm1).
  destruct (same_pool s s1 Hp1) as (Eb&El&Ek&Eko&Eoo&Ein).
  set (k := keyOf s (pfx_addr ipr)) in *. pose proof (eo_bits _ _ _ He1) as Hbits. rewrite Eb in Hbits.
  destruct (range_searched s ipr serial bm Hp Hr (eo_valid _ _ _ He1) Hbits)
    as (lo&hi&Hlohi&Hhi&Hlo&Hlast&Hfull&Hsearch). fold k in Hlo, Hlast, Hfull, Hsearch.
  simpl in Hsearch |- *. set (res := if pfx_bits ipr <=? keyLen s then _ else _) in *. clearbody res.
  destruct res as [[bm' r] [e|]].
  - destruct Hsearch as (->&->&Hall). rewrite store_same by done. split_and!; try done.
    intros b Hb Hbc Hlt. rewrite <- Hm1.
    assert (Hbin : in_pool s b) by (by eapply range_in_pool).
    apply Contains_spec in Hbc as [_ Hbc]; [|done|done].
    apply (all_mem s1 (pfx_addr ipr) bm lo (hi + 1)); rewrite ?Eko; try done; try lia.
    + by apply Ein.
    + intros i Hii. apply Hall. lia.
    + rewrite Eb. lia.
    + by apply Ein.
    + fold k. destruct Hfull as [Hfull|[Hfull Hw]]; [lia|].
      destruct (Z.eq_dec (bitsPerBitmap s) 63) as [E63|E63]; [rewrite E63 in *; lia|].
      assert (bitsPerBitmap s = host_bits (as_pool s)) as E.
      { unfold bitsPerBitmap, maxBitsPerBitmap, host_bits in *.
        destruct (Z.ltb_spec 63 (BitLen (pfx_addr (as_pool s)) - pfx_bits (as_pool s))); lia. }
      assert (host_bits ipr = bitsPerBitmap s) as E2
        by (unfold host_bits, keyLen, poolLen in *; lia).
      unfold last_val, first_val in *. rewrite E2 in *. lia.
  - destruct Hsearch as (Hv'&Hb'&Hrr&(c&Hnext&Hser)&Hm').
    pose proof (next_ordinal_free _ _ _ _ _ Hnext) as Hfree.
    assert (Hr0 : 0 <= r < os_bits bm) by lia.
    destruct (any_effect s _ s1 bm bm' r Hv Hin Hv1 Hp1 Hl1 He1 Hm1 Hv' Hb' Hr0 Hfree Hm')
      as (H1&H2&H3&H4&H5). fold k in H1, H2, H3, H4, H5.
    change (mask_addr (pfx_addr ipr) (keyLen s)) with (pfx_addr k).
    split_and!; try done.
    + apply Contains_spec; [done|apply H2|].
      rewrite (in_pool_family s _ Hp H2), H5. split; [done|lia].
    + intros Hs b Hb Hbc Hlt. rewrite (Hser Hs) in Hnext.
      apply next_ordinal_lowest in Hnext as (_&_&Hset); [|lia]. rewrite <- Hm1.
      assert (Hbin : in_pool s b) by (by eapply range_in_pool).
      apply Contains_spec in Hbc as [_ Hbc]; [|done|done].
      apply (all_mem s1 (pfx_addr ipr) bm lo r); rewrite ?Eko; try done; try lia.
      * by apply Ein.
      * rewrite Eb. lia.
      * by apply Ein.
      * fold k. lia.
Qed.

(** ** Counting *)

(** The address of the pool's family with number [v]. *)
Definition addr_at s (v : Z) : Addr := with_val (pfx_addr (as_pool s)) v.

(** Members with a number of [[lo, hi)]. *)
Definition members s (lo hi : Z) : Z := count_in (fun v => mem s (addr_at s v)) lo hi.

(** The share of the vector of key [k]. *)
Definition share (P : Z) (k : Prefix) bm (lo hi : Z) : Z :=
  count_in (os_mem bm) (Z.max lo (first_val k) - first_val k) (Z.min hi (first_val k + P) - first_val k).

Lemma addr_at_in_pool s v :
  prefix_ok (as_pool s) -> first_val (as_pool s) <= v <= last_val (as_pool s) ->
  in_pool s (addr_at s v) /\ addr_val (addr_at s v) = v.
Proof.
  intros Hp Hv. pose proof (prefix_interval _ Hp) as Hi. pose proof Hp as ((Hval&_)&_).
  assert (E : addr_val (addr_at s v) = v) by (by apply with_val_val).
  assert (HL : BitLen (addr_at s v) = BitLen (pfx_addr (as_pool s))) by apply with_val_BitLen.
  assert (Hok : addr_ok (addr_at s v)).
  { split; [by rewrite <- Hval; apply with_val_valid|]. rewrite E, HL. lia. }
  split; [|done]. split; [done|]. apply Contains_spec; [done|done|]. rewrite HL, E. done.
Qed.

(** The addresses of an entry's vector are those of its block. *)
Lemma keyOf_at s k bm v :
  valid s -> entry_ok s k bm -> first_val (as_pool s) <= v <= last_val (as_pool s) ->
  (first_val k <= v < first_val k + 2 ^ bitsPerBitmap s ->
     keyOf s (addr_at s v) = k /\ ordOf s (addr_at s v) = v - first_val k)
  /\ (keyOf s (addr_at s v) = k -> first_val k <= v < first_val k + 2 ^ bitsPerBitmap s).
Proof.
  intros Hv He Hr. pose proof (va_pool s Hv) as Hp.
  destruct (addr_at_in_pool s v Hp Hr) as [Hin Hval]. split.
  - intros Hb. assert (Ho : 0 <= v - first_val k < 2 ^ bitsPerBitmap s) by lia.
    destruct (ordinal_addr s k bm _ Hv He Ho) as (Hin2&Hk&Hord&Hval2).
    replace (addr_at s v) with (IPBits.Add (pfx_addr k) (v - first_val k) 0); [done|].
    apply addr_eq; [apply Hin2| |lia].
    by rewrite (in_pool_family s _ Hp Hin), (in_pool_family s _ Hp Hin2).
  - intros E. destruct (keyOf_spec s _ Hp Hin) as (_&_&_&Hf&_). rewrite E, Hval in Hf.
    pose proof (ordOf_range s (addr_at s v) Hp). lia.
Qed.

(** One more vector adds its share. *)
Lemma members_insert s k bm lo hi :
  let s' := mkAddrSet (as_pool s) (<[k := bm]> (as_bitmaps s)) in
  valid s' -> as_bitmaps s !! k = None ->
  first_val (as_pool s) <= lo -> hi <= last_val (as_pool s) + 1 ->
  members s' lo hi = share (2 ^ bitsPerBitmap s) k bm lo hi + members s lo hi.
Proof.
  intros s' Hv Hnone Hlo Hhi.
  assert (He : entry_ok s' k bm) by (apply Hv; simpl; apply lookup_insert_eq).
  assert (Hat : forall v, lo <= v < hi ->
    mem s' (addr_at s v) = if decide (first_val k <= v < first_val k + 2 ^ bitsPerBitmap s)
                           then os_mem bm (v - first_val k) else mem s (addr_at s v)).
  { intros v Hr. destruct (keyOf_at s' k bm v Hv He ltac:(simpl; lia)) as [H1 H2].
    change (addr_at s' v) with (addr_at s v) in H1, H2.
    change (keyOf s') with (keyOf s) in H1, H2. change (ordOf s') with (ordOf s) in H1.
    change (bitsPerBitmap s') with (bitsPerBitmap s) in H1, H2.
    unfold mem. change (keyOf s') with (keyOf s). change (ordOf s') with (ordOf s). simpl.
    case_decide as Hd; [destruct (H1 Hd) as [-> ->]; by rewrite lookup_insert_eq|].
    rewrite lookup_insert_ne; [done|]. intros E. apply Hd, H2. done. }
  assert (Hout : forall v, lo <= v < hi -> first_val k <= v < first_val k + 2 ^ bitsPerBitmap s ->
    mem s (addr_at s v) = false).
  { intros v Hr Hb. destruct (keyOf_at s' k bm v Hv He ltac:(simpl; lia)) as [H1 _].
    destruct (H1 Hb) as [Ek _]. change (keyOf s' (addr_at s' v)) with (keyOf s (addr_at s v)) in Ek.
    unfold mem. by rewrite Ek, Hnone. }
  unfold members, share. change (addr_at s') with (addr_at s).
  set (fk := first_val k) in *. set (P := 2 ^ bitsPerBitmap s) in *.
  destruct (Z.le_gt_cases (Z.min hi (fk + P)) (Z.max lo fk)) as [Hd|Hd].
  - rewrite (count_in_empty (os_mem bm)) by lia. apply count_in_ext. intros i Hi.
    rewrite Hat by done. case_decide; [lia|done].
  - set (x := Z.max lo fk) in *. set (y := Z.min hi (fk + P)) in *.
    assert (Hxy : lo <= x /\ y <= hi) by (unfold x, y; lia).
    rewrite !(count_in_split _ lo x hi), !(count_in_split _ x y hi) by lia.
    rewrite (count_in_ext (fun v => mem s' _) (fun v => mem s (addr_at s v)) lo x),
      (count_in_ext (fun v => mem s' _) (fun v => mem s (addr_at s v)) y hi).
    2,3: intros i Hi; rewrite Hat by lia; case_decide; [lia|done].
    rewrite (count_in_false (fun v => mem s (addr_at s v)) x y) by (intros; apply Hout; lia).
    rewrite (count_in_ext (fun v => mem s' _) (fun v => os_mem bm (v + - fk)) x y).
    2: intros i Hi; rewrite Hat by lia; case_decide; [f_equal; lia|lia].
    rewrite count_in_shift. replace (x + - fk) with (x - fk) by lia. replace (y + - fk) with (y - fk) by lia. lia.
Qed.

(** The members of an interval are the shares of the vectors. *)
Lemma members_shares s lo hi :
  valid s -> first_val (as_pool s) <= lo -> hi <= last_val (as_pool s) + 1 ->
  members s lo hi
  = map_fold (fun k bm acc => share (2 ^ bitsPerBitmap s) k bm lo hi + acc) 0 (as_bitmaps s).
Proof.
  destruct s as [pool m]. intros Hv Hlo Hhi. set (P := 2 ^ bitsPerBitmap _).
  change P with (2 ^ bitsPerBitmap (mkAddrSet pool (∅ : gmap Prefix B))). clear P.
  simpl in Hlo, Hhi |- *. revert Hv.
  induction m as [|k bm m Hk IH] using map_ind; intros Hv.
  - rewrite map_fold_empty. by apply count_in_false.
  - rewrite map_fold_insert_L; [|intros; lia|done]. rewrite <- IH.
    + by apply (members_insert (mkAddrSet pool m)).
    + constructor; [apply Hv|]. intros k' bm' Hl. simpl in Hl.
      apply (entry_same_pool (mkAddrSet pool (<[k := bm]> m))); [done|]. apply (va_entries _ Hv). simpl.
      rewrite lookup_insert_ne; [done|]. intros ->. congruence.
Qed.

(** The two-word sum is the sum modulo [2^128]. *)
Lemma addCount_sum (L : list (Prefix * B)) (f g : Prefix -> B -> Z) :
  Forall (fun e => f e.1 e.2 = g e.1 e.2 /\ is_u64 (g e.1 e.2)) L ->
  let '(h, l) := foldr (uncurry (fun k bm acc => addCount (f k bm) acc)) (0, 0) L in
  is_u64 h /\ is_u64 l
  /\ h * 2 ^ 64 + l = foldr (uncurry (fun k bm acc => g k bm + acc)) 0 L mod 2 ^ 128.
Proof.
  induction 1 as [|[k bm] L [E Hg] _ IH]; simpl; [by vm_compute|].
  destruct (foldr _ (0, 0) L) as [h l]. destruct IH as (Hh&Hl&IH). simpl in *. rewrite E.
  rewrite Zplus_mod, <- IH. revert Hg Hh Hl. clear. generalize (g k bm).
  unfold is_u64, add64, wrap64. intros. split_and!; dlia.
Qed.

Lemma used_count s k bm :
  entry_ok s k bm -> sub64 (os_bits bm) (os_unselected bm) = count_in (os_mem bm) 0 (os_bits bm).
Proof.
  intros He. pose proof (os_bits_range bm (eo_valid _ _ _ He)) as Hb.
  assert (Hc : 0 <= count_in (os_mem bm) 0 (os_bits bm) <= os_bits bm - 0)
    by (apply count_in_bounds; lia).
  rewrite os_unselected_count by apply He. rewrite sub64_small by lia. lia.
Qed.

Lemma share_u64 s k bm lo hi :
  prefix_ok (as_pool s) -> is_u64 (share (2 ^ bitsPerBitmap s) k bm lo hi).
Proof.
  intros Hp. pose proof (bitsPerBitmap_range s Hp) as (Hb&_). pose proof (pow2_63 _ Hb).
  unfold share. set (x := Z.max _ _ - _). set (y := Z.min _ _ - _).
  destruct (Z.le_gt_cases y x); [rewrite count_in_empty by lia; unfold is_u64; lia|].
  pose proof (count_in_bounds (os_mem bm) x y ltac:(lia)). unfold is_u64, x, y in *. lia.
Qed.

(** A block inside the interval contributes all its members. *)
Lemma share_whole s k bm lo hi :
  entry_ok s k bm -> lo <= first_val k -> first_val k + 2 ^ bitsPerBitmap s <= hi ->
  share (2 ^ bitsPerBitmap s) k bm lo hi = count_in (os_mem bm) 0 (os_bits bm).
Proof.
  intros He Hlo Hhi. unfold share. rewrite (eo_bits _ _ _ He). f_equal; lia.
Qed.

(** Blocks lie in the pool. *)
Lemma entry_in_pool s k bm :
  valid s -> entry_ok s k bm ->
  first_val (as_pool s) <= first_val k
  /\ first_val k + 2 ^ bitsPerBitmap s <= last_val (as_pool s) + 1
  /\ last_val k = first_val k + 2 ^ bitsPerBitmap s - 1.
Proof.
  intros Hv He. pose proof (va_pool s Hv) as Hp.
  pose proof (bitsPerBitmap_range s Hp) as (Hb&_). pose proof (pow2_63 _ Hb) as H63.
  destruct (ordinal_addr s k bm (2 ^ bitsPerBitmap s - 1) Hv He ltac:(lia)) as ([Ha Hc]&_&_&E).
  apply Contains_spec in Hc as [_ Hc]; [|done|done]. rewrite E in Hc.
  pose proof (eo_pool _ _ _ He) as Hkp. apply Contains_spec in Hkp as [_ Hkp]; [|done|apply He].
  split_and!; [apply Hkp|lia|]. unfold last_val, first_val, host_bits.
  rewrite (eo_family _ _ _ He), (eo_keyLen _ _ _ He). unfold keyLen.
  replace (poolLen s - (poolLen s - bitsPerBitmap s)) with (bitsPerBitmap s) by lia. done.
Qed.

Lemma Len_spec s :
  valid s ->
  let '(h, l) := Len s in
  is_u64 h /\ is_u64 l
  /\ h * 2 ^ 64 + l = members s (first_val (as_pool s)) (last_val (as_pool s) + 1) mod 2 ^ 128.
Proof.
  intros Hv. pose proof (va_pool s Hv) as Hp.
  rewrite (members_shares s) by (done || lia). unfold Len. rewrite !map_fold_foldr.
  apply (addCount_sum _ (fun _ bm => sub64 (os_bits bm) (os_unselected bm))
    (fun k bm => share (2 ^ bitsPerBitmap s) k bm (first_val (as_pool s)) (last_val (as_pool s) + 1))).
  apply Forall_forall. intros [k bm] Hin%list_elem_of_In%elem_of_map_to_list. simpl.
  pose proof (va_entries s Hv _ _ Hin) as He. destruct (entry_in_pool s k bm Hv He) as (?&?&_).
  split; [|by apply share_u64]. rewrite (used_count s k bm He). symmetry. apply (share_whole s); done || lia.
Qed.

(** The share of a vector as [AddrsInPrefix] computes it. *)
Definition prefix_share (prefix k : Prefix) bm : Z :=
  if negb (Overlaps prefix k) then 0
  else if pfx_bits prefix <=? pfx_bits k then sub64 (os_bits bm) (os_unselected bm)
  else let '(start, end_) := SubnetRange k prefix in
       match os_ones_count bm start end_ with GoOk n => n | _ => 0 end.

(** Adding nothing. *)
Lemma addCount_0 h l : is_u64 h -> is_u64 l -> addCount 0 (h, l) = (h, l).
Proof. unfold is_u64, addCount, Add64, add64, wrap64. intros. f_equal; dlia. Qed.

Lemma prefix_share_spec s prefix k bm :
  valid s -> prefix_ok prefix -> entry_ok s k bm ->
  BitLen (pfx_addr prefix) = poolLen s -> Overlaps (as_pool s) prefix = true ->
  prefix_share prefix k bm
    = share (2 ^ bitsPerBitmap s) k bm (first_val prefix) (last_val prefix + 1)
  /\ (Overlaps prefix k = true -> pfx_bits k < pfx_bits prefix ->
        let '(start, end_) := SubnetRange k prefix in
        os_ones_count bm start end_ = GoOk (prefix_share prefix k bm)).
Proof.
  intros Hv Hpr He HL Hov. pose proof (va_pool s Hv) as Hp.
  destruct (entry_in_pool s k bm Hv He) as (Hk1&Hk2&Hk3). pose proof (eo_key _ _ _ He) as Hk.
  pose proof (bitsPerBitmap_range s Hp) as (Hb&_). pose proof (pow2_63 _ Hb) as H63.
  pose proof (prefix_interval _ Hpr) as Hpi. unfold prefix_share.
  destruct (Overlaps prefix k) eqn:Ho; cbn [negb]; cbv iota.
  2: { split; [|done]. symmetry. apply count_in_empty.
       assert (~ (first_val prefix <= last_val k /\ first_val k <= last_val prefix)).
       { intros Hc. assert (Overlaps prefix k = true); [|congruence].
         apply Overlaps_spec; [done|done|]. by rewrite HL, (eo_family _ _ _ He). }
       lia. }
  destruct (Z.leb_spec (pfx_bits prefix) (pfx_bits k)) as [Hle|Hlt].
  - split; [|lia]. rewrite (used_count s k bm He). symmetry.
    destruct (prefix_nested prefix k) as [? ?]; try done. apply (share_whole s); done || lia.
  - assert (Ho' : Overlaps k prefix = true).
    { apply Overlaps_spec in Ho as (?&?&?); [|done|done]. apply Overlaps_spec; [done|done|]. lia. }
    destruct (prefix_nested k prefix) as [? ?]; try done; [lia|].
    assert (Hhk : host_bits k = bitsPerBitmap s).
    { unfold host_bits. rewrite (eo_family _ _ _ He), (eo_keyLen _ _ _ He). unfold keyLen. lia. }
    destruct (SubnetRange_val k prefix) as (->&Hs1&Hs2);
      [done|done|by rewrite HL, (eo_family _ _ _ He)|lia|lia|lia|].
    rewrite os_ones_count_law; [|apply He|lia|rewrite (eo_bits _ _ _ He), <- Hhk; lia].
    split; [|done]. unfold share. f_equal; lia.
Qed.

Lemma AddrsInPrefix_fold s prefix L acc :
  valid s -> prefix_ok prefix -> BitLen (pfx_addr prefix) = poolLen s ->
  Overlaps (as_pool s) prefix = true ->
  (forall k bm, In (k, bm) L -> entry_ok s k bm) ->
  foldr (uncurry (fun bmKey bm acc =>
      match acc with
      | GoOk acc =>
          if negb (Overlaps prefix bmKey) then GoOk acc
          else if pfx_bits prefix <=? pfx_bits bmKey
          then GoOk (addCount (sub64 (os_bits bm) (os_unselected bm)) acc)
          else
            let '(start, end_) := SubnetRange bmKey prefix in
            match os_ones_count bm start end_ with
            | GoOk ones => GoOk (addCount ones acc)
            | _ => GoPanic
            end
      | r => r
      end)) (GoOk (0, 0)) L = acc ->
  acc = @GoOk AddrErr _ (foldr (uncurry (fun k bm acc => addCount (prefix_share prefix k bm) acc)) (0, 0) L).
Proof.
  intros Hv Hpr HL Hov Hall <-. assert (Hsh := fun k bm H => prefix_share_spec s prefix k bm Hv Hpr (Hall k bm H) HL Hov).
  clear Hall. induction L as [|[k bm] L IH]; [done|]. cbn [foldr uncurry].
  rewrite IH by (intros; apply Hsh; by right). destruct (Hsh k bm (or_introl eq_refl)) as [Heq Hcnt].
  pose proof (addCount_sum L (prefix_share prefix)
    (fun k bm => share (2 ^ bitsPerBitmap s) k bm (first_val prefix) (last_val prefix + 1))) as Hsum.
  destruct (foldr (uncurry (fun k bm acc => addCount (prefix_share prefix k bm) acc)) (0, 0) L) as [h l].
  destruct Hsum as (Hh&Hl&_).
  { apply Forall_forall. intros [k' bm'] Hin. simpl. split; [by apply Hsh; right|].
    apply share_u64, Hv. }
  unfold prefix_share at 1. destruct (Overlaps prefix k) eqn:Ho; simpl negb; cbv iota; [|by rewrite addCount_0].
  destruct (Z.leb_spec (pfx_bits prefix) (pfx_bits k)) as [Hle|Hlt]; [done|].
  specialize (Hcnt eq_refl Hlt). destruct (SubnetRange k prefix) as [st en].
  rewrite Hcnt. done.
Qed.

Lemma AddrsInPrefix_spec s prefix :
  valid s -> prefix_ok prefix -> BitLen (pfx_addr prefix) = poolLen s ->
  exists h l, AddrsInPrefix s prefix = GoOk (h, l) /\ is_u64 h /\ is_u64 l
  /\ h * 2 ^ 64 + l =
     members s (Z.max (first_val prefix) (first_val (as_pool s)))
               (Z.min (last_val prefix) (last_val (as_pool s)) + 1) mod 2 ^ 128.
Proof.
  intros Hv Hpr HL. pose proof (va_pool s Hv) as Hp. unfold AddrsInPrefix. rewrite Masked_id by done.
  destruct (Overlaps (as_pool s) prefix) eqn:Ho; simpl negb; cbv iota.
  2: { exists 0, 0. split_and!; try (unfold is_u64; lia); [done|]. unfold members.
       rewrite count_in_empty; [done|].
       assert (~ (first_val (as_pool s) <= last_val prefix /\ first_val prefix <= last_val (as_pool s))); [|lia].
       intros Hc. assert (Overlaps (as_pool s) prefix = true); [|congruence].
       apply Overlaps_spec; [done|done|]. done. }
  assert (Ho' : Overlaps prefix (as_pool s) = true).
  { apply Overlaps_spec in Ho as (?&?&?); [|done|done]. apply Overlaps_spec; [done|done|]. lia. }
  destruct (Z.leb_spec (pfx_bits prefix) (pfx_bits (as_pool s))) as [Hle|Hlt].
  - destruct (prefix_nested prefix (as_pool s)) as [? ?]; try done.
    pose proof (Len_spec s Hv) as Hlen. destruct (Len s) as [h l]. destruct Hlen as (?&?&Hlen).
    exists h, l. split_and!; try done. rewrite Hlen. do 2 f_equal; lia.
  - destruct (prefix_nested (as_pool s) prefix) as [? ?]; try done; [lia|].
    rewrite Z.max_l, Z.min_l, members_shares by (done || lia). rewrite !map_fold_foldr.
    assert (Hall : forall k bm, In (k, bm) (map_to_list (as_bitmaps s)) -> entry_ok s k bm).
    { intros k bm Hin%list_elem_of_In%elem_of_map_to_list. by apply Hv. }
    rewrite (AddrsInPrefix_fold s prefix _ _ Hv Hpr HL Ho Hall eq_refl).
    pose proof (addCount_sum (map_to_list (as_bitmaps s)) (prefix_share prefix)
      (fun k bm => share (2 ^ bitsPerBitmap s) k bm (first_val prefix) (last_val prefix + 1))) as Hsum.
    destruct (foldr (uncurry (fun k bm acc => addCount (prefix_share prefix k bm) acc)) (0, 0) _) as [h l].
    exists h, l. split; [done|]. apply Hsum. apply Forall_forall. intros [k bm] Hin. simpl.
    split; [|by apply share_u64]. apply prefix_share_spec; try done. by apply Hall.
Qed.
End Spec.
