(* ===== verification/AddrSetTheorems.v ===== *)
(** * Theorems about the address sets

    [AddrSet] refines a finite set of addresses: every operation of
    [daemon/libnetwork/internal/addrset] is a step of the specification
    [spec_step] on a [gset Addr], on every branch, errors included. *)

From S2P Require Import Prelude Bitmap OrdinalSet BitmapSpec Uint128 NetIP IPBits NetIPUtil AddrSet AddrSetSpec.

(** ** The operations and the abstract specification *)

Inductive set_op :=
| OpAdd (a : Addr)
| OpAddAny (serial : bool)
| OpAddAnyInRange (ipr : Prefix) (serial : bool)
| OpRemove (a : Addr).

(** [GoOk (Some a)]: the operation returned the address [a]. *)
Definition outcome := go_result AddrErr (option Addr).

Definition plain (err : option AddrErr) : outcome :=
  match err with None => GoOk None | Some e => GoErr e end.

Definition returned (r : go_result AddrErr Addr) : outcome :=
  match r with GoOk a => GoOk (Some a) | GoErr e => GoErr e | GoPanic => GoPanic end.

Definition do_op (s : AddrSet Bitmap) (op : set_op) : AddrSet Bitmap * outcome :=
  match op with
  | OpAdd a => let '(s', err) := Add s a in (s', plain err)
  | OpAddAny serial => let '(s', r) := AddAny s serial in (s', returned r)
  | OpAddAnyInRange ipr serial => let '(s', r) := AddAnyInRange s ipr serial in (s', returned r)
  | OpRemove a => let '(s', err) := Remove s a in (s', plain err)
  end.

Fixpoint run (s : AddrSet Bitmap) (ops : list set_op) : AddrSet Bitmap * list outcome :=
  match ops with
  | [] => (s, [])
  | op :: ops =>
      let '(s1, r) := do_op s op in
      let '(s2, rs) := run s1 ops in
      (s2, r :: rs)
  end.

(** Arguments the callers may pass: valid addresses, masked prefixes. *)
Definition op_ok (op : set_op) : Prop :=
  match op with
  | OpAdd a | OpRemove a => addr_ok a
  | OpAddAny _ => True
  | OpAddAnyInRange ipr _ => prefix_ok ipr
  end.

(** Every address of the searched window is taken; a window is never longer
    than one vector, [2^63] addresses. *)
Definition window_full (ipr : Prefix) (X : gset Addr) : Prop :=
  forall b, addr_ok b -> Contains ipr b = true -> addr_val b < first_val ipr + 2 ^ 63 -> b ∈ X.

(** Every lower address of the prefix is taken. *)
Definition lowest_free (ipr : Prefix) (X : gset Addr) (a : Addr) : Prop :=
  forall b, addr_ok b -> Contains ipr b = true -> addr_val b < addr_val a -> b ∈ X.

Inductive spec_step (pool : Prefix) (X : gset Addr) : set_op -> outcome -> gset Addr -> Prop :=
| SpecAddOutside a : Contains pool a = false -> spec_step pool X (OpAdd a) (GoErr ErrNotInPool) X
| SpecAddTaken a : Contains pool a = true -> a ∈ X -> spec_step pool X (OpAdd a) (GoErr ErrAllocated) X
| SpecAdd a : Contains pool a = true -> a ∉ X -> spec_step pool X (OpAdd a) (GoOk None) ({[a]} ∪ X)
| SpecRemoveOutside a :
    Contains pool a = false -> spec_step pool X (OpRemove a) (GoErr ErrNotInPool) X
| SpecRemove a : Contains pool a = true -> spec_step pool X (OpRemove a) (GoOk None) (X ∖ {[a]})
| SpecAny serial a :
    Contains pool a = true -> a ∉ X -> (serial = false -> lowest_free pool X a) ->
    spec_step pool X (OpAddAny serial) (GoOk (Some a)) ({[a]} ∪ X)
| SpecAnyFull serial :
    window_full pool X -> spec_step pool X (OpAddAny serial) (GoErr ErrNotAvailable) X
| SpecRangeOutside ipr serial :
    Contains pool (pfx_addr ipr) = false \/ pfx_bits ipr < pfx_bits pool ->
    spec_step pool X (OpAddAnyInRange ipr serial) (GoErr ErrNotInSubnet) X
| SpecRange ipr serial a :
    Contains pool a = true -> Contains ipr a = true -> a ∉ X ->
    (serial = false -> lowest_free ipr X a) ->
    spec_step pool X (OpAddAnyInRange ipr serial) (GoOk (Some a)) ({[a]} ∪ X)
| SpecRangeFull ipr serial :
    window_full ipr X -> spec_step pool X (OpAddAnyInRange ipr serial) (GoErr ErrNotAvailable) X.

Inductive spec_run (pool : Prefix) : gset Addr -> list set_op -> list outcome -> gset Addr -> Prop :=
| SpecNil X : spec_run pool X [] [] X
| SpecCons X X1 X2 op r ops rs :
    spec_step pool X op r X1 -> spec_run pool X1 ops rs X2 -> spec_run pool X (op :: ops) (r :: rs) X2.

(** The state [s] holds the addresses [X]. *)
Record repr (s : AddrSet Bitmap) (X : gset Addr) : Prop := {
  re_valid : valid s;
  re_pool : forall a, a ∈ X -> in_pool s a;
  re_mem : forall a, in_pool s a -> mem s a = bool_decide (a ∈ X)
}.

(** ** Simulation *)

Lemma repr_mem s X a : repr s X -> in_pool s a -> mem s a = true <-> a ∈ X.
Proof. intros HR Ha. rewrite (re_mem s X HR a Ha). apply bool_decide_eq_true. Qed.

Lemma repr_free s X a : repr s X -> in_pool s a -> mem s a = false <-> a ∉ X.
Proof. intros HR Ha. rewrite (re_mem s X HR a Ha). apply bool_decide_eq_false. Qed.

Lemma repr_same s s' X :
  repr s X -> valid s' -> as_pool s' = as_pool s -> (forall b, mem s' b = mem s b) -> repr s' X.
Proof.
  intros HR Hv Hp Hm. destruct (same_pool s s' Hp) as (_&_&_&_&_&Ein).
  constructor; [done| |].
  - intros a Ha. apply Ein. by apply (re_pool s X HR).
  - intros a Ha. rewrite Hm. apply (re_mem s X HR). by apply Ein.
Qed.

Lemma repr_set s s' X a (v : bool) :
  repr s X -> valid s' -> as_pool s' = as_pool s -> in_pool s a -> set_addr s s' a v ->
  repr s' (if v then {[a]} ∪ X else X ∖ {[a]}).
Proof.
  intros HR Hv Hp Ha Hset. destruct (same_pool s s' Hp) as (_&_&_&_&_&Ein).
  constructor; [done| |].
  - intros b Hb. apply Ein. destruct (decide (b = a)) as [->|Hne]; [done|].
    apply (re_pool s X HR). clear - Hb Hne. destruct v; set_solver.
  - intros b Hb%Ein. rewrite (Hset b Hb). case_decide as E.
    + subst b. symmetry. clear. destruct v; [apply bool_decide_eq_true|apply bool_decide_eq_false]; set_solver.
    + rewrite (re_mem s X HR b Hb). apply bool_decide_ext. clear - E. destruct v; set_solver.
Qed.

Lemma Add_sim s X a :
  repr s X -> addr_ok a ->
  let '(s', r) := do_op s (OpAdd a) in
  exists X', spec_step (as_pool s) X (OpAdd a) r X' /\ repr s' X' /\ as_pool s' = as_pool s.
Proof.
  intros HR Ha. pose proof (Add_effect s a (re_valid s X HR) Ha) as H. simpl.
  destruct (Add s a) as [s' err]. destruct H as (Hv&Hp&H1&H2&H3).
  destruct (Contains (as_pool s) a) eqn:Hc.
  - destruct (mem s a) eqn:Hm.
    + destruct (H2 eq_refl eq_refl) as [-> Hs]. exists X. split_and!; [|by eapply repr_same|done].
      apply SpecAddTaken; [done|]. by apply (repr_mem s X).
    + destruct (H3 eq_refl eq_refl) as [-> Hs]. exists ({[a]} ∪ X).
      split_and!; [|by apply (repr_set s s' X a true)|done].
      apply SpecAdd; [done|]. by apply (repr_free s X).
  - destruct (H1 eq_refl) as [-> ->]. exists X. split_and!; [by apply SpecAddOutside|done|done].
Qed.

Lemma Remove_sim s X a :
  repr s X -> addr_ok a ->
  let '(s', r) := do_op s (OpRemove a) in
  exists X', spec_step (as_pool s) X (OpRemove a) r X' /\ repr s' X' /\ as_pool s' = as_pool s.
Proof.
  intros HR Ha. pose proof (Remove_effect s a (re_valid s X HR) Ha) as H. simpl.
  destruct (Remove s a) as [s' err]. destruct H as (Hv&Hp&H1&H2).
  destruct (Contains (as_pool s) a) eqn:Hc.
  - destruct (H2 eq_refl) as [-> Hs]. exists (X ∖ {[a]}).
    split_and!; [by apply SpecRemove|by apply (repr_set s s' X a false)|done].
  - destruct (H1 eq_refl) as [-> ->]. exists X. split_and!; [by apply SpecRemoveOutside|done|done].
Qed.

Lemma AddAny_sim s X serial :
  repr s X ->
  let '(s', r) := do_op s (OpAddAny serial) in
  exists X', spec_step (as_pool s) X (OpAddAny serial) r X' /\ repr s' X' /\ as_pool s' = as_pool s.
Proof.
  intros HR. pose proof (AddAny_effect s serial (re_valid s X HR)) as H. simpl.
  destruct (AddAny s serial) as [s' [a|e|]]; destruct H as (Hv&Hp&H); [| |done]; simpl.
  - destruct H as (Hin&Hfree&Hset&Hlow). exists ({[a]} ∪ X).
    split_and!; [|by apply (repr_set s s' X a true)|done]. apply SpecAny.
    + apply Hin.
    + by apply (repr_free s X).
    + intros Hs b Hb Hc Hlt. apply (repr_mem s X); [done|by split|]. by apply Hlow.
  - destruct H as (->&Hm&Hall). exists X. split_and!; [|by eapply repr_same|done].
    apply SpecAnyFull. intros b Hb Hc Hlt. apply (repr_mem s X); [done|by split|]. by apply Hall.
Qed.

Lemma AddAnyInRange_sim s X ipr serial :
  repr s X -> prefix_ok ipr ->
  let '(s', r) := do_op s (OpAddAnyInRange ipr serial) in
  exists X', spec_step (as_pool s) X (OpAddAnyInRange ipr serial) r X' /\ repr s' X'
             /\ as_pool s' = as_pool s.
Proof.
  intros HR Hi. pose proof (re_valid s X HR) as Hva. unfold do_op.
  destruct (Contains (as_pool s) (pfx_addr ipr)) eqn:Hc.
  2: { unfold AddAnyInRange. rewrite Hc. simpl. exists X.
       split_and!; [by apply SpecRangeOutside; left|done|done]. }
  destruct (Z.lt_ge_cases (pfx_bits ipr) (pfx_bits (as_pool s))) as [Hlt|Hle].
  { unfold AddAnyInRange. rewrite Hc. destruct (Z.ltb_spec (pfx_bits ipr) (pfx_bits (as_pool s))); [|lia].
    simpl. exists X. split_and!; [by apply SpecRangeOutside; right|done|done]. }
  assert (Hr : range_ok s ipr) by (by split_and!).
  pose proof (AddAnyInRange_effect s ipr serial Hva Hr) as H.
  assert (Hpool := fun b => range_in_pool s ipr b (va_pool s Hva) Hr).
  destruct (AddAnyInRange s ipr serial) as [s' [a|e|]]; destruct H as (Hv&Hp&H); [| |done]; cbn [returned].
  - destruct H as (Hin&Hca&Hfree&Hset&Hlow). exists ({[a]} ∪ X).
    split_and!; [|by apply (repr_set s s' X a true)|done]. apply SpecRange.
    + apply Hin.
    + done.
    + by apply (repr_free s X).
    + intros Hs b Hb Hcb Hlt. apply (repr_mem s X); [done|by apply Hpool|]. by apply Hlow.
  - destruct H as (->&Hm&Hall). exists X. split_and!; [|by eapply repr_same|done].
    apply SpecRangeFull. intros b Hb Hcb Hlt. apply (repr_mem s X); [done|by apply Hpool|]. by apply Hall.
Qed.

Lemma op_sim s X op :
  repr s X -> op_ok op ->
  let '(s', r) := do_op s op in
  exists X', spec_step (as_pool s) X op r X' /\ repr s' X' /\ as_pool s' = as_pool s.
Proof.
  intros HR Hop. destruct op; [by apply Add_sim|by apply AddAny_sim|by apply AddAnyInRange_sim|by apply Remove_sim].
Qed.

Lemma run_sim ops s X :
  repr s X -> Forall op_ok ops ->
  let '(s', rs) := run s ops in
  exists X', spec_run (as_pool s) X ops rs X' /\ repr s' X' /\ as_pool s' = as_pool s.
Proof.
  intros HR Hops. revert s X HR. induction Hops as [|op ops Hop _ IH]; intros s X HR; cbn [run].
  - exists X. split_and!; [constructor|done|done].
  - pose proof (op_sim s X op HR Hop) as H. destruct (do_op s op) as [s1 r].
    destruct H as (X1&H1&HR1&Hp1). specialize (IH s1 X1 HR1). destruct (run s1 ops) as [s2 rs].
    destruct IH as (X2&H2&HR2&Hp2). rewrite Hp1 in H2, Hp2. exists X2. split_and!; [|done|done].
    by econstructor.
Qed.

Lemma New_repr pool : prefix_ok pool -> repr (New pool) ∅ /\ as_pool (New (B:=Bitmap) pool) = pool.
Proof.
  intros Hp. assert (E : as_pool (New (B:=Bitmap) pool) = pool) by (by apply Masked_id).
  split; [|done]. constructor.
  - constructor; [by rewrite E|done].
  - intros a Ha. set_solver.
  - intros a Ha. unfold mem, New. simpl. rewrite lookup_empty. done.
Qed.

(** C4: an address set refines the finite set of its addresses: for every pool and
    every sequence of operations, the results of the operations are those of a run of
    the specification on a set of addresses that starts empty, and the final state holds
    exactly the final set.  In particular no operation panics, an address is handed out
    only when it is free and in the pool and the requested range, and searches without
    [serial] hand out the lowest free address. *)
Theorem addrset_refines pool ops :
  prefix_ok pool -> Forall op_ok ops ->
  let '(s, rs) := run (New pool) ops in
  exists X, spec_run pool ∅ ops rs X /\ repr s X.
Proof.
  intros Hp Hops. destruct (New_repr pool Hp) as [HR E].
  pose proof (run_sim ops (New pool) ∅ HR Hops) as H. rewrite E in H.
  destruct (run (New pool) ops) as [s rs]. destruct H as (X&?&?&_). by exists X.
Qed.

Definition pool_ex : Prefix := mkPrefix (Addr4 (10 * 2 ^ 24)) 30.
Definition ops_ex : list set_op :=
  [OpAdd (Addr4 (10 * 2 ^ 24)); OpAddAny false; OpAddAny true; OpRemove (Addr4 (10 * 2 ^ 24 + 1));
   OpAddAnyInRange (mkPrefix (Addr4 (10 * 2 ^ 24)) 31) false; OpAdd (Addr4 0)].

Lemma pool_ex_ok : prefix_ok pool_ex.
Proof. by vm_compute. Qed.

Lemma ops_ex_ok : Forall op_ok ops_ex.
Proof. repeat constructor; by vm_compute. Qed.

Lemma addrset_refines_witness :
  exists X, spec_run pool_ex ∅ ops_ex
    [GoOk None; GoOk (Some (Addr4 (10 * 2 ^ 24 + 1))); GoOk (Some (Addr4 (10 * 2 ^ 24 + 2))); GoOk None;
     GoOk (Some (Addr4 (10 * 2 ^ 24 + 1))); GoErr ErrNotInPool] X.
Proof.
  pose proof (addrset_refines pool_ex ops_ex pool_ex_ok ops_ex_ok) as H. vm_compute in H |- *.
  destruct H as (X&H&_). by exists X.
Defined.

(** ** No address is handed out twice *)

(** The address an operation added. *)
Definition obtained (op : set_op) (r : outcome) : option Addr :=
  match op, r with
  | OpAdd a, GoOk _ => Some a
  | OpRemove _, _ => None
  | _, GoOk o => o
  | _, _ => None
  end.

Definition obtained_list (ops : list set_op) (rs : list outcome) : list Addr :=
  omap (fun '(op, r) => obtained op r) (zip ops rs).

Definition no_remove (op : set_op) : Prop :=
  match op with OpRemove _ => False | _ => True end.

Lemma spec_step_obtained pool X op r X' :
  spec_step pool X op r X' -> no_remove op ->
  match obtained op r with
  | Some a => Contains pool a = true /\ a ∉ X /\ X' = {[a]} ∪ X
  | None => X' = X
  end.
Proof. intros H Hn. destruct H; simpl in *; done. Qed.

Lemma spec_run_distinct pool X ops rs X' :
  spec_run pool X ops rs X' -> Forall no_remove ops ->
  NoDup (obtained_list ops rs) /\ (forall a, a ∈ obtained_list ops rs -> Contains pool a = true /\ a ∉ X)
  /\ X' = list_to_set (obtained_list ops rs) ∪ X.
Proof.
  induction 1 as [X|X X1 X2 op r ops rs Hs _ IH]; intros Hn.
  - split_and!; [constructor|by intros a ?%elem_of_nil|simpl; by rewrite union_empty_l_L].
  - inversion Hn as [|? ? Hop Hops]; subst. destruct (IH Hops) as (Hnd&Hall&->).
    pose proof (spec_step_obtained pool X op r X1 Hs Hop) as Ho.
    unfold obtained_list in *. cbn [zip zip_with omap list_omap]. destruct (obtained op r) as [a|].
    + destruct Ho as (Hc&Hfree&->). split_and!.
      * constructor; [|done]. intros Hin. destruct (Hall a Hin) as [_ Hx]. set_solver.
      * intros b [->|Hb]%elem_of_cons; [done|]. destruct (Hall b Hb) as [? Hx]. split; [done|set_solver].
      * simpl. clear. set_solver.
    + subst X1. split_and!; [done|done|done].
Qed.

(** as long as no address is released, the addresses that successful [Add],
    [AddAny] and [AddAnyInRange] calls obtain from a new set are pairwise distinct,
    all belong to the pool, and are exactly the addresses the set then holds. *)
Theorem addrset_no_duplicates pool ops :
  prefix_ok pool -> Forall op_ok ops -> Forall no_remove ops ->
  let '(s, rs) := run (New pool) ops in
  NoDup (obtained_list ops rs)
  /\ (forall a, a ∈ obtained_list ops rs -> Contains pool a = true)
  /\ (forall a, in_pool s a -> mem s a = true <-> a ∈ obtained_list ops rs).
Proof.
  intros Hp Hops Hn. destruct (New_repr pool Hp) as [HR E].
  pose proof (run_sim ops (New pool) ∅ HR Hops) as H. rewrite E in H.
  destruct (run (New pool) ops) as [s rs]. destruct H as (X&Hrun&HRs&_).
  destruct (spec_run_distinct pool ∅ ops rs X Hrun Hn) as (Hnd&Hall&->).
  split_and!; [done|intros a Ha; by apply Hall|]. intros a Ha.
  rewrite (repr_mem s _ a HRs Ha). set_solver.
Qed.

Lemma addrset_no_duplicates_witness :
  NoDup [Addr4 (10 * 2 ^ 24); Addr4 (10 * 2 ^ 24 + 1); Addr4 (10 * 2 ^ 24 + 2)].
Proof.
  pose proof (addrset_no_duplicates pool_ex (take 3 ops_ex) pool_ex_ok) as H.
  assert (H1 : Forall op_ok (take 3 ops_ex)) by (by apply Forall_take, ops_ex_ok).
  assert (H2 : Forall no_remove (take 3 ops_ex)) by (by repeat constructor).
  specialize (H H1 H2). vm_compute in H |- *. apply H.
Defined.

(** ** Counting *)

(** Members of an interval are the elements of the set in it. *)
Lemma members_size s X lo hi :
  repr s X -> first_val (as_pool s) <= lo -> hi <= last_val (as_pool s) + 1 ->
  members s lo hi = Z.of_nat (size (filter (fun a => lo <= addr_val a < hi) X)).
Proof.
  intros HR Hlo Hhi. pose proof (va_pool s (re_valid s X HR)) as Hp. revert lo Hlo. unfold members.
  apply (interval_ind (fun lo => first_val (as_pool s) <= lo ->
    count_in (fun v => mem s (addr_at s v)) lo hi
    = Z.of_nat (size (filter (fun a => lo <= addr_val a < hi) X))) hi).
  - intros lo Hge _. rewrite count_in_empty by lia.
    rewrite (proj2 (size_empty_iff _)); [done|]. intros a. rewrite elem_of_filter, elem_of_empty. lia.
  - intros lo Hlt IH Hlo. rewrite count_in_step, IH by lia.
    destruct (addr_at_in_pool s lo Hp ltac:(lia)) as [Hin Hval]. set (a := addr_at s lo) in *.
    assert (Huniq : forall b, b ∈ X -> addr_val b = lo -> b = a).
    { intros b Hb E. pose proof (re_pool s X HR b Hb) as Hbp.
      apply addr_eq; [apply Hbp| |lia]. by rewrite !(in_pool_family s). }
    rewrite (re_mem s X HR a Hin). case_bool_decide as Hx.
    + replace (filter (fun a => lo <= addr_val a < hi) X)
        with ({[a]} ∪ filter (fun a => lo + 1 <= addr_val a < hi) X).
      * rewrite size_union, size_singleton; [simpl; lia|].
        intros b. rewrite elem_of_singleton, elem_of_filter. intros -> [? _]. lia.
      * apply set_eq. intros b. rewrite elem_of_union, elem_of_singleton, !elem_of_filter.
        split; [intros [->|[? ?]]; split; (done || lia)|]. intros [Hr Hb].
        destruct (Z.eq_dec (addr_val b) lo) as [E|E]; [left; by apply Huniq|right; split; [lia|done]].
    + rewrite Z.add_0_l. do 2 f_equal. apply set_eq. intros b. rewrite !elem_of_filter. split; intros [Hr Hb]; split; try done; [lia|].
      assert (addr_val b <> lo); [|lia]. intros E. apply Hx. by rewrite <- (Huniq b Hb E).
Qed.

(** The members in a prefix, by number. *)
Lemma filter_prefix s X prefix :
  repr s X -> prefix_ok prefix -> BitLen (pfx_addr prefix) = BitLen (pfx_addr (as_pool s)) ->
  let lo := Z.max (first_val prefix) (first_val (as_pool s)) in
  let hi := Z.min (last_val prefix) (last_val (as_pool s)) + 1 in
  members s lo hi = Z.of_nat (size (filter (fun a => Contains prefix a = true) X)).
Proof.
  intros HR Hpr HL lo hi. pose proof (re_valid s X HR) as Hv. pose proof (va_pool s Hv) as Hp.
  rewrite (members_size s X) by (done || unfold lo, hi; lia). do 2 f_equal.
  apply set_eq. intros a. rewrite !elem_of_filter. split; intros [Hr Ha]; (split; [|done]);
    pose proof (re_pool s X HR a Ha) as Hin; pose proof (in_pool_family s a Hp Hin) as Hf;
    destruct Hin as [Hok Hc]; apply Contains_spec in Hc as [_ Hc]; try done.
  - apply Contains_spec; [done|done|]. rewrite Hf, HL. split; [done|unfold lo, hi in *; lia].
  - apply Contains_spec in Hr as [_ Hr]; [|done|done]. unfold lo, hi. lia.
Qed.

Lemma filter_pool s X : repr s X -> filter (fun a => Contains (as_pool s) a = true) X = X.
Proof.
  intros HR. apply set_eq. intros a. rewrite elem_of_filter. split; [tauto|]. intros Ha.
  split; [|done]. by apply (re_pool s X HR).
Qed.

(** A prefix does not hold more members than addresses. *)
Lemma filter_bound s X prefix :
  repr s X -> prefix_ok prefix -> BitLen (pfx_addr prefix) = BitLen (pfx_addr (as_pool s)) ->
  Z.of_nat (size (filter (fun a => Contains prefix a = true) X)) <= 2 ^ host_bits prefix.
Proof.
  intros HR Hpr HL. rewrite <- (filter_prefix s X prefix HR Hpr HL). pose proof (pow_host_pos prefix Hpr).
  set (lo := Z.max _ _). set (hi := Z.min _ _ + 1). unfold members.
  destruct (Z.le_gt_cases hi lo); [rewrite count_in_empty by lia; lia|].
  pose proof (count_in_bounds (fun v => mem s (addr_at s v)) lo hi ltac:(lia)).
  unfold lo, hi, last_val in *. fold (first_val prefix) in *. lia.
Qed.

Lemma repr_counts s X prefix :
  repr s X -> prefix_ok prefix -> BitLen (pfx_addr prefix) = BitLen (pfx_addr (as_pool s)) ->
  (exists h l, Len s = (h, l) /\ is_u64 h /\ is_u64 l
     /\ h * 2 ^ 64 + l = Z.of_nat (size X) mod 2 ^ 128)
  /\ (exists h l, AddrsInPrefix s prefix = GoOk (h, l) /\ is_u64 h /\ is_u64 l
     /\ h * 2 ^ 64 + l = Z.of_nat (size (filter (fun a => Contains prefix a = true) X)) mod 2 ^ 128).
Proof.
  intros HR Hpr HL. pose proof (re_valid s X HR) as Hv. pose proof (va_pool s Hv) as Hp. split.
  - pose proof (Len_spec s Hv) as H. destruct (Len s) as [h l]. destruct H as (?&?&H).
    exists h, l. split_and!; try done. rewrite H. rewrite <- (filter_pool s X HR) at 1.
    rewrite <- (filter_prefix s X (as_pool s)) by done. by rewrite Z.max_id, Z.min_id.
  - destruct (AddrsInPrefix_spec s prefix Hv Hpr HL) as (h&l&E&?&?&H).
    exists h, l. split_and!; try done. by rewrite H, (filter_prefix s X prefix).
Qed.

(** [Len] is the number of addresses in the set, as the two words of a 128-bit
    number (only a full [::/0] overflows them), and [AddrsInPrefix] the number of those a
    prefix contains; neither panics. *)
Theorem addrset_counts s X prefix :
  repr s X -> prefix_ok prefix -> BitLen (pfx_addr prefix) = BitLen (pfx_addr (as_pool s)) ->
  (exists h l, Len s = (h, l) /\ is_u64 h /\ is_u64 l
     /\ h * 2 ^ 64 + l = Z.of_nat (size X) mod 2 ^ 128)
  /\ (exists h l, AddrsInPrefix s prefix = GoOk (h, l) /\ is_u64 h /\ is_u64 l
     /\ h * 2 ^ 64 + l = Z.of_nat (size (filter (fun a => Contains prefix a = true) X)) mod 2 ^ 128).
Proof. apply repr_counts. Qed.

Lemma addrset_counts_witness :
  exists s X, repr s X /\ size X = 2%nat
  /\ (exists h l, Len s = (h, l) /\ is_u64 h /\ is_u64 l /\ h * 2 ^ 64 + l = Z.of_nat (size X) mod 2 ^ 128).
Proof.
  destruct (New_repr pool_ex pool_ex_ok) as [HR E].
  pose proof (run_sim (take 2 ops_ex) _ ∅ HR (Forall_take op_ok 2 ops_ex ops_ex_ok)) as H. rewrite E in H.
  remember (run (New pool_ex) (take 2 ops_ex)) as res eqn:Er. destruct res as [s rs].
  destruct H as (X&Hrun&HRs&Hp). exists s, X. split; [done|].
  pose proof (spec_run_distinct pool_ex ∅ (take 2 ops_ex) rs X Hrun) as Hd.
  assert (Hrs : rs = [GoOk None; GoOk (Some (Addr4 (10 * 2 ^ 24 + 1)))]).
  { change rs with (s, rs).2. rewrite Er. by vm_compute. }
  split.
  - destruct Hd as (_&_&->); [by repeat constructor|]. rewrite Hrs. by vm_compute.
  - apply (addrset_counts s X pool_ex HRs pool_ex_ok). by rewrite Hp.
Defined.
