(* ===== verification/DefaultIPAM.v ===== *)
(** * The default IPAM driver

    Model of [daemon/libnetwork/ipams/defaultipam]: [structures.go] (pool
    identifiers, pool data, the merging iterator), [address_space.go] (the pools
    of one address space) and [allocator.go] (the driver).  Every method of an
    address space runs under its mutex, so a method is one step of the state.
    The textual form of prefixes, [netip.ParsePrefix] and [Prefix.String], is a
    parameter of the definitions that handle pool identifiers. *)

From S2P Require Import Prelude Slices Bitmap OrdinalSet BitmapSpec Uint128 NetIP IPBits NetIPUtil AddrSet.

(** The errors of [ipamapi] and of the [types] helpers; [ErrAddrSet] is an error of
    the address set handed through. *)
Inductive IpamErr :=
| ErrPoolOverlap
| ErrNoMoreSubnets
| ErrBadPool
| ErrIPOutOfRange
| ErrIPAlreadyAllocated
| ErrNoAvailableIPs
| ErrInvalidAddressSpace
| ErrInvalidPool
| ErrInvalidSubPool
| ErrNotFound
| ErrInvalidParameter
| ErrCanonical (i : nat)
| ErrTargetSize (i : nat)
| ErrAddrSet (e : AddrErr).

(** ** structures.go *)

Record SubnetKey := mkSubnetKey { Subnet : Prefix; ChildSubnet : Prefix }.

Definition KeyIs6 (k : SubnetKey) : bool := Is6 (pfx_addr (Subnet k)).

Record PoolID := mkPoolID { AddressSpace : string; pid_key : SubnetKey }.

Record PoolData := mkPoolData {
  addrs : AddrSet Bitmap;
  children : gset Prefix;
  autoRelease : bool
}.

Definition slash : Ascii.ascii := Ascii.ascii_of_nat 47.

Section PoolIDText.
Variable ParsePrefix : string -> option Prefix.
Variable PrefixString : Prefix -> string.

Definition PoolIDFromString (str : string) : go_result IpamErr PoolID :=
  if bool_decide (str = EmptyString) then GoErr ErrInvalidParameter
  else
    match Split str slash with
    | [p0; p1; p2] =>
        match ParsePrefix (p1 ++ String slash p2) with
        | Some subnet => GoOk (mkPoolID p0 (mkSubnetKey subnet PrefixZero))
        | None => GoErr ErrInvalidParameter
        end
    | [p0; p1; p2; p3; p4] =>
        match ParsePrefix (p1 ++ String slash p2) with
        | Some subnet =>
            match ParsePrefix (p3 ++ String slash p4) with
            | Some child => GoOk (mkPoolID p0 (mkSubnetKey subnet child))
            | None => GoErr ErrInvalidParameter
            end
        | None => GoErr ErrInvalidParameter
        end
    | _ => GoErr ErrInvalidParameter
    end.

Definition PoolIDString (s : PoolID) : string :=
  let k := pid_key s in
  if decide (ChildSubnet k = PrefixZero)
  then AddressSpace s ++ String slash (PrefixString (Subnet k))
  else AddressSpace s ++ String slash (PrefixString (Subnet k) ++ String slash (PrefixString (ChildSubnet k))).
End PoolIDText.

(** The iterator over two sorted slices; [lastA] tells which one the current
    element comes from. *)
Record mergeIter := mkMergeIter {
  it_a : list Prefix;
  it_b : list Prefix;
  ia : nat;
  ib : nat;
  cmp : Prefix -> Prefix -> Z;
  lastA : bool
}.

Definition nextA (it : mergeIter) : bool :=
  match it_a it !! ia it, it_b it !! ib it with
  | Some x, Some y => cmp it x y <=? 0
  | Some _, None => true
  | None, _ => false
  end.

Definition set_lastA (it : mergeIter) : mergeIter :=
  mkMergeIter (it_a it) (it_b it) (ia it) (ib it) (cmp it) (nextA it).

Definition newMergeIter (a b : list Prefix) (cmp : Prefix -> Prefix -> Z) : mergeIter :=
  set_lastA (mkMergeIter a b 0 0 cmp false).

Definition Get (it : mergeIter) : go_result IpamErr Prefix :=
  if (length (it_a it) + length (it_b it) <=? ia it + ib it)%nat then GoOk PrefixZero
  else
    match (if lastA it then it_a it !! ia it else it_b it !! ib it) with
    | Some p => GoOk p
    | None => GoPanic
    end.

Definition Inc (it : mergeIter) : mergeIter :=
  set_lastA (if lastA it
             then mkMergeIter (it_a it) (it_b it) (S (ia it)) (ib it) (cmp it) (lastA it)
             else mkMergeIter (it_a it) (it_b it) (ia it) (S (ib it)) (cmp it) (lastA it)).

(** ** address_space.go *)

Record addrSpace := mkAddrSpace {
  allocated : list Prefix;
  subnets : gmap Prefix PoolData;
  predefined : list NetworkToSplit
}.

(** The compaction loop: [kept] holds [predefined[0..j]] in reverse, its head
    [predefined[j]]. *)
Fixpoint discard_overlapping (kept : list NetworkToSplit) (rest : list NetworkToSplit)
  : list NetworkToSplit :=
  match rest with
  | [] => kept
  | n :: rest' =>
      match kept with
      | last :: _ =>
          if NtsOverlaps last (nts_Base n) then discard_overlapping kept rest'
          else discard_overlapping (n :: kept) rest'
      | [] => discard_overlapping [n] rest'
      end
  end.

Definition newAddrSpace (predefined : list NetworkToSplit) : addrSpace :=
  let sorted := SortFunc (fun a b => PrefixCompare (nts_Base a) (nts_Base b)) predefined in
  mkAddrSpace [] ∅ (reverse (discard_overlapping [] sorted)).

(** [newPoolData] of allocator.go: the network address, and for IPv4 the broadcast
    address, are taken at once; the errors of [Add] are dropped. *)
Definition newPoolData (pool : Prefix) : PoolData :=
  let h := New pool in
  let bits := BitLen (pfx_addr pool) - pfx_bits pool in
  let h := if negb (Is4 (pfx_addr pool)) || (1 <? bits) then (AddrSet.Add h (pfx_addr pool)).1 else h in
  let h := if Is4 (pfx_addr pool) && (1 <? bits) then (AddrSet.Add h (LastAddr pool)).1 else h in
  mkPoolData h ∅ false.

Definition overlaps (aSpace : addrSpace) (nw : Prefix) : bool :=
  existsb (fun allocated => Overlaps allocated nw) (allocated aSpace).

Definition allocatePool (aSpace : addrSpace) (nw : Prefix) : addrSpace :=
  let '(n, _) := BinarySearchFunc (allocated aSpace) nw PrefixCompare in
  mkAddrSpace (insert_at n nw (allocated aSpace)) (<[nw := newPoolData nw]> (subnets aSpace))
    (predefined aSpace).

(** The map holds pointers to the pools: a change of a pool is a change of its entry. *)
Definition set_pool (aSpace : addrSpace) (nw : Prefix) (p : PoolData) : addrSpace :=
  mkAddrSpace (allocated aSpace) (<[nw := p]> (subnets aSpace)) (predefined aSpace).

Definition allocateSubnetL (aSpace : addrSpace) (nw sub : Prefix) : addrSpace * option IpamErr :=
  if decide (sub = PrefixZero) then
    if overlaps aSpace nw then (aSpace, Some ErrPoolOverlap)
    else (allocatePool aSpace nw, None)
  else
    let '(s1, p) :=
      match subnets aSpace !! nw with
      | Some p => (aSpace, p)
      | None =>
          let p := newPoolData nw in
          (allocatePool aSpace nw, mkPoolData (addrs p) (children p) true)
      end in
    (set_pool s1 nw (mkPoolData (addrs p) ({[sub]} ∪ children p) (autoRelease p)), None).

Definition allocateSubnet (aSpace : addrSpace) (nw sub : Prefix) : addrSpace * option IpamErr :=
  match subnets aSpace !! nw with
  | Some pool =>
      let childExists := bool_decide (sub <> PrefixZero) && bool_decide (sub ∈ children pool) in
      if bool_decide (sub = PrefixZero) || childExists then (aSpace, Some ErrPoolOverlap)
      else allocateSubnetL aSpace nw sub
  | None => allocateSubnetL aSpace nw sub
  end.

(** *** allocatePredefinedPool *)

(** The variables of the search loop. *)
Record pdfSearch := mkPdfSearch {
  pdfID : nat;
  partialOverlap : bool;
  prevAlloc : Prefix;
  it : mergeIter
}.

(** What one round of the loop does. *)
Inductive searchStep :=
| Continue (v : pdfSearch)
| Break (v : pdfSearch)
| MakeAlloc (v : pdfSearch) (subnet : Prefix)
| Fail (e : IpamErr)
| Panic.

Definition searchBody (pools : list NetworkToSplit) (v : pdfSearch) : searchStep :=
  match Get (it v) with
  | GoOk allocated =>
      if decide (allocated = PrefixZero) then Break v
      else
        match pools !! pdfID v with
        | None => Fail ErrNoMoreSubnets
        | Some pdf =>
            if Overlaps allocated (nts_Base pdf) then
              if pfx_bits allocated <=? pfx_bits (nts_Base pdf)
              then Continue (mkPdfSearch (S (pdfID v)) false PrefixZero (it v))
              else if negb (partialOverlap v)
                   && (1 <=? SubnetsBetween (pfx_addr (FirstPrefix pdf)) (pfx_addr allocated) (nts_Size pdf))
              then MakeAlloc v (FirstPrefix pdf)
              else
                let afterPrev := PrefixAfter (prevAlloc v) (nts_Size pdf) in
                if partialOverlap v
                   && (1 <=? SubnetsBetween (pfx_addr afterPrev) (pfx_addr allocated) (nts_Size pdf))
                then MakeAlloc v afterPrev
                else
                  let it' := Inc (it v) in
                  if decide (LastAddr allocated = LastAddr (nts_Base pdf))
                  then Continue (mkPdfSearch (S (pdfID v)) false PrefixZero it')
                  else Continue (mkPdfSearch (pdfID v) true allocated it')
            else if partialOverlap v then
              let next := PrefixAfter (prevAlloc v) (nts_Size pdf) in
              if NtsOverlaps pdf next then MakeAlloc v next
              else Continue (mkPdfSearch (S (pdfID v)) false (prevAlloc v) (it v))
            else if Less (pfx_addr (nts_Base pdf)) (pfx_addr allocated)
            then MakeAlloc v (PrefixFrom (pfx_addr (nts_Base pdf)) (nts_Size pdf))
            else Continue (mkPdfSearch (pdfID v) (partialOverlap v) allocated (Inc (it v)))
        end
  | _ => Panic
  end.

(** The attempts after the loop. *)
Definition searchEnd (pools : list NetworkToSplit) (v : pdfSearch) : searchStep :=
  if (length pools <=? pdfID v)%nat then Fail ErrNoMoreSubnets
  else
    let lastChance (pdfID' : nat) :=
      match pools !! pdfID' with
      | Some pdf => MakeAlloc v (FirstPrefix pdf)
      | None => Fail ErrNoMoreSubnets
      end in
    if partialOverlap v then
      match pools !! pdfID v with
      | Some pdf =>
          let next := PrefixAfter (prevAlloc v) (nts_Size pdf) in
          if NtsOverlaps pdf next then MakeAlloc v next else lastChance (S (pdfID v))
      | None => Panic
      end
    else lastChance (pdfID v).

(** The loop; [None] is running out of fuel. *)
Fixpoint searchLoop (fuel : nat) (pools : list NetworkToSplit) (v : pdfSearch) : option searchStep :=
  match fuel with
  | O => None
  | S fuel =>
      match searchBody pools v with
      | Continue v' => searchLoop fuel pools v'
      | Break v' => Some (searchEnd pools v')
      | r => Some r
      end
  end.

(** A round moves the iterator or takes the next predefined network. *)
Definition searchFuel (aSpace : addrSpace) (reserved : list Prefix) : nat :=
  S (length (allocated aSpace) + length reserved + length (predefined aSpace)).

Definition makeAlloc (aSpace : addrSpace) (v : pdfSearch) (subnet : Prefix) : addrSpace :=
  mkAddrSpace (insert_at (ia (it v)) subnet (allocated aSpace))
    (<[subnet := newPoolData subnet]> (subnets aSpace)) (predefined aSpace).

Definition allocatePredefinedPool (aSpace : addrSpace) (reserved : list Prefix)
  : addrSpace * go_result IpamErr Prefix :=
  let v := mkPdfSearch 0 false PrefixZero (newMergeIter (allocated aSpace) reserved PrefixCompare) in
  match searchLoop (searchFuel aSpace reserved) (predefined aSpace) v with
  | Some (MakeAlloc v' subnet) => (makeAlloc aSpace v' subnet, GoOk subnet)
  | Some (Fail e) => (aSpace, GoErr e)
  | _ => (aSpace, GoPanic)
  end.

(** *** Release *)

Definition deallocate (aSpace : addrSpace) (nw : Prefix) : addrSpace :=
  let '(i, ok) := BinarySearchFunc (allocated aSpace) nw PrefixCompare in
  if ok then
    mkAddrSpace (delete_at i (allocated aSpace)) (delete nw (subnets aSpace)) (predefined aSpace)
  else aSpace.

Definition releaseSubnet (aSpace : addrSpace) (nw sub : Prefix) : addrSpace * option IpamErr :=
  match subnets aSpace !! nw with
  | None => (aSpace, Some ErrBadPool)
  | Some p =>
      let finish (p : PoolData) : addrSpace * option IpamErr :=
        let s1 := set_pool aSpace nw p in
        if decide (children p = ∅) then
          if autoRelease p then (deallocate s1 nw, None) else (s1, None)
        else (s1, None) in
      if decide (sub <> PrefixZero) then
        if decide (sub ∈ children p)
        then finish (mkPoolData (addrs p) (children p ∖ {[sub]}) (autoRelease p))
        else (aSpace, Some ErrBadPool)
      else finish (mkPoolData (addrs p) (children p) true)
  end.

(** *** Addresses *)

(** [getAddress] of allocator.go. *)
Definition getAddress (base : Prefix) (addrSet : AddrSet Bitmap) (prefAddress : Addr) (ipr : Prefix)
  (serial : bool) : AddrSet Bitmap * go_result IpamErr Addr :=
  let '(s', r) :=
    if AddrIsValid prefAddress then
      let '(s', err) := AddrSet.Add addrSet prefAddress in
      (s', match err with None => GoOk prefAddress | Some e => GoErr e end)
    else if PrefixIsValid ipr && negb (bool_decide (ipr = base)) then AddAnyInRange addrSet ipr serial
    else AddAny addrSet serial in
  (s', match r with
       | GoOk a => GoOk a
       | GoErr ErrAllocated => GoErr ErrIPAlreadyAllocated
       | GoErr ErrNotAvailable => GoErr ErrNoAvailableIPs
       | GoErr e => GoErr (ErrAddrSet e)
       | GoPanic => GoPanic
       end).

Definition AllocSerialPrefix : string := "com.docker.network.ipam.serial".

Definition requestAddress (aSpace : addrSpace) (nw sub : Prefix) (prefAddress : Addr)
  (opts : gmap string string) : addrSpace * go_result IpamErr Addr :=
  match subnets aSpace !! nw with
  | None => (aSpace, GoErr ErrNotFound)
  | Some p =>
      if bool_decide (prefAddress <> AddrZero) && negb (Contains nw prefAddress)
      then (aSpace, GoErr ErrIPOutOfRange)
      else if bool_decide (sub <> PrefixZero) && negb (bool_decide (sub ∈ children p))
      then (aSpace, GoErr ErrNotFound)
      else
        let serial := bool_decide (default EmptyString (opts !! AllocSerialPrefix) = "true"%string) in
        let '(as', r) := getAddress nw (addrs p) prefAddress sub serial in
        (set_pool aSpace nw (mkPoolData as' (children p) (autoRelease p)), r)
  end.

Definition releaseAddress (aSpace : addrSpace) (nw sub : Prefix) (address : Addr)
  : addrSpace * option IpamErr :=
  match subnets aSpace !! nw with
  | None => (aSpace, Some ErrNotFound)
  | Some p =>
      if bool_decide (sub <> PrefixZero) && negb (bool_decide (sub ∈ children p))
      then (aSpace, Some ErrNotFound)
      else if negb (AddrIsValid address) then (aSpace, Some ErrInvalidParameter)
      else if negb (Contains nw address) then (aSpace, Some ErrIPOutOfRange)
      else
        let '(as', err) := AddrSet.Remove (addrs p) address in
        (set_pool aSpace nw (mkPoolData as' (children p) (autoRelease p)), ErrAddrSet <$> err)
  end.

Record SubnetStatus := mkSubnetStatus { IPsInUse : Z; DynamicIPsAvailable : Z }.

Definition allocationStatus (aSpace : addrSpace) (nw ipr : Prefix) : go_result IpamErr SubnetStatus :=
  let ipr := if decide (ipr = PrefixZero) then nw else ipr in
  match subnets aSpace !! nw with
  | None => GoErr ErrNotFound
  | Some p =>
      let iprcap := Lsh (From 0 1) (wrap64 (BitLen (pfx_addr ipr) - pfx_bits ipr)) in
      match AddrsInPrefix (addrs p) ipr with
      | GoOk (h, l) =>
          let ipralloc := From h l in
          let '(hi', lo') := Len (addrs p) in
          GoOk (mkSubnetStatus (Uint64Sat (From hi' lo')) (Uint64Sat (Uint128.Sub iprcap ipralloc)))
      | GoErr e => GoErr (ErrAddrSet e)
      | GoPanic => GoPanic
      end
  end.

(** ** allocator.go *)

Record Allocator := mkAllocator {
  local4 : addrSpace;
  local6 : addrSpace;
  global4 : addrSpace;
  global6 : addrSpace
}.

Fixpoint splitLoop (i : nat) (s : list NetworkToSplit) (v4 v6 : list NetworkToSplit)
  : go_result IpamErr (list NetworkToSplit * list NetworkToSplit) :=
  match s with
  | [] => GoOk (v4, v6)
  | n :: s' =>
      if negb (PrefixIsValid (nts_Base n)) || (nts_Size n =? 0) then GoErr (ErrCanonical i)
      else if nts_Size n <? pfx_bits (nts_Base n) then GoErr (ErrTargetSize i)
      else
        let base := default PrefixZero (AddrPrefix (Unmap (pfx_addr (nts_Base n))) (pfx_bits (nts_Base n))) in
        let n' := mkNetworkToSplit base (nts_Size n) in
        if Is4 (pfx_addr base) then splitLoop (S i) s' (v4 ++ [n']) v6
        else splitLoop (S i) s' v4 (v6 ++ [n'])
  end.

Definition splitByIPFamily (s : list NetworkToSplit) := splitLoop 0 s [] [].

Definition NewAllocator (lcAs glAs : list NetworkToSplit) : go_result IpamErr Allocator :=
  match splitByIPFamily lcAs with
  | GoOk (lcAs4, lcAs6) =>
      match splitByIPFamily glAs with
      | GoOk (glAs4, glAs6) =>
          GoOk (mkAllocator (newAddrSpace lcAs4) (newAddrSpace lcAs6)
                  (newAddrSpace glAs4) (newAddrSpace glAs6))
      | GoErr e => GoErr e
      | GoPanic => GoPanic
      end
  | GoErr e => GoErr e
  | GoPanic => GoPanic
  end.

Definition localAddressSpace : string := "LocalDefault".
Definition globalAddressSpace : string := "GlobalDefault".

(** The address space a name and a family select, as a reference into the
    allocator. *)
Inductive spaceRef := RefLocal4 | RefLocal6 | RefGlobal4 | RefGlobal6.

Definition getAddrSpace (as_ : string) (v6 : bool) : option spaceRef :=
  if bool_decide (as_ = localAddressSpace) then Some (if v6 then RefLocal6 else RefLocal4)
  else if bool_decide (as_ = globalAddressSpace) then Some (if v6 then RefGlobal6 else RefGlobal4)
  else None.

Definition deref (a : Allocator) (r : spaceRef) : addrSpace :=
  match r with
  | RefLocal4 => local4 a | RefLocal6 => local6 a
  | RefGlobal4 => global4 a | RefGlobal6 => global6 a
  end.

Definition store (a : Allocator) (r : spaceRef) (s : addrSpace) : Allocator :=
  match r with
  | RefLocal4 => mkAllocator s (local6 a) (global4 a) (global6 a)
  | RefLocal6 => mkAllocator (local4 a) s (global4 a) (global6 a)
  | RefGlobal4 => mkAllocator (local4 a) (local6 a) s (global6 a)
  | RefGlobal6 => mkAllocator (local4 a) (local6 a) (global4 a) s
  end.

Record PoolRequest := mkPoolRequest {
  req_AddressSpace : string;
  req_Pool : string;
  req_SubPool : string;
  req_Exclude : list Prefix;
  req_V6 : bool
}.

Record AllocatedPool := mkAllocatedPool { ap_PoolID : string; ap_Pool : Prefix }.

(** [net.IPNet]: address and mask bytes. *)
Record IPNet := mkIPNet { ipnet_IP : list Z; ipnet_Mask : list Z }.

Definition AsSlice (a : Addr) : list Z :=
  match a with AddrZero => [] | Addr4 _ => As4 a | Addr6 _ => As16 a end.

(** [net.CIDRMask]. *)
Definition CIDRMask (ones bits : Z) : list Z :=
  if (bits =? 32) || (bits =? 128) then
    if (ones <? 0) || (bits <? ones) then []
    else be_put (Z.to_nat (bits / 8)) (2 ^ bits - 2 ^ (bits - ones))
  else [].

Section Allocator.
Variable ParsePrefix : string -> option Prefix.
Variable PrefixString : Prefix -> string.

Definition RequestPool (a : Allocator) (req : PoolRequest) : Allocator * go_result IpamErr AllocatedPool :=
  if bool_decide (req_AddressSpace req = EmptyString) then (a, GoErr ErrInvalidAddressSpace)
  else
  match getAddrSpace (req_AddressSpace req) (req_V6 req) with
  | None => (a, GoErr ErrInvalidParameter)
  | Some r =>
    let aSpace := deref a r in
    let allocatedPool (subnet child : Prefix) :=
      mkAllocatedPool
        (PoolIDString PrefixString (mkPoolID (req_AddressSpace req) (mkSubnetKey subnet child))) subnet in
    if bool_decide (req_Pool req = EmptyString) && bool_decide (req_SubPool req <> EmptyString)
    then (a, GoErr ErrInvalidSubPool)
    else if bool_decide (req_Pool req = EmptyString) then
      let '(s', res) := allocatePredefinedPool aSpace (req_Exclude req) in
      (store a r s', match res with
                     | GoOk subnet => GoOk (allocatedPool subnet PrefixZero)
                     | GoErr e => GoErr e
                     | GoPanic => GoPanic
                     end)
    else
    match ParsePrefix (req_Pool req) with
    | None => (a, GoErr ErrInvalidPool)
    | Some subnet =>
      match (if bool_decide (req_SubPool req = EmptyString) then Some PrefixZero
             else ParsePrefix (req_SubPool req)) with
      | None => (a, GoErr ErrInvalidSubPool)
      | Some child =>
        if PrefixIsValid subnet && PrefixIsValid child
           && negb (BitLen (pfx_addr subnet) =? BitLen (pfx_addr child))
        then (a, GoErr ErrInvalidParameter)
        else
          let subnet := Masked subnet in
          let child := Masked child in
          let child := if PrefixIsValid child && (pfx_bits child <? pfx_bits subnet) then subnet else child in
          let '(s', err) := allocateSubnet aSpace subnet child in
          (store a r s', match err with
                         | Some e => GoErr e
                         | None => GoOk (allocatedPool subnet child)
                         end)
      end
    end
  end.

(** The lookup every method by pool identifier starts with. *)
Definition withPool {R : Type} (a : Allocator) (poolID : string)
  (f : addrSpace -> SubnetKey -> addrSpace * go_result IpamErr R) : Allocator * go_result IpamErr R :=
  match PoolIDFromString ParsePrefix poolID with
  | GoOk k =>
      match getAddrSpace (AddressSpace k) (KeyIs6 (pid_key k)) with
      | Some r => let '(s', res) := f (deref a r) (pid_key k) in (store a r s', res)
      | None => (a, GoErr ErrInvalidParameter)
      end
  | _ => (a, GoErr ErrInvalidParameter)
  end.

Definition done_ (err : option IpamErr) : go_result IpamErr unit :=
  match err with None => GoOk tt | Some e => GoErr e end.

Definition ReleasePool (a : Allocator) (poolID : string) : Allocator * go_result IpamErr unit :=
  withPool a poolID (fun aSpace k =>
    let '(s', err) := releaseSubnet aSpace (Subnet k) (ChildSubnet k) in (s', done_ err)).

(** [prefAddress] is [None] for a nil [net.IP]. *)
Definition RequestAddress (a : Allocator) (poolID : string) (prefAddress : option (list Z))
  (opts : gmap string string) : Allocator * go_result IpamErr IPNet :=
  withPool a poolID (fun aSpace k =>
    match (match prefAddress with None => Some AddrZero | Some b => AddrFromSlice b end) with
    | None => (aSpace, GoErr ErrInvalidParameter)
    | Some pref =>
        let '(s', r) := requestAddress aSpace (Subnet k) (ChildSubnet k) (Unmap pref) opts in
        (s', match r with
             | GoOk p => GoOk (mkIPNet (AsSlice p) (CIDRMask (pfx_bits (Subnet k)) (BitLen (pfx_addr (Subnet k)))))
             | GoErr e => GoErr e
             | GoPanic => GoPanic
             end)
    end).

Definition ReleaseAddress (a : Allocator) (poolID : string) (address : list Z)
  : Allocator * go_result IpamErr unit :=
  withPool a poolID (fun aSpace k =>
    match AddrFromSlice address with
    | None => (aSpace, GoErr ErrInvalidParameter)
    | Some addr =>
        let '(s', err) := releaseAddress aSpace (Subnet k) (ChildSubnet k) (Unmap addr) in (s', done_ err)
    end).

Definition PoolStatus (a : Allocator) (poolID : string) : Allocator * go_result IpamErr SubnetStatus :=
  withPool a poolID (fun aSpace k => (aSpace, allocationStatus aSpace (Subnet k) (ChildSubnet k))).

End Allocator.
