(* ===== verification/DefaultIPAMSpec.v ===== *)
(** * Correctness of the address spaces

    Invariant of an address space, the search of [allocatePredefinedPool], and
    the effect of every operation. *)

From stdpp Require Import sorting.
From S2P Require Import Prelude Slices Bitmap OrdinalSet BitmapSpec Uint128 NetIP IPBits NetIPUtil AddrSet AddrSetSpec DefaultIPAM.

(** ** Prefixes of one family *)

(** A masked prefix of the family with [L]-bit addresses. *)
Definition pool_ok (L : Z) (p : Prefix) : Prop := prefix_ok p /\ BitLen (pfx_addr p) = L.

(** The order of [netiputil.PrefixCompare]. *)
Definition ple (p q : Prefix) : Prop := PrefixCompare p q <= 0.
Definition plt (p q : Prefix) : Prop := PrefixCompare p q < 0.

Section Family.
Context (L : Z).
Implicit Types (p q : Prefix).

Lemma pool_cmp p q :
  pool_ok L p -> pool_ok L q ->
  (plt p q <-> first_val p < first_val q \/ first_val p = first_val q /\ pfx_bits p < pfx_bits q)
  /\ (PrefixCompare p q = 0 <-> p = q).
Proof.
  intros [Hp Ep] [Hq Eq]. assert (E : BitLen (pfx_addr p) = BitLen (pfx_addr q)) by congruence.
  split; [apply PrefixCompare_spec, E|by apply PrefixCompare_eq].
Qed.

Lemma pool_overlaps p q :
  pool_ok L p -> pool_ok L q ->
  Overlaps p q = true <-> first_val p <= last_val q /\ first_val q <= last_val p.
Proof. intros [Hp Ep] [Hq Eq]. rewrite Overlaps_spec by done. rewrite Ep, Eq. tauto. Qed.

Lemma pool_disjoint p q :
  pool_ok L p -> pool_ok L q ->
  Overlaps p q = false <-> last_val q < first_val p \/ last_val p < first_val q.
Proof.
  intros Hp Hq. rewrite <- not_true_iff_false, (pool_overlaps p q) by done.
  pose proof (prefix_interval p (proj1 Hp)). pose proof (prefix_interval q (proj1 Hq)). lia.
Qed.

Lemma Overlaps_sym p q : pool_ok L p -> pool_ok L q -> Overlaps p q = true -> Overlaps q p = true.
Proof. intros Hp Hq. rewrite !pool_overlaps by done. lia. Qed.

Lemma pool_interval p : pool_ok L p -> 0 <= first_val p <= last_val p /\ last_val p < 2 ^ L.
Proof. intros [Hp <-]. by apply prefix_interval. Qed.

Lemma pool_bits p :
  pool_ok L p -> (L = 32 \/ L = 128) /\ 0 <= pfx_bits p <= L
  /\ last_val p = first_val p + 2 ^ (L - pfx_bits p) - 1 /\ 0 < 2 ^ (L - pfx_bits p).
Proof.
  intros [Hp <-]. pose proof (pow_host_pos p Hp). destruct Hp as (Ha&Hb&_).
  split_and!; try lia; [by apply BitLen_cases|done].
Qed.

(** Two prefixes of the family that start and end alike are the same. *)
Lemma pool_nested p q :
  pool_ok L p -> pool_ok L q -> Overlaps p q = true -> pfx_bits p <= pfx_bits q ->
  first_val p <= first_val q /\ last_val q <= last_val p.
Proof. intros [Hp _] [Hq _]. by apply prefix_nested. Qed.

Lemma pool_not_zero p : pool_ok L p -> p <> PrefixZero.
Proof. intros [((Hv&_)&_) _] ->. done. Qed.

(** The prefix of length [sz] at the start of [p]. *)
Lemma pool_head p sz :
  pool_ok L p -> pfx_bits p <= sz <= L ->
  pool_ok L (mkPrefix (pfx_addr p) sz) /\ PrefixFrom (pfx_addr p) sz = mkPrefix (pfx_addr p) sz
  /\ first_val p + 2 ^ (L - sz) - 1 <= last_val p.
Proof.
  intros Hp Hsz. pose proof (pool_bits p Hp) as (HL&Hb&El&Hpos). destruct Hp as [(Ha&_&Hm) E].
  assert (Hle : 2 ^ (L - sz) <= 2 ^ (L - pfx_bits p)) by (apply Z.pow_le_mono_r; lia).
  split_and!.
  - split; [|done]. split_and!; simpl; [done|lia|lia|]. unfold host_bits in *. simpl. rewrite E in *.
    apply (mod_pow_le _ _ (L - pfx_bits p)); [lia|done].
  - unfold PrefixFrom. destruct Ha as [Hv _]. rewrite Hv, E.
    destruct (Z.leb_spec 0 sz); [|lia]. destruct (Z.leb_spec sz L); [|lia]. done.
  - lia.
Qed.

(** A predefined network: its base is masked and the size of its subnets fits;
    [below_top]: it does not reach the end of the address family. *)
Definition nts_ok (n : NetworkToSplit) : Prop :=
  pool_ok L (nts_Base n) /\ pfx_bits (nts_Base n) <= nts_Size n <= L /\ 0 < nts_Size n.
Definition below_top (n : NetworkToSplit) : Prop := last_val (nts_Base n) + 1 < 2 ^ L.

(** [SubnetsBetween] finds room for a whole subnet. *)
Lemma SubnetsBetween_room a1 a2 sz :
  addr_ok a1 -> addr_ok a2 -> BitLen a1 = L -> BitLen a2 = L -> 0 <= sz <= L ->
  addr_val a1 mod 2 ^ (L - sz) = 0 -> 1 <= SubnetsBetween a1 a2 sz ->
  addr_val a1 + 2 ^ (L - sz) <= addr_val a2.
Proof.
  intros H1 H2 E1 E2 Hsz Hm Hb. rewrite SubnetsBetween_val in Hb by (done || congruence || lia).
  destruct (Z.ltb_spec (addr_val a2) (addr_val a1)) as [|Hle]; [lia|]. rewrite E1 in Hb.
  set (P := 2 ^ (L - sz)) in *. assert (HP : 0 < P) by (apply Z.pow_pos_nonneg; lia).
  assert (Hq : addr_val a1 / P <= addr_val a2 / P) by (by apply Z.div_le_mono).
  destruct (Z.eq_dec (addr_val a1 / P) (addr_val a2 / P)) as [E|Hne].
  { rewrite E, Z.sub_diag in Hb. rewrite Z.mod_0_l in Hb; lia. }
  pose proof (Z.div_mod (addr_val a1) P ltac:(lia)). pose proof (Z.mul_div_le (addr_val a2) P HP). nia.
Qed.

(** The next candidate after a prefix inside a predefined network. *)
Lemma PrefixAfter_next n prev :
  nts_ok n -> below_top n -> pool_ok L prev -> pfx_bits (nts_Base n) < pfx_bits prev ->
  first_val (nts_Base n) <= first_val prev -> last_val prev <= last_val (nts_Base n) ->
  let next := PrefixAfter prev (nts_Size n) in
  pool_ok L next /\ pfx_bits next = nts_Size n /\ last_val prev < first_val next
  /\ first_val next <= last_val (nts_Base n) + 1.
Proof.
  intros (Hn&Hsz&Hpos) Htop Hp Hbits Hf Hl next.
  pose proof (pool_bits _ Hn) as (HL&Hnb&Eln&Hnp). pose proof (pool_bits _ Hp) as (_&Hpb&Elp&Hpp).
  pose proof (pool_interval _ Hp) as Hpi. pose proof Hp as [Hpok HpL]. pose proof Hn as [(Hna&_&Hnm) HnL].
  destruct (PrefixAfter_val prev (nts_Size n)) as [Hnext _]; [done|lia|lia|].
  rewrite HpL in Hnext. set (k := L - Z.min (pfx_bits prev) (nts_Size n)) in *.
  set (nx := (first_val prev / 2 ^ k + 1) * 2 ^ k) in *.
  assert (Hk : L - nts_Size n <= k <= L - pfx_bits (nts_Base n)) by (unfold k; lia).
  pose proof (Z.pow_pos_nonneg 2 k ltac:(lia) ltac:(lia)) as HP.
  pose proof (Z.div_mod (first_val prev) (2 ^ k) ltac:(lia)) as Hdm.
  pose proof (Z.mod_pos_bound (first_val prev) (2 ^ k) ltac:(lia)) as Hmb.
  (* the network ends at a multiple of the step *)
  assert (Hend : nx <= last_val (nts_Base n) + 1).
  { unfold host_bits in Hnm. rewrite HnL in Hnm. fold (first_val (nts_Base n)) in Hnm.
    pose proof (mod_pow_le _ k (L - pfx_bits (nts_Base n)) ltac:(lia) Hnm) as Hnm'.
    apply Z.mod_divide in Hnm' as [c Hc]; [|lia].
    assert (Hd : 2 ^ (L - pfx_bits (nts_Base n)) = 2 ^ (L - pfx_bits (nts_Base n) - k) * 2 ^ k)
      by (rewrite <- Z.pow_add_r by lia; f_equal; lia).
    rewrite Eln, Hc, Hd. set (d := 2 ^ (L - pfx_bits (nts_Base n) - k)) in *.
    assert (first_val prev / 2 ^ k < c + d); [|unfold nx; nia].
    apply Z.div_lt_upper_bound; [lia|]. nia. }
  unfold below_top in Htop. specialize (Hnext ltac:(lia)). fold next in Hnext.
  assert (Hlt : last_val prev < nx).
  { rewrite Elp. unfold nx. destruct (Z.le_ge_cases (pfx_bits prev) (nts_Size n)) as [Hle|Hge].
    - assert (Ek : L - pfx_bits prev = k) by (unfold k; lia). destruct Hpok as (_&_&Hpm).
      unfold host_bits in Hpm. rewrite HpL, Ek in Hpm. fold (first_val prev) in Hpm. rewrite Ek. lia.
    - (* the block of [Size] bits contains [prev] *)
      destruct Hpok as (_&_&Hpm). unfold host_bits in Hpm. rewrite HpL in Hpm.
      set (j := L - pfx_bits prev) in *. assert (Hjk : 0 <= j <= k) by (unfold j, k; lia).
      apply Z.mod_divide in Hpm as [c Hc]; [|lia]. fold (first_val prev) in Hc.
      assert (Hd : 2 ^ k = 2 ^ (k - j) * 2 ^ j) by (rewrite <- Z.pow_add_r by lia; f_equal; lia).
      set (d := 2 ^ (k - j)) in *. rewrite Hc, Hd in *. set (q := (c * 2 ^ j) / (d * 2 ^ j)) in *.
      assert (c < (q + 1) * d) by nia. nia. }
  rewrite Hnext. cbn [pfx_bits pfx_addr first_val]. unfold first_val at 1 2. cbn [pfx_addr].
  rewrite with_val_val by apply Hpok. split_and!; [|done|done|done].
  assert (Hv : addr_ok (with_val (pfx_addr prev) nx)).
  { split; [rewrite with_val_valid; apply Hpok|]. rewrite with_val_val, with_val_BitLen, HpL by apply Hpok. lia. }
  split; [|simpl; by rewrite with_val_BitLen]. split_and!; simpl; [done|lia| |].
  - rewrite with_val_BitLen, HpL. lia.
  - unfold host_bits. simpl. rewrite with_val_BitLen, HpL, with_val_val by apply Hpok.
    apply (mod_pow_le _ _ k); [lia|]. unfold nx. apply Z.mod_mul. lia.
Qed.
End Family.

(** ** The merging iterator *)

Lemma ple_refl L p : pool_ok L p -> ple p p.
Proof. intros Hp. unfold ple. rewrite (proj2 (proj2 (pool_cmp L p p Hp Hp))); [lia|done]. Qed.

Lemma ple_cases L p q : pool_ok L p -> pool_ok L q -> ple p q <-> plt p q \/ p = q.
Proof.
  intros Hp Hq. destruct (pool_cmp L p q Hp Hq) as [_ <-]. unfold ple, plt. lia.
Qed.

Lemma ple_first L p q : pool_ok L p -> pool_ok L q -> ple p q -> first_val p <= first_val q.
Proof.
  intros Hp Hq [H| ->]%(ple_cases L); [|lia|done|done].
  apply (pool_cmp L p q Hp Hq) in H. lia.
Qed.

Lemma plt_trans L p q r :
  pool_ok L p -> pool_ok L q -> pool_ok L r -> plt p q -> plt q r -> plt p r.
Proof.
  intros Hp Hq Hr. rewrite (proj1 (pool_cmp L p q Hp Hq)), (proj1 (pool_cmp L q r Hq Hr)),
    (proj1 (pool_cmp L p r Hp Hr)). lia.
Qed.

Lemma ple_trans L p q r :
  pool_ok L p -> pool_ok L q -> pool_ok L r -> ple p q -> ple q r -> ple p r.
Proof.
  intros Hp Hq Hr. rewrite !(ple_cases L) by done. intros [H1| ->] [H2| ->]; auto.
  left. by apply (plt_trans L p q r).
Qed.

Lemma ple_total L p q : pool_ok L p -> pool_ok L q -> ple p q \/ plt q p.
Proof.
  intros Hp Hq. rewrite (ple_cases L p q), (proj1 (pool_cmp L p q Hp Hq)),
    (proj1 (pool_cmp L q p Hq Hp)) by done.
  destruct (Z.eq_dec (first_val p) (first_val q)) as [E|], (Z.eq_dec (pfx_bits p) (pfx_bits q)); try lia.
  left. right. apply (pool_cmp L p q Hp Hq).
  destruct Hp as [_ Ep], Hq as [_ Eq]. apply PrefixCompare_spec; [congruence|done].
Qed.

(** [drop n l] starts with the element at [n], and all the rest follow it. *)
Lemma sorted_drop {A} (R : A -> A -> Prop) (l : list A) n x :
  StronglySorted R l -> l !! n = Some x -> forall y, y ∈ drop (S n) l -> R x y.
Proof.
  intros Hs Hx y Hy. rewrite <- (take_drop_middle l n x Hx) in Hs.
  apply StronglySorted_app_1_r in Hs. apply StronglySorted_inv in Hs as [_ Hall].
  rewrite Forall_forall in Hall. apply Hall. by apply list_elem_of_In.
Qed.

Section Iter.
Context (L : Z) (a b : list Prefix).
Hypothesis ab_ok : forall p, p ∈ a ++ b -> pool_ok L p.
Hypothesis a_sorted : StronglySorted ple a.
Hypothesis b_sorted : StronglySorted ple b.

(** The elements the iterator has passed and those to come. *)
Definition seen (i : mergeIter) : list Prefix := take (ia i) a ++ take (ib i) b.
Definition todo (i : mergeIter) : list Prefix := drop (ia i) a ++ drop (ib i) b.

Record it_ok (i : mergeIter) : Prop := {
  io_a : it_a i = a;
  io_b : it_b i = b;
  io_cmp : cmp i = PrefixCompare;
  io_last : lastA i = nextA i;
  io_ia : (ia i <= length a)%nat;
  io_ib : (ib i <= length b)%nat;
  io_order : forall x y, x ∈ seen i -> y ∈ todo i -> ple x y
}.

Lemma seen_todo i p : p ∈ a ++ b <-> p ∈ seen i \/ p ∈ todo i.
Proof.
  unfold seen, todo. rewrite <- (take_drop (ia i) a) at 1. rewrite <- (take_drop (ib i) b) at 1.
  rewrite !elem_of_app. tauto.
Qed.

Lemma newMergeIter_ok : it_ok (newMergeIter a b PrefixCompare).
Proof.
  constructor; try done; simpl; try lia. intros x y Hx. unfold seen in Hx. simpl in Hx. by apply elem_of_nil in Hx.
Qed.

(** The step over the current element [p]. *)
Record advance (i i' : mergeIter) (p : Prefix) : Prop := {
  ad_ok : it_ok i';
  ad_seen : forall q, q ∈ seen i' <-> q = p \/ q ∈ seen i;
  ad_todo : forall q, q ∈ todo i <-> q = p \/ q ∈ todo i';
  ad_min : forall q, q ∈ todo i -> ple p q;
  ad_len : (ia i' + ib i' = S (ia i + ib i))%nat
}.

Lemma drop_elem (l : list Prefix) n x q :
  l !! n = Some x -> q ∈ drop n l <-> q = x \/ q ∈ drop (S n) l.
Proof. intros Hx. rewrite (drop_S l x n Hx). apply elem_of_cons. Qed.

Lemma take_elem (l : list Prefix) n x q :
  l !! n = Some x -> q ∈ take (S n) l <-> q = x \/ q ∈ take n l.
Proof. intros Hx. rewrite (take_S_r l n x Hx), elem_of_app, list_elem_of_singleton. tauto. Qed.

Lemma lookup_ok l n x : l = a \/ l = b -> l !! n = Some x -> pool_ok L x.
Proof.
  intros Hl Hx%list_elem_of_lookup_2. apply ab_ok. rewrite elem_of_app. destruct Hl; subst; auto.
Qed.

(** The element at the position is the least of its slice's rest. *)
Lemma drop_min l n x :
  l = a \/ l = b -> StronglySorted ple l -> l !! n = Some x -> forall q, q ∈ drop n l -> ple x q.
Proof.
  intros Hl Hs Hx q [->|Hq]%(drop_elem l n x q Hx); [|by eapply sorted_drop].
  by apply (ple_refl L), (lookup_ok l n).
Qed.

Lemma drop_ok l n q : l = a \/ l = b -> q ∈ drop n l -> pool_ok L q.
Proof.
  intros Hl Hq. apply ab_ok, elem_of_app. rewrite <- (take_drop n l) in Hl.
  destruct Hl as [<-|<-]; [left|right]; apply elem_of_app; by right.
Qed.

(** Moving one of the two positions, when its element [p] is the least. *)
Lemma advance_intro i p :
  it_ok i ->
  (lastA i = true /\ a !! ia i = Some p \/ lastA i = false /\ b !! ib i = Some p) ->
  (forall q, q ∈ todo i -> ple p q) ->
  Get i = GoOk p /\ p ∈ todo i /\ advance i (Inc i) p.
Proof.
  intros Hi Hcase Hmin. destruct i as [a' b' n m c la]. pose proof Hi as [Ea Eb Ec El Hn Hm Hord].
  simpl in *. subst a' b' c. clear El.
  assert (Hget : Get (mkMergeIter a b n m PrefixCompare la) = GoOk p).
  { unfold Get. simpl. destruct Hcase as [[-> Hx]|[-> Hx]]; rewrite Hx; apply lookup_lt_Some in Hx;
      (destruct (Nat.leb_spec (length a + length b) (n + m)); [lia|done]). }
  set (i := mkMergeIter a b n m PrefixCompare la) in *.
  assert (Hs : forall q, q ∈ seen (Inc i) <-> q = p \/ q ∈ seen i).
  { intros q. unfold seen, Inc, i. destruct Hcase as [[-> Hx]|[-> Hx]]; simpl; rewrite !elem_of_app;
      [rewrite (take_elem a n p q Hx)|rewrite (take_elem b m p q Hx)]; tauto. }
  assert (Ht : forall q, q ∈ todo i <-> q = p \/ q ∈ todo (Inc i)).
  { intros q. unfold todo, Inc, i. destruct Hcase as [[-> Hx]|[-> Hx]]; simpl; rewrite !elem_of_app;
      [rewrite (drop_elem a n p q Hx)|rewrite (drop_elem b m p q Hx)]; tauto. }
  split; [done|]. split; [apply Ht; by left|]. constructor; [|done|done|done|].
  - constructor; unfold Inc, i; destruct Hcase as [[-> Hx]|[-> Hx]];
      pose proof (lookup_lt_Some _ _ _ Hx); simpl; try done; try lia;
      (intros x y Hx' Hy; apply Hs in Hx' as [->|Hx'];
       [apply Hmin, Ht; by right|apply Hord; [done|apply Ht; by right]]).
  - unfold Inc, i; destruct Hcase as [[-> Hx]|[-> Hx]]; simpl; lia.
Qed.

Lemma Get_cases i :
  it_ok i ->
  (todo i = [] /\ Get i = GoOk PrefixZero)
  \/ (exists p, Get i = GoOk p /\ p ∈ todo i /\ advance i (Inc i) p).
Proof.
  intros Hi. pose proof Hi as [Ea Eb Ec El Hn Hm _].
  unfold nextA in El. rewrite Ea, Eb, Ec in El.
  assert (Ha : forall x, a !! ia i = Some x -> forall q, q ∈ drop (ia i) a -> ple x q)
    by (intros x; apply drop_min; auto).
  assert (Hb : forall y, b !! ib i = Some y -> forall q, q ∈ drop (ib i) b -> ple y q)
    by (intros y; apply drop_min; auto).
  destruct (a !! ia i) as [x|] eqn:Hx, (b !! ib i) as [y|] eqn:Hy.
  - right. pose proof (lookup_ok a _ x (or_introl eq_refl) Hx) as Hxo.
    pose proof (lookup_ok b _ y (or_intror eq_refl) Hy) as Hyo.
    destruct (Z.leb_spec (PrefixCompare x y) 0) as [Hle|Hgt].
    + exists x. apply advance_intro; [done|by left|]. intros q [Hq|Hq]%elem_of_app; [by apply Ha|].
      apply (ple_trans L x y q); auto. by apply (drop_ok b (ib i)); [right|].
    + exists y. apply advance_intro; [done|by right|]. intros q [Hq|Hq]%elem_of_app; [|by apply Hb].
      apply (ple_trans L y x q); auto; [by apply (drop_ok a (ia i)); [left|]|].
      destruct (ple_total L y x) as [|Hlt]; [done|done|done|]. unfold plt in Hlt. lia.
  - right. exists x. apply advance_intro; [done|by left|].
    apply lookup_ge_None in Hy. unfold todo. rewrite (drop_ge b), app_nil_r by done. auto.
  - right. exists y. apply advance_intro; [done|by right|].
    apply lookup_ge_None in Hx. unfold todo. rewrite (drop_ge a) by done. auto.
  - left. apply lookup_ge_None in Hx, Hy. split; [unfold todo; by rewrite !drop_ge by done|].
    unfold Get. rewrite Ea, Eb. destruct (Nat.leb_spec (length a + length b) (ia i + ib i)); [done|lia].
Qed.
End Iter.

(** ** The search of allocatePredefinedPool *)

(** The predefined networks follow each other. *)
Definition nts_before (m n : NetworkToSplit) : Prop :=
  last_val (nts_Base m) < first_val (nts_Base n).

(** No entry lies properly inside another one. *)
Definition flat (l : list Prefix) : Prop :=
  forall p q, p ∈ l -> q ∈ l -> Overlaps p q = true -> p = q.

Section Search.
Context (L : Z) (a b : list Prefix) (pools : list NetworkToSplit).
Hypothesis ab_ok : forall p, p ∈ a ++ b -> pool_ok L p.
Hypothesis a_sorted : StronglySorted ple a.
Hypothesis b_sorted : StronglySorted ple b.
Hypothesis pools_ok : forall n, n ∈ pools -> nts_ok L n /\ below_top L n.
Hypothesis pools_sorted : StronglySorted nts_before pools.
Hypothesis ab_flat : flat (a ++ b).
Implicit Types (v : pdfSearch) (pdf : NetworkToSplit).

(** Loop invariant: what has been passed lies before the current network, or, after a
    partial overlap, ends at [prevAlloc] inside it. *)
Definition search_inv v : Prop :=
  it_ok a b (it v)
  /\ forall pdf, pools !! pdfID v = Some pdf ->
     if partialOverlap v then
       prevAlloc v ∈ a ++ b /\ pfx_bits (nts_Base pdf) < pfx_bits (prevAlloc v)
       /\ first_val (nts_Base pdf) <= first_val (prevAlloc v)
       /\ last_val (prevAlloc v) <= last_val (nts_Base pdf)
       /\ (forall q, q ∈ seen a b (it v) -> last_val q <= last_val (prevAlloc v))
       /\ (forall q, q ∈ todo a b (it v) -> first_val (prevAlloc v) <= first_val q)
     else forall q, q ∈ seen a b (it v) -> last_val q < first_val (nts_Base pdf).

(** What a found subnet satisfies. *)
Definition found v (subnet : Prefix) : Prop :=
  pool_ok L subnet
  /\ (exists pdf, pdf ∈ pools /\ pfx_bits subnet = nts_Size pdf
        /\ first_val (nts_Base pdf) <= first_val subnet /\ last_val subnet <= last_val (nts_Base pdf))
  /\ (forall q, q ∈ seen a b (it v) -> last_val q < first_val subnet)
  /\ (forall q, q ∈ todo a b (it v) -> last_val subnet < first_val q)
  /\ it_ok a b (it v).

Definition measure v : nat :=
  (length a + length b - (ia (it v) + ib (it v)) + (length pools - pdfID v))%nat.

Lemma pools_next i m n : pools !! i = Some m -> pools !! S i = Some n -> nts_before m n.
Proof.
  intros Hm Hn. apply (sorted_drop nts_before pools i m pools_sorted Hm).
  apply list_elem_of_lookup. exists 0%nat. by rewrite lookup_drop, Nat.add_0_r.
Qed.

Lemma pools_at i n : pools !! i = Some n -> n ∈ pools /\ nts_ok L n /\ below_top L n.
Proof. intros Hn%list_elem_of_lookup_2. split; [done|]. by apply pools_ok. Qed.

(** Of two entries the one that starts first ends first. *)
Lemma flat_last p q : p ∈ a ++ b -> q ∈ a ++ b -> first_val p <= first_val q -> last_val p <= last_val q.
Proof.
  intros Hp Hq Hle. destruct (Overlaps p q) eqn:Ho; [by rewrite (ab_flat p q Hp Hq Ho)|].
  pose proof (pool_interval L q (ab_ok q Hq)).
  apply (pool_disjoint L) in Ho as [?|?]; auto; lia.
Qed.

(** Giving up on a network that everything seen ends in. *)
Lemma next_pdf v prev i pdf :
  it_ok a b i -> pools !! pdfID v = Some pdf ->
  (forall q, q ∈ seen a b i -> last_val q <= last_val (nts_Base pdf)) ->
  search_inv (mkPdfSearch (S (pdfID v)) false prev i).
Proof.
  intros Hi Hpdf Hseen. split; [done|]. simpl. intros pdf' Hpdf' q Hq.
  pose proof (pools_next _ _ _ Hpdf Hpdf') as Hb. unfold nts_before in Hb. specialize (Hseen q Hq). lia.
Qed.

(** The subnet at the start of an untouched network. *)
Lemma found_first v pdf :
  search_inv v -> pools !! pdfID v = Some pdf -> partialOverlap v = false ->
  (forall q, q ∈ todo a b (it v) -> first_val (nts_Base pdf) + 2 ^ (L - nts_Size pdf) <= first_val q) ->
  found v (PrefixFrom (pfx_addr (nts_Base pdf)) (nts_Size pdf)).
Proof.
  intros [Hi Hinv] Hpdf Hpo Htodo. specialize (Hinv pdf Hpdf). rewrite Hpo in Hinv.
  destruct (pools_at _ _ Hpdf) as (Hin&(Hok&Hsz&Hpos)&Htop).
  destruct (pool_head L _ _ Hok Hsz) as (Hh&->&Hlast).
  pose proof (pool_bits L _ Hh) as (_&_&El&_). unfold first_val in El at 1. simpl in El.
  fold (first_val (nts_Base pdf)) in El.
  split_and!; [done| |done| |done].
  - exists pdf. split_and!; [done|done|done|]. rewrite El. lia.
  - intros q Hq. specialize (Htodo q Hq). rewrite El. lia.
Qed.

(** The subnet after the last partial overlap. *)
Lemma found_after v pdf :
  search_inv v -> pools !! pdfID v = Some pdf -> partialOverlap v = true ->
  let next := PrefixAfter (prevAlloc v) (nts_Size pdf) in
  pool_ok L next /\ pfx_bits next = nts_Size pdf /\ first_val (nts_Base pdf) <= first_val next
  /\ ((forall q, q ∈ todo a b (it v) -> last_val next < first_val q) ->
      last_val next <= last_val (nts_Base pdf) -> found v next).
Proof.
  intros [Hi Hinv] Hpdf Hpo next. specialize (Hinv pdf Hpdf). rewrite Hpo in Hinv.
  destruct Hinv as (Hprev&Hbits&Hf&Hl&Hseen&Htodo).
  destruct (pools_at _ _ Hpdf) as (Hin&Hnts&Htop).
  destruct (PrefixAfter_next L pdf (prevAlloc v)) as (H1&H2&H3&H4); auto. fold next in H1, H2, H3, H4.
  pose proof (pool_interval L _ (ab_ok _ Hprev)).
  split_and!; [done|done|lia|]. intros Ht Hle. split_and!; [done| | |done|done].
  - exists pdf. split_and!; [done|done|lia|done].
  - intros q Hq. specialize (Hseen q Hq). lia.
Qed.

(** ... is used when it overlaps the network, and then nothing to come is in the way. *)
Lemma found_after_overlaps v pdf :
  search_inv v -> pools !! pdfID v = Some pdf -> partialOverlap v = true ->
  NtsOverlaps pdf (PrefixAfter (prevAlloc v) (nts_Size pdf)) = true ->
  (forall q, q ∈ todo a b (it v) -> last_val (nts_Base pdf) < first_val q) ->
  found v (PrefixAfter (prevAlloc v) (nts_Size pdf)).
Proof.
  intros Hinv Hpdf Hpo Ho Htodo. destruct (found_after v pdf Hinv Hpdf Hpo) as (H1&H2&H3&Hfound).
  destruct (pools_at _ _ Hpdf) as (Hin&(Hok&Hsz&Hpos)&Htop).
  destruct (pool_nested L (nts_Base pdf) (PrefixAfter (prevAlloc v) (nts_Size pdf))) as [? Hle]; auto; [lia|].
  apply Hfound; [|done]. intros q Hq. specialize (Htodo q Hq). lia.
Qed.

Lemma prev_last v pdf :
  search_inv v -> pools !! pdfID v = Some pdf ->
  forall q, q ∈ seen a b (it v) -> last_val q <= last_val (nts_Base pdf).
Proof.
  intros [Hi Hinv] Hpdf q Hq. specialize (Hinv pdf Hpdf).
  destruct (pools_at _ _ Hpdf) as (_&(Hok&_)&_). pose proof (pool_interval L _ Hok).
  destruct (partialOverlap v).
  - destruct Hinv as (_&_&_&Hl&Hseen&_). specialize (Hseen q Hq). lia.
  - specialize (Hinv q Hq). lia.
Qed.

(** The current element [c] of the iterator, in the round with network [pdf]. *)
Record current v (c : Prefix) pdf : Prop := {
  cu_inv : search_inv v;
  cu_adv : advance a b (it v) (Inc (it v)) c;
  cu_todo : c ∈ todo a b (it v);
  cu_pdf : pools !! pdfID v = Some pdf
}.

Lemma current_facts v c pdf :
  current v c pdf ->
  c ∈ a ++ b /\ pool_ok L c /\ nts_ok L pdf
  /\ (forall q, q ∈ todo a b (it v) -> first_val c <= first_val q)
  /\ (forall q, q ∈ seen a b (it v) -> last_val q <= last_val c).
Proof.
  intros [[Hi _] Hadv Hc Hpdf]. assert (Hcin : c ∈ a ++ b) by (apply (seen_todo a b (it v)); by right).
  split_and!; [done|by apply ab_ok|by apply (pools_at _ _ Hpdf)| |].
  - intros q Hq. apply (ple_first L); [by apply ab_ok| |by apply (ad_min _ _ _ _ _ Hadv)].
    apply ab_ok, (seen_todo a b (it v)). by right.
  - intros q Hq. assert (q ∈ a ++ b) by (apply (seen_todo a b (it v)); by left).
    apply flat_last; [done|done|]. apply (ple_first L); [by apply ab_ok|by apply ab_ok|].
    by apply (io_order _ _ _ Hi).
Qed.

Lemma current_bound v c pdf :
  current v c pdf -> (ia (it v) + ib (it v) < length a + length b)%nat /\ (pdfID v < length pools)%nat.
Proof.
  intros [_ Hadv _ Hpdf%lookup_lt_Some]. pose proof (io_ia _ _ _ (ad_ok _ _ _ _ _ Hadv)).
  pose proof (io_ib _ _ _ (ad_ok _ _ _ _ _ Hadv)). pose proof (ad_len _ _ _ _ _ Hadv). lia.
Qed.

(** [c] lies inside the network: is there room before it? *)
Lemma inside_room v c pdf :
  current v c pdf -> first_val (nts_Base pdf) <= first_val c ->
  (partialOverlap v = false ->
   1 <= SubnetsBetween (pfx_addr (FirstPrefix pdf)) (pfx_addr c) (nts_Size pdf) ->
   found v (FirstPrefix pdf))
  /\ (partialOverlap v = true -> last_val c <= last_val (nts_Base pdf) ->
      1 <= SubnetsBetween (pfx_addr (PrefixAfter (prevAlloc v) (nts_Size pdf))) (pfx_addr c) (nts_Size pdf) ->
      found v (PrefixAfter (prevAlloc v) (nts_Size pdf))).
Proof.
  intros Hcur Hin. destruct (current_facts v c pdf Hcur) as (Hcin&Hco&(Hbok&Hsz&Hpos)&Hmin&_).
  destruct Hcur as [Hinv _ _ Hpdf]. split.
  - intros Hpo Hroom. apply found_first; [done|done|done|]. intros q Hq. specialize (Hmin q Hq).
    destruct (pool_head L _ _ Hbok Hsz) as (Hh&Ef&_). unfold FirstPrefix in Hroom. rewrite Ef in Hroom.
    simpl in Hroom. destruct Hh as [(Ha&_&Hm) E]. unfold host_bits in Hm. simpl in Ha, Hm, E. rewrite E in Hm.
    apply (SubnetsBetween_room L) in Hroom; [|done|apply Hco|done|apply Hco|lia|done]. unfold first_val in *. lia.
  - intros Hpo Hlast Hroom. destruct (found_after v pdf Hinv Hpdf Hpo) as (Hn&Hb&Hf&Hfound).
    set (next := PrefixAfter (prevAlloc v) (nts_Size pdf)) in *.
    pose proof (pool_bits L next Hn) as (_&_&El&_). pose proof (pool_interval L c Hco).
    pose proof Hn as [(Ha&_&Hm) E]. unfold host_bits in Hm. rewrite E, Hb in Hm. rewrite Hb in El.
    apply (SubnetsBetween_room L) in Hroom; [|done|apply Hco|done|apply Hco|lia|done].
    fold (first_val next) in Hroom. fold (first_val c) in Hroom.
    apply Hfound; [|lia]. intros q Hq. specialize (Hmin q Hq). lia.
Qed.

(** Passing over [c]. *)
Lemma pass_inside v c pdf :
  current v c pdf -> pfx_bits (nts_Base pdf) < pfx_bits c ->
  first_val (nts_Base pdf) <= first_val c -> last_val c <= last_val (nts_Base pdf) ->
  search_inv (mkPdfSearch (S (pdfID v)) false PrefixZero (Inc (it v)))
  /\ search_inv (mkPdfSearch (pdfID v) true c (Inc (it v))).
Proof.
  intros Hcur Hbits Hf Hl. destruct (current_facts v c pdf Hcur) as (Hcin&Hco&_&Hmin&Hseen).
  destruct Hcur as [Hinv Hadv _ Hpdf].
  assert (Hseen' : forall q, q ∈ seen a b (Inc (it v)) -> last_val q <= last_val c).
  { intros q [->|Hq]%(ad_seen _ _ _ _ _ Hadv); [lia|by apply Hseen]. }
  split.
  - eapply next_pdf; [apply Hadv|done|]. intros q Hq. specialize (Hseen' q Hq). lia.
  - split; [apply Hadv|]. simpl. intros pdf' Hpdf'. assert (pdf' = pdf) as -> by congruence.
    split_and!; try done. intros q Hq. apply Hmin, (ad_todo _ _ _ _ _ Hadv). by right.
Qed.

(** [c] does not touch the network and starts after the last partial overlap, or
    after the network's start: everything to come lies behind it. *)
Lemma outside_after v c pdf :
  current v c pdf -> Overlaps c (nts_Base pdf) = false -> first_val (nts_Base pdf) <= first_val c ->
  forall q, q ∈ todo a b (it v) -> last_val (nts_Base pdf) < first_val q.
Proof.
  intros Hcur Hov Hf q Hq. destruct (current_facts v c pdf Hcur) as (Hcin&Hco&(Hbok&_)&Hmin&_).
  specialize (Hmin q Hq). pose proof (pool_interval L _ Hco).
  apply (pool_disjoint L) in Hov as [?|?]; [lia|lia|done|done].
Qed.

Lemma pass_before v c pdf prev :
  current v c pdf -> Overlaps c (nts_Base pdf) = false -> first_val c <= first_val (nts_Base pdf) ->
  search_inv (mkPdfSearch (pdfID v) false prev (Inc (it v))).
Proof.
  intros Hcur Hov Hf. destruct (current_facts v c pdf Hcur) as (Hcin&Hco&(Hbok&_)&Hmin&Hseen).
  destruct Hcur as [Hinv Hadv _ Hpdf]. split; [apply Hadv|]. simpl. intros pdf' Hpdf' q Hq.
  assert (pdf' = pdf) as -> by congruence. pose proof (pool_interval L _ Hbok).
  assert (Hlc : last_val c < first_val (nts_Base pdf)).
  { apply (pool_disjoint L) in Hov as [?|?]; [lia|lia|done|done]. }
  apply (ad_seen _ _ _ _ _ Hadv) in Hq as [->|Hq]; [done|]. specialize (Hseen q Hq). lia.
Qed.

Definition step_ok v (r : searchStep) : Prop :=
  match r with
  | Continue v' => search_inv v' /\ (pdfID v' <= length pools)%nat /\ (measure v' < measure v)%nat
  | Break v' => v' = v /\ todo a b (it v) = []
  | MakeAlloc v' subnet => v' = v /\ found v subnet
  | Fail e => e = ErrNoMoreSubnets
  | Panic => False
  end.

Lemma continue_ok v c pdf v' :
  current v c pdf -> search_inv v' ->
  (pdfID v' = S (pdfID v) /\ it v' = it v
   \/ (pdfID v' = pdfID v \/ pdfID v' = S (pdfID v)) /\ it v' = Inc (it v)) ->
  step_ok v (Continue v').
Proof.
  intros Hcur Hinv Hv'. destruct (current_bound v c pdf Hcur). destruct Hcur as [_ Hadv _ _].
  pose proof (ad_len _ _ _ _ _ Hadv). simpl. unfold measure.
  destruct Hv' as [[-> ->]|[[->| ->] ->]]; split_and!; done || lia.
Qed.

Lemma searchBody_spec v :
  search_inv v -> step_ok v (searchBody pools v).
Proof.
  intros Hinv. pose proof Hinv as [Hi Hpart]. unfold searchBody.
  destruct (Get_cases L a b ab_ok a_sorted b_sorted (it v) Hi) as [[Ht ->]|(c&->&Hc&Hadv)]; [done|].
  assert (Hco : pool_ok L c) by (apply ab_ok, (seen_todo a b (it v)); by right).
  rewrite decide_False by (by eapply pool_not_zero).
  destruct (pools !! pdfID v) as [pdf|] eqn:Hpdf; [|done].
  assert (Hcur : current v c pdf) by done. destruct (pools_at _ _ Hpdf) as (_&(Hbok&_)&_).
  specialize (Hpart pdf eq_refl). destruct (Overlaps c (nts_Base pdf)) eqn:Hov.
  - destruct (Z.leb_spec (pfx_bits c) (pfx_bits (nts_Base pdf))) as [Hle|Hgt].
    { eapply continue_ok; [done| |by left]. eapply next_pdf; [done|done|by apply prev_last]. }
    destruct (pool_nested L (nts_Base pdf) c) as [Hf Hl]; [done|done| |lia|].
    { by apply (Overlaps_sym L). }
    destruct (inside_room v c pdf Hcur Hf) as [Hfirst Hafter].
    destruct (pass_inside v c pdf Hcur ltac:(lia) Hf Hl) as [Hnext Hpass].
    destruct (negb (partialOverlap v) && _) eqn:Hroom1.
    { apply andb_true_iff in Hroom1 as [Hpo%negb_true_iff Hr%Z.leb_le]. split; [done|auto]. }
    cbv zeta. destruct (partialOverlap v && _) eqn:Hroom2.
    { apply andb_true_iff in Hroom2 as [Hpo Hr%Z.leb_le]. split; [done|auto]. }
    case_decide; eapply continue_ok; try done; right; auto.
  - destruct (partialOverlap v) eqn:Hpo.
    + destruct Hpart as (_&_&Hfp&_&_&Htodo). specialize (Htodo c Hc).
      destruct (NtsOverlaps pdf _) eqn:Hno.
      * split; [done|]. apply found_after_overlaps; try done. apply (outside_after v c pdf); try done. lia.
      * eapply continue_ok; [done| |by left]. eapply next_pdf; [done|done|by apply prev_last].
    + assert (HE : BitLen (pfx_addr (nts_Base pdf)) = BitLen (pfx_addr c))
        by (by rewrite (proj2 Hbok), (proj2 Hco)).
      rewrite Less_spec by done. destruct (Z.ltb_spec (addr_val (pfx_addr (nts_Base pdf))) (addr_val (pfx_addr c))).
      * split; [done|]. apply found_first; try done. intros q Hq.
        destruct (pools_at _ _ Hpdf) as (_&(_&Hsz&_)&_). destruct (pool_head L _ _ Hbok Hsz) as (_&_&Hh).
        pose proof (outside_after v c pdf Hcur Hov ltac:(unfold first_val; lia) q Hq). lia.
      * eapply continue_ok; [done| |right; auto]. apply (pass_before v c pdf); try done.
Qed.

Lemma searchEnd_spec v :
  search_inv v -> todo a b (it v) = [] ->
  match searchEnd pools v with
  | MakeAlloc v' subnet => it v' = it v /\ found v subnet
  | Fail e => e = ErrNoMoreSubnets
  | _ => False
  end.
Proof.
  intros Hinv Ht. unfold searchEnd. destruct (Nat.leb_spec (length pools) (pdfID v)); [done|].
  destruct (lookup_lt_is_Some_2 pools (pdfID v)) as [pdf Hpdf]; [done|].
  assert (Hempty : forall P : Prefix -> Prop, forall q, q ∈ todo a b (it v) -> P q).
  { intros P q. rewrite Ht. by intros ?%elem_of_nil. }
  destruct (partialOverlap v) eqn:Hpo.
  - rewrite Hpdf. cbv zeta. destruct (NtsOverlaps pdf _) eqn:Hno.
    + split; [done|]. apply found_after_overlaps; try done. by apply Hempty.
    + destruct (pools !! S (pdfID v)) as [pdf'|] eqn:Hpdf'; [|done]. split; [done|].
      assert (Hinv' : search_inv (mkPdfSearch (S (pdfID v)) false PrefixZero (it v))).
      { eapply next_pdf; [apply Hinv|done|by apply prev_last]. }
      apply (found_first _ pdf' Hinv'); try done. by apply Hempty.
  - rewrite Hpdf. split; [done|]. apply found_first; try done. by apply Hempty.
Qed.

Lemma searchLoop_spec fuel v :
  search_inv v -> (measure v < fuel)%nat ->
  (exists v' subnet, searchLoop fuel pools v = Some (MakeAlloc v' subnet) /\ found v' subnet)
  \/ searchLoop fuel pools v = Some (Fail ErrNoMoreSubnets).
Proof.
  revert v. induction fuel as [|fuel IH]; intros v Hinv Hf; [lia|]. cbn [searchLoop].
  pose proof (searchBody_spec v Hinv) as H. destruct (searchBody pools v) as [v'|v'|v' sn|e|]; simpl in H.
  - destruct H as (Hinv'&_&Hm). apply IH; [done|lia].
  - destruct H as [-> Ht]. pose proof (searchEnd_spec v Hinv Ht) as He.
    destruct (searchEnd pools v) as [v'|v'|v' sn|e|]; try done; [|subst e; by right].
    destruct He as [Eit Hfound]. left. exists v', sn. split; [done|].
    unfold found in *. by rewrite Eit.
  - destruct H as [-> Hfound]. left. by exists v, sn.
  - subst e. by right.
  - done.
Qed.
End Search.

(** ** The invariant of an address space *)

Record data_ok (p : Prefix) (d : PoolData) : Prop := {
  do_valid : valid (addrs d);
  do_pool : as_pool (addrs d) = p;
  do_auto : autoRelease d = true -> children d <> ∅;
  do_children : forall c, c ∈ children d -> prefix_ok c
}.

Record space_ok (L : Z) (s : addrSpace) : Prop := {
  so_pools : forall p, p ∈ allocated s -> pool_ok L p;
  so_sorted : StronglySorted plt (allocated s);
  so_keys : forall p, p ∈ allocated s <-> is_Some (subnets s !! p);
  so_data : forall p d, subnets s !! p = Some d -> data_ok p d;
  so_pre : forall n, n ∈ predefined s -> nts_ok L n;
  so_pre_sorted : StronglySorted nts_before (predefined s)
}.

Lemma sorted_plt_ple l : StronglySorted plt l -> StronglySorted ple l.
Proof.
  induction 1 as [|p l Hs IH Hall]; constructor; [done|].
  apply (Forall_impl _ (P:=plt p)); [|done]. intros q. unfold plt, ple. lia.
Qed.

Lemma plt_irrefl L p : pool_ok L p -> ~ plt p p.
Proof. intros Hp. rewrite (proj1 (pool_cmp L p p Hp Hp)). lia. Qed.

(** A strictly sorted list is cut by any prefix. *)
Lemma sorted_cut L l nw :
  StronglySorted plt l -> (forall p, p ∈ l -> pool_ok L p) -> pool_ok L nw ->
  exists n, (n <= length l)%nat /\ (forall k x, l !! k = Some x -> (k < n)%nat <-> plt x nw).
Proof.
  induction 1 as [|p l Hs IH Hall]; intros Hok Hnw; [by exists 0%nat|].
  destruct IH as (n&Hn&Hcut); [intros; apply Hok; by right|done|].
  destruct (ple_total L nw p) as [Hle|Hlt]; [done|apply Hok; by left| |].
  - exists 0%nat. split; [lia|]. intros k x Hx. split; [lia|]. intros Hlt. exfalso.
    assert (Hxo : pool_ok L x) by (apply Hok; by eapply list_elem_of_lookup_2).
    assert (Hpo : pool_ok L p) by (apply Hok; by left).
    assert (Hpx : ple p x).
    { destruct k as [|k]; simpl in Hx; [injection Hx as ->; by apply (ple_refl L)|].
      unfold ple. rewrite Forall_forall in Hall. specialize (Hall x).
      assert (plt p x) as H; [|unfold plt in H; lia].
      apply Hall, list_elem_of_In. by eapply list_elem_of_lookup_2. }
    apply (plt_irrefl L nw Hnw).
    rewrite (ple_cases L) in Hle, Hpx by done.
    assert (Hpn : plt p nw) by (destruct Hpx as [?| ->]; [by apply (plt_trans L p x nw)|done]).
    destruct Hle as [?| ->]; [by apply (plt_trans L nw p nw)|done].
  - exists (S n). split; [simpl; lia|]. intros [|k] x Hx; simpl in Hx.
    + injection Hx as ->. split; [done|lia].
    + rewrite <- (Hcut k x Hx). lia.
Qed.

Lemma search_found L l nw :
  StronglySorted plt l -> (forall p, p ∈ l -> pool_ok L p) -> pool_ok L nw ->
  exists n, (n <= length l)%nat /\ (forall k x, l !! k = Some x -> (k < n)%nat <-> plt x nw)
  /\ BinarySearchFunc l nw PrefixCompare = (n, bool_decide (nw ∈ l))
  /\ (nw ∈ l -> l !! n = Some nw).
Proof.
  intros Hs Hok Hnw. destruct (sorted_cut L l nw Hs Hok Hnw) as (n&Hn&Hcut). exists n.
  rewrite (BinarySearchFunc_spec l nw PrefixCompare n Hn Hcut).
  assert (Hat : nw ∈ l -> l !! n = Some nw).
  { intros Hin. apply list_elem_of_lookup in Hin as [k Hk].
    destruct (Nat.lt_trichotomy k n) as [Hlt|[->|Hgt]]; [|done|].
    - apply (Hcut k nw Hk) in Hlt. by apply (plt_irrefl L) in Hlt.
    - destruct (l !! n) as [x|] eqn:Hx; [|apply lookup_ge_None in Hx; apply lookup_lt_Some in Hk; lia].
      assert (Hxn : plt x nw).
      { apply (sorted_drop plt l n x Hs Hx). apply list_elem_of_lookup. exists (k - S n)%nat.
        rewrite lookup_drop. rewrite <- Hk. f_equal. lia. }
      apply (Hcut n x Hx) in Hxn. lia. }
  split_and!; [done|done| |done]. f_equal. case_bool_decide as Hin.
  - rewrite (Hat Hin). apply Z.eqb_eq. by apply (pool_cmp L).
  - destruct (l !! n) as [x|] eqn:Hx; [|done]. apply Z.eqb_neq. intros E. apply Hin.
    apply (pool_cmp L) in E as ->; [by eapply list_elem_of_lookup_2| |done].
    apply Hok. by eapply list_elem_of_lookup_2.
Qed.

(** Inserting at the cut keeps the order. *)
Lemma insert_sorted (R : Prefix -> Prefix -> Prop) l n x :
  StronglySorted R l -> (forall p, p ∈ take n l -> R p x) -> (forall p, p ∈ drop n l -> R x p) ->
  StronglySorted R (insert_at n x l).
Proof.
  intros Hs Hb Ha. unfold insert_at. rewrite <- (take_drop n l) in Hs.
  apply StronglySorted_app in Hs as (Hord&H1&H2). apply StronglySorted_app. split_and!; [|done|].
  - intros p q Hp [->|Hq]%elem_of_cons; auto.
  - constructor; [done|]. apply Forall_forall. intros q Hq%list_elem_of_In. by apply Ha.
Qed.

Lemma delete_sorted (R : Prefix -> Prefix -> Prop) l n :
  StronglySorted R l -> StronglySorted R (delete_at n l).
Proof.
  intros Hs. unfold delete_at. destruct (l !! n) as [x|] eqn:Hx.
  - rewrite <- (take_drop_middle l n x Hx) in Hs. apply StronglySorted_app in Hs as (Hord&H1&H2).
    apply StronglySorted_inv in H2 as [H2 _]. apply StronglySorted_app. split_and!; [|done|done].
    intros p q Hp Hq. apply Hord; [done|by right].
  - apply lookup_ge_None in Hx. by rewrite take_ge, drop_ge, app_nil_r by lia.
Qed.

Lemma plt_ne L p q : pool_ok L p -> plt p q -> p <> q.
Proof. intros Hp H ->. by apply (plt_irrefl L q). Qed.

Lemma sorted_NoDup L l : (forall p, p ∈ l -> pool_ok L p) -> StronglySorted plt l -> NoDup l.
Proof.
  intros Hok. induction 1 as [|p l Hs IH Hall]; constructor.
  - intros Hin. rewrite Forall_forall in Hall. apply (plt_irrefl L p); [apply Hok; by left|].
    by apply Hall, list_elem_of_In.
  - apply IH. intros; apply Hok; by right.
Qed.

(** ** New pools *)

Lemma LastAddr_ok L p : pool_ok L p -> addr_ok (LastAddr p).
Proof.
  intros Hp. pose proof (pool_interval L p Hp) as Hi. pose proof (pool_bits L p Hp) as (HL&Hb&_).
  destruct Hp as [Hpo HpL]. destruct (Z.eq_dec (first_val p) 0) as [E|Hne].
  - unfold LastAddr, Prev. unfold first_val in E. rewrite E. simpl. rewrite Add_zero.
    + split; [done|]. simpl. apply Z.mod_pos_bound. lia.
    + unfold is_u64. lia.
    + rewrite HpL. unfold wrap64. apply Z.mod_pos_bound. lia.
  - assert (Hh : host_bits p < BitLen (pfx_addr p)).
    { pose proof Hpo as ((_&Hr)&_&Hm). unfold host_bits. enough (pfx_bits p <> 0) by lia. intros E0.
      unfold host_bits in Hm. rewrite E0, Z.sub_0_r, Z.mod_small in Hm by done. unfold first_val in Hne. lia. }
    rewrite LastAddr_val by (done || lia). pose proof Hpo as ((Hv&_)&_).
    split; [by rewrite with_val_valid|]. rewrite with_val_val, with_val_BitLen, HpL by done. lia.
Qed.

(** The addresses a new pool keeps for itself. *)
Definition reserved_addr (p : Prefix) (a : Addr) : bool :=
  (bool_decide (a = pfx_addr p) && (negb (Is4 (pfx_addr p)) || (1 <? host_bits p)))
  || (bool_decide (a = LastAddr p) && (Is4 (pfx_addr p) && (1 <? host_bits p))).

(** [Add] with its error dropped: the address is in the set afterwards. *)
Lemma Add_mem (s : AddrSet Bitmap) a :
  valid s -> addr_ok a ->
  let s' := (AddrSet.Add s a).1 in
  valid s' /\ as_pool s' = as_pool s
  /\ forall b, in_pool s b -> mem s' b = mem s b || bool_decide (b = a).
Proof.
  intros Hv Ha. pose proof (Add_effect s a Hv Ha) as H. destruct (AddrSet.Add s a) as [s' err]. simpl.
  destruct H as (Hv'&Hp&H1&H2&H3). split_and!; [done|done|]. intros b Hb.
  destruct (Contains (as_pool s) a) eqn:Hc.
  - destruct (mem s a) eqn:Hm.
    + destruct (H2 eq_refl eq_refl) as [_ Hs]. rewrite Hs. case_bool_decide as E; [subst; by rewrite Hm|].
      by rewrite orb_false_r.
    + destruct (H3 eq_refl eq_refl) as [_ Hs]. rewrite (Hs b Hb). case_decide as E.
      * rewrite bool_decide_eq_true_2 by done. by rewrite orb_true_r.
      * rewrite bool_decide_eq_false_2 by done. by rewrite orb_false_r.
  - destruct (H1 eq_refl) as [_ ->]. rewrite bool_decide_eq_false_2; [by rewrite orb_false_r|].
    intros ->. destruct Hb as [_ Hb]. congruence.
Qed.

Lemma New_valid (p : Prefix) :
  prefix_ok p -> valid (New (B:=Bitmap) p) /\ as_pool (New (B:=Bitmap) p) = p
  /\ forall b, mem (New (B:=Bitmap) p) b = false.
Proof.
  intros Hp. assert (E : as_pool (New (B:=Bitmap) p) = p) by (by apply Masked_id).
  split_and!; [constructor; [by rewrite E|done]|done|done].
Qed.

Lemma newPoolData_ok L p :
  pool_ok L p ->
  data_ok p (newPoolData p) /\ children (newPoolData p) = ∅ /\ autoRelease (newPoolData p) = false
  /\ forall a, addr_ok a -> Contains p a = true -> mem (addrs (newPoolData p)) a = reserved_addr p a.
Proof.
  intros Hp. destruct (New_valid p (proj1 Hp)) as (Hv0&Ep0&Hm0).
  pose proof (LastAddr_ok L p Hp) as Hlast. pose proof (proj1 (proj1 Hp)) as Hfirst.
  unfold newPoolData. fold (host_bits p). set (h0 := New p) in *.
  set (c1 := negb (Is4 (pfx_addr p)) || (1 <? host_bits p)).
  set (c2 := Is4 (pfx_addr p) && (1 <? host_bits p)).
  set (h1 := if c1 then (AddrSet.Add h0 (pfx_addr p)).1 else h0).
  set (h2 := if c2 then (AddrSet.Add h1 (LastAddr p)).1 else h1).
  assert (H1 : valid h1 /\ as_pool h1 = p
    /\ forall b, in_pool h0 b -> mem h1 b = bool_decide (b = pfx_addr p) && c1).
  { unfold h1. destruct c1.
    - destruct (Add_mem h0 (pfx_addr p) Hv0 Hfirst) as (?&?&Hm). split_and!; [done|congruence|].
      intros b Hb. rewrite (Hm b Hb), Hm0, andb_true_r. done.
    - split_and!; [done|done|]. intros b Hb. by rewrite Hm0, andb_false_r. }
  destruct H1 as (Hv1&Ep1&Hm1).
  assert (H2 : valid h2 /\ as_pool h2 = p
    /\ forall b, in_pool h0 b -> mem h2 b = mem h1 b || bool_decide (b = LastAddr p) && c2).
  { unfold h2. destruct c2.
    - destruct (Add_mem h1 (LastAddr p) Hv1 Hlast) as (?&?&Hm). split_and!; [done|congruence|].
      intros b Hb. rewrite andb_true_r. apply Hm. unfold in_pool in *. by rewrite Ep1, <- Ep0.
    - split_and!; [done|done|]. intros b Hb. by rewrite andb_false_r, orb_false_r. }
  destruct H2 as (Hv2&Ep2&Hm2). split_and!; [|done|done|].
  { by constructor. }
  intros a Ha Hc. assert (Hin : in_pool h0 a) by (split; [done|by rewrite Ep0]).
  cbn [addrs]. rewrite (Hm2 a Hin), (Hm1 a Hin). done.
Qed.

(** ** Effect of the operations *)

(** Adding a pool at its place. *)
Lemma add_pool_ok L s n nw d :
  space_ok L s -> pool_ok L nw -> data_ok nw d ->
  (forall p, p ∈ take n (allocated s) -> plt p nw) -> (forall p, p ∈ drop n (allocated s) -> plt nw p) ->
  space_ok L (mkAddrSpace (insert_at n nw (allocated s)) (<[nw := d]> (subnets s)) (predefined s)).
Proof.
  intros [H1 H2 H3 H4 H5 H6] Hnw Hd Hb Ha. constructor; simpl; try done.
  - intros p [->|Hp]%elem_of_insert_at; auto.
  - by apply insert_sorted.
  - intros p. rewrite elem_of_insert_at, lookup_insert_is_Some, H3. destruct (decide (nw = p)) as [->|]; naive_solver.
  - intros p d'. rewrite lookup_insert_Some. intros [[<- <-]|[_ ?]]; auto.
Qed.

Lemma set_pool_ok L s nw d :
  space_ok L s -> nw ∈ allocated s -> data_ok nw d -> space_ok L (set_pool s nw d).
Proof.
  intros [H1 H2 H3 H4 H5 H6] Hnw Hd. constructor; simpl; try done.
  - intros p. rewrite lookup_insert_is_Some, H3. destruct (decide (nw = p)) as [->|]; [|naive_solver].
    rewrite <- H3. naive_solver.
  - intros p d'. rewrite lookup_insert_Some. intros [[<- <-]|[_ ?]]; auto.
Qed.

(** [allocatePool] of a pool that is not there yet. *)
Lemma allocatePool_ok L s nw d :
  space_ok L s -> pool_ok L nw -> nw ∉ allocated s -> data_ok nw d ->
  exists n, allocated (allocatePool s nw) = insert_at n nw (allocated s)
  /\ subnets (allocatePool s nw) = <[nw := newPoolData nw]> (subnets s)
  /\ predefined (allocatePool s nw) = predefined s
  /\ space_ok L (mkAddrSpace (insert_at n nw (allocated s)) (<[nw := d]> (subnets s)) (predefined s)).
Proof.
  intros Hs Hnw Hfresh Hd. pose proof Hs as [H1 H2 _ _ _ _].
  destruct (search_found L (allocated s) nw H2 H1 Hnw) as (n&Hn&Hcut&Hsearch&_).
  exists n. unfold allocatePool. rewrite Hsearch. simpl. split_and!; try done.
  apply add_pool_ok; try done.
  - intros p [k [Hk Hlt]]%elem_of_take. by apply (Hcut k p Hk).
  - intros p Hp. pose proof Hp as Hp'. apply list_elem_of_lookup in Hp' as [k Hk]. rewrite lookup_drop in Hk.
    assert (Hpo : pool_ok L p) by (apply H1; by eapply list_elem_of_lookup_2).
    assert (Hnlt : ~ plt p nw) by (rewrite <- (Hcut _ _ Hk); lia).
    destruct (ple_total L p nw) as [Hle|]; [done|done| |done].
    apply (ple_cases L) in Hle as [?| ->]; [done| |done|done].
    exfalso. apply Hfresh. by eapply list_elem_of_lookup_2.
Qed.

Lemma deallocate_ok L s nw :
  space_ok L s -> pool_ok L nw -> nw ∈ allocated s ->
  space_ok L (deallocate s nw)
  /\ subnets (deallocate s nw) = delete nw (subnets s)
  /\ nw :: allocated (deallocate s nw) ≡ₚ allocated s
  /\ predefined (deallocate s nw) = predefined s.
Proof.
  intros [H1 H2 H3 H4 H5 H6] Hnw Hin.
  destruct (search_found L (allocated s) nw H2 H1 Hnw) as (n&Hn&Hcut&Hsearch&Hat). specialize (Hat Hin).
  unfold deallocate. rewrite Hsearch, bool_decide_eq_true_2 by done. simpl.
  pose proof (delete_at_perm n nw (allocated s) Hat) as Hperm.
  split_and!; [|done|done|done].
  assert (Hel : forall p, p ∈ delete_at n (allocated s) <-> p ∈ allocated s /\ p <> nw).
  { intros p. pose proof (sorted_NoDup L _ H1 H2) as Hnd. rewrite <- Hperm in Hnd.
    inversion Hnd as [|? ? Hn' _]; subst.
    assert (Hp : p ∈ allocated s <-> p = nw \/ p ∈ delete_at n (allocated s)).
    { rewrite <- elem_of_cons. by rewrite Hperm. }
    rewrite Hp. split; [intros Hd; split; [by right|by intros ->]|naive_solver]. }
  constructor; simpl; try done.
  - intros p [Hp _]%Hel. by apply H1.
  - by apply delete_sorted.
  - intros p. rewrite Hel, H3. destruct (decide (nw = p)) as [->|].
    + rewrite lookup_delete_eq. split; [naive_solver|by intros [? ?]].
    + rewrite lookup_delete_ne by done. naive_solver.
  - intros p d. rewrite lookup_delete_Some. intros [_ ?]. by apply H4.
Qed.

Lemma allocatePredefinedPool_effect L s reserved :
  space_ok L s -> (forall n, n ∈ predefined s -> below_top L n) ->
  (forall p, p ∈ reserved -> pool_ok L p) -> StronglySorted ple reserved ->
  flat (allocated s ++ reserved) ->
  let '(s', r) := allocatePredefinedPool s reserved in
  match r with
  | GoOk p =>
      pool_ok L p
      /\ (exists pdf, pdf ∈ predefined s /\ pfx_bits p = nts_Size pdf
            /\ first_val (nts_Base pdf) <= first_val p /\ last_val p <= last_val (nts_Base pdf))
      /\ (forall q, q ∈ allocated s ++ reserved -> Overlaps q p = false)
      /\ space_ok L s' /\ allocated s' ≡ₚ p :: allocated s
      /\ subnets s' = <[p := newPoolData p]> (subnets s) /\ predefined s' = predefined s
  | GoErr e => e = ErrNoMoreSubnets /\ s' = s
  | GoPanic => False
  end.
Proof.
  intros Hs Htop Hres Hsort Hflat. pose proof Hs as [H1 H2 H3 H4 H5 H6].
  assert (Hab : forall p, p ∈ allocated s ++ reserved -> pool_ok L p)
    by (intros p [?|?]%elem_of_app; auto).
  unfold allocatePredefinedPool.
  set (v := mkPdfSearch 0 false PrefixZero (newMergeIter (allocated s) reserved PrefixCompare)).
  assert (Hinv : search_inv (allocated s) reserved (predefined s) v).
  { split; [apply newMergeIter_ok|]. simpl. intros pdf _ q Hq. unfold seen in Hq. simpl in Hq.
    by apply elem_of_nil in Hq. }
  assert (Hfuel : (measure (allocated s) reserved (predefined s) v < searchFuel s reserved)%nat)
    by (unfold measure, searchFuel; simpl; lia).
  destruct (searchLoop_spec L (allocated s) reserved (predefined s) Hab (sorted_plt_ple _ H2) Hsort
    ltac:(auto) H6 Hflat (searchFuel s reserved) v Hinv Hfuel) as [(v'&p&->&Hfound)| ->]; [|done].
  destruct Hfound as (Hp&Hpdf&Hseen&Htodo&Hit).
  assert (Hdis : forall q, q ∈ allocated s ++ reserved -> Overlaps q p = false).
  { intros q Hq. apply (pool_disjoint L); auto. apply (seen_todo _ _ (it v')) in Hq as [Hq|Hq]; auto. }
  split_and!; try done.
  - unfold makeAlloc. pose proof (pool_interval L p Hp). apply add_pool_ok; try done; [by apply (newPoolData_ok L)| |].
    + intros q Hq. assert (Hqa : q ∈ allocated s) by (rewrite <- (take_drop (ia (it v')) (allocated s)); apply elem_of_app; by left).
      apply (pool_cmp L); auto. left. specialize (Hseen q). pose proof (pool_interval L q (H1 q Hqa)).
      assert (last_val q < first_val p) by (apply Hseen; unfold seen; apply elem_of_app; by left). lia.
    + intros q Hq. assert (Hqa : q ∈ allocated s) by (rewrite <- (take_drop (ia (it v')) (allocated s)); apply elem_of_app; by right).
      apply (pool_cmp L); auto. left. specialize (Htodo q).
      assert (last_val p < first_val q) by (apply Htodo; unfold todo; apply elem_of_app; by left). lia.
  - apply insert_at_perm.
Qed.

(** A sub-pool argument: absent or a masked prefix. *)
Definition sub_ok (sub : Prefix) : Prop := sub = PrefixZero \/ prefix_ok sub.

Lemma overlaps_spec s nw : overlaps s nw = true <-> exists p, p ∈ allocated s /\ Overlaps p nw = true.
Proof.
  unfold overlaps. rewrite existsb_exists. split; intros (p&Hp&Ho); exists p; (split; [|done]);
    by apply list_elem_of_In.
Qed.

Lemma pool_overlaps_self L p : pool_ok L p -> Overlaps p p = true.
Proof. intros Hp. apply (pool_overlaps L); [done|done|]. pose proof (pool_interval L p Hp). lia. Qed.

(** A master pool: refused exactly when it overlaps a pool. *)
Lemma allocateSubnet_master L s nw :
  space_ok L s -> pool_ok L nw ->
  let '(s', err) := allocateSubnet s nw PrefixZero in
  (err = Some ErrPoolOverlap /\ s' = s /\ exists p, p ∈ allocated s /\ Overlaps p nw = true)
  \/ (err = None /\ (forall p, p ∈ allocated s -> Overlaps p nw = false)
      /\ space_ok L s' /\ allocated s' ≡ₚ nw :: allocated s
      /\ subnets s' = <[nw := newPoolData nw]> (subnets s) /\ predefined s' = predefined s).
Proof.
  intros Hs Hnw. unfold allocateSubnet.
  destruct (subnets s !! nw) as [d|] eqn:Hd.
  { simpl. left. split_and!; [done|done|]. exists nw. split; [|by apply (pool_overlaps_self L)].
    apply (so_keys L s Hs). by rewrite Hd. }
  unfold allocateSubnetL. rewrite decide_True by done. destruct (overlaps s nw) eqn:Ho.
  { left. split_and!; [done|done|]. by apply overlaps_spec. }
  assert (Hno : forall p, p ∈ allocated s -> Overlaps p nw = false).
  { intros p Hp. destruct (Overlaps p nw) eqn:Hpo; [|done].
    rewrite (proj2 (overlaps_spec s nw)) in Ho by (by exists p). done. }
  assert (Hfresh : nw ∉ allocated s).
  { intros Hin. specialize (Hno nw Hin). by rewrite (pool_overlaps_self L) in Hno. }
  destruct (allocatePool_ok L s nw (newPoolData nw) Hs Hnw Hfresh) as (n&Ea&Es&Ep&Hok);
    [by apply (newPoolData_ok L)|].
  right. split_and!; [done|done| |rewrite Ea; apply insert_at_perm|done|done].
  destruct (allocatePool s nw) as [al sub pre]. simpl in *. by subst.
Qed.

(** A sub-pool: recorded under its parent, which is created when it is missing. *)
Lemma allocateSubnet_sub L s nw sub :
  space_ok L s -> pool_ok L nw -> prefix_ok sub ->
  let '(s', err) := allocateSubnet s nw sub in
  (err = Some ErrPoolOverlap /\ s' = s /\ exists d, subnets s !! nw = Some d /\ sub ∈ children d)
  \/ (err = None /\ space_ok L s' /\ predefined s' = predefined s
      /\ exists d', subnets s' = <[nw := d']> (subnets s) /\ sub ∈ children d'
      /\ match subnets s !! nw with
         | Some d => addrs d' = addrs d /\ children d' = {[sub]} ∪ children d
             /\ autoRelease d' = autoRelease d /\ allocated s' = allocated s
         | None => addrs d' = addrs (newPoolData nw) /\ children d' = {[sub]}
             /\ autoRelease d' = true /\ allocated s' ≡ₚ nw :: allocated s
         end).
Proof.
  intros Hs Hnw Hsub. assert (Hnz : sub <> PrefixZero) by (intros ->; destruct Hsub as ((?&?)&_); done).
  unfold allocateSubnet, allocateSubnetL. rewrite (bool_decide_eq_false_2 (sub = PrefixZero)) by done.
  rewrite (bool_decide_eq_true_2 (sub <> PrefixZero)), !(decide_False (P:=sub = PrefixZero)) by done.
  destruct (subnets s !! nw) as [d|] eqn:Hd; simpl.
  - case_bool_decide as Hin; [left; split_and!; [done|done|by exists d]|]. right.
    pose proof (so_data L s Hs nw d Hd) as [Hv Hp Ha Hc].
    split_and!; [done| |done|].
    + apply set_pool_ok; [done|apply (so_keys L s Hs); by rewrite Hd|].
      constructor; simpl; [done|done|set_solver|]. intros c [->%elem_of_singleton|?]%elem_of_union; auto.
    + eexists. split; [done|]. simpl. split_and!; [set_solver|done|done|done|done].
  - assert (Hfresh : nw ∉ allocated s) by (rewrite (so_keys L s Hs), Hd; by intros [? ?]).
    destruct (newPoolData_ok L nw Hnw) as (Hdn&Hcn&_&_).
    set (d' := mkPoolData (addrs (newPoolData nw)) ({[sub]} ∪ children (newPoolData nw)) true).
    assert (Hd' : data_ok nw d').
    { destruct Hdn as [Hv Hp _ _]. unfold d'. rewrite Hcn. constructor; cbn [addrs children]; [done|done|set_solver|].
      intros c. rewrite elem_of_union, elem_of_singleton. intros [->|?]; [done|set_solver]. }
    destruct (allocatePool_ok L s nw d' Hs Hnw Hfresh Hd') as (n&Ea&Es&Ep&Hok).
    right. unfold set_pool. rewrite Ea, Es, Ep, insert_insert_eq. cbn [subnets allocated predefined].
    split_and!; [done|done|done|]. exists d'. split_and!; [done|set_solver|done| |done|apply insert_at_perm].
    unfold d'. cbn [children]. rewrite Hcn. set_solver.
Qed.

Lemma releaseSubnet_effect L s nw sub :
  space_ok L s ->
  let '(s', err) := releaseSubnet s nw sub in
  space_ok L s' /\ predefined s' = predefined s
  /\ match subnets s !! nw with
     | None => err = Some ErrBadPool /\ s' = s
     | Some d =>
         if decide (sub <> PrefixZero /\ sub ∉ children d) then err = Some ErrBadPool /\ s' = s
         else
           let left_ := if decide (sub = PrefixZero) then children d else children d ∖ {[sub]} in
           err = None
           /\ if decide (left_ = ∅ /\ (sub = PrefixZero \/ autoRelease d = true))
              then subnets s' = delete nw (subnets s) /\ nw :: allocated s' ≡ₚ allocated s
              else subnets s' = <[nw := mkPoolData (addrs d) left_
                                   (bool_decide (sub = PrefixZero) || autoRelease d)]> (subnets s)
                   /\ allocated s' = allocated s
     end.
Proof.
  intros Hs. unfold releaseSubnet. destruct (subnets s !! nw) as [d|] eqn:Hd; [|done].
  assert (Hin : nw ∈ allocated s) by (apply (so_keys L s Hs); by rewrite Hd).
  pose proof (so_pools L s Hs nw Hin) as Hnw. pose proof (so_data L s Hs nw d Hd) as [Hv Hp Ha Hc].
  (* removing the pool, whatever was written to its entry before *)
  assert (Hdel : forall d0, space_ok L (deallocate (set_pool s nw d0) nw)
    /\ predefined (deallocate (set_pool s nw d0) nw) = predefined s
    /\ subnets (deallocate (set_pool s nw d0) nw) = delete nw (subnets s)
    /\ nw :: allocated (deallocate (set_pool s nw d0) nw) ≡ₚ allocated s).
  { intros d0. destruct (deallocate_ok L s nw Hs Hnw Hin) as (H1&H2&H3&H4).
    replace (deallocate (set_pool s nw d0) nw) with (deallocate s nw); [by split_and!|].
    pose proof (search_found L (allocated s) nw (so_sorted L s Hs) (so_pools L s Hs) Hnw) as (n&_&_&Hsr&_).
    unfold deallocate, set_pool. cbn [allocated subnets predefined].
    rewrite Hsr, bool_decide_eq_true_2 by done. cbv iota. by rewrite delete_insert_eq. }
  destruct (decide (sub = PrefixZero)) as [->|Hnz].
  - destruct (decide (PrefixZero <> PrefixZero)) as [|_]; [done|].
    destruct (decide (PrefixZero <> PrefixZero /\ _)) as [[? _]|_]; [done|].
    cbn [children autoRelease]. destruct (decide (children d = ∅)) as [He|He].
    + destruct (Hdel (mkPoolData (addrs d) (children d) true)) as (?&?&?&?).
      case_decide as Hd2; [by split_and!|tauto].
    + case_decide as Hd2; [tauto|]. split_and!; try done.
      apply set_pool_ok; [done|done|]. by constructor.
  - destruct (decide (sub <> PrefixZero)) as [_|]; [|done].
    destruct (decide (sub ∈ children d)) as [Hsc|Hsc].
    2: { case_decide; [done|tauto]. }
    destruct (decide (sub <> PrefixZero /\ sub ∉ children d)) as [|_]; [tauto|].
    cbn [children autoRelease].
    assert (Hok : (autoRelease d = true -> children d ∖ {[sub]} <> ∅) ->
      space_ok L (set_pool s nw (mkPoolData (addrs d) (children d ∖ {[sub]}) (autoRelease d)))).
    { intros Hauto. apply set_pool_ok; [done|done|]. constructor; simpl; try done.
      intros c [? _]%elem_of_difference. auto. }
    rewrite bool_decide_eq_false_2 by done. cbn [orb].
    destruct (decide (children d ∖ {[sub]} = ∅)) as [He|He]; destruct (autoRelease d) eqn:Har;
      case_decide as Hd2; try (by destruct Hd2 as [? [?|?]]); try tauto;
      try (split_and!; [by apply Hok|done|done|done|done]).
    destruct (Hdel (mkPoolData (addrs d) (children d ∖ {[sub]}) true)) as (?&?&?&?). by split_and!.
Qed.

(** ** Addresses *)

(** Why a request for an address fails. *)
Definition request_error (s : AddrSet Bitmap) (pref : Addr) (ipr : Prefix) (e : IpamErr) : Prop :=
  (e = ErrIPAlreadyAllocated /\ pref <> AddrZero /\ mem s pref = true)
  \/ (e = ErrNoAvailableIPs /\ pref = AddrZero
      /\ exists w, (w = as_pool s \/ w = ipr)
         /\ forall b, addr_ok b -> Contains w b = true -> addr_val b < first_val w + 2 ^ 63 -> mem s b = true)
  \/ (e = ErrAddrSet ErrNotInSubnet /\ pref = AddrZero
      /\ (Contains (as_pool s) (pfx_addr ipr) = false \/ pfx_bits ipr < pfx_bits (as_pool s))).

Lemma getAddress_effect (s : AddrSet Bitmap) pref ipr serial :
  valid s -> (pref = AddrZero \/ addr_ok pref /\ Contains (as_pool s) pref = true) -> sub_ok ipr ->
  let '(s', r) := getAddress (as_pool s) s pref ipr serial in
  valid s' /\ as_pool s' = as_pool s
  /\ match r with
     | GoOk a => in_pool s a /\ mem s a = false /\ set_addr s s' a true
         /\ (pref <> AddrZero -> a = pref)
         /\ (pref = AddrZero -> prefix_ok ipr -> Contains ipr a = true)
     | GoErr e => (forall b, mem s' b = mem s b) /\ request_error s pref ipr e
     | GoPanic => False
     end.
Proof.
  intros Hv Hpref Hipr. unfold getAddress, request_error. destruct (AddrIsValid pref) eqn:Hpv.
  - destruct Hpref as [->|[Hpo Hpc]]; [done|].
    assert (Hnz : pref <> AddrZero) by (by intros ->).
    pose proof (Add_effect s pref Hv Hpo) as H. destruct (AddrSet.Add s pref) as [s' err].
    destruct H as (Hv'&Hp&_&H2&H3). split_and!; [done|done|].
    destruct (mem s pref) eqn:Hm.
    + destruct (H2 Hpc eq_refl) as [-> Hs]. split; [done|]. by left.
    + destruct (H3 Hpc eq_refl) as [-> Hs]. split_and!; done.
  - assert (pref = AddrZero) as -> by (by destruct pref). clear Hpv Hpref.
    destruct (PrefixIsValid ipr && negb (bool_decide (ipr = as_pool s))) eqn:Hc.
    + apply andb_true_iff in Hc as [Hiv _]. destruct Hipr as [->|Hipr]; [done|].
      destruct (Contains (as_pool s) (pfx_addr ipr)) eqn:Hin.
      2: { unfold AddAnyInRange. rewrite Hin. simpl. split_and!; [done|done|done|]. right. right. auto. }
      destruct (Z.lt_ge_cases (pfx_bits ipr) (pfx_bits (as_pool s))) as [Hlt|Hle].
      { unfold AddAnyInRange. rewrite Hin. destruct (Z.ltb_spec (pfx_bits ipr) (pfx_bits (as_pool s))); [|lia].
        simpl. split_and!; [done|done|done|]. right. right. auto. }
      pose proof (AddAnyInRange_effect s ipr serial Hv) as H.
      destruct (AddAnyInRange s ipr serial) as [s' r]. destruct H as (Hv'&Hp&H); [by split_and!|].
      split_and!; [done|done|]. destruct r as [a|e|]; [| |done].
      * destruct H as (?&?&?&?&_). by split_and!.
      * destruct H as (->&Hm&Hall). split; [done|]. right. left. split_and!; try done. exists ipr. auto.
    + pose proof (AddAny_effect s serial Hv) as H. destruct (AddAny s serial) as [s' r].
      destruct H as (Hv'&Hp&H). split_and!; [done|done|]. destruct r as [a|e|]; [| |done].
      * destruct H as (Hia&?&?&_). split_and!; try done. intros _ Hipo.
        apply andb_false_iff in Hc as [Hc|Hc].
        -- unfold PrefixIsValid in Hc. destruct Hipo as (_&?&_). apply Z.leb_gt in Hc. lia.
        -- apply negb_false_iff, bool_decide_eq_true in Hc as ->. apply Hia.
      * destruct H as (->&Hm&Hall). split; [done|]. right. left. split_and!; try done.
        exists (as_pool s). split; [by left|]. intros b Hb Hbc Hlt. by apply Hall.
Qed.

Definition pref_ok (pref : Addr) : Prop := pref = AddrZero \/ addr_ok pref.

(** Replacing the address set of a pool. *)
Lemma set_addrs_ok L s nw d as' :
  space_ok L s -> subnets s !! nw = Some d -> valid as' -> as_pool as' = nw ->
  space_ok L (set_pool s nw (mkPoolData as' (children d) (autoRelease d))).
Proof.
  intros Hs Hd Hv Hp. pose proof (so_data L s Hs nw d Hd) as [_ _ Ha Hc].
  apply set_pool_ok; [done|apply (so_keys L s Hs); by rewrite Hd|]. by constructor.
Qed.

Lemma requestAddress_effect L s nw sub pref opts :
  space_ok L s -> pref_ok pref -> sub_ok sub ->
  let '(s', r) := requestAddress s nw sub pref opts in
  space_ok L s' /\ allocated s' = allocated s /\ predefined s' = predefined s
  /\ match r with
     | GoOk a => exists d d', subnets s !! nw = Some d /\ subnets s' = <[nw := d']> (subnets s)
         /\ children d' = children d /\ autoRelease d' = autoRelease d
         /\ in_pool (addrs d) a /\ mem (addrs d) a = false /\ set_addr (addrs d) (addrs d') a true
         /\ (pref <> AddrZero -> a = pref)
         /\ (sub <> PrefixZero -> sub ∈ children d /\ (pref = AddrZero -> Contains sub a = true))
     | GoErr e =>
         (e = ErrNotFound /\ s' = s
            /\ forall d, subnets s !! nw = Some d -> sub <> PrefixZero /\ sub ∉ children d)
         \/ (e = ErrIPOutOfRange /\ s' = s /\ Contains nw pref = false)
         \/ exists d d', subnets s !! nw = Some d /\ subnets s' = <[nw := d']> (subnets s)
              /\ (forall b, mem (addrs d') b = mem (addrs d) b) /\ request_error (addrs d) pref sub e
     | GoPanic => False
     end.
Proof.
  intros Hs Hpref Hsub. unfold requestAddress. destruct (subnets s !! nw) as [d|] eqn:Hd.
  2: { split_and!; try done. by left. }
  pose proof (so_data L s Hs nw d Hd) as [Hv Hp _ _].
  destruct (bool_decide (pref <> AddrZero) && negb (Contains nw pref)) eqn:Hout.
  { apply andb_true_iff in Hout as [_ Hout%negb_true_iff]. split_and!; try done. right. by left. }
  destruct (bool_decide (sub <> PrefixZero) && negb (bool_decide (sub ∈ children d))) eqn:Hch.
  { apply andb_true_iff in Hch as [H1%bool_decide_eq_true H2%negb_true_iff%bool_decide_eq_false].
    split_and!; try done. left. split_and!; try done. intros ? [= <-]. done. }
  assert (Hpref' : pref = AddrZero \/ addr_ok pref /\ Contains (as_pool (addrs d)) pref = true).
  { rewrite Hp. destruct Hpref as [?|Hpo]; [by left|]. right. split; [done|].
    apply andb_false_iff in Hout as [H%bool_decide_eq_false|H%negb_false_iff]; [|done].
    exfalso. apply H. intros ->. by destruct Hpo. }
  assert (Hsubin : sub <> PrefixZero -> sub ∈ children d /\ prefix_ok sub).
  { intros Hnz. destruct Hsub as [?|Hso]; [done|]. split; [|done].
    apply andb_false_iff in Hch as [H%bool_decide_eq_false|H%negb_false_iff%bool_decide_eq_true]; [tauto|done]. }
  set (serial := bool_decide _).
  pose proof (getAddress_effect (addrs d) pref sub serial Hv Hpref' Hsub) as H. rewrite Hp in H.
  destruct (getAddress nw (addrs d) pref sub serial) as [as' r]. destruct H as (Hv'&Hp'&H).
  split_and!; [by apply set_addrs_ok|done|done|]. destruct r as [a|e|]; [| |done].
  - destruct H as (Hin&Hfree&Hset&Hpa&Hrange). do 2 eexists. split_and!; try done.
    intros Hnz. destruct (Hsubin Hnz). split; [done|]. auto.
  - destruct H as [Hm He]. right. right. do 2 eexists. by split_and!.
Qed.

Lemma releaseAddress_effect L s nw sub a :
  space_ok L s -> pref_ok a ->
  let '(s', err) := releaseAddress s nw sub a in
  space_ok L s' /\ allocated s' = allocated s /\ predefined s' = predefined s
  /\ match err with
     | None => exists d d', subnets s !! nw = Some d /\ subnets s' = <[nw := d']> (subnets s)
         /\ children d' = children d /\ autoRelease d' = autoRelease d
         /\ in_pool (addrs d) a /\ set_addr (addrs d) (addrs d') a false
     | Some e => s' = s
         /\ ((e = ErrNotFound
                /\ forall d, subnets s !! nw = Some d -> sub <> PrefixZero /\ sub ∉ children d)
             \/ (e = ErrInvalidParameter /\ a = AddrZero)
             \/ (e = ErrIPOutOfRange /\ Contains nw a = false))
     end.
Proof.
  intros Hs Ha. unfold releaseAddress. destruct (subnets s !! nw) as [d|] eqn:Hd.
  2: { split_and!; try done. by left. }
  pose proof (so_data L s Hs nw d Hd) as [Hv Hp _ _].
  destruct (bool_decide (sub <> PrefixZero) && negb (bool_decide (sub ∈ children d))) eqn:Hch.
  { apply andb_true_iff in Hch as [H1%bool_decide_eq_true H2%negb_true_iff%bool_decide_eq_false].
    split_and!; try done. left. split; [done|]. intros ? [= <-]. done. }
  destruct (AddrIsValid a) eqn:Hav; simpl.
  2: { split_and!; try done. right. left. split; [done|]. by destruct a. }
  destruct Ha as [->|Hao]; [done|].
  destruct (Contains nw a) eqn:Hc; simpl.
  2: { split_and!; try done. right. by right. }
  pose proof (Remove_effect (addrs d) a Hv Hao) as H. destruct (AddrSet.Remove (addrs d) a) as [as' err].
  rewrite Hp in H. destruct H as (Hv'&Hp'&_&H2). destruct (H2 Hc) as [-> Hset].
  split_and!; [by apply set_addrs_ok|done|done|]. simpl. do 2 eexists. split_and!; try done.
  split; [done|]. by rewrite Hp.
Qed.

(** ** Predefined networks *)

Definition nts_le (m n : NetworkToSplit) : Prop := ple (nts_Base m) (nts_Base n).

Lemma discard_spec L kept rest :
  (forall n, n ∈ kept ++ rest -> nts_ok L n) ->
  StronglySorted nts_before (reverse kept) -> StronglySorted nts_le rest ->
  (forall l, head kept = Some l -> forall n, n ∈ rest -> nts_le l n) ->
  let out := discard_overlapping kept rest in
  StronglySorted nts_before (reverse out) /\ (forall n, n ∈ out -> n ∈ kept ++ rest)
  /\ (forall n, n ∈ kept -> n ∈ out)
  /\ (forall n, n ∈ rest -> exists m, m ∈ out /\ first_val (nts_Base m) <= first_val (nts_Base n)
        /\ last_val (nts_Base n) <= last_val (nts_Base m)).
Proof.
  revert kept. induction rest as [|n rest IH]; intros kept Hok Hk Hr Hhead; cbn [discard_overlapping].
  { split_and!; [done|intros; apply elem_of_app; by left|done|]. intros n Hn. by apply elem_of_nil in Hn. }
  apply StronglySorted_inv in Hr as [Hr Hall]. rewrite Forall_forall in Hall.
  assert (Hn : nts_ok L n) by (apply Hok, elem_of_app; right; by left).
  assert (Hadd : (forall m, m ∈ kept -> nts_before m n) ->
    let out := discard_overlapping (n :: kept) rest in
    StronglySorted nts_before (reverse out) /\ (forall m, m ∈ out -> m ∈ kept ++ n :: rest)
    /\ (forall m, m ∈ kept -> m ∈ out)
    /\ (forall m, m ∈ n :: rest -> exists m', m' ∈ out /\ first_val (nts_Base m') <= first_val (nts_Base m)
          /\ last_val (nts_Base m) <= last_val (nts_Base m'))).
  { intros Hbefore. destruct (IH (n :: kept)) as (H1&H2&H3&H4).
    - intros m Hm. apply Hok. set_solver.
    - rewrite reverse_cons. apply StronglySorted_app. split_and!; [|done|by repeat constructor].
      intros x y Hx ->%list_elem_of_singleton. rewrite elem_of_reverse in Hx. by apply Hbefore.
    - done.
    - intros l [= <-] m Hm. apply Hall. by apply list_elem_of_In.
    - split_and!; [done|intros m Hm; specialize (H2 m Hm); set_solver|intros m Hm; apply H3; by right|].
      intros m [->|Hm]%elem_of_cons; [|by apply H4]. exists n. split_and!; [apply H3; by left|lia|lia]. }
  destruct kept as [|l kept]; [by apply Hadd; intros m ?%elem_of_nil|].
  assert (Hl : nts_ok L l) by (apply Hok; by left).
  pose proof (Hhead l eq_refl n ltac:(by left)) as Hle. unfold nts_le in Hle.
  pose proof (proj1 Hl) as Hlb. pose proof (proj1 Hn) as Hnb.
  unfold NtsOverlaps. destruct (Overlaps (nts_Base l) (nts_Base n)) eqn:Ho.
  - destruct (IH (l :: kept)) as (H1&H2&H3&H4); [|done|done| |].
    + intros m Hm. apply Hok. set_solver.
    + intros l' [= <-] m Hm. apply (Hhead l eq_refl). by right.
    + split_and!; [done|intros m Hm; specialize (H2 m Hm); set_solver|done|].
      intros m [->|Hm]%elem_of_cons; [|by apply H4]. exists l. split; [apply H3; by left|].
      (* the kept network starts first and is not the longer prefix *)
      destruct (Z.le_gt_cases (pfx_bits (nts_Base l)) (pfx_bits (nts_Base n))) as [Hb|Hb].
      * by apply (pool_nested L).
      * destruct (pool_nested L (nts_Base n) (nts_Base l)) as [H5 H6]; [done|done| |lia|].
        { by apply (Overlaps_sym L). }
        pose proof (ple_first L _ _ Hlb Hnb Hle). apply (ple_cases L) in Hle as [Hlt|E]; [|rewrite E in Hb; lia|done|done].
        apply (pool_cmp L) in Hlt; [lia|done|done].
  - apply Hadd. apply (pool_disjoint L) in Ho; [|done|done]. pose proof (ple_first L _ _ Hlb Hnb Hle).
    pose proof (pool_interval L _ Hnb). pose proof (pool_interval L _ Hlb).
    intros m [->|Hm]%elem_of_cons; unfold nts_before; [lia|].
    rewrite reverse_cons in Hk. apply StronglySorted_app in Hk as (Hord&_).
    assert (Hml : nts_before m l) by (apply Hord; [by apply elem_of_reverse|by apply list_elem_of_singleton]).
    unfold nts_before in Hml. lia.
Qed.

Lemma nts_sorted L pre :
  (forall n, n ∈ pre -> nts_ok L n) ->
  StronglySorted nts_le (SortFunc (fun a b => PrefixCompare (nts_Base a) (nts_Base b)) pre).
Proof.
  intros Hok. set (cmp := fun a b => PrefixCompare (nts_Base a) (nts_Base b)).
  assert (Htr : Transitive (fun a b => a ∈ pre /\ b ∈ pre /\ nts_le a b)).
  { intros x y z (Hx&Hy&Hxy) (_&Hz&Hyz). split_and!; [done|done|].
    apply (ple_trans L _ (nts_Base y)); try done; by apply Hok. }
  assert (Hsub : StronglySorted (fun a b => a ∈ pre /\ b ∈ pre /\ nts_le a b) (SortFunc cmp pre)).
  { apply (SortFunc_sorted (fun a b => a ∈ pre /\ b ∈ pre /\ nts_le a b) cmp pre).
    - intros x y Hx Hy Hlt. split_and!; [done|done|]. unfold nts_le, ple, cmp in *. lia.
    - intros x y Hx Hy Hge. split_and!; [done|done|]. unfold nts_le.
      destruct (ple_total L (nts_Base y) (nts_Base x)) as [?|Hlt]; [by apply Hok|by apply Hok|done|].
      unfold plt, cmp in *. lia. }
  clear Hok. induction Hsub as [|x l Hs IH Hall]; constructor; [done|].
  apply (Forall_impl _ (P:=fun b => x ∈ pre /\ b ∈ pre /\ nts_le x b)); [|done]. by intros y (_&_&?).
Qed.

Lemma newAddrSpace_ok L pre :
  (forall n, n ∈ pre -> nts_ok L n) ->
  space_ok L (newAddrSpace pre)
  /\ (forall n, n ∈ predefined (newAddrSpace pre) -> n ∈ pre)
  /\ (forall n, n ∈ pre -> exists m, m ∈ predefined (newAddrSpace pre)
        /\ first_val (nts_Base m) <= first_val (nts_Base n)
        /\ last_val (nts_Base n) <= last_val (nts_Base m)).
Proof.
  intros Hok. unfold newAddrSpace. set (srt := SortFunc _ pre).
  assert (Hperm : srt ≡ₚ pre) by apply SortFunc_perm.
  destruct (discard_spec L [] srt) as (H1&H2&_&H4); try done.
  - intros n. simpl. rewrite Hperm. auto.
  - constructor.
  - by apply (nts_sorted L).
  - assert (Hin : forall n, n ∈ reverse (discard_overlapping [] srt) -> n ∈ pre).
    { intros n Hn. rewrite elem_of_reverse in Hn. rewrite <- Hperm. by apply H2. }
    split_and!; [|done|].
    + constructor; simpl; try done.
      * intros p. by intros ?%elem_of_nil.
      * constructor.
      * intros p. rewrite lookup_empty. split; [by intros ?%elem_of_nil|by intros [? ?]].
      * intros n Hn. apply Hok. by apply Hin.
    + intros n Hn. rewrite <- Hperm in Hn. destruct (H4 n Hn) as (m&Hm&?). exists m. simpl.
      split; [by apply elem_of_reverse|done].
Qed.
