(* ===== verification/DefaultIPAMTheorems.v ===== *)
(** * Theorems about the default IPAM driver

    The properties of [daemon/libnetwork/ipams/defaultipam], each with a
    concrete instance. *)

From Stdlib Require Import Ascii.
From stdpp Require Import sorting.
From S2P Require Import Prelude Slices Bitmap OrdinalSet BitmapSpec Uint128 NetIP IPBits NetIPUtil AddrSet AddrSetSpec AddrSetTheorems DefaultIPAM DefaultIPAMSpec.

(** ** Histories of an address space *)

(** Arguments the search may be given: reserved prefixes of the family, sorted,
    which neither contain nor lie inside other reserved or allocated ones. *)
Definition reserved_ok (L : Z) (s : addrSpace) (reserved : list Prefix) : Prop :=
  (forall p, p ∈ reserved -> pool_ok L p) /\ StronglySorted ple reserved
  /\ flat (allocated s ++ reserved).

Inductive space_step (L : Z) (s : addrSpace) : addrSpace -> Prop :=
| StepDynamic reserved : reserved_ok L s reserved -> space_step L s (allocatePredefinedPool s reserved).1
| StepStatic nw sub : pool_ok L nw -> sub_ok sub -> space_step L s (allocateSubnet s nw sub).1
| StepRelease nw sub : space_step L s (releaseSubnet s nw sub).1
| StepRequest nw sub pref opts :
    pref_ok pref -> sub_ok sub -> space_step L s (requestAddress s nw sub pref opts).1
| StepReleaseAddr nw sub a : pref_ok a -> space_step L s (releaseAddress s nw sub a).1.

Definition below_top_all (L : Z) (s : addrSpace) : Prop := forall n, n ∈ predefined s -> below_top L n.

Lemma step_ok L s s' :
  space_step L s s' -> space_ok L s -> below_top_all L s -> space_ok L s' /\ predefined s' = predefined s.
Proof.
  intros Hstep Hs Htop. destruct Hstep as [reserved (H1&H2&H3)|nw sub Hnw [->|Hsub]|nw sub|nw sub pref opts Hp Hsub|nw sub a Ha].
  - pose proof (allocatePredefinedPool_effect L s reserved Hs Htop H1 H2 H3) as H.
    destruct (allocatePredefinedPool s reserved) as [s' [p|e|]]; simpl; [|destruct H as [_ ->]; done|done].
    destruct H as (_&_&_&?&_&_&?). done.
  - pose proof (allocateSubnet_master L s nw Hs Hnw) as H. destruct (allocateSubnet s nw PrefixZero) as [s' err].
    simpl. destruct H as [(_&->&_)|(_&_&?&_&_&?)]; done.
  - pose proof (allocateSubnet_sub L s nw sub Hs Hnw Hsub) as H. destruct (allocateSubnet s nw sub) as [s' err].
    simpl. destruct H as [(_&->&_)|(_&?&?&_)]; done.
  - pose proof (releaseSubnet_effect L s nw sub Hs) as H. destruct (releaseSubnet s nw sub) as [s' err].
    destruct H as (?&?&_). done.
  - pose proof (requestAddress_effect L s nw sub pref opts Hs Hp Hsub) as H.
    destruct (requestAddress s nw sub pref opts) as [s' r]. destruct H as (?&_&?&_). done.
  - pose proof (releaseAddress_effect L s nw sub a Hs Ha) as H.
    destruct (releaseAddress s nw sub a) as [s' err]. destruct H as (?&_&?&_). done.
Qed.

Lemma steps_ok L s s' :
  rtc (space_step L) s s' -> space_ok L s -> below_top_all L s ->
  space_ok L s' /\ predefined s' = predefined s.
Proof.
  induction 1 as [s|s s1 s2 Hstep _ IH]; intros Hs Htop; [done|].
  destruct (step_ok L s s1 Hstep Hs Htop) as [Hs1 E1].
  assert (Htop1 : below_top_all L s1) by (unfold below_top_all; by rewrite E1).
  destruct (IH Hs1 Htop1) as [? E2]. split; [done|congruence].
Qed.

(** the invariant of an address space.  Starting from any predefined networks and after
    any sequence of pool and address operations, the allocated list is strictly sorted,
    holds exactly the keys of the pool map, every pool's address set is well formed and is
    the set of that pool, and a pool marked for automatic release has children; the
    predefined networks stay sorted and pairwise disjoint, and cover the configured ones. *)
Theorem ipam_reachable_invariant L pre s :
  (forall n, n ∈ pre -> nts_ok L n /\ below_top L n) ->
  rtc (space_step L) (newAddrSpace pre) s ->
  space_ok L s
  /\ (forall n, n ∈ pre -> exists m, m ∈ predefined s
        /\ first_val (nts_Base m) <= first_val (nts_Base n)
        /\ last_val (nts_Base n) <= last_val (nts_Base m)).
Proof.
  intros Hpre Hrun. destruct (newAddrSpace_ok L pre) as (Hs&Hin&Hcover); [by apply Hpre|].
  assert (Htop : below_top_all L (newAddrSpace pre)).
  { intros n Hn. by apply Hpre, Hin. }
  destruct (steps_ok L _ s Hrun Hs Htop) as [? E]. split; [done|]. by rewrite E.
Qed.

(** Decision of the hypotheses on concrete values. *)
Lemma local_networks_ok n :
  n ∈ localScopeDefaultNetworks -> nts_ok 32 n /\ below_top 32 n.
Proof.
  intros Hn. unfold localScopeDefaultNetworks in Hn. rewrite !elem_of_cons, elem_of_nil in Hn.
  destruct Hn as [->|[->|[->|[->|[->|[->|[->|[]]]]]]]]; by vm_compute.
Qed.

Definition net_ex : Prefix := mkPrefix (ip4 172 17 0 0) 16.

Lemma ipam_reachable_invariant_witness :
  exists s, allocated s = [net_ex; mkPrefix (ip4 172 18 0 0) 16] /\ space_ok 32 s.
Proof.
  set (s0 := newAddrSpace localScopeDefaultNetworks).
  set (s1 := (allocatePredefinedPool s0 []).1). set (s2 := (allocatePredefinedPool s1 []).1).
  assert (Hr : forall l, length l = 0%nat \/ l = [net_ex] -> forall s, allocated s = l -> reserved_ok 32 s []).
  { intros l Hl s E. unfold reserved_ok. rewrite E, app_nil_r.
    split_and!; [by intros ? ?%elem_of_nil|constructor|]. destruct Hl as [Hl| ->]; [apply length_zero_iff_nil in Hl as ->|].
    - by intros p q ?%elem_of_nil.
    - intros p q ->%list_elem_of_singleton ->%list_elem_of_singleton. done. }
  exists s2. split; [by vm_compute|].
  apply (ipam_reachable_invariant 32 localScopeDefaultNetworks s2 local_networks_ok).
  apply (rtc_l _ _ s1).
  - apply (StepDynamic 32 s0 []). apply (Hr []); [by left|]. by vm_compute.
  - apply rtc_once. apply (StepDynamic 32 s1 []). apply (Hr [net_ex]); [by right|]. by vm_compute.
Defined.

(** ** Dynamic allocation *)

(** C1: dynamic allocation of a pool.  The search always ends; it fails only with
    [ErrNoMoreSubnets], leaving the state alone, and otherwise returns a subnet of the
    configured size inside one of the predefined networks which overlaps neither an
    allocated pool nor a reserved prefix, and records it at its place in the sorted list,
    provided that no allocated or reserved prefix lies properly inside another one and no
    predefined network reaches the last address of the family. *)
Theorem dynamic_pool_fresh L s reserved :
  space_ok L s -> below_top_all L s -> reserved_ok L s reserved ->
  let '(s', r) := allocatePredefinedPool s reserved in
  match r with
  | GoOk p =>
      pool_ok L p
      /\ (exists pdf, pdf ∈ predefined s /\ pfx_bits p = nts_Size pdf
            /\ first_val (nts_Base pdf) <= first_val p /\ last_val p <= last_val (nts_Base pdf))
      /\ (forall q, q ∈ allocated s ++ reserved -> Overlaps q p = false)
      /\ space_ok L s' /\ allocated s' ≡ₚ p :: allocated s
      /\ subnets s' = <[p := newPoolData p]> (subnets s)
  | GoErr e => e = ErrNoMoreSubnets /\ s' = s
  | GoPanic => False
  end.
Proof.
  intros Hs Htop (H1&H2&H3). pose proof (allocatePredefinedPool_effect L s reserved Hs Htop H1 H2 H3) as H.
  destruct (allocatePredefinedPool s reserved) as [s' [p|e|]]; [|done|done].
  destruct H as (?&?&?&?&?&?&_). by split_and!.
Qed.

Lemma dynamic_pool_fresh_witness :
  exists s p, allocatePredefinedPool (newAddrSpace localScopeDefaultNetworks) [net_ex] = (s, GoOk p)
  /\ Overlaps net_ex p = false.
Proof.
  pose proof (dynamic_pool_fresh 32 (newAddrSpace localScopeDefaultNetworks) [net_ex]) as H.
  destruct (newAddrSpace_ok 32 localScopeDefaultNetworks) as (Hs&Hin&_);
    [intros n Hn; by apply local_networks_ok|].
  specialize (H Hs). assert (Htop : below_top_all 32 (newAddrSpace localScopeDefaultNetworks)).
  { intros n Hn. by apply local_networks_ok, Hin. }
  specialize (H Htop). assert (Hr : reserved_ok 32 (newAddrSpace localScopeDefaultNetworks) [net_ex]).
  { split_and!; [|by repeat constructor|].
    - intros p ->%list_elem_of_singleton. by vm_compute.
    - intros p q ->%list_elem_of_singleton ->%list_elem_of_singleton. done. }
  specialize (H Hr). remember (allocatePredefinedPool _ [net_ex]) as res eqn:E.
  assert (Hres : res.2 = GoOk (mkPrefix (ip4 172 18 0 0) 16)) by (rewrite E; by vm_compute).
  destruct res as [s' r]. simpl in Hres. subst r. exists s', (mkPrefix (ip4 172 18 0 0) 16). split; [done|].
  destruct H as (_&_&Hdis&_). apply Hdis, elem_of_app. right. by left.
Defined.

(** without the proviso the search hands out subnets that are in use.  With the pool
    [10.0.0.0/8] split in [/24]s and the reserved prefixes [10.0.0.0/16] (an on-link route)
    and [10.0.0.53/32] (a name server inside that network), the allocator returns
    [10.0.1.0/24], which overlaps the reserved [10.0.0.0/16]: only the last entry seen is
    remembered, not the one that reaches furthest. *)
Theorem nested_reserved_overlap :
  let s := newAddrSpace globalScopeDefaultNetworks in
  let lan := mkPrefix (ip4 10 0 0 0) 16 in
  exists s' p, allocatePredefinedPool s [lan; mkPrefix (ip4 10 0 0 53) 32] = (s', GoOk p)
  /\ Overlaps lan p = true.
Proof.
  intros s lan. set (r := allocatePredefinedPool _ _).
  assert (E : r.2 = GoOk (mkPrefix (ip4 10 0 1 0) 24)) by (by vm_compute).
  exists r.1, (mkPrefix (ip4 10 0 1 0) 24). rewrite <- E. split; [apply surjective_pairing|by vm_compute].
Qed.

(** ** Static allocation and release *)

(** static allocation of a master pool is refused exactly when the pool overlaps an
    allocated one, and then changes nothing; otherwise the pool is added, empty but for
    its reserved addresses. *)
Theorem static_pool_exclusive L s nw :
  space_ok L s -> pool_ok L nw ->
  let '(s', err) := allocateSubnet s nw PrefixZero in
  (err = Some ErrPoolOverlap /\ s' = s /\ exists p, p ∈ allocated s /\ Overlaps p nw = true)
  \/ (err = None /\ (forall p, p ∈ allocated s -> Overlaps p nw = false)
      /\ space_ok L s' /\ allocated s' ≡ₚ nw :: allocated s
      /\ subnets s' = <[nw := newPoolData nw]> (subnets s)
      /\ forall a, addr_ok a -> Contains nw a = true ->
           mem (addrs (newPoolData nw)) a = reserved_addr nw a).
Proof.
  intros Hs Hnw. pose proof (allocateSubnet_master L s nw Hs Hnw) as H.
  destruct (allocateSubnet s nw PrefixZero) as [s' err].
  destruct H as [H|(?&?&?&?&?&_)]; [by left|right]. split_and!; try done. by apply (newPoolData_ok L).
Qed.

Lemma static_pool_exclusive_witness :
  exists s', allocateSubnet (newAddrSpace []) net_ex PrefixZero = (s', None) /\ space_ok 32 s'
  /\ mem (addrs (newPoolData net_ex)) (ip4 172 17 255 255) = true
  /\ mem (addrs (newPoolData net_ex)) (ip4 172 17 0 1) = false.
Proof.
  destruct (newAddrSpace_ok 32 []) as (Hs&_); [by intros ? ?%elem_of_nil|].
  assert (Hn : pool_ok 32 net_ex) by (by vm_compute).
  pose proof (static_pool_exclusive 32 (newAddrSpace []) net_ex Hs Hn) as H.
  remember (allocateSubnet (newAddrSpace []) net_ex PrefixZero) as res eqn:E. destruct res as [s' err].
  exists s'. destruct H as [(_&_&p&Hp%elem_of_nil&_)|(->&_&Hok&_&_&Hmem)]; [done|].
  split_and!; [done|done|rewrite Hmem; by vm_compute|rewrite Hmem; by vm_compute].
Defined.

(** Operations on master pools only. *)
Inductive master_step (L : Z) (s : addrSpace) : addrSpace -> Prop :=
| MasterDynamic reserved : reserved_ok L s reserved -> master_step L s (allocatePredefinedPool s reserved).1
| MasterStatic nw : pool_ok L nw -> master_step L s (allocateSubnet s nw PrefixZero).1
| MasterRelease nw : master_step L s (releaseSubnet s nw PrefixZero).1
| MasterRequest nw pref opts : pref_ok pref -> master_step L s (requestAddress s nw PrefixZero pref opts).1
| MasterReleaseAddr nw a : pref_ok a -> master_step L s (releaseAddress s nw PrefixZero a).1.

Lemma flat_add L l p :
  (forall q, q ∈ l -> pool_ok L q) -> pool_ok L p -> flat l -> (forall q, q ∈ l -> Overlaps q p = false) ->
  flat (p :: l).
Proof.
  intros Hl Hp Hf Hno x y [->|Hx]%elem_of_cons [->|Hy]%elem_of_cons Ho; [done| | |by apply Hf].
  - apply (Overlaps_sym L) in Ho; [|done|by apply Hl]. by rewrite Hno in Ho.
  - by rewrite Hno in Ho.
Qed.

Lemma flat_perm l k : (forall p, p ∈ k -> p ∈ l) -> flat l -> flat k.
Proof. intros Hsub Hf p q Hp Hq. auto. Qed.

Lemma master_step_flat L s s' :
  master_step L s s' -> space_ok L s -> below_top_all L s -> flat (allocated s) ->
  space_ok L s' /\ predefined s' = predefined s /\ flat (allocated s').
Proof.
  intros Hstep Hs Htop Hf. pose proof (so_pools L s Hs) as Hok.
  assert (Hadd : forall p k, pool_ok L p -> (forall q, q ∈ allocated s -> Overlaps q p = false) ->
    k ≡ₚ p :: allocated s -> flat k).
  { intros p k Hp Hno Hk. apply (flat_perm (p :: allocated s)); [|by apply (flat_add L)]. intros q. by rewrite Hk. }
  destruct Hstep as [reserved (H1&H2&H3)|nw Hnw|nw|nw pref opts Hp|nw a Ha].
  - pose proof (allocatePredefinedPool_effect L s reserved Hs Htop H1 H2 H3) as H.
    destruct (allocatePredefinedPool s reserved) as [s' [p|e|]]; simpl; [|destruct H as [_ ->]; done|done].
    destruct H as (Hp&_&Hno&Hs'&Ha&_&Hpre). split_and!; [done|done|]. apply (Hadd p); [done| |done].
    intros q Hq. apply Hno, elem_of_app. by left.
  - pose proof (allocateSubnet_master L s nw Hs Hnw) as H. destruct (allocateSubnet s nw PrefixZero) as [s' err].
    simpl. destruct H as [(_&->&_)|(_&Hno&?&Ha&_&?)]; [done|]. split_and!; [done|done|]. by apply (Hadd nw).
  - pose proof (releaseSubnet_effect L s nw PrefixZero Hs) as H. destruct (releaseSubnet s nw PrefixZero) as [s' err].
    simpl. destruct H as (?&?&H). split_and!; [done|done|].
    destruct (subnets s !! nw) as [d|]; [|destruct H as [_ ->]; done].
    case_decide; [by destruct H as [_ ->]|]. destruct H as [_ H]. case_decide.
    + destruct H as [_ Hperm]. apply (flat_perm (allocated s)); [|done]. intros q Hq. rewrite <- Hperm. by right.
    + destruct H as [_ ->]. done.
  - pose proof (requestAddress_effect L s nw PrefixZero pref opts Hs Hp ltac:(by left)) as H.
    destruct (requestAddress s nw PrefixZero pref opts) as [s' r]. destruct H as (?&E&?&_). simpl. by rewrite E.
  - pose proof (releaseAddress_effect L s nw PrefixZero a Hs Ha) as H.
    destruct (releaseAddress s nw PrefixZero a) as [s' err]. destruct H as (?&E&?&_). simpl. by rewrite E.
Qed.

(** C2: as long as only master pools are requested, whether dynamically or statically, and
    in whatever order pools and addresses are released and requested, no two allocated pools
    have an address in common.  The predefined networks are well formed ([nts_ok]) and end
    below the last address of their family, the pools and addresses requested are valid; the
    reserved prefixes given to a dynamic request are well formed and sorted, and none of
    them lies inside or overlaps another one or an allocated pool ([reserved_ok];
    [nested_reserved_overlap] shows why). *)
Theorem master_pools_disjoint L pre s :
  (forall n, n ∈ pre -> nts_ok L n /\ below_top L n) ->
  rtc (master_step L) (newAddrSpace pre) s ->
  forall p q, p ∈ allocated s -> q ∈ allocated s -> p <> q ->
  forall a, addr_ok a -> ~ (Contains p a = true /\ Contains q a = true).
Proof.
  intros Hpre Hrun. destruct (newAddrSpace_ok L pre) as (Hs0&Hin&_); [by apply Hpre|].
  assert (Htop0 : below_top_all L (newAddrSpace pre)) by (intros n Hn; by apply Hpre, Hin).
  assert (Hf0 : flat (allocated (newAddrSpace pre))) by (by intros p q ?%elem_of_nil).
  assert (H : space_ok L s /\ flat (allocated s)).
  { clear Hpre Hin. induction Hrun as [s|s s1 s2 Hstep _ IH]; [done|].
    destruct (master_step_flat L s s1 Hstep Hs0 Htop0 Hf0) as (?&E&?). apply IH; try done.
    unfold below_top_all. by rewrite E. }
  destruct H as [Hs Hf]. intros p q Hp Hq Hne a Ha [Hpa Hqa].
  pose proof (so_pools L s Hs p Hp) as Hpo. pose proof (so_pools L s Hs q Hq) as Hqo.
  apply Hne, Hf; [done|done|]. apply (pool_overlaps L); [done|done|].
  apply Contains_spec in Hpa as [_ ?]; [|apply Hpo|done]. apply Contains_spec in Hqa as [_ ?]; [|apply Hqo|done]. lia.
Qed.

Lemma master_pools_disjoint_witness :
  exists s, allocated s = [net_ex; mkPrefix (ip4 172 18 0 0) 16]
  /\ ~ (Contains net_ex (ip4 172 17 0 9) = true /\ Contains (mkPrefix (ip4 172 18 0 0) 16) (ip4 172 17 0 9) = true).
Proof.
  set (s0 := newAddrSpace localScopeDefaultNetworks).
  set (s1 := (allocatePredefinedPool s0 []).1).
  set (s2 := (allocateSubnet s1 (mkPrefix (ip4 172 18 0 0) 16) PrefixZero).1).
  assert (Hrun : rtc (master_step 32) s0 s2).
  { apply (rtc_l _ _ s1); [apply (MasterDynamic 32 s0 [])|apply rtc_once, (MasterStatic 32 s1); by vm_compute].
    split_and!; [by intros ? ?%elem_of_nil|constructor|by intros p q ?%elem_of_nil]. }
  exists s2. split; [by vm_compute|].
  apply (master_pools_disjoint 32 localScopeDefaultNetworks s2 local_networks_ok Hrun).
  - replace (allocated s2) with [net_ex; mkPrefix (ip4 172 18 0 0) 16] by (by vm_compute). by left.
  - replace (allocated s2) with [net_ex; mkPrefix (ip4 172 18 0 0) 16] by (by vm_compute). right. by left.
  - done.
  - by vm_compute.
Defined.

Lemma Compare_flip a b : Compare a b = - Compare b a.
Proof.
  unfold Compare.
  destruct (Z.ltb_spec (BitLen a) (BitLen b)), (Z.ltb_spec (BitLen b) (BitLen a)); try lia.
  destruct (Z.ltb_spec (addr_val a) (addr_val b)), (Z.ltb_spec (addr_val b) (addr_val a)); lia.
Qed.

#[export] Instance plt_antisymm : AntiSymm (=) plt.
Proof.
  intros p q. unfold plt, PrefixCompare. rewrite (Compare_flip (pfx_addr q)).
  intros H1 H2. exfalso. revert H1 H2. set (c := Compare _ _). clearbody c.
  destruct (Z.eqb_spec c 0), (Z.eqb_spec (- c) 0); cbn [negb]; lia.
Qed.

(** releasing a pool undoes its allocation: after a successful request for a master pool
    its release succeeds and brings back exactly the previous state, pools, order and
    address sets included. *)
Theorem pool_release_roundtrip L s nw s' :
  space_ok L s -> pool_ok L nw -> allocateSubnet s nw PrefixZero = (s', None) ->
  releaseSubnet s' nw PrefixZero = (s, None).
Proof.
  intros Hs Hnw Halloc. pose proof (allocateSubnet_master L s nw Hs Hnw) as H. rewrite Halloc in H.
  destruct H as [[? _]|(_&Hno&Hs'&Hperm&Hsub&Hpre)]; [done|].
  assert (Hnone : subnets s !! nw = None).
  { apply eq_None_not_Some. rewrite <- (so_keys L s Hs). intros Hin. specialize (Hno nw Hin).
    by rewrite (pool_overlaps_self L) in Hno. }
  pose proof (releaseSubnet_effect L s' nw PrefixZero Hs') as H.
  destruct (releaseSubnet s' nw PrefixZero) as [s'' err]. destruct H as (Hs''&Hpre''&H).
  rewrite Hsub, lookup_insert_eq in H. case_decide as Hd; [by destruct Hd|]. destruct H as [-> H].
  destruct (newPoolData_ok L nw Hnw) as (_&Hc&_). case_decide as Hd2; [|exfalso; apply Hd2; by rewrite Hc; auto].
  destruct H as [Hsub'' Hperm'']. f_equal.
  assert (Ea : allocated s'' = allocated s).
  { apply (StronglySorted_unique plt); [by apply Hs''|by apply Hs|].
    apply (Permutation_cons_inv (a:=nw)). by rewrite Hperm'', Hperm. }
  assert (Es : subnets s'' = subnets s)
    by (rewrite Hsub'', delete_insert_eq; by apply delete_id).
  rewrite Hpre in Hpre''. clear - Ea Es Hpre''. destruct s, s''. simpl in *. congruence.
Qed.

Lemma pool_release_roundtrip_witness :
  exists s', allocateSubnet (newAddrSpace globalScopeDefaultNetworks) net_ex PrefixZero = (s', None)
  /\ releaseSubnet s' net_ex PrefixZero = (newAddrSpace globalScopeDefaultNetworks, None).
Proof.
  set (s0 := newAddrSpace globalScopeDefaultNetworks).
  remember (allocateSubnet s0 net_ex PrefixZero) as res eqn:E.
  assert (He : res.2 = None) by (rewrite E; by vm_compute). destruct res as [s' err]. simpl in He. subst err.
  exists s'. split; [done|]. destruct (newAddrSpace_ok 32 globalScopeDefaultNetworks) as (Hs&_).
  { intros n ->%list_elem_of_singleton. by vm_compute. }
  apply (pool_release_roundtrip 32); [done|by vm_compute|done].
Defined.

(** ** Addresses *)

(** C33: an address request on every branch, in a well-formed space.  A returned address lies
    in the pool and was free; it is the preferred one when one is given, which is not checked
    against the sub-pool; when only a sub-pool is given it lies in that; exactly it becomes
    allocated.  Errors leave every address as it was and mean: no such pool or sub-pool,
    preferred address outside of the pool or already taken, nothing free in the searched
    window, or a sub-pool outside of its pool.  The call never panics. *)
Theorem request_address_correct L s nw sub pref opts :
  space_ok L s -> pref_ok pref -> sub_ok sub ->
  let '(s', r) := requestAddress s nw sub pref opts in
  space_ok L s' /\ allocated s' = allocated s
  /\ match r with
     | GoOk a => exists d d', subnets s !! nw = Some d /\ subnets s' = <[nw := d']> (subnets s)
         /\ in_pool (addrs d) a /\ mem (addrs d) a = false /\ set_addr (addrs d) (addrs d') a true
         /\ (pref <> AddrZero -> a = pref)
         /\ (sub <> PrefixZero -> sub ∈ children d /\ (pref = AddrZero -> Contains sub a = true))
     | GoErr e =>
         (e = ErrNotFound /\ s' = s
            /\ forall d, subnets s !! nw = Some d -> sub <> PrefixZero /\ sub ∉ children d)
         \/ (e = ErrIPOutOfRange /\ s' = s /\ Contains nw pref = false)
         \/ exists d d', subnets s !! nw = Some d /\ subnets s' = <[nw := d']> (subnets s)
              /\ (forall b, mem (addrs d') b = mem (addrs d) b) /\ request_error (addrs d) pref sub e
     | GoPanic => False
     end.
Proof.
  intros Hs Hp Hsub. pose proof (requestAddress_effect L s nw sub pref opts Hs Hp Hsub) as H.
  destruct (requestAddress s nw sub pref opts) as [s' [a|e|]]; destruct H as (?&?&_&H); [| |done].
  - destruct H as (d&d'&?&?&_&_&?&?&?&?&?). split_and!; [done|done|]. exists d, d'. by split_and!.
  - by split_and!.
Qed.

Lemma request_address_correct_witness :
  exists s' d, subnets s' !! net_ex = Some d /\ mem (addrs d) (ip4 172 17 0 1) = true.
Proof.
  destruct (newAddrSpace_ok 32 []) as (Hs&_); [by intros ? ?%elem_of_nil|].
  assert (Hn : pool_ok 32 net_ex) by (by vm_compute).
  pose proof (allocateSubnet_master 32 (newAddrSpace []) net_ex Hs Hn) as H.
  remember (allocateSubnet (newAddrSpace []) net_ex PrefixZero) as res eqn:E. destruct res as [s1 err].
  destruct H as [(_&_&p&Hp%elem_of_nil&_)|(->&_&Hok&_)]; [done|].
  pose proof (request_address_correct 32 s1 net_ex PrefixZero AddrZero ∅ Hok ltac:(by left) ltac:(by left)) as H.
  remember (requestAddress s1 net_ex PrefixZero AddrZero ∅) as r2 eqn:E2.
  assert (Hr : r2.2 = GoOk (ip4 172 17 0 1)).
  { rewrite E2. change s1 with (s1, @None IpamErr).1. rewrite E. by vm_compute. }
  destruct r2 as [s2 r]. simpl in Hr. subst r. destruct H as (_&_&d&d'&Hd&Hs2&Hin&_&Hset&_).
  exists s2, d'. rewrite Hs2, lookup_insert_eq. split; [done|]. rewrite (Hset _ Hin). by case_decide.
Defined.

(** ** Pool identifiers *)

Section Text.
Variable ParsePrefix : string -> option Prefix.
Variable PrefixString : Prefix -> string.

(** [Prefix.String] of a valid prefix is its address, a slash and its length, and
    [ParsePrefix] reads it back. *)
Definition text_ok : Prop :=
  forall p, prefix_ok p ->
    ParsePrefix (PrefixString p) = Some p
    /\ exists a b, PrefixString p = (a ++ String slash b)%string
       /\ has_char slash a = false /\ has_char slash b = false.

(** the identifier of a pool is read back as the same pool: address space, subnet and
    sub-pool, for every address space name without a slash. *)
Theorem pool_id_roundtrip as_ subnet child :
  text_ok -> prefix_ok subnet -> sub_ok child -> has_char slash as_ = false ->
  PoolIDFromString ParsePrefix (PoolIDString PrefixString (mkPoolID as_ (mkSubnetKey subnet child)))
  = GoOk (mkPoolID as_ (mkSubnetKey subnet child)).
Proof.
  intros Htext Hs Hc Has. destruct (Htext subnet Hs) as (Hps&a&b&Ea&Ha&Hb).
  unfold PoolIDString, PoolIDFromString. cbn [pid_key ChildSubnet Subnet AddressSpace].
  assert (Hne : forall t, (as_ ++ String slash t)%string <> EmptyString) by (by destruct as_).
  case_decide as Hd; rewrite bool_decide_eq_false_2 by apply Hne; rewrite Split_app by done; rewrite Ea.
  - rewrite Split_app, Split_none by done. rewrite <- Ea, Hps. by subst child.
  - destruct Hc as [?|Hc]; [done|]. destruct (Htext child Hc) as (Hpc&a2&b2&Ea2&Ha2&Hb2). rewrite Ea2.
    rewrite append_cons_assoc, !Split_app, Split_none by done. rewrite <- Ea, Hps, <- Ea2, Hpc. done.
Qed.
End Text.

(** *** A textual form with the property

    Binary digits instead of the dotted and colon notations. *)

Fixpoint pos_text (p : positive) : string :=
  match p with
  | xH => EmptyString
  | xO p => String "0"%char (pos_text p)
  | xI p => String "1"%char (pos_text p)
  end.

Fixpoint pos_parse (s : string) : positive :=
  match s with
  | EmptyString => xH
  | String c s => if Ascii.eqb c "0"%char then xO (pos_parse s) else xI (pos_parse s)
  end.

Definition num_text (z : Z) : string := pos_text (Z.to_pos (z + 1)).
Definition num_parse (s : string) : Z := Z.pos (pos_parse s) - 1.

Definition bin_text (p : Prefix) : string :=
  (String (if Is4 (pfx_addr p) then "4"%char else "6"%char) (num_text (addr_val (pfx_addr p)))
   ++ String slash (num_text (pfx_bits p)))%string.

Definition bin_parse (s : string) : option Prefix :=
  match Split s slash with
  | [String c v; b] =>
      let a := if Ascii.eqb c "4"%char then Addr4 (num_parse v) else Addr6 (num_parse v) in
      Some (mkPrefix a (num_parse b))
  | _ => None
  end.

Lemma pos_parse_text p : pos_parse (pos_text p) = p.
Proof. induction p as [p IH|p IH|]; cbn [pos_text pos_parse Ascii.eqb Bool.eqb]; [by rewrite IH|by rewrite IH|done]. Qed.

Lemma pos_text_slash p : has_char slash (pos_text p) = false.
Proof. induction p as [p IH|p IH|]; simpl; [exact IH|exact IH|done]. Qed.

Lemma num_parse_text z : 0 <= z -> num_parse (num_text z) = z.
Proof. intros Hz. unfold num_parse, num_text. rewrite pos_parse_text, Z2Pos.id by lia. lia. Qed.

Lemma bin_text_ok : text_ok bin_parse bin_text.
Proof.
  intros p Hp. pose proof Hp as ((Hv&Hr)&Hb&_). split.
  - unfold bin_parse, bin_text. rewrite Split_app, Split_none by (try apply pos_text_slash; simpl;
      destruct (Is4 (pfx_addr p)); apply pos_text_slash).
    rewrite !num_parse_text by lia. destruct p as [[|v|v] n]; done.
  - do 2 eexists. split; [done|]. split; [|apply pos_text_slash].
    simpl. destruct (Is4 (pfx_addr p)); apply pos_text_slash.
Qed.

Lemma pool_id_roundtrip_witness :
  PoolIDFromString bin_parse (PoolIDString bin_text (mkPoolID localAddressSpace (mkSubnetKey net_ex net_ex)))
  = GoOk (mkPoolID localAddressSpace (mkSubnetKey net_ex net_ex)).
Proof.
  apply (pool_id_roundtrip bin_parse bin_text localAddressSpace net_ex net_ex bin_text_ok).
  - by vm_compute.
  - right. by vm_compute.
  - by vm_compute.
Defined.

(** ** Status *)

(** The saturating conversion. *)
Lemma Uint64Sat_val x : u128_ok x -> Uint64Sat x = Z.min (to_Z x) (2 ^ 64 - 1).
Proof.
  intros [Hh Hl]. unfold Uint64Sat, to_Z, is_u64 in *. destruct (Z.eqb_spec (hi x) 0); cbn [negb]; lia.
Qed.

(** the status of a pool: the number of its addresses in use and the number of free
    addresses of the range, both saturating at [2^64 - 1]; [X] is the set of the addresses the
    pool holds. *)
Theorem pool_status_counts s nw ipr d X :
  subnets s !! nw = Some d -> repr (addrs d) X -> as_pool (addrs d) = nw -> host_bits nw < 128 ->
  let range := if decide (ipr = PrefixZero) then nw else ipr in
  prefix_ok range -> BitLen (pfx_addr range) = BitLen (pfx_addr nw) -> host_bits range < 128 ->
  let used := Z.of_nat (size (filter (fun a => Contains range a = true) X)) in
  allocationStatus s nw ipr
  = GoOk (mkSubnetStatus (Z.min (Z.of_nat (size X)) (2 ^ 64 - 1))
                         (Z.min (2 ^ host_bits range - used) (2 ^ 64 - 1)))
  /\ 0 <= 2 ^ host_bits range - used.
Proof.
  intros Hd HR Hp Hnw range Hrange HL Hh used. unfold allocationStatus. fold range. rewrite Hd.
  assert (HL' : BitLen (pfx_addr range) = BitLen (pfx_addr (as_pool (addrs d)))) by (by rewrite Hp).
  destruct (repr_counts (addrs d) X range HR Hrange HL') as [(h&l&El&Hh1&Hl1&Ev) (h2&l2&E2&Hh2&Hl2&Ev2)].
  pose proof (filter_bound (addrs d) X range HR Hrange HL') as Hused. fold used in Hused, Ev2.
  pose proof (va_pool _ (re_valid _ _ HR)) as Hpo.
  pose proof (filter_bound (addrs d) X (as_pool (addrs d)) HR Hpo eq_refl) as Hall.
  rewrite (filter_pool _ _ HR), Hp in Hall. rewrite Hp in Hpo.
  pose proof (Z.pow_lt_mono_r 2 _ 128 ltac:(lia) ltac:(lia) Hh).
  pose proof (Z.pow_lt_mono_r 2 _ 128 ltac:(lia) ltac:(lia) Hnw).
  rewrite Z.mod_small in Ev by lia. rewrite Z.mod_small in Ev2 by lia.
  assert (H1 : u128_ok (From 0 1)) by (unfold u128_ok, is_u64; simpl; lia).
  assert (Hhb : 0 <= host_bits range) by (destruct Hrange as (_&?&_); unfold host_bits; lia).
  assert (Hw : wrap64 (host_bits range) = host_bits range) by (apply wrap64_small; lia).
  split; [|lia]. rewrite E2, El. do 2 f_equal.
  - rewrite Uint64Sat_val by done. unfold to_Z. simpl. by rewrite Ev.
  - fold (host_bits range). rewrite Hw.
    destruct (Uint128.Sub_spec (Lsh (From 0 1) (host_bits range)) (From h2 l2)) as [Hso Hsv];
      [by apply Lsh_ok|done|].
    rewrite Uint64Sat_val, Hsv, Lsh_spec by done. unfold to_Z at 1 2. cbn [Uint128.hi Uint128.lo From].
    rewrite Ev2, Z.mul_0_l, Z.add_0_l, Z.mul_1_l, (Z.mod_small (2 ^ host_bits range)) by lia.
    by rewrite Z.mod_small by lia.
Qed.

Lemma pool_status_counts_witness :
  exists s, allocationStatus s net_ex PrefixZero = GoOk (mkSubnetStatus 0 65536).
Proof.
  assert (Hn : prefix_ok net_ex) by (by vm_compute).
  destruct (New_repr net_ex Hn) as [HR E].
  exists (mkAddrSpace [net_ex] {[net_ex := mkPoolData (New net_ex) ∅ false]} []).
  pose proof (pool_status_counts (mkAddrSpace [net_ex] {[net_ex := mkPoolData (New net_ex) ∅ false]} [])
    net_ex PrefixZero (mkPoolData (New net_ex) ∅ false) ∅) as H.
  rewrite decide_True in H by done. by apply H.
Defined.

(** ** Edges of the address families *)

(** [LastAddr] of a network that starts at the zero address: [Prev] has no answer and the sum
    is taken in IPv6, so the broadcast address of [0.0.0.0/8] is not reserved. *)
Lemma LastAddr_zero_network :
  LastAddr (mkPrefix (ip4 0 0 0 0) 8) = Addr6 (2 ^ 24)
  /\ mem (addrs (newPoolData (mkPrefix (ip4 0 0 0 0) 8))) (ip4 0 255 255 255) = false.
Proof. by vm_compute. Qed.

Definition pool47 : Prefix := mkPrefix (Addr6 (253 * 2 ^ 120)) 47.

(** [SubnetsBetween] keeps the low 64 bits: [2^64] free subnets count as none, and a
    half-empty IPv6 pool is reported as exhausted. *)
Lemma SubnetsBetween_truncates :
  SubnetsBetween (pfx_addr pool47) (Addr6 (253 * 2 ^ 120 + 2 ^ 80)) 112 = 0
  /\ (allocatePredefinedPool (newAddrSpace [mkNetworkToSplit pool47 112])
        [mkPrefix (Addr6 (253 * 2 ^ 120 + 2 ^ 80)) 48]).2 = GoErr ErrNoMoreSubnets.
Proof. by vm_compute. Qed.

(** [PrefixAfter] wraps around the end of the family when the target size is the shorter
    one: the search then returns a subnet outside of every predefined network. *)
Lemma PrefixAfter_wraps :
  (allocatePredefinedPool (newAddrSpace [mkNetworkToSplit (mkPrefix (ip4 255 255 0 0) 16) 16])
     [mkPrefix (ip4 255 255 1 0) 24; mkPrefix (ip4 255 255 2 0) 24]).2
  = GoOk (mkPrefix (ip4 0 0 0 0) 16).
Proof. by vm_compute. Qed.

(** An IPv4-mapped pool keeps its IPv6 length when it is unmapped: the error of
    [Addr.Prefix] is dropped and the pool becomes the invalid prefix, among the IPv6 ones. *)
Lemma mapped_pool_lost :
  splitByIPFamily [mkNetworkToSplit (mkPrefix (Addr6 (65535 * 2 ^ 32 + 10 * 2 ^ 24)) 104) 120]
  = GoOk ([], [mkNetworkToSplit PrefixZero 120]).
Proof. by vm_compute. Qed.
