(* ===== verification/PortAllocator.v ===== *)
(** * The port allocator

    Model of [daemon/libnetwork/portallocator/portallocator.go].  A method runs
    under the allocator's mutex and is one step of the state.  The range of
    dynamic ports comes from the operating system and is an argument of the
    operations that read it ([None] when it cannot be read). *)

From S2P Require Import Prelude NetIP.

Inductive PortErr :=
| errAllPortsAllocated
| errUnknownProtocol
| errAlreadyAllocated (ip : Addr) (port : Z)
| errPortRange (portStart portEnd : Z)
| errNoIPs
| errInvalidIP (ip : list Z).

Record portRange := mkPortRange { pr_begin : Z; pr_end : Z; pr_last : Z }.

(** The key of a range is the pair its textual form [begin-end] shows. *)
Abbreviation rangeKey := (Z * Z)%type.

Record portMap := mkPortMap {
  pm_p : gset Z;
  pm_defaultRange : rangeKey;
  pm_portRanges : gmap rangeKey portRange
}.

Abbreviation protoMap := (gmap string portMap).
Abbreviation ipMapping := (gmap Addr protoMap).

Record PortAllocator := mkPortAllocator {
  pa_defaultIP : list Z;
  pa_ipMap : ipMapping;
  pa_begin : Z;
  pa_end : Z
}.

Definition getRangeKey (portStart portEnd : Z) : rangeKey := (portStart, portEnd).

Definition newPortRange (portStart portEnd : Z) : portRange := mkPortRange portStart portEnd portEnd.

Definition newPortMap (portStart portEnd : Z) : portMap :=
  let defaultKey := getRangeKey portStart portEnd in
  mkPortMap ∅ defaultKey {[ defaultKey := newPortRange portStart portEnd ]}.

Definition protocols : list string := ["tcp"%string; "udp"%string; "sctp"%string].

Definition makeProtoMap (begin_ end_ : Z) : protoMap :=
  <["tcp"%string := newPortMap begin_ end_]>
    (<["udp"%string := newPortMap begin_ end_]>
       (<["sctp"%string := newPortMap begin_ end_]> ∅)).

Definition makeIpMapping (begin_ end_ : Z) : ipMapping :=
  <[IPv4Unspecified := makeProtoMap begin_ end_]>
    (<[IPv6Unspecified := makeProtoMap begin_ end_]> ∅).

Definition defaultPortRangeStart : Z := 49153.
Definition defaultPortRangeEnd : Z := 65535.

Definition dynamicPortRange (os : option (Z * Z)) : Z * Z :=
  match os with
  | Some r => r
  | None => (defaultPortRangeStart, defaultPortRangeEnd)
  end.

(** [net.IPv4zero], in its 16-byte form. *)
Definition IPv4zero : list Z := [0;0;0;0;0;0;0;0;0;0;255;255;0;0;0;0].

Definition newInstance (os : option (Z * Z)) : PortAllocator :=
  let '(begin_, end_) := dynamicPortRange os in
  mkPortAllocator IPv4zero (makeIpMapping begin_ end_) begin_ end_.

(** The existing range of a port map, or a new one that is stored. *)
Definition getPortRange (pm : portMap) (portStart portEnd : Z) : portMap * portRange :=
  let key := if (portStart =? 0) && (portEnd =? 0) then pm_defaultRange pm
             else getRangeKey portStart portEnd in
  match pm_portRanges pm !! key with
  | Some pr => (pm, pr)
  | None =>
      let pr := newPortRange portStart portEnd in
      (mkPortMap (pm_p pm) (pm_defaultRange pm) (<[key := pr]> (pm_portRanges pm)), pr)
  end.

(** The references a request collects: the addresses whose port map for the protocol
    takes part, and whether the port is to be allocated there.  A reference is the
    pointer [p.ipMap[addr][proto]], so the map keeps the addresses only. *)
Abbreviation portMapRefs := (gmap Addr bool).

Definition withIpMap (p : PortAllocator) (m : ipMapping) : PortAllocator :=
  mkPortAllocator (pa_defaultIP p) m (pa_begin p) (pa_end p).

(** The loop over the requested addresses. *)
Fixpoint collectIPs (p : PortAllocator) (ips : list (list Z)) (refs : portMapRefs) (ips4 ips6 : bool)
  : PortAllocator * go_result PortErr (portMapRefs * bool * bool) :=
  match ips with
  | [] => (p, GoOk (refs, ips4, ips6))
  | ip :: ips' =>
      match AddrFromSlice ip with
      | None => (p, GoErr (errInvalidIP ip))
      | Some addr =>
          let addr := Unmap addr in
          let '(ips4, ips6) := if Is4 addr then (true, ips6) else (ips4, true) in
          let p := match pa_ipMap p !! addr with
                   | Some _ => p
                   | None => withIpMap p (<[addr := makeProtoMap (pa_begin p) (pa_end p)]> (pa_ipMap p))
                   end in
          collectIPs p ips' (<[addr := true]> refs) ips4 ips6
      end
  end.

(** The port maps where the port must be free because of an unspecified address. *)
Definition collectUnspec (p : PortAllocator) (ips4 ips6 : bool) (unspecAddr : Addr) (refs : portMapRefs)
  : portMapRefs :=
  match refs !! unspecAddr with
  | Some _ =>
      refs ∪ ((fun _ => false) <$>
        filter (fun '(addr, _) => Is4 unspecAddr = Is4 addr) (pa_ipMap p))
  | None =>
      if (Is4 unspecAddr && ips4) || (Is6 unspecAddr && ips6)
      then <[unspecAddr := false]> refs else refs
  end.

Definition collectRefs (p : PortAllocator) (ips4 ips6 : bool) (refs : portMapRefs) : portMapRefs :=
  collectUnspec p ips4 ips6 IPv6Unspecified (collectUnspec p ips4 ips6 IPv4Unspecified refs).

(** The ports taken in the port map of an address. *)
Definition portsOf (p : PortAllocator) (addr : Addr) (proto : string) : gset Z :=
  match pa_ipMap p !! addr with
  | Some protomap => match protomap !! proto with Some pm => pm_p pm | None => ∅ end
  | None => ∅
  end.

(** A referenced address where the port is taken; the map is visited in some order. *)
Definition conflict (p : PortAllocator) (proto : string) (refs : portMapRefs) (port : Z) : option Addr :=
  (list_find (fun addr => port ∈ portsOf p addr proto) (map_to_list refs).*1) ≫= fun '(_, addr) => Some addr.

(** Update of the port maps of the references. *)
Definition updateRefs (p : PortAllocator) (proto : string) (refs : portMapRefs)
  (f : bool -> portMap -> portMap) : PortAllocator :=
  withIpMap p (map_imap (fun addr protomap =>
    Some (match refs !! addr with
          | Some allocate => alter (f allocate) proto protomap
          | None => protomap
          end)) (pa_ipMap p)).

Definition addPort (port : Z) (pm : portMap) : portMap :=
  mkPortMap ({[port]} ∪ pm_p pm) (pm_defaultRange pm) (pm_portRanges pm).

Definition setLast (key : rangeKey) (port : Z) (pm : portMap) : portMap :=
  mkPortMap (pm_p pm) (pm_defaultRange pm)
    (alter (fun pr => mkPortRange (pr_begin pr) (pr_end pr) port) key (pm_portRanges pm)).

(** The key under which a port map keeps the requested range. *)
Definition keyFor (pm : portMap) (portStart portEnd : Z) : rangeKey :=
  if (portStart =? 0) && (portEnd =? 0) then pm_defaultRange pm else getRangeKey portStart portEnd.

(** The search from the port after [port], in [n] steps. *)
Fixpoint searchPort (n : nat) (p : PortAllocator) (proto : string) (refs : portMapRefs)
  (firstRange : portRange) (port : Z) : option Z :=
  match n with
  | O => None
  | S n =>
      let port := port + 1 in
      let port := if pr_end firstRange <? port then pr_begin firstRange else port in
      match conflict p proto refs port with
      | None => Some port
      | Some _ => searchPort n p proto refs firstRange port
      end
  end.

Definition RequestPortsInRange (p : PortAllocator) (ips : list (list Z)) (proto : string)
  (portStart portEnd : Z) : PortAllocator * go_result PortErr Z :=
  if negb (bool_decide (proto ∈ protocols)) then (p, GoErr errUnknownProtocol)
  else if (negb (portStart =? 0) || negb (portEnd =? 0))
          && ((portStart =? 0) || (portEnd =? 0) || (portEnd <? portStart))
  then (p, GoErr (errPortRange portStart portEnd))
  else
    match ips with
    | [] => (p, GoErr errNoIPs)
    | firstIP :: _ =>
        match collectIPs p ips ∅ false false with
        | (p1, GoOk (refs0, ips4, ips6)) =>
            let refs := collectRefs p1 ips4 ips6 refs0 in
            if (0 <? portStart) && (portStart =? portEnd) then
              match conflict p1 proto refs portStart with
              | Some addr => (p1, GoErr (errAlreadyAllocated addr portStart))
              | None =>
                  (updateRefs p1 proto refs (fun allocate pm => if allocate then addPort portStart pm else pm),
                   GoOk portStart)
              end
            else
              (* create or fetch the range of every port map *)
              let p2 := updateRefs p1 proto refs (fun _ pm => (getPortRange pm portStart portEnd).1) in
              match AddrFromSlice firstIP with
              | Some firstAddr =>
                  match (pa_ipMap p2 !! Unmap firstAddr) ≫= (fun protomap => protomap !! proto) with
                  | Some pm =>
                      let firstRange := (getPortRange pm portStart portEnd).2 in
                      let n := Z.to_nat (pr_end firstRange - pr_begin firstRange + 1) in
                      match searchPort n p2 proto refs firstRange (pr_last firstRange) with
                      | Some port =>
                          (updateRefs p2 proto refs (fun allocate pm =>
                             if allocate then setLast (keyFor pm portStart portEnd) port (addPort port pm) else pm),
                           GoOk port)
                      | None => (p2, GoErr errAllPortsAllocated)
                      end
                  | None => (p2, GoPanic)
                  end
              | None => (p2, GoPanic)
              end
        | (p1, GoErr e) => (p1, GoErr e)
        | (p1, GoPanic) => (p1, GoPanic)
        end
    end.

(** [None] is a nil [net.IP]. *)
Definition RequestPort (p : PortAllocator) (ip : option (list Z)) (proto : string) (port : Z)
  : PortAllocator * go_result PortErr Z :=
  RequestPortsInRange p [default (pa_defaultIP p) ip] proto port port.

Definition RequestPortInRange (p : PortAllocator) (ip : option (list Z)) (proto : string)
  (portStart portEnd : Z) : PortAllocator * go_result PortErr Z :=
  RequestPortsInRange p [default (pa_defaultIP p) ip] proto portStart portEnd.

(** A protocol without port map is a nil pointer that is dereferenced. *)
Definition ReleasePort (p : PortAllocator) (ip : option (list Z)) (proto : string) (port : Z)
  : PortAllocator * go_result PortErr unit :=
  match AddrFromSlice (default (pa_defaultIP p) ip) with
  | None => (p, GoOk tt)
  | Some addr =>
      match pa_ipMap p !! Unmap addr with
      | None => (p, GoOk tt)
      | Some protomap =>
          match protomap !! proto with
          | None => (p, GoPanic)
          | Some pm =>
              let pm' := mkPortMap (pm_p pm ∖ {[port]}) (pm_defaultRange pm) (pm_portRanges pm) in
              (withIpMap p (<[Unmap addr := <[proto := pm']> protomap]> (pa_ipMap p)), GoOk tt)
          end
      end
  end.

Definition ReleaseAll (p : PortAllocator) (os : option (Z * Z)) : PortAllocator :=
  let '(begin_, end_) := dynamicPortRange os in
  withIpMap p (makeIpMapping begin_ end_).

(** The truncated default range. *)
Definition GetPortRange (p : PortAllocator) : Z * Z :=
  (pa_begin p mod 2 ^ 16, pa_end p mod 2 ^ 16).
