(* ===== verification/PortAllocatorTheorems.v ===== *)
(** * Theorems about the port allocator

    The contract of [daemon/libnetwork/portallocator]: a port is handed out
    only when no overlapping binding holds it, and exactly the requested
    bindings are recorded. *)

From S2P Require Import Prelude NetIP PortAllocator.

(** The unspecified address of the family. *)
Definition unspec_of (a : Addr) : Addr := if Is4 a then IPv4Unspecified else IPv6Unspecified.

(** The addresses a request names. *)
Fixpoint addrs_of (ips : list (list Z)) : option (list Addr) :=
  match ips with
  | [] => Some []
  | ip :: ips' =>
      match AddrFromSlice ip, addrs_of ips' with
      | Some a, Some l => Some (Unmap a :: l)
      | _, _ => None
      end
  end.

(** The port is taken for one of the addresses, for the unspecified address of its
    family, or, when the address is unspecified, for any address of the family. *)
Definition blocked (p : PortAllocator) (A : list Addr) (proto : string) (port : Z) : Prop :=
  exists a, a ∈ A /\
    (port ∈ portsOf p a proto \/ port ∈ portsOf p (unspec_of a) proto
     \/ a = unspec_of a /\ exists b, Is4 b = Is4 a /\ port ∈ portsOf p b proto).

(** ** Invariant *)

Record range_ok (key : rangeKey) (pr : portRange) : Prop := {
  ro_key : key = (pr_begin pr, pr_end pr);
  ro_last : pr_begin pr <= pr_last pr <= pr_end pr
}.

Record map_ok (pm : portMap) : Prop := {
  mo_default : is_Some (pm_portRanges pm !! pm_defaultRange pm);
  mo_ranges : forall key pr, pm_portRanges pm !! key = Some pr -> range_ok key pr
}.

Record alloc_ok (p : PortAllocator) : Prop := {
  ao_unspec : is_Some (pa_ipMap p !! IPv4Unspecified) /\ is_Some (pa_ipMap p !! IPv6Unspecified);
  ao_protos : forall a m proto, pa_ipMap p !! a = Some m -> proto ∈ protocols -> is_Some (m !! proto);
  ao_maps : forall a m proto pm, pa_ipMap p !! a = Some m -> m !! proto = Some pm ->
    proto ∈ protocols /\ map_ok pm /\ pm_defaultRange pm = (pa_begin p, pa_end p);
  ao_range : pa_begin p <= pa_end p;
  (* no port is bound both to an address and to the unspecified one of its family *)
  ao_excl : forall a proto port, a <> unspec_of a ->
    port ∈ portsOf p a proto -> port ∈ portsOf p (unspec_of a) proto -> False
}.

Lemma newPortMap_ok b e : b <= e -> map_ok (newPortMap b e).
Proof.
  intros Hbe. constructor; simpl.
  - rewrite lookup_singleton_eq. by eexists.
  - intros key pr [<- <-]%lookup_singleton_Some. constructor; simpl; [done|lia].
Qed.

Lemma makeProtoMap_lookup b e proto :
  makeProtoMap b e !! proto = if decide (proto ∈ protocols) then Some (newPortMap b e) else None.
Proof.
  unfold makeProtoMap, protocols. destruct (decide (proto ∈ _)) as [Hin|Hnin].
  - rewrite !elem_of_cons, elem_of_nil in Hin. destruct Hin as [->|[->|[->|[]]]]; by simplify_map_eq.
  - rewrite !elem_of_cons, elem_of_nil in Hnin. by rewrite !lookup_insert_ne by (intros <-; tauto).
Qed.

Lemma portsOf_fresh p a b e : forall proto,
  pa_ipMap p !! a = None ->
  portsOf (withIpMap p (<[a := makeProtoMap b e]> (pa_ipMap p))) a proto = ∅.
Proof.
  intros proto _. unfold portsOf. simpl. rewrite lookup_insert_eq, makeProtoMap_lookup.
  by destruct (decide (proto ∈ protocols)).
Qed.

(** Adding an empty entry for an address. *)
Lemma extend_ports p a c proto :
  pa_ipMap p !! a = None ->
  portsOf (withIpMap p (<[a := makeProtoMap (pa_begin p) (pa_end p)]> (pa_ipMap p))) c proto = portsOf p c proto.
Proof.
  intros Hn. destruct (decide (c = a)) as [->|Hne].
  - rewrite portsOf_fresh by done. unfold portsOf. by rewrite Hn.
  - unfold portsOf. simpl. by rewrite lookup_insert_ne by done.
Qed.

Lemma extend_ok p a :
  alloc_ok p -> pa_ipMap p !! a = None ->
  alloc_ok (withIpMap p (<[a := makeProtoMap (pa_begin p) (pa_end p)]> (pa_ipMap p))).
Proof.
  intros [Hu Hp Hm Hr He] Hn. constructor.
  - simpl. rewrite !lookup_insert_is_Some. destruct (decide (a = IPv4Unspecified)), (decide (a = IPv6Unspecified)); tauto.
  - intros c m proto. simpl. rewrite lookup_insert_Some. intros [[<- <-]|[_ Hc]] Hpr; [|eauto].
    rewrite makeProtoMap_lookup, decide_True by done. by eexists.
  - intros c m proto pm. simpl. rewrite lookup_insert_Some. intros [[<- <-]|[_ Hc]] Hpm; [|eauto].
    rewrite makeProtoMap_lookup in Hpm. case_decide; [|done]. injection Hpm as <-. split_and!; [done|by apply newPortMap_ok|done].
  - done.
  - intros c proto port Hc. rewrite !extend_ports by done. by apply He.
Qed.

(** ** The requested addresses *)

Lemma collectIPs_spec p ips refs ips4 ips6 A :
  alloc_ok p -> addrs_of ips = Some A ->
  exists p1 refs1, collectIPs p ips refs ips4 ips6
      = (p1, GoOk (refs1, ips4 || existsb Is4 A, ips6 || existsb (fun a => negb (Is4 a)) A))
  /\ alloc_ok p1 /\ (forall c proto, portsOf p1 c proto = portsOf p c proto)
  /\ pa_begin p1 = pa_begin p /\ pa_end p1 = pa_end p /\ pa_defaultIP p1 = pa_defaultIP p
  /\ (forall c, refs1 !! c = if decide (c ∈ A) then Some true else refs !! c)
  /\ (forall c, c ∈ A -> is_Some (pa_ipMap p1 !! c))
  /\ (forall c, is_Some (pa_ipMap p !! c) -> pa_ipMap p1 !! c = pa_ipMap p !! c).
Proof.
  revert p refs ips4 ips6 A. induction ips as [|ip ips IH]; intros p refs ips4 ips6 A Hok HA; simpl in HA.
  { injection HA as <-. exists p, refs. cbn [existsb collectIPs]. rewrite !orb_false_r. split_and!; try done.
    by intros c ?%elem_of_nil. }
  destruct (AddrFromSlice ip) as [a0|] eqn:Ha0; [|done]. destruct (addrs_of ips) as [A'|]; [|done].
  injection HA as <-. cbn [collectIPs]. rewrite Ha0. set (a := Unmap a0).
  set (p' := match pa_ipMap p !! a with Some _ => p | None => _ end).
  assert (Hp' : alloc_ok p' /\ (forall c proto, portsOf p' c proto = portsOf p c proto)
    /\ pa_begin p' = pa_begin p /\ pa_end p' = pa_end p /\ pa_defaultIP p' = pa_defaultIP p
    /\ is_Some (pa_ipMap p' !! a) /\ (forall c, is_Some (pa_ipMap p !! c) -> pa_ipMap p' !! c = pa_ipMap p !! c)).
  { unfold p'. destruct (pa_ipMap p !! a) as [m|] eqn:Hm; [by split_and!|].
    split_and!; [by apply extend_ok|intros; by apply extend_ports|done|done|done| |].
    - simpl. rewrite lookup_insert_eq. by eexists.
    - intros c [m Hc]. simpl. rewrite lookup_insert_ne; [done|]. intros <-. congruence. }
  destruct Hp' as (Hok'&Hports&Hb&He&Hd&Ha&Hkeep).
  destruct (IH p' (<[a := true]> refs) (if Is4 a then true else ips4) (if Is4 a then ips6 else true) A' Hok' eq_refl)
    as (p1&refs1&Hcol&Hok1&Hports1&Hb1&He1&Hd1&Hrefs1&Hin1&Hkeep1).
  exists p1, refs1. split_and!; try done; try congruence.
  - destruct (Is4 a) eqn:H4; rewrite Hcol; simpl; rewrite H4; simpl; repeat f_equal; by rewrite ?orb_true_r.
  - intros c. rewrite Hrefs1. destruct (decide (c ∈ A')) as [Hc|Hc].
    + rewrite decide_True by (by right). done.
    + destruct (decide (c = a)) as [->|Hne].
      * rewrite decide_True by (by left). apply lookup_insert_eq.
      * rewrite decide_False by (intros [?|?]%elem_of_cons; done). by rewrite lookup_insert_ne by done.
  - intros c [->|Hc]%elem_of_cons; [|by apply Hin1]. rewrite Hkeep1; done.
  - intros c Hc. rewrite Hkeep1, Hkeep; [done|done|]. rewrite Hkeep by done. done.
Qed.

(** An invalid address is reported; nothing is bound. *)
Lemma collectIPs_invalid p ips refs ips4 ips6 :
  alloc_ok p -> addrs_of ips = None ->
  exists p1 ip, collectIPs p ips refs ips4 ips6 = (p1, GoErr (errInvalidIP ip))
  /\ alloc_ok p1 /\ (forall c proto, portsOf p1 c proto = portsOf p c proto)
  /\ ip ∈ ips /\ AddrFromSlice ip = None.
Proof.
  revert p refs ips4 ips6. induction ips as [|ip ips IH]; intros p refs ips4 ips6 Hok HA; [done|].
  cbn [collectIPs]. simpl in HA. destruct (AddrFromSlice ip) as [a0|] eqn:Ha0.
  2: { exists p, ip. split_and!; try done. by left. }
  destruct (addrs_of ips) as [A'|]; [done|]. set (a := Unmap a0).
  set (p' := match pa_ipMap p !! a with Some _ => p | None => _ end).
  assert (Hp' : alloc_ok p' /\ forall c proto, portsOf p' c proto = portsOf p c proto).
  { unfold p'. destruct (pa_ipMap p !! a) eqn:Hm; [done|].
    split; [by apply extend_ok|intros; by apply extend_ports]. }
  destruct Hp' as [Hok' Hports].
  destruct (Is4 a);
    [destruct (IH p' (<[a := true]> refs) true ips6 Hok' eq_refl) as (p1&ip1&->&Hok1&Hp1&Hin&Hn)
    |destruct (IH p' (<[a := true]> refs) ips4 true Hok' eq_refl) as (p1&ip1&->&Hok1&Hp1&Hin&Hn)];
    (exists p1, ip1; split_and!; try done; [intros c proto; by rewrite Hp1, Hports|by right]).
Qed.

(** ** The references *)

Lemma unspec_family a : Is4 (unspec_of a) = Is4 a.
Proof. unfold unspec_of. by destruct a. Qed.

Lemma unspec_cases a : unspec_of a = IPv4Unspecified /\ Is4 a = true \/ unspec_of a = IPv6Unspecified /\ Is4 a = false.
Proof. unfold unspec_of. destruct (Is4 a); auto. Qed.

Lemma existsb_elem (f : Addr -> bool) A : existsb f A = true <-> exists a, a ∈ A /\ f a = true.
Proof.
  rewrite existsb_exists. split; intros (a&Ha&Hf); exists a; (split; [|done]); by apply list_elem_of_In.
Qed.

(** What the two rounds over the unspecified addresses add: entries that are not
    allocated, present exactly where the port has to be free. *)
Lemma collectUnspec_lookup p ips4 ips6 u refs c :
  collectUnspec p ips4 ips6 u refs !! c =
    match refs !! c with
    | Some v => Some v
    | None =>
        match refs !! u with
        | Some _ => if decide (Is4 u = Is4 c /\ is_Some (pa_ipMap p !! c)) then Some false else None
        | None => if decide (c = u /\ (Is4 u && ips4) || (Is6 u && ips6) = true) then Some false else None
        end
    end.
Proof.
  unfold collectUnspec. destruct (refs !! u) as [v|] eqn:Hu.
  - rewrite lookup_union, lookup_fmap, map_lookup_filter. destruct (refs !! c) as [w|] eqn:Hc.
    { by destruct (_ <$> _). }
    destruct (pa_ipMap p !! c) as [m|]; simpl.
    + destruct (decide (Is4 u = Is4 c)) as [E|E].
      * rewrite option_guard_True by done. simpl. by rewrite decide_True by auto.
      * rewrite option_guard_False by done. simpl. by rewrite decide_False by tauto.
    + rewrite decide_False; [done|]. by intros [_ [? ?]].
  - destruct ((Is4 u && ips4) || (Is6 u && ips6)) eqn:Hb.
    + destruct (decide (c = u)) as [->|Hne].
      * rewrite lookup_insert_eq, Hu. by rewrite decide_True by auto.
      * rewrite lookup_insert_ne by done. rewrite decide_False by tauto. by destruct (refs !! c).
    + rewrite decide_False by (intros [_ ?]; done). by destruct (refs !! c).
Qed.

(** The addresses that take part besides the requested ones. *)
Definition also_checked (p : PortAllocator) (A : list Addr) (c : Addr) : Prop :=
  (exists a, a ∈ A /\ c = unspec_of a)
  \/ (exists a, a ∈ A /\ a = unspec_of a /\ Is4 a = Is4 c /\ is_Some (pa_ipMap p !! c)).

Lemma also_checked_family p A c u :
  u = unspec_of c ->
  also_checked p A c <->
  (c = u /\ exists a, a ∈ A /\ Is4 a = Is4 c) \/ (u ∈ A /\ is_Some (pa_ipMap p !! c)).
Proof.
  intros ->. split.
  - intros [(a&Ha&->)|(a&Ha&E&Hf&Hs)].
    + left. split; [unfold unspec_of at 2; rewrite unspec_family; done|]. exists a. by rewrite unspec_family.
    + right. split; [|done]. replace (unspec_of c) with a; [done|]. rewrite E. unfold unspec_of. by rewrite Hf.
  - intros [[E (a&Ha&Hf)]|[Hu Hs]].
    + left. exists a. split; [done|]. rewrite E. unfold unspec_of. by rewrite Hf.
    + right. exists (unspec_of c). split_and!; [done| |apply unspec_family|done].
      unfold unspec_of at 2. by rewrite unspec_family.
Qed.

Lemma collectRefs_spec p A refs0 :
  (forall c, refs0 !! c = if decide (c ∈ A) then Some true else None) ->
  let refs := collectRefs p (existsb Is4 A) (existsb (fun a => negb (Is4 a)) A) refs0 in
  (forall c, c ∈ A -> refs !! c = Some true)
  /\ (forall c, c ∉ A -> also_checked p A c -> refs !! c = Some false)
  /\ (forall c, c ∉ A -> ~ also_checked p A c -> refs !! c = None).
Proof.
  intros H0 refs.
  assert (H4 : forall c, Is4 c = true -> existsb Is4 A = true <-> exists a, a ∈ A /\ Is4 a = Is4 c)
    by (intros c ->; apply existsb_elem).
  assert (H6 : forall c, Is4 c = false ->
    existsb (fun a => negb (Is4 a)) A = true <-> exists a, a ∈ A /\ Is4 a = Is4 c).
  { intros c ->. rewrite existsb_elem. split; intros (a&Ha&Hf); exists a; (split; [done|]);
      by destruct (Is4 a). }
  assert (Hl : forall c, refs !! c =
    if decide (c ∈ A) then Some true
    else if Is4 c then
      (if decide (IPv4Unspecified ∈ A) then if decide (is_Some (pa_ipMap p !! c)) then Some false else None
       else if decide (c = IPv4Unspecified /\ existsb Is4 A = true) then Some false else None)
    else
      (if decide (IPv6Unspecified ∈ A) then if decide (is_Some (pa_ipMap p !! c)) then Some false else None
       else if decide (c = IPv6Unspecified /\ existsb (fun a => negb (Is4 a)) A = true) then Some false else None)).
  { intros c. unfold refs, collectRefs. rewrite !collectUnspec_lookup, !H0. simpl (Is4 IPv4Unspecified).
    simpl (Is4 IPv6Unspecified). simpl (Is6 _). rewrite ?orb_false_r, ?andb_true_l, ?orb_false_l.
    destruct (decide (c ∈ A)), (decide (IPv4Unspecified ∈ A)), (decide (IPv6Unspecified ∈ A)),
      (Is4 c) eqn:Hc; repeat case_decide; try done; naive_solver. }
  assert (Hfam : forall c, also_checked p A c <->
    if Is4 c then (c = IPv4Unspecified /\ existsb Is4 A = true) \/ (IPv4Unspecified ∈ A /\ is_Some (pa_ipMap p !! c))
    else (c = IPv6Unspecified /\ existsb (fun a => negb (Is4 a)) A = true)
         \/ (IPv6Unspecified ∈ A /\ is_Some (pa_ipMap p !! c))).
  { intros c. rewrite (also_checked_family p A c (unspec_of c) eq_refl). unfold unspec_of.
    destruct (Is4 c) eqn:Hc; [rewrite (H4 c Hc)|rewrite (H6 c Hc)]; by rewrite Hc. }
  split_and!; intros c Hc; rewrite Hl.
  - by rewrite decide_True.
  - rewrite decide_False by done. rewrite Hfam. clear - Hc. destruct (Is4 c); repeat case_decide; try done; naive_solver.
  - rewrite decide_False by done. rewrite Hfam. clear - Hc. destruct (Is4 c); repeat case_decide; try done; naive_solver.
Qed.

(** ** Updates of the port maps *)

Definition pm_at (p : PortAllocator) (a : Addr) (proto : string) : option portMap :=
  pa_ipMap p !! a ≫= fun m => m !! proto.

Lemma portsOf_at p a proto : portsOf p a proto = default ∅ (pm_p <$> pm_at p a proto).
Proof. unfold portsOf, pm_at. destruct (pa_ipMap p !! a) as [m|]; [|done]. simpl. by destruct (m !! proto). Qed.

Lemma updateRefs_at p proto refs f c q :
  pm_at (updateRefs p proto refs f) c q =
    match refs !! c with
    | Some allocate => if decide (q = proto) then f allocate <$> pm_at p c q else pm_at p c q
    | None => pm_at p c q
    end.
Proof.
  unfold pm_at, updateRefs. simpl. rewrite map_lookup_imap.
  destruct (pa_ipMap p !! c) as [m|]; simpl; [|by destruct (refs !! c); try case_decide].
  destruct (refs !! c) as [al|]; simpl; [|done]. case_decide as E; [subst; apply lookup_alter_eq|].
  by apply lookup_alter_ne.
Qed.

Lemma updateRefs_dom p proto refs f c :
  is_Some (pa_ipMap (updateRefs p proto refs f) !! c) <-> is_Some (pa_ipMap p !! c).
Proof.
  unfold updateRefs. simpl. rewrite map_lookup_imap. destruct (pa_ipMap p !! c); simpl;
    (split; intros [? ?]; [by eexists|try done; by eexists]).
Qed.

Lemma pm_at_ok p a proto pm :
  alloc_ok p -> pm_at p a proto = Some pm ->
  proto ∈ protocols /\ map_ok pm /\ pm_defaultRange pm = (pa_begin p, pa_end p).
Proof.
  intros Hok. unfold pm_at. destruct (pa_ipMap p !! a) as [m|] eqn:Hm; [|done]. simpl. intros Hp.
  by apply (ao_maps p Hok a m).
Qed.

Lemma pm_at_exists p a proto :
  alloc_ok p -> is_Some (pa_ipMap p !! a) -> proto ∈ protocols -> is_Some (pm_at p a proto).
Proof.
  intros Hok [m Hm] Hpr. unfold pm_at. rewrite Hm. by apply (ao_protos p Hok a m).
Qed.

(** The invariant under an update, exclusiveness apart. *)
Lemma updateRefs_ok p proto refs f :
  alloc_ok p ->
  (forall a al pm, refs !! a = Some al -> pm_at p a proto = Some pm -> map_ok pm ->
     map_ok (f al pm) /\ pm_defaultRange (f al pm) = pm_defaultRange pm) ->
  (forall a q port, a <> unspec_of a -> port ∈ portsOf (updateRefs p proto refs f) a q ->
     port ∈ portsOf (updateRefs p proto refs f) (unspec_of a) q -> False) ->
  alloc_ok (updateRefs p proto refs f).
Proof.
  intros Hok Hf Hex. constructor; [| | |apply Hok|done].
  - rewrite !updateRefs_dom. apply Hok.
  - intros a m q Hm Hq. assert (Hd : is_Some (pa_ipMap p !! a)) by (apply (updateRefs_dom p proto refs f); by rewrite Hm).
    pose proof (updateRefs_at p proto refs f a q) as E. unfold pm_at at 1 in E. rewrite Hm in E. simpl in E. rewrite E.
    destruct (pm_at_exists p a q Hok Hd Hq) as [pm ->]. destruct (refs !! a); [case_decide|]; by eexists.
  - intros a m q pm Hm Hpm.
    pose proof (updateRefs_at p proto refs f a q) as E. unfold pm_at at 1 in E. rewrite Hm in E. simpl in E.
    rewrite Hpm in E. destruct (pm_at p a q) as [pm0|] eqn:Hat.
    + destruct (pm_at_ok p a q pm0 Hok Hat) as (Hq&Hmo&Hdf).
      destruct (refs !! a) as [al|] eqn:Hra; [case_decide as Hd|]; simpl in E; injection E as ->; [|done|done].
      subst q. destruct (Hf a al pm0 Hra Hat Hmo) as [? E2]. split_and!; [done|done|by rewrite E2].
    + destruct (refs !! a); [case_decide|]; done.
Qed.

Lemma getPortRange_ok pm s e :
  map_ok pm -> (s = 0 /\ e = 0 \/ s <= e) ->
  let '(pm', pr) := getPortRange pm s e in
  map_ok pm' /\ pm_p pm' = pm_p pm /\ pm_defaultRange pm' = pm_defaultRange pm
  /\ pm_portRanges pm' !! keyFor pm s e = Some pr /\ range_ok (keyFor pm s e) pr
  /\ (forall key r, pm_portRanges pm !! key = Some r -> pm_portRanges pm' !! key = Some r).
Proof.
  intros [Hd Hr] Hse. unfold getPortRange. fold (keyFor pm s e).
  destruct (pm_portRanges pm !! keyFor pm s e) as [pr|] eqn:Hk; [by split_and!; auto|].
  assert (Hkey : keyFor pm s e = (s, e) /\ s <= e).
  { unfold keyFor in *. destruct (Z.eqb_spec s 0), (Z.eqb_spec e 0); simpl in *; try (split; [done|lia]).
    rewrite Hk in Hd. by destruct Hd. }
  destruct Hkey as [Hkey Hle]. assert (Hro : range_ok (s, e) (newPortRange s e)) by (constructor; simpl; [done|lia]).
  rewrite Hkey in *. split_and!; try done; simpl.
  - constructor; simpl.
    + destruct Hd as [r Hd]. destruct (decide (pm_defaultRange pm = (s, e))) as [E|E].
      * rewrite E, lookup_insert_eq. by eexists.
      * rewrite lookup_insert_ne by done. by eexists.
    + intros key pr. rewrite lookup_insert_Some. intros [[<- <-]|[_ ?]]; auto.
  - apply lookup_insert_eq.
  - intros key r Hl. rewrite lookup_insert_ne; [done|]. intros <-. congruence.
Qed.

Lemma addPort_ok port pm : map_ok pm -> map_ok (addPort port pm).
Proof. intros [? ?]. by constructor. Qed.

Lemma setLast_ok key port pm pr :
  map_ok pm -> pm_portRanges pm !! key = Some pr -> pr_begin pr <= port <= pr_end pr ->
  map_ok (setLast key port pm).
Proof.
  intros [Hd Hr] Hk Hp. constructor; simpl.
  - rewrite lookup_alter_is_Some. done.
  - intros k r. rewrite lookup_alter_Some. intros [(->&r0&Hr0&->)|[_ ?]]; [|auto].
    assert (r0 = pr) as -> by congruence. destruct (Hr _ _ Hk) as [E _]. constructor; simpl; [done|lia].
Qed.

(** ** Conflicts and the search *)

Lemma conflict_None p proto refs port :
  conflict p proto refs port = None <-> forall c, is_Some (refs !! c) -> port ∉ portsOf p c proto.
Proof.
  unfold conflict. destruct (list_find _ _) as [[i a]|] eqn:Hf; simpl; split; try done.
  - apply list_find_Some in Hf as (Hi&Hin&_). intros H. exfalso. apply (H a); [|done].
    apply list_elem_of_lookup_2, list_elem_of_fmap in Hi as ([a' v]&->&Hm%elem_of_map_to_list). by exists v.
  - intros _ c [v Hc] Hin. apply list_find_None in Hf. rewrite Forall_forall in Hf. apply (Hf c); [|done].
    apply list_elem_of_In, list_elem_of_fmap. exists (c, v). split; [done|]. by apply elem_of_map_to_list.
Qed.

Lemma conflict_Some p proto refs port a :
  conflict p proto refs port = Some a -> is_Some (refs !! a) /\ port ∈ portsOf p a proto.
Proof.
  unfold conflict. destruct (list_find _ _) as [[i b]|] eqn:Hf; [|done]. simpl. intros [= ->].
  apply list_find_Some in Hf as (Hi&Hin&_). split; [|done].
  apply list_elem_of_lookup_2, list_elem_of_fmap in Hi as ([a' v]&->&Hm%elem_of_map_to_list). by exists v.
Qed.

(** The ports visited in [n] steps from [port] on. *)
Definition cyclic (r : portRange) (port : Z) (k : Z) : Z :=
  pr_begin r + (port - pr_begin r + k) mod (pr_end r - pr_begin r + 1).

Lemma cyclic_next r port :
  pr_begin r <= port <= pr_end r ->
  let port' := if pr_end r <? port + 1 then pr_begin r else port + 1 in
  pr_begin r <= port' <= pr_end r /\ port' = cyclic r port 1
  /\ forall k, 0 <= k -> cyclic r port' k = cyclic r port (k + 1).
Proof.
  intros Hp port'. set (n := pr_end r - pr_begin r + 1). assert (Hn : 0 < n) by (unfold n; lia).
  assert (Hc : port' = cyclic r port 1).
  { unfold cyclic, port'. fold n. destruct (Z.ltb_spec (pr_end r) (port + 1)).
    - replace (port - pr_begin r + 1) with n by (unfold n; lia). rewrite Z.mod_same by lia. lia.
    - rewrite Z.mod_small by (unfold n; lia). lia. }
  split_and!; [unfold port'; destruct (Z.ltb_spec (pr_end r) (port + 1)); lia|
               unfold port'; destruct (Z.ltb_spec (pr_end r) (port + 1)); lia|done|].
  intros k Hk. rewrite Hc. unfold cyclic. fold n. f_equal.
  replace (pr_begin r + (port - pr_begin r + 1) mod n - pr_begin r + k)
    with ((port - pr_begin r + 1) mod n + k) by lia.
  rewrite Zplus_mod_idemp_l. f_equal. lia.
Qed.

Lemma searchPort_spec n p proto refs r port :
  pr_begin r <= port <= pr_end r ->
  match searchPort n p proto refs r port with
  | Some q => exists k, 1 <= k <= Z.of_nat n /\ q = cyclic r port k /\ conflict p proto refs q = None
      /\ forall j, 1 <= j < k -> conflict p proto refs (cyclic r port j) <> None
  | None => forall j, 1 <= j <= Z.of_nat n -> conflict p proto refs (cyclic r port j) <> None
  end.
Proof.
  revert port. induction n as [|n IH]; intros port Hp; cbn [searchPort]; [intros; lia|].
  destruct (cyclic_next r port Hp) as (Hp'&Hc&Hk). set (port' := if _ <? _ then _ else _) in *. cbv zeta.
  destruct (conflict p proto refs port') as [a|] eqn:Hconf.
  - specialize (IH port' Hp'). destruct (searchPort n p proto refs r port') as [q|].
    + destruct IH as (k&Hk1&->&Hfree&Hbefore). exists (k + 1). split_and!; [lia|lia|by apply Hk; lia|done|].
      intros j Hj. destruct (Z.eq_dec j 1) as [->|Hne]; [rewrite <- Hc; congruence|].
      replace j with (j - 1 + 1) by lia. rewrite <- Hk by lia. apply Hbefore. lia.
    + intros j Hj. destruct (Z.eq_dec j 1) as [->|Hne]; [rewrite <- Hc; congruence|].
      replace j with (j - 1 + 1) by lia. rewrite <- Hk by lia. apply IH. lia.
  - exists 1. split_and!; [lia|lia|done|done|]. intros j Hj. lia.
Qed.

(** In a whole round every port of the range is visited. *)
Lemma cyclic_all r port q :
  pr_begin r <= port <= pr_end r -> pr_begin r <= q <= pr_end r ->
  exists k, 1 <= k <= pr_end r - pr_begin r + 1 /\ q = cyclic r port k.
Proof.
  intros Hp Hq. set (n := pr_end r - pr_begin r + 1). assert (Hn : 0 < n) by (unfold n; lia).
  destruct (Z.le_gt_cases q port) as [Hle|Hgt].
  - exists (q - port + n). split; [unfold n; lia|]. unfold cyclic. fold n.
    replace (port - pr_begin r + (q - port + n)) with (q - pr_begin r + 1 * n) by lia.
    rewrite Z.mod_add, Z.mod_small by (unfold n; lia). lia.
  - exists (q - port). split; [unfold n; lia|]. unfold cyclic. fold n.
    replace (port - pr_begin r + (q - port)) with (q - pr_begin r) by lia.
    rewrite Z.mod_small by (unfold n; lia). lia.
Qed.

Lemma cyclic_range r port k :
  pr_begin r <= pr_end r -> pr_begin r <= cyclic r port k <= pr_end r.
Proof.
  intros H. unfold cyclic. pose proof (Z.mod_pos_bound (port - pr_begin r + k) (pr_end r - pr_begin r + 1) ltac:(lia)). lia.
Qed.

(** ** Requests *)

(** No address together with the unspecified one of its family. *)
Definition compatible (A : list Addr) : Prop := forall a, a ∈ A -> a <> unspec_of a -> unspec_of a ∉ A.

(** The range a request searches: the given one or the default one. *)
Definition range_of (p : PortAllocator) (s e : Z) : Z * Z :=
  if (s =? 0) && (e =? 0) then (pa_begin p, pa_end p) else (s, e).

(** What a request has collected when the search begins. *)
Record collected (p p1 : PortAllocator) (A : list Addr) (refs : portMapRefs) : Prop := {
  cl_ok : alloc_ok p1;
  cl_range : pa_begin p1 = pa_begin p /\ pa_end p1 = pa_end p;
  cl_ports : forall c q, portsOf p1 c q = portsOf p c q;
  cl_true : forall c, c ∈ A -> refs !! c = Some true;
  cl_false : forall c, c ∉ A -> also_checked p1 A c -> refs !! c = Some false;
  cl_none : forall c, c ∉ A -> ~ also_checked p1 A c -> refs !! c = None;
  cl_dom : forall c, c ∈ A -> is_Some (pa_ipMap p1 !! c)
}.

Lemma refs_blocked p p1 A refs proto port c :
  collected p p1 A refs -> is_Some (refs !! c) -> port ∈ portsOf p1 c proto -> blocked p A proto port.
Proof.
  intros [Hok _ Hports Ht Hf Hn Hd] Hc Hin. rewrite Hports in Hin. destruct (decide (c ∈ A)) as [HA|HA].
  { exists c. auto. }
  assert (Hch : also_checked p1 A c \/ ~ also_checked p1 A c).
  { rewrite (also_checked_family p1 A c _ eq_refl).
    assert (DQ : (exists a, a ∈ A /\ Is4 a = Is4 c) \/ ~ exists a, a ∈ A /\ Is4 a = Is4 c).
    { destruct (existsb (fun a => Bool.eqb (Is4 a) (Is4 c)) A) eqn:E.
      - left. apply existsb_elem in E as (a&?&?%eqb_prop). by exists a.
      - right. intros (a&Ha&Hfm). assert (existsb (fun a => Bool.eqb (Is4 a) (Is4 c)) A = true); [|congruence].
        apply existsb_elem. exists a. split; [done|]. by rewrite Hfm, eqb_reflx. }
    destruct (decide (c = unspec_of c)), (decide (unspec_of c ∈ A)), (decide (is_Some (pa_ipMap p1 !! c)));
      tauto. }
  destruct Hch as [Hch|Hch]; [|rewrite (Hn c HA Hch) in Hc; by destruct Hc].
  destruct Hch as [(a&Ha&->)|(a&Ha&Hu&Hfam&_)]; exists a; (split; [done|]); [auto|].
  right. right. split; [done|]. exists c. by rewrite Hfam.
Qed.

Lemma conflict_blocked p p1 A refs proto port :
  collected p p1 A refs ->
  (conflict p1 proto refs port = None -> ~ blocked p A proto port)
  /\ (conflict p1 proto refs port <> None -> blocked p A proto port).
Proof.
  intros Hcl. split.
  - rewrite conflict_None. destruct Hcl as [Hok _ Hports Ht Hf Hn Hd]. intros H (a&Ha&Hb).
    assert (Hchk : forall c, also_checked p1 A c -> port ∉ portsOf p c proto).
    { intros c Hc. rewrite <- Hports. apply H. destruct (decide (c ∈ A)) as [Hin|Hin].
      - rewrite (Ht c Hin). by eexists.
      - rewrite (Hf c Hin Hc). by eexists. }
    destruct Hb as [Hb|[Hb|(Hu&b&Hfam&Hb)]].
    + rewrite <- Hports in Hb. apply (H a); [|done]. rewrite (Ht a Ha). by eexists.
    + apply (Hchk (unspec_of a)); [|done]. left. by exists a.
    + apply (Hchk b); [|done]. right. exists a. split_and!; try done.
      rewrite <- Hports in Hb. unfold portsOf in Hb. destruct (pa_ipMap p1 !! b); [by eexists|set_solver].
  - intros Hc. destruct (conflict p1 proto refs port) as [a|] eqn:E; [|done].
    apply conflict_Some in E as [Hr Hin]. by apply (refs_blocked p p1 A refs proto port a).
Qed.

(** Recording the port: exactly the requested addresses have it now. *)
Lemma record_ports p p1 p2 A refs proto port f :
  collected p p1 A refs -> proto ∈ protocols ->
  (forall c q, portsOf p2 c q = portsOf p1 c q) ->
  (forall c, is_Some (pa_ipMap p2 !! c) <-> is_Some (pa_ipMap p1 !! c)) -> alloc_ok p2 ->
  (forall pm, pm_p (f pm) = {[port]} ∪ pm_p pm) ->
  forall c q, portsOf (updateRefs p2 proto refs (fun allocate pm => if allocate then f pm else pm)) c q
    = if decide (c ∈ A /\ q = proto) then {[port]} ∪ portsOf p c q else portsOf p c q.
Proof.
  intros [Hok _ Hports Ht Hf Hn Hd] Hpr Hp2 Hdom Hok2 Hfp c q. rewrite <- Hports, <- Hp2, !portsOf_at, updateRefs_at.
  destruct (decide (c ∈ A)) as [HA|HA].
  - rewrite (Ht c HA). case_decide as Hq.
    + subst q. rewrite decide_True by done.
      destruct (pm_at_exists p2 c proto Hok2) as [pm ->]; [apply Hdom; by apply Hd|done|]. simpl. apply Hfp.
    + by rewrite decide_False by tauto.
  - rewrite (decide_False (P:=c ∈ A /\ _)) by tauto.
    destruct (refs !! c) as [[|]|] eqn:Hr; [|case_decide; [by destruct (pm_at p2 c q)|done]|done].
    exfalso. destruct (decide (is_Some (refs !! c))) as [Hs|]; [|rewrite Hr in *; naive_solver].
    assert (Hch : ~ also_checked p1 A c) by (intros Hch; rewrite (Hf c HA Hch) in Hr; done).
    rewrite (Hn c HA Hch) in Hr. done.
Qed.

(** ... and no port is bound twice. *)
Lemma record_exclusive p A proto port (ports' : Addr -> string -> gset Z) :
  alloc_ok p -> compatible A -> ~ blocked p A proto port ->
  (forall c q, ports' c q = if decide (c ∈ A /\ q = proto) then {[port]} ∪ portsOf p c q else portsOf p c q) ->
  forall a q x, a <> unspec_of a -> x ∈ ports' a q -> x ∈ ports' (unspec_of a) q -> False.
Proof.
  intros Hok Hcomp Hnb Hports a q x Hne. rewrite !Hports.
  pose proof (ao_excl p Hok a q x Hne) as Hex. destruct (decide (a ∈ A /\ q = proto)) as [[Ha ->]|Ha].
  - rewrite (decide_False (P:=unspec_of a ∈ A /\ _)) by (intros [H _]; by apply (Hcomp a Ha Hne)).
    rewrite elem_of_union, elem_of_singleton. intros [->|Hx] Hu; [|by apply Hex].
    apply Hnb. exists a. auto.
  - case_decide as Hu; [|done]. destruct Hu as [Hu ->]. intros Hx.
    rewrite elem_of_union, elem_of_singleton. intros [->|Hxu]; [|by apply Hex].
    apply Hnb. exists (unspec_of a). split; [done|]. right. right. split.
    + unfold unspec_of at 2. by rewrite unspec_family.
    + exists a. by rewrite unspec_family.
Qed.

Definition args_ok (s e : Z) : Prop := s = 0 /\ e = 0 \/ s <> 0 /\ e <> 0 /\ s <= e.

Lemma args_valid s e :
  args_ok s e <->
  (negb (s =? 0) || negb (e =? 0)) && ((s =? 0) || (e =? 0) || (e <? s)) = false.
Proof.
  unfold args_ok. destruct (Z.eqb_spec s 0), (Z.eqb_spec e 0), (Z.ltb_spec e s); simpl; split; intros; try done; lia.
Qed.

(** A request for one port. *)
Lemma single_request p p1 A refs proto port :
  collected p p1 A refs -> alloc_ok p -> compatible A -> proto ∈ protocols ->
  conflict p1 proto refs port = None ->
  let p' := updateRefs p1 proto refs (fun allocate pm => if allocate then addPort port pm else pm) in
  alloc_ok p'
  /\ forall c q, portsOf p' c q
       = if decide (c ∈ A /\ q = proto) then {[port]} ∪ portsOf p c q else portsOf p c q.
Proof.
  intros Hc Hok Hcomp Hpr Hfree p'. pose proof Hc as [Hok1 _ _ _ _ _ _].
  assert (Hports : forall c q, portsOf p' c q
    = if decide (c ∈ A /\ q = proto) then {[port]} ∪ portsOf p c q else portsOf p c q)
    by (apply (record_ports p p1 p1 A refs); done).
  split; [|done]. apply updateRefs_ok; [done| |].
  - intros a [|] pm _ _ Hm; [split; [by apply addPort_ok|done]|done].
  - apply (record_exclusive p A proto port); [done|done| |done].
    by apply (conflict_blocked p p1 A refs).
Qed.

(** The ranges are fetched or created in every port map that takes part. *)
Lemma fetch_ranges p p1 A refs proto s e :
  collected p p1 A refs -> args_ok s e ->
  let p2 := updateRefs p1 proto refs (fun _ pm => (getPortRange pm s e).1) in
  collected p p2 A refs
  /\ (forall c, is_Some (pa_ipMap p2 !! c) <-> is_Some (pa_ipMap p1 !! c))
  /\ forall c pm2, is_Some (refs !! c) -> pm_at p2 c proto = Some pm2 ->
       exists r, pm_portRanges pm2 !! range_of p s e = Some r /\ keyFor pm2 s e = range_of p s e
       /\ range_ok (range_of p s e) r /\ getPortRange pm2 s e = (pm2, r).
Proof.
  intros Hc Hargs p2. pose proof Hc as [Hok1 [Hb He] Hp1 Ht Hf Hn Hd].
  assert (Hse : s = 0 /\ e = 0 \/ s <= e) by (unfold args_ok in Hargs; lia).
  assert (Hports : forall c q, portsOf p2 c q = portsOf p1 c q).
  { intros c q. rewrite !portsOf_at. unfold p2. rewrite updateRefs_at.
    destruct (refs !! c); [case_decide|]; try done. destruct (pm_at p1 c q) as [pm|] eqn:Hpm; [|done]. simpl.
    destruct (pm_at_ok p1 c q pm Hok1 Hpm) as (_&Hm&_). pose proof (getPortRange_ok pm s e Hm Hse) as Hg.
    destruct (getPortRange pm s e). by destruct Hg as (_&?&_). }
  assert (Hdom : forall c, is_Some (pa_ipMap p2 !! c) <-> is_Some (pa_ipMap p1 !! c))
    by (intros; apply updateRefs_dom).
  assert (Hok2 : alloc_ok p2).
  { apply updateRefs_ok; [done| |].
    - intros a _ pm _ _ Hm. pose proof (getPortRange_ok pm s e Hm Hse) as H. destruct (getPortRange pm s e).
      by destruct H as (?&_&?&_).
    - intros a q x Hne. change (updateRefs _ _ _ _) with p2. rewrite !Hports. by apply (ao_excl p1 Hok1). }
  assert (Hal : forall c, also_checked p2 A c <-> also_checked p1 A c).
  { intros c. unfold also_checked. by setoid_rewrite Hdom. }
  split_and!; [|done|].
  - constructor; try done.
    + intros c q. by rewrite Hports.
    + intros c HA Hch. apply Hf; [done|]. by apply Hal.
    + intros c HA Hch. apply Hn; [done|]. by rewrite <- Hal.
    + intros c HA. apply Hdom. by apply Hd.
  - intros c pm2 [al Hr] Hpm2. unfold p2 in Hpm2. rewrite updateRefs_at, Hr, decide_True in Hpm2 by done.
    destruct (pm_at p1 c proto) as [pm|] eqn:Hpm; [|done]. simpl in Hpm2. injection Hpm2 as <-.
    destruct (pm_at_ok p1 c proto pm Hok1 Hpm) as (_&Hm&Hdf). pose proof (getPortRange_ok pm s e Hm Hse) as H.
    destruct (getPortRange pm s e) as [pm' r]. simpl. destruct H as (_&_&Hdf'&Hl&Hro&_).
    assert (Hkey : forall pm0, pm_defaultRange pm0 = pm_defaultRange pm -> keyFor pm0 s e = range_of p s e).
    { intros pm0 E. unfold keyFor, range_of. by rewrite E, Hdf, Hb, He. }
    rewrite (Hkey pm eq_refl) in *. exists r. split_and!; [done|by apply Hkey|done|].
    unfold getPortRange. fold (keyFor pm' s e). by rewrite (Hkey pm' Hdf'), Hl.
Qed.

(** Recording a port found in a range. *)
Lemma range_record p p2 A refs proto s e port :
  collected p p2 A refs -> alloc_ok p -> compatible A -> proto ∈ protocols ->
  (forall c pm2, is_Some (refs !! c) -> pm_at p2 c proto = Some pm2 ->
     exists r, pm_portRanges pm2 !! range_of p s e = Some r /\ keyFor pm2 s e = range_of p s e
       /\ range_ok (range_of p s e) r /\ getPortRange pm2 s e = (pm2, r)) ->
  (range_of p s e).1 <= port <= (range_of p s e).2 -> conflict p2 proto refs port = None ->
  let p' := updateRefs p2 proto refs (fun allocate pm =>
    if allocate then setLast (keyFor pm s e) port (addPort port pm) else pm) in
  alloc_ok p'
  /\ forall c q, portsOf p' c q
       = if decide (c ∈ A /\ q = proto) then {[port]} ∪ portsOf p c q else portsOf p c q.
Proof.
  intros Hc Hok Hcomp Hpr Hranges Hport Hfree p'. pose proof Hc as [Hok2 _ _ _ _ _ _].
  assert (Hports : forall c q, portsOf p' c q
    = if decide (c ∈ A /\ q = proto) then {[port]} ∪ portsOf p c q else portsOf p c q)
    by (by apply (record_ports p p2 p2 A refs proto port (fun pm => setLast (keyFor pm s e) port (addPort port pm)))).
  split; [|done]. apply updateRefs_ok; [done| |].
  - intros a [|] pm Hr Hpm Hm; [|done]. destruct (Hranges a pm) as (r&Hl&->&[Hk _]&_); [by rewrite Hr|done|].
    split; [|done]. rewrite Hk in Hport, Hl |- *. by apply (setLast_ok _ _ _ r); [apply addPort_ok|..].
  - apply (record_exclusive p A proto port); [done|done| |done].
    by apply (conflict_blocked p p2 A refs).
Qed.

(** The search in the range of the first address. *)
Lemma range_search p p2 A refs proto s e r :
  collected p p2 A refs -> range_ok (range_of p s e) r ->
  match searchPort (Z.to_nat (pr_end r - pr_begin r + 1)) p2 proto refs r (pr_last r) with
  | Some port => (range_of p s e).1 <= port <= (range_of p s e).2 /\ conflict p2 proto refs port = None
  | None => forall port, (range_of p s e).1 <= port <= (range_of p s e).2 -> blocked p A proto port
  end.
Proof.
  intros Hc [-> Hlast]. simpl.
  pose proof (searchPort_spec (Z.to_nat (pr_end r - pr_begin r + 1)) p2 proto refs r (pr_last r) Hlast) as H.
  destruct (searchPort _ _ _ _ _ _) as [port|].
  - destruct H as (k&_&->&Hfree&_). split; [apply cyclic_range; lia|done].
  - intros port Hport. apply (conflict_blocked p p2 A refs); [done|].
    destruct (cyclic_all r (pr_last r) port Hlast Hport) as (k&Hk&->). apply H. lia.
Qed.

(** What [RequestPortsInRange] collects first. *)
Lemma collect_all p ips A :
  alloc_ok p -> addrs_of ips = Some A ->
  exists p1 refs0 b4 b6, collectIPs p ips ∅ false false = (p1, GoOk (refs0, b4, b6))
  /\ collected p p1 A (collectRefs p1 b4 b6 refs0).
Proof.
  intros Hok HA. destruct (collectIPs_spec p ips ∅ false false A Hok HA)
    as (p1&refs0&->&Hok1&Hports&Hb&He&_&Hrefs&Hdom&_). cbn [orb].
  do 4 eexists. split; [done|]. destruct (collectRefs_spec p1 A refs0 Hrefs) as (H1&H2&H3). by constructor.
Qed.

Lemma request_ports_effect p ips proto s e A :
  alloc_ok p -> proto ∈ protocols -> args_ok s e -> addrs_of ips = Some A -> ips <> [] -> compatible A ->
  let '(p', r) := RequestPortsInRange p ips proto s e in
  alloc_ok p'
  /\ match r with
     | GoOk port => (range_of p s e).1 <= port <= (range_of p s e).2 /\ ~ blocked p A proto port
         /\ forall c q, portsOf p' c q
              = if decide (c ∈ A /\ q = proto) then {[port]} ∪ portsOf p c q else portsOf p c q
     | GoErr err => (forall c q, portsOf p' c q = portsOf p c q)
         /\ ((exists a, err = errAlreadyAllocated a s /\ s = e /\ blocked p A proto s)
             \/ (err = errAllPortsAllocated
                 /\ forall port, (range_of p s e).1 <= port <= (range_of p s e).2 -> blocked p A proto port))
     | GoPanic => False
     end.
Proof.
  intros Hok Hpr Hargs HA Hne Hcomp. unfold RequestPortsInRange.
  rewrite bool_decide_eq_true_2, (proj1 (args_valid s e) Hargs) by done. cbn [negb].
  destruct (collect_all p ips A Hok HA) as (p1&refs0&b4&b6&Hcol&Hc).
  destruct ips as [|ip ips]; [done|]. rewrite Hcol. cbv zeta. set (refs := collectRefs p1 b4 b6 refs0) in *.
  destruct ((0 <? s) && (s =? e)) eqn:Hone.
  - apply andb_true_iff in Hone as [Hs%Z.ltb_lt He%Z.eqb_eq]. subst e.
    destruct (conflict_blocked p p1 A refs proto s Hc) as [Hfree Hblk].
    destruct (conflict p1 proto refs s) as [a|] eqn:Hconf.
    + split_and!; [apply Hc|apply Hc|]. left. exists a. split_and!; [done|done|]. by apply Hblk.
    + destruct (single_request p p1 A refs proto s) as [H1 H2]; try done. split_and!; [done| | |auto|done];
        unfold range_of; (destruct (Z.eqb_spec s 0); [lia|simpl; lia]).
  - destruct (fetch_ranges p p1 A refs proto s e Hc Hargs) as (Hc2&Hdom2&Hranges).
    set (p2 := updateRefs p1 proto refs _) in *.
    simpl in HA. destruct (AddrFromSlice ip) as [a0|]; [|done]. destruct (addrs_of ips) as [A'|]; [|done].
    injection HA as <-. assert (Ha : Unmap a0 ∈ Unmap a0 :: A') by (by left).
    destruct (pm_at_exists p2 (Unmap a0) proto) as [pm2 Hpm2]; [apply Hc2|by apply Hc2|done|].
    unfold pm_at in Hpm2. rewrite Hpm2. destruct (Hranges (Unmap a0) pm2) as (r&_&_&Hro&->);
      [rewrite (cl_true _ _ _ _ Hc _ Ha); by eexists|done|]. cbn [snd].
    pose proof (range_search p p2 _ refs proto s e r Hc2 Hro) as Hsearch.
    destruct (searchPort _ p2 proto refs r (pr_last r)) as [port|].
    + destruct Hsearch as [Hport Hfree]. destruct (range_record p p2 _ refs proto s e port Hc2) as [H1 H2]; try done.
      split_and!; [done|lia|lia| |done]. by apply (conflict_blocked p p2 _ refs proto port Hc2).
    + split_and!; [apply Hc2|apply Hc2|]. right. by split.
Qed.

(** What an error of a request means: the protocol, the range or an address is not valid, no
    address is given, or the ports are blocked. *)
Definition port_error (p : PortAllocator) (ips : list (list Z)) (proto : string) (s e : Z) (err : PortErr) : Prop :=
  (err = errUnknownProtocol /\ proto ∉ protocols)
  \/ (err = errPortRange s e /\ proto ∈ protocols /\ ~ args_ok s e)
  \/ (err = errNoIPs /\ ips = [])
  \/ (exists ip, err = errInvalidIP ip /\ ip ∈ ips /\ AddrFromSlice ip = None)
  \/ exists A, addrs_of ips = Some A /\
       ((exists a, err = errAlreadyAllocated a s /\ s = e /\ blocked p A proto s)
        \/ (err = errAllPortsAllocated
            /\ forall port, (range_of p s e).1 <= port <= (range_of p s e).2 -> blocked p A proto port)).

(** C31: a port request on every branch, for any protocol, range and list of addresses; those
    that are valid do not overlap among themselves.  On success the protocol, the range and
    the addresses are valid, the port lies in the requested range, or in the default one when
    none is given, it was free for each of the requested addresses and for every binding they
    overlap with, and afterwards exactly the requested addresses have it.  An error leaves
    every binding as it was and tells what is wrong: the protocol is unknown, the range or an
    address is not valid, no address is given, the one port that was asked for is blocked, or
    every port of the range is.  The call never panics. *)
Theorem request_ports_correct p ips proto s e :
  alloc_ok p -> (forall A, addrs_of ips = Some A -> compatible A) ->
  let '(p', r) := RequestPortsInRange p ips proto s e in
  alloc_ok p'
  /\ match r with
     | GoOk port => proto ∈ protocols /\ args_ok s e /\ exists A, addrs_of ips = Some A
         /\ (range_of p s e).1 <= port <= (range_of p s e).2 /\ ~ blocked p A proto port
         /\ forall c q, portsOf p' c q
              = if decide (c ∈ A /\ q = proto) then {[port]} ∪ portsOf p c q else portsOf p c q
     | GoErr err => (forall c q, portsOf p' c q = portsOf p c q) /\ port_error p ips proto s e err
     | GoPanic => False
     end.
Proof.
  intros Hok Hcomp. destruct (decide (proto ∈ protocols)) as [Hpr|Hpr]; cycle 1.
  { unfold RequestPortsInRange. rewrite bool_decide_eq_false_2 by done. cbn [negb]. unfold port_error. naive_solver. }
  destruct ((negb (s =? 0) || negb (e =? 0)) && ((s =? 0) || (e =? 0) || (e <? s))) eqn:Hargs.
  { unfold RequestPortsInRange. rewrite bool_decide_eq_true_2, Hargs by done. cbn [negb]. split_and!; try done.
    right. left. split_and!; try done. rewrite args_valid. congruence. }
  destruct (decide (ips = [])) as [->|Hne].
  { unfold RequestPortsInRange. rewrite bool_decide_eq_true_2, Hargs by done. cbn [negb]. unfold port_error. naive_solver. }
  apply args_valid in Hargs as Hargs'. destruct (addrs_of ips) as [A|] eqn:HA.
  - pose proof (request_ports_effect p ips proto s e A Hok Hpr Hargs' HA Hne (Hcomp A eq_refl)) as H.
    destruct (RequestPortsInRange p ips proto s e) as [p' [port|err|]]; destruct H as [H1 H2]; (split; [done|]); [|..|done].
    + split_and!; try done. by exists A.
    + destruct H2 as [H2 H3]. split; [done|]. do 4 right. by exists A.
  - unfold RequestPortsInRange. rewrite bool_decide_eq_true_2, Hargs by done. cbn [negb]. destruct ips as [|ip ips]; [done|].
    destruct (collectIPs_invalid p (ip :: ips) ∅ false false Hok HA) as (p1&ip1&->&Hok1&Hp1&Hin&Hn).
    split_and!; [done|done|]. do 3 right. left. by exists ip1.
Qed.

(** ** Histories *)

Lemma newInstance_ok os :
  (dynamicPortRange os).1 <= (dynamicPortRange os).2 -> alloc_ok (newInstance os)
  /\ forall c q, portsOf (newInstance os) c q = ∅.
Proof.
  unfold newInstance. destruct (dynamicPortRange os) as [b e]. simpl. intros Hbe.
  assert (Hp : forall c q, portsOf (mkPortAllocator IPv4zero (makeIpMapping b e) b e) c q = ∅).
  { intros c q. unfold portsOf, makeIpMapping. simpl.
    destruct (decide (c = IPv4Unspecified)) as [->|]; [|destruct (decide (c = IPv6Unspecified)) as [->|]];
      simplify_map_eq; try done; rewrite makeProtoMap_lookup; by case_decide. }
  assert (Hm : forall c m, makeIpMapping b e !! c = Some m -> m = makeProtoMap b e).
  { intros c m. unfold makeIpMapping. rewrite !lookup_insert_Some, lookup_empty. naive_solver. }
  split; [|done]. constructor; simpl.
  - unfold makeIpMapping. split; simplify_map_eq; by eexists.
  - intros c m proto ->%Hm Hpr. rewrite makeProtoMap_lookup, decide_True by done. by eexists.
  - intros c m proto pm ->%Hm Hpm. rewrite makeProtoMap_lookup in Hpm. case_decide; [|done].
    injection Hpm as <-. split_and!; [done|by apply newPortMap_ok|done].
  - done.
  - intros c proto port _. rewrite !Hp. set_solver.
Qed.

(** Any request keeps the invariant, malformed ones included. *)
Lemma request_ok p ips proto s e :
  alloc_ok p -> (forall A, addrs_of ips = Some A -> compatible A) ->
  alloc_ok (RequestPortsInRange p ips proto s e).1.
Proof.
  intros Hok Hcomp. destruct (decide (proto ∈ protocols)) as [Hpr|Hpr].
  2: { unfold RequestPortsInRange. by rewrite bool_decide_eq_false_2. }
  destruct ((negb (s =? 0) || negb (e =? 0)) && ((s =? 0) || (e =? 0) || (e <? s))) eqn:Hargs.
  { unfold RequestPortsInRange. by rewrite bool_decide_eq_true_2, Hargs by done. }
  destruct (decide (ips = [])) as [->|Hne].
  { unfold RequestPortsInRange. by rewrite bool_decide_eq_true_2, Hargs by done. }
  destruct (addrs_of ips) as [A|] eqn:HA.
  - pose proof (request_ports_effect p ips proto s e A Hok Hpr (proj2 (args_valid s e) Hargs) HA Hne (Hcomp A eq_refl)) as H.
    destruct (RequestPortsInRange p ips proto s e) as [p' r]. by destruct H.
  - unfold RequestPortsInRange. rewrite bool_decide_eq_true_2, Hargs by done. destruct ips as [|ip ips]; [done|].
    destruct (collectIPs_invalid p (ip :: ips) ∅ false false Hok HA) as (p1&ip1&->&Hok1&_). done.
Qed.

Lemma release_effect p ip proto port :
  alloc_ok p -> proto ∈ protocols ->
  let '(p', r) := ReleasePort p ip proto port in
  r = GoOk tt /\ alloc_ok p'
  /\ match AddrFromSlice (default (pa_defaultIP p) ip) with
     | Some a => forall c q, portsOf p' c q
         = if decide (c = Unmap a /\ q = proto) then portsOf p c q ∖ {[port]} else portsOf p c q
     | None => p' = p
     end.
Proof.
  intros Hok Hpr. unfold ReleasePort. destruct (AddrFromSlice _) as [a|]; [|done].
  destruct (pa_ipMap p !! Unmap a) as [m|] eqn:Hm.
  2: { split_and!; [done|done|]. intros c q. case_decide as Hd; [|done]. destruct Hd as [-> ->].
       unfold portsOf. rewrite Hm. set_solver. }
  destruct (ao_protos p Hok _ m proto Hm Hpr) as [pm Hpm]. rewrite Hpm.
  set (p' := withIpMap _ _).
  assert (Hports : forall c q, portsOf p' c q
    = if decide (c = Unmap a /\ q = proto) then portsOf p c q ∖ {[port]} else portsOf p c q).
  { intros c q. unfold p', portsOf. simpl. destruct (decide (c = Unmap a)) as [->|Hc].
    - rewrite lookup_insert_eq, Hm. destruct (decide (q = proto)) as [->|Hq].
      + by rewrite lookup_insert_eq, Hpm, decide_True by done.
      + rewrite lookup_insert_ne by done. by rewrite decide_False by tauto.
    - rewrite lookup_insert_ne by done. by rewrite decide_False by tauto. }
  split_and!; [done| |done]. destruct Hok as [Hu Hp Hmaps Hr He]. constructor; [| | |done|].
  - simpl. rewrite !lookup_insert_is_Some. destruct (decide (Unmap a = IPv4Unspecified)), (decide (Unmap a = IPv6Unspecified)); tauto.
  - intros c m' q. simpl. rewrite lookup_insert_Some. intros [[<- <-]|[_ Hc]] Hq; [|eauto].
    rewrite lookup_insert_is_Some. destruct (decide (proto = q)); [by left|]. right. eauto.
  - intros c m' q pm'. simpl. rewrite lookup_insert_Some. intros [[<- <-]|[_ Hc]] Hq; [|eauto].
    apply lookup_insert_Some in Hq as [[<- <-]|[_ Hq]]; [|eauto].
    destruct (Hmaps _ m proto pm Hm Hpm) as (?&[? ?]&?). by split_and!.
  - intros c q x Hne. rewrite !Hports. intros Hx1 Hx2. apply (He c q x Hne); case_decide; case_decide; set_solver.
Qed.

Inductive port_step (p : PortAllocator) : PortAllocator -> Prop :=
| StepRequestPorts ips proto s e :
    (forall A, addrs_of ips = Some A -> compatible A) -> port_step p (RequestPortsInRange p ips proto s e).1
| StepReleasePort ip proto port : proto ∈ protocols -> port_step p (ReleasePort p ip proto port).1
| StepReleaseAll os : dynamicPortRange os = (pa_begin p, pa_end p) -> port_step p (ReleaseAll p os).

Lemma port_step_ok p p' : port_step p p' -> alloc_ok p -> alloc_ok p'.
Proof.
  intros Hstep Hok. destruct Hstep as [ips proto s e Hc|ip proto port Hpr|os Hos].
  - by apply request_ok.
  - pose proof (release_effect p ip proto port Hok Hpr) as H. destruct (ReleasePort p ip proto port) as [p' r].
    by destruct H as (_&?&_).
  - destruct (newInstance_ok os) as [Hn _]; [rewrite Hos; apply Hok|].
    unfold newInstance in Hn. unfold ReleaseAll. rewrite Hos in Hn |- *.
    destruct Hn as [H1 H2 H3 H4 H5]. by constructor.
Qed.

(** C32: exclusiveness of bindings.  In every state the allocator can reach, no port of a protocol is
    bound both to an address and to the unspecified address of its family, whatever sequence of
    requests, failed requests and releases led there.  The dynamic range is not empty and
    [ReleaseAll] finds it unchanged; no address of a request is the unspecified address of
    another address of it ([compatible]); releases name a known protocol. *)
Theorem ports_exclusive os p :
  (dynamicPortRange os).1 <= (dynamicPortRange os).2 -> rtc port_step (newInstance os) p ->
  forall a proto port, a <> unspec_of a ->
  ~ (port ∈ portsOf p a proto /\ port ∈ portsOf p (unspec_of a) proto).
Proof.
  intros Hos Hrun. destruct (newInstance_ok os Hos) as [Hok0 _].
  assert (Hok : alloc_ok p).
  { clear Hos. induction Hrun as [|x y z Hstep _ IH]; [done|]. apply IH. by eapply port_step_ok. }
  intros a proto port Hne [H1 H2]. by apply (ao_excl p Hok a proto port).
Qed.

(** releasing a port undoes its request: after a successful request for one address the
    release succeeds and every binding is as it was before. *)
Theorem port_release_roundtrip p ip a proto s e p1 port :
  alloc_ok p -> proto ∈ protocols -> args_ok s e -> AddrFromSlice ip = Some a ->
  RequestPortInRange p (Some ip) proto s e = (p1, GoOk port) ->
  let '(p2, r) := ReleasePort p1 (Some ip) proto port in
  r = GoOk tt /\ forall c q, portsOf p2 c q = portsOf p c q.
Proof.
  intros Hok Hpr Hargs Ha Hreq. unfold RequestPortInRange in Hreq. simpl in Hreq.
  assert (HA : addrs_of [ip] = Some [Unmap a]) by (simpl; by rewrite Ha).
  assert (Hcomp : compatible [Unmap a]).
  { intros x ->%list_elem_of_singleton Hne Hin%list_elem_of_singleton. congruence. }
  pose proof (request_ports_effect p [ip] proto s e [Unmap a] Hok Hpr Hargs HA ltac:(done) Hcomp) as H.
  rewrite Hreq in H. destruct H as (Hok1&_&Hnb&Hports).
  pose proof (release_effect p1 (Some ip) proto port Hok1 Hpr) as H.
  destruct (ReleasePort p1 (Some ip) proto port) as [p2 r]. destruct H as (->&_&H). simpl in H. rewrite Ha in H.
  split; [done|]. intros c q. rewrite H, Hports. destruct (decide (c = Unmap a /\ q = proto)) as [[-> ->]|Hd].
  2: { rewrite decide_False; [done|]. intros [->%list_elem_of_singleton ->]. tauto. }
  rewrite decide_True by (split; [by left|done]).
  assert (port ∉ portsOf p (Unmap a) proto); [|set_solver].
  intros Hin. apply Hnb. exists (Unmap a). split; [by left|auto].
Qed.

(** ** Concrete requests *)

Definition ip_a : list Z := [10; 0; 0; 1].
Definition ip_any : list Z := [0; 0; 0; 0].

Lemma request_ports_correct_witness :
  exists p', RequestPortsInRange (newInstance None) [ip_a] "tcp" 8000 8001 = (p', GoOk 8000) /\ alloc_ok p'
  /\ portsOf p' (Addr4 (10 * 2 ^ 24 + 1)) "tcp" = {[8000]} ∪ ∅.
Proof.
  destruct (newInstance_ok None) as [Hok Hp]; [by vm_compute|].
  pose proof (request_ports_correct (newInstance None) [ip_a] "tcp" 8000 8001 Hok) as H.
  remember (RequestPortsInRange (newInstance None) [ip_a] "tcp" 8000 8001) as res eqn:E.
  assert (Hr : res.2 = GoOk 8000) by (rewrite E; by vm_compute). destruct res as [p' r]. simpl in Hr. subst r.
  assert (HA : addrs_of [ip_a] = Some [Addr4 (10 * 2 ^ 24 + 1)]) by (by vm_compute). rewrite HA in H.
  exists p'. split; [done|]. destruct H as (Hok'&_&_&A&[= <-]&_&_&Hports).
  - intros A [= <-] a ->%list_elem_of_singleton _ Hin%list_elem_of_singleton. by vm_compute in Hin.
  - split; [done|]. rewrite Hports, Hp. rewrite decide_True; [done|]. split; [by left|done].
Defined.

Lemma ports_exclusive_witness :
  exists p, 8000 ∈ portsOf p (Addr4 (10 * 2 ^ 24 + 1)) "tcp" /\ ~ (8000 ∈ portsOf p IPv4Unspecified "tcp").
Proof.
  set (p := (RequestPortsInRange (newInstance None) [ip_a] "tcp" 8000 8001).1).
  assert (Hrun : rtc port_step (newInstance None) p).
  { apply rtc_once, StepRequestPorts. intros A HA. vm_compute in HA. injection HA as <-.
    intros a ->%list_elem_of_singleton _ Hin%list_elem_of_singleton. done. }
  assert (Hin : 8000 ∈ portsOf p (Addr4 (10 * 2 ^ 24 + 1)) "tcp")
    by (apply (bool_decide_eq_true _); by vm_compute).
  clearbody p. exists p. split; [done|]. intros Hu.
  assert (Hos : (dynamicPortRange None).1 <= (dynamicPortRange None).2) by (by vm_compute).
  assert (Hne : Addr4 (10 * 2 ^ 24 + 1) <> unspec_of (Addr4 (10 * 2 ^ 24 + 1))) by (by vm_compute).
  exact (ports_exclusive None p Hos Hrun _ "tcp"%string 8000 Hne (conj Hin Hu)).
Defined.

Lemma port_release_roundtrip_witness :
  exists p2, forall c q, portsOf p2 c q = portsOf (newInstance None) c q.
Proof.
  destruct (newInstance_ok None) as [Hok _]; [by vm_compute|].
  remember (RequestPortInRange (newInstance None) (Some ip_a) "udp" 0 0) as res eqn:E.
  assert (Hr : res.2 = GoOk 49153) by (rewrite E; by vm_compute). destruct res as [p1 r]. simpl in Hr. subst r.
  assert (Hpr : "udp"%string ∈ protocols) by (right; by left).
  pose proof (port_release_roundtrip (newInstance None) ip_a (Addr4 (10 * 2 ^ 24 + 1)) "udp" 0 0 p1 49153 Hok Hpr) as H.
  destruct (ReleasePort p1 (Some ip_a) "udp" 49153) as [p2 r]. exists p2.
  apply H; [left; split; reflexivity|reflexivity|symmetry; exact E].
Defined.

(** The search goes on after the last port handed out for the range: a port that was
    released is not the next one, although it is the first free one. *)
Lemma search_after_last :
  let '(p1, r1) := RequestPortInRange (newInstance None) (Some ip_a) "tcp" 8000 8005 in
  let '(p2, _) := ReleasePort p1 (Some ip_a) "tcp" 8000 in
  let '(_, r2) := RequestPortInRange p2 (Some ip_a) "tcp" 8000 8005 in
  r1 = GoOk 8000 /\ r2 = GoOk 8001.
Proof. by vm_compute. Qed.

(** A release for an unknown protocol dereferences a nil port map. *)
Lemma release_unknown_proto :
  (ReleasePort (newInstance None) (Some ip_any) "icmp" 80).2 = GoPanic
  /\ (RequestPort (newInstance None) (Some ip_any) "icmp" 80).2 = GoErr errUnknownProtocol.
Proof. by vm_compute. Qed.

(** After [ReleaseAll] has read another range from the system, new addresses still get the
    range of the start of the program, and a request that names both kinds of addresses moves
    the scan position of the other out of its range: the next port is outside of it. *)
Lemma release_all_keeps_old_range :
  let p0 := ReleaseAll (newInstance (Some (30000, 40000))) (Some (50000, 60000)) in
  let v6any := repeat 0 16 in
  let '(p1, r1) := RequestPortsInRange p0 [ip_a; v6any] "tcp" 0 0 in
  let '(_, r2) := RequestPortsInRange p1 [v6any] "tcp" 0 0 in
  r1 = GoOk 30000 /\ r2 = GoOk 30001.
Proof. by vm_compute. Qed.
