(* ===== verification/ContainerState.v ===== *)
(** * The state of a container

    Model of [daemon/container/state.go] and [daemon/container/health.go], and of
    the flag changes of [daemon/pause.go] and [daemon/unpause.go].

    Channels are kept in a store: a waiter is the identifier of a channel with a
    buffer of one value.  [Wait] starts a goroutine that moves the value from the
    waiter's channel to the result channel or gives up when its context ends; the
    goroutines run interleaved with the calls on the state, which hold its lock. *)

From S2P Require Import Prelude.

(** [time.Time]: nanoseconds, [0] the zero time. *)
Definition Time : Type := Z.
Definition IsZero (t : Time) : bool := t =? 0.

Record StateStatus := mkStateStatus { exitCode : Z; err : option string }.

(** A libcontainerd task: its identity and the value of its [Pid] method. *)
Record Task := mkTask { task_id : nat; task_Pid : Z }.

Record ExitStatus := mkExitStatus { es_ExitCode : Z; es_ExitedAt : Time }.

Record State := mkState {
  Running : bool;
  Paused : bool;
  Restarting : bool;
  OOMKilled : bool;
  RemovalInProgress : bool;
  Dead : bool;
  Pid : Z;
  ExitCode : Z;
  ErrorMsg : string;
  StartedAt : Time;
  FinishedAt : Time;
  Removed : bool;
  stopWaiters : list nat;
  removeOnlyWaiters : list nat;
  ctr : option nat;
  task : option Task
}.

(** The zero value, which [NewBaseContainer] starts from. *)
Definition NewState : State :=
  mkState false false false false false false 0 0 EmptyString 0 0 false [] [] None None.

Inductive ContainerState :=
| StateCreated | StateRunning | StatePaused | StateRestarting | StateRemoving | StateExited | StateDead.

Definition StateString (s : State) : ContainerState :=
  if Running s then
    if Paused s then StatePaused else if Restarting s then StateRestarting else StateRunning
  else if RemovalInProgress s then StateRemoving
  else if Dead s then StateDead
  else if IsZero (StartedAt s) then StateCreated
  else StateExited.

Inductive WaitCondition := WaitConditionNotRunning | WaitConditionNextExit | WaitConditionRemoved.

Definition conditionAlreadyMet (s : State) (condition : WaitCondition) : bool :=
  match condition with
  | WaitConditionNotRunning => negb (Running s)
  | WaitConditionRemoved => Removed s
  | WaitConditionNextExit => false
  end.

Definition Err (s : State) : option string :=
  if decide (ErrorMsg s = EmptyString) then None else Some (ErrorMsg s).

Definition status (s : State) : StateStatus := mkStateStatus (ExitCode s) (Err s).

(** ** Record updates *)

Definition set_stop (s : State) (w : list nat) : State :=
  mkState (Running s) (Paused s) (Restarting s) (OOMKilled s) (RemovalInProgress s) (Dead s) (Pid s)
    (ExitCode s) (ErrorMsg s) (StartedAt s) (FinishedAt s) (Removed s) w (removeOnlyWaiters s) (ctr s) (task s).
Definition set_removeOnly (s : State) (w : list nat) : State :=
  mkState (Running s) (Paused s) (Restarting s) (OOMKilled s) (RemovalInProgress s) (Dead s) (Pid s)
    (ExitCode s) (ErrorMsg s) (StartedAt s) (FinishedAt s) (Removed s) (stopWaiters s) w (ctr s) (task s).
Definition set_removed (s : State) : State :=
  mkState (Running s) (Paused s) (Restarting s) (OOMKilled s) (RemovalInProgress s) (Dead s) (Pid s)
    (ExitCode s) (ErrorMsg s) (StartedAt s) (FinishedAt s) true (stopWaiters s) (removeOnlyWaiters s) (ctr s) (task s).
Definition set_errorMsg (s : State) (msg : string) : State :=
  mkState (Running s) (Paused s) (Restarting s) (OOMKilled s) (RemovalInProgress s) (Dead s) (Pid s)
    (ExitCode s) msg (StartedAt s) (FinishedAt s) (Removed s) (stopWaiters s) (removeOnlyWaiters s) (ctr s) (task s).
Definition set_removal (s : State) (b : bool) : State :=
  mkState (Running s) (Paused s) (Restarting s) (OOMKilled s) b (Dead s) (Pid s)
    (ExitCode s) (ErrorMsg s) (StartedAt s) (FinishedAt s) (Removed s) (stopWaiters s) (removeOnlyWaiters s) (ctr s) (task s).
Definition set_paused (s : State) (b : bool) : State :=
  mkState (Running s) b (Restarting s) (OOMKilled s) (RemovalInProgress s) (Dead s) (Pid s)
    (ExitCode s) (ErrorMsg s) (StartedAt s) (FinishedAt s) (Removed s) (stopWaiters s) (removeOnlyWaiters s) (ctr s) (task s).

(** ** Methods that only touch the fields *)

Definition SetExitCode (s : State) (ec : Z) : State :=
  mkState (Running s) (Paused s) (Restarting s) (OOMKilled s) (RemovalInProgress s) (Dead s) (Pid s)
    ec (ErrorMsg s) (StartedAt s) (FinishedAt s) (Removed s) (stopWaiters s) (removeOnlyWaiters s) (ctr s) (task s).

Definition setRunning (s : State) (c : option nat) (tsk : option Task) (start : option Time) : State :=
  mkState true false false false (RemovalInProgress s) (Dead s)
    (match tsk with Some t => task_Pid t | None => 0 end)
    0 EmptyString
    (match start with Some t => t | None => StartedAt s end)
    (FinishedAt s) (Removed s) (stopWaiters s) (removeOnlyWaiters s) c tsk.

Definition SetRunning (s : State) (c : option nat) (tsk : option Task) (start : Time) : State :=
  setRunning s c tsk (Some start).
Definition SetRunningExternal (s : State) (c : option nat) (tsk : option Task) : State :=
  setRunning s c tsk None.

(** [None] is a nil error, [Some msg] an error with that text. *)
Definition SetError (s : State) (e : option string) : State :=
  set_errorMsg s (match e with Some msg => msg | None => EmptyString end).

Definition SetRemovalInProgress (s : State) : State * bool :=
  if RemovalInProgress s then (s, true) else (set_removal s true, false).
Definition ResetRemovalInProgress (s : State) : State := set_removal s false.

(** The accessors, each under the lock. *)
Definition IsRunning (s : State) : bool := Running s.
Definition GetPID (s : State) : Z := Pid s.
Definition IsPaused (s : State) : bool := Paused s.
Definition IsRestarting (s : State) : bool := Restarting s.
Definition IsRemovalInProgress (s : State) : bool := RemovalInProgress s.
Definition IsDead (s : State) : bool := Dead s.
Definition C8dContainer (s : State) : option nat := ctr s.
Definition TaskOf (s : State) : option Task := task s.

(** [GetRunningTask] of container.go. *)
Inductive StateErr := errNotRunning | errNoTask | errAlreadyPaused | errRestarting | errNotPaused | errRuntime.

Definition GetRunningTask (s : State) : go_result StateErr Task :=
  if negb (Running s) then GoErr errNotRunning
  else match TaskOf s with Some t => GoOk t | None => GoErr errNoTask end.

(** The flag changes of pause and unpause; [ok] tells whether the runtime call succeeds. *)
Definition containerPause (s : State) (ok : bool) : State * option StateErr :=
  match GetRunningTask s with
  | GoOk _ =>
      if Paused s then (s, Some errAlreadyPaused)
      else if Restarting s then (s, Some errRestarting)
      else if negb ok then (s, Some errRuntime)
      else (set_paused s true, None)
  | GoErr e => (s, Some e)
  | GoPanic => (s, None)
  end.

Definition containerUnpause (s : State) (ok : bool) : State * option StateErr :=
  if negb (Paused s) then (s, Some errNotPaused)
  else
    match GetRunningTask s with
    | GoOk _ => if negb ok then (s, Some errRuntime) else (set_paused s false, None)
    | GoErr e => (s, Some e)
    | GoPanic => (s, None)
    end.

(** ** Waiters *)

(** The channels, the goroutines of [Wait] that still run, and the next identifier. *)
Record Sys := mkSys {
  st : State;
  waitCs : gmap nat (option StateStatus);
  resultCs : gmap nat (option StateStatus);
  goroutines : gset nat;
  nextId : nat
}.

Definition NewSys : Sys := mkSys NewState ∅ ∅ ∅ 0.

(** A send on a buffered channel; [None] blocks. *)
Definition send (cs : gmap nat (option StateStatus)) (c : nat) (v : StateStatus)
  : option (gmap nat (option StateStatus)) :=
  match cs !! c with
  | Some None => Some (<[c := Some v]> cs)
  | _ => None
  end.

Fixpoint sendAll (cs : gmap nat (option StateStatus)) (waiters : list nat) (v : StateStatus)
  : option (gmap nat (option StateStatus)) :=
  match waiters with
  | [] => Some cs
  | c :: waiters' => send cs c v ≫= fun cs' => sendAll cs' waiters' v
  end.

(** [notifyAndClear(&s.stopWaiters)] and [notifyAndClear(&s.removeOnlyWaiters)]. *)
Definition notifyStop (y : Sys) : option Sys :=
  sendAll (waitCs y) (stopWaiters (st y)) (status (st y)) ≫= fun cs =>
  Some (mkSys (set_stop (st y) []) cs (resultCs y) (goroutines y) (nextId y)).
Definition notifyRemoveOnly (y : Sys) : option Sys :=
  sendAll (waitCs y) (removeOnlyWaiters (st y)) (status (st y)) ≫= fun cs =>
  Some (mkSys (set_removeOnly (st y) []) cs (resultCs y) (goroutines y) (nextId y)).

Definition set_st (y : Sys) (s : State) : Sys :=
  mkSys s (waitCs y) (resultCs y) (goroutines y) (nextId y).

(** [Wait]: the identifier of the result channel. *)
Definition Wait (y : Sys) (condition : WaitCondition) : Sys * nat :=
  let s := st y in
  let id := nextId y in
  if conditionAlreadyMet s condition then
    (mkSys s (waitCs y) (<[id := Some (status s)]> (resultCs y)) (goroutines y) (S id), id)
  else
    let s' := match condition with
              | WaitConditionRemoved => set_removeOnly s (removeOnlyWaiters s ++ [id])
              | _ => set_stop s (stopWaiters s ++ [id])
              end in
    (mkSys s' (<[id := None]> (waitCs y)) (<[id := None]> (resultCs y)) ({[id]} ∪ goroutines y) (S id), id).

(** The two cases of the goroutine's [select]. *)
Definition goDeliver (y : Sys) (id : nat) : option Sys :=
  if decide (id ∈ goroutines y) then
    match waitCs y !! id with
    | Some (Some v) =>
        send (resultCs y) id v ≫= fun rs =>
        Some (mkSys (st y) (<[id := None]> (waitCs y)) rs (goroutines y ∖ {[id]}) (nextId y))
    | _ => None
    end
  else None.

Definition goCancel (y : Sys) (id : nat) (ctxErr : string) : option Sys :=
  if decide (id ∈ goroutines y) then
    send (resultCs y) id (mkStateStatus (-1) (Some ctxErr)) ≫= fun rs =>
    Some (mkSys (st y) (waitCs y) rs (goroutines y ∖ {[id]}) (nextId y))
  else None.

(** [now] is the value of [time.Now().UTC()]. *)
Definition SetStopped (y : Sys) (exitStatus : ExitStatus) (now : Time) : option Sys :=
  let s := st y in
  let finished := if IsZero (es_ExitedAt exitStatus) then now else es_ExitedAt exitStatus in
  notifyStop (set_st y
    (mkState false false false (OOMKilled s) (RemovalInProgress s) (Dead s) 0
       (es_ExitCode exitStatus) (ErrorMsg s) (StartedAt s) finished (Removed s)
       (stopWaiters s) (removeOnlyWaiters s) (ctr s) (task s))).

Definition SetRestarting (y : Sys) (exitStatus : ExitStatus) (now : Time) : option Sys :=
  let s := st y in
  notifyStop (set_st y
    (mkState true false true (OOMKilled s) (RemovalInProgress s) (Dead s) 0
       (es_ExitCode exitStatus) (ErrorMsg s) (StartedAt s) now (Removed s)
       (stopWaiters s) (removeOnlyWaiters s) (ctr s) (task s))).

(** What [SetRemovalError] does under the lock. *)
Definition notifyRemoved (y : Sys) : option Sys :=
  notifyRemoveOnly (set_st y (set_removed (st y))) ≫= notifyStop.

(** [SetError] comes before the lock is taken; others can get in between. *)
Definition SetRemovalError (y : Sys) (e : option string) : option Sys :=
  notifyRemoved (set_st y (SetError (st y) e)).

Definition SetRemoved (y : Sys) : option Sys := SetRemovalError y None.

(** ** health.go *)

Inductive HealthStatus := HealthUnset | NoHealthcheck | Starting | Healthy | Unhealthy.

(** [h_stop] is the monitor channel; [h_closed] the channels closed so far. *)
Record Health := mkHealth {
  h_Status : HealthStatus;
  h_stop : option nat;
  h_closed : gset nat;
  h_next : nat
}.

Definition HealthStatus_ (h : Health) : HealthStatus :=
  match h_Status h with HealthUnset => Unhealthy | s => s end.

Definition SetStatus (h : Health) (s : HealthStatus) : Health :=
  mkHealth s (h_stop h) (h_closed h) (h_next h).

Definition OpenMonitorChannel (h : Health) : Health * option nat :=
  match h_stop h with
  | None => (mkHealth (h_Status h) (Some (h_next h)) (h_closed h) (S (h_next h)), Some (h_next h))
  | Some _ => (h, None)
  end.

(** Closing a closed channel panics. *)
Definition CloseMonitorChannel (h : Health) : go_result Empty_set Health :=
  match h_stop h with
  | None => GoOk h
  | Some c =>
      if decide (c ∈ h_closed h) then GoPanic
      else GoOk (mkHealth Unhealthy None ({[c]} ∪ h_closed h) (h_next h))
  end.
