(* ===== verification/ContainerStateTheorems.v ===== *)
(** * Theorems about the container state

    The flags of a container, and the delivery of exit statuses to the callers of
    [Wait], in every interleaving of state changes and waiter goroutines. *)

From S2P Require Import Prelude ContainerState.

(** ** Steps *)

(** Changes of the fields that leave the waiters alone. *)
Inductive field_step (s : State) : State -> Prop :=
| FRunning c t start : field_step s (SetRunning s c t start)
| FRunningExternal c t : field_step s (SetRunningExternal s c t)
| FError e : field_step s (SetError s e)
| FExitCode ec : field_step s (SetExitCode s ec)
| FRemoval : field_step s (SetRemovalInProgress s).1
| FResetRemoval : field_step s (ResetRemovalInProgress s)
| FPause ok : field_step s (containerPause s ok).1
| FUnpause ok : field_step s (containerUnpause s ok).1.

(** [SetRemovalError] is [FError] and then [StepRemoved]. *)
Inductive sys_step (y : Sys) : Sys -> Prop :=
| StepField s' : field_step (st y) s' -> sys_step y (set_st y s')
| StepWait c : sys_step y (Wait y c).1
| StepStopped e now y' : SetStopped y e now = Some y' -> sys_step y y'
| StepRestarting e now y' : SetRestarting y e now = Some y' -> sys_step y y'
| StepRemoved y' : notifyRemoved y = Some y' -> sys_step y y'
| StepDeliver id y' : goDeliver y id = Some y' -> sys_step y y'
| StepCancel id e y' : goCancel y id e = Some y' -> sys_step y y'.

(** ** Invariants *)

Record flags_ok (s : State) : Prop := {
  fo_stopped : Running s = false -> Paused s = false /\ Restarting s = false /\ Pid s = 0;
  fo_restarting : Restarting s = true -> Paused s = false /\ Pid s = 0
}.

Definition waiters (s : State) : list nat := stopWaiters s ++ removeOnlyWaiters s.

Record sys_ok (y : Sys) : Prop := {
  sy_flags : flags_ok (st y);
  sy_nodup : NoDup (waiters (st y));
  sy_waiters : forall id, id ∈ waiters (st y) -> waitCs y !! id = Some None /\ (id < nextId y)%nat;
  sy_running : forall id, id ∈ goroutines y -> (id < nextId y)%nat /\ resultCs y !! id = Some None
    /\ (id ∈ waiters (st y) \/ exists v, waitCs y !! id = Some (Some v));
  sy_done : forall id, (id < nextId y)%nat -> id ∉ goroutines y -> exists v, resultCs y !! id = Some (Some v)
}.

Lemma field_step_flags s s' : field_step s s' -> flags_ok s -> flags_ok s'.
Proof.
  intros Hs Hf. pose proof Hf as [H1 H2]. destruct Hs as [c t start|c t|e|ec| | |ok|ok]; try (by constructor).
  - unfold SetRemovalInProgress. destruct (RemovalInProgress s); [done|by constructor].
  - unfold containerPause, GetRunningTask. destruct (Running s) eqn:Hr; [|done].
    cbn [negb]. destruct (TaskOf s); [|done]. destruct (Paused s); [done|].
    destruct (Restarting s) eqn:Hrs; [done|]. destruct ok; [|done].
    constructor; simpl; congruence.
  - unfold containerUnpause, GetRunningTask. destruct (Paused s); [|done]. cbn [negb].
    destruct (Running s) eqn:Hr; [|done]. cbn [negb]. destruct (TaskOf s); [|done].
    destruct ok; [|done]. constructor; simpl; [congruence|]. intros Hrs. by destruct (H2 Hrs).
Qed.

Lemma field_step_waiters s s' :
  field_step s s' -> stopWaiters s' = stopWaiters s /\ removeOnlyWaiters s' = removeOnlyWaiters s.
Proof.
  intros Hs. destruct Hs as [c t start|c t|e|ec| | |ok|ok]; try done.
  - unfold SetRemovalInProgress. by destruct (RemovalInProgress s).
  - unfold containerPause. destruct (GetRunningTask s); try done.
    destruct (Paused s); [done|]. destruct (Restarting s); [done|]. by destruct ok.
  - unfold containerUnpause. destruct (Paused s); [|done]. destruct (GetRunningTask s); try done. by destruct ok.
Qed.

(** ** Sending to all waiters *)

Lemma sendAll_spec cs ws v :
  NoDup ws -> (forall id, id ∈ ws -> cs !! id = Some None) ->
  exists cs', sendAll cs ws v = Some cs'
  /\ forall id, cs' !! id = if decide (id ∈ ws) then Some (Some v) else cs !! id.
Proof.
  revert cs. induction ws as [|c ws IH]; intros cs Hnd Hempty; cbn [sendAll].
  { exists cs. split; [done|]. intros id. rewrite decide_False; [done|]. by intros ?%elem_of_nil. }
  inversion Hnd as [|? ? Hc Hnd']; subst. unfold send. rewrite (Hempty c) by (by left). cbn [mbind option_bind].
  destruct (IH (<[c := Some v]> cs) Hnd') as (cs'&->&Hcs').
  { intros id Hid. rewrite lookup_insert_ne by (by intros ->). apply Hempty. by right. }
  exists cs'. split; [done|]. intros id. rewrite Hcs'. destruct (decide (id ∈ ws)) as [Hin|Hin].
  - by rewrite decide_True by (by right).
  - destruct (decide (id = c)) as [->|Hne].
    + rewrite decide_True by (by left). apply lookup_insert_eq.
    + rewrite decide_False by (intros [?|?]%elem_of_cons; done). by rewrite lookup_insert_ne.
Qed.

(** The common part of the notifications: the waiters of [ws] get [v] and leave
    the list; [ws'] are the ones that stay. *)
Lemma notified_ok y s' cs' ws ws' v :
  sys_ok y -> flags_ok s' -> waiters s' ≡ₚ ws' -> waiters (st y) ≡ₚ ws ++ ws' ->
  (forall id, cs' !! id = if decide (id ∈ ws) then Some (Some v) else waitCs y !! id) ->
  sys_ok (mkSys s' cs' (resultCs y) (goroutines y) (nextId y)).
Proof.
  intros [H1 H2 H3 H4 H5] Hf Hs' Hall Hcs.
  assert (Hnd : NoDup (ws ++ ws')) by (by rewrite <- Hall).
  apply list.NoDup_app in Hnd as (Hn1&Hdis&Hn2).
  constructor; simpl; [done|by rewrite Hs'| | |done].
  - intros id Hid. rewrite Hs' in Hid. rewrite Hcs, decide_False; [|intros Hin; by apply (Hdis id)].
    apply H3. rewrite Hall. apply elem_of_app. by right.
  - intros id Hid. destruct (H4 id Hid) as (?&?&Hw). split_and!; [done|done|].
    rewrite Hcs. destruct (decide (id ∈ ws)) as [Hin|Hin]; [right; by exists v|].
    destruct Hw as [Hw|Hw]; [|by right]. left. rewrite Hs'. rewrite Hall in Hw.
    apply elem_of_app in Hw as [?|?]; done.
Qed.

Lemma notifyStop_ok y :
  sys_ok y ->
  exists y', notifyStop y = Some y' /\ sys_ok y' /\ goroutines y' = goroutines y /\ nextId y' = nextId y
  /\ resultCs y' = resultCs y /\ st y' = set_stop (st y) []
  /\ forall id, waitCs y' !! id = if decide (id ∈ stopWaiters (st y)) then Some (Some (status (st y))) else waitCs y !! id.
Proof.
  intros Hok. pose proof Hok as [H1 H2 H3 H4 H5].
  destruct (sendAll_spec (waitCs y) (stopWaiters (st y)) (status (st y))) as (cs'&Hs&Hcs').
  { by apply list.NoDup_app in H2 as (?&_). }
  { intros id Hid. apply H3, elem_of_app. by left. }
  unfold notifyStop. rewrite Hs. cbn [mbind option_bind]. eexists. split; [done|]. split_and!; try done.
  apply (notified_ok y _ _ (stopWaiters (st y)) (removeOnlyWaiters (st y)) (status (st y))); try done.
  destruct H1 as [Ha Hb]. by constructor.
Qed.

Lemma notifyRemoveOnly_ok y :
  sys_ok y ->
  exists y', notifyRemoveOnly y = Some y' /\ sys_ok y' /\ goroutines y' = goroutines y /\ nextId y' = nextId y
  /\ resultCs y' = resultCs y /\ st y' = set_removeOnly (st y) []
  /\ forall id, waitCs y' !! id = if decide (id ∈ removeOnlyWaiters (st y)) then Some (Some (status (st y))) else waitCs y !! id.
Proof.
  intros Hok. pose proof Hok as [H1 H2 H3 H4 H5].
  destruct (sendAll_spec (waitCs y) (removeOnlyWaiters (st y)) (status (st y))) as (cs'&Hs&Hcs').
  { by apply list.NoDup_app in H2 as (_&_&?). }
  { intros id Hid. apply H3, elem_of_app. by right. }
  unfold notifyRemoveOnly. rewrite Hs. cbn [mbind option_bind]. eexists. split; [done|]. split_and!; try done.
  apply (notified_ok y _ _ (removeOnlyWaiters (st y)) (stopWaiters (st y)) (status (st y))); try done.
  - destruct H1 as [Ha Hb]. by constructor.
  - unfold waiters. simpl. by rewrite app_nil_r.
  - apply Permutation_app_comm.
Qed.

(** Changing the fields. *)
Lemma set_st_ok y s' :
  sys_ok y -> flags_ok s' -> stopWaiters s' = stopWaiters (st y) ->
  removeOnlyWaiters s' = removeOnlyWaiters (st y) -> sys_ok (set_st y s').
Proof.
  intros [H1 H2 H3 H4 H5] Hf E1 E2. assert (E : waiters s' = waiters (st y)) by (unfold waiters; congruence).
  constructor; simpl; rewrite ?E; done.
Qed.

(** What a notification of the stop waiters leaves. *)
Definition stop_notified (y y' : Sys) : Prop :=
  sys_ok y' /\ goroutines y' = goroutines y /\ resultCs y' = resultCs y /\ nextId y' = nextId y
  /\ stopWaiters (st y') = []
  /\ (forall id, id ∈ stopWaiters (st y) -> waitCs y' !! id = Some (Some (status (st y'))))
  /\ forall id, id ∉ stopWaiters (st y) -> waitCs y' !! id = waitCs y !! id.

Lemma stopped_effect y e now :
  sys_ok y ->
  exists y', SetStopped y e now = Some y' /\ stop_notified y y' /\ removeOnlyWaiters (st y') = removeOnlyWaiters (st y)
  /\ Running (st y') = false /\ status (st y') = mkStateStatus (es_ExitCode e) (Err (st y)).
Proof.
  intros Hok. unfold SetStopped. set (s := mkState _ _ _ _ _ _ _ _ _ _ _ _ _ _ _ _).
  assert (Hok1 : sys_ok (set_st y s)) by (apply set_st_ok; try done; by constructor).
  destruct (notifyStop_ok _ Hok1) as (y'&->&Hok'&E1&E2&E3&E4&Hw). exists y'. split; [done|].
  rewrite E4. split_and!; try done. unfold stop_notified. rewrite E4. split_and!; try done.
  - intros id Hid. rewrite Hw. by rewrite decide_True by done.
  - intros id Hid. rewrite Hw. by rewrite decide_False by done.
Qed.

Lemma restarting_effect y e now :
  sys_ok y ->
  exists y', SetRestarting y e now = Some y' /\ stop_notified y y' /\ removeOnlyWaiters (st y') = removeOnlyWaiters (st y)
  /\ Running (st y') = true /\ Restarting (st y') = true
  /\ status (st y') = mkStateStatus (es_ExitCode e) (Err (st y)).
Proof.
  intros Hok. unfold SetRestarting. set (s := mkState _ _ _ _ _ _ _ _ _ _ _ _ _ _ _ _).
  assert (Hok1 : sys_ok (set_st y s)) by (apply set_st_ok; try done; by constructor).
  destruct (notifyStop_ok _ Hok1) as (y'&->&Hok'&E1&E2&E3&E4&Hw). exists y'. split; [done|].
  rewrite E4. split_and!; try done. unfold stop_notified. rewrite E4. split_and!; try done.
  - intros id Hid. rewrite Hw. by rewrite decide_True by done.
  - intros id Hid. rewrite Hw. by rewrite decide_False by done.
Qed.

Lemma removed_effect y :
  sys_ok y ->
  exists y', notifyRemoved y = Some y' /\ sys_ok y' /\ goroutines y' = goroutines y
  /\ resultCs y' = resultCs y /\ nextId y' = nextId y /\ Removed (st y') = true
  /\ stopWaiters (st y') = [] /\ removeOnlyWaiters (st y') = []
  /\ status (st y') = status (st y)
  /\ (forall id, id ∈ waiters (st y) -> waitCs y' !! id = Some (Some (status (st y'))))
  /\ forall id, id ∉ waiters (st y) -> waitCs y' !! id = waitCs y !! id.
Proof.
  intros Hok. unfold notifyRemoved. set (y1 := set_st y _).
  assert (Hok1 : sys_ok y1).
  { apply set_st_ok; try done. destruct Hok as [[Ha Hb] _ _ _ _]. by constructor. }
  destruct (notifyRemoveOnly_ok y1 Hok1) as (y2&->&Hok2&E1&E2&E3&E4&Hw2). cbn [mbind option_bind].
  destruct (notifyStop_ok y2 Hok2) as (y3&->&Hok3&F1&F2&F3&F4&Hw3). exists y3. split; [done|].
  assert (Hstop : stopWaiters (st y2) = stopWaiters (st y)) by (by rewrite E4).
  assert (Hstat : status (st y2) = status (st y1)) by (by rewrite E4).
  assert (Hstat3 : status (st y3) = status (st y1)) by (rewrite F4; done).
  split_and!; [done|by rewrite F1, E1|by rewrite F3, E3|by rewrite F2, E2|by rewrite F4, E4|by rewrite F4|
    by rewrite F4, E4|by rewrite Hstat3| |].
  - intros id Hid. rewrite Hw3, Hstop, Hw2, Hstat, Hstat3. apply elem_of_app in Hid as [Hid|Hid].
    + by rewrite decide_True by done.
    + case_decide; [done|]. by rewrite decide_True by done.
  - intros id Hid. rewrite Hw3, Hstop, Hw2. unfold waiters in Hid. rewrite elem_of_app in Hid.
    rewrite decide_False by tauto. rewrite decide_False; [done|]. simpl. tauto.
Qed.

Lemma fresh_ids y id : sys_ok y -> id ∈ waiters (st y) -> id <> nextId y.
Proof. intros Hok Hid. destruct (sy_waiters y Hok id Hid). lia. Qed.

Lemma wait_ok y c : sys_ok y -> sys_ok (Wait y c).1.
Proof.
  intros Hok. pose proof Hok as [H1 H2 H3 H4 H5]. unfold Wait.
  destruct (conditionAlreadyMet (st y) c); simpl.
  { constructor; simpl; try done.
    - intros id Hid. destruct (H3 id Hid). split; [done|lia].
    - intros id Hid. destruct (H4 id Hid) as (?&?&?). split_and!; [lia| |done]. rewrite lookup_insert_ne by lia. done.
    - intros id Hlt Hn. destruct (decide (id = nextId y)) as [->|Hne]; [rewrite lookup_insert_eq; by eexists|].
      rewrite lookup_insert_ne by done. apply H5; [lia|done]. }
  set (id0 := nextId y) in *.
  set (s' := match c with WaitConditionRemoved => _ | _ => _ end).
  assert (Hws : waiters s' ≡ₚ id0 :: waiters (st y)).
  { unfold s', waiters. destruct c; simpl.
    - rewrite <- app_assoc. simpl. symmetry. apply Permutation_middle.
    - rewrite <- app_assoc. simpl. symmetry. apply Permutation_middle.
    - rewrite app_assoc. symmetry. apply Permutation_cons_append. }
  assert (Hfresh : id0 ∉ waiters (st y)) by (intros Hin; by apply (fresh_ids y id0 Hok Hin)).
  assert (Hne : forall id, (id < id0)%nat -> id0 <> id) by (intros; lia).
  constructor; simpl.
  - unfold s'. destruct H1 as [Ha Hb]. destruct c; by constructor.
  - rewrite Hws. by constructor.
  - intros id Hid. rewrite Hws in Hid. apply elem_of_cons in Hid as [->|Hid]; [split; [apply lookup_insert_eq|lia]|].
    destruct (H3 id Hid). rewrite lookup_insert_ne by auto. split; [done|lia].
  - intros id [->%elem_of_singleton|Hid]%elem_of_union.
    + split_and!; [lia|apply lookup_insert_eq|]. left. rewrite Hws. by left.
    + destruct (H4 id Hid) as (Hlt&Hr&Hw). split_and!; [lia|by rewrite lookup_insert_ne by auto|].
      rewrite lookup_insert_ne by auto. destruct Hw as [Hw|?]; [left|by right]. rewrite Hws. by right.
  - intros id Hlt Hn. rewrite elem_of_union, elem_of_singleton in Hn. rewrite lookup_insert_ne by auto.
    apply H5; [|tauto]. assert (id <> id0) by tauto. lia.
Qed.

Lemma deliver_spec y id :
  sys_ok y -> id ∈ goroutines y -> forall v, waitCs y !! id = Some (Some v) ->
  exists y', goDeliver y id = Some y' /\ resultCs y' !! id = Some (Some v).
Proof.
  intros Hok Hin v Hv. unfold goDeliver. rewrite decide_True by done. rewrite Hv.
  destruct (sy_running y Hok id Hin) as (_&Hr&_). unfold send. rewrite Hr. cbn [mbind option_bind].
  eexists. split; [done|]. simpl. apply lookup_insert_eq.
Qed.

(** The end of a goroutine with a value. *)
Lemma finish_ok y id v cs' :
  sys_ok y -> id ∈ goroutines y ->
  (forall j, j ∈ waiters (st y) \/ j <> id -> cs' !! j = waitCs y !! j) ->
  sys_ok (mkSys (st y) cs' (<[id := Some v]> (resultCs y)) (goroutines y ∖ {[id]}) (nextId y)).
Proof.
  intros [H1 H2 H3 H4 H5] Hin Hcs. constructor; simpl; try done.
  - intros j Hj. rewrite Hcs by auto. by apply H3.
  - intros j [Hj Hne]%elem_of_difference. rewrite elem_of_singleton in Hne.
    rewrite lookup_insert_ne by done. rewrite Hcs by auto. by apply H4.
  - intros j Hlt Hn. destruct (decide (j = id)) as [->|Hne]; [rewrite lookup_insert_eq; by eexists|].
    rewrite lookup_insert_ne by done. apply H5; [done|]. set_solver.
Qed.

Lemma deliver_ok y id y' : sys_ok y -> goDeliver y id = Some y' -> sys_ok y'.
Proof.
  intros Hok. unfold goDeliver. case_decide as Hin; [|done].
  destruct (waitCs y !! id) as [[v|]|] eqn:Hv; try done.
  destruct (sy_running y Hok id Hin) as (_&Hr&_). unfold send. rewrite Hr. cbn [mbind option_bind]. intros [= <-].
  apply finish_ok; [done|done|]. intros j Hj. rewrite lookup_insert_ne; [done|].
  intros ->. destruct Hj as [Hj|Hj]; [|done]. destruct (sy_waiters y Hok j Hj). congruence.
Qed.

Lemma cancel_ok y id e y' : sys_ok y -> goCancel y id e = Some y' -> sys_ok y'.
Proof.
  intros Hok. unfold goCancel. case_decide as Hin; [|done].
  destruct (sy_running y Hok id Hin) as (_&Hr&_). unfold send. rewrite Hr. cbn [mbind option_bind]. intros [= <-].
  by apply finish_ok.
Qed.

Lemma sys_step_ok y y' : sys_step y y' -> sys_ok y -> sys_ok y'.
Proof.
  intros Hs Hok. destruct Hs as [s' Hf|c|e now y' H|e now y' H|y' H|id y' H|id e y' H].
  - destruct (field_step_waiters _ _ Hf). apply set_st_ok; try done. eapply field_step_flags; [done|]. apply Hok.
  - by apply wait_ok.
  - destruct (stopped_effect y e now Hok) as (y2&E&(?&_)&_). congruence.
  - destruct (restarting_effect y e now Hok) as (y2&E&(?&_)&_). congruence.
  - destruct (removed_effect y Hok) as (y2&E&?&_). congruence.
  - by eapply deliver_ok.
  - by eapply cancel_ok.
Qed.

Lemma NewSys_ok : sys_ok NewSys.
Proof.
  constructor; simpl; try (intros; lia).
  - by constructor.
  - constructor.
  - intros id Hid. by apply elem_of_nil in Hid.
  - intros id Hid. set_solver.
Qed.

Lemma reachable_ok y : rtc sys_step NewSys y -> sys_ok y.
Proof.
  intros Hrun. pose proof NewSys_ok as H. induction Hrun as [|x y z Hs _ IH]; [done|].
  apply IH. by eapply sys_step_ok.
Qed.

(** the flags of a container are consistent in every state it can reach: a container that is
    not running is neither paused nor restarting and has no process, a restarting container
    counts as running, is not paused and has no process; hence the summary state is "paused" or
    "restarting" exactly when that flag is set. *)
Theorem state_flags_consistent y :
  rtc sys_step NewSys y ->
  let s := st y in
  (Running s = false -> Paused s = false /\ Restarting s = false /\ Pid s = 0)
  /\ (Restarting s = true -> Running s = true /\ Paused s = false /\ Pid s = 0)
  /\ (StateString s = StatePaused <-> Paused s = true)
  /\ (StateString s = StateRestarting <-> Restarting s = true).
Proof.
  intros Hrun s. destruct (sy_flags y (reachable_ok y Hrun)) as [H1 H2]. fold s in H1, H2.
  assert (Hr : Restarting s = true -> Running s = true).
  { intros E. destruct (Running s); [done|]. by destruct (H1 eq_refl) as (_&?&_); congruence. }
  split_and!; [done| | |].
  - intros E. destruct (H2 E). auto.
  - unfold StateString. destruct (Running s) eqn:Er.
    + destruct (Paused s); [done|]. by destruct (Restarting s).
    + destruct (H1 eq_refl) as (->&_). destruct (RemovalInProgress s), (Dead s), (IsZero (StartedAt s)); done.
  - unfold StateString. destruct (Running s) eqn:Er.
    + destruct (Restarting s) eqn:E; [destruct (H2 eq_refl) as [-> _]; done|]. by destruct (Paused s).
    + destruct (H1 eq_refl) as (_&->&_). destruct (RemovalInProgress s), (Dead s), (IsZero (StartedAt s)); done.
Qed.

(** C34: no wakeup is lost and no notification blocks.  In every reachable system, whatever waiters
    have been cancelled or served, stopping the container completes, and then every waiter for
    its exit holds the exit code and error of this very exit; removing it completes and
    serves all the remaining waiters; and a waiter that holds a status can deliver it. *)
Theorem waiters_notified y :
  rtc sys_step NewSys y ->
  (forall e now, exists y', SetStopped y e now = Some y' /\ stopWaiters (st y') = []
     /\ forall id, id ∈ stopWaiters (st y) ->
          waitCs y' !! id = Some (Some (mkStateStatus (es_ExitCode e) (Err (st y)))))
  /\ (forall e, exists y', SetRemovalError y e = Some y' /\ waiters (st y') = []
     /\ forall id, id ∈ waiters (st y) ->
          waitCs y' !! id = Some (Some (mkStateStatus (ExitCode (st y)) (Err (SetError (st y) e)))))
  /\ (forall id, id ∈ goroutines y ->
        id ∈ waiters (st y) \/ exists v y', goDeliver y id = Some y' /\ waitCs y !! id = Some (Some v)
                                 /\ resultCs y' !! id = Some (Some v)).
Proof.
  intros Hrun. pose proof (reachable_ok y Hrun) as Hok. split_and!.
  - intros e now. destruct (stopped_effect y e now Hok) as (y'&E&(_&_&_&_&Hs&Hw&_)&_&_&Hst).
    exists y'. split_and!; [done|done|]. intros id Hid. by rewrite (Hw id Hid), Hst.
  - intros e. pose proof (sys_step_ok _ _ (StepField y _ (FError (st y) e)) Hok) as Hok1.
    destruct (removed_effect _ Hok1) as (y'&E&_&_&_&_&_&Hs&Hr&Hst&Hw&_). exists y'.
    split_and!; [done|unfold waiters; by rewrite Hs, Hr|]. intros id Hid. by rewrite (Hw id Hid), Hst.
  - intros id Hid. destruct (sy_running y Hok id Hid) as (_&_&[Hw|[v Hv]]); [by left|right].
    destruct (deliver_spec y id Hok Hid v Hv) as (y'&?&?). by exists v, y'.
Qed.

Lemma result_kept y y' id v :
  sys_step y y' -> sys_ok y -> resultCs y !! id = Some (Some v) -> (id < nextId y)%nat ->
  resultCs y' !! id = Some (Some v) /\ (id < nextId y')%nat.
Proof.
  intros Hs Hok Hv Hid. destruct Hs as [s' Hf|c|e now y' H|e now y' H|y' H|j y' H|j e y' H].
  - done.
  - unfold Wait. destruct (conditionAlreadyMet (st y) c); simpl; (rewrite lookup_insert_ne by lia; split; [done|lia]).
  - destruct (stopped_effect y e now Hok) as (y2&E&(_&_&Er&En&_)&_). assert (y2 = y') as -> by congruence.
    by rewrite Er, En.
  - destruct (restarting_effect y e now Hok) as (y2&E&(_&_&Er&En&_)&_). assert (y2 = y') as -> by congruence.
    by rewrite Er, En.
  - destruct (removed_effect y Hok) as (y2&E&_&_&Er&En&_). assert (y2 = y') as -> by congruence.
    by rewrite Er, En.
  - unfold goDeliver in H. case_decide as Hin; [|done]. destruct (waitCs y !! j) as [[w|]|]; try done.
    destruct (sy_running y Hok j Hin) as (_&Hr&_). unfold send in H. rewrite Hr in H. cbn [mbind option_bind] in H.
    injection H as <-. simpl. rewrite lookup_insert_ne; [done|]. congruence.
  - unfold goCancel in H. case_decide as Hin; [|done].
    destruct (sy_running y Hok j Hin) as (_&Hr&_). unfold send in H. rewrite Hr in H. cbn [mbind option_bind] in H.
    injection H as <-. simpl. rewrite lookup_insert_ne; [done|]. congruence.
Qed.

(** a call of [Wait] gets exactly one result.  The result channel is empty while its goroutine
    runs and holds one value from then on: no later event, cancellation or other call of [Wait]
    overwrites it. *)
Theorem wait_result_final y y' id :
  rtc sys_step NewSys y -> rtc sys_step y y' -> (id < nextId y)%nat ->
  (id ∈ goroutines y /\ resultCs y !! id = Some None)
  \/ (exists v, resultCs y !! id = Some (Some v) /\ resultCs y' !! id = Some (Some v)).
Proof.
  intros Hrun Hrun' Hid. pose proof (reachable_ok y Hrun) as Hok.
  destruct (decide (id ∈ goroutines y)) as [Hin|Hin].
  - left. destruct (sy_running y Hok id Hin) as (_&?&_). done.
  - right. destruct (sy_done y Hok id Hid Hin) as [v Hv]. exists v. split; [done|].
    clear Hrun Hin. induction Hrun' as [|x z w Hs _ IH]; [done|].
    destruct (result_kept x z id v Hs Hok Hv Hid). apply IH; try done. by eapply sys_step_ok.
Qed.

(** ** A concrete run *)

Definition run_ex1 : Sys := set_st NewSys (SetRunning NewState (Some 7%nat) (Some (mkTask 1 4242)) 5).
Definition run_ex2 : Sys := (Wait run_ex1 WaitConditionNotRunning).1.
Definition run_ex3 : Sys := default NewSys (SetStopped run_ex2 (mkExitStatus 137 9) 10).
Definition run_ex4 : Sys := default NewSys (goDeliver run_ex3 0).

Lemma run_ex2_reachable : rtc sys_step NewSys run_ex2.
Proof.
  apply (rtc_l _ _ run_ex1); [apply (StepField NewSys), FRunning|]. apply rtc_once, StepWait.
Qed.

Lemma run_ex4_reachable : rtc sys_step run_ex2 run_ex4 /\ resultCs run_ex4 !! 0%nat = Some (Some (mkStateStatus 137 None)).
Proof.
  split; [|by vm_compute]. apply (rtc_l _ _ run_ex3).
  - apply (StepStopped run_ex2 (mkExitStatus 137 9) 10). by vm_compute.
  - apply rtc_once, (StepDeliver run_ex3 0). by vm_compute.
Qed.

Lemma state_flags_consistent_witness : StateString (st run_ex2) = StateRunning /\ Paused (st run_ex2) = false.
Proof.
  split; [by vm_compute|]. destruct (state_flags_consistent run_ex2 run_ex2_reachable) as (_&_&H&_).
  destruct (Paused (st run_ex2)); [|done]. by assert (StateString (st run_ex2) = StatePaused) by (by apply H).
Defined.

Lemma waiters_notified_witness :
  exists y', SetStopped run_ex2 (mkExitStatus 137 9) 10 = Some y'
  /\ waitCs y' !! 0%nat = Some (Some (mkStateStatus 137 None)).
Proof.
  destruct (waiters_notified run_ex2 run_ex2_reachable) as (H&_&_).
  destruct (H (mkExitStatus 137 9) 10) as (y'&E&_&Hw). exists y'. split; [done|].
  apply (Hw 0%nat). by left.
Defined.

Lemma wait_result_final_witness :
  exists v, resultCs run_ex4 !! 0%nat = Some (Some v) /\ resultCs run_ex4 !! 0%nat = Some (Some v).
Proof.
  assert (Hr : rtc sys_step NewSys run_ex4).
  { transitivity run_ex2; [apply run_ex2_reachable|apply run_ex4_reachable]. }
  destruct (wait_result_final run_ex4 run_ex4 0 Hr (rtc_refl _ _)) as [[_ H]|H]; [by vm_compute; lia| |done].
  by rewrite (proj2 run_ex4_reachable) in H.
Defined.

(** A waiter for "not running" is also served when the container is about to be restarted:
    it receives a status while the container still counts as running. *)
Lemma restart_wakes_not_running :
  let y := run_ex2 in
  exists y', SetRestarting y (mkExitStatus 1 0) 8 = Some y' /\ Running (st y') = true
  /\ waitCs y' !! 0%nat = Some (Some (mkStateStatus 1 None)).
Proof. eexists. split; [reflexivity|]. by vm_compute. Qed.

(** ** The health monitor *)

Inductive health_step (h : Health) : Health -> Prop :=
| HSetStatus s : health_step h (SetStatus h s)
| HOpen : health_step h (OpenMonitorChannel h).1
| HClose h' : CloseMonitorChannel h = GoOk h' -> health_step h h'.

Record health_ok (h : Health) : Prop := {
  he_open : forall c, h_stop h = Some c -> c ∉ h_closed h /\ (c < h_next h)%nat;
  he_closed : forall c, c ∈ h_closed h -> (c < h_next h)%nat
}.

Lemma health_step_ok h h' : health_step h h' -> health_ok h -> health_ok h'.
Proof.
  intros Hs [H1 H2]. destruct Hs as [s| |h' H].
  - by constructor.
  - unfold OpenMonitorChannel. destruct (h_stop h) eqn:E; simpl.
    + constructor; [by rewrite E|done].
    + constructor; simpl.
      * intros c [= <-]. split; [|lia]. intros Hin. specialize (H2 _ Hin). lia.
      * intros c Hc. specialize (H2 c Hc). lia.
  - unfold CloseMonitorChannel in H. destruct (h_stop h) as [c|] eqn:E.
    + case_decide; [done|]. injection H as <-. constructor; simpl; [done|].
      intros c' [->%elem_of_singleton|?]%elem_of_union; [by apply H1|by apply H2].
    + injection H as <-. constructor; [by rewrite E|done].
Qed.

(** the health monitor's channel: from any fresh monitor, closing never panics, at most one
    channel is open, an opened channel is new, and once the monitor is stopped the container
    counts as unhealthy. *)
Theorem monitor_channel_safe h :
  rtc health_step (mkHealth HealthUnset None ∅ 0) h ->
  (exists h', CloseMonitorChannel h = GoOk h' /\ h_stop h' = None
     /\ (is_Some (h_stop h) -> HealthStatus_ h' = Unhealthy))
  /\ (forall c, (OpenMonitorChannel h).2 = Some c <-> h_stop h = None /\ c = h_next h /\ c ∉ h_closed h).
Proof.
  intros Hrun. assert (Hok : health_ok h).
  { assert (H0 : health_ok (mkHealth HealthUnset None ∅ 0)) by (constructor; simpl; [done|set_solver]).
    induction Hrun as [|x y z Hs _ IH]; [done|]. apply IH. by eapply health_step_ok. }
  destruct Hok as [H1 H2]. split.
  - unfold CloseMonitorChannel. destruct (h_stop h) as [c|] eqn:E.
    + rewrite decide_False by (by apply H1). by eexists.
    + exists h. split_and!; [done|done|]. by intros [? ?].
  - intros c. unfold OpenMonitorChannel. destruct (h_stop h) eqn:E; simpl; [split; [done|by intros [? _]]|].
    split; [|by intros (_&->&_)]. intros [= <-]. split_and!; try done. intros Hin. specialize (H2 _ Hin). lia.
Qed.

Lemma monitor_channel_safe_witness :
  exists h', CloseMonitorChannel (OpenMonitorChannel (mkHealth HealthUnset None ∅ 0)).1 = GoOk h' /\ HealthStatus_ h' = Unhealthy.
Proof.
  destruct (monitor_channel_safe (OpenMonitorChannel (mkHealth HealthUnset None ∅ 0)).1) as [(h'&E&_&H) _].
  - apply rtc_once, HOpen.
  - exists h'. split; [done|]. apply H. by eexists.
Defined.
