(* ===== verification/RestartManager.v ===== *)
(** * The restart manager

    Model of [daemon/internal/restartmanager/restartmanager.go] and of the restart
    policies of [api/types/container/hostconfig.go].  Durations are nanoseconds.
    The goroutine of [ShouldRestart] waits for its timer or for the cancellation;
    it is the pending channel of the system, and its two cases are steps of their
    own. *)

From S2P Require Import Prelude.

(** ** Policies *)

(** [PolicyOther] is any other name. *)
Inductive RestartPolicyMode :=
| PolicyEmpty | RestartPolicyDisabled | RestartPolicyAlways | RestartPolicyOnFailure
| RestartPolicyUnlessStopped | PolicyOther (name : string).

#[export] Instance RestartPolicyMode_eq_dec : EqDecision RestartPolicyMode.
Proof. solve_decision. Defined.

Record RestartPolicy := mkRestartPolicy { Name : RestartPolicyMode; MaximumRetryCount : Z }.

Definition IsNone (rp : RestartPolicy) : bool :=
  bool_decide (Name rp = RestartPolicyDisabled) || bool_decide (Name rp = PolicyEmpty).
Definition IsAlways (rp : RestartPolicy) : bool := bool_decide (Name rp = RestartPolicyAlways).
Definition IsOnFailure (rp : RestartPolicy) : bool := bool_decide (Name rp = RestartPolicyOnFailure).
Definition IsUnlessStopped (rp : RestartPolicy) : bool := bool_decide (Name rp = RestartPolicyUnlessStopped).
Definition IsSame (rp tp : RestartPolicy) : bool :=
  bool_decide (Name rp = Name tp) && (MaximumRetryCount rp =? MaximumRetryCount tp).

(** [true] when the policy is valid. *)
Definition ValidateRestartPolicy (policy : RestartPolicy) : bool :=
  match Name policy with
  | RestartPolicyAlways | RestartPolicyUnlessStopped | RestartPolicyDisabled =>
      MaximumRetryCount policy =? 0
  | RestartPolicyOnFailure => negb (MaximumRetryCount policy <? 0)
  | PolicyEmpty => true
  | PolicyOther _ => false
  end.

(** ** The manager *)

Definition backoffMultiplier : Z := 2.
Definition defaultTimeout : Z := 100 * 1000000.
Definition maxRestartTimeout : Z := 60 * 1000000000.

Inductive RestartErr := ErrRestartCanceled | errActive.

Record RestartManager := mkRestartManager {
  policy : RestartPolicy;
  restartCount : Z;
  timeout : Z;
  active : bool;
  canceled : bool
}.

(** [New]. *)
Definition NewManager (policy : RestartPolicy) (restartCount : Z) : RestartManager :=
  mkRestartManager policy restartCount 0 false false.

Definition SetPolicy (rm : RestartManager) (p : RestartPolicy) : RestartManager :=
  mkRestartManager p (restartCount rm) (timeout rm) (active rm) (canceled rm).

(** The next waiting time. *)
Definition nextTimeout (timeout executionDuration : Z) : Z :=
  let t := if 10 * 1000000000 <=? executionDuration then 0 else timeout in
  let t := if t =? 0 then defaultTimeout
           else if t <? maxRestartTimeout then t * backoffMultiplier else t in
  if maxRestartTimeout <? t then maxRestartTimeout else t.

Definition decision (rm : RestartManager) (exitCode : Z) (hasBeenManuallyStopped : bool) : bool :=
  if IsAlways (policy rm) then true
  else if IsUnlessStopped (policy rm) && negb hasBeenManuallyStopped then true
  else if IsOnFailure (policy rm) then
    let maxRetryCount := MaximumRetryCount (policy rm) in
    if (maxRetryCount =? 0) || (restartCount rm <? maxRetryCount) then negb (exitCode =? 0) else false
  else false.

Definition ShouldRestart (rm : RestartManager) (exitCode : Z) (hasBeenManuallyStopped : bool)
  (executionDuration : Z) : RestartManager * go_result RestartErr bool :=
  if IsNone (policy rm) then (rm, GoOk false)
  else if canceled rm then (rm, GoErr ErrRestartCanceled)
  else if active rm then (rm, GoErr errActive)
  else
    let t := nextTimeout (timeout rm) executionDuration in
    if decision rm exitCode hasBeenManuallyStopped
    then (mkRestartManager (policy rm) (restartCount rm + 1) t true (canceled rm), GoOk true)
    else (mkRestartManager (policy rm) (restartCount rm) t false (canceled rm), GoOk false).

(** What the channel of a restart yields: nothing yet, the signal to restart, or the
    cancellation. *)
Inductive signal := NotYet | RestartNow | RestartCanceled.

(** The manager, the channels handed out and the goroutine that waits for one of them. *)
Record RSys := mkRSys { rm : RestartManager; chans : gmap nat signal; waiting : option nat; nextChan : nat }.

Definition NewRSys (policy : RestartPolicy) (restartCount : Z) : RSys :=
  mkRSys (NewManager policy restartCount) ∅ None 0.

Definition callShouldRestart (y : RSys) (exitCode : Z) (stopped : bool) (duration : Z)
  : RSys * go_result RestartErr (option nat) :=
  let '(rm', r) := ShouldRestart (rm y) exitCode stopped duration in
  match r with
  | GoOk true =>
      (mkRSys rm' (<[nextChan y := NotYet]> (chans y)) (Some (nextChan y)) (S (nextChan y)), GoOk (Some (nextChan y)))
  | GoOk false => (mkRSys rm' (chans y) (waiting y) (nextChan y), GoOk None)
  | GoErr e => (mkRSys rm' (chans y) (waiting y) (nextChan y), GoErr e)
  | GoPanic => (y, GoPanic)
  end.

(** [case <-timeout.C] *)
Definition timerFires (y : RSys) : option RSys :=
  match waiting y with
  | Some c =>
      let m := rm y in
      Some (mkRSys (mkRestartManager (policy m) (restartCount m) (timeout m) false (canceled m))
              (<[c := RestartNow]> (chans y)) None (nextChan y))
  | None => None
  end.

(** [case <-rm.cancel]: possible once the channel is closed. *)
Definition cancelFires (y : RSys) : option RSys :=
  match waiting y with
  | Some c => if canceled (rm y) then Some (mkRSys (rm y) (<[c := RestartCanceled]> (chans y)) None (nextChan y)) else None
  | None => None
  end.

Definition callSetPolicy (y : RSys) (p : RestartPolicy) : RSys :=
  mkRSys (SetPolicy (rm y) p) (chans y) (waiting y) (nextChan y).

(** [rm.Do] runs its argument once. *)
Definition Cancel (y : RSys) : RSys :=
  let m := rm y in
  mkRSys (mkRestartManager (policy m) (restartCount m) (timeout m) (active m) true) (chans y) (waiting y) (nextChan y).

(** ** Theorems *)

(** The calls and the goroutine, in any order; [allowed] are the policies that
    [SetPolicy] receives. *)
Inductive r_step (allowed : RestartPolicy -> Prop) (y : RSys) : RSys -> Prop :=
| RShould ec stopped d : r_step allowed y (callShouldRestart y ec stopped d).1
| RTimer y' : timerFires y = Some y' -> r_step allowed y y'
| RCancelFires y' : cancelFires y = Some y' -> r_step allowed y y'
| RSetPolicy p : allowed p -> r_step allowed y (callSetPolicy y p)
| RCancel : r_step allowed y (Cancel y).

(** On-failure policies that limit the retries to at most [m]. *)
Definition limited (m : Z) (p : RestartPolicy) : Prop :=
  IsOnFailure p = true /\ 0 < MaximumRetryCount p <= m.

Record r_ok (allowed : RestartPolicy -> Prop) (count0 : Z) (y : RSys) : Prop := {
  ro_policy : allowed (policy (rm y));
  ro_timeout : timeout (rm y) = 0 \/ defaultTimeout <= timeout (rm y) <= maxRestartTimeout;
  ro_active : waiting y <> None -> active (rm y) = true;
  ro_idle : active (rm y) = true -> waiting y <> None \/ canceled (rm y) = true;
  ro_count : count0 <= restartCount (rm y);
  ro_retries : forall m, (forall p, allowed p -> limited m p) -> restartCount (rm y) <= Z.max count0 m;
  ro_chans : forall c, is_Some (chans y !! c) <-> (c < nextChan y)%nat;
  ro_number : Z.of_nat (nextChan y) = restartCount (rm y) - count0;
  ro_pending : forall c, waiting y = Some c <-> chans y !! c = Some NotYet
}.

Lemma nextTimeout_bounds t d :
  t = 0 \/ defaultTimeout <= t <= maxRestartTimeout ->
  defaultTimeout <= nextTimeout t d <= maxRestartTimeout.
Proof.
  unfold nextTimeout, defaultTimeout, maxRestartTimeout, backoffMultiplier. intros Ht.
  destruct (Z.leb_spec (10 * 1000000000) d); simpl; [lia|].
  destruct (Z.eqb_spec t 0); simpl; [lia|]. destruct (Z.ltb_spec t (60 * 1000000000)); simpl.
  - destruct (Z.ltb_spec (60 * 1000000000) (t * 2)); simpl in *; lia.
  - destruct (Z.ltb_spec (60 * 1000000000) t); simpl in *; lia.
Qed.

Lemma decision_retries m ec stopped :
  decision m ec stopped = true -> IsOnFailure (policy m) = true -> MaximumRetryCount (policy m) <> 0 ->
  restartCount m < MaximumRetryCount (policy m).
Proof.
  unfold decision, IsAlways, IsUnlessStopped, IsOnFailure. intros Hd Hf Hm. apply bool_decide_eq_true in Hf.
  rewrite Hf in Hd. rewrite !bool_decide_eq_false_2, bool_decide_eq_true_2 in Hd by done. simpl in Hd.
  destruct (Z.eqb_spec (MaximumRetryCount (policy m)) 0); [done|].
  by destruct (Z.ltb_spec (restartCount m) (MaximumRetryCount (policy m))).
Qed.

Lemma r_step_ok Q c0 y y' : r_step Q y y' -> r_ok Q c0 y -> r_ok Q c0 y'.
Proof.
  intros Hs Hok. pose proof Hok as [H1 H2 H3 H4 H5 H6 H7 H8 H9].
  destruct Hs as [ec stopped d|y' H|y' H|p Hp|].
  - assert (Heta : mkRSys (rm y) (chans y) (waiting y) (nextChan y) = y) by (by destruct y).
    unfold callShouldRestart, ShouldRestart. destruct (IsNone (policy (rm y))); [simpl; by rewrite Heta|].
    destruct (canceled (rm y)) eqn:Hc; [simpl; by rewrite Heta|].
    destruct (active (rm y)) eqn:Ha; [simpl; by rewrite Heta|].
    pose proof (nextTimeout_bounds (timeout (rm y)) d H2) as Ht.
    assert (Hw : waiting y = None) by (destruct (waiting y); [by assert (false = true) by (by apply H3)|done]).
    destruct (decision (rm y) ec stopped) eqn:Hd; simpl.
    + assert (Hall : forall c, chans y !! c <> Some NotYet) by (intros c E%H9; congruence).
      constructor; simpl; try done; [by right|by left|lia| | |lia|].
      * intros m Hm. destruct (Hm _ H1) as [Hf Hr].
        pose proof (decision_retries (rm y) ec stopped Hd Hf ltac:(lia)). lia.
      * intros c. rewrite lookup_insert_is_Some, H7. destruct (decide (nextChan y = c)) as [<-|]; [split; [lia|by left]|].
        split; [intros [?|[_ ?]]; [done|lia]|]. intros Hlt. right. split; [done|lia].
      * intros c. split; [intros [= <-]; apply lookup_insert_eq|].
        rewrite lookup_insert_Some. intros [[<- _]|[_ E]]; [done|by apply Hall in E].
    + rewrite Hw. constructor; simpl; try done; [by right|by rewrite <- Hw].
  - unfold timerFires in H. destruct (waiting y) as [c0'|] eqn:Hw; [|done]. injection H as <-.
    constructor; simpl; try done.
    + intros c. rewrite lookup_insert_is_Some, H7. destruct (decide (c0' = c)) as [<-|]; [|naive_solver].
      assert (is_Some (chans y !! c0')) as Hs by (rewrite (proj1 (H9 c0') eq_refl); by eexists). apply H7 in Hs. naive_solver.
    + intros c. split; [done|]. rewrite lookup_insert_Some. intros [[_ ?]|[Hne E%H9]]; [done|]. congruence.
  - unfold cancelFires in H. destruct (waiting y) as [c0'|] eqn:Hw; [|done].
    destruct (canceled (rm y)) eqn:Hc; [|done]. injection H as <-. constructor; simpl; try done; [by right| |].
    + intros c. rewrite lookup_insert_is_Some, H7. destruct (decide (c0' = c)) as [<-|]; [|naive_solver].
      assert (is_Some (chans y !! c0')) as Hs by (rewrite (proj1 (H9 c0') eq_refl); by eexists). apply H7 in Hs. naive_solver.
    + intros c. split; [done|]. rewrite lookup_insert_Some. intros [[_ ?]|[Hne E%H9]]; [done|]. congruence.
  - by constructor.
  - constructor; simpl; try done. intros _. by right.
Qed.

Lemma r_reachable_ok (Q : RestartPolicy -> Prop) p c0 y : Q p -> rtc (r_step Q) (NewRSys p c0) y -> r_ok Q c0 y.
Proof.
  intros HQ Hrun. assert (H0 : r_ok Q c0 (NewRSys p c0)).
  { constructor; simpl; try done; try lia.
    - intros c. rewrite lookup_empty. split; [by intros [? ?]|lia]. }
  induction Hrun as [|x y z Hs _ IH]; [done|]. apply IH. by eapply r_step_ok.
Qed.

(** C21: the restart manager in every reachable state, policies changed on the way included:
    the waiting time is unset or between 100 ms and one minute, at most one restart is
    pending, and when every policy of the run is on-failure with a limit of at most [m]
    retries, the restarts granted since the start are at most [m] less the initial count. *)
Theorem restart_bounds (Q : RestartPolicy -> Prop) p c0 y :
  Q p -> rtc (r_step Q) (NewRSys p c0) y ->
  (timeout (rm y) = 0 \/ defaultTimeout <= timeout (rm y) <= maxRestartTimeout)
  /\ (forall c1 c2, chans y !! c1 = Some NotYet -> chans y !! c2 = Some NotYet -> c1 = c2)
  /\ (forall m, (forall q, Q q -> limited m q) -> Z.of_nat (size (dom (chans y))) <= Z.max 0 (m - c0)).
Proof.
  intros HQ Hrun. destruct (r_reachable_ok Q p c0 y HQ Hrun) as [H1 H2 H3 H4 H5 H6 H7 H8 H9].
  split_and!; [done| |].
  - intros c1 c2 E1%H9 E2%H9. congruence.
  - intros m Hm. specialize (H6 m Hm).
    assert (Hd : dom (chans y) = set_seq 0 (nextChan y)).
    { apply set_eq. intros c. rewrite elem_of_dom, H7, elem_of_set_seq. lia. }
    rewrite Hd, size_set_seq. lia.
Qed.

Definition policy_ex : RestartPolicy := mkRestartPolicy RestartPolicyOnFailure 2.
Definition policy_ex' : RestartPolicy := mkRestartPolicy RestartPolicyOnFailure 1.
Definition r_ex1 : RSys := (callShouldRestart (NewRSys policy_ex 0) 1 false 0).1.

Lemma restart_bounds_witness : Z.of_nat (size (dom (chans (callSetPolicy r_ex1 policy_ex')))) <= 2.
Proof.
  destruct (restart_bounds (limited 2) policy_ex 0 (callSetPolicy r_ex1 policy_ex')) as (_&_&H).
  - by vm_compute.
  - eapply rtc_l; [apply RShould|]. by apply rtc_once, RSetPolicy.
  - by apply (H 2).
Defined.

(** The waiting times of consecutive short runs. *)
Fixpoint timeouts (n : nat) (t : Z) : Z :=
  match n with O => t | S n => timeouts n (nextTimeout t 0) end.

Lemma nextTimeout_pow k :
  0 <= k -> nextTimeout (Z.min (defaultTimeout * 2 ^ k) maxRestartTimeout) 0
            = Z.min (defaultTimeout * 2 ^ (k + 1)) maxRestartTimeout.
Proof.
  intros Hk. rewrite Z.pow_add_r, Z.pow_1_r by lia. pose proof (Z.pow_pos_nonneg 2 k ltac:(lia) Hk) as Hp.
  generalize dependent (2 ^ k). intros P Hp. unfold nextTimeout, defaultTimeout, maxRestartTimeout, backoffMultiplier.
  destruct (Z.leb_spec (10 * 1000000000) 0) as [?|_]; [lia|].
  remember (Z.min (100 * 1000000 * P) (60 * 1000000000)) as t eqn:Ht.
  destruct (Z.eqb_spec t 0); [lia|]. destruct (Z.ltb_spec t (60 * 1000000000)).
  - destruct (Z.ltb_spec (60 * 1000000000) (t * 2)); lia.
  - destruct (Z.ltb_spec (60 * 1000000000) t); lia.
Qed.

(** exponential backoff: the n-th waiting time in a row, for containers that exit within ten
    seconds, is 100 ms doubled n times, up to one minute; a run of ten seconds or more starts
    over at 100 ms. *)
Theorem restart_backoff n t d :
  timeouts (S n) 0 = Z.min (defaultTimeout * 2 ^ Z.of_nat n) maxRestartTimeout
  /\ (10 * 1000000000 <= d -> nextTimeout t d = defaultTimeout).
Proof.
  split.
  - assert (H : forall k m, 0 <= k -> timeouts m (Z.min (defaultTimeout * 2 ^ k) maxRestartTimeout)
      = Z.min (defaultTimeout * 2 ^ (k + Z.of_nat m)) maxRestartTimeout).
    { intros k m. revert k. induction m as [|m IH]; intros k Hk; cbn [timeouts]; [by rewrite Z.add_0_r|].
      rewrite nextTimeout_pow, IH by lia. do 3 f_equal. lia. }
    cbn [timeouts]. change (nextTimeout 0 0) with (Z.min (defaultTimeout * 2 ^ 0) maxRestartTimeout).
    rewrite H by lia. done.
  - intros Hd. unfold nextTimeout. by destruct (Z.leb_spec (10 * 1000000000) d); [|lia].
Qed.

Lemma restart_backoff_witness :
  timeouts 4 0 = 800 * 1000000 /\ nextTimeout maxRestartTimeout (11 * 1000000000) = defaultTimeout.
Proof.
  split; [apply (restart_backoff 3 0 0)|]. apply (restart_backoff 0 maxRestartTimeout (11 * 1000000000)). lia.
Defined.

(** after [Cancel] no restart is granted any more, under any policy that restarts, and the policy
    decides otherwise: always, unless stopped by hand, on failure within the maximum. *)
Theorem restart_decision y ec stopped d :
  IsNone (policy (rm y)) = false ->
  let '(_, r) := callShouldRestart y ec stopped d in
  match r with
  | GoOk o => canceled (rm y) = false /\ active (rm y) = false
      /\ (is_Some o <-> IsAlways (policy (rm y)) = true
           \/ IsUnlessStopped (policy (rm y)) = true /\ stopped = false
           \/ IsOnFailure (policy (rm y)) = true /\ ec <> 0
              /\ (MaximumRetryCount (policy (rm y)) = 0 \/ restartCount (rm y) < MaximumRetryCount (policy (rm y))))
  | GoErr ErrRestartCanceled => canceled (rm y) = true
  | GoErr errActive => canceled (rm y) = false /\ active (rm y) = true
  | GoPanic => False
  end.
Proof.
  intros Hn. unfold callShouldRestart, ShouldRestart. rewrite Hn.
  destruct (canceled (rm y)); [done|]. destruct (active (rm y)); [done|].
  assert (Hd : decision (rm y) ec stopped = true <-> IsAlways (policy (rm y)) = true
           \/ IsUnlessStopped (policy (rm y)) = true /\ stopped = false
           \/ IsOnFailure (policy (rm y)) = true /\ ec <> 0
              /\ (MaximumRetryCount (policy (rm y)) = 0 \/ restartCount (rm y) < MaximumRetryCount (policy (rm y)))).
  { unfold decision. destruct (IsAlways _); [by split; [left|]|].
    destruct (IsUnlessStopped _), stopped; simpl; try (by split; [right; left|]);
      (destruct (IsOnFailure _); [|naive_solver]);
      destruct (Z.eqb_spec (MaximumRetryCount (policy (rm y))) 0), (Z.ltb_spec (restartCount (rm y)) (MaximumRetryCount (policy (rm y)))),
        (Z.eqb_spec ec 0); simpl; split; intros; destruct_and?; destruct_or?; destruct_and?; try done; try lia;
        right; right; split_and!; auto. }
  destruct (decision (rm y) ec stopped); simpl; split_and!; try done; rewrite <- Hd; split; done.
Qed.

Lemma restart_decision_witness :
  (callShouldRestart (Cancel r_ex1) 1 false 0).2 = GoErr ErrRestartCanceled /\ canceled (rm (Cancel r_ex1)) = true.
Proof.
  pose proof (restart_decision (Cancel r_ex1) 1 false 0 eq_refl) as H.
  split; [by vm_compute|]. vm_compute in H. exact H.
Defined.
