(* ===== verification/RefStore.v ===== *)
(** * The reference store

    Model of [daemon/internal/refstore/store.go]: the map from image references (tags
    and digests) to image identifiers, its cache by identifier and the file it is saved
    to.  The references themselves follow the four types of the vendored package
    [github.com/distribution/reference] (repository, taggedReference,
    canonicalReference, reference); its parser is an argument of the operations that
    read references back from text. *)

From Stdlib Require Import Ascii String.
From stdpp Require Import gmap strings sorting.
From S2P Require Import Prelude.

Local Open Scope string_scope.

(** ** References *)

Definition ascii_in (c : ascii) (lo hi : nat) : bool :=
  (lo <=? nat_of_ascii c)%nat && (nat_of_ascii c <=? hi)%nat.
Definition isAlpha (c : ascii) : bool := ascii_in c 65 90 || ascii_in c 97 122.
Definition isDigit (c : ascii) : bool := ascii_in c 48 57.
Definition isXDigit (c : ascii) : bool := isDigit c || ascii_in c 65 70 || ascii_in c 97 102.
Definition isWord (c : ascii) : bool := isAlpha c || isDigit c || Ascii.eqb c "_"%char.

Fixpoint forallAscii (f : ascii -> bool) (s : string) : bool :=
  match s with EmptyString => true | String c s => f c && forallAscii f s end.

(** [anchoredDigestRegexp]: components of letters and digits that start with a letter,
    separated by [-], [_], [+] or [.], a colon and at least 32 hexadecimal digits. *)
Fixpoint digestMatch (start : bool) (s : string) : bool :=
  match s with
  | EmptyString => false
  | String c s =>
      if start then isAlpha c && digestMatch false s
      else if isAlpha c || isDigit c then digestMatch false s
      else if Ascii.eqb c "-" || Ascii.eqb c "_" || Ascii.eqb c "+" || Ascii.eqb c "." then digestMatch true s
      else if Ascii.eqb c ":" then forallAscii isXDigit s && (32 <=? String.length s)%nat
      else false
  end.

(** [anchoredTagRegexp]. *)
Definition tagMatch (s : string) : bool :=
  match s with
  | EmptyString => false
  | String c s =>
      isWord c && forallAscii (fun c => isWord c || Ascii.eqb c "." || Ascii.eqb c "-") s
      && (String.length s <=? 127)%nat
  end.

Record repository := mkRepository { domain : string; path : string }.

Inductive Named :=
| NRepository (r : repository)
| NTagged (r : repository) (tag : string)
| NCanonical (r : repository) (digest : string)
| NReference (r : repository) (tag digest : string).

#[export] Instance repository_eq_dec : EqDecision repository.
Proof. solve_decision. Defined.
#[export] Instance Named_eq_dec : EqDecision Named.
Proof. solve_decision. Defined.

Definition repoOf (ref : Named) : repository :=
  match ref with NRepository r | NTagged r _ | NCanonical r _ | NReference r _ _ => r end.

Definition Name (r : repository) : string :=
  if (domain r =? "")%string then path r else domain r ++ "/" ++ path r.

(** [Named.String] *)
Definition RefString (ref : Named) : string :=
  match ref with
  | NRepository r => Name r
  | NTagged r t => Name r ++ ":" ++ t
  | NCanonical r d => Name r ++ "@" ++ d
  | NReference r t d => Name r ++ ":" ++ t ++ "@" ++ d
  end.

(** The type assertions to [Canonical] and to [Tagged] (or [NamedTagged]). *)
Definition asCanonical (ref : Named) : option string :=
  match ref with NCanonical _ d | NReference _ _ d => Some d | _ => None end.
Definition asTagged (ref : Named) : option string :=
  match ref with NTagged _ t | NReference _ t _ => Some t | _ => None end.

Definition familiarizeName (r : repository) : repository :=
  if (domain r =? "docker.io")%string then
    let p := path r in
    if String.prefix "library/" p then
      let remainder := substring 8 (String.length p - 8) p in
      if forallAscii (fun c => negb (Ascii.eqb c "/")) remainder then mkRepository "" remainder else mkRepository "" p
    else mkRepository "" p
  else r.

Definition Familiar (ref : Named) : Named :=
  match ref with
  | NRepository r => NRepository (familiarizeName r)
  | NTagged r t => NTagged (familiarizeName r) t
  | NCanonical r d => NCanonical (familiarizeName r) d
  | NReference r t d => NReference (familiarizeName r) t d
  end.

Definition FamiliarName (ref : Named) : string := Name (repoOf (Familiar ref)).
Definition FamiliarString (ref : Named) : string := RefString (Familiar ref).

Definition TrimNamed (ref : Named) : Named := NRepository (repoOf ref).

Definition WithDigest (name : Named) (d : string) : option Named :=
  if digestMatch true d then
    Some (match asTagged name with
          | Some t => NReference (repoOf name) t d
          | None => NCanonical (repoOf name) d
          end)
  else None.

(** [WithTag] accepts the default tag. *)
Definition TagNameOnly (ref : Named) : Named :=
  match ref with NRepository r => NTagged r "latest" | _ => ref end.

(** ** The store *)

Inductive RefErr :=
| ErrDoesNotExist | ErrDigestInvalidFormat | ErrInvalidTag | ErrConflictingTag | ErrSave | ErrLoad.

(** The file: the serialized [Repositories], the only exported field. *)
Inductive JsonFile :=
| FileMissing | FileUnreadable | FileContents (repositories : gmap string (gmap string string)).

(** A nil [repository] and an empty one answer every read alike, and [addReference]
    replaces a nil one with an empty one, so both are the empty map here. *)
Record refStore := mkRefStore {
  Repositories : gmap string (gmap string string);
  referencesByIDCache : gmap string (gmap string Named);
  jsonFile : JsonFile
}.

(** [save]: [ok] tells whether the file could be written. *)
Definition save (ok : bool) (store : refStore) : refStore * option RefErr :=
  if ok then (mkRefStore (Repositories store) (referencesByIDCache store) (FileContents (Repositories store)), None)
  else (store, Some ErrSave).

Definition favorDigest (originalRef : Named) : RefErr + Named :=
  match asCanonical originalRef, asTagged originalRef with
  | Some d, Some _ =>
      match WithDigest (TrimNamed originalRef) d with
      | Some trimmed => inr trimmed
      | None => inl ErrDigestInvalidFormat
      end
  | _, _ => inr originalRef
  end.

(** [delete(store.referencesByIDCache[id], refStr)] and the removal of an empty entry. *)
Definition uncache (id refStr : string) (cache : gmap string (gmap string Named)) : gmap string (gmap string Named) :=
  match cache !! id with
  | Some m =>
      let m' := delete refStr m in
      if bool_decide (size m' = 0%nat) then delete id cache else <[id := m']> cache
  | None => cache
  end.

(** [store.referencesByIDCache[id][refStr] = ref], with a new map if needed. *)
Definition cacheRef (id refStr : string) (ref : Named) (cache : gmap string (gmap string Named)) :=
  <[id := <[refStr := ref]> (default ∅ (cache !! id))]> cache.

(** The part of [addReference] after the lookup of the old entry. *)
Definition writeReference (ok : bool) (store : refStore) (repos : gmap string (gmap string string))
  (cache : gmap string (gmap string Named)) (refName refStr : string) (ref : Named) (id : string)
  : refStore * option RefErr :=
  let repo := default ∅ (repos !! refName) in
  save ok (mkRefStore (<[refName := <[refStr := id]> repo]> repos) (cacheRef id refStr ref cache) (jsonFile store)).

Definition addReference (ok : bool) (store : refStore) (ref : Named) (id : string) (force : bool)
  : refStore * option RefErr :=
  match favorDigest ref with
  | inl e => (store, Some e)
  | inr ref =>
      let refName := FamiliarName ref in
      let refStr := FamiliarString ref in
      if (refName =? "sha256")%string then (store, Some ErrInvalidTag)
      else
        let repos := match Repositories store !! refName with
                     | Some _ => Repositories store
                     | None => <[refName := ∅]> (Repositories store)
                     end in
        let store := mkRefStore repos (referencesByIDCache store) (jsonFile store) in
        match default ∅ (repos !! refName) !! refStr with
        | Some oldID =>
            if (oldID =? id)%string then (store, None)
            else if bool_decide (is_Some (asCanonical ref)) then (store, Some ErrConflictingTag)
            else if negb force then (store, Some ErrConflictingTag)
            else writeReference ok store repos (uncache oldID refStr (referencesByIDCache store)) refName refStr ref id
        | None => writeReference ok store repos (referencesByIDCache store) refName refStr ref id
        end
  end.

Definition AddTag (ok : bool) (store : refStore) (ref : Named) (id : string) (force : bool) : refStore * option RefErr :=
  match asCanonical ref with
  | Some _ => (store, Some ErrInvalidTag)
  | None => addReference ok store (TagNameOnly ref) id force
  end.

(** The argument of [AddDigest] is a [Canonical]. *)
Definition AddDigest (ok : bool) (store : refStore) (ref : Named) (id : string) (force : bool) : refStore * option RefErr :=
  addReference ok store ref id force.

Definition Delete (ok : bool) (store : refStore) (ref : Named) : refStore * (bool * option RefErr) :=
  match favorDigest ref with
  | inl e => (store, (false, Some e))
  | inr ref =>
      let ref := TagNameOnly ref in
      let refName := FamiliarName ref in
      let refStr := FamiliarString ref in
      match Repositories store !! refName with
      | None => (store, (false, Some ErrDoesNotExist))
      | Some repo =>
          match repo !! refStr with
          | Some id =>
              let repo := delete refStr repo in
              let repos := if bool_decide (size repo = 0%nat) then delete refName (Repositories store)
                           else <[refName := repo]> (Repositories store) in
              let '(store, err) := save ok (mkRefStore repos (uncache id refStr (referencesByIDCache store)) (jsonFile store)) in
              (store, (true, err))
          | None => (store, (false, Some ErrDoesNotExist))
          end
      end
  end.

Definition Get (store : refStore) (ref : Named) : go_result RefErr string :=
  let lookupRef ref :=
    match Repositories store !! FamiliarName ref with
    | None => GoErr ErrDoesNotExist
    | Some repo =>
        match repo !! FamiliarString ref with
        | None => GoErr ErrDoesNotExist
        | Some id => GoOk id
        end
    end in
  match asCanonical ref with
  | Some d =>
      match asTagged ref with
      | Some _ =>
          match WithDigest (TrimNamed ref) d with
          | Some ref => lookupRef ref
          | None => GoErr ErrDigestInvalidFormat
          end
      | None => lookupRef ref
      end
  | None => lookupRef (TagNameOnly ref)
  end.

(** [lexicalRefs] and [lexicalAssociations]. *)
Definition lexicalRefs (a b : Named) : Prop := String.leb (RefString a) (RefString b) = true.
Definition lexicalAssociations (a b : Named * string) : Prop := lexicalRefs a.1 b.1.

#[export] Instance lexicalRefs_dec : RelDecision lexicalRefs.
Proof. intros a b. unfold lexicalRefs. apply _. Defined.
#[export] Instance lexicalAssociations_dec : RelDecision lexicalAssociations.
Proof. intros a b. unfold lexicalAssociations. apply _. Defined.

Definition References (store : refStore) (id : string) : list Named :=
  merge_sort lexicalRefs (map_to_list (default ∅ (referencesByIDCache store !! id))).*2.

Section Parsing.
  (** [reference.ParseNormalizedNamed]. *)
  Context (ParseNormalizedNamed : string -> option Named).

Definition ReferencesByName (store : refStore) (ref : Named) : list (Named * string) :=
  match Repositories store !! FamiliarName ref with
  | None => []
  | Some repo =>
      match mapM (fun '(refStr, refID) => r ← ParseNormalizedNamed refStr; Some (r, refID)) (map_to_list repo) with
      | None => []
      | Some associations => merge_sort lexicalAssociations associations
      end
  end.

(** The body of the two loops of [reload]. *)
Definition reloadEntry (cache : gmap string (gmap string Named)) (entry : string * string) : gmap string (gmap string Named) :=
  match ParseNormalizedNamed entry.1 with
  | None => cache
  | Some ref => cacheRef entry.2 entry.1 ref cache
  end.

Definition reload (store : refStore) : go_result RefErr refStore :=
  match jsonFile store with
  | FileMissing | FileUnreadable => GoErr ErrLoad
  | FileContents repositories =>
      GoOk (mkRefStore repositories
        (foldl (fun cache '(_, repo) => foldl reloadEntry cache (map_to_list repo))
           (referencesByIDCache store) (map_to_list repositories))
        (jsonFile store))
  end.

Definition NewReferenceStore (ok : bool) (file : JsonFile) : go_result RefErr refStore :=
  let store := mkRefStore ∅ ∅ file in
  match file with
  | FileMissing =>
      match save ok store with
      | (store, None) => GoOk store
      | (_, Some e) => GoErr e
      end
  | _ => reload store
  end.

End Parsing.
