(* ===== verification/RefStoreTheorems.v ===== *)
(** * Correctness of the reference store

    The abstract specification is one finite map from the familiar form of a reference to
    an image identifier.  The store, with its two levels of maps and its cache, refines
    it; a reload of the saved file gives back the same map and the same cache. *)

From Stdlib Require Import Ascii String.
From stdpp Require Import gmap strings sorting.
From S2P Require Import Prelude RefStore.

Local Open Scope string_scope.

(** ** Two-level maps *)

Section TwoLevel.
  Context {A : Type}.
  Implicit Types m : gmap string (gmap string A).

Definition lk2 m (a b : string) : option A := m !! a ≫= fun i => i !! b.

Definition full2 m : Prop := forall a i, m !! a = Some i -> i <> ∅.

Lemma lk2_empty a b : lk2 ∅ a b = None.
Proof. done. Qed.

Lemma lk2_default m a b : default ∅ (m !! a) !! b = lk2 m a b.
Proof. unfold lk2. destruct (m !! a); [done|]. apply lookup_empty. Qed.

Lemma lk2_insert m a b v a' b' :
  lk2 (<[a := <[b := v]> (default ∅ (m !! a))]> m) a' b'
  = if decide (a = a' /\ b = b') then Some v else lk2 m a' b'.
Proof.
  unfold lk2 at 1. destruct (decide (a = a')) as [<-|Hne].
  - rewrite lookup_insert_eq. simpl. destruct (decide (b = b')) as [<-|].
    + rewrite lookup_insert_eq. by rewrite decide_True.
    + rewrite lookup_insert_ne, lk2_default, decide_False; [done|naive_solver|done].
  - rewrite lookup_insert_ne by done. by rewrite decide_False by naive_solver.
Qed.

Lemma full2_insert m a b v : full2 m -> full2 (<[a := <[b := v]> (default ∅ (m !! a))]> m).
Proof.
  intros Hf a' i. rewrite lookup_insert_Some. intros [[_ <-]|[_ E]]; [apply insert_non_empty|by eapply Hf].
Qed.

Definition remove2 m a b i : gmap string (gmap string A) :=
  if bool_decide (size (delete b i) = 0%nat) then delete a m else <[a := delete b i]> m.

Lemma lk2_remove m a b i a' b' :
  m !! a = Some i -> lk2 (remove2 m a b i) a' b' = if decide (a = a' /\ b = b') then None else lk2 m a' b'.
Proof.
  intros Hi. unfold lk2 at 1, remove2. destruct (decide (a = a')) as [<-|Hne].
  - case_bool_decide as Hs.
    + apply map_size_empty_iff in Hs. rewrite lookup_delete_eq. simpl. destruct (decide _) as [|Hn]; [done|].
      unfold lk2. rewrite Hi. simpl. assert (b <> b') as Hb by naive_solver.
      rewrite <- (lookup_delete_ne i b b' Hb), Hs. by rewrite lookup_empty.
    + rewrite lookup_insert_eq. simpl. unfold lk2. rewrite Hi. simpl. destruct (decide (b = b')) as [<-|].
      * by rewrite lookup_delete_eq, decide_True.
      * rewrite lookup_delete_ne, decide_False; [done|naive_solver|done].
  - rewrite decide_False by naive_solver. unfold lk2. case_bool_decide.
    + by rewrite lookup_delete_ne.
    + by rewrite lookup_insert_ne.
Qed.

Lemma full2_remove m a b i : full2 m -> full2 (remove2 m a b i).
Proof.
  intros Hf a' j. unfold remove2. case_bool_decide as Hs.
  - rewrite lookup_delete_Some. intros [_ E]. by eapply Hf.
  - rewrite lookup_insert_Some. intros [[_ <-]|[_ E]]; [|by eapply Hf]. by apply map_size_non_empty_iff in Hs.
Qed.

Lemma full2_empty : full2 ∅.
Proof. intros a i. by rewrite lookup_empty. Qed.

End TwoLevel.

(** ** Familiar forms *)

Abbreviation no_char c := (forallAscii (fun x => negb (Ascii.eqb x c))).

Definition wf_ref (ref : Named) : bool :=
  no_char "@" (domain (repoOf ref)) && no_char "@" (path (repoOf ref))
  && match asTagged ref with Some t => tagMatch t | None => true end
  && match asCanonical ref with Some d => digestMatch true d | None => true end.

(** What the store holds: a tag or a digest, not both and not neither. *)
Definition stored (ref : Named) : bool :=
  match ref with NTagged _ _ | NCanonical _ _ => true | _ => false end.

Lemma forallAscii_app f s t : forallAscii f (s ++ t) = forallAscii f s && forallAscii f t.
Proof. induction s as [|c s IH]; simpl; [done|]. by rewrite IH, andb_assoc. Qed.

Lemma forallAscii_impl (f g : ascii -> bool) s :
  (forall c, f c = true -> g c = true) -> forallAscii f s = true -> forallAscii g s = true.
Proof. intros Hi. induction s as [|c s IH]; simpl; [done|]. intros [? ?]%andb_true_iff. by rewrite Hi, IH. Qed.

Lemma app_inj_first c s1 s2 t1 t2 :
  no_char c s1 = true -> no_char c s2 = true -> s1 ++ String c t1 = s2 ++ String c t2 -> s1 = s2 /\ t1 = t2.
Proof.
  revert s2. induction s1 as [|x s1 IH]; intros [|y s2]; simpl; intros H1 H2 E.
  - by injection E.
  - injection E as <- E. by rewrite Ascii.eqb_refl in H2.
  - injection E as -> E. by rewrite Ascii.eqb_refl in H1.
  - injection E as <- E. apply andb_true_iff in H1 as [_ H1], H2 as [_ H2].
    destruct (IH s2 H1 H2 E) as [-> ->]. done.
Qed.

Lemma app_inj_last c s1 s2 t1 t2 :
  no_char c t1 = true -> no_char c t2 = true -> s1 ++ String c t1 = s2 ++ String c t2 -> s1 = s2 /\ t1 = t2.
Proof.
  revert s2. induction s1 as [|x s1 IH]; intros [|y s2]; simpl; intros H1 H2 E.
  - by injection E.
  - injection E as <- E. subst t1. rewrite forallAscii_app in H1. simpl in H1.
    rewrite Ascii.eqb_refl in H1. by rewrite andb_false_r in H1.
  - injection E as -> E. subst t2. rewrite forallAscii_app in H2. simpl in H2.
    rewrite Ascii.eqb_refl in H2. by rewrite andb_false_r in H2.
  - injection E as <- E. destruct (IH s2 H1 H2 E) as [-> ->]. done.
Qed.

Lemma word_no_sep c : isWord c || Ascii.eqb c "." || Ascii.eqb c "-" = true ->
  negb (Ascii.eqb c "@") = true /\ negb (Ascii.eqb c ":") = true.
Proof. destruct c as [[] [] [] [] [] [] [] []]; vm_compute; done. Qed.

Lemma tagMatch_no_sep t : tagMatch t = true -> no_char "@" t = true /\ no_char ":" t = true.
Proof.
  destruct t as [|c t]; simpl; [done|]. intros [[Hc Ht]%andb_true_iff _]%andb_true_iff.
  destruct (word_no_sep c) as [-> ->]; [by rewrite Hc|]. simpl.
  split; (eapply forallAscii_impl; [|exact Ht]); intros x Hx; by apply word_no_sep.
Qed.

Lemma substring_forall f n m s : forallAscii f s = true -> forallAscii f (substring n m s) = true.
Proof.
  revert n m. induction s as [|c s IH]; intros [|n] [|m]; simpl; try done; intros [Hc Hs]%andb_true_iff; [|by apply IH..].
  by rewrite Hc, IH.
Qed.

Lemma familiar_no_at ref : wf_ref ref = true -> no_char "@" (FamiliarName ref) = true.
Proof.
  unfold wf_ref. intros [[[Hd Hp]%andb_true_iff _]%andb_true_iff _]%andb_true_iff.
  assert (Hr : repoOf (Familiar ref) = familiarizeName (repoOf ref)) by (by destruct ref).
  unfold FamiliarName, Name. rewrite Hr. unfold familiarizeName.
  destruct (String.eqb (domain (repoOf ref)) "docker.io").
  - destruct (String.prefix _ _); [|done]. destruct (no_char "/" _); simpl; [by apply substring_forall|done].
  - destruct (String.eqb _ _); [done|]. rewrite !forallAscii_app, Hd, Hp. done.
Qed.

Lemma FamiliarString_stored ref : stored ref = true ->
  match ref with
  | NTagged _ t => FamiliarString ref = FamiliarName ref ++ String ":" t
  | NCanonical _ d => FamiliarString ref = FamiliarName ref ++ String "@" d
  | _ => False
  end.
Proof. by destruct ref. Qed.

(** The familiar form of a stored reference determines the repository and the kind. *)
Lemma familiar_inj r1 r2 :
  wf_ref r1 = true -> wf_ref r2 = true -> stored r1 = true -> stored r2 = true ->
  FamiliarString r1 = FamiliarString r2 ->
  FamiliarName r1 = FamiliarName r2 /\ asCanonical r1 = asCanonical r2 /\ asTagged r1 = asTagged r2.
Proof.
  intros W1 W2 S1 S2 E. pose proof (familiar_no_at r1 W1) as N1. pose proof (familiar_no_at r2 W2) as N2.
  pose proof (FamiliarString_stored r1 S1) as F1. pose proof (FamiliarString_stored r2 S2) as F2.
  unfold wf_ref in W1, W2. apply andb_true_iff in W1 as [[_ T1]%andb_true_iff _], W2 as [[_ T2]%andb_true_iff _].
  assert (Hmix : forall n1 n2 t d, no_char "@" n1 = true -> tagMatch t = true ->
    n1 ++ String ":" t = n2 ++ String "@" d -> False).
  { intros n1 n2 t d Hn Ht He. apply (f_equal (no_char "@")) in He. rewrite !forallAscii_app in He. simpl in He.
    destruct (tagMatch_no_sep t Ht) as [Ha _]. rewrite Hn, Ha, andb_false_r in He. done. }
  destruct r1 as [|p1 t1|p1 d1|], r2 as [|p2 t2|p2 d2|]; try done; simpl in T1, T2; rewrite F1, F2 in E.
  - apply app_inj_last in E as [-> ->]; [done|by apply tagMatch_no_sep..].
  - by apply Hmix in E.
  - symmetry in E. by apply Hmix in E.
  - apply app_inj_first in E as [-> ->]; done.
Qed.

(** ** The specification *)

Inductive RefOp :=
| OpAddTag (ref : Named) (id : string) (force : bool)
| OpAddDigest (ref : Named) (id : string) (force : bool)
| OpDelete (ref : Named).

Abbreviation spec_state := (gmap string string).
Abbreviation spec_result := (bool * option RefErr)%type.

(** A digest takes precedence over a tag, and a bare name means the tag [latest]. *)
Definition spec_key (ref : Named) : Named :=
  match ref with NRepository r => NTagged r "latest" | NReference r _ d => NCanonical r d | _ => ref end.

Definition spec_save (ok : bool) : option RefErr := if ok then None else Some ErrSave.

Definition spec_add (ok : bool) (a : spec_state) (ref : Named) (id : string) (force : bool) : spec_state * spec_result :=
  if (FamiliarName ref =? "sha256")%string then (a, (false, Some ErrInvalidTag))
  else match a !! FamiliarString ref with
       | Some old =>
           if (old =? id)%string then (a, (false, None))
           else if bool_decide (is_Some (asCanonical ref)) || negb force then (a, (false, Some ErrConflictingTag))
           else (<[FamiliarString ref := id]> a, (false, spec_save ok))
       | None => (<[FamiliarString ref := id]> a, (false, spec_save ok))
       end.

Definition spec_op (ok : bool) (a : spec_state) (op : RefOp) : spec_state * spec_result :=
  match op with
  | OpAddTag ref id force =>
      match asCanonical ref with
      | Some _ => (a, (false, Some ErrInvalidTag))
      | None => spec_add ok a (spec_key ref) id force
      end
  | OpAddDigest ref id force => spec_add ok a (spec_key ref) id force
  | OpDelete ref =>
      match a !! FamiliarString (spec_key ref) with
      | Some _ => (delete (FamiliarString (spec_key ref)) a, (true, spec_save ok))
      | None => (a, (false, Some ErrDoesNotExist))
      end
  end.

Definition run_op (ok : bool) (s : refStore) (op : RefOp) : refStore * spec_result :=
  match op with
  | OpAddTag ref id force => let '(s', e) := AddTag ok s ref id force in (s', (false, e))
  | OpAddDigest ref id force => let '(s', e) := AddDigest ok s ref id force in (s', (false, e))
  | OpDelete ref => Delete ok s ref
  end.

(** Well-formed references; [AddDigest] takes a [Canonical]. *)
Definition wf_op (op : RefOp) : bool :=
  match op with
  | OpAddTag ref _ _ | OpDelete ref => wf_ref ref
  | OpAddDigest ref _ _ => wf_ref ref && bool_decide (is_Some (asCanonical ref))
  end.

Fixpoint run_ops (s : refStore) (ops : list (bool * RefOp)) : refStore * list spec_result :=
  match ops with
  | [] => (s, [])
  | (ok, op) :: ops => let '(s1, r) := run_op ok s op in let '(s2, rs) := run_ops s1 ops in (s2, r :: rs)
  end.

Fixpoint spec_ops (a : spec_state) (ops : list (bool * RefOp)) : spec_state * list spec_result :=
  match ops with
  | [] => (a, [])
  | (ok, op) :: ops => let '(a1, r) := spec_op ok a op in let '(a2, rs) := spec_ops a1 ops in (a2, r :: rs)
  end.

(** ** The refinement relation *)

Definition names (str name : string) : Prop :=
  exists r, stored r = true /\ wf_ref r = true /\ FamiliarName r = name /\ FamiliarString r = str.

Record refines (s : refStore) (a : spec_state) : Prop := {
  rf_entries : forall name str id,
    lk2 (Repositories s) name str = Some id <-> a !! str = Some id /\ names str name;
  rf_names : forall str id, a !! str = Some id -> exists name, names str name;
  rf_cache : forall id str, is_Some (lk2 (referencesByIDCache s) id str) <-> a !! str = Some id;
  rf_cached : forall id str ref, lk2 (referencesByIDCache s) id str = Some ref ->
    stored ref = true /\ wf_ref ref = true /\ FamiliarString ref = str;
  rf_full : full2 (Repositories s);
  rf_full_cache : full2 (referencesByIDCache s)
}.

Lemma names_fun str n1 n2 : names str n1 -> names str n2 -> n1 = n2.
Proof. intros (r1&?&?&<-&E1) (r2&?&?&<-&E2). apply familiar_inj; congruence. Qed.

Lemma refines_lookup s a ref :
  refines s a -> stored ref = true -> wf_ref ref = true ->
  lk2 (Repositories s) (FamiliarName ref) (FamiliarString ref) = a !! FamiliarString ref.
Proof.
  intros R S W. apply option_eq. intros id. rewrite (rf_entries s a R). split; [by intros [? _]|].
  intros E. split; [done|]. by exists ref.
Qed.

Lemma refines_file s a f : refines s a -> refines (mkRefStore (Repositories s) (referencesByIDCache s) f) a.
Proof. intros []. by constructor. Qed.

Lemma refines_save ok s a : refines s a -> refines (save ok s).1 a /\ (save ok s).2 = spec_save ok.
Proof. intros R. destruct ok; simpl; [|done]. split; [by apply refines_file|done]. Qed.

Lemma uncache_remove id str c : uncache id str c = match c !! id with Some i => remove2 c id str i | None => c end.
Proof. done. Qed.

Lemma lk2_uncache id str c id' str' :
  lk2 (uncache id str c) id' str' = if decide (id = id' /\ str = str') then None else lk2 c id' str'.
Proof.
  rewrite uncache_remove. destruct (c !! id) as [i|] eqn:E; [by apply lk2_remove|].
  destruct (decide _) as [[<- <-]|]; [|done]. unfold lk2. by rewrite E.
Qed.

Lemma full2_uncache id str c : full2 c -> full2 (uncache id str c).
Proof. intros Hf. rewrite uncache_remove. destruct (c !! id); [by apply full2_remove|done]. Qed.

(** Writing an entry, with the old one removed from the cache first. *)
Lemma refines_write s a ref id cache f :
  refines s a -> stored ref = true -> wf_ref ref = true ->
  (forall id' str', is_Some (lk2 cache id' str') <-> a !! str' = Some id' /\ str' <> FamiliarString ref) ->
  (forall id' str' r, lk2 cache id' str' = Some r -> lk2 (referencesByIDCache s) id' str' = Some r) ->
  full2 cache ->
  let repos := Repositories s in
  refines (mkRefStore (<[FamiliarName ref := <[FamiliarString ref := id]> (default ∅ (repos !! FamiliarName ref))]> repos)
             (cacheRef id (FamiliarString ref) ref cache) f)
    (<[FamiliarString ref := id]> a).
Proof.
  intros R S W Hc Hsub Hf. destruct R as [R1 R2 R3 R4 R5 R6].
  assert (Hn : names (FamiliarString ref) (FamiliarName ref)) by (by exists ref).
  constructor; cbn [Repositories referencesByIDCache].
  - intros name str id'. rewrite lk2_insert, lookup_insert_Some.
    destruct (decide _) as [[<- <-]|Hne].
    + split; [intros [= ->]; split; [by left|done]|]. by intros [[[_ ->]|[? _]] _].
    + rewrite R1. split; [|intros [[[<- _]|[? ?]] Hx]; [|done]].
      * intros [E Hx]. split; [|done]. right. split; [|done]. intros <-. apply Hne. split; [|done]. by eapply names_fun.
      * destruct Hne. split; [|done]. by eapply names_fun.
  - intros str id'. rewrite lookup_insert_Some. intros [[<- _]|[_ E]]; [by eexists|by eapply R2].
  - intros id' str. unfold cacheRef. rewrite lk2_insert, lookup_insert_Some. destruct (decide _) as [[<- <-]|Hne].
    + split; [intros _; by left|intros _; by eexists].
    + rewrite Hc. split; [intros [? ?]; right; split; [congruence|done]|]. intros [[<- <-]|[? ?]]; [by destruct Hne|done].
  - intros id' str r. unfold cacheRef. rewrite lk2_insert. destruct (decide _) as [[<- <-]|Hne].
    + by intros [= <-].
    + intros E%Hsub. by eapply R4.
  - by apply full2_insert.
  - by apply full2_insert.
Qed.

Lemma refines_add ok s a ref id force :
  refines s a -> stored ref = true -> wf_ref ref = true ->
  let '(s', e) := addReference ok s ref id force in
  let '(a', r) := spec_add ok a ref id force in
  r = (false, e) /\ refines s' a'.
Proof.
  intros R S W. unfold addReference, spec_add.
  assert (Hfav : favorDigest ref = inr ref) by (by destruct ref). rewrite Hfav. cbv zeta.
  destruct (String.eqb (FamiliarName ref) "sha256"); [done|].
  pose proof (refines_lookup s a ref R S W) as Hl.
  set (repos := match Repositories s !! FamiliarName ref with Some _ => _ | None => _ end).
  assert (Hrepos : forall v, <[FamiliarName ref := v]> repos = <[FamiliarName ref := v]> (Repositories s)).
  { intros v. subst repos. destruct (Repositories s !! FamiliarName ref); [done|]. apply insert_insert_eq. }
  assert (Hdef : default ∅ (repos !! FamiliarName ref) = default ∅ (Repositories s !! FamiliarName ref)).
  { subst repos. destruct (Repositories s !! FamiliarName ref) as [i|] eqn:E; [by rewrite E|]. by rewrite lookup_insert_eq. }
  assert (Hsame : forall old, a !! FamiliarString ref = Some old -> repos = Repositories s).
  { intros old E. subst repos. unfold lk2 in Hl. rewrite E in Hl. by destruct (Repositories s !! FamiliarName ref). }
  rewrite Hdef, lk2_default, Hl. destruct (a !! FamiliarString ref) as [old|] eqn:Ea.
  - rewrite (Hsame old eq_refl). pose proof (refines_file s a (jsonFile s) R) as R'.
    destruct (String.eqb_spec old id) as [->|Hne]; [done|].
    destruct (bool_decide (is_Some (asCanonical ref))); [done|]. destruct force; [|done]. simpl.
    unfold writeReference. cbv zeta.
    match goal with |- context [save ok ?x] => destruct (refines_save ok x (<[FamiliarString ref := id]> a)) as [H1 H2] end;
      [|destruct (save ok _); simpl in *; by rewrite H2].
    apply refines_write; try done.
    + intros id' str'. rewrite lk2_uncache. destruct (decide _) as [[<- <-]|Hx].
      * split; [by intros [? ?]|by intros [_ ?]].
      * rewrite (rf_cache s a R). split; [|by intros [? _]]. intros E. split; [done|]. intros ->.
        apply Hx. split; congruence.
    + intros id' str' r. rewrite lk2_uncache. by destruct (decide _).
    + apply full2_uncache, R.
  - unfold writeReference. cbv zeta. rewrite Hdef, Hrepos. cbn [referencesByIDCache jsonFile].
    match goal with |- context [save ok ?x] => destruct (refines_save ok x (<[FamiliarString ref := id]> a)) as [H1 H2] end;
      [|destruct (save ok _); simpl in *; by rewrite H2].
    apply refines_write; try done; [|by apply R].
    intros id' str'. rewrite (rf_cache s a R). split; [|by intros [? _]]. intros E. split; [done|]. intros ->. congruence.
Qed.

Lemma favor_key ref :
  wf_ref ref = true ->
  exists r, favorDigest ref = inr r /\ TagNameOnly r = spec_key ref /\ (is_Some (asCanonical ref) -> r = spec_key ref).
Proof.
  unfold wf_ref. intros [_ Hd]%andb_true_iff. destruct ref as [p|p t|p d|p t d]; simpl in *.
  - eexists. split_and!; [done..|by intros []].
  - by eexists.
  - by eexists.
  - unfold favorDigest. simpl. unfold WithDigest. rewrite Hd. by eexists.
Qed.

Lemma key_ok ref : wf_ref ref = true -> stored (spec_key ref) = true /\ wf_ref (spec_key ref) = true.
Proof.
  intros H. split; [by destruct ref|]. unfold wf_ref in *.
  apply andb_true_iff in H as [[H Ht]%andb_true_iff Hd].
  destruct ref; cbn [spec_key repoOf asTagged asCanonical] in *; rewrite H; [done|by rewrite Ht|by rewrite Hd|by rewrite Hd].
Qed.

Lemma refines_delete ok s a ref :
  refines s a -> wf_ref ref = true ->
  let '(s', r) := Delete ok s ref in
  let '(a', r') := spec_op ok a (OpDelete ref) in
  r = r' /\ refines s' a'.
Proof.
  intros R W. destruct (favor_key ref W) as (r&Hfav&Hkey&_). destruct (key_ok ref W) as [S W'].
  unfold Delete. rewrite Hfav, Hkey. cbv zeta. cbn [spec_op]. set (k := spec_key ref) in *.
  pose proof (refines_lookup s a k R S W') as Hl. rewrite <- Hl. unfold lk2.
  destruct (Repositories s !! FamiliarName k) as [repo|] eqn:Er; simpl; [|done].
  destruct (repo !! FamiliarString k) as [id|] eqn:Ei; [|done].
  unfold lk2 in Hl. rewrite Er in Hl. simpl in Hl. rewrite Ei in Hl.
  match goal with |- context [save ok ?x] => destruct (refines_save ok x (delete (FamiliarString k) a)) as [H1 H2] end;
    [|destruct (save ok _); simpl in *; by rewrite H2].
  change (if bool_decide _ then _ else _) with (remove2 (Repositories s) (FamiliarName k) (FamiliarString k) repo).
  destruct R as [R1 R2 R3 R4 R5 R6]. constructor; cbn [Repositories referencesByIDCache].
  - intros name str id'. rewrite lk2_remove by done. rewrite lookup_delete_Some. destruct (decide _) as [[<- <-]|Hne].
    + split; [done|]. by intros [[? _] _].
    + rewrite R1. split; [|intros [[_ ?] ?]; done]. intros [E Hn]. split; [|done]. split; [|done].
      intros <-. apply Hne. split; [|done]. eapply names_fun; [|done]. by exists k.
  - intros str id'. rewrite lookup_delete_Some. intros [_ E]. by eapply R2.
  - intros id' str. rewrite lk2_uncache, lookup_delete_Some. destruct (decide _) as [[<- <-]|Hne].
    + split; [by intros [? ?]|by intros [? _]].
    + rewrite R3. split; [|by intros [_ ?]]. intros E. split; [|done]. intros <-. apply Hne. split; congruence.
  - intros id' str r'. rewrite lk2_uncache. destruct (decide _); [done|]. apply R4.
  - by apply full2_remove.
  - by apply full2_uncache.
Qed.

Lemma refines_op ok s a op :
  refines s a -> wf_op op = true ->
  let '(s', r) := run_op ok s op in
  let '(a', r') := spec_op ok a op in
  r = r' /\ refines s' a'.
Proof.
  intros R W. destruct op as [ref id force|ref id force|ref]; cbn [run_op wf_op] in *.
  - cbn [spec_op]. unfold AddTag. destruct (asCanonical ref) as [d|] eqn:Ec; [done|].
    assert (Hk : TagNameOnly ref = spec_key ref) by (by destruct ref). rewrite Hk.
    destruct (key_ok ref W) as [S W']. pose proof (refines_add ok s a (spec_key ref) id force R S W') as H. revert H.
    destruct (addReference ok s (spec_key ref) id force), (spec_add ok a (spec_key ref) id force). by intros [-> ?].
  - apply andb_true_iff in W as [W Hc]. apply bool_decide_eq_true in Hc. cbn [spec_op]. unfold AddDigest.
    destruct (favor_key ref W) as (r&Hfav&_&Hkey). specialize (Hkey Hc). subst r. destruct (key_ok ref W) as [S W'].
    assert (Hadd : addReference ok s ref id force = addReference ok s (spec_key ref) id force).
    { unfold addReference. rewrite Hfav. by replace (favorDigest (spec_key ref)) with (@inr RefErr Named (spec_key ref)) by (by destruct ref). }
    rewrite Hadd. pose proof (refines_add ok s a (spec_key ref) id force R S W') as H. revert H.
    destruct (addReference ok s (spec_key ref) id force), (spec_add ok a (spec_key ref) id force). by intros [-> ?].
  - by apply refines_delete.
Qed.

Lemma refines_empty f : refines (mkRefStore ∅ ∅ f) ∅.
Proof.
  constructor; cbn [Repositories referencesByIDCache]; try apply full2_empty.
  - intros name str id. rewrite lk2_empty, lookup_empty. naive_solver.
  - done.
  - intros id str. rewrite lk2_empty, lookup_empty. split; [by intros []|done].
  - done.
Qed.

Lemma refines_ops ops s a :
  refines s a -> forallb (fun x => wf_op x.2) ops = true ->
  (run_ops s ops).2 = (spec_ops a ops).2 /\ refines (run_ops s ops).1 (spec_ops a ops).1.
Proof.
  revert s a. induction ops as [|[ok op] ops IH]; intros s a R W; [done|]. cbn [run_ops spec_ops].
  simpl in W. apply andb_true_iff in W as [W1 W2]. pose proof (refines_op ok s a op R W1) as H.
  destruct (run_op ok s op) as [s1 r], (spec_op ok a op) as [a1 r']. destruct H as [-> R1].
  destruct (IH s1 a1 R1 W2) as [E1 E2].
  destruct (run_ops s1 ops), (spec_ops a1 ops). simpl in *. by rewrite E1.
Qed.

(** ** Queries *)

Lemma Get_refines s a ref :
  refines s a -> wf_ref ref = true ->
  Get s ref = match a !! FamiliarString (spec_key ref) with Some id => GoOk id | None => GoErr ErrDoesNotExist end.
Proof.
  intros R W. destruct (key_ok ref W) as [S W']. pose proof (refines_lookup s a (spec_key ref) R S W') as Hl.
  assert (Hlook : match Repositories s !! FamiliarName (spec_key ref) with
    | Some repo => match repo !! FamiliarString (spec_key ref) with Some id => GoOk id | None => GoErr ErrDoesNotExist end
    | None => GoErr ErrDoesNotExist end
    = match a !! FamiliarString (spec_key ref) with Some id => GoOk id | None => GoErr ErrDoesNotExist end).
  { rewrite <- Hl. unfold lk2. by destruct (Repositories s !! _). }
  rewrite <- Hlook. unfold wf_ref in W. apply andb_true_iff in W as [_ Hd]. unfold Get.
  destruct ref as [p|p t|p d|p t d]; try done. cbn [asCanonical asTagged] in *. unfold WithDigest. by rewrite Hd.
Qed.

#[export] Instance lexicalRefs_total : Total lexicalRefs.
Proof. intros a b. apply leb_total. Qed.
#[export] Instance lexicalAssociations_total : Total lexicalAssociations.
Proof. intros a b. apply lexicalRefs_total. Qed.

Lemma References_elem s id ref :
  ref ∈ References s id <-> exists str, lk2 (referencesByIDCache s) id str = Some ref.
Proof.
  unfold References. rewrite merge_sort_Permutation, list_elem_of_fmap. split.
  - intros ([str r]&->&H%elem_of_map_to_list). exists str. by rewrite <- lk2_default.
  - intros [str E]. exists (str, ref). split; [done|]. apply elem_of_map_to_list. by rewrite lk2_default.
Qed.

Lemma References_NoDup s a id : refines s a -> NoDup (FamiliarString <$> References s id).
Proof.
  intros R. unfold References. rewrite merge_sort_Permutation.
  assert (H : FamiliarString <$> (map_to_list (default ∅ (referencesByIDCache s !! id))).*2
              = (map_to_list (default ∅ (referencesByIDCache s !! id))).*1).
  { rewrite <- list_fmap_compose. apply list_fmap_ext. intros i [str r] E. simpl.
    apply (rf_cached s a R id str r). rewrite <- lk2_default.
    apply elem_of_map_to_list. by eapply list_elem_of_lookup_2. }
  rewrite H. apply NoDup_fst_map_to_list.
Qed.

(** ** Reloading the file *)

Section Reload.
  Context (ParseNormalizedNamed : string -> option Named).

Lemma lk2_cacheRef id str ref c id' str' :
  lk2 (cacheRef id str ref c) id' str' = if decide (id = id' /\ str = str') then Some ref else lk2 c id' str'.
Proof. apply lk2_insert. Qed.

Definition parsed_cache (c : gmap string (gmap string Named)) : Prop :=
  forall id str ref, lk2 c id str = Some ref -> ParseNormalizedNamed str = Some ref.

Lemma foldl_reload l c :
  parsed_cache c -> full2 c ->
  let c' := foldl (reloadEntry ParseNormalizedNamed) c l in
  parsed_cache c' /\ full2 c'
  /\ forall id str ref, lk2 c' id str = Some ref
       <-> lk2 c id str = Some ref \/ (str, id) ∈ l /\ ParseNormalizedNamed str = Some ref.
Proof.
  revert c. induction l as [|[str0 id0] l IH]; intros c Hp Hf; cbn [foldl].
  - split_and!; [done..|]. intros id str ref. rewrite elem_of_nil. naive_solver.
  - unfold reloadEntry at 2 4 6. cbn [fst snd]. destruct (ParseNormalizedNamed str0) as [r0|] eqn:E0.
    + destruct (IH (cacheRef id0 str0 r0 c)) as (H1&H2&H3).
      * intros id str ref. rewrite lk2_cacheRef. destruct (decide _) as [[_ <-]|]; [by intros [= <-]|apply Hp].
      * by apply full2_insert.
      * split_and!; [done..|]. intros id str ref. rewrite H3, lk2_cacheRef, elem_of_cons.
        destruct (decide (id0 = id /\ str0 = str)) as [[<- <-]|Hne]; [rewrite E0; pose proof (Hp id0 str0)|]; naive_solver.
    + destruct (IH c Hp Hf) as (H1&H2&H3). split_and!; [done..|]. intros id str ref. rewrite H3, elem_of_cons. naive_solver.
Qed.

Lemma foldl_reload_repos (l : list (string * gmap string string)) c :
  parsed_cache c -> full2 c ->
  let c' := foldl (fun cache '(_, repo) => foldl (reloadEntry ParseNormalizedNamed) cache (map_to_list repo)) c l in
  full2 c'
  /\ forall id str ref, lk2 c' id str = Some ref
       <-> lk2 c id str = Some ref
           \/ (exists name repo, (name, repo) ∈ l /\ repo !! str = Some id) /\ ParseNormalizedNamed str = Some ref.
Proof.
  revert c. induction l as [|[name repo] l IH]; intros c Hp Hf; cbn [foldl].
  - split; [done|]. intros id str ref. split; [by left|]. intros [?|[(?&?&[]%elem_of_nil&_) _]]; done.
  - destruct (foldl_reload (map_to_list repo) c Hp Hf) as (H1&H2&H3). destruct (IH _ H1 H2) as [H4 H5].
    split; [done|]. intros id str ref. rewrite H5, H3, elem_of_map_to_list. setoid_rewrite elem_of_cons. naive_solver.
Qed.

Lemma two_level_eq {A} (m1 m2 : gmap string (gmap string A)) :
  full2 m1 -> full2 m2 -> (forall a b, lk2 m1 a b = lk2 m2 a b) -> m1 = m2.
Proof.
  intros F1 F2 E. apply map_eq. intros a.
  destruct (m1 !! a) as [i1|] eqn:E1, (m2 !! a) as [i2|] eqn:E2; [f_equal; apply map_eq; intros b|exfalso..|done];
    unfold lk2 in E; pose proof (E a) as Ea; rewrite E1, E2 in Ea; simpl in Ea; [done|..].
  - apply (F1 a i1 E1), map_eq. intros b. by rewrite Ea, lookup_empty.
  - apply (F2 a i2 E2), map_eq. intros b. by rewrite <- Ea, lookup_empty.
Qed.

Lemma reload_same s a ok :
  refines s a -> jsonFile s = FileContents (Repositories s) ->
  (forall id ref, ref ∈ References s id -> ParseNormalizedNamed (FamiliarString ref) = Some ref) ->
  NewReferenceStore ParseNormalizedNamed ok (jsonFile s) = GoOk s.
Proof.
  intros R Hj Hparse. rewrite Hj. unfold NewReferenceStore, reload. cbn [jsonFile referencesByIDCache].
  destruct (foldl_reload_repos (map_to_list (Repositories s)) ∅) as [Hf Hl]; [done|apply full2_empty|].
  set (c' := foldl _ _ _) in *. replace c' with (referencesByIDCache s); [by destruct s; simpl in *; subst|].
  apply two_level_eq; [apply R|done|]. intros id str. apply option_eq. intros ref. rewrite Hl, lk2_empty.
  assert (Hent : (exists name repo, (name, repo) ∈ map_to_list (Repositories s) /\ repo !! str = Some id) <-> a !! str = Some id).
  { split.
    - intros (name&repo&Hm%elem_of_map_to_list&Hr). apply (rf_entries s a R name). unfold lk2. by rewrite Hm.
    - intros E. destruct (rf_names s a R str id E) as [name Hn].
      assert (Hx : lk2 (Repositories s) name str = Some id) by (by apply (rf_entries s a R)).
      unfold lk2 in Hx. destruct (Repositories s !! name) as [repo|] eqn:Er; [|done].
      exists name, repo. by rewrite elem_of_map_to_list. }
  rewrite Hent. rewrite <- (rf_cache s a R).
  assert (Hp : forall r, lk2 (referencesByIDCache s) id str = Some r -> ParseNormalizedNamed str = Some r).
  { intros r E. destruct (rf_cached s a R id str r E) as (_&_&<-). apply (Hparse id), References_elem. by eexists. }
  split; [intros E; right; split; [by eexists|by apply Hp]|]. intros [?|[[r E] E']]; [done|].
  rewrite (Hp r E) in E'. congruence.
Qed.

End Reload.

Definition saved (s : refStore) : Prop := jsonFile s = FileContents (Repositories s).

Lemma saved_op s op : saved s -> saved (run_op true s op).1.
Proof.
  intros Hs.
  assert (Hadd : forall ref id force, saved (addReference true s ref id force).1).
  { intros ref id force. unfold addReference. destruct (favorDigest ref) as [e|r]; [done|]. cbv zeta.
    destruct (String.eqb _ _); [done|].
    destruct (Repositories s !! FamiliarName r) as [repo|] eqn:Er.
    - destruct (default _ _ !! _); [|done]. destruct (String.eqb _ _); [done|].
      destruct (bool_decide _); [done|]. by destruct force.
    - assert (E : default ∅ (<[FamiliarName r := ∅]> (Repositories s) !! FamiliarName r) !! FamiliarString r = None)
        by (by rewrite lookup_insert_eq).
      by rewrite E. }
  destruct op as [ref id force|ref id force|ref]; cbn [run_op].
  - unfold AddTag. destruct (asCanonical ref); [done|]. specialize (Hadd (TagNameOnly ref) id force).
    by destruct (addReference _ _ _ _ _).
  - unfold AddDigest. specialize (Hadd ref id force). by destruct (addReference _ _ _ _ _).
  - unfold Delete. destruct (favorDigest ref); [done|]. cbv zeta. destruct (Repositories s !! _); [|done].
    by destruct (_ !! _).
Qed.

Lemma saved_ops ops s : forallb fst ops = true -> saved s -> saved (run_ops s ops).1.
Proof.
  revert s. induction ops as [|[ok op] ops IH]; intros s Hok Hs; [done|]. simpl in Hok. destruct ok; [|done].
  cbn [run_ops]. pose proof (saved_op s op Hs) as H1. destruct (run_op true s op) as [s1 r].
  pose proof (IH s1 Hok H1) as H2. by destruct (run_ops s1 ops).
Qed.

Definition freshStore : refStore := mkRefStore ∅ ∅ (FileContents ∅).

Lemma wf_run_refines ops :
  forallb (fun x => wf_op x.2) ops = true ->
  (run_ops freshStore ops).2 = (spec_ops ∅ ops).2 /\ refines (run_ops freshStore ops).1 (spec_ops ∅ ops).1.
Proof. apply refines_ops, refines_empty. Qed.

Lemma ReferencesByName_elem Parse s a ref0 ref id :
  refines s a ->
  (forall id ref, ref ∈ References s id -> Parse (FamiliarString ref) = Some ref) ->
  (ref, id) ∈ ReferencesByName Parse s ref0 <-> ref ∈ References s id /\ FamiliarName ref = FamiliarName ref0.
Proof.
  intros R Hparse.
  assert (Hent : forall str id', lk2 (Repositories s) (FamiliarName ref0) str = Some id' ->
    exists r, ((r ∈ References s id') /\ FamiliarName r = FamiliarName ref0) /\ FamiliarString r = str /\ Parse str = Some r).
  { intros str id' E. apply (rf_entries s a R) in E as [E Hn]. destruct (proj2 (rf_cache s a R id' str) E) as [r Er].
    destruct (rf_cached s a R id' str r Er) as (S&W&<-). exists r.
    assert (Hin : r ∈ References s id') by (apply References_elem; by eexists).
    split_and!; [done| |done|by eapply Hparse]. eapply names_fun; [|exact Hn]. by exists r. }
  unfold ReferencesByName. unfold lk2 in Hent. split.
  - destruct (Repositories s !! FamiliarName ref0) as [repo|]; [|intros []%elem_of_nil]. cbn [mbind option_bind] in Hent.
    destruct (mapM _ _) as [l|] eqn:Hm; [|intros []%elem_of_nil]. rewrite merge_sort_Permutation.
    intros Hin. apply mapM_Some_1 in Hm. destruct (list_elem_of_lookup_1 _ _ Hin) as [i Hi].
    destruct (Forall2_lookup_r _ _ _ _ _ Hm Hi) as ([str id']&Hs&Hx). simpl in Hx.
    apply list_elem_of_lookup_2, elem_of_map_to_list, Hent in Hs as (r&Hr&_&E). rewrite E in Hx. simpl in Hx.
    injection Hx as <- <-. done.
  - intros [Hin Hname]. pose proof Hin as [str Hc]%References_elem.
    destruct (rf_cached s a R id str ref Hc) as (S&W&<-).
    assert (Ha : a !! FamiliarString ref = Some id) by (apply (rf_cache s a R); by eexists).
    pose proof (refines_lookup s a ref R S W) as Hl. rewrite Ha, Hname in Hl. unfold lk2 in Hl.
    destruct (Repositories s !! FamiliarName ref0) as [repo|]; [|done]. cbn [mbind option_bind] in Hent, Hl.
    destruct (mapM _ _) as [l|] eqn:Hm.
    + rewrite merge_sort_Permutation. apply mapM_Some_1 in Hm.
      apply elem_of_map_to_list, list_elem_of_lookup_1 in Hl as [i Hi].
      destruct (Forall2_lookup_l _ _ _ _ _ Hm Hi) as (y&Hy&E). simpl in E. rewrite (Hparse id ref Hin) in E. simpl in E.
      injection E as <-. by eapply list_elem_of_lookup_2.
    + exfalso. apply mapM_None_1 in Hm. apply Exists_exists in Hm as ([str' id']&Hx&E).
      apply list_elem_of_In, elem_of_map_to_list, Hent in Hx as (r&_&_&Ep). by rewrite Ep in E.
Qed.

(** ** Theorems *)

(** C35: refinement: from a new store, any sequence of AddTag, AddDigest and Delete, with any of the
    writes to disk failing, returns the results of the one-map specification (a digest is
    never replaced, a tag only by force, a reference with a tag and a digest counts as its
    digest), and Get then answers what the map holds. *)
Theorem refstore_refines ops ref :
  forallb (fun x => wf_op x.2) ops = true -> wf_ref ref = true ->
  (run_ops freshStore ops).2 = (spec_ops ∅ ops).2
  /\ Get (run_ops freshStore ops).1 ref
     = match (spec_ops ∅ ops).1 !! FamiliarString (spec_key ref) with
       | Some id => GoOk id
       | None => GoErr ErrDoesNotExist
       end.
Proof.
  intros Hops Href. destruct (wf_run_refines ops Hops) as [Hr R]. split; [done|]. by apply Get_refines.
Qed.

Definition hub (name : string) : repository := mkRepository "docker.io" ("library/" ++ name).
Definition dig1 : string := "sha256:0123456789abcdef0123456789abcdef0123456789abcdef0123456789abcdef".
Definition ops_ex : list (bool * RefOp) :=
  [(true, OpAddTag (NRepository (hub "busybox")) "id1" false);
   (true, OpAddTag (NTagged (hub "busybox") "v2") "id1" false);
   (true, OpAddDigest (NReference (hub "busybox") "v2" dig1) "id2" false);
   (true, OpAddTag (NTagged (mkRepository "localhost:5000" "busybox") "v2") "id1" false);
   (true, OpAddTag (NTagged (hub "busybox") "v2") "id2" false);
   (true, OpAddTag (NTagged (hub "busybox") "v2") "id2" true);
   (true, OpDelete (NRepository (hub "busybox")))].

Lemma refstore_refines_witness :
  (run_ops freshStore ops_ex).2
  = [(false, None); (false, None); (false, None); (false, None); (false, Some ErrConflictingTag); (false, None); (true, None)]
  /\ Get (run_ops freshStore ops_ex).1 (NReference (hub "busybox") "v3" dig1) = GoOk "id2".
Proof.
  destruct (refstore_refines ops_ex (NReference (hub "busybox") "v3" dig1)) as [H1 H2]; [vm_compute; reflexivity..|].
  rewrite H1, H2. clear H1 H2. split; vm_compute; reflexivity.
Defined.

(** the two indexes agree: in every reachable store, References id is sorted, lists no familiar
    form twice, and lists exactly the stored references whose Get is id; ReferencesByName
    lists the same references grouped by repository name, when the parser reads the
    stored familiar forms back. *)
Theorem refstore_indexes Parse ops id ref0 :
  forallb (fun x => wf_op x.2) ops = true ->
  let s := (run_ops freshStore ops).1 in
  (forall id ref, ref ∈ References s id -> Parse (FamiliarString ref) = Some ref) ->
  Sorted lexicalRefs (References s id) /\ NoDup (FamiliarString <$> References s id)
  /\ (forall ref, ref ∈ References s id -> stored ref = true /\ Get s ref = GoOk id)
  /\ (forall ref, wf_ref ref = true -> Get s ref = GoOk id ->
        exists ref', ref' ∈ References s id /\ FamiliarString ref' = FamiliarString (spec_key ref))
  /\ (forall ref, (ref, id) ∈ ReferencesByName Parse s ref0
        <-> ref ∈ References s id /\ FamiliarName ref = FamiliarName ref0).
Proof.
  intros Hops s Hparse. destruct (wf_run_refines ops Hops) as [_ R]. fold s in R. split_and!.
  - apply Sorted_merge_sort, _.
  - by eapply References_NoDup.
  - intros ref [str E]%References_elem. destruct (rf_cached _ _ R _ _ _ E) as (S&W&Hs). split; [done|].
    rewrite (Get_refines s _ ref R W). replace (spec_key ref) with ref by (by destruct ref).
    assert (Ha : (spec_ops ∅ ops).1 !! str = Some id) by (apply (rf_cache _ _ R); by eexists). by rewrite Hs, Ha.
  - intros ref W Hg. rewrite (Get_refines s _ ref R W) in Hg.
    destruct ((spec_ops ∅ ops).1 !! _) as [id'|] eqn:Ea; [|done]. injection Hg as ->.
    apply (rf_cache _ _ R) in Ea as [r Er]. exists r. split; [apply References_elem; by eexists|].
    by apply (rf_cached _ _ R) in Er as (_&_&?).
  - intros ref. by eapply ReferencesByName_elem.
Qed.

(** A parser for the references of the example. *)
Definition parse_ex (s : string) : option Named :=
  if (s =? "busybox:v2")%string then Some (NTagged (hub "busybox") "v2")
  else if (s =? "busybox@" ++ dig1)%string then Some (NCanonical (hub "busybox") dig1)
  else if (s =? "localhost:5000/busybox:v2")%string then Some (NTagged (mkRepository "localhost:5000" "busybox") "v2")
  else None.

(** The parser reads the familiar forms of a store back. *)
Definition parses (Parse : string -> option Named) (s : refStore) : bool :=
  forallb (fun r => bool_decide (Parse (FamiliarString r) = Some r))
    (concat (map (fun x => map snd (map_to_list x.2)) (map_to_list (referencesByIDCache s)))).

Lemma parses_ok Parse s id ref :
  parses Parse s = true -> ref ∈ References s id -> Parse (FamiliarString ref) = Some ref.
Proof.
  intros Hp [str E]%References_elem. unfold lk2 in E. destruct (referencesByIDCache s !! id) as [m|] eqn:Em; [|done].
  unfold parses in Hp. rewrite forallb_forall in Hp. apply (bool_decide_eq_true _), Hp. apply in_concat.
  exists (map snd (map_to_list m)). split.
  - apply in_map_iff. exists (id, m). split; [done|]. by apply list_elem_of_In, elem_of_map_to_list.
  - apply in_map_iff. exists (str, ref). split; [done|]. by apply list_elem_of_In, elem_of_map_to_list.
Qed.

Lemma refstore_indexes_witness :
  References (run_ops freshStore ops_ex).1 "id2" = [NTagged (hub "busybox") "v2"; NCanonical (hub "busybox") dig1]
  /\ NoDup (FamiliarString <$> References (run_ops freshStore ops_ex).1 "id2").
Proof.
  split; [vm_compute; reflexivity|].
  refine (proj1 (proj2 (refstore_indexes parse_ex ops_ex "id2" (NRepository (hub "busybox")) _ _))); [vm_compute; reflexivity|].
  intros id ref. apply parses_ok. vm_compute. reflexivity.
Defined.

(** persistence: after any sequence of operations whose writes succeed, opening the store again
    from its file gives exactly the store that was saved, cache included, when the parser
    reads the stored familiar forms back. *)
Theorem refstore_reload Parse ops ok :
  forallb (fun x => wf_op x.2) ops = true -> forallb fst ops = true ->
  let s := (run_ops freshStore ops).1 in
  (forall id ref, ref ∈ References s id -> Parse (FamiliarString ref) = Some ref) ->
  NewReferenceStore Parse true FileMissing = GoOk freshStore
  /\ NewReferenceStore Parse ok (jsonFile s) = GoOk s.
Proof.
  intros Hops Hok s Hparse. split; [done|]. destruct (wf_run_refines ops Hops) as [_ R].
  eapply reload_same; [exact R| |done]. by apply saved_ops.
Qed.

Lemma refstore_reload_witness :
  NewReferenceStore parse_ex true (jsonFile (run_ops freshStore ops_ex).1) = GoOk (run_ops freshStore ops_ex).1.
Proof.
  refine (proj2 (refstore_reload parse_ex ops_ex true _ _ _)); [vm_compute; reflexivity..|].
  intros id ref. apply parses_ok. vm_compute. reflexivity.
Defined.

(** a failed save is not repaired by a retry: when AddTag reports that the file could not be
    written, the tag is already in memory, so the same call again reports success without
    writing, and the file still holds the old contents. *)
Theorem add_retry_unsaved s a ref id force force' :
  refines s a -> wf_ref ref = true ->
  let '(s1, e1) := AddTag false s ref id force in
  e1 = Some ErrSave ->
  let '(s2, e2) := AddTag true s1 ref id force' in
  e2 = None /\ jsonFile s2 = jsonFile s.
Proof.
  intros R W.
  pose proof (refines_op false s a (OpAddTag ref id force) R W) as H1. cbn [run_op spec_op] in H1.
  unfold AddTag in *. destruct (asCanonical ref) as [d|] eqn:Ec; [done|].
  assert (Hj : forall x r, jsonFile (addReference false x r id force).1 = jsonFile x).
  { intros x r. unfold addReference, writeReference. destruct (favorDigest r); [done|]. cbv zeta.
    destruct (String.eqb _ _); [done|]. destruct (default _ _ !! _); [|done].
    destruct (String.eqb _ _); [done|]. destruct (bool_decide _); [done|]. by destruct force. }
  specialize (Hj s (TagNameOnly ref)).
  destruct (addReference false s (TagNameOnly ref) id force) as [s1 e1]. intros ->.
  unfold spec_add in H1. destruct (String.eqb (FamiliarName (spec_key ref)) "sha256") eqn:En; [by destruct H1|].
  assert (R1 : refines s1 (<[FamiliarString (spec_key ref) := id]> a)).
  { destruct (a !! FamiliarString (spec_key ref)) as [old|]; [|apply H1].
    destruct (String.eqb old id); [by destruct H1|]. destruct (_ || _); [by destruct H1|apply H1]. }
  assert (Hk : TagNameOnly ref = spec_key ref) by (by destruct ref). rewrite Hk in *.
  destruct (key_ok ref W) as [S W']. pose proof (refines_lookup s1 _ (spec_key ref) R1 S W') as Hl.
  rewrite lookup_insert_eq in Hl.
  unfold addReference. replace (favorDigest (spec_key ref)) with (@inr RefErr Named (spec_key ref)) by (by destruct ref).
  cbv zeta. rewrite En, <- lk2_default in *. destruct (Repositories s1 !! FamiliarName (spec_key ref)) as [repo|] eqn:Er; [|done].
  rewrite Er, Hl, String.eqb_refl. done.
Qed.

Lemma add_retry_unsaved_witness :
  let '(s2, e2) := AddTag true (AddTag false freshStore (NRepository (hub "busybox")) "id1" false).1
                     (NRepository (hub "busybox")) "id1" false in
  e2 = None /\ jsonFile s2 = FileContents ∅.
Proof.
  exact (add_retry_unsaved freshStore ∅ (NRepository (hub "busybox")) "id1" false false
           (refines_empty _) eq_refl eq_refl).
Defined.
