(* ===== verification/StdCopy.v ===== *)
(** * Multiplexed output streams

    Model of [api/pkg/stdcopy/stdcopy.go]: the writer that prefixes every message with
    an eight-byte header, and [StdCopy], which splits such a stream into its two
    destinations.

    A source is the sequence of chunks that its [Read] hands out, each with the error
    that comes with its last byte; a read with less room than the chunk leaves the rest
    for the next one, and a source that has run out answers [io.EOF].  The buffer of
    [StdCopy] is its filled part (of [nr] bytes) and its length. *)

From S2P Require Import Prelude.

Definition Stdin : Z := 0.
Definition Stdout : Z := 1.
Definition Stderr : Z := 2.
Definition Systemerr : Z := 3.

Definition stdWriterPrefixLen : Z := 8.
Definition startingBufLen : Z := 32 * 1024 + stdWriterPrefixLen + 1.

(** ** Writers *)

(** The two destinations, which may share state: a write returns the number of bytes
    written and an error. *)
Class Sink (W : Type) := {
  writeOut : W -> list Z -> W * (Z * option string);
  writeErr : W -> list Z -> W * (Z * option string)
}.

(** Two [bytes.Buffer]s. *)
#[export] Instance Buffers : Sink (list Z * list Z) := {
  writeOut := fun w p => ((w.1 ++ p, w.2), (Z.of_nat (length p), None));
  writeErr := fun w p => ((w.1, w.2 ++ p), (Z.of_nat (length p), None))
}.

(** One [bytes.Buffer] for both. *)
Definition bufferWrite (w p : list Z) : list Z * (Z * option string) := (w ++ p, (Z.of_nat (length p), None)).
#[export] Instance Buffer : Sink (list Z) := { writeOut := bufferWrite; writeErr := bufferWrite }.

(** The header: the stream, three zero bytes, and the length on 32 bits. *)
Definition header (prefix : Z) (n : Z) : list Z := [prefix; 0; 0; 0] ++ be_put 4 (wrap32 n).

(** [stdWriter.Write] on a writer ([None] when it is nil), with a slice ([None] for nil). *)
Definition stdWriter_Write {W} (write : W -> list Z -> W * (Z * option string)) (prefix : Z)
  (w : option W) (p : option (list Z)) : option W * (Z * option string) :=
  match w, p with
  | None, _ => (None, (0, Some "writer not instantiated"%string))
  | Some _, None => (w, (0, None))
  | Some w, Some p =>
      let '(w', (n, err)) := write w (header prefix (Z.of_nat (length p)) ++ p) in
      let n := n - stdWriterPrefixLen in
      (Some w', (if n <? 0 then 0 else n, err))
  end.

(** ** Sources *)

Inductive ReadErr := EOF | ReadFail (msg : string).

Abbreviation source := (list (list Z * option ReadErr)).

Definition Read (room : Z) (src : source) : source * (list Z * option ReadErr) :=
  match src with
  | [] => ([], ([], Some EOF))
  | (c, e) :: rest =>
      if Z.of_nat (length c) <=? room then (rest, (c, e))
      else ((drop (Z.to_nat room) c, e) :: rest, (take (Z.to_nat room) c, None))
  end.

(** ** StdCopy *)

Inductive fillResult := Filled (buf : list Z) (src : source) | FillEOF | FillErr (msg : string) | FillFuel.

(** The loops [for nr < need], with [need] the header or the header and the frame. *)
Fixpoint fill (fuel : nat) (need bufLen : Z) (buf : list Z) (src : source) : fillResult :=
  if need <=? Z.of_nat (length buf) then Filled buf src
  else
    match fuel with
    | O => FillFuel
    | S fuel =>
        let '(src', (bs, err)) := Read (bufLen - Z.of_nat (length buf)) src in
        let buf' := buf ++ bs in
        match err with
        | Some EOF => if Z.of_nat (length buf') <? need then FillEOF else Filled buf' src'
        | Some (ReadFail msg) => FillErr msg
        | None => fill fuel need bufLen buf' src'
        end
    end.

Inductive CopyErr :=
| ErrRead (msg : string) | ErrUnrecognized (stream : Z) | ErrDaemon (msg : list Z)
| ErrWrite (msg : string) | ErrShortWrite.

(** Enough fuel to read a source. *)
Fixpoint source_fuel (src : source) : nat :=
  match src with [] => 1 | (c, _) :: rest => S (length c) + source_fuel rest end.

Section Copy.
  Context {W : Type} `{Sink W}.

(** The outer loop; [None] when the fuel runs out. *)
Fixpoint copyLoop (fuel : nat) (w : W) (written bufLen : Z) (buf : list Z) (src : source)
  : option (W * (Z * option CopyErr)) :=
  match fuel with
  | O => None
  | S fuel =>
      match fill (source_fuel src) stdWriterPrefixLen bufLen buf src with
      | FillFuel => None
      | FillEOF => Some (w, (written, None))
      | FillErr msg => Some (w, (0, Some (ErrRead msg)))
      | Filled buf src =>
          let stream := nth 0 buf 0 in
          if negb (bool_decide (stream ∈ [Stdin; Stdout; Stderr; Systemerr]))
          then Some (w, (0, Some (ErrUnrecognized stream)))
          else
            let frameSize := be_get 0 (take 4 (drop 4 buf)) in
            let need := frameSize + stdWriterPrefixLen in
            let bufLen := if bufLen <? need then need + 1 else bufLen in
            match fill (source_fuel src) need bufLen buf src with
            | FillFuel => None
            | FillEOF => Some (w, (written, None))
            | FillErr msg => Some (w, (0, Some (ErrRead msg)))
            | Filled buf src =>
                let frame := take (Z.to_nat frameSize) (drop 8 buf) in
                if stream =? Systemerr then Some (w, (written, Some (ErrDaemon frame)))
                else
                  let '(w', (nw, err)) := (if stream =? Stderr then writeErr else writeOut) w frame in
                  match err with
                  | Some msg => Some (w', (0, Some (ErrWrite msg)))
                  | None =>
                      if negb (nw =? frameSize) then Some (w', (0, Some ErrShortWrite))
                      else copyLoop fuel w' (written + nw) bufLen (drop (Z.to_nat need) buf) src
                  end
            end
      end
  end.

Definition flat (src : source) : list Z := concat (map fst src).

(** Every turn of the outer loop takes at least a header off the stream. *)
Definition StdCopy (w : W) (src : source) : option (W * (Z * option CopyErr)) :=
  copyLoop (S (length (flat src))) w 0 startingBufLen [] src.

(** ** The reference: the whole stream at once *)

Fixpoint demux (fuel : nat) (w : W) (written : Z) (bs : list Z) : option (W * (Z * option CopyErr)) :=
  match fuel with
  | O => None
  | S fuel =>
      if Z.of_nat (length bs) <? 8 then Some (w, (written, None))
      else
        let stream := nth 0 bs 0 in
        let size := be_get 0 (take 4 (drop 4 bs)) in
        if negb (bool_decide (stream ∈ [Stdin; Stdout; Stderr; Systemerr]))
        then Some (w, (0, Some (ErrUnrecognized stream)))
        else if Z.of_nat (length bs) <? size + 8 then Some (w, (written, None))
        else
          let frame := take (Z.to_nat size) (drop 8 bs) in
          if stream =? Systemerr then Some (w, (written, Some (ErrDaemon frame)))
          else
            let '(w', (nw, err)) := (if stream =? Stderr then writeErr else writeOut) w frame in
            match err with
            | Some msg => Some (w', (0, Some (ErrWrite msg)))
            | None =>
                if negb (nw =? size) then Some (w', (0, Some ErrShortWrite))
                else demux fuel w' (written + nw) (drop (Z.to_nat (size + 8)) bs)
            end
  end.

(** A source whose reads do not fail and that announces its end, if at all, with its
    last chunk. *)
Fixpoint clean (src : source) : bool :=
  match src with
  | [] => true
  | (_, None) :: rest => clean rest
  | (_, Some EOF) :: rest => bool_decide (rest = [])
  | (_, Some (ReadFail _)) :: _ => false
  end.

(** ** Proofs *)

Lemma Read_spec room src :
  0 < room -> clean src = true ->
  let '(src', (bs, err)) := Read room src in
  flat src = bs ++ flat src' /\ Z.of_nat (length bs) <= room /\ clean src' = true
  /\ match err with
     | None => (source_fuel src' < source_fuel src)%nat
     | Some EOF => src' = []
     | Some (ReadFail _) => False
     end.
Proof.
  intros Hr Hc. destruct src as [|[c e] rest]; simpl; [split_and!; [done|simpl; lia|done..]|].
  destruct (Z.leb_spec (Z.of_nat (length c)) room) as [Hle|Hgt].
  - unfold flat. simpl in *. destruct e as [[]|]; [|done|split_and!; [done..|lia]].
    apply bool_decide_eq_true in Hc as ->. done.
  - unfold flat. simpl. rewrite app_assoc, take_drop, length_take, length_drop. split_and!; [done|lia| |lia].
    destruct e as [[]|]; done.
Qed.

Lemma fill_spec fuel need bufLen buf src :
  (source_fuel src <= fuel)%nat -> need <= bufLen -> clean src = true -> Z.of_nat (length buf) <= bufLen ->
  if Z.of_nat (length (buf ++ flat src)) <? need then fill fuel need bufLen buf src = FillEOF
  else exists buf' src', fill fuel need bufLen buf src = Filled buf' src'
    /\ buf' ++ flat src' = buf ++ flat src /\ clean src' = true
    /\ need <= Z.of_nat (length buf') <= bufLen.
Proof.
  revert buf src. induction fuel as [|fuel IH]; intros buf src Hf Hb Hc Hl.
  { destruct src as [|[]]; simpl in Hf; lia. }
  cbn [fill]. destruct (Z.leb_spec need (Z.of_nat (length buf))) as [Hn|Hn].
  - destruct (Z.ltb_spec (Z.of_nat (length (buf ++ flat src))) need) as [Hx|_]; [rewrite length_app in Hx; lia|].
    exists buf, src. split_and!; done || lia.
  - pose proof (Read_spec (bufLen - Z.of_nat (length buf)) src ltac:(lia) Hc) as HR.
    destruct (Read _ src) as [src' [bs err]]. destruct HR as (Hflat&Hbs&Hc'&He).
    assert (Hl' : Z.of_nat (length (buf ++ bs)) <= bufLen) by (rewrite length_app; lia).
    rewrite Hflat, app_assoc. destruct err as [[]|]; [|done|].
    + subst src'. change (flat []) with (@nil Z). rewrite app_nil_r. destruct (Z.ltb_spec (Z.of_nat (length (buf ++ bs))) need); [done|].
      exists (buf ++ bs), []. split_and!; [done|by rewrite app_nil_r|done|lia|lia].
    + apply (IH (buf ++ bs) src'); done || lia.
Qed.

Lemma prefix_reads (a b c d : list Z) n :
  a ++ b = c ++ d -> (n <= length a)%nat -> (n <= length c)%nat -> take n a = take n c.
Proof.
  intros E Ha Hc. rewrite <- (take_app_le a b n Ha), E. by apply take_app_le.
Qed.

Lemma drop_app_eq (a b c : list Z) n : a ++ b = c -> (n <= length a)%nat -> drop n a ++ b = drop n c.
Proof. intros <- Hn. by rewrite drop_app_le. Qed.

Lemma nth0_take (l : list Z) n : (0 < n)%nat -> nth 0 l 0 = nth 0 (take n l) 0.
Proof. intros Hn. destruct n; [lia|]. by destruct l. Qed.

Lemma copyLoop_demux fuel w written bufLen buf src :
  clean src = true -> 8 <= bufLen -> Z.of_nat (length buf) <= bufLen ->
  Forall is_byte (buf ++ flat src) ->
  copyLoop fuel w written bufLen buf src = demux fuel w written (buf ++ flat src).
Proof.
  revert w written bufLen buf src. induction fuel as [|fuel IH]; intros w written bufLen buf src Hc Hb Hl Hby; [done|].
  cbn [copyLoop demux]. unfold stdWriterPrefixLen.
  pose proof (fill_spec (source_fuel src) 8 bufLen buf src ltac:(lia) Hb Hc Hl) as HF.
  destruct (Z.ltb_spec (Z.of_nat (length (buf ++ flat src))) 8) as [Hlt|Hge]; [by rewrite HF|].
  destruct HF as (buf1&src1&->&E1&Hc1&Hl1). rewrite <- E1 in *.
  assert (Hnth : nth 0 buf1 0 = nth 0 (buf1 ++ flat src1) 0).
  { rewrite (nth0_take buf1 8), (nth0_take (buf1 ++ _) 8) by lia. f_equal. symmetry. apply take_app_le. lia. }
  assert (Hsize : take 4 (drop 4 buf1) = take 4 (drop 4 (buf1 ++ flat src1))).
  { rewrite drop_app_le by lia. rewrite take_app_le; [done|]. rewrite length_drop. lia. }
  rewrite Hnth, Hsize. set (size := be_get 0 _). set (stream := nth 0 (buf1 ++ flat src1) 0).
  assert (Hsz : 0 <= size).
  { apply be_get_nonneg; [lia|]. apply Forall_take, Forall_drop. done. }
  destruct (negb _); [done|]. set (bufLen' := if bufLen <? size + 8 then _ else _).
  assert (Hb' : size + 8 <= bufLen' /\ bufLen <= bufLen').
  { subst bufLen'. destruct (Z.ltb_spec bufLen (size + 8)); lia. }
  pose proof (fill_spec (source_fuel src1) (size + 8) bufLen' buf1 src1 ltac:(lia) ltac:(lia) Hc1 ltac:(lia)) as HF.
  destruct (Z.ltb_spec (Z.of_nat (length (buf1 ++ flat src1))) (size + 8)) as [Hlt|Hge2]; [by rewrite HF|].
  destruct HF as (buf2&src2&->&E2&Hc2&Hl2).
  assert (Hfr : take (Z.to_nat size) (drop 8 buf2) = take (Z.to_nat size) (drop 8 (buf1 ++ flat src1))).
  { rewrite <- E2, drop_app_le by lia. rewrite take_app_le; [done|]. rewrite length_drop. lia. }
  rewrite Hfr. destruct (stream =? Systemerr); [done|].
  destruct ((if stream =? Stderr then writeErr else writeOut) w _) as [w' [nw err]].
  destruct err; [done|]. destruct (negb _); [done|].
  rewrite <- (drop_app_eq buf2 (flat src2) (buf1 ++ flat src1) (Z.to_nat (size + 8)) E2) by lia.
  apply IH; [done|lia| |].
  - rewrite length_drop. lia.
  - rewrite (drop_app_eq buf2 (flat src2) (buf1 ++ flat src1) (Z.to_nat (size + 8)) E2) by lia. by apply Forall_drop.
Qed.

End Copy.
