(* ===== verification/StdCopyTheorems.v ===== *)
(** * Correctness of the stream multiplexer

    [StdCopy] gives the result of the reference [demux] however the stream is cut into
    reads, it always returns, and it inverts [stdWriter.Write]. *)

From S2P Require Import Prelude StdCopy.

(** ** Termination on every source *)

Lemma Read_measure room src :
  0 < room ->
  let '(src', (bs, err)) := Read room src in
  flat src = bs ++ flat src' /\ (err = None -> source_fuel src' < source_fuel src)%nat
  /\ Z.of_nat (length bs) <= room.
Proof.
  intros Hr. destruct src as [|[c e] rest]; simpl; [split_and!; [done..|simpl; lia]|].
  unfold flat. destruct (Z.leb_spec (Z.of_nat (length c)) room); simpl; [split_and!; [done|lia|lia]|].
  rewrite app_assoc, take_drop, length_take, length_drop. split_and!; [done|lia|lia].
Qed.

Lemma fill_total fuel need bufLen buf src :
  (source_fuel src <= fuel)%nat -> need <= bufLen -> Z.of_nat (length buf) <= bufLen ->
  match fill fuel need bufLen buf src with
  | FillFuel => False
  | Filled buf' src' => buf' ++ flat src' = buf ++ flat src /\ need <= Z.of_nat (length buf') <= bufLen
  | _ => True
  end.
Proof.
  revert buf src. induction fuel as [|fuel IH]; intros buf src Hf Hb Hl.
  { destruct src as [|[]]; simpl in Hf; lia. }
  cbn [fill]. destruct (Z.leb_spec need (Z.of_nat (length buf))); [done|].
  pose proof (Read_measure (bufLen - Z.of_nat (length buf)) src ltac:(lia)) as HR.
  destruct (Read _ src) as [src' [bs err]]. destruct HR as (Hflat&Hm&Hbs).
  assert (Hl' : Z.of_nat (length (buf ++ bs)) <= bufLen) by (rewrite length_app; lia).
  rewrite Hflat, app_assoc. destruct err as [[]|]; [|done|].
  - destruct (Z.ltb_spec (Z.of_nat (length (buf ++ bs))) need); [done|]. split; [done|lia].
  - apply (IH (buf ++ bs) src'); [|lia..]. specialize (Hm eq_refl). lia.
Qed.

Section Total.
  Context {W : Type} `{Sink W}.

Lemma copyLoop_total fuel (w : W) written bufLen buf src :
  (length (buf ++ flat src) < fuel)%nat -> 8 <= bufLen -> Z.of_nat (length buf) <= bufLen ->
  Forall is_byte (buf ++ flat src) -> is_Some (copyLoop fuel w written bufLen buf src).
Proof.
  revert w written bufLen buf src. induction fuel as [|fuel IH]; intros w written bufLen buf src Hf Hb Hl Hby; [lia|].
  cbn [copyLoop]. unfold stdWriterPrefixLen.
  pose proof (fill_total (source_fuel src) 8 bufLen buf src ltac:(lia) Hb Hl) as HF.
  destruct (fill _ 8 bufLen buf src) as [buf1 src1| | |]; [|by eexists..|done]. destruct HF as [E1 Hl1].
  rewrite <- E1 in *. destruct (negb _); [by eexists|]. set (size := be_get 0 _).
  assert (Hsz : 0 <= size).
  { apply be_get_nonneg; [lia|]. apply Forall_take, Forall_drop. by apply Forall_app in Hby as [? _]. }
  set (bufLen' := if bufLen <? size + 8 then _ else _).
  assert (Hb' : size + 8 <= bufLen' /\ bufLen <= bufLen').
  { subst bufLen'. destruct (Z.ltb_spec bufLen (size + 8)); lia. }
  pose proof (fill_total (source_fuel src1) (size + 8) bufLen' buf1 src1 ltac:(lia) ltac:(lia) ltac:(lia)) as HF.
  destruct (fill _ (size + 8) bufLen' buf1 src1) as [buf2 src2| | |]; [|by eexists..|done]. destruct HF as [E2 Hl2].
  destruct (_ =? Systemerr); [by eexists|].
  destruct ((if nth 0 buf1 0 =? Stderr then writeErr else writeOut) w _) as [w' [nw err]].
  destruct err; [by eexists|]. destruct (negb _); [by eexists|].
  rewrite <- E2 in Hf, Hby.
  assert (Hd : drop (Z.to_nat (size + 8)) buf2 ++ flat src2 = drop (Z.to_nat (size + 8)) (buf2 ++ flat src2)).
  { rewrite drop_app_le; [done|lia]. }
  apply IH; rewrite ?Hd, ?length_drop; [rewrite length_app in *; lia|lia|lia|by apply Forall_drop].
Qed.

End Total.

(** ** Frames *)

Definition encode (f : Z * list Z) : list Z := header f.1 (Z.of_nat (length f.2)) ++ f.2.

(** The buffer after the frames were written to it by one [stdWriter] per stream. *)
Definition mux (frames : list (Z * list Z)) : list Z :=
  foldl (fun b f => default b (stdWriter_Write bufferWrite f.1 (Some b) (Some f.2)).1) [] frames.

Definition frame_ok (f : Z * list Z) : Prop :=
  f.1 ∈ [Stdin; Stdout; Stderr; Systemerr] /\ Forall is_byte f.2 /\ Z.of_nat (length f.2) < 2 ^ 32.

Definition payloads (streams : list Z) (frames : list (Z * list Z)) : list Z :=
  concat (map snd (filter (fun f => f.1 ∈ streams) frames)).

Lemma mux_encode frames : mux frames = concat (map encode frames).
Proof.
  unfold mux. assert (H : forall b, foldl (fun b f => default b (stdWriter_Write bufferWrite f.1 (Some b) (Some f.2)).1) b frames
    = b ++ concat (map encode frames)).
  { induction frames as [|f fs IH]; intros b; cbn [foldl map concat]; [by rewrite app_nil_r|].
    rewrite IH. change (default b _) with (b ++ encode f). by rewrite <- app_assoc. }
  apply H.
Qed.

Lemma header_length t n : length (header t n) = 8%nat.
Proof. unfold header. by rewrite length_app, be_put_length. Qed.

Lemma be_put_bytes n z : Forall is_byte (be_put n z).
Proof.
  revert z. induction n as [|n IH]; intros z; cbn [be_put]; constructor; [|apply IH].
  unfold is_byte. apply Z.mod_pos_bound. lia.
Qed.

Lemma encode_bytes f : frame_ok f -> Forall is_byte (encode f).
Proof.
  intros (Ht&Hb&_). unfold encode, header. repeat apply Forall_app_2; [|apply be_put_bytes|done].
  unfold Stdin, Stdout, Stderr, Systemerr in Ht. rewrite !elem_of_cons in Ht. unfold is_byte.
  repeat constructor; try lia; destruct Ht as [->|[->|[->|[->|[]%elem_of_nil]]]]; lia.
Qed.

Lemma header_size t n bs :
  0 <= n < 2 ^ 32 -> be_get 0 (take 4 (drop 4 (header t n ++ bs))) = n.
Proof.
  intros Hn. unfold header. rewrite <- !app_assoc. rewrite (drop_app_exact [t; 0; 0; 0]) by done.
  rewrite take_app_exact by (by rewrite be_put_length). rewrite be_get_put_mod, wrap32_small by lia.
  apply Z.mod_small. lia.
Qed.

Lemma demux_encode {W} `{Sink W} fuel (w : W) written f bs :
  frame_ok f ->
  demux (S fuel) w written (encode f ++ bs)
  = if f.1 =? Systemerr then Some (w, (written, Some (ErrDaemon f.2)))
    else
      let '(w', (nw, err)) := (if f.1 =? Stderr then writeErr else writeOut) w f.2 in
      match err with
      | Some msg => Some (w', (0, Some (ErrWrite msg)))
      | None => if negb (nw =? Z.of_nat (length f.2)) then Some (w', (0, Some ErrShortWrite))
                else demux fuel w' (written + nw) bs
      end.
Proof.
  intros (Ht&Hb&Hl). cbn [demux].
  assert (Hlen : length (encode f ++ bs) = (8 + length f.2 + length bs)%nat).
  { unfold encode. rewrite !length_app, header_length. lia. }
  assert (Hn : nth 0 (encode f ++ bs) 0 = f.1) by done.
  assert (Hs : be_get 0 (take 4 (drop 4 (encode f ++ bs))) = Z.of_nat (length f.2))
    by (unfold encode; rewrite <- app_assoc; apply header_size; lia).
  assert (Hd : drop 8 (encode f ++ bs) = f.2 ++ bs).
  { unfold encode. rewrite <- app_assoc. apply drop_app_exact. by rewrite header_length. }
  rewrite Hlen, Hn, Hs, Hd. destruct (Z.ltb_spec (Z.of_nat (8 + length f.2 + length bs)) 8) as [?|_]; [lia|].
  rewrite bool_decide_eq_true_2 by done. cbn [negb].
  destruct (Z.ltb_spec (Z.of_nat (8 + length f.2 + length bs)) (Z.of_nat (length f.2) + 8)) as [?|_]; [lia|].
  rewrite take_app_exact by lia. destruct (f.1 =? Systemerr); [done|].
  destruct ((if f.1 =? Stderr then writeErr else writeOut) w f.2) as [w' [nw err]]. destruct err; [done|].
  destruct (negb _); [done|]. f_equal. rewrite Z2Nat.inj_add by lia. rewrite Nat2Z.id, Nat.add_comm.
  rewrite <- drop_drop. change (Z.to_nat 8) with 8%nat. rewrite Hd. by apply drop_app_exact.
Qed.

(** Part of a frame: a copy ends there without an error. *)
Definition cut_frame (tail : list Z) : Prop :=
  exists f k, frame_ok f /\ (k < length (encode f))%nat /\ tail = take k (encode f).

Lemma demux_cut {W} `{Sink W} fuel (w : W) written tail :
  cut_frame tail -> demux (S fuel) w written tail = Some (w, (written, None)).
Proof.
  intros (f&k&(Ht&Hb&Hl)&Hk&->). cbn [demux]. rewrite length_take_le by lia.
  destruct (Z.ltb_spec (Z.of_nat k) 8) as [|Hk8]; [done|].
  assert (Hlen : length (encode f) = (8 + length f.2)%nat) by (unfold encode; by rewrite length_app, header_length).
  assert (Htk : take k (encode f) = header f.1 (Z.of_nat (length f.2)) ++ take (k - 8) f.2).
  { unfold encode. rewrite take_app_ge, header_length by (rewrite header_length; lia). done. }
  rewrite Htk.
  assert (Hs : be_get 0 (take 4 (drop 4 (header f.1 (Z.of_nat (length f.2)) ++ take (k - 8) f.2))) = Z.of_nat (length f.2))
    by (apply header_size; lia).
  rewrite Hs. assert (Hn : nth 0 (header f.1 (Z.of_nat (length f.2)) ++ take (k - 8) f.2) 0 = f.1) by done.
  rewrite Hn, bool_decide_eq_true_2 by done. cbn [negb].
  destruct (Z.ltb_spec (Z.of_nat k) (Z.of_nat (length f.2) + 8)); [done|lia].
Qed.

Lemma payloads_cons streams f fs :
  payloads streams (f :: fs) = (if decide (f.1 ∈ streams) then f.2 else []) ++ payloads streams fs.
Proof. unfold payloads. rewrite filter_cons. by destruct (decide _). Qed.

Lemma demux_frames frames fuel out err written bs :
  Forall (fun f => frame_ok f /\ f.1 <> Systemerr) frames -> (length (concat (map encode frames)) < fuel)%nat ->
  exists fuel', (fuel - length (concat (map encode frames)) <= fuel')%nat /\
  demux fuel (out, err) written (concat (map encode frames) ++ bs)
  = demux fuel' (out ++ payloads [Stdin; Stdout] frames, err ++ payloads [Stderr] frames)
      (written + Z.of_nat (length (concat (map snd frames)))) bs.
Proof.
  revert fuel out err written. induction frames as [|f fs IH]; intros fuel out err written Hf Hl.
  { exists fuel. cbn [map concat length]. rewrite !app_nil_r, Z.add_0_r. simpl. split; [lia|done]. }
  apply Forall_cons_1 in Hf as [[Hf Hs] Hfs]. cbn [map concat] in *. rewrite length_app in Hl.
  assert (Hlen : length (encode f) = (8 + length f.2)%nat) by (unfold encode; by rewrite length_app, header_length).
  destruct fuel as [|fuel]; [lia|]. rewrite <- app_assoc, demux_encode by done.
  destruct (Z.eqb_spec f.1 Systemerr); [done|]. rewrite !payloads_cons, !length_app, Nat2Z.inj_add, Z.add_assoc.
  assert (Ht : f.1 ∈ [Stdin; Stdout] /\ f.1 <> Stderr \/ f.1 = Stderr /\ f.1 ∉ [Stdin; Stdout]).
  { destruct Hf as (Ht&_). rewrite !elem_of_cons in *. pose proof (not_elem_of_nil (f.1)).
    unfold Stdin, Stdout, Stderr, Systemerr in *. destruct Ht as [E|[E|[E|[E|E]]]]; [..|done]; rewrite E in *;
      [left; split; [by left|done]|left; split; [right; by left|done]|right|done].
    split; [done|]. intros [?|[?|?]]; done. }
  destruct Ht as [[Ht Hne]|[Ht Hne]].
  - destruct (Z.eqb_spec f.1 Stderr); [done|]. cbn [writeOut Buffers fst snd]. rewrite Z.eqb_refl. cbn [negb].
    destruct (IH fuel (out ++ f.2) err (written + Z.of_nat (length f.2)) Hfs) as (fuel'&Hle&E); [lia|].
    exists fuel'. split; [lia|]. rewrite E. rewrite (decide_True _ _ Ht), decide_False; [by rewrite <- app_assoc|].
    rewrite list_elem_of_singleton. done.
  - rewrite Ht, Z.eqb_refl. cbn [writeErr Buffers fst snd]. rewrite Z.eqb_refl. cbn [negb].
    destruct (IH fuel out (err ++ f.2) (written + Z.of_nat (length f.2)) Hfs) as (fuel'&Hle&E); [lia|].
    exists fuel'. split; [lia|]. rewrite E. rewrite <- Ht, (decide_False _ _ Hne), decide_True; [by rewrite <- app_assoc|].
    by apply list_elem_of_singleton.
Qed.

Lemma StdCopy_demux {W} `{Sink W} (w : W) src :
  clean src = true -> Forall is_byte (flat src) -> StdCopy w src = demux (S (length (flat src))) w 0 (flat src).
Proof. intros Hc Hb. unfold StdCopy. by rewrite copyLoop_demux. Qed.

(** ** Theorems *)

(** chunking does not matter: whatever pieces the reads of the source deliver, StdCopy writes and
    returns what the reference does on the whole stream; and it returns on every source,
    with read errors or an early end, and with any destination. *)
Theorem stdcopy_chunking {W} `{Sink W} (w : W) src :
  Forall is_byte (flat src) ->
  is_Some (StdCopy w src)
  /\ (clean src = true -> StdCopy w src = demux (S (length (flat src))) w 0 (flat src)).
Proof.
  intros Hb. split; [|intros Hc; by apply StdCopy_demux].
  apply copyLoop_total; [simpl; lia|done..].
Qed.

Definition src_ex : source := [([1; 0], None); ([0; 0; 0; 0; 0; 2; 104], None); ([105; 2; 0; 0; 0; 0], None); ([0; 0; 1; 33], Some EOF)].

Lemma stdcopy_chunking_witness :
  StdCopy ([], []) src_ex = demux 20 ([], []) 0 [1; 0; 0; 0; 0; 0; 0; 2; 104; 105; 2; 0; 0; 0; 0; 0; 0; 1; 33]
  /\ StdCopy ([], []) src_ex = Some (([104; 105], [33]), (3, None)).
Proof.
  split; [|by vm_compute].
  apply (stdcopy_chunking (W := list Z * list Z) ([], []) src_ex); [|done].
  repeat constructor; done.
Defined.

(** C36: round trip: StdCopy on a stream that stdWriter wrote, in frames of the four streams
    shorter than 4 GiB ([frame_ok]; [header_truncates] is about longer ones), cut into any
    reads of which none fails and ended within a frame, appends to each destination exactly
    the payloads of its streams in order, and reports their total length without an error; at
    the first Systemerr frame it stops and returns that frame's text as the error. *)
Theorem stdcopy_roundtrip frames tail src :
  Forall (fun f => frame_ok f /\ f.1 <> Systemerr) frames -> clean src = true ->
  let written := Z.of_nat (length (concat (map snd frames))) in
  let dest := (payloads [Stdin; Stdout] frames, payloads [Stderr] frames) in
  (cut_frame tail -> flat src = mux frames ++ tail -> StdCopy ([], []) src = Some (dest, (written, None)))
  /\ (forall msg after, frame_ok (Systemerr, msg) -> Forall frame_ok after ->
        flat src = mux (frames ++ (Systemerr, msg) :: after) ->
        StdCopy ([], []) src = Some (dest, (written, Some (ErrDaemon msg)))).
Proof.
  intros Hf Hc written dest.
  assert (Hby : forall fs, Forall frame_ok fs -> Forall is_byte (concat (map encode fs))).
  { intros fs Hfs. induction Hfs; cbn [map concat]; [constructor|]. apply Forall_app_2; [by apply encode_bytes|done]. }
  assert (Hok : Forall frame_ok frames) by (eapply Forall_impl; [|exact Hf]; naive_solver).
  split.
  - intros Htail E. rewrite mux_encode in E. rewrite StdCopy_demux, E; [|done|].
    + rewrite length_app.
      destruct (demux_frames frames (S (length (concat (map encode frames)) + length tail)) [] [] 0 tail Hf) as (fuel&Hle&->); [lia|].
      destruct fuel as [|fuel]; [lia|]. by apply demux_cut.
    + rewrite E. apply Forall_app_2; [by apply Hby|]. destruct Htail as (f&k&Hok'&_&->). apply Forall_take. by apply encode_bytes.
  - intros msg after Hm Ha E. rewrite mux_encode, map_app, concat_app in E. cbn [map concat] in E.
    rewrite StdCopy_demux, E; [|done|].
    + rewrite length_app.
      destruct (demux_frames frames (S (length (concat (map encode frames)) + length (encode (Systemerr, msg) ++ concat (map encode after))))
        [] [] 0 (encode (Systemerr, msg) ++ concat (map encode after)) Hf) as (fuel&Hle&->); [lia|].
      destruct fuel as [|fuel]; [lia|]. by rewrite demux_encode.
    + rewrite E. apply Forall_app_2; [by apply Hby|]. apply Forall_app_2; [by apply encode_bytes|by apply Hby].
Qed.

Definition frames_ex : list (Z * list Z) := [(Stdout, [104; 105]); (Stderr, [33]); (Stdout, [10])].

Lemma stdcopy_roundtrip_witness :
  StdCopy ([], []) [(mux frames_ex, None); ([2; 0; 0], None)] = Some (([104; 105; 10], [33]), (4, None)).
Proof.
  refine (proj1 (stdcopy_roundtrip frames_ex [2; 0; 0] [(mux frames_ex, None); ([2; 0; 0], None)] _ _) _ _).
  - repeat constructor; done || (vm_compute; congruence) || set_solver.
  - done.
  - exists (Stderr, [33]), 3%nat. split_and!; [|simpl; lia|done].
    repeat constructor; done || (vm_compute; congruence) || set_solver.
  - done.
Defined.

(** A payload of 4 GiB or more writes a header that announces less. *)
Lemma header_truncates n : header Stdout (n + 2 ^ 32) = header Stdout n.
Proof. unfold header, wrap32. by rewrite <- Zplus_mod_idemp_r, Z_mod_same_full, Z.add_0_r. Qed.
