(* ===== verification/BytesPipe.v ===== *)
(** * The byte pipe

    Model of [daemon/internal/stream/bytespipe]: a queue of fixed-size buffers between
    writers and readers that block on one condition variable.

    A call holds the lock except while it waits, so it runs in segments from one wait to
    the next: [writeStart]/[writeResume] and [readStart]/[readResume] are these segments.
    [PSys] adds the calls that wait, each with a flag that tells whether a broadcast has
    reached it, and two logs: the bytes the pipe has accepted from each [Write], and the
    calls that have returned with their results. *)

From S2P Require Import Prelude.

(** ** buffer.go *)

(** [fb_data] are the bytes up to [pos]. *)
Record fixedBuffer := mkFixed { fb_data : list Z; fb_cap : Z; fb_lastRead : Z }.

Inductive BufErr := errBufferFull | ErrShortWrite.

Definition len (l : list Z) : Z := Z.of_nat (length l).

Definition fbWrite (b : fixedBuffer) (p : list Z) : fixedBuffer * (Z * option BufErr) :=
  let n := Z.min (fb_cap b - len (fb_data b)) (len p) in
  let b' := mkFixed (fb_data b ++ take (Z.to_nat n) p) (fb_cap b) (fb_lastRead b) in
  (b', (n, if n <? len p then if len (fb_data b') =? fb_cap b' then Some errBufferFull else Some ErrShortWrite
           else None)).

(** The unread bytes. *)
Definition fbUnread (b : fixedBuffer) : list Z := drop (Z.to_nat (fb_lastRead b)) (fb_data b).

(** [room] is the length of the slice given. *)
Definition fbRead (b : fixedBuffer) (room : Z) : fixedBuffer * list Z :=
  let bs := take (Z.to_nat room) (fbUnread b) in
  (mkFixed (fb_data b) (fb_cap b) (fb_lastRead b + len bs), bs).

Definition fbLen (b : fixedBuffer) : Z := len (fb_data b) - fb_lastRead b.
Definition fbReset (b : fixedBuffer) : fixedBuffer := mkFixed [] (fb_cap b) 0.

(** ** bytespipe.go *)

Definition maxCap : Z := 1000000.
Definition minCap : Z := 64.
Definition blockThreshold : Z := 1000000.

Inductive PipeErr := ErrClosed | EOF | ErrOther (msg : string) | ErrBuf (e : BufErr).

Record BytesPipe := mkPipe {
  buf : list fixedBuffer;
  bufLen : Z;
  closeErr : option PipeErr;
  readBlock : bool
}.

(** A buffer of the pools: the pools hold buffers that were reset. *)
Definition getBuffer (size : Z) : fixedBuffer := mkFixed [] size 0.

Definition New : BytesPipe := mkPipe [getBuffer minCap] 0 None false.

(** The end of a segment of [Write]: the call returns, waits with the rest of its bytes and
    the capacity of the buffer it filled, or has run out of fuel. *)
Inductive writeOutcome :=
| WDone (bp : BytesPipe) (written : Z) (err : option PipeErr)
| WWait (bp : BytesPipe) (p : list Z) (written cap : Z)
| WFuel.

(** The loop [loop0] up to a wait. *)
Fixpoint writeLoop (fuel : nat) (bp : BytesPipe) (p : list Z) (written : Z) : writeOutcome :=
  match fuel with
  | O => WFuel
  | S fuel =>
      match closeErr bp with
      | Some _ => WDone bp written (Some ErrClosed)
      | None =>
          let bufs := match buf bp with [] => [getBuffer 64] | l => l end in
          let b := List.last bufs (getBuffer 64) in
          let '(b', (n, err)) := fbWrite b p in
          let bp := mkPipe (removelast bufs ++ [b']) (bufLen bp + n) (closeErr bp) (readBlock bp) in
          let written := written + n in
          match err with
          | Some ErrShortWrite => WDone bp written (Some (ErrBuf ErrShortWrite))
          | _ =>
              if len p =? n then WDone bp written None
              else
                let p := drop (Z.to_nat n) p in
                if blockThreshold <=? bufLen bp then WWait bp p written (fb_cap b)
                else
                  let nextCap := if maxCap <? fb_cap b * 2 then maxCap else fb_cap b * 2 in
                  writeLoop fuel (mkPipe (buf bp ++ [getBuffer nextCap]) (bufLen bp) (closeErr bp) (readBlock bp)) p written
          end
      end
  end.

(** Every turn after the first writes at least one byte. *)
Definition writeFuel (p : list Z) : nat := S (S (length p)).

Definition writeStart (bp : BytesPipe) (p : list Z) : writeOutcome := writeLoop (writeFuel p) bp p 0.

(** After [bp.wait.Wait()] in the inner loop. *)
Definition writeResume (bp : BytesPipe) (p : list Z) (written cap : Z) : writeOutcome :=
  match closeErr bp with
  | Some _ => writeLoop (writeFuel p) bp p written
  | None =>
      if blockThreshold <=? bufLen bp then WWait bp p written cap
      else
        let nextCap := if maxCap <? cap * 2 then maxCap else cap * 2 in
        writeLoop (writeFuel p) (mkPipe (buf bp ++ [getBuffer nextCap]) (bufLen bp) (closeErr bp) (readBlock bp)) p written
  end.

(** The loop of [Read]: the buffers left, the length left and the bytes read; [None] is an
    index out of range.  A buffer that is not emptied has filled the slice. *)
Fixpoint drain (bufs : list fixedBuffer) (n room : Z) : option (list fixedBuffer * Z * list Z) :=
  if n <=? 0 then Some (bufs, n, [])
  else
    match bufs with
    | [] => None
    | b :: rest =>
        let '(b', bs) := fbRead b room in
        let n := n - len bs in
        let bufs := if fbLen b' =? 0 then rest else b' :: rest in
        if len bs =? room then Some (bufs, n, bs)
        else
          if fbLen b' =? 0 then
            match drain rest n (room - len bs) with
            | Some (bufs, n, bs') => Some (bufs, n, bs ++ bs')
            | None => None
            end
          else None
    end.

Inductive readOutcome :=
| RDone (bp : BytesPipe) (bs : list Z) (err : option PipeErr)
| RWait (bp : BytesPipe)
| RPanic.

Definition set_readBlock (bp : BytesPipe) (b : bool) : BytesPipe := mkPipe (buf bp) (bufLen bp) (closeErr bp) b.

Definition readBuffers (bp : BytesPipe) (room : Z) : readOutcome :=
  match drain (buf bp) (bufLen bp) room with
  | Some (bufs, n, bs) => RDone (mkPipe bufs n (closeErr bp) (readBlock bp)) bs None
  | None => RPanic
  end.

Definition readStart (bp : BytesPipe) (room : Z) : readOutcome :=
  if bufLen bp =? 0 then
    match closeErr bp with
    | Some e => RDone bp [] (Some e)
    | None => RWait (set_readBlock bp true)
    end
  else readBuffers bp room.

(** After [bp.wait.Wait()]. *)
Definition readResume (bp : BytesPipe) (room : Z) : readOutcome :=
  let bp := set_readBlock bp false in
  match closeErr bp with
  | Some e => if bufLen bp =? 0 then RDone bp [] (Some e) else readBuffers bp room
  | None => readBuffers bp room
  end.

Definition CloseWithError (bp : BytesPipe) (err : option PipeErr) : BytesPipe :=
  mkPipe (buf bp) (bufLen bp) (Some (match err with Some e => e | None => EOF end)) (readBlock bp).
Definition Close (bp : BytesPipe) : BytesPipe := CloseWithError bp None.

(** ** The pipe and its callers *)

(** [w_arg] is the slice that [Write] was called with, [w_rest] what is left of it. *)
Record writer := mkWriter { w_arg : list Z; w_rest : list Z; w_written : Z; w_cap : Z; w_woken : bool }.
Record reader := mkReader { r_room : Z; r_woken : bool }.

(** A call that has returned, with its argument and its results. *)
Inductive result :=
| Wrote (id : nat) (p : list Z) (n : Z) (err : option PipeErr)
| HasRead (id : nat) (room : Z) (bs : list Z) (err : option PipeErr).

Record PSys := mkPSys {
  pipe : BytesPipe;
  writers : gmap nat writer;
  readers : gmap nat reader;
  accepted : list (nat * list Z);
  returned : list result
}.

Definition NewPSys : PSys := mkPSys New ∅ ∅ [] [].

(** What the reads have returned, and what the pipe has taken from one [Write]. *)
Definition readBytes (r : result) : list Z := match r with HasRead _ _ bs _ => bs | _ => [] end.
Definition delivered (y : PSys) : list Z := concat (map readBytes (returned y)).
Definition chunksOf (id : nat) (l : list (nat * list Z)) : list Z := concat (filter (fun c => c.1 = id) l).*2.
Definition takenFrom (id : nat) (y : PSys) : list Z := chunksOf id (accepted y).

Definition wake_writers (ws : gmap nat writer) : gmap nat writer :=
  (fun w => mkWriter (w_arg w) (w_rest w) (w_written w) (w_cap w) true) <$> ws.
Definition wake_readers (rs : gmap nat reader) : gmap nat reader := (fun r => mkReader (r_room r) true) <$> rs.

(** [bp.wait.Broadcast()] *)
Definition broadcast (y : PSys) : PSys :=
  mkPSys (pipe y) (wake_writers (writers y)) (wake_readers (readers y)) (accepted y) (returned y).

(** The end of a segment of [Write] that had [p] of its argument left and [written] done: a
    call that returns broadcasts unless the pipe was closed, one that waits does so only for
    a blocked reader. *)
Definition endWrite (y : PSys) (id : nat) (arg p : list Z) (written : Z) (o : writeOutcome) : option PSys :=
  let took bp n rs := mkPSys bp (delete id (writers y)) (readers y)
                        (accepted y ++ [(id, take (Z.to_nat (n - written)) p)]) (returned y ++ rs) in
  match o with
  | WDone bp n (Some ErrClosed) => Some (took bp n [Wrote id arg n (Some ErrClosed)])
  | WDone bp n err => Some (broadcast (took bp n [Wrote id arg n err]))
  | WWait bp rest n cap =>
      let y' := if readBlock bp then broadcast (took bp n []) else took bp n [] in
      Some (mkPSys (pipe y') (<[id := mkWriter arg rest n cap false]> (writers y')) (readers y') (accepted y') (returned y'))
  | WFuel => None
  end.

Definition doWrite (y : PSys) (id : nat) (p : list Z) : option PSys :=
  endWrite y id p p 0 (writeStart (pipe y) p).
Definition wakeWriter (y : PSys) (id : nat) : option PSys :=
  match writers y !! id with
  | Some w => endWrite y id (w_arg w) (w_rest w) (w_written w) (writeResume (pipe y) (w_rest w) (w_written w) (w_cap w))
  | None => None
  end.

(** A read that ran its loop broadcasts; one that returns the close error does not. *)
Definition endRead (y : PSys) (id : nat) (room : Z) (o : readOutcome) : option PSys :=
  match o with
  | RDone bp bs err =>
      let y' := mkPSys bp (writers y) (delete id (readers y)) (accepted y) (returned y ++ [HasRead id room bs err]) in
      Some (match err with Some _ => y' | None => broadcast y' end)
  | RWait bp => Some (mkPSys bp (writers y) (<[id := mkReader room false]> (readers y)) (accepted y) (returned y))
  | RPanic => None
  end.

Definition doRead (y : PSys) (id : nat) (room : Z) : option PSys := endRead y id room (readStart (pipe y) room).
Definition wakeReader (y : PSys) (id : nat) : option PSys :=
  match readers y !! id with
  | Some r => endRead y id (r_room r) (readResume (pipe y) (r_room r))
  | None => None
  end.

Definition doClose (y : PSys) (err : option PipeErr) : PSys :=
  broadcast (mkPSys (CloseWithError (pipe y) err) (writers y) (readers y) (accepted y) (returned y)).
