(* ===== verification/BytesPipeTheorems.v ===== *)
(** * Correctness of the byte pipe

    The pipe is a queue of bytes whatever the interleaving of the calls, its size is
    bounded, and no wakeup is lost. *)

From S2P Require Import Prelude BytesPipe.

(** ** Buffers *)

Definition contents (bufs : list fixedBuffer) : list Z := concat (map fbUnread bufs).

Definition fb_ok (b : fixedBuffer) : Prop :=
  0 <= fb_lastRead b <= len (fb_data b) /\ len (fb_data b) <= fb_cap b /\ 1 <= fb_cap b <= maxCap.

(** The free space of the last buffer. *)
Definition lastFree (bufs : list fixedBuffer) : Z :=
  let b := List.last bufs (mkFixed [] 0 0) in fb_cap b - len (fb_data b).

Record pipe_ok (bp : BytesPipe) : Prop := {
  po_bufs : Forall fb_ok (buf bp);
  po_len : bufLen bp = len (contents (buf bp));
  po_bound : bufLen bp + lastFree (buf bp) <= blockThreshold - 1 + maxCap
}.

Lemma len_app l k : len (l ++ k) = len l + len k.
Proof. unfold len. rewrite length_app. lia. Qed.

Lemma len_nonneg l : 0 <= len l.
Proof. unfold len. lia. Qed.

Lemma len_take n l : 0 <= n <= len l -> len (take (Z.to_nat n) l) = n.
Proof. unfold len. intros. rewrite length_take. lia. Qed.

Lemma contents_app l k : contents (l ++ k) = contents l ++ contents k.
Proof. unfold contents. by rewrite map_app, concat_app. Qed.

Lemma contents_single b : contents [b] = fbUnread b.
Proof. unfold contents. simpl. by rewrite app_nil_r. Qed.

Lemma fbUnread_len b : fb_ok b -> len (fbUnread b) = fbLen b.
Proof. intros ([? ?]&_&_). unfold fbUnread, fbLen, len in *. rewrite length_drop. lia. Qed.

Lemma getBuffer_ok size : 1 <= size <= maxCap -> fb_ok (getBuffer size) /\ contents [getBuffer size] = [].
Proof.
  intros H. split; [|by rewrite contents_single].
  unfold fb_ok, getBuffer. cbn [fb_lastRead fb_data fb_cap]. change (len []) with 0. lia.
Qed.

Lemma lastFree_snoc l b : lastFree (l ++ [b]) = fb_cap b - len (fb_data b).
Proof. unfold lastFree. by rewrite last_last. Qed.

Lemma lastFree_nonneg bufs : Forall fb_ok bufs -> 0 <= lastFree bufs.
Proof.
  destruct bufs as [|b l _] using rev_ind; [done|].
  rewrite lastFree_snoc. intros [_ (_&?&_)%Forall_singleton]%Forall_app. lia.
Qed.

Lemma fbWrite_spec b p :
  fb_ok b ->
  let '(b', (n, err)) := fbWrite b p in
  n = Z.min (fb_cap b - len (fb_data b)) (len p) /\ 0 <= n <= len p
  /\ fb_ok b' /\ fb_cap b' = fb_cap b /\ fbUnread b' = fbUnread b ++ take (Z.to_nat n) p
  /\ len (fb_data b') = len (fb_data b) + n
  /\ err = if n <? len p then Some errBufferFull else None.
Proof.
  intros ([H1 H2]&H3&H4). unfold fbWrite. cbv zeta. set (n := Z.min _ _).
  assert (Hn : 0 <= n <= len p) by (pose proof (len_nonneg p); lia).
  assert (Hl : len (take (Z.to_nat n) p) = n) by (by apply len_take).
  cbn [fb_data fb_cap]. rewrite len_app, Hl.
  split_and!; cbn [fb_lastRead fb_data fb_cap]; rewrite ?len_app, ?Hl; try done; try lia.
  - unfold fb_ok. cbn [fb_lastRead fb_data fb_cap]. rewrite len_app, Hl. lia.
  - unfold fbUnread. cbn [fb_lastRead fb_data]. apply drop_app_le. unfold len in *. lia.
  - destruct (Z.ltb_spec n (len p)); [|done]. destruct (Z.eqb_spec (len (fb_data b) + n) (fb_cap b)); [done|lia].
Qed.

Lemma fbRead_spec b room :
  fb_ok b -> 0 <= room ->
  let '(b', bs) := fbRead b room in
  fb_ok b' /\ fb_cap b' = fb_cap b /\ fb_data b' = fb_data b /\ fbUnread b = bs ++ fbUnread b'
  /\ len bs = Z.min room (fbLen b) /\ fbLen b' = fbLen b - len bs.
Proof.
  intros Hok Hr. pose proof (fbUnread_len b Hok) as Hl. pose proof Hok as ([H1 H2]&H3&H4).
  unfold fbRead. set (bs := take _ _).
  assert (Hbs : len bs = Z.min room (fbLen b)).
  { rewrite <- Hl. subst bs. unfold len. rewrite length_take. lia. }
  split_and!; try done.
  - unfold fb_ok. cbn [fb_lastRead fb_data fb_cap]. unfold fbLen in *. pose proof (len_nonneg bs). lia.
  - unfold fbUnread at 2. cbn [fb_lastRead fb_data].
    rewrite Z2Nat.inj_add by (pose proof (len_nonneg bs); lia). rewrite <- drop_drop. fold (fbUnread b).
    subst bs. rewrite <- (take_drop (Z.to_nat room) (fbUnread b)) at 1. f_equal. unfold len.
    rewrite Nat2Z.id, length_take.
    destruct (decide (Z.to_nat room <= length (fbUnread b))%nat) as [Hle|Hgt]; [by rewrite Nat.min_l by lia|].
    rewrite Nat.min_r by lia. by rewrite !drop_ge by lia.
  - unfold fbLen. cbn [fb_lastRead fb_data]. lia.
Qed.

Lemma contents_cons b l : contents (b :: l) = fbUnread b ++ contents l.
Proof. done. Qed.

Lemma lastFree_cons b l : l <> [] -> lastFree (b :: l) = lastFree l.
Proof. intros Hl. unfold lastFree. by destruct l. Qed.

(** The loop of [Read] takes as much as fits from the front. *)
Lemma drain_spec bufs n room :
  Forall fb_ok bufs -> n = len (contents bufs) -> 0 <= room ->
  exists bufs' n' bs, drain bufs n room = Some (bufs', n', bs)
    /\ contents bufs = bs ++ contents bufs' /\ n' = len (contents bufs') /\ len bs = Z.min room n
    /\ Forall fb_ok bufs' /\ lastFree bufs' <= lastFree bufs.
Proof.
  revert n room. induction bufs as [|b bufs IH]; intros n room Hok Hn Hr.
  { change (len (contents [])) with 0 in Hn. subst n. exists [], 0, []. split_and!; try done. change (len []) with 0. lia. }
  apply Forall_cons_1 in Hok as [Hb Hok]. cbn [drain]. rewrite contents_cons, len_app in Hn.
  pose proof (fbUnread_len b Hb) as Hlb. pose proof (len_nonneg (contents bufs)) as Hc0. pose proof (len_nonneg (fbUnread b)) as Hb0.
  destruct (Z.leb_spec n 0) as [H0|H0].
  { exists (b :: bufs), n, []. split_and!; try done; [by rewrite contents_cons, len_app| |by constructor].
    change (len []) with 0. lia. }
  pose proof (fbRead_spec b room Hb Hr) as HR. destruct (fbRead b room) as [b' bs].
  destruct HR as (Hb'&Hcap&Hdata&Hu&Hbs&Hlen). rewrite (fbUnread_len b Hb) in *.
  pose proof (lastFree_nonneg bufs Hok) as Hf0.
  assert (Hfree : lastFree bufs <= lastFree (b :: bufs)).
  { destruct bufs as [|c l]; [|rewrite (lastFree_cons b (c :: l)) by done; lia]. change (lastFree []) with 0.
    unfold lastFree. simpl. destruct Hb as (_&?&_). lia. }
  assert (Hfree' : lastFree (b' :: bufs) = lastFree (b :: bufs)).
  { destruct bufs as [|c l]; [|by rewrite (lastFree_cons b (c :: l)), (lastFree_cons b' (c :: l))]. unfold lastFree. simpl. by rewrite Hcap, Hdata. }
  pose proof (fbUnread_len b' Hb') as Hlb'.
  assert (Hempty : fbLen b' = 0 -> fbUnread b' = []).
  { intros E. rewrite E in Hlb'. destruct (fbUnread b'); [done|]. unfold len in Hlb'. simpl in Hlb'. lia. }
  destruct (Z.eqb_spec (len bs) room) as [Er|Er].
  - destruct (Z.eqb_spec (fbLen b') 0) as [E0|E0].
    + exists bufs, (n - len bs), bs. rewrite contents_cons, Hu, (Hempty E0), app_nil_r. split_and!; try done; lia.
    + exists (b' :: bufs), (n - len bs), bs. rewrite !contents_cons, Hu, app_assoc, !len_app, Hlb'.
      split_and!; try done; try lia. by constructor.
  - destruct (Z.eqb_spec (fbLen b') 0) as [E0|E0]; [|lia].
    destruct (IH (n - len bs) (room - len bs) Hok ltac:(lia) ltac:(lia)) as (bufs'&n'&bs'&->&H1&H2&H3&H4&H5).
    exists bufs', n', (bs ++ bs'). rewrite contents_cons, Hu, (Hempty E0), app_nil_r, H1, len_app, app_assoc.
    split_and!; try done; lia.
Qed.

(** ** Writing *)

Definition full (bp : BytesPipe) : bool :=
  match buf bp with [] => false | l => lastFree l =? 0 end.

Lemma grown bp :
  pipe_ok bp ->
  let bufs := match buf bp with [] => [getBuffer 64] | l => l end in
  exists front b, bufs = front ++ [b] /\ removelast bufs = front /\ List.last bufs (getBuffer 64) = b
    /\ Forall fb_ok front /\ fb_ok b /\ contents (buf bp) = contents front ++ fbUnread b
    /\ bufLen bp + (fb_cap b - len (fb_data b)) <= blockThreshold - 1 + maxCap
    /\ (full bp = false -> 0 < fb_cap b - len (fb_data b)).
Proof.
  intros [H1 H2 H3]. unfold full. destruct (buf bp) as [|b0 l] eqn:E.
  - exists [], (getBuffer 64). cbv zeta. destruct (getBuffer_ok 64) as [Hok Hc]; [by unfold maxCap|].
    assert (bufLen bp = 0) as -> by (by rewrite H2). split_and!; try done.
  - cbv zeta. destruct (exists_last (l := b0 :: l)) as (front&b&Ef); [done|]. rewrite Ef in *.
    exists front, b. rewrite lastFree_snoc in *. apply Forall_app in H1 as [Hfr Hb]. apply (Forall_singleton fb_ok b) in Hb.
    split_and!; rewrite ?removelast_last, ?last_last, ?contents_app, ?contents_single; try done.
    intros Hf%Z.eqb_neq. destruct Hb as (_&?&_). lia.
Qed.

Definition write_post (bp : BytesPipe) (p : list Z) (written : Z) (o : writeOutcome) : Prop :=
  match o with
  | WFuel => False
  | WDone bp' n err =>
      pipe_ok bp' /\ closeErr bp' = closeErr bp /\ readBlock bp' = readBlock bp
      /\ written <= n <= written + len p
      /\ contents (buf bp') = contents (buf bp) ++ take (Z.to_nat (n - written)) p
      /\ match err with
         | None => n = written + len p
         | Some e => e = ErrClosed /\ is_Some (closeErr bp) /\ n = written /\ bp' = bp
         end
  | WWait bp' rest n cap =>
      pipe_ok bp' /\ closeErr bp' = None /\ closeErr bp = None /\ readBlock bp' = readBlock bp
      /\ written <= n <= written + len p
      /\ contents (buf bp') = contents (buf bp) ++ take (Z.to_nat (n - written)) p
      /\ rest = drop (Z.to_nat (n - written)) p /\ blockThreshold <= bufLen bp' /\ 1 <= cap <= maxCap
  end.

Lemma append_ok bp cap :
  pipe_ok bp -> bufLen bp < blockThreshold -> 1 <= cap <= maxCap ->
  let nextCap := if maxCap <? cap * 2 then maxCap else cap * 2 in
  let bp' := mkPipe (buf bp ++ [getBuffer nextCap]) (bufLen bp) (closeErr bp) (readBlock bp) in
  pipe_ok bp' /\ full bp' = false /\ contents (buf bp') = contents (buf bp).
Proof.
  intros [H1 H2 H3] Hl Hc nextCap bp'.
  assert (Hn : 1 <= nextCap <= maxCap).
  { subst nextCap. destruct (Z.ltb_spec maxCap (cap * 2)); unfold maxCap in *; lia. }
  destruct (getBuffer_ok nextCap Hn) as [Hok He].
  assert (Hcont : contents (buf bp') = contents (buf bp)) by (unfold bp'; cbn [buf]; by rewrite contents_app, He, app_nil_r).
  assert (Hfree : lastFree (buf bp ++ [getBuffer nextCap]) = nextCap) by (rewrite lastFree_snoc; apply Z.sub_0_r).
  split_and!; [constructor|..]; try done.
  - apply Forall_app_2; [done|by constructor].
  - by rewrite Hcont.
  - cbn [buf bufLen bp']. rewrite Hfree. lia.
  - unfold full. cbn [buf bp']. destruct (buf bp ++ _) eqn:E; [done|]. rewrite Hfree. apply Z.eqb_neq. lia.
Qed.

Lemma writeLoop_spec fuel bp p written :
  pipe_ok bp -> (length p + (if full bp then 1 else 0) < fuel)%nat ->
  write_post bp p written (writeLoop fuel bp p written).
Proof.
  revert bp p written. induction fuel as [|fuel IH]; intros bp p written Hok Hf; [lia|].
  cbn [writeLoop]. destruct (closeErr bp) as [e|] eqn:Ec.
  { cbn [write_post]. rewrite Z.sub_diag. change (Z.to_nat 0) with 0%nat. rewrite take_0, app_nil_r.
    pose proof (len_nonneg p). rewrite Ec. split_and!; try done; lia. }
  destruct (grown bp Hok) as (front&b&Hbufs&Hrl&Hlast&Hfront&Hb&Hcont&Hbound&Hfull).
  rewrite Hrl, Hlast. pose proof (fbWrite_spec b p Hb) as HW. destruct (fbWrite b p) as [b' [n err]].
  destruct HW as (Hn&Hn'&Hb'&Hcap&Hu&Hd&->).
  set (bp1 := mkPipe (front ++ [b']) (bufLen bp + n) None (readBlock bp)).
  assert (Hc1 : contents (buf bp1) = contents (buf bp) ++ take (Z.to_nat n) p).
  { unfold bp1. cbn [buf]. by rewrite contents_app, contents_single, Hu, Hcont, app_assoc. }
  assert (Hok1 : pipe_ok bp1).
  { constructor.
    - apply Forall_app_2; [done|by constructor].
    - rewrite Hc1, len_app, len_take by lia. cbn [bufLen bp1]. f_equal. apply Hok.
    - cbn [bufLen buf bp1]. rewrite lastFree_snoc. lia. }
  destruct (Z.ltb_spec n (len p)) as [Hlt|Hge].
  - destruct (Z.eqb_spec (len p) n); [lia|]. cbn [bufLen bp1].
    assert (Hdl : length (drop (Z.to_nat n) p) = (length p - Z.to_nat n)%nat) by apply length_drop.
    destruct (Z.leb_spec blockThreshold (bufLen bp + n)) as [Ht|Ht].
    + cbn [write_post]. replace (written + n - written) with n by lia. destruct Hb as (_&_&?).
      split_and!; done || lia.
    + destruct (append_ok bp1 (fb_cap b) Hok1 Ht) as (Hok2&Hf2&Hc2); [by destruct Hb as (_&_&?)|].
      cbv zeta in Hok2, Hf2, Hc2. cbn [buf bufLen closeErr readBlock bp1] in Hok2, Hf2, Hc2 |- *.
      set (bp2 := mkPipe (_ ++ [getBuffer _]) _ _ _) in *. change (contents (buf bp2) = contents (buf bp1)) in Hc2.
      specialize (IH bp2 (drop (Z.to_nat n) p) (written + n) Hok2).
      rewrite Hf2, Hdl in IH. unfold len in *.
      assert (Hstep : (length p - Z.to_nat n + 0 < fuel)%nat).
      { destruct (full bp) eqn:Efull; [lia|]. specialize (Hfull eq_refl). lia. }
      specialize (IH Hstep).
      assert (Htake : forall k, n <= k -> take (Z.to_nat n) p ++ take (Z.to_nat (k - n)) (drop (Z.to_nat n) p) = take (Z.to_nat k) p).
      { intros k Hk. rewrite <- (take_drop (Z.to_nat n) p) at 3. rewrite take_app_ge by (rewrite length_take; lia).
        rewrite length_take. f_equal. f_equal. lia. }
      destruct (writeLoop fuel bp2 _ _) as [bp' m err'|bp' rest m cap|]; [..|done].
      * cbn [write_post] in *. destruct IH as (I1&I2&I3&I4&I5&I6). unfold len in *. rewrite Hdl in *.
        split_and!; try done; try lia.
        -- by rewrite I2.
        -- rewrite I5, Hc2, Hc1, <- app_assoc. f_equal. rewrite <- (Htake (m - written)) by lia. do 2 f_equal. lia.
        -- destruct err'; [|lia]. destruct I6 as (_&[? I6]&_). done.
      * cbn [write_post] in *. destruct IH as (I1&I2&I3&I4&I5&I6&I7&I8&I9). unfold len in *. rewrite Hdl in *.
        split_and!; try done; try lia.
        -- rewrite I6, Hc2, Hc1, <- app_assoc. f_equal. rewrite <- (Htake (m - written)) by lia. do 2 f_equal. lia.
        -- rewrite I7, drop_drop. f_equal. lia.
  - assert (n = len p) as -> by lia. rewrite Z.eqb_refl. cbn [write_post].
    replace (written + len p - written) with (len p) by lia. split_and!; try done; lia.
Qed.

(** ** The system *)

(** A new call, a waiting call that was woken, or a close, in any order; every [Write] has an
    identity of its own. *)
Inductive p_step (y y' : PSys) : Prop :=
| PWrite id p : id ∉ (accepted y).*1 -> doWrite y id p = Some y' -> p_step y y'
| PWakeWriter id w : writers y !! id = Some w -> w_woken w = true -> wakeWriter y id = Some y' -> p_step y y'
| PRead id room : readers y !! id = None -> 0 <= room -> doRead y id room = Some y' -> p_step y y'
| PWakeReader id r : readers y !! id = Some r -> r_woken r = true -> wakeReader y id = Some y' -> p_step y y'
| PClose err : doClose y err = y' -> p_step y y'.

(** What a [Write] returns: all bytes are taken unless the pipe is closed, and then as many as
    it says. *)
Definition write_result (y : PSys) (id : nat) (p : list Z) (n : Z) (err : option PipeErr) : Prop :=
  0 <= n <= len p /\ takenFrom id y = take (Z.to_nat n) p /\
  match err with None => n = len p | Some e => e = ErrClosed /\ is_Some (closeErr (pipe y)) end.

(** The queue and the two logs. *)
Record logs_ok (y : PSys) : Prop := {
  lg_pipe : pipe_ok (pipe y);
  lg_queue : delivered y ++ contents (buf (pipe y)) = concat (accepted y).*2;
  lg_writer id w : writers y !! id = Some w -> 1 <= w_cap w <= maxCap /\ takenFrom id y ++ w_rest w = w_arg w /\
    w_written w = len (takenFrom id y) /\ id ∈ (accepted y).*1;
  lg_wrote id p n err : Wrote id p n err ∈ returned y -> writers y !! id = None /\ id ∈ (accepted y).*1 /\
    write_result y id p n err;
  lg_read id room bs err : HasRead id room bs err ∈ returned y -> len bs <= room /\
    (err <> None -> bs = [] /\ is_Some (closeErr (pipe y)));
  lg_rooms id r : readers y !! id = Some r -> 0 <= r_room r }.

Record psys_ok (y : PSys) : Prop := {
  ps_logs : logs_ok y;
  ps_asleep : forall id w, writers y !! id = Some w -> w_woken w = false ->
    blockThreshold <= bufLen (pipe y) /\ closeErr (pipe y) = None;
  ps_reader : forall id r, readers y !! id = Some r -> r_woken r = false ->
    readBlock (pipe y) = true /\ bufLen (pipe y) = 0 /\ closeErr (pipe y) = None
}.

Lemma chunksOf_snoc id id' c l : chunksOf id' (l ++ [(id, c)]) = if decide (id = id') then chunksOf id' l ++ c else chunksOf id' l.
Proof.
  unfold chunksOf. rewrite list.filter_app, fmap_app, concat_app. case_decide as E.
  - by rewrite filter_cons_True; [cbn; rewrite app_nil_r|].
  - rewrite filter_cons_False by done. cbn. by rewrite app_nil_r.
Qed.

Lemma chunksOf_new id l : id ∉ l.*1 -> chunksOf id l = [].
Proof.
  induction l as [|[j c] l IH]; [done|]. rewrite fmap_cons, not_elem_of_cons. intros [Hne Hin]. unfold chunksOf.
  rewrite filter_cons_False by (intros E; by apply Hne). by apply IH.
Qed.

Lemma concat_snoc {A} (l : list (nat * list A)) id c : concat (l ++ [(id, c)]).*2 = concat l.*2 ++ c.
Proof. rewrite fmap_app, concat_app. cbn. by rewrite app_nil_r. Qed.

Lemma delivered_snoc rs r : concat (map readBytes (rs ++ [r])) = concat (map readBytes rs) ++ readBytes r.
Proof. rewrite map_app, concat_app. cbn. by rewrite app_nil_r. Qed.

Lemma broadcast_ok y : logs_ok y -> psys_ok (broadcast y).
Proof.
  intros [H1 H2 H3 H4 H5 H6]. split; [split; try done|..]; cbn [writers readers broadcast].
  - intros id w. unfold wake_writers. rewrite lookup_fmap_Some. intros (w0&<-&E). by apply (H3 id w0).
  - intros id p n err Hin. cbn [returned broadcast] in Hin. apply H4 in Hin as (E&?&?). unfold wake_writers. by rewrite lookup_fmap, E.
  - intros id r. unfold wake_readers. rewrite lookup_fmap_Some. intros (r0&<-&E). by apply (H6 id r0).
  - intros id w. unfold wake_writers. rewrite lookup_fmap_Some. by intros (w0&<-&E).
  - intros id r. unfold wake_readers. rewrite lookup_fmap_Some. by intros (r0&<-&E).
Qed.

(** A segment of [Write] takes [c] and leaves [rest]. *)
Lemma take_chunk y id bp c arg p :
  psys_ok y -> pipe_ok bp -> closeErr bp = closeErr (pipe y) -> contents (buf bp) = contents (buf (pipe y)) ++ c ->
  takenFrom id y ++ p = arg -> (forall q n e, Wrote id q n e ∉ returned y) ->
  let y1 rs := mkPSys bp (delete id (writers y)) (readers y) (accepted y ++ [(id, c)]) (returned y ++ rs) in
  takenFrom id (y1 []) = takenFrom id y ++ c /\ logs_ok (y1 []) /\
  forall n err, write_result (y1 []) id arg n err -> logs_ok (y1 [Wrote id arg n err]).
Proof.
  intros [[Y1 Y2 Y3 Y4 Y5 Y6] _ _] Hbp Hce Hc Harg Hnew y1.
  assert (Htk : forall id', takenFrom id' (y1 []) = if decide (id = id') then takenFrom id' y ++ c else takenFrom id' y) by (intros; apply chunksOf_snoc).
  assert (Hid : forall id' rs, id' ∈ (accepted y).*1 -> id' ∈ (accepted (y1 rs)).*1) by (intros id' rs ?; cbn [accepted y1]; rewrite fmap_app; set_solver).
  assert (Hlog : logs_ok (y1 [])).
  { split; cbn [pipe writers readers returned y1]; rewrite ?app_nil_r; try done.
    - unfold delivered. cbn [returned accepted y1]. by rewrite app_nil_r, concat_snoc, Hc, app_assoc, <- Y2.
    - intros id' w. rewrite lookup_delete_Some. intros [Hne E]. destruct (Y3 id' w E) as ([? ?]&?&?&?). rewrite Htk, decide_False by done.
      split_and!; try done. by apply (Hid id' []).
    - intros id' p' n err Hin. destruct (Y4 id' p' n err Hin) as (E&?&Hr). rewrite lookup_delete_None. split_and!; [by right|by apply Hid|].
      unfold write_result. rewrite Htk, decide_False by (intros ->; by apply Hnew in Hin). cbn [pipe y1]. by rewrite Hce.
    - intros id' room bs err Hin. rewrite Hce. by apply Y5 in Hin. }
  split; [by rewrite Htk, decide_True|]. split; [done|]. intros n err Hres. destruct Hlog as [L1 L2 L3 L4 L5 L6].
  cbn [pipe writers readers returned y1] in *. rewrite app_nil_r in *.
  split; cbn [pipe writers readers returned y1]; try done.
  - unfold delivered in *. cbn [returned y1] in *. rewrite app_nil_r in L2. rewrite delivered_snoc, app_nil_r. exact L2.
  - intros id' p' n' err'. rewrite elem_of_app, list_elem_of_singleton. intros [Hin|[= -> -> -> ->]]; [by apply L4|].
    rewrite lookup_delete_eq. split_and!; [done|cbn [accepted y1]; rewrite fmap_app; set_solver|exact Hres].
  - intros id' room bs err'. rewrite elem_of_app, list_elem_of_singleton. intros [Hin|?]; [by apply (L5 id')|done].
Qed.

Lemma endWrite_ok y id arg p written o :
  psys_ok y -> write_post (pipe y) p written o -> takenFrom id y ++ p = arg -> written = len (takenFrom id y) ->
  (forall q n e, Wrote id q n e ∉ returned y) ->
  exists y', endWrite y id arg p written o = Some y' /\ psys_ok y'.
Proof.
  intros Hy Hpost Harg Hwr Hnew. pose proof Hy as [_ Y5 Y6]. destruct o as [bp n err|bp rest n cap|]; [..|done].
  - destruct Hpost as (P1&P2&P3&P4&P5&P6).
    destruct (take_chunk y id bp _ arg p Hy P1 P2 P5 Harg Hnew) as (Htk&_&Hlog). cbv zeta in *.
    assert (Hres : write_result (mkPSys bp (delete id (writers y)) (readers y) (accepted y ++ [(id, take (Z.to_nat (n - written)) p)]) (returned y ++ [])) id arg n err).
    { unfold write_result. rewrite Htk, <- Harg, len_app. pose proof (len_nonneg (takenFrom id y)). split_and!; [lia|lia| |].
      - rewrite take_app_ge by (unfold len in *; lia). do 2 f_equal. unfold len in *. lia.
      - destruct err as [e|]; [destruct P6 as (->&?&_); cbn [pipe]; by rewrite P2|lia]. }
    specialize (Hlog n err Hres). cbn [endWrite]. destruct err as [e|].
    + destruct P6 as (->&[c Hc]&->&->). eexists. split; [done|]. split; [done| |]; cbn [pipe writers readers]; [|done].
      intros i w. rewrite lookup_delete_Some. intros [_ E]. by apply (Y5 i).
    + eexists. split; [done|by apply broadcast_ok].
  - destruct Hpost as (P1&P2&P3&P4&P5&P6&P7&P8&P9).
    destruct (take_chunk y id bp _ arg p Hy P1 ltac:(by rewrite P2) P6 Harg Hnew) as (Htk&Hlog&_). cbv zeta in *.
    cbn [endWrite]. set (y1 := mkPSys bp _ _ _ _) in *. set (y2 := if readBlock bp then broadcast y1 else y1).
    assert (Hb : logs_ok y2 /\ pipe y2 = bp /\ accepted y2 = accepted y1 /\ returned y2 = returned y1).
    { unfold y2. destruct (readBlock bp); [|done]. split; [by apply broadcast_ok|done]. }
    destruct Hb as ([L1 L2 L3 L4 L5 L6]&Hpipe&Hacc&Hret).
    assert (Hnone : writers y2 !! id = None).
    { unfold y2. destruct (readBlock bp); cbn [writers broadcast y1]; [unfold wake_writers; rewrite lookup_fmap|]; by rewrite lookup_delete_eq. }
    assert (Hrooms : forall i r, readers y2 !! i = Some r -> r_woken r = false -> readBlock bp = false /\ readers y !! i = Some r).
    { intros i r. unfold y2. destruct (readBlock bp); [|done]. cbn [readers broadcast y1]. unfold wake_readers. rewrite lookup_fmap_Some. by intros (r0&<-&E). }
    eexists. split; [reflexivity|]. split; [split|..]; cbn [pipe writers readers accepted returned]; try done.
    + intros i w. rewrite lookup_insert_Some. intros [[<- <-]|[Hne E]]; [|by apply (L3 i)]. unfold takenFrom in *.
      cbn [accepted w_rest w_arg w_written w_cap]. rewrite Hacc, Htk, P7, <- app_assoc, take_drop, len_app, len_take by lia.
      split_and!; try done; try lia. cbn [accepted y1]. rewrite fmap_app. set_solver.
    + intros i p' n' err Hin. destruct (L4 i p' n' err Hin) as (E&?&?). split_and!; try done. rewrite lookup_insert_ne; [done|].
      intros <-. rewrite Hret in Hin. cbn [returned y1] in Hin. rewrite app_nil_r in Hin. by apply Hnew in Hin.
    + intros i w. rewrite lookup_insert_Some, Hpipe. intros [[_ <-]|[_ E]] Hs; [done|]. done.
    + intros i r E Hs. destruct (Hrooms i r E Hs) as [Hb E0]. destruct (Y6 i r E0 Hs) as [Hb' _]. congruence.
Qed.

Definition read_post (bp : BytesPipe) (o : readOutcome) (room : Z) : Prop :=
  match o with
  | RPanic => False
  | RDone bp' bs err =>
      pipe_ok bp' /\ closeErr bp' = closeErr bp /\ contents (buf bp) = bs ++ contents (buf bp')
      /\ match err with
         | Some e => closeErr bp = Some e /\ bs = [] /\ bufLen bp = 0
         | None => len bs = Z.min room (bufLen bp)
         end
  | RWait bp' => bp' = set_readBlock bp true /\ bufLen bp = 0 /\ closeErr bp = None
  end.

Lemma readBuffers_ok bp room : pipe_ok bp -> 0 <= room -> read_post bp (readBuffers bp room) room.
Proof.
  intros [H1 H2 H3] Hr. destruct (drain_spec (buf bp) (bufLen bp) room H1 H2 Hr) as (bufs&n&bs&E&E1&E2&E3&E4&E5).
  unfold readBuffers. rewrite E. cbn [read_post closeErr buf]. split_and!; try done. constructor; cbn [buf bufLen]; try done.
  assert (n <= bufLen bp) by (rewrite H2, E1, len_app, <- E2; pose proof (len_nonneg bs); lia). lia.
Qed.

Lemma readBlock_ok bp b : pipe_ok bp -> pipe_ok (set_readBlock bp b).
Proof. intros []. by constructor. Qed.

Lemma readStart_ok bp room : pipe_ok bp -> 0 <= room -> read_post bp (readStart bp room) room.
Proof.
  intros Hok Hr. unfold readStart. destruct (Z.eqb_spec (bufLen bp) 0); [|by apply readBuffers_ok].
  by destruct (closeErr bp) eqn:Ec.
Qed.

Lemma readResume_ok bp room : pipe_ok bp -> 0 <= room -> read_post bp (readResume bp room) room.
Proof.
  intros Hok Hr. pose proof (readBlock_ok bp false Hok) as Hok'.
  pose proof (readBuffers_ok (set_readBlock bp false) room Hok' Hr) as Hb. unfold readResume. cbv zeta.
  change (closeErr (set_readBlock bp false)) with (closeErr bp). change (bufLen (set_readBlock bp false)) with (bufLen bp).
  destruct (closeErr bp) as [e|] eqn:Ec.
  - destruct (Z.eqb_spec (bufLen bp) 0); [by cbn [read_post]|].
    destruct (readBuffers _ room); cbn [read_post] in *; try done.
  - destruct (readBuffers _ room); cbn [read_post] in *; try done.
Qed.

Lemma endRead_ok y id room o :
  psys_ok y -> read_post (pipe y) o room -> 0 <= room ->
  exists y', endRead y id room o = Some y' /\ psys_ok y'.
Proof.
  intros [[Y1 Y2 Y3 Y4 Y5 Y6] Y7 Y8] Hpost Hr. destruct o as [bp bs err|bp|]; [..|done].
  - destruct Hpost as (P1&P2&P3&P4). cbn [endRead]. set (y1 := mkPSys bp _ _ _ _).
    assert (Hlog : logs_ok y1).
    { split; cbn [pipe writers readers accepted returned y1]; try done.
      - unfold delivered in *. cbn [returned accepted y1]. rewrite delivered_snoc. cbn [readBytes]. by rewrite <- app_assoc, <- P3.
      - intros i p n e. rewrite elem_of_app, list_elem_of_singleton. intros [Hin|?]; [|done]. unfold write_result. cbn [pipe y1]. rewrite P2. by apply Y4.
      - intros i rm b e. rewrite elem_of_app, list_elem_of_singleton, P2. intros [Hin|[= -> -> -> ->]]; [by apply (Y5 i)|].
        destruct err as [e|]; [destruct P4 as (Hc&->&_); change (len []) with 0; by rewrite Hc|split; [lia|done]].
      - intros i r. rewrite lookup_delete_Some. intros [_ E]. by apply (Y6 i). }
    destruct err as [e|]; eexists; (split; [done|]); [|by apply broadcast_ok]. destruct P4 as (Hc&->&H0).
    split; [done| |]; cbn [pipe writers readers y1]; rewrite P2.
    + intros i w E Hs. destruct (Y7 i w E Hs) as [_ Hc']. congruence.
    + intros i r. rewrite lookup_delete_Some. intros [_ E] Hs. destruct (Y8 i r E Hs) as (_&_&Hc'). congruence.
  - destruct Hpost as (->&H0&Hc). cbn [endRead]. eexists. split; [reflexivity|].
    split; [split|..]; cbn [pipe writers readers accepted returned]; try done; [by apply readBlock_ok|].
    intros i r. rewrite lookup_insert_Some. intros [[_ <-]|[_ E]]; [done|by apply (Y6 i)].
Qed.

Lemma doWrite_ok y id p :
  psys_ok y -> id ∉ (accepted y).*1 -> exists y', doWrite y id p = Some y' /\ psys_ok y'.
Proof.
  intros Hy Hid. pose proof (chunksOf_new _ _ Hid) as Hc. apply endWrite_ok; unfold takenFrom; rewrite ?Hc; try done.
  - apply writeLoop_spec; [apply Hy|]. unfold writeFuel. destruct (full (pipe y)); lia.
  - intros q n e Hin. by apply (lg_wrote y (ps_logs y Hy)) in Hin as (_&?&_).
Qed.

Lemma writeResume_ok y id w : psys_ok y -> writers y !! id = Some w ->
  write_post (pipe y) (w_rest w) (w_written w) (writeResume (pipe y) (w_rest w) (w_written w) (w_cap w)).
Proof.
  intros Hy E. unfold writeResume. pose proof (lg_pipe _ (ps_logs y Hy)) as Hp.
  assert (Hfuel : forall bp, (length (w_rest w) + (if full bp then 1 else 0) < writeFuel (w_rest w))%nat).
  { intros bp. unfold writeFuel. destruct (full bp); lia. }
  destruct (lg_writer y (ps_logs y Hy) id w E) as (Hcap&_).
  destruct (closeErr (pipe y)) as [e|] eqn:Ec; [by apply writeLoop_spec|].
  destruct (Z.leb_spec blockThreshold (bufLen (pipe y))) as [Ht|Ht].
  - cbn [write_post]. rewrite Z.sub_diag. change (Z.to_nat 0) with 0%nat. rewrite take_0, drop_0, app_nil_r.
    pose proof (len_nonneg (w_rest w)). split_and!; try done; lia.
  - destruct (append_ok (pipe y) (w_cap w) Hp Ht Hcap) as (Hok&_&Hc). rewrite Ec in *.
    set (bp := mkPipe _ _ _ _) in *. pose proof (writeLoop_spec (writeFuel (w_rest w)) bp (w_rest w) (w_written w) Hok (Hfuel bp)) as H.
    destruct (writeLoop _ bp _ _) as [bp' n err|bp' rest n cap|]; cbn [write_post] in *; [..|done]; rewrite Hc in H; rewrite Ec.
    + destruct H as (H1&H2&H3&H4&H5&H6). split_and!; try done; try lia. destruct err; [|done]. by destruct H6 as (_&[? H6]&_).
    + destruct H as (H1&H2&H3&H4&H5&H6&H7&H8&H9). split_and!; done || lia.
Qed.

Lemma wakeWriter_ok y id w :
  psys_ok y -> writers y !! id = Some w ->
  exists y', wakeWriter y id = Some y' /\ psys_ok y'.
Proof.
  intros Hy E. unfold wakeWriter. rewrite E. destruct (lg_writer y (ps_logs y Hy) id w E) as (_&Ha&Hw&_).
  apply endWrite_ok; try done; [by eapply writeResume_ok|]. intros q n e Hin. apply (lg_wrote y (ps_logs y Hy)) in Hin as (?&_). congruence.
Qed.

Lemma p_step_ok y y' : p_step y y' -> psys_ok y -> psys_ok y'.
Proof.
  intros Hs Hy. pose proof (ps_logs y Hy) as Hl. destruct Hs as [id p Hid H|id w E _ H|id room E Hr H|id r E _ H|err <-].
  - destruct (doWrite_ok y id p Hy Hid) as (y1&E1&?). congruence.
  - destruct (wakeWriter_ok y id w Hy E) as (y1&E1&?). congruence.
  - destruct (endRead_ok y id room _ Hy (readStart_ok (pipe y) room (lg_pipe y Hl) Hr) Hr) as (y1&E1&?).
    unfold doRead in H. congruence.
  - pose proof (lg_rooms y Hl id r E) as Hr. unfold wakeReader in H. rewrite E in H.
    destruct (endRead_ok y id (r_room r) _ Hy (readResume_ok (pipe y) (r_room r) (lg_pipe y Hl) Hr) Hr) as (y1&E1&?).
    congruence.
  - apply broadcast_ok. destruct Hl as [[H1 H2 H3] Y2 Y3 Y4 Y5 Y6]. split; cbn [pipe writers readers accepted returned CloseWithError]; try done.
    + intros i p n e Hin. destruct (Y4 i p n e Hin) as (?&?&?&?&Hm). unfold write_result. split_and!; try done; try lia.
      destruct e; [|done]. destruct Hm as [-> _]. split; [done|by eexists].
    + intros i rm b e Hin. destruct (Y5 i rm b e Hin) as [? Hm]. split; [done|]. intros Hne. destruct (Hm Hne). split; [done|by eexists].
Qed.

Lemma pipe_reachable_ok y : rtc p_step NewPSys y -> psys_ok y.
Proof.
  intros Hrun. assert (H0 : psys_ok NewPSys).
  { split; [split|..]; try done; try (intros ? ? ? ? ?%elem_of_nil; done). split; try done. constructor; [|done]. by apply getBuffer_ok. }
  induction Hrun as [|x y z Hs _ IH]; [done|]. apply IH. by eapply p_step_ok.
Qed.

(** A read that does not wait takes what there is, up to its room. *)
Lemma endRead_takes y id room o :
  read_post (pipe y) o room -> 0 <= room -> (forall bp, o = RWait bp -> False) ->
  exists y' bs err, endRead y id room o = Some y' /\ returned y' = returned y ++ [HasRead id room bs err] /\
    len bs = Z.min room (bufLen (pipe y)) /\ (err = None \/ bufLen (pipe y) = 0 /\ err = closeErr (pipe y)).
Proof.
  intros Hpost Hr Hw. destruct o as [bp bs err|bp|]; [|by destruct (Hw bp)|done]. destruct Hpost as (_&_&_&Hp). cbn [endRead].
  eexists _, bs, err. split; [done|]. destruct err as [e|]; cbn [returned broadcast]; (split; [done|]); [|auto].
  destruct Hp as (->&->&->). change (len []) with 0. split; [lia|auto].
Qed.

(** ** Theorems *)

(** C37: the pipe is a bounded queue: whatever writers, readers, waits and closes are
    interleaved, the bytes that the reads have returned and then those still buffered are
    exactly the bytes taken from the writes, in order; the count of buffered bytes is right
    and stays below the threshold and one buffer.  A [Write] that waits, however often, has
    its bytes in the pipe up to what it still has to write; one that has returned has handed
    over all its bytes, or the pipe was closed and it has handed over as many as it says.  A
    [Read] fails only when the pipe is closed, and then has taken nothing.  No call panics or
    loops, whether it starts or is woken; a read takes as many bytes as there are up to its
    room, also after it has waited. *)
Theorem bytespipe_queue y :
  rtc p_step NewPSys y ->
  delivered y ++ contents (buf (pipe y)) = concat (accepted y).*2
  /\ bufLen (pipe y) = len (contents (buf (pipe y))) /\ bufLen (pipe y) < blockThreshold + maxCap
  /\ (forall id w, writers y !! id = Some w -> takenFrom id y ++ w_rest w = w_arg w /\ w_written w = len (takenFrom id y))
  /\ (forall id p n err, Wrote id p n err ∈ returned y -> write_result y id p n err)
  /\ (forall id room bs err, HasRead id room bs err ∈ returned y ->
        len bs <= room /\ (err <> None -> bs = [] /\ is_Some (closeErr (pipe y))))
  /\ (forall id p, id ∉ (accepted y).*1 -> is_Some (doWrite y id p))
  /\ (forall id w, writers y !! id = Some w -> is_Some (wakeWriter y id))
  /\ (forall id room, 0 <= room -> exists y', doRead y id room = Some y'
        /\ (0 < bufLen (pipe y) -> exists bs, returned y' = returned y ++ [HasRead id room bs None] /\ len bs = Z.min room (bufLen (pipe y))))
  /\ (forall id r, readers y !! id = Some r -> exists y' bs err, wakeReader y id = Some y'
        /\ returned y' = returned y ++ [HasRead id (r_room r) bs err] /\ len bs = Z.min (r_room r) (bufLen (pipe y))
        /\ (err = None \/ bufLen (pipe y) = 0 /\ err = closeErr (pipe y))).
Proof.
  intros Hrun. pose proof (pipe_reachable_ok y Hrun) as Hy. pose proof (ps_logs y Hy) as [[P1 P2 P3] Y2 Y3 Y4 Y5 Y6]. split_and!; try done.
  - pose proof (lastFree_nonneg _ P1). lia.
  - intros id w E. by destruct (Y3 id w E) as (_&?&?&_).
  - intros id p n err Hin. by apply Y4 in Hin as (_&_&?).
  - intros id p Hid. destruct (doWrite_ok y id p Hy Hid) as (y'&E&_). by eexists.
  - intros id w E. destruct (wakeWriter_ok y id w Hy E) as (y'&E'&_). by eexists.
  - intros id room Hr. pose proof (readStart_ok (pipe y) room (lg_pipe y (ps_logs y Hy)) Hr) as Hpost.
    destruct (endRead_ok y id room _ Hy Hpost Hr) as (y'&E&_). exists y'. split; [done|]. intros Hpos.
    destruct (endRead_takes y id room _ Hpost Hr) as (y2&bs&err&E2&Hret&Hl&He).
    + intros bp Hw. rewrite Hw in Hpost. destruct Hpost as (_&H0&_). lia.
    + unfold doRead in E. rewrite E in E2. injection E2 as <-. exists bs. destruct He as [->|[H0 _]]; [done|lia].
  - intros id r E. unfold wakeReader. rewrite E. apply endRead_takes; [|by apply (Y6 id)|].
    + apply readResume_ok; [done|by apply (Y6 id)].
    + intros bp. unfold readResume, readBuffers. destruct (closeErr (pipe y)); cbn [closeErr set_readBlock buf bufLen]; repeat case_match; done.
Qed.

Definition pipe_run1 : PSys := default NewPSys (doRead NewPSys 0 4).
Definition pipe_run2 : PSys := default NewPSys (doWrite pipe_run1 0 [1; 2; 3; 4; 5; 6]).
Definition pipe_run3 : PSys := default NewPSys (wakeReader pipe_run2 0).

Lemma pipe_run3_reachable : rtc p_step NewPSys pipe_run3.
Proof.
  eapply rtc_l; [by apply (PRead NewPSys pipe_run1 0 4)|].
  eapply rtc_l; [by apply (PWrite pipe_run1 pipe_run2 0 [1; 2; 3; 4; 5; 6]); [apply not_elem_of_nil|]|].
  apply rtc_once. by apply (PWakeReader pipe_run2 pipe_run3 0 (mkReader 4 true)).
Qed.

Lemma bytespipe_queue_witness :
  delivered pipe_run3 = [1; 2; 3; 4] /\ delivered pipe_run3 ++ contents (buf (pipe pipe_run3)) = [1; 2; 3; 4; 5; 6].
Proof.
  split; [reflexivity|]. exact (proj1 (bytespipe_queue pipe_run3 pipe_run3_reachable)).
Defined.

(** no wakeup is lost: a reader that sleeps without a pending wakeup finds the pipe empty and
    open, a writer that does finds it full and open; so they never both sleep, and after a
    close nobody does. *)
Theorem bytespipe_no_lost_wakeup y :
  rtc p_step NewPSys y ->
  (forall id r, readers y !! id = Some r -> r_woken r = false -> bufLen (pipe y) = 0 /\ closeErr (pipe y) = None)
  /\ (forall id w, writers y !! id = Some w -> w_woken w = false ->
        blockThreshold <= bufLen (pipe y) /\ closeErr (pipe y) = None
        /\ forall id' r, readers y !! id' = Some r -> r_woken r = true).
Proof.
  intros Hrun. pose proof (pipe_reachable_ok y Hrun) as Hy. split.
  - intros id r E Hs. by apply (ps_reader y Hy id r E) in Hs as (_&?&?).
  - intros id w E Hs. destruct (ps_asleep y Hy id w E Hs) as [Ht Hc]. split_and!; [done..|].
    intros id' r E'. destruct (r_woken r) eqn:Hw; [done|]. destruct (ps_reader y Hy id' r E' Hw) as (_&H0&_).
    unfold blockThreshold in Ht. lia.
Qed.

Lemma bytespipe_no_lost_wakeup_witness :
  readers pipe_run1 !! 0%nat = Some (mkReader 4 false) /\ bufLen (pipe pipe_run1) = 0 /\ closeErr (pipe pipe_run1) = None.
Proof.
  split; [reflexivity|].
  refine (proj1 (bytespipe_no_lost_wakeup pipe_run1 _) 0%nat (mkReader 4 false) eq_refl eq_refl).
  apply rtc_once. by apply (PRead NewPSys pipe_run1 0 4).
Defined.
