(* ===== verification/NetworkDB.v ===== *)
(** * The gossip database of libnetwork ([daemon/libnetwork/networkdb])

    Every node of a swarm keeps a copy of the tables of the networks it joined.  Changes
    travel as events stamped with Lamport times; watchers of a table receive what changed.
    The model follows [networkdb.go], [delegate.go], [nodemgmt.go], [event_delegate.go],
    [watch.go], [broadcast.go] and the reaper and bulk sync of [cluster.go].

    - The two radix trees are finite maps from paths to entries, walked in byte order of
      the paths.  Both hold the same entry object; the one field that is changed in place
      ([reapTime], by the reaper) is changed in both.
    - Messages are values; protobuf coding and the transport are left out.  A transmit
      queue is the list of the messages handed to it, [NumQueued] says how many of them a
      queue still holds, [SendReliable] whether a peer can be reached.
    - An index out of range of a split path sets [panicked].
    - A method is one step, except [JoinNetwork], which marks the network as synced in a
      second step after the bulk sync. *)

From Stdlib Require Import Ascii.
From S2P Require Import Prelude Slices.
Open Scope string_scope.
Open Scope list_scope.
Open Scope Z_scope.

(** [[]byte]: [None] is [nil]. *)
Abbreviation bytes := (option string).

(** ** Time ([time.Duration] in nanoseconds) *)

Definition Second : Z := 1000000000.
Definition Hour : Z := 3600 * Second.
Definition reapPeriod : Z := 5 * Second.
Definition nodeReapInterval : Z := 24 * Hour.
Definition nodeReapPeriod : Z := 2 * Hour.
Definition maxQueueLenBroadcastOnSync : Z := 500.

(** [int32(d.Seconds())] *)
Definition Seconds (d : Z) : Z := Z.quot d Second.

(** ** Lamport clocks ([serf.LamportClock]) *)

Definition Increment (clock : Z) : Z := add64 clock 1.
Definition Witness (clock v : Z) : Z := if v <? clock then clock else add64 v 1.

(** ** Data *)

Record entry := Entry {
  e_node : string;
  e_ltime : Z;
  e_value : bytes;
  e_deleting : bool;
  e_reapTime : Z
}.

Record node := Node {
  nd_Name : string;
  nd_Addr : string;
  nd_Port : Z;
  nd_ltime : Z;
  nd_reapTime : Z
}.

Record network := Network {
  nw_ltime : Z;
  nw_leaving : bool;
  nw_reapTime : Z
}.

Inductive NodeEvent_Type := NodeEventTypeInvalid | NodeEventTypeJoin | NodeEventTypeLeave.
Inductive NetworkEvent_Type :=
  NetworkEventTypeInvalid | NetworkEventTypeJoin | NetworkEventTypeLeave.
Inductive TableEvent_Type :=
  TableEventTypeInvalid | TableEventTypeCreate | TableEventTypeUpdate | TableEventTypeDelete.

#[export] Instance NodeEvent_Type_eq : EqDecision NodeEvent_Type.
Proof. solve_decision. Defined.
#[export] Instance NetworkEvent_Type_eq : EqDecision NetworkEvent_Type.
Proof. solve_decision. Defined.
#[export] Instance TableEvent_Type_eq : EqDecision TableEvent_Type.
Proof. solve_decision. Defined.

Record NodeEvent := MkNodeEvent {
  ne_Type : NodeEvent_Type;
  ne_LTime : Z;
  ne_NodeName : string
}.

Record NetworkEvent := MkNetworkEvent {
  we_Type : NetworkEvent_Type;
  we_LTime : Z;
  we_NodeName : string;
  we_NetworkID : string
}.

Record TableEvent := MkTableEvent {
  te_Type : TableEvent_Type;
  te_LTime : Z;
  te_NodeName : string;
  te_NetworkID : string;
  te_TableName : string;
  te_Key : string;
  te_Value : bytes;
  te_ResidualReapTime : Z
}.

Record WatchEvent := MkWatchEvent {
  wt_Table : string;
  wt_NetworkID : string;
  wt_Key : string;
  wt_Value : bytes;
  wt_Prev : bytes
}.

Definition IsCreate (e : WatchEvent) : bool :=
  bool_decide (wt_Prev e = None) && bool_decide (wt_Value e <> None).
Definition IsUpdate (e : WatchEvent) : bool :=
  bool_decide (wt_Prev e <> None) && bool_decide (wt_Value e <> None).
Definition IsDelete (e : WatchEvent) : bool :=
  bool_decide (wt_Prev e <> None) && bool_decide (wt_Value e = None).

Definition NodeTable : string := "NodeTable".

(** The network attachment of this node.  [tn_obj] is the identity of the object. *)
Record thisNodeNetwork := ThisNodeNetwork {
  tn_obj : nat;
  tn_network : network;
  tn_inSync : bool;
  tn_tableBroadcasts : list TableEvent;
  tn_tableRebroadcasts : list TableEvent;
  tn_entriesNumber : Z;
  tn_networkNodes : Z
}.

(** Gossip messages after decoding. *)
Inductive message :=
| MsgNodeEvent (e : NodeEvent)
| MsgNetworkEvent (e : NetworkEvent)
| MsgTableEvent (e : TableEvent)
| MsgBulkSync (LTime : Z) (Unsolicited : bool) (NodeName : string) (Networks : list string)
    (Payload : message)
| MsgCompound (parts : list message)
| MsgUnknown.

(** [BulkSyncMessage] as it is sent: its payload is a compound of table events. *)
Record BulkSyncMessage := MkBulkSync {
  bs_LTime : Z;
  bs_Unsolicited : bool;
  bs_NodeName : string;
  bs_Networks : list string;
  bs_Payload : list TableEvent
}.

(** The message a peer decodes from it. *)
Definition bulkSyncMsg (b : BulkSyncMessage) : message :=
  MsgBulkSync (bs_LTime b) (bs_Unsolicited b) (bs_NodeName b) (bs_Networks b)
    (MsgCompound (MsgTableEvent <$> bs_Payload b)).

(** [memberlist.Node] *)
Record mlNode := MkMlNode { ml_Name : string; ml_Addr : string; ml_Port : Z }.

Record NetworkEntry := MkNetworkEntry {
  pe_LTime : Z; pe_NetworkID : string; pe_NodeName : string; pe_Leaving : bool
}.
Record NetworkPushPull := MkPushPull {
  pp_LTime : Z; pp_Networks : list NetworkEntry; pp_NodeName : string
}.

Record Config := MkConfig {
  NodeID : string;
  reapEntryInterval : Z;
  reapNetworkInterval : Z
}.

Record NetworkDB := MkNetworkDB {
  networkClock : Z;
  tableClock : Z;
  byTable : gmap string entry;
  byNetwork : gmap string entry;
  nodes : gmap string node;
  failedNodes : gmap string node;
  leftNodes : gmap string node;
  estNodes : Z;
  networks : gmap string (gmap string network);
  thisNodeNetworks : gmap string thisNodeNetwork;
  networkNodes : gmap string (list string);
  networkBroadcasts : list NetworkEvent;
  nodeBroadcasts : list NodeEvent;
  bulkSyncAckTbl : gset string;
  sent : list (string * BulkSyncMessage);
  broadcaster : list WatchEvent;
  panicked : bool;
  nextObj : nat
}.

Definition set_networkClock (v : Z) (db : NetworkDB) : NetworkDB :=
  MkNetworkDB v (tableClock db) (byTable db) (byNetwork db) (nodes db) (failedNodes db) (leftNodes
    db) (estNodes db) (networks db) (thisNodeNetworks db) (networkNodes db) (networkBroadcasts db)
    (nodeBroadcasts db) (bulkSyncAckTbl db) (sent db) (broadcaster db) (panicked db) (nextObj db).
Definition set_tableClock (v : Z) (db : NetworkDB) : NetworkDB :=
  MkNetworkDB (networkClock db) v (byTable db) (byNetwork db) (nodes db) (failedNodes db) (leftNodes
    db) (estNodes db) (networks db) (thisNodeNetworks db) (networkNodes db) (networkBroadcasts db)
    (nodeBroadcasts db) (bulkSyncAckTbl db) (sent db) (broadcaster db) (panicked db) (nextObj db).
Definition set_byTable (v : gmap string entry) (db : NetworkDB) : NetworkDB :=
  MkNetworkDB (networkClock db) (tableClock db) v (byNetwork db) (nodes db) (failedNodes db)
    (leftNodes db) (estNodes db) (networks db) (thisNodeNetworks db) (networkNodes db)
    (networkBroadcasts db) (nodeBroadcasts db) (bulkSyncAckTbl db) (sent db) (broadcaster db)
    (panicked db) (nextObj db).
Definition set_byNetwork (v : gmap string entry) (db : NetworkDB) : NetworkDB :=
  MkNetworkDB (networkClock db) (tableClock db) (byTable db) v (nodes db) (failedNodes db)
    (leftNodes db) (estNodes db) (networks db) (thisNodeNetworks db) (networkNodes db)
    (networkBroadcasts db) (nodeBroadcasts db) (bulkSyncAckTbl db) (sent db) (broadcaster db)
    (panicked db) (nextObj db).
Definition set_nodes (v : gmap string node) (db : NetworkDB) : NetworkDB :=
  MkNetworkDB (networkClock db) (tableClock db) (byTable db) (byNetwork db) v (failedNodes db)
    (leftNodes db) (estNodes db) (networks db) (thisNodeNetworks db) (networkNodes db)
    (networkBroadcasts db) (nodeBroadcasts db) (bulkSyncAckTbl db) (sent db) (broadcaster db)
    (panicked db) (nextObj db).
Definition set_failedNodes (v : gmap string node) (db : NetworkDB) : NetworkDB :=
  MkNetworkDB (networkClock db) (tableClock db) (byTable db) (byNetwork db) (nodes db) v (leftNodes
    db) (estNodes db) (networks db) (thisNodeNetworks db) (networkNodes db) (networkBroadcasts db)
    (nodeBroadcasts db) (bulkSyncAckTbl db) (sent db) (broadcaster db) (panicked db) (nextObj db).
Definition set_leftNodes (v : gmap string node) (db : NetworkDB) : NetworkDB :=
  MkNetworkDB (networkClock db) (tableClock db) (byTable db) (byNetwork db) (nodes db) (failedNodes
    db) v (estNodes db) (networks db) (thisNodeNetworks db) (networkNodes db) (networkBroadcasts db)
    (nodeBroadcasts db) (bulkSyncAckTbl db) (sent db) (broadcaster db) (panicked db) (nextObj db).
Definition set_estNodes (v : Z) (db : NetworkDB) : NetworkDB :=
  MkNetworkDB (networkClock db) (tableClock db) (byTable db) (byNetwork db) (nodes db) (failedNodes
    db) (leftNodes db) v (networks db) (thisNodeNetworks db) (networkNodes db) (networkBroadcasts
    db) (nodeBroadcasts db) (bulkSyncAckTbl db) (sent db) (broadcaster db) (panicked db) (nextObj
    db).
Definition set_networks (v : gmap string (gmap string network)) (db : NetworkDB) : NetworkDB :=
  MkNetworkDB (networkClock db) (tableClock db) (byTable db) (byNetwork db) (nodes db) (failedNodes
    db) (leftNodes db) (estNodes db) v (thisNodeNetworks db) (networkNodes db) (networkBroadcasts
    db) (nodeBroadcasts db) (bulkSyncAckTbl db) (sent db) (broadcaster db) (panicked db) (nextObj
    db).
Definition set_thisNodeNetworks (v : gmap string thisNodeNetwork) (db : NetworkDB) : NetworkDB :=
  MkNetworkDB (networkClock db) (tableClock db) (byTable db) (byNetwork db) (nodes db) (failedNodes
    db) (leftNodes db) (estNodes db) (networks db) v (networkNodes db) (networkBroadcasts db)
    (nodeBroadcasts db) (bulkSyncAckTbl db) (sent db) (broadcaster db) (panicked db) (nextObj db).
Definition set_networkNodes (v : gmap string (list string)) (db : NetworkDB) : NetworkDB :=
  MkNetworkDB (networkClock db) (tableClock db) (byTable db) (byNetwork db) (nodes db) (failedNodes
    db) (leftNodes db) (estNodes db) (networks db) (thisNodeNetworks db) v (networkBroadcasts db)
    (nodeBroadcasts db) (bulkSyncAckTbl db) (sent db) (broadcaster db) (panicked db) (nextObj db).
Definition set_networkBroadcasts (v : list NetworkEvent) (db : NetworkDB) : NetworkDB :=
  MkNetworkDB (networkClock db) (tableClock db) (byTable db) (byNetwork db) (nodes db) (failedNodes
    db) (leftNodes db) (estNodes db) (networks db) (thisNodeNetworks db) (networkNodes db) v
    (nodeBroadcasts db) (bulkSyncAckTbl db) (sent db) (broadcaster db) (panicked db) (nextObj db).
Definition set_nodeBroadcasts (v : list NodeEvent) (db : NetworkDB) : NetworkDB :=
  MkNetworkDB (networkClock db) (tableClock db) (byTable db) (byNetwork db) (nodes db) (failedNodes
    db) (leftNodes db) (estNodes db) (networks db) (thisNodeNetworks db) (networkNodes db)
    (networkBroadcasts db) v (bulkSyncAckTbl db) (sent db) (broadcaster db) (panicked db) (nextObj
    db).
Definition set_bulkSyncAckTbl (v : gset string) (db : NetworkDB) : NetworkDB :=
  MkNetworkDB (networkClock db) (tableClock db) (byTable db) (byNetwork db) (nodes db) (failedNodes
    db) (leftNodes db) (estNodes db) (networks db) (thisNodeNetworks db) (networkNodes db)
    (networkBroadcasts db) (nodeBroadcasts db) v (sent db) (broadcaster db) (panicked db) (nextObj
    db).
Definition set_sent (v : list (string * BulkSyncMessage)) (db : NetworkDB) : NetworkDB :=
  MkNetworkDB (networkClock db) (tableClock db) (byTable db) (byNetwork db) (nodes db) (failedNodes
    db) (leftNodes db) (estNodes db) (networks db) (thisNodeNetworks db) (networkNodes db)
    (networkBroadcasts db) (nodeBroadcasts db) (bulkSyncAckTbl db) v (broadcaster db) (panicked db)
    (nextObj db).
Definition set_broadcaster (v : list WatchEvent) (db : NetworkDB) : NetworkDB :=
  MkNetworkDB (networkClock db) (tableClock db) (byTable db) (byNetwork db) (nodes db) (failedNodes
    db) (leftNodes db) (estNodes db) (networks db) (thisNodeNetworks db) (networkNodes db)
    (networkBroadcasts db) (nodeBroadcasts db) (bulkSyncAckTbl db) (sent db) v (panicked db)
    (nextObj db).
Definition set_panicked (v : bool) (db : NetworkDB) : NetworkDB :=
  MkNetworkDB (networkClock db) (tableClock db) (byTable db) (byNetwork db) (nodes db) (failedNodes
    db) (leftNodes db) (estNodes db) (networks db) (thisNodeNetworks db) (networkNodes db)
    (networkBroadcasts db) (nodeBroadcasts db) (bulkSyncAckTbl db) (sent db) (broadcaster db) v
    (nextObj db).
Definition set_nextObj (v : nat) (db : NetworkDB) : NetworkDB :=
  MkNetworkDB (networkClock db) (tableClock db) (byTable db) (byNetwork db) (nodes db) (failedNodes
    db) (leftNodes db) (estNodes db) (networks db) (thisNodeNetworks db) (networkNodes db)
    (networkBroadcasts db) (nodeBroadcasts db) (bulkSyncAckTbl db) (sent db) (broadcaster db)
    (panicked db) v.

(** ** The radix trees *)

(** [fmt.Sprintf("/%s/%s/%s", a, b, c)] *)
Definition path (a b c : string) : string := ("/" ++ a ++ "/" ++ b ++ "/" ++ c)%string.

(** [params := strings.Split(string(path[1:]), "/")] and its first three elements. *)
Definition params (p : string) : option (string * string * string) :=
  match Split (String.substring 1 (String.length p - 1) p) "/"%char with
  | a :: b :: c :: _ => Some (a, b, c)
  | _ => None
  end.

(** [strings.SplitN(string(path[1:]), "/", 3)] when it has three elements. *)
Definition SplitN3 (p : string) : option (string * string * string) :=
  match Split (String.substring 1 (String.length p - 1) p) "/"%char with
  | a :: b :: rest =>
      match rest with [] => None | _ => Some (a, b, String.concat "/" rest) end
  | _ => None
  end.

Definition keyCompare {A} (x y : string * A) : Z :=
  match String.compare x.1 y.1 with Lt => -1 | Eq => 0 | Gt => 1 end.

(** The entries under a prefix in the order [WalkPrefix] visits them.  The trees are
    immutable, so a walk sees the tree as it was when the walk began. *)
Definition WalkPrefix (prefix : string) (m : gmap string entry) : list (string * entry) :=
  SortFunc keyCompare (filter (fun kv => String.prefix prefix kv.1 = true) (map_to_list m)).

(** Updates of the fields of an attachment. *)
Definition set_network (v : network) (n : thisNodeNetwork) : thisNodeNetwork :=
  ThisNodeNetwork (tn_obj n) v (tn_inSync n) (tn_tableBroadcasts n) (tn_tableRebroadcasts n)
    (tn_entriesNumber n) (tn_networkNodes n).
Definition set_inSync (v : bool) (n : thisNodeNetwork) : thisNodeNetwork :=
  ThisNodeNetwork (tn_obj n) (tn_network n) v (tn_tableBroadcasts n) (tn_tableRebroadcasts n)
    (tn_entriesNumber n) (tn_networkNodes n).
Definition add_entriesNumber (d : Z) (n : thisNodeNetwork) : thisNodeNetwork :=
  ThisNodeNetwork (tn_obj n) (tn_network n) (tn_inSync n) (tn_tableBroadcasts n)
    (tn_tableRebroadcasts n) (tn_entriesNumber n + d) (tn_networkNodes n).
Definition set_tnNodes (v : Z) (n : thisNodeNetwork) : thisNodeNetwork :=
  ThisNodeNetwork (tn_obj n) (tn_network n) (tn_inSync n) (tn_tableBroadcasts n)
    (tn_tableRebroadcasts n) (tn_entriesNumber n) v.
Definition queue_table (e : TableEvent) (n : thisNodeNetwork) : thisNodeNetwork :=
  ThisNodeNetwork (tn_obj n) (tn_network n) (tn_inSync n) (tn_tableBroadcasts n ++ [e])
    (tn_tableRebroadcasts n) (tn_entriesNumber n) (tn_networkNodes n).
Definition queue_rebroadcast (e : TableEvent) (n : thisNodeNetwork) : thisNodeNetwork :=
  ThisNodeNetwork (tn_obj n) (tn_network n) (tn_inSync n) (tn_tableBroadcasts n)
    (tn_tableRebroadcasts n ++ [e]) (tn_entriesNumber n) (tn_networkNodes n).

(** [nDB.broadcaster.Write(event)] *)
Definition broadcast (ev : WatchEvent) (db : NetworkDB) : NetworkDB :=
  set_broadcaster (broadcaster db ++ [ev]) db.

(** Change the attachment of this node to a network if there is one. *)
Definition on_network (nid : string) (f : thisNodeNetwork -> thisNodeNetwork) (db : NetworkDB) :
  NetworkDB := set_thisNodeNetworks (alter f nid (thisNodeNetworks db)) db.

(** ** Entries *)

(** [createOrUpdateEntry(nid, tname, key, v)] *)
Definition createOrUpdateEntry (nid tname key : string) (v : entry) (db : NetworkDB) : NetworkDB :=
  let okNetwork := bool_decide (is_Some (byNetwork db !! path nid tname key)) in
  let db := set_byTable (<[path tname nid key := v]> (byTable db)) db in
  let db := set_byNetwork (<[path nid tname key := v]> (byNetwork db)) db in
  if okNetwork then db else on_network nid (add_entriesNumber 1) db.

(** [deleteEntry(nid, tname, key)]: the database, [okTable] and [okNetwork]. *)
Definition deleteEntry (nid tname key : string) (db : NetworkDB) : NetworkDB * bool * bool :=
  let okTable := bool_decide (is_Some (byTable db !! path tname nid key)) in
  let okNetwork := bool_decide (is_Some (byNetwork db !! path nid tname key)) in
  let db := set_byTable (delete (path tname nid key) (byTable db)) db in
  let db := set_byNetwork (delete (path nid tname key) (byNetwork db)) db in
  ((if okNetwork then on_network nid (add_entriesNumber (-1)) db else db), okTable, okNetwork).

Inductive ndb_error :=
| ErrNoEntry | ErrDeleted | ErrExists | ErrNoUpdate | ErrNoDelete
| ErrJoined | ErrNotJoined | ErrNodeNotFound.

(** [getEntry] returns the entry or a not-found error. *)
Definition getEntry (tname nid key : string) (db : NetworkDB) : option entry :=
  byTable db !! path tname nid key.

Definition GetEntry (tname nid key : string) (db : NetworkDB) : go_result ndb_error bytes :=
  match getEntry tname nid key db with
  | None => GoErr ErrNoEntry
  | Some v => if e_deleting v then GoErr ErrDeleted else GoOk (e_value v)
  end.

(** The state of a node of the cluster; [nodeNotFound] is only a result. *)
Inductive nodeState := nodeNotFound | nodeActiveState | nodeLeftState | nodeFailedState.

#[export] Instance nodeState_eq : EqDecision nodeState.
Proof. solve_decision. Defined.

Section Ops.
Context (cfg : Config).
Context (NumQueued : list TableEvent -> Z).
Context (SendReliable : string -> bool).
Context (NodeAddrJSON : string -> string).

(** [newNetworkDB] with the configuration it derives. *)
Definition newConfig (c : Config) : Config :=
  MkConfig (NodeID c) (reapEntryInterval c) (reapEntryInterval c + 5 * reapPeriod).
Definition newNetworkDB : NetworkDB :=
  MkNetworkDB 0 0 ∅ ∅ ∅ ∅ ∅ 0 ∅ ∅ ∅ [] [] ∅ [] [] false 0%nat.

(** [sendTableEvent(event, nid, tname, key, entry)] *)
Definition sendTableEvent (event : TableEvent_Type) (nid tname key : string) (e : entry)
    (db : NetworkDB) : NetworkDB :=
  let tEvent := MkTableEvent event (e_ltime e) (NodeID cfg) nid tname key (e_value e)
                  (Seconds (e_reapTime e)) in
  on_network nid (queue_table tEvent) db.

(** [sendNetworkEvent(nid, event, ltime)] *)
Definition sendNetworkEvent (nid : string) (event : NetworkEvent_Type) (ltime : Z)
    (db : NetworkDB) : NetworkDB :=
  set_networkBroadcasts
    (networkBroadcasts db ++ [MkNetworkEvent event ltime (NodeID cfg) nid]) db.

(** [sendNodeEvent(event)] up to the wait for the transmission. *)
Definition sendNodeEvent (event : NodeEvent_Type) (db : NetworkDB) : NetworkDB :=
  let t := Increment (networkClock db) in
  let db := set_networkClock t db in
  set_nodeBroadcasts (nodeBroadcasts db ++ [MkNodeEvent event t (NodeID cfg)]) db.

Definition CreateEntry (tname nid key : string) (value : bytes) (db : NetworkDB) :
    NetworkDB * option ndb_error :=
  match getEntry tname nid key db with
  | Some _ => (db, Some ErrExists)
  | None =>
      let t := Increment (tableClock db) in
      let db := set_tableClock t db in
      let e := Entry (NodeID cfg) t value false 0 in
      let db := createOrUpdateEntry nid tname key e db in
      (sendTableEvent TableEventTypeCreate nid tname key e db, None)
  end.

Definition UpdateEntry (tname nid key : string) (value : bytes) (db : NetworkDB) :
    NetworkDB * option ndb_error :=
  match getEntry tname nid key db with
  | None => (db, Some ErrNoUpdate)
  | Some _ =>
      let t := Increment (tableClock db) in
      let db := set_tableClock t db in
      let e := Entry (NodeID cfg) t value false 0 in
      let db := createOrUpdateEntry nid tname key e db in
      (sendTableEvent TableEventTypeUpdate nid tname key e db, None)
  end.

Definition DeleteEntry (tname nid key : string) (db : NetworkDB) : NetworkDB * option ndb_error :=
  match getEntry tname nid key db with
  | None => (db, Some ErrNoDelete)
  | Some oldEntry =>
      if e_deleting oldEntry then (db, Some ErrNoDelete)
      else
        let t := Increment (tableClock db) in
        let db := set_tableClock t db in
        let e := Entry (NodeID cfg) t (e_value oldEntry) true (reapEntryInterval cfg) in
        let db := createOrUpdateEntry nid tname key e db in
        (sendTableEvent TableEventTypeDelete nid tname key e db, None)
  end.

(** [key[strings.LastIndex(key, "/")+1:]] *)
Definition lastComponent (p : string) : string := List.last (Split p "/"%char) "".

(** [GetTableByNetwork]: the values and the owners by key. *)
Definition GetTableByNetwork (tname nid : string) (db : NetworkDB) : gmap string (bytes * string) :=
  foldl (fun entries '(k, v) =>
           if e_deleting v then entries
           else <[lastComponent k := (e_value v, e_node v)]> entries)
    ∅ (WalkPrefix ("/" ++ tname ++ "/" ++ nid)%string (byTable db)).

(** [deleteEntry] and the notification of the watchers, common to the walks. *)
Definition dropEntry (nwID tName key : string) (oldEntry : entry) (db : NetworkDB) : NetworkDB :=
  let db := (deleteEntry nwID tName key db).1.1 in
  if e_deleting oldEntry then db
  else broadcast (MkWatchEvent tName nwID key None (e_value oldEntry)) db.

(** [deleteNodeFromNetworks] *)
Definition deleteNodeFromNetworks (deletedNode : string) (db : NetworkDB) : NetworkDB :=
  let db := set_networkNodes
              ((fun ns => filter (fun n => n <> deletedNode) ns) <$> networkNodes db) db in
  set_networks (delete deletedNode (networks db)) db.

(** [deleteNodeNetworkEntries(nid, node)] *)
Definition deleteNodeNetworkEntries (nid nodeName : string) (db : NetworkDB) : NetworkDB :=
  foldl (fun db '(p, oldEntry) =>
           if bool_decide (e_node oldEntry <> nodeName) then db
           else match params p with
                | Some (nwID, tName, key) => dropEntry nwID tName key oldEntry db
                | None => set_panicked true db
                end)
    db (WalkPrefix ("/" ++ nid)%string (byNetwork db)).

(** [deleteNodeTableEntries(node)] *)
Definition deleteNodeTableEntries (nodeName : string) (db : NetworkDB) : NetworkDB :=
  foldl (fun db '(p, oldEntry) =>
           if bool_decide (e_node oldEntry <> nodeName) then db
           else match params p with
                | Some (tName, nwID, key) => dropEntry nwID tName key oldEntry db
                | None => set_panicked true db
                end)
    db (WalkPrefix "" (byTable db)).

(** ** Membership of networks *)

Definition nodesOf (nid : string) (db : NetworkDB) : list string :=
  default [] (networkNodes db !! nid).

(** [addNetworkNode(nid, nodeName)] *)
Definition addNetworkNode (nid nodeName : string) (db : NetworkDB) : NetworkDB :=
  if bool_decide (nodeName ∈ nodesOf nid db) then db
  else
    let ns := nodesOf nid db ++ [nodeName] in
    on_network nid (set_tnNodes (Z.of_nat (length ns)))
      (set_networkNodes (<[nid := ns]> (networkNodes db)) db).

(** [deleteNetworkNode(nid, nodeName)] *)
Definition deleteNetworkNode (nid nodeName : string) (db : NetworkDB) : NetworkDB :=
  match nodesOf nid db with
  | [] => db
  | ns =>
      let newNodes := filter (fun n => n <> nodeName) ns in
      on_network nid (set_tnNodes (Z.of_nat (length newNodes)))
        (set_networkNodes (<[nid := newNodes]> (networkNodes db)) db)
  end.

(** [JoinNetwork] up to the bulk sync; [Some obj] is the attachment to mark as synced. *)
Definition JoinNetwork (nid : string) (db : NetworkDB) : NetworkDB * (nat + ndb_error) :=
  let ltime := Increment (networkClock db) in
  let db := set_networkClock ltime db in
  let attach (n : thisNodeNetwork) (db : NetworkDB) :=
    let db := addNetworkNode nid (NodeID cfg) db in
    let db := sendNetworkEvent nid NetworkEventTypeJoin ltime db in
    let n := set_tnNodes (Z.of_nat (length (nodesOf nid db))) n in
    (set_thisNodeNetworks (<[nid := n]> (thisNodeNetworks db)) db, inl (tn_obj n)) in
  match thisNodeNetworks db !! nid with
  | Some n =>
      if nw_leaving (tn_network n) then
        attach (set_inSync false (set_network (Network ltime false 0) n)) db
      else (db, inr ErrJoined)
  | None =>
      attach (ThisNodeNetwork (nextObj db) (Network ltime false 0) false [] [] 0 0)
        (set_nextObj (S (nextObj db)) db)
  end.

(** The end of [JoinNetwork]: [n.inSync = true] on the object of the first part. *)
Definition JoinNetwork_synced (nid : string) (obj : nat) (db : NetworkDB) : NetworkDB :=
  on_network nid (fun n => if Nat.eqb (tn_obj n) obj then set_inSync true n else n) db.

(** [LeaveNetwork]: what the walk does with an entry of the network. *)
Definition leaveEntry (db : NetworkDB) (pe : string * entry) : NetworkDB :=
  let '(p, oldEntry) := pe in
  let owned := bool_decide (e_node oldEntry = NodeID cfg) in
  if owned && e_deleting oldEntry then db
  else match params p with
       | None => set_panicked true db
       | Some (nwID, tName, key) =>
           if owned then
             let t := Increment (tableClock db) in
             let db := set_tableClock t db in
             let db := createOrUpdateEntry nwID tName key
               (Entry (e_node oldEntry) t (e_value oldEntry) true (reapEntryInterval cfg)) db in
             broadcast (MkWatchEvent tName nwID key None (e_value oldEntry)) db
           else dropEntry nwID tName key oldEntry db
       end.

Definition LeaveNetwork (nid : string) (db : NetworkDB) : NetworkDB * option ndb_error :=
  let ltime := Increment (networkClock db) in
  let db := set_networkClock ltime db in
  let db := sendNetworkEvent nid NetworkEventTypeLeave ltime db in
  let db := deleteNetworkNode nid (NodeID cfg) db in
  let db := foldl leaveEntry db (WalkPrefix ("/" ++ nid)%string (byNetwork db)) in
  match thisNodeNetworks db !! nid with
  | None => (db, Some ErrNotJoined)
  | Some _ =>
      (on_network nid (set_network (Network ltime true (reapNetworkInterval cfg))) db, None)
  end.

(** [findCommonNetworks(nodeName)] *)
Definition findCommonNetworks (nodeName : string) (db : NetworkDB) : list string :=
  filter (fun nid =>
            match (default ∅ (networks db !! nodeName) : gmap string network) !! nid with
            | Some n => negb (nw_leaving n)
            | None => false
            end = true)
    (map_to_list (thisNodeNetworks db)).*1.

(** [updateLocalNetworkTime] *)
Definition updateLocalNetworkTime (db : NetworkDB) : NetworkDB :=
  let ltime := Increment (networkClock db) in
  let db := set_networkClock ltime db in
  set_thisNodeNetworks
    ((fun n => set_network (Network ltime (nw_leaving (tn_network n)) (nw_reapTime (tn_network n))) n)
       <$> thisNodeNetworks db) db.

(** ** Nodes of the cluster *)

(** The three maps of nodes by the state they stand for. *)
Definition nodeMap (s : nodeState) (db : NetworkDB) : gmap string node :=
  match s with
  | nodeActiveState => nodes db
  | nodeLeftState => leftNodes db
  | nodeFailedState => failedNodes db
  | nodeNotFound => ∅
  end.
Definition set_nodeMap (s : nodeState) (m : gmap string node) (db : NetworkDB) : NetworkDB :=
  match s with
  | nodeActiveState => set_nodes m db
  | nodeLeftState => set_leftNodes m db
  | nodeFailedState => set_failedNodes m db
  | nodeNotFound => db
  end.

(** [findNode]: the node and the map it was found in. *)
Definition findNode (nodeName : string) (db : NetworkDB) : option (node * nodeState) :=
  match nodes db !! nodeName with
  | Some n => Some (n, nodeActiveState)
  | None =>
      match leftNodes db !! nodeName with
      | Some n => Some (n, nodeLeftState)
      | None =>
          match failedNodes db !! nodeName with
          | Some n => Some (n, nodeFailedState)
          | None => None
          end
      end
  end.

Definition with_reapTime (n : node) (t : Z) : node :=
  Node (nd_Name n) (nd_Addr n) (nd_Port n) (nd_ltime n) t.
Definition with_ltime (n : node) (t : Z) : node :=
  Node (nd_Name n) (nd_Addr n) (nd_Port n) t (nd_reapTime n).

(** [changeNodeState]: whether the node was moved, or the error. *)
Definition changeNodeState (nodeName : string) (newState : nodeState) (db : NetworkDB) :
    NetworkDB * (bool + ndb_error) :=
  match findNode nodeName db with
  | None => (db, inr ErrNodeNotFound)
  | Some (n, currState) =>
      if bool_decide (newState = currState) then (db, inl false)
      else
        (* the move; [n] is the object in the new map *)
        let n := match newState with
                 | nodeActiveState => with_reapTime n 0
                 | nodeLeftState | nodeFailedState =>
                     if nd_reapTime n =? 0 then with_reapTime n nodeReapInterval else n
                 | nodeNotFound => n
                 end in
        let db := match newState with
                  | nodeNotFound => db
                  | _ =>
                      let db := set_nodeMap currState
                                  (delete nodeName (nodeMap currState db)) db in
                      set_nodeMap newState (<[nodeName := n]> (nodeMap newState db)) db
                  end in
        let db := set_estNodes (Z.of_nat (size (nodes db))) db in
        let db := match newState with
                  | nodeLeftState | nodeFailedState =>
                      deleteNodeTableEntries (nd_Name n) (deleteNodeFromNetworks (nd_Name n) db)
                  | _ => db
                  end in
        (db, inl true)
  end.

(** The same address under another name. *)
Definition reincarnation (mn : mlNode) (kv : string * node) : bool :=
  bool_decide (nd_Addr kv.2 = ml_Addr mn) && bool_decide (nd_Port kv.2 = ml_Port mn) &&
  bool_decide (ml_Name mn <> kv.1).

(** [purgeReincarnation] *)
Definition purgeReincarnation (mn : mlNode) (db : NetworkDB) : NetworkDB * bool :=
  let find (m : gmap string node) := List.find (reincarnation mn) (map_to_list m) in
  match find (nodes db) with
  | Some (name, _) => ((changeNodeState name nodeLeftState db).1, true)
  | None =>
      match find (failedNodes db) with
      | Some (name, _) => ((changeNodeState name nodeLeftState db).1, true)
      | None =>
          match find (leftNodes db) with
          | Some (name, _) => ((changeNodeState name nodeLeftState db).1, true)
          | None => (db, false)
          end
      end
  end.

(** [broadcastNodeEvent(addr, kind)] *)
Definition broadcastNodeEvent (addr : string) (joined : bool) (db : NetworkDB) : NetworkDB :=
  let value := Some (NodeAddrJSON addr) in
  broadcast (if joined then MkWatchEvent NodeTable "" "" value None
             else MkWatchEvent NodeTable "" "" None value) db.

Definition NotifyJoin (mn : mlNode) (db : NetworkDB) : NetworkDB :=
  let db := broadcastNodeEvent (ml_Addr mn) true db in
  match changeNodeState (ml_Name mn) nodeActiveState db with
  | (db, inl true) => db
  | (db, _) =>
      let db := (purgeReincarnation mn db).1 in
      let db := set_nodes (<[ml_Name mn := Node (ml_Name mn) (ml_Addr mn) (ml_Port mn) 0 0]>
                             (nodes db)) db in
      set_estNodes (Z.of_nat (size (nodes db))) db
  end.

Definition NotifyLeave (mn : mlNode) (db : NetworkDB) : NetworkDB :=
  let db := broadcastNodeEvent (ml_Addr mn) false db in
  match findNode (ml_Name mn) db with
  | Some (_, nodeActiveState) => (changeNodeState (ml_Name mn) nodeFailedState db).1
  | _ => db
  end.

(** ** Events from the other nodes: the results say whether to gossip them further *)

Definition handleNodeEvent (nEvent : NodeEvent) (db : NetworkDB) : NetworkDB * bool :=
  let db := set_networkClock (Witness (networkClock db) (ne_LTime nEvent)) db in
  match findNode (ne_NodeName nEvent) db with
  | None => (db, false)
  | Some (n, state) =>
      if nd_ltime n >=? ne_LTime nEvent then (db, false)
      else
        let db := set_nodeMap state
          (<[ne_NodeName nEvent := with_ltime n (ne_LTime nEvent)]> (nodeMap state db)) db in
        match nodes db !! ne_NodeName nEvent with
        | None => (db, false)
        | Some _ =>
            match ne_Type nEvent with
            | NodeEventTypeJoin =>
                let '(db, r) := changeNodeState (nd_Name n) nodeActiveState db in
                (db, match r with inl moved => moved | inr _ => false end)
            | NodeEventTypeLeave =>
                let '(db, r) := changeNodeState (nd_Name n) nodeLeftState db in
                (db, match r with inl moved => moved | inr _ => false end)
            | NodeEventTypeInvalid => (db, false)
            end
        end
  end.

Definition handleNetworkEvent (nEvent : NetworkEvent) (db : NetworkDB) : NetworkDB * bool :=
  let name := we_NodeName nEvent in
  let nid := we_NetworkID nEvent in
  let isLeave := bool_decide (we_Type nEvent = NetworkEventTypeLeave) in
  let db := set_networkClock (Witness (networkClock db) (we_LTime nEvent)) db in
  if bool_decide (name = NodeID cfg) then (db, false)
  else if bool_decide (networks db !! name = None) && isLeave then (db, false)
  else
    let nodeNetworks := default ∅ (networks db !! name) in
    (* the map made for a node that was not known is stored at once *)
    let db := set_networks (<[name := nodeNetworks]> (networks db)) db in
    match nodeNetworks !! nid with
    | Some n =>
        if nw_ltime n >=? we_LTime nEvent then (db, false)
        else
          let n := Network (we_LTime nEvent) isLeave
                     (if isLeave then reapNetworkInterval cfg else nw_reapTime n) in
          let db := set_networks (<[name := <[nid := n]> nodeNetworks]> (networks db)) db in
          if isLeave then
            let db := deleteNodeNetworkEntries nid name db in
            (deleteNetworkNode nid name db, true)
          else (addNetworkNode nid name db, true)
    | None =>
        if isLeave then (db, false)
        else match nodes db !! name with
             | None => (db, false)
             | Some _ =>
                 let n := Network (we_LTime nEvent) false 0 in
                 let db := set_networks (<[name := <[nid := n]> nodeNetworks]> (networks db)) db in
                 (addNetworkNode nid name db, true)
             end
    end.

(** The entry a table event stands for. *)
Definition eventEntry (tEvent : TableEvent) : entry :=
  let deleting := bool_decide (te_Type tEvent = TableEventTypeDelete) in
  let reapTime := te_ResidualReapTime tEvent * Second in
  Entry (te_NodeName tEvent) (te_LTime tEvent) (te_Value tEvent) deleting
    (if deleting && (reapTime =? 0) then reapEntryInterval cfg else reapTime).

Definition handleTableEvent (tEvent : TableEvent) (isBulkSync : bool) (db : NetworkDB) :
    NetworkDB * bool :=
  let tname := te_TableName tEvent in
  let nid := te_NetworkID tEvent in
  let key := te_Key tEvent in
  let db := set_tableClock (Witness (tableClock db) (te_LTime tEvent)) db in
  let nodePresent := bool_decide (te_NodeName tEvent ∈ nodesOf nid db) in
  match thisNodeNetworks db !! nid with
  | None => (db, false)
  | Some n =>
      if nw_leaving (tn_network n) || negb nodePresent then (db, false)
      else
        let prev := getEntry tname nid key db in
        if match prev with Some p => e_ltime p >=? te_LTime tEvent | None => false end
        then (db, false)
        else
          let e := eventEntry tEvent in
          let db := createOrUpdateEntry nid tname key e db in
          let isDelete := bool_decide (te_Type tEvent = TableEventTypeDelete) in
          match prev with
          | None =>
              if isDelete then
                (db, isBulkSync && tn_inSync n && (e_reapTime e >? reapEntryInterval cfg / 6))
              else
                let value := match te_Type tEvent with
                             | TableEventTypeCreate | TableEventTypeUpdate => te_Value tEvent
                             | _ => None
                             end in
                (broadcast (MkWatchEvent tname nid key value None) db, tn_inSync n)
          | Some p =>
              match te_Type tEvent with
              | TableEventTypeCreate | TableEventTypeUpdate =>
                  let prevValue := if e_deleting p then None else e_value p in
                  (broadcast (MkWatchEvent tname nid key (te_Value tEvent) prevValue) db,
                    tn_inSync n)
              | TableEventTypeDelete =>
                  if e_deleting p then (db, tn_inSync n)
                  else (broadcast (MkWatchEvent tname nid key None (e_value p)) db, tn_inSync n)
              | TableEventTypeInvalid =>
                  (broadcast (MkWatchEvent tname nid key None None) db, tn_inSync n)
              end
          end
  end.

(** [handleTableMessage] *)
Definition handleTableMessage (tEvent : TableEvent) (isBulkSync : bool) (db : NetworkDB) :
    NetworkDB :=
  if bool_decide (te_NodeName tEvent = NodeID cfg) then db
  else
    let '(db, rebroadcast) := handleTableEvent tEvent isBulkSync db in
    if negb rebroadcast then db
    else match thisNodeNetworks db !! te_NetworkID tEvent with
         | None => db
         | Some n =>
             if nw_leaving (tn_network n) then db
             else if isBulkSync && (NumQueued (tn_tableRebroadcasts n) >? maxQueueLenBroadcastOnSync)
             then db
             else on_network (te_NetworkID tEvent) (queue_rebroadcast tEvent) db
         end.

(** [handleNodeMessage], [handleNetworkMessage] *)
Definition handleNodeMessage (nEvent : NodeEvent) (db : NetworkDB) : NetworkDB :=
  let '(db, rebroadcast) := handleNodeEvent nEvent db in
  if rebroadcast then set_nodeBroadcasts (nodeBroadcasts db ++ [nEvent]) db else db.
Definition handleNetworkMessage (nEvent : NetworkEvent) (db : NetworkDB) : NetworkDB :=
  let '(db, rebroadcast) := handleNetworkEvent nEvent db in
  if rebroadcast then set_networkBroadcasts (networkBroadcasts db ++ [nEvent]) db else db.

(** ** Bulk sync *)

(** The event [bulkSyncNode] makes of an entry met on the walk of network [nid]. *)
Definition bulkEvent (nid : string) (pe : string * entry) : option TableEvent :=
  let '(p, v) := pe in
  match params p with
  | None => None
  | Some (_, tName, key) =>
      Some (MkTableEvent (if e_deleting v then TableEventTypeDelete else TableEventTypeCreate)
              (e_ltime v) (e_node v) nid tName key (e_value v) (Seconds (e_reapTime v)))
  end.

(** The events of the networks. *)
Definition bulkEvents (nids : list string) (db : NetworkDB) : list TableEvent :=
  nids ≫= (fun nid => omap (bulkEvent nid) (WalkPrefix ("/" ++ nid)%string (byNetwork db))).

(** [bulkSyncNode(networks, node, unsolicited)]; [false] is a failed transmission. *)
Definition bulkSyncNode (nids : list string) (nodeName : string) (unsolicited : bool)
    (db : NetworkDB) : NetworkDB * bool :=
  match nodes db !! nodeName with
  | None => (db, true)
  | Some _ =>
      let bsm := MkBulkSync (tableClock db) unsolicited (NodeID cfg) nids (bulkEvents nids db) in
      if SendReliable nodeName then
        (set_sent (sent db ++ [(nodeName, bsm)])
           (set_bulkSyncAckTbl ({[nodeName]} ∪ bulkSyncAckTbl db) db), true)
      else (set_bulkSyncAckTbl (bulkSyncAckTbl db ∖ {[nodeName]}) db, false)
  end.

(** [mRandomNodes(m, nodes)] for the permutation [perm] the generator returns. *)
Definition mRandomNodes (perm : list nat) (m : nat) (ns : list string) : list string :=
  let mNodes := filter (fun n => n <> NodeID cfg) ns in
  if (length mNodes <? m)%nat then omap (fun i => mNodes !! i) perm
  else omap (fun i => mNodes !! i) (take m perm).

(** The loop of [bulkSync]: the networks of the last node tried and whether one succeeded. *)
Fixpoint bulkSyncLoop (ns : list string) (all : bool) (nids : list string) (success : bool)
    (db : NetworkDB) : NetworkDB * list string * bool :=
  match ns with
  | [] => (db, nids, success)
  | n :: ns =>
      if bool_decide (n = NodeID cfg) then bulkSyncLoop ns all nids success db
      else
        let nids := findCommonNetworks n db in
        let '(db, ok) := bulkSyncNode nids n true db in
        if ok then
          if all then bulkSyncLoop ns all nids true db else (db, nids, true)
        else bulkSyncLoop ns all nids success db
  end.

(** [bulkSync(nodes, all)]: the networks that were synced, [None] for an error or no node. *)
Definition bulkSync (perm : list nat) (ns : list string) (all : bool) (db : NetworkDB) :
    NetworkDB * option (list string) :=
  let ns := if all then ns else mRandomNodes perm 2 ns in
  let '(db, nids, success) := bulkSyncLoop ns all [] false db in
  (db, if success then Some nids else None).

(** [bulkSyncTables]: a network is synced at most once per run, with its own choice of
    random nodes. *)
Fixpoint bulkSyncTables_loop (perm : string -> list nat) (fuel : nat) (nids : list string)
    (db : NetworkDB) : NetworkDB :=
  match fuel, nids with
  | S fuel, nid :: nids =>
      match nodesOf nid db with
      | [] => bulkSyncTables_loop perm fuel nids db
      | ns =>
          let '(db, completed) := bulkSync (perm nid) ns false db in
          bulkSyncTables_loop perm fuel
            (filter (fun n => n ∉ default [] completed) nids) db
      end
  | _, _ => db
  end.
Definition bulkSyncTables (perm : string -> list nat) (db : NetworkDB) : NetworkDB :=
  let nids := (filter (fun kv : string * thisNodeNetwork =>
                 nw_leaving (tn_network kv.2) = false) (map_to_list (thisNodeNetworks db))).*1 in
  bulkSyncTables_loop perm (length nids) nids db.

(** [reconnectNode] for the node chosen at random, if the join succeeds. *)
Definition reconnectNode (offset : nat) (joined : bool) (db : NetworkDB) : NetworkDB :=
  match (map_to_list (failedNodes db)) !! offset with
  | None => db
  | Some (_, n) =>
      if joined then
        (bulkSync [] [nd_Name n] true (sendNodeEvent NodeEventTypeJoin db)).1
      else db
  end.

(** The acknowledgement at the end of [handleBulkSync]. *)
Definition bulkSyncReply (unsolicited : bool) (nodeName : string) (nids : list string)
    (db : NetworkDB) : NetworkDB :=
  if negb unsolicited then set_bulkSyncAckTbl (bulkSyncAckTbl db ∖ {[nodeName]}) db
  else (bulkSyncNode nids nodeName false db).1.

(** [handleMessage], with [handleBulkSync] and [handleCompound]. *)
Fixpoint handleMessage (m : message) (isBulkSync : bool) (db : NetworkDB) : NetworkDB :=
  match m with
  | MsgNodeEvent e => handleNodeMessage e db
  | MsgNetworkEvent e => handleNetworkMessage e db
  | MsgTableEvent e => handleTableMessage e isBulkSync db
  | MsgBulkSync ltime unsolicited nodeName nids payload =>
      let db := if ltime >? 0 then set_tableClock (Witness (tableClock db) ltime) db else db in
      let db := handleMessage payload true db in
      bulkSyncReply unsolicited nodeName nids db
  | MsgCompound parts => foldl (fun db part => handleMessage part isBulkSync db) db parts
  | MsgUnknown => db
  end.

(** ** Push and pull of the network attachments *)

(** [LocalState(join)] *)
Definition LocalState (join : bool) (db : NetworkDB) : NetworkDB * NetworkPushPull :=
  let db := if join then updateLocalNetworkTime db else db in
  let own := (fun '(nid, n) => MkNetworkEntry (nw_ltime (tn_network n)) nid (NodeID cfg)
                                 (nw_leaving (tn_network n))) <$> map_to_list (thisNodeNetworks db) in
  let others := map_to_list (networks db) ≫= (fun '(name, nn) =>
    (fun '(nid, n) => MkNetworkEntry (nw_ltime n) nid name (nw_leaving n)) <$> map_to_list nn) in
  (db, MkPushPull (networkClock db) (own ++ others) (NodeID cfg)).

(** The network event of an attachment. *)
Definition pushPullEvent (n : NetworkEntry) : NetworkEvent :=
  MkNetworkEvent (if pe_Leaving n then NetworkEventTypeLeave else NetworkEventTypeJoin)
    (pe_LTime n) (pe_NodeName n) (pe_NetworkID n).

(** [MergeRemoteState] *)
Definition MergeRemoteState (pp : NetworkPushPull) (db : NetworkDB) : NetworkDB :=
  let db := (handleNodeEvent (MkNodeEvent NodeEventTypeJoin (pp_LTime pp) (pp_NodeName pp)) db).1 in
  foldl (fun db n => (handleNetworkEvent (pushPullEvent n) db).1) db (pp_Networks pp).

(** ** Watchers *)

(** The matcher of [Watch]. *)
Definition matches (tname nid : string) (evt : WatchEvent) : bool :=
  (bool_decide (tname = "") || bool_decide (wt_Table evt = tname)) &&
  (bool_decide (nid = "") || bool_decide (wt_NetworkID evt = nid)).

(** The events [Watch] makes up for the entries that exist.  The filter stands between the
    sink and the walk, too. *)
Definition Watch (tname nid : string) (db : NetworkDB) : list WatchEvent :=
  let visible (v : entry) := negb (e_deleting v) && bool_decide (e_node v <> NodeID cfg) in
  filter (fun ev => matches tname nid ev = true)
  (if bool_decide (tname = "") then
    let prefix := if bool_decide (nid <> "") then ("/" ++ nid ++ "/")%string else "/" in
    omap (fun '(p, v) =>
            if visible v then
              match SplitN3 p with
              | Some (n, t, key) => Some (MkWatchEvent t n key (e_value v) None)
              | None => None
              end
            else None) (WalkPrefix prefix (byNetwork db))
  else
    let prefix := ("/" ++ tname ++ "/" ++ (if bool_decide (nid <> "") then nid ++ "/" else ""))%string in
    omap (fun '(p, v) =>
            if visible v then
              match SplitN3 p with
              | Some (t, n, key) => Some (MkWatchEvent t n key (e_value v) None)
              | None => None
              end
            else None) (WalkPrefix prefix (byTable db))).

(** ** Peers *)

(** [ClusterPeers] and [Peers(nid)]: names with the address, [None] for a name that is not in
    the list of the nodes. *)
Definition ClusterPeers (db : NetworkDB) : list (string * string) :=
  (fun kv => (nd_Name kv.2, nd_Addr kv.2)) <$> map_to_list (nodes db).
Definition Peers (nid : string) (db : NetworkDB) : list (string * option string) :=
  (fun nodeName => match nodes db !! nodeName with
                   | Some n => (nd_Name n, Some (nd_Addr n))
                   | None => (nodeName, None)
                   end) <$> nodesOf nid db.

(** ** The reaper *)

(** [reapDeadNode] *)
Definition reapNode (n : node) : option node :=
  if nd_reapTime n >? nodeReapPeriod then Some (with_reapTime n (nd_reapTime n - nodeReapPeriod))
  else None.
Definition reapDeadNode (db : NetworkDB) : NetworkDB :=
  let db := set_failedNodes (omap reapNode (failedNodes db)) db in
  set_leftNodes (omap reapNode (leftNodes db)) db.

(** [reapNetworks] *)
Definition reapNetwork (n : network) : option network :=
  if nw_leaving n then
    if nw_reapTime n <=? 0 then None
    else Some (Network (nw_ltime n) true (nw_reapTime n - reapPeriod))
  else Some n.
Definition reapNetworks (db : NetworkDB) : NetworkDB :=
  let db := set_thisNodeNetworks
    (omap (fun n => (fun w => set_network w n) <$> reapNetwork (tn_network n)) (thisNodeNetworks db)) db in
  set_networks ((fun nn : gmap string network => omap reapNetwork nn) <$> networks db) db.

(** [v.reapTime -= d] on the entry object at path [p] of the tree by network. *)
Definition decReapTime (p : string) (d : Z) (db : NetworkDB) : NetworkDB :=
  let dec (v : entry) :=
    Entry (e_node v) (e_ltime v) (e_value v) (e_deleting v) (e_reapTime v - d) in
  let db := set_byNetwork (alter dec p (byNetwork db)) db in
  match SplitN3 p with
  | Some (nid, tname, key) => set_byTable (alter dec (path tname nid key) (byTable db)) db
  | None => db
  end.

(** The walk of [reapTableEntries]; [since p] is the time since the start of the cycle when
    the walk comes to [p]. *)
Definition reapEntry (since : string -> Z) (db : NetworkDB) (pe : string * entry) : NetworkDB :=
  let '(p, v) := pe in
  let timeCompensation := since p in
  if negb (e_deleting v) then db
  else if e_reapTime v >? reapPeriod + timeCompensation + Second then
    decReapTime p (reapPeriod + timeCompensation) db
  else match params p with
       | Some (nwID, tName, key) => (deleteEntry nwID tName key db).1.1
       | None => set_panicked true db
       end.
Definition reapTableEntries (since : string -> Z) (db : NetworkDB) : NetworkDB :=
  foldl (fun db nid => foldl (reapEntry since) db (WalkPrefix ("/" ++ nid)%string (byNetwork db)))
    db (map_to_list (thisNodeNetworks db)).*1.

(** [reapState] *)
Definition reapState (since : string -> Z) (db : NetworkDB) : NetworkDB :=
  reapNetworks (reapTableEntries since db).

End Ops.
