(* ===== verification/NetworkDBPaths.v ===== *)
(** * Paths and walks of the gossip database

    Paths of slash-free names split back into the names, the prefix of a network selects
    its paths, and a walk visits every entry under its prefix once, as it was at the start. *)

From Stdlib Require Import Ascii.
From S2P Require Import Prelude Slices NetworkDB.
Open Scope string_scope.
Open Scope list_scope.
Open Scope Z_scope.

(** A name that can be a component of a path. *)
Definition noslash (s : string) : bool := negb (has_char "/"%char s).

(** The names of a key: table, network, key. *)
Definition names (t n k : string) : Prop := noslash t = true /\ noslash n = true /\ noslash k = true.

Lemma noslash_char s : noslash s = true -> has_char "/"%char s = false.
Proof. unfold noslash. by destruct (has_char _ s). Qed.

(** ** Splitting *)

Lemma substring_all s : String.substring 0 (String.length s) s = s.
Proof. induction s as [|c s IH]; [done|]. simpl. by rewrite IH. Qed.

Lemma tail_slash s : String.substring 1 (String.length ("/" ++ s) - 1) ("/" ++ s)%string = s.
Proof.
  change (String.substring 0 (String.length s - 0) s = s). rewrite Nat.sub_0_r.
  apply substring_all.
Qed.

Lemma Split_path a b c :
  noslash a = true -> noslash b = true ->
  Split (a ++ "/" ++ b ++ "/" ++ c) "/"%char = a :: b :: Split c "/"%char.
Proof.
  intros Ha Hb. change ("/" ++ b ++ "/" ++ c)%string with (String "/"%char (b ++ String "/"%char c)).
  rewrite Split_app, Split_app by (by apply noslash_char). done.
Qed.

Lemma params_path a b c :
  noslash a = true -> noslash b = true -> noslash c = true -> params (path a b c) = Some (a, b, c).
Proof.
  intros Ha Hb Hc. unfold params, path. rewrite tail_slash, Split_path by done.
  by rewrite Split_none by (by apply noslash_char).
Qed.

Lemma SplitN3_path a b c :
  noslash a = true -> noslash b = true -> noslash c = true -> SplitN3 (path a b c) = Some (a, b, c).
Proof.
  intros Ha Hb Hc. unfold SplitN3, path. rewrite tail_slash, Split_path by done.
  by rewrite Split_none by (by apply noslash_char).
Qed.

Lemma path_inj t n k t' n' k' :
  names t n k -> names t' n' k' -> path t n k = path t' n' k' -> t = t' /\ n = n' /\ k = k'.
Proof.
  intros (?&?&?) (?&?&?) E. apply (f_equal params) in E. rewrite !params_path in E by done.
  by simplify_eq.
Qed.

(** The path in the tree by network determines the path in the tree by table. *)
Lemma path_swap t n k t' n' k' :
  names t n k -> names t' n' k' -> path n t k = path n' t' k' -> path t n k = path t' n' k'.
Proof.
  intros H H' E. apply path_inj in E as (->&->&->); [done|unfold names in *; tauto..].
Qed.

(** ** Prefixes *)

Lemma prefix_app p s : String.prefix p (p ++ s) = true.
Proof. induction p as [|c p IH]; simpl; [by destruct s|]. by destruct (ascii_dec c c). Qed.

Lemma prefix_char_app c p s :
  String.prefix (String c p) (String c s) = String.prefix p s.
Proof. simpl. by destruct (ascii_dec c c). Qed.

Lemma append_assoc (a b c : string) : ((a ++ b) ++ c = a ++ (b ++ c))%string.
Proof.
  induction a as [|x a IH]; [done|].
  change (String x ((a ++ b) ++ c) = String x (a ++ (b ++ c)))%string. by rewrite IH.
Qed.

(** Two slash-free names in front of a slash. *)
Lemma prefix_component n a s t :
  noslash n = true -> noslash a = true ->
  String.prefix (n ++ "/" ++ t) (a ++ "/" ++ s) = true <-> n = a /\ String.prefix t s = true.
Proof.
  intros Hn. revert a. induction n as [|c n IH]; intros a Ha.
  - destruct a as [|d a].
    + change ("" ++ "/" ++ t)%string with (String "/" t).
      change ("" ++ "/" ++ s)%string with (String "/" s). rewrite prefix_char_app. naive_solver.
    + change ("" ++ "/" ++ t)%string with (String "/" t).
      change (String d a ++ "/" ++ s)%string with (String d (a ++ "/" ++ s)).
      cbn [String.prefix].
      destruct (ascii_dec "/" d) as [<-|Hne]; [|split; [done|by intros []]].
      by vm_compute in Ha.
  - assert (Hn' : noslash n = true).
    { unfold noslash in *. simpl in Hn. by destruct (has_char _ n), (Ascii.eqb c "/"). }
    destruct a as [|d a].
    + change (String c n ++ "/" ++ t)%string with (String c (n ++ "/" ++ t)).
      change ("" ++ "/" ++ s)%string with (String "/" s). cbn [String.prefix].
      destruct (ascii_dec c "/") as [->|Hne]; [|split; [done|by intros []]]. by vm_compute in Hn.
    + change (String c n ++ "/" ++ t)%string with (String c (n ++ "/" ++ t)).
      change (String d a ++ "/" ++ s)%string with (String d (a ++ "/" ++ s)).
      assert (Ha' : noslash a = true).
      { unfold noslash in *. simpl in Ha. by destruct (has_char _ a), (Ascii.eqb d "/"). }
      cbn [String.prefix]. destruct (ascii_dec c d) as [->|Hne];
        [|split; [done|intros [[=]]; congruence]].
      rewrite (IH Hn' a Ha'). naive_solver.
Qed.

(** The prefix of a network, as the walks spell it. *)
Lemma prefix_network n b c : String.prefix ("/" ++ n)%string (path n b c) = true.
Proof. unfold path. rewrite <- append_assoc. apply prefix_app. Qed.

Lemma prefix_empty s : String.prefix "" s = true.
Proof. by destruct s. Qed.

(** The prefixes that end in a slash select exactly. *)
Lemma prefix_first n a b c :
  noslash n = true -> noslash a = true ->
  String.prefix ("/" ++ n ++ "/")%string (path a b c) = true <-> a = n.
Proof.
  intros Hn Ha. unfold path.
  change ("/" ++ n ++ "/")%string with (String "/" (n ++ "/" ++ "")).
  change ("/" ++ a ++ "/" ++ b ++ "/" ++ c)%string with (String "/" (a ++ "/" ++ b ++ "/" ++ c)).
  rewrite prefix_char_app, prefix_component by done. rewrite prefix_empty. naive_solver.
Qed.

Lemma prefix_second n m a b c :
  noslash n = true -> noslash m = true -> noslash a = true -> noslash b = true ->
  String.prefix ("/" ++ n ++ "/" ++ m ++ "/")%string (path a b c) = true <-> a = n /\ b = m.
Proof.
  intros Hn Hm Ha Hb. unfold path.
  change ("/" ++ n ++ "/" ++ m ++ "/")%string with (String "/" (n ++ "/" ++ (m ++ "/" ++ ""))).
  change ("/" ++ a ++ "/" ++ b ++ "/" ++ c)%string with (String "/" (a ++ "/" ++ (b ++ "/" ++ c))).
  rewrite prefix_char_app, prefix_component by done. rewrite prefix_component by done.
  rewrite prefix_empty. naive_solver.
Qed.

Lemma prefix_slash a b c : String.prefix "/" (path a b c) = true.
Proof. unfold path. apply prefix_app. Qed.

(** ** Walks *)

Lemma WalkPrefix_perm pre m :
  WalkPrefix pre m ≡ₚ filter (fun kv => String.prefix pre kv.1 = true) (map_to_list m).
Proof. apply SortFunc_perm. Qed.

Lemma elem_of_WalkPrefix pre m p e :
  (p, e) ∈ WalkPrefix pre m <-> String.prefix pre p = true /\ m !! p = Some e.
Proof.
  rewrite WalkPrefix_perm, list_elem_of_filter, elem_of_map_to_list. done.
Qed.

Lemma NoDup_WalkPrefix pre m : NoDup (WalkPrefix pre m).*1.
Proof.
  rewrite WalkPrefix_perm. pose proof (NoDup_fst_map_to_list m) as H.
  induction (map_to_list m) as [|kv l IH]; [constructor|].
  rewrite fmap_cons in H. apply list.NoDup_cons in H as [Hn Hd]. rewrite filter_cons.
  case_decide; [|by apply IH]. rewrite fmap_cons. apply list.NoDup_cons. split; [|by apply IH].
  contradict Hn. apply list_elem_of_fmap in Hn as (y&->&Hy%list_elem_of_filter).
  apply list_elem_of_fmap. naive_solver.
Qed.

Lemma length_WalkPrefix pre m : (length (WalkPrefix pre m) <= size m)%nat.
Proof. rewrite WalkPrefix_perm, <- length_map_to_list. apply length_filter. Qed.

(** A loop over the entries of a walk: when the step for an entry changes the tree at the
    path of that entry only, every step finds its entry as the walk saw it.  The invariant
    may depend on the entries still to come. *)
Lemma walk_fold (ix : NetworkDB -> gmap string entry) (step : NetworkDB -> string * entry -> NetworkDB)
    (P : list (string * entry) -> NetworkDB -> Prop) l db :
  NoDup l.*1 -> (forall p e, (p, e) ∈ l -> ix db !! p = Some e) -> P l db ->
  (forall p e l db, P ((p, e) :: l) db -> ix db !! p = Some e ->
     P l (step db (p, e)) /\ (forall q, q <> p -> ix (step db (p, e)) !! q = ix db !! q)) ->
  P [] (foldl step db l).
Proof.
  intros Hnd Hix HP Hstep. revert db Hix HP.
  induction l as [|[p e] l IH]; intros db Hix HP; [done|].
  rewrite fmap_cons in Hnd. apply list.NoDup_cons in Hnd as [Hp Hnd]. simpl.
  destruct (Hstep p e l db HP) as [HP' Hq]; [apply Hix; left|].
  apply IH; [done| |done]. intros q e' Hin. rewrite Hq; [apply Hix; by right|].
  intros ->. apply Hp. apply list_elem_of_fmap. by exists (p, e').
Qed.

(** The same for a walk from the current state; every path is met once, under the prefix. *)
Lemma WalkPrefix_fold ix step (P : list (string * entry) -> NetworkDB -> Prop) pre db db0 :
  ix db0 = ix db -> P (WalkPrefix pre (ix db)) db0 ->
  (forall p e l db, P ((p, e) :: l) db -> ix db !! p = Some e ->
     String.prefix pre p = true -> p ∉ l.*1 ->
     P l (step db (p, e)) /\ (forall q, q <> p -> ix (step db (p, e)) !! q = ix db !! q)) ->
  P [] (foldl step db0 (WalkPrefix pre (ix db))).
Proof.
  intros E HP Hstep.
  apply (walk_fold ix step (fun l d => P l d /\ NoDup l.*1 /\
    forall p e, (p, e) ∈ l -> String.prefix pre p = true)).
  - apply NoDup_WalkPrefix.
  - intros p e [_ H]%elem_of_WalkPrefix. by rewrite E.
  - split; [done|]. split; [apply NoDup_WalkPrefix|]. by intros p e [? _]%elem_of_WalkPrefix.
  - intros p e l d (HPd&Hnd&Hpre) He. rewrite fmap_cons in Hnd.
    apply list.NoDup_cons in Hnd as [Hp Hnd].
    destruct (Hstep p e l d HPd He) as [HP' Hq]; [by eapply Hpre; left|done|].
    split; [|done]. split; [done|]. split; [done|]. intros. eapply Hpre. by right.
Qed.
