(* ===== verification/NetworkDBSpec.v ===== *)
(** * The gossip database: trees, watchers and walks

    The invariant of the two trees, the view a watcher builds from the events, and the
    effect of the walks over the trees on both. *)

From S2P Require Import Prelude Slices NetworkDB NetworkDBPaths.
Open Scope string_scope.
Open Scope list_scope.
Open Scope Z_scope.

Create HintDb ndb.

(** ** The two trees hold the same entries, under paths of slash-free names *)

Definition mirror (db : NetworkDB) : Prop :=
  (forall p e, byTable db !! p = Some e ->
     exists t n k, names t n k /\ p = path t n k /\ byNetwork db !! path n t k = Some e) /\
  (forall p e, byNetwork db !! p = Some e ->
     exists t n k, names t n k /\ p = path n t k /\ byTable db !! path t n k = Some e).

Lemma names_swap t n k : names t n k -> names n t k.
Proof. unfold names. tauto. Qed.
#[export] Hint Resolve names_swap : ndb.

Lemma mirror_lookup db t n k :
  mirror db -> names t n k -> byNetwork db !! path n t k = getEntry t n k db.
Proof.
  intros [H1 H2] Hn. unfold getEntry.
  destruct (byNetwork db !! path n t k) as [e|] eqn:E.
  - apply H2 in E as (t'&n'&k'&Hn'&Ep&E). apply path_swap in Ep; [|done..]. by rewrite Ep.
  - destruct (byTable db !! path t n k) as [e|] eqn:E'; [|done].
    apply H1 in E' as (t'&n'&k'&Hn'&Ep&E'). apply path_swap in Ep; [congruence|auto with ndb..].
Qed.

(** ** What a change of the entries leaves alone *)

Definition att (db : NetworkDB) (nid : string) : option (nat * network * bool) :=
  (fun n => (tn_obj n, tn_network n, tn_inSync n)) <$> thisNodeNetworks db !! nid.

(** This node takes part in the network. *)
Definition joined (db : NetworkDB) (nid : string) : bool :=
  match thisNodeNetworks db !! nid with
  | Some n => negb (nw_leaving (tn_network n))
  | None => false
  end.

Record frame (db db' : NetworkDB) : Prop := {
  fr_nodes : nodes db' = nodes db;
  fr_failedNodes : failedNodes db' = failedNodes db;
  fr_leftNodes : leftNodes db' = leftNodes db;
  fr_networks : networks db' = networks db;
  fr_networkNodes : networkNodes db' = networkNodes db;
  fr_networkClock : networkClock db' = networkClock db;
  fr_att : forall nid, att db' nid = att db nid;
  fr_panicked : panicked db' = panicked db
}.

#[export] Instance frame_preorder : PreOrder frame.
Proof.
  split; [by constructor|]. intros x y z [] []. constructor; try congruence.
Qed.

Lemma frame_joined db db' nid : frame db db' -> joined db' nid = joined db nid.
Proof.
  intros H. pose proof (fr_att _ _ H nid) as E. unfold att, joined in *.
  destruct (thisNodeNetworks db' !! nid), (thisNodeNetworks db !! nid); simplify_eq/=; congruence.
Qed.

Lemma frame_nodesOf db db' nid : frame db db' -> nodesOf nid db' = nodesOf nid db.
Proof. intros H. unfold nodesOf. by rewrite (fr_networkNodes _ _ H). Qed.

(** An update of an attachment that keeps its identity, state and sync flag. *)
Definition keeps (f : thisNodeNetwork -> thisNodeNetwork) : Prop :=
  forall n, tn_obj (f n) = tn_obj n /\ tn_network (f n) = tn_network n /\ tn_inSync (f n) = tn_inSync n.

Lemma keeps_id : keeps id.
Proof. done. Qed.
Lemma keeps_entriesNumber d : keeps (add_entriesNumber d).
Proof. done. Qed.
#[export] Hint Resolve keeps_id keeps_entriesNumber : ndb.

Lemma frame_on_network nid f db : keeps f -> frame db (on_network nid f db).
Proof.
  intros Hf. constructor; try done. intros nid'. unfold att, on_network. simpl.
  destruct (decide (nid' = nid)) as [->|Hne].
  - rewrite lookup_alter_eq. destruct (_ !! nid) as [n|]; [|done]. simpl.
    by destruct (Hf n) as (->&->&->).
  - by rewrite lookup_alter_ne by done.
Qed.

Lemma on_network_id nid db : on_network nid id db = db.
Proof. unfold on_network. rewrite alter_id by done. by destruct db. Qed.

(** ** The shape of the two primitive changes *)

Lemma createOrUpdateEntry_shape n t k v db :
  exists f, keeps f /\ createOrUpdateEntry n t k v db =
    on_network n f (set_byNetwork (<[path n t k := v]> (byNetwork db))
                      (set_byTable (<[path t n k := v]> (byTable db)) db)).
Proof.
  unfold createOrUpdateEntry. case_bool_decide.
  - exists id. by rewrite on_network_id.
  - by exists (add_entriesNumber 1).
Qed.

Lemma deleteEntry_shape n t k db :
  exists f, keeps f /\ (deleteEntry n t k db).1.1 =
    on_network n f (set_byNetwork (delete (path n t k) (byNetwork db))
                      (set_byTable (delete (path t n k) (byTable db)) db)).
Proof.
  unfold deleteEntry. simpl. case_bool_decide.
  - by exists (add_entriesNumber (-1)).
  - exists id. by rewrite on_network_id.
Qed.

Lemma createOrUpdateEntry_frame n t k v db : frame db (createOrUpdateEntry n t k v db).
Proof.
  destruct (createOrUpdateEntry_shape n t k v db) as (f&Hf&->).
  etransitivity; [|by apply frame_on_network]. by constructor.
Qed.

Lemma deleteEntry_frame n t k db : frame db (deleteEntry n t k db).1.1.
Proof.
  destruct (deleteEntry_shape n t k db) as (f&Hf&->).
  etransitivity; [|by apply frame_on_network]. by constructor.
Qed.

Lemma createOrUpdateEntry_fields n t k v db :
  byTable (createOrUpdateEntry n t k v db) = <[path t n k := v]> (byTable db) /\
  byNetwork (createOrUpdateEntry n t k v db) = <[path n t k := v]> (byNetwork db) /\
  tableClock (createOrUpdateEntry n t k v db) = tableClock db /\
  broadcaster (createOrUpdateEntry n t k v db) = broadcaster db.
Proof. by destruct (createOrUpdateEntry_shape n t k v db) as (f&Hf&->). Qed.

Lemma deleteEntry_fields n t k db :
  byTable (deleteEntry n t k db).1.1 = delete (path t n k) (byTable db) /\
  byNetwork (deleteEntry n t k db).1.1 = delete (path n t k) (byNetwork db) /\
  tableClock (deleteEntry n t k db).1.1 = tableClock db /\
  broadcaster (deleteEntry n t k db).1.1 = broadcaster db.
Proof. by destruct (deleteEntry_shape n t k db) as (f&Hf&->). Qed.

Lemma getEntry_create n t k v db t' n' k' :
  names t n k -> names t' n' k' ->
  getEntry t' n' k' (createOrUpdateEntry n t k v db) =
    if decide ((t', n', k') = (t, n, k)) then Some v else getEntry t' n' k' db.
Proof.
  intros H H'. unfold getEntry. destruct (createOrUpdateEntry_fields n t k v db) as (->&_).
  case_decide as E; [simplify_eq; by rewrite lookup_insert_eq|].
  rewrite lookup_insert_ne; [done|]. intros Ep. by apply path_inj in Ep as (->&->&->).
Qed.

Lemma getEntry_delete n t k db t' n' k' :
  names t n k -> names t' n' k' ->
  getEntry t' n' k' (deleteEntry n t k db).1.1 =
    if decide ((t', n', k') = (t, n, k)) then None else getEntry t' n' k' db.
Proof.
  intros H H'. unfold getEntry. destruct (deleteEntry_fields n t k db) as (->&_).
  case_decide as E; [simplify_eq; by rewrite lookup_delete_eq|].
  rewrite lookup_delete_ne; [done|]. intros Ep. by apply path_inj in Ep as (->&->&->).
Qed.

(** Trees that differ from mirrored ones at the two paths of one key. *)
Lemma mirror_change db db' t n k (x : option entry) :
  mirror db -> names t n k ->
  byTable db' = partial_alter (fun _ => x) (path t n k) (byTable db) ->
  byNetwork db' = partial_alter (fun _ => x) (path n t k) (byNetwork db) -> mirror db'.
Proof.
  intros [H1 H2] Hn ET EN. split; intros p e E.
  - rewrite ET in E. rewrite EN. destruct (decide (p = path t n k)) as [->|Hne].
    + rewrite lookup_partial_alter_eq in E. exists t, n, k. by rewrite lookup_partial_alter_eq.
    + rewrite lookup_partial_alter_ne in E by done. apply H1 in E as (t'&n'&k'&Hn'&->&E).
      exists t', n', k'. rewrite lookup_partial_alter_ne; [done|].
      intros Ep. apply path_swap in Ep; [congruence|done..].
  - rewrite EN in E. rewrite ET. destruct (decide (p = path n t k)) as [->|Hne].
    + rewrite lookup_partial_alter_eq in E. exists t, n, k. by rewrite lookup_partial_alter_eq.
    + rewrite lookup_partial_alter_ne in E by done. apply H2 in E as (t'&n'&k'&Hn'&->&E).
      exists t', n', k'. rewrite lookup_partial_alter_ne; [done|].
      intros Ep. apply path_swap in Ep; [congruence|auto with ndb..].
Qed.

Lemma mirror_create n t k v db :
  mirror db -> names t n k -> mirror (createOrUpdateEntry n t k v db).
Proof.
  intros Hm Hn. destruct (createOrUpdateEntry_fields n t k v db) as (ET&EN&_).
  by apply (mirror_change db _ t n k (Some v)).
Qed.

Lemma mirror_delete n t k db : mirror db -> names t n k -> mirror (deleteEntry n t k db).1.1.
Proof.
  intros Hm Hn. destruct (deleteEntry_fields n t k db) as (ET&EN&_).
  by apply (mirror_change db _ t n k None).
Qed.

(** ** The view of a watcher *)

Abbreviation view := (gmap (string * string * string) string).

(** What a client does with an event: it keeps the current value of every key. *)
Definition applyEvent (v : view) (ev : WatchEvent) : view :=
  let key := (wt_Table ev, wt_NetworkID ev, wt_Key ev) in
  if bool_decide (wt_Table ev = NodeTable) then v
  else if IsCreate ev || IsUpdate ev then
    match wt_Value ev with Some s => <[key := s]> v | None => v end
  else if IsDelete ev then delete key v
  else v.

(** The value of an entry that watchers are to see: entries of other nodes that are not
    deleted. *)
Definition live (self : string) (e : option entry) : option string :=
  match e with
  | Some e => if e_deleting e || bool_decide (e_node e = self) then None else e_value e
  | None => None
  end.

(** The view agrees with the table entries on the keys that [sel] selects. *)
Definition view_of (self : string) (sel : string -> string -> bool) (db : NetworkDB) (v : view) : Prop :=
  forall t n k, names t n k -> t <> NodeTable ->
    v !! (t, n, k) = if sel t n then live self (getEntry t n k db) else None.

(** From [db] to [db'] the watchers receive the events that turn a view of [db] into a view
    of [db']. *)
Definition sim (self : string) (db db' : NetworkDB) : Prop :=
  exists evs, broadcaster db' = broadcaster db ++ evs /\
    forall sel v, view_of self sel db v ->
      view_of self sel db'
        (foldl applyEvent v (filter (fun ev => sel (wt_Table ev) (wt_NetworkID ev) = true) evs)).

#[export] Instance sim_preorder self : PreOrder (sim self).
Proof.
  split.
  - intros db. exists []. rewrite app_nil_r. by split.
  - intros a b c (e1&E1&H1) (e2&E2&H2). exists (e1 ++ e2).
    rewrite E2, E1, app_assoc. split; [done|]. intros sel v Hv.
    rewrite list.filter_app, foldl_app. by apply H2, H1.
Qed.

(** Nothing changes for the watchers. *)
Lemma sim_same self db db' :
  broadcaster db' = broadcaster db ->
  (forall t n k, names t n k -> t <> NodeTable ->
     live self (getEntry t n k db') = live self (getEntry t n k db)) ->
  sim self db db'.
Proof.
  intros Eb Hl. exists []. rewrite app_nil_r. split; [done|]. intros sel v Hv t n k Hn Ht.
  rewrite Hl by done. by apply Hv.
Qed.

Lemma sim_tables self db db' :
  broadcaster db' = broadcaster db -> byTable db' = byTable db -> sim self db db'.
Proof. intros Eb Et. apply sim_same; [done|]. intros. unfold getEntry. by rewrite Et. Qed.

(** One key changes and one event tells. *)
Lemma sim_event self db db' t n k ev :
  broadcaster db' = broadcaster db ++ [ev] ->
  wt_Table ev = t -> wt_NetworkID ev = n -> wt_Key ev = k -> names t n k ->
  (forall t' n' k', names t' n' k' -> (t', n', k') <> (t, n, k) ->
     getEntry t' n' k' db' = getEntry t' n' k' db) ->
  live self (getEntry t n k db') = wt_Value ev ->
  (wt_Value ev = None -> wt_Prev ev = None -> live self (getEntry t n k db) = None) ->
  sim self db db'.
Proof.
  intros Eb Et En Ek Hn Hother Hlive Hnone. exists [ev]. split; [done|].
  intros sel v Hv t' n' k' Hn' Ht'. rewrite filter_cons, filter_nil.
  specialize (Hv t' n' k' Hn' Ht').
  assert (Hk : (t', n', k') <> (t, n, k) -> (sel t' n' = true -> True) ->
     (if sel t' n' then live self (getEntry t' n' k' db') else None) = v !! (t', n', k')).
  { intros Hne _. rewrite Hv. by rewrite Hother. }
  case_decide as Hsel; cbn [foldl].
  2: { destruct (decide ((t', n', k') = (t, n, k))) as [[= -> -> ->]|Hne].
       - rewrite Hv. rewrite Et, En in Hsel. by destruct (sel t n).
       - by rewrite Hk. }
  unfold applyEvent. rewrite Et, En, Ek.
  destruct (decide ((t', n', k') = (t, n, k))) as [[= -> -> ->]|Hne].
  - rewrite Et, En in Hsel. rewrite Hsel, Hlive in *. rewrite bool_decide_eq_false_2 by done.
    unfold IsCreate, IsUpdate, IsDelete.
    destruct (wt_Value ev) as [s|], (wt_Prev ev) as [pv|]; cbn.
    + by rewrite lookup_insert_eq.
    + by rewrite lookup_insert_eq.
    + by rewrite lookup_delete_eq.
    + rewrite Hv. by apply Hnone.
  - rewrite Hk by done. case_bool_decide; [done|].
    repeat match goal with
           | |- context [if ?b then _ else _] => destruct b
           | |- context [match wt_Value ev with _ => _ end] => destruct (wt_Value ev)
           end;
    rewrite ?lookup_insert_ne, ?lookup_delete_ne by done; done.
Qed.

(** ** Walks *)

(** A tree with the way it spells the path of a key. *)
Class Index (ix : NetworkDB -> gmap string entry) (pth : string -> string -> string -> string) := {
  ix_decode db p e : mirror db -> ix db !! p = Some e ->
    exists t n k, names t n k /\ p = pth t n k /\ getEntry t n k db = Some e;
  ix_lookup db t n k : mirror db -> names t n k -> ix db !! pth t n k = getEntry t n k db;
  pth_inj t n k t' n' k' : names t n k -> names t' n' k' -> pth t n k = pth t' n' k' ->
    (t, n, k) = (t', n', k')
}.

#[export] Instance byTable_index : Index byTable path.
Proof.
  split.
  - intros db p e [H _] E. pose proof E as E'. apply H in E' as (t&n&k&Hn&->&_). by exists t, n, k.
  - done.
  - intros t n k t' n' k' H H' E. by apply path_inj in E as (->&->&->).
Qed.

#[export] Instance byNetwork_index : Index byNetwork (fun t n k => path n t k).
Proof.
  split.
  - intros db p e [_ H] E. by apply H in E as (t&n&k&Hn&->&E); exists t, n, k.
  - intros. by apply mirror_lookup.
  - intros t n k t' n' k' H H' E. apply path_inj in E as (->&->&->); auto with ndb.
Qed.

(** A change that keeps the invariant of the trees, the rest of the state and the views. *)
Record goes (self : string) (db db' : NetworkDB) : Prop := {
  go_mirror : mirror db';
  go_frame : frame db db';
  go_sim : sim self db db'
}.

Lemma goes_refl self db : mirror db -> goes self db db.
Proof. by constructor. Qed.

Lemma goes_trans self db1 db2 db3 : goes self db1 db2 -> goes self db2 db3 -> goes self db1 db3.
Proof. intros [] []. constructor; [done|by etransitivity..]. Qed.

Lemma getEntry_broadcast t n k ev db : getEntry t n k (broadcast ev db) = getEntry t n k db.
Proof. done. Qed.
Lemma broadcaster_broadcast ev db : broadcaster (broadcast ev db) = broadcaster db ++ [ev].
Proof. done. Qed.

Lemma dropEntry_goes self n t k e db :
  mirror db -> names t n k -> getEntry t n k db = Some e -> goes self db (dropEntry n t k e db).
Proof.
  intros Hm Hn He. unfold dropEntry. destruct (e_deleting e) eqn:Ed.
  - constructor; [by apply mirror_delete|by apply deleteEntry_frame|].
    apply sim_same; [apply deleteEntry_fields|]. intros t' n' k' Hn' _.
    rewrite getEntry_delete by done. case_decide as E; [|done]. simplify_eq.
    rewrite He. simpl. by rewrite Ed.
  - constructor.
    + by apply (mirror_delete n t k db).
    + etransitivity; [apply (deleteEntry_frame n t k)|]. by constructor.
    + apply (sim_event _ _ _ t n k (MkWatchEvent t n k None (e_value e))); try done.
      * rewrite broadcaster_broadcast. by destruct (deleteEntry_fields n t k db) as (_&_&_&->).
      * intros t' n' k' Hn' Hne. rewrite getEntry_broadcast, getEntry_delete by done.
        by rewrite decide_False.
      * rewrite getEntry_broadcast, getEntry_delete by done. by rewrite decide_True.
      * simpl. intros _ Ev. rewrite He. simpl. rewrite Ev. by destruct (_ || _).
Qed.

Lemma dropEntry_fields n t k e db :
  byTable (dropEntry n t k e db) = delete (path t n k) (byTable db) /\
  byNetwork (dropEntry n t k e db) = delete (path n t k) (byNetwork db) /\
  tableClock (dropEntry n t k e db) = tableClock db.
Proof.
  destruct (deleteEntry_fields n t k db) as (?&?&?&?). unfold dropEntry.
  by destruct (e_deleting e).
Qed.

Lemma getEntry_drop n t k e db t' n' k' :
  names t n k -> names t' n' k' ->
  getEntry t' n' k' (dropEntry n t k e db) =
    if decide ((t', n', k') = (t, n, k)) then None else getEntry t' n' k' db.
Proof.
  intros. rewrite <- getEntry_delete by done. unfold getEntry, dropEntry.
  by destruct (e_deleting e).
Qed.

(** A change of one key changes the tree at its path only. *)
Lemma ix_other ix pth `{!Index ix pth} d d' t n k :
  mirror d -> mirror d' -> names t n k ->
  (forall t' n' k', names t' n' k' -> (t', n', k') <> (t, n, k) ->
     getEntry t' n' k' d' = getEntry t' n' k' d) ->
  forall q, q <> pth t n k -> ix d' !! q = ix d !! q.
Proof.
  intros Hm Hm' Hn Hget q Hq.
  assert (Hx : forall t' n' k', pth t' n' k' <> pth t n k -> (t', n', k') <> (t, n, k)) by naive_solver.
  destruct (ix d' !! q) as [x|] eqn:Ex.
  - apply ix_decode in Ex as (t'&n'&k'&Hn'&->&Ex); [|done].
    rewrite Hget in Ex by auto. by rewrite ix_lookup.
  - destruct (ix d !! q) as [y|] eqn:Ey; [|done].
    apply ix_decode in Ey as (t'&n'&k'&Hn'&->&Ey); [|done].
    rewrite ix_lookup, Hget in Ex by auto. congruence.
Qed.

(** The keys of a walk that are still to come. *)
Lemma todo_cons ix pth `{!Index ix pth} t n k e t' n' k' (l : list (string * entry)) :
  names t n k -> names t' n' k' -> (t', n', k') <> (t, n, k) ->
  bool_decide (pth t' n' k' ∈ ((pth t n k, e) :: l).*1) = bool_decide (pth t' n' k' ∈ l.*1).
Proof.
  intros Hn Hn' Hne. apply bool_decide_ext. rewrite fmap_cons, elem_of_cons. simpl.
  split; [|by right]. intros [Ep|]; [|done]. by apply pth_inj in Ep.
Qed.

(** What a walk does, when its step for an entry changes the key of that entry only.  [T e c c' o]
    relates the entry to what is left of it, for the table clocks before and after; a step
    advances the clock by at most [inc]. *)
Section Walk.
Context (self pre : string) (ix : NetworkDB -> gmap string entry).
Context (pth : string -> string -> string -> string) `{!Index ix pth}.
Context (step : NetworkDB -> string * entry -> NetworkDB) (inc : Z).
Context (T : entry -> Z -> Z -> option entry -> Prop).
Hypothesis T_mono : forall e c0 c1 c0' c1' o, c0' <= c0 -> c1 <= c1' -> T e c0 c1 o -> T e c0' c1' o.
Hypothesis inc_nonneg : 0 <= inc.
Hypothesis step_ok : forall t n k e d,
  mirror d -> names t n k -> getEntry t n k d = Some e -> String.prefix pre (pth t n k) = true ->
  0 <= tableClock d -> tableClock d + inc < 2 ^ 64 ->
  let d' := step d (pth t n k, e) in
  goes self d d' /\ tableClock d <= tableClock d' <= tableClock d + inc /\
  T e (tableClock d) (tableClock d') (getEntry t n k d') /\
  (forall t' n' k', names t' n' k' -> (t', n', k') <> (t, n, k) ->
     getEntry t' n' k' d' = getEntry t' n' k' d).

(** What the walk makes of a key, while the entries of [l] are still to come. *)
Definition walked (db d : NetworkDB) (l : list (string * entry)) (t n k : string) : Prop :=
  match getEntry t n k db with
  | Some e =>
      if String.prefix pre (pth t n k) && negb (bool_decide (pth t n k ∈ l.*1))
      then T e (tableClock db) (tableClock d) (getEntry t n k d)
      else getEntry t n k d = Some e
  | None => getEntry t n k d = None
  end.

Lemma walk_effect db :
  mirror db -> 0 <= tableClock db ->
  tableClock db + inc * Z.of_nat (length (WalkPrefix pre (ix db))) < 2 ^ 64 ->
  let db' := foldl step db (WalkPrefix pre (ix db)) in
  goes self db db' /\
  tableClock db <= tableClock db' <= tableClock db + inc * Z.of_nat (length (WalkPrefix pre (ix db))) /\
  forall t n k, names t n k -> walked db db' [] t n k.
Proof using All.
  intros Hm Hnn Hroom. cbv zeta. set (len := fun l : list (string * entry) => inc * Z.of_nat (length l)).
  enough (H : goes self db (foldl step db (WalkPrefix pre (ix db))) /\
     (tableClock db <= tableClock (foldl step db (WalkPrefix pre (ix db))) /\
      tableClock (foldl step db (WalkPrefix pre (ix db))) + len [] <=
        tableClock db + len (WalkPrefix pre (ix db))) /\
     (forall t n k, names t n k -> walked db (foldl step db (WalkPrefix pre (ix db))) [] t n k)).
  { unfold len in H. simpl in H. destruct H as (?&[??]&?). split; [done|]. split; [lia|done]. }
  apply (WalkPrefix_fold ix step (fun l d => goes self db d /\
     (tableClock db <= tableClock d /\
      tableClock d + len l <= tableClock db + len (WalkPrefix pre (ix db))) /\
     (forall t n k, names t n k -> walked db d l t n k))); [done| |].
  - split; [by apply goes_refl|]. split; [lia|]. intros t n k Hn. unfold walked.
    destruct (getEntry t n k db) as [e|] eqn:E; [|done].
    destruct (String.prefix pre _) eqn:Ep; [|done].
    rewrite (bool_decide_eq_true_2 (_ ∈ _)); [done|].
    apply list_elem_of_fmap. exists (pth t n k, e). split; [done|].
    apply elem_of_WalkPrefix. by rewrite ix_lookup.
  - intros p e l d (Hg&[Hc1 Hc2]&Hget) He Hpre Hnl. pose proof (go_mirror _ _ _ Hg) as Hmd.
    destruct (ix_decode d p e Hmd He) as (t&n&k&Hn&->&Hgd).
    assert (Hlen : len ((pth t n k, e) :: l) = inc + len l) by (unfold len; simpl length; lia).
    assert (0 <= len l) by (unfold len; lia).
    destruct (step_ok t n k e d) as (Hgo&Hclk&HT&Hoth);
      [done..|lia|unfold len in *; lia|].
    split; [split; [by eapply goes_trans|split; [lia|]]|].
    + intros t' n' k' Hn'. pose proof (Hget t' n' k' Hn') as Hw. unfold walked in Hw |- *.
      destruct (decide ((t', n', k') = (t, n, k))) as [[= -> -> ->]|Hne].
      * rewrite fmap_cons, (bool_decide_eq_true_2 (_ ∈ _)) in Hw by left. rewrite andb_false_r in Hw.
        rewrite Hgd in Hw. destruct (getEntry t n k db); [|done]. injection Hw as <-.
        rewrite Hpre, bool_decide_eq_false_2 by done. simpl. eapply T_mono; [| |done]; lia.
      * rewrite Hoth by done. destruct (getEntry t' n' k' db); [|done].
        rewrite (todo_cons ix pth) in Hw by done. destruct (_ && _); [|done].
        eapply T_mono; [| |done]; lia.
    + apply (ix_other ix pth); [done|by eapply go_mirror|done|done].
Qed.
End Walk.

(** *** The walks that drop the entries of a node *)

Definition dropped (m : string) (e : entry) (o : option entry) : Prop :=
  o = if bool_decide (e_node e = m) then None else Some e.

Lemma drop_step self m t n k e d :
  mirror d -> names t n k -> getEntry t n k d = Some e ->
  let d' := if bool_decide (e_node e <> m) then d else dropEntry n t k e d in
  goes self d d' /\ tableClock d' = tableClock d /\ dropped m e (getEntry t n k d') /\
  (forall t' n' k', names t' n' k' -> (t', n', k') <> (t, n, k) ->
     getEntry t' n' k' d' = getEntry t' n' k' d).
Proof.
  intros Hm Hn He. cbv zeta. unfold dropped. case_bool_decide as Hnode.
  - split; [by apply goes_refl|]. by rewrite bool_decide_eq_false_2.
  - split; [by apply dropEntry_goes|]. split; [apply dropEntry_fields|].
    rewrite bool_decide_eq_true_2 by done. split.
    + rewrite getEntry_drop by done. by rewrite decide_True.
    + intros. rewrite getEntry_drop by done. by rewrite decide_False.
Qed.

Lemma deleteNodeNetworkEntries_spec self nid m db :
  mirror db -> is_u64 (tableClock db) ->
  let db' := deleteNodeNetworkEntries nid m db in
  goes self db db' /\ tableClock db' = tableClock db /\
  forall t n k, names t n k ->
    walked ("/" ++ nid)%string (fun t n k => path n t k) (fun e _ _ => dropped m e) db db' [] t n k.
Proof.
  intros Hm [Hnn Hc]. unfold deleteNodeNetworkEntries.
  destruct (walk_effect self ("/" ++ nid)%string byNetwork (fun t n k => path n t k)
    (fun db '(p, oldEntry) =>
       if bool_decide (e_node oldEntry <> m) then db
       else match params p with
            | Some (nwID, tName, key) => dropEntry nwID tName key oldEntry db
            | None => set_panicked true db
            end) 0 (fun e _ _ => dropped m e)) with (db := db) as (?&?&?); try done.
  - intros t n k e d Hmd (?&?&?) He _ _ _. rewrite params_path by done. cbv beta iota zeta.
    destruct (drop_step self m t n k e d) as (?&Hd&?&?); [done..|].
    split; [done|]. split; [rewrite Hd; lia|done].
  - lia.
  - split; [done|]. split; [lia|done].
Qed.

Lemma deleteNodeTableEntries_spec self m db :
  mirror db -> is_u64 (tableClock db) ->
  let db' := deleteNodeTableEntries m db in
  goes self db db' /\ tableClock db' = tableClock db /\
  forall t n k, names t n k -> walked "" path (fun e _ _ => dropped m e) db db' [] t n k.
Proof.
  intros Hm [Hnn Hc]. unfold deleteNodeTableEntries.
  destruct (walk_effect self "" byTable path
    (fun db '(p, oldEntry) =>
       if bool_decide (e_node oldEntry <> m) then db
       else match params p with
            | Some (tName, nwID, key) => dropEntry nwID tName key oldEntry db
            | None => set_panicked true db
            end) 0 (fun e _ _ => dropped m e)) with (db := db) as (?&?&?); try done.
  - intros t n k e d Hmd (?&?&?) He _ _ _. rewrite params_path by done. cbv beta iota zeta.
    destruct (drop_step self m t n k e d) as (?&Hd&?&?); [done..|].
    split; [done|]. split; [rewrite Hd; lia|done].
  - lia.
  - split; [done|]. split; [lia|done].
Qed.

(** *** The walk of [LeaveNetwork] *)

(** Entries of other nodes go, own entries become tombstones with a new time. *)
Definition left_behind (cfg : Config) (e : entry) (c c' : Z) (o : option entry) : Prop :=
  if bool_decide (e_node e = NodeID cfg) then
    if e_deleting e then o = Some e
    else exists lt, c < lt <= c' /\
      o = Some (Entry (e_node e) lt (e_value e) true (reapEntryInterval cfg))
  else o = None.

Lemma Increment_small c : 0 <= c -> c + 1 < 2 ^ 64 -> Increment c = c + 1.
Proof. intros. unfold Increment. apply add64_small. lia. Qed.

Lemma Witness_spec c v : 0 <= v < 2 ^ 64 - 1 -> Witness c v = Z.max c (v + 1).
Proof.
  intros. unfold Witness. destruct (Z.ltb_spec v c); [lia|]. rewrite add64_small by lia. lia.
Qed.

Lemma goes_setClock self c db : mirror db -> goes self db (set_tableClock c db).
Proof. intros Hm. constructor; [done|by constructor|by apply sim_tables]. Qed.

(** Writing an entry that watchers do not see over one they do not see, with an event that
    removes the key. *)
Lemma put_hidden_goes self t n k v ev db :
  mirror db -> names t n k ->
  live self (Some v) = None -> live self (getEntry t n k db) = None ->
  ev = None \/ (exists x, ev = Some (MkWatchEvent t n k None x)) ->
  let db' := createOrUpdateEntry n t k v db in
  goes self db (match ev with Some x => broadcast x db' | None => db' end).
Proof.
  intros Hm Hn Hv Ho Hev. cbv zeta. destruct (createOrUpdateEntry_fields n t k v db) as (ET&EN&EC&EB).
  assert (Hfr := createOrUpdateEntry_frame n t k v db).
  assert (Hmi := mirror_create n t k v db Hm Hn).
  destruct Hev as [->|[x ->]]; constructor; try done.
  - apply sim_same; [done|]. intros t' n' k' Hn' _. rewrite getEntry_create by done.
    case_decide as E; [simplify_eq; congruence|done].
  - etransitivity; [done|]. by constructor.
  - apply (sim_event _ _ _ t n k (MkWatchEvent t n k None x)); try done.
    + rewrite broadcaster_broadcast. by rewrite EB.
    + intros. rewrite getEntry_broadcast, getEntry_create by done. by rewrite decide_False.
    + rewrite getEntry_broadcast, getEntry_create by done. by rewrite decide_True.
Qed.

Lemma live_own self v : e_node v = self -> live self (Some v) = None.
Proof. intros E. simpl. by rewrite (bool_decide_eq_true_2 _ E), orb_true_r. Qed.

Lemma live_deleting self v : e_deleting v = true -> live self (Some v) = None.
Proof. intros E. simpl. by rewrite E. Qed.

Lemma leave_step cfg t n k e d :
  mirror d -> names t n k -> getEntry t n k d = Some e ->
  0 <= tableClock d -> tableClock d + 1 < 2 ^ 64 ->
  let d' := leaveEntry cfg d (path n t k, e) in
  goes (NodeID cfg) d d' /\ tableClock d <= tableClock d' <= tableClock d + 1 /\
  left_behind cfg e (tableClock d) (tableClock d') (getEntry t n k d') /\
  (forall t' n' k', names t' n' k' -> (t', n', k') <> (t, n, k) ->
     getEntry t' n' k' d' = getEntry t' n' k' d).
Proof.
  intros Hm Hn He Hc0 Hc. pose proof Hn as (?&?&?). cbv zeta. unfold leaveEntry, left_behind.
  rewrite params_path by done.
  case_bool_decide as Hown; cbn [andb].
  - destruct (e_deleting e) eqn:Hdel.
    { split; [by apply goes_refl|]. split; [lia|done]. }
    set (v := Entry (e_node e) _ _ _ _). set (d1 := set_tableClock _ d).
    set (ev := MkWatchEvent t n k None (e_value e)).
    assert (Hm1 : mirror d1) by done.
    destruct (createOrUpdateEntry_fields n t k v d1) as (ET&EN&EC&EB).
    split; [|split; [|split]].
    + eapply goes_trans; [by apply (goes_setClock _ (Increment (tableClock d)))|].
      apply (put_hidden_goes _ t n k v (Some ev) d1); [done..| | |by eauto].
      * by apply live_deleting.
      * change (getEntry t n k d1) with (getEntry t n k d). rewrite He. by apply live_own.
    + change (tableClock (broadcast ev ?x)) with (tableClock x). rewrite EC. simpl.
      rewrite Increment_small by lia. lia.
    + exists (tableClock d + 1). split.
      * change (tableClock (broadcast ev ?x)) with (tableClock x). rewrite EC. simpl.
        rewrite Increment_small by lia. lia.
      * rewrite getEntry_broadcast, getEntry_create by done. rewrite decide_True by done.
        unfold v. by rewrite Increment_small by lia.
    + intros. rewrite getEntry_broadcast, getEntry_create by done. by rewrite decide_False.
  - destruct (dropEntry_fields n t k e d) as (_&_&EC).
    split; [by apply dropEntry_goes|]. split; [rewrite EC; lia|]. split.
    + rewrite getEntry_drop by done. by rewrite decide_True.
    + intros. rewrite getEntry_drop by done. by rewrite decide_False.
Qed.

Lemma leave_walk cfg nid db :
  mirror db -> 0 <= tableClock db -> tableClock db + Z.of_nat (size (byNetwork db)) < 2 ^ 64 ->
  let db' := foldl (leaveEntry cfg) db (WalkPrefix ("/" ++ nid)%string (byNetwork db)) in
  goes (NodeID cfg) db db' /\
  tableClock db <= tableClock db' <= tableClock db + Z.of_nat (size (byNetwork db)) /\
  forall t n k, names t n k ->
    walked ("/" ++ nid)%string (fun t n k => path n t k) (left_behind cfg) db db' [] t n k.
Proof.
  intros Hm H0 Hroom. cbv zeta.
  pose proof (length_WalkPrefix ("/" ++ nid)%string (byNetwork db)) as Hlen.
  destruct (walk_effect (NodeID cfg) ("/" ++ nid)%string byNetwork (fun t n k => path n t k)
    (leaveEntry cfg) 1 (left_behind cfg)) with (db := db) as (?&?&Hw); try done.
  - unfold left_behind. intros e c0 c1 c0' c1' o ??. case_bool_decide; [|done].
    destruct (e_deleting e); [done|]. intros (lt&?&->). exists lt. split; [lia|done].
  - intros. by apply leave_step.
  - lia.
  - split; [done|]. split; [lia|done].
Qed.

(** *** The walks of the reaper *)

Definition with_entryReap (e : entry) (r : Z) : entry :=
  Entry (e_node e) (e_ltime e) (e_value e) (e_deleting e) r.

(** A tombstone is gone or has aged by at least [m], with more than a second left; other
    entries stay. *)
Definition aged (m : Z) (e : entry) (o : option entry) : Prop :=
  if e_deleting e then
    o = None \/ exists r, r <= e_reapTime e - m /\ (Second < r \/ r = e_reapTime e) /\
                          o = Some (with_entryReap e r)
  else o = Some e.

Lemma aged_refl e : aged 0 e (Some e).
Proof.
  unfold aged. destruct (e_deleting e); [|done]. right. exists (e_reapTime e).
  split; [lia|]. split; [by right|by destruct e].
Qed.

Lemma aged_trans m m' e e' o : aged m e (Some e') -> aged m' e' o -> aged (m + m') e o.
Proof.
  unfold aged. destruct (e_deleting e) eqn:Ed; [|intros [= ->]; by rewrite Ed].
  intros [?|(r&Hr&Hb&[= ->])]; [done|]. simpl. rewrite Ed.
  intros [->|(r'&Hr'&Hb'&->)]; [by left|]. right. exists r'. simpl in *.
  split; [lia|]. split; [lia|done].
Qed.

Lemma aged_weaken m m' e o : m' <= m -> aged m e o -> aged m' e o.
Proof.
  unfold aged. destruct (e_deleting e); [|done]. intros ? [->|(r&?&?&->)]; [by left|].
  right. exists r. split; [lia|done].
Qed.

Lemma live_aged self m e o : aged m e o -> live self o = live self (Some e).
Proof.
  unfold aged, live. destruct (e_deleting e) eqn:Ed; [|intros ->; by rewrite Ed].
  intros [->|(r&?&?&->)]; [done|]. simpl. by rewrite Ed.
Qed.

Lemma decReapTime_spec self t n k e r d :
  mirror d -> names t n k -> getEntry t n k d = Some e ->
  let d' := decReapTime (path n t k) r d in
  goes self d d' /\ tableClock d' = tableClock d /\
  getEntry t n k d' = Some (with_entryReap e (e_reapTime e - r)) /\
  (forall t' n' k', names t' n' k' -> (t', n', k') <> (t, n, k) ->
     getEntry t' n' k' d' = getEntry t' n' k' d).
Proof.
  intros Hm Hn He. pose proof Hn as (?&?&?). cbv zeta. unfold decReapTime.
  rewrite SplitN3_path by done. cbv beta iota zeta.
  set (dec := fun v : entry => _). set (d' := set_byTable _ _).
  assert (ET : byTable d' = <[path t n k := dec e]> (byTable d)).
  { unfold d'. cbn. apply partial_alter_ext. intros x <-.
    change (byTable d !! path t n k) with (getEntry t n k d). by rewrite He. }
  assert (EN : byNetwork d' = <[path n t k := dec e]> (byNetwork d)).
  { unfold d'. cbn. apply partial_alter_ext. intros x <-. rewrite mirror_lookup by done. by rewrite He. }
  assert (Hget : forall t' n' k', names t' n' k' ->
    getEntry t' n' k' d' = if decide ((t', n', k') = (t, n, k)) then Some (dec e) else getEntry t' n' k' d).
  { intros t' n' k' Hn'. unfold getEntry. rewrite ET. case_decide as E.
    - simplify_eq. apply lookup_insert_eq.
    - apply lookup_insert_ne. intros Ep. by apply path_inj in Ep as (->&->&->). }
  split; [constructor|split; [done|split]].
  - by apply (mirror_change d d' t n k (Some (dec e))).
  - by constructor.
  - apply sim_same; [done|]. intros t' n' k' Hn' _. rewrite Hget by done.
    case_decide as E; [|done]. simplify_eq. by rewrite He.
  - rewrite Hget by done. by rewrite decide_True.
  - intros. rewrite Hget by done. by rewrite decide_False.
Qed.

Lemma reap_step self since t n k e d :
  (forall p, 0 <= since p) -> mirror d -> names t n k -> getEntry t n k d = Some e ->
  let d' := reapEntry since d (path n t k, e) in
  goes self d d' /\ tableClock d' = tableClock d /\ aged reapPeriod e (getEntry t n k d') /\
  (forall t' n' k', names t' n' k' -> (t', n', k') <> (t, n, k) ->
     getEntry t' n' k' d' = getEntry t' n' k' d).
Proof.
  intros Hs Hm Hn He. pose proof Hn as (?&?&?). specialize (Hs (path n t k)).
  cbv zeta. unfold reapEntry, aged. rewrite params_path by done.
  destruct (e_deleting e) eqn:Hdel; cbn [negb]; [|by split; [apply goes_refl|]].
  case_match eqn:Hr.
  - destruct (decReapTime_spec self t n k e (reapPeriod + since (path n t k)) d) as (?&?&Hg&?);
      [done..|].
    split; [done|]. split; [done|]. split; [|done]. right. eexists.
    split; [|split; [left|exact Hg]]; lia.
  - destruct (deleteEntry_fields n t k d) as (?&?&?&EB). split.
    + constructor; [by apply mirror_delete|apply deleteEntry_frame|].
      apply sim_same; [done|]. intros t' n' k' Hn' _. rewrite getEntry_delete by done.
      case_decide as E; [|done]. simplify_eq. rewrite He. symmetry. by apply live_deleting.
    + split; [done|]. split.
      * left. rewrite getEntry_delete by done. by rewrite decide_True.
      * intros. rewrite getEntry_delete by done. by rewrite decide_False.
Qed.

Lemma reap_walk self since nid db :
  (forall p, 0 <= since p) -> mirror db -> is_u64 (tableClock db) ->
  let db' := foldl (reapEntry since) db (WalkPrefix ("/" ++ nid)%string (byNetwork db)) in
  goes self db db' /\ tableClock db' = tableClock db /\
  forall t n k, names t n k ->
    walked ("/" ++ nid)%string (fun t n k => path n t k) (fun e _ _ => aged reapPeriod e) db db' [] t n k.
Proof.
  intros Hs Hm [Hnn Hc]. cbv zeta.
  destruct (walk_effect self ("/" ++ nid)%string byNetwork (fun t n k => path n t k)
    (reapEntry since) 0 (fun e _ _ => aged reapPeriod e)) with (db := db) as (?&?&Hw); try done.
  - intros t n k e d ??????. destruct (reap_step self since t n k e d) as (?&Hd&?&?); [done..|].
    split; [done|]. split; [rewrite Hd; lia|done].
  - lia.
  - split; [done|]. split; [lia|done].
Qed.

(** A cycle of the reaper ages the tombstones of every attached network. *)
Lemma reap_networks_walk self since nids db :
  (forall p, 0 <= since p) -> mirror db -> is_u64 (tableClock db) ->
  let db' := foldl (fun db nid =>
    foldl (reapEntry since) db (WalkPrefix ("/" ++ nid)%string (byNetwork db))) db nids in
  goes self db db' /\ tableClock db' = tableClock db /\
  forall t n k, names t n k ->
    match getEntry t n k db with
    | Some e => aged (if bool_decide (n ∈ nids) then reapPeriod else 0) e (getEntry t n k db')
    | None => getEntry t n k db' = None
    end.
Proof.
  intros Hs. cbv zeta. revert db. induction nids as [|nid nids IH]; intros db Hm Hc; cbn [foldl].
  { split; [by apply goes_refl|]. split; [done|]. intros t n k _.
    destruct (getEntry t n k db); [|done]. rewrite bool_decide_eq_false_2 by set_solver.
    apply aged_refl. }
  destruct (reap_walk self since nid db Hs Hm Hc) as (Hg&Hclk&Hw).
  destruct (IH (foldl (reapEntry since) db (WalkPrefix ("/" ++ nid)%string (byNetwork db))))
    as (Hg2&Hclk2&Hw2); [by eapply go_mirror|by rewrite Hclk|].
  split; [by eapply goes_trans|]. split; [congruence|]. intros t n k Hn.
  specialize (Hw t n k Hn). specialize (Hw2 t n k Hn). unfold walked in Hw.
  destruct (getEntry t n k db) as [e|]; [|by rewrite Hw in Hw2].
  rewrite bool_decide_eq_false_2, andb_true_r in Hw by set_solver.
  destruct (getEntry t n k (foldl (reapEntry since) db _)) as [e'|] eqn:E'.
  - assert (Hgen : aged (if String.prefix ("/" ++ nid) (path n t k) then reapPeriod else 0) e (Some e')).
    { destruct (String.prefix _ _); [done|]. injection Hw as ->. apply aged_refl. }
    pose proof (aged_trans _ _ _ _ _ Hgen Hw2) as Ha. eapply aged_weaken; [|exact Ha].
    unfold reapPeriod, Second. destruct (decide (n = nid)) as [->|Hne].
    + rewrite prefix_network. repeat case_bool_decide; set_solver by lia.
    + assert (n ∈ nid :: nids <-> n ∈ nids) as Hiff by set_solver.
      rewrite (bool_decide_ext _ _ Hiff). destruct (String.prefix _ _); case_bool_decide; lia.
  - rewrite Hw2. destruct (String.prefix _ _); [|done]. unfold aged in *.
    destruct (e_deleting e); [by left|done].
Qed.
