(* ===== verification/NetworkDBInv.v ===== *)
(** * The invariant of the gossip database

    The invariant, and that every operation of the database preserves it and keeps the
    watchers informed. *)

From S2P Require Import Prelude Slices NetworkDB NetworkDBPaths NetworkDBSpec.
Open Scope string_scope.
Open Scope list_scope.
Open Scope Z_scope.

(** The attachment of a peer to a network. *)
Definition nwOf (db : NetworkDB) (m nid : string) : option network :=
  networks db !! m ≫= (fun nn : gmap string network => nn !! nid).

(** The list of the nodes of a network has the peers that joined it and did not leave, each
    once, and they are active in the cluster. *)
Record members (self : string) (db : NetworkDB) : Prop := {
  m_nodup nid : NoDup (nodesOf nid db);
  m_agree nid m : m <> self ->
    m ∈ nodesOf nid db <-> exists nw, nwOf db m nid = Some nw /\ nw_leaving nw = false;
  m_known m nid nw : nwOf db m nid = Some nw -> is_Some (nodes db !! m)
}.

(** A node is in one of the three maps, under its name. *)
Record parts (db : NetworkDB) : Prop := {
  p_failed m : is_Some (nodes db !! m) -> failedNodes db !! m = None;
  p_left m : is_Some (nodes db !! m) -> leftNodes db !! m = None;
  p_failed_left m : is_Some (failedNodes db !! m) -> leftNodes db !! m = None;
  p_name st m n : nodeMap st db !! m = Some n -> nd_Name n = m
}.

Record ndb_inv (self : string) (db : NetworkDB) : Prop := {
  i_mirror : mirror db;
  i_clock : is_u64 (tableClock db);
  (* no entry is newer than the clock *)
  i_lamport t n k e : names t n k -> getEntry t n k db = Some e -> 0 <= e_ltime e <= tableClock db;
  (* the owner of an entry takes part in its network, and so does this node *)
  i_owner t n k e : names t n k -> getEntry t n k db = Some e -> e_node e <> self ->
    e_node e ∈ nodesOf n db /\ joined db n = true;
  i_members : members self db;
  i_parts : parts db;
  i_panicked : panicked db = false
}.

(** A step keeps the invariant and, when [W], keeps the watchers informed. *)
Definition steps (self : string) (W : Prop) (db db' : NetworkDB) : Prop :=
  ndb_inv self db' /\ (W -> sim self db db').

Lemma steps_refl self (W : Prop) db : ndb_inv self db -> steps self W db db.
Proof. by split. Qed.

Lemma steps_trans self (W1 W2 W : Prop) db1 db2 db3 :
  (W -> W1) -> (W -> W2) -> steps self W1 db1 db2 -> steps self W2 db2 db3 -> steps self W db1 db3.
Proof. intros Ha Hb [_ Hs1] [? Hs2]. split; [done|]. intros. etransitivity; eauto. Qed.

(** Changes of the state outside of what the invariant reads. *)
Ltac inv_same H :=
  let Hm := fresh in let Hp := fresh in
  destruct H as [???? Hm Hp ?]; constructor;
  [eassumption..|destruct Hm; constructor; eassumption|destruct Hp; constructor; eassumption|eassumption].

Lemma members_frame self db db' : frame db db' -> members self db -> members self db'.
Proof.
  intros [] []. unfold nwOf, nodesOf in *. constructor; unfold nwOf, nodesOf;
  repeat match goal with H : _ db' = _ |- _ => rewrite H; clear H end; done.
Qed.

Lemma parts_frame db db' : frame db db' -> parts db -> parts db'.
Proof.
  intros [] []. constructor;
  repeat match goal with H : _ db' = _ db |- _ => rewrite H; clear H end; try done.
  intros st m n. replace (nodeMap st db') with (nodeMap st db); [by eauto|].
  destruct st; simpl; congruence.
Qed.

(** Changes of the entries. *)
Lemma inv_entries self db db' :
  ndb_inv self db -> mirror db' -> frame db db' -> is_u64 (tableClock db') ->
  (forall t n k e, names t n k -> getEntry t n k db' = Some e ->
     0 <= e_ltime e <= tableClock db' /\
     (e_node e <> self -> e_node e ∈ nodesOf n db /\ joined db n = true)) ->
  ndb_inv self db'.
Proof.
  intros [] Hm Hf Hc He. constructor; [done|done| | |by eapply members_frame|by eapply parts_frame|].
  - intros t n k e Hn Hg. by apply (He t n k e).
  - intros t n k e Hn Hg. rewrite (frame_nodesOf db), (frame_joined db) by done.
    by apply (He t n k e).
  - by rewrite (fr_panicked _ _ Hf).
Qed.

(** In particular when entries only disappear or lose time to be reaped. *)
Lemma inv_fewer self db db' :
  ndb_inv self db -> goes self db db' -> tableClock db <= tableClock db' < 2 ^ 64 ->
  (forall t n k e, names t n k -> getEntry t n k db' = Some e ->
     exists e0, getEntry t n k db = Some e0 /\ e_node e = e_node e0 /\
       (e_ltime e = e_ltime e0 \/ 0 <= e_ltime e <= tableClock db')) ->
  ndb_inv self db'.
Proof.
  intros Hi [Hm Hf _] Hc He. destruct (i_clock _ _ Hi).
  apply (inv_entries self db); [done..|split; lia|].
  intros t n k e Hn Hg. destruct (He t n k e Hn Hg) as (e0&Hg0&Hnode&Ht). rewrite Hnode.
  pose proof (i_lamport _ _ Hi t n k e0 Hn Hg0).
  split; [destruct Ht as [->|]; lia|by apply (i_owner _ _ Hi t n k e0)].
Qed.

(** An attachment of this node changes without leaving the network. *)
Lemma inv_on_network self nid f db :
  (forall n, nw_leaving (tn_network n) = false -> nw_leaving (tn_network (f n)) = false) ->
  ndb_inv self db -> ndb_inv self (on_network nid f db).
Proof.
  intros Hf Hi. destruct Hi. constructor; try eassumption.
  - intros t n k e Hn Hg Hne. destruct (i_owner0 t n k e Hn Hg Hne) as [H1 H2].
    split; [done|]. unfold joined, on_network in *. simpl.
    destruct (decide (n = nid)) as [->|Hx].
    + rewrite lookup_alter_eq. destruct (thisNodeNetworks db !! nid) as [x|]; [|done]. simpl.
      apply negb_true_iff, Hf. by apply negb_true_iff.
    + by rewrite lookup_alter_ne.
  - destruct i_members0. by constructor.
  - destruct i_parts0. constructor; try eassumption.
Qed.

Lemma sim_on_network self nid f db : sim self db (on_network nid f db).
Proof. by apply sim_tables. Qed.

(** ** Local entries *)

(** The clock has room for the increments of one operation. *)
Definition room (db : NetworkDB) : Prop :=
  tableClock db + Z.of_nat (size (byNetwork db)) + 1 < 2 ^ 64.

Lemma write_ok cfg ty t n k v del rt db :
  let self := NodeID cfg in
  let e := Entry self (Increment (tableClock db)) v del rt in
  let db1 := set_tableClock (Increment (tableClock db)) db in
  let db' := sendTableEvent cfg ty n t k e (createOrUpdateEntry n t k e db1) in
  ndb_inv self db -> room db -> names t n k ->
  steps self (live self (getEntry t n k db) = None) db db'.
Proof.
  cbv zeta. intros Hi Hr Hn. set (e := Entry _ _ _ _ _). set (db1 := set_tableClock _ db).
  destruct (i_clock _ _ Hi). unfold room in Hr.
  destruct (createOrUpdateEntry_fields n t k e db1) as (ET&EN&EC&EB).
  assert (Hi1 : ndb_inv (NodeID cfg) (createOrUpdateEntry n t k e db1)).
  { assert (Hc : tableClock (createOrUpdateEntry n t k e db1) = tableClock db + 1).
    { rewrite EC. simpl. by rewrite Increment_small by lia. }
    apply (inv_entries _ db); [done| | | |].
    - apply mirror_create; [apply Hi|done].
    - etransitivity; [|apply createOrUpdateEntry_frame]. by constructor.
    - rewrite Hc. split; lia.
    - intros t' n' k' e' Hn' Hg. rewrite Hc. rewrite getEntry_create in Hg by done.
      case_decide as E.
      + simplify_eq. simpl. rewrite Increment_small by lia. split; [lia|done].
      + pose proof (i_lamport _ _ Hi t' n' k' e' Hn' Hg). split; [lia|].
        by apply (i_owner _ _ Hi t' n' k' e'). }
  split.
  - by apply inv_on_network.
  - intros Hlive. etransitivity; [|apply sim_on_network].
    etransitivity; [by apply (sim_tables _ db db1)|].
    apply (put_hidden_goes _ t n k e None db1); [apply Hi|done|by apply live_own|done|by left].
Qed.

Lemma CreateEntry_ok cfg t n k v db :
  ndb_inv (NodeID cfg) db -> room db -> names t n k ->
  steps (NodeID cfg) True db (CreateEntry cfg t n k v db).1.
Proof.
  intros. unfold CreateEntry. destruct (getEntry t n k db) eqn:E; [by apply steps_refl|].
  destruct (write_ok cfg TableEventTypeCreate t n k v false 0 db) as [? Hs]; [done..|].
  split; [done|]. intros _. apply Hs. by rewrite E.
Qed.

(** An own entry or one that watchers do not see is overwritten. *)
Definition writable (cfg : Config) (t n k : string) (db : NetworkDB) : Prop :=
  live (NodeID cfg) (getEntry t n k db) = None.

Lemma UpdateEntry_ok cfg t n k v db :
  ndb_inv (NodeID cfg) db -> room db -> names t n k ->
  steps (NodeID cfg) (writable cfg t n k db) db (UpdateEntry cfg t n k v db).1.
Proof.
  intros. unfold UpdateEntry. destruct (getEntry t n k db) eqn:E; [|by apply steps_refl].
  by apply write_ok.
Qed.

Lemma DeleteEntry_ok cfg t n k db :
  ndb_inv (NodeID cfg) db -> room db -> names t n k ->
  steps (NodeID cfg) (writable cfg t n k db) db (DeleteEntry cfg t n k db).1.
Proof.
  intros. unfold DeleteEntry. destruct (getEntry t n k db) as [e|] eqn:E; [|by apply steps_refl].
  destruct (e_deleting e); [by apply steps_refl|]. by apply write_ok.
Qed.

(** ** Table events *)

Definition tevent_ok (te : TableEvent) : Prop :=
  names (te_TableName te) (te_NetworkID te) (te_Key te) /\ 0 <= te_LTime te < 2 ^ 64 - 1.

(** The events the watchers can be told about. *)
Definition tevent_valid (cfg : Config) (te : TableEvent) : Prop :=
  te_Type te <> TableEventTypeInvalid /\ te_NodeName te <> NodeID cfg.

Lemma witness_ok self c db :
  ndb_inv self db -> 0 <= c < 2 ^ 64 - 1 -> steps self True db (set_tableClock (Witness (tableClock db) c) db).
Proof.
  intros Hi Hc. destruct (i_clock _ _ Hi). split; [|intros; by apply sim_tables].
  apply (inv_entries self db); [done|apply Hi|by constructor| |].
  - simpl. rewrite Witness_spec by done. split; lia.
  - intros t n k e Hn Hg. simpl. rewrite Witness_spec by done.
    pose proof (i_lamport _ _ Hi t n k e Hn Hg). split; [lia|]. by apply (i_owner _ _ Hi t n k e).
Qed.

(** Whether the event is for this node and newer than what it has. *)
Definition accepts (te : TableEvent) (db : NetworkDB) : bool :=
  joined db (te_NetworkID te) && bool_decide (te_NodeName te ∈ nodesOf (te_NetworkID te) db) &&
  match getEntry (te_TableName te) (te_NetworkID te) (te_Key te) db with
  | Some p => e_ltime p <? te_LTime te
  | None => true
  end.

(** The event the watchers receive, given what was there before. *)
Definition tableWatch (te : TableEvent) (prev : option entry) : option WatchEvent :=
  let ev := MkWatchEvent (te_TableName te) (te_NetworkID te) (te_Key te) in
  match te_Type te with
  | TableEventTypeCreate | TableEventTypeUpdate =>
      Some (ev (te_Value te) (p ← prev; if e_deleting p then None else e_value p))
  | TableEventTypeDelete =>
      p ← prev; if e_deleting p then None else Some (ev None (e_value p))
  | TableEventTypeInvalid => Some (ev None None)
  end.

Definition tell (ev : option WatchEvent) (db : NetworkDB) : NetworkDB :=
  match ev with Some x => broadcast x db | None => db end.

Lemma handleTableEvent_eq cfg te b db :
  let db1 := set_tableClock (Witness (tableClock db) (te_LTime te)) db in
  (handleTableEvent cfg te b db).1 =
    if accepts te db then
      tell (tableWatch te (getEntry (te_TableName te) (te_NetworkID te) (te_Key te) db))
        (createOrUpdateEntry (te_NetworkID te) (te_TableName te) (te_Key te) (eventEntry cfg te) db1)
    else db1.
Proof.
  cbv zeta. unfold handleTableEvent, accepts, joined. set (db1 := set_tableClock _ db).
  change (thisNodeNetworks db1) with (thisNodeNetworks db).
  change (nodesOf (te_NetworkID te) db1) with (nodesOf (te_NetworkID te) db).
  change (getEntry (te_TableName te) (te_NetworkID te) (te_Key te) db1)
    with (getEntry (te_TableName te) (te_NetworkID te) (te_Key te) db).
  destruct (thisNodeNetworks db !! te_NetworkID te) as [tn|]; [|done].
  destruct (nw_leaving (tn_network tn)); [done|]. cbn [orb andb negb].
  case_bool_decide; [|done]. cbn [negb andb].
  destruct (getEntry (te_TableName te) (te_NetworkID te) (te_Key te) db) as [p|] eqn:Ep.
  - rewrite Z.geb_leb, Z.leb_antisym. destruct (e_ltime p <? te_LTime te); [|done]. cbn [negb].
    unfold tableWatch, tell. destruct (te_Type te); cbn; try done; by destruct (e_deleting p).
  - unfold tableWatch, tell. destruct (te_Type te) eqn:Et; by rewrite ?bool_decide_eq_true_2,
      ?bool_decide_eq_false_2 by (rewrite Et; congruence).
Qed.

Lemma tableWatch_spec self te prev :
  te_Type te <> TableEventTypeInvalid ->
  match tableWatch te prev with
  | Some ev =>
      wt_Table ev = te_TableName te /\ wt_NetworkID ev = te_NetworkID te /\ wt_Key ev = te_Key te /\
      wt_Value ev = (if bool_decide (te_Type te = TableEventTypeDelete) then None else te_Value te) /\
      (wt_Value ev = None -> wt_Prev ev = None -> live self prev = None)
  | None => te_Type te = TableEventTypeDelete /\ live self prev = None
  end.
Proof.
  intros Hty. unfold tableWatch, live.
  destruct (te_Type te), prev as [p|]; try done; cbn; try destruct (e_deleting p); cbn;
    repeat split; try done; intros ? Hp; rewrite ?Hp; by destruct (bool_decide _).
Qed.

Lemma handleTableEvent_ok cfg te b db :
  ndb_inv (NodeID cfg) db -> tevent_ok te ->
  steps (NodeID cfg) (tevent_valid cfg te) db (handleTableEvent cfg te b db).1.
Proof.
  intros Hi (Hn&Ht). rewrite handleTableEvent_eq.
  destruct (witness_ok _ _ _ Hi Ht) as [Hi1 Hs1]. set (db1 := set_tableClock _ db) in *.
  destruct (accepts te db) eqn:Ha; [|split; [done|intros; by apply Hs1]].
  set (prev := getEntry _ _ _ db). set (e := eventEntry cfg te).
  unfold accepts in Ha. apply andb_true_iff in Ha as [Ha Hprev].
  apply andb_true_iff in Ha as [Hj Hp%bool_decide_eq_true].
  destruct (createOrUpdateEntry_fields (te_NetworkID te) (te_TableName te) (te_Key te) e db1)
    as (ET&EN&EC&EB).
  set (db2 := createOrUpdateEntry _ _ _ e db1) in *.
  assert (Hi2 : ndb_inv (NodeID cfg) db2).
  { apply (inv_entries _ db1); [done| | | |].
    - apply mirror_create; [apply Hi|done].
    - apply createOrUpdateEntry_frame.
    - rewrite EC. apply Hi1.
    - intros t n k e' Hn' Hg. rewrite EC. unfold db2 in Hg. rewrite getEntry_create in Hg by done.
      case_decide as E.
      + simplify_eq. simpl. rewrite Witness_spec by done. split; [lia|]. by intros _.
      + split; [by apply (i_lamport _ _ Hi1 t n k e')|]. by apply (i_owner _ _ Hi1 t n k e'). }
  split.
  - destruct (tableWatch te prev); cbn [tell]; [inv_same Hi2|done].
  - intros [Hty Hnode]. etransitivity; [by apply Hs1|].
    assert (Hg2 : forall t n k, names t n k -> getEntry t n k db2 =
      if decide ((t, n, k) = (te_TableName te, te_NetworkID te, te_Key te)) then Some e
      else getEntry t n k db1) by (intros; by apply getEntry_create).
    assert (Hlive : live (NodeID cfg) (Some e) =
      if bool_decide (te_Type te = TableEventTypeDelete) then None else te_Value te).
    { simpl. rewrite (bool_decide_eq_false_2 _ Hnode), orb_false_r. done. }
    pose proof (tableWatch_spec (NodeID cfg) te prev Hty) as Hev.
    destruct (tableWatch te prev) as [ev|]; cbn [tell].
    + destruct Hev as (?&?&?&Hval&Hnone).
      apply (sim_event _ _ _ (te_TableName te) (te_NetworkID te) (te_Key te) ev); try done.
      * rewrite broadcaster_broadcast. by rewrite EB.
      * intros. rewrite getEntry_broadcast, Hg2 by done. by rewrite decide_False.
      * rewrite getEntry_broadcast, Hg2 by done. rewrite decide_True by done. by rewrite Hlive, Hval.
    + destruct Hev as [Hdel Hnone]. apply sim_same; [by rewrite EB|].
      intros t n k Hn' _. rewrite Hg2 by done. 
      destruct (decide ((t, n, k) = (te_TableName te, te_NetworkID te, te_Key te))) as [E|]; [|done].
      injection E as -> -> ->. rewrite Hlive, (bool_decide_eq_true_2 _ Hdel). by symmetry.
Qed.

(** ** Membership of networks *)

(** The entries stay and the rest of the invariant is given. *)
Lemma inv_build self db db' :
  ndb_inv self db -> byTable db' = byTable db -> byNetwork db' = byNetwork db ->
  tableClock db' = tableClock db -> panicked db' = panicked db -> members self db' -> parts db' ->
  (forall m n, m <> self -> m ∈ nodesOf n db -> joined db n = true ->
     m ∈ nodesOf n db' /\ joined db' n = true) ->
  ndb_inv self db'.
Proof.
  intros [] ET EN EC EP Hm Hp Ho. constructor; try done.
  - unfold mirror. by rewrite ET, EN.
  - by rewrite EC.
  - intros t n k e. unfold getEntry. rewrite ET, EC. apply i_lamport0.
  - intros t n k e Hn. unfold getEntry. rewrite ET. intros Hg Hne.
    destruct (i_owner0 t n k e Hn Hg Hne). by apply Ho.
  - congruence.
Qed.

(** What the two updates of the list of nodes of a network leave alone. *)
Record listframe (db db' : NetworkDB) : Prop := {
  lf_byTable : byTable db' = byTable db;
  lf_byNetwork : byNetwork db' = byNetwork db;
  lf_tableClock : tableClock db' = tableClock db;
  lf_broadcaster : broadcaster db' = broadcaster db;
  lf_panicked : panicked db' = panicked db;
  lf_nodes : nodes db' = nodes db;
  lf_failedNodes : failedNodes db' = failedNodes db;
  lf_leftNodes : leftNodes db' = leftNodes db;
  lf_networks : networks db' = networks db;
  lf_att nid : att db' nid = att db nid
}.

Lemma listframe_joined db db' nid : listframe db db' -> joined db' nid = joined db nid.
Proof.
  intros H. pose proof (lf_att _ _ H nid) as E. unfold att, joined in *.
  destruct (thisNodeNetworks db' !! nid), (thisNodeNetworks db !! nid); simplify_eq/=; congruence.
Qed.

Lemma listframe_parts db db' : listframe db db' -> parts db -> parts db'.
Proof.
  intros [] []. constructor;
  repeat match goal with H : _ db' = _ db |- _ => rewrite H; clear H end; try done.
  intros st m n. replace (nodeMap st db') with (nodeMap st db); [by eauto|].
  destruct st; simpl; congruence.
Qed.

Lemma listframe_sim self db db' : listframe db db' -> sim self db db'.
Proof. intros []. by apply sim_tables. Qed.

Lemma listframe_update nid f ns db :
  keeps f -> listframe db (on_network nid f (set_networkNodes ns db)).
Proof.
  intros Hf. constructor; try done. intros nid'.
  apply (fr_att _ _ (frame_on_network nid f (set_networkNodes ns db) Hf) nid').
Qed.

Lemma addNetworkNode_frame nid m db : listframe db (addNetworkNode nid m db).
Proof.
  unfold addNetworkNode. case_bool_decide; [by constructor|]. by apply listframe_update.
Qed.

Lemma deleteNetworkNode_frame nid m db : listframe db (deleteNetworkNode nid m db).
Proof.
  unfold deleteNetworkNode. destruct (nodesOf nid db); [by constructor|]. by apply listframe_update.
Qed.

Lemma nodesOf_add nid m nid' db :
  nodesOf nid' (addNetworkNode nid m db) =
    if decide (nid' = nid) then
      if decide (m ∈ nodesOf nid db) then nodesOf nid db else nodesOf nid db ++ [m]
    else nodesOf nid' db.
Proof.
  unfold addNetworkNode. case_bool_decide as Hin.
  - rewrite (decide_True _ _ Hin). case_decide; [by subst|done].
  - rewrite (decide_False _ _ Hin). unfold nodesOf at 1, on_network. simpl.
    case_decide as E; [subst; by rewrite lookup_insert_eq|by rewrite lookup_insert_ne].
Qed.

Lemma nodesOf_del nid m nid' db :
  nodesOf nid' (deleteNetworkNode nid m db) =
    if decide (nid' = nid) then filter (fun x => x <> m) (nodesOf nid db) else nodesOf nid' db.
Proof.
  unfold deleteNetworkNode. destruct (nodesOf nid db) as [|x l] eqn:E.
  - case_decide; [by subst; rewrite E|done].
  - unfold nodesOf at 1, on_network. simpl.
    case_decide as E'; [subst; by rewrite lookup_insert_eq|by rewrite lookup_insert_ne].
Qed.

Lemma elem_of_add nid m nid' x db :
  x ∈ nodesOf nid' (addNetworkNode nid m db) <-> x ∈ nodesOf nid' db \/ (nid' = nid /\ x = m).
Proof.
  rewrite nodesOf_add. repeat case_decide; subst; rewrite ?elem_of_app, ?list_elem_of_singleton; naive_solver.
Qed.

Lemma elem_of_del nid m nid' x db :
  x ∈ nodesOf nid' (deleteNetworkNode nid m db) <->
    x ∈ nodesOf nid' db /\ ~ (nid' = nid /\ x = m).
Proof.
  rewrite nodesOf_del. case_decide; subst; rewrite ?list_elem_of_filter; naive_solver.
Qed.

Lemma NoDup_add nid m nid' db :
  NoDup (nodesOf nid' db) -> NoDup (nodesOf nid db) -> NoDup (nodesOf nid' (addNetworkNode nid m db)).
Proof.
  intros ??. rewrite nodesOf_add. repeat case_decide; try done. apply list.NoDup_app.
  split; [done|]. split; [set_solver|apply NoDup_singleton].
Qed.

Lemma NoDup_del nid m nid' db :
  NoDup (nodesOf nid' db) -> NoDup (nodesOf nid db) ->
  NoDup (nodesOf nid' (deleteNetworkNode nid m db)).
Proof. intros ??. rewrite nodesOf_del. case_decide; [by apply list.NoDup_filter|done]. Qed.

(** This node joining or leaving does not touch what is known of the peers. *)
Lemma members_self self db db' :
  members self db -> networks db' = networks db -> nodes db' = nodes db ->
  (forall nid, NoDup (nodesOf nid db')) ->
  (forall nid m, m <> self -> m ∈ nodesOf nid db' <-> m ∈ nodesOf nid db) -> members self db'.
Proof.
  intros [] EN En Hnd Ha. unfold nwOf in *. constructor; unfold nwOf; rewrite ?EN, ?En; [done| |done].
  intros nid m Hne. rewrite Ha by done. by apply m_agree0.
Qed.

Lemma JoinNetwork_ok cfg nid db :
  ndb_inv (NodeID cfg) db -> steps (NodeID cfg) True db (JoinNetwork cfg nid db).1.
Proof.
  intros Hi.
  (* attaching to the network, with any attachment that is not leaving *)
  assert (Hatt : forall db0 tn lt, ndb_inv (NodeID cfg) db0 -> byTable db0 = byTable db ->
    broadcaster db0 = broadcaster db -> nw_leaving (tn_network tn) = false ->
    let db1 := sendNetworkEvent cfg nid NetworkEventTypeJoin lt (addNetworkNode nid (NodeID cfg) db0) in
    steps (NodeID cfg) True db (set_thisNodeNetworks (<[nid := tn]> (thisNodeNetworks db1)) db1)).
  { intros db0 tn lt Hi0 ET EB Hl. cbv zeta. set (db1 := addNetworkNode nid (NodeID cfg) db0).
    pose proof (addNetworkNode_frame nid (NodeID cfg) db0) as Hf. fold db1 in Hf.
    pose proof (i_members _ _ Hi0) as Hm0. split.
    - apply (inv_build _ db0); try apply Hf; try done.
      + apply (members_self _ db0); [done|apply Hf|apply Hf| |].
        * intros n. apply (NoDup_add nid (NodeID cfg) n db0); apply Hm0.
        * intros n m Hne. etransitivity; [apply (elem_of_add nid (NodeID cfg) n m db0)|]. naive_solver.
      + pose proof (listframe_parts _ _ Hf (i_parts _ _ Hi0)) as []. constructor; eassumption.
      + intros m n Hne Hin Hj. split; [by apply (elem_of_add nid (NodeID cfg) n m db0); left|].
        unfold joined. simpl. destruct (decide (n = nid)) as [->|Hx].
        * rewrite lookup_insert_eq. by rewrite Hl.
        * rewrite lookup_insert_ne by done.
          by rewrite <- (listframe_joined db0 db1 n Hf) in Hj.
    - intros _. apply sim_tables; simpl.
      + rewrite <- EB. apply Hf.
      + rewrite <- ET. apply Hf. }
  unfold JoinNetwork. set (db0 := set_networkClock _ db).
  assert (Hi0 : ndb_inv (NodeID cfg) db0) by inv_same Hi.
  destruct (thisNodeNetworks db0 !! nid) as [tn|].
  - destruct (nw_leaving (tn_network tn)); [by apply Hatt|]. split; [done|]. intros _. by apply sim_tables.
  - apply Hatt; [inv_same Hi|done..].
Qed.

Lemma JoinNetwork_synced_ok self nid obj db :
  ndb_inv self db -> steps self True db (JoinNetwork_synced nid obj db).
Proof.
  intros Hi. split; [|intros _; by apply sim_on_network]. apply inv_on_network; [|done].
  intros n. by destruct (Nat.eqb _ _).
Qed.

Lemma left_behind_entry cfg e c c' e' :
  left_behind cfg e c c' (Some e') ->
  e_node e' = e_node e /\ e_node e = NodeID cfg /\ (e_ltime e' = e_ltime e \/ c < e_ltime e' <= c').
Proof.
  unfold left_behind. case_bool_decide; [|done]. destruct (e_deleting e).
  - intros [= ->]. auto.
  - intros (lt&?&[= ->]). simpl. auto.
Qed.

(** The state of [LeaveNetwork] after the walk. *)
Lemma leave_entries cfg nid db :
  ndb_inv (NodeID cfg) db -> room db ->
  let db' := foldl (leaveEntry cfg) db (WalkPrefix ("/" ++ nid)%string (byNetwork db)) in
  steps (NodeID cfg) True db db' /\
  (forall t k e, names t nid k -> getEntry t nid k db' = Some e -> e_node e = NodeID cfg).
Proof.
  intros Hi Hr. cbv zeta. destruct (i_clock _ _ Hi). unfold room in Hr.
  destruct (leave_walk cfg nid db) as (Hg&Hc&Hw); [apply Hi|lia..|].
  set (db' := foldl _ db _) in *. split; [split; [|intros; apply Hg]|].
  - apply (inv_fewer _ db); [done..|lia|]. intros t n k e Hn He. specialize (Hw t n k Hn).
    unfold walked in Hw. rewrite He in Hw. destruct (getEntry t n k db) as [e0|]; [|done].
    exists e0. split; [done|]. rewrite bool_decide_eq_false_2, andb_true_r in Hw by set_solver.
    destruct (String.prefix _ _).
    + destruct (left_behind_entry _ _ _ _ _ Hw) as (?&?&Hlt). split; [done|]. destruct Hlt; [by left|right; lia].
    + injection Hw as ->. auto.
  - intros t k e Hn He. specialize (Hw t nid k Hn). unfold walked in Hw. rewrite He in Hw.
    destruct (getEntry t nid k db) as [e0|]; [|done].
    rewrite prefix_network in Hw. destruct (left_behind_entry _ _ _ _ _ Hw) as (->&->&_). done.
Qed.

Lemma LeaveNetwork_ok cfg nid db :
  ndb_inv (NodeID cfg) db -> room db -> steps (NodeID cfg) True db (LeaveNetwork cfg nid db).1.
Proof.
  intros Hi Hr. unfold LeaveNetwork.
  set (db1 := sendNetworkEvent _ _ _ _ _). set (db2 := deleteNetworkNode nid (NodeID cfg) db1).
  pose proof (deleteNetworkNode_frame nid (NodeID cfg) db1) as Hf. fold db2 in Hf.
  assert (Hi1 : ndb_inv (NodeID cfg) db1) by inv_same Hi.
  pose proof (i_members _ _ Hi1) as Hm1.
  assert (Hi2 : ndb_inv (NodeID cfg) db2).
  { apply (inv_build _ db1); try apply Hf; try done.
    - apply (members_self _ db1); [done|apply Hf|apply Hf| |].
      + intros n. apply NoDup_del; apply Hm1.
      + intros n m Hne. unfold db2. rewrite elem_of_del. naive_solver.
    - by apply (listframe_parts db1); [|apply Hi1].
    - intros m n Hne Hin Hj. rewrite (listframe_joined db1) by done. split; [|done].
      apply elem_of_del. naive_solver. }
  assert (Hr2 : room db2).
  { unfold room. rewrite (lf_byNetwork _ _ Hf), (lf_tableClock _ _ Hf). apply Hr. }
  assert (Hs2 : sim (NodeID cfg) db db2).
  { etransitivity; [by apply (sim_tables _ db db1)|by apply listframe_sim]. }
  destruct (leave_entries cfg nid db2 Hi2 Hr2) as ([Hi3 Hs3]&Hown).
  set (db3 := foldl _ db2 _) in *.
  destruct (thisNodeNetworks db3 !! nid) as [tn|] eqn:Etn; cbn [fst].
  - split.
    + destruct Hi3. constructor; try eassumption.
      * intros t n k e Hn He Hne. change (getEntry t n k db3 = Some e) in He.
        destruct (decide (n = nid)) as [->|Hx]; [by apply Hown in He|].
        destruct (i_owner0 t n k e Hn He Hne) as [? Hj]. split; [done|].
        unfold joined, on_network in *. simpl. by rewrite lookup_alter_ne.
      * destruct i_members0. constructor; eassumption.
      * destruct i_parts0. constructor; eassumption.
    + intros _. etransitivity; [exact Hs2|]. etransitivity; [by apply Hs3|apply sim_on_network].
  - split; [done|]. intros _. etransitivity; [exact Hs2|by apply Hs3].
Qed.

(** ** Network events *)

Lemma nwOf_set nn name m nid db :
  nwOf (set_networks (<[name := nn]> (networks db)) db) m nid =
    if decide (m = name) then nn !! nid else nwOf db m nid.
Proof.
  unfold nwOf. simpl. case_decide; [subst; by rewrite lookup_insert_eq|by rewrite lookup_insert_ne].
Qed.

Lemma nwOf_default name nid db :
  (default ∅ (networks db !! name) : gmap string network) !! nid = nwOf db name nid.
Proof. unfold nwOf. by destruct (networks db !! name). Qed.

Lemma nwOf_insert name nid nw m nid' db :
  nwOf (set_networks (<[name := <[nid := nw]> (default ∅ (networks db !! name))]> (networks db)) db) m nid' =
    if decide (m = name /\ nid' = nid) then Some nw else nwOf db m nid'.
Proof.
  rewrite nwOf_set. destruct (decide (m = name)) as [->|Hm].
  - destruct (decide (nid' = nid)) as [->|Hn].
    + rewrite lookup_insert_eq. by rewrite decide_True.
    + rewrite lookup_insert_ne by done. rewrite decide_False by tauto. by rewrite nwOf_default.
  - by rewrite decide_False by tauto.
Qed.

(** The attachments of the peers are the same up to the representation. *)
Lemma inv_networks self db nw' :
  ndb_inv self db -> (forall m nid, nwOf (set_networks nw' db) m nid = nwOf db m nid) ->
  ndb_inv self (set_networks nw' db).
Proof.
  intros Hi Hnw. pose proof (i_members _ _ Hi) as Hm.
  apply (inv_build _ db); try done.
  - constructor.
    + apply Hm.
    + intros nid m Hne. rewrite Hnw. by apply Hm.
    + intros m nid nw. rewrite Hnw. apply Hm.
  - destruct (i_parts _ _ Hi). constructor; eassumption.
Qed.

(** A peer joins a network. *)
Lemma peer_joins self name nid lt db :
  ndb_inv self db -> name <> self -> is_Some (nodes db !! name) ->
  forall rt,
  let nw := Network lt false rt in
  let db1 := set_networks (<[name := <[nid := nw]> (default ∅ (networks db !! name))]> (networks db)) db in
  steps self True db (addNetworkNode nid name db1).
Proof.
  intros Hi Hne Hk rt. cbv zeta. set (nw := Network lt false rt). set (db1 := set_networks _ db).
  pose proof (addNetworkNode_frame nid name db1) as Hf. pose proof (i_members _ _ Hi) as Hm.
  assert (Hnw : forall m nid', nwOf (addNetworkNode nid name db1) m nid' =
    if decide (m = name /\ nid' = nid) then Some nw else nwOf db m nid').
  { intros. rewrite <- nwOf_insert. unfold nwOf. by rewrite (lf_networks _ _ Hf). }
  split; [|intros _; etransitivity; [by apply (sim_tables _ db db1)|by apply listframe_sim]].
  apply (inv_build _ db); try apply Hf.
  - done.
  - constructor.
    + intros n. apply NoDup_add; apply Hm.
    + intros n m Hx. rewrite elem_of_add, Hnw. case_decide as E.
      * destruct E as [-> ->]. split; [|naive_solver]. intros _. by exists nw.
      * rewrite <- (m_agree _ _ Hm n m Hx). change (nodesOf n db1) with (nodesOf n db). naive_solver.
    + intros m n nw'. rewrite Hnw, (lf_nodes _ _ Hf). case_decide as E; [by destruct E as [-> _]|].
      by apply Hm.
  - apply (listframe_parts db1); [done|]. destruct (i_parts _ _ Hi). constructor; eassumption.
  - intros m n _ Hin Hj. rewrite (listframe_joined db1) by done. split; [|done].
    apply elem_of_add. by left.
Qed.

(** A peer leaves a network. *)
Lemma peer_leaves self name nid nw db :
  ndb_inv self db -> nw_leaving nw = true -> is_Some (nwOf db name nid) ->
  let db1 := set_networks (<[name := <[nid := nw]> (default ∅ (networks db !! name))]> (networks db)) db in
  steps self True db (deleteNetworkNode nid name (deleteNodeNetworkEntries nid name db1)).
Proof.
  intros Hi Hl Hold. cbv zeta. set (db1 := set_networks _ db). pose proof (i_members _ _ Hi) as Hm.
  assert (Hm1 : mirror db1) by apply Hi.
  destruct (deleteNodeNetworkEntries_spec self nid name db1 Hm1 (i_clock _ _ Hi)) as ([Hm2 Hg2 Hs2]&Hc2&Hw).
  set (db2 := deleteNodeNetworkEntries nid name db1) in *.
  pose proof (deleteNetworkNode_frame nid name db2) as Hf.
  assert (Hnw : forall m nid', nwOf (deleteNetworkNode nid name db2) m nid' =
    if decide (m = name /\ nid' = nid) then Some nw else nwOf db m nid').
  { intros. rewrite <- nwOf_insert. unfold nwOf. by rewrite (lf_networks _ _ Hf), (fr_networks _ _ Hg2). }
  assert (Hent : forall t n k e, names t n k -> getEntry t n k db2 = Some e ->
    getEntry t n k db = Some e /\ ~ (n = nid /\ e_node e = name)).
  { intros t n k e Hn He. specialize (Hw t n k Hn). unfold walked in Hw. rewrite He in Hw.
    change (getEntry t n k db1) with (getEntry t n k db) in Hw.
    destruct (getEntry t n k db) as [e0|]; [|done].
    rewrite bool_decide_eq_false_2, andb_true_r in Hw by set_solver. unfold dropped in Hw.
    destruct (String.prefix _ _) eqn:Ep.
    - case_bool_decide; [done|]. injection Hw as ->. naive_solver.
    - injection Hw as ->. split; [done|]. intros [-> _]. by rewrite prefix_network in Ep. }
  split.
  - constructor.
    + unfold mirror. by rewrite (lf_byTable _ _ Hf), (lf_byNetwork _ _ Hf).
    + rewrite (lf_tableClock _ _ Hf), Hc2. apply Hi.
    + intros t n k e Hn. unfold getEntry. rewrite (lf_byTable _ _ Hf), (lf_tableClock _ _ Hf), Hc2.
      intros [He _]%Hent; [|done]. by apply (i_lamport _ _ Hi t n k).
    + intros t n k e Hn. unfold getEntry. rewrite (lf_byTable _ _ Hf). intros [He Hx]%Hent; [|done].
      intros Hne. destruct (i_owner _ _ Hi t n k e Hn He Hne) as [Hin Hj].
      rewrite (listframe_joined _ _ n Hf), (frame_joined _ _ n Hg2). split; [|done].
      apply elem_of_del. by rewrite (frame_nodesOf db1 db2).
    + constructor.
      * intros n. apply NoDup_del; rewrite (frame_nodesOf db1 db2) by done; apply Hm.
      * intros n m Hne. rewrite elem_of_del, Hnw, (frame_nodesOf db1 db2) by done.
        change (nodesOf n db1) with (nodesOf n db). case_decide as E.
        -- split; [naive_solver|]. intros (?&[= <-]&?). congruence.
        -- rewrite <- (m_agree _ _ Hm n m Hne). naive_solver.
      * intros m n nw'. rewrite Hnw, (lf_nodes _ _ Hf), (fr_nodes _ _ Hg2).
        case_decide as E; [|by apply Hm]. destruct E as [-> _]. destruct Hold as [nw0 Hold].
        intros _. by eapply Hm.
    + apply (listframe_parts db2); [done|]. apply (parts_frame db1); [done|].
      destruct (i_parts _ _ Hi). constructor; eassumption.
    + rewrite (lf_panicked _ _ Hf), (fr_panicked _ _ Hg2). apply Hi.
  - intros _. etransitivity; [by apply (sim_tables _ db db1)|].
    etransitivity; [exact Hs2|by apply listframe_sim].
Qed.

Lemma handleNetworkEvent_ok cfg ne db :
  ndb_inv (NodeID cfg) db -> steps (NodeID cfg) True db (handleNetworkEvent cfg ne db).1.
Proof.
  intros Hi. unfold handleNetworkEvent. set (db1 := set_networkClock _ db).
  assert (Hs1 : steps (NodeID cfg) True db db1) by (split; [inv_same Hi|intros; by apply sim_tables]).
  assert (Hi1 := proj1 Hs1).
  case_bool_decide as Hself; [done|]. destruct (_ && _); [done|].
  set (name := we_NodeName ne) in *. set (nid := we_NetworkID ne).
  set (db2 := set_networks (<[name := default ∅ (networks db1 !! name)]> _) db1).
  assert (Hnw2 : forall m n, nwOf db2 m n = nwOf db1 m n).
  { intros m n. unfold db2. rewrite nwOf_set. case_decide; [subst m; apply nwOf_default|done]. }
  assert (Hs2 : steps (NodeID cfg) True db db2).
  { eapply steps_trans; [done..|exact Hs1|]. split; [by apply inv_networks|]. intros; by apply sim_tables. }
  assert (Hi2 := proj1 Hs2).
  assert (Hdef : default ∅ (networks db1 !! name) = default ∅ (networks db2 !! name)).
  { unfold db2. simpl. by rewrite lookup_insert_eq. }
  rewrite !Hdef, nwOf_default. destruct (nwOf db2 name nid) as [nw|] eqn:Enw.
  - destruct (_ >=? _); [done|]. case_bool_decide.
    + eapply steps_trans; [done..|exact Hs2|]. by apply peer_leaves; [..|rewrite Enw].
    + eapply steps_trans; [done..|exact Hs2|]. apply peer_joins; [done..|].
      by apply (m_known _ _ (i_members _ _ Hi2) name nid nw).
  - case_bool_decide; [done|]. destruct (nodes db2 !! name) eqn:Ek; [|done].
    eapply steps_trans; [done..|exact Hs2|]. apply peer_joins; [done..|by rewrite Ek].
Qed.
