(* ===== verification/NetworkDBSteps.v ===== *)
(** * The steps of the gossip database

    Nodes, messages, reaper and synchronisation preserve the invariant; all runs of the
    operations. *)

From S2P Require Import Prelude Slices NetworkDB NetworkDBPaths NetworkDBSpec NetworkDBInv.
Open Scope string_scope.
Open Scope list_scope.
Open Scope Z_scope.

(** ** Nodes *)

Lemma findNode_map m n st db : findNode m db = Some (n, st) -> nodeMap st db !! m = Some n.
Proof.
  unfold findNode. destruct (nodes db !! m) eqn:E1; [by intros [= <- <-]|].
  destruct (leftNodes db !! m) eqn:E2; [by intros [= <- <-]|].
  destruct (failedNodes db !! m) eqn:E3; [by intros [= <- <-]|done].
Qed.

Lemma findNode_None m db :
  findNode m db = None -> nodes db !! m = None /\ leftNodes db !! m = None /\ failedNodes db !! m = None.
Proof.
  unfold findNode. destruct (nodes db !! m); [done|]. destruct (leftNodes db !! m); [done|].
  by destruct (failedNodes db !! m).
Qed.

(** The maps are disjoint, stated uniformly. *)
Lemma parts_disjoint db st st' m :
  parts db -> is_Some (nodeMap st db !! m) -> is_Some (nodeMap st' db !! m) -> st = st'.
Proof.
  intros [H1 H2 H3 _] [n Hn] [n' Hn'].
  pose proof (fun x E => H1 m (mk_is_Some _ x E)) as A. pose proof (fun x E => H2 m (mk_is_Some _ x E)) as B.
  pose proof (fun x E => H3 m (mk_is_Some _ x E)) as C.
  destruct st, st'; simpl in *; try done; exfalso;
    first [pose proof (A _ Hn)|pose proof (A _ Hn')|pose proof (C _ Hn)|pose proof (C _ Hn')];
    try congruence; first [pose proof (B _ Hn)|pose proof (B _ Hn')]; congruence.
Qed.

Lemma parts_intro db :
  (forall st st' m, is_Some (nodeMap st db !! m) -> is_Some (nodeMap st' db !! m) -> st = st') ->
  (forall st m n, nodeMap st db !! m = Some n -> nd_Name n = m) -> parts db.
Proof.
  intros Hd Hn. constructor; [| | |done]; intros m Hm; apply eq_None_not_Some; intros Hx.
  - by specialize (Hd nodeActiveState nodeFailedState m Hm Hx).
  - by specialize (Hd nodeActiveState nodeLeftState m Hm Hx).
  - by specialize (Hd nodeFailedState nodeLeftState m Hm Hx).
Qed.

Lemma nodeMap_set st m st' db :
  st <> nodeNotFound -> nodeMap st' (set_nodeMap st m db) = if decide (st' = st) then m else nodeMap st' db.
Proof. intros H. by destruct st, st'. Qed.

(** Moving a node between two maps, possibly with other times. *)
Definition move (name : string) (curr new : nodeState) (n : node) (db : NetworkDB) : NetworkDB :=
  let db := set_nodeMap curr (delete name (nodeMap curr db)) db in
  set_nodeMap new (<[name := n]> (nodeMap new db)) db.

Lemma nodeMap_move name curr new n st m db :
  curr <> nodeNotFound -> new <> nodeNotFound ->
  nodeMap st (move name curr new n db) !! m =
    if decide (m = name) then
      if decide (st = new) then Some n else if decide (st = curr) then None else nodeMap st db !! m
    else nodeMap st db !! m.
Proof.
  intros Hc Hn. unfold move. rewrite nodeMap_set by done.
  destruct (decide (st = new)) as [->|]; [|rewrite nodeMap_set by done;
    destruct (decide (st = curr)) as [->|]]; repeat case_decide; subst;
    rewrite ?lookup_insert_eq, ?lookup_insert_ne, ?lookup_delete_eq, ?lookup_delete_ne by done;
    rewrite ?nodeMap_set by done; repeat case_decide; subst;
    rewrite ?lookup_delete_ne by done; done.
Qed.

Lemma parts_move name curr new n n0 db :
  parts db -> nodeMap curr db !! name = Some n0 -> nd_Name n = name -> new <> nodeNotFound ->
  parts (move name curr new n db).
Proof.
  intros Hp Hn0 Hname Hnew.
  assert (Hcurr : curr <> nodeNotFound) by (by intros ->).
  assert (Hcur : forall st, is_Some (nodeMap st db !! name) -> st = curr).
  { intros st Hs. apply (parts_disjoint db _ _ name Hp Hs). by rewrite Hn0. }
  assert (Honly : forall st, is_Some (nodeMap st (move name curr new n db) !! name) -> st = new).
  { intros st. rewrite nodeMap_move, decide_True by done. case_decide; [done|].
    case_decide; [by intros [? [=]]|]. by intros ?%Hcur. }
  apply parts_intro.
  - intros st st' m Hs Hs'. destruct (decide (m = name)) as [->|].
    + by rewrite (Honly _ Hs), (Honly _ Hs').
    + rewrite nodeMap_move, decide_False in Hs, Hs' by done. by eapply parts_disjoint.
  - intros st m n'. rewrite nodeMap_move by done. destruct (decide (m = name)) as [->|].
    + repeat case_decide; subst; [by intros [= <-]|done|]. apply (p_name _ Hp).
    + apply (p_name _ Hp).
Qed.

Lemma move_fields name curr new n db :
  byTable (move name curr new n db) = byTable db /\ byNetwork (move name curr new n db) = byNetwork db /\
  tableClock (move name curr new n db) = tableClock db /\ broadcaster (move name curr new n db) = broadcaster db /\
  panicked (move name curr new n db) = panicked db /\ networks (move name curr new n db) = networks db /\
  networkNodes (move name curr new n db) = networkNodes db /\
  thisNodeNetworks (move name curr new n db) = thisNodeNetworks db.
Proof. by destruct curr, new. Qed.

Lemma changeNodeState_eq name new db :
  changeNodeState name new db =
  match findNode name db with
  | None => (db, inr ErrNodeNotFound)
  | Some (n, curr) =>
      if bool_decide (new = curr) then (db, inl false)
      else match new with
           | nodeNotFound => (set_estNodes (Z.of_nat (size (nodes db))) db, inl true)
           | nodeActiveState =>
               let db := move name curr new (with_reapTime n 0) db in
               (set_estNodes (Z.of_nat (size (nodes db))) db, inl true)
           | _ =>
               let n := if nd_reapTime n =? 0 then with_reapTime n nodeReapInterval else n in
               let db := move name curr new n db in
               let db := set_estNodes (Z.of_nat (size (nodes db))) db in
               (deleteNodeTableEntries (nd_Name n) (deleteNodeFromNetworks (nd_Name n) db), inl true)
           end
  end.
Proof.
  unfold changeNodeState. destruct (findNode name db) as [[n curr]|]; [|done].
  case_bool_decide; [done|]. by destruct new.
Qed.

(** A node becomes active, or its record changes in place. *)
Lemma move_active_ok self name curr new n n0 db :
  ndb_inv self db -> nodeMap curr db !! name = Some n0 -> nd_Name n = name ->
  new = nodeActiveState \/ new = curr ->
  steps self True db (move name curr new n db).
Proof.
  intros Hi Hn0 Hname Hnew. pose proof (i_members _ _ Hi) as Hm.
  assert (Hcurr : curr <> nodeNotFound) by (by intros ->).
  assert (Hnf : new <> nodeNotFound) by (by intros ->; destruct Hnew).
  destruct (move_fields name curr new n db) as (E1&E2&E3&E4&E5&E6&E7&E8).
  split; [|intros; by apply sim_tables]. apply (inv_build _ db); try done.
  - constructor.
    + intros. unfold nodesOf. rewrite E7. apply Hm.
    + intros nid m Hne. unfold nodesOf, nwOf. rewrite E6, E7. by apply Hm.
    + intros m nid nw. unfold nwOf. rewrite E6. intros Hnw. apply (m_known _ _ Hm) in Hnw.
      change (nodes (move name curr new n db)) with (nodeMap nodeActiveState (move name curr new n db)).
      rewrite nodeMap_move by done. destruct (decide (m = name)) as [->|]; [|done].
      case_decide; [done|]. case_decide; [|done]. by destruct Hnew; subst.
  - by eapply parts_move; [apply Hi|..].
  - intros m nid _ Hin Hj. unfold nodesOf, joined in *. by rewrite E7, E8.
Qed.

Lemma nodesOf_deleteNode nid x m db :
  x ∈ nodesOf nid (deleteNodeFromNetworks m db) <-> x ∈ nodesOf nid db /\ x <> m.
Proof.
  unfold nodesOf, deleteNodeFromNetworks. simpl. rewrite lookup_fmap.
  destruct (networkNodes db !! nid); simpl; [|set_solver]. rewrite list_elem_of_filter. tauto.
Qed.

(** A node leaves the cluster or fails. *)
Lemma move_gone_ok self name curr new n n0 est db :
  ndb_inv self db -> nodeMap curr db !! name = Some n0 -> nd_Name n = name ->
  new = nodeLeftState \/ new = nodeFailedState ->
  let db' := deleteNodeTableEntries name
    (deleteNodeFromNetworks name (set_estNodes est (move name curr new n db))) in
  steps self True db db' /\
  ((forall t n k e, names t n k -> getEntry t n k db' = Some e -> e_node e <> name) /\
   (forall nid, name ∉ nodesOf nid db') /\ networks db' !! name = None) /\
  (forall st, nodeMap st db' = nodeMap st (move name curr new n db)).
Proof.
  intros Hi Hn0 Hname Hnew. cbv zeta. pose proof (i_members _ _ Hi) as Hm.
  assert (Hcurr : curr <> nodeNotFound) by (by intros ->).
  assert (Hnf : new <> nodeNotFound) by (by intros ->; destruct Hnew).
  destruct (move_fields name curr new n db) as (E1&E2&E3&E4&E5&E6&E7&E8).
  set (db1 := set_estNodes _ _). set (db2 := deleteNodeFromNetworks name db1).
  assert (Hm2 : mirror db2).
  { unfold db2, db1, mirror. simpl. rewrite E1, E2. apply Hi. }
  assert (Hc2 : is_u64 (tableClock db2)) by (unfold db2, db1; simpl; rewrite E3; apply Hi).
  destruct (deleteNodeTableEntries_spec self name db2 Hm2 Hc2) as ([Hm3 Hf3 Hs3]&Hc3&Hw).
  set (db3 := deleteNodeTableEntries name db2) in *.
  assert (Hin : forall nid x, x ∈ nodesOf nid db2 <-> x ∈ nodesOf nid db /\ x <> name).
  { intros. unfold db2. rewrite nodesOf_deleteNode. unfold db1, nodesOf. simpl. by rewrite E7. }
  assert (Hnw : forall m nid, nwOf db2 m nid = if decide (m = name) then None else nwOf db m nid).
  { intros. unfold nwOf, db2, db1. simpl. rewrite E6.
    case_decide; [subst; by rewrite lookup_delete_eq|by rewrite lookup_delete_ne]. }
  assert (Hent : forall t n k e, names t n k -> getEntry t n k db3 = Some e ->
    getEntry t n k db = Some e /\ e_node e <> name).
  { intros t n1 k e Hn He. specialize (Hw t n1 k Hn). unfold walked in Hw. rewrite He, prefix_empty in Hw.
    assert (Hg : getEntry t n1 k db2 = getEntry t n1 k db) by (unfold getEntry, db2, db1; simpl; by rewrite E1).
    rewrite Hg in Hw. destruct (getEntry t n1 k db) as [e0|]; [|done].
    rewrite bool_decide_eq_false_2 in Hw by set_solver. simpl in Hw. unfold dropped in Hw.
    case_bool_decide; [done|]. by injection Hw as ->. }
  assert (Hmem2 : members self db2).
  { constructor.
    - intros nid. unfold nodesOf, db2, deleteNodeFromNetworks, db1. simpl. rewrite lookup_fmap, E7.
      pose proof (m_nodup _ _ Hm nid) as Hnd. unfold nodesOf in Hnd.
      destruct (networkNodes db !! nid); simpl in *; [by apply list.NoDup_filter|done].
    - intros nid m Hne. rewrite Hin, Hnw. case_decide; [|rewrite (m_agree _ _ Hm) by done; naive_solver].
      naive_solver.
    - intros m nid nw. rewrite Hnw. case_decide; [done|]. intros Hk%(m_known _ _ Hm).
      change (nodes db2) with (nodeMap nodeActiveState (move name curr new n db)).
      rewrite nodeMap_move by done. by rewrite decide_False. }
  split; [|split; [split; [|split]|]].
  2: { intros t n1 k e Hn He. by apply (Hent t n1 k e). }
  2: { intros nid. rewrite (frame_nodesOf db2), Hin by done. tauto. }
  2: { rewrite (fr_networks _ _ Hf3). unfold db2. simpl. apply lookup_delete_eq. }
  2: { intros st. destruct Hf3 as [F1 F2 F3 _ _ _ _ _]. by destruct st; simpl; rewrite ?F1, ?F2, ?F3. }
  split.
  - constructor; [done|by rewrite Hc3| | | | |].
    + intros t n1 k e Hn [He _]%Hent; [|done]. rewrite Hc3. unfold db2, db1. simpl. rewrite E3.
      by apply (i_lamport _ _ Hi t n1 k).
    + intros t n1 k e Hn [He Hx]%Hent; [|done]. intros Hne.
      destruct (i_owner _ _ Hi t n1 k e Hn He Hne) as [Ho Hj].
      rewrite (frame_nodesOf db2), (frame_joined db2), Hin by done. split; [done|].
      unfold joined, db2, db1. simpl. by rewrite E8.
    + by apply (members_frame _ db2).
    + apply (parts_frame db2); [done|]. pose proof (parts_move name curr new n n0 db (i_parts _ _ Hi)) as Hp.
      destruct Hp; [done..|]. constructor; eassumption.
    + rewrite (fr_panicked _ _ Hf3). unfold db2, db1. simpl. rewrite E5. apply Hi.
  - intros _. etransitivity; [|exact Hs3]. by apply sim_tables.
Qed.

Lemma reaped_name (b : bool) n r : nd_Name (if b then with_reapTime n r else n) = nd_Name n.
Proof. by destruct b. Qed.

Lemma changeNodeState_ok self name new db :
  ndb_inv self db -> steps self True db (changeNodeState name new db).1.
Proof.
  intros Hi. rewrite changeNodeState_eq.
  destruct (findNode name db) as [[n curr]|] eqn:Ef; [|by apply steps_refl].
  apply findNode_map in Ef. pose proof (p_name _ (i_parts _ _ Hi) _ _ _ Ef) as Hname.
  case_bool_decide; [by apply steps_refl|]. destruct new; cbv zeta; cbn [fst].
  - split; [inv_same Hi|]. intros _. by apply sim_tables.
  - eapply (steps_trans self True True); [done..| |].
    + by eapply (move_active_ok self name curr nodeActiveState (with_reapTime n 0)); [..|by left].
    + split; [|intros; by apply sim_tables].
      destruct (move_active_ok self name curr nodeActiveState (with_reapTime n 0) n db)
        as [Hi' _]; [done..|by left|]. inv_same Hi'.
  - rewrite !reaped_name, Hname.
    by eapply move_gone_ok; [done|done|by rewrite reaped_name|left].
  - rewrite !reaped_name, Hname.
    by eapply move_gone_ok; [done|done|by rewrite reaped_name|right].
Qed.

Lemma findNode_of_map m n st db :
  parts db -> nodeMap st db !! m = Some n -> findNode m db = Some (n, st).
Proof.
  intros Hp Hm. destruct (findNode m db) as [[n' st']|] eqn:E.
  - apply findNode_map in E. assert (st = st') as <-; [|congruence].
    eapply parts_disjoint; [done|by rewrite Hm|by rewrite E].
  - apply findNode_None in E as (E1&E2&E3). destruct st; cbn [nodeMap] in Hm; [done|congruence..].
Qed.

(** What a move does to the node. *)
Lemma changeNodeState_moved self name n curr new db :
  ndb_inv self db -> findNode name db = Some (n, curr) -> new <> curr -> new <> nodeNotFound ->
  let '(db', r) := changeNodeState name new db in
  r = inl true /\ is_Some (nodeMap new db' !! name) /\
  (new <> nodeActiveState ->
    (forall t n k e, names t n k -> getEntry t n k db' = Some e -> e_node e <> name) /\
    (forall nid, name ∉ nodesOf nid db') /\ networks db' !! name = None).
Proof.
  intros Hi Ef Hne Hnew. rewrite changeNodeState_eq, Ef. apply findNode_map in Ef.
  assert (Hcurr : curr <> nodeNotFound) by (by intros ->).
  pose proof (p_name _ (i_parts _ _ Hi) _ _ _ Ef) as Hname. rewrite bool_decide_eq_false_2 by done.
  destruct new; cbv zeta; [done| |rewrite !reaped_name, Hname..].
  - split; [done|]. split; [|done]. set (db1 := move _ _ _ _ _).
    change (nodeMap nodeActiveState (set_estNodes ?x db1)) with (nodeMap nodeActiveState db1).
    unfold db1. rewrite nodeMap_move, !decide_True by done. done.
  - split; [done|].
    destruct (move_gone_ok self name curr nodeLeftState
      (if nd_reapTime n =? 0 then with_reapTime n nodeReapInterval else n) n
      (Z.of_nat (size (nodes (move name curr nodeLeftState
        (if nd_reapTime n =? 0 then with_reapTime n nodeReapInterval else n) db)))) db)
      as (_&Hg&Hmap); [done..|by rewrite reaped_name|by left|].
    split; [|done]. rewrite Hmap, nodeMap_move, !decide_True by done. done.
  - split; [done|].
    destruct (move_gone_ok self name curr nodeFailedState
      (if nd_reapTime n =? 0 then with_reapTime n nodeReapInterval else n) n
      (Z.of_nat (size (nodes (move name curr nodeFailedState
        (if nd_reapTime n =? 0 then with_reapTime n nodeReapInterval else n) db)))) db)
      as (_&Hg&Hmap); [done..|by rewrite reaped_name|by right|].
    split; [|done]. rewrite Hmap, nodeMap_move, !decide_True by done. done.
Qed.

(** The other nodes keep their place. *)
Lemma changeNodeState_other self name new m st db :
  ndb_inv self db -> m <> name ->
  nodeMap st (changeNodeState name new db).1 !! m = nodeMap st db !! m.
Proof.
  intros Hi Hne. rewrite changeNodeState_eq.
  destruct (findNode name db) as [[n curr]|] eqn:Ef; [|done]. apply findNode_map in Ef.
  assert (Hcurr : curr <> nodeNotFound) by (by intros ->).
  assert (Hmove : forall new' n', new' <> nodeNotFound ->
    nodeMap st (move name curr new' n' db) !! m = nodeMap st db !! m).
  { intros. rewrite nodeMap_move by done. by rewrite decide_False. }
  assert (Hgone : forall new' n' n'' est, new' <> nodeNotFound ->
    nodeMap st (deleteNodeTableEntries n'' (deleteNodeFromNetworks n''
      (set_estNodes est (move name curr new' n' db)))) !! m = nodeMap st db !! m).
  { intros new' n' n'' est Hnew'. set (db2 := deleteNodeFromNetworks _ _).
    destruct (move_fields name curr new' n' db) as (E1&E2&E3&_).
    destruct (deleteNodeTableEntries_spec self n'' db2) as ([_ Hf _]&_).
    - unfold db2, mirror. simpl. rewrite E1, E2. apply Hi.
    - unfold db2. simpl. rewrite E3. apply Hi.
    - rewrite <- (Hmove new' n') by done. destruct Hf. by destruct st; simpl in *; congruence. }
  case_bool_decide; [done|]. destruct new; cbv zeta; cbn [fst].
  - by destruct st.
  - rewrite <- (Hmove nodeActiveState (with_reapTime n 0)) by done. by destruct st.
  - by apply Hgone.
  - by apply Hgone.
Qed.

Lemma purgeReincarnation_ok self mn db :
  ndb_inv self db ->
  steps self True db (purgeReincarnation mn db).1 /\
  (forall st, nodeMap st (purgeReincarnation mn db).1 !! ml_Name mn = nodeMap st db !! ml_Name mn).
Proof.
  intros Hi. unfold purgeReincarnation.
  assert (Hfind : forall (m : gmap string node) name n,
    List.find (reincarnation mn) (map_to_list m) = Some (name, n) -> ml_Name mn <> name).
  { intros m name n [_ Hr]%find_some. unfold reincarnation in Hr.
    rewrite !andb_true_iff, !bool_decide_eq_true in Hr. by destruct Hr. }
  repeat match goal with
  | |- context [match List.find ?f ?l with _ => _ end] =>
      let E := fresh "E" in destruct (List.find f l) as [[name n]|] eqn:E;
      [apply Hfind in E; cbn [fst];
       split; [by apply changeNodeState_ok|intros; by eapply changeNodeState_other]|]
  end.
  split; [by apply steps_refl|done].
Qed.

Lemma broadcastNodeEvent_ok json self addr b db :
  ndb_inv self db -> steps self True db (broadcastNodeEvent json addr b db).
Proof.
  intros Hi. split; [inv_same Hi|]. intros _. unfold broadcastNodeEvent.
  eexists [_]. split; [done|]. intros sel v Hv. rewrite filter_cons, filter_nil.
  case_decide; [|done]. cbn [foldl]. by destruct b.
Qed.

Lemma NotifyJoin_ok json self mn db :
  ndb_inv self db -> steps self True db (NotifyJoin json mn db).
Proof.
  intros Hi. unfold NotifyJoin. set (db1 := broadcastNodeEvent json _ _ db).
  assert (H1 : steps self True db db1) by (by apply broadcastNodeEvent_ok). assert (Hi1 := proj1 H1).
  assert (Hadd : forall db2 est, steps self True db db2 ->
    (forall st, is_Some (nodeMap st db2 !! ml_Name mn) -> st = nodeActiveState) ->
    steps self True db (set_estNodes est (set_nodes
      (<[ml_Name mn := Node (ml_Name mn) (ml_Addr mn) (ml_Port mn) 0 0]> (nodes db2)) db2))).
  { intros db2 est H2 Honly. assert (Hi2 := proj1 H2). eapply (steps_trans self True True); [done..|exact H2|].
    split; [|intros; by apply sim_tables]. pose proof (i_members _ _ Hi2) as Hm.
    apply (inv_build _ db2); try done.
    - constructor; [apply Hm|apply Hm|]. intros m nid nw Hnw. simpl.
      destruct (decide (m = ml_Name mn)) as [->|]; [by rewrite lookup_insert_eq|].
      rewrite lookup_insert_ne by done. by apply (m_known _ _ Hm m nid nw).
    - pose proof (i_parts _ _ Hi2) as Hp. set (db3 := set_estNodes _ _).
      assert (Hmap : forall st m, nodeMap st db3 !! m =
        if decide (st = nodeActiveState /\ m = ml_Name mn)
        then Some (Node (ml_Name mn) (ml_Addr mn) (ml_Port mn) 0 0) else nodeMap st db2 !! m).
      { intros st m. destruct (decide (st = nodeActiveState /\ m = ml_Name mn)) as [[-> ->]|Hn].
        - apply lookup_insert_eq.
        - destruct st; simpl; try done. apply lookup_insert_ne. intros <-. by apply Hn. }
      apply parts_intro.
      + intros st st' m. rewrite !Hmap. repeat case_decide;
          [intros; destruct_and!; congruence| | |by apply parts_disjoint].
        * intros _ Hs. destruct_and!. subst. symmetry. by apply Honly.
        * intros Hs _. destruct_and!. subst. by apply Honly.
      + intros st m n. rewrite Hmap. case_decide as E; [|apply (p_name _ Hp)].
        destruct E as [_ ->]. by intros [= <-]. }
  destruct (changeNodeState (ml_Name mn) nodeActiveState db1) as [db2 r] eqn:Ech.
  assert (H2 : steps self True db db2).
  { eapply (steps_trans self True True); [done..|exact H1|].
    by pose proof (changeNodeState_ok self (ml_Name mn) nodeActiveState db1 Hi1) as Hx; rewrite Ech in Hx. }
  assert (Honly : r <> inl true -> forall st, is_Some (nodeMap st db2 !! ml_Name mn) -> st = nodeActiveState).
  { intros Hr st Hs. rewrite changeNodeState_eq in Ech. revert Ech.
    destruct (findNode (ml_Name mn) db1) as [[n curr]|] eqn:Ef.
    - case_bool_decide as Hc; [|by intros [= _ <-]]. intros [= <- _]. apply findNode_map in Ef.
      subst curr. eapply parts_disjoint; [apply (proj1 H1)|done|by rewrite Ef].
    - intros [= <- _]. apply findNode_None in Ef as (E1&E2&E3). destruct Hs as [x Hs].
      destruct st; cbn [nodeMap] in Hs; [done|congruence..]. }
  destruct (purgeReincarnation_ok self mn db2 (proj1 H2)) as [Hpg Hpm].
  destruct r as [[]|err]; [done| |]; apply Hadd;
    try (by eapply (steps_trans self True True)); intros st; rewrite Hpm; by apply Honly.
Qed.

Lemma NotifyLeave_ok json self mn db :
  ndb_inv self db -> steps self True db (NotifyLeave json mn db).
Proof.
  intros Hi. unfold NotifyLeave. set (db1 := broadcastNodeEvent json _ _ db).
  assert (H1 : steps self True db db1) by (by apply broadcastNodeEvent_ok).
  destruct (findNode (ml_Name mn) db1) as [[n []]|]; try done.
  eapply (steps_trans self True True); [done..|exact H1|]. apply changeNodeState_ok, H1.
Qed.

Lemma move_same name st n db :
  st <> nodeNotFound -> set_nodeMap st (<[name := n]> (nodeMap st db)) db = move name st st n db.
Proof.
  intros. unfold move. rewrite nodeMap_set, decide_True by done.
  rewrite insert_delete_eq. by destruct st.
Qed.

Lemma handleNodeEvent_ok self ne db :
  ndb_inv self db -> steps self True db (handleNodeEvent ne db).1.
Proof.
  intros Hi. unfold handleNodeEvent. set (db1 := set_networkClock _ db).
  assert (H1 : steps self True db db1) by (split; [inv_same Hi|intros; by apply sim_tables]).
  destruct (findNode (ne_NodeName ne) db1) as [[n st]|] eqn:Ef; [|done].
  destruct (_ >=? _); [done|]. apply findNode_map in Ef.
  rewrite move_same by (by intros ->). set (db2 := move _ _ _ _ _).
  assert (H2 : steps self True db db2).
  { eapply (steps_trans self True True); [done..|exact H1|].
    eapply move_active_ok; [apply H1|done| |by right]. exact (p_name _ (i_parts _ _ (proj1 H1)) _ _ _ Ef). }
  destruct (nodes db2 !! ne_NodeName ne); [|done].
  destruct (ne_Type ne); [done| |].
  - pose proof (changeNodeState_ok self (nd_Name n) nodeActiveState db2 (proj1 H2)) as Hx.
    destruct (changeNodeState _ _ _) as [db3 r]. by eapply (steps_trans self True True).
  - pose proof (changeNodeState_ok self (nd_Name n) nodeLeftState db2 (proj1 H2)) as Hx.
    destruct (changeNodeState _ _ _) as [db3 r]. by eapply (steps_trans self True True).
Qed.

(** ** Messages *)

Lemma handleTableMessage_ok cfg nq te b db :
  ndb_inv (NodeID cfg) db -> tevent_ok te ->
  steps (NodeID cfg) (te_Type te <> TableEventTypeInvalid) db (handleTableMessage cfg nq te b db).
Proof.
  intros Hi Hok. unfold handleTableMessage. case_bool_decide as Hself; [by apply steps_refl|].
  pose proof (handleTableEvent_ok cfg te b db Hi Hok) as [Hi1 Hs1].
  destruct (handleTableEvent cfg te b db) as [db1 rb]. cbn [fst] in *.
  assert (H1 : steps (NodeID cfg) (te_Type te <> TableEventTypeInvalid) db db1).
  { split; [done|]. intros. by apply Hs1. }
  destruct (negb rb); [done|]. destruct (thisNodeNetworks db1 !! _) as [tn|]; [|done].
  destruct (nw_leaving _); [done|]. destruct (_ && _); [done|].
  eapply steps_trans; [| |exact H1|]; [done|..|split; [by apply inv_on_network|intros; apply sim_on_network]].
  done.
Qed.

(** A change of the queues, the acknowledgements or the network clock. *)
Lemma aside_ok self db db' :
  ndb_inv self db -> ndb_inv self db' -> byTable db' = byTable db -> broadcaster db' = broadcaster db ->
  steps self True db db'.
Proof. intros. split; [done|]. intros. by apply sim_tables. Qed.

Lemma handleNodeMessage_ok self ne db :
  ndb_inv self db -> steps self True db (handleNodeMessage ne db).
Proof.
  intros Hi. unfold handleNodeMessage. pose proof (handleNodeEvent_ok self ne db Hi) as H1.
  destruct (handleNodeEvent ne db) as [db1 []]; [|done].
  eapply (steps_trans self True True); [done..|exact H1|]. destruct H1 as [Hi1 _].
  apply aside_ok; [done|inv_same Hi1|done..].
Qed.

Lemma handleNetworkMessage_ok cfg ne db :
  ndb_inv (NodeID cfg) db -> steps (NodeID cfg) True db (handleNetworkMessage cfg ne db).
Proof.
  intros Hi. unfold handleNetworkMessage. pose proof (handleNetworkEvent_ok cfg ne db Hi) as H1.
  destruct (handleNetworkEvent cfg ne db) as [db1 []]; [|done].
  eapply (steps_trans _ True True); [done..|exact H1|]. destruct H1 as [Hi1 _].
  apply aside_ok; [done|inv_same Hi1|done..].
Qed.

Lemma bulkSyncNode_ok cfg sr nids n u db :
  ndb_inv (NodeID cfg) db -> steps (NodeID cfg) True db (bulkSyncNode cfg sr nids n u db).1.
Proof.
  intros Hi. unfold bulkSyncNode. destruct (nodes db !! n); [|by apply steps_refl].
  destruct (sr n); (apply aside_ok; [done|inv_same Hi|done..]).
Qed.

Lemma bulkSyncReply_ok cfg sr u n nids db :
  ndb_inv (NodeID cfg) db -> steps (NodeID cfg) True db (bulkSyncReply cfg sr u n nids db).
Proof.
  intros Hi. unfold bulkSyncReply. destruct u; cbn [negb]; [by apply bulkSyncNode_ok|].
  apply aside_ok; [done|inv_same Hi|done..].
Qed.

(** The table events of a message have names without slashes and times below the maximum. *)
Fixpoint message_ok (m : message) : Prop :=
  match m with
  | MsgTableEvent te => tevent_ok te
  | MsgBulkSync lt _ _ _ payload => 0 <= lt < 2 ^ 64 - 1 /\ message_ok payload
  | MsgCompound parts =>
      (fix all l := match l with [] => True | x :: l => message_ok x /\ all l end) parts
  | _ => True
  end.

(** They have one of the types in use. *)
Fixpoint message_valid (m : message) : Prop :=
  match m with
  | MsgTableEvent te => te_Type te <> TableEventTypeInvalid
  | MsgBulkSync _ _ _ _ payload => message_valid payload
  | MsgCompound parts =>
      (fix all l := match l with [] => True | x :: l => message_valid x /\ all l end) parts
  | _ => True
  end.

Lemma handleMessage_ok cfg nq sr m : forall b db,
  ndb_inv (NodeID cfg) db -> message_ok m ->
  steps (NodeID cfg) (message_valid m) db (handleMessage cfg nq sr m b db).
Proof.
  revert m. fix IH 1. intros [e|e|e|lt u n nids payload|ps|] b db Hi Hok.
  - eapply steps_trans; [done|exact (fun _ => I)|by apply steps_refl|by apply handleNodeMessage_ok].
  - eapply steps_trans; [done|exact (fun _ => I)|by apply steps_refl|by apply handleNetworkMessage_ok].
  - by apply handleTableMessage_ok.
  - destruct Hok as [Hlt Hok]. cbn [handleMessage message_valid].
    set (db1 := if lt >? 0 then _ else db).
    assert (H1 : steps (NodeID cfg) True db db1).
    { unfold db1. destruct (lt >? 0); [by apply witness_ok|by apply steps_refl]. }
    assert (H2 := IH payload true db1 (proj1 H1) Hok).
    eapply (steps_trans _ (message_valid payload) True); [done|done| |apply bulkSyncReply_ok, H2].
    by eapply steps_trans; [..|exact H1|exact H2].
  - cbn [handleMessage]. cbn [message_ok] in Hok. cbn [message_valid].
    revert db Hi Hok. induction ps as [|p ps IHps]; intros db Hi Hok.
    + by apply steps_refl.
    + destruct Hok as [Hp Hps]. assert (H1 := IH p b db Hi Hp). cbn [foldl].
      eapply steps_trans; [..|exact H1|exact (IHps _ (proj1 H1) Hps)]; by intros [].
  - by apply steps_refl.
Qed.

Lemma MergeRemoteState_ok cfg pp db :
  ndb_inv (NodeID cfg) db -> steps (NodeID cfg) True db (MergeRemoteState cfg pp db).
Proof.
  intros Hi. unfold MergeRemoteState.
  assert (H1 := handleNodeEvent_ok (NodeID cfg)
    (MkNodeEvent NodeEventTypeJoin (pp_LTime pp) (pp_NodeName pp)) db Hi).
  eapply (steps_trans _ True True); [done..|exact H1|]. destruct H1 as [H1 _]. revert H1.
  generalize (handleNodeEvent (MkNodeEvent NodeEventTypeJoin (pp_LTime pp) (pp_NodeName pp)) db).1.
  induction (pp_Networks pp) as [|n l IH]; intros d Hd; [by apply steps_refl|]. cbn [foldl].
  assert (H2 := handleNetworkEvent_ok cfg (pushPullEvent n) d Hd).
  eapply (steps_trans _ True True); [done..|exact H2|]. apply IH, H2.
Qed.

Lemma LocalState_ok cfg join db :
  ndb_inv (NodeID cfg) db -> steps (NodeID cfg) True db (LocalState cfg join db).1.
Proof.
  intros Hi. unfold LocalState. destruct join; cbn [fst]; [|by apply steps_refl].
  unfold updateLocalNetworkTime. apply aside_ok; [done| |done..].
  pose proof (i_members _ _ Hi) as Hm.
  apply (inv_build _ db); try done.
  - destruct Hm. constructor; eassumption.
  - destruct (i_parts _ _ Hi). constructor; eassumption.
  - intros m n _ Hin Hj. split; [done|]. unfold joined in *. simpl. rewrite lookup_fmap.
    by destruct (thisNodeNetworks db !! n).
Qed.

(** ** Periodic work *)

Lemma bulkSyncLoop_ok cfg sr ns all nids b db :
  ndb_inv (NodeID cfg) db -> steps (NodeID cfg) True db (bulkSyncLoop cfg sr ns all nids b db).1.1.
Proof.
  revert nids b db. induction ns as [|n ns IH]; intros nids b db Hi; [by apply steps_refl|].
  cbn [bulkSyncLoop]. case_bool_decide; [by apply IH|].
  pose proof (bulkSyncNode_ok cfg sr (findCommonNetworks n db) n true db Hi) as H1.
  destruct (bulkSyncNode _ _ _ _ _ _) as [db1 ok]. cbn [fst] in H1.
  assert (H2 : forall ns' b', steps (NodeID cfg) True db (bulkSyncLoop cfg sr ns all ns' b' db1).1.1).
  { intros. eapply (steps_trans _ True True); [done..|exact H1|]. apply IH, H1. }
  destruct ok; [destruct all; [by apply H2|done]|by apply H2].
Qed.

Lemma bulkSync_ok cfg sr perm ns all db :
  ndb_inv (NodeID cfg) db -> steps (NodeID cfg) True db (bulkSync cfg sr perm ns all db).1.
Proof.
  intros Hi. unfold bulkSync.
  pose proof (bulkSyncLoop_ok cfg sr (if all then ns else mRandomNodes cfg perm 2 ns) all [] false db Hi).
  by destruct (bulkSyncLoop _ _ _ _ _ _ _) as [[db1 nids] ok].
Qed.

Lemma bulkSyncTables_ok cfg sr perm db :
  ndb_inv (NodeID cfg) db -> steps (NodeID cfg) True db (bulkSyncTables cfg sr perm db).
Proof.
  unfold bulkSyncTables. generalize (filter (fun kv : string * thisNodeNetwork =>
    nw_leaving (tn_network kv.2) = false) (map_to_list (thisNodeNetworks db))).*1.
  intros nids. generalize (length nids). intros fuel. revert nids db.
  induction fuel as [|fuel IH]; intros nids db Hi; [by apply steps_refl|].
  cbn [bulkSyncTables_loop]. destruct nids as [|nid nids]; [by apply steps_refl|].
  destruct (nodesOf nid db) as [|n ns]; [by apply IH|].
  pose proof (bulkSync_ok cfg sr (perm nid) (n :: ns) false db Hi) as H1.
  destruct (bulkSync _ _ _ _ _ _) as [db1 done']. cbn [fst] in H1.
  eapply (steps_trans _ True True); [done..|exact H1|]. apply IH, H1.
Qed.

Lemma sendNodeEvent_ok cfg ty db :
  ndb_inv (NodeID cfg) db -> steps (NodeID cfg) True db (sendNodeEvent cfg ty db).
Proof. intros Hi. apply aside_ok; [done|inv_same Hi|done..]. Qed.

Lemma reconnectNode_ok cfg sr off j db :
  ndb_inv (NodeID cfg) db -> steps (NodeID cfg) True db (reconnectNode cfg sr off j db).
Proof.
  intros Hi. unfold reconnectNode. destruct (_ !! off) as [[m n]|]; [|by apply steps_refl].
  destruct j; [|by apply steps_refl].
  assert (H1 := sendNodeEvent_ok cfg NodeEventTypeJoin db Hi).
  eapply (steps_trans _ True True); [done..|exact H1|]. apply bulkSync_ok, H1.
Qed.

Lemma reapDeadNode_ok self db :
  ndb_inv self db -> steps self True db (reapDeadNode db).
Proof.
  intros Hi. apply aside_ok; [done| |done..]. pose proof (i_parts _ _ Hi) as Hp.
  apply (inv_build _ db); try done.
  - destruct (i_members _ _ Hi). constructor; eassumption.
  - assert (Hsub : forall st m n, nodeMap st (reapDeadNode db) !! m = Some n ->
      exists n0, nodeMap st db !! m = Some n0 /\ nd_Name n = nd_Name n0).
    { intros st m n. destruct st; simpl; [done|by eauto|..]; rewrite lookup_omap;
        intros (n0&?&Hr)%bind_Some; exists n0; (split; [done|]); unfold reapNode in Hr;
        destruct (_ >? _); by simplify_eq. }
    apply parts_intro.
    + intros st st' m [n (n0&Hn&_)%Hsub] [n' (n0'&Hn'&_)%Hsub].
      eapply parts_disjoint; [done|by rewrite Hn|by rewrite Hn'].
    + intros st m n (n0&Hn&->)%Hsub. by apply (p_name _ Hp st).
Qed.

Lemma reapNetwork_spec n n' :
  reapNetwork n = Some n' -> nw_leaving n' = nw_leaving n.
Proof.
  unfold reapNetwork. destruct (nw_leaving n) eqn:E; [|by intros [= <-]].
  destruct (_ <=? _); [done|]. by intros [= <-].
Qed.

Lemma reapNetwork_keeps n : nw_leaving n = false -> reapNetwork n = Some n.
Proof. unfold reapNetwork. by intros ->. Qed.

Lemma reapNetworks_ok self db : ndb_inv self db -> steps self True db (reapNetworks db).
Proof.
  intros Hi. apply aside_ok; [done| |done..]. pose proof (i_members _ _ Hi) as Hm.
  assert (Hnw : forall m nid, nwOf (reapNetworks db) m nid = nwOf db m nid ≫= reapNetwork).
  { intros. unfold nwOf. simpl. rewrite lookup_fmap. destruct (networks db !! m); simpl; [|done].
    by rewrite lookup_omap. }
  apply (inv_build _ db); try done.
  - constructor; [apply Hm| |].
    + intros nid m Hne. change (nodesOf nid (reapNetworks db)) with (nodesOf nid db).
      rewrite (m_agree _ _ Hm) by done. rewrite Hnw. split.
      * intros (nw&->&Hl). exists nw. simpl. by rewrite reapNetwork_keeps.
      * intros (nw&(nw0&->&Hr)%bind_Some&Hl). exists nw0. split; [done|].
        by rewrite <- (reapNetwork_spec _ _ Hr).
    + intros m nid nw. rewrite Hnw. intros (nw0&Hn&_)%bind_Some. by apply (m_known _ _ Hm m nid nw0).
  - destruct (i_parts _ _ Hi). constructor; eassumption.
  - intros m n _ Hin Hj. split; [done|]. unfold joined in *. simpl. rewrite lookup_omap.
    destruct (thisNodeNetworks db !! n) as [tn|]; [|done]. simpl.
    apply negb_true_iff in Hj. rewrite (reapNetwork_keeps _ Hj). simpl. by rewrite Hj.
Qed.

Lemma reapTableEntries_ok self since db :
  (forall p, 0 <= since p) -> ndb_inv self db -> steps self True db (reapTableEntries since db).
Proof.
  intros Hs Hi. unfold reapTableEntries.
  destruct (reap_networks_walk self since (map_to_list (thisNodeNetworks db)).*1 db Hs
    (i_mirror _ _ Hi) (i_clock _ _ Hi)) as (Hg&Hc&Hw).
  set (db' := foldl _ db _) in *. split; [|intros; apply Hg].
  apply (inv_fewer self db); [done..|rewrite Hc; destruct (i_clock _ _ Hi); lia|].
  intros t n k e Hn He. specialize (Hw t n k Hn). rewrite He in Hw.
  destruct (getEntry t n k db) as [e0|]; [|done]. exists e0. split; [done|].
  unfold aged in Hw. destruct (e_deleting e0); [|by simplify_eq; auto].
  destruct Hw as [|(r&_&_&[= ->])]; [done|]. auto.
Qed.

Lemma reapState_ok self since db :
  (forall p, 0 <= since p) -> ndb_inv self db -> steps self True db (reapState since db).
Proof.
  intros Hs Hi. unfold reapState. assert (H1 := reapTableEntries_ok self since db Hs Hi).
  eapply (steps_trans _ True True); [done..|exact H1|]. apply reapNetworks_ok, H1.
Qed.

(** ** Runs *)

Inductive op :=
| OpCreate (t n k : string) (v : bytes)
| OpUpdate (t n k : string) (v : bytes)
| OpDelete (t n k : string)
| OpJoin (nid : string)
| OpSynced (nid : string) (obj : nat)
| OpLeave (nid : string)
| OpMessage (m : message)
| OpMerge (pp : NetworkPushPull)
| OpLocalState (join : bool)
| OpNotifyJoin (mn : mlNode)
| OpNotifyLeave (mn : mlNode)
| OpSendNode (ty : NodeEvent_Type)
| OpBulkSync (perm : list nat) (ns : list string) (all : bool)
| OpBulkSyncTables (perm : string -> list nat)
| OpReconnect (offset : nat) (joined : bool)
| OpReapNodes
| OpReap (since : string -> Z).

Section Runs.
Context (cfg : Config) (NumQueued : list TableEvent -> Z) (SendReliable : string -> bool).
Context (NodeAddrJSON : string -> string).

Definition exec (o : op) (db : NetworkDB) : NetworkDB :=
  match o with
  | OpCreate t n k v => (CreateEntry cfg t n k v db).1
  | OpUpdate t n k v => (UpdateEntry cfg t n k v db).1
  | OpDelete t n k => (DeleteEntry cfg t n k db).1
  | OpJoin nid => (JoinNetwork cfg nid db).1
  | OpSynced nid obj => JoinNetwork_synced nid obj db
  | OpLeave nid => (LeaveNetwork cfg nid db).1
  | OpMessage m => handleMessage cfg NumQueued SendReliable m false db
  | OpMerge pp => MergeRemoteState cfg pp db
  | OpLocalState join => (LocalState cfg join db).1
  | OpNotifyJoin mn => NotifyJoin NodeAddrJSON mn db
  | OpNotifyLeave mn => NotifyLeave NodeAddrJSON mn db
  | OpSendNode ty => sendNodeEvent cfg ty db
  | OpBulkSync perm ns all => (bulkSync cfg SendReliable perm ns all db).1
  | OpBulkSyncTables perm => bulkSyncTables cfg SendReliable perm db
  | OpReconnect offset j => reconnectNode cfg SendReliable offset j db
  | OpReapNodes => reapDeadNode db
  | OpReap since => reapState since db
  end.

(** What the invariant asks of an operation: names without slashes, room in the clock. *)
Definition op_ok (o : op) (db : NetworkDB) : Prop :=
  match o with
  | OpCreate t n k _ | OpUpdate t n k _ | OpDelete t n k => names t n k /\ room db
  | OpLeave _ => room db
  | OpMessage m => message_ok m
  | OpReap since => forall p, 0 <= since p
  | _ => True
  end.

(** What watchers rely on: a node overwrites only its own entries. *)
Definition op_watchable (o : op) (db : NetworkDB) : Prop :=
  match o with
  | OpUpdate t n k _ | OpDelete t n k => writable cfg t n k db
  | OpMessage m => message_valid m
  | _ => True
  end.

Lemma exec_ok o db :
  ndb_inv (NodeID cfg) db -> op_ok o db ->
  steps (NodeID cfg) (op_watchable o db) db (exec o db).
Proof.
  intros Hi Hok. destruct o; cbn [exec op_watchable op_ok] in *; destruct_and?.
  - by apply CreateEntry_ok.
  - by apply UpdateEntry_ok.
  - by apply DeleteEntry_ok.
  - by apply JoinNetwork_ok.
  - by apply JoinNetwork_synced_ok.
  - by apply LeaveNetwork_ok.
  - by apply handleMessage_ok.
  - by apply MergeRemoteState_ok.
  - by apply LocalState_ok.
  - by apply NotifyJoin_ok.
  - by apply NotifyLeave_ok.
  - by apply sendNodeEvent_ok.
  - by apply bulkSync_ok.
  - by apply bulkSyncTables_ok.
  - by apply reconnectNode_ok.
  - by apply reapDeadNode_ok.
  - by apply reapState_ok.
Qed.

(** The states a run of operations goes through. *)
Inductive run (W : bool) : NetworkDB -> list op -> NetworkDB -> Prop :=
| run_nil db : run W db [] db
| run_cons db o os db' :
    op_ok o db -> (W = true -> op_watchable o db) -> run W (exec o db) os db' -> run W db (o :: os) db'.

Lemma run_ok W db os db' :
  ndb_inv (NodeID cfg) db -> run W db os db' -> steps (NodeID cfg) (W = true) db db'.
Proof.
  intros Hi Hr. induction Hr as [db|db o os db' Hok Hw Hr IH]; [by apply steps_refl|].
  assert (H1 := exec_ok o db Hi Hok).
  eapply (steps_trans _ (op_watchable o db) (W = true)); [done|done|exact H1|]. apply IH, H1.
Qed.

(** The conditions of a run, step by step. *)
Fixpoint ops_ok (W : bool) (db : NetworkDB) (os : list op) : Prop :=
  match os with
  | [] => True
  | o :: os => op_ok o db /\ (W = true -> op_watchable o db) /\ ops_ok W (exec o db) os
  end.

Lemma run_ops W db os :
  ops_ok W db os -> run W db os (foldl (fun db o => exec o db) db os).
Proof.
  revert db. induction os as [|o os IH]; intros db; [constructor|].
  intros (?&?&?). constructor; [done..|by apply IH].
Qed.

Lemma newNetworkDB_ok : ndb_inv (NodeID cfg) newNetworkDB.
Proof.
  constructor.
  - split; intros p e; cbn; by rewrite lookup_empty.
  - done.
  - intros t n k e _. unfold getEntry. cbn. by rewrite lookup_empty.
  - intros t n k e _. unfold getEntry. cbn. by rewrite lookup_empty.
  - constructor.
    + intros. unfold nodesOf. cbn. rewrite lookup_empty. constructor.
    + intros. unfold nodesOf, nwOf. cbn. rewrite !lookup_empty. cbn. split; [set_solver|].
      by intros (?&?&?).
    + intros m nid nw. unfold nwOf. cbn. by rewrite lookup_empty.
  - constructor; [intros; cbn; apply lookup_empty..|].
    intros st m n. by destruct st; cbn; rewrite lookup_empty.
  - done.
Qed.
End Runs.
