(* ===== verification/NetworkDBTheorems.v ===== *)
(** * Properties of the gossip database *)

From S2P Require Import Prelude Slices NetworkDB NetworkDBPaths NetworkDBSpec NetworkDBInv NetworkDBSteps.
Open Scope string_scope.
Open Scope list_scope.
Open Scope Z_scope.

(** ** Convergence *)

(** The events of a gossip stream, each with whether it came by bulk sync. *)
Definition receive (cfg : Config) (nq : list TableEvent -> Z) (evs : list (TableEvent * bool))
    (db : NetworkDB) : NetworkDB :=
  foldl (fun db tb => handleTableMessage cfg nq tb.1 tb.2 db) db evs.

Definition evPath (te : TableEvent) : string := path (te_TableName te) (te_NetworkID te) (te_Key te).

(** This node takes part in the network of the event and knows that its owner does, and the
    event is not its own. *)
Definition receptive (cfg : Config) (db : NetworkDB) (te : TableEvent) : Prop :=
  joined db (te_NetworkID te) = true /\ te_NodeName te ∈ nodesOf (te_NetworkID te) db /\
  te_NodeName te <> NodeID cfg.

Lemma handleTableMessage_byTable cfg nq te b db :
  receptive cfg db te ->
  byTable (handleTableMessage cfg nq te b db) =
    if match byTable db !! evPath te with Some p => e_ltime p <? te_LTime te | None => true end
    then <[evPath te := eventEntry cfg te]> (byTable db) else byTable db.
Proof.
  intros (Hj&Hin&Hne). unfold handleTableMessage. rewrite bool_decide_eq_false_2 by done.
  pose proof (handleTableEvent_eq cfg te b db) as E. unfold accepts in E.
  rewrite Hj, bool_decide_eq_true_2 in E by done. unfold getEntry, evPath in *. cbn [andb] in E.
  destruct (handleTableEvent cfg te b db) as [db1 rb]. cbn [fst] in E.
  assert (Hq : forall d, byTable d = byTable db1 -> byTable d = byTable (if
    match byTable db !! path (te_TableName te) (te_NetworkID te) (te_Key te) with
    | Some p => e_ltime p <? te_LTime te | None => true end
    then set_byTable (<[evPath te := eventEntry cfg te]> (byTable db)) db else db)).
  { intros d ->. rewrite E. destruct (match _ with Some _ => _ | None => _ end); [|done].
    destruct (tableWatch _ _); cbn [tell]; apply createOrUpdateEntry_fields. }
  etransitivity; [apply Hq|by destruct (match _ with Some _ => _ | None => _ end)].
  destruct (negb rb); [done|]. destruct (thisNodeNetworks db1 !! _); [|done].
  destruct (nw_leaving _); [done|]. by destruct (_ && _).
Qed.

Lemma handleTableMessage_receptive cfg nq te b db te' :
  receptive cfg db te' -> receptive cfg (handleTableMessage cfg nq te b db) te'.
Proof.
  intros (Hj&Hin&Hne). unfold receptive.
  assert (Hsame : forall d, networkNodes d = networkNodes db ->
    (forall nid, att d nid = att db nid) -> joined d (te_NetworkID te') = true /\
    te_NodeName te' ∈ nodesOf (te_NetworkID te') d /\ te_NodeName te' <> NodeID cfg).
  { intros d E Ha. unfold nodesOf in *. rewrite E. split; [|done]. rewrite <- Hj.
    specialize (Ha (te_NetworkID te')). unfold joined, att in *.
    destruct (thisNodeNetworks d !! _), (thisNodeNetworks db !! _); simplify_eq/=; congruence. }
  unfold handleTableMessage. case_bool_decide; [done|].
  pose proof (handleTableEvent_eq cfg te b db) as E. cbv zeta in E.
  destruct (handleTableEvent cfg te b db) as [db1 rb]. cbn [fst] in E.
  set (db0 := set_tableClock _ db) in E.
  assert (H1 : networkNodes db1 = networkNodes db /\ forall nid, att db1 nid = att db nid).
  { rewrite E. destruct (accepts te db); [|done].
    pose proof (createOrUpdateEntry_frame (te_NetworkID te) (te_TableName te) (te_Key te)
      (eventEntry cfg te) db0) as Hf.
    destruct (tableWatch _ _); cbn [tell]; (split; [apply Hf|intros nid; apply (fr_att _ _ Hf)]). }
  destruct H1 as [H1 H2]. destruct (negb rb); [by apply Hsame|].
  destruct (thisNodeNetworks db1 !! _); [|by apply Hsame].
  destruct (nw_leaving _); [by apply Hsame|]. destruct (_ && _); [by apply Hsame|].
  apply Hsame; [done|]. intros nid. rewrite <- H2.
  by apply (fr_att _ _ (frame_on_network (te_NetworkID te) (queue_rebroadcast te) db1
    (fun n => conj eq_refl (conj eq_refl eq_refl))) nid).
Qed.

Lemma receive_receptive cfg nq evs db te :
  receptive cfg db te -> receptive cfg (receive cfg nq evs db) te.
Proof.
  revert db. induction evs as [|[te' b] evs IH]; intros db H; [done|]. apply IH.
  by apply handleTableMessage_receptive.
Qed.

(** What is at a path after a stream: what was there, when no event is newer, or the newest
    event. *)
Lemma receive_newest cfg nq evs db p :
  (forall tb, tb ∈ evs -> receptive cfg db tb.1) ->
  (byTable (receive cfg nq evs db) !! p = byTable db !! p /\
   forall tb, tb ∈ evs -> evPath tb.1 = p ->
     exists e, byTable db !! p = Some e /\ te_LTime tb.1 <= e_ltime e) \/
  (exists tb, tb ∈ evs /\ evPath tb.1 = p /\
     byTable (receive cfg nq evs db) !! p = Some (eventEntry cfg tb.1) /\
     (forall e, byTable db !! p = Some e -> e_ltime e < te_LTime tb.1) /\
     (forall tb', tb' ∈ evs -> evPath tb'.1 = p -> te_LTime tb'.1 <= te_LTime tb.1)).
Proof.
  induction evs as [|tb evs IH] using rev_ind; intros Hrec.
  { left. split; [done|]. intros tb Hin. by apply not_elem_of_nil in Hin. }
  assert (Hrec' : forall tb, tb ∈ evs -> receptive cfg db tb.1).
  { intros tb' Hin. apply Hrec, elem_of_app. by left. }
  specialize (IH Hrec'). set (d := receive cfg nq evs db) in *.
  assert (Eq : byTable (receive cfg nq (evs ++ [tb]) db) =
    byTable (handleTableMessage cfg nq tb.1 tb.2 d)).
  { unfold receive. by rewrite foldl_app. }
  assert (Hd : receptive cfg d tb.1).
  { apply receive_receptive, Hrec, elem_of_app. right. by left. }
  rewrite Eq. clear Eq. pose proof (handleTableMessage_byTable cfg nq tb.1 tb.2 d Hd) as Em.
  destruct (decide (evPath tb.1 = p)) as [Hp|Hp].
  2: { assert (Elk : byTable (handleTableMessage cfg nq tb.1 tb.2 d) !! p = byTable d !! p).
       { rewrite Em. destruct (match _ with Some _ => _ | None => _ end); [|done].
         by rewrite lookup_insert_ne. }
       rewrite Elk.
       destruct IH as [[IH1 IH2]|(tb0&Hin0&?&?&?&IH)]; [left|right].
       - split; [done|]. intros tb' [Hin|Hin]%elem_of_app Hp'; [by apply IH2|].
         apply list_elem_of_singleton in Hin as ->. done.
       - exists tb0. split; [apply elem_of_app; by left|]. do 3 (split; [done|]).
         intros tb' [Hin|Hin]%elem_of_app Hp'; [by apply IH|].
         apply list_elem_of_singleton in Hin as ->. done. }
  subst p. rewrite Em. clear Em. destruct IH as [[IH1 IH2]|(tb0&Hin0&Hp0&Ed&Hold&IH)].
  - rewrite IH1. destruct (byTable db !! evPath tb.1) as [e|] eqn:Edb.
    + destruct (Z.ltb_spec (e_ltime e) (te_LTime tb.1)) as [Hlt|Hge].
      * right. exists tb. rewrite lookup_insert_eq. split; [apply elem_of_app; right; by left|].
        split; [done|]. split; [done|]. split; [by intros e' [= <-]|].
        intros tb' [Hin|Hin]%elem_of_app Hp'; [|by apply list_elem_of_singleton in Hin as ->].
        destruct (IH2 tb' Hin Hp') as (e'&[= <-]&?). lia.
      * left. split; [congruence|]. intros tb' [Hin|Hin]%elem_of_app Hp'; [by apply IH2|].
        apply list_elem_of_singleton in Hin as ->. by exists e.
    + right. exists tb. rewrite lookup_insert_eq. split; [apply elem_of_app; right; by left|].
      split; [done|]. split; [done|]. split; [done|].
      intros tb' [Hin|Hin]%elem_of_app Hp'; [|by apply list_elem_of_singleton in Hin as ->].
      by destruct (IH2 tb' Hin Hp') as (e'&?&?).
  - rewrite Ed. right. change (e_ltime (eventEntry cfg tb0.1)) with (te_LTime tb0.1).
    destruct (Z.ltb_spec (te_LTime tb0.1) (te_LTime tb.1)) as [Hlt|Hge].
    + exists tb. rewrite lookup_insert_eq. split; [apply elem_of_app; right; by left|].
      do 2 (split; [done|]). split; [intros e He; specialize (Hold e He); lia|].
      intros tb' [Hin|Hin]%elem_of_app Hp'; [|by apply list_elem_of_singleton in Hin as ->].
      specialize (IH tb' Hin Hp'). lia.
    + exists tb0. split; [apply elem_of_app; by left|]. do 3 (split; [done|]).
      intros tb' [Hin|Hin]%elem_of_app Hp'; [by apply IH|].
      by apply list_elem_of_singleton in Hin as ->.
Qed.

(** C5: Two nodes that start with the same table entries and receive the same set of table
    events, in whatever order and number, by gossip or by bulk sync, end with the same
    entries: for every key the newest event wins.  Different events of a key have different
    Lamport times; both nodes have the same [reapEntryInterval]; and for each event both
    nodes take part in its network, know its owner as a member of the network, and are not
    its owner ([receptive]). *)
Theorem ndb_converges cfgA cfgB nqA nqB dbA dbB evsA evsB :
  reapEntryInterval cfgA = reapEntryInterval cfgB ->
  byTable dbA = byTable dbB ->
  (forall te, te ∈ evsA.*1 <-> te ∈ evsB.*1) ->
  (forall te te', te ∈ evsA.*1 -> te' ∈ evsA.*1 -> evPath te = evPath te' ->
     te_LTime te = te_LTime te' -> te = te') ->
  (forall te, te ∈ evsA.*1 -> receptive cfgA dbA te /\ receptive cfgB dbB te) ->
  forall t n k, getEntry t n k (receive cfgA nqA evsA dbA) = getEntry t n k (receive cfgB nqB evsB dbB).
Proof.
  intros Hcfg Hdb Hsame Hdist Hrec t n k. unfold getEntry. set (p := path t n k).
  assert (Hent : forall te, eventEntry cfgA te = eventEntry cfgB te).
  { intros te. unfold eventEntry. by rewrite Hcfg. }
  assert (HinA : forall tb, tb ∈ evsA -> tb.1 ∈ evsA.*1) by (intros; by apply list_elem_of_fmap_2).
  assert (HinB : forall tb, tb ∈ evsB -> tb.1 ∈ evsA.*1).
  { intros. apply Hsame. by apply list_elem_of_fmap_2. }
  destruct (receive_newest cfgA nqA evsA dbA p) as [[EA HA]|(ta&Ha&Hpa&EA&Hoa&HA)].
  { intros tb Hin. by apply Hrec, HinA. }
  - destruct (receive_newest cfgB nqB evsB dbB p) as [[EB HB]|(tb&Hb&Hpb&EB&Hob&HB)].
    { intros tb Hin. by apply Hrec, HinB. }
    + by rewrite EA, EB, Hdb.
    + apply HinB in Hb. apply list_elem_of_fmap in Hb as (tb'&E&Hin). rewrite E in *.
      destruct (HA tb' Hin Hpb) as (e&He&?). rewrite Hdb in He. specialize (Hob e He). lia.
  - destruct (receive_newest cfgB nqB evsB dbB p) as [[EB HB]|(tb&Hb&Hpb&EB&Hob&HB)].
    { intros tb Hin. by apply Hrec, HinB. }
    + apply HinA in Ha. apply Hsame in Ha. apply list_elem_of_fmap in Ha as (ta'&E&Hin). rewrite E in *.
      destruct (HB ta' Hin Hpa) as (e&He&?). rewrite <- Hdb in He. specialize (Hoa e He). lia.
    + rewrite EA, EB, <- Hent. do 2 f_equal.
      apply HinA in Ha as Ha'. apply HinB in Hb as Hb'.
      apply Hdist; [done..|congruence|]. apply Hsame in Ha'.
      apply list_elem_of_fmap in Ha' as (ta'&Eta&Hta). apply list_elem_of_fmap in Hb' as (tb'&Etb&Htb).
      rewrite Eta, Etb in *. specialize (HA tb' Htb Hpb). specialize (HB ta' Hta Hpa). lia.
Qed.

(** A node [A] that knows the peer [B] in the network [net]. *)
Definition exA : Config := MkConfig "A" (1800 * Second) (1825 * Second).
Definition exC : Config := MkConfig "C" (1800 * Second) (1825 * Second).
Definition exQ (l : list TableEvent) : Z := Z.of_nat (length l).
Definition exJSON (a : string) : string := a.
Definition exMl : mlNode := MkMlNode "B" "10.0.0.2" 7946.
Definition exBJoins : message := MsgNetworkEvent (MkNetworkEvent NetworkEventTypeJoin 5 "B" "net").
Definition exOps : list op := [OpNotifyJoin exMl; OpJoin "net"; OpMessage exBJoins].
Definition exDB (c : Config) : NetworkDB :=
  foldl (fun db o => exec c exQ (fun _ => true) exJSON o db) newNetworkDB exOps.
Definition exEv (ty : TableEvent_Type) (lt : Z) (v : bytes) : TableEvent :=
  MkTableEvent ty lt "B" "net" "tbl" "key" v 0.

Lemma exDB_inv c : ndb_inv (NodeID c) (exDB c).
Proof.
  refine (proj1 (run_ok c exQ (fun _ => true) exJSON false newNetworkDB exOps _ (newNetworkDB_ok c) _)).
  apply run_ops. cbn [ops_ok exOps].
  split; [exact I|]. split; [intros _; exact I|]. split; [exact I|]. split; [intros _; exact I|].
  split; [exact I|]. split; [intros _; exact I|exact I].
Qed.

Lemma exDB_receptive c ty lt v :
  c = exA \/ c = exC -> receptive c (exDB c) (exEv ty lt v).
Proof.
  intros [-> | ->].
  all: split; [vm_compute; reflexivity|]; split; [|by vm_compute].
  all: vm_compute; repeat constructor.
Qed.

Lemma elem_of_two {A} (x a b : A) : x ∈ [a; b] -> x = a \/ x = b.
Proof. set_solver. Qed.

Definition exE1 : TableEvent := exEv TableEventTypeCreate 7 (Some "x").
Definition exE2 : TableEvent := exEv TableEventTypeUpdate 9 (Some "y").

Lemma ndb_converges_witness :
  e_value <$> getEntry "tbl" "net" "key" (receive exA exQ [(exE1, false); (exE2, false)] (exDB exA)) = Some (Some "y") /\
  forall t n k, getEntry t n k (receive exA exQ [(exE1, false); (exE2, false)] (exDB exA)) =
                getEntry t n k (receive exC exQ [(exE2, false); (exE1, true); (exE2, true)] (exDB exC)).
Proof.
  split; [vm_compute; reflexivity|]. apply (ndb_converges exA exC exQ exQ).
  - reflexivity.
  - vm_compute. reflexivity.
  - intros te. cbn [fmap list_fmap fst]. rewrite !elem_of_cons. tauto.
  - intros te te' H H' _ Ht. apply elem_of_two in H, H'.
    destruct H as [-> | ->], H' as [-> | ->]; first [reflexivity|discriminate Ht].
  - intros te H. apply elem_of_two in H. destruct H as [-> | ->];
      (split; [apply exDB_receptive; by left|apply exDB_receptive; by right]).
Defined.

(** Without distinct times the result depends on the order: the first of two events with the
    same time stays. *)
Lemma lww_tie_order :
  let e1 := exEv TableEventTypeCreate 7 (Some "x") in
  let e2 := exEv TableEventTypeUpdate 7 (Some "y") in
  e_value <$> getEntry "tbl" "net" "key" (receive exA exQ [(e1, false); (e2, false)] (exDB exA)) <>
  e_value <$> getEntry "tbl" "net" "key" (receive exA exQ [(e2, false); (e1, false)] (exDB exA)).
Proof. vm_compute. congruence. Qed.

(** ** The invariant in all runs *)

(** C7: In every state a run of operations reaches from a new database, when the names of
    tables, networks and keys have no slashes ([names]), the times of messages are below
    [2^64 - 1] and the clock has room for the local writes ([op_ok]): the two trees hold the
    same entries under paths of three names, no entry is newer than the table clock, an entry
    of another node belongs to a member of its network while this node is in that network,
    and no split path was too short (no panic). *)
Theorem ndb_entries_invariant cfg nq sr json os db :
  run cfg nq sr json false newNetworkDB os db ->
  (forall p e, byTable db !! p = Some e ->
     exists t n k, names t n k /\ p = path t n k /\ byNetwork db !! path n t k = Some e) /\
  (forall p e, byNetwork db !! p = Some e ->
     exists t n k, names t n k /\ p = path n t k /\ byTable db !! path t n k = Some e) /\
  (forall t n k e, names t n k -> getEntry t n k db = Some e ->
     0 <= e_ltime e <= tableClock db /\
     (e_node e <> NodeID cfg -> e_node e ∈ nodesOf n db /\ joined db n = true)) /\
  panicked db = false.
Proof.
  intros Hr. destruct (run_ok cfg nq sr json false _ _ _ (newNetworkDB_ok cfg) Hr) as [[[] ] _].
  split; [done|]. split; [done|]. split; [|done]. intros t n k e Hn He. split; eauto.
Qed.

Lemma ex_names : names "tbl" "net" "key".
Proof. done. Qed.

(** Joining, learning of a peer and of its entry, an own entry, and leaving. *)
Definition exRun : list op :=
  [OpNotifyJoin exMl; OpJoin "net"; OpMessage exBJoins;
   OpMessage (MsgTableEvent (exEv TableEventTypeCreate 7 (Some "x")));
   OpCreate "tbl" "net" "own" (Some "z")].
Definition exEnd : NetworkDB :=
  foldl (fun db o => exec exA exQ (fun _ => true) exJSON o db) newNetworkDB exRun.

Lemma ex_run W : run exA exQ (fun _ => true) exJSON W newNetworkDB exRun exEnd.
Proof.
  apply run_ops. cbn [ops_ok exRun].
  split; [exact I|]. split; [intros _; exact I|]. split; [exact I|]. split; [intros _; exact I|].
  split; [exact I|]. split; [intros _; exact I|].
  split; [split; [exact ex_names|split; [discriminate|reflexivity]]|]. split; [intros _; discriminate|].
  split; [split; [repeat split|vm_compute; reflexivity]|]. split; [intros _; exact I|exact I].
Qed.

Lemma ndb_entries_invariant_witness :
  panicked exEnd = false /\ (exists e, getEntry "tbl" "net" "key" exEnd = Some e /\ e_node e = "B") /\
  (forall t n k e, names t n k -> getEntry t n k exEnd = Some e ->
     0 <= e_ltime e <= tableClock exEnd /\
     (e_node e <> "A" -> e_node e ∈ nodesOf n exEnd /\ joined exEnd n = true)).
Proof.
  destruct (ndb_entries_invariant exA exQ (fun _ => true) exJSON exRun exEnd (ex_run false)) as (_&_&H&Hp).
  split; [exact Hp|]. split; [|exact H]. vm_compute. eexists. split; reflexivity.
Defined.

(** In every reachable state the list of the nodes of a network has no duplicates, and a
    peer is in it exactly when it joined the network and did not leave; [Peers] finds the
    record of every such peer, so that the case its comment calls impossible is. *)
Theorem ndb_peers_in_sync cfg nq sr json os db nid m :
  run cfg nq sr json false newNetworkDB os db -> m <> NodeID cfg ->
  NoDup (nodesOf nid db) /\
  (m ∈ nodesOf nid db <-> exists nw, nwOf db m nid = Some nw /\ nw_leaving nw = false) /\
  (m ∈ nodesOf nid db -> exists n, nodes db !! m = Some n /\ (m, Some (nd_Addr n)) ∈ Peers nid db).
Proof.
  intros Hr Hne. destruct (run_ok cfg nq sr json false _ _ _ (newNetworkDB_ok cfg) Hr)
    as [[_ _ _ _ [Hnd Ha Hk] Hp _] _]. split; [done|]. split; [by apply Ha|]. intros Hin.
  destruct (proj1 (Ha nid m Hne) Hin) as (nw&Hnw&_). destruct (Hk m nid nw Hnw) as [n Hn].
  exists n. split; [done|]. unfold Peers. apply list_elem_of_fmap. exists m. split; [|done].
  rewrite Hn. by rewrite (p_name _ Hp nodeActiveState m n Hn).
Qed.

Lemma ndb_peers_in_sync_witness :
  (exists nw, nwOf exEnd "B" "net" = Some nw /\ nw_leaving nw = false) /\
  ("B" ∈ nodesOf "net" exEnd -> exists n, nodes exEnd !! "B" = Some n /\ ("B", Some (nd_Addr n)) ∈ Peers "net" exEnd).
Proof.
  destruct (ndb_peers_in_sync exA exQ (fun _ => true) exJSON exRun exEnd "net" "B" (ex_run false))
    as (_&H1&H2); [by vm_compute|]. split; [|exact H2]. apply H1. vm_compute. repeat constructor.
Defined.

(** A node is in exactly one of the three maps, and [changeNodeState] moves it: after a
    move it is found in the new state, and when it left or failed none of its entries and
    none of its network memberships is left. *)
Theorem ndb_node_states cfg nq sr json os db name new :
  run cfg nq sr json false newNetworkDB os db -> new <> nodeNotFound ->
  let '(db', r) := changeNodeState name new db in
  match findNode name db with
  | None => r = inr ErrNodeNotFound /\ db' = db
  | Some (n, curr) =>
      (forall st, is_Some (nodeMap st db !! name) <-> st = curr) /\
      r = inl (negb (bool_decide (new = curr))) /\
      (exists n', findNode name db' = Some (n', new)) /\
      (forall st, is_Some (nodeMap st db' !! name) <-> st = new) /\
      (new <> curr -> new <> nodeActiveState ->
        (forall t n k e, names t n k -> getEntry t n k db' = Some e -> e_node e <> name) /\
        (forall nid, name ∉ nodesOf nid db') /\ networks db' !! name = None)
  end.
Proof.
  intros Hr Hnew. destruct (run_ok cfg nq sr json false _ _ _ (newNetworkDB_ok cfg) Hr) as [Hi _].
  assert (Honly : forall d n st st', ndb_inv (NodeID cfg) d -> nodeMap st d !! name = Some n ->
    is_Some (nodeMap st' d !! name) <-> st' = st).
  { intros d n st st' Hd Hn. split; [|intros ->; by rewrite Hn].
    intros Hs. eapply parts_disjoint; [apply Hd|done|by rewrite Hn]. }
  pose proof (changeNodeState_ok (NodeID cfg) name new db Hi) as [Hi' _].
  destruct (findNode name db) as [[n curr]|] eqn:Ef.
  2: { rewrite changeNodeState_eq, Ef. done. }
  destruct (decide (new = curr)) as [->|Hne].
  - rewrite changeNodeState_eq, Ef, bool_decide_eq_true_2 by done. pose proof Ef as Em.
    apply findNode_map in Em. split; [intros; by eapply Honly|]. split; [done|].
    split; [by exists n|]. split; [intros; by eapply Honly|done].
  - pose proof (changeNodeState_moved (NodeID cfg) name n curr new db Hi Ef Hne Hnew) as Hmv.
    destruct (changeNodeState name new db) as [db' r]. destruct Hmv as (->&[n' Hn']&Hgone).
    apply findNode_map in Ef. cbn [fst] in Hi'.
    split; [intros; by eapply Honly|]. split; [by rewrite bool_decide_eq_false_2|].
    split; [exists n'; apply findNode_of_map; [apply Hi'|done]|].
    split; [intros; by eapply Honly|]. by intros _ Hx; apply Hgone.
Qed.

Lemma ndb_node_states_witness :
  let '(db', r) := changeNodeState "B" nodeFailedState exEnd in
  r = inl true /\ (exists n', findNode "B" db' = Some (n', nodeFailedState)) /\
  networks db' !! "B" = None.
Proof.
  pose proof (ndb_node_states exA exQ (fun _ => true) exJSON exRun exEnd "B" nodeFailedState (ex_run false)
    ltac:(discriminate)) as H.
  destruct (changeNodeState "B" nodeFailedState exEnd) as [db' r].
  destruct (findNode "B" exEnd) as [[n curr]|] eqn:Ef.
  - assert (curr = nodeActiveState) as -> by (vm_compute in Ef; congruence).
    destruct H as (_&->&H1&_&H2). split; [reflexivity|]. split; [exact H1|].
    apply H2; discriminate.
  - exfalso. vm_compute in Ef. discriminate Ef.
Defined.

(** ** Watchers *)

Definition evKey (ev : WatchEvent) : string * string * string := (wt_Table ev, wt_NetworkID ev, wt_Key ev).

(** A list of create events with distinct keys builds the map of their values. *)
Lemma fold_creates l v t n k :
  t <> NodeTable -> Forall (fun ev => wt_Prev ev = None) l -> NoDup (evKey <$> l) ->
  (forall ev, ev ∈ l -> evKey ev = (t, n, k) -> v !! (t, n, k) = None ->
     foldl applyEvent v l !! (t, n, k) = wt_Value ev) /\
  ((forall ev, ev ∈ l -> evKey ev <> (t, n, k)) -> foldl applyEvent v l !! (t, n, k) = v !! (t, n, k)).
Proof.
  intros Ht. revert v. induction l as [|ev l IH]; intros v Hp Hnd.
  { split; [|done]. intros ev Hin. by apply not_elem_of_nil in Hin. }
  apply Forall_cons_1 in Hp as [Hpe Hp]. rewrite fmap_cons in Hnd.
  apply list.NoDup_cons in Hnd as [Hnk Hnd]. cbn [foldl].
  assert (Hother : evKey ev <> (t, n, k) -> applyEvent v ev !! (t, n, k) = v !! (t, n, k)).
  { unfold applyEvent, IsDelete. intros Hk. case_bool_decide; [done|].
    rewrite Hpe. rewrite (bool_decide_eq_false_2 (None <> None)) by tauto. cbn [andb].
    destruct (_ || _); [|done]. destruct (wt_Value ev); [|done]. by rewrite lookup_insert_ne. }
  split.
  - intros ev' [->|Hin]%elem_of_cons Hk Hv.
    + destruct (IH (applyEvent v ev) Hp Hnd) as [_ IH2]. rewrite IH2.
      * unfold applyEvent, IsCreate, IsUpdate, IsDelete. rewrite Hpe.
        unfold evKey in Hk. injection Hk as -> -> ->. rewrite bool_decide_eq_false_2 by done.
        destruct (wt_Value ev); cbn; [by rewrite lookup_insert_eq|done].
      * intros ev' Hin' Hk'. apply Hnk. rewrite Hk, <- Hk'. by apply list_elem_of_fmap_2.
    + destruct (IH (applyEvent v ev) Hp Hnd) as [IH1 _]. apply IH1; [done..|].
      rewrite Hother; [done|]. intros Hk'. apply Hnk. rewrite Hk', <- Hk. by apply list_elem_of_fmap_2.
  - intros Hno. destruct (IH (applyEvent v ev) Hp Hnd) as [_ IH2]. rewrite IH2.
    + apply Hother, Hno. by left.
    + intros ev' Hin. apply Hno. by right.
Qed.

(** The keys that pass the filter of [Watch]. *)
Definition wants (tname nid t n : string) : bool :=
  (bool_decide (tname = "") || bool_decide (t = tname)) &&
  (bool_decide (nid = "") || bool_decide (n = nid)).

Definition visible (self : string) (v : entry) : bool :=
  negb (e_deleting v) && bool_decide (e_node v <> self).

Section Synth.
Context (self tname nid pre : string) (ix : NetworkDB -> gmap string entry).
Context (pth : string -> string -> string -> string) `{!Index ix pth}.
Context (g : string * entry -> option WatchEvent) (db : NetworkDB).
Hypothesis Hm : mirror db.
Hypothesis Hg : forall t n k e, names t n k ->
  g (pth t n k, e) = if visible self e then Some (MkWatchEvent t n k (e_value e) None) else None.
Hypothesis Hpre : forall t n k, names t n k -> wants tname nid t n = true ->
  String.prefix pre (pth t n k) = true.

Let evs : list WatchEvent :=
  filter (fun ev => matches tname nid ev = true) (omap g (WalkPrefix pre (ix db))).

Lemma synth_elem ev :
  ev ∈ evs <-> exists t n k e, names t n k /\ getEntry t n k db = Some e /\ visible self e = true /\
    wants tname nid t n = true /\ ev = MkWatchEvent t n k (e_value e) None.
Proof using All.
  unfold evs. rewrite list_elem_of_filter, list_elem_of_omap. split.
  - intros (Hmt&[p e]&[_ He]%elem_of_WalkPrefix&Hge).
    destruct (ix_decode db p e Hm He) as (t&n&k&Hn&->&Hget). rewrite Hg in Hge by done.
    destruct (visible self e) eqn:Hv; [|done]. injection Hge as <-. by exists t, n, k, e.
  - intros (t&n&k&e&Hn&Hget&Hv&Hw&->). split; [done|]. exists (pth t n k, e). split.
    + apply elem_of_WalkPrefix. rewrite ix_lookup by done. split; [by apply Hpre|done].
    + rewrite Hg by done. by rewrite Hv.
Qed.

Lemma synth_nodup : NoDup (evKey <$> evs).
Proof using All.
  unfold evs. pose proof (NoDup_WalkPrefix pre (ix db)) as Hnd.
  assert (Hall : forall p e, (p, e) ∈ WalkPrefix pre (ix db) -> exists t n k, names t n k /\ p = pth t n k).
  { intros p e [_ He]%elem_of_WalkPrefix. destruct (ix_decode db p e Hm He) as (t&n&k&?&?&_). eauto. }
  induction (WalkPrefix pre (ix db)) as [|[p e] l IH]; [constructor|].
  rewrite fmap_cons in Hnd. apply list.NoDup_cons in Hnd as [Hp Hnd].
  assert (IH' := IH Hnd (fun p' e' H => Hall p' e' (proj2 (elem_of_cons _ _ _) (or_intror H)))).
  cbn [omap list_omap]. destruct (g (p, e)) as [ev|] eqn:Hge; [|done].
  rewrite filter_cons. case_decide as Hmt; [|done]. rewrite fmap_cons. apply list.NoDup_cons.
  split; [|done]. contradict Hp. apply list_elem_of_fmap in Hp as (ev'&Hk&Hin).
  apply list_elem_of_filter in Hin as [_ Hin]. apply list_elem_of_omap in Hin as ([p' e']&Hin&Hge').
  destruct (Hall p e) as (t&n&k&Hn&->); [by left|].
  destruct (Hall p' e') as (t'&n'&k'&Hn'&->); [by right|].
  rewrite Hg in Hge by done. rewrite Hg in Hge' by done.
  destruct (visible self e); [|done]. destruct (visible self e'); [|done].
  injection Hge as <-. injection Hge' as <-. injection Hk as -> -> ->. apply list_elem_of_fmap. by exists (pth t' n' k', e').
Qed.

Lemma synth_view : view_of self (wants tname nid) db (foldl applyEvent ∅ evs).
Proof using All.
  intros t n k Hn Ht.
  assert (Hprev : Forall (fun ev => wt_Prev ev = None) evs).
  { apply Forall_forall. intros ev Hin. apply list_elem_of_In in Hin.
    by apply synth_elem in Hin as (?&?&?&?&?&?&?&?&->). }
  destruct (fold_creates evs ∅ t n k Ht Hprev synth_nodup) as [H1 H2].
  assert (Hno : (forall e, getEntry t n k db = Some e -> visible self e = true ->
      wants tname nid t n = true -> False) -> foldl applyEvent ∅ evs !! (t, n, k) = None).
  { intros Hno. rewrite H2; [apply lookup_empty|].
    intros ev (t'&n'&k'&e&Hn'&Hget&Hv&Hw&->)%synth_elem [= -> -> ->]. by eapply Hno. }
  destruct (wants tname nid t n) eqn:Hw; [|by apply Hno].
  destruct (getEntry t n k db) as [e|] eqn:Hget; [|by apply Hno].
  unfold live. destruct (visible self e) eqn:Hv.
  - unfold visible in Hv. apply andb_true_iff in Hv as [Hd Hs]. apply negb_true_iff in Hd.
    apply bool_decide_eq_true in Hs. rewrite Hd, bool_decide_eq_false_2 by done. cbn [orb].
    apply (H1 (MkWatchEvent t n k (e_value e) None)); [|done|apply lookup_empty].
    apply synth_elem. exists t, n, k, e. do 2 (split; [done|]). split; [|done].
    unfold visible. by rewrite Hd, bool_decide_eq_true_2.
  - rewrite Hno by (intros e' [= <-]; congruence). unfold visible in Hv.
    destruct (e_deleting e); [done|]. cbn [negb andb] in Hv. apply bool_decide_eq_false in Hv.
    by rewrite bool_decide_eq_true_2 by (by apply dec_stable).
Qed.
End Synth.

Lemma Watch_view cfg tname nid db :
  mirror db -> noslash tname = true -> noslash nid = true ->
  view_of (NodeID cfg) (wants tname nid) db (foldl applyEvent ∅ (Watch cfg tname nid db)).
Proof.
  intros Hm Ht Hn. unfold Watch. case_bool_decide as Etn.
  - apply (synth_view (NodeID cfg) tname nid _ byNetwork (fun t n k => path n t k)); [done| |].
    + intros t n k e (?&?&?). by rewrite SplitN3_path.
    + intros t n k (?&?&?) [_ Hw]%andb_true_iff. destruct (decide (nid = "")) as [En|En].
      * rewrite (bool_decide_eq_false_2 (nid <> "")) by tauto. apply prefix_slash.
      * rewrite bool_decide_eq_false_2 in Hw by done. apply bool_decide_eq_true in Hw as ->.
        rewrite bool_decide_eq_true_2 by done. by apply prefix_first.
  - apply (synth_view (NodeID cfg) tname nid _ byTable path); [done| |].
    + intros t n k e (?&?&?). by rewrite SplitN3_path.
    + intros t n k (?&?&?) [Hw1 Hw]%andb_true_iff. rewrite bool_decide_eq_false_2 in Hw1 by done.
      apply bool_decide_eq_true in Hw1 as ->. destruct (decide (nid = "")) as [En|En].
      * rewrite (bool_decide_eq_false_2 (nid <> "")) by tauto. by apply prefix_first.
      * rewrite bool_decide_eq_false_2 in Hw by done. apply bool_decide_eq_true in Hw as ->.
        rewrite bool_decide_eq_true_2 by done. by apply prefix_second.
Qed.

(** C6: A client that applies the events of a watch, first the synthesized ones and then those
    broadcast while the database runs, has at every moment exactly the current values of
    the entries of other nodes that match the filter and are not deleted; out-of-order
    gossip, node failures, networks that are left and the reaper included.  In the run names
    of tables, networks and keys have no slashes ([names]), the times of messages are below
    [2^64 - 1] and the clock has room for the local writes ([op_ok]); once the watch is there
    the events received have a type in use, and this node updates and deletes no live entry
    of another node ([op_watchable]).  The table of nodes is not among the tables compared. *)
Theorem ndb_watch_refinement cfg nq sr json os0 db tname nid os db' :
  run cfg nq sr json false newNetworkDB os0 db -> run cfg nq sr json true db os db' ->
  noslash tname = true -> noslash nid = true ->
  exists evs, broadcaster db' = broadcaster db ++ evs /\
    let stream := Watch cfg tname nid db ++ filter (fun ev => matches tname nid ev = true) evs in
    forall t n k, names t n k -> t <> NodeTable ->
      foldl applyEvent ∅ stream !! (t, n, k) =
        if wants tname nid t n then live (NodeID cfg) (getEntry t n k db') else None.
Proof.
  intros Hr0 Hr Ht Hn.
  destruct (run_ok cfg nq sr json false _ _ _ (newNetworkDB_ok cfg) Hr0) as [Hi _].
  destruct (run_ok cfg nq sr json true _ _ _ Hi Hr) as [_ Hs].
  destruct (Hs eq_refl) as (evs&Eb&Hv). exists evs. split; [done|]. cbv zeta.
  rewrite foldl_app. apply (Hv (wants tname nid)). apply Watch_view; [apply Hi|done..].
Qed.

Lemma ndb_watch_refinement_witness :
  exists evs, broadcaster exEnd = broadcaster newNetworkDB ++ evs /\
    foldl applyEvent ∅ (Watch exA "tbl" "" newNetworkDB ++
      filter (fun ev => matches "tbl" "" ev = true) evs) !! ("tbl", "net", "key") = Some "x".
Proof.
  destruct (ndb_watch_refinement exA exQ (fun _ => true) exJSON [] newNetworkDB "tbl" "" exRun exEnd)
    as (evs&Eb&H); [constructor|apply ex_run|reflexivity|reflexivity|].
  exists evs. split; [exact Eb|]. etransitivity; [apply H|].
  - exact ex_names.
  - discriminate.
  - vm_compute. reflexivity.
Defined.

(** ** Propagation of writes *)

(** The event a local write hands to the queue of its network. *)
Definition queued (db : NetworkDB) (nid : string) : list TableEvent :=
  match thisNodeNetworks db !! nid with Some n => tn_tableBroadcasts n | None => [] end.

Lemma write_queued cfg ty t n k e db :
  joined db n = true ->
  queued (sendTableEvent cfg ty n t k e (createOrUpdateEntry n t k e db)) n =
    queued db n ++ [MkTableEvent ty (e_ltime e) (NodeID cfg) n t k (e_value e) (Seconds (e_reapTime e))].
Proof.
  intros Hj. unfold joined in Hj. unfold queued, sendTableEvent, on_network, createOrUpdateEntry. cbn.
  case_bool_decide; cbn; rewrite ?lookup_alter_eq; by destruct (thisNodeNetworks db !! n).
Qed.

(** What a node writes, its peers read.  A successful [CreateEntry] or [UpdateEntry] of a
    node in the network queues an event; a peer that knows the writer as a member and has
    nothing newer for the key than the writer has seen takes the event, and its [GetEntry]
    returns the value. *)
Theorem ndb_write_propagates cfgA cfgB nq dbA dbA' dbB t n k v b :
  ndb_inv (NodeID cfgA) dbA -> room dbA -> names t n k -> joined dbA n = true ->
  CreateEntry cfgA t n k v dbA = (dbA', None) \/ UpdateEntry cfgA t n k v dbA = (dbA', None) ->
  joined dbB n = true -> NodeID cfgA ∈ nodesOf n dbB -> NodeID cfgA <> NodeID cfgB ->
  (forall e, getEntry t n k dbB = Some e -> e_ltime e <= tableClock dbA) ->
  exists te, queued dbA' n = queued dbA n ++ [te] /\
    GetEntry t n k dbA' = GoOk v /\
    GetEntry t n k (handleTableMessage cfgB nq te b dbB) = GoOk v.
Proof.
  intros Hi Hr Hn HjA Hw HjB Hin Hne Hold. destruct (i_clock _ _ Hi). unfold room in Hr.
  set (e := Entry (NodeID cfgA) (Increment (tableClock dbA)) v false 0).
  set (dbA1 := set_tableClock (Increment (tableClock dbA)) dbA).
  assert (Hty : exists ty, (ty = TableEventTypeCreate \/ ty = TableEventTypeUpdate) /\
    dbA' = sendTableEvent cfgA ty n t k e (createOrUpdateEntry n t k e dbA1)).
  { destruct Hw as [Hw|Hw]; unfold CreateEntry, UpdateEntry in Hw;
      destruct (getEntry t n k dbA) in Hw; simplify_eq; eauto. }
  destruct Hty as (ty&Hty&->).
  exists (MkTableEvent ty (e_ltime e) (NodeID cfgA) n t k v (Seconds 0)).
  split; [by apply (write_queued cfgA ty t n k e dbA1)|].
  set (te := MkTableEvent _ _ _ _ _ _ _ _). split.
  - unfold GetEntry. change (getEntry t n k (sendTableEvent cfgA ty n t k e ?d)) with (getEntry t n k d).
    rewrite getEntry_create by done. by rewrite decide_True.
  - assert (Hrec : receptive cfgB dbB te) by done.
    unfold GetEntry, getEntry. rewrite (handleTableMessage_byTable _ _ te b dbB Hrec).
    change (evPath te) with (path t n k). unfold getEntry in Hold.
    assert (Hacc : match byTable dbB !! path t n k with
      Some p => e_ltime p <? te_LTime te | None => true end = true).
    { destruct (byTable dbB !! path t n k) as [p|]; [|done]. specialize (Hold p eq_refl).
      apply Z.ltb_lt. simpl. rewrite Increment_small by lia. lia. }
    rewrite Hacc, lookup_insert_eq. unfold eventEntry. simpl.
    by destruct Hty as [-> | ->].
Qed.

Lemma ndb_write_propagates_witness :
  exists te, queued (CreateEntry exA "tbl" "net" "key" (Some "v") (exDB exA)).1 "net" =
      queued (exDB exA) "net" ++ [te] /\
    GetEntry "tbl" "net" "key" (CreateEntry exA "tbl" "net" "key" (Some "v") (exDB exA)).1 = GoOk (Some "v") /\
    GetEntry "tbl" "net" "key" (handleTableMessage exC exQ te false
      (handleMessage exC exQ (fun _ => true)
        (MsgNetworkEvent (MkNetworkEvent NetworkEventTypeJoin 6 "A" "net")) false
        (NotifyJoin exJSON (MkMlNode "A" "10.0.0.1" 7946) (exDB exC)))) = GoOk (Some "v").
Proof.
  apply (ndb_write_propagates exA exC).
  - exact (exDB_inv exA).
  - vm_compute. reflexivity.
  - exact ex_names.
  - vm_compute. reflexivity.
  - left. vm_compute. reflexivity.
  - vm_compute. reflexivity.
  - vm_compute. repeat constructor.
  - discriminate.
  - intros e He. vm_compute in He. discriminate He.
Defined.

(** ** Bulk sync *)

(** No event takes a key back in time. *)
Lemma handleTableMessage_mono cfg nq te b db p e :
  byTable db !! p = Some e ->
  exists e', byTable (handleTableMessage cfg nq te b db) !! p = Some e' /\ e_ltime e <= e_ltime e'.
Proof.
  intros He. destruct (decide (receptive cfg db te)) as [Hr|Hr].
  - rewrite handleTableMessage_byTable by done.
    destruct (match byTable db !! evPath te with Some _ => _ | None => _ end) eqn:E; [|by exists e].
    destruct (decide (p = evPath te)) as [->|].
    + rewrite He in E. apply Z.ltb_lt in E. rewrite lookup_insert_eq.
      exists (eventEntry cfg te). split; [done|]. simpl. lia.
    + rewrite lookup_insert_ne by done. by exists e.
  - exists e. split; [|lia]. rewrite <- He. f_equal. unfold handleTableMessage.
    case_bool_decide as Hself; [done|]. pose proof (handleTableEvent_eq cfg te b db) as E.
    assert (Ha : accepts te db = false).
    { unfold accepts. destruct (joined db (te_NetworkID te)) eqn:Hj; [|done].
      rewrite bool_decide_eq_false_2; [done|]. intros Hin. by apply Hr. }
    rewrite Ha in E. destruct (handleTableEvent cfg te b db) as [db1 rb]. cbn [fst] in E. subst db1.
    destruct (negb rb); [done|]. destruct (thisNodeNetworks _ !! _); [|done].
    destruct (nw_leaving _); [done|]. by destruct (_ && _).
Qed.

Lemma receive_mono cfg nq evs db p e :
  byTable db !! p = Some e ->
  exists e', byTable (receive cfg nq evs db) !! p = Some e' /\ e_ltime e <= e_ltime e'.
Proof.
  revert db e. induction evs as [|[te b] evs IH]; intros db e He; [by exists e|].
  destruct (handleTableMessage_mono cfg nq te b db p e He) as (e1&He1&?).
  destruct (IH _ e1 He1) as (e2&He2&?). exists e2. split; [done|lia].
Qed.

Lemma receive_covers cfg nq evs db te b :
  (te, b) ∈ evs -> receptive cfg db te ->
  exists e, byTable (receive cfg nq evs db) !! evPath te = Some e /\ te_LTime te <= e_ltime e.
Proof.
  intros (l1&l2&->)%list_elem_of_split Hr. unfold receive. rewrite foldl_app. cbn [foldl].
  set (d := foldl _ db l1). assert (Hd : receptive cfg d te) by (by apply receive_receptive).
  assert (H1 : exists e, byTable (handleTableMessage cfg nq te b d) !! evPath te = Some e /\
    te_LTime te <= e_ltime e).
  { rewrite handleTableMessage_byTable by done.
    destruct (byTable d !! evPath te) as [e|] eqn:E.
    - destruct (Z.ltb_spec (e_ltime e) (te_LTime te)); [|by exists e].
      rewrite lookup_insert_eq. by eexists.
    - rewrite lookup_insert_eq. by eexists. }
  destruct H1 as (e&He&?).
  destruct (receive_mono cfg nq l2 _ _ e He) as (e'&He'&?). exists e'. split; [done|lia].
Qed.

Lemma handleMessage_events cfg nq sr evs db :
  handleMessage cfg nq sr (MsgCompound (MsgTableEvent <$> evs)) true db =
  receive cfg nq ((fun te => (te, true)) <$> evs) db.
Proof.
  cbn [handleMessage]. unfold receive. revert db. induction evs as [|te evs IH]; intros db; [done|].
  cbn. apply IH.
Qed.

(** A bulk sync brings the receiver up to date.  The message [bulkSyncNode] sends covers
    every entry of the networks named; after it was handled, the receiver has, for every
    such entry whose network it joined and whose owner it knows as a member of the network
    (and is not itself), an entry at least as new, and no entry of the receiver got older. *)
Theorem ndb_bulk_sync_catches_up cfgA cfgB nq srA srB nids u dbA dbB t n k e :
  ndb_inv (NodeID cfgA) dbA -> is_Some (nodes dbA !! NodeID cfgB) -> srA (NodeID cfgB) = true ->
  names t n k -> n ∈ nids -> getEntry t n k dbA = Some e ->
  joined dbB n = true -> e_node e ∈ nodesOf n dbB -> e_node e <> NodeID cfgB ->
  exists dbA' bsm, bulkSyncNode cfgA srA nids (NodeID cfgB) u dbA = (dbA', true) /\
    sent dbA' = sent dbA ++ [(NodeID cfgB, bsm)] /\
    let dbB' := handleMessage cfgB nq srB (bulkSyncMsg bsm) false dbB in
    (exists e', getEntry t n k dbB' = Some e' /\ e_ltime e <= e_ltime e') /\
    (forall t' n' k' e0, getEntry t' n' k' dbB = Some e0 ->
       exists e', getEntry t' n' k' dbB' = Some e' /\ e_ltime e0 <= e_ltime e').
Proof.
  intros Hi [mn Hmn] Hsr Hn Hnid He HjB Hin Hne. unfold bulkSyncNode. rewrite Hmn, Hsr.
  eexists _, _. split; [done|]. split; [done|]. unfold bulkSyncMsg. cbn [handleMessage bs_LTime
    bs_Unsolicited bs_NodeName bs_Networks bs_Payload]. cbv zeta.
  set (dbB1 := if tableClock dbA >? 0 then _ else dbB).
  assert (E1 : byTable dbB1 = byTable dbB /\ networkNodes dbB1 = networkNodes dbB /\
    thisNodeNetworks dbB1 = thisNodeNetworks dbB) by (unfold dbB1; by destruct (_ >? _)).
  destruct E1 as (E1&E2&E3).
  assert (Hrep : forall d, byTable (bulkSyncReply cfgB srB u (NodeID cfgA) nids d) = byTable d).
  { intros d. unfold bulkSyncReply, bulkSyncNode. destruct u; cbn [negb]; [|done].
    destruct (nodes d !! _); [|done]. by destruct (srB _). }
  pose proof (handleMessage_events cfgB nq srB (bulkEvents nids dbA) dbB1) as Hev.
  cbn [handleMessage] in Hev. unfold getEntry. rewrite !Hrep, Hev. clear Hev.
  set (te := MkTableEvent (if e_deleting e then TableEventTypeDelete else TableEventTypeCreate)
    (e_ltime e) (e_node e) n t k (e_value e) (Seconds (e_reapTime e))).
  split.
  - assert (Hmem : te ∈ bulkEvents nids dbA).
    { unfold bulkEvents. apply list_elem_of_bind. exists n. split; [|done].
      apply list_elem_of_omap. exists (path n t k, e). split.
      - apply elem_of_WalkPrefix. rewrite mirror_lookup by (done || apply Hi).
        split; [apply prefix_network|done].
      - destruct Hn as (?&?&?). unfold bulkEvent. by rewrite params_path. }
    assert (Hrec : receptive cfgB dbB1 te).
    { unfold receptive, joined, nodesOf in *. by rewrite E2, E3. }
    apply (receive_covers cfgB nq _ dbB1 te true); [|done]. apply list_elem_of_fmap. by exists te.
  - intros t' n' k' e0 He0. apply receive_mono. by rewrite E1.
Qed.

Lemma ndb_bulk_sync_catches_up_witness :
  exists dbA' bsm, bulkSyncNode exA (fun _ => true) ["net"] "B" true exEnd = (dbA', true) /\
    exists e', getEntry "tbl" "net" "own" (handleMessage (MkConfig "B" 0 0) exQ (fun _ => true)
      (bulkSyncMsg bsm) false
      (handleMessage (MkConfig "B" 0 0) exQ (fun _ => true)
        (MsgNetworkEvent (MkNetworkEvent NetworkEventTypeJoin 6 "A" "net")) false
        (NotifyJoin exJSON (MkMlNode "A" "10.0.0.1" 7946)
          (JoinNetwork (MkConfig "B" 0 0) "net" newNetworkDB).1))) = Some e' /\ 9 <= e_ltime e'.
Proof.
  destruct (ndb_bulk_sync_catches_up exA (MkConfig "B" 0 0) exQ (fun _ => true) (fun _ => true) ["net"] true
    exEnd (handleMessage (MkConfig "B" 0 0) exQ (fun _ => true)
        (MsgNetworkEvent (MkNetworkEvent NetworkEventTypeJoin 6 "A" "net")) false
        (NotifyJoin exJSON (MkMlNode "A" "10.0.0.1" 7946)
          (JoinNetwork (MkConfig "B" 0 0) "net" newNetworkDB).1))
    "tbl" "net" "own" (Entry "A" 9 (Some "z") false 0)) as (dbA'&bsm&H1&_&H2&_).
  - exact (proj1 (run_ok exA exQ (fun _ => true) exJSON false _ _ _ (newNetworkDB_ok exA) (ex_run false))).
  - vm_compute. eexists. reflexivity.
  - reflexivity.
  - repeat split.
  - left.
  - vm_compute. reflexivity.
  - vm_compute. reflexivity.
  - vm_compute. repeat constructor.
  - discriminate.
  - exists dbA', bsm. split; [exact H1|exact H2].
Defined.

(** ** The reaper *)

(** Cycles of the reaper, with the delays of each. *)
Definition reapCycles (cycles : list (string -> Z)) (db : NetworkDB) : NetworkDB :=
  foldl (fun db since => reapState since db) db cycles.

(** The state of a network this node left, [j] cycles later: attached with tombstones that
    expire first, or gone with all its entries. *)
Definition leaving_state (E : Z) (nid : string) (j : Z) (db : NetworkDB) : Prop :=
  (exists tn, thisNodeNetworks db !! nid = Some tn /\ nw_leaving (tn_network tn) = true /\
     nw_reapTime (tn_network tn) = E + 5 * reapPeriod - j * reapPeriod /\
     (j = 0 \/ 0 < E + 5 * reapPeriod - (j - 1) * reapPeriod) /\
     forall t k e, names t nid k -> getEntry t nid k db = Some e ->
       e_deleting e = true /\ e_reapTime e <= E - j * reapPeriod) \/
  (thisNodeNetworks db !! nid = None /\ E + 5 * reapPeriod - (j - 1) * reapPeriod <= 0 /\
   forall t k, names t nid k -> getEntry t nid k db = None).

Lemma reap_leaving (self : string) E nid j since db :
  (forall p, 0 <= since p) -> mirror db -> is_u64 (tableClock db) ->
  leaving_state E nid j db -> leaving_state E nid (j + 1) (reapState since db).
Proof.
  intros Hs Hm Hc Hst. unfold reapState. set (db1 := reapTableEntries since db).
  destruct (reap_networks_walk self since (map_to_list (thisNodeNetworks db)).*1 db Hs Hm Hc)
    as ([_ Hf _]&_&Hw). change (foldl _ db _) with db1 in Hf, Hw.
  pose proof (fr_att _ _ Hf nid) as Ha. unfold att in Ha.
  assert (Hget : forall t k, getEntry t nid k (reapNetworks db1) = getEntry t nid k db1) by done.
  assert (Htn : thisNodeNetworks (reapNetworks db1) !! nid =
    thisNodeNetworks db1 !! nid ≫= (fun n => (fun w => set_network w n) <$> reapNetwork (tn_network n)))
    by (simpl; apply lookup_omap).
  destruct Hst as [(tn&Etn&Hl&Hr&_&Hent)|(Etn&Hj&Hent)].
  - rewrite Etn in Ha. destruct (thisNodeNetworks db1 !! nid) as [tn1|]; [|done].
    simpl in Ha. injection Ha as _ Hnw _.
    assert (Hin : nid ∈ (map_to_list (thisNodeNetworks db)).*1).
    { apply list_elem_of_fmap. exists (nid, tn). split; [done|]. by apply elem_of_map_to_list. }
    assert (Hent1 : forall t k e, names t nid k -> getEntry t nid k db1 = Some e ->
      e_deleting e = true /\ Second < e_reapTime e <= E - (j + 1) * reapPeriod).
    { intros t k e Hn He. specialize (Hw t nid k Hn). rewrite He, bool_decide_eq_true_2 in Hw by done.
      destruct (getEntry t nid k db) as [e0|] eqn:E0; [|done].
      destruct (Hent t k e0 Hn E0) as [Hd Hle]. unfold aged in Hw. rewrite Hd in Hw.
      destruct Hw as [|(r&Hr1&Hr2&[= ->])]; [done|]. simpl. split; [done|].
      unfold reapPeriod, Second in *. lia. }
    simpl in Htn. rewrite Hnw in Htn. unfold reapNetwork in Htn. rewrite Hl, Hr in Htn.
    destruct (Z.leb_spec (E + 5 * reapPeriod - j * reapPeriod) 0) as [Hz|Hz]; simpl in Htn.
    + right. split; [done|]. split; [lia|]. intros t k Hn. rewrite Hget.
      destruct (getEntry t nid k db1) as [e|] eqn:Ee; [|done].
      destruct (Hent1 t k e Hn Ee) as [_ [??]]. unfold reapPeriod, Second in *. lia.
    + left. eexists. split; [done|]. simpl. split; [done|]. split; [lia|]. split; [right; lia|].
      intros t k e Hn. rewrite Hget. intros He. destruct (Hent1 t k e Hn He). split; [done|lia].
  - rewrite Etn in Ha. destruct (thisNodeNetworks db1 !! nid) as [tn1|]; [done|]. simpl in Htn.
    right. split; [done|]. split; [unfold reapPeriod, Second in *; lia|]. intros t k Hn. rewrite Hget.
    specialize (Hw t nid k Hn). by rewrite (Hent t k Hn) in Hw.
Qed.

Lemma leave_state cfg nid db db' :
  ndb_inv (NodeID cfg) db -> room db ->
  reapNetworkInterval cfg = reapEntryInterval cfg + 5 * reapPeriod ->
  (forall t k e, names t nid k -> getEntry t nid k db = Some e -> e_node e = NodeID cfg ->
     e_deleting e = true -> e_reapTime e <= reapEntryInterval cfg) ->
  LeaveNetwork cfg nid db = (db', None) -> leaving_state (reapEntryInterval cfg) nid 0 db'.
Proof.
  intros Hi Hr Hcfg Hold. unfold LeaveNetwork.
  set (db1 := sendNetworkEvent _ _ _ _ _). set (db2 := deleteNetworkNode nid (NodeID cfg) db1).
  pose proof (deleteNetworkNode_frame nid (NodeID cfg) db1) as Hf. fold db2 in Hf.
  destruct (i_clock _ _ Hi). unfold room in Hr.
  destruct (leave_walk cfg nid db2) as (_&_&Hw).
  { unfold mirror. rewrite (lf_byTable _ _ Hf), (lf_byNetwork _ _ Hf). apply Hi. }
  { rewrite (lf_tableClock _ _ Hf). simpl. lia. }
  { rewrite (lf_tableClock _ _ Hf), (lf_byNetwork _ _ Hf). simpl. lia. }
  set (db3 := foldl _ db2 _) in *.
  destruct (thisNodeNetworks db3 !! nid) as [tn|] eqn:Etn; [|done]. intros [= <-]. left.
  eexists. split; [cbn; rewrite lookup_alter_eq, Etn; reflexivity|]. simpl. split; [done|].
  split; [lia|]. split; [by left|]. intros t k e Hn He. change (getEntry t nid k db3 = Some e) in He.
  specialize (Hw t nid k Hn). unfold walked in Hw. rewrite He, prefix_network in Hw.
  assert (Hg : getEntry t nid k db2 = getEntry t nid k db) by (unfold getEntry; by rewrite (lf_byTable _ _ Hf)).
  rewrite Hg in Hw. destruct (getEntry t nid k db) as [e0|] eqn:E0; [|done].
  rewrite bool_decide_eq_false_2 in Hw by set_solver. simpl in Hw. unfold left_behind in Hw.
  case_bool_decide as Hown; [|done]. destruct (e_deleting e0) eqn:Ed.
  - injection Hw as ->. split; [done|]. specialize (Hold t k e0 Hn E0 Hown Ed). lia.
  - destruct Hw as (lt&_&[= ->]). simpl. split; [done|lia].
Qed.

Lemma cycles_leaving self E nid j cycles db :
  Forall (fun since => forall p, 0 <= since p) cycles -> ndb_inv self db ->
  leaving_state E nid j db -> leaving_state E nid (j + Z.of_nat (length cycles)) (reapCycles cycles db).
Proof.
  intros Hcyc. unfold reapCycles. revert j db.
  induction Hcyc as [|since cycles Hs Hcyc IH]; intros j db Hi Hst; [by rewrite Z.add_0_r|]. cbn [foldl].
  replace (j + Z.of_nat (length (since :: cycles))) with ((j + 1) + Z.of_nat (length cycles))
    by (simpl length; lia).
  apply IH; [by apply (reapState_ok self since db Hs Hi)|].
  apply (reap_leaving self); [done|apply Hi|apply Hi|done].
Qed.

(** After this node left a network, its tombstones are collected before its attachment,
    as the intervals are chosen for: whenever the network is gone, so are all its entries;
    and after enough cycles of the reaper it is gone. *)
Theorem ndb_reap_order cfg nid db db' cycles :
  ndb_inv (NodeID cfg) db -> room db ->
  reapNetworkInterval cfg = reapEntryInterval cfg + 5 * reapPeriod ->
  (forall t k e, names t nid k -> getEntry t nid k db = Some e -> e_node e = NodeID cfg ->
     e_deleting e = true -> e_reapTime e <= reapEntryInterval cfg) ->
  LeaveNetwork cfg nid db = (db', None) ->
  Forall (fun since => forall p, 0 <= since p) cycles -> 0 <= reapEntryInterval cfg ->
  let d := reapCycles cycles db' in
  (thisNodeNetworks d !! nid = None -> forall t k, names t nid k -> getEntry t nid k d = None) /\
  (reapEntryInterval cfg + 6 * reapPeriod <= Z.of_nat (length cycles) * reapPeriod ->
     thisNodeNetworks d !! nid = None).
Proof.
  intros Hi Hr Hcfg Hold Hleave Hcyc Hpos. cbv zeta.
  pose proof (leave_state cfg nid db db' Hi Hr Hcfg Hold Hleave) as Hst.
  assert (Hi' : ndb_inv (NodeID cfg) db').
  { pose proof (LeaveNetwork_ok cfg nid db Hi Hr) as [H _]. by rewrite Hleave in H. }
  pose proof (cycles_leaving (NodeID cfg) _ nid 0 cycles db' Hcyc Hi' Hst) as Hend.
  destruct Hend as [(tn&Etn&_&_&Hrt&_)|(Etn&_&Hent)]; [|done].
  split; [by rewrite Etn|]. intros Hlen. exfalso. unfold reapPeriod, Second in *. lia.
Qed.

Lemma exEnd_inv : ndb_inv (NodeID exA) exEnd.
Proof. exact (proj1 (run_ok exA exQ (fun _ => true) exJSON false _ _ _ (newNetworkDB_ok exA) (ex_run false))). Qed.

Lemma all_live db :
  map_Forall (fun _ e => e_deleting e = false) (byTable db) ->
  forall t n k e, getEntry t n k db = Some e -> e_deleting e = false.
Proof. intros H t n k e He. by apply (H _ _ He). Qed.

Lemma exEnd_live : map_Forall (fun _ e => e_deleting e = false) (byTable exEnd).
Proof. apply (bool_decide_unpack _). vm_compute. exact I. Qed.

Lemma exEnd_leave : LeaveNetwork exA "net" exEnd = ((LeaveNetwork exA "net" exEnd).1, None).
Proof. vm_compute. reflexivity. Qed.

Definition ex400 : list (string -> Z) := replicate 400 (fun _ => 0).

Lemma ndb_reap_order_witness :
  let d := reapCycles ex400 (LeaveNetwork exA "net" exEnd).1 in
  thisNodeNetworks d !! "net" = None /\ getEntry "tbl" "net" "own" d = None.
Proof.
  destruct (ndb_reap_order exA "net" exEnd (LeaveNetwork exA "net" exEnd).1 ex400 exEnd_inv) as [H1 H2].
  - vm_compute. reflexivity.
  - reflexivity.
  - intros t k e _ He _ Hd. rewrite (all_live exEnd exEnd_live _ _ _ _ He) in Hd. discriminate Hd.
  - exact exEnd_leave.
  - apply Forall_replicate. intros p. discriminate.
  - discriminate.
  - specialize (H2 ltac:(vm_compute; discriminate)).
    split; [exact H2|]. apply (H1 H2). repeat split.
Defined.

(** ** Deviations *)

(** A deleted entry that was not collected yet keeps its key: [CreateEntry] refuses it although
    [GetEntry] does not find it. *)
Lemma create_over_tombstone cfg t n k v db e :
  getEntry t n k db = Some e -> e_deleting e = true ->
  CreateEntry cfg t n k v db = (db, Some ErrExists) /\ GetEntry t n k db = GoErr ErrDeleted.
Proof. intros He Hd. unfold CreateEntry, GetEntry. by rewrite He, Hd. Qed.

(** The walks over the entries of a network also meet the networks whose identifier begins
    with its identifier.  Two networks [n] and [n1], an own entry in [n1]: *)
Definition exPrefix : NetworkDB :=
  (CreateEntry exA "tbl" "n1" "key" (Some "v")
    (JoinNetwork exA "n1" (JoinNetwork exA "n" newNetworkDB).1).1).1.

(** leaving [n] deletes the entry of [n1], *)
Lemma leave_hits_longer_id :
  GetEntry "tbl" "n1" "key" exPrefix = GoOk (Some "v") /\
  GetEntry "tbl" "n1" "key" (LeaveNetwork exA "n" exPrefix).1 = GoErr ErrDeleted.
Proof. vm_compute. split; reflexivity. Qed.

(** and a bulk sync of [n] sends it as an entry of [n]. *)
Lemma bulk_sync_mislabels :
  exists te, bulkEvents ["n"] exPrefix = [te] /\ te_NetworkID te = "n" /\ te_Key te = "key".
Proof. vm_compute. eexists. split; [reflexivity|]. split; reflexivity. Qed.

(** The entries of a failed node are dropped by a key that is cut at the first slash. *)
Lemma slash_key_survives :
  let db := receive exA exQ [(MkTableEvent TableEventTypeCreate 7 "B" "net" "tbl" "a/b" (Some "x") 0, false)]
    (exDB exA) in
  GetEntry "tbl" "net" "a/b" (NotifyLeave exJSON exMl db) = GoOk (Some "x") /\
  GetEntry "tbl" "net" "key" (NotifyLeave exJSON exMl (receive exA exQ
    [(exEv TableEventTypeCreate 7 (Some "x"), false)] (exDB exA))) = GoErr ErrNoEntry.
Proof. vm_compute. split; reflexivity. Qed.
