(* ===== verification/Counting.v ===== *)
(** * Counting the elements of a list that satisfy a predicate

    Used for reference counts and for counts of threads. *)

From S2P Require Import Prelude.
Open Scope list_scope.
Open Scope Z_scope.

Definition values {A} (m : gmap string A) : list A := (map_to_list m).*2.

Definition count {A} (P : A -> Prop) `{!forall x, Decision (P x)} (l : list A) : Z :=
  Z.of_nat (length (filter P l)).

Section Count.
Context {A : Type} (P : A -> Prop) `{!forall x, Decision (P x)}.
Implicit Types l : list A.

Lemma count_nonneg l : 0 <= count P l.
Proof. unfold count. lia. Qed.

Lemma count_cons x l : count P (x :: l) = (if decide (P x) then 1 else 0) + count P l.
Proof. unfold count. rewrite filter_cons. case_decide; cbn [length]; lia. Qed.

Lemma count_nil : count P [] = 0.
Proof. done. Qed.

Lemma count_app l k : count P (l ++ k) = count P l + count P k.
Proof. unfold count. rewrite list.filter_app, length_app. lia. Qed.

#[global] Instance count_perm : Proper ((≡ₚ) ==> (=)) (count P).
Proof. intros l k Hp. unfold count. by rewrite Hp. Qed.

Lemma count_zero l x : count P l = 0 -> x ∈ l -> ~ P x.
Proof.
  intros Hz Hx HP. assert (Hin : x ∈ filter P l) by (by apply list_elem_of_filter).
  destruct (filter P l) eqn:E; [by apply not_elem_of_nil in Hin|]. unfold count in Hz. rewrite E in Hz.
  simpl in Hz. lia.
Qed.

Lemma count_pos l x : x ∈ l -> P x -> 0 < count P l.
Proof.
  intros Hx HP. destruct (decide (count P l = 0)) as [Hz|]; [|pose proof (count_nonneg l); lia].
  by eapply count_zero in Hz.
Qed.

Lemma count_exists l : 0 < count P l -> exists x, x ∈ l /\ P x.
Proof.
  unfold count. intros Hc. destruct (filter P l) as [|x k] eqn:E; [simpl in Hc; lia|].
  exists x. assert (Hin : x ∈ filter P l) by (rewrite E; left). apply list_elem_of_filter in Hin. tauto.
Qed.
End Count.

Lemma count_ext {A} (P Q : A -> Prop) `{!forall x, Decision (P x), !forall x, Decision (Q x)} l :
  (forall x, x ∈ l -> P x <-> Q x) -> count P l = count Q l.
Proof.
  induction l as [|x l IH]; intros Hpq; [done|].
  rewrite !count_cons, IH by (intros; apply Hpq; by right).
  assert (Hx := Hpq x ltac:(left)). repeat case_decide; tauto || lia.
Qed.

Lemma elem_of_values {A} (m : gmap string A) x : x ∈ values m <-> exists k, m !! k = Some x.
Proof.
  unfold values. rewrite list_elem_of_fmap. split.
  - intros ([k y]&->&H%elem_of_map_to_list). by exists k.
  - intros (k&H). exists (k, x). split; [done|]. by apply elem_of_map_to_list.
Qed.

Lemma values_insert {A} (m : gmap string A) k x :
  m !! k = None -> values (<[k := x]> m) ≡ₚ x :: values m.
Proof. intros H. unfold values. by rewrite map_to_list_insert. Qed.

Lemma values_delete {A} (m : gmap string A) k x :
  m !! k = Some x -> values m ≡ₚ x :: values (delete k m).
Proof. intros H. unfold values. by rewrite <- (map_to_list_delete m k x H). Qed.

Lemma values_update {A} (m : gmap string A) k x y :
  m !! k = Some x -> values (<[k := y]> m) ≡ₚ y :: values (delete k m).
Proof.
  intros H. rewrite <- insert_delete_eq, values_insert; [done|]. apply lookup_delete_eq.
Qed.

(** Changing one element. *)
Lemma count_update {A} (P : A -> Prop) `{!forall x, Decision (P x)} (l : list A) i x y :
  l !! i = Some x ->
  count P (<[i := y]> l) + (if decide (P x) then 1 else 0) = count P l + (if decide (P y) then 1 else 0).
Proof.
  intros Hi. pose proof (lookup_lt_Some _ _ _ Hi).
  rewrite <- (take_drop_middle l i x Hi) at 2. rewrite insert_take_drop by done.
  rewrite !count_app, !count_cons. lia.
Qed.
