(* ===== verification/LayerStore.v ===== *)
(** * The layer store ([daemon/internal/layer])

    Read-only layers form chains over their parents and are counted references; read-write
    layers (mounts) hold their parent.  The model follows [layer_store.go], [ro_layer.go] and
    [mounted_layer.go].

    - Layers are objects on a heap, named by the order of their allocation; references
      ([referencedCacheLayer], [referencedRWLayer]) are objects with an identity of their own.
    - [Register], [CreateRWLayer] and [ReleaseRWLayer] do their work in sections under a lock,
      with the graph driver called in between.  The sections are separate operations; what
      a call holds between two sections (a reference count of a layer, the lock of a name) is
      recorded in the state of the system.
    - The graph driver, the metadata directory and the digest of an archive are arguments: what
      the model depends on is whether they fail and the identifiers they return. *)

From S2P Require Import Prelude.
Open Scope string_scope.
Open Scope list_scope.
Open Scope Z_scope.

Definition maxLayerDepth : nat := 125.

Inductive layer_error :=
| ErrLayerDoesNotExist | ErrLayerNotRetained | ErrMountDoesNotExist | ErrMountNameConflict
| ErrMaxDepthExceeded | ErrDriver.

Record roLayer := RoLayer {
  l_chainID : string;
  l_diffID : string;
  l_parent : option nat;
  l_cacheID : string;
  l_size : Z;
  l_referenceCount : Z;
  l_references : gset nat
}.

Record mountedLayer := MountedLayer {
  m_name : string;
  m_mountID : string;
  m_initID : string;
  m_parent : option nat;
  m_references : gset nat
}.

Record Metadata := MkMetadata {
  md_ChainID : string; md_DiffID : string; md_Size : Z; md_DiffSize : Z
}.

(** [heap] has every layer that was ever created.  [leaked] is bookkeeping of the model: the
    parents of layers whose deletion failed. *)
Record layerStore := LayerStore {
  heap : gmap nat roLayer;
  layerMap : gmap string nat;
  mounts : gmap string mountedLayer;
  nextRef : nat;
  nextObj : nat;
  leaked : list nat
}.

Definition set_heap (v : gmap nat roLayer) (ls : layerStore) : layerStore :=
  LayerStore v (layerMap ls) (mounts ls) (nextRef ls) (nextObj ls) (leaked ls).
Definition set_layerMap (v : gmap string nat) (ls : layerStore) : layerStore :=
  LayerStore (heap ls) v (mounts ls) (nextRef ls) (nextObj ls) (leaked ls).
Definition set_mounts (v : gmap string mountedLayer) (ls : layerStore) : layerStore :=
  LayerStore (heap ls) (layerMap ls) v (nextRef ls) (nextObj ls) (leaked ls).
Definition set_nextRef (v : nat) (ls : layerStore) : layerStore :=
  LayerStore (heap ls) (layerMap ls) (mounts ls) v (nextObj ls) (leaked ls).
Definition set_leaked (v : list nat) (ls : layerStore) : layerStore :=
  LayerStore (heap ls) (layerMap ls) (mounts ls) (nextRef ls) (nextObj ls) v.

Definition with_count (l : roLayer) (c : Z) : roLayer :=
  RoLayer (l_chainID l) (l_diffID l) (l_parent l) (l_cacheID l) (l_size l) c (l_references l).
Definition with_references (l : roLayer) (r : gset nat) : roLayer :=
  RoLayer (l_chainID l) (l_diffID l) (l_parent l) (l_cacheID l) (l_size l) (l_referenceCount l) r.
Definition with_mreferences (m : mountedLayer) (r : gset nat) : mountedLayer :=
  MountedLayer (m_name m) (m_mountID m) (m_initID m) (m_parent m) r.

(** A [Layer] as the clients see it: a reference, or a layer itself (from [Map] or
    [Parent]). *)
Inductive Layer := LRef (ref l : nat) | LRo (l : nat).

Definition emptyStore : layerStore := LayerStore ∅ ∅ ∅ 0 0 [].

(** ** Read-only layers *)

(** [Size] and [depth] walk the parents, which are older than the layer. *)
Fixpoint Size_ (fuel : nat) (l : nat) (h : gmap nat roLayer) : Z :=
  match fuel, h !! l with
  | S fuel, Some rl =>
      l_size rl + match l_parent rl with Some p => Size_ fuel p h | None => 0 end
  | _, _ => 0
  end.
Definition Size (l : nat) (ls : layerStore) : Z := Size_ (S l) l (heap ls).

Fixpoint depth_ (fuel : nat) (l : nat) (h : gmap nat roLayer) : nat :=
  match fuel, h !! l with
  | S fuel, Some rl =>
      match l_parent rl with Some p => S (depth_ fuel p h) | None => 1 end
  | _, _ => 0
  end.
Definition depth (l : nat) (ls : layerStore) : nat := depth_ (S l) l (heap ls).

Definition setLayer (l : nat) (rl : roLayer) (ls : layerStore) : layerStore :=
  set_heap (<[l := rl]> (heap ls)) ls.

(** [getReference] of a read-only layer. *)
Definition getReference (l : nat) (ls : layerStore) : layerStore * Layer :=
  match heap ls !! l with
  | Some rl =>
      let r := nextRef ls in
      let ls := setLayer l (with_references rl ({[r]} ∪ l_references rl)) ls in
      (set_nextRef (S r) ls, LRef r l)
  | None => (ls, LRo l)
  end.

(** [hasReference] *)
Definition hasReference (h : Layer) (rl : roLayer) : bool :=
  match h with
  | LRef r _ => bool_decide (r ∈ l_references rl)
  | LRo _ => false
  end.

(** [deleteReference] *)
Definition deleteReference (h : Layer) (rl : roLayer) : roLayer :=
  match h with
  | LRef r _ => with_references rl (l_references rl ∖ {[r]})
  | LRo _ => rl
  end.

(** [get(layer)]: the layer with its count incremented. *)
Definition get (c : string) (ls : layerStore) : layerStore * option nat :=
  match layerMap ls !! c with
  | None => (ls, None)
  | Some l =>
      match heap ls !! l with
      | Some rl => (setLayer l (with_count rl (l_referenceCount rl + 1)) ls, Some l)
      | None => (ls, None)
      end
  end.

Definition Get (c : string) (ls : layerStore) : layerStore * (Layer + layer_error) :=
  match get c ls with
  | (ls, None) => (ls, inr ErrLayerDoesNotExist)
  | (ls, Some l) => let '(ls, h) := getReference l ls in (ls, inl h)
  end.

(** [Map] *)
Definition Map_ (ls : layerStore) : gmap string Layer := LRo <$> layerMap ls.

Inductive release_result :=
| Released (removed : list Metadata)
| ReleaseErr (e : layer_error)
| ReleasePanic.

Definition metadataOf (l : nat) (rl : roLayer) (ls : layerStore) : Metadata :=
  MkMetadata (l_chainID rl) (l_diffID rl) (Size l ls) (l_size rl).

(** [releaseLayer]; [del l] says whether [deleteLayer] succeeds for [l].  [depth] and [removed]
    are the variables of the loop. *)
Fixpoint releaseLayer_loop (del : nat -> bool) (fuel : nat) (l : nat) (depth : nat)
    (removed : list Metadata) (ls : layerStore) : layerStore * release_result :=
  match fuel, heap ls !! l with
  | S fuel, Some rl =>
      if l_referenceCount rl =? 0 then (ls, ReleasePanic)
      else
        let rl := with_count rl (l_referenceCount rl - 1) in
        let ls := setLayer l rl ls in
        if negb (l_referenceCount rl =? 0) then (ls, Released removed)
        else if (length removed =? 0)%nat && (0 <? depth)%nat then (ls, ReleasePanic)
        else if bool_decide (l_references rl <> ∅) then (ls, ReleasePanic)
        else
          let ls := set_layerMap (delete (l_chainID rl) (layerMap ls)) ls in
          if negb (del l) then
            (match l_parent rl with
             | Some p => set_leaked (p :: leaked ls) ls
             | None => ls
             end, ReleaseErr ErrDriver)
          else
            let removed := removed ++ [metadataOf l rl ls] in
            match l_parent rl with
            | None => (ls, Released removed)
            | Some p => releaseLayer_loop del fuel p (S depth) removed ls
            end
  | _, _ => (ls, ReleasePanic)
  end.
Definition releaseLayer (del : nat -> bool) (l : nat) (ls : layerStore) :
    layerStore * release_result :=
  releaseLayer_loop del (S l) l 0 [] ls.

Definition locOf (h : Layer) : nat := match h with LRef _ l | LRo l => l end.

(** [Release(l)] *)
Definition Release (del : nat -> bool) (h : Layer) (ls : layerStore) :
    layerStore * release_result :=
  match heap ls !! locOf h with
  | None => (ls, Released [])
  | Some hl =>
      match layerMap ls !! l_chainID hl with
      | None => (ls, Released [])
      | Some l =>
          match heap ls !! l with
          | None => (ls, Released [])
          | Some rl =>
              if negb (hasReference h rl) then (ls, ReleaseErr ErrLayerNotRetained)
              else releaseLayer del l (setLayer l (deleteReference h rl) ls)
          end
      end
  end.

Section Store.
(** [identity.ChainID([]digest.Digest{parent, diff})] *)
Context (ChainID : string -> string -> string).

(** ** [registerWithDescriptor] *)

(** The first section: the parent is held; an error tells whether a hold is to be released. *)
Definition register_start (parent : string) (ls : layerStore) :
    layerStore * (option nat + (layer_error * option nat)) :=
  if bool_decide (parent = "") then (ls, inl None)
  else match get parent ls with
       | (ls, None) => (ls, inr (ErrLayerDoesNotExist, None))
       | (ls, Some p) =>
           if (maxLayerDepth <=? depth p ls)%nat then (ls, inr (ErrMaxDepthExceeded, Some p))
           else (ls, inl (Some p))
       end.

Definition chainIDOf (p : option nat) (diffID : string) (ls : layerStore) : string :=
  match p with
  | None => diffID
  | Some p => match heap ls !! p with Some pl => ChainID (l_chainID pl) diffID | None => diffID end
  end.

(** The last section: the archive was applied and stored.  The result is the reference or an
    error; the flag says whether the hold on the parent is to be released. *)
Definition register_finish (p : option nat) (diffID cacheID : string) (size : Z) (commitOK : bool)
    (ls : layerStore) : layerStore * (Layer + layer_error) * bool :=
  let chainID := chainIDOf p diffID ls in
  match get chainID ls with
  | (ls, Some existing) => let '(ls, h) := getReference existing ls in (ls, inl h, true)
  | (ls, None) =>
      if negb commitOK then (ls, inr ErrDriver, true)
      else
        let l := nextObj ls in
        let rl := RoLayer chainID diffID p cacheID size 1 ∅ in
        let ls := LayerStore (<[l := rl]> (heap ls)) (<[chainID := l]> (layerMap ls)) (mounts ls)
                    (nextRef ls) (S l) (leaked ls) in
        let '(ls, h) := getReference l ls in (ls, inl h, false)
  end.

(** What the driver and the metadata store do in a call of [Register]. *)
Inductive apply_outcome :=
| ApplyFails
| Applied (diffID cacheID : string) (size : Z) (commitOK : bool).

(** The release of the hold at the end of the call. *)
Definition release_hold (del : nat -> bool) (p : option nat) (ls : layerStore) : layerStore :=
  match p with Some p => (releaseLayer del p ls).1 | None => ls end.

(** The whole call without interleaving. *)
Definition Register (del : nat -> bool) (out : apply_outcome) (parent : string) (ls : layerStore) :
    layerStore * (Layer + layer_error) :=
  match register_start parent ls with
  | (ls, inr (e, p)) => (release_hold del p ls, inr e)
  | (ls, inl p) =>
      match out with
      | ApplyFails => (release_hold del p ls, inr ErrDriver)
      | Applied diffID cacheID size ok =>
          let '(ls, r, again) := register_finish p diffID cacheID size ok ls in
          ((if again then release_hold del p ls else ls), r)
      end
  end.

(** ** Read-write layers *)

(** [CreateRWLayer]: the check of the name and the hold on the parent. *)
Definition createRW_start (name parent : string) (ls : layerStore) :
    layerStore * (option nat + layer_error) :=
  match mounts ls !! name with
  | Some _ => (ls, inr ErrMountNameConflict)
  | None =>
      if bool_decide (parent = "") then (ls, inl None)
      else match get parent ls with
           | (ls, None) => (ls, inr ErrLayerDoesNotExist)
           | (ls, Some p) => (ls, inl (Some p))
           end
  end.

(** The end of [CreateRWLayer]: [saveMount] and [getReference] once the driver succeeded. *)
Definition createRW_finish (name mountID initID : string) (p : option nat) (ls : layerStore) :
    layerStore * nat :=
  let r := nextRef ls in
  (set_nextRef (S r)
     (set_mounts (<[name := MountedLayer name mountID initID p {[r]}]> (mounts ls)) ls), r).

(** [GetRWLayer] *)
Definition GetRWLayer (id : string) (ls : layerStore) : layerStore * (nat + layer_error) :=
  match mounts ls !! id with
  | None => (ls, inr ErrMountDoesNotExist)
  | Some m =>
      let r := nextRef ls in
      (set_nextRef (S r)
         (set_mounts (<[id := with_mreferences m ({[r]} ∪ m_references m)]> (mounts ls)) ls), inl r)
  end.

(** [GetMountID] *)
Definition GetMountID (id : string) (ls : layerStore) : string + layer_error :=
  match mounts ls !! id with Some m => inl (m_mountID m) | None => inr ErrMountDoesNotExist end.

(** [ReleaseRWLayer] up to the release of the parent; [ok] says whether the driver and the
    metadata store removed the mount.  The result has the hold to be released. *)
Definition releaseRW_start (name : string) (ref : nat) (ok : bool) (ls : layerStore) :
    layerStore * (option nat + layer_error) :=
  match mounts ls !! name with
  | None => (ls, inl None)
  | Some m =>
      if bool_decide (ref ∉ m_references m) then (ls, inr ErrLayerNotRetained)
      else
        let m' := with_mreferences m (m_references m ∖ {[ref]}) in
        if bool_decide (m_references m' <> ∅) then
          (set_mounts (<[name := m']> (mounts ls)) ls, inl None)
        else if negb ok then
          (* [retakeReference] *)
          (set_mounts (<[name := with_mreferences m' ({[ref]} ∪ m_references m')]> (mounts ls)) ls,
            inr ErrDriver)
        else (set_mounts (delete name (mounts ls)) ls, inl (m_parent m))
  end.

(** ** Restoring the store from the metadata directory *)

(** The files of a layer directory; [None] stands for a layer one of whose files cannot be
    read. *)
Record layerFiles := LayerFiles {
  f_diffID : string; f_size : Z; f_cacheID : string; f_parent : string
}.
Record mountFiles := MountFiles { f_mountID : string; f_initID : string; f_mountParent : string }.

(** [loadLayer] *)
Fixpoint loadLayer (files : gmap string layerFiles) (fuel : nat) (c : string) (ls : layerStore) :
    layerStore * option nat :=
  match layerMap ls !! c with
  | Some l => (ls, Some l)
  | None =>
      match fuel, files !! c with
      | S fuel, Some f =>
          let add (p : option nat) (ls : layerStore) :=
            let l := nextObj ls in
            let rl := RoLayer c (f_diffID f) p (f_cacheID f) (f_size f) 0 ∅ in
            (LayerStore (<[l := rl]> (heap ls)) (<[c := l]> (layerMap ls)) (mounts ls)
               (nextRef ls) (S l) (leaked ls), Some l) in
          if bool_decide (f_parent f = "") then add None ls
          else match loadLayer files fuel (f_parent f) ls with
               | (ls, Some p) => add (Some p) ls
               | (ls, None) => (ls, None)
               end
      | _, _ => (ls, None)
      end
  end.

Definition incCount (l : nat) (ls : layerStore) : layerStore :=
  match heap ls !! l with
  | Some rl => setLayer l (with_count rl (l_referenceCount rl + 1)) ls
  | None => ls
  end.

(** The loop over the layers of [newStoreFromGraphDriver]. *)
Definition restoreLayer (files : gmap string layerFiles) (ls : layerStore) (c : string) : layerStore :=
  match loadLayer files (S (size files)) c ls with
  | (ls, Some l) =>
      match heap ls !! l ≫= l_parent with
      | Some p => incCount p ls
      | None => ls
      end
  | (ls, None) => ls
  end.

(** [loadMount] *)
Definition loadMount (files : gmap string layerFiles) (mfiles : gmap string mountFiles)
    (ls : layerStore) (name : string) : layerStore :=
  match mounts ls !! name with
  | Some _ => ls
  | None =>
      match mfiles !! name with
      | None => ls
      | Some f =>
          let add (p : option nat) (ls : layerStore) :=
            set_mounts (<[name := MountedLayer name (f_mountID f) (f_initID f) p ∅]> (mounts ls)) ls in
          if bool_decide (f_mountParent f = "") then add None ls
          else match loadLayer files (S (size files)) (f_mountParent f) ls with
               | (ls, None) => ls
               | (ls, Some p) => add (Some p) (incCount p ls)
               end
      end
  end.

(** [newStoreFromGraphDriver] for the lists of the directories. *)
Definition newStoreFromGraphDriver (files : gmap string layerFiles) (mfiles : gmap string mountFiles)
    (ids names : list string) : layerStore :=
  foldl (loadMount files mfiles) (foldl (restoreLayer files) emptyStore ids) names.

(** ** The system: the store, the holds and the names in use by running calls *)

Record sys := Sys {
  store : layerStore;
  held : list nat;
  locked : gset string;
  creating : list (string * option nat)
}.

Definition hold (p : option nat) (h : list nat) : list nat :=
  match p with Some p => p :: h | None => h end.

(** One section of a call. *)
Inductive step : sys -> sys -> Prop :=
| step_get c s :
    step s (Sys (Get c (store s)).1 (held s) (locked s) (creating s))
| step_release del h s :
    step s (Sys (Release del h (store s)).1 (held s) (locked s) (creating s))
| step_register_start parent s ls p :
    register_start parent (store s) = (ls, inl p) ->
    step s (Sys ls (hold p (held s)) (locked s) (creating s))
| step_register_refused parent s ls e p :
    register_start parent (store s) = (ls, inr (e, p)) ->
    step s (Sys ls (hold p (held s)) (locked s) (creating s))
| step_register_finish p diffID cacheID sz ok s held' ls r again :
    held s ≡ₚ hold p held' ->
    (forall q, p = Some q -> (depth q (store s) < maxLayerDepth)%nat) ->
    register_finish p diffID cacheID sz ok (store s) = (ls, r, again) ->
    step s (Sys ls (if again then hold p held' else held') (locked s) (creating s))
| step_release_hold del p s held' :
    held s ≡ₚ p :: held' ->
    step s (Sys (releaseLayer del p (store s)).1 held' (locked s) (creating s))
| step_create_start name parent s ls p :
    name ∉ locked s -> createRW_start name parent (store s) = (ls, inl p) ->
    step s (Sys ls (held s) ({[name]} ∪ locked s) ((name, p) :: creating s))
| step_create_fails name p s rest :
    creating s ≡ₚ (name, p) :: rest ->
    step s (Sys (store s) (hold p (held s)) (locked s ∖ {[name]}) rest)
| step_create_finish name mountID initID p s rest :
    creating s ≡ₚ (name, p) :: rest ->
    step s (Sys (createRW_finish name mountID initID p (store s)).1 (held s) (locked s ∖ {[name]}) rest)
| step_getRW name s :
    name ∉ locked s -> step s (Sys (GetRWLayer name (store s)).1 (held s) (locked s) (creating s))
| step_releaseRW name ref ok s ls p :
    name ∉ locked s -> releaseRW_start name ref ok (store s) = (ls, inl p) ->
    step s (Sys ls (hold p (held s)) (locked s) (creating s))
| step_releaseRW_fails name ref ok s ls e :
    name ∉ locked s -> releaseRW_start name ref ok (store s) = (ls, inr e) ->
    step s (Sys ls (held s) (locked s) (creating s)).

Inductive reachable (s0 : sys) : sys -> Prop :=
| reach_refl : reachable s0 s0
| reach_step s s' : reachable s0 s -> step s s' -> reachable s0 s'.

End Store.
