(* ===== verification/LayerStoreSpec.v ===== *)
(** * The invariant of the layer store

    [linv ext ls]: every reference count is the number of the holders of the layer, where [ext]
    are the holds of running calls.  The lemmas say how each elementary change moves a hold, and
    that [get], [getReference], [Get], [releaseLayer], [Release] and the addition of a layer keep
    the invariant. *)

From S2P Require Import Prelude Counting LayerStore.
Open Scope string_scope.
Open Scope list_scope.
Open Scope Z_scope.

(** ** The invariant *)

(** A layer that can be found. *)
Definition mapped (ls : layerStore) (l : nat) : Prop := exists c, layerMap ls !! c = Some l.

Definition parentOf (h : gmap nat roLayer) (l : nat) : option nat := h !! l ≫= l_parent.

(** The holders of a layer: references of clients, layers on top, mounts, and the holds of
    running calls and of layers whose deletion failed. *)
Definition children (ls : layerStore) (l : nat) : Z :=
  count (fun x => parentOf (heap ls) x = Some l) (values (layerMap ls)).
Definition mountsOn (ls : layerStore) (l : nat) : Z :=
  count (fun m => m_parent m = Some l) (values (mounts ls)).
Definition holders (ext : list nat) (ls : layerStore) (l : nat) : Z :=
  children ls l + mountsOn ls l + count (fun x => x = l) (ext ++ leaked ls).

Record linv (ext : list nat) (ls : layerStore) : Prop := {
  lv_map c l : layerMap ls !! c = Some l -> exists rl, heap ls !! l = Some rl /\ l_chainID rl = c;
  lv_alloc l rl : heap ls !! l = Some rl ->
    (l < nextObj ls)%nat /\ (forall p, l_parent rl = Some p -> (p < l)%nat);
  lv_parent l p : mapped ls l -> parentOf (heap ls) l = Some p -> mapped ls p;
  lv_count l rl : mapped ls l -> heap ls !! l = Some rl ->
    l_referenceCount rl = Z.of_nat (size (l_references rl)) + holders ext ls l;
  lv_ext p : p ∈ ext ++ leaked ls -> mapped ls p;
  lv_mount n m p : mounts ls !! n = Some m -> m_parent m = Some p -> mapped ls p;
  lv_refs l rl r : heap ls !! l = Some rl -> r ∈ l_references rl -> (r < nextRef ls)%nat /\ mapped ls l;
  lv_uniq l rl l' rl' r : heap ls !! l = Some rl -> heap ls !! l' = Some rl' ->
    r ∈ l_references rl -> r ∈ l_references rl' -> l = l'
}.

(** Every layer is held by someone. *)
Definition no_garbage (ls : layerStore) : Prop :=
  forall l rl, mapped ls l -> heap ls !! l = Some rl -> 0 < l_referenceCount rl.

Lemma linv_perm ext ext' ls : ext ≡ₚ ext' -> linv ext ls -> linv ext' ls.
Proof.
  intros Hp []. constructor; try done.
  - intros l rl Hm Hh. rewrite (lv_count0 l rl Hm Hh). unfold holders. by rewrite Hp.
  - intros p. rewrite <- Hp. apply lv_ext0.
Qed.

Lemma mapped_heap ext ls l : linv ext ls -> mapped ls l -> exists rl, heap ls !! l = Some rl.
Proof. intros Hi (c&Hc). destruct (lv_map _ _ Hi c l Hc) as (rl&?&_). eauto. Qed.

Lemma mapped_chain ext ls l rl :
  linv ext ls -> mapped ls l -> heap ls !! l = Some rl -> layerMap ls !! l_chainID rl = Some l.
Proof.
  intros Hi (c&Hc) Hrl. destruct (lv_map _ _ Hi c l Hc) as (rl'&?&<-). by simplify_eq.
Qed.

Lemma holders_nonneg ext ls l : 0 <= holders ext ls l.
Proof.
  unfold holders, children, mountsOn.
  pose proof (count_nonneg (fun x => parentOf (heap ls) x = Some l) (values (layerMap ls))).
  pose proof (count_nonneg (fun m => m_parent m = Some l) (values (mounts ls))).
  pose proof (count_nonneg (fun x => x = l) (ext ++ leaked ls)). lia.
Qed.

(** *** Changing one layer: its count and references, while the holds change to match *)

Lemma parentOf_set h l rl rl' x :
  h !! l = Some rl -> l_parent rl' = l_parent rl -> parentOf (<[l := rl']> h) x = parentOf h x.
Proof.
  intros Hl Hp. unfold parentOf. destruct (decide (x = l)) as [->|].
  - rewrite lookup_insert_eq, Hl. simpl. done.
  - by rewrite lookup_insert_ne.
Qed.

Lemma holders_set ext l rl rl' x ls :
  heap ls !! l = Some rl -> l_parent rl' = l_parent rl ->
  holders ext (setLayer l rl' ls) x = holders ext ls x.
Proof.
  intros Hl Hp. unfold holders, children, mountsOn. cbn. f_equal. f_equal. apply count_ext.
  intros y _. by rewrite (parentOf_set _ _ rl).
Qed.

Lemma setLayer_inv ext ext' l rl rl' ls nr :
  linv ext ls -> heap ls !! l = Some rl -> l_parent rl' = l_parent rl -> l_chainID rl' = l_chainID rl ->
  (forall x, x ∈ ext' -> x ∈ ext \/ mapped ls x) -> (nextRef ls <= nr)%nat ->
  (forall x, x <> l -> count (fun y => y = x) ext' = count (fun y => y = x) ext) ->
  (mapped ls l -> l_referenceCount rl' - Z.of_nat (size (l_references rl')) -
     count (fun y => y = l) ext' =
     l_referenceCount rl - Z.of_nat (size (l_references rl)) - count (fun y => y = l) ext) ->
  (forall r, r ∈ l_references rl' ->
     r ∈ l_references rl \/ (mapped ls l /\ (nextRef ls <= r < nr)%nat)) ->
  linv ext' (set_nextRef nr (setLayer l rl' ls)).
Proof.
  intros Hi Hl Hp Hc Hext Hnr Hother Hcount Hrefs.
  assert (Hh : forall x, heap (setLayer l rl' ls) !! x = if decide (x = l) then Some rl' else heap ls !! x).
  { intros x. cbn. case_decide; [subst; apply lookup_insert_eq|by apply lookup_insert_ne]. }
  assert (Hpar : forall x, parentOf (heap (setLayer l rl' ls)) x = parentOf (heap ls) x).
  { intros. by apply (parentOf_set _ _ rl). }
  constructor.
  - intros c x Hx. destruct (lv_map _ _ Hi c x Hx) as (rx&Hrx&Ecx).
    change (heap (set_nextRef nr ?s)) with (heap s). rewrite Hh. case_decide as E; [|by exists rx].
    subst x. simplify_eq. by exists rl'.
  - intros x rx. change (heap (set_nextRef nr ?s)) with (heap s). rewrite Hh. case_decide as E.
    + intros [= <-]. subst x. rewrite Hp. by apply (lv_alloc _ _ Hi l rl).
    + apply (lv_alloc _ _ Hi).
  - intros x p Hm. change (heap (set_nextRef nr ?s)) with (heap s). rewrite Hpar.
    by apply (lv_parent _ _ Hi).
  - intros x rx Hm. change (heap (set_nextRef nr ?s)) with (heap s). rewrite Hh.
    change (holders ext' (set_nextRef nr ?s) x) with (holders ext' s x).
    rewrite (holders_set _ _ rl) by done. unfold holders. rewrite count_app.
    case_decide as E.
    + intros [= <-]. subst x. specialize (Hcount Hm).
      pose proof (lv_count _ _ Hi l rl Hm Hl) as H0. unfold holders in H0. rewrite count_app in H0. lia.
    + intros Hx. pose proof (lv_count _ _ Hi x rx Hm Hx) as H0. unfold holders in H0.
      rewrite count_app in H0. rewrite (Hother x E). lia.
  - intros p [Hin|Hin]%elem_of_app.
    + destruct (Hext p Hin) as [Hin'|Hm]; [|done]. apply (lv_ext _ _ Hi). apply elem_of_app. by left.
    + apply (lv_ext _ _ Hi). apply elem_of_app. by right.
  - intros n m p Hm Hpm. by apply (lv_mount _ _ Hi n m p).
  - intros x rx r. change (heap (set_nextRef nr ?s)) with (heap s). rewrite Hh. case_decide as E.
    + intros [= <-] Hr. subst x. destruct (Hrefs r Hr) as [Hr'|[? ?]]; [|cbn; split; [lia|done]].
      destruct (lv_refs _ _ Hi l rl r Hl Hr'). split; [cbn; lia|done].
    + intros Hx Hr. destruct (lv_refs _ _ Hi x rx r Hx Hr). split; [cbn; lia|done].
  - intros x rx y ry r. change (heap (set_nextRef nr ?s)) with (heap s). rewrite !Hh.
    assert (Hold : forall z rz, heap ls !! z = Some rz -> r ∈ l_references rz -> r ∈ l_references rl' -> z = l).
    { intros z rz Hz Hrz Hr. destruct (Hrefs r Hr) as [Hr'|[_ ?]]; [by apply (lv_uniq _ _ Hi z rz l rl r)|].
      destruct (lv_refs _ _ Hi z rz r Hz Hrz). lia. }
    case_decide as E1; case_decide as E2; intros Hx Hy Hrx Hry; simplify_eq; try done.
    + symmetry. by apply (Hold y ry).
    + by apply (Hold x rx).
    + by apply (lv_uniq _ _ Hi x rx y ry r).
Qed.

Lemma set_nextRef_same l rl ls : set_nextRef (nextRef ls) (setLayer l rl ls) = setLayer l rl ls.
Proof. done. Qed.

(** One hold less. *)
Lemma dec_inv ext l rl ls :
  linv (l :: ext) ls -> heap ls !! l = Some rl ->
  linv ext (setLayer l (with_count rl (l_referenceCount rl - 1)) ls).
Proof.
  intros Hi Hl. rewrite <- set_nextRef_same.
  apply (setLayer_inv (l :: ext) ext l rl); try done.
  - intros x Hx. left. by right.
  - intros x Hx. rewrite count_cons. rewrite decide_False by done. lia.
  - intros _. cbn. rewrite count_cons, decide_True by done. lia.
  - intros r Hr. by left.
Qed.

(** One hold more. *)
Lemma inc_inv ext l rl ls :
  linv ext ls -> mapped ls l -> heap ls !! l = Some rl ->
  linv (l :: ext) (setLayer l (with_count rl (l_referenceCount rl + 1)) ls).
Proof.
  intros Hi Hm Hl. rewrite <- set_nextRef_same.
  apply (setLayer_inv ext (l :: ext) l rl); try done.
  - intros x [->|Hx]%elem_of_cons; [by right|by left].
  - intros x Hx. rewrite count_cons. rewrite decide_False by done. lia.
  - intros _. cbn. rewrite count_cons, decide_True by done. lia.
  - intros r Hr. by left.
Qed.

(** A hold becomes a reference of a client, and back. *)
Lemma ref_inv ext l rl ls :
  linv (l :: ext) ls -> heap ls !! l = Some rl ->
  linv ext (set_nextRef (S (nextRef ls))
    (setLayer l (with_references rl ({[nextRef ls]} ∪ l_references rl)) ls)).
Proof.
  intros Hi Hl.
  assert (Hf : nextRef ls ∉ l_references rl).
  { intros Hin. pose proof (lv_refs _ _ Hi l rl _ Hl Hin). lia. }
  apply (setLayer_inv (l :: ext) ext l rl); try done.
  - intros x Hx. left. by right.
  - lia.
  - intros x Hx. rewrite count_cons. rewrite decide_False by done. lia.
  - intros _. cbn. rewrite count_cons, decide_True by done. rewrite size_union by set_solver.
    rewrite size_singleton. lia.
  - intros r [->%elem_of_singleton|Hr]%elem_of_union; [|by left].
    right. split; [apply (lv_ext _ _ Hi); left|lia].
Qed.

Lemma unref_inv ext l rl r ls :
  linv ext ls -> mapped ls l -> heap ls !! l = Some rl -> r ∈ l_references rl ->
  linv (l :: ext) (setLayer l (with_references rl (l_references rl ∖ {[r]})) ls).
Proof.
  intros Hi Hm Hl Hr. rewrite <- set_nextRef_same.
  apply (setLayer_inv ext (l :: ext) l rl); try done.
  - intros x [->|Hx]%elem_of_cons; [by right|by left].
  - intros x Hx. rewrite count_cons. rewrite decide_False by done. lia.
  - intros _. cbn. rewrite count_cons, decide_True by done.
    rewrite size_difference by set_solver. rewrite size_singleton.
    assert (size (l_references rl) <> 0%nat) by (by apply size_non_empty_iff; set_solver). lia.
  - intros r' Hr'. left. set_solver.
Qed.

(** *** Removing a layer that nobody holds: the hold on its parent becomes free *)

Lemma mapped_delete ext ls l rl x :
  linv ext ls -> mapped ls l -> heap ls !! l = Some rl ->
  mapped (set_layerMap (delete (l_chainID rl) (layerMap ls)) ls) x <-> mapped ls x /\ x <> l.
Proof.
  intros Hi Hm Hl. pose proof (mapped_chain _ _ _ _ Hi Hm Hl) as Hc. unfold mapped. cbn. split.
  - intros (c&[Hne Hx]%lookup_delete_Some). split; [by exists c|]. intros ->.
    destruct (lv_map _ _ Hi c l Hx) as (rl'&?&<-). by simplify_eq.
  - intros [(c&Hx) Hne]. exists c. apply lookup_delete_Some. split; [|done]. intros <-. congruence.
Qed.

Lemma unmap_inv ext l rl ls :
  linv ext ls -> mapped ls l -> heap ls !! l = Some rl -> l_referenceCount rl = 0 ->
  linv (hold (l_parent rl) ext) (set_layerMap (delete (l_chainID rl) (layerMap ls)) ls).
Proof.
  intros Hi Hm Hl Hz. pose proof (lv_count _ _ Hi l rl Hm Hl) as Hc. rewrite Hz in Hc.
  pose proof (mapped_chain _ _ _ _ Hi Hm Hl) as Hcl.
  pose proof (count_nonneg (fun x => parentOf (heap ls) x = Some l) (values (layerMap ls))) as N1.
  pose proof (count_nonneg (fun m => m_parent m = Some l) (values (mounts ls))) as N2.
  pose proof (count_nonneg (fun x => x = l) (ext ++ leaked ls)) as N3.
  unfold holders, children, mountsOn in Hc.
  assert (Hnochild : forall x, mapped ls x -> parentOf (heap ls) x <> Some l).
  { intros x Hx Hp. apply (count_zero (fun x => parentOf (heap ls) x = Some l)
      (values (layerMap ls)) x); [lia| |done]. by apply elem_of_values. }
  assert (Hnomount : forall n m, mounts ls !! n = Some m -> m_parent m <> Some l).
  { intros n m Hn Hp. apply (count_zero (fun m => m_parent m = Some l)
      (values (mounts ls)) m); [lia| |done]. apply elem_of_values. eauto. }
  assert (Hnoext : forall x, x ∈ ext ++ leaked ls -> x <> l).
  { intros x Hx ->. by apply (count_zero (fun x => x = l) (ext ++ leaked ls) l) in Hx; [|lia]. }
  assert (Hpar : forall p, l_parent rl = Some p -> mapped ls p /\ p <> l).
  { intros p Hp. split.
    - apply (lv_parent _ _ Hi l); [done|]. unfold parentOf. by rewrite Hl.
    - destruct (lv_alloc _ _ Hi l rl Hl) as [_ Ha]. specialize (Ha p Hp). lia. }
  pose proof (mapped_delete ext ls l rl) as Hmd.
  constructor.
  - intros c x Hx. cbn in Hx. apply lookup_delete_Some in Hx as [_ Hx]. by apply (lv_map _ _ Hi).
  - apply (lv_alloc _ _ Hi).
  - intros x p [Hx Hne]%Hmd Hp; [|done..]. apply Hmd; [done..|].
    split; [by apply (lv_parent _ _ Hi x)|]. intros ->. by apply (Hnochild x).
  - intros x rx [Hx Hne]%Hmd Hrx; [|done..]. rewrite (lv_count _ _ Hi x rx Hx Hrx).
    unfold holders, children, mountsOn. cbn.
    rewrite (count_perm _ _ _ (values_delete (layerMap ls) _ l Hcl)), count_cons.
    assert (Hpl : parentOf (heap ls) l = l_parent rl) by (unfold parentOf; by rewrite Hl).
    rewrite Hpl. destruct (l_parent rl) as [p|]; cbn [hold].
    + rewrite <- app_comm_cons, count_cons.
      destruct (decide (p = x)) as [->|]; [rewrite !decide_True by done; lia|].
      rewrite !decide_False by congruence. lia.
    + rewrite decide_False by done. lia.
  - intros p Hp. apply Hmd; [done..|]. cbn in Hp. destruct (l_parent rl) as [q|]; cbn [hold] in Hp.
    + rewrite <- app_comm_cons in Hp. apply elem_of_cons in Hp as [->|Hp]; [by apply Hpar|].
      split; [by apply (lv_ext _ _ Hi)|by apply Hnoext].
    + split; [by apply (lv_ext _ _ Hi)|by apply Hnoext].
  - intros n m p Hn Hp. apply Hmd; [done..|]. split; [by apply (lv_mount _ _ Hi n m)|].
    intros ->. by apply (Hnomount n m Hn).
  - intros x rx r Hx Hr. destruct (lv_refs _ _ Hi x rx r Hx Hr) as [? ?]. split; [done|].
    apply Hmd; [done..|]. split; [done|]. intros ->. simplify_eq.
    assert (size (l_references rl) <> 0%nat) by (apply size_non_empty_iff; set_solver). lia.
  - apply (lv_uniq _ _ Hi).
Qed.

Lemma leak_inv p ext ls : linv (p :: ext) ls -> linv ext (set_leaked (p :: leaked ls) ls).
Proof.
  intros Hi. assert (Hp : p :: ext ++ leaked ls ≡ₚ ext ++ p :: leaked ls) by apply Permutation_middle.
  constructor; try apply Hi.
  - intros l rl Hm Hl. rewrite (lv_count _ _ Hi l rl Hm Hl). unfold holders, children, mountsOn. cbn.
    by rewrite <- Hp, app_comm_cons.
  - intros q Hq. cbn in Hq. rewrite <- Hp, app_comm_cons in Hq. by apply (lv_ext _ _ Hi).
Qed.

(** *** [releaseLayer] *)

Lemma no_garbage_set l rl rl' ls :
  no_garbage ls -> heap ls !! l = Some rl -> (mapped ls l -> 0 < l_referenceCount rl') ->
  no_garbage (setLayer l rl' ls).
Proof.
  intros Hg Hl Hc x rx Hx. cbn. destruct (decide (x = l)) as [->|].
  - rewrite lookup_insert_eq. intros [= <-]. by apply Hc.
  - rewrite lookup_insert_ne by done. by apply Hg.
Qed.

Lemma releaseLayer_loop_ok del fuel l d removed ext ls :
  linv (l :: ext) ls -> (l < fuel)%nat -> ((0 < d)%nat -> removed <> []) ->
  let '(ls', r) := releaseLayer_loop del fuel l d removed ls in
  linv ext ls' /\ r <> ReleasePanic /\ (no_garbage ls -> no_garbage ls') /\
  mounts ls' = mounts ls /\ nextObj ls' = nextObj ls /\
  (forall x, parentOf (heap ls') x = parentOf (heap ls) x).
Proof.
  revert l d removed ls. induction fuel as [|fuel IH]; intros l d removed ls Hi Hfuel Hd; [lia|].
  assert (Hm : mapped ls l) by (apply (lv_ext _ _ Hi); left).
  destruct (mapped_heap _ _ _ Hi Hm) as [rl Hl]. cbn [releaseLayer_loop]. rewrite Hl.
  pose proof (lv_count _ _ Hi l rl Hm Hl) as Hc. unfold holders in Hc.
  rewrite <- app_comm_cons, count_cons, decide_True in Hc by done.
  assert (H0 : 0 < l_referenceCount rl).
  { unfold children, mountsOn in Hc.
    pose proof (count_nonneg (fun x => parentOf (heap ls) x = Some l) (values (layerMap ls))).
    pose proof (count_nonneg (fun m => m_parent m = Some l) (values (mounts ls))).
    pose proof (count_nonneg (fun x => x = l) (ext ++ leaked ls)). lia. }
  destruct (Z.eqb_spec (l_referenceCount rl) 0); [lia|].
  set (rl1 := with_count rl (l_referenceCount rl - 1)). set (ls1 := setLayer l rl1 ls).
  assert (Hi1 : linv ext ls1) by (by apply dec_inv).
  assert (Hl1 : heap ls1 !! l = Some rl1) by (apply lookup_insert_eq).
  assert (Hp1 : forall x, parentOf (heap ls1) x = parentOf (heap ls) x).
  { intros. by apply (parentOf_set _ _ rl). }
  destruct (Z.eqb_spec (l_referenceCount rl1) 0) as [Hz|Hnz]; cbn [negb].
  2: { split; [done|]. split; [done|]. split; [|done]. intros Hg.
       apply (no_garbage_set l rl); [done..|]. intros _. cbn in *. lia. }
  destruct ((length removed =? 0)%nat && (0 <? d)%nat) eqn:Ed.
  { exfalso. apply andb_true_iff in Ed as [E1%Nat.eqb_eq E2%Nat.ltb_lt].
    apply nil_length_inv in E1. by apply Hd. }
  assert (Hm1 : mapped ls1 l) by done.
  pose proof (lv_count _ _ Hi1 l rl1 Hm1 Hl1) as Hc1. rewrite Hz in Hc1.
  pose proof (holders_nonneg ext ls1 l).
  rewrite bool_decide_eq_false_2.
  2: { intros Hne. apply Hne. apply leibniz_equiv, size_empty_inv. lia. }
  pose proof (unmap_inv ext l rl1 ls1 Hi1 Hm1 Hl1 Hz) as Hi2.
  set (ls2 := set_layerMap _ ls1) in *.
  assert (Hg2 : no_garbage ls -> no_garbage ls2).
  { intros Hg x rx Hx%(mapped_delete ext ls1 l rl1); [|done..]. destruct Hx as [Hx Hne]. cbn.
    rewrite lookup_insert_ne by done. by apply Hg. }
  destruct (del l); cbn [negb].
  - destruct (l_parent rl1) as [p|] eqn:Ep; cbn [hold] in Hi2.
    + assert (Hlt : (p < l)%nat).
      { destruct (lv_alloc _ _ Hi1 l rl1 Hl1) as [_ Ha]. by apply Ha. }
      assert (HIH := IH p (S d) (removed ++ [metadataOf l rl1 ls2]) ls2 Hi2 ltac:(lia)
        ltac:(intros _ E; by apply app_eq_nil in E as [_ ?])).
      destruct (releaseLayer_loop del fuel p (S d) _ ls2) as [ls3 r].
      destruct HIH as (?&?&Hg3&->&->&Hp3). split; [done|]. split; [done|]. split; [auto|].
      split; [done|]. split; [done|]. intros x. by rewrite Hp3.
    + split; [done|]. split; [done|]. split; [auto|]. done.
  - split; [|split; [done|]].
    + destruct (l_parent rl1) as [p|]; cbn [hold] in Hi2; [by apply leak_inv|done].
    + split; [|by destruct (l_parent rl1)]. intros Hg. destruct (l_parent rl1); by apply Hg2.
Qed.

Lemma releaseLayer_ok del l ext ls :
  linv (l :: ext) ls ->
  let '(ls', r) := releaseLayer del l ls in
  linv ext ls' /\ r <> ReleasePanic /\ (no_garbage ls -> no_garbage ls') /\
  mounts ls' = mounts ls /\ nextObj ls' = nextObj ls /\
  (forall x, parentOf (heap ls') x = parentOf (heap ls) x).
Proof. intros Hi. apply releaseLayer_loop_ok; [done|lia|lia]. Qed.

(** ** The operations *)

(** What an operation keeps: the mounts, the parents of the layers and that there is no
    garbage. *)
Record keeps (ls ls' : layerStore) : Prop := {
  k_mounts : mounts ls' = mounts ls;
  k_parents x : is_Some (heap ls !! x) -> parentOf (heap ls') x = parentOf (heap ls) x;
  k_heap x : is_Some (heap ls !! x) -> is_Some (heap ls' !! x);
  k_garbage : no_garbage ls -> no_garbage ls'
}.

#[global] Instance keeps_preorder : PreOrder keeps.
Proof.
  split; [by constructor|]. intros a b c [] []. constructor; eauto; try congruence.
  intros x Hx. rewrite k_parents1, k_parents0; eauto.
Qed.

Lemma keeps_set l rl rl' nr ls :
  heap ls !! l = Some rl -> l_parent rl' = l_parent rl ->
  (no_garbage ls -> mapped ls l -> 0 < l_referenceCount rl') ->
  keeps ls (set_nextRef nr (setLayer l rl' ls)).
Proof.
  intros Hl Hp Hc. constructor.
  - done.
  - intros x _. by apply (parentOf_set _ _ rl).
  - intros x Hx. cbn. destruct (decide (x = l)) as [->|]; [by rewrite lookup_insert_eq|].
    by rewrite lookup_insert_ne.
  - intros Hg x rx Hx Hrx. by apply (no_garbage_set l rl rl' ls Hg Hl) in Hrx; [|apply Hc|].
Qed.

Lemma get_next c ls : nextRef (get c ls).1 = nextRef ls /\ nextObj (get c ls).1 = nextObj ls.
Proof. unfold get. destruct (layerMap ls !! c) as [x|]; [|done]. by destruct (heap ls !! x). Qed.

Lemma get_ok c ext ls :
  linv ext ls ->
  let '(ls', r) := get c ls in
  match r with
  | Some l => layerMap ls !! c = Some l /\ linv (l :: ext) ls' /\ keeps ls ls' /\ layerMap ls' = layerMap ls
  | None => ls' = ls /\ layerMap ls !! c = None
  end.
Proof.
  intros Hi. unfold get. destruct (layerMap ls !! c) as [l|] eqn:El; [|done].
  destruct (lv_map _ _ Hi c l El) as (rl&Hl&Hc). rewrite Hl.
  assert (Hm : mapped ls l) by (by exists c).
  split; [done|]. split; [by apply inc_inv|]. split; [|done].
  rewrite <- set_nextRef_same. apply (keeps_set l rl); [done..|].
  intros Hg _. specialize (Hg l rl Hm Hl). cbn. lia.
Qed.

Lemma getReference_ok l ext ls :
  linv (l :: ext) ls ->
  let '(ls', h) := getReference l ls in
  h = LRef (nextRef ls) l /\ linv ext ls' /\ keeps ls ls' /\ layerMap ls' = layerMap ls /\
  nextRef ls' = S (nextRef ls) /\ nextObj ls' = nextObj ls.
Proof.
  intros Hi. unfold getReference.
  assert (Hm : mapped ls l) by (apply (lv_ext _ _ Hi); left).
  destruct (mapped_heap _ _ _ Hi Hm) as [rl Hl]. rewrite Hl.
  split; [done|]. split; [by apply ref_inv|]. split; [|done].
  apply (keeps_set l rl); [done..|]. intros Hg _. by apply (Hg l rl).
Qed.

Lemma Get_ok c ext ls :
  linv ext ls ->
  let '(ls', r) := Get c ls in
  linv ext ls' /\ keeps ls ls' /\ layerMap ls' = layerMap ls /\
  (forall h, r = inl h <-> exists l, layerMap ls !! c = Some l /\ h = LRef (nextRef ls) l) /\
  (layerMap ls !! c = None <-> r = inr ErrLayerDoesNotExist).
Proof.
  intros Hi. unfold Get. pose proof (get_ok c ext ls Hi) as Hg.
  destruct (get_next c ls) as [Hnr _].
  destruct (get c ls) as [ls1 [l|]].
  - destruct Hg as (Hc&Hi1&Hk1&Hm1). pose proof (getReference_ok l ext ls1 Hi1) as Hr.
    destruct (getReference l ls1) as [ls2 h]. destruct Hr as (->&Hi2&Hk2&Hm2&_).
    split; [done|]. split; [by etransitivity|]. split; [congruence|]. cbn in Hnr. rewrite Hnr, Hc. split.
    + intros h. split; [intros [= <-]; eauto|]. by intros (l'&[= ->]&->).
    + done.
  - destruct Hg as [-> Hc]. split; [done|]. split; [done|]. split; [done|]. rewrite Hc. split.
    + intros h. split; [done|]. by intros (l&?&_).
    + done.
Qed.

Lemma releaseLayer_heap del fuel l d removed ls x :
  is_Some (heap ls !! x) -> is_Some (heap (releaseLayer_loop del fuel l d removed ls).1 !! x).
Proof.
  revert l d removed ls. induction fuel as [|fuel IH]; intros l d removed ls Hx; [done|].
  cbn [releaseLayer_loop]. destruct (heap ls !! l) as [rl|] eqn:Hl; [|done].
  assert (Hset : forall rl', is_Some (heap (setLayer l rl' ls) !! x)).
  { intros rl'. cbn. destruct (decide (x = l)) as [->|]; [by rewrite lookup_insert_eq|].
    by rewrite lookup_insert_ne. }
  destruct (_ =? 0); [done|]. destruct (negb (_ =? 0)); [by apply Hset|].
  destruct (_ && _); [by apply Hset|]. case_bool_decide; [by apply Hset|].
  destruct (negb (del l)); [by destruct (l_parent _); apply Hset|].
  destruct (l_parent _); [|by apply Hset]. by apply IH, Hset.
Qed.

Lemma keeps_releaseLayer del l ext ls :
  linv (l :: ext) ls -> keeps ls (releaseLayer del l ls).1.
Proof.
  intros Hi. pose proof (releaseLayer_ok del l ext ls Hi) as H.
  pose proof (releaseLayer_heap del (S l) l 0 [] ls) as Hh. fold (releaseLayer del l ls) in Hh.
  destruct (releaseLayer del l ls) as [ls' r]. destruct H as (_&_&?&?&_&Hp). by constructor; [..|apply Hh|].
Qed.

(** [Release] never panics; it has an effect exactly on a reference that is held. *)
Lemma Release_ok del h ext ls :
  linv ext ls ->
  let '(ls', r) := Release del h ls in
  linv ext ls' /\ keeps ls ls' /\ r <> ReleasePanic /\ (nextObj ls' = nextObj ls).
Proof.
  intros Hi. unfold Release. destruct (heap ls !! locOf h) as [hl|]; [|done].
  destruct (layerMap ls !! l_chainID hl) as [l|] eqn:El; [|done].
  assert (Hm : mapped ls l) by (by exists (l_chainID hl)).
  destruct (heap ls !! l) as [rl|] eqn:Hl; [|done].
  destruct (hasReference h rl) eqn:Eh; cbn [negb]; [|done].
  destruct h as [r x|x]; cbn [hasReference] in Eh; [|done]. apply bool_decide_eq_true in Eh.
  cbn [deleteReference]. pose proof (unref_inv ext l rl r ls Hi Hm Hl Eh) as Hi1.
  pose proof (releaseLayer_ok del l ext _ Hi1) as H. pose proof (keeps_releaseLayer del l ext _ Hi1) as Hk.
  destruct (releaseLayer del l _) as [ls' res]. destruct H as (?&?&?&?&?&?).
  split; [done|]. split; [|done]. etransitivity; [|exact Hk]. rewrite <- set_nextRef_same.
  apply (keeps_set l rl); [done..|]. intros Hg _. by apply (Hg l rl).
Qed.

(** *** Adding a layer: the hold of the call on the parent is the new layer's *)

Definition addLayer (rl : roLayer) (ls : layerStore) : layerStore :=
  LayerStore (<[nextObj ls := rl]> (heap ls)) (<[l_chainID rl := nextObj ls]> (layerMap ls))
    (mounts ls) (nextRef ls) (S (nextObj ls)) (leaked ls).

Section Add.
Context (ext : list nat) (ls : layerStore) (rl : roLayer).
Context (Hi : linv ext ls) (Hfree : layerMap ls !! l_chainID rl = None).

Lemma add_fresh x : mapped ls x -> x <> nextObj ls.
Proof.
  intros Hx ->. destruct (mapped_heap _ _ _ Hi Hx) as [rx Hrx].
  destruct (lv_alloc _ _ Hi _ rx Hrx). lia.
Qed.

Lemma add_mapped x : mapped (addLayer rl ls) x <-> x = nextObj ls \/ mapped ls x.
Proof.
  unfold mapped. cbn. split.
  - intros (c&[[<- <-]|[_ Hc]]%lookup_insert_Some); [by left|right; eauto].
  - intros [->|(c&Hc)]; [exists (l_chainID rl); apply lookup_insert_eq|]. exists c.
    rewrite lookup_insert_ne; congruence.
Qed.

Lemma add_parent x : mapped ls x -> parentOf (heap (addLayer rl ls)) x = parentOf (heap ls) x.
Proof. intros Hx%add_fresh. unfold parentOf. cbn. by rewrite lookup_insert_ne. Qed.

Lemma add_parent_new : parentOf (heap (addLayer rl ls)) (nextObj ls) = l_parent rl.
Proof. unfold parentOf. cbn. by rewrite lookup_insert_eq. Qed.

Lemma add_children x :
  children (addLayer rl ls) x =
  (if decide (l_parent rl = Some x) then 1 else 0) + children ls x.
Proof.
  unfold children. cbn [addLayer layerMap].
  rewrite (count_perm _ _ _ (values_insert _ _ _ Hfree)), count_cons, add_parent_new.
  rewrite (count_ext (fun y => parentOf (heap (addLayer rl ls)) y = Some x)
             (fun y => parentOf (heap ls) y = Some x)).
  - by destruct (decide (l_parent rl = Some x)).
  - intros y Hy%elem_of_values. by rewrite add_parent.
Qed.

Lemma holders_unmapped x : ~ mapped ls x -> holders ext ls x = 0.
Proof.
  intros Hx. unfold holders, children, mountsOn.
  destruct (decide (0 < count (fun y => parentOf (heap ls) y = Some x) (values (layerMap ls)))) as [Hp|].
  { apply count_exists in Hp as (y&Hy%elem_of_values&Hyp). destruct Hx. by eapply lv_parent. }
  destruct (decide (0 < count (fun m => m_parent m = Some x) (values (mounts ls)))) as [Hp|].
  { apply count_exists in Hp as (m&(nm&Hnm)%elem_of_values&Hyp). destruct Hx. by eapply lv_mount. }
  destruct (decide (0 < count (fun y => y = x) (ext ++ leaked ls))) as [Hp|].
  { apply count_exists in Hp as (y&Hy&->). destruct Hx. by apply (lv_ext _ _ Hi). }
  pose proof (count_nonneg (fun y => parentOf (heap ls) y = Some x) (values (layerMap ls))).
  pose proof (count_nonneg (fun m => m_parent m = Some x) (values (mounts ls))).
  pose proof (count_nonneg (fun y => y = x) (ext ++ leaked ls)). lia.
Qed.
End Add.

Lemma count_hold (p : option nat) x ext k :
  count (fun y => y = x) (hold p ext ++ k) =
  (if decide (p = Some x) then 1 else 0) + count (fun y => y = x) (ext ++ k).
Proof.
  destruct p as [q|]; cbn [hold]; [|done]. rewrite <- app_comm_cons, count_cons. repeat case_decide; congruence || lia.
Qed.

Lemma add_inv ext rl ls :
  linv (hold (l_parent rl) ext) ls -> layerMap ls !! l_chainID rl = None ->
  l_referenceCount rl = 1 -> l_references rl = ∅ ->
  linv (nextObj ls :: ext) (addLayer rl ls).
Proof.
  intros Hi Hfree Hone Hnone.
  pose proof (add_mapped ls rl Hfree) as Hmap. pose proof (add_fresh _ ls Hi) as Hfresh.
  pose proof (add_parent _ ls rl Hi) as Hpar. pose proof (add_children _ ls rl Hi Hfree) as Hch.
  assert (Hin : forall x, x ∈ hold (l_parent rl) ext ++ leaked ls <->
                  l_parent rl = Some x \/ x ∈ ext ++ leaked ls).
  { intros x. destruct (l_parent rl) as [q|]; cbn [hold]; set_solver. }
  assert (Hp : forall p, l_parent rl = Some p -> mapped ls p).
  { intros p Ep. apply (lv_ext _ _ Hi). apply Hin. by left. }
  assert (Hlook : forall x rx, heap (addLayer rl ls) !! x = Some rx ->
    (x = nextObj ls /\ rx = rl) \/ heap ls !! x = Some rx).
  { intros x rx. cbn. intros [[<- <-]|[_ ?]]%lookup_insert_Some; auto. }
  constructor.
  - intros c x. cbn. intros [[<- <-]|[_ Hc]]%lookup_insert_Some.
    + rewrite lookup_insert_eq. eauto.
    + destruct (lv_map _ _ Hi c x Hc) as (rx&Hrx&?). exists rx. split; [|done].
      rewrite lookup_insert_ne; [done|]. apply not_eq_sym, Hfresh. by exists c.
  - intros x rx [[-> ->]|Hx]%Hlook; cbn.
    + split; [lia|]. intros p Ep. destruct (mapped_heap _ _ _ Hi (Hp p Ep)) as [pl Hpl].
      by apply (lv_alloc _ _ Hi p pl).
    + destruct (lv_alloc _ _ Hi x rx Hx). split; [lia|done].
  - intros x p [->|Hx]%Hmap Hxp; apply Hmap; right.
    + rewrite add_parent_new in Hxp. by apply Hp.
    + rewrite Hpar in Hxp by done. by apply (lv_parent _ _ Hi x).
  - intros x rx Hx Hrx. unfold holders. rewrite Hch, <- app_comm_cons, count_cons.
    change (mountsOn (addLayer rl ls) x) with (mountsOn ls x). cbn [addLayer leaked].
    apply Hmap in Hx as [->|Hx].
    + assert (Hun : ~ mapped ls (nextObj ls)) by (intros ?%Hfresh; done).
      pose proof (holders_unmapped _ _ Hi _ Hun) as H0. unfold holders in H0.
      rewrite count_hold in H0.
      rewrite decide_False in H0 |- * by (intros Ep; by apply Hun, Hp).
      apply Hlook in Hrx as [[_ ->]|Hrx]; [|destruct (lv_alloc _ _ Hi _ _ Hrx); lia].
      rewrite Hone, Hnone, size_empty, decide_True by done. lia.
    + assert (Hne := Hfresh x Hx). apply Hlook in Hrx as [[? _]|Hrx]; [done|].
      rewrite (lv_count _ _ Hi x rx Hx Hrx). unfold holders.
      rewrite count_hold.
      rewrite (decide_False (P := nextObj ls = x)) by done. lia.
  - intros x Hx. apply Hmap. rewrite <- app_comm_cons in Hx. apply elem_of_cons in Hx as [->|Hx].
    + by left.
    + right. apply (lv_ext _ _ Hi). apply Hin. by right.
  - intros n m p Hn Ep. apply Hmap. right. by apply (lv_mount _ _ Hi n m).
  - intros x rx r [[-> ->]|Hx]%Hlook Hr; [by rewrite Hnone in Hr; apply not_elem_of_empty in Hr|].
    destruct (lv_refs _ _ Hi x rx r Hx Hr). split; [done|]. apply Hmap. by right.
  - intros x rx y ry r [[-> ->]|Hx]%Hlook [[-> ->]|Hy]%Hlook Hrx Hry;
      try (by rewrite Hnone in Hrx; apply not_elem_of_empty in Hrx);
      try (by rewrite Hnone in Hry; apply not_elem_of_empty in Hry).
    by apply (lv_uniq _ _ Hi x rx y ry r).
Qed.

Lemma keeps_add rl ls ext :
  linv ext ls -> layerMap ls !! l_chainID rl = None -> 0 < l_referenceCount rl ->
  keeps ls (addLayer rl ls).
Proof.
  intros Hi Hfree Hc.
  assert (Hne : forall x, is_Some (heap ls !! x) -> nextObj ls <> x).
  { intros x [rx Hx]. destruct (lv_alloc _ _ Hi x rx Hx). lia. }
  constructor.
  - done.
  - intros x Hx. unfold parentOf. cbn. rewrite lookup_insert_ne by auto. done.
  - intros x Hx. cbn. rewrite lookup_insert_ne by auto. done.
  - intros Hg x rx [->|Hx]%(add_mapped ls rl Hfree); cbn.
    + rewrite lookup_insert_eq. by intros [= <-].
    + rewrite lookup_insert_ne by (apply Hne, (mapped_heap _ _ _ Hi Hx)). by apply Hg.
Qed.
