(* ===== verification/LayerStoreSystem.v ===== *)
(** * The layer store as a system of interleaved calls

    [preserved]: each section of [Register], [CreateRWLayer], [GetRWLayer], [ReleaseRWLayer],
    [Get] and [Release] keeps the invariant of the store with the holds of the running calls,
    the absence of unused layers and the bound on the length of chains. *)

From S2P Require Import Prelude Counting LayerStore LayerStoreSpec.
Open Scope string_scope.
Open Scope list_scope.
Open Scope Z_scope.

(** ** Depth *)

Lemma depth_keeps ext ls ls' fuel l :
  linv ext ls -> keeps ls ls' -> mapped ls l ->
  depth_ fuel l (heap ls') = depth_ fuel l (heap ls).
Proof.
  intros Hi Hk. revert l. induction fuel as [|fuel IH]; intros l Hm; [done|].
  destruct (mapped_heap _ _ _ Hi Hm) as [rl Hl].
  destruct (k_heap _ _ Hk l ltac:(eauto)) as [rl' Hl'].
  pose proof (k_parents _ _ Hk l ltac:(eauto)) as Hp. unfold parentOf in Hp.
  rewrite Hl, Hl' in Hp. cbn in Hp. cbn [depth_]. rewrite Hl, Hl', Hp.
  destruct (l_parent rl) as [p|] eqn:Ep; [|done]. f_equal. apply IH.
  apply (lv_parent _ _ Hi l); [done|]. unfold parentOf. by rewrite Hl.
Qed.

Lemma depth_fuel ext ls l f g :
  linv ext ls -> mapped ls l -> (l < f)%nat -> (l < g)%nat ->
  depth_ f l (heap ls) = depth_ g l (heap ls).
Proof.
  intros Hi. revert l g. induction f as [|f IH]; intros l g Hm Hf Hg; [lia|].
  destruct g as [|g]; [lia|]. destruct (mapped_heap _ _ _ Hi Hm) as [rl Hl].
  cbn [depth_]. rewrite Hl. destruct (l_parent rl) as [p|] eqn:Ep; [|done]. f_equal.
  destruct (lv_alloc _ _ Hi l rl Hl) as [_ Ha]. specialize (Ha p Ep). apply IH; [|lia..].
  apply (lv_parent _ _ Hi l); [done|]. unfold parentOf. by rewrite Hl.
Qed.

Lemma depth_parent ext ls l p :
  linv ext ls -> mapped ls l -> parentOf (heap ls) l = Some p -> depth l ls = S (depth p ls).
Proof.
  intros Hi Hm Hp. assert (Hmp : mapped ls p) by (by apply (lv_parent _ _ Hi l)).
  destruct (mapped_heap _ _ _ Hi Hm) as [rl Hl]. unfold parentOf in Hp. rewrite Hl in Hp. cbn in Hp.
  destruct (lv_alloc _ _ Hi l rl Hl) as [_ Ha]. specialize (Ha p Hp).
  unfold depth at 1. cbn [depth_]. rewrite Hl, Hp. f_equal. unfold depth. apply (depth_fuel ext); [done..|lia|lia].
Qed.

(** Chains are no longer than the bound. *)
Definition bounded (ls : layerStore) : Prop := forall l, mapped ls l -> (depth l ls <= maxLayerDepth)%nat.

Lemma bounded_keeps ext ls ls' :
  linv ext ls -> keeps ls ls' -> (forall x, mapped ls' x -> mapped ls x) -> bounded ls -> bounded ls'.
Proof.
  intros Hi Hk Hm Hb l Hl%Hm. unfold depth. rewrite (depth_keeps ext ls); [by apply Hb|done..].
Qed.

(** ** Register *)

Section Register.
Context (ChainID : string -> string -> string).

Lemma register_start_ok parent ext ls ls' r :
  linv ext ls -> register_start parent ls = (ls', r) ->
  linv (hold (match r with inl p => p | inr (_, p) => p end) ext) ls' /\ keeps ls ls' /\
  layerMap ls' = layerMap ls /\
  match r with
  | inl p => forall q, p = Some q -> (depth q ls' < maxLayerDepth)%nat /\ layerMap ls !! parent = Some q
  | inr (e, p) => e = ErrLayerDoesNotExist /\ layerMap ls !! parent = None \/
                  e = ErrMaxDepthExceeded /\ is_Some p
  end.
Proof.
  intros Hi. unfold register_start. case_bool_decide as Ep; [by intros [= <- <-]|].
  pose proof (get_ok parent ext ls Hi) as Hg. destruct (get parent ls) as [ls1 [q|]].
  - destruct Hg as (Hq&Hi1&Hk&Hm). destruct (Nat.leb_spec maxLayerDepth (depth q ls1)); intros [= <- <-].
    + split; [done|]. split; [done|]. split; [done|]. right. eauto.
    + split; [done|]. split; [done|]. split; [done|]. by intros ? [= <-].
  - destruct Hg as [-> Hn]. intros [= <- <-]. split; [done|]. split; [done|]. split; [done|]. by left.
Qed.

Lemma chainIDOf_keeps p d ls ls' :
  (forall q ql, p = Some q -> heap ls !! q = Some ql ->
     exists ql', heap ls' !! q = Some ql' /\ l_chainID ql' = l_chainID ql) ->
  (forall q, p = Some q -> is_Some (heap ls !! q)) ->
  chainIDOf ChainID p d ls' = chainIDOf ChainID p d ls.
Proof.
  intros Hq Hs. destruct p as [q|]; [|done]. cbn. destruct (Hs q eq_refl) as [ql Hql].
  destruct (Hq q ql eq_refl Hql) as (ql'&->&->). by rewrite Hql.
Qed.

(** The result of the last section of [Register]: either the layer that exists, or a new one. *)
Lemma register_finish_ok p d cache sz ok ext ls ls' r again :
  linv (hold p ext) ls ->
  register_finish ChainID p d cache sz ok ls = (ls', r, again) ->
  linv (if again then hold p ext else ext) ls' /\ keeps ls ls' /\
  match r with
  | inl h => exists l, h = LRef (nextRef ls) l /\ layerMap ls' !! chainIDOf ChainID p d ls = Some l /\
      nextRef ls' = S (nextRef ls) /\
      if again then layerMap ls' = layerMap ls /\ nextObj ls' = nextObj ls
      else ok = true /\ l = nextObj ls /\ layerMap ls !! chainIDOf ChainID p d ls = None /\
           parentOf (heap ls') l = p /\ layerMap ls' = <[chainIDOf ChainID p d ls := l]> (layerMap ls)
  | inr e => e = ErrDriver /\ again = true /\ ls' = ls /\ ok = false /\
      layerMap ls !! chainIDOf ChainID p d ls = None
  end.
Proof.
  intros Hi. unfold register_finish. set (c := chainIDOf ChainID p d ls).
  pose proof (get_ok c (hold p ext) ls Hi) as Hg.
  destruct (get_next c ls) as [Hnr Hno].
  destruct (get c ls) as [ls1 [x|]]; cbn [fst] in Hnr, Hno.
  - destruct Hg as (Hc&Hi1&Hk1&Hm1). pose proof (getReference_ok x _ ls1 Hi1) as Hr.
    destruct (getReference x ls1) as [ls2 h].
    destruct Hr as (->&Hi2&Hk2&Hm2&Hr2&Ho2). intros [= <- <- <-].
    split; [done|]. split; [by etransitivity|]. exists x. rewrite Hr2, Ho2, Hnr. split; [done|].
    rewrite Hm2, Hm1. done.
  - destruct Hg as [-> Hc]. destruct ok; cbn [negb]; [|by intros [= <- <- <-]].
    set (rl := RoLayer c d p cache sz 1 ∅). change (LayerStore _ _ _ _ _ _) with (addLayer rl ls).
    pose proof (add_inv ext rl ls Hi Hc eq_refl eq_refl) as Hi1.
    pose proof (keeps_add rl ls _ Hi Hc ltac:(done)) as Hk1.
    pose proof (getReference_ok (nextObj ls) ext (addLayer rl ls) Hi1) as Hr.
    destruct (getReference (nextObj ls) (addLayer rl ls)) as [ls2 h].
    destruct Hr as (->&Hi2&Hk2&Hm2&Hr2&_). intros [= <- <- <-].
    split; [done|]. split; [by etransitivity|]. exists (nextObj ls). split; [done|].
    rewrite Hm2, Hr2. cbn [addLayer layerMap l_chainID rl]. rewrite lookup_insert_eq.
    do 5 (split; [done|]). split; [|done].
    rewrite (k_parents _ _ Hk2) by (cbn; rewrite lookup_insert_eq; eauto). apply add_parent_new.
Qed.

Lemma register_finish_bounded p d cache sz ok ext ls ls' r again :
  linv (hold p ext) ls -> (forall q, p = Some q -> (depth q ls < maxLayerDepth)%nat) ->
  register_finish ChainID p d cache sz ok ls = (ls', r, again) -> bounded ls -> bounded ls'.
Proof.
  intros Hi Hd Hr Hb. destruct (register_finish_ok _ _ _ _ _ _ _ _ _ _ Hi Hr) as (Hi'&Hk&Hres).
  destruct r as [h|e]; [|by destruct Hres as (_&_&->&_)]. destruct Hres as (l&_&Hl&_&Hres).
  destruct again; [apply (bounded_keeps _ ls ls' Hi Hk); [|done]; unfold mapped; by destruct Hres as [-> _]|].
  destruct Hres as (_&El&Hn&Hp&Hm). intros x (c&Hx). rewrite Hm in Hx.
  apply lookup_insert_Some in Hx as [[_ <-]|[_ Hx]].
  - assert (Hml : mapped ls' l) by (eexists; exact Hl).
    destruct p as [q|].
    + rewrite (depth_parent _ ls' l q Hi' Hml Hp). assert (Hq : mapped ls q) by (apply (lv_ext _ _ Hi); left).
      unfold depth at 1. rewrite (depth_keeps _ ls ls' (S q) q Hi Hk Hq). specialize (Hd q eq_refl).
      unfold depth in Hd. lia.
    + destruct (mapped_heap _ _ _ Hi' Hml) as [rl Hrl]. unfold parentOf in Hp. rewrite Hrl in Hp.
      cbn in Hp. unfold depth. cbn [depth_]. rewrite Hrl, Hp. unfold maxLayerDepth. lia.
  - unfold depth. rewrite (depth_keeps _ ls ls' _ _ Hi Hk); [apply Hb|]; by exists c.
Qed.
End Register.

(** ** Release removes layers and adds none *)

Lemma releaseLayer_loop_map del fuel l d removed ls c x :
  layerMap (releaseLayer_loop del fuel l d removed ls).1 !! c = Some x -> layerMap ls !! c = Some x.
Proof.
  revert l d removed ls. induction fuel as [|fuel IH]; intros l d removed ls; [done|].
  cbn [releaseLayer_loop]. destruct (heap ls !! l) as [rl|]; [|done].
  destruct (_ =? 0); [done|]. destruct (negb (_ =? 0)); [done|]. destruct (_ && _); [done|].
  case_bool_decide; [done|].
  assert (Hdel : forall k, delete k (layerMap ls) !! c = Some x -> layerMap ls !! c = Some x).
  { intros k Hk. by apply lookup_delete_Some in Hk as [_ ?]. }
  destruct (negb (del l)); [destruct (l_parent _); apply Hdel|].
  destruct (l_parent _); [|apply Hdel]. intros Hx%IH. cbn in Hx. by apply Hdel in Hx.
Qed.

Lemma releaseLayer_map del l ls c x :
  layerMap (releaseLayer del l ls).1 !! c = Some x -> layerMap ls !! c = Some x.
Proof. apply releaseLayer_loop_map. Qed.

Lemma Release_map del h ls c x :
  layerMap (Release del h ls).1 !! c = Some x -> layerMap ls !! c = Some x.
Proof.
  unfold Release. destruct (heap ls !! locOf h) as [hl|]; [|done].
  destruct (layerMap ls !! l_chainID hl) as [l|]; [|done]. destruct (heap ls !! l) as [rl|]; [|done].
  destruct (negb _); [done|]. intros Hx%releaseLayer_map. done.
Qed.

(** ** Read-write layers *)

Lemma set_mounts_inv ext ext' ms nr ls :
  linv ext ls -> (nextRef ls <= nr)%nat ->
  (forall x, count (fun m => m_parent m = Some x) (values ms) + count (fun y => y = x) ext' =
             mountsOn ls x + count (fun y => y = x) ext) ->
  (forall x, x ∈ ext' -> mapped ls x) ->
  (forall n m p, ms !! n = Some m -> m_parent m = Some p -> mapped ls p) ->
  linv ext' (set_nextRef nr (set_mounts ms ls)).
Proof.
  intros Hi Hnr Hc He Hm. constructor; try apply Hi; try done.
  - intros l rl Hl Hrl. rewrite (lv_count _ _ Hi l rl Hl Hrl). unfold holders. rewrite !count_app.
    unfold mountsOn at 2. specialize (Hc l).
    change (children (set_nextRef nr (set_mounts ms ls)) l) with (children ls l). cbn. lia.
  - intros p [Hp|Hp]%elem_of_app; [by apply He|]. apply (lv_ext _ _ Hi), elem_of_app. by right.
  - intros l rl r Hl Hr. destruct (lv_refs _ _ Hi l rl r Hl Hr). split; [cbn; lia|done].
Qed.

Lemma createRW_start_ok name parent ext ls ls' r :
  linv ext ls -> createRW_start name parent ls = (ls', r) ->
  keeps ls ls' /\ layerMap ls' = layerMap ls /\
  match r with
  | inl p => linv (hold p ext) ls' /\ mounts ls !! name = None
  | inr e => ls' = ls /\ (e = ErrMountNameConflict /\ is_Some (mounts ls !! name) \/
                          e = ErrLayerDoesNotExist /\ layerMap ls !! parent = None)
  end.
Proof.
  intros Hi. unfold createRW_start. destruct (mounts ls !! name) as [m|] eqn:Em.
  { intros [= <- <-]. split; [done|]. split; [done|]. split; [done|]. left. eauto. }
  case_bool_decide as Ep; [by intros [= <- <-]|].
  pose proof (get_ok parent ext ls Hi) as Hg. destruct (get parent ls) as [ls1 [q|]].
  - destruct Hg as (Hq&Hi1&Hk&Hm). intros [= <- <-]. done.
  - destruct Hg as [-> Hn]. intros [= <- <-]. split; [done|]. split; [done|]. split; [done|]. by right.
Qed.

Lemma mount_add_inv name m nr ext ls :
  linv (hold (m_parent m) ext) ls -> mounts ls !! name = None -> (nextRef ls <= nr)%nat ->
  linv ext (set_nextRef nr (set_mounts (<[name := m]> (mounts ls)) ls)).
Proof.
  intros Hi Hn Hnr. apply (set_mounts_inv (hold (m_parent m) ext)); [done|done|..].
  - intros x. rewrite (count_perm _ _ _ (values_insert _ _ _ Hn)), count_cons.
    pose proof (count_hold (m_parent m) x ext []) as Hh. rewrite !app_nil_r in Hh. rewrite Hh.
    unfold mountsOn. lia.
  - intros x Hx. apply (lv_ext _ _ Hi), elem_of_app. left. destruct (m_parent m); cbn [hold]; [by right|done].
  - intros n k q [[<- <-]|[_ Hk]]%lookup_insert_Some Hq; [|by apply (lv_mount _ _ Hi n k)].
    rewrite Hq in Hi. apply (lv_ext _ _ Hi). left.
Qed.

Lemma createRW_finish_ok name mountID initID p ext ls :
  linv (hold p ext) ls -> mounts ls !! name = None ->
  linv ext (createRW_finish name mountID initID p ls).1.
Proof. intros Hi Hn. apply mount_add_inv; [done|done|lia]. Qed.

Lemma mount_update_inv name m m' nr ext ls :
  linv ext ls -> (nextRef ls <= nr)%nat -> mounts ls !! name = Some m -> m_parent m' = m_parent m ->
  linv ext (set_nextRef nr (set_mounts (<[name := m']> (mounts ls)) ls)).
Proof.
  intros Hi Hnr Hm Hp. apply (set_mounts_inv ext); [done..| | |].
  - intros x. unfold mountsOn.
    rewrite (count_perm _ _ _ (values_update _ _ _ m' Hm)), (count_perm _ _ _ (values_delete _ _ _ Hm)).
    rewrite !count_cons, Hp. lia.
  - intros x Hx. apply (lv_ext _ _ Hi), elem_of_app. by left.
  - intros n k q [[<- <-]|[_ Hk]]%lookup_insert_Some Hq; [|by apply (lv_mount _ _ Hi n k)].
    rewrite Hp in Hq. by apply (lv_mount _ _ Hi name m).
Qed.

Lemma GetRWLayer_ok name ext ls : linv ext ls -> linv ext (GetRWLayer name ls).1.
Proof.
  intros Hi. unfold GetRWLayer. destruct (mounts ls !! name) as [m|] eqn:Em; [|done].
  apply (mount_update_inv name m); [done|lia|done|done].
Qed.

Lemma releaseRW_start_ok name ref ok ext ls ls' r :
  linv ext ls -> releaseRW_start name ref ok ls = (ls', r) ->
  heap ls' = heap ls /\ layerMap ls' = layerMap ls /\
  (forall n, mounts ls !! n = None -> mounts ls' !! n = None) /\
  linv (match r with inl p => hold p ext | inr _ => ext end) ls'.
Proof.
  intros Hi. unfold releaseRW_start. destruct (mounts ls !! name) as [m|] eqn:Em; [|by intros [= <- <-]].
  case_bool_decide; [by intros [= <- <-]|].
  assert (Hup : forall m', m_parent m' = m_parent m ->
    linv ext (set_mounts (<[name := m']> (mounts ls)) ls) /\
    forall n, mounts ls !! n = None -> <[name := m']> (mounts ls) !! n = None).
  { intros m' Hp. split; [by apply (mount_update_inv name m m' (nextRef ls))|].
    intros n Hn. rewrite lookup_insert_ne; congruence. }
  case_bool_decide; [intros [= <- <-]; split; [done|]; split; [done|]; by apply and_comm, Hup|].
  destruct ok; cbn [negb].
  2: { intros [= <- <-]. split; [done|]. split; [done|]. by apply and_comm, Hup. }
  intros [= <- <-]. split; [done|]. split; [done|].
  split; [intros n Hn; cbn; rewrite lookup_delete_None; by right|].
  change (set_mounts ?a ls) with (set_nextRef (nextRef ls) (set_mounts a ls)).
  apply (set_mounts_inv ext); [done..| | |].
  - intros x. unfold mountsOn. rewrite (count_perm _ _ _ (values_delete _ _ _ Em)), count_cons.
    pose proof (count_hold (m_parent m) x ext []) as Hh. rewrite !app_nil_r in Hh. lia.
  - intros x Hx. destruct (m_parent m) as [q|] eqn:Eq; cbn [hold] in Hx.
    + apply elem_of_cons in Hx as [->|Hx]; [by apply (lv_mount _ _ Hi name m)|].
      apply (lv_ext _ _ Hi), elem_of_app. by left.
    + apply (lv_ext _ _ Hi), elem_of_app. by left.
  - intros n k q [_ Hk]%lookup_delete_Some Hq. by apply (lv_mount _ _ Hi n k).
Qed.

(** ** The system *)

(** The holds of running calls. *)
Definition pending (s : sys) : list nat := held s ++ omap snd (creating s).

Record sinv (s : sys) : Prop := {
  si_inv : linv (pending s) (store s);
  si_names : NoDup (creating s).*1;
  si_free n p : (n, p) ∈ creating s -> n ∈ locked s /\ mounts (store s) !! n = None
}.

Lemma pending_hold (p : option nat) (h : list nat) (c : list (string * option nat)) :
  hold p (h ++ omap snd c) = hold p h ++ omap snd c.
Proof. by destruct p. Qed.

Lemma pending_creating (p : option nat) n (h : list nat) (c : list (string * option nat)) :
  h ++ omap snd ((n, p) :: c) ≡ₚ hold p (h ++ omap snd c).
Proof. destruct p; cbn; [|done]. symmetry. apply Permutation_middle. Qed.

#[global] Instance hold_perm p : Proper ((≡ₚ) ==> (≡ₚ)) (hold p).
Proof. intros a b E. destruct p; cbn; by rewrite E. Qed.

(** What a step establishes. *)
Definition preserved (s s' : sys) : Prop :=
  sinv s' /\ (no_garbage (store s) -> no_garbage (store s')) /\ (bounded (store s) -> bounded (store s')).

(** A section that changes the layers and the holds and no mount. *)
Lemma sinv_held s ls' held' :
  sinv s -> linv (held' ++ omap snd (creating s)) ls' -> keeps (store s) ls' ->
  (bounded (store s) -> bounded ls') -> preserved s (Sys ls' held' (locked s) (creating s)).
Proof.
  intros [] Hi Hk Hb. split; [|split; [apply Hk|done]]. constructor; [done..|].
  intros n p Hn. cbn. rewrite (k_mounts _ _ Hk). by apply (si_free0 n p).
Qed.

(** A section that changes the mounts and the holds and no layer. *)
Lemma sinv_mounts s ls' held' :
  sinv s -> linv (held' ++ omap snd (creating s)) ls' ->
  heap ls' = heap (store s) -> layerMap ls' = layerMap (store s) ->
  (forall n, mounts (store s) !! n = None -> mounts ls' !! n = None) ->
  preserved s (Sys ls' held' (locked s) (creating s)).
Proof.
  intros Hv Hi Eh Em Hn.
  split; [|unfold no_garbage, bounded, mapped, depth; cbn [store]; by rewrite Eh, Em].
  constructor; cbn [store held locked creating]; [done|apply Hv|].
  intros n q Hin. destruct (si_free _ Hv n q Hin). auto.
Qed.

Lemma bounded_same ext ls ls' :
  linv ext ls -> keeps ls ls' -> layerMap ls' = layerMap ls -> bounded ls -> bounded ls'.
Proof. intros Hi Hk Hm. apply (bounded_keeps ext ls ls' Hi Hk). unfold mapped. by rewrite Hm. Qed.

Lemma releaseLayer_bounded del l ext ls :
  linv (l :: ext) ls -> bounded ls -> bounded (releaseLayer del l ls).1.
Proof.
  intros Hi. apply (bounded_keeps _ ls _ Hi); [by eapply keeps_releaseLayer|].
  intros x (c&Hx). exists c. by eapply releaseLayer_map.
Qed.

Lemma get_preserved c s : sinv s -> preserved s (Sys (Get c (store s)).1 (held s) (locked s) (creating s)).
Proof.
  intros Hv. pose proof (Get_ok c _ _ (si_inv _ Hv)) as H. destruct (Get c (store s)) as [ls r].
  destruct H as (Hi'&Hk&Hm&_). apply sinv_held; [done..|].
  apply (bounded_same (pending s) (store s)); [apply Hv|done..].
Qed.

Lemma release_preserved del h s :
  sinv s -> preserved s (Sys (Release del h (store s)).1 (held s) (locked s) (creating s)).
Proof.
  intros Hv. pose proof (Release_ok del h _ _ (si_inv _ Hv)) as H.
  pose proof (Release_map del h (store s)) as Hm. destruct (Release del h (store s)) as [ls r].
  destruct H as (Hi'&Hk&_&_). apply sinv_held; [done..|].
  apply (bounded_keeps _ (store s) _ (si_inv _ Hv) Hk). intros x (c&Hx). exists c. by apply Hm.
Qed.

Lemma register_start_preserved parent s ls r :
  sinv s -> register_start parent (store s) = (ls, r) ->
  preserved s (Sys ls (hold (match r with inl p => p | inr (_, p) => p end) (held s)) (locked s) (creating s)).
Proof.
  intros Hv Hr. destruct (register_start_ok _ _ _ _ _ (si_inv _ Hv) Hr) as (Hi'&Hk&Hm&_).
  unfold pending in Hi'. rewrite pending_hold in Hi'. apply sinv_held; [done..|].
  apply (bounded_same (pending s) (store s)); [apply Hv|done..].
Qed.

Lemma release_hold_preserved del p held' s :
  sinv s -> held s ≡ₚ p :: held' ->
  preserved s (Sys (releaseLayer del p (store s)).1 held' (locked s) (creating s)).
Proof.
  intros Hv Hh. assert (Hi : linv (p :: held' ++ omap snd (creating s)) (store s)).
  { apply (linv_perm (pending s)); [unfold pending; by rewrite Hh|apply Hv]. }
  pose proof (releaseLayer_ok del p _ _ Hi) as H. pose proof (keeps_releaseLayer del p _ _ Hi) as Hk.
  pose proof (releaseLayer_bounded del p _ _ Hi) as Hb'.
  destruct (releaseLayer del p (store s)) as [ls r]. destruct H as (Hi'&_). by apply sinv_held.
Qed.

Lemma create_start_preserved name parent s ls p :
  sinv s -> name ∉ locked s -> createRW_start name parent (store s) = (ls, inl p) ->
  preserved s (Sys ls (held s) ({[name]} ∪ locked s) ((name, p) :: creating s)).
Proof.
  intros Hv Hn Hr. destruct (createRW_start_ok _ _ _ _ _ _ (si_inv _ Hv) Hr) as (Hk&Hm&Hi'&Hfree).
  split; [|split; [apply Hk|apply (bounded_same (pending s) (store s)); [apply Hv|done..]]].
  constructor; cbn [store held locked creating].
  - apply (linv_perm (hold p (pending s))); [|done]. symmetry. apply pending_creating.
  - cbn. apply list.NoDup_cons. split; [|apply Hv].
    intros ([n q]&->&Hin)%list_elem_of_fmap. by apply Hn, (si_free _ Hv n q).
  - intros n q [[= -> ->]|Hin]%elem_of_cons; rewrite (k_mounts _ _ Hk); [set_solver|].
    destruct (si_free _ Hv n q Hin). set_solver.
Qed.

(** The end of [CreateRWLayer], with a mount or without. *)
Lemma create_end_preserved name p s rest ls' held' :
  sinv s -> creating s ≡ₚ (name, p) :: rest -> linv (held' ++ omap snd rest) ls' ->
  heap ls' = heap (store s) -> layerMap ls' = layerMap (store s) ->
  (forall n, n <> name -> mounts ls' !! n = mounts (store s) !! n) ->
  preserved s (Sys ls' held' (locked s ∖ {[name]}) rest).
Proof.
  intros Hv Hc Hi Eh Em Hmm. pose proof (si_names _ Hv) as Hnd. rewrite Hc in Hnd.
  apply list.NoDup_cons in Hnd as [Hni Hnd].
  split; [|unfold no_garbage, bounded, mapped, depth; cbn [store]; by rewrite Eh, Em].
  constructor; cbn [store held locked creating]; [done|done|].
  intros n q Hin. destruct (si_free _ Hv n q) as [Hl Hf]; [rewrite Hc; by right|].
  assert (Hne : n <> name) by (intros ->; apply Hni; by apply (list_elem_of_fmap_2 fst _ (name, q))).
  rewrite (Hmm n Hne). set_solver.
Qed.

Section System.
Context (ChainID : string -> string -> string).

Lemma register_finish_preserved p d cache sz ok s held' ls r again :
  sinv s -> held s ≡ₚ hold p held' ->
  (forall q, p = Some q -> (depth q (store s) < maxLayerDepth)%nat) ->
  register_finish ChainID p d cache sz ok (store s) = (ls, r, again) ->
  preserved s (Sys ls (if again then hold p held' else held') (locked s) (creating s)).
Proof.
  intros Hv Hh Hd Hr. assert (Hi : linv (hold p (held' ++ omap snd (creating s))) (store s)).
  { apply (linv_perm (pending s)); [unfold pending; by rewrite Hh, pending_hold|apply Hv]. }
  destruct (register_finish_ok _ _ _ _ _ _ _ _ _ _ _ Hi Hr) as (Hi'&Hk&_). apply sinv_held; [done| |done|].
  - destruct again; [by rewrite pending_hold in Hi'|done].
  - by eapply register_finish_bounded.
Qed.

Lemma step_preserved s s' : step ChainID s s' -> sinv s -> preserved s s'.
Proof.
  intros Hs Hv. pose proof (si_inv _ Hv) as Hi.
  destruct Hs as [c s|del h s|parent s ls p Hr|parent s ls e p Hr|p d cache sz ok s held' ls r again Hh Hd Hr
    |del p s held' Hh|name parent s ls p Hn Hr|name p s rest Hc|name mi ii p s rest Hc|name s Hn
    |name ref ok s ls p Hn Hr|name ref ok s ls e Hn Hr].
  - by apply get_preserved.
  - by apply release_preserved.
  - by apply (register_start_preserved parent s ls (inl p)).
  - by apply (register_start_preserved parent s ls (inr (e, p))).
  - by eapply register_finish_preserved.
  - by apply release_hold_preserved.
  - by eapply create_start_preserved.
  - apply (create_end_preserved name p); [done..| |done|done|done].
    apply (linv_perm (pending s)); [|done]. unfold pending. rewrite <- pending_hold, Hc.
    apply pending_creating.
  - apply (create_end_preserved name p); [done..| |done|done|].
    + apply createRW_finish_ok; [|apply (si_free _ Hv name p); rewrite Hc; by left].
      apply (linv_perm (pending s)); [|done]. unfold pending. rewrite Hc. apply pending_creating.
    + intros n Hne. cbn. by rewrite lookup_insert_ne.
  - apply sinv_mounts; [done|by apply GetRWLayer_ok|..];
      unfold GetRWLayer; destruct (mounts (store s) !! name) as [m|] eqn:Em; try done.
    intros n Hf. cbn. rewrite lookup_insert_ne; congruence.
  - destruct (releaseRW_start_ok _ _ _ _ _ _ _ Hi Hr) as (Eh&Em&Hmm&Hi').
    unfold pending in Hi'. rewrite pending_hold in Hi'. by apply sinv_mounts.
  - destruct (releaseRW_start_ok _ _ _ _ _ _ _ Hi Hr) as (Eh&Em&Hmm&Hi'). by apply sinv_mounts.
Qed.

Lemma reachable_sinv s0 s : sinv s0 -> reachable ChainID s0 s -> preserved s0 s.
Proof.
  intros Hv. induction 1 as [|s s' _ (IH1&IH2&IH3) Hs]; [by split|].
  destruct (step_preserved s s' Hs IH1) as (?&?&?). split; [done|auto].
Qed.
End System.
