(* ===== verification/LayerStoreRestore.v ===== *)
(** * Restoring the layer store

    [newStoreFromGraphDriver] loads exactly the layers all of whose ancestors have files, in the
    order of the directory, and counts each child and each mount once. *)

From S2P Require Import Prelude Counting LayerStore LayerStoreSpec LayerStoreSystem.
Open Scope string_scope.
Open Scope list_scope.
Open Scope Z_scope.

Section Restore.
Context (files : gmap string layerFiles).

(** The files of the layer and of its ancestors are there. *)
Inductive loadable : string -> Prop :=
| loadable_base c f : files !! c = Some f -> f_parent f = "" -> loadable c
| loadable_child c f : files !! c = Some f -> f_parent f <> "" -> loadable (f_parent f) -> loadable c.

(** What a layer has of its files. *)
Definition fromFiles (ls : layerStore) (c : string) (rl : roLayer) : Prop :=
  exists f, files !! c = Some f /\ l_chainID rl = c /\ l_diffID rl = f_diffID f /\
    l_cacheID rl = f_cacheID f /\ l_size rl = f_size f /\
    match l_parent rl with
    | None => f_parent f = ""
    | Some p => f_parent f <> "" /\ layerMap ls !! f_parent f = Some p
    end.

(** The state of the loop over the layers; [D] are the layers it has been through. *)
Record rinv (D : list nat) (ls : layerStore) : Prop := {
  r_map c l : layerMap ls !! c = Some l -> exists rl, heap ls !! l = Some rl /\ fromFiles ls c rl;
  r_heap l rl : heap ls !! l = Some rl ->
    (l < nextObj ls)%nat /\ mapped ls l /\ l_references rl = ∅ /\
    forall p, l_parent rl = Some p -> (p < l)%nat;
  r_count l rl : heap ls !! l = Some rl ->
    l_referenceCount rl = count (fun x => parentOf (heap ls) x = Some l) D;
  r_D x : x ∈ D -> mapped ls x;
  r_mounts : mounts ls = ∅;
  r_leaked : leaked ls = []
}.

Lemma rinv_empty : rinv [] emptyStore.
Proof. constructor; try done. intros x Hx. by apply not_elem_of_nil in Hx. Qed.

Lemma fromFiles_mono ls ls' c rl :
  layerMap ls ⊆ layerMap ls' -> fromFiles ls c rl -> fromFiles ls' c rl.
Proof.
  intros Hsub (f&?&?&?&?&?&Hp). exists f. repeat (split; [done|]). destruct (l_parent rl) as [p|]; [|done].
  destruct Hp. split; [done|]. by eapply lookup_weaken.
Qed.

Lemma rinv_parent D ls l p : rinv D ls -> parentOf (heap ls) l = Some p -> mapped ls p.
Proof.
  intros Hr Hp. unfold parentOf in Hp. destruct (heap ls !! l) as [rl|] eqn:Hl; [|done]. cbn in Hp.
  destruct (r_heap _ _ Hr l rl Hl) as (_&(c&Hc)&_). destruct (r_map _ _ Hr c l Hc) as (rl'&Hl'&f&_&_&_&_&_&Hf).
  simplify_eq. rewrite Hp in Hf. eexists. apply Hf.
Qed.

Lemma rinv_fresh D ls x : rinv D ls -> mapped ls x -> (x < nextObj ls)%nat.
Proof. intros Hr (c&Hc). destruct (r_map _ _ Hr c x Hc) as (rl&Hl&_). by apply (r_heap _ _ Hr x rl). Qed.

Lemma rinv_add D ls c f (p : option nat) :
  rinv D ls -> layerMap ls !! c = None -> files !! c = Some f ->
  match p with None => f_parent f = "" | Some q => f_parent f <> "" /\ layerMap ls !! f_parent f = Some q end ->
  rinv D (addLayer (RoLayer c (f_diffID f) p (f_cacheID f) (f_size f) 0 ∅) ls).
Proof.
  intros Hr Hfree Hf Hp. set (rl := RoLayer c _ p _ _ _ _).
  assert (Hsub : layerMap ls ⊆ layerMap (addLayer rl ls)) by (by apply insert_subseteq).
  pose proof (add_mapped ls rl Hfree) as Hmap.
  assert (Hlook : forall x rx, heap (addLayer rl ls) !! x = Some rx ->
    (x = nextObj ls /\ rx = rl) \/ (x <> nextObj ls /\ heap ls !! x = Some rx)).
  { intros x rx. cbn. intros [[<- <-]|[? ?]]%lookup_insert_Some; auto. }
  assert (Hpar : forall x, mapped ls x -> parentOf (heap (addLayer rl ls)) x = parentOf (heap ls) x).
  { intros x Hx%(rinv_fresh D ls x Hr). unfold parentOf. cbn. rewrite lookup_insert_ne; [done|lia]. }
  constructor; try apply Hr.
  - intros d x. cbn. intros [[<- <-]|[_ Hd]]%lookup_insert_Some.
    + exists rl. rewrite lookup_insert_eq. split; [done|]. exists f. repeat (split; [done|]). destruct p as [q|]; [|done].
      destruct Hp as [? Hq]. split; [done|]. by eapply lookup_weaken.
    + destruct (r_map _ _ Hr d x Hd) as (rx&Hx&Hfx). exists rx.
      pose proof (rinv_fresh D ls x Hr ltac:(by exists d)). rewrite lookup_insert_ne by lia.
      split; [done|]. by apply (fromFiles_mono ls).
  - intros x rx [[-> ->]|[_ Hx]]%Hlook.
    + split; [cbn; lia|]. split; [apply Hmap; by left|]. split; [done|]. intros q Hq. cbn in Hq. subst p.
      apply (rinv_fresh D ls q Hr). destruct Hp. by eexists.
    + destruct (r_heap _ _ Hr x rx Hx) as (?&?&?&?). split; [cbn; lia|].
      split; [apply Hmap; by right|done].
  - intros x rx Hx.
    rewrite (count_ext _ (fun y => parentOf (heap ls) y = Some x)) by (intros y Hy%(r_D _ _ Hr); by rewrite Hpar).
    apply Hlook in Hx as [[-> ->]|[_ Hx]]; [|by apply (r_count _ _ Hr)]. cbn [l_referenceCount rl].
    destruct (decide (0 < count (fun y => parentOf (heap ls) y = Some (nextObj ls)) D)) as [Hpos|Hneg].
    + apply count_exists in Hpos as (y&_&Hy%(rinv_parent D ls _ _ Hr)). apply (rinv_fresh D ls _ Hr) in Hy. lia.
    + pose proof (count_nonneg (fun y => parentOf (heap ls) y = Some (nextObj ls)) D). lia.
  - intros x Hx. apply Hmap. right. by apply (r_D _ _ Hr).
Qed.

(** The digest of a layer covers its parent's, so that the parents of the files have no cycle. *)
Context (rank : string -> nat).
Context (Hrank : forall c f, files !! c = Some f -> f_parent f <> "" -> (rank (f_parent f) < rank c)%nat).

(** What [loadLayer] does: it adds the layer and its ancestors. *)
Lemma loadLayer_ok D fuel c ls :
  rinv D ls ->
  let '(ls', r) := loadLayer files fuel c ls in
  rinv D ls' /\ layerMap ls ⊆ layerMap ls' /\ (forall l, r = Some l -> layerMap ls' !! c = Some l) /\
  (forall d, layerMap ls !! d = None -> is_Some (layerMap ls' !! d) -> (rank d <= rank c)%nat).
Proof.
  revert c ls. induction fuel as [|fuel IH]; intros c ls Hr; cbn [loadLayer];
    destruct (layerMap ls !! c) as [l|] eqn:Hc;
    try (split; [done|]; split; [done|]; split; [congruence|]; intros d -> [? [=]]).
  destruct (files !! c) as [f|] eqn:Hf.
  2: { split; [done|]. split; [done|]. split; [done|]. intros d -> [? [=]]. }
  assert (Hadd : forall ls1 p, rinv D ls1 -> layerMap ls ⊆ layerMap ls1 -> layerMap ls1 !! c = None ->
    (forall d, layerMap ls !! d = None -> is_Some (layerMap ls1 !! d) -> (rank d <= rank c)%nat) ->
    match p with None => f_parent f = "" | Some q => f_parent f <> "" /\ layerMap ls1 !! f_parent f = Some q end ->
    let ls' := addLayer (RoLayer c (f_diffID f) p (f_cacheID f) (f_size f) 0 ∅) ls1 in
    rinv D ls' /\ layerMap ls ⊆ layerMap ls' /\ (forall l, Some (nextObj ls1) = Some l -> layerMap ls' !! c = Some l) /\
    (forall d, layerMap ls !! d = None -> is_Some (layerMap ls' !! d) -> (rank d <= rank c)%nat)).
  { intros ls1 p Hr1 Hsub Hn Hd Hp ls'. split; [by apply rinv_add|].
    split; [etransitivity; [done|by apply insert_subseteq]|].
    split; [intros l [= <-]; apply lookup_insert_eq|].
    intros d Hdn Hds. cbn in Hds. destruct (decide (d = c)) as [->|]; [done|].
    rewrite lookup_insert_ne in Hds by done. by apply Hd. }
  case_bool_decide as Ep.
  - apply (Hadd ls None); try done. intros d -> [? [=]].
  - specialize (IH (f_parent f) ls Hr). destruct (loadLayer files fuel (f_parent f) ls) as [ls1 r].
    destruct IH as (Hr1&Hsub&Hp&Hd). specialize (Hrank c f Hf Ep).
    assert (Hd' : forall d, layerMap ls !! d = None -> is_Some (layerMap ls1 !! d) -> (rank d <= rank c)%nat).
    { intros d H1 H2. specialize (Hd d H1 H2). lia. }
    destruct r as [p|]; [|done]. apply (Hadd ls1 (Some p)); [done..| |done|split; [done|by apply Hp]].
    apply eq_None_not_Some. intros Hs. specialize (Hd c Hc Hs). lia.
Qed.

(** The chain of a loadable layer has no more members than there are files. *)
Inductive chain : string -> list string -> Prop :=
| chain_base c f : files !! c = Some f -> f_parent f = "" -> chain c [c]
| chain_child c f ks : files !! c = Some f -> f_parent f <> "" -> chain (f_parent f) ks -> chain c (c :: ks).

Lemma chain_rank c ks : chain c ks -> forall d, d ∈ ks -> (rank d <= rank c)%nat /\ is_Some (files !! d).
Proof.
  induction 1 as [c f Hf Hp|c f ks Hf Hp Hc IH]; intros d.
  - intros ->%list_elem_of_singleton. split; [done|eauto].
  - intros [->|[Hd ?]%IH]%elem_of_cons; [split; [done|eauto]|]. specialize (Hrank c f Hf Hp). split; [lia|done].
Qed.

Lemma loadable_chain c : loadable c -> exists ks, chain c ks /\ (length ks <= size files)%nat.
Proof.
  intros Hl. assert (Hc : exists ks, chain c ks).
  { induction Hl as [|c f Hf Hp _ [ks IH]]; [eexists; by econstructor|eexists; by econstructor]. }
  destruct Hc as [ks Hc]. exists ks. split; [done|].
  assert (Hnd : NoDup ks).
  { induction Hc as [|c f ks Hf Hp Hc IH]; [apply NoDup_singleton|].
    inversion Hl; simplify_eq. apply list.NoDup_cons. split; [|auto]. intros Hin.
    destruct (chain_rank _ _ Hc c Hin). specialize (Hrank c f Hf Hp). lia. }
  rewrite <- (size_list_to_set (C := gset string) ks Hnd), <- (size_dom (D := gset string) files).
  apply subseteq_size. intros d Hd%elem_of_list_to_set. apply elem_of_dom, (chain_rank _ _ Hc d Hd).
Qed.

Lemma loadLayer_chain fuel c ks ls :
  chain c ks -> (length ks <= fuel)%nat -> is_Some (loadLayer files fuel c ls).2.
Proof.
  intros Hc. revert fuel ls. induction Hc as [c f Hf Hp|c f ks Hf Hp Hc IH]; intros [|fuel] ls Hlen;
    cbn [length] in Hlen; try lia; cbn [loadLayer]; destruct (layerMap ls !! c); try done; rewrite Hf.
  - by rewrite bool_decide_eq_true_2.
  - rewrite bool_decide_eq_false_2 by done. specialize (IH fuel ls ltac:(lia)).
    destruct (loadLayer files fuel (f_parent f) ls) as [ls1 [p|]]; [done|]. by destruct IH.
Qed.

Lemma loadLayer_total c ls : loadable c -> is_Some (loadLayer files (S (size files)) c ls).2.
Proof. intros (ks&Hc&Hl)%loadable_chain. apply (loadLayer_chain _ _ ks); [done|lia]. Qed.

Lemma mapped_loadable D ls c l : rinv D ls -> layerMap ls !! c = Some l -> loadable c.
Proof.
  intros Hr. revert c. induction l as [l IH] using lt_wf_ind. intros c Hc.
  destruct (r_map _ _ Hr c l Hc) as (rl&Hl&f&Hf&_&_&_&_&Hp).
  destruct (l_parent rl) as [p|] eqn:Ep; [|by econstructor]. destruct Hp as [Hne Hp].
  eapply loadable_child; [done..|]. apply (IH p); [|done]. by apply (r_heap _ _ Hr l rl Hl).
Qed.

(** *** The loop over the layers *)

Lemma incCount_rinv D l p ls :
  rinv D ls -> mapped ls l -> parentOf (heap ls) l = Some p -> rinv (l :: D) (incCount p ls).
Proof.
  intros Hr Hm Hp. destruct (rinv_parent D ls l p Hr Hp) as (cp&Hcp).
  destruct (r_map _ _ Hr cp p Hcp) as (pl&Hpl&Hfp). unfold incCount. rewrite Hpl.
  set (pl' := with_count pl _).
  assert (Hpar : forall x, parentOf (heap (setLayer p pl' ls)) x = parentOf (heap ls) x).
  { intros x. by apply (parentOf_set _ _ pl). }
  assert (Hlook : forall x rx, heap (setLayer p pl' ls) !! x = Some rx ->
    (x = p /\ rx = pl') \/ (x <> p /\ heap ls !! x = Some rx)).
  { intros x rx. cbn. intros [[<- <-]|[? ?]]%lookup_insert_Some; auto. }
  constructor; try apply Hr.
  - intros c x Hx. destruct (r_map _ _ Hr c x Hx) as (rx&Hrx&Hf). cbn.
    destruct (decide (x = p)) as [->|]; [|rewrite lookup_insert_ne by done; eauto].
    rewrite lookup_insert_eq. simplify_eq. exists pl'. split; [done|exact Hf].
  - intros x rx [[-> ->]|[_ Hx]]%Hlook; [exact (r_heap _ _ Hr p pl Hpl)|exact (r_heap _ _ Hr x rx Hx)].
  - intros x rx Hx. rewrite count_cons, Hpar, Hp.
    rewrite (count_ext _ (fun y => parentOf (heap ls) y = Some x)) by (intros; by rewrite Hpar).
    apply Hlook in Hx as [[-> ->]|[Hne Hx]].
    + rewrite decide_True by done. cbn. rewrite (r_count _ _ Hr p pl Hpl). lia.
    + rewrite decide_False by congruence. rewrite (r_count _ _ Hr x rx Hx). lia.
  - intros x [->|Hx]%elem_of_cons; [done|by apply (r_D _ _ Hr)].
Qed.

Lemma rinv_root D l ls : rinv D ls -> mapped ls l -> parentOf (heap ls) l = None -> rinv (l :: D) ls.
Proof.
  intros Hr Hm Hp. constructor; try apply Hr.
  - intros x rx Hx. rewrite count_cons, Hp, decide_False by done. apply (r_count _ _ Hr x rx Hx).
  - intros x [->|Hx]%elem_of_cons; [done|by apply (r_D _ _ Hr)].
Qed.

Lemma incCount_map p ls : layerMap (incCount p ls) = layerMap ls.
Proof. unfold incCount. by destruct (heap ls !! p). Qed.

Lemma restoreLayer_ok D ls c :
  rinv D ls ->
  layerMap ls ⊆ layerMap (restoreLayer files ls c) /\
  ((rinv D (restoreLayer files ls c) /\ ~ loadable c) \/
   exists l, rinv (l :: D) (restoreLayer files ls c) /\ layerMap (restoreLayer files ls c) !! c = Some l).
Proof.
  intros Hr. unfold restoreLayer. pose proof (loadLayer_ok D (S (size files)) c ls Hr) as Hl.
  pose proof (loadLayer_total c ls) as Ht.
  destruct (loadLayer files (S (size files)) c ls) as [ls1 [l|]].
  - destruct Hl as (Hr1&Hsub&Hc&_). specialize (Hc l eq_refl).
    assert (Hm : mapped ls1 l) by (by exists c).
    change (heap ls1 !! l ≫= l_parent) with (parentOf (heap ls1) l).
    destruct (parentOf (heap ls1) l) as [p|] eqn:Ep.
    + rewrite incCount_map. split; [done|]. right. exists l. split; [by apply incCount_rinv|done].
    + split; [done|]. right. exists l. split; [by apply rinv_root|done].
  - destruct Hl as (Hr1&Hsub&_). split; [done|]. left. split; [done|]. intros H%Ht. by destruct H.
Qed.

(** The layers of the processed directories. *)
Record progress (ids : list string) (D : list nat) (ls : layerStore) : Prop := {
  pr_inv : rinv D ls;
  pr_nodup : NoDup D;
  pr_from x : x ∈ D -> exists c, c ∈ ids /\ layerMap ls !! c = Some x;
  pr_all c : c ∈ ids -> loadable c -> exists l, l ∈ D /\ layerMap ls !! c = Some l
}.

Lemma rinv_inj D ls c d l : rinv D ls -> layerMap ls !! c = Some l -> layerMap ls !! d = Some l -> c = d.
Proof.
  intros Hr Hc Hd. destruct (r_map _ _ Hr c l Hc) as (rl&Hl&f&_&<-&_).
  destruct (r_map _ _ Hr d l Hd) as (rl'&Hl'&f'&_&<-&_). by simplify_eq.
Qed.

Lemma restore_progress ids done D ls :
  NoDup (done ++ ids) -> progress done D ls ->
  exists D', progress (done ++ ids) D' (foldl (restoreLayer files) ls ids).
Proof.
  revert done D ls. induction ids as [|c ids IH]; intros seen D ls Hnd Hp.
  { exists D. by rewrite app_nil_r. }
  replace (seen ++ c :: ids) with ((seen ++ [c]) ++ ids) in * by (by rewrite <- app_assoc). cbn [foldl].
  destruct (restoreLayer_ok D ls c (pr_inv _ _ _ Hp)) as [Hsub Hcase].
  set (ls1 := restoreLayer files ls c) in *.
  assert (Hfrom : forall x, x ∈ D -> exists d, d ∈ seen /\ layerMap ls1 !! d = Some x).
  { intros x (d&?&?)%(pr_from _ _ _ Hp). exists d. split; [done|]. by eapply lookup_weaken. }
  assert (Hall : forall d, d ∈ seen -> loadable d -> exists l, l ∈ D /\ layerMap ls1 !! d = Some l).
  { intros d Hd Hl. destruct (pr_all _ _ _ Hp d Hd Hl) as (l&?&?). exists l. split; [done|]. by eapply lookup_weaken. }
  destruct Hcase as [[Hr Hnl]|(l&Hr&Hc)].
  - apply (IH (seen ++ [c]) D ls1 Hnd). constructor; [done|apply Hp|..].
    + intros x (d&?&?)%Hfrom. exists d. set_solver.
    + intros d [Hd| ->%list_elem_of_singleton]%elem_of_app Hl; [by apply Hall|done].
  - apply (IH (seen ++ [c]) (l :: D) ls1 Hnd). constructor; [done|..].
    + apply list.NoDup_cons. split; [|apply Hp]. intros (d&Hd&Hdl)%Hfrom.
      rewrite (rinv_inj _ _ _ _ _ Hr Hdl Hc) in Hd.
      apply list.NoDup_app in Hnd as [(_&Hx&_)%list.NoDup_app _]. by apply (Hx c Hd), list_elem_of_singleton.
    + intros x [->|Hx]%elem_of_cons; [exists c; set_solver|]. destruct (Hfrom x Hx) as (d&?&?). exists d. set_solver.
    + intros d [Hd| ->%list_elem_of_singleton]%elem_of_app Hl.
      * destruct (Hall d Hd Hl) as (x&?&?). exists x. set_solver.
      * exists l. set_solver.
Qed.

Lemma values_nodup D ls : rinv D ls -> NoDup (values (layerMap ls)).
Proof.
  intros Hr. unfold values. apply NoDup_fmap_2_strong; [|apply NoDup_map_to_list].
  intros [c x] [d y] Hc%elem_of_map_to_list Hd%elem_of_map_to_list E. cbn in E. subst y.
  by rewrite (rinv_inj _ _ _ _ _ Hr Hc Hd).
Qed.

(** A store in which the layers are those that can be loaded, as their files say. *)
Record restored (ls : layerStore) : Prop := {
  rs_inv : linv [] ls;
  rs_loadable c : is_Some (layerMap ls !! c) <-> loadable c;
  rs_files c l : layerMap ls !! c = Some l -> exists rl, heap ls !! l = Some rl /\ fromFiles ls c rl /\
    l_references rl = ∅;
  rs_leaked : leaked ls = []
}.

Lemma progress_restored ids D ls :
  (forall c, is_Some (files !! c) -> c ∈ ids) -> progress ids D ls -> restored ls /\ mounts ls = ∅.
Proof.
  intros Hids Hp. pose proof (pr_inv _ _ _ Hp) as Hr. split; [|apply Hr].
  assert (Hload : forall c, is_Some (layerMap ls !! c) <-> loadable c).
  { intros c. split; [intros [l Hl]; by apply (mapped_loadable D ls c l)|]. intros Hl.
    assert (Hc : c ∈ ids) by (apply Hids; inversion Hl; eauto).
    destruct (pr_all _ _ _ Hp c Hc Hl) as (l&_&?). eauto. }
  assert (HD : D ≡ₚ values (layerMap ls)).
  { apply NoDup_Permutation; [apply Hp|by apply (values_nodup D)|]. intros x. rewrite elem_of_values. split.
    - intros (c&_&?)%(pr_from _ _ _ Hp). eauto.
    - intros (c&Hc). assert (Hl : loadable c) by (apply Hload; eauto).
      destruct (pr_all _ _ _ Hp c) as (l&?&?); [apply Hids; inversion Hl; eauto|done|]. by simplify_eq. }
  assert (Hfiles : forall c l, layerMap ls !! c = Some l ->
    exists rl, heap ls !! l = Some rl /\ fromFiles ls c rl /\ l_references rl = ∅).
  { intros c l Hc. destruct (r_map _ _ Hr c l Hc) as (rl&Hl&Hf). exists rl. split; [done|]. split; [done|].
    by apply (r_heap _ _ Hr l rl Hl). }
  constructor; [|done|done|apply Hr]. constructor.
  - intros c l (rl&Hl&(f&_&?&_)&_)%Hfiles. eauto.
  - intros l rl Hl. destruct (r_heap _ _ Hr l rl Hl) as (?&_&_&?). done.
  - intros l q _. by apply (rinv_parent D).
  - intros l rl Hm Hl. destruct (r_heap _ _ Hr l rl Hl) as (_&_&->&_).
    rewrite (r_count _ _ Hr l rl Hl), size_empty. unfold holders, children, mountsOn.
    rewrite (r_mounts _ _ Hr), (r_leaked _ _ Hr), HD. cbn. rewrite count_nil. unfold values.
    rewrite map_to_list_empty. cbn. rewrite count_nil. lia.
  - rewrite (r_leaked _ _ Hr). intros q Hq. by apply not_elem_of_nil in Hq.
  - rewrite (r_mounts _ _ Hr). done.
  - intros l rl r Hl. destruct (r_heap _ _ Hr l rl Hl) as (_&_&->&_). by intros ?%not_elem_of_empty.
  - intros l rl l' rl' r Hl _. destruct (r_heap _ _ Hr l rl Hl) as (_&_&->&_). by intros ?%not_elem_of_empty.
Qed.

(** *** The loop over the mounts *)

Lemma loadLayer_closed fuel c ls :
  restored ls -> loadLayer files fuel c ls = (ls, layerMap ls !! c).
Proof.
  intros Hr. revert c. induction fuel as [|fuel IH]; intros c; cbn [loadLayer];
    destruct (layerMap ls !! c) as [l|] eqn:Hc; try done.
  destruct (files !! c) as [f|] eqn:Hf; [|done].
  assert (Hn : ~ loadable c) by (intros H%(rs_loadable _ Hr); destruct H; congruence).
  case_bool_decide as Ep; [destruct Hn; by econstructor|]. rewrite IH.
  destruct (layerMap ls !! f_parent f) as [p|] eqn:Hp; [|done]. destruct Hn.
  eapply loadable_child; [done..|]. apply (rs_loadable _ Hr). eauto.
Qed.

Definition mountOK (mfiles : gmap string mountFiles) (n : string) : Prop :=
  exists f, mfiles !! n = Some f /\ (f_mountParent f = "" \/ loadable (f_mountParent f)).

Lemma restored_mount ls n m :
  restored ls -> mounts ls !! n = None -> (forall p, m_parent m = Some p -> mapped ls p) ->
  let ls1 := match m_parent m with Some p => incCount p ls | None => ls end in
  restored (set_mounts (<[n := m]> (mounts ls1)) ls1) /\ mounts ls1 = mounts ls.
Proof.
  intros Hr Hn Hp ls1.
  assert (H : linv (hold (m_parent m) []) ls1 /\ mounts ls1 = mounts ls /\ layerMap ls1 = layerMap ls /\
    leaked ls1 = leaked ls /\
    forall x rx, heap ls !! x = Some rx -> exists rx', heap ls1 !! x = Some rx' /\
      l_references rx' = l_references rx /\ forall c, fromFiles ls c rx -> fromFiles ls1 c rx').
  { subst ls1. pose proof (rs_inv _ Hr) as Hi. destruct (m_parent m) as [p|].
    2: { cbn [hold]. split; [done|]. do 3 (split; [done|]). eauto. }
    destruct (mapped_heap _ _ _ Hi (Hp p eq_refl)) as [pl Hpl]. unfold incCount. rewrite Hpl.
    split; [by apply inc_inv; [..|apply Hp|]|]. do 3 (split; [done|]). intros x rx Hx.
    cbn. destruct (decide (x = p)) as [->|]; [rewrite lookup_insert_eq|rewrite lookup_insert_ne by done; eauto].
    simplify_eq. eexists. split; [done|]. split; [done|]. by intros c. }
  destruct H as (Hi&Em&El&Ek&Hh). split; [|done]. constructor.
  - apply (mount_add_inv n m (nextRef ls1)); [done|by rewrite Em|done].
  - intros c. cbn. rewrite El. apply Hr.
  - intros c l Hc. cbn in Hc. rewrite El in Hc. destruct (rs_files _ Hr c l Hc) as (rl&Hl&Hf&Hz).
    destruct (Hh l rl Hl) as (rl'&Hl'&Ez&Hf'). exists rl'. split; [done|]. split; [|congruence].
    apply (fromFiles_mono ls1); [done|]. by apply Hf'.
  - cbn. rewrite Ek. apply Hr.
Qed.

Lemma loadMount_ok mfiles ls n :
  restored ls ->
  let ls' := loadMount files mfiles ls n in
  restored ls' /\ layerMap ls' = layerMap ls /\
  forall k, is_Some (mounts ls' !! k) <-> is_Some (mounts ls !! k) \/ (k = n /\ mountOK mfiles n).
Proof.
  intros Hr ls'. subst ls'. unfold loadMount. destruct (mounts ls !! n) as [m|] eqn:Hn.
  { split; [done|]. split; [done|]. intros k. split; [by left|]. intros [?|[-> _]]; [done|eauto]. }
  destruct (mfiles !! n) as [f|] eqn:Hf.
  2: { split; [done|]. split; [done|]. intros k. split; [by left|]. intros [?|[_ (f&?&_)]]; [done|congruence]. }
  assert (Hset : forall x m ls1, mounts ls1 = mounts ls -> mountOK mfiles n ->
    is_Some (<[n := m]> (mounts ls1) !! x) <-> is_Some (mounts ls !! x) \/ x = n /\ mountOK mfiles n).
  { intros x m ls1 -> Hok. rewrite lookup_insert_is_Some'. naive_solver. }
  case_bool_decide as Ep.
  - destruct (restored_mount ls n (MountedLayer n (f_mountID f) (f_initID f) None ∅) Hr Hn ltac:(done)) as [H _].
    split; [done|]. split; [done|]. intros k. apply (Hset k _ ls); [done|]. exists f. auto.
  - rewrite (loadLayer_closed _ _ _ Hr). destruct (layerMap ls !! f_mountParent f) as [p|] eqn:Hp.
    + destruct (restored_mount ls n (MountedLayer n (f_mountID f) (f_initID f) (Some p) ∅) Hr Hn) as [H Em].
      { intros q [= <-]. by eexists. }
      split; [done|]. split; [by apply incCount_map|]. intros k. apply (Hset k _ (incCount p ls)); [done|].
      exists f. split; [done|]. right. apply (rs_loadable _ Hr). eauto.
    + split; [done|]. split; [done|]. intros k. split; [by left|]. intros [?|[_ (f'&?&Hl)]]; [done|].
      simplify_eq. destruct Hl as [?|Hl%(rs_loadable _ Hr)]; [done|]. destruct Hl. congruence.
Qed.

Lemma loadMounts_ok mfiles names ls :
  restored ls ->
  let ls' := foldl (loadMount files mfiles) ls names in
  restored ls' /\
  forall k, is_Some (mounts ls' !! k) <-> is_Some (mounts ls !! k) \/ (k ∈ names /\ mountOK mfiles k).
Proof.
  revert ls. induction names as [|n names IH]; intros ls Hr; cbn [foldl].
  { split; [done|]. intros k. split; [by left|]. intros [?|[?%not_elem_of_nil _]]; done. }
  destruct (loadMount_ok mfiles ls n Hr) as (Hr1&_&Hm). destruct (IH _ Hr1) as [Hr2 Hm2]. split; [done|].
  intros k. rewrite Hm2, Hm, elem_of_cons. naive_solver.
Qed.

Lemma newStore_ok mfiles ids names :
  NoDup ids -> (forall c, is_Some (files !! c) -> c ∈ ids) ->
  let ls := newStoreFromGraphDriver files mfiles ids names in
  restored ls /\ forall k, is_Some (mounts ls !! k) <-> k ∈ names /\ mountOK mfiles k.
Proof.
  intros Hnd Hids. destruct (restore_progress ids [] [] emptyStore Hnd) as [D Hp].
  { constructor; [apply rinv_empty|by constructor|..]; intros x Hx; by apply not_elem_of_nil in Hx. }
  destruct (progress_restored _ _ _ Hids Hp) as [Hr Em]. cbn [app] in *.
  destruct (loadMounts_ok mfiles names _ Hr) as [Hr' Hm]. split; [done|]. intros k.
  unfold newStoreFromGraphDriver. rewrite Hm, Em, lookup_empty. split; [|by right].
  intros [[? [=]]|?]; done.
Qed.
End Restore.
