(* ===== verification/LayerStoreTheorems.v ===== *)
(** * Properties of the layer store

    Reference counts are exact in every interleaving of the calls, so that no release panics,
    layers that are in use are never removed and layers that are not are; registering is
    deduplicated; a reference is released once; chains are bounded; a restored store has the
    layers of its files with exact counts. *)

From S2P Require Import Prelude Counting LayerStore LayerStoreSpec LayerStoreSystem LayerStoreRestore.
Open Scope string_scope.
Open Scope list_scope.
Open Scope Z_scope.

(** ** The states of a daemon that started from a metadata directory *)

Definition initial (files : gmap string layerFiles) (mfiles : gmap string mountFiles)
    (ids names : list string) : sys :=
  Sys (newStoreFromGraphDriver files mfiles ids names) [] ∅ [].

(** The directory: every layer is listed once, and no layer is its own ancestor. *)
Record directory (files : gmap string layerFiles) (ids : list string) (rank : string -> nat) : Prop := {
  dir_once : NoDup ids;
  dir_all c : is_Some (files !! c) -> c ∈ ids;
  dir_acyclic c f : files !! c = Some f -> f_parent f <> "" -> (rank (f_parent f) < rank c)%nat
}.

Lemma initial_sinv files mfiles ids names rank :
  directory files ids rank -> sinv (initial files mfiles ids names).
Proof.
  intros Hd. destruct (newStore_ok files rank (dir_acyclic _ _ _ Hd) mfiles ids names
    (dir_once _ _ _ Hd) (dir_all _ _ _ Hd)) as [Hr _]. constructor; cbn.
  - apply Hr.
  - by constructor.
  - intros n p Hn. by apply not_elem_of_nil in Hn.
Qed.

Lemma reachable_inv ChainID files mfiles ids names rank s :
  directory files ids rank -> reachable ChainID (initial files mfiles ids names) s -> sinv s.
Proof.
  intros Hd Hr. destruct (reachable_sinv ChainID _ s (initial_sinv files mfiles ids names rank Hd) Hr) as [? _].
  done.
Qed.

(** ** Use *)

(** A client has a reference to the layer, a running call holds it, or a mount is on it. *)
Definition in_use (s : sys) (x : nat) : Prop :=
  (exists rl r, heap (store s) !! x = Some rl /\ r ∈ l_references rl) \/
  x ∈ pending s \/
  (exists n m, mounts (store s) !! n = Some m /\ m_parent m = Some x).

(** [y] is [x] or an ancestor of it. *)
Definition onto (s : sys) : nat -> nat -> Prop := rtc (fun x y => parentOf (heap (store s)) x = Some y).

Lemma in_use_mapped s x : sinv s -> in_use s x -> mapped (store s) x.
Proof.
  intros Hv. pose proof (si_inv _ Hv) as Hi. intros [(rl&r&Hx&Hr)|[Hx|(n&m&Hn&Hm)]].
  - by apply (lv_refs _ _ Hi x rl r).
  - apply (lv_ext _ _ Hi), elem_of_app. by left.
  - by apply (lv_mount _ _ Hi n m).
Qed.

Lemma onto_mapped s x y : sinv s -> mapped (store s) x -> onto s x y -> mapped (store s) y.
Proof.
  intros Hv Hx. induction 1 as [|x y z Hxy _ IH]; [done|]. apply IH. by apply (lv_parent _ _ (si_inv _ Hv) x).
Qed.

(** A layer with a positive count is used, leaked, or has a layer on top. *)
Lemma holder s l rl :
  sinv s -> mapped (store s) l -> heap (store s) !! l = Some rl -> 0 < l_referenceCount rl ->
  in_use s l \/ l ∈ leaked (store s) \/
  exists x, mapped (store s) x /\ parentOf (heap (store s)) x = Some l /\ (l < x)%nat.
Proof.
  intros Hv Hm Hl Hc. pose proof (si_inv _ Hv) as Hi. rewrite (lv_count _ _ Hi l rl Hm Hl) in Hc.
  unfold holders, children, mountsOn in Hc.
  destruct (decide (l_references rl = ∅)) as [Hz|(r&Hr)%set_choose_L].
  2: { left. left. eauto. }
  rewrite Hz, size_empty in Hc.
  destruct (decide (0 < count (fun x => parentOf (heap (store s)) x = Some l) (values (layerMap (store s))))) as [Hp|].
  { right. right. apply count_exists in Hp as (x&Hx%elem_of_values&Hxp). exists x. split; [done|]. split; [done|].
    destruct (mapped_heap _ _ _ Hi Hx) as [rx Hrx]. unfold parentOf in Hxp. rewrite Hrx in Hxp.
    by apply (lv_alloc _ _ Hi x rx Hrx). }
  destruct (decide (0 < count (fun m => m_parent m = Some l) (values (mounts (store s))))) as [Hp|].
  { left. right. right. apply count_exists in Hp as (m&(nm&Hnm)%elem_of_values&Hp). eauto. }
  assert (Hp : 0 < count (fun x => x = l) (pending s ++ leaked (store s))) by lia.
  apply count_exists in Hp as (x&[Hx|Hx]%elem_of_app&->); [left; right; by left|right; by left].
Qed.

Lemma used_above s l :
  sinv s -> no_garbage (store s) -> mapped (store s) l ->
  exists x, onto s x l /\ (in_use s x \/ x ∈ leaked (store s)).
Proof.
  intros Hv Hg. remember (nextObj (store s) - l)%nat as n eqn:En. revert l En.
  induction n as [n IH] using lt_wf_ind. intros l -> Hm.
  destruct (mapped_heap _ _ _ (si_inv _ Hv) Hm) as [rl Hl].
  destruct (holder s l rl Hv Hm Hl (Hg l rl Hm Hl)) as [Hu|[Hk|(x&Hx&Hxl&Hlt)]].
  - exists l. split; [apply rtc_refl|by left].
  - exists l. split; [apply rtc_refl|by right].
  - destruct (lv_alloc _ _ (si_inv _ Hv) l rl Hl) as [Hlo _].
    destruct (IH (nextObj (store s) - x)%nat ltac:(lia) x eq_refl Hx) as (y&Hy&?).
    exists y. split; [|done]. by eapply rtc_r.
Qed.

(** ** Claims *)

(** C8: Reference counts are exact: in every state of every interleaving of the calls, from any
    metadata directory, the count of a layer that can be found is the number of the references
    of its clients, plus the layers on top of it, the mounts on it, and the holds of running
    calls and of layers whose deletion failed. *)
Theorem layer_counts_exact ChainID files mfiles ids names rank s :
  directory files ids rank -> reachable ChainID (initial files mfiles ids names) s ->
  forall c l, layerMap (store s) !! c = Some l ->
  exists rl, heap (store s) !! l = Some rl /\ l_chainID rl = c /\
    l_referenceCount rl = Z.of_nat (size (l_references rl)) + children (store s) l + mountsOn (store s) l +
                          count (fun x => x = l) (pending s ++ leaked (store s)).
Proof.
  intros Hd Hr c l Hc. pose proof (si_inv _ (reachable_inv _ _ _ _ _ _ _ Hd Hr)) as Hi.
  destruct (lv_map _ _ Hi c l Hc) as (rl&Hl&Ec). exists rl. split; [done|]. split; [done|].
  rewrite (lv_count _ _ Hi l rl ltac:(by exists c) Hl). unfold holders. lia.
Qed.

(** No release panics, in any interleaving, for whichever layer a client passes; and a layer
    that is referenced, held or mounted is found under its identifier, with all its
    ancestors. *)
Theorem layer_release_safe ChainID files mfiles ids names rank s :
  directory files ids rank -> reachable ChainID (initial files mfiles ids names) s ->
  (forall del h, (Release del h (store s)).2 <> ReleasePanic) /\
  (forall del p, p ∈ held s -> (releaseLayer del p (store s)).2 <> ReleasePanic) /\
  (forall x y, in_use s x -> onto s x y ->
     exists ry, heap (store s) !! y = Some ry /\ layerMap (store s) !! l_chainID ry = Some y).
Proof.
  intros Hd Hr. pose proof (reachable_inv _ _ _ _ _ _ _ Hd Hr) as Hv. pose proof (si_inv _ Hv) as Hi.
  split; [|split].
  - intros del h. pose proof (Release_ok del h _ _ Hi) as H. destruct (Release del h (store s)). apply H.
  - intros del p (h1&h2&Hp)%list_elem_of_split.
    assert (Hi' : linv (p :: (h1 ++ h2) ++ omap snd (creating s)) (store s)).
    { apply (linv_perm (pending s)); [|done]. unfold pending. rewrite Hp. by rewrite <- Permutation_middle. }
    pose proof (releaseLayer_ok del p _ _ Hi') as H. destruct (releaseLayer del p (store s)). apply H.
  - intros x y Hu Hon. pose proof (onto_mapped s x y Hv (in_use_mapped s x Hv Hu) Hon) as Hm.
    destruct (mapped_heap _ _ _ Hi Hm) as [ry Hy]. exists ry. split; [done|]. by eapply mapped_chain.
Qed.

Lemma empty_no_garbage : no_garbage emptyStore.
Proof. intros l rl (c&Hc). unfold emptyStore in Hc. cbn [layerMap] in Hc. by rewrite lookup_empty in Hc. Qed.

Lemma empty_bounded : bounded emptyStore.
Proof. intros l (c&Hc). unfold emptyStore in Hc. cbn [layerMap] in Hc. by rewrite lookup_empty in Hc. Qed.

Lemma empty_directory : directory ∅ [] (fun _ => 0%nat).
Proof.
  constructor.
  - apply NoDup_nil_2.
  - intros c. rewrite lookup_empty. by intros [? [=]].
  - intros c f. by rewrite lookup_empty.
Qed.

(** C9: Collection is exact: in a store that started empty, a layer is found if and only if it, or
    a layer built on it, is referenced, held, mounted, or held by a layer whose deletion
    failed. *)
Theorem layer_gc_exact ChainID s :
  reachable ChainID (Sys emptyStore [] ∅ []) s ->
  forall l, mapped (store s) l <->
    exists x, onto s x l /\ (in_use s x \/ x ∈ leaked (store s)).
Proof.
  intros Hr l. pose proof (initial_sinv ∅ ∅ [] [] _ empty_directory) as H0.
  destruct (reachable_sinv ChainID _ s H0 Hr) as (Hv&Hg&_). specialize (Hg empty_no_garbage).
  split; [by apply used_above|]. intros (x&Hon&[Hu|Hk]); apply (onto_mapped s x l Hv); try done.
  - by apply in_use_mapped.
  - apply (lv_ext _ _ (si_inv _ Hv)), elem_of_app. by right.
Qed.

(** Chains are bounded: no layer of a store that started empty has more than 125 layers in its
    chain; a layer on a parent is refused with [ErrMaxDepthExceeded] exactly when the parent is
    at the bound. *)
Theorem layer_depth_bound ChainID s :
  reachable ChainID (Sys emptyStore [] ∅ []) s ->
  forall c l, layerMap (store s) !! c = Some l -> c <> "" ->
  (depth l (store s) <= maxLayerDepth)%nat /\
  ((exists ls p, register_start c (store s) = (ls, inr (ErrMaxDepthExceeded, p))) <->
   depth l (store s) = maxLayerDepth).
Proof.
  intros Hr c l Hc Hne. pose proof (initial_sinv ∅ ∅ [] [] _ empty_directory) as H0.
  destruct (reachable_sinv ChainID _ s H0 Hr) as (Hv&_&Hb). specialize (Hb empty_bounded).
  pose proof (Hb l ltac:(by exists c)) as Hle. split; [done|].
  pose proof (get_ok c _ _ (si_inv _ Hv)) as Hg. unfold register_start.
  rewrite bool_decide_eq_false_2 by done. destruct (get c (store s)) as [ls1 r]. destruct r as [l'|].
  2: { destruct Hg as [_ ?]. congruence. }
  destruct Hg as (Hl&Hi1&Hk&_). rewrite Hc in Hl. injection Hl as <-.
  assert (Ed : depth l ls1 = depth l (store s)).
  { apply (depth_keeps (pending s)); [apply Hv|done|by exists c]. }
  rewrite Ed. destruct (Nat.leb_spec maxLayerDepth (depth l (store s))); split.
  - intros _. lia.
  - intros _. eauto.
  - by intros (?&?&[=]).
  - lia.
Qed.

(** ** Registering the same content twice *)

(** No count goes down and no layer changes its place. *)
Definition grows (ls ls' : layerStore) : Prop :=
  (nextRef ls <= nextRef ls')%nat /\
  forall x rx, heap ls !! x = Some rx -> exists rx', heap ls' !! x = Some rx' /\
    l_referenceCount rx <= l_referenceCount rx' /\ l_chainID rx' = l_chainID rx.

#[local] Instance grows_preorder : PreOrder grows.
Proof.
  split.
  - intros ls. split; [done|]. eauto with lia.
  - intros a b c [Hn H1] [Hn' H2]. split; [lia|]. intros x rx Hx. destruct (H1 x rx Hx) as (rx1&Hx1&?&?).
    destruct (H2 x rx1 Hx1) as (rx2&Hx2&?&?). exists rx2. split; [done|]. split; [lia|congruence].
Qed.

Lemma grows_set l rl rl' nr ls :
  heap ls !! l = Some rl -> l_referenceCount rl <= l_referenceCount rl' -> l_chainID rl' = l_chainID rl ->
  (nextRef ls <= nr)%nat -> grows ls (set_nextRef nr (setLayer l rl' ls)).
Proof.
  intros Hl Hc Ec Hnr. split; [done|]. intros x rx Hx. cbn. destruct (decide (x = l)) as [->|].
  - simplify_eq. exists rl'. by rewrite lookup_insert_eq.
  - exists rx. by rewrite lookup_insert_ne.
Qed.

Lemma grows_get c ls : grows ls (get c ls).1.
Proof.
  unfold get. destruct (layerMap ls !! c) as [l|]; [|done]. destruct (heap ls !! l) as [rl|] eqn:Hl; [|done].
  cbn [fst]. rewrite <- set_nextRef_same. apply (grows_set l rl); [done|cbn; lia|done|done].
Qed.

Lemma grows_getReference l ls : grows ls (getReference l ls).1.
Proof.
  unfold getReference. destruct (heap ls !! l) as [rl|] eqn:Hl; [|done].
  cbn [fst]. apply (grows_set l rl); [done|cbn; lia|done|lia].
Qed.

Lemma grows_finish ChainID p d cache sz ok ext ls :
  linv ext ls -> grows ls (register_finish ChainID p d cache sz ok ls).1.1.
Proof.
  intros Hi. unfold register_finish. pose proof (grows_get (chainIDOf ChainID p d ls) ls) as H1.
  pose proof (get_ok (chainIDOf ChainID p d ls) ext ls Hi) as Hg.
  destruct (get _ ls) as [ls1 [x|]]; cbn [fst] in H1.
  - pose proof (grows_getReference x ls1) as H2. destruct (getReference x ls1) as [ls2 h]. by etransitivity.
  - destruct Hg as [-> Hc]. destruct ok; cbn [negb]; [|done].
    match goal with |- grows ls (let '(_, _) := getReference ?l ?s in _).1.1 => set (ls2 := s) end.
    assert (Ha : grows ls ls2).
    { split; [done|]. intros x rx Hx. exists rx. split; [|done]. cbn. rewrite lookup_insert_ne; [done|].
      destruct (lv_alloc _ _ Hi x rx Hx). lia. }
    pose proof (grows_getReference (nextObj ls) ls2) as H2.
    destruct (getReference (nextObj ls) ls2) as [ls3 h]. by etransitivity.
Qed.

(** A hold on a layer that has another holder can be released without an effect on the map. *)
Lemma releaseLayer_shared del p ls pl :
  heap ls !! p = Some pl -> 1 < l_referenceCount pl ->
  releaseLayer del p ls = (setLayer p (with_count pl (l_referenceCount pl - 1)) ls, Released []).
Proof.
  intros Hp Hc. unfold releaseLayer. cbn [releaseLayer_loop]. rewrite Hp.
  destruct (Z.eqb_spec (l_referenceCount pl) 0); [lia|]. cbn [with_count l_referenceCount].
  destruct (Z.eqb_spec (l_referenceCount pl - 1) 0); [lia|]. done.
Qed.

(** The parent of a call, as the client names it. *)
Definition parentNamed (ls : layerStore) (parent : string) (p : option nat) : Prop :=
  match p with
  | None => parent = ""
  | Some q => parent <> "" /\ layerMap ls !! parent = Some q /\ (depth q ls < maxLayerDepth)%nat
  end.

Lemma register_start_named parent ls ls' p ext :
  linv ext ls -> register_start parent ls = (ls', inl p) ->
  parentNamed ls parent p /\ grows ls ls' /\ nextRef ls' = nextRef ls /\
  nextObj ls' = nextObj ls /\ forall q ql ql', p = Some q -> heap ls !! q = Some ql -> heap ls' !! q = Some ql' ->
    l_referenceCount ql' = l_referenceCount ql + 1.
Proof.
  intros Hi. unfold register_start. case_bool_decide as Ep; [by intros [= <- <-]|].
  pose proof (get_ok parent ext ls Hi) as Hg. pose proof (grows_get parent ls) as Hgr.
  destruct (get parent ls) as [ls1 [q|]] eqn:Eg; [|done]. cbn [fst] in Hgr.
  destruct Hg as (Hq&Hi1&Hk&Hm). destruct (Nat.leb_spec maxLayerDepth (depth q ls1)) as [|Hd]; [done|].
  intros [= <- <-]. split; [|split; [done|]].
  - split; [done|]. split; [done|]. unfold depth in *. rewrite <- (depth_keeps ext ls ls1); [done..|by exists parent].
  - unfold get in Eg. rewrite Hq in Eg. destruct (heap ls !! q) as [ql|] eqn:Hql; [|done].
    injection Eg as <-. split; [done|]. split; [done|]. intros x xl xl' [= <-] Hxl. cbn. rewrite lookup_insert_eq.
    intros [= <-]. cbn. congruence.
Qed.

Lemma parentNamed_start parent p ls ext :
  linv ext ls -> parentNamed ls parent p -> exists ls', register_start parent ls = (ls', inl p).
Proof.
  intros Hi Hp. unfold register_start. destruct p as [q|]; [|rewrite bool_decide_eq_true_2 by done; eauto].
  destruct Hp as (Hne&Hq&Hd). rewrite bool_decide_eq_false_2 by done.
  pose proof (get_ok parent ext ls Hi) as Hg. destruct (get parent ls) as [ls1 [q'|]].
  - destruct Hg as (Hq'&Hi1&Hk&_). rewrite Hq in Hq'. injection Hq' as <-.
    destruct (Nat.leb_spec maxLayerDepth (depth q ls1)) as [Hle|]; [|eauto].
    unfold depth in *. rewrite (depth_keeps ext ls ls1) in Hle; [lia|done..|by exists parent].
  - destruct Hg. congruence.
Qed.

Section Dedup.
Context (ChainID : string -> string -> string).

(** The identifier of a layer with the content [d] on the parent. *)
Definition chainName (parent d : string) : string :=
  if bool_decide (parent = "") then d else ChainID parent d.

Lemma chainIDOf_named ext ls parent p d :
  linv ext ls -> parentNamed ls parent p -> chainIDOf ChainID p d ls = chainName parent d.
Proof.
  intros Hi Hp. unfold chainName. destruct p as [q|]; [|by rewrite bool_decide_eq_true_2].
  destruct Hp as (Hne&Hq&_). rewrite bool_decide_eq_false_2 by done. cbn.
  by destruct (lv_map _ _ Hi _ _ Hq) as (ql&->&->).
Qed.

Lemma parentNamed_keeps ext ls ls' parent p :
  linv ext ls -> keeps ls ls' -> layerMap ls ⊆ layerMap ls' -> parentNamed ls parent p -> parentNamed ls' parent p.
Proof.
  intros Hi Hk Hsub. destruct p as [q|]; [|done]. intros (?&Hq&Hd). split; [done|].
  split; [by eapply lookup_weaken|]. unfold depth. rewrite (depth_keeps ext ls ls'); [done..|by exists parent].
Qed.

(** The release at the end of a call that found its layer, or could not commit. *)
Lemma release_hold_shared del p ls ls2 ext :
  linv (hold p ext) ls2 -> keeps ls ls2 -> no_garbage ls ->
  (forall q ql2, p = Some q -> heap ls2 !! q = Some ql2 -> 1 < l_referenceCount ql2) ->
  let ls' := release_hold del p ls2 in
  linv ext ls' /\ keeps ls ls' /\ layerMap ls' = layerMap ls2 /\ nextRef ls' = nextRef ls2 /\ nextObj ls' = nextObj ls2.
Proof.
  intros Hi Hk Hg Hc. destruct p as [q|]; cbn [release_hold hold] in *; [|done].
  assert (Hm : mapped ls2 q) by (apply (lv_ext _ _ Hi); left).
  destruct (mapped_heap _ _ _ Hi Hm) as [ql Hq].
  pose proof (releaseLayer_ok del q ext ls2 Hi) as H. pose proof (keeps_releaseLayer del q ext ls2 Hi) as Hk2.
  rewrite (releaseLayer_shared del q ls2 ql Hq (Hc q ql eq_refl Hq)) in *. cbn [fst] in *.
  destruct H as (?&_). split; [done|]. split; [by etransitivity|done].
Qed.

(** A call with content that can be applied and stored, on a parent that is there. *)
Lemma Register_named del d cache z ok parent p ext ls :
  linv ext ls -> no_garbage ls -> parentNamed ls parent p ->
  let c := chainName parent d in
  let '(ls', r) := Register ChainID del (Applied d cache z ok) parent ls in
  linv ext ls' /\ keeps ls ls' /\ layerMap ls ⊆ layerMap ls' /\
  match layerMap ls !! c with
  | Some l => r = inl (LRef (nextRef ls) l) /\ layerMap ls' = layerMap ls /\ nextObj ls' = nextObj ls
  | None => if ok then r = inl (LRef (nextRef ls) (nextObj ls)) /\ layerMap ls' = <[c := nextObj ls]> (layerMap ls)
            else r = inr ErrDriver /\ layerMap ls' = layerMap ls
  end /\ (forall h, r = inl h -> (nextRef ls < nextRef ls')%nat).
Proof.
  intros Hi Hg Hp c. unfold Register. destruct (parentNamed_start parent p ls ext Hi Hp) as [ls1 Hs]. rewrite Hs.
  destruct (register_start_named _ _ _ _ _ Hi Hs) as (_&Hgr1&Hnr1&Hno1&Hinc).
  destruct (register_start_ok _ _ _ _ _ Hi Hs) as (Hi1&Hk1&Hm1&_).
  assert (Ec : chainIDOf ChainID p d ls1 = c).
  { apply (chainIDOf_named _ ls1 parent p d Hi1). apply (parentNamed_keeps ext ls); [done..|by rewrite Hm1|done]. }
  destruct (register_finish ChainID p d cache z ok ls1) as [[ls2 r] again] eqn:Hf.
  pose proof (grows_finish ChainID p d cache z ok _ ls1 Hi1) as Hgr2. rewrite Hf in Hgr2. cbn [fst] in Hgr2.
  destruct (register_finish_ok _ _ _ _ _ _ _ _ _ _ _ Hi1 Hf) as (Hi2&Hk2&Hres). rewrite Ec, Hm1, Hnr1, Hno1 in Hres.
  assert (Hk : keeps ls ls2) by (by etransitivity).
  assert (Hcount : forall q ql2, p = Some q -> heap ls2 !! q = Some ql2 -> 1 < l_referenceCount ql2).
  { intros q ql2 -> Hq2. destruct Hp as (_&Hq&_). destruct (lv_map _ _ Hi _ _ Hq) as (ql&Hql&_).
    destruct Hgr1 as [_ Hgr1]. destruct (Hgr1 q ql Hql) as (ql1&Hql1&_). destruct Hgr2 as [_ Hgr2].
    destruct (Hgr2 q ql1 Hql1) as (ql2'&Hq2'&Hle&_). simplify_eq.
    specialize (Hinc q ql ql1 eq_refl Hql Hql1). specialize (Hg q ql ltac:(by exists parent) Hql). lia. }
  destruct again.
  - destruct (release_hold_shared del p ls ls2 ext Hi2 Hk Hg Hcount) as (Hi'&Hk'&->&->&->).
    split; [done|]. split; [done|]. destruct r as [h|e].
    + destruct Hres as (l&->&Hl&Hnr2&Hm2&Hno2). rewrite Hm2 in *. split; [done|]. rewrite Hl.
      split; [done|]. intros h _. lia.
    + destruct Hres as (->&_&->&->&->). rewrite Hm1. done.
  - split; [done|]. split; [done|]. destruct r as [h|e]; [|by destruct Hres as (_&?&_)].
    destruct Hres as (l&->&Hl&Hnr2&->&->&Hn&_&Hm2). rewrite Hm2, Hn. split; [by apply insert_subseteq|].
    split; [done|]. intros h _. lia.
Qed.
End Dedup.

Section Calls.
Context (ChainID : string -> string -> string).

Lemma reachable_trans s0 s1 s2 : reachable ChainID s0 s1 -> reachable ChainID s1 s2 -> reachable ChainID s0 s2.
Proof. intros H1. induction 1; [done|by econstructor]. Qed.

Lemma reachable_one s s' : step ChainID s s' -> reachable ChainID s s'.
Proof. intros H. eapply reach_step; [apply reach_refl|done]. Qed.

Lemma release_hold_run del p ls h lk cr :
  reachable ChainID (Sys ls (hold p h) lk cr) (Sys (release_hold del p ls) h lk cr).
Proof.
  destruct p as [q|]; cbn [hold release_hold]; [|apply reach_refl].
  by apply reachable_one, (step_release_hold ChainID del q (Sys ls (q :: h) lk cr) h).
Qed.

(** A call of [Register] without interleaving is a run of its sections. *)
Lemma Register_run del out parent s :
  sinv s -> reachable ChainID s (Sys (Register ChainID del out parent (store s)).1 (held s) (locked s) (creating s)).
Proof.
  intros Hv. unfold Register. destruct (register_start parent (store s)) as [ls [p|[e p]]] eqn:Hs.
  - eapply reachable_trans; [by apply reachable_one, (step_register_start ChainID parent s ls p)|].
    destruct out as [|d cache z ok]; [apply release_hold_run|].
    destruct (register_finish ChainID p d cache z ok ls) as [[ls2 r] again] eqn:Hf.
    destruct (register_start_ok _ _ _ _ _ (si_inv _ Hv) Hs) as (_&_&_&Hd).
    eapply reachable_trans.
    { apply reachable_one. eapply (step_register_finish ChainID p d cache z ok (Sys _ _ _ _) (held s)); [done| |exact Hf].
      intros q Hq. by apply Hd. }
    destruct again; [apply release_hold_run|apply reach_refl].
  - eapply reachable_trans; [by apply reachable_one, (step_register_refused ChainID parent s ls e p)|].
    apply release_hold_run.
Qed.

Lemma step_get_run c s : reachable ChainID s (Sys (Get c (store s)).1 (held s) (locked s) (creating s)).
Proof. apply reachable_one, step_get. Qed.

End Calls.

(** Registering is deduplicated: in any state a call of [Register] that succeeds and, in the
    state it leaves, a second call with the same parent and content give two references to one
    layer; the second call succeeds whether or not its commit would, and leaves the map of
    layers as it is. *)
Theorem register_dedup ChainID s del del' d cache1 cache2 z1 z2 ok1 ok2 parent ls1 h1 :
  reachable ChainID (Sys emptyStore [] ∅ []) s ->
  Register ChainID del (Applied d cache1 z1 ok1) parent (store s) = (ls1, inl h1) ->
  exists l r1 r2 ls2, h1 = LRef r1 l /\
    Register ChainID del' (Applied d cache2 z2 ok2) parent ls1 = (ls2, inl (LRef r2 l)) /\
    r1 <> r2 /\ layerMap ls1 !! chainName ChainID parent d = Some l /\
    layerMap ls2 = layerMap ls1 /\ nextObj ls2 = nextObj ls1.
Proof.
  intros Hr H1. pose proof (initial_sinv ∅ ∅ [] [] _ empty_directory) as H0.
  destruct (reachable_sinv ChainID _ s H0 Hr) as (Hv&Hg&_). specialize (Hg empty_no_garbage).
  assert (Hp : exists p, parentNamed (store s) parent p).
  { unfold Register in H1. destruct (register_start parent (store s)) as [ls [p|[e p]]] eqn:Hs; [|done].
    exists p. by apply (register_start_named parent _ _ _ _ (si_inv _ Hv) Hs). }
  destruct Hp as [p Hp].
  pose proof (Register_named ChainID del d cache1 z1 ok1 parent p _ _ (si_inv _ Hv) Hg Hp) as HR. rewrite H1 in HR.
  destruct HR as (Hi1&Hk1&Hsub&Hres&Hnr). specialize (Hnr h1 eq_refl).
  assert (Hl : exists l, h1 = LRef (nextRef (store s)) l /\ layerMap ls1 !! chainName ChainID parent d = Some l).
  { destruct (layerMap (store s) !! chainName ChainID parent d) as [l|] eqn:El.
    - destruct Hres as ([= ->]&->&_). eauto.
    - destruct ok1; [|by destruct Hres]. destruct Hres as [[= ->] ->]. eexists. split; [done|]. apply lookup_insert_eq. }
  destruct Hl as (l&->&Hl).
  pose proof (Register_named ChainID del' d cache2 z2 ok2 parent p _ _ Hi1 (k_garbage _ _ Hk1 Hg)
    (parentNamed_keeps _ _ _ _ _ (si_inv _ Hv) Hk1 Hsub Hp)) as HR2. cbn zeta in HR2. rewrite Hl in HR2.
  destruct (Register ChainID del' (Applied d cache2 z2 ok2) parent ls1) as [ls2 r2].
  destruct HR2 as (_&_&_&(->&?&?)&_). exists l, (nextRef (store s)), (nextRef ls1), ls2. repeat split; try done. lia.
Qed.

(** ** A reference is released once *)

Lemma releaseLayer_refs del fuel l d removed ls x rx :
  heap (releaseLayer_loop del fuel l d removed ls).1 !! x = Some rx ->
  exists rx0, heap ls !! x = Some rx0 /\ l_references rx = l_references rx0 /\ l_chainID rx = l_chainID rx0.
Proof.
  revert l d removed ls. induction fuel as [|fuel IH]; intros l d removed ls; [eauto|].
  cbn [releaseLayer_loop]. destruct (heap ls !! l) as [rl|] eqn:Hl; [|eauto].
  set (rl1 := with_count rl _).
  assert (Hset : heap (setLayer l rl1 ls) !! x = Some rx -> 
    exists rx0, heap ls !! x = Some rx0 /\ l_references rx = l_references rx0 /\ l_chainID rx = l_chainID rx0).
  { cbn. intros [[<- <-]|[_ ?]]%lookup_insert_Some; eauto. }
  destruct (_ =? 0); [eauto|]. destruct (negb (_ =? 0)); [done|]. destruct (_ && _); [done|].
  case_bool_decide; [done|]. destruct (negb (del l)); [by destruct (l_parent rl1)|].
  destruct (l_parent rl1); [|done]. intros (rx0&Hx&E&E')%IH. revert rx0 Hx E E'. clear IH Hset.
  cbn [set_layerMap heap setLayer set_heap]. intros rx0 [[<- <-]|[_ ?]]%lookup_insert_Some E E'; [exists rl|exists rx0]; by rewrite E, E'.
Qed.

(** The references after one of them is deleted and its layer released. *)
Lemma unref_release del l rl r ls y ry' :
  heap ls !! l = Some rl ->
  heap (releaseLayer del l (setLayer l (with_references rl (l_references rl ∖ {[r]})) ls)).1 !! y = Some ry' ->
  exists ry, heap ls !! y = Some ry /\
    l_references ry' = (if decide (y = l) then l_references ry ∖ {[r]} else l_references ry) /\
    l_chainID ry' = l_chainID ry.
Proof.
  intros Hl (ry0&Hy0&->&->)%releaseLayer_refs. cbn in Hy0. case_decide as E.
  - subst y. rewrite lookup_insert_eq in Hy0. injection Hy0 as <-. eauto.
  - rewrite lookup_insert_ne in Hy0 by done. eauto.
Qed.

(** A release that has no effect. *)
Definition inert (h : Layer) (ls : layerStore) : Prop :=
  forall del, exists r, Release del h ls = (ls, r) /\ (r = Released [] \/ r = ReleaseErr ErrLayerNotRetained).

Lemma Release_cases h ls :
  inert h ls \/
  exists r x l rl, h = LRef r x /\ mapped ls l /\ heap ls !! l = Some rl /\ r ∈ l_references rl /\
    forall del, Release del h ls =
      releaseLayer del l (setLayer l (with_references rl (l_references rl ∖ {[r]})) ls).
Proof.
  unfold inert, Release. destruct (heap ls !! locOf h) as [hl|]; [|eauto].
  destruct (layerMap ls !! l_chainID hl) as [l|] eqn:El; [|eauto].
  destruct (heap ls !! l) as [rl|] eqn:Hl; [|eauto].
  destruct (hasReference h rl) eqn:Eh; cbn [negb]; [|eauto].
  destruct h as [r x|x]; cbn [hasReference] in Eh; [|done]. apply bool_decide_eq_true in Eh.
  right. exists r, x, l, rl. split; [done|]. split; [by exists (l_chainID hl)|done].
Qed.

Lemma released_gone r x ls :
  (forall y ry, heap ls !! y = Some ry -> r ∉ l_references ry) -> inert (LRef r x) ls.
Proof.
  intros Hn. destruct (Release_cases (LRef r x) ls) as [?|(r'&x'&l&rl&[= -> ->]&_&Hl&Hr&_)]; [done|].
  by apply Hn in Hl.
Qed.

(** A reference is released once: a second release of it is refused or finds nothing, and
    changes nothing; the release of one reference leaves every other one valid, and its layer
    in the map. *)
Theorem layer_release_once ChainID files mfiles ids names rank s del h ls' r :
  directory files ids rank -> reachable ChainID (initial files mfiles ids names) s ->
  Release del h (store s) = (ls', r) ->
  inert h ls' /\
  (forall y ry r0, heap (store s) !! y = Some ry -> r0 ∈ l_references ry ->
     (forall r x, h = LRef r x -> r0 <> r) ->
     exists ry', heap ls' !! y = Some ry' /\ r0 ∈ l_references ry' /\ layerMap ls' !! l_chainID ry' = Some y).
Proof.
  intros Hd Hreach HR. pose proof (si_inv _ (reachable_inv _ _ _ _ _ _ _ Hd Hreach)) as Hi.
  pose proof (Release_ok del h _ _ Hi) as Hok. rewrite HR in Hok. destruct Hok as (Hi'&Hk'&_).
  assert (Hmap : forall y ry' r0, heap ls' !! y = Some ry' -> r0 ∈ l_references ry' ->
    layerMap ls' !! l_chainID ry' = Some y).
  { intros y ry' r0 Hy Hr0. eapply mapped_chain; [done| |done]. by eapply lv_refs. }
  destruct (Release_cases h (store s)) as [Hin|(r1&x&l&rl&->&Hm&Hl&Hr1&Heq)].
  { destruct (Hin del) as (r'&E&_). rewrite HR in E. injection E as -> _. split; [done|]. eauto. }
  rewrite Heq in HR. set (ls1 := setLayer l _ (store s)) in HR.
  assert (Hrefs : forall y ry', heap ls' !! y = Some ry' -> exists ry, heap (store s) !! y = Some ry /\
    l_references ry' = if decide (y = l) then l_references ry ∖ {[r1]} else l_references ry).
  { intros y ry' Hy. replace ls' with (releaseLayer del l ls1).1 in Hy by (by rewrite HR).
    destruct (unref_release del l rl r1 (store s) y ry' Hl Hy) as (ry&?&?&_). eauto. }
  split.
  - apply released_gone. intros y ry' (ry&Hy&->)%Hrefs Hin. case_decide as E; [set_solver|].
    destruct E. by apply (lv_uniq _ _ Hi y ry l rl r1).
  - intros y ry r0 Hy Hr0 Hne. destruct (k_heap _ _ Hk' y ltac:(eauto)) as [ry' Hy'].
    destruct (Hrefs y ry' Hy') as (ry0&Hy0&E). simplify_eq. specialize (Hne r1 x eq_refl).
    assert (Hin : r0 ∈ l_references ry') by (rewrite E; case_decide; set_solver). eauto.
Qed.

(** Restoring is exact: the store built from a metadata directory has exactly the layers all of
    whose ancestors have their files, with the contents of the files and the parent they name,
    exactly the listed mounts whose parent can be loaded, and each layer's count is the number
    of its children and mounts. *)
Theorem layer_restore_exact files mfiles ids names rank :
  directory files ids rank ->
  let ls := newStoreFromGraphDriver files mfiles ids names in
  (forall c, is_Some (layerMap ls !! c) <-> loadable files c) /\
  (forall n, is_Some (mounts ls !! n) <-> n ∈ names /\ mountOK files mfiles n) /\
  (forall c l, layerMap ls !! c = Some l -> exists rl, heap ls !! l = Some rl /\ fromFiles files ls c rl /\
     l_references rl = ∅ /\ l_referenceCount rl = children ls l + mountsOn ls l).
Proof.
  intros Hd. destruct (newStore_ok files rank (dir_acyclic _ _ _ Hd) mfiles ids names
    (dir_once _ _ _ Hd) (dir_all _ _ _ Hd)) as [Hr Hm].
  set (ls := newStoreFromGraphDriver files mfiles ids names) in *. intros ls0. subst ls0.
  split; [apply Hr|]. split; [done|]. intros c l Hc.
  destruct (rs_files _ _ Hr c l Hc) as (rl&Hl&Hf&Hz). exists rl. do 3 (split; [done|]).
  rewrite (lv_count _ _ (rs_inv _ _ Hr) l rl ltac:(by exists c) Hl), Hz, size_empty. unfold holders.
  rewrite (rs_leaked _ _ Hr), app_nil_r, count_nil. lia.
Qed.

(** ** Concrete runs *)

Definition exChain (p d : string) : string := (p ++ "+" ++ d)%string.
Definition exFiles : gmap string layerFiles :=
  {[ "a" := LayerFiles "da" 10 "ca" ""; "b" := LayerFiles "db" 5 "cb" "a"; "x" := LayerFiles "dx" 1 "cx" "gone" ]}.
Definition exMounts : gmap string mountFiles := {[ "m" := MountFiles "mid" "mid-init" "b" ]}.
Definition exRank (c : string) : nat := if bool_decide (c = "b") then 1 else if bool_decide (c = "x") then 1 else 0.
Definition exIds : list string := ["x"; "b"; "a"].

Lemma ex_directory : directory exFiles exIds exRank.
Proof.
  assert (Hin : forall c f, exFiles !! c = Some f ->
    (c = "a" /\ f_parent f = "") \/ (c = "b" /\ f_parent f = "a") \/ (c = "x" /\ f_parent f = "gone")).
  { intros c f. unfold exFiles. rewrite !lookup_insert_Some, lookup_singleton_Some. naive_solver. }
  constructor.
  - unfold exIds. repeat (apply list.NoDup_cons; split; [set_solver|]). apply NoDup_nil_2.
  - intros c [f Hf%Hin]. unfold exIds. set_solver.
  - intros c f Hf%Hin Hp. destruct Hf as [[-> E]|[[-> E]|[-> E]]]; rewrite E in *; [done|by apply Nat.ltb_lt..].
Qed.

(** The restored store with two references to ["b"], one of them released. *)
Definition exStart : sys := initial exFiles exMounts exIds ["m"].
Definition exGet (c : string) (s : sys) : sys := Sys (Get c (store s)).1 (held s) (locked s) (creating s).
Definition exState : sys := exGet "b" (exGet "b" exStart).

Lemma exState_reachable : reachable exChain exStart exState.
Proof. eapply reachable_trans; apply step_get_run. Qed.


Lemma layer_counts_exact_witness :
  exists rl, heap (store exState) !! 1%nat = Some rl /\ l_chainID rl = "b" /\
    l_referenceCount rl = Z.of_nat (size (l_references rl)) + children (store exState) 1 +
      mountsOn (store exState) 1 + count (fun x => x = 1%nat) (pending exState ++ leaked (store exState)).
Proof.
  exact (layer_counts_exact exChain exFiles exMounts exIds ["m"] exRank exState ex_directory exState_reachable
    "b" 1%nat ltac:(vm_compute; reflexivity)).
Defined.

Lemma layer_release_safe_witness :
  (Release (fun _ => true) (LRef 0 1) (store exState)).2 <> ReleasePanic /\
  exists ry, heap (store exState) !! 0%nat = Some ry /\ layerMap (store exState) !! l_chainID ry = Some 0%nat.
Proof.
  destruct (layer_release_safe exChain exFiles exMounts exIds ["m"] exRank exState ex_directory exState_reachable)
    as (H1&_&H3). split; [apply H1|]. apply (H3 1%nat 0%nat).
  - right. right. exists "m", (MountedLayer "m" "mid" "mid-init" (Some 1%nat) ∅). split; vm_compute; reflexivity.
  - apply rtc_once. vm_compute. reflexivity.
Defined.

Lemma layer_release_once_witness :
  (Release (fun _ => true) (LRef 0 1) (store exState)).2 = Released [] /\
  inert (LRef 0 1) (Release (fun _ => true) (LRef 0 1) (store exState)).1.
Proof.
  split; [vm_compute; reflexivity|].
  apply (layer_release_once exChain exFiles exMounts exIds ["m"] exRank exState (fun _ => true) (LRef 0 1) _
    (Release (fun _ => true) (LRef 0 1) (store exState)).2 ex_directory exState_reachable).
  apply surjective_pairing.
Defined.

Lemma layer_restore_exact_witness :
  is_Some (layerMap (newStoreFromGraphDriver exFiles exMounts exIds ["m"]) !! "b") /\ loadable exFiles "b".
Proof.
  destruct (layer_restore_exact exFiles exMounts exIds ["m"] exRank ex_directory) as (H&_&_).
  assert (Hb : is_Some (layerMap (newStoreFromGraphDriver exFiles exMounts exIds ["m"]) !! "b"))
    by (vm_compute; eexists; reflexivity).
  split; [exact Hb|]. apply H. exact Hb.
Defined.

(** Two layers registered in an empty store. *)
Definition exEmpty : sys := Sys emptyStore [] ∅ [].
Definition exReg (d parent : string) (s : sys) : sys :=
  Sys (Register exChain (fun _ => true) (Applied d ("c" ++ d)%string 7 true) parent (store s)).1
    (held s) (locked s) (creating s).
Definition exTwo : sys := exReg "d2" "d1" (exReg "d1" "" exEmpty).

Lemma exEmpty_sinv : sinv exEmpty.
Proof. exact (initial_sinv ∅ ∅ [] [] _ empty_directory). Qed.

Lemma exTwo_reachable : reachable exChain exEmpty exTwo.
Proof.
  assert (H1 : reachable exChain exEmpty (exReg "d1" "" exEmpty)) by apply (Register_run _ _ _ _ _ exEmpty_sinv).
  eapply reachable_trans; [exact H1|]. apply (Register_run _ _ _ _ _).
  apply (reachable_sinv exChain _ _ exEmpty_sinv H1).
Qed.

Lemma layer_gc_exact_witness :
  mapped (store exTwo) 0 <-> exists x, onto exTwo x 0 /\ (in_use exTwo x \/ x ∈ leaked (store exTwo)).
Proof. exact (layer_gc_exact exChain exTwo exTwo_reachable 0%nat). Defined.

Lemma layer_depth_bound_witness :
  (depth 1 (store exTwo) <= maxLayerDepth)%nat /\
  ((exists ls p, register_start "d1+d2" (store exTwo) = (ls, inr (ErrMaxDepthExceeded, p))) <->
   depth 1 (store exTwo) = maxLayerDepth).
Proof.
  apply (layer_depth_bound exChain exTwo exTwo_reachable "d1+d2" 1%nat); [vm_compute; reflexivity|discriminate].
Defined.

Lemma register_dedup_witness :
  exists l r1 r2 ls2, LRef 2 1 = LRef r1 l /\
    Register exChain (fun _ => false) (Applied "d2" "other" 9 false) "d1"
      (Register exChain (fun _ => true) (Applied "d2" "c" 7 true) "d1" (store exTwo)).1 = (ls2, inl (LRef r2 l)) /\
    r1 <> r2 /\
    layerMap (Register exChain (fun _ => true) (Applied "d2" "c" 7 true) "d1" (store exTwo)).1 !!
      chainName exChain "d1" "d2" = Some l /\
    layerMap ls2 = layerMap (Register exChain (fun _ => true) (Applied "d2" "c" 7 true) "d1" (store exTwo)).1 /\
    nextObj ls2 = nextObj (Register exChain (fun _ => true) (Applied "d2" "c" 7 true) "d1" (store exTwo)).1.
Proof.
  apply (register_dedup exChain exTwo (fun _ => true) (fun _ => false) "d2" "c" "other" 7 9 true false "d1");
    [exact exTwo_reachable|vm_compute; reflexivity].
Defined.

(** When the deletion of a layer fails, the reference count of its parent keeps the hold of the
    layer that is gone: nothing uses the parent any more and it is still in the map. *)
Definition exLeak : layerStore :=
  (Release (fun x => negb (x =? 1)%nat) (LRef 1 1) (Release (fun _ => true) (LRef 0 0) (store exTwo)).1).1.

Lemma failed_deletion_leaks_parent :
  layerMap exLeak = {[ "d1" := 0%nat ]} /\ (l_referenceCount <$> heap exLeak !! 0%nat) = Some 1 /\
  (l_references <$> heap exLeak !! 0%nat) = Some ∅ /\ mounts exLeak = ∅ /\ leaked exLeak = [0%nat].
Proof. vm_compute. repeat split; reflexivity. Qed.
