(* ===== verification/LogRing.v ===== *)
(** * The ring logger ([daemon/logger/ring.go])

    A lossy buffer between the streams of a container and its log driver: [Log] queues a message
    unless the buffer is full, a goroutine ([run]) forwards the messages to the driver, [Close]
    stops the goroutine and forwards what is left.

    - [messageRing]: one function per method; the parts of a method between two locks of the
      mutex are atomic.  [Dequeue] waits on a condition variable: a waiting goroutine goes on
      only after a [Signal] or [Broadcast].
    - [sys]: the logger with its goroutine, the calls of [Log] in progress and one call of
      [Close].  The driver is an argument: each call of its [Log] method may fail.
    - Sizes are [int64] in the source and integers here: they are sums of the lengths of slices
      in memory. *)

From S2P Require Import Prelude.
Open Scope list_scope.
Open Scope Z_scope.

Record Message := MkMessage { Line : list Byte.byte }.

Inductive ring_error := errClosed.

Definition defaultRingMaxSize : Z := 1000000.

Record messageRing := MessageRing {
  sizeBytes : Z;
  maxBytes : Z;
  queue : list Message;
  ring_closed : bool
}.

Definition newRing (max : Z) : messageRing := MessageRing 0 max [] false.

(** The size of the buffer in [NewRingLogger]. *)
Definition ringMaxSize (maxSize : Z) : Z := if maxSize <? 0 then defaultRingMaxSize else maxSize.

Definition mSize (m : Message) : Z := Z.of_nat (length (Line m)).

(** [Enqueue]: the ring, the error, and whether a waiting goroutine is signalled. *)
Definition Enqueue (m : Message) (r : messageRing) : messageRing * option ring_error * bool :=
  if ring_closed r then (r, Some errClosed, false)
  else if (maxBytes r <? mSize m + sizeBytes r) && (0 <? length (queue r))%nat then (r, None, true)
  else (MessageRing (sizeBytes r + mSize m) (maxBytes r) (queue r ++ [m]) false, None, true).

(** [Dequeue] with the lock held: wait, fail, or a message. *)
Inductive dequeued := DeqWait | DeqClosed | DeqMsg (m : Message) (r : messageRing).
Definition Dequeue (r : messageRing) : dequeued :=
  if ring_closed r then DeqClosed
  else match queue r with
       | [] => DeqWait
       | m :: q => DeqMsg m (MessageRing (sizeBytes r - mSize m) (maxBytes r) q false)
       end.

(** [messageRing.Close] *)
Definition closeRing (r : messageRing) : messageRing :=
  MessageRing (sizeBytes r) (maxBytes r) (queue r) true.

Definition Drain (r : messageRing) : list Message * messageRing :=
  (queue r, MessageRing 0 (maxBytes r) [] (ring_closed r)).

(** ** The logger as a system *)

(** The goroutine [run]: at the head of the loop, before [Dequeue], waiting (with the signal it
    got), with a message for the driver, returned. *)
Inductive run_pc := RCheck | RDequeue | RWait (woken : bool) | RLog (m : Message) | RExited.

(** The call of [Close]: not made, flag set, buffer closed, logging the rest (with [logErr]),
    returned. *)
Inductive close_pc := CIdle | CFlag | CClosed | CDrain (rest : list Message) (logErr : bool) | CDone (logErr : bool).

(** [pending]: messages of calls of [Log] past their check of the flag.  [delivered] are the
    calls of the driver's [Log]; [accepted] and [discarded] are the messages that entered the
    queue and those that [Close] threw away after a failure of the driver. *)
Record sys := Sys {
  ring : messageRing;
  closeFlag : bool;
  run : run_pc;
  closer : close_pc;
  pending : list Message;
  accepted : list Message;
  delivered : list Message;
  discarded : list Message
}.

Definition newRingLogger (maxSize : Z) : sys :=
  Sys (newRing (ringMaxSize maxSize)) false RCheck CIdle [] [] [] [].

(** [Signal] and [Broadcast] with one goroutine that may wait. *)
Definition wake (signal : bool) (pc : run_pc) : run_pc :=
  match pc with RWait w => RWait (w || signal) | pc => pc end.

(** [Log] after the check of the flag. *)
Definition logMessage (m : Message) (pending' : list Message) (s : sys) : sys :=
  let '(r, _, signal) := Enqueue m (ring s) in
  Sys r (closeFlag s) (wake signal (run s)) (closer s) pending'
    (if (length (queue r) =? length (queue (ring s)))%nat then accepted s else accepted s ++ [m])
    (delivered s) (discarded s).

(** One step of [run]. *)
Definition run_step (s : sys) : option sys :=
  let go r pc d := Some (Sys r (closeFlag s) pc (closer s) (pending s) (accepted s) d (discarded s)) in
  match run s with
  | RCheck => go (ring s) (if closeFlag s then RExited else RDequeue) (delivered s)
  | RDequeue =>
      match Dequeue (ring s) with
      | DeqWait => go (ring s) (RWait false) (delivered s)
      | DeqClosed => go (ring s) RExited (delivered s)
      | DeqMsg m r => go r (RLog m) (delivered s)
      end
  | RWait false => None
  | RWait true => go (ring s) RDequeue (delivered s)
  | RLog m => go (ring s) RCheck (delivered s ++ [m])
  | RExited => None
  end.

(** One step of [Close]; [ok] says whether the driver's [Log] succeeds. *)
Definition close_step (ok : bool) (s : sys) : option sys :=
  let go r flag pc k d x := Some (Sys r flag pc k (pending s) (accepted s) d x) in
  match closer s with
  | CIdle => go (ring s) true (run s) CFlag (delivered s) (discarded s)
  | CFlag => go (closeRing (ring s)) (closeFlag s) (wake (negb (ring_closed (ring s))) (run s)) CClosed
               (delivered s) (discarded s)
  | CClosed =>
      match run s with
      | RExited =>
          let '(ls, r) := Drain (ring s) in go r (closeFlag s) (run s) (CDrain ls false) (delivered s) (discarded s)
      | _ => None
      end
  | CDrain [] logErr => go (ring s) (closeFlag s) (run s) (CDone logErr) (delivered s) (discarded s)
  | CDrain (m :: rest) true =>
      go (ring s) (closeFlag s) (run s) (CDrain rest true) (delivered s) (discarded s ++ [m])
  | CDrain (m :: rest) false =>
      go (ring s) (closeFlag s) (run s) (CDrain rest (negb ok)) (delivered s ++ [m]) (discarded s)
  | CDone _ => None
  end.

Inductive step : sys -> sys -> Prop :=
| step_log m s :
    closeFlag s = false ->
    step s (Sys (ring s) (closeFlag s) (run s) (closer s) (m :: pending s) (accepted s) (delivered s) (discarded s))
| step_enqueue m rest s : pending s ≡ₚ m :: rest -> step s (logMessage m rest s)
| step_run s s' : run_step s = Some s' -> step s s'
| step_close ok s s' : close_step ok s = Some s' -> step s s'.

Inductive reachable (maxSize : Z) : sys -> Prop :=
| reach_new : reachable maxSize (newRingLogger maxSize)
| reach_step s s' : reachable maxSize s -> step s s' -> reachable maxSize s'.
