(* ===== verification/LogRingTheorems.v ===== *)
(** * Properties of the ring logger

    What the driver gets is what the buffer accepted, in order; the buffer keeps its bound; no
    wakeup is lost and [Close] returns. *)

From S2P Require Import Prelude LogRing.
Open Scope list_scope.
Open Scope Z_scope.

(** The messages on their way from the queue to the driver. *)
Definition in_flight (s : sys) : list Message := match run s with RLog m => [m] | _ => [] end.
Definition draining (s : sys) : list Message := match closer s with CDrain rest _ => rest | _ => [] end.

Definition bytes (q : list Message) : Z := foldr (fun m n => mSize m + n) 0 q.

Lemma bytes_app q q' : bytes (q ++ q') = bytes q + bytes q'.
Proof. induction q as [|m q IH]; cbn in *; [done|]. unfold bytes in *. cbn. lia. Qed.

Lemma bytes_nonneg q : 0 <= bytes q.
Proof. induction q as [|m q IH]; [done|]. unfold bytes, mSize in *. cbn. lia. Qed.

(** Whether [Close] is past a point. *)
Definition after_drain (k : close_pc) : bool := match k with CDrain _ _ | CDone _ => true | _ => false end.
Definition after_close (k : close_pc) : bool := match k with CIdle | CFlag => false | _ => true end.
Definition failed (k : close_pc) : bool := match k with CDrain _ e | CDone e => e | _ => false end.

Record rinv (max : Z) (s : sys) : Prop := {
  ri_order : accepted s = delivered s ++ discarded s ++ in_flight s ++ draining s ++ queue (ring s);
  ri_bytes : sizeBytes (ring s) = bytes (queue (ring s));
  ri_max : maxBytes (ring s) = max;
  ri_bound : sizeBytes (ring s) <= max \/ (length (queue (ring s)) <= 1)%nat;
  ri_flag : closeFlag s = match closer s with CIdle => false | _ => true end;
  ri_closed : ring_closed (ring s) = after_close (closer s);
  ri_drained : after_drain (closer s) = true -> run s = RExited /\ queue (ring s) = [];
  ri_discarded : discarded s <> [] -> failed (closer s) = true;
  ri_exited : run s = RExited -> closeFlag s = true;
  ri_wait : run s = RWait false -> queue (ring s) = [] /\ ring_closed (ring s) = false
}.

Lemma rinv_new maxSize : rinv (ringMaxSize maxSize) (newRingLogger maxSize).
Proof.
  constructor; try done. unfold ringMaxSize, defaultRingMaxSize. cbn.
  right. lia.
Qed.

Lemma Enqueue_cases m r :
  (exists e sig, Enqueue m r = (r, e, sig) /\
     (ring_closed r = true /\ e = Some errClosed \/
      ring_closed r = false /\ e = None /\ sig = true /\ queue r <> [] /\ maxBytes r < mSize m + sizeBytes r)) \/
  (Enqueue m r = (MessageRing (sizeBytes r + mSize m) (maxBytes r) (queue r ++ [m]) false, None, true) /\
   ring_closed r = false /\ (queue r = [] \/ mSize m + sizeBytes r <= maxBytes r)).
Proof.
  unfold Enqueue. destruct (ring_closed r); [left; eauto 8|].
  destruct (Z.ltb_spec (maxBytes r) (mSize m + sizeBytes r)), (Nat.ltb_spec 0 (length (queue r))); cbn [andb].
  - left. do 2 eexists. split; [done|]. right. repeat split; try done. intros E. rewrite E in *. cbn in *. lia.
  - right. split; [done|]. split; [done|]. left. apply nil_length_inv. lia.
  - right. auto.
  - right. auto.
Qed.

Lemma enqueue_rinv max m rest s : rinv max s -> rinv max (logMessage m rest s).
Proof.
  intros Hi. unfold logMessage.
  destruct (Enqueue_cases m (ring s)) as [(e&sig&->&Hc)|(->&Hcl&Hc)].
  - rewrite Nat.eqb_refl. destruct Hi. constructor; cbn; try done.
    + rewrite ri_order0. unfold in_flight. by destruct (run s).
    + intros Hd. destruct (ri_drained0 Hd) as [-> ?]. done.
    + destruct (run s); cbn; done || auto.
    + destruct (run s) as [| |w| |] eqn:E; cbn; try done. intros [= Hw].
      apply orb_false_iff in Hw as [-> ->]. by apply ri_wait0.
  - cbn [queue]. rewrite length_app. cbn [length].
    replace (length (queue (ring s)) + 1 =? length (queue (ring s)))%nat with false
      by (symmetry; apply Nat.eqb_neq; lia).
    destruct Hi. rewrite Hcl in ri_closed0. constructor; cbn; try done.
    + rewrite ri_order0, <- !app_assoc. unfold in_flight, draining. cbn. by destruct (run s).
    + rewrite bytes_app, ri_bytes0. unfold bytes at 3. cbn. lia.
    + destruct Hc as [->|Hle]; [right; cbn; lia|left; lia].
    + intros Hd. destruct (closer s); done.
    + destruct (run s); cbn; done || auto.
    + destruct (run s) as [| |w| |] eqn:E; cbn; try done. by rewrite orb_true_r.
Qed.

(** While the goroutine runs, [Close] has not come to the rest of the queue. *)
Lemma running max s :
  rinv max s -> run s <> RExited ->
  after_drain (closer s) = false /\ draining s = [] /\ discarded s = [].
Proof.
  intros Hi Hr. assert (Hd : after_drain (closer s) = false).
  { destruct (after_drain (closer s)) eqn:E; [|done]. by destruct (ri_drained _ _ Hi E). }
  split; [done|]. unfold draining. split; [by destruct (closer s)|].
  destruct (discarded s) eqn:E; [done|].
  assert (Hf : failed (closer s) = true) by (apply (ri_discarded _ _ Hi); by rewrite E).
  by destruct (closer s).
Qed.

Lemma run_rinv max s s' : rinv max s -> run_step s = Some s' -> rinv max s'.
Proof.
  intros Hi Hs. assert (Hr : run s <> RExited) by (intros E; unfold run_step in Hs; by rewrite E in Hs).
  destruct (running max s Hi Hr) as (Hd&Hdr&Hdi). destruct Hi. unfold run_step in Hs.
  unfold draining in *. unfold in_flight in ri_order0.
  destruct (run s) as [| |[]|m|] eqn:Er; try done.
  - injection Hs as <-. constructor; cbn; try done; try (by rewrite Hd).
    + unfold in_flight. cbn. by destruct (closeFlag s).
    + by destruct (closeFlag s).
    + by destruct (closeFlag s).
  - unfold Dequeue in Hs. destruct (ring_closed (ring s)) eqn:Ec.
    { injection Hs as <-. constructor; cbn; try done; try (by rewrite Hd); try congruence.
      intros _. rewrite ri_flag0. by destruct (closer s). }
    destruct (queue (ring s)) as [|m q] eqn:Eq; injection Hs as <-.
    { constructor; cbn; try done; try (by rewrite Hd); try congruence; by rewrite Eq. }
    constructor; cbn; try done; try (by rewrite Hd).
    + rewrite ri_order0. unfold draining. cbn. by rewrite Hdr.
    + rewrite ri_bytes0. unfold bytes. cbn. lia.
    + pose proof (bytes_nonneg (m :: q)). unfold mSize. cbn in ri_bound0. destruct ri_bound0; [left|right]; lia.
  - injection Hs as <-. constructor; cbn; try done; by rewrite Hd.
  - injection Hs as <-. constructor; cbn; try done; try (by rewrite Hd).
    rewrite ri_order0, Hdi. unfold in_flight, draining. cbn. rewrite Hdr. by rewrite <- app_assoc.
Qed.

Lemma close_rinv max ok s s' : rinv max s -> close_step ok s = Some s' -> rinv max s'.
Proof.
  intros Hi. unfold close_step. pose proof Hi as []. unfold draining in *.
  destruct (closer s) as [| | |[|m rest] []|e] eqn:Ek; try done.
  - intros [= <-]. constructor; cbn; try done.
  - intros [= <-]. constructor; cbn; try done.
    + rewrite ri_order0. unfold in_flight, draining. cbn. by destruct (run s).
    + destruct (run s) as [| |w| |]; cbn; try done. rewrite ri_closed0. cbn. by rewrite orb_true_r.
  - destruct (run s) eqn:Er; try done. unfold Drain. intros [= <-]. constructor; cbn; try done.
    + rewrite ri_order0. unfold in_flight, draining. rewrite Er. cbn. by rewrite !app_nil_r.
    + right. lia.
  - intros [= <-]. constructor; cbn; done.
  - intros [= <-]. constructor; cbn; done.
  - intros [= <-]. constructor; cbn; try done. destruct (ri_drained0 eq_refl) as [E _].
    rewrite ri_order0. unfold in_flight, draining. cbn. rewrite E. by rewrite <- !app_assoc.
  - intros [= <-]. destruct (ri_drained0 eq_refl) as [E _].
    assert (Hd : discarded s = []) by (destruct (discarded s) eqn:Ed; [done|]; by specialize (ri_discarded0 ltac:(done))).
    constructor; cbn; try done; rewrite ?Hd; try done.
    rewrite ri_order0, Hd. unfold in_flight, draining. cbn. rewrite E. by rewrite <- !app_assoc.
Qed.

Lemma log_rinv max m s :
  rinv max s ->
  rinv max (Sys (ring s) (closeFlag s) (run s) (closer s) (m :: pending s) (accepted s) (delivered s) (discarded s)).
Proof. intros []. by constructor. Qed.

Lemma reachable_rinv maxSize s : reachable maxSize s -> rinv (ringMaxSize maxSize) s.
Proof.
  induction 1 as [|s s' _ IH Hs]; [apply rinv_new|]. destruct Hs as [m s _|m rest s _|s s' Hs|ok s s' Hs].
  - by apply log_rinv.
  - by apply enqueue_rinv.
  - by eapply run_rinv.
  - by eapply close_rinv.
Qed.

(** How much is left for the goroutine and for [Close] to do once the buffer is closed. *)
Definition run_left (pc : run_pc) : nat :=
  match pc with RExited => 0 | RCheck => 2 | RDequeue => 1 | RWait _ => 2 | RLog _ => 3 end.
Definition left (s : sys) : nat :=
  match closer s with
  | CIdle => 6 + length (queue (ring s)) + run_left (run s)
  | CFlag => 4 + length (queue (ring s)) + run_left (run s)
  | CClosed => 3 + length (queue (ring s)) + run_left (run s)
  | CDrain rest _ => 1 + length rest
  | CDone _ => 0
  end.

Lemma left_run max s s' :
  rinv max s -> after_close (closer s) = true -> run_step s = Some s' -> (left s' < left s)%nat.
Proof.
  intros Hi Hc. unfold run_step. pose proof (ri_drained _ _ Hi) as Hd. pose proof (ri_closed _ _ Hi) as Hcl.
  pose proof (ri_flag _ _ Hi) as Hf. unfold Dequeue. rewrite Hcl, Hc, Hf. unfold left.
  destruct (run s) as [| |[]|m|] eqn:Er; try done; intros [= <-]; cbn;
    destruct (closer s); try done; cbn; try lia; by destruct (Hd eq_refl).
Qed.

Lemma left_close ok s s' : close_step ok s = Some s' -> (left s' < left s)%nat.
Proof.
  unfold close_step, left. destruct (closer s) as [| | |[|m rest] []|e] eqn:Ek; try done.
  - intros [= <-]. cbn. lia.
  - intros [= <-]. cbn. destruct (run s); cbn; lia.
  - destruct (run s) eqn:Er; try done. intros [= <-]. cbn. lia.
  - intros [= <-]. cbn. lia.
  - intros [= <-]. cbn. lia.
  - intros [= <-]. cbn. lia.
  - intros [= <-]. cbn. lia.
Qed.

Lemma left_enqueue max m rest s :
  rinv max s -> after_close (closer s) = true -> left (logMessage m rest s) = left s.
Proof.
  intros Hi Hc. unfold logMessage, Enqueue. rewrite (ri_closed _ _ Hi), Hc. rewrite Nat.eqb_refl.
  unfold left. cbn. by destruct (closer s), (run s).
Qed.

(** ** Claims *)

(** C39: The log driver gets the accepted messages in order: in every interleaving, the messages that
    entered the buffer are those handed to the driver, then those thrown away, then those still
    on their way, in the order of their acceptance; and when [Close] has returned without an
    error of the driver, every accepted message was handed to it. *)
Theorem ring_delivers maxSize s :
  reachable maxSize s ->
  accepted s = delivered s ++ discarded s ++ in_flight s ++ draining s ++ queue (ring s) /\
  (forall e, closer s = CDone e -> accepted s = delivered s ++ discarded s) /\
  (closer s = CDone false -> delivered s = accepted s).
Proof.
  intros Hi%reachable_rinv. pose proof (ri_order _ _ Hi) as Ho.
  assert (Hdone : forall e, closer s = CDone e -> accepted s = delivered s ++ discarded s).
  { intros e He. destruct (ri_drained _ _ Hi) as [Er Eq]; [by rewrite He|].
    rewrite Ho. unfold in_flight, draining. rewrite Er, He, Eq. by rewrite !app_nil_r. }
  split; [done|]. split; [done|]. intros He. rewrite (Hdone false He).
  destruct (discarded s) eqn:Ed; [by rewrite app_nil_r|].
  assert (Hf : failed (closer s) = true) by (apply (ri_discarded _ _ Hi); by rewrite Ed). by rewrite He in Hf.
Qed.

(** The buffer keeps its bound: its recorded size is that of the queued lines and at most the
    configured maximum unless a single message is queued; a message is accepted while the buffer
    is open exactly when it fits or nothing is queued, and dropped silently otherwise. *)
Theorem ring_bounded maxSize s m :
  reachable maxSize s ->
  sizeBytes (ring s) = bytes (queue (ring s)) /\
  (bytes (queue (ring s)) <= ringMaxSize maxSize \/ (length (queue (ring s)) <= 1)%nat) /\
  let '(r, e, _) := Enqueue m (ring s) in
  if ring_closed (ring s) then r = ring s /\ e = Some errClosed
  else e = None /\
    ((queue (ring s) = [] \/ bytes (queue (ring s)) + mSize m <= ringMaxSize maxSize) ->
       queue r = queue (ring s) ++ [m]) /\
    (queue (ring s) <> [] -> ringMaxSize maxSize < bytes (queue (ring s)) + mSize m -> r = ring s).
Proof.
  intros Hi%reachable_rinv. pose proof (ri_bytes _ _ Hi) as Hb. pose proof (ri_max _ _ Hi) as Hm.
  split; [done|]. split; [rewrite <- Hb; apply Hi|].
  destruct (Enqueue_cases m (ring s)) as [(e&sig&->&[[-> ->]|(->&->&_&Hne&Hlt)])|(->&->&Hc)].
  - done.
  - split; [done|]. split; [|done]. intros [?|?]; [done|lia].
  - split; [done|]. split; [done|]. intros Hne Hlt. destruct Hc as [?|?]; [done|lia].
Qed.

(** C40: [Close] returns: no wakeup of the goroutine is lost, and once the buffer is closed either
    [Close] has returned or the goroutine or [Close] can take a step; each of their steps makes
    progress and no call of [Log] undoes any. *)
Theorem ring_close_returns maxSize s :
  reachable maxSize s ->
  (run s = RWait false -> queue (ring s) = [] /\ ring_closed (ring s) = false) /\
  (after_close (closer s) = true ->
   ((exists e, closer s = CDone e) \/ is_Some (run_step s) \/ forall ok, is_Some (close_step ok s)) /\
   (forall s', step s s' -> (left s' <= left s)%nat) /\
   (forall s', run_step s = Some s' -> (left s' < left s)%nat) /\
   (forall ok s', close_step ok s = Some s' -> (left s' < left s)%nat)).
Proof.
  intros Hr. pose proof (reachable_rinv _ _ Hr) as Hi. split; [apply Hi|]. intros Hc.
  pose proof (fun s' => left_run _ s s' Hi Hc) as Hrun. pose proof (left_close) as Hclose.
  split; [|split; [|split; [done|intros ok s'; apply Hclose]]].
  - destruct (closer s) as [| | |rest e|e] eqn:Ek; try done; [| |by eauto].
    + destruct (run s) as [| |[]|m|] eqn:Er.
      * right. left. unfold run_step. rewrite Er. eauto.
      * right. left. unfold run_step. rewrite Er. destruct (Dequeue (ring s)); eauto.
      * right. left. unfold run_step. rewrite Er. eauto.
      * destruct (ri_wait _ _ Hi Er) as [_ Ho]. rewrite (ri_closed _ _ Hi), Ek in Ho. done.
      * right. left. unfold run_step. rewrite Er. eauto.
      * right. right. intros ok. unfold close_step. rewrite Ek, Er. destruct (Drain (ring s)). eauto.
    + right. right. intros ok. unfold close_step. rewrite Ek. destruct rest, e; eauto.
  - intros s' Hs. inversion Hs as [m t Hf|m rest t Hp|t t' Ht|ok t t' Ht]; subst.
    + unfold left. cbn. lia.
    + rewrite (left_enqueue _ _ _ _ Hi Hc). lia.
    + specialize (Hrun s' Ht). lia.
    + specialize (Hclose ok s s' Ht). lia.
Qed.

(** ** A concrete run: three messages, one dropped, and [Close] *)

Definition exMsg (n : nat) : Message := MkMessage (replicate n Byte.x61).
Definition exLog (n : nat) (s : sys) : sys := logMessage (exMsg n) [] s.
Definition exRun (s : sys) : sys := default s (run_step s).
Definition exClose (s : sys) : sys := default s (close_step true s).
Definition exQueued : sys := exLog 6 (exLog 5 (exLog 4 (newRingLogger 10))).
Definition exClosed : sys := exClose (exClose (exRun (exRun exQueued))).
Definition exDone : sys := exClose (exClose (exClose (exRun (exRun exClosed)))).

Lemma exLog_reachable n s :
  pending s = [] -> closeFlag s = false -> reachable 10 s -> reachable 10 (exLog n s).
Proof.
  intros Hp Hf Hr.
  set (s1 := Sys (ring s) (closeFlag s) (run s) (closer s) [exMsg n] (accepted s) (delivered s) (discarded s)).
  assert (H1 : reachable 10 s1).
  { eapply reach_step; [exact Hr|]. unfold s1. rewrite <- Hp at 1. by apply step_log. }
  eapply reach_step; [exact H1|]. change (exLog n s) with (logMessage (exMsg n) [] s1). by apply step_enqueue.
Qed.

Lemma exRun_reachable s : reachable 10 s -> reachable 10 (exRun s).
Proof.
  intros Hr. unfold exRun. destruct (run_step s) eqn:E; [|done]. eapply reach_step; [exact Hr|by apply step_run].
Qed.

Lemma exClose_reachable s : reachable 10 s -> reachable 10 (exClose s).
Proof.
  intros Hr. unfold exClose. destruct (close_step true s) eqn:E; [|done].
  eapply reach_step; [exact Hr|by eapply step_close].
Qed.

Lemma exQueued_reachable : reachable 10 exQueued.
Proof. repeat (apply exLog_reachable; [reflexivity..|]). apply reach_new. Qed.

Lemma exClosed_reachable : reachable 10 exClosed.
Proof. do 2 apply exClose_reachable. do 2 apply exRun_reachable. exact exQueued_reachable. Qed.

Lemma exDone_reachable : reachable 10 exDone.
Proof. do 3 apply exClose_reachable. do 2 apply exRun_reachable. exact exClosed_reachable. Qed.

Lemma ring_delivers_witness :
  closer exDone = CDone false /\ delivered exDone = [exMsg 4; exMsg 5] /\ delivered exDone = accepted exDone.
Proof.
  destruct (ring_delivers 10 exDone exDone_reachable) as (_&_&H).
  split; [reflexivity|]. split; [reflexivity|]. apply H. reflexivity.
Defined.

Lemma ring_bounded_witness :
  sizeBytes (ring exQueued) = 9 /\ sizeBytes (ring exQueued) = bytes (queue (ring exQueued)).
Proof.
  split; [reflexivity|]. exact (proj1 (ring_bounded 10 exQueued (exMsg 6) exQueued_reachable)).
Defined.

Lemma ring_close_returns_witness :
  after_close (closer exClosed) = true /\ forall s', step exClosed s' -> (left s' <= left exClosed)%nat.
Proof.
  destruct (ring_close_returns 10 exClosed exClosed_reachable) as [_ H].
  split; [reflexivity|]. destruct (H eq_refl) as (_&H2&_). exact H2.
Defined.
