(* ===== verification/LogQueue.v ===== *)
(** * The message queue of the log drivers ([daemon/logger/loggerutils/queue.go])

    [MessageQueue] is a channel that can be closed while senders are blocked on it: [Enqueue]
    counts itself in [sendWaiters] around its [select] statements, and [Close] closes the channel
    only when the count is zero.

    - A channel is its buffer and whether it is closed.  Sending on a closed channel and closing
      a closed channel panic, as the language says; [panicked] records it.
    - A [select] takes any branch that is ready; [default] only when no other one is.  A context
      may be done at any time.
    - Threads are the calls in progress, each at a point between two critical sections. *)

From S2P Require Import Prelude LogRing.
Open Scope list_scope.
Open Scope Z_scope.

Inductive enqueue_result := Enqueued | CtxErr | ErrQueueClosed.

(** A call of [Enqueue] before its first section, before the first [select], before the second
    one, before its deferred function, and returned; a call of [Close] before its first section,
    waiting for the senders (with the signal it got), waiting for another call, and returned. *)
Inductive thread :=
| SStart (m : Message)
| SEntered (m : Message)
| SSending (m : Message)
| SLeaving (res : enqueue_result)
| SReturned (res : enqueue_result)
| KStart
| KWait (woken : bool)
| KOther
| KReturned.

(** [closed], [closeWait] and [ch] are channels; [sent] and [received] record the messages that
    went into and out of [ch]. *)
Record MessageQueue := MkQueue {
  maxSize : nat;
  closing : bool;
  closed : bool;
  closeWait : bool;
  sendWaiters : Z;
  ch : list Message;
  ch_closed : bool;
  panicked : bool;
  sent : list Message;
  received : list Message;
  threads : list thread
}.

Definition NewMessageQueue (max : nat) : MessageQueue :=
  MkQueue max false false false 0 [] false false [] [] [].

Definition set_threads (ts : list thread) (q : MessageQueue) : MessageQueue :=
  MkQueue (maxSize q) (closing q) (closed q) (closeWait q) (sendWaiters q) (ch q) (ch_closed q)
    (panicked q) (sent q) (received q) ts.
Definition goto (t : nat) (pc : thread) (q : MessageQueue) : MessageQueue :=
  set_threads (<[t := pc]> (threads q)) q.
Definition set_sendWaiters (n : Z) (q : MessageQueue) : MessageQueue :=
  MkQueue (maxSize q) (closing q) (closed q) (closeWait q) n (ch q) (ch_closed q)
    (panicked q) (sent q) (received q) (threads q).
Definition set_ch (c s r : list Message) (q : MessageQueue) : MessageQueue :=
  MkQueue (maxSize q) (closing q) (closed q) (closeWait q) (sendWaiters q) c (ch_closed q)
    (panicked q) s r (threads q).
Definition panic (q : MessageQueue) : MessageQueue :=
  MkQueue (maxSize q) (closing q) (closed q) (closeWait q) (sendWaiters q) (ch q) (ch_closed q)
    true (sent q) (received q) (threads q).

(** [q.closing = true; close(q.closed)] *)
Definition startClosing (q : MessageQueue) : MessageQueue :=
  MkQueue (maxSize q) true true (closeWait q) (sendWaiters q) (ch q) (ch_closed q)
    (panicked q || closed q) (sent q) (received q) (threads q).

(** [close(q.ch); close(q.closeWait)] *)
Definition closeChannels (q : MessageQueue) : MessageQueue :=
  MkQueue (maxSize q) (closing q) (closed q) true (sendWaiters q) (ch q) true
    (panicked q || ch_closed q || closeWait q) (sent q) (received q) (threads q).

(** The loop of [Close] with the lock held: wait, or close the channels and return. *)
Definition closeLoop (t : nat) (q : MessageQueue) : MessageQueue :=
  if 0 <? sendWaiters q then goto t (KWait false) q else goto t KReturned (closeChannels q).

(** The first section of [Close]. *)
Definition closeStart (t : nat) (q : MessageQueue) : MessageQueue :=
  if closing q then goto t KOther q else closeLoop t (startClosing q).

(** [Signal]: some waiting thread is woken, if there is one. *)
Inductive signal : list thread -> list thread -> Prop :=
| signal_one ts t : ts !! t = Some (KWait false) -> signal ts (<[t := KWait true]> ts)
| signal_none ts : (forall t, ts !! t <> Some (KWait false)) -> signal ts ts.

(** The deferred function of [Enqueue]. *)
Inductive leave (t : nat) (res : enqueue_result) : MessageQueue -> MessageQueue -> Prop :=
| leave_last q ts :
    sendWaiters q - 1 = 0 -> signal (threads q) ts ->
    leave t res q (goto t (SReturned res) (set_threads ts (set_sendWaiters (sendWaiters q - 1) q)))
| leave_other q :
    sendWaiters q - 1 <> 0 ->
    leave t res q (goto t (SReturned res) (set_sendWaiters (sendWaiters q - 1) q)).

Inductive step : MessageQueue -> MessageQueue -> Prop :=
| step_call q pc :
    pc = KStart \/ (exists m, pc = SStart m) -> step q (set_threads (threads q ++ [pc]) q)
(* Enqueue *)
| step_enter q t m :
    threads q !! t = Some (SStart m) ->
    step q (goto t (SEntered m) (set_sendWaiters (sendWaiters q + 1) q))
| step_first_ctx q t m :
    threads q !! t = Some (SEntered m) -> step q (goto t (SLeaving CtxErr) q)
| step_first_closed q t m :
    threads q !! t = Some (SEntered m) -> closed q = true -> step q (goto t (SLeaving ErrQueueClosed) q)
| step_first_default q t m :
    threads q !! t = Some (SEntered m) -> closed q = false -> step q (goto t (SSending m) q)
| step_second_ctx q t m :
    threads q !! t = Some (SSending m) -> step q (goto t (SLeaving CtxErr) q)
| step_second_closed q t m :
    threads q !! t = Some (SSending m) -> closed q = true -> step q (goto t (SLeaving ErrQueueClosed) q)
| step_send q t m :
    threads q !! t = Some (SSending m) -> ch_closed q = false -> (length (ch q) < maxSize q)%nat ->
    step q (goto t (SLeaving Enqueued) (set_ch (ch q ++ [m]) (sent q ++ [m]) (received q) q))
| step_handoff q t m :
    threads q !! t = Some (SSending m) -> ch_closed q = false -> ch q = [] ->
    step q (goto t (SLeaving Enqueued) (set_ch [] (sent q ++ [m]) (received q ++ [m]) q))
| step_send_panic q t m :
    threads q !! t = Some (SSending m) -> ch_closed q = true -> step q (panic q)
| step_leave q q' t res :
    threads q !! t = Some (SLeaving res) -> leave t res q q' -> step q q'
(* a receiver *)
| step_receive q m rest :
    ch q = m :: rest -> step q (set_ch rest (sent q) (received q ++ [m]) q)
(* Close *)
| step_close q t : threads q !! t = Some KStart -> step q (closeStart t q)
| step_close_woken q t : threads q !! t = Some (KWait true) -> step q (closeLoop t q)
| step_close_other q t :
    threads q !! t = Some KOther -> closeWait q = true -> step q (goto t KReturned q).

Inductive reachable (max : nat) : MessageQueue -> Prop :=
| reach_new : reachable max (NewMessageQueue max)
| reach_step q q' : reachable max q -> step q q' -> reachable max q'.
