(* ===== verification/LogQueueTheorems.v ===== *)
(** * Properties of the message queue

    No thread sends on the closed channel or closes it twice, the queue is a bounded first-in
    first-out queue that accepts nothing after [Close] returned, and [Close] does not get
    stuck. *)

From S2P Require Import Prelude Counting LogRing LogQueue.
Open Scope list_scope.
Open Scope Z_scope.

(** The threads that [sendWaiters] counts, and the threads in the loop of [Close]. *)
Definition counted (pc : thread) : bool :=
  match pc with SEntered _ | SSending _ | SLeaving _ => true | _ => false end.
Definition waiting (pc : thread) : bool := match pc with KWait _ => true | _ => false end.
(** The threads that put their message into the channel. *)
Definition succeeded (pc : thread) : bool :=
  match pc with SLeaving Enqueued | SReturned Enqueued => true | _ => false end.

Definition number (f : thread -> bool) (q : MessageQueue) : Z := count (fun pc => f pc = true) (threads q).

(** There is one thread in the loop of [Close] from its first section to the end. *)
Definition closers (q : MessageQueue) : Z := Z.b2z (closing q && negb (ch_closed q)).

(** What is true when a thread is at a point. *)
Definition fits (q : MessageQueue) (pc : thread) : Prop :=
  match pc with
  | SSending _ => ch_closed q = false
  | KWait false => 0 < sendWaiters q
  | KReturned => ch_closed q = true
  | KOther => closing q = true
  | _ => True
  end.

Record core (max : nat) (q : MessageQueue) : Prop := {
  qc_closed : closed q = closing q;
  qc_ch : ch_closed q = closeWait q;
  qc_order : ch_closed q = true -> closing q = true;
  qc_panic : panicked q = false;
  qc_fifo : received q ++ ch q = sent q;
  qc_cap : (length (ch q) <= max)%nat;
  qc_max : maxSize q = max
}.

Record qinv (max : nat) (q : MessageQueue) : Prop := {
  qi_core : core max q;
  qi_count : sendWaiters q = number counted q;
  qi_waiting : closers q = number waiting q;
  qi_sent : Z.of_nat (length (sent q)) = number succeeded q;
  qi_fits t pc : threads q !! t = Some pc -> fits q pc
}.

Lemma qinv_new max : qinv max (NewMessageQueue max).
Proof. constructor; try done. constructor; cbn; done || lia. Qed.

(** A thread moves and the state changes with it. *)
Lemma move_qinv max q q' t pc pc' :
  qinv max q -> threads q !! t = Some pc -> threads q' = <[t := pc']> (threads q) -> core max q' ->
  sendWaiters q' = sendWaiters q - Z.b2z (counted pc) + Z.b2z (counted pc') ->
  closers q' = closers q - Z.b2z (waiting pc) + Z.b2z (waiting pc') ->
  Z.of_nat (length (sent q')) = Z.of_nat (length (sent q)) - Z.b2z (succeeded pc) + Z.b2z (succeeded pc') ->
  (forall u pu, threads q !! u = Some pu -> u <> t -> fits q pu -> fits q' pu) -> fits q' pc' ->
  qinv max q'.
Proof.
  intros Hi Ht Hts Hc Hn Hw Hs Hf Hf'.
  assert (Hnum : forall f, number f q' = number f q - Z.b2z (f pc) + Z.b2z (f pc')).
  { intros f. unfold number. rewrite Hts. pose proof (count_update (fun x => f x = true) _ t pc pc' Ht) as H.
    repeat case_decide; destruct (f pc), (f pc'); try done; cbn; lia. }
  constructor; [done|by rewrite Hnum, Hn, (qi_count _ _ Hi)|by rewrite Hnum, Hw, (qi_waiting _ _ Hi)|
    by rewrite Hnum, Hs, (qi_sent _ _ Hi)|].
  intros u pu. rewrite Hts. intros [(<-&<-&_)|[Hne Hu]]%list_lookup_insert_Some; [done|].
  apply (Hf u pu Hu); [congruence|]. by apply (qi_fits _ _ Hi u).
Qed.

(** A thread moves and nothing else changes. *)
Lemma goto_qinv max q t pc pc' :
  qinv max q -> threads q !! t = Some pc -> counted pc' = counted pc -> waiting pc' = waiting pc ->
  succeeded pc' = succeeded pc -> fits q pc' -> qinv max (goto t pc' q).
Proof.
  intros Hi Ht Hc Hw Hs Hf. apply (move_qinv max q _ t pc pc' Hi Ht); try done.
  - by destruct (qi_core _ _ Hi).
  - cbn. rewrite Hc. lia.
  - rewrite Hw. change (closers (goto t pc' q)) with (closers q). lia.
  - cbn. rewrite Hs. lia.
Qed.

Lemma number_zero f q t pc : number f q = 0 -> threads q !! t = Some pc -> f pc = false.
Proof.
  intros Hz Ht. apply not_true_is_false. apply (count_zero (fun x => f x = true) (threads q)); [done|].
  by eapply list_elem_of_lookup_2.
Qed.

Lemma number_pos f q t pc : threads q !! t = Some pc -> f pc = true -> 0 < number f q.
Proof. intros Ht Hf. apply (count_pos _ _ pc); [by eapply list_elem_of_lookup_2|done]. Qed.

(** Only one thread waits. *)
Lemma waiting_unique max q t u w pu :
  qinv max q -> threads q !! t = Some (KWait w) -> threads q !! u = Some pu -> waiting pu = true -> u = t.
Proof.
  intros Hi Ht Hu Hp. destruct (decide (u = t)) as [|Hne]; [done|]. exfalso.
  pose proof (count_update (fun x => waiting x = true) _ t (KWait w) KStart Ht) as H.
  rewrite decide_True, decide_False in H by done. pose proof (qi_waiting _ _ Hi) as Hw. unfold number, closers in Hw.
  assert (Hpos : 0 < count (fun x => waiting x = true) (<[t := KStart]> (threads q))).
  { apply (count_pos _ _ pu); [|done]. apply (list_elem_of_lookup_2 _ u). by rewrite list_lookup_insert_ne. }
  destruct (closing q && negb (ch_closed q)); cbn in Hw; lia.
Qed.

Lemma signal_qinv max q ts :
  qinv max q -> signal (threads q) ts ->
  qinv max (set_threads ts q) /\ (forall t, ts !! t <> Some (KWait false)) /\
  (forall t pc, waiting pc = false -> threads q !! t = Some pc -> ts !! t = Some pc).
Proof.
  intros Hi Hs. inversion Hs as [ts' k Hk|ts' Hn]; subst.
  - split; [|split].
    + by apply (goto_qinv max q k (KWait false) (KWait true)).
    + intros t. intros [(_&[=]&_)|[Hne Ht]]%list_lookup_insert_Some.
      by apply Hne, (waiting_unique max q t k false (KWait false)).
    + intros t pc Hw Ht. rewrite list_lookup_insert_ne; [done|]. intros <-. rewrite Hk in Ht. by injection Ht as <-.
  - split; [by destruct q|]. split; [done|]. done.
Qed.

Lemma leave_qinv max q q' t res :
  qinv max q -> threads q !! t = Some (SLeaving res) -> leave t res q q' -> qinv max q'.
Proof.
  intros Hi Ht Hl. inversion Hl as [q0 ts Hn Hs|q0 Hn]; subst.
  - destruct (signal_qinv _ _ _ Hi Hs) as (Hi1&Hno&Hkeep).
    apply (move_qinv max (set_threads ts q) _ t (SLeaving res) (SReturned res) Hi1); try done.
    + by apply Hkeep.
    + by destruct (qi_core _ _ Hi).
    + cbn. lia.
    + cbn. change (closers (goto _ _ _)) with (closers q). change (closers (set_threads _ _)) with (closers q). lia.
    + cbn. destruct res; cbn; lia.
    + intros u pu Hu _ Hf. destruct pu as [| | | | | |[]| |]; try done. by apply Hno in Hu.
  - apply (move_qinv max q _ t (SLeaving res) (SReturned res) Hi Ht); try done.
    + by destruct (qi_core _ _ Hi).
    + cbn. lia.
    + cbn. change (closers (goto _ _ _)) with (closers q). lia.
    + cbn. destruct res; cbn; lia.
    + intros u pu Hu _ Hf. destruct pu as [| | | | | |[]| |]; try done.
      cbn in *. pose proof (number_pos counted q t _ Ht eq_refl). rewrite (qi_count _ _ Hi) in *. lia.
Qed.

(** The end of [Close]: the loop is left when no sender is inside. *)
Lemma closeLoop_qinv max q t pc q1 :
  qinv max q -> threads q !! t = Some pc -> counted pc = false -> succeeded pc = false ->
  closing q1 = true -> closed q1 = true -> ch_closed q1 = ch_closed q -> closeWait q1 = closeWait q ->
  sendWaiters q1 = sendWaiters q -> ch q1 = ch q -> sent q1 = sent q -> received q1 = received q ->
  maxSize q1 = maxSize q -> panicked q1 = false -> threads q1 = threads q -> ch_closed q = false ->
  closers q = Z.b2z (waiting pc) ->
  qinv max (closeLoop t q1).
Proof.
  intros Hi Ht Hpc Hsc E1 E2 E3 E4 E5 E6 E7 E8 E9 E10 E11 Hopen Hcl.
  destruct (qi_core _ _ Hi) as [Hc1 Hc2 Hc3 Hc4 Hc5 Hc6 Hc7]. unfold closeLoop.
  destruct (Z.ltb_spec 0 (sendWaiters q1)).
  - apply (move_qinv max q _ t pc (KWait false) Hi Ht); cbn; rewrite ?E11; try done.
    + constructor; cbn; congruence.
    + rewrite Hpc, E5. cbn. lia.
    + unfold closers at 1. cbn. rewrite E1, E3, Hopen, Hcl. cbn. lia.
    + rewrite Hsc, E7. cbn. lia.
    + intros u pu Hu _ Hf. destruct pu as [| | | | | |[]| |]; cbn in *; congruence || lia.
  - assert (Hno : number counted q = 0).
    { pose proof (count_nonneg (fun x => counted x = true) (threads q)). fold (number counted q) in *.
      rewrite E5, (qi_count _ _ Hi) in *. lia. }
    apply (move_qinv max q _ t pc KReturned Hi Ht); cbn; rewrite ?E11; try done.
    + constructor; cbn; try congruence. rewrite E10, E4, E3, <- Hc2, Hopen. done.
    + rewrite Hpc, E5. cbn. lia.
    + unfold closers at 1. cbn. rewrite E1, Hcl. cbn. lia.
    + rewrite Hsc, E7. cbn. lia.
    + intros u pu Hu _ Hf. pose proof (number_zero counted q u pu Hno Hu).
      destruct pu as [| | | | | |[]| |]; cbn in *; congruence || lia.
Qed.

Lemma closeStart_qinv max q t :
  qinv max q -> threads q !! t = Some KStart -> qinv max (closeStart t q).
Proof.
  intros Hi Ht. unfold closeStart. destruct (closing q) eqn:Ec; [by apply (goto_qinv max q t KStart)|].
  destruct (qi_core _ _ Hi). assert (Ho : ch_closed q = false).
  { destruct (ch_closed q); [|done]. by rewrite qc_order0 in Ec. }
  apply (closeLoop_qinv max q t KStart); try done.
  - cbn. rewrite qc_panic0, qc_closed0, Ec. done.
  - unfold closers. by rewrite Ec.
Qed.

Lemma closeWoken_qinv max q t :
  qinv max q -> threads q !! t = Some (KWait true) -> qinv max (closeLoop t q).
Proof.
  intros Hi Ht. pose proof (number_pos waiting q t _ Ht eq_refl) as Hp. rewrite <- (qi_waiting _ _ Hi) in Hp.
  unfold closers in Hp. destruct (qi_core _ _ Hi).
  destruct (closing q) eqn:Ec; [|cbn in Hp; lia]. destruct (ch_closed q) eqn:Eo; [cbn in Hp; lia|].
  apply (closeLoop_qinv max q t (KWait true)); try done; try congruence. unfold closers. by rewrite Ec, Eo.
Qed.

(** A message goes into the channel. *)
Lemma send_qinv max q t m c r :
  qinv max q -> threads q !! t = Some (SSending m) -> r ++ c = sent q ++ [m] -> (length c <= max)%nat ->
  qinv max (goto t (SLeaving Enqueued) (set_ch c (sent q ++ [m]) r q)).
Proof.
  intros Hi Ht Hf Hl. destruct (qi_core _ _ Hi).
  apply (move_qinv max q _ t (SSending m) (SLeaving Enqueued) Hi Ht); try done.
  - cbn. lia.
  - change (closers (goto _ _ _)) with (closers q). cbn. lia.
  - cbn. rewrite length_app. cbn. lia.
Qed.

Lemma step_qinv max q q' : qinv max q -> step q q' -> qinv max q'.
Proof.
  intros Hi Hs. pose proof (qi_core _ _ Hi) as [].
  destruct Hs as [q pc Hpc|q t m Ht|q t m Ht|q t m Ht Hc|q t m Ht Hc|q t m Ht|q t m Ht Hc|q t m Ht Hc Hl
    |q t m Ht Hc Hl|q t m Ht Hc|q q' t res Ht Hl|q m rest Hch|q t Ht|q t Ht|q t Ht Hw].
  - assert (Hz : counted pc = false /\ waiting pc = false /\ succeeded pc = false /\ fits q pc) by (by destruct Hpc as [->|(m&->)]).
    destruct Hz as (Hz1&Hz2&Hz3&Hz4). destruct Hi. constructor; [by constructor|..].
    + unfold number. cbn. rewrite count_app, count_cons, count_nil, Hz1, decide_False by done. unfold number in *. lia.
    + unfold number. change (closers (set_threads _ _)) with (closers q). cbn.
      rewrite count_app, count_cons, count_nil, Hz2, decide_False by done. unfold number in *. lia.
    + unfold number. cbn. rewrite count_app, count_cons, count_nil, Hz3, decide_False by done. unfold number in *. lia.
    + intros t x. cbn. intros [Hx|[_ Hx]]%lookup_app_Some; [by apply qi_fits0 in Hx|].
      apply list_lookup_singleton_Some in Hx as [_ <-]. done.
  - apply (move_qinv max q _ t (SStart m) (SEntered m) Hi Ht); try done.
    + cbn. lia.
    + change (closers (goto _ _ _)) with (closers q). cbn. lia.
    + cbn. lia.
    + intros u pu Hu _ Hf. destruct pu as [| | | | | |[]| |]; try done. cbn in *. lia.
  - by apply (goto_qinv max q t (SEntered m)).
  - by apply (goto_qinv max q t (SEntered m)).
  - apply (goto_qinv max q t (SEntered m)); try done. cbn.
    destruct (ch_closed q); [|done]. rewrite qc_closed0, qc_order0 in Hc; done.
  - by apply (goto_qinv max q t (SSending m)).
  - by apply (goto_qinv max q t (SSending m)).
  - apply (send_qinv max q t m); [done..| |].
    + by rewrite app_assoc, qc_fifo0.
    + rewrite length_app. cbn. lia.
  - apply (send_qinv max q t m); [done..| |cbn; lia]. rewrite app_nil_r, <- qc_fifo0, Hl, app_nil_r. done.
  - by rewrite (qi_fits _ _ Hi t _ Ht) in Hc.
  - by eapply leave_qinv.
  - destruct Hi. constructor; [|done..]. constructor; cbn; try done.
    + by rewrite <- app_assoc, <- qc_fifo0, Hch.
    + rewrite Hch in qc_cap0. cbn in qc_cap0. lia.
  - by apply closeStart_qinv.
  - by apply closeWoken_qinv.
  - apply (goto_qinv max q t KOther); try done. cbn. congruence.
Qed.

Lemma reachable_qinv max q : reachable max q -> qinv max q.
Proof. induction 1 as [|q q' _ IH Hs]; [apply qinv_new|by eapply step_qinv]. Qed.

(** The closed channel stays closed and takes no message. *)
Lemma step_closed max q q' :
  qinv max q -> step q q' -> ch_closed q = true -> ch_closed q' = true /\ sent q' = sent q.
Proof.
  intros Hi Hs Hc. assert (Hno : forall t m, threads q !! t <> Some (SSending m)).
  { intros t m Ht. apply (qi_fits _ _ Hi) in Ht. cbn in Ht. congruence. }
  destruct Hs as [| | | | | | |q t m Ht|q t m Ht| |q q' t res _ Hl| |q t _|q t _|]; try done.
  - by apply Hno in Ht.
  - by apply Hno in Ht.
  - by destruct Hl.
  - unfold closeStart, closeLoop. destruct (closing q); [done|]. cbn [startClosing sendWaiters].
    by destruct (0 <? sendWaiters q).
  - unfold closeLoop. by destruct (0 <? sendWaiters q).
Qed.

Lemma steps_closed max q q' :
  qinv max q -> rtc step q q' -> ch_closed q = true -> ch_closed q' = true /\ sent q' = sent q.
Proof.
  intros Hi Hs. induction Hs as [|q q1 q2 H1 _ IH]; [done|]. intros Hc.
  destruct (step_closed max q q1 Hi H1 Hc) as [Hc1 E1].
  destruct (IH (step_qinv _ _ _ Hi H1) Hc1) as [? E2]. split; [done|congruence].
Qed.

(** ** Claims *)

(** No thread sends on the closed channel and no channel is closed twice, for any number of
    concurrent calls of [Enqueue] and [Close]; [sendWaiters] is at every moment the number of
    calls of [Enqueue] that are inside, at most one call of [Close] is in its loop, and no call
    of [Enqueue] is about to send once the channel is closed. *)
Theorem queue_no_panic max q :
  reachable max q ->
  panicked q = false /\ sendWaiters q = number counted q /\ number waiting q = closers q /\
  (ch_closed q = true -> forall t m, threads q !! t <> Some (SSending m)).
Proof.
  intros Hi%reachable_qinv. split; [apply (qi_core _ _ Hi)|]. split; [apply Hi|]. split; [symmetry; apply Hi|].
  intros Hc t m Ht. apply (qi_fits _ _ Hi) in Ht. cbn in Ht. congruence.
Qed.

(** The queue is a bounded first-in first-out queue: what the receivers got, followed by what is
    buffered, is what was sent, the buffer has at most [max] messages, and each message sent
    belongs to exactly one call of [Enqueue] that reports success.  From the moment a call of
    [Close] has returned nothing is accepted any more. *)
Theorem queue_fifo max q :
  reachable max q ->
  received q ++ ch q = sent q /\ (length (ch q) <= max)%nat /\
  Z.of_nat (length (sent q)) = number succeeded q /\
  (forall t, threads q !! t = Some KReturned -> forall q', rtc step q q' ->
     ch_closed q' = true /\ sent q' = sent q /\ number succeeded q' = number succeeded q).
Proof.
  intros Hi%reachable_qinv. split; [apply (qi_core _ _ Hi)|]. split; [apply (qi_core _ _ Hi)|].
  split; [apply Hi|]. intros t Ht q' Hs. apply (qi_fits _ _ Hi) in Ht. cbn in Ht.
  destruct (steps_closed max q q' Hi Hs Ht) as [Hc E]. split; [done|]. split; [done|].
  assert (Hi' : qinv max q') by (clear -Hi Hs; induction Hs; [done|eauto using step_qinv]).
  by rewrite <- (qi_sent _ _ Hi), <- (qi_sent _ _ Hi'), E.
Qed.

Definition sleeping (pc : thread) : bool := match pc with KWait false => true | _ => false end.

(** A sender inside a queue that is closing can always go on. *)
Lemma sender_leaves max q u pu :
  qinv max q -> closing q = true -> threads q !! u = Some pu -> counted pu = true ->
  exists q' pu', step q q' /\ threads q' !! u = Some pu' /\
    (pu' = SLeaving ErrQueueClosed \/ exists res, pu' = SReturned res).
Proof.
  intros Hi Hc Hu Hp. rewrite <- (qc_closed _ _ (qi_core _ _ Hi)) in Hc.
  assert (Hset : forall (ts : list thread) pc, length ts = length (threads q) -> <[u := pc]> ts !! u = Some pc).
  { intros ts pc Hl. apply list_lookup_insert_eq. rewrite Hl. by eapply lookup_lt_Some. }
  destruct pu as [|m|m|res| | | | |]; try done.
  - eexists _, _. split; [by eapply step_first_closed|]. split; [by apply Hset|by left].
  - eexists _, _. split; [by eapply step_second_closed|]. split; [by apply Hset|by left].
  - assert (Hl : exists q', leave u res q q' /\ threads q' !! u = Some (SReturned res)).
    { destruct (decide (sendWaiters q - 1 = 0)) as [Hz|Hz].
      2: { eexists. split; [by apply leave_other|by apply Hset]. }
      assert (Hs : exists ts, signal (threads q) ts /\ length ts = length (threads q)).
      { destruct (decide (number sleeping q = 0)) as [Hn|Hn].
        - eexists. split; [apply signal_none|done]. intros k Hk. by apply (number_zero _ _ _ _ Hn) in Hk.
        - assert (Hp0 : 0 < number sleeping q).
          { pose proof (count_nonneg (fun x => sleeping x = true) (threads q)). fold (number sleeping q) in *. lia. }
          apply count_exists in Hp0 as (pc&[k Hk]%list_elem_of_lookup&Hpc).
          assert (pc = KWait false) as -> by (destruct pc as [| | | | | |[]| |]; done).
          eexists. split; [by apply (signal_one _ k)|by rewrite length_insert]. }
      destruct Hs as (ts&Hs&Hlen). eexists. split; [by apply leave_last|by apply Hset]. }
    destruct Hl as (q'&Hl&Hr). exists q', (SReturned res). split; [by eapply step_leave|]. eauto.
Qed.

(** [Close] does not get stuck: a call that waits for senders without a signal has a sender
    inside, and that sender can leave although the queue is full, by returning
    [ErrQueueClosed] or its result; a call that waits for another one either can return or the
    other one is in its loop. *)
Theorem queue_close_progress max q t :
  reachable max q ->
  (threads q !! t = Some (KWait false) ->
   exists u pu q' pu', threads q !! u = Some pu /\ counted pu = true /\ step q q' /\
     threads q' !! u = Some pu' /\ (pu' = SLeaving ErrQueueClosed \/ exists res, pu' = SReturned res)) /\
  (threads q !! t = Some (KWait true) -> step q (closeLoop t q)) /\
  (threads q !! t = Some KOther ->
   step q (goto t KReturned q) \/ exists k w, threads q !! k = Some (KWait w)).
Proof.
  intros Hi%reachable_qinv. split; [|split; [apply step_close_woken|]].
  - intros Ht. pose proof (qi_fits _ _ Hi t _ Ht) as Hpos. cbn in Hpos. rewrite (qi_count _ _ Hi) in Hpos.
    apply count_exists in Hpos as (pu&[u Hu]%list_elem_of_lookup&Hp).
    assert (Hc : closing q = true).
    { pose proof (number_pos waiting q t _ Ht eq_refl) as Hw. rewrite <- (qi_waiting _ _ Hi) in Hw.
      unfold closers in Hw. destruct (closing q); [done|]. cbn in Hw. lia. }
    destruct (sender_leaves max q u pu Hi Hc Hu Hp) as (q'&pu'&?&?&?). eauto 10.
  - intros Ht. pose proof (qi_fits _ _ Hi t _ Ht) as Hc. cbn in Hc. destruct (ch_closed q) eqn:Eo.
    + left. apply step_close_other; [done|]. by rewrite <- (qc_ch _ _ (qi_core _ _ Hi)).
    + right. pose proof (qi_waiting _ _ Hi) as Hw. unfold closers in Hw. rewrite Hc, Eo in Hw. cbn in Hw.
      assert (Hpos : 0 < number waiting q) by lia.
      apply count_exists in Hpos as (pu&[k Hk]%list_elem_of_lookup&Hp). destruct pu; try done. eauto.
Qed.

(** ** A concrete run: a sender blocked on a full queue and a call of [Close] *)

Definition exM (n : nat) : Message := MkMessage (replicate n Byte.x62).

(** One message sent, a second sender blocked. *)
Definition exBlocked : MessageQueue :=
  MkQueue 1 false false false 1 [exM 1] false false [exM 1] [] [SReturned Enqueued; SSending (exM 2)].

Lemma exBlocked_reachable : reachable 1 exBlocked.
Proof.
  eapply reach_step.
  2: { eapply (step_first_default (MkQueue 1 false false false 1 [exM 1] false false [exM 1] []
         [SReturned Enqueued; SEntered (exM 2)]) 1); reflexivity. }
  eapply reach_step.
  2: { eapply (step_enter (MkQueue 1 false false false 0 [exM 1] false false [exM 1] []
         [SReturned Enqueued; SStart (exM 2)]) 1); reflexivity. }
  eapply reach_step.
  2: { eapply (step_call (MkQueue 1 false false false 0 [exM 1] false false [exM 1] [] [SReturned Enqueued])). eauto. }
  eapply reach_step.
  2: { eapply (step_leave (MkQueue 1 false false false 1 [exM 1] false false [exM 1] [] [SLeaving Enqueued]) _ 0);
         [reflexivity|].
       assert (Hs : signal [SLeaving Enqueued] [SLeaving Enqueued]) by (apply signal_none; by intros [|t]).
       match goal with |- leave _ _ ?q _ => exact (leave_last 0 Enqueued q _ eq_refl Hs) end. }
  eapply reach_step.
  2: { eapply (step_send (MkQueue 1 false false false 1 [] false false [] [] [SSending (exM 1)]) 0 (exM 1));
         [reflexivity..|cbn; lia]. }
  eapply reach_step.
  2: { eapply (step_first_default (MkQueue 1 false false false 1 [] false false [] [] [SEntered (exM 1)]) 0); reflexivity. }
  eapply reach_step.
  2: { eapply (step_enter (MkQueue 1 false false false 0 [] false false [] [] [SStart (exM 1)]) 0); reflexivity. }
  eapply reach_step; [apply reach_new|]. eapply (step_call (NewMessageQueue 1)). eauto.
Qed.

(** [Close] waits for the blocked sender. *)
Definition exClosing : MessageQueue :=
  MkQueue 1 true true false 1 [exM 1] false false [exM 1] [] [SReturned Enqueued; SSending (exM 2); KWait false].

Lemma exClosing_reachable : reachable 1 exClosing.
Proof.
  eapply reach_step.
  2: { apply (step_close (MkQueue 1 false false false 1 [exM 1] false false [exM 1] []
         [SReturned Enqueued; SSending (exM 2); KStart]) 2). reflexivity. }
  eapply reach_step; [exact exBlocked_reachable|]. eapply (step_call exBlocked). eauto.
Qed.

(** The sender left and [Close] returned. *)
Definition exShut : MessageQueue :=
  MkQueue 1 true true true 0 [exM 1] true false [exM 1] [] [SReturned Enqueued; SReturned ErrQueueClosed; KReturned].

Lemma exShut_reachable : reachable 1 exShut.
Proof.
  eapply reach_step.
  2: { apply (step_close_woken (MkQueue 1 true true false 0 [exM 1] false false [exM 1] []
         [SReturned Enqueued; SReturned ErrQueueClosed; KWait true]) 2). reflexivity. }
  eapply reach_step.
  2: { eapply (step_leave (MkQueue 1 true true false 1 [exM 1] false false [exM 1] []
         [SReturned Enqueued; SLeaving ErrQueueClosed; KWait false]) _ 1); [reflexivity|].
       match goal with |- leave _ _ ?q _ =>
         exact (leave_last 1 ErrQueueClosed q _ eq_refl (signal_one (threads q) 2 eq_refl)) end. }
  eapply reach_step; [exact exClosing_reachable|]. eapply (step_second_closed exClosing 1); reflexivity.
Qed.

Lemma queue_no_panic_witness : panicked exShut = false /\ forall t m, threads exShut !! t <> Some (SSending m).
Proof.
  destruct (queue_no_panic 1 exShut exShut_reachable) as (H1&_&_&H4). split; [exact H1|]. apply H4. reflexivity.
Defined.

Lemma queue_fifo_witness :
  threads exShut !! 2%nat = Some KReturned /\ forall q', rtc step exShut q' -> sent q' = [exM 1].
Proof.
  destruct (queue_fifo 1 exShut exShut_reachable) as (_&_&_&H). split; [reflexivity|].
  intros q' Hs. exact (proj1 (proj2 (H 2%nat eq_refl q' Hs))).
Defined.

Lemma queue_close_progress_witness :
  threads exClosing !! 2%nat = Some (KWait false) /\
  exists u pu q' pu', threads exClosing !! u = Some pu /\ counted pu = true /\ step exClosing q' /\
     threads q' !! u = Some pu' /\ (pu' = SLeaving ErrQueueClosed \/ exists res, pu' = SReturned res).
Proof.
  split; [reflexivity|]. apply (proj1 (queue_close_progress 1 exClosing 2 exClosing_reachable)). reflexivity.
Defined.
