(* ===== verification/ImageStore.v ===== *)
(** * The image store ([daemon/internal/image])

    Images are configuration files named by their digest ([fs.go]); each image of the store
    ([store.go]) retains the top layer of its root file system and knows its children.

    - The layer store is used through the interface [LayerGetReleaser], as in the source; the
      class has the operations and what the image store relies on.
    - The digest of a file, the JSON decoder, the validation of digests and the test of the
      operating system are arguments; a Boolean argument says whether a write to the disk
      succeeds.
    - [Create] writes the file before it takes the lock of the store: its two parts are
      separate definitions. *)

From S2P Require Import Prelude LayerStore.
Open Scope string_scope.
Open Scope list_scope.

Definition ID := string.

(** ** The interface to the layer store *)

(** [lss_valid s h]: the reference [h] is retained; [lss_named s h c]: its layer has the
    identifier [c]; [lss_has s c]: there is a layer with the identifier [c]. *)
Class LayerGetReleaser (LS L : Type) := {
  lss_Get : string -> LS -> LS * (L + layer_error);
  lss_Release : L -> LS -> LS * release_result;
  lss_ok : LS -> Prop;
  lss_valid : LS -> L -> Prop;
  lss_named : LS -> L -> string -> Prop;
  lss_Get_ok c s s' h : lss_ok s -> lss_Get c s = (s', inl h) ->
    lss_ok s' /\ lss_named s' h c /\ ~ lss_valid s h /\
    (forall h', lss_valid s' h' <-> lss_valid s h' \/ h' = h) /\
    (forall h' c', lss_valid s h' -> lss_named s h' c' -> lss_named s' h' c');
  lss_has : LS -> string -> Prop;
  lss_Get_has c s : lss_ok s -> lss_has s c -> exists s' h, lss_Get c s = (s', inl h);
  lss_Get_err c s s' e : lss_ok s -> lss_Get c s = (s', inr e) ->
    s' = s /\ e = ErrLayerDoesNotExist /\ ~ lss_has s c;
  lss_has_Get c s s' h c' : lss_ok s -> lss_Get c s = (s', inl h) -> lss_has s c' -> lss_has s' c';
  lss_Release_ok s h : lss_ok s -> lss_valid s h ->
    lss_ok (lss_Release h s).1 /\
    (forall h', lss_valid (lss_Release h s).1 h' <-> lss_valid s h' /\ h' <> h) /\
    (forall h' c', lss_valid s h' -> h' <> h -> lss_named s h' c' -> lss_named (lss_Release h s).1 h' c')
}.

(** ** Images and their files *)

Record Image := MkImage {
  DiffIDs : list string;
  History_EmptyLayer : list bool;
  OS : string;
  Parent : ID
}.

Inductive image_error :=
| ErrInvalidJSON | ErrTooManyLayers | ErrBackend | ErrUnsupportedOS | ErrNoLayer | ErrInvalidDigest
| ErrNotFound.

(** What the store uses of other packages: [digest.FromBytes] and [Digest.Validate], the JSON
    decoder behind [NewFromJSON], [runtime.GOOS] and the comparison of [CheckOS], and the step of
    [identity.ChainID]. *)
Record Lib := MkLib {
  FromBytes : string -> ID;
  Validate : ID -> bool;
  NewFromJSON : string -> option Image;
  GOOS : string;
  CheckOS : string -> bool;
  ChainID : string -> string -> string
}.

(** The files: [content] by digest, [metadata] by digest and key. *)
Record fs := MkFs {
  content : gmap ID string;
  metadata : gmap ID (gmap string string)
}.

Section Files.
Context (P : Lib).

Definition fs_get (dgst : ID) (s : fs) : option string :=
  match content s !! dgst with
  | Some c => if bool_decide (FromBytes P c = dgst) then Some c else None
  | None => None
  end.

(** [Set] *)
Definition fs_Set (ok : bool) (data : string) (s : fs) : fs * option ID :=
  if bool_decide (data = "") then (s, None)
  else if negb ok then (s, None)
  else (MkFs (<[FromBytes P data := data]> (content s)) (metadata s), Some (FromBytes P data)).

(** [Delete], with the outcomes of its two removals. *)
Definition fs_Delete (ok1 ok2 : bool) (dgst : ID) (s : fs) : fs :=
  if negb ok1 then s
  else MkFs (if ok2 then delete dgst (content s) else content s) (delete dgst (metadata s)).

Definition fs_SetMetadata (ok : bool) (dgst : ID) (key data : string) (s : fs) : fs * bool :=
  match fs_get dgst s with
  | None => (s, false)
  | Some _ =>
      if ok then (MkFs (content s) (<[dgst := <[key := data]> (default ∅ (metadata s !! dgst))]> (metadata s)), true)
      else (s, false)
  end.

Definition fs_GetMetadata (dgst : ID) (key : string) (s : fs) : option string :=
  match fs_get dgst s with
  | None => None
  | Some _ => metadata s !! dgst ≫= fun m => m !! key
  end.

Definition fs_DeleteMetadata (ok : bool) (dgst : ID) (key : string) (s : fs) : fs :=
  if ok then MkFs (content s) (alter (delete key) dgst (metadata s)) else s.
End Files.

(** [RootFS.ChainID] *)
Definition rootChainID (P : Lib) (diffIDs : list string) : string :=
  match diffIDs with [] => "" | d :: ds => foldl (ChainID P) d ds end.

(** ** The store *)

Record imageMeta (L : Type) := ImageMeta { im_layer : option L; im_children : gset ID }.
Arguments ImageMeta {L} im_layer im_children.
Arguments im_layer {L} _.
Arguments im_children {L} _.

Record store (LS L : Type) := Store {
  images : gmap ID (imageMeta L);
  files : fs;
  digestSet : gset ID;
  lss : LS
}.
Arguments Store {LS L} images files digestSet lss.
Arguments images {LS L} _.
Arguments files {LS L} _.
Arguments digestSet {LS L} _.
Arguments lss {LS L} _.

Section Store.
Context {LS L : Type} `{!LayerGetReleaser LS L}.
Context (P : Lib).

Definition set_files (f : fs) (st : store LS L) : store LS L := Store (images st) f (digestSet st) (lss st).
Definition set_images (m : gmap ID (imageMeta L)) (st : store LS L) : store LS L :=
  Store m (files st) (digestSet st) (lss st).
Definition set_lss (s : LS) (st : store LS L) : store LS L := Store (images st) (files st) (digestSet st) s.
Definition set_digestSet (d : gset ID) (st : store LS L) : store LS L := Store (images st) (files st) d (lss st).

Definition GetParent (id : ID) (st : store LS L) : option ID :=
  fs_GetMetadata P id "parent" (files st).

Definition Get (id : ID) (st : store LS L) : option Image :=
  match fs_get P id (files st) with
  | None => None
  | Some config =>
      match NewFromJSON P config with
      | None => None
      | Some img => Some (MkImage (DiffIDs img) (History_EmptyLayer img) (OS img) (default "" (GetParent id st)))
      end
  end.

Definition digestSet_Add (id : ID) (st : store LS L) : store LS L * bool :=
  if Validate P id then (set_digestSet ({[id]} ∪ digestSet st) st, true) else (st, false).
Definition digestSet_Remove (id : ID) (st : store LS L) : store LS L :=
  if Validate P id then set_digestSet (digestSet st ∖ {[id]}) st else st.

Definition OperatingSystem (img : Image) : string := if bool_decide (OS img = "") then GOOS P else OS img.

(** *** [Create] *)

Definition tooManyLayers (img : Image) : bool :=
  (length (DiffIDs img) <? length (filter (fun e => e = false) (History_EmptyLayer img)))%nat.

(** Before the lock. *)
Definition create_start (ok : bool) (config : string) (st : store LS L) :
    store LS L * ((ID * Image) + image_error) :=
  match NewFromJSON P config with
  | None => (st, inr ErrInvalidJSON)
  | Some img =>
      if tooManyLayers img then (st, inr ErrTooManyLayers)
      else match fs_Set P ok config (files st) with
           | (f, None) => (set_files f st, inr ErrBackend)
           | (f, Some id) => (set_files f st, inl (id, img))
           end
  end.

(** With the lock. *)
Definition create_finish (id : ID) (img : Image) (st : store LS L) : store LS L * (ID + image_error) :=
  match images st !! id with
  | Some _ => (st, inl id)
  | None =>
      let layerID := rootChainID P (DiffIDs img) in
      let add (l : option L) (st : store LS L) :=
        match digestSet_Add id (set_images (<[id := ImageMeta l ∅]> (images st)) st) with
        | (st, true) => (st, inl id)
        | (st, false) => (set_images (delete id (images st)) st, inr ErrInvalidDigest)
        end in
      if bool_decide (layerID = "") then add None st
      else if negb (CheckOS P (OperatingSystem img)) then (st, inr ErrUnsupportedOS)
      else match lss_Get layerID (lss st) with
           | (s, inr _) => (set_lss s st, inr ErrNoLayer)
           | (s, inl l) => add (Some l) (set_lss s st)
           end
  end.

Definition Create (ok : bool) (config : string) (st : store LS L) : store LS L * (ID + image_error) :=
  match create_start ok config st with
  | (st, inr e) => (st, inr e)
  | (st, inl (id, img)) => create_finish id img st
  end.

(** *** Children and parents *)

Definition removeChild (parent : option ID) (id : ID) (m : gmap ID (imageMeta L)) : gmap ID (imageMeta L) :=
  match parent with
  | Some p => alter (fun pm => ImageMeta (im_layer pm) (im_children pm ∖ {[id]})) p m
  | None => m
  end.
Definition addChild (p id : ID) (m : gmap ID (imageMeta L)) : gmap ID (imageMeta L) :=
  alter (fun pm => ImageMeta (im_layer pm) ({[id]} ∪ im_children pm)) p m.

Definition SetParent (ok : bool) (id parentID : ID) (st : store LS L) : store LS L * option image_error :=
  match images st !! parentID with
  | None => (st, Some ErrNotFound)
  | Some _ =>
      let m := addChild parentID id (removeChild (GetParent id st) id (images st)) in
      let '(f, wrote) := fs_SetMetadata P ok id "parent" parentID (files st) in
      (set_files f (set_images m st), if wrote then None else Some ErrBackend)
  end.

(** *** [Delete] *)

(** The outcomes of the removals on disk: of the files of the image and of the parent of a
    child. *)
Record disk := MkDisk { d_dir : bool; d_file : bool; d_child : ID -> bool }.

(** [Delete] returns what the release of the layer returns. *)
Inductive delete_result :=
| DeleteErr (e : image_error)
| LayerReleased (r : release_result).

Definition Delete (dk : disk) (id : ID) (st : store LS L) : store LS L * delete_result :=
  match images st !! id with
  | None => (st, DeleteErr ErrNotFound)
  | Some meta =>
      match Get id st with
      | None => (st, DeleteErr ErrNotFound)
      | Some _ =>
          let f := foldr (fun c => fs_DeleteMetadata (d_child dk c) c "parent") (files st) (elements (im_children meta)) in
          let st := set_files f st in
          let st := set_images (removeChild (GetParent id st) id (images st)) st in
          let st := digestSet_Remove id st in
          let st := set_images (delete id (images st)) st in
          let st := set_files (fs_Delete (d_dir dk) (d_file dk) id (files st)) st in
          match im_layer meta with
          | Some l => let '(s, r) := lss_Release l (lss st) in (set_lss s st, LayerReleased r)
          | None => (st, LayerReleased (Released []))
          end
      end
  end.

(** *** Reading *)

Definition Children (id : ID) (st : store LS L) : gset ID :=
  match images st !! id with Some m => im_children m | None => ∅ end.
Definition imagesMap (all : bool) (st : store LS L) : gmap ID Image :=
  map_imap (fun id _ => Get id st)
    (filter (fun '(id, m) => all = true \/ im_children m = ∅) (images st)).
Definition Heads (st : store LS L) : gmap ID Image := imagesMap false st.
Definition Map_ (st : store LS L) : gmap ID Image := imagesMap true st.
Definition Len (st : store LS L) : nat := size (images st).

(** *** [NewImageStore] and [restore] *)

(** The callback of [Walk]; the result says whether the walk goes on. *)
Definition restoreImage (dgst : ID) (st : store LS L) : store LS L * bool :=
  match Get dgst st with
  | None => (st, true)
  | Some img =>
      let chainID := rootChainID P (DiffIDs img) in
      let add (l : option L) (st : store LS L) :=
        match digestSet_Add dgst st with
        | (st, false) => (st, false)
        | (st, true) => (set_images (<[dgst := ImageMeta l ∅]> (images st)) st, true)
        end in
      if bool_decide (chainID = "") then add None st
      else if negb (CheckOS P (OperatingSystem img)) then (st, true)
      else match lss_Get chainID (lss st) with
           | (s, inr ErrLayerDoesNotExist) => (set_lss s st, true)
           | (s, inr _) => (set_lss s st, false)
           | (s, inl l) => add (Some l) (set_lss s st)
           end
  end.

Fixpoint Walk (dgsts : list ID) (st : store LS L) : store LS L * bool :=
  match dgsts with
  | [] => (st, true)
  | d :: ds => if negb (Validate P d) then Walk ds st
               else match restoreImage d st with
                    | (st, true) => Walk ds st
                    | (st, false) => (st, false)
                    end
  end.

(** The second pass over the images, in some order. *)
Definition fillChildren (ids : list ID) (st : store LS L) : store LS L :=
  set_images (foldr (fun id m => match GetParent id st with Some p => addChild p id m | None => m end)
                (images st) ids) st.

(** [dgsts] is the listing of the directory, [ids] the order of the second pass. *)
Definition NewImageStore (f : fs) (s : LS) (dgsts : list ID) (order : store LS L -> list ID) :
    store LS L * bool :=
  match Walk dgsts (Store ∅ f ∅ s) with
  | (st, false) => (st, false)
  | (st, true) => (fillChildren (order st) st, true)
  end.
End Store.
