(* ===== verification/ImageStoreSpec.v ===== *)
(** * The retained layers of the image store

    [iinv]: every image holds a reference of its own to its layer; every call keeps this,
    in any interleaving, for every layer store that implements the interface; the layer store
    of [LayerStore] implements it. *)

From S2P Require Import Prelude LayerStore LayerStoreSpec LayerStoreSystem LayerStoreRestore LayerStoreTheorems ImageStore.
Open Scope string_scope.
Open Scope list_scope.

Section Client.
Context {LS L : Type} `{!LayerGetReleaser LS L}.
Context (P : Lib).
Implicit Types (st : store LS L) (i : ID) (h : L).

(** ** Retained layers *)

(** The configuration of an image. *)
Definition config_of (i : ID) (img : Image) : Prop := exists data, FromBytes P data = i /\ NewFromJSON P data = Some img.

(** The image retains the layer that its configuration names. *)
Definition retains (s : LS) (i : ID) (m : imageMeta L) : Prop :=
  exists img, config_of i img /\
  match im_layer m with
  | None => rootChainID P (DiffIDs img) = ""
  | Some h => lss_valid s h /\ lss_named s h (rootChainID P (DiffIDs img))
  end.

Record iinv (st : store LS L) : Prop := {
  ii_ok : lss_ok (lss st);
  ii_retains i m : images st !! i = Some m -> retains (lss st) i m;
  ii_distinct i j m n h : images st !! i = Some m -> images st !! j = Some n ->
    im_layer m = Some h -> im_layer n = Some h -> i = j;
  ii_digests i : i ∈ digestSet st <-> is_Some (images st !! i);
  ii_validate i : is_Some (images st !! i) -> Validate P i = true
}.

(** Only the images, the set of digests and the layer store matter; children do not. *)
Lemma iinv_children st (f : imageMeta L -> imageMeta L) p fl :
  (forall m, im_layer (f m) = im_layer m) -> iinv st ->
  iinv (set_files fl (set_images (alter f p (images st)) st)).
Proof.
  intros Hf Hi.
  assert (Hl : forall i m, alter f p (images st) !! i = Some m ->
    exists m0, images st !! i = Some m0 /\ im_layer m = im_layer m0).
  { intros i m. rewrite lookup_alter. case_decide as E.
    - subst i. destruct (images st !! p) as [m0|]; [|done]. intros [= <-]. eauto.
    - eauto. }
  constructor; cbn.
  - apply Hi.
  - intros i m (m0&H0&E)%Hl. destruct (ii_retains _ Hi i m0 H0) as (img&Hc&H). exists img. split; [done|].
    by rewrite E.
  - intros i j m n h (m0&H0&E0)%Hl (n0&H1&E1)%Hl Hm Hn. apply (ii_distinct _ Hi i j m0 n0 h); congruence.
  - intros i. rewrite (ii_digests _ Hi i), lookup_alter. case_decide as E; [|done]. subst i. by rewrite fmap_is_Some.
  - intros i [m (m0&H0&_)%Hl]. apply (ii_validate _ Hi). eauto.
Qed.

Lemma iinv_files st fl : iinv st -> iinv (set_files fl st).
Proof. intros []. by constructor. Qed.

Lemma create_start_iinv ok config st : iinv st -> iinv (create_start P ok config st).1.
Proof.
  intros Hi. unfold create_start. destruct (NewFromJSON P config); [|done].
  destruct (tooManyLayers _); [done|]. destruct (fs_Set P ok config (files st)) as [f [d|]]; by apply iinv_files.
Qed.

Lemma create_start_config ok config st st' i img :
  create_start P ok config st = (st', inl (i, img)) -> config_of i img.
Proof.
  unfold create_start, fs_Set. destruct (NewFromJSON P config) as [im|] eqn:E; [|done].
  destruct (tooManyLayers _); [done|]. case_bool_decide; [done|]. destruct ok; [|done]. intros [= _ <- <-].
  by exists config.
Qed.

(** An image is added with a layer that was just retained. *)
Lemma add_iinv st s i l img :
  iinv st -> images st !! i = None -> Validate P i = true -> config_of i img -> lss_ok s ->
  (forall h c, lss_valid (lss st) h -> lss_named (lss st) h c -> lss_valid s h /\ lss_named s h c) ->
  match l with
  | None => rootChainID P (DiffIDs img) = ""
  | Some h => ~ lss_valid (lss st) h /\ lss_valid s h /\ lss_named s h (rootChainID P (DiffIDs img))
  end ->
  iinv (Store (<[i := ImageMeta l ∅]> (images st)) (files st) ({[i]} ∪ digestSet st) s).
Proof.
  intros Hi Hn Hv Hc Hok Hkeep Hl.
  assert (Hold : forall j m, images st !! j = Some m -> retains s j m).
  { intros j m Hj. destruct (ii_retains _ Hi j m Hj) as (im&Him&H). exists im. split; [done|].
    destruct (im_layer m) as [h|]; [|done]. destruct H. by apply Hkeep. }
  assert (Hfresh : forall j m h, images st !! j = Some m -> im_layer m = Some h -> l <> Some h).
  { intros j m h Hj Hm ->. destruct (ii_retains _ Hi j m Hj) as (im&_&H). rewrite Hm in H. by destruct Hl, H. }
  constructor; cbn.
  - done.
  - intros j m [[<- <-]|[_ Hj]]%lookup_insert_Some; [|by apply Hold]. exists img. split; [done|]. cbn.
    destruct l; [apply Hl|done].
  - intros j k m n h [[<- <-]|[_ Hj]]%lookup_insert_Some [[<- <-]|[_ Hk]]%lookup_insert_Some Hm Hn'; cbn in *.
    + done.
    + by apply (Hfresh k n h) in Hk.
    + by apply (Hfresh j m h) in Hj.
    + by apply (ii_distinct _ Hi j k m n h).
  - intros j. rewrite elem_of_union, elem_of_singleton, (ii_digests _ Hi j), lookup_insert_is_Some'. naive_solver.
  - intros j [m [[<- _]|[_ Hj]]%lookup_insert_Some]; [done|]. apply (ii_validate _ Hi). eauto.
Qed.

(** Other holders of the layer store: the references of the images stay. *)
Lemma lss_iinv st s :
  iinv st -> lss_ok s ->
  (forall i m h, images st !! i = Some m -> im_layer m = Some h ->
     lss_valid s h /\ forall c, lss_named (lss st) h c -> lss_named s h c) ->
  iinv (set_lss s st).
Proof.
  intros Hi Hok Hk. constructor; cbn; try apply Hi; [done|].
  intros i m Hm. destruct (ii_retains _ Hi i m Hm) as (img&Hc&H). exists img. split; [done|].
  destruct (im_layer m) as [h|] eqn:E; [|done]. destruct H as [_ Hn]. destruct (Hk i m h Hm E) as [Hv Hc'].
  split; [done|by apply Hc'].
Qed.

Lemma image_valid st i m h : iinv st -> images st !! i = Some m -> im_layer m = Some h -> lss_valid (lss st) h.
Proof. intros Hi Hm Hl. destruct (ii_retains _ Hi i m Hm) as (img&_&H). rewrite Hl in H. apply H. Qed.

Lemma create_finish_iinv i img st :
  iinv st -> config_of i img -> iinv (create_finish P i img st).1.
Proof.
  intros Hi Hc. unfold create_finish. destruct (images st !! i) as [m|] eqn:Hn; [done|].
  unfold digestSet_Add. case_bool_decide as El.
  - destruct (Validate P i) eqn:Ev; cbn.
    + apply (add_iinv st (lss st) i None img); auto. apply Hi.
    + rewrite delete_insert_id by done. by destruct st.
  - destruct (negb _); [done|]. destruct (lss_Get _ (lss st)) as [s [h|e]] eqn:Eg.
    + destruct (lss_Get_ok _ _ _ _ (ii_ok _ Hi) Eg) as (Hok&Hnm&Hfresh&Hv&Hkeep).
      assert (Hk : forall h' c, lss_valid (lss st) h' -> lss_named (lss st) h' c -> lss_valid s h' /\ lss_named s h' c).
      { intros h' c Hh Hc'. split; [apply Hv; by left|by apply Hkeep]. }
      destruct (Validate P i) eqn:Ev; cbn.
      * apply (add_iinv st s i (Some h) img); try done. split; [done|]. split; [apply Hv; by right|done].
      * rewrite delete_insert_id by done. apply (lss_iinv st s Hi Hok). intros j m h' Hj Hm.
        pose proof (image_valid st j m h' Hi Hj Hm) as Hh. split; [apply Hv; by left|]. intros c. by apply Hkeep.
    + destruct (lss_Get_err _ _ _ _ (ii_ok _ Hi) Eg) as (->&_&_). by destruct st.
Qed.

Lemma removeChild_layer p i (im : gmap ID (imageMeta L)) j m :
  removeChild p i im !! j = Some m -> exists m0, im !! j = Some m0 /\ im_layer m = im_layer m0.
Proof.
  destruct p as [p|]; cbn [removeChild]; [|eauto]. rewrite lookup_alter. case_decide as E; [|eauto]. subst j.
  destruct (im !! p) as [m0|]; [|done]. intros [= <-]. eauto.
Qed.

Lemma SetParent_iinv ok i p st : iinv st -> iinv (SetParent P ok i p st).1.
Proof.
  intros Hi. unfold SetParent. destruct (images st !! p); [|done].
  destruct (fs_SetMetadata P ok i "parent" p (files st)) as [f w]. cbn [fst].
  destruct (GetParent P i st) as [q|]; cbn [removeChild].
  - pose proof (iinv_children st (fun pm => ImageMeta (im_layer pm) (im_children pm ∖ {[i]})) q f ltac:(done) Hi) as H1.
    exact (iinv_children _ (fun pm => ImageMeta (im_layer pm) ({[i]} ∪ im_children pm)) p f ltac:(done) H1).
  - exact (iinv_children st (fun pm => ImageMeta (im_layer pm) ({[i]} ∪ im_children pm)) p f ltac:(done) Hi).
Qed.

(** An image leaves the store and its reference is released. *)
Lemma remove_iinv st i m (im : gmap ID (imageMeta L)) fl :
  iinv st -> images st !! i = Some m ->
  (forall j n, im !! j = Some n -> j <> i /\ exists n0, images st !! j = Some n0 /\ im_layer n = im_layer n0) ->
  (forall j, j <> i -> is_Some (images st !! j) -> is_Some (im !! j)) ->
  iinv (Store im fl (digestSet st ∖ {[i]}) (match im_layer m with Some h => (lss_Release h (lss st)).1 | None => lss st end)).
Proof.
  intros Hi Hm Him Hall.
  assert (Hst : iinv (Store im fl (digestSet st ∖ {[i]}) (lss st))).
  { constructor; cbn.
    - apply Hi.
    - intros j n (Hne&n0&Hj&E)%Him. destruct (ii_retains _ Hi j n0 Hj) as (img&Hc&H). exists img. by rewrite E.
    - intros j k n o h (_&n0&Hj&E)%Him (_&o0&Hk&E')%Him Hn Ho. apply (ii_distinct _ Hi j k n0 o0 h); congruence.
    - intros j. rewrite elem_of_difference, elem_of_singleton, (ii_digests _ Hi j). split.
      + intros [? ?]. by apply Hall.
      + intros [n (?&n0&?&_)%Him]. eauto.
    - intros j [n (_&n0&Hj&_)%Him]. apply (ii_validate _ Hi). eauto. }
  destruct (im_layer m) as [h|] eqn:El; [|done].
  pose proof (image_valid st i m h Hi Hm El) as Hv.
  destruct (lss_Release_ok (lss st) h (ii_ok _ Hi) Hv) as (Hok&Hval&Hkeep).
  apply (lss_iinv _ (lss_Release h (lss st)).1 Hst Hok). cbn. intros j n h' Hj Hn.
  destruct (Him j n Hj) as (Hne&n0&Hj0&E). rewrite Hn in E.
  assert (h' <> h) by (intros ->; by apply Hne, (ii_distinct _ Hi j i n0 m h)).
  assert (lss_valid (lss st) h') by (by apply (image_valid st j n0 h')).
  split; [by apply Hval|]. intros c. by apply Hkeep.
Qed.

Lemma Delete_iinv dk i st : iinv st -> iinv (Delete P dk i st).1.
Proof.
  intros Hi. unfold Delete. destruct (images st !! i) as [m|] eqn:Hm; [|done]. destruct (Get P i st); [|done].
  cbn [fst]. set (f := foldr _ _ _). set (q := GetParent P i (set_files f st)).
  set (im := delete i (removeChild q i (images st))).
  assert (Him : forall j n, im !! j = Some n -> j <> i /\ exists n0, images st !! j = Some n0 /\ im_layer n = im_layer n0).
  { intros j n [Hne Hj]%lookup_delete_Some. split; [done|]. by eapply removeChild_layer. }
  assert (Hall : forall j, j <> i -> is_Some (images st !! j) -> is_Some (im !! j)).
  { intros j Hne Hj. unfold im. rewrite lookup_delete_ne by done. destruct q as [q|]; cbn [removeChild]; [|done].
    rewrite lookup_alter. case_decide as E; [|done]. subst j. by apply fmap_is_Some. }
  pose proof (remove_iinv st i m im (fs_Delete (d_dir dk) (d_file dk) i f) Hi Hm Him Hall) as H.
  unfold digestSet_Remove. rewrite (ii_validate _ Hi i) by eauto. destruct (im_layer m) as [h|] in H |- *; [|exact H].
  match goal with |- context [lss_Release h ?s] => change s with (lss st) end.
  destruct (lss_Release h (lss st)) as [ls r] in H |- *. exact H.
Qed.

(** ** Interleaved calls *)

(** A call of [Create] may be between its two parts; other clients of the layer store may do
    anything but release the references of the images. *)
Inductive istep : store LS L * list (ID * Image) -> store LS L * list (ID * Image) -> Prop :=
| istep_create_start ok config st st' pend i img :
    create_start P ok config st = (st', inl (i, img)) -> istep (st, pend) (st', (i, img) :: pend)
| istep_create_fails ok config st st' pend e :
    create_start P ok config st = (st', inr e) -> istep (st, pend) (st', pend)
| istep_create_finish st i img pend pend' :
    pend ≡ₚ (i, img) :: pend' -> istep (st, pend) ((create_finish P i img st).1, pend')
| istep_setparent ok i p st pend : istep (st, pend) ((SetParent P ok i p st).1, pend)
| istep_delete dk i st pend : istep (st, pend) ((Delete P dk i st).1, pend)
| istep_others st s pend :
    lss_ok s ->
    (forall h, lss_valid (lss st) h -> (exists i m, images st !! i = Some m /\ im_layer m = Some h) ->
       lss_valid s h /\ forall c, lss_named (lss st) h c -> lss_named s h c) ->
    istep (st, pend) (set_lss s st, pend).

Definition isys_inv (x : store LS L * list (ID * Image)) : Prop :=
  iinv x.1 /\ forall i img, (i, img) ∈ x.2 -> config_of i img.

Lemma istep_inv x y : isys_inv x -> istep x y -> isys_inv y.
Proof.
  intros [Hi Hp] Hs. destruct Hs as [ok config st st' pend i img Hc|ok config st st' pend e Hc
    |st i img pend pend' Hperm|ok i p st pend|dk i st pend|st s pend Hok Hk]; cbn in *.
  - pose proof (create_start_iinv ok config st Hi) as H. rewrite Hc in H. split; [done|].
    intros j im [[= -> ->]|Hj]%elem_of_cons; [by eapply create_start_config|by apply Hp].
  - pose proof (create_start_iinv ok config st Hi) as H. rewrite Hc in H. by split.
  - split; [apply create_finish_iinv; [done|apply Hp; rewrite Hperm; by left]|].
    intros j im Hj. apply Hp. rewrite Hperm. by right.
  - split; [by apply SetParent_iinv|done].
  - split; [by apply Delete_iinv|done].
  - split; [|done]. apply lss_iinv; [done..|]. intros i m h Hm Hl.
    apply Hk; [by eapply image_valid|eauto].
Qed.

Lemma isteps_inv x y : isys_inv x -> rtc istep x y -> isys_inv y.
Proof. intros Hx Hs. induction Hs; eauto using istep_inv. Qed.

(** A call of [Create] without interleaving is a run of its parts. *)
Lemma Create_run ok config st pend : rtc istep (st, pend) ((Create P ok config st).1, pend).
Proof.
  unfold Create. destruct (create_start P ok config st) as [st1 [[i img]|e]] eqn:Ec.
  - eapply rtc_l; [by eapply istep_create_start|]. eapply rtc_l; [|apply rtc_refl]. by apply istep_create_finish.
  - apply rtc_once. by eapply istep_create_fails.
Qed.

Lemma empty_iinv f s : lss_ok s -> iinv (Store ∅ f ∅ s).
Proof.
  intros Hok. constructor; cbn; try done.
  - intros i. rewrite lookup_empty. split; [set_solver|]. by intros [? [=]].
  - intros i. rewrite lookup_empty. by intros [? [=]].
Qed.

Lemma empty_isys f s : lss_ok s -> isys_inv (Store ∅ f ∅ s, []).
Proof. intros Hok. split; [by apply empty_iinv|]. intros i img Hin. by apply not_elem_of_nil in Hin. Qed.
End Client.

(** ** The layer store implements the interface *)

Section Instance.
Context (del : nat -> bool).

Definition ls_valid (ls : layerStore) (h : Layer) : Prop :=
  exists r l rl, h = LRef r l /\ heap ls !! l = Some rl /\ r ∈ l_references rl.
Definition ls_named (ls : layerStore) (h : Layer) (c : string) : Prop :=
  exists rl, heap ls !! locOf h = Some rl /\ l_chainID rl = c.

Lemma ls_Get_ok c ls ls' h :
  (exists ext, linv ext ls) -> LayerStore.Get c ls = (ls', inl h) ->
  (exists ext, linv ext ls') /\ ls_named ls' h c /\ ~ ls_valid ls h /\
  (forall h', ls_valid ls' h' <-> ls_valid ls h' \/ h' = h) /\
  (forall h' c', ls_valid ls h' -> ls_named ls h' c' -> ls_named ls' h' c').
Proof.
  intros [ext Hi] Hg. pose proof (Get_ok c ext ls Hi) as Hok. rewrite Hg in Hok. destruct Hok as (Hi'&_).
  unfold LayerStore.Get, get in Hg. destruct (layerMap ls !! c) as [l|] eqn:El; [|done].
  destruct (lv_map _ _ Hi c l El) as (rl&Hl&Hc). rewrite Hl in Hg. unfold getReference in Hg.
  cbn [setLayer set_heap heap] in Hg. rewrite lookup_insert_eq in Hg. injection Hg as <- <-.
  split; [eauto|].
  assert (Hh : forall x rx, heap ls !! x = Some rx -> x <> l -> heap (set_nextRef (S (nextRef ls)) (setLayer l
    (with_references (with_count rl (l_referenceCount rl + 1)) ({[nextRef ls]} ∪ l_references rl))
    (setLayer l (with_count rl (l_referenceCount rl + 1)) ls))) !! x = Some rx).
  { intros x rx Hx Hne. cbn. by rewrite !lookup_insert_ne. }
  split; [eexists; cbn; rewrite lookup_insert_eq; by split|].
  split; [|split].
  - intros (r&l'&rl'&[= <- <-]&Hl'&Hr). destruct (lv_refs _ _ Hi _ _ _ Hl' Hr). lia.
  - intros h'. split.
    + intros (r&x&rx&->&Hx&Hr). cbn in Hx. apply lookup_insert_Some in Hx as [[<- <-]|[Hne Hx]].
      * cbn in Hr. apply elem_of_union in Hr as [->%elem_of_singleton|Hr]; [by right|]. left. by exists r, l, rl.
      * rewrite lookup_insert_ne in Hx by done. left. by exists r, x, rx.
    + intros [(r&x&rx&->&Hx&Hr)| ->].
      * destruct (decide (x = l)) as [->|Hne]; [|exists r, x, rx; eauto]. simplify_eq.
        eexists r, l, _. split; [done|]. cbn. rewrite lookup_insert_eq. split; [done|]. cbn. set_solver.
      * eexists _, l, _. split; [done|]. cbn. rewrite lookup_insert_eq. split; [done|]. cbn. set_solver.
  - intros h' c' _ (rx&Hx&<-). destruct (decide (locOf h' = l)) as [E|Hne]; [|exists rx; eauto].
    rewrite E, Hl in Hx. injection Hx as <-. eexists. rewrite E. cbn. rewrite lookup_insert_eq. done.
Qed.

Lemma ls_Get_err c ls ls' e :
  (exists ext, linv ext ls) -> LayerStore.Get c ls = (ls', inr e) ->
  ls' = ls /\ e = ErrLayerDoesNotExist /\ ~ is_Some (layerMap ls !! c).
Proof.
  intros [ext Hi]. unfold LayerStore.Get, get. destruct (layerMap ls !! c) as [l|] eqn:El.
  - destruct (lv_map _ _ Hi c l El) as (rl&->&_). by destruct (getReference l _).
  - intros [= <- <-]. split; [done|]. split; [done|]. by intros [? [=]].
Qed.

Lemma ls_Release_ok ls h :
  (exists ext, linv ext ls) -> ls_valid ls h ->
  let ls' := (Release del h ls).1 in
  (exists ext, linv ext ls') /\
  (forall h', ls_valid ls' h' <-> ls_valid ls h' /\ h' <> h) /\
  (forall h' c, ls_valid ls h' -> h' <> h -> ls_named ls h' c -> ls_named ls' h' c).
Proof.
  intros [ext Hi] (r&l&rl&->&Hl&Hr) ls'. subst ls'.
  pose proof (Release_ok del (LRef r l) ext ls Hi) as Hok.
  destruct (lv_refs _ _ Hi l rl r Hl Hr) as [_ Hm]. pose proof (mapped_chain _ _ _ _ Hi Hm Hl) as Hc.
  assert (E : Release del (LRef r l) ls =
    releaseLayer del l (setLayer l (with_references rl (l_references rl ∖ {[r]})) ls)).
  { unfold Release. cbn [locOf]. rewrite Hl, Hc, Hl. cbn [hasReference deleteReference].
    by rewrite bool_decide_eq_true_2. }
  rewrite E in *. pose proof (unref_release del l rl r ls) as Hrefs.
  destruct (releaseLayer del l _) as [ls' res]. cbn [fst] in *. destruct Hok as (Hi'&Hk&_).
  split; [eauto|]. split.
  - intros h'. split.
    + intros (r'&x&rx&->&Hx&Hr'). destruct (Hrefs x rx Hl Hx) as (rx0&Hx0&Er&_). rewrite Er in Hr'.
      case_decide as Ex; [|split; [by exists r', x, rx0|congruence]]. split; [exists r', x, rx0; set_solver|].
      intros [= -> _]. set_solver.
    + intros [(r'&x&rx0&->&Hx0&Hr') Hne]. destruct (k_heap _ _ Hk x ltac:(eauto)) as [rx Hx].
      destruct (Hrefs x rx Hl Hx) as (rx1&Hx1&Er&_). simplify_eq. exists r', x, rx. split; [done|]. split; [done|].
      rewrite Er. case_decide as Ex; [|done]. subst x. apply elem_of_difference. split; [done|].
      intros ->%elem_of_singleton. done.
  - intros h' c' _ _ (rx0&Hx0&<-). destruct (k_heap _ _ Hk _ ltac:(eauto)) as [rx Hx].
    destruct (Hrefs _ rx Hl Hx) as (rx1&Hx1&_&Ec). simplify_eq. by exists rx.
Qed.

Lemma ls_Get_has c ls :
  (exists ext, linv ext ls) -> is_Some (layerMap ls !! c) -> exists ls' h, LayerStore.Get c ls = (ls', inl h).
Proof.
  intros [ext Hi] [l Hl]. unfold LayerStore.Get, get. rewrite Hl.
  destruct (lv_map _ _ Hi c l Hl) as (rl&->&_). destruct (getReference l _). eauto.
Qed.

Lemma ls_has_Get c ls ls' h c' :
  (exists ext, linv ext ls) -> LayerStore.Get c ls = (ls', inl h) ->
  is_Some (layerMap ls !! c') -> is_Some (layerMap ls' !! c').
Proof.
  intros [ext Hi] Hg. pose proof (Get_ok c ext ls Hi) as Hok. rewrite Hg in Hok.
  by destruct Hok as (_&_&->&_).
Qed.

#[export] Instance layerStore_getReleaser : LayerGetReleaser layerStore Layer := {
  lss_Get := LayerStore.Get;
  lss_Release := Release del;
  lss_ok ls := exists ext, linv ext ls;
  lss_valid := ls_valid;
  lss_named := ls_named;
  lss_has ls c := is_Some (layerMap ls !! c);
  lss_Get_ok := ls_Get_ok;
  lss_Get_has := ls_Get_has;
  lss_Get_err := ls_Get_err;
  lss_has_Get := ls_has_Get;
  lss_Release_ok := ls_Release_ok
}.
End Instance.
