(* ===== verification/ImageStoreFamily.v ===== *)
(** * Parents, children and restarts of the image store

    [finv]: the children of an image are the images whose stored parent it is.  It holds for
    calls that do not overlap, on a disk that works, and makes a restart exact. *)

From S2P Require Import Prelude LayerStore ImageStore ImageStoreSpec.
Open Scope string_scope.
Open Scope list_scope.

Section Family.
Context {LS L : Type} `{!LayerGetReleaser LS L}.
Context (P : Lib).
Implicit Types (st : store LS L) (i : ID).

(** The parent on disk. *)
Definition stored (f : fs) (i : ID) : option ID := metadata f !! i ≫= fun m => m !! "parent".

Definition bootable (img : Image) : Prop :=
  rootChainID P (DiffIDs img) = "" \/ CheckOS P (OperatingSystem P img) = true.

Record finv (st : store LS L) : Prop := {
  f_content d c : content (files st) !! d = Some c -> FromBytes P c = d;
  f_meta d : is_Some (metadata (files st) !! d) -> is_Some (content (files st) !! d);
  f_image i m : images st !! i = Some m -> Validate P i = true /\
    exists c img, content (files st) !! i = Some c /\ NewFromJSON P c = Some img /\ bootable img;
  f_children p m c : images st !! p = Some m -> c ∈ im_children m <-> stored (files st) c = Some p;
  f_dangling c p : stored (files st) c = Some p -> is_Some (images st !! p)
}.

Lemma fs_get_content st d : finv st -> fs_get P d (files st) = content (files st) !! d.
Proof.
  intros Hi. unfold fs_get. destruct (content (files st) !! d) as [c|] eqn:E; [|done].
  by rewrite bool_decide_eq_true_2 by (by apply (f_content _ Hi)).
Qed.

Lemma GetParent_stored st i : finv st -> GetParent P i st = stored (files st) i.
Proof.
  intros Hi. unfold GetParent, fs_GetMetadata. rewrite (fs_get_content st i Hi). unfold stored.
  destruct (content (files st) !! i) eqn:Ec; [done|].
  destruct (metadata (files st) !! i) eqn:Em; [|done].
  destruct (f_meta _ Hi i ltac:(eauto)). congruence.
Qed.

Lemma finv_empty s : finv (Store ∅ (MkFs ∅ ∅) ∅ s).
Proof. constructor; cbn; try done. intros d. rewrite lookup_empty. by intros [? [=]]. Qed.

(** *** Create *)

(** The digest has no collision. *)
Context (Hinj : forall x y, FromBytes P x = FromBytes P y -> x = y).

Lemma set_file_finv st data :
  finv st ->
  finv (set_files (MkFs (<[FromBytes P data := data]> (content (files st))) (metadata (files st))) st).
Proof.
  intros Hi. constructor; cbn.
  - intros d c [[<- <-]|[_ Hd]]%lookup_insert_Some; [done|]. by apply (f_content _ Hi).
  - intros d Hd. apply lookup_insert_is_Some'. right. by apply (f_meta _ Hi).
  - intros i m Hm. destruct (f_image _ Hi i m Hm) as (Hv&c&img&Hc&Hj&?). split; [done|]. exists c, img.
    split; [|done]. destruct (decide (FromBytes P data = i)) as [E|Hne]; [|by rewrite lookup_insert_ne].
    rewrite E, lookup_insert_eq. f_equal. apply Hinj. by rewrite E, (f_content _ Hi i c Hc).
  - apply (f_children _ Hi).
  - apply (f_dangling _ Hi).
Qed.

Lemma finv_lss st s : finv st -> finv (set_lss s st).
Proof. intros []. by constructor. Qed.

Lemma add_image_finv st i l c img ds s :
  finv st -> images st !! i = None -> Validate P i = true -> content (files st) !! i = Some c ->
  NewFromJSON P c = Some img -> bootable img ->
  finv (Store (<[i := ImageMeta l ∅]> (images st)) (files st) ds s).
Proof.
  intros Hi Hn Hv Hc Hj Hb. constructor; cbn; try apply Hi.
  - intros j m [[<- _]|[_ Hm]]%lookup_insert_Some; [split; [done|]; eauto|by apply (f_image _ Hi j m)].
  - intros p m d [[<- <-]|[_ Hm]]%lookup_insert_Some; [|by apply (f_children _ Hi p m)]. cbn. split; [set_solver|].
    intros Hd%(f_dangling _ Hi). destruct Hd. congruence.
  - intros d p Hd%(f_dangling _ Hi). apply lookup_insert_is_Some'. by right.
Qed.

Lemma Create_finv ok config st : finv st -> finv (Create P ok config st).1.
Proof.
  intros Hi. unfold Create, create_start. destruct (NewFromJSON P config) as [img|] eqn:Ej; [|done].
  destruct (tooManyLayers img); [done|]. unfold fs_Set.
  case_bool_decide; [by destruct st|]. destruct ok; cbn [negb]; [|by destruct st].
  pose proof (set_file_finv st config Hi) as Hi1. set (st1 := set_files _ st) in *.
  assert (Hc : content (files st1) !! FromBytes P config = Some config) by apply lookup_insert_eq.
  unfold create_finish. destruct (images st1 !! FromBytes P config) as [m|] eqn:Hn; [done|].
  assert (Hadd : forall l s, bootable img ->
    finv (match digestSet_Add P (FromBytes P config) (set_images
            (<[FromBytes P config := ImageMeta l ∅]> (images (set_lss s st1))) (set_lss s st1)) with
          | (st, true) => (st, inl (FromBytes P config))
          | (st, false) => (set_images (delete (FromBytes P config) (images st)) st, inr ErrInvalidDigest)
          end : store LS L * (ID + image_error)).1).
  { intros l s Hb. unfold digestSet_Add. destruct (Validate P (FromBytes P config)) eqn:Ev; cbn.
    - by apply (add_image_finv st1 _ l config img).
    - rewrite delete_insert_id by done. exact (finv_lss st1 s Hi1). }
  case_bool_decide as El; [exact (Hadd None (lss st1) (or_introl El))|].
  destruct (CheckOS P (OperatingSystem P img)) eqn:Eo; cbn [negb]; [|done].
  destruct (lss_Get _ (lss st1)) as [s [h|e]]; [exact (Hadd (Some h) s (or_intror Eo))|by apply finv_lss].
Qed.

(** *** SetParent *)

Lemma alter_children (g : gset ID -> gset ID) p (im : gmap ID (imageMeta L)) j m :
  alter (fun pm => ImageMeta (im_layer pm) (g (im_children pm))) p im !! j = Some m ->
  exists m0, im !! j = Some m0 /\ im_children m = if decide (j = p) then g (im_children m0) else im_children m0.
Proof.
  rewrite lookup_alter. case_decide as E; case_decide as E'; subst; try done; [|eauto].
  destruct (im !! j) as [m0|]; [|done]. intros [= <-]. eauto.
Qed.

Lemma removeChild_children q i (im : gmap ID (imageMeta L)) j m :
  removeChild q i im !! j = Some m ->
  exists m0, im !! j = Some m0 /\ im_children m = if decide (q = Some j) then im_children m0 ∖ {[i]} else im_children m0.
Proof.
  destruct q as [q|]; cbn [removeChild].
  - intros (m0&?&E)%(alter_children (fun g => g ∖ {[i]})). exists m0. split; [done|]. rewrite E.
    repeat case_decide; congruence.
  - intros ?. exists m. split; [done|]. by case_decide.
Qed.

Lemma removeChild_is_Some q i (im : gmap ID (imageMeta L)) j : is_Some (removeChild q i im !! j) <-> is_Some (im !! j).
Proof.
  destruct q as [q|]; cbn [removeChild]; [|done]. rewrite lookup_alter. case_decide as E; [|done]. subst.
  apply fmap_is_Some.
Qed.

Lemma stored_set f i p d :
  stored (MkFs (content f) (<[i := <["parent" := p]> (default ∅ (metadata f !! i))]> (metadata f))) d =
  if decide (d = i) then Some p else stored f d.
Proof.
  unfold stored. cbn. case_decide as E.
  - subst. rewrite lookup_insert_eq. cbn. apply lookup_insert_eq.
  - by rewrite lookup_insert_ne.
Qed.

Lemma SetParent_finv i p st :
  finv st -> is_Some (content (files st) !! i) -> finv (SetParent P true i p st).1.
Proof.
  intros Hi [c Hc]. unfold SetParent. destruct (images st !! p) as [pm|] eqn:Hp; [|done].
  unfold fs_SetMetadata. rewrite (fs_get_content st i Hi), Hc. cbn [fst].
  rewrite (GetParent_stored st i Hi). set (f := MkFs _ _).
  assert (Hst : forall d, stored f d = if decide (d = i) then Some p else stored (files st) d).
  { intros d. apply stored_set. }
  assert (His : forall j, is_Some (addChild p i (removeChild (stored (files st) i) i (images st)) !! j) <-> is_Some (images st !! j)).
  { intros j. unfold addChild. rewrite lookup_alter. rewrite <- (removeChild_is_Some (stored (files st) i) i).
    case_decide as E; [|done]. subst. apply fmap_is_Some. }
  constructor; cbn.
  - apply (f_content _ Hi).
  - intros d. cbn. rewrite lookup_insert_is_Some'. intros [<-|Hd]; [eauto|by apply (f_meta _ Hi)].
  - intros j m Hm. destruct (proj1 (His j) ltac:(eauto)) as [m0 Hm0]. exact (f_image _ Hi j m0 Hm0).
  - intros x m d (m1&Hm1&E1)%(alter_children (fun g => {[i]} ∪ g)).
    apply removeChild_children in Hm1 as (m0&Hm0&E0). rewrite E1, E0, Hst.
    pose proof (f_children _ Hi x m0 d Hm0) as Hd. pose proof (f_children _ Hi x m0 i Hm0) as Hix.
    repeat case_decide; subst; rewrite ?elem_of_union, ?elem_of_difference, ?elem_of_singleton; naive_solver.
  - intros d x. rewrite Hst, His. case_decide; [intros [= <-]; eauto|apply (f_dangling _ Hi)].
Qed.

(** *** Delete *)

Definition working : disk := MkDisk true true (fun _ => true).

Lemma stored_deleted f ds d :
  let f' := foldr (fun c => fs_DeleteMetadata true c "parent") f ds in
  content f' = content f /\ (is_Some (metadata f' !! d) <-> is_Some (metadata f !! d)) /\
  stored f' d = if decide (d ∈ ds) then None else stored f d.
Proof.
  induction ds as [|c ds IH]; cbn [foldr].
  - split; [done|]. split; [done|]. rewrite decide_False; [done|]. apply not_elem_of_nil.
  - destruct IH as (IH1&IH2&IH3). set (f1 := foldr _ f ds) in *. unfold fs_DeleteMetadata, stored in *. cbn.
    rewrite lookup_alter. split; [done|]. split.
    + rewrite <- IH2. destruct (decide (c = d)); [subst; apply fmap_is_Some|done].
    + destruct (decide (c = d)) as [->|Hne].
      * rewrite (decide_True (P := d ∈ d :: ds)) by left. destruct (metadata f1 !! d) as [m|]; cbn; [|done].
        apply lookup_delete_eq.
      * rewrite IH3. destruct (decide (d ∈ ds)); [rewrite decide_True by (by right); done|].
        rewrite decide_False; [done|]. intros [->|?]%elem_of_cons; done.
Qed.

Lemma Delete_finv i st : finv st -> finv (Delete P working i st).1.
Proof.
  intros Hi. unfold Delete. destruct (images st !! i) as [m|] eqn:Hm; [|done].
  destruct (Get P i st) as [img|]; [|done]. cbn [fst d_child d_dir d_file working].
  set (f := foldr _ _ _).
  assert (Hf : content f = content (files st) /\ (forall d, is_Some (metadata f !! d) <-> is_Some (metadata (files st) !! d)) /\
    forall d, stored f d = if decide (d ∈ im_children m) then None else stored (files st) d).
  { pose proof (stored_deleted (files st) (elements (im_children m))) as H. fold f in H.
    split; [by destruct (H i)|]. split; [intros d; by destruct (H d) as (_&?&_)|].
    intros d. destruct (H d) as (_&_&->). repeat case_decide; rewrite elem_of_elements in *; done. }
  destruct Hf as (Hfc&Hfm&Hfs).
  assert (Hq : GetParent P i (set_files f st) = if decide (i ∈ im_children m) then None else stored (files st) i).
  { rewrite <- Hfs. unfold GetParent, fs_GetMetadata, fs_get. cbn. rewrite Hfc.
    destruct (f_image _ Hi i m Hm) as (_&c&im&Hc&_). rewrite Hc, bool_decide_eq_true_2; [done|by apply (f_content _ Hi)]. }
  set (im := delete i (removeChild (GetParent P i (set_files f st)) i (images st))).
  set (f' := MkFs (delete i (content f)) (delete i (metadata f))).
  assert (Hst : forall d, stored f' d = if decide (d = i) then None else stored f d).
  { intros d. unfold stored, f'. cbn [metadata]. destruct (decide (d = i)) as [->|]; [by rewrite lookup_delete_eq|by rewrite lookup_delete_ne]. }
  assert (His : forall j, is_Some (im !! j) <-> j <> i /\ is_Some (images st !! j)).
  { intros j. unfold im. rewrite lookup_delete_is_Some, removeChild_is_Some. naive_solver. }
  assert (Hfin : forall ds s, finv (Store im f' ds s)).
  { intros ds s. constructor; cbn.
    - intros d c [_ Hd]%lookup_delete_Some. rewrite Hfc in Hd. by apply (f_content _ Hi).
    - intros d. rewrite !lookup_delete_is_Some, Hfc, Hfm. intros [? ?]. split; [done|by apply (f_meta _ Hi)].
    - intros j n Hj. destruct (proj1 (His j) ltac:(eauto)) as [Hne [n0 Hj0]].
      destruct (f_image _ Hi j n0 Hj0) as (?&c&img'&Hc&?). split; [done|]. exists c, img'. rewrite Hfc, lookup_delete_ne by done. done.
    - intros x n d [Hne Hx]%lookup_delete_Some. apply removeChild_children in Hx as (n0&Hx0&->).
      rewrite Hst, Hfs, Hq. pose proof (f_children _ Hi x n0 d Hx0) as Hd.
      pose proof (f_children _ Hi i m d Hm) as Hdi. pose proof (f_children _ Hi i m i Hm) as Hii.
      repeat case_decide; subst; rewrite ?elem_of_difference, ?elem_of_singleton; naive_solver.
    - intros d p. rewrite Hst, Hfs, His. pose proof (f_children _ Hi i m d Hm) as Hdi.
      destruct (decide (d = i)) as [|Hne]; [intros [=]|].
      destruct (decide (d ∈ im_children m)) as [|E]; [intros [=]|]. intros Hp. split; [|by apply (f_dangling _ Hi d)].
      intros ->. by apply E, Hdi. }
  unfold digestSet_Remove. destruct (Validate P i), (im_layer m) as [h|]; try apply Hfin;
    destruct (lss_Release h _) as [ls r]; apply Hfin.
Qed.

(** ** Calls one after the other, on a disk that works *)

Inductive call : store LS L -> store LS L -> Prop :=
| call_create config st : call st (Create P true config st).1
| call_setparent i p st : is_Some (content (files st) !! i) -> call st (SetParent P true i p st).1
| call_delete i st : call st (Delete P working i st).1
| call_others s st : call st (set_lss s st).

Lemma call_finv st st' : finv st -> call st st' -> finv st'.
Proof.
  intros Hi Hc. destruct Hc.
  - by apply Create_finv.
  - by apply SetParent_finv.
  - by apply Delete_finv.
  - by apply finv_lss.
Qed.

Lemma calls_finv st st' : finv st -> rtc call st st' -> finv st'.
Proof. intros Hi Hc. induction Hc; eauto using call_finv. Qed.


End Family.

(** ** Restart *)

Section Restart.
Context {LS L : Type} `{!LayerGetReleaser LS L}.
Context (P : Lib).
Implicit Types (st : store LS L) (i : ID).

(** The layers of an image can be restored. *)
Definition restorable (f : fs) (s : LS) (d : ID) : Prop :=
  Validate P d = true /\ exists c img, content f !! d = Some c /\ FromBytes P c = d /\ NewFromJSON P c = Some img /\
    (rootChainID P (DiffIDs img) = "" \/
     CheckOS P (OperatingSystem P img) = true /\ lss_has s (rootChainID P (DiffIDs img))).

Lemma restoreImage_ok d st :
  lss_ok (lss st) -> restorable (files st) (lss st) d ->
  exists l s, restoreImage P d st =
    (Store (<[d := ImageMeta l ∅]> (images st)) (files st) ({[d]} ∪ digestSet st) s, true) /\
    lss_ok s /\ forall c, lss_has (lss st) c -> lss_has s c.
Proof.
  intros Hok (Hv&c&img&Hc&Hd&Hj&Hl). unfold restoreImage, Get, fs_get. rewrite Hc, bool_decide_eq_true_2, Hj by done.
  unfold digestSet_Add. cbn [DiffIDs]. case_bool_decide as El.
  - rewrite Hv. exists None, (lss st). done.
  - destruct Hl as [?|[Ho Hh]]; [done|].
    change (OperatingSystem P (MkImage _ _ (OS img) _)) with (OperatingSystem P img). rewrite Ho. cbn [negb].
    destruct (lss_Get_has _ _ Hok Hh) as (s&h&Eg). rewrite Eg, Hv. exists (Some h), s. split; [done|].
    split; [by apply (lss_Get_ok _ _ _ _ Hok Eg)|]. intros c'. by apply (lss_has_Get _ _ _ _ _ Hok Eg).
Qed.

Lemma Walk_ok ds st :
  lss_ok (lss st) -> (forall d, d ∈ ds -> restorable (files st) (lss st) d) ->
  exists im s, Walk P ds st = (Store im (files st) (list_to_set ds ∪ digestSet st) s, true) /\
    forall i, (i ∈ ds -> im_children <$> im !! i = Some ∅) /\ (i ∉ ds -> im !! i = images st !! i).
Proof.
  revert st. induction ds as [|d ds IH]; intros st Hok Hr.
  { exists (images st), (lss st). cbn. rewrite (left_id_L ∅ (∪)). split; [by destruct st|].
    intros i. split; [by intros ?%not_elem_of_nil|done]. }
  cbn [Walk]. destruct (Hr d ltac:(left)) as [Hv _]. rewrite Hv. cbn [negb].
  destruct (restoreImage_ok d st Hok (Hr d ltac:(left))) as (l&s&->&Hok'&Hhas).
  destruct (IH (Store (<[d := ImageMeta l ∅]> (images st)) (files st) ({[d]} ∪ digestSet st) s) Hok') as (im&s'&->&Him).
  { intros e He. destruct (Hr e ltac:(by right)) as (Hve&c&img&?&?&?&Hl). split; [done|]. exists c, img.
    do 3 (split; [done|]). destruct Hl as [?|[? ?]]; [by left|right; auto]. }
  exists im, s'. cbn in *. split; [do 2 f_equal; set_solver|]. intros i. destruct (Him i) as [H1 H2].
  split; [rewrite elem_of_cons|rewrite not_elem_of_cons].
  - intros Hin. destruct (decide (i ∈ ds)) as [|Hn]; [by apply H1|]. destruct Hin as [->|]; [|done].
    rewrite (H2 Hn), lookup_insert_eq. done.
  - intros [Hne Hn]. rewrite (H2 Hn), lookup_insert_ne by done. done.
Qed.

Lemma fill_children (par : ID -> option ID) ids (im : gmap ID (imageMeta L)) p :
  im_children <$> foldr (fun id m => match par id with Some p => addChild p id m | None => m end) im ids !! p =
  (fun g => g ∪ filter (fun c => par c = Some p) (list_to_set ids)) <$> (im_children <$> im !! p).
Proof.
  induction ids as [|c ids IH]; cbn [foldr].
  - destruct (im !! p); cbn; [|done]. f_equal. set_solver.
  - destruct (par c) as [q|] eqn:Eq.
    + unfold addChild at 1. rewrite lookup_alter. case_decide as E.
      * subst q. rewrite <- option_fmap_compose. destruct (foldr _ im ids !! p) as [m|] eqn:Em; cbn in *.
        -- destruct (im !! p) as [m0|]; [|done]. cbn in *. injection IH as ->. f_equal. cbn.
           apply set_eq. intros x. rewrite !elem_of_union, !elem_of_filter, elem_of_union, !elem_of_singleton. naive_solver.
        -- by destruct (im !! p).
      * rewrite IH. destruct (im !! p); [|done]. cbn. f_equal. apply set_eq. intros x.
        rewrite !elem_of_union, !elem_of_filter, elem_of_union, !elem_of_singleton. naive_solver.
    + rewrite IH. destruct (im !! p); [|done]. cbn. f_equal. apply set_eq. intros x.
      rewrite !elem_of_union, !elem_of_filter, elem_of_union, !elem_of_singleton. naive_solver.
Qed.
End Restart.
