(* ===== verification/ImageStoreTheorems.v ===== *)
(** * Properties of the image store

    Every image retains its layer, whatever the interleaving of the calls and the other clients
    of the layer store; parents and children agree; a restart rebuilds the store. *)

From S2P Require Import Prelude LayerStore LayerStoreSpec LayerStoreSystem LayerStoreRestore LayerStoreTheorems ImageStore ImageStoreSpec ImageStoreFamily.
Open Scope string_scope.
Open Scope list_scope.

(** ** Claims *)

(** C38: Every image keeps its layers: whatever calls of [Create], [SetParent] and [Delete] are
    interleaved, on any state of the disk, and whatever other clients do with their own
    references, each image whose configuration names layers holds a reference of its own to the
    layer with that chain identifier, and this layer and all its ancestors are in the layer
    store.  The set of digests has exactly the images. *)
Theorem image_layers_kept (del : nat -> bool) (P : Lib) f ls st pend :
  (exists ext, linv ext ls) ->
  rtc (istep (LayerGetReleaser0 := layerStore_getReleaser del) P) (Store ∅ f ∅ ls, []) (st, pend) ->
  (forall i m, images st !! i = Some m -> exists img, config_of P i img /\
     match im_layer m with
     | None => rootChainID P (DiffIDs img) = ""
     | Some h => exists r l rl, h = LRef r l /\ heap (lss st) !! l = Some rl /\ r ∈ l_references rl /\
         layerMap (lss st) !! rootChainID P (DiffIDs img) = Some l /\
         forall y, rtc (fun x y => parentOf (heap (lss st)) x = Some y) l y -> mapped (lss st) y
     end) /\
  (forall i j m n h, images st !! i = Some m -> images st !! j = Some n ->
     im_layer m = Some h -> im_layer n = Some h -> i = j) /\
  (forall i, i ∈ digestSet st <-> is_Some (images st !! i)).
Proof.
  intros Hok Hs.
  destruct (isteps_inv P _ _ (empty_isys (LayerGetReleaser0 := layerStore_getReleaser del) P f ls Hok) Hs) as [Hi _]. cbn [fst] in Hi.
  split; [|split; [apply Hi|apply Hi]]. intros i m Hm.
  destruct (ii_retains _ _ Hi i m Hm) as (img&Hc&H). exists img. split; [done|].
  destruct (im_layer m) as [h|]; [|done]. destruct H as [(r&l&rl&->&Hl&Hr) (rl'&Hl'&Hch)].
  cbn in Hl'. rewrite Hl in Hl'. injection Hl' as <-.
  destruct (ii_ok _ _ Hi) as [ext Hi']. destruct (lv_refs _ _ Hi' l rl r Hl Hr) as [_ Hml].
  exists r, l, rl. do 3 (split; [done|]). split; [rewrite <- Hch; by eapply mapped_chain|].
  intros y Hy. clear -Hi' Hml Hy. induction Hy as [|x y z Hxy _ IH]; [done|].
  apply IH. by apply (lv_parent _ _ Hi' x).
Qed.

(** Parents and children agree: after any sequence of calls on a disk that works, the children
    of an image are exactly the images whose stored parent it is, no stored parent is missing,
    every image can be read, and [Heads] has exactly the images that are nobody's parent. *)
Theorem image_family {LS L} `{!LayerGetReleaser LS L} (P : Lib) (s : LS) (st : store LS L) :
  (forall x y, FromBytes P x = FromBytes P y -> x = y) ->
  rtc (call P) (Store ∅ (MkFs ∅ ∅) ∅ s) st ->
  (forall p c, is_Some (images st !! p) -> c ∈ Children p st <-> GetParent P c st = Some p) /\
  (forall c p, GetParent P c st = Some p -> is_Some (images st !! p)) /\
  (forall i, is_Some (images st !! i) -> is_Some (Get P i st)) /\
  (forall i, is_Some (Heads P st !! i) <-> is_Some (images st !! i) /\ forall c, GetParent P c st <> Some i).
Proof.
  intros Hinj Hs. pose proof (calls_finv P Hinj _ _ (finv_empty P s) Hs) as Hi.
  pose proof (fun c => GetParent_stored P st c Hi) as Hp.
  assert (Hch : forall p m c, images st !! p = Some m -> c ∈ im_children m <-> GetParent P c st = Some p).
  { intros p m c Hm. rewrite Hp. by apply (f_children _ _ Hi). }
  assert (Hget : forall i, is_Some (images st !! i) -> is_Some (Get P i st)).
  { intros i [m Hm]. destruct (f_image _ _ Hi i m Hm) as (_&c&img&Hc&Hj&_).
    unfold Get. rewrite (fs_get_content P st i Hi), Hc, Hj. eauto. }
  split; [|split; [|split; [done|]]].
  - intros p c [m Hm]. unfold Children. rewrite Hm. by apply Hch.
  - intros c p. rewrite Hp. apply (f_dangling _ _ Hi).
  - intros i. unfold Heads, imagesMap. rewrite map_lookup_imap. split.
    + intros [img Himg]. destruct (filter _ (images st) !! i) as [m|] eqn:Hf; [|done].
      apply map_lookup_filter_Some in Hf as [Hm [?|Hz]]; [done|]. split; [eauto|].
      intros c Hc%(Hch i m c Hm). rewrite Hz in Hc. by apply not_elem_of_empty in Hc.
    + intros [[m Hm] Hno]. rewrite (proj2 (map_lookup_filter_Some _ _ i m)); [by apply Hget; eauto|].
      split; [done|]. right. apply elem_of_equiv_empty_L. intros c Hc%(Hch i m c Hm). by apply (Hno c).
Qed.

(** A restart is exact: after any sequence of calls on a disk that works in which every stored
    configuration is an image, opening the store again on its files, with a layer store that
    has the layers of the images, succeeds and has the same images with the same contents,
    parents and children. *)
Theorem image_restart {LS L} `{!LayerGetReleaser LS L} (P : Lib) (s s' : LS) (st : store LS L) dgsts order :
  (forall x y, FromBytes P x = FromBytes P y -> x = y) ->
  rtc (call P) (Store ∅ (MkFs ∅ ∅) ∅ s) st ->
  (forall i, is_Some (content (files st) !! i) -> is_Some (images st !! i)) ->
  lss_ok s' ->
  (forall i c img, content (files st) !! i = Some c -> NewFromJSON P c = Some img ->
     rootChainID P (DiffIDs img) <> "" -> lss_has s' (rootChainID P (DiffIDs img))) ->
  (forall d, d ∈ dgsts <-> is_Some (content (files st) !! d)) ->
  (forall st' i, i ∈ order st' <-> is_Some (images st' !! i)) ->
  exists st' : store LS L, NewImageStore P (files st) s' dgsts order = (st', true) /\
    (forall i, is_Some (images st' !! i) <-> is_Some (images st !! i)) /\
    (forall i, Children i st' = Children i st) /\ (forall i, Get P i st' = Get P i st) /\
    (forall i, i ∈ digestSet st' <-> is_Some (images st !! i)).
Proof.
  intros Hinj Hs Hall Hok Hhas Hd Hord. pose proof (calls_finv P Hinj _ _ (finv_empty P s) Hs) as Hi.
  assert (Himg : forall i, is_Some (images st !! i) <-> i ∈ dgsts).
  { intros i. rewrite Hd. split; [|apply Hall]. intros [m Hm]. destruct (f_image _ _ Hi i m Hm) as (_&c&img&Hc&_). eauto. }
  destruct (Walk_ok P dgsts (Store ∅ (files st) ∅ s')) as (im&s''&HW&Him); [done|..].
  { intros d Hdd. apply Himg in Hdd as [m Hm]. destruct (f_image _ _ Hi d m Hm) as (Hv&c&img&Hc&Hj&Hb).
    split; [done|]. exists c, img. split; [done|]. split; [by apply (f_content _ _ Hi)|]. split; [done|].
    destruct (decide (rootChainID P (DiffIDs img) = "")); [by left|]. right. destruct Hb as [?|?]; [done|]. eauto. }
  unfold NewImageStore. rewrite HW. cbn [files] in *. set (st1 := Store im _ _ s'').
  assert (Hone : forall i, im_children <$> im !! i = if decide (i ∈ dgsts) then Some ∅ else None).
  { intros i. destruct (Him i) as [H1 H2]. case_decide as E; [by apply H1|]. rewrite (H2 E). done. }
  assert (Hfin : forall i, im_children <$> images (fillChildren P (order st1) st1) !! i =
    if decide (i ∈ dgsts) then Some (filter (fun c => GetParent P c st = Some i) (list_to_set (order st1))) else None).
  { intros i. unfold fillChildren. cbn. rewrite (fill_children (fun c => GetParent P c st1)), Hone.
    case_decide; [|done]. cbn. by rewrite (left_id_L ∅ (∪)). }
  assert (Hkeys : forall i, i ∈ order st1 <-> i ∈ dgsts).
  { intros i. rewrite Hord. cbn. rewrite <- (fmap_is_Some im_children), Hone. by case_decide; split; [| |intros [? [=]]|]. }
  eexists. split; [done|]. split; [|split; [|split; [done|]]].
  - intros i. rewrite <- (fmap_is_Some im_children), Hfin, Himg. by case_decide; split; [| |intros [? [=]]|].
  - intros i. specialize (Hfin i). unfold Children. destruct (images (fillChildren P (order st1) st1) !! i) as [m'|].
    + cbn in Hfin. case_decide as Ei; [|done]. injection Hfin as ->. destruct (proj2 (Himg i) Ei) as [m Hm].
      rewrite Hm. apply set_eq. intros c. rewrite elem_of_filter, elem_of_list_to_set, Hkeys.
      rewrite (GetParent_stored P st c Hi), (f_children _ _ Hi i m c Hm). split; [by intros [? _]|].
      intros Hc. split; [done|]. apply Hd, (f_meta _ _ Hi). unfold stored in Hc.
      destruct (metadata (files st) !! c); [eauto|done].
    + cbn in Hfin. case_decide as Ei; [done|]. destruct (images st !! i) eqn:Em; [|done].
      destruct Ei. apply Himg. eauto.
  - intros i. cbn. rewrite elem_of_union, elem_of_list_to_set, Himg. set_solver.
Qed.

(** ** Concrete runs *)

Definition exJSON (c : string) : option Image :=
  if bool_decide (c = "img1") then Some (MkImage ["d1"] [false] "" "")
  else if bool_decide (c = "img2") then Some (MkImage ["d1"; "d2"] [false; true; false] "linux" "")
  else if bool_decide (c = "empty") then Some (MkImage [] [true] "linux" "")
  else None.
Definition exLib : Lib :=
  MkLib (fun c => c) (fun _ => true) exJSON "linux" (fun os => bool_decide (os = "linux")) exChain.

#[local] Instance exLss : LayerGetReleaser layerStore Layer := layerStore_getReleaser (fun _ => true).

Definition exI0 : ImageStore.store layerStore Layer := Store ∅ (MkFs ∅ ∅) ∅ (LayerStore.store exTwo).
Definition exI1 : ImageStore.store layerStore Layer := (Create exLib true "img1" exI0).1.
Definition exI2 : ImageStore.store layerStore Layer := (Create exLib true "img2" exI1).1.
Definition exI3 : ImageStore.store layerStore Layer := (SetParent exLib true "img2" "img1" exI2).1.

Lemma exTwo_linv : exists ext, linv ext (LayerStore.store exTwo).
Proof.
  destruct (reachable_sinv exChain _ _ exEmpty_sinv exTwo_reachable) as [Hv _]. eexists. apply Hv.
Qed.

Lemma exI3_run : rtc (istep exLib) (exI0, []) (exI3, []).
Proof.
  etransitivity; [apply Create_run|]. etransitivity; [apply Create_run|]. apply rtc_once, istep_setparent.
Qed.

Lemma exI3_calls : rtc (call exLib) exI0 exI3.
Proof.
  eapply rtc_l; [apply (call_create exLib "img1")|]. eapply rtc_l; [apply (call_create exLib "img2")|].
  apply rtc_once. apply call_setparent. vm_compute. eauto.
Qed.

Lemma image_layers_kept_witness :
  is_Some (images exI3 !! "img2") /\
  forall m, images exI3 !! "img2" = Some m -> exists img, config_of exLib "img2" img /\
     match im_layer m with
     | None => rootChainID exLib (DiffIDs img) = ""
     | Some h => exists r l rl, h = LRef r l /\ heap (lss exI3) !! l = Some rl /\ r ∈ l_references rl /\
         layerMap (lss exI3) !! rootChainID exLib (DiffIDs img) = Some l /\
         forall y, rtc (fun x y => parentOf (heap (lss exI3)) x = Some y) l y -> mapped (lss exI3) y
     end.
Proof.
  split; [vm_compute; eauto|]. intros m.
  exact (proj1 (image_layers_kept (fun _ => true) exLib (MkFs ∅ ∅) (LayerStore.store exTwo) exI3 [] exTwo_linv exI3_run) "img2" m).
Defined.

Lemma image_family_witness :
  Children "img1" exI3 = {["img2"]} /\
  ("img2" ∈ Children "img1" exI3 <-> GetParent exLib "img2" exI3 = Some "img1").
Proof.
  split; [vm_compute; reflexivity|].
  apply (proj1 (image_family exLib (LayerStore.store exTwo) exI3 (fun x y E => E) exI3_calls)). vm_compute. eauto.
Defined.

Lemma exI3_content i : is_Some (content (files exI3) !! i) <-> i ∈ ["img1"; "img2"].
Proof.
  assert (E : content (files exI3) = {[ "img1" := "img1"; "img2" := "img2" ]}) by (vm_compute; reflexivity).
  rewrite E, lookup_insert_is_Some', lookup_singleton_is_Some. clear E. set_solver.
Qed.

Lemma exI3_images i : is_Some (images exI3 !! i) <-> i ∈ ["img1"; "img2"].
Proof.
  assert (E : dom (images exI3) = {[ "img1"; "img2" ]}) by (vm_compute; reflexivity).
  rewrite <- elem_of_dom, E. clear E. set_solver.
Qed.

Lemma image_restart_witness :
  exists st' : ImageStore.store layerStore Layer,
    NewImageStore exLib (files exI3) (LayerStore.store exTwo) ["img2"; "img1"]
      (fun st => (map_to_list (images st)).*1) = (st', true) /\
    (forall i, is_Some (images st' !! i) <-> is_Some (images exI3 !! i)) /\
    (forall i, Children i st' = Children i exI3) /\ (forall i, Get exLib i st' = Get exLib i exI3) /\
    (forall i, i ∈ digestSet st' <-> is_Some (images exI3 !! i)).
Proof.
  apply (image_restart exLib (LayerStore.store exTwo)).
  - intros x y E. exact E.
  - exact exI3_calls.
  - intros i Hi. apply exI3_images, exI3_content, Hi.
  - exact exTwo_linv.
  - intros i c img _ Hj Hne. cbn [NewFromJSON exLib] in Hj. unfold exJSON in Hj.
    repeat case_bool_decide; try discriminate Hj; injection Hj as <-; [vm_compute; eauto..|].
    by destruct Hne.
  - intros d. rewrite exI3_content. set_solver.
  - intros st' i. rewrite list_elem_of_fmap. split.
    + intros ([j m]&->&Hj%elem_of_map_to_list). eauto.
    + intros [m Hm]. exists (i, m). split; [reflexivity|]. by apply elem_of_map_to_list.
Defined.

(** [Create] writes the file before it takes the lock: when [Delete] of the same image comes
    between, the image that [Create] adds has no file.  It cannot be read, and [Delete] refuses
    it, so that its layer stays retained until the restart. *)
Definition exR1 : ImageStore.store layerStore Layer := (create_start exLib true "img1" exI1).1.
Definition exR2 : ImageStore.store layerStore Layer := (Delete exLib working "img1" exR1).1.
Definition exR3 : ImageStore.store layerStore Layer :=
  (create_finish exLib "img1" (MkImage ["d1"] [false] "" "") exR2).1.

Lemma Delete_no_file {LS L} `{!LayerGetReleaser LS L} (P : Lib) dk i (st : ImageStore.store LS L) :
  Get P i st = None -> Delete P dk i st = (st, DeleteErr ErrNotFound).
Proof. intros E. unfold Delete. rewrite E. by destruct (images st !! i). Qed.

Lemma create_delete_race :
  rtc (istep exLib) (exI0, []) (exR3, []) /\
  is_Some (images exR3 !! "img1") /\ Get exLib "img1" exR3 = None /\
  Delete exLib working "img1" exR3 = (exR3, DeleteErr ErrNotFound).
Proof.
  split; [|split; [vm_compute; eauto|split; [vm_compute; reflexivity|]]].
  - etransitivity; [apply Create_run|].
    eapply rtc_l; [apply (istep_create_start exLib true "img1" exI1 exR1 []); vm_compute; reflexivity|].
    eapply rtc_l; [apply istep_delete|]. apply rtc_once.
    exact (istep_create_finish exLib exR2 "img1" (MkImage ["d1"] [false] "" "") _ [] (Permutation_refl _)).
  - apply Delete_no_file. vm_compute. reflexivity.
Qed.

(** [Create] fails when the layer is missing, but its file stays: at the next start, when the
    layer is there, the image appears although its creation was refused. *)
Definition exF1 : ImageStore.store layerStore Layer := (Create exLib true "img1" (Store ∅ (MkFs ∅ ∅) ∅ emptyStore)).1.

Lemma failed_create_reappears :
  (Create exLib true "img1" (Store ∅ (MkFs ∅ ∅) ∅ emptyStore)).2 = inr ErrNoLayer /\ images exF1 = ∅ /\
  is_Some (images (NewImageStore exLib (files exF1) (LayerStore.store exTwo) ["img1"]
    (fun st => (map_to_list (images st)).*1)).1 !! "img1").
Proof. split; [|split]; vm_compute; [reflexivity..|eauto]. Qed.
