(* ===== verification/SortedMaps.v ===== *)
(** * Maps and sets of strings in order

    Finite maps with string keys and sets of strings as lists in the order of Go's strings,
    and that these lists have the contents of the map or the set. *)

From Stdlib Require Import String.
From stdpp Require Import gmap strings sorting.
From S2P Require Import Prelude.

(** The order of strings, byte by byte. *)
Definition string_le (a b : string) : Prop := String.leb a b = true.
#[export] Instance string_le_dec a b : Decision (string_le a b).
Proof. unfold string_le. apply _. Defined.
Definition key_le {A} (a b : string * A) : Prop := string_le a.1 b.1.
#[export] Instance key_le_dec {A} (a b : string * A) : Decision (key_le a b).
Proof. unfold key_le. apply _. Defined.

(** A map in the order of its keys, as [text/template] and the cursors of a database visit it. *)
Definition sortedMap {A} (m : gmap string A) : list (string * A) :=
  merge_sort key_le (map_to_list m).

Definition keys_of {A} (m : gmap string A) : list string := (sortedMap m).*1.
Definition sortedSet (s : gset string) : list string :=
  merge_sort string_le (elements s).

Lemma list_to_map_sorted {A} (m : gmap string A) : list_to_map (sortedMap m) = m.
Proof.
  unfold sortedMap. assert (Hp : merge_sort key_le (map_to_list m) ≡ₚ map_to_list m) by apply merge_sort_Permutation.
  transitivity (list_to_map (map_to_list m) : gmap string A); [|apply list_to_map_to_list].
  apply list_to_map_proper; [|done]. rewrite Hp. apply NoDup_fst_map_to_list.
Qed.

Lemma sortedMap_nil {A} (m : gmap string A) : sortedMap m = [] <-> m = ∅.
Proof.
  split; [|by intros ->]. intros H. by rewrite <- (list_to_map_sorted m), H.
Qed.

Lemma elem_of_keys {A} (m : gmap string A) k : k ∈ keys_of m <-> is_Some (m !! k).
Proof.
  unfold keys_of, sortedMap. rewrite merge_sort_Permutation, list_elem_of_fmap. split.
  - intros ([k' x] & -> & Hx). apply elem_of_map_to_list in Hx. by exists x.
  - intros [x Hx]. exists (k, x). split; [done|]. by apply elem_of_map_to_list.
Qed.

Lemma elem_of_sortedSet (X : gset string) x : x ∈ sortedSet X <-> x ∈ X.
Proof. unfold sortedSet. by rewrite merge_sort_Permutation, elem_of_elements. Qed.

Lemma sortedSet_nil (X : gset string) : sortedSet X = [] <-> X = ∅.
Proof.
  split; [|by intros ->]. intros H. apply leibniz_equiv, elem_of_equiv_empty. intros x Hx.
  apply elem_of_sortedSet in Hx. rewrite H in Hx. by apply elem_of_nil in Hx.
Qed.

(** ** The order of strings *)

Section StringOrder.
Local Open Scope string_scope.

Lemma string_le_nil s : string_le "" s.
Proof. by destruct s. Qed.

Lemma ascii_compare_N a b : Ascii.compare a b = N.compare (Ascii.N_of_ascii a) (Ascii.N_of_ascii b).
Proof. done. Qed.

Lemma string_le_cons c s d t :
  string_le (String c s) (String d t) <->
  (Ascii.N_of_ascii c < Ascii.N_of_ascii d)%N \/ c = d /\ string_le s t.
Proof.
  unfold string_le, String.leb. cbn [String.compare]. rewrite ascii_compare_N.
  destruct (N.compare_spec (Ascii.N_of_ascii c) (Ascii.N_of_ascii d)) as [E|E|E].
  - assert (c = d) as -> by (rewrite <- (Ascii.ascii_N_embedding c), E; apply Ascii.ascii_N_embedding).
    split; [by right|]. intros [?|[_ H]]; [lia|done].
  - split; [by left|done].
  - split; [done|]. intros [?|[-> _]]; lia.
Qed.

#[export] Instance string_le_refl : Reflexive string_le.
Proof. intros s. induction s as [|c s IH]; [done|]. apply string_le_cons. by right. Qed.

#[export] Instance string_le_trans : Transitive string_le.
Proof.
  intros s. induction s as [|c s IH]; intros t u; [intros; apply string_le_nil|].
  destruct t as [|d t]; [done|]. destruct u as [|e u]; [done|]. rewrite !string_le_cons.
  intros [H1|[-> H1]] [H2|[-> H2]]; [left; lia|left; lia|left; lia|right]. split; [done|]. by eapply IH.
Qed.

#[export] Instance string_le_total : Total string_le.
Proof. intros s t. unfold string_le. destruct (String.leb_total s t) as [->| ->]; auto. Qed.

#[export] Instance string_le_antisymm : AntiSymm eq string_le.
Proof. intros s t. apply String.leb_antisym. Qed.

#[export] Instance key_le_trans {A} : Transitive (@key_le A).
Proof. intros x y z. unfold key_le. apply string_le_trans. Qed.
#[export] Instance key_le_total {A} : Total (@key_le A).
Proof. intros x y. unfold key_le. apply string_le_total. Qed.

(** A string is not below its prefixes, and what lies between a prefix and a string that has
    it has the prefix as well. *)
Lemma prefix_le p s : String.prefix p s = true -> string_le p s.
Proof.
  revert s. induction p as [|c p IH]; intros s H; [apply string_le_nil|].
  destruct s as [|d s]; [done|]. cbn in H. destruct (Ascii.ascii_dec c d) as [->|]; [|done].
  apply string_le_cons. right. auto.
Qed.

Lemma prefix_between p s t :
  string_le p s -> string_le s t -> String.prefix p t = true -> String.prefix p s = true.
Proof.
  revert s t. induction p as [|c p IH]; intros s t H1 H2 H3; [by destruct s|].
  destruct t as [|e t]; [done|]. cbn in H3. destruct (Ascii.ascii_dec c e) as [->|]; [|done].
  destruct s as [|d s]; [done|]. rewrite string_le_cons in H1, H2.
  destruct H1 as [H1|[? H1]], H2 as [H2|[? H2]]; subst; try lia.
  cbn. destruct (Ascii.ascii_dec _ _); [|done]. by eapply IH.
Qed.
End StringOrder.

Lemma sortedMap_sorted {A} (m : gmap string A) : StronglySorted key_le (sortedMap m).
Proof. apply StronglySorted_merge_sort; apply _. Qed.

Lemma elem_of_sortedMap {A} (m : gmap string A) k x : (k, x) ∈ sortedMap m <-> m !! k = Some x.
Proof. unfold sortedMap. by rewrite merge_sort_Permutation, elem_of_map_to_list. Qed.

Lemma sortedMap_NoDup {A} (m : gmap string A) : NoDup (sortedMap m).*1.
Proof. unfold sortedMap. rewrite merge_sort_Permutation. apply NoDup_fst_map_to_list. Qed.

(** ** A cursor over the entries of a prefix

    [cursor.Seek(prefix)] goes to the first key that is not below the prefix; the loop then
    goes on as long as keys have the prefix. *)
Fixpoint seek {A} (p : string) (l : list (string * A)) : list (string * A) :=
  match l with
  | [] => []
  | (k, x) :: l' => if String.leb p k then l else seek p l'
  end.

Fixpoint whilePrefix {A} (p : string) (l : list (string * A)) : list (string * A) :=
  match l with
  | [] => []
  | (k, x) :: l' => if String.prefix p k then (k, x) :: whilePrefix p l' else []
  end.

(** The loop visits exactly the entries whose keys have the prefix. *)
Lemma cursor_prefix {A} p (l : list (string * A)) :
  StronglySorted key_le l ->
  whilePrefix p (seek p l) = filter (fun e => String.prefix p e.1 = true) l.
Proof.
  assert (Hge : forall l : list (string * A), StronglySorted key_le l -> Forall (fun e => string_le p e.1) l ->
    whilePrefix p l = filter (fun e => String.prefix p e.1 = true) l).
  { clear l. induction 1 as [|[k x] l Hs IH Hall]; intros Hp; [done|]. apply Forall_cons_1 in Hp as [Hk Hl].
    cbn [whilePrefix]. rewrite filter_cons. cbn [fst] in *. destruct (String.prefix p k) eqn:E.
    - rewrite decide_True by done. by rewrite IH.
    - rewrite decide_False by done. symmetry. apply elem_of_nil_inv. intros e He. apply list_elem_of_filter in He as [Hpe He].
      rewrite Forall_forall in Hall. specialize (Hall e (proj1 (list_elem_of_In _ _) He)). unfold key_le in Hall. cbn in Hall.
      rewrite (prefix_between p k e.1) in E by done. done. }
  induction 1 as [|[k x] l Hs IH Hall]; [done|]. cbn [seek].
  destruct (String.leb p k) eqn:E.
  - apply Hge; [by constructor|]. constructor; [done|]. revert Hall. apply Forall_impl.
    intros e He. unfold key_le in He. cbn in He. by transitivity k.
  - rewrite filter_cons, decide_False; [done|]. cbn. intros Hp%prefix_le. unfold string_le in Hp. congruence.
Qed.
