(* ===== verification/NFTables.v ===== *)
(** * Tables of the packet filter

    Model of [daemon/libnetwork/internal/nftables/nftables_linux.go]: the in-memory copy of
    an nftables table (chains with their rules in groups, verdict maps, sets), the objects
    a [Modifier] creates and deletes, [Apply] with its roll-back, the two command files
    (incremental update and reload) that are given to [nft], and [SetBaseChainPolicy].

    The command files are lists of commands ([nftCmd]) instead of text: one constructor per
    statement the templates can produce, in the order in which the templates produce them
    ([text/template] visits a map in the order of its keys).  [nft] itself is not part of
    the repository: it is the argument [nft] of the operations, from the contents of the
    table in the kernel and a command to the new contents, or to an error; what its manual
    promises is the class [NftSpec] below. *)

From Stdlib Require Import String.
From stdpp Require Import gmap strings sorting.
From S2P Require Import Prelude SortedMaps.

Local Open Scope string_scope.

Inductive Family := IPv4 | IPv6.

(** [BaseChainType], [BaseChainHook], [BaseChainPolicy] and [NftType] are string types; the
    empty string is "not given". *)
Abbreviation BaseChainType := string (only parsing).
Abbreviation BaseChainHook := string (only parsing).
Abbreviation BaseChainPolicy := string (only parsing).
Abbreviation NftType := string (only parsing).
Definition BaseChainPolicyAccept : BaseChainPolicy := "accept".

(** The number of a group of rules ([int]); it is only compared. *)
Abbreviation RuleGroup := Z (only parsing).

(** ** The internal representation *)

Record chain := mkChain {
  ch_Name : string;
  ChainType : BaseChainType;
  Hook : BaseChainHook;
  Priority : Z;
  Policy : BaseChainPolicy;
  ch_MustFlush : bool;
  ruleGroups : gmap RuleGroup (list string) }.

Record vMap := mkVMap {
  vm_Name : string;
  vm_ElementType : NftType;
  vm_Flags : list string;
  vm_Elements : gmap string string;
  vm_AddedElements : gmap string string;
  vm_DeletedElements : gmap string string;
  vm_MustFlush : bool }.

Record set := mkSet {
  st_Name : string;
  st_ElementType : NftType;
  st_Flags : list string;
  st_Elements : gset string;
  st_AddedElements : gset string;
  st_DeletedElements : gset string;
  st_MustFlush : bool }.

(** The statements of a command file, for the one table the file is about.
    - [AddTable]: [table <family> <name> {}];
    - [AddMap], [AddSet], [AddChain]: a declaration in a block [table <family> <name> {...}];
      a base chain has its type, hook, priority and policy;
    - the others are commands with the name of the object. *)
Record baseSpec := mkBase {
  b_type : BaseChainType; b_hook : BaseChainHook; b_prio : Z; b_policy : BaseChainPolicy }.

Inductive nftCmd :=
| AddTable
| DeleteTable
| FlushTable
| AddMap (n : string) (ty : NftType) (flags : list string) (elems : gmap string string)
| AddSet (n : string) (ty : NftType) (flags : list string) (elems : gset string)
| AddChain (n : string) (base : option baseSpec) (rules : list string)
| FlushMap (n : string)
| FlushSet (n : string)
| FlushChain (n : string)
| DeleteMapElems (n : string) (ks : list string)
| DeleteSetElems (n : string) (ks : list string)
| AddMapElems (n : string) (kvs : list (string * string))
| AddSetElems (n : string) (ks : list string)
| DeleteMap (n : string)
| DeleteSet (n : string)
| DeleteChain (n : string).

Record table := mkTable {
  Name : string;
  tFamily : Family;
  VMaps : gmap string vMap;
  Sets : gmap string set;
  Chains : gmap string chain;
  DeleteCommands : list nftCmd;
  MustFlush : bool }.

Definition set_Chains (t : table) (m : gmap string chain) : table :=
  mkTable (Name t) (tFamily t) (VMaps t) (Sets t) m (DeleteCommands t) (MustFlush t).
Definition set_VMaps (t : table) (m : gmap string vMap) : table :=
  mkTable (Name t) (tFamily t) m (Sets t) (Chains t) (DeleteCommands t) (MustFlush t).
Definition set_Sets (t : table) (m : gmap string set) : table :=
  mkTable (Name t) (tFamily t) (VMaps t) m (Chains t) (DeleteCommands t) (MustFlush t).
Definition add_DeleteCommand (t : table) (c : nftCmd) : table :=
  mkTable (Name t) (tFamily t) (VMaps t) (Sets t) (Chains t) (DeleteCommands t ++ [c])%list (MustFlush t).

Definition set_rules (c : chain) (g : gmap RuleGroup (list string)) : chain :=
  mkChain (ch_Name c) (ChainType c) (Hook c) (Priority c) (Policy c) true g.

Definition NewTable (family : Family) (name : string) : table :=
  mkTable name family ∅ ∅ ∅ [] true.

(** ** Objects *)

Record BaseChain := mkBaseChain {
  bc_Name : string; bc_ChainType : BaseChainType; bc_Hook : BaseChainHook;
  bc_Priority : Z; bc_Policy : BaseChainPolicy }.
Record Rule := mkRule { ru_Chain : string; ru_Group : RuleGroup; ru_Rule : list string; IgnoreExist : bool }.
Record VMap := mkVMapObj { vmo_Name : string; vmo_ElementType : NftType; vmo_Flags : list string }.
Record VMapElement := mkVMapElement { VmapName : string; Key : string; Verdict : string }.
Record SetObj := mkSetObj { so_Name : string; so_ElementType : NftType; so_Flags : list string }.
Record SetElement := mkSetElement { SetName : string; Element : string }.

Inductive Obj :=
| OBaseChain (o : BaseChain)
| OChain (name : string)
| ORule (o : Rule)
| OVMap (o : VMap)
| OVMapElement (o : VMapElement)
| OSet (o : SetObj)
| OSetElement (o : SetElement).

Inductive nftErr :=
| ErrNotEnabled
| ErrExists           (* the chain, map, set, element or rule already exists *)
| ErrNotExist         (* the object, or the one it belongs to, does not exist *)
| ErrNoName
| ErrFieldsRequired
| ErrEmptyRule
| ErrNotEmpty         (* a chain with rules, a map or a set with elements *)
| ErrOtherVerdict
| ErrNotBaseChain
| ErrNft.             (* nft failed *)

Abbreviation opResult := (table * (nftErr + bool))%type.

(** [strings.Join(ru.Rule, " ")] *)
Definition ruleText (ru : Rule) : string := String.concat " " (ru_Rule ru).

(** *** Chains *)

Definition BaseChain_create (cd : BaseChain) (t : table) : opResult :=
  if decide (is_Some (Chains t !! bc_Name cd)) then (t, inl ErrExists) else
  if String.eqb (bc_Name cd) "" then (t, inl ErrNoName) else
  if String.eqb (bc_ChainType cd) "" || String.eqb (bc_Hook cd) "" then (t, inl ErrFieldsRequired) else
  let policy := if String.eqb (bc_Policy cd) "" then BaseChainPolicyAccept else bc_Policy cd in
  let c := mkChain (bc_Name cd) (bc_ChainType cd) (bc_Hook cd) (bc_Priority cd) policy true ∅ in
  (set_Chains t (<[ch_Name c := c]> (Chains t)), inr true).

Definition Chain_create (name : string) (t : table) : opResult :=
  if decide (is_Some (Chains t !! name)) then (t, inl ErrExists) else
  if String.eqb name "" then (t, inl ErrNoName) else
  let c := mkChain name "" "" 0 "" true ∅ in
  (set_Chains t (<[ch_Name c := c]> (Chains t)), inr true).

(** [deleteChain], for base chains and others. *)
Definition deleteChain (name : string) (t : table) : opResult :=
  match Chains t !! name with
  | None => (t, inl ErrNotExist)
  | Some c =>
      if decide (ruleGroups c = ∅) then
        (add_DeleteCommand (set_Chains t (delete name (Chains t))) (DeleteChain name), inr true)
      else (t, inl ErrNotEmpty)
  end.

(** *** Rules *)

Definition Rule_create (ru : Rule) (t : table) : opResult :=
  match Chains t !! ru_Chain ru with
  | None => (t, inl ErrNotExist)
  | Some c =>
      match ru_Rule ru with
      | [] => (t, inl ErrEmptyRule)
      | _ =>
          let rule := ruleText ru in
          let rg := default [] (ruleGroups c !! ru_Group ru) in
          if decide (rule ∈ rg) then
            if IgnoreExist ru then (t, inr false) else (t, inl ErrExists)
          else
            let c' := set_rules c (<[ru_Group ru := (rg ++ [rule])%list]> (ruleGroups c)) in
            (set_Chains t (<[ru_Chain ru := c']> (Chains t)), inr true)
      end
  end.

Definition Rule_delete (ru : Rule) (t : table) : opResult :=
  let rule := ruleText ru in
  match Chains t !! ru_Chain ru with
  | None => (t, inl ErrNotExist)
  | Some c =>
      if String.eqb rule "" then (t, inl ErrEmptyRule) else
      match ruleGroups c !! ru_Group ru with
      | None => if IgnoreExist ru then (t, inr false) else (t, inl ErrNotExist)
      | Some rg =>
          let rg' := filter (fun r => r <> rule) rg in
          if Nat.eqb (length rg') (length rg) then
            if IgnoreExist ru then (t, inr false) else (t, inl ErrNotExist)
          else
            let groups := match rg' with
                          | [] => delete (ru_Group ru) (ruleGroups c)
                          | _ => <[ru_Group ru := rg']> (ruleGroups c)
                          end in
            (set_Chains t (<[ru_Chain ru := set_rules c groups]> (Chains t)), inr true)
      end
  end.

(** *** Verdict maps *)

Definition VMap_create (vm : VMap) (t : table) : opResult :=
  if String.eqb (vmo_Name vm) "" then (t, inl ErrNoName) else
  if decide (is_Some (VMaps t !! vmo_Name vm)) then (t, inl ErrExists) else
  if String.eqb (vmo_ElementType vm) "" then (t, inl ErrFieldsRequired) else
  let v := mkVMap (vmo_Name vm) (vmo_ElementType vm) (vmo_Flags vm) ∅ ∅ ∅ true in
  (set_VMaps t (<[vm_Name v := v]> (VMaps t)), inr true).

Definition VMap_delete (vm : VMap) (t : table) : opResult :=
  match VMaps t !! vmo_Name vm with
  | None => (t, inl ErrNotExist)
  | Some v =>
      if decide (vm_Elements v = ∅) then
        (add_DeleteCommand (set_VMaps t (delete (vm_Name v) (VMaps t))) (DeleteMap (vm_Name v)), inr true)
      else (t, inl ErrNotEmpty)
  end.

Definition VMapElement_create (ve : VMapElement) (t : table) : opResult :=
  if String.eqb (VmapName ve) "" then (t, inl ErrNoName) else
  match VMaps t !! VmapName ve with
  | None => (t, inl ErrNotExist)
  | Some v =>
      if String.eqb (Key ve) "" || String.eqb (Verdict ve) "" then (t, inl ErrFieldsRequired) else
      if decide (is_Some (vm_Elements v !! Key ve)) then (t, inl ErrExists) else
      let v' := mkVMap (vm_Name v) (vm_ElementType v) (vm_Flags v)
                  (<[Key ve := Verdict ve]> (vm_Elements v))
                  (<[Key ve := Verdict ve]> (vm_AddedElements v))
                  (delete (Key ve) (vm_DeletedElements v)) (vm_MustFlush v) in
      (set_VMaps t (<[VmapName ve := v']> (VMaps t)), inr true)
  end.

Definition VMapElement_delete (ve : VMapElement) (t : table) : opResult :=
  match VMaps t !! VmapName ve with
  | None => (t, inl ErrNotExist)
  | Some v =>
      match vm_Elements v !! Key ve with
      | None => (t, inl ErrNotExist)
      | Some oldVerdict =>
          if negb (String.eqb oldVerdict (Verdict ve)) then (t, inl ErrOtherVerdict) else
          let v' := mkVMap (vm_Name v) (vm_ElementType v) (vm_Flags v)
                      (delete (Key ve) (vm_Elements v))
                      (delete (Key ve) (vm_AddedElements v))
                      (<[Key ve := Verdict ve]> (vm_DeletedElements v)) (vm_MustFlush v) in
          (set_VMaps t (<[VmapName ve := v']> (VMaps t)), inr true)
      end
  end.

(** *** Sets *)

Definition Set_create (sd : SetObj) (t : table) : opResult :=
  if String.eqb (so_Name sd) "" then (t, inl ErrNoName) else
  if decide (is_Some (Sets t !! so_Name sd)) then (t, inl ErrExists) else
  if String.eqb (so_ElementType sd) "" then (t, inl ErrFieldsRequired) else
  let s := mkSet (so_Name sd) (so_ElementType sd) (so_Flags sd) ∅ ∅ ∅ true in
  (set_Sets t (<[so_Name sd := s]> (Sets t)), inr true).

Definition Set_delete (sd : SetObj) (t : table) : opResult :=
  match Sets t !! so_Name sd with
  | None => (t, inl ErrNotExist)
  | Some s =>
      if decide (st_Elements s = ∅) then
        (add_DeleteCommand (set_Sets t (delete (so_Name sd) (Sets t))) (DeleteSet (st_Name s)), inr true)
      else (t, inl ErrNotEmpty)
  end.

Definition SetElement_create (se : SetElement) (t : table) : opResult :=
  match Sets t !! SetName se with
  | None => (t, inl ErrNotExist)
  | Some s =>
      if String.eqb (Element se) "" then (t, inl ErrFieldsRequired) else
      if decide (Element se ∈ st_Elements s) then (t, inl ErrExists) else
      let s' := mkSet (st_Name s) (st_ElementType s) (st_Flags s)
                  ({[Element se]} ∪ st_Elements s) ({[Element se]} ∪ st_AddedElements s)
                  (st_DeletedElements s ∖ {[Element se]}) (st_MustFlush s) in
      (set_Sets t (<[SetName se := s']> (Sets t)), inr true)
  end.

Definition SetElement_delete (se : SetElement) (t : table) : opResult :=
  match Sets t !! SetName se with
  | None => (t, inl ErrNotExist)
  | Some s =>
      if decide (Element se ∈ st_Elements s) then
        let s' := mkSet (st_Name s) (st_ElementType s) (st_Flags s)
                    (st_Elements s ∖ {[Element se]}) (st_AddedElements s ∖ {[Element se]})
                    ({[Element se]} ∪ st_DeletedElements s) (st_MustFlush s) in
        (set_Sets t (<[SetName se := s']> (Sets t)), inr true)
      else (t, inl ErrNotExist)
  end.

(** The interface [Obj]. *)
Definition obj_create (o : Obj) (t : table) : opResult :=
  match o with
  | OBaseChain o => BaseChain_create o t
  | OChain n => Chain_create n t
  | ORule o => Rule_create o t
  | OVMap o => VMap_create o t
  | OVMapElement o => VMapElement_create o t
  | OSet o => Set_create o t
  | OSetElement o => SetElement_create o t
  end.

Definition obj_delete (o : Obj) (t : table) : opResult :=
  match o with
  | OBaseChain o => deleteChain (bc_Name o) t
  | OChain n => deleteChain n t
  | ORule o => Rule_delete o t
  | OVMap o => VMap_delete o t
  | OVMapElement o => VMapElement_delete o t
  | OSet o => Set_delete o t
  | OSetElement o => SetElement_delete o t
  end.

(** ** Modifiers *)

Record command := mkCommand { obj : Obj; cdelete : bool }.

Abbreviation Modifier := (list command).

Definition Create (tm : Modifier) (o : Obj) : Modifier := (tm ++ [mkCommand o false])%list.
Definition Delete (tm : Modifier) (o : Obj) : Modifier := (tm ++ [mkCommand o true])%list.

(** [rtm.cmds[len-i-1]] is [tm.cmds[i]] with [delete] negated. *)
Definition Reverse (tm : Modifier) : Modifier :=
  rev (map (fun cmd => mkCommand (obj cmd) (negb (cdelete cmd))) tm).

Definition cmd_apply (c : command) (t : table) : opResult :=
  if cdelete c then obj_delete (obj c) t else obj_create (obj c) t.

Definition cmd_rollback (c : command) (t : table) : opResult :=
  if cdelete c then obj_create (obj c) t else obj_delete (obj c) t.

(** ** Command files *)

(** [Rules]: the groups in ascending order, the rules of a group in the order added. *)
Definition Rules (c : chain) : list string :=
  let groups := merge_sort Z.le (map_to_list (ruleGroups c)).*1 in
  mjoin (map (fun g => default [] (ruleGroups c !! g)) groups).

Definition baseOf (c : chain) : option baseSpec :=
  if String.eqb (ChainType c) "" then None
  else Some (mkBase (ChainType c) (Hook c) (Priority c) (Policy c)).

Definition when {A} (b : bool) (l : list A) : list A := if b then l else [].

(** [{{if .DeletedElements}}], [{{if .AddedElements}}]: not for an empty map. *)
Definition unless_empty {A B} (l : list A) (f : list A -> list B) : list B :=
  match l with [] => [] | _ => f l end.

(** [incrementalUpdateTemplText]. *)
Definition incrementalUpdateTempl (t : table) : list nftCmd :=
  let vmaps := (sortedMap (VMaps t)).*2 in
  let sets := (sortedMap (Sets t)).*2 in
  let chains := (sortedMap (Chains t)).*2 in
  ([AddTable]
   ++ mjoin (map (fun v => [AddMap (vm_Name v) (vm_ElementType v) (vm_Flags v) ∅]) vmaps)
   ++ mjoin (map (fun s => [AddSet (st_Name s) (st_ElementType s) (st_Flags s) ∅]) sets)
   ++ mjoin (map (fun c => when (ch_MustFlush c) [AddChain (ch_Name c) (baseOf c) []]) chains)
   ++ when (MustFlush t) [FlushTable]
   ++ mjoin (map (fun v => when (vm_MustFlush v) [FlushMap (vm_Name v)]) vmaps)
   ++ mjoin (map (fun s => when (st_MustFlush s) [FlushSet (st_Name s)]) sets)
   ++ mjoin (map (fun c => when (ch_MustFlush c) [FlushChain (ch_Name c)]) chains)
   ++ mjoin (map (fun v => unless_empty (keys_of (vm_DeletedElements v))
                             (fun ks => [DeleteMapElems (vm_Name v) ks])) vmaps)
   ++ mjoin (map (fun s => unless_empty (sortedSet (st_DeletedElements s))
                             (fun ks => [DeleteSetElems (st_Name s) ks])) sets)
   ++ DeleteCommands t
   ++ mjoin (map (fun c => when (ch_MustFlush c) [AddChain (ch_Name c) (baseOf c) (Rules c)]) chains)
   ++ mjoin (map (fun v => unless_empty (sortedMap (vm_AddedElements v))
                             (fun kvs => [AddMapElems (vm_Name v) kvs])) vmaps)
   ++ mjoin (map (fun s => unless_empty (sortedSet (st_AddedElements s))
                             (fun ks => [AddSetElems (st_Name s) ks])) sets))%list.

(** [reloadTemplText]. *)
Definition reloadTempl (t : table) : list nftCmd :=
  ([AddTable; DeleteTable; AddTable]
   ++ mjoin (map (fun v => [AddMap (vm_Name v) (vm_ElementType v) (vm_Flags v) (vm_Elements v)])
                (sortedMap (VMaps t)).*2)
   ++ mjoin (map (fun s => [AddSet (st_Name s) (st_ElementType s) (st_Flags s) (st_Elements s)])
                (sortedMap (Sets t)).*2)
   ++ mjoin (map (fun c => [AddChain (ch_Name c) (baseOf c) (Rules c)]) (sortedMap (Chains t)).*2))%list.

(** ** The kernel's table and nft *)

Record kChain := mkKChain { kc_base : option baseSpec; kc_rules : list string }.
Record kMap := mkKMap { km_type : NftType; km_flags : list string; km_elems : gmap string string }.
Record kSet := mkKSet { ks_type : NftType; ks_flags : list string; ks_elems : gset string }.

(** The contents of the table in the kernel; a table that does not exist has none. *)
Record kTable := mkKTable {
  k_maps : gmap string kMap; k_sets : gmap string kSet; k_chains : gmap string kChain }.

Definition emptyKernel : kTable := mkKTable ∅ ∅ ∅.

Definition updatesApplied (t : table) : table :=
  mkTable (Name t) (tFamily t)
    ((fun m => mkVMap (vm_Name m) (vm_ElementType m) (vm_Flags m) (vm_Elements m) ∅ ∅ false) <$> VMaps t)
    ((fun s => mkSet (st_Name s) (st_ElementType s) (st_Flags s) (st_Elements s) ∅ ∅ false) <$> Sets t)
    ((fun c => mkChain (ch_Name c) (ChainType c) (Hook c) (Priority c) (Policy c) false (ruleGroups c)) <$> Chains t)
    [] false.

Section Apply.
Context (nft : kTable -> nftCmd -> option kTable).

(** [nft -f]: the commands in order, all of them or none. *)
Fixpoint runFile (k : kTable) (script : list nftCmd) : option kTable :=
  match script with
  | [] => Some k
  | c :: script => match nft k c with Some k => runFile k script | None => None end
  end.

(** [nftApply]; [ran] is false when the tool could not be run. *)
Definition nftApply (ran : bool) (k : kTable) (script : list nftCmd) : option kTable :=
  if ran then runFile k script else None.

(** The loop of [Apply] over the commands, with the list [rollback]. *)
Fixpoint applyCmds (cmds : Modifier) (t : table) (rollback : list command)
    : table * list command * option nftErr :=
  match cmds with
  | [] => (t, rollback, None)
  | cmd :: cmds =>
      match cmd_apply cmd t with
      | (t, inr applied) => applyCmds cmds t (if applied then rollback ++ [cmd] else rollback)%list
      | (t, inl e) => (t, rollback, Some e)
      end
  end.

(** The deferred loop over [slices.Backward(rollback)]; errors are logged. *)
Definition rollbackAll (rollback : list command) (t : table) : table :=
  foldl (fun t c => (cmd_rollback c t).1) t (rev rollback).

Definition reload (enabled ran : bool) (t : table) (k : kTable) : table * kTable * option nftErr :=
  if negb enabled then (t, k, Some ErrNotEnabled) else
  match nftApply ran k (reloadTempl t) with
  | None => (t, k, Some ErrNft)
  | Some k => (updatesApplied t, k, None)
  end.

(** [ran1] and [ran2]: whether [nft] can be run for the update and for the reload. *)
Definition Apply (enabled ran1 ran2 : bool) (tm : Modifier) (t : table) (k : kTable)
    : table * kTable * option nftErr :=
  if negb enabled then (t, k, Some ErrNotEnabled) else
  let '(t1, rollback, err) := applyCmds tm t [] in
  match err with
  | Some e => (updatesApplied (rollbackAll rollback t1), k, Some e)
  | None =>
      match nftApply ran1 k (incrementalUpdateTempl t1) with
      | Some k => (updatesApplied t1, k, None)
      | None =>
          match reload enabled ran2 t1 k with
          | (t2, k, None) => (t2, k, None)
          | (t2, k, Some e) => (updatesApplied (rollbackAll rollback t2), k, Some e)
          end
      end
  end.

Definition Reload (enabled ran : bool) (t : table) (k : kTable) : table * kTable * option nftErr :=
  if negb enabled then (t, k, Some ErrNotEnabled) else reload enabled ran t k.

Definition set_policy (c : chain) (p : BaseChainPolicy) (flush : bool) : chain :=
  mkChain (ch_Name c) (ChainType c) (Hook c) (Priority c) p flush (ruleGroups c).

(** [SetBaseChainPolicy]; its update of the chain and its [Apply] are one step here.  On an
    error the old policy is put back in the chain that the call has looked up. *)
Definition SetBaseChainPolicy (enabled ran1 ran2 : bool) (chainName : string) (policy : BaseChainPolicy)
    (t : table) (k : kTable) : table * kTable * option nftErr :=
  match Chains t !! chainName with
  | None => (t, k, Some ErrNotExist)
  | Some c =>
      if String.eqb (ChainType c) "" then (t, k, Some ErrNotBaseChain) else
      match Apply enabled ran1 ran2 [] (set_Chains t (<[chainName := set_policy c policy true]> (Chains t))) k with
      | (t, k, None) => (t, k, None)
      | (t, k, Some e) =>
          (set_Chains t (alter (fun c' => set_policy c' (Policy c) (ch_MustFlush c')) chainName (Chains t)), k, Some e)
      end
  end.

End Apply.
