(* ===== verification/NFTablesSpec.v ===== *)
(** * Tables of the packet filter: undoing commands

    The representation invariant of a table ([wf]), equality of tables up to pending updates
    and the order of the rules in a group ([teq]), and that a command that was applied can
    be undone: the basis of the roll-back in [Apply] and of [Reverse]. *)

From Stdlib Require Import String.
From stdpp Require Import gmap strings sorting.
From S2P Require Import Prelude SortedMaps NFTables.

Local Open Scope string_scope.

(** ** The invariant *)

Record wf_chain (n : string) (c : chain) : Prop := {
  wfc_name : ch_Name c = n;
  wfc_named : n <> "";
  wfc_groups : forall g l, ruleGroups c !! g = Some l -> l <> [] /\ NoDup l }.

Record wf_vmap (n : string) (v : vMap) : Prop := {
  wfv_name : vm_Name v = n;
  wfv_named : n <> "";
  wfv_type : vm_ElementType v <> "";
  wfv_elems : forall k x, vm_Elements v !! k = Some x -> k <> "" /\ x <> "" }.

Record wf_set (n : string) (s : set) : Prop := {
  wfs_name : st_Name s = n;
  wfs_named : n <> "";
  wfs_type : st_ElementType s <> "";
  wfs_elems : "" ∉ st_Elements s }.

Record wf (t : table) : Prop := {
  wf_chains : map_Forall wf_chain (Chains t);
  wf_vmaps : map_Forall wf_vmap (VMaps t);
  wf_sets : map_Forall wf_set (Sets t) }.

(** ** Tables up to pending updates and the order of rules *)

(** What is asked of a relation on the rules of a group. *)
Class RuleRel (Q : relation (list string)) := {
  rule_rel_equiv :: Equivalence Q;
  rule_rel_perm l1 l2 : Q l1 l2 -> l1 ≡ₚ l2;
  rule_rel_snoc l1 l2 x : Q l1 l2 -> Q (l1 ++ [x])%list (l2 ++ [x])%list;
  rule_rel_filter l1 l2 (x : string) :
    Q l1 l2 -> Q (filter (fun r => r <> x) l1) (filter (fun r => r <> x) l2) }.

#[export] Instance rule_rel_eq : RuleRel eq.
Proof. split; [apply _|by intros ?? ->|by intros ??? ->|by intros ??? ->]. Qed.

#[export] Instance rule_rel_Permutation : RuleRel Permutation.
Proof.
  split; [apply _|done|by intros ??? ->|].
  intros l1 l2 x H. by rewrite H.
Qed.

Section TableEq.
Context (Q : relation (list string)) `{!RuleRel Q}.

Record chain_eq (c1 c2 : chain) : Prop := {
  ceq_name : ch_Name c1 = ch_Name c2;
  ceq_type : ChainType c1 = ChainType c2;
  ceq_hook : Hook c1 = Hook c2;
  ceq_prio : Priority c1 = Priority c2;
  ceq_policy : Policy c1 = Policy c2;
  ceq_groups : map_Forall2 (fun _ => Q) (ruleGroups c1) (ruleGroups c2) }.

Record vmap_eq (v1 v2 : vMap) : Prop := {
  veq_name : vm_Name v1 = vm_Name v2;
  veq_type : vm_ElementType v1 = vm_ElementType v2;
  veq_flags : vm_Flags v1 = vm_Flags v2;
  veq_elems : vm_Elements v1 = vm_Elements v2 }.

Record set_eq (s1 s2 : set) : Prop := {
  seq_name : st_Name s1 = st_Name s2;
  seq_type : st_ElementType s1 = st_ElementType s2;
  seq_flags : st_Flags s1 = st_Flags s2;
  seq_elems : st_Elements s1 = st_Elements s2 }.

Record teq (t1 t2 : table) : Prop := {
  teq_name : Name t1 = Name t2;
  teq_family : tFamily t1 = tFamily t2;
  teq_chains : map_Forall2 (fun _ => chain_eq) (Chains t1) (Chains t2);
  teq_vmaps : map_Forall2 (fun _ => vmap_eq) (VMaps t1) (VMaps t2);
  teq_sets : map_Forall2 (fun _ => set_eq) (Sets t1) (Sets t2) }.

End TableEq.

(** The relation lifted to finite maps is an equivalence when it is one. *)
Section MapForall2.
Context `{Countable K} {A : Type} (R : relation A).

#[export] Instance map_Forall2_refl `{!Reflexive R} :
  Reflexive (map_Forall2 (fun _ : K => R) : relation (gmap K A)).
Proof. intros m i. destruct (m !! i); constructor. reflexivity. Qed.

#[export] Instance map_Forall2_sym `{!Symmetric R} :
  Symmetric (map_Forall2 (fun _ : K => R) : relation (gmap K A)).
Proof. intros m1 m2 Hm i. destruct (Hm i); constructor. by symmetry. Qed.

#[export] Instance map_Forall2_trans `{!Transitive R} :
  Transitive (map_Forall2 (fun _ : K => R) : relation (gmap K A)).
Proof.
  intros m1 m2 m3 H1 H2 i. specialize (H1 i). specialize (H2 i). destruct H1; inversion H2; constructor.
  by etrans.
Qed.

Lemma map_Forall2_Some_l (m1 m2 : gmap K A) i x :
  map_Forall2 (fun _ => R) m1 m2 -> m1 !! i = Some x -> exists y, m2 !! i = Some y /\ R x y.
Proof. intros Hm Hi. specialize (Hm i). rewrite Hi in Hm. inversion Hm; eauto. Qed.

Lemma map_Forall2_Some_r (m1 m2 : gmap K A) i y :
  map_Forall2 (fun _ => R) m1 m2 -> m2 !! i = Some y -> exists x, m1 !! i = Some x /\ R x y.
Proof. intros Hm Hi. specialize (Hm i). rewrite Hi in Hm. inversion Hm; eauto. Qed.

Lemma map_Forall2_None (m1 m2 : gmap K A) i :
  map_Forall2 (fun _ => R) m1 m2 -> m1 !! i = None <-> m2 !! i = None.
Proof. intros Hm. specialize (Hm i). by inversion Hm. Qed.

(** Changing one entry of the first map to one related to the entry of the second. *)
Lemma map_Forall2_insert_l (m1 m2 : gmap K A) i x y :
  map_Forall2 (fun _ => R) m1 m2 -> m2 !! i = Some y -> R x y ->
  map_Forall2 (fun _ => R) (<[i := x]> m1) m2.
Proof.
  intros Hm Hy Hx j. destruct (decide (i = j)) as [->|Hne].
  - rewrite lookup_insert_eq, Hy. by constructor.
  - by rewrite lookup_insert_ne.
Qed.
End MapForall2.

#[export] Instance chain_eq_equiv Q `{!RuleRel Q} : Equivalence (chain_eq Q).
Proof.
  split.
  - intros c. split; done || reflexivity.
  - intros c1 c2 []. split; done || by symmetry.
  - intros c1 c2 c3 [] []. split; etrans; done.
Qed.
#[export] Instance vmap_eq_equiv : Equivalence vmap_eq.
Proof.
  split; [by intros []|by intros ?? []; split|].
  intros v1 v2 v3 [] []. split; etrans; done.
Qed.
#[export] Instance set_eq_equiv : Equivalence set_eq.
Proof.
  split; [by intros []|by intros ?? []; split|].
  intros v1 v2 v3 [] []. split; etrans; done.
Qed.
#[export] Instance teq_equiv Q `{!RuleRel Q} : Equivalence (teq Q).
Proof.
  split.
  - intros t. split; done || reflexivity.
  - intros t1 t2 []. split; done || by symmetry.
  - intros t1 t2 t3 [] []. split; etrans; done.
Qed.

(** ** Operations respect the equality *)

Section Congruence.
Context (Q : relation (list string)) `{!RuleRel Q}.

Definition res_eq (r1 r2 : table * (nftErr + bool)) : Prop := r1.2 = r2.2 /\ teq Q r1.1 r2.1.

Lemma res_eq_same t1 t2 r : teq Q t1 t2 -> res_eq (t1, r) (t2, r).
Proof. by split. Qed.

Lemma res_eq_Chains t1 t2 (m1 m2 : gmap string chain) r :
  teq Q t1 t2 -> map_Forall2 (fun _ => chain_eq Q) m1 m2 ->
  res_eq (set_Chains t1 m1, r) (set_Chains t2 m2, r).
Proof. intros [] ?. by split; [|split]. Qed.

Lemma res_eq_VMaps t1 t2 m1 m2 r :
  teq Q t1 t2 -> map_Forall2 (fun _ => vmap_eq) m1 m2 ->
  res_eq (set_VMaps t1 m1, r) (set_VMaps t2 m2, r).
Proof. intros [] ?. by split; [|split]. Qed.

Lemma res_eq_Sets t1 t2 m1 m2 r :
  teq Q t1 t2 -> map_Forall2 (fun _ => set_eq) m1 m2 ->
  res_eq (set_Sets t1 m1, r) (set_Sets t2 m2, r).
Proof. intros [] ?. by split; [|split]. Qed.

Lemma res_eq_DeleteCommand t1 t2 c1 c2 r :
  res_eq (t1, r) (t2, r) -> res_eq (add_DeleteCommand t1 c1, r) (add_DeleteCommand t2 c2, r).
Proof. intros [_ []]. by split; [|split]. Qed.

Lemma is_Some_same {A} (R : relation A) (m1 m2 : gmap string A) i :
  map_Forall2 (fun _ => R) m1 m2 -> is_Some (m1 !! i) <-> is_Some (m2 !! i).
Proof. intros H. specialize (H i). destruct H; split; intros []; eauto; done. Qed.

Lemma groups_empty g1 g2 : map_Forall2 (fun _ => Q) g1 g2 -> g1 = ∅ <-> g2 = (∅ : gmap Z (list string)).
Proof.
  intros H. split; intros ->; [by apply map_Forall2_empty_inv_l in H|by apply map_Forall2_empty_inv_r in H].
Qed.

Lemma rules_same l1 l2 x : Q l1 l2 -> x ∈ l1 <-> x ∈ l2.
Proof. intros H%rule_rel_perm. by rewrite H. Qed.

Lemma group_default (g1 g2 : gmap Z (list string)) g :
  map_Forall2 (fun _ => Q) g1 g2 -> Q (default [] (g1 !! g)) (default [] (g2 !! g)).
Proof. intros H. specialize (H g). by destruct H. Qed.

Lemma BaseChain_create_eq cd t1 t2 :
  teq Q t1 t2 -> res_eq (BaseChain_create cd t1) (BaseChain_create cd t2).
Proof.
  intros Ht. unfold BaseChain_create.
  rewrite (decide_ext (is_Some (Chains t1 !! bc_Name cd)) (is_Some (Chains t2 !! bc_Name cd)))
    by (eapply is_Some_same, Ht).
  repeat (case_decide || case_match); try by apply res_eq_same.
  all: apply res_eq_Chains; [done|]; apply map_Forall2_insert_2; [reflexivity|apply Ht].
Qed.

Lemma Chain_create_eq n t1 t2 : teq Q t1 t2 -> res_eq (Chain_create n t1) (Chain_create n t2).
Proof.
  intros Ht. unfold Chain_create.
  rewrite (decide_ext (is_Some (Chains t1 !! n)) (is_Some (Chains t2 !! n)))
    by (eapply is_Some_same, Ht).
  repeat (case_decide || case_match); try by apply res_eq_same.
  apply res_eq_Chains; [done|]. apply map_Forall2_insert_2; [reflexivity|apply Ht].
Qed.

Lemma deleteChain_eq n t1 t2 : teq Q t1 t2 -> res_eq (deleteChain n t1) (deleteChain n t2).
Proof.
  intros Ht. unfold deleteChain. destruct (teq_chains _ _ _ Ht n) as [c1 c2 Hc|]; [|by apply res_eq_same].
  rewrite (decide_ext (ruleGroups c1 = ∅) (ruleGroups c2 = ∅)) by (apply groups_empty, Hc).
  case_decide; [|by apply res_eq_same].
  apply res_eq_DeleteCommand, res_eq_Chains; [done|]. apply map_Forall2_delete, Ht.
Qed.

Lemma set_rules_eq c1 c2 (g1 g2 : gmap Z (list string)) :
  chain_eq Q c1 c2 -> map_Forall2 (fun _ => Q) g1 g2 -> chain_eq Q (set_rules c1 g1) (set_rules c2 g2).
Proof. intros [] ?. by split. Qed.

Lemma Rule_create_eq ru t1 t2 : teq Q t1 t2 -> res_eq (Rule_create ru t1) (Rule_create ru t2).
Proof.
  intros Ht. unfold Rule_create.
  destruct (teq_chains _ _ _ Ht (ru_Chain ru)) as [c1 c2 Hc|]; [|by apply res_eq_same].
  destruct (ru_Rule ru); [by apply res_eq_same|].
  pose proof (group_default _ _ (ru_Group ru) (ceq_groups _ _ _ Hc)) as Hg. cbv zeta.
  pose proof (rules_same _ _ (ruleText ru) Hg) as Hin.
  destruct (decide (_ ∈ default [] (ruleGroups c1 !! _))), (decide (_ ∈ default [] (ruleGroups c2 !! _)));
    try (exfalso; tauto); [case_match; by apply res_eq_same|].
  apply res_eq_Chains; [done|]. apply map_Forall2_insert_2; [|apply Ht].
  apply set_rules_eq; [done|]. apply map_Forall2_insert_2; [|apply Hc]. by apply rule_rel_snoc.
Qed.

Lemma Rule_delete_eq ru t1 t2 : teq Q t1 t2 -> res_eq (Rule_delete ru t1) (Rule_delete ru t2).
Proof.
  intros Ht. unfold Rule_delete.
  destruct (teq_chains _ _ _ Ht (ru_Chain ru)) as [c1 c2 Hc|]; [|by apply res_eq_same].
  case_match; [by apply res_eq_same|].
  destruct (ceq_groups _ _ _ Hc (ru_Group ru)) as [l1 l2 Hl|]; [|case_match; by apply res_eq_same].
  pose proof (rule_rel_filter _ _ (ruleText ru) Hl) as Hf. cbv zeta.
  rewrite (Permutation_length (rule_rel_perm _ _ Hf)), (Permutation_length (rule_rel_perm _ _ Hl)).
  case_match; [case_match; by apply res_eq_same|].
  apply res_eq_Chains; [done|]. apply map_Forall2_insert_2; [|apply Ht].
  apply set_rules_eq; [done|]. pose proof (rule_rel_perm _ _ Hf) as Hp.
  destruct (filter _ l1) as [|x1 r1], (filter _ l2) as [|x2 r2].
  - apply map_Forall2_delete, Hc.
  - by apply Permutation_nil_l in Hp.
  - by apply Permutation_nil_r in Hp.
  - apply map_Forall2_insert_2; [done|apply Hc].
Qed.

Lemma VMap_create_eq vm t1 t2 : teq Q t1 t2 -> res_eq (VMap_create vm t1) (VMap_create vm t2).
Proof.
  intros Ht. unfold VMap_create. case_match; [by apply res_eq_same|].
  rewrite (decide_ext (is_Some (VMaps t1 !! vmo_Name vm)) (is_Some (VMaps t2 !! vmo_Name vm)))
    by (eapply is_Some_same, Ht).
  repeat (case_decide || case_match); try by apply res_eq_same.
  apply res_eq_VMaps; [done|]. apply map_Forall2_insert_2; [reflexivity|apply Ht].
Qed.

Lemma VMap_delete_eq vm t1 t2 : teq Q t1 t2 -> res_eq (VMap_delete vm t1) (VMap_delete vm t2).
Proof.
  intros Ht. unfold VMap_delete.
  destruct (teq_vmaps _ _ _ Ht (vmo_Name vm)) as [v1 v2 Hv|]; [|by apply res_eq_same].
  rewrite (veq_elems _ _ Hv), (veq_name _ _ Hv). case_decide; [|by apply res_eq_same].
  apply res_eq_DeleteCommand, res_eq_VMaps; [done|]. apply map_Forall2_delete, Ht.
Qed.

Lemma VMapElement_create_eq ve t1 t2 :
  teq Q t1 t2 -> res_eq (VMapElement_create ve t1) (VMapElement_create ve t2).
Proof.
  intros Ht. unfold VMapElement_create. case_match; [by apply res_eq_same|].
  destruct (teq_vmaps _ _ _ Ht (VmapName ve)) as [v1 v2 Hv|]; [|by apply res_eq_same].
  case_match; [by apply res_eq_same|]. rewrite (veq_elems _ _ Hv). case_decide; [by apply res_eq_same|].
  apply res_eq_VMaps; [done|]. apply map_Forall2_insert_2; [|apply Ht]. by destruct Hv; split.
Qed.

Lemma VMapElement_delete_eq ve t1 t2 :
  teq Q t1 t2 -> res_eq (VMapElement_delete ve t1) (VMapElement_delete ve t2).
Proof.
  intros Ht. unfold VMapElement_delete.
  destruct (teq_vmaps _ _ _ Ht (VmapName ve)) as [v1 v2 Hv|]; [|by apply res_eq_same].
  rewrite (veq_elems _ _ Hv). case_match; [|by apply res_eq_same]. case_match; [by apply res_eq_same|].
  apply res_eq_VMaps; [done|]. apply map_Forall2_insert_2; [|apply Ht]. by destruct Hv; split.
Qed.

Lemma Set_create_eq sd t1 t2 : teq Q t1 t2 -> res_eq (Set_create sd t1) (Set_create sd t2).
Proof.
  intros Ht. unfold Set_create. case_match; [by apply res_eq_same|].
  rewrite (decide_ext (is_Some (Sets t1 !! so_Name sd)) (is_Some (Sets t2 !! so_Name sd)))
    by (eapply is_Some_same, Ht).
  repeat (case_decide || case_match); try by apply res_eq_same.
  apply res_eq_Sets; [done|]. apply map_Forall2_insert_2; [reflexivity|apply Ht].
Qed.

Lemma Set_delete_eq sd t1 t2 : teq Q t1 t2 -> res_eq (Set_delete sd t1) (Set_delete sd t2).
Proof.
  intros Ht. unfold Set_delete.
  destruct (teq_sets _ _ _ Ht (so_Name sd)) as [s1 s2 Hs|]; [|by apply res_eq_same].
  rewrite (seq_elems _ _ Hs). case_decide; [|by apply res_eq_same].
  apply res_eq_DeleteCommand, res_eq_Sets; [done|]. apply map_Forall2_delete, Ht.
Qed.

Lemma SetElement_create_eq se t1 t2 :
  teq Q t1 t2 -> res_eq (SetElement_create se t1) (SetElement_create se t2).
Proof.
  intros Ht. unfold SetElement_create.
  destruct (teq_sets _ _ _ Ht (SetName se)) as [s1 s2 Hs|]; [|by apply res_eq_same].
  case_match; [by apply res_eq_same|]. rewrite (seq_elems _ _ Hs). case_decide; [by apply res_eq_same|].
  apply res_eq_Sets; [done|]. apply map_Forall2_insert_2; [|apply Ht]. by destruct Hs; split.
Qed.

Lemma SetElement_delete_eq se t1 t2 :
  teq Q t1 t2 -> res_eq (SetElement_delete se t1) (SetElement_delete se t2).
Proof.
  intros Ht. unfold SetElement_delete.
  destruct (teq_sets _ _ _ Ht (SetName se)) as [s1 s2 Hs|]; [|by apply res_eq_same].
  rewrite (seq_elems _ _ Hs). case_decide; [|by apply res_eq_same].
  apply res_eq_Sets; [done|]. apply map_Forall2_insert_2; [|apply Ht]. by destruct Hs; split.
Qed.

Lemma obj_create_eq o t1 t2 : teq Q t1 t2 -> res_eq (obj_create o t1) (obj_create o t2).
Proof.
  destruct o; [apply BaseChain_create_eq|apply Chain_create_eq|apply Rule_create_eq|apply VMap_create_eq
    |apply VMapElement_create_eq|apply Set_create_eq|apply SetElement_create_eq].
Qed.

Lemma obj_delete_eq o t1 t2 : teq Q t1 t2 -> res_eq (obj_delete o t1) (obj_delete o t2).
Proof.
  destruct o; [apply deleteChain_eq|apply deleteChain_eq|apply Rule_delete_eq|apply VMap_delete_eq
    |apply VMapElement_delete_eq|apply Set_delete_eq|apply SetElement_delete_eq].
Qed.

Lemma cmd_apply_eq c t1 t2 : teq Q t1 t2 -> res_eq (cmd_apply c t1) (cmd_apply c t2).
Proof. unfold cmd_apply. destruct (cdelete c); [apply obj_delete_eq|apply obj_create_eq]. Qed.

End Congruence.

(** ** The invariant is kept *)

Lemma map_Forall_insert_keep {A} (P : string -> A -> Prop) (m : gmap string A) i x :
  map_Forall P m -> P i x -> map_Forall P (<[i := x]> m).
Proof. intros. by apply map_Forall_insert_2. Qed.

Section WfKept.
Implicit Types t : table.

Lemma wf_set_Chains t m : wf t -> map_Forall wf_chain m -> wf (set_Chains t m).
Proof. by intros [] ?; split. Qed.
Lemma wf_set_VMaps t m : wf t -> map_Forall wf_vmap m -> wf (set_VMaps t m).
Proof. by intros [] ?; split. Qed.
Lemma wf_set_Sets t m : wf t -> map_Forall wf_set m -> wf (set_Sets t m).
Proof. by intros [] ?; split. Qed.
Lemma wf_add_DeleteCommand t c : wf t -> wf (add_DeleteCommand t c).
Proof. by intros []; split. Qed.

Lemma wf_new_chain n ty h p po b :
  n <> "" -> wf_chain n (mkChain n ty h p po b ∅).
Proof. intros. split; [done|done|]. intros g l. cbn [ruleGroups]. by rewrite lookup_empty. Qed.

Lemma wf_set_rules n c (g : gmap Z (list string)) :
  wf_chain n c -> map_Forall (fun _ l => l <> [] /\ NoDup l) g -> wf_chain n (set_rules c g).
Proof. intros [] Hg. split; [done|done|]. intros i l. apply Hg. Qed.

Lemma group_nodup n c g : wf_chain n c -> NoDup (default [] (ruleGroups c !! g)).
Proof.
  intros W. destruct (ruleGroups c !! g) as [l|] eqn:E; [|by constructor].
  by apply (wfc_groups _ _ W _ _ E).
Qed.

Lemma BaseChain_create_wf cd t : wf t -> wf (BaseChain_create cd t).1.
Proof.
  intros W. unfold BaseChain_create. case_decide; [done|]. destruct (String.eqb_spec (bc_Name cd) ""); [done|].
  case_match; [done|]. apply wf_set_Chains; [done|].
  apply map_Forall_insert_keep; [apply W|]. by apply wf_new_chain.
Qed.

Lemma Chain_create_wf n t : wf t -> wf (Chain_create n t).1.
Proof.
  intros W. unfold Chain_create. case_decide; [done|]. destruct (String.eqb_spec n ""); [done|].
  apply wf_set_Chains; [done|]. apply map_Forall_insert_keep; [apply W|]. by apply wf_new_chain.
Qed.

Lemma deleteChain_wf n t : wf t -> wf (deleteChain n t).1.
Proof.
  intros W. unfold deleteChain. case_match; [|done]. case_decide; [|done].
  apply wf_add_DeleteCommand, wf_set_Chains; [done|]. apply map_Forall_delete, W.
Qed.

Lemma Rule_create_wf ru t : wf t -> wf (Rule_create ru t).1.
Proof.
  intros W. unfold Rule_create. destruct (Chains t !! ru_Chain ru) as [c|] eqn:Hc; [|done].
  destruct (ru_Rule ru); [done|]. cbv zeta. case_decide as Hin; [by case_match|].
  pose proof (wf_chains _ W _ _ Hc) as Wc.
  apply wf_set_Chains; [done|]. apply map_Forall_insert_keep; [apply W|].
  apply wf_set_rules; [done|]. apply map_Forall_insert_2; [|intros g l0; apply (wfc_groups _ _ Wc)].
  split; [by intros []%app_nil|]. apply list.NoDup_app. split; [by eapply group_nodup|].
  split; [|apply NoDup_singleton]. intros x Hx ->%list_elem_of_singleton. done.
Qed.

Lemma Rule_delete_wf ru t : wf t -> wf (Rule_delete ru t).1.
Proof.
  intros W. unfold Rule_delete. destruct (Chains t !! ru_Chain ru) as [c|] eqn:Hc; [|done].
  case_match; [done|]. destruct (ruleGroups c !! ru_Group ru) as [rg|] eqn:Hg; [|by case_match].
  cbv zeta. case_match; [by case_match|]. pose proof (wf_chains _ W _ _ Hc) as Wc.
  apply wf_set_Chains; [done|]. apply map_Forall_insert_keep; [apply W|].
  apply wf_set_rules; [done|].
  assert (Hall : map_Forall (fun _ l => l <> [] /\ NoDup l) (ruleGroups c))
    by (intros g l; apply (wfc_groups _ _ Wc)).
  destruct (filter _ rg) as [|x l] eqn:Hf; [by apply map_Forall_delete|].
  apply map_Forall_insert_2; [|done]. split; [done|]. rewrite <- Hf. apply list.NoDup_filter.
  apply (wfc_groups _ _ Wc _ _ Hg).
Qed.

Lemma VMap_create_wf vm t : wf t -> wf (VMap_create vm t).1.
Proof.
  intros W. unfold VMap_create. destruct (String.eqb_spec (vmo_Name vm) ""); [done|]. case_decide; [done|].
  destruct (String.eqb_spec (vmo_ElementType vm) ""); [done|].
  apply wf_set_VMaps; [done|]. apply map_Forall_insert_keep; [apply W|]. split; try done.
Qed.

Lemma VMap_delete_wf vm t : wf t -> wf (VMap_delete vm t).1.
Proof.
  intros W. unfold VMap_delete. case_match; [|done]. case_decide; [|done].
  apply wf_add_DeleteCommand, wf_set_VMaps; [done|]. apply map_Forall_delete, W.
Qed.

Lemma VMapElement_create_wf ve t : wf t -> wf (VMapElement_create ve t).1.
Proof.
  intros W. unfold VMapElement_create. case_match; [done|].
  destruct (VMaps t !! VmapName ve) as [v|] eqn:Hv; [|done].
  destruct (String.eqb_spec (Key ve) ""), (String.eqb_spec (Verdict ve) ""); try done. cbn [orb].
  case_decide; [done|]. destruct (wf_vmaps _ W _ _ Hv).
  apply wf_set_VMaps; [done|]. apply map_Forall_insert_keep; [apply W|]. split; try done.
  intros k x. cbn [vm_Elements]. rewrite lookup_insert_Some. intros [[<- <-]|[_ ?]]; eauto.
Qed.

Lemma VMapElement_delete_wf ve t : wf t -> wf (VMapElement_delete ve t).1.
Proof.
  intros W. unfold VMapElement_delete. destruct (VMaps t !! VmapName ve) as [v|] eqn:Hv; [|done].
  case_match; [|done]. case_match; [done|]. destruct (wf_vmaps _ W _ _ Hv).
  apply wf_set_VMaps; [done|]. apply map_Forall_insert_keep; [apply W|]. split; try done.
  intros k x. cbn [vm_Elements]. rewrite lookup_delete_Some. intros [_ ?]; eauto.
Qed.

Lemma Set_create_wf sd t : wf t -> wf (Set_create sd t).1.
Proof.
  intros W. unfold Set_create. destruct (String.eqb_spec (so_Name sd) ""); [done|]. case_decide; [done|].
  destruct (String.eqb_spec (so_ElementType sd) ""); [done|].
  apply wf_set_Sets; [done|]. apply map_Forall_insert_keep; [apply W|]. split; try done.
Qed.

Lemma Set_delete_wf sd t : wf t -> wf (Set_delete sd t).1.
Proof.
  intros W. unfold Set_delete. case_match; [|done]. case_decide; [|done].
  apply wf_add_DeleteCommand, wf_set_Sets; [done|]. apply map_Forall_delete, W.
Qed.

Lemma SetElement_create_wf se t : wf t -> wf (SetElement_create se t).1.
Proof.
  intros W. unfold SetElement_create. destruct (Sets t !! SetName se) as [s|] eqn:Hs; [|done].
  destruct (String.eqb_spec (Element se) ""); [done|]. case_decide; [done|]. destruct (wf_sets _ W _ _ Hs).
  apply wf_set_Sets; [done|]. apply map_Forall_insert_keep; [apply W|]. split; try done.
  cbn [st_Elements]. set_solver.
Qed.

Lemma SetElement_delete_wf se t : wf t -> wf (SetElement_delete se t).1.
Proof.
  intros W. unfold SetElement_delete. destruct (Sets t !! SetName se) as [s|] eqn:Hs; [|done].
  case_decide; [|done]. destruct (wf_sets _ W _ _ Hs).
  apply wf_set_Sets; [done|]. apply map_Forall_insert_keep; [apply W|]. split; try done.
  cbn [st_Elements]. set_solver.
Qed.

Lemma obj_create_wf o t : wf t -> wf (obj_create o t).1.
Proof.
  destruct o; [apply BaseChain_create_wf|apply Chain_create_wf|apply Rule_create_wf|apply VMap_create_wf
    |apply VMapElement_create_wf|apply Set_create_wf|apply SetElement_create_wf].
Qed.

Lemma obj_delete_wf o t : wf t -> wf (obj_delete o t).1.
Proof.
  destruct o; [apply deleteChain_wf|apply deleteChain_wf|apply Rule_delete_wf|apply VMap_delete_wf
    |apply VMapElement_delete_wf|apply Set_delete_wf|apply SetElement_delete_wf].
Qed.

Lemma cmd_apply_wf c t : wf t -> wf (cmd_apply c t).1.
Proof. unfold cmd_apply. destruct (cdelete c); [apply obj_delete_wf|apply obj_create_wf]. Qed.

Lemma cmd_rollback_wf c t : wf t -> wf (cmd_rollback c t).1.
Proof. unfold cmd_rollback. destruct (cdelete c); [apply obj_create_wf|apply obj_delete_wf]. Qed.

Lemma wf_updatesApplied t : wf t -> wf (updatesApplied t).
Proof.
  intros [Hc Hv Hs]. split; intros n x; cbn [Chains VMaps Sets updatesApplied];
    rewrite lookup_fmap_Some; intros (y & <- & Hy).
  - by destruct (Hc _ _ Hy); split.
  - by destruct (Hv _ _ Hy); split.
  - by destruct (Hs _ _ Hy); split.
Qed.
End WfKept.
