(* ===== verification/NFTablesUndo.v ===== *)
(** * Tables of the packet filter: roll-back and reversal

    A command that was applied is undone by its roll-back, exactly or, when it deleted a
    rule, up to the order of the rules of one group; therefore a failed [Apply] restores the
    table and a reversed [Modifier] undoes the original one. *)

From Stdlib Require Import String.
From stdpp Require Import gmap strings sorting.
From S2P Require Import Prelude SortedMaps NFTables NFTablesSpec.

Local Open Scope string_scope.

(** ** Commands that can be undone

    Objects are deleted by their name alone, and the roll-back re-creates them from the
    object given to [Delete]: it has to describe what is deleted.  A rule whose text is
    empty can be created but not deleted. *)
Definition policyOf (o : BaseChain) : BaseChainPolicy :=
  if String.eqb (bc_Policy o) "" then BaseChainPolicyAccept else bc_Policy o.

Definition faithful (c : command) (t : table) : Prop :=
  match obj c, cdelete c with
  | ORule ru, false => ruleText ru <> ""
  | OChain n, true => forall ch, Chains t !! n = Some ch ->
      ChainType ch = "" /\ Hook ch = "" /\ Priority ch = 0 /\ Policy ch = ""
  | OBaseChain o, true => bc_ChainType o <> "" /\ bc_Hook o <> "" /\
      forall ch, Chains t !! bc_Name o = Some ch ->
      ChainType ch = bc_ChainType o /\ Hook ch = bc_Hook o /\ Priority ch = bc_Priority o /\ Policy ch = policyOf o
  | OVMap o, true => forall v, VMaps t !! vmo_Name o = Some v ->
      vm_ElementType v = vmo_ElementType o /\ vm_Flags v = vmo_Flags o
  | OSet o, true => forall s, Sets t !! so_Name o = Some s ->
      st_ElementType s = so_ElementType o /\ st_Flags s = so_Flags o
  | _, _ => True
  end.

(** Every command describes its object in the state in which it is applied. *)
Fixpoint faithful_cmds (tm : Modifier) (t : table) : Prop :=
  match tm with
  | [] => True
  | c :: tm => faithful c t /\ match cmd_apply c t with
                               | (t, inr _) => faithful_cmds tm t
                               | (_, inl _) => True
                               end
  end.

Definition is_rule_delete (c : command) : bool :=
  match obj c with ORule _ => cdelete c | _ => false end.

(** ** One command *)

Section Undo.
Context (Q : relation (list string)) `{!RuleRel Q}.
Implicit Types t : table.

Lemma teq_Chains t m :
  map_Forall2 (fun _ => chain_eq Q) m (Chains t) -> teq Q (set_Chains t m) t.
Proof. intros. split; done || reflexivity. Qed.
Lemma teq_VMaps t m : map_Forall2 (fun _ => vmap_eq) m (VMaps t) -> teq Q (set_VMaps t m) t.
Proof. intros. split; done || reflexivity. Qed.
Lemma teq_Sets t m : map_Forall2 (fun _ => set_eq) m (Sets t) -> teq Q (set_Sets t m) t.
Proof. intros. split; done || reflexivity. Qed.

(** The roll-back of a command succeeds and restores the table. *)
Definition undoes (f g : table -> table * (nftErr + bool)) (t : table) : Prop :=
  forall t', f t = (t', inr true) -> res_eq Q (g t') (t, inr true).

Lemma delete_insert_refl {A} (R : relation A) `{!Reflexive R} (m : gmap string A) i x :
  m !! i = None -> map_Forall2 (fun _ => R) (delete i (<[i := x]> m)) m.
Proof. intros. rewrite delete_insert_id by done. reflexivity. Qed.

Lemma insert_delete_refl {A} (R : relation A) `{!Reflexive R} (m : gmap string A) i x y :
  m !! i = Some y -> R x y -> map_Forall2 (fun _ => R) (<[i := x]> (delete i m)) m.
Proof.
  intros Hi Hx j. destruct (decide (i = j)) as [->|Hne].
  - rewrite lookup_insert_eq, Hi. by constructor.
  - rewrite lookup_insert_ne, lookup_delete_ne by done. destruct (m !! j); constructor. reflexivity.
Qed.

Lemma deleteChain_fresh t n c (m := <[n := c]> (Chains t)) :
  Chains t !! n = None -> ruleGroups c = ∅ -> res_eq Q (deleteChain n (set_Chains t m)) (t, inr true).
Proof.
  intros Hn Hg. unfold deleteChain. cbn [Chains set_Chains]. subst m. rewrite lookup_insert_eq, Hg.
  rewrite decide_True by done. split; [done|]. split; cbn [fst]; try reflexivity.
  cbn [Chains set_Chains add_DeleteCommand]. by apply delete_insert_refl; [apply _|].
Qed.

Lemma undo_BaseChain_create o t :
  undoes (BaseChain_create o) (deleteChain (bc_Name o)) t.
Proof.
  intros t'. unfold BaseChain_create. case_decide as Hn; [done|]. repeat (case_match; [done|]).
  intros [= <-]. apply deleteChain_fresh; [by apply eq_None_not_Some|done].
Qed.

Lemma undo_Chain_create n t : undoes (Chain_create n) (deleteChain n) t.
Proof.
  intros t'. unfold Chain_create. case_decide as Hn; [done|]. repeat (case_match; [done|]).
  intros [= <-]. apply deleteChain_fresh; [by apply eq_None_not_Some|done].
Qed.

Lemma deleteChain_applied n t t' :
  deleteChain n t = (t', inr true) ->
  exists c, Chains t !! n = Some c /\ ruleGroups c = ∅ /\
    t' = add_DeleteCommand (set_Chains t (delete n (Chains t))) (DeleteChain n).
Proof. unfold deleteChain. case_match; [|done]. case_decide; [|done]. intros [= <-]. eauto. Qed.

(** Re-creating a chain without rules under its name. *)
Lemma teq_recreate_chain t n c c' :
  Chains t !! n = Some c -> chain_eq Q c' c ->
  teq Q (set_Chains (add_DeleteCommand (set_Chains t (delete n (Chains t))) (DeleteChain n))
           (<[n := c']> (delete n (Chains t)))) t.
Proof.
  intros Hc He. split; try reflexivity. cbn [Chains set_Chains]. by eapply insert_delete_refl; [apply _|..].
Qed.

Lemma undo_BaseChain_delete o t :
  wf t -> faithful (mkCommand (OBaseChain o) true) t -> undoes (deleteChain (bc_Name o)) (BaseChain_create o) t.
Proof.
  intros W (Hty & Hhk & F) t' (c & Hc & Hg & ->)%deleteChain_applied.
  destruct (F _ Hc) as (?&?&?&?). destruct (wf_chains _ W _ _ Hc).
  unfold BaseChain_create. cbn [Chains add_DeleteCommand set_Chains].
  rewrite decide_False by (rewrite lookup_delete_eq; by intros []).
  rewrite !(proj2 (String.eqb_neq _ _)) by done. cbn [orb]. split; [done|].
  eapply teq_recreate_chain; [done|]. split; cbn; try done. rewrite Hg. reflexivity.
Qed.

Lemma undo_Chain_delete n t :
  wf t -> faithful (mkCommand (OChain n) true) t -> undoes (deleteChain n) (Chain_create n) t.
Proof.
  intros W F t' (c & Hc & Hg & ->)%deleteChain_applied.
  destruct (F _ Hc) as (?&?&?&?). destruct (wf_chains _ W _ _ Hc).
  unfold Chain_create. cbn [Chains add_DeleteCommand set_Chains].
  rewrite decide_False by (rewrite lookup_delete_eq; by intros []).
  rewrite !(proj2 (String.eqb_neq _ _)) by done. split; [done|].
  eapply teq_recreate_chain; [done|]. split; cbn; try done. rewrite Hg. reflexivity.
Qed.

(** *** Rules *)

Lemma filter_ne_notin (x : string) (l : list string) : x ∉ l -> filter (fun r => r <> x) l = l.
Proof.
  induction l as [|y l IH]; [done|]. intros H. apply not_elem_of_cons in H as [Hne Hl].
  rewrite filter_cons_True by done. by rewrite IH.
Qed.

Lemma filter_ne_in (x : string) (l : list string) : NoDup l -> x ∈ l -> (filter (fun r => r <> x) l ++ [x])%list ≡ₚ l.
Proof.
  intros Hnd (l1 & l2 & ->)%list_elem_of_split.
  apply list.NoDup_app in Hnd as (_ & Hd & Hnd). apply list.NoDup_cons in Hnd as [Hx _].
  rewrite list.filter_app, filter_cons_False by naive_solver.
  rewrite (filter_ne_notin x l2) by done. rewrite (filter_ne_notin x l1).
  - by rewrite <- app_assoc, (Permutation_app_comm l2).
  - intros Hi. apply (Hd _ Hi). by left.
Qed.

Lemma teq_chain_replace t n c c' :
  Chains t !! n = Some c -> chain_eq Q c' c -> teq Q (set_Chains t (<[n := c']> (Chains t))) t.
Proof.
  intros Hc He. apply teq_Chains. by eapply map_Forall2_insert_l; [reflexivity|..].
Qed.

Lemma chain_eq_rules c (g : gmap Z (list string)) : map_Forall2 (fun _ => Q) g (ruleGroups c) -> chain_eq Q (set_rules c g) c.
Proof. intros. by split. Qed.

(** The chain of a rule after its groups changed twice. *)
Lemma set_Chains_twice t n c g m :
  teq Q (set_Chains t (<[n := set_rules c g]> (Chains t))) t ->
  teq Q (set_Chains (set_Chains t (<[n := m]> (Chains t))) (<[n := set_rules c g]> (<[n := m]> (Chains t)))) t.
Proof. intros [???]. by split; cbn [Chains set_Chains] in *; rewrite ?insert_insert_eq. Qed.

Lemma undo_Rule_create ru t :
  wf t -> ruleText ru <> "" -> undoes (Rule_create ru) (Rule_delete ru) t.
Proof.
  intros W Hne t'. unfold Rule_create. destruct (Chains t !! ru_Chain ru) as [c|] eqn:Hc; [|done].
  destruct (ru_Rule ru) as [|]; [done|]. cbv zeta. case_decide as Hin; [by case_match|]. intros [= <-].
  unfold Rule_delete. cbn [Chains set_Chains]. rewrite lookup_insert_eq.
  rewrite (proj2 (String.eqb_neq _ _)) by done. cbn [ruleGroups set_rules]. rewrite lookup_insert_eq.
  cbv zeta. rewrite list.filter_app, filter_ne_notin, filter_cons_False, filter_nil, app_nil_r by naive_solver.
  rewrite (proj2 (Nat.eqb_neq _ _)) by (rewrite length_app; simpl; lia). split; [done|].
  change (set_rules (set_rules c ?x)) with (set_rules c). apply set_Chains_twice.
  eapply teq_chain_replace; [done|]. apply chain_eq_rules.
  destruct (ruleGroups c !! ru_Group ru) as [gl|] eqn:Hg; cbn [default from_option] in *.
  - destruct gl as [|x gl]; [by destruct (wfc_groups _ _ (wf_chains _ W _ _ Hc) _ _ Hg)|].
    cbn [id]. rewrite insert_insert_eq, insert_id by done. reflexivity.
  - rewrite delete_insert_id by done. reflexivity.
Qed.
End Undo.

(** A deleted rule comes back as the last one of its group. *)
Lemma undo_Rule_delete ru t : wf t -> undoes Permutation (Rule_delete ru) (Rule_create ru) t.
Proof.
  intros W t'. unfold Rule_delete. destruct (Chains t !! ru_Chain ru) as [c|] eqn:Hc; [|done].
  destruct (String.eqb_spec (ruleText ru) "") as [|Hne]; [done|].
  destruct (ruleGroups c !! ru_Group ru) as [rg|] eqn:Hg; [|by case_match]. cbv zeta.
  destruct (Nat.eqb_spec (length (filter (fun r => r <> ruleText ru) rg)) (length rg)) as [|Hlen]; [by case_match|].
  intros [= <-]. assert (Hin : ruleText ru ∈ rg).
  { destruct (decide (ruleText ru ∈ rg)); [done|]. by rewrite filter_ne_notin in Hlen. }
  destruct (wfc_groups _ _ (wf_chains _ W _ _ Hc) _ _ Hg) as [_ Hnd].
  pose proof (filter_ne_in _ _ Hnd Hin) as Hp.
  set (rg' := filter (fun r => r <> ruleText ru) rg) in *.
  unfold Rule_create. cbn [Chains set_Chains]. rewrite lookup_insert_eq.
  destruct (ru_Rule ru) eqn:Hru; [by unfold ruleText in Hne; rewrite Hru in Hne|]. cbv zeta.
  set (gs := match rg' with [] => _ | _ => _ end).
  assert (Hgs : default [] (gs !! ru_Group ru) = rg').
  { subst gs. destruct rg'; [by rewrite lookup_delete_eq|by rewrite lookup_insert_eq]. }
  cbn [ruleGroups set_rules]. rewrite Hgs, decide_False
    by (subst rg'; rewrite list_elem_of_filter; naive_solver).
  split; [done|]. change (set_rules (set_rules c ?x)) with (set_rules c). apply set_Chains_twice. cbn [fst].
  eapply teq_chain_replace; [apply _|exact Hc|]. apply chain_eq_rules.
  replace (<[ru_Group ru := (rg' ++ [ruleText ru])%list]> gs)
    with (<[ru_Group ru := (rg' ++ [ruleText ru])%list]> (ruleGroups c)).
  - by eapply map_Forall2_insert_l; [reflexivity|..].
  - subst gs. destruct rg'; [by rewrite insert_delete_eq|by rewrite insert_insert_eq].
Qed.

(** *** Verdict maps and sets *)

Section UndoMaps.
Context (Q : relation (list string)) `{!RuleRel Q}.
Implicit Types t : table.

Lemma undo_VMap_create o t : undoes Q (VMap_create o) (VMap_delete o) t.
Proof.
  intros t'. unfold VMap_create. case_match; [done|]. case_decide as Hn; [done|]. case_match; [done|].
  intros [= <-]. unfold VMap_delete. cbn [VMaps set_VMaps vm_Name]. rewrite lookup_insert_eq.
  cbn [vm_Elements vm_Name]. rewrite decide_True by done. split; [done|]. split; cbn [fst]; try reflexivity.
  cbn [VMaps set_VMaps add_DeleteCommand]. apply delete_insert_refl; [apply _|by apply eq_None_not_Some].
Qed.

Lemma undo_VMap_delete o t :
  wf t -> faithful (mkCommand (OVMap o) true) t -> undoes Q (VMap_delete o) (VMap_create o) t.
Proof.
  intros W F t'. unfold VMap_delete. destruct (VMaps t !! vmo_Name o) as [v|] eqn:Hv; [|done].
  case_decide as He; [|done]. intros [= <-]. destruct (F _ Hv) as [Hty Hfl]. destruct (wf_vmaps _ W _ _ Hv) as [Hnm ???].
  unfold VMap_create. cbn [VMaps add_DeleteCommand set_VMaps]. rewrite Hnm.
  rewrite !(proj2 (String.eqb_neq _ _)) by congruence.
  rewrite decide_False by (rewrite lookup_delete_eq; by intros []).
  split; [done|]. split; cbn [fst]; try reflexivity. cbn [VMaps set_VMaps vm_Name].
  eapply insert_delete_refl; [apply _|done|]. by split.
Qed.

Lemma undo_VMapElement_create o t : undoes Q (VMapElement_create o) (VMapElement_delete o) t.
Proof.
  intros t'. unfold VMapElement_create. case_match; [done|].
  destruct (VMaps t !! VmapName o) as [v|] eqn:Hv; [|done]. case_match; [done|]. case_decide as Hn; [done|].
  intros [= <-]. unfold VMapElement_delete. cbn [VMaps set_VMaps]. rewrite lookup_insert_eq.
  cbn [vm_Elements]. rewrite lookup_insert_eq, String.eqb_refl. cbn [negb]. split; [done|].
  split; cbn [fst]; try reflexivity. cbn [VMaps set_VMaps]. rewrite insert_insert_eq.
  eapply map_Forall2_insert_l; [reflexivity|done|]. split; try done. cbn [vm_Elements].
  apply delete_insert_id. by apply eq_None_not_Some.
Qed.

Lemma undo_VMapElement_delete o t : wf t -> undoes Q (VMapElement_delete o) (VMapElement_create o) t.
Proof.
  intros W t'. unfold VMapElement_delete. destruct (VMaps t !! VmapName o) as [v|] eqn:Hv; [|done].
  destruct (vm_Elements v !! Key o) as [x|] eqn:Hx; [|done].
  destruct (String.eqb_spec x (Verdict o)) as [->|]; [|done]. intros [= <-].
  destruct (wf_vmaps _ W _ _ Hv) as [_ ?? He]. destruct (He _ _ Hx).
  unfold VMapElement_create. cbn [VMaps set_VMaps]. rewrite lookup_insert_eq.
  rewrite !(proj2 (String.eqb_neq _ _)) by done. cbn [orb vm_Elements].
  rewrite decide_False by (rewrite lookup_delete_eq; by intros []).
  split; [done|]. split; cbn [fst]; try reflexivity. cbn [VMaps set_VMaps]. rewrite insert_insert_eq.
  eapply map_Forall2_insert_l; [reflexivity|done|]. split; try done. cbn [vm_Elements].
  by rewrite insert_delete_id.
Qed.

Lemma undo_Set_create o t : undoes Q (Set_create o) (Set_delete o) t.
Proof.
  intros t'. unfold Set_create. case_match; [done|]. case_decide as Hn; [done|]. case_match; [done|].
  intros [= <-]. unfold Set_delete. cbn [Sets set_Sets]. rewrite lookup_insert_eq.
  cbn [st_Elements]. rewrite decide_True by done. split; [done|]. split; cbn [fst]; try reflexivity.
  cbn [Sets set_Sets add_DeleteCommand]. apply delete_insert_refl; [apply _|by apply eq_None_not_Some].
Qed.

Lemma undo_Set_delete o t :
  wf t -> faithful (mkCommand (OSet o) true) t -> undoes Q (Set_delete o) (Set_create o) t.
Proof.
  intros W F t'. unfold Set_delete. destruct (Sets t !! so_Name o) as [s|] eqn:Hs; [|done].
  case_decide as He; [|done]. intros [= <-]. destruct (F _ Hs) as [Hty Hfl]. destruct (wf_sets _ W _ _ Hs) as [Hnm ???].
  unfold Set_create. cbn [Sets add_DeleteCommand set_Sets].
  rewrite !(proj2 (String.eqb_neq _ _)) by congruence.
  rewrite decide_False by (rewrite lookup_delete_eq; by intros []).
  split; [done|]. split; cbn [fst]; try reflexivity. cbn [Sets set_Sets].
  eapply insert_delete_refl; [apply _|done|]. by split.
Qed.

Lemma undo_SetElement_create o t : undoes Q (SetElement_create o) (SetElement_delete o) t.
Proof.
  intros t'. unfold SetElement_create. destruct (Sets t !! SetName o) as [s|] eqn:Hs; [|done].
  case_match; [done|]. case_decide as Hn; [done|].
  intros [= <-]. unfold SetElement_delete. cbn [Sets set_Sets]. rewrite lookup_insert_eq.
  cbn [st_Elements]. rewrite decide_True by set_solver. split; [done|].
  split; cbn [fst]; try reflexivity. cbn [Sets set_Sets]. rewrite insert_insert_eq.
  eapply map_Forall2_insert_l; [reflexivity|done|]. split; try done. cbn [st_Elements]. set_solver.
Qed.

Lemma undo_SetElement_delete o t : wf t -> undoes Q (SetElement_delete o) (SetElement_create o) t.
Proof.
  intros W t'. unfold SetElement_delete. destruct (Sets t !! SetName o) as [s|] eqn:Hs; [|done].
  case_decide as Hin; [|done]. intros [= <-]. destruct (wf_sets _ W _ _ Hs) as [_ ?? He].
  unfold SetElement_create. cbn [Sets set_Sets]. rewrite lookup_insert_eq.
  rewrite (proj2 (String.eqb_neq _ _)) by congruence. cbn [st_Elements]. rewrite decide_False by set_solver.
  split; [done|]. split; cbn [fst]; try reflexivity. cbn [Sets set_Sets]. rewrite insert_insert_eq.
  eapply map_Forall2_insert_l; [reflexivity|done|]. split; try done. cbn [st_Elements].
  symmetry. by apply union_difference_singleton_L.
Qed.

End UndoMaps.

(** The commands whose undoing restores the table up to [Q]: all of them for [Permutation],
    all but the deletion of rules for equality. *)
Definition undoable (exact : bool) (c : command) : Prop := exact = true -> is_rule_delete c = false.

Definition ruleRel (exact : bool) : relation (list string) := if exact then eq else Permutation.

#[export] Instance ruleRel_RuleRel exact : RuleRel (ruleRel exact).
Proof. destruct exact; apply _. Qed.

Lemma cmd_undo exact c t :
  wf t -> faithful c t -> undoable exact c ->
  undoes (ruleRel exact) (cmd_apply c) (cmd_rollback c) t.
Proof.
  intros W F U. unfold cmd_apply, cmd_rollback. destruct c as [o []]; cbn [cdelete obj].
  - destruct o as [o|n|o|o|o|o|o].
    + by apply undo_BaseChain_delete; [apply _|..].
    + by apply undo_Chain_delete; [apply _|..].
    + destruct exact; [by discriminate (U eq_refl)|]. by apply undo_Rule_delete.
    + by apply undo_VMap_delete; [apply _|..].
    + by apply undo_VMapElement_delete; [apply _|..].
    + by apply undo_Set_delete; [apply _|..].
    + by apply undo_SetElement_delete; [apply _|..].
  - destruct o as [o|n|o|o|o|o|o].
    + apply undo_BaseChain_create, _.
    + apply undo_Chain_create, _.
    + by apply undo_Rule_create; [apply _|..].
    + apply undo_VMap_create, _.
    + apply undo_VMapElement_create, _.
    + apply undo_Set_create, _.
    + apply undo_SetElement_create, _.
Qed.

(** A command that reports an error, or that nothing was to do, changes nothing. *)
Lemma cmd_apply_unapplied c t t' r : cmd_apply c t = (t', r) -> r <> inr true -> t' = t.
Proof.
  unfold cmd_apply. destruct c as [o []]; destruct o; cbn [cdelete obj obj_create obj_delete];
    unfold BaseChain_create, Chain_create, deleteChain, Rule_create, Rule_delete, VMap_create, VMap_delete,
      VMapElement_create, VMapElement_delete, Set_create, Set_delete, SetElement_create, SetElement_delete;
    cbv zeta; repeat (case_decide || case_match); naive_solver.
Qed.

(** ** The roll-back of a failed [Apply] *)

Section Rollback.
Context (exact : bool).
Abbreviation Q := (ruleRel exact).
Implicit Types t : table.

Lemma cmd_rollback_eq c t1 t2 : teq Q t1 t2 -> res_eq Q (cmd_rollback c t1) (cmd_rollback c t2).
Proof. unfold cmd_rollback. destruct (cdelete c); [apply obj_create_eq|apply obj_delete_eq]; apply _. Qed.

Lemma rollbackAll_cons c rb t : rollbackAll (c :: rb) t = (cmd_rollback c (rollbackAll rb t)).1.
Proof. unfold rollbackAll. cbn [rev]. by rewrite foldl_app. Qed.

(** Rolling back what the loop has applied restores the table, wherever it stopped. *)
Lemma applyCmds_undone tm t rb0 t' rb e :
  wf t -> faithful_cmds tm t -> Forall (undoable exact) tm ->
  applyCmds tm t rb0 = (t', rb, e) ->
  exists rb1, rb = (rb0 ++ rb1)%list /\ wf t' /\ teq Q (rollbackAll rb1 t') t.
Proof.
  revert t rb0. induction tm as [|c tm IH]; intros t rb0 W F U; cbn [applyCmds].
  { intros [= <- <- <-]. exists []. rewrite app_nil_r. split; [done|]. split; [done|reflexivity]. }
  destruct F as [Fc F]. apply Forall_cons_1 in U as [Uc U].
  pose proof (cmd_apply_wf c t W) as W1. destruct (cmd_apply c t) as [t1 r] eqn:Ha. cbn [fst] in W1.
  destruct r as [err|[]].
  - assert (t1 = t) as -> by (by eapply cmd_apply_unapplied). intros [= <- <- <-].
    exists []. rewrite app_nil_r. split; [done|]. split; [done|reflexivity].
  - intros (rb1 & -> & W' & He)%IH; [|done..]. exists (c :: rb1).
    rewrite <- app_assoc. split; [done|]. split; [done|]. rewrite rollbackAll_cons.
    destruct (cmd_rollback_eq c _ _ He) as [_ He1].
    destruct (cmd_undo exact c t W Fc Uc t1 Ha) as [_ He2]. by etrans.
  - assert (t1 = t) as -> by (by eapply cmd_apply_unapplied). by apply IH.
Qed.

Lemma updatesApplied_teq t : teq Q (updatesApplied t) t.
Proof.
  split; try done; cbn [Chains VMaps Sets updatesApplied]; intros n; rewrite lookup_fmap.
  - destruct (Chains t !! n); constructor. split; done || reflexivity.
  - destruct (VMaps t !! n); constructor. by split.
  - destruct (Sets t !! n); constructor. by split.
Qed.

(** A failed [Apply] leaves the kernel as it was and restores the table. *)
Lemma Apply_failed nft en r1 r2 tm t k t' k' e :
  wf t -> faithful_cmds tm t -> Forall (undoable exact) tm ->
  Apply nft en r1 r2 tm t k = (t', k', Some e) -> k' = k /\ wf t' /\ teq Q t' t.
Proof.
  intros W F U. unfold Apply. destruct en; cbn [negb]; [|intros [= <- <- _]; split; [done|]; split; [done|reflexivity]].
  destruct (applyCmds tm t []) as [[t1 rb] err] eqn:Ha.
  destruct (applyCmds_undone _ _ _ _ _ _ W F U Ha) as (rb1 & -> & W1 & He). cbn [app] in *.
  assert (Hrb : forall rb t, wf t -> wf (rollbackAll rb t)).
  { clear. intros rb t W. induction rb as [|c rb IH]; [done|]. rewrite rollbackAll_cons. by apply cmd_rollback_wf. }
  assert (Hend : wf (updatesApplied (rollbackAll rb1 t1)) /\ teq Q (updatesApplied (rollbackAll rb1 t1)) t).
  { split; [by apply wf_updatesApplied, Hrb|]. etrans; [apply updatesApplied_teq|done]. }
  destruct err as [e1|]; [by intros [= <- <- _]|].
  destruct (nftApply nft r1 k _); [done|]. unfold reload. cbn [negb].
  destruct (nftApply nft r2 k _); [done|]. by intros [= <- <- _].
Qed.

(** ** Reversal *)

Lemma applyCmds_app tm1 tm2 t rb :
  applyCmds (tm1 ++ tm2)%list t rb =
  match applyCmds tm1 t rb with
  | (t', rb', None) => applyCmds tm2 t' rb'
  | r => r
  end.
Proof.
  revert t rb. induction tm1 as [|c tm1 IH]; intros t rb; cbn [app applyCmds]; [done|].
  destruct (cmd_apply c t) as [t1 [err|a]]; [done|]. apply IH.
Qed.

Lemma applyCmds_prefix tm t rb t' rb' e :
  applyCmds tm t rb = (t', rb', e) -> exists rb1, rb' = (rb ++ rb1)%list /\ (length rb1 <= length tm)%nat.
Proof.
  revert t rb. induction tm as [|c tm IH]; intros t rb; cbn [applyCmds].
  { intros [= <- <- <-]. exists []. by rewrite app_nil_r. }
  destruct (cmd_apply c t) as [t1 [err|[]]].
  - intros [= <- <- <-]. exists []. rewrite app_nil_r. split; [done|]. simpl. lia.
  - intros (rb1 & -> & Hl)%IH. exists (c :: rb1). rewrite <- app_assoc. split; [done|]. simpl. lia.
  - intros (rb1 & -> & Hl)%IH. exists rb1. split; [done|]. simpl. lia.
Qed.

(** When every command of [tm] was applied, the reversed modifier applies each of its
    commands as well, and restores the table. *)
Lemma applyCmds_Reverse tm t t' rb0 t2 rb2 :
  wf t -> faithful_cmds tm t -> Forall (undoable exact) tm ->
  applyCmds tm t rb0 = (t', (rb0 ++ tm)%list, None) -> teq Q t2 t' ->
  exists t3, applyCmds (Reverse tm) t2 rb2 = (t3, (rb2 ++ Reverse tm)%list, None) /\ teq Q t3 t.
Proof.
  revert t rb0. induction tm as [|c tm IH]; intros t rb0 W F U.
  { cbn [applyCmds]. intros [= <- _] He. exists t2. by rewrite app_nil_r. }
  cbn [applyCmds]. destruct F as [Fc F]. apply Forall_cons_1 in U as [Uc U].
  pose proof (cmd_apply_wf c t W) as W1. destruct (cmd_apply c t) as [t1 r] eqn:Ha. cbn [fst] in W1.
  destruct r as [err|[]]; [done| |].
  - intros Happ He. replace (rb0 ++ c :: tm)%list with ((rb0 ++ [c]) ++ tm)%list in Happ by by rewrite <- app_assoc.
    destruct (IH _ _ W1 F U Happ He) as (t3 & Hr & He3).
    unfold Reverse in *. cbn [map rev]. rewrite applyCmds_app, Hr. cbn [applyCmds].
    set (c' := mkCommand (obj c) (negb (cdelete c))).
    assert (Hc' : forall t, cmd_apply c' t = cmd_rollback c t)
      by (intros; unfold cmd_apply, cmd_rollback; cbn; by destruct (cdelete c)).
    destruct (cmd_rollback_eq c _ _ He3) as [Hres Ht].
    destruct (cmd_undo exact c t W Fc Uc t1 Ha) as [Hok Hback].
    rewrite Hc'. destruct (cmd_rollback c t3) as [t4 r4]. cbn [fst snd] in *.
    exists t4. rewrite Hres, Hok, <- app_assoc. split; [done|]. by etrans.
  - intros (rb1 & Heq & Hl)%applyCmds_prefix _. apply app_inv_head in Heq. subst rb1. simpl in Hl. lia.
Qed.

End Rollback.

(** With nothing pending the equality without reordering is equality. *)
Lemma teq_exact t1 t2 : teq eq t1 t2 -> updatesApplied t1 = updatesApplied t2.
Proof.
  intros [Hn Hf Hc Hv Hs]. unfold updatesApplied. rewrite Hn, Hf. f_equal; apply map_eq; intros n; rewrite !lookup_fmap.
  - destruct (Hv n) as [v1 v2 []|]; [cbn; congruence|done].
  - destruct (Hs n) as [s1 s2 []|]; [cbn; congruence|done].
  - destruct (Hc n) as [c1 c2 [????? Hg]|]; [|done]. cbn.
    enough (ruleGroups c1 = ruleGroups c2) by congruence.
    apply map_eq. intros g. by destruct (Hg g) as [l1 l2 ->|].
Qed.
