(* ===== verification/NFTablesKernel.v ===== *)
(** * Tables of the packet filter: the kernel's copy

    What is assumed of [nft] ([NftSpec]), the effect of the two command files object by
    object, the relation between the table at the start of [Apply] and the table with its
    pending updates ([Pend]), and the relation between a table and the kernel ([Sync]). *)

From Stdlib Require Import String.
From stdpp Require Import gmap strings sorting.
From S2P Require Import Prelude SortedMaps NFTables NFTablesSpec.

Local Open Scope string_scope.

(** ** nft *)

(** The effect of a command that succeeds, from the manual of nft: [add] of an object that
    exists keeps it (elements and rules are added to it, the policy of a base chain is
    updated); [flush] removes rules or elements; [delete] removes the object or elements. *)
Definition nftEffect (k : kTable) (c : nftCmd) : kTable :=
  match c with
  | AddTable => k
  | DeleteTable => emptyKernel
  | FlushTable => mkKTable (k_maps k) (k_sets k) ((fun c => mkKChain (kc_base c) []) <$> k_chains k)
  | AddMap n ty fl es =>
      mkKTable (partial_alter (fun o => Some match o with
        | Some m => mkKMap (km_type m) (km_flags m) (es ∪ km_elems m)
        | None => mkKMap ty fl es end) n (k_maps k)) (k_sets k) (k_chains k)
  | AddSet n ty fl es =>
      mkKTable (k_maps k) (partial_alter (fun o => Some match o with
        | Some s => mkKSet (ks_type s) (ks_flags s) (es ∪ ks_elems s)
        | None => mkKSet ty fl es end) n (k_sets k)) (k_chains k)
  | AddChain n b rs =>
      mkKTable (k_maps k) (k_sets k) (partial_alter (fun o => Some match o with
        | Some c => mkKChain (match b with Some b => Some b | None => kc_base c end) (kc_rules c ++ rs)%list
        | None => mkKChain b rs end) n (k_chains k))
  | FlushMap n => mkKTable (alter (fun m => mkKMap (km_type m) (km_flags m) ∅) n (k_maps k)) (k_sets k) (k_chains k)
  | FlushSet n => mkKTable (k_maps k) (alter (fun s => mkKSet (ks_type s) (ks_flags s) ∅) n (k_sets k)) (k_chains k)
  | FlushChain n => mkKTable (k_maps k) (k_sets k) (alter (fun c => mkKChain (kc_base c) []) n (k_chains k))
  | DeleteMapElems n ks =>
      mkKTable (alter (fun m => mkKMap (km_type m) (km_flags m) (filter (fun kv => kv.1 ∉ ks) (km_elems m))) n (k_maps k))
        (k_sets k) (k_chains k)
  | DeleteSetElems n ks =>
      mkKTable (k_maps k) (alter (fun s => mkKSet (ks_type s) (ks_flags s) (ks_elems s ∖ list_to_set ks)) n (k_sets k))
        (k_chains k)
  | AddMapElems n kvs =>
      mkKTable (alter (fun m => mkKMap (km_type m) (km_flags m) (list_to_map kvs ∪ km_elems m)) n (k_maps k))
        (k_sets k) (k_chains k)
  | AddSetElems n ks =>
      mkKTable (k_maps k) (alter (fun s => mkKSet (ks_type s) (ks_flags s) (list_to_set ks ∪ ks_elems s)) n (k_sets k))
        (k_chains k)
  | DeleteMap n => mkKTable (delete n (k_maps k)) (k_sets k) (k_chains k)
  | DeleteSet n => mkKTable (k_maps k) (delete n (k_sets k)) (k_chains k)
  | DeleteChain n => mkKTable (k_maps k) (k_sets k) (delete n (k_chains k))
  end.

(** What the code relies on: a command that succeeds has its documented effect; a map or a
    set cannot be declared again with another type or other flags, and elements cannot be
    added to one that does not exist.  Which other commands fail (wrong rules, objects in
    use, missing objects) is left open. *)
Class NftSpec (nft : kTable -> nftCmd -> option kTable) : Prop := {
  nft_effect k c k' : nft k c = Some k' -> k' = nftEffect k c;
  nft_map_type k n ty fl es m : is_Some (nft k (AddMap n ty fl es)) -> k_maps k !! n = Some m ->
    km_type m = ty /\ km_flags m = fl;
  nft_set_type k n ty fl es s : is_Some (nft k (AddSet n ty fl es)) -> k_sets k !! n = Some s ->
    ks_type s = ty /\ ks_flags s = fl;
  nft_map_exists k n kvs : is_Some (nft k (AddMapElems n kvs)) -> is_Some (k_maps k !! n);
  nft_set_exists k n es : is_Some (nft k (AddSetElems n es)) -> is_Some (k_sets k !! n) }.

(** ** The effect of a file on one object *)

Definition chainEffect (n : string) (o : option kChain) (c : nftCmd) : option kChain :=
  match c with
  | DeleteTable => None
  | FlushTable => (fun c => mkKChain (kc_base c) []) <$> o
  | AddChain n' b rs => if String.eqb n' n then Some match o with
      | Some c => mkKChain (match b with Some b => Some b | None => kc_base c end) (kc_rules c ++ rs)%list
      | None => mkKChain b rs end else o
  | FlushChain n' => if String.eqb n' n then (fun c => mkKChain (kc_base c) []) <$> o else o
  | DeleteChain n' => if String.eqb n' n then None else o
  | _ => o
  end.

Definition mapEffect (n : string) (o : option kMap) (c : nftCmd) : option kMap :=
  match c with
  | DeleteTable => None
  | AddMap n' ty fl es => if String.eqb n' n then Some match o with
      | Some m => mkKMap (km_type m) (km_flags m) (es ∪ km_elems m)
      | None => mkKMap ty fl es end else o
  | FlushMap n' => if String.eqb n' n then (fun m => mkKMap (km_type m) (km_flags m) ∅) <$> o else o
  | DeleteMapElems n' ks => if String.eqb n' n then
      (fun m => mkKMap (km_type m) (km_flags m) (filter (fun kv => kv.1 ∉ ks) (km_elems m))) <$> o else o
  | AddMapElems n' kvs => if String.eqb n' n then
      (fun m => mkKMap (km_type m) (km_flags m) (list_to_map kvs ∪ km_elems m)) <$> o else o
  | DeleteMap n' => if String.eqb n' n then None else o
  | _ => o
  end.

Definition setEffect (n : string) (o : option kSet) (c : nftCmd) : option kSet :=
  match c with
  | DeleteTable => None
  | AddSet n' ty fl es => if String.eqb n' n then Some match o with
      | Some s => mkKSet (ks_type s) (ks_flags s) (es ∪ ks_elems s)
      | None => mkKSet ty fl es end else o
  | FlushSet n' => if String.eqb n' n then (fun s => mkKSet (ks_type s) (ks_flags s) ∅) <$> o else o
  | DeleteSetElems n' ks => if String.eqb n' n then
      (fun s => mkKSet (ks_type s) (ks_flags s) (ks_elems s ∖ list_to_set ks)) <$> o else o
  | AddSetElems n' ks => if String.eqb n' n then
      (fun s => mkKSet (ks_type s) (ks_flags s) (list_to_set ks ∪ ks_elems s)) <$> o else o
  | DeleteSet n' => if String.eqb n' n then None else o
  | _ => o
  end.

Lemma chainEffect_ok n k c : k_chains (nftEffect k c) !! n = chainEffect n (k_chains k !! n) c.
Proof.
  destruct c; cbn [nftEffect chainEffect k_chains emptyKernel]; rewrite ?lookup_empty, ?lookup_fmap; try done;
    destruct (String.eqb_spec n0 n) as [->|Hne]; rewrite ?lookup_partial_alter, ?lookup_alter, ?lookup_delete,
      ?decide_True, ?decide_False by done; try done; by rewrite lookup_alter_eq || by rewrite lookup_alter_ne.
Qed.

Lemma mapEffect_ok n k c : k_maps (nftEffect k c) !! n = mapEffect n (k_maps k !! n) c.
Proof.
  destruct c; cbn [nftEffect mapEffect k_maps emptyKernel]; rewrite ?lookup_empty, ?lookup_fmap; try done;
    destruct (String.eqb_spec n0 n) as [->|Hne]; rewrite ?lookup_partial_alter, ?lookup_alter, ?lookup_delete,
      ?decide_True, ?decide_False by done; try done; by rewrite lookup_alter_eq || by rewrite lookup_alter_ne.
Qed.

Lemma setEffect_ok n k c : k_sets (nftEffect k c) !! n = setEffect n (k_sets k !! n) c.
Proof.
  destruct c; cbn [nftEffect setEffect k_sets emptyKernel]; rewrite ?lookup_empty, ?lookup_fmap; try done;
    destruct (String.eqb_spec n0 n) as [->|Hne]; rewrite ?lookup_partial_alter, ?lookup_alter, ?lookup_delete,
      ?decide_True, ?decide_False by done; try done; by rewrite lookup_alter_eq || by rewrite lookup_alter_ne.
Qed.

(** Commands on a map or a set that the assumptions rule out. *)
Definition mapBad (n : string) (o : option kMap) (c : nftCmd) : bool :=
  match c, o with
  | AddMap n' ty fl _, Some m => String.eqb n' n && negb (bool_decide (km_type m = ty /\ km_flags m = fl))
  | AddMapElems n' _, None => String.eqb n' n
  | _, _ => false
  end.
Definition setBad (n : string) (o : option kSet) (c : nftCmd) : bool :=
  match c, o with
  | AddSet n' ty fl _, Some s => String.eqb n' n && negb (bool_decide (ks_type s = ty /\ ks_flags s = fl))
  | AddSetElems n' _, None => String.eqb n' n
  | _, _ => false
  end.

Definition chainStep n (o : option kChain) c : option (option kChain) := Some (chainEffect n o c).
Definition mapStep n (o : option kMap) c : option (option kMap) :=
  if mapBad n o c then None else Some (mapEffect n o c).
Definition setStep n (o : option kSet) c : option (option kSet) :=
  if setBad n o c then None else Some (setEffect n o c).

Section Steps.
Context {St : Type} (E : St -> nftCmd -> option St).

Fixpoint steps (o : St) (s : list nftCmd) : option St :=
  match s with
  | [] => Some o
  | c :: s => match E o c with Some o => steps o s | None => None end
  end.

Lemma steps_app o s1 s2 :
  steps o (s1 ++ s2)%list = match steps o s1 with Some o => steps o s2 | None => None end.
Proof. revert o. induction s1 as [|c s1 IH]; intros o; cbn; [done|]. by destruct (E o c). Qed.

(** Commands that do not concern the object. *)
Lemma steps_skip o s : (forall c, c ∈ s -> forall o, E o c = Some o) -> steps o s = Some o.
Proof.
  revert o. induction s as [|c s IH]; intros o H; cbn; [done|].
  rewrite (H c) by apply list_elem_of_here. apply IH. intros c' Hc'. apply H. by right.
Qed.

(** A section of the file with the commands [f x] for each object [x] of a map: only those
    for the object of the name [n] count. *)
Lemma steps_entries {A} (f : A -> list nftCmd) (l : list (string * A)) n o :
  NoDup l.*1 ->
  (forall j x, (j, x) ∈ l -> j <> n -> forall c, c ∈ f x -> forall o, E o c = Some o) ->
  steps o (mjoin (map f l.*2)) =
  match (list_to_map l : gmap string A) !! n with Some x => steps o (f x) | None => Some o end.
Proof.
  revert o. induction l as [|[j x] l IH]; intros o Hnd Hskip; [done|].
  apply list.NoDup_cons in Hnd as [Hj Hnd]. cbn [fmap list_fmap fst snd map mjoin list_join list_to_map foldr] in *.
  rewrite steps_app. destruct (decide (j = n)) as [->|Hne].
  - rewrite lookup_insert_eq. destruct (steps o (f x)) as [o'|]; [|done].
    apply steps_skip. intros c Hc. apply list_elem_of_join in Hc as (cs & Hc & Hin).
    apply list_elem_of_fmap in Hin as (y & -> & Hy). apply list_elem_of_fmap in Hy as ([j y'] & -> & Hy).
    eapply (Hskip j y'); [by right| |done].
    intros ->. apply Hj. apply list_elem_of_fmap. by exists (n, y').
  - rewrite lookup_insert_ne by done. rewrite steps_skip.
    + apply IH; [done|]. intros i y Hy. apply Hskip. by right.
    + intros c Hc. eapply (Hskip j x); [by left|done|done].
Qed.

Lemma steps_section {A} (f : A -> list nftCmd) (m : gmap string A) n o :
  (forall j x, m !! j = Some x -> j <> n -> forall c, c ∈ f x -> forall o, E o c = Some o) ->
  steps o (mjoin (map f (sortedMap m).*2)) =
  match m !! n with Some x => steps o (f x) | None => Some o end.
Proof.
  intros Hskip. unfold sortedMap.
  assert (Hp : merge_sort key_le (map_to_list m) ≡ₚ map_to_list m) by apply merge_sort_Permutation.
  rewrite (steps_entries f _ n).
  - by rewrite <- (list_to_map_proper _ _ _ Hp), list_to_map_to_list
      || (erewrite list_to_map_proper; [|..|exact Hp]; [by rewrite list_to_map_to_list|]; rewrite Hp; apply NoDup_fst_map_to_list).
  - rewrite Hp. apply NoDup_fst_map_to_list.
  - intros j x Hx. rewrite Hp in Hx. apply elem_of_map_to_list in Hx. by apply Hskip.
Qed.

Lemma steps_section_skip {A} (f : A -> list nftCmd) (m : gmap string A) o :
  (forall x, forall c, c ∈ f x -> forall o, E o c = Some o) ->
  steps o (mjoin (map f (sortedMap m).*2)) = Some o.
Proof.
  intros Hskip. apply steps_skip. intros c Hc. apply list_elem_of_join in Hc as (cs & Hc & Hin).
  apply list_elem_of_fmap in Hin as (y & -> & _). by eapply Hskip.
Qed.

Lemma steps_skip_app {A} (f : A -> list nftCmd) (m : gmap string A) o s :
  (forall x, forall c, c ∈ f x -> forall o, E o c = Some o) ->
  steps o (mjoin (map f (sortedMap m).*2) ++ s)%list = steps o s.
Proof. intros H. by rewrite steps_app, steps_section_skip. Qed.

Lemma steps_cong o s s1 s2 :
  (forall o, steps o s1 = steps o s2) -> steps o (s ++ s1)%list = steps o (s ++ s2)%list.
Proof. intros H. rewrite !steps_app. by destruct (steps o s). Qed.

Lemma steps_first o s1 s2 o' : steps o s1 = Some o' -> steps o (s1 ++ s2)%list = steps o' s2.
Proof. intros H. by rewrite steps_app, H. Qed.
End Steps.

Section Run.
Context (nft : kTable -> nftCmd -> option kTable) `{!NftSpec nft}.

Lemma runFile_chains n s k k' :
  runFile nft k s = Some k' -> steps (chainStep n) (k_chains k !! n) s = Some (k_chains k' !! n).
Proof.
  revert k. induction s as [|c s IH]; intros k; cbn [runFile steps]; [by intros [= ->]|].
  destruct (nft k c) as [k1|] eqn:E; [|done]. intros H. cbn [chainStep].
  rewrite <- chainEffect_ok, <- (nft_effect _ _ _ E). by apply IH.
Qed.

Lemma runFile_maps n s k k' :
  runFile nft k s = Some k' -> steps (mapStep n) (k_maps k !! n) s = Some (k_maps k' !! n).
Proof.
  revert k. induction s as [|c s IH]; intros k; cbn [runFile steps]; [by intros [= ->]|].
  destruct (nft k c) as [k1|] eqn:E; [|done]. intros H. unfold mapStep at 1.
  assert (mapBad n (k_maps k !! n) c = false) as ->.
  { destruct c, (k_maps k !! n) eqn:Hn; cbn [mapBad]; try done; destruct (String.eqb_spec n0 n) as [->|]; try done.
    - rewrite bool_decide_eq_true_2; [done|]. by eapply nft_map_type.
    - destruct (nft_map_exists k n kvs) as [x Hx]; [by rewrite E|]. by rewrite Hn in Hx. }
  rewrite <- mapEffect_ok, <- (nft_effect _ _ _ E). by apply IH.
Qed.

Lemma runFile_sets n s k k' :
  runFile nft k s = Some k' -> steps (setStep n) (k_sets k !! n) s = Some (k_sets k' !! n).
Proof.
  revert k. induction s as [|c s IH]; intros k; cbn [runFile steps]; [by intros [= ->]|].
  destruct (nft k c) as [k1|] eqn:E; [|done]. intros H. unfold setStep at 1.
  assert (setBad n (k_sets k !! n) c = false) as ->.
  { destruct c, (k_sets k !! n) eqn:Hn; cbn [setBad]; try done; destruct (String.eqb_spec n0 n) as [->|]; try done.
    - rewrite bool_decide_eq_true_2; [done|]. by eapply nft_set_type.
    - destruct (nft_set_exists k n ks) as [x Hx]; [by rewrite E|]. by rewrite Hn in Hx. }
  rewrite <- setEffect_ok, <- (nft_effect _ _ _ E). by apply IH.
Qed.
End Run.

(** ** What the kernel should have *)

Definition chainView (c : chain) : kChain := mkKChain (baseOf c) (Rules c).
Definition vmapView (v : vMap) : kMap := mkKMap (vm_ElementType v) (vm_Flags v) (vm_Elements v).
Definition setView (s : set) : kSet := mkKSet (st_ElementType s) (st_Flags s) (st_Elements s).

Definition view (t : table) : kTable :=
  mkKTable (vmapView <$> VMaps t) (setView <$> Sets t) (chainView <$> Chains t).

(** Goals that a section has nothing to do with the object at hand. *)
Ltac skip_section :=
  let c := fresh "c" in
  intros; match goal with
  | H : ?c ∈ when ?b _ |- _ => destruct b; cbn [when] in H
  | H : ?c ∈ unless_empty ?l _ |- _ => destruct l; cbn [unless_empty] in H
  | _ => idtac
  end;
  repeat match goal with
  | H : _ ∈ [] |- _ => by apply elem_of_nil in H
  | H : _ ∈ [_] |- _ => apply list_elem_of_singleton in H as ->
  | H : _ ∈ _ :: _ |- _ => apply elem_of_cons in H as [->|H]
  end; try done.

(** A command for another name. *)
Lemma name_ne (n n' : string) : n' <> n -> String.eqb n' n = false.
Proof. apply String.eqb_neq. Qed.

Section Sections.
Context (t : table) (n : string) (W : wf t).

(** The sections of a file as the steps of one object: those of other kinds do nothing, the
    others depend on the object of the name [n]. *)
Lemma map_section f o :
  (forall v c, c ∈ f v -> forall o, vm_Name v <> n -> mapStep n o c = Some o) ->
  steps (mapStep n) o (mjoin (map f (sortedMap (VMaps t)).*2)) =
  match VMaps t !! n with Some v => steps (mapStep n) o (f v) | None => Some o end.
Proof.
  intros Hf. apply steps_section. intros j v Hj Hne c Hc o'. eapply Hf; [done|].
  by rewrite (wfv_name _ _ (wf_vmaps _ W _ _ Hj)).
Qed.

Lemma set_section f o :
  (forall s c, c ∈ f s -> forall o, st_Name s <> n -> setStep n o c = Some o) ->
  steps (setStep n) o (mjoin (map f (sortedMap (Sets t)).*2)) =
  match Sets t !! n with Some s => steps (setStep n) o (f s) | None => Some o end.
Proof.
  intros Hf. apply steps_section. intros j v Hj Hne c Hc o'. eapply Hf; [done|].
  by rewrite (wfs_name _ _ (wf_sets _ W _ _ Hj)).
Qed.

Lemma chain_section f o :
  (forall x c, c ∈ f x -> forall o, ch_Name x <> n -> chainStep n o c = Some o) ->
  steps (chainStep n) o (mjoin (map f (sortedMap (Chains t)).*2)) =
  match Chains t !! n with Some x => steps (chainStep n) o (f x) | None => Some o end.
Proof.
  intros Hf. apply steps_section. intros j v Hj Hne c Hc o'. eapply Hf; [done|].
  by rewrite (wfc_name _ _ (wf_chains _ W _ _ Hj)).
Qed.
End Sections.

(** The commands of a section for an object with another name do nothing. *)
Ltac other_name :=
  skip_section; unfold mapStep, setStep, chainStep;
  cbn [mapBad mapEffect setBad setEffect chainEffect]; rewrite name_ne by done;
  match goal with o : option _ |- _ => by destruct o end.

Lemma reload_maps t n o :
  wf t -> steps (mapStep n) o (reloadTempl t) = Some (vmapView <$> VMaps t !! n).
Proof.
  intros W. unfold reloadTempl. rewrite (steps_first _ _ _ _ None) by done.
  rewrite steps_app, map_section by (done || other_name).
  destruct (VMaps t !! n) as [v|] eqn:Hv; [|by rewrite steps_skip_app, steps_section_skip by skip_section].
  cbn [steps]. unfold mapStep at 1. cbn [mapBad mapEffect].
  by rewrite (wfv_name _ _ (wf_vmaps _ W _ _ Hv)), String.eqb_refl, steps_skip_app, steps_section_skip by skip_section.
Qed.

Lemma reload_sets t n o :
  wf t -> steps (setStep n) o (reloadTempl t) = Some (setView <$> Sets t !! n).
Proof.
  intros W. unfold reloadTempl. rewrite (steps_first _ _ _ _ None) by done.
  rewrite steps_skip_app by skip_section. rewrite steps_app, set_section by (done || other_name).
  destruct (Sets t !! n) as [v|] eqn:Hv; [|by rewrite steps_section_skip by skip_section].
  cbn [steps]. unfold setStep at 1. cbn [setBad setEffect].
  by rewrite (wfs_name _ _ (wf_sets _ W _ _ Hv)), String.eqb_refl, steps_section_skip by skip_section.
Qed.

Lemma reload_chains t n o :
  wf t -> steps (chainStep n) o (reloadTempl t) = Some (chainView <$> Chains t !! n).
Proof.
  intros W. unfold reloadTempl. rewrite (steps_first _ _ _ _ None) by done.
  rewrite !steps_skip_app by skip_section. rewrite chain_section by (done || other_name).
  destruct (Chains t !! n) as [v|] eqn:Hv; [|done].
  cbn [steps]. unfold chainStep. cbn [chainEffect].
  by rewrite (wfc_name _ _ (wf_chains _ W _ _ Hv)), String.eqb_refl.
Qed.

(** After the reload file the kernel has exactly the contents of the table. *)
Lemma reload_view nft `{!NftSpec nft} t k k' :
  wf t -> runFile nft k (reloadTempl t) = Some k' -> k' = view t.
Proof.
  intros W H. destruct k' as [km ks kc]. unfold view. f_equal; apply map_eq; intros n; rewrite lookup_fmap.
  - pose proof (runFile_maps nft n _ _ _ H) as Hn. rewrite reload_maps in Hn by done. by injection Hn as ->.
  - pose proof (runFile_sets nft n _ _ _ H) as Hn. rewrite reload_sets in Hn by done. by injection Hn as ->.
  - pose proof (runFile_chains nft n _ _ _ H) as Hn. rewrite reload_chains in Hn by done. by injection Hn as ->.
Qed.

(** ** The incremental update, object by object *)

#[export] Instance baseSpec_eq_dec : EqDecision baseSpec.
Proof. solve_decision. Defined.
#[export] Instance nftCmd_eq_dec : EqDecision nftCmd.
Proof. solve_decision. Defined.

Definition is_delete (c : nftCmd) : Prop :=
  match c with DeleteMap _ | DeleteSet _ | DeleteChain _ => True | _ => False end.

Section Deletes.
Context (n : string) (D : list nftCmd) (HD : Forall is_delete D).

Lemma deletes_chains o :
  steps (chainStep n) o D = Some (if decide (DeleteChain n ∈ D) then None else o).
Proof.
  revert o. induction HD as [|c D' Hc HD' IH]; intros o; [done|]. cbn [steps]. unfold chainStep at 1. rewrite IH by done.
  f_equal. destruct (decide (DeleteChain n ∈ D')) as [Hin|Hin].
  - by rewrite decide_True by (by right).
  - destruct c; try (by destruct Hc); cbn [chainEffect]; [(rewrite decide_False; [done|set_solver])..|].
    destruct (String.eqb_spec n0 n) as [->|Hne].
    + by rewrite decide_True by (by left).
    + rewrite decide_False; [done|]. intros [[= ->]|]%elem_of_cons; done.
Qed.

Lemma deletes_maps o :
  steps (mapStep n) o D = Some (if decide (DeleteMap n ∈ D) then None else o).
Proof.
  revert o. induction HD as [|c D' Hc HD' IH]; intros o; [done|]. cbn [steps]. unfold mapStep at 1.
  assert (mapBad n o c = false) as -> by (destruct c; by destruct Hc). rewrite IH by done.
  f_equal. destruct (decide (DeleteMap n ∈ D')) as [Hin|Hin].
  - by rewrite decide_True by (by right).
  - destruct c; try (by destruct Hc); cbn [mapEffect]; [|(rewrite decide_False; [done|set_solver])..].
    destruct (String.eqb_spec n0 n) as [->|Hne].
    + by rewrite decide_True by (by left).
    + rewrite decide_False; [done|]. intros [[= ->]|]%elem_of_cons; done.
Qed.

Lemma deletes_sets o :
  steps (setStep n) o D = Some (if decide (DeleteSet n ∈ D) then None else o).
Proof.
  revert o. induction HD as [|c D' Hc HD' IH]; intros o; [done|]. cbn [steps]. unfold setStep at 1.
  assert (setBad n o c = false) as -> by (destruct c; by destruct Hc). rewrite IH by done.
  f_equal. destruct (decide (DeleteSet n ∈ D')) as [Hin|Hin].
  - by rewrite decide_True by (by right).
  - destruct c; try (by destruct Hc); cbn [setEffect]; [rewrite decide_False; [done|set_solver]| |rewrite decide_False; [done|set_solver]].
    destruct (String.eqb_spec n0 n) as [->|Hne].
    + by rewrite decide_True by (by left).
    + rewrite decide_False; [done|]. intros [[= ->]|]%elem_of_cons; done.
Qed.
End Deletes.

(** The commands of the file that concern the chain, the map or the set of a name. *)
Definition chainFile (t : table) (n : string) : list nftCmd :=
  match Chains t !! n with
  | Some c => if ch_MustFlush c then
      ([AddChain n (baseOf c) []] ++ when (MustFlush t) [FlushTable] ++ [FlushChain n]
       ++ DeleteCommands t ++ [AddChain n (baseOf c) (Rules c)])%list
      else (when (MustFlush t) [FlushTable] ++ DeleteCommands t)%list
  | None => (when (MustFlush t) [FlushTable] ++ DeleteCommands t)%list
  end.

Definition mapFile (t : table) (n : string) : list nftCmd :=
  match VMaps t !! n with
  | Some v =>
      ([AddMap n (vm_ElementType v) (vm_Flags v) ∅] ++ when (vm_MustFlush v) [FlushMap n]
       ++ unless_empty (keys_of (vm_DeletedElements v)) (fun ks => [DeleteMapElems n ks])
       ++ DeleteCommands t
       ++ unless_empty (sortedMap (vm_AddedElements v)) (fun kvs => [AddMapElems n kvs]))%list
  | None => DeleteCommands t
  end.

Definition setFile (t : table) (n : string) : list nftCmd :=
  match Sets t !! n with
  | Some s =>
      ([AddSet n (st_ElementType s) (st_Flags s) ∅] ++ when (st_MustFlush s) [FlushSet n]
       ++ unless_empty (sortedSet (st_DeletedElements s)) (fun ks => [DeleteSetElems n ks])
       ++ DeleteCommands t
       ++ unless_empty (sortedSet (st_AddedElements s)) (fun ks => [AddSetElems n ks]))%list
  | None => DeleteCommands t
  end.

(** Sections in front of the rest of the file. *)
Section SectionsApp.
Context (t : table) (n : string) (W : wf t).

Lemma map_section_app f o s :
  (forall v c, c ∈ f v -> forall o, vm_Name v <> n -> mapStep n o c = Some o) ->
  steps (mapStep n) o (mjoin (map f (sortedMap (VMaps t)).*2) ++ s)%list =
  steps (mapStep n) o (match VMaps t !! n with Some v => f v | None => [] end ++ s)%list.
Proof. intros Hf. rewrite !steps_app, map_section by done. by destruct (VMaps t !! n). Qed.

Lemma set_section_app f o s :
  (forall v c, c ∈ f v -> forall o, st_Name v <> n -> setStep n o c = Some o) ->
  steps (setStep n) o (mjoin (map f (sortedMap (Sets t)).*2) ++ s)%list =
  steps (setStep n) o (match Sets t !! n with Some v => f v | None => [] end ++ s)%list.
Proof. intros Hf. rewrite !steps_app, set_section by done. by destruct (Sets t !! n). Qed.

Lemma chain_section_app f o s :
  (forall v c, c ∈ f v -> forall o, ch_Name v <> n -> chainStep n o c = Some o) ->
  steps (chainStep n) o (mjoin (map f (sortedMap (Chains t)).*2) ++ s)%list =
  steps (chainStep n) o (match Chains t !! n with Some v => f v | None => [] end ++ s)%list.
Proof. intros Hf. rewrite !steps_app, chain_section by done. by destruct (Chains t !! n). Qed.
End SectionsApp.

Lemma steps_end {St} (E : St -> nftCmd -> option St) o s1 s2 :
  (forall o, steps E o s2 = Some o) -> steps E o (s1 ++ s2)%list = steps E o s1.
Proof. intros H. rewrite steps_app. by destruct (steps E o s1). Qed.

(** Follow a file section by section; [simp] simplifies a section of the object itself. *)
Ltac project sec simp :=
  repeat first
    [ rewrite steps_skip_app by skip_section
    | rewrite sec by (done || other_name); simp tt; rewrite ?app_nil_l
    | match goal with |- steps _ _ (?p ++ _)%list = steps _ _ ?p => apply steps_end; intros ? end
    | apply steps_cong; intros ?
    | rewrite steps_section_skip by skip_section ];
  try done.

Lemma incr_chainFile t n o :
  wf t -> steps (chainStep n) o (incrementalUpdateTempl t) = steps (chainStep n) o (chainFile t n).
Proof.
  intros W. unfold incrementalUpdateTempl, chainFile. rewrite (steps_first _ _ [AddTable] _ o) by done.
  destruct (Chains t !! n) as [c|] eqn:Hc.
  - pose proof (wfc_name _ _ (wf_chains _ W _ _ Hc)) as Hn. destruct (ch_MustFlush c) eqn:Hm.
    + project chain_section_app ltac:(fun _ => rewrite Hc, Hm, Hn; cbn [when]).
    + project chain_section_app ltac:(fun _ => rewrite Hc, Hm; cbn [when]).
  - project chain_section_app ltac:(fun _ => rewrite Hc).
Qed.

Lemma incr_mapFile t n o :
  wf t -> steps (mapStep n) o (incrementalUpdateTempl t) = steps (mapStep n) o (mapFile t n).
Proof.
  intros W. unfold incrementalUpdateTempl, mapFile. rewrite (steps_first _ _ [AddTable] _ o) by done.
  assert (Hf : forall b o s, steps (mapStep n) o (when b [FlushTable] ++ s)%list = steps (mapStep n) o s) by (by intros []).
  destruct (VMaps t !! n) as [v|] eqn:Hv.
  - pose proof (wfv_name _ _ (wf_vmaps _ W _ _ Hv)) as Hn.
    project map_section_app ltac:(fun _ => rewrite Hv, Hn). rewrite Hf.
    project map_section_app ltac:(fun _ => rewrite Hv, Hn).
  - project map_section_app ltac:(fun _ => rewrite Hv). rewrite Hf.
    project map_section_app ltac:(fun _ => rewrite Hv).
Qed.

Lemma incr_setFile t n o :
  wf t -> steps (setStep n) o (incrementalUpdateTempl t) = steps (setStep n) o (setFile t n).
Proof.
  intros W. unfold incrementalUpdateTempl, setFile. rewrite (steps_first _ _ [AddTable] _ o) by done.
  assert (Hf : forall b o s, steps (setStep n) o (when b [FlushTable] ++ s)%list = steps (setStep n) o s) by (by intros []).
  destruct (Sets t !! n) as [v|] eqn:Hv.
  - pose proof (wfs_name _ _ (wf_sets _ W _ _ Hv)) as Hn.
    project set_section_app ltac:(fun _ => rewrite Hv, Hn). rewrite Hf.
    project set_section_app ltac:(fun _ => rewrite Hv, Hn).
    rewrite set_section by (done || other_name). by rewrite Hv, Hn.
  - project set_section_app ltac:(fun _ => rewrite Hv). rewrite Hf.
    project set_section_app ltac:(fun _ => rewrite Hv).
    rewrite set_section by (done || other_name). by rewrite Hv.
Qed.

(** *** Chains *)

(** A chain after the update: re-populated when it is flushed, gone when it was deleted. *)
Definition chainAfter (t : table) (n : string) (o : option kChain) : option kChain :=
  let rest := if decide (DeleteChain n ∈ DeleteCommands t) then None
              else if MustFlush t then (fun c => mkKChain (kc_base c) []) <$> o else o in
  match Chains t !! n with
  | Some c =>
      if ch_MustFlush c then
        Some (mkKChain (match baseOf c with
                        | Some b => Some b
                        | None => if decide (DeleteChain n ∈ DeleteCommands t) then None else o ≫= kc_base
                        end) (Rules c))
      else rest
  | None => rest
  end.

Lemma incr_chains t n o :
  wf t -> Forall is_delete (DeleteCommands t) ->
  steps (chainStep n) o (incrementalUpdateTempl t) = Some (chainAfter t n o).
Proof.
  intros W HD. rewrite incr_chainFile by done. unfold chainFile, chainAfter.
  assert (Hrest : steps (chainStep n) o (when (MustFlush t) [FlushTable] ++ DeleteCommands t)%list =
    Some (if decide (DeleteChain n ∈ DeleteCommands t) then None
          else if MustFlush t then (fun c => mkKChain (kc_base c) []) <$> o else o))
    by (rewrite (steps_first _ _ _ _ (if MustFlush t then (fun c => mkKChain (kc_base c) []) <$> o else o)),
          deletes_chains by (done || by destruct (MustFlush t)); done).
  destruct (Chains t !! n) as [c|]; [|done]. destruct (ch_MustFlush c); [|done].
  rewrite (steps_first _ _ [AddChain _ _ _] _ (chainEffect n o (AddChain n (baseOf c) []))) by done.
  rewrite (steps_first _ _ (when (MustFlush t) [FlushTable]) _
    (if MustFlush t then chainEffect n (chainEffect n o (AddChain n (baseOf c) [])) FlushTable
     else chainEffect n o (AddChain n (baseOf c) []))) by (by destruct (MustFlush t)).
  set (o1 := if MustFlush t then _ else _).
  rewrite (steps_first _ _ [FlushChain n] _ (chainEffect n o1 (FlushChain n))) by done.
  rewrite steps_app, deletes_chains by done. cbn [steps chainStep]. f_equal. subst o1.
  cbn [chainEffect]. rewrite String.eqb_refl.
  destruct (decide _), (MustFlush t), o, (baseOf c); done.
Qed.

(** *** Verdict maps *)

Definition mapWith (f : gmap string string -> gmap string string) (m : kMap) : kMap :=
  mkKMap (km_type m) (km_flags m) (f (km_elems m)).

Lemma delete_elems_step n v o :
  steps (mapStep n) o (unless_empty (keys_of (vm_DeletedElements v)) (fun ks => [DeleteMapElems n ks])) =
  Some (mapWith (filter (fun kv => vm_DeletedElements v !! kv.1 = None)) <$> o).
Proof.
  destruct (keys_of (vm_DeletedElements v)) as [|x l] eqn:Hk; cbn [unless_empty steps].
  - f_equal. destruct o as [m|]; [|done]. destruct m as [ty fl es]. unfold mapWith. cbn. do 2 f_equal. symmetry.
    apply map_filter_id. intros k x _. cbn. apply eq_None_not_Some. intros Hs%elem_of_keys. rewrite Hk in Hs. by apply elem_of_nil in Hs.
  - unfold mapStep. cbn [mapBad mapEffect]. rewrite String.eqb_refl.
    destruct o as [m|]; [|done]. unfold mapWith. cbn. do 3 f_equal. apply map_filter_ext. intros k y _. cbn.
    rewrite <- Hk, elem_of_keys. by rewrite eq_None_not_Some.
Qed.

Lemma add_elems_step n v o :
  steps (mapStep n) o (unless_empty (sortedMap (vm_AddedElements v)) (fun kvs => [AddMapElems n kvs])) =
  match o with
  | Some m => Some (Some (mapWith (fun es => vm_AddedElements v ∪ es) m))
  | None => if decide (vm_AddedElements v = ∅) then Some None else None
  end.
Proof.
  destruct (sortedMap (vm_AddedElements v)) as [|x l] eqn:Hk; cbn [unless_empty steps].
  - apply sortedMap_nil in Hk. rewrite Hk. destruct o as [[ty fl es]|]; [|done].
    unfold mapWith. cbn. by rewrite (left_id_L ∅ (∪)).
  - assert (vm_AddedElements v <> ∅) by (intros He%sortedMap_nil; by rewrite Hk in He).
    rewrite <- Hk. unfold mapStep. cbn [mapBad mapEffect]. rewrite String.eqb_refl, list_to_map_sorted.
    destruct o as [m|]; [done|]. by rewrite decide_False.
Qed.

Definition mapAfter (t : table) (n : string) (o : option kMap) : option kMap :=
  if decide (DeleteMap n ∈ DeleteCommands t) then None
  else match VMaps t !! n with
  | None => o
  | Some v =>
      let old := if vm_MustFlush v then ∅ else default ∅ (km_elems <$> o) in
      Some (mkKMap (vm_ElementType v) (vm_Flags v)
              (vm_AddedElements v ∪ filter (fun kv => vm_DeletedElements v !! kv.1 = None) old))
  end.

(** After the update the map has the elements added and those kept; a map that was deleted
    and created again is gone, and then it is empty. *)
Lemma incr_maps t n o r :
  wf t -> Forall is_delete (DeleteCommands t) ->
  steps (mapStep n) o (incrementalUpdateTempl t) = Some r ->
  r = mapAfter t n o /\
  (DeleteMap n ∈ DeleteCommands t -> forall v, VMaps t !! n = Some v -> vm_AddedElements v = ∅).
Proof.
  intros W HD. rewrite incr_mapFile by done. unfold mapFile, mapAfter.
  destruct (VMaps t !! n) as [v|]; [|rewrite deletes_maps by done; intros [= <-]; split; [done|by intros]].
  rewrite steps_app.
  assert (Hdecl : forall o1, steps (mapStep n) o [AddMap n (vm_ElementType v) (vm_Flags v) ∅] = Some o1 ->
    o1 = Some (mkKMap (vm_ElementType v) (vm_Flags v) (default ∅ (km_elems <$> o)))).
  { cbn [steps]. unfold mapStep. cbn [mapBad mapEffect]. rewrite String.eqb_refl. intros o1.
    destruct o as [m|]; [|by intros [= <-]]. cbn [andb]. case_bool_decide as Hd; [|done]. destruct Hd as [<- <-].
    intros [= <-]. cbn. by rewrite (left_id_L ∅ (∪)). }
  destruct (steps (mapStep n) o _) as [o1|]; [|done]. rewrite (Hdecl o1 eq_refl). clear Hdecl o1.
  set (old := if vm_MustFlush v then ∅ else default ∅ (km_elems <$> o)).
  rewrite (steps_first _ _ (when _ _) _ (Some (mkKMap (vm_ElementType v) (vm_Flags v) old))).
  2:{ subst old. destruct (vm_MustFlush v); [|done]. cbn [when steps]. unfold mapStep. cbn [mapBad mapEffect].
      by rewrite String.eqb_refl. }
  rewrite steps_app, delete_elems_step. cbn [fmap option_fmap option_map].
  rewrite steps_app, deletes_maps, add_elems_step by done. case_decide as Hd.
  - case_decide; [|done]. intros [= <-]. split; [done|]. by intros _ v' [= <-].
  - intros [= <-]. by split.
Qed.

(** *** Sets *)

Definition setWith (f : gset string -> gset string) (s : kSet) : kSet :=
  mkKSet (ks_type s) (ks_flags s) (f (ks_elems s)).

Lemma list_to_set_sorted (X : gset string) : list_to_set (sortedSet X) = X.
Proof. apply leibniz_equiv. intros x. rewrite elem_of_list_to_set. apply elem_of_sortedSet. Qed.

Lemma delete_members_step n s o :
  steps (setStep n) o (unless_empty (sortedSet (st_DeletedElements s)) (fun ks => [DeleteSetElems n ks])) =
  Some (setWith (fun es => es ∖ st_DeletedElements s) <$> o).
Proof.
  destruct (sortedSet (st_DeletedElements s)) as [|x l] eqn:Hk; cbn [unless_empty steps].
  - apply sortedSet_nil in Hk. rewrite Hk. destruct o as [[ty fl es]|]; [|done]. unfold setWith. cbn.
    by rewrite difference_empty_L.
  - unfold setStep. cbn [setBad setEffect]. by rewrite String.eqb_refl, <- Hk, list_to_set_sorted.
Qed.

Lemma add_members_step n s o :
  steps (setStep n) o (unless_empty (sortedSet (st_AddedElements s)) (fun ks => [AddSetElems n ks])) =
  match o with
  | Some m => Some (Some (setWith (fun es => st_AddedElements s ∪ es) m))
  | None => if decide (st_AddedElements s = ∅) then Some None else None
  end.
Proof.
  destruct (sortedSet (st_AddedElements s)) as [|x l] eqn:Hk; cbn [unless_empty steps].
  - apply sortedSet_nil in Hk. rewrite Hk. destruct o as [[ty fl es]|]; [|done].
    unfold setWith. cbn. by rewrite (left_id_L ∅ (∪)).
  - assert (st_AddedElements s <> ∅) by (intros He%sortedSet_nil; by rewrite Hk in He).
    rewrite <- Hk. unfold setStep. cbn [setBad setEffect]. rewrite String.eqb_refl, list_to_set_sorted.
    destruct o as [m|]; [done|]. by rewrite decide_False.
Qed.

Definition setAfter (t : table) (n : string) (o : option kSet) : option kSet :=
  if decide (DeleteSet n ∈ DeleteCommands t) then None
  else match Sets t !! n with
  | None => o
  | Some s =>
      let old := if st_MustFlush s then ∅ else default ∅ (ks_elems <$> o) in
      Some (mkKSet (st_ElementType s) (st_Flags s) (st_AddedElements s ∪ old ∖ st_DeletedElements s))
  end.

Lemma incr_sets t n o r :
  wf t -> Forall is_delete (DeleteCommands t) ->
  steps (setStep n) o (incrementalUpdateTempl t) = Some r ->
  r = setAfter t n o /\
  (DeleteSet n ∈ DeleteCommands t -> forall v, Sets t !! n = Some v -> st_AddedElements v = ∅).
Proof.
  intros W HD. rewrite incr_setFile by done. unfold setFile, setAfter.
  destruct (Sets t !! n) as [v|]; [|rewrite deletes_sets by done; intros [= <-]; split; [done|by intros]].
  rewrite steps_app.
  assert (Hdecl : forall o1, steps (setStep n) o [AddSet n (st_ElementType v) (st_Flags v) ∅] = Some o1 ->
    o1 = Some (mkKSet (st_ElementType v) (st_Flags v) (default ∅ (ks_elems <$> o)))).
  { cbn [steps]. unfold setStep. cbn [setBad setEffect]. rewrite String.eqb_refl. intros o1.
    destruct o as [m|]; [|by intros [= <-]]. cbn [andb]. case_bool_decide as Hd; [|done]. destruct Hd as [<- <-].
    intros [= <-]. cbn. by rewrite (left_id_L ∅ (∪)). }
  destruct (steps (setStep n) o _) as [o1|]; [|done]. rewrite (Hdecl o1 eq_refl). clear Hdecl o1.
  set (old := if st_MustFlush v then ∅ else default ∅ (ks_elems <$> o)).
  rewrite (steps_first _ _ (when _ _) _ (Some (mkKSet (st_ElementType v) (st_Flags v) old))).
  2:{ subst old. destruct (st_MustFlush v); [|done]. cbn [when steps]. unfold setStep. cbn [setBad setEffect].
      by rewrite String.eqb_refl. }
  rewrite steps_app, delete_members_step. cbn [fmap option_fmap option_map].
  rewrite steps_app, deletes_sets, add_members_step by done. case_decide as Hd.
  - case_decide; [|done]. intros [= <-]. split; [done|]. by intros _ v' [= <-].
  - intros [= <-]. by split.
Qed.
