(* ===== verification/NFTablesSync.v ===== *)
(** * Tables of the packet filter: keeping the kernel in step

    Pending updates describe the difference between the table and the kernel ([Pend]), so
    that a successful incremental update brings the kernel in step with the table ([Sync]).
    The relation holds in every state that the operations can reach. *)

From Stdlib Require Import String.
From stdpp Require Import gmap strings sorting.
From S2P Require Import Prelude SortedMaps NFTables NFTablesSpec NFTablesUndo NFTablesKernel.

Local Open Scope string_scope.

(** ** Pending updates *)

(** Between operations nothing is pending on maps and sets, and a table that is still to be
    flushed has no chain. *)
Record Quiet (t : table) : Prop := {
  qt_deletes : DeleteCommands t = [];
  qt_vmaps : map_Forall (fun _ v => vm_MustFlush v = false /\ vm_AddedElements v = ∅ /\ vm_DeletedElements v = ∅) (VMaps t);
  qt_sets : map_Forall (fun _ s => st_MustFlush s = false /\ st_AddedElements s = ∅ /\ st_DeletedElements s = ∅) (Sets t);
  qt_flush : MustFlush t = true -> Chains t = ∅ }.

(** [t0] is the table as the kernel has it, [t] has pending updates. *)
Record Pend (t0 t : table) : Prop := {
  pd_mustflush : MustFlush t = MustFlush t0;
  pd_deletes : Forall is_delete (DeleteCommands t);
  pd_chain_gone n : is_Some (Chains t0 !! n) -> Chains t !! n = None -> DeleteChain n ∈ DeleteCommands t;
  pd_chain_kept n c : Chains t !! n = Some c -> ch_MustFlush c = false ->
    DeleteChain n ∉ DeleteCommands t /\ Chains t0 !! n = Some c;
  pd_chain_base n c c0 : Chains t !! n = Some c -> DeleteChain n ∉ DeleteCommands t -> baseOf c = None ->
    Chains t0 !! n = Some c0 -> baseOf c0 = None;
  pd_vmap_gone n : is_Some (VMaps t0 !! n) -> VMaps t !! n = None -> DeleteMap n ∈ DeleteCommands t;
  pd_vmap_new n v : VMaps t !! n = Some v -> vm_MustFlush v = true -> vm_Elements v = vm_AddedElements v;
  pd_vmap_old n v : VMaps t !! n = Some v -> vm_MustFlush v = false ->
    DeleteMap n ∉ DeleteCommands t /\ exists v0, VMaps t0 !! n = Some v0 /\
    vm_Elements v = vm_AddedElements v ∪ filter (fun kv => vm_DeletedElements v !! kv.1 = None) (vm_Elements v0);
  pd_set_gone n : is_Some (Sets t0 !! n) -> Sets t !! n = None -> DeleteSet n ∈ DeleteCommands t;
  pd_set_new n s : Sets t !! n = Some s -> st_MustFlush s = true -> st_Elements s = st_AddedElements s;
  pd_set_old n s : Sets t !! n = Some s -> st_MustFlush s = false ->
    DeleteSet n ∉ DeleteCommands t /\ exists s0, Sets t0 !! n = Some s0 /\
    st_Elements s = st_AddedElements s ∪ st_Elements s0 ∖ st_DeletedElements s }.

Lemma Pend_refl t : Quiet t -> Pend t t.
Proof.
  intros [HD Hv Hs Hf]. split; rewrite ?HD; try done; try (by intros n [x Hx] Hn; rewrite Hx in Hn).
  - intros n c Hc _. split; [apply not_elem_of_nil|done].
  - intros n c c0 Hc _ Hb Hc0. congruence.
  - intros n v Hn Hm. destruct (Hv _ _ Hn) as [Hm' _]. congruence.
  - intros n v Hn _. destruct (Hv _ _ Hn) as (_ & Ha & Hd). split; [apply not_elem_of_nil|]. exists v. split; [done|].
    rewrite Ha, Hd, (left_id_L ∅ (∪)). symmetry. apply map_filter_id. intros. apply lookup_empty.
  - intros n v Hn Hm. destruct (Hs _ _ Hn) as [Hm' _]. congruence.
  - intros n v Hn _. destruct (Hs _ _ Hn) as (_ & Ha & Hd). split; [apply not_elem_of_nil|]. exists v. split; [done|].
    rewrite Ha, Hd. set_solver.
Qed.

Section PendKept.
Context (t0 : table).
Implicit Types t : table.

(** A chain that is new or changed is flushed. *)
Lemma Pend_insert_chain t n c :
  Pend t0 t -> ch_MustFlush c = true ->
  (Chains t !! n = None \/ exists c1, Chains t !! n = Some c1 /\ (baseOf c = None -> baseOf c1 = None)) ->
  Pend t0 (set_Chains t (<[n := c]> (Chains t))).
Proof.
  intros P Hm Hold. destruct P. split; try done; cbn [Chains DeleteCommands set_Chains].
  - intros j Hj. rewrite lookup_insert_None. naive_solver.
  - intros j c'. rewrite lookup_insert_Some. intros [[-> ->]|[? ?]] ?; [congruence|eauto].
  - intros j c' c0. rewrite lookup_insert_Some. intros [[-> ->]|[? ?]] HD Hb Hc0; [|eauto].
    destruct Hold as [Hnone|(c1 & Hc1 & Hb1)]; [|by eauto].
    destruct HD. apply pd_chain_gone0; [by rewrite Hc0|done].
Qed.

Lemma Pend_deleteChain t n : Pend t0 t -> Pend t0 (deleteChain n t).1.
Proof.
  intros P. unfold deleteChain. destruct (Chains t !! n) as [c|] eqn:Hc; [|done]. case_decide; [|done].
  destruct P. cbn [fst]. split; try done; cbn [Chains VMaps Sets DeleteCommands MustFlush set_Chains add_DeleteCommand].
  - apply Forall_app. split; [done|]. by repeat constructor.
  - intros j Hj. rewrite lookup_delete_None, elem_of_app, list_elem_of_singleton. intros [->|?]; [by right|]. left. eauto.
  - intros j c'. rewrite lookup_delete_Some, elem_of_app, list_elem_of_singleton. intros [Hne Hj] Hm.
    destruct (pd_chain_kept0 _ _ Hj Hm). split; [|done]. intros [?|[= ->]]; done.
  - intros j c' c0. rewrite lookup_delete_Some, elem_of_app. intros [Hne Hj] HD. apply pd_chain_base0; [done|]. tauto.
  - intros j Hj Hn. apply elem_of_app. left. eauto.
  - intros j v Hj Hm. destruct (pd_vmap_old0 _ _ Hj Hm) as [HD ?]. split; [|done].
    rewrite elem_of_app, list_elem_of_singleton. by intros [?|[=]].
  - intros j Hj Hn. apply elem_of_app. left. eauto.
  - intros j v Hj Hm. destruct (pd_set_old0 _ _ Hj Hm) as [HD ?]. split; [|done].
    rewrite elem_of_app, list_elem_of_singleton. by intros [?|[=]].
Qed.

Lemma Pend_insert_vmap t n v :
  Pend t0 t ->
  (vm_MustFlush v = true -> vm_Elements v = vm_AddedElements v) ->
  (vm_MustFlush v = false -> DeleteMap n ∉ DeleteCommands t /\ exists v0, VMaps t0 !! n = Some v0 /\
    vm_Elements v = vm_AddedElements v ∪ filter (fun kv => vm_DeletedElements v !! kv.1 = None) (vm_Elements v0)) ->
  Pend t0 (set_VMaps t (<[n := v]> (VMaps t))).
Proof.
  intros P Hnew Hold. destruct P. split; try done; cbn [VMaps DeleteCommands set_VMaps].
  - intros j Hj. rewrite lookup_insert_None. naive_solver.
  - intros j v'. rewrite lookup_insert_Some. intros [[-> ->]|[? ?]] ?; eauto.
  - intros j v'. rewrite lookup_insert_Some. intros [[-> ->]|[? ?]] ?; eauto.
Qed.

Lemma Pend_insert_set t n s :
  Pend t0 t ->
  (st_MustFlush s = true -> st_Elements s = st_AddedElements s) ->
  (st_MustFlush s = false -> DeleteSet n ∉ DeleteCommands t /\ exists s0, Sets t0 !! n = Some s0 /\
    st_Elements s = st_AddedElements s ∪ st_Elements s0 ∖ st_DeletedElements s) ->
  Pend t0 (set_Sets t (<[n := s]> (Sets t))).
Proof.
  intros P Hnew Hold. destruct P. split; try done; cbn [Sets DeleteCommands set_Sets].
  - intros j Hj. rewrite lookup_insert_None. naive_solver.
  - intros j v'. rewrite lookup_insert_Some. intros [[-> ->]|[? ?]] ?; eauto.
  - intros j v'. rewrite lookup_insert_Some. intros [[-> ->]|[? ?]] ?; eauto.
Qed.

Lemma Pend_VMap_delete vm t : wf t -> Pend t0 t -> Pend t0 (VMap_delete vm t).1.
Proof.
  intros W P. unfold VMap_delete. destruct (VMaps t !! vmo_Name vm) as [v|] eqn:Hv; [|done]. case_decide; [|done].
  rewrite (wfv_name _ _ (wf_vmaps _ W _ _ Hv)).
  destruct P. cbn [fst]. split; try done; cbn [Chains VMaps Sets DeleteCommands MustFlush set_VMaps add_DeleteCommand].
  - apply Forall_app. split; [done|]. by repeat constructor.
  - intros j Hj Hn. apply elem_of_app. left. eauto.
  - intros j c' Hj Hm. destruct (pd_chain_kept0 _ _ Hj Hm) as [HD ?]. split; [|done].
    rewrite elem_of_app, list_elem_of_singleton. by intros [?|[=]].
  - intros j c' c0 Hj HD. apply pd_chain_base0; [done|]. rewrite elem_of_app in HD. tauto.
  - intros j Hj. rewrite lookup_delete_None, elem_of_app, list_elem_of_singleton. intros [->|?]; [by right|]. left. eauto.
  - intros j c'. rewrite lookup_delete_Some. intros [_ ?]. eauto.
  - intros j c'. rewrite lookup_delete_Some, elem_of_app, list_elem_of_singleton. intros [Hne Hj] Hm.
    destruct (pd_vmap_old0 _ _ Hj Hm). split; [|done]. intros [?|[= ->]]; done.
  - intros j Hj Hn. apply elem_of_app. left. eauto.
  - intros j v' Hj Hm. destruct (pd_set_old0 _ _ Hj Hm) as [HD ?]. split; [|done].
    rewrite elem_of_app, list_elem_of_singleton. by intros [?|[=]].
Qed.

Lemma Pend_Set_delete sd t : wf t -> Pend t0 t -> Pend t0 (Set_delete sd t).1.
Proof.
  intros W P. unfold Set_delete. destruct (Sets t !! so_Name sd) as [v|] eqn:Hv; [|done]. case_decide; [|done].
  rewrite (wfs_name _ _ (wf_sets _ W _ _ Hv)).
  destruct P. cbn [fst]. split; try done; cbn [Chains VMaps Sets DeleteCommands MustFlush set_Sets add_DeleteCommand].
  - apply Forall_app. split; [done|]. by repeat constructor.
  - intros j Hj Hn. apply elem_of_app. left. eauto.
  - intros j c' Hj Hm. destruct (pd_chain_kept0 _ _ Hj Hm) as [HD ?]. split; [|done].
    rewrite elem_of_app, list_elem_of_singleton. by intros [?|[=]].
  - intros j c' c0 Hj HD. apply pd_chain_base0; [done|]. rewrite elem_of_app in HD. tauto.
  - intros j Hj Hn. apply elem_of_app. left. eauto.
  - intros j v' Hj Hm. destruct (pd_vmap_old0 _ _ Hj Hm) as [HD ?]. split; [|done].
    rewrite elem_of_app, list_elem_of_singleton. by intros [?|[=]].
  - intros j Hj. rewrite lookup_delete_None, elem_of_app, list_elem_of_singleton. intros [->|?]; [by right|]. left. eauto.
  - intros j c'. rewrite lookup_delete_Some. intros [_ ?]. eauto.
  - intros j c'. rewrite lookup_delete_Some, elem_of_app, list_elem_of_singleton. intros [Hne Hj] Hm.
    destruct (pd_set_old0 _ _ Hj Hm). split; [|done]. intros [?|[= ->]]; done.
Qed.

Lemma lookup_patch (a d m : gmap string string) j :
  (a ∪ filter (fun kv => d !! kv.1 = None) m) !! j =
  match a !! j with Some y => Some y | None => match d !! j with Some _ => None | None => m !! j end end.
Proof.
  destruct (a !! j) as [y|] eqn:Ha; [by apply lookup_union_Some_l|]. rewrite lookup_union_r by done.
  rewrite map_lookup_filter. destruct (m !! j) as [z|]; cbn [mbind option_bind]; [|by destruct (d !! j)].
  destruct (d !! j) eqn:Hd; case_guard as Hg; cbn in Hg |- *; congruence.
Qed.

Lemma Pend_VMapElement_create ve t : Pend t0 t -> Pend t0 (VMapElement_create ve t).1.
Proof.
  intros P. unfold VMapElement_create. case_match; [done|]. destruct (VMaps t !! VmapName ve) as [v|] eqn:Hv; [|done].
  case_match; [done|]. case_decide as Hk; [done|]. apply Pend_insert_vmap; [done|..]; cbn; intros Hm.
  - by rewrite (pd_vmap_new _ _ P _ _ Hv Hm).
  - destruct (pd_vmap_old _ _ P _ _ Hv Hm) as (HD & v0 & Hv0 & He). split; [done|]. exists v0. split; [done|].
    rewrite He. apply map_eq. intros j. rewrite lookup_patch. destruct (decide (Key ve = j)) as [->|Hne].
    + by rewrite !lookup_insert_eq.
    + by rewrite !lookup_insert_ne, lookup_patch, lookup_delete_ne.
Qed.

Lemma Pend_VMapElement_delete ve t : Pend t0 t -> Pend t0 (VMapElement_delete ve t).1.
Proof.
  intros P. unfold VMapElement_delete. destruct (VMaps t !! VmapName ve) as [v|] eqn:Hv; [|done].
  case_match; [|done]. case_match; [done|]. apply Pend_insert_vmap; [done|..]; cbn; intros Hm.
  - by rewrite (pd_vmap_new _ _ P _ _ Hv Hm).
  - destruct (pd_vmap_old _ _ P _ _ Hv Hm) as (HD & v0 & Hv0 & He). split; [done|]. exists v0. split; [done|].
    rewrite He. apply map_eq. intros j. rewrite lookup_patch. destruct (decide (Key ve = j)) as [->|Hne].
    + by rewrite lookup_insert_eq, !lookup_delete_eq.
    + by rewrite !lookup_delete_ne, lookup_patch, lookup_insert_ne.
Qed.

Lemma Pend_SetElement_create se t : Pend t0 t -> Pend t0 (SetElement_create se t).1.
Proof.
  intros P. unfold SetElement_create. destruct (Sets t !! SetName se) as [s|] eqn:Hs; [|done].
  case_match; [done|]. case_decide as Hk; [done|]. apply Pend_insert_set; [done|..]; cbn; intros Hm.
  - by rewrite (pd_set_new _ _ P _ _ Hs Hm).
  - destruct (pd_set_old _ _ P _ _ Hs Hm) as (HD & s0 & Hs0 & He). split; [done|]. exists s0. split; [done|].
    rewrite He. clear -He. apply leibniz_equiv. intros x. destruct (decide (x = Element se)); set_solver.
Qed.

Lemma Pend_SetElement_delete se t : Pend t0 t -> Pend t0 (SetElement_delete se t).1.
Proof.
  intros P. unfold SetElement_delete. destruct (Sets t !! SetName se) as [s|] eqn:Hs; [|done].
  case_decide as Hk; [|done]. apply Pend_insert_set; [done|..]; cbn; intros Hm.
  - by rewrite (pd_set_new _ _ P _ _ Hs Hm).
  - destruct (pd_set_old _ _ P _ _ Hs Hm) as (HD & s0 & Hs0 & He). split; [done|]. exists s0. split; [done|].
    rewrite He. set_solver.
Qed.

Lemma Pend_obj_create o t : wf t -> Pend t0 t -> Pend t0 (obj_create o t).1.
Proof.
  intros W P. destruct o; cbn [obj_create].
  - unfold BaseChain_create. case_decide as Hn; [done|]. repeat (case_match; [done|]).
    apply Pend_insert_chain; [done|done|]. left. by apply eq_None_not_Some.
  - unfold Chain_create. case_decide as Hn; [done|]. case_match; [done|].
    apply Pend_insert_chain; [done|done|]. left. by apply eq_None_not_Some.
  - unfold Rule_create. destruct (Chains t !! ru_Chain o) as [c|] eqn:Hc; [|done].
    destruct (ru_Rule o); [done|]. cbv zeta. case_decide; [by case_match|].
    apply Pend_insert_chain; [done|done|]. right. by exists c.
  - unfold VMap_create. case_match; [done|]. case_decide; [done|]. case_match; [done|].
    by apply Pend_insert_vmap.
  - by apply Pend_VMapElement_create.
  - unfold Set_create. case_match; [done|]. case_decide; [done|]. case_match; [done|].
    by apply Pend_insert_set.
  - by apply Pend_SetElement_create.
Qed.

Lemma Pend_obj_delete o t : wf t -> Pend t0 t -> Pend t0 (obj_delete o t).1.
Proof.
  intros W P. destruct o; cbn [obj_delete].
  - by apply Pend_deleteChain.
  - by apply Pend_deleteChain.
  - unfold Rule_delete. destruct (Chains t !! ru_Chain o) as [c|] eqn:Hc; [|done]. case_match; [done|].
    case_match; [|by case_match]. cbv zeta. case_match; [by case_match|].
    apply Pend_insert_chain; [done|done|]. right. by exists c.
  - by apply Pend_VMap_delete.
  - by apply Pend_VMapElement_delete.
  - by apply Pend_Set_delete.
  - by apply Pend_SetElement_delete.
Qed.

Lemma Pend_applyCmds tm t rb t' rb' e :
  wf t -> Pend t0 t -> applyCmds tm t rb = (t', rb', e) -> wf t' /\ Pend t0 t'.
Proof.
  revert t rb. induction tm as [|c tm IH]; intros t rb W P; cbn [applyCmds]; [by intros [= <- <- <-]|].
  assert (W1 := cmd_apply_wf c t W).
  assert (P1 : Pend t0 (cmd_apply c t).1)
    by (unfold cmd_apply; destruct (cdelete c); [by apply Pend_obj_delete|by apply Pend_obj_create]).
  destruct (cmd_apply c t) as [t1 [err|a]]; cbn [fst] in *; [by intros [= <- <- <-]|by apply IH].
Qed.
End PendKept.

(** ** The kernel in step with the table *)

Section Sync.
Context (Q : relation (list string)) `{!RuleRel Q}.

(** [k0] is what the kernel had when the table was created; [k] is what it has now.  Every
    chain, map and set of the table is there with its contents, rules up to [Q]; a map or a
    set that is missing has no elements; everything else was there at the beginning. *)
Record Sync (k0 : kTable) (t : table) (k : kTable) : Prop := {
  sy_chain n c : Chains t !! n = Some c -> exists kc c', k_chains k !! n = Some kc /\
    chain_eq Q c' c /\ kc_rules kc = Rules c' /\
    (baseOf c <> None \/ k_chains k0 !! n = None -> kc_base kc = baseOf c);
  sy_chain_only n : is_Some (k_chains k !! n) -> Chains t !! n = None -> is_Some (k_chains k0 !! n);
  sy_map n v : VMaps t !! n = Some v ->
    k_maps k !! n = Some (vmapView v) \/ k_maps k !! n = None /\ vm_Elements v = ∅;
  sy_map_only n : is_Some (k_maps k !! n) -> VMaps t !! n = None -> is_Some (k_maps k0 !! n);
  sy_set n s : Sets t !! n = Some s ->
    k_sets k !! n = Some (setView s) \/ k_sets k !! n = None /\ st_Elements s = ∅;
  sy_set_only n : is_Some (k_sets k !! n) -> Sets t !! n = None -> is_Some (k_sets k0 !! n) }.

(** No chain outside the table has rules. *)
Definition Clean (t : table) (k : kTable) : Prop :=
  forall n kc, k_chains k !! n = Some kc -> Chains t !! n = None -> kc_rules kc = [].

Lemma baseOf_eq c1 c2 : chain_eq Q c1 c2 -> baseOf c1 = baseOf c2.
Proof. intros [_ Ht Hh Hp Hpo _]. unfold baseOf. by rewrite Ht, Hh, Hp, Hpo. Qed.

Lemma Sync_teq k0 t t' k : teq Q t' t -> Sync k0 t k -> Sync k0 t' k.
Proof.
  intros E S. split.
  - intros n c Hc. destruct (map_Forall2_Some_l _ _ _ _ _ (teq_chains _ _ _ E) Hc) as (c1 & Hc1 & He).
    destruct (sy_chain _ _ _ S n c1 Hc1) as (kc & c2 & Hk & He2 & Hr & Hb).
    exists kc, c2. rewrite (baseOf_eq _ _ He). split; [done|]. split; [by rewrite He|]. by split.
  - intros n Hk Hn. apply (sy_chain_only _ _ _ S); [done|]. by apply (map_Forall2_None _ _ _ n (teq_chains _ _ _ E)).
  - intros n v Hv. destruct (map_Forall2_Some_l _ _ _ _ _ (teq_vmaps _ _ _ E) Hv) as (v1 & Hv1 & [_ Ht Hf He]).
    unfold vmapView. rewrite Ht, Hf, He. by apply (sy_map _ _ _ S).
  - intros n Hk Hn. apply (sy_map_only _ _ _ S); [done|]. by apply (map_Forall2_None _ _ _ n (teq_vmaps _ _ _ E)).
  - intros n v Hv. destruct (map_Forall2_Some_l _ _ _ _ _ (teq_sets _ _ _ E) Hv) as (v1 & Hv1 & [_ Ht Hf He]).
    unfold setView. rewrite Ht, Hf, He. by apply (sy_set _ _ _ S).
  - intros n Hk Hn. apply (sy_set_only _ _ _ S); [done|]. by apply (map_Forall2_None _ _ _ n (teq_sets _ _ _ E)).
Qed.

Lemma Clean_teq t t' k : teq Q t' t -> Clean t k -> Clean t' k.
Proof.
  intros E C n kc Hk Hn. eapply C; [done|]. by apply (map_Forall2_None _ _ _ n (teq_chains _ _ _ E)).
Qed.

Lemma Sync_view k0 t : Sync k0 t (view t) /\ Clean t (view t).
Proof.
  assert (Hc : forall n, k_chains (view t) !! n = chainView <$> Chains t !! n) by (intros; apply lookup_fmap).
  assert (Hm : forall n, k_maps (view t) !! n = vmapView <$> VMaps t !! n) by (intros; apply lookup_fmap).
  assert (Hs : forall n, k_sets (view t) !! n = setView <$> Sets t !! n) by (intros; apply lookup_fmap).
  split; [split|].
  - intros n c Hn. rewrite Hc, Hn. exists (chainView c), c. split; [done|]. split; [reflexivity|done].
  - intros n H Hn. rewrite Hc, Hn in H. by destruct H.
  - intros n v Hn. rewrite Hm, Hn. by left.
  - intros n H Hn. rewrite Hm, Hn in H. by destruct H.
  - intros n v Hn. rewrite Hs, Hn. by left.
  - intros n H Hn. rewrite Hs, Hn in H. by destruct H.
  - intros n kc H Hn. by rewrite Hc, Hn in H.
Qed.
End Sync.

(** ** The incremental update *)

Section Update.
Context (nft : kTable -> nftCmd -> option kTable) `{!NftSpec nft}.
Context (Q : relation (list string)) `{!RuleRel Q}.
Context (k0 : kTable) (t0 t : table) (k k' : kTable).
Context (W : wf t) (Hq : Quiet t0) (P : Pend t0 t).
Context (Hrun : runFile nft k (incrementalUpdateTempl t) = Some k').

Lemma upd_chain n : k_chains k' !! n = chainAfter t n (k_chains k !! n).
Proof.
  pose proof (runFile_chains nft n _ _ _ Hrun) as H. rewrite incr_chains in H by (done || apply P).
  by injection H.
Qed.

Lemma upd_map n : k_maps k' !! n = mapAfter t n (k_maps k !! n) /\
  (DeleteMap n ∈ DeleteCommands t -> forall v, VMaps t !! n = Some v -> vm_AddedElements v = ∅).
Proof. eapply incr_maps; [done|apply P|]. by apply (runFile_maps nft). Qed.

Lemma upd_set n : k_sets k' !! n = setAfter t n (k_sets k !! n) /\
  (DeleteSet n ∈ DeleteCommands t -> forall s, Sets t !! n = Some s -> st_AddedElements s = ∅).
Proof. eapply incr_sets; [done|apply P|]. by apply (runFile_sets nft). Qed.

Lemma upd_sync_chain n c :
  Sync Q k0 t0 k -> Chains t !! n = Some c -> exists kc c', k_chains k' !! n = Some kc /\
    chain_eq Q c' c /\ kc_rules kc = Rules c' /\
    (baseOf c <> None \/ k_chains k0 !! n = None -> kc_base kc = baseOf c).
Proof.
  intros S Hc. rewrite upd_chain. unfold chainAfter. rewrite Hc. destruct (ch_MustFlush c) eqn:Hm.
  - eexists _, c. split; [done|]. split; [reflexivity|]. split; [done|]. cbn [kc_base].
    destruct (baseOf c) as [b|] eqn:Hb; [done|]. intros [?|Hk0]; [done|]. case_decide as Hd; [done|].
    destruct (k_chains k !! n) as [kc|] eqn:Hk; [|done]. cbn.
    destruct (Chains t0 !! n) as [c0|] eqn:Hc0.
    + destruct (sy_chain _ _ _ _ S n c0 Hc0) as (kc' & c' & Hk' & _ & _ & Hbase).
      assert (kc' = kc) as -> by congruence. rewrite Hbase by (by right). by eapply pd_chain_base.
    + destruct (sy_chain_only _ _ _ _ S n); [by rewrite Hk|done|congruence].
  - destruct (pd_chain_kept _ _ P _ _ Hc Hm) as [Hd Hc0]. rewrite decide_False by done.
    destruct (MustFlush t) eqn:Hf; [|by apply (sy_chain _ _ _ _ S)].
    rewrite (pd_mustflush _ _ P) in Hf. rewrite (qt_flush _ Hq Hf) in Hc0. by apply lookup_empty_Some in Hc0.
Qed.

Lemma upd_sync_map n v :
  Sync Q k0 t0 k -> VMaps t !! n = Some v ->
  k_maps k' !! n = Some (vmapView v) \/ k_maps k' !! n = None /\ vm_Elements v = ∅.
Proof.
  intros S Hv. destruct (upd_map n) as [-> Hadd]. unfold mapAfter. rewrite Hv.
  destruct (vm_MustFlush v) eqn:Hm.
  - rewrite (pd_vmap_new _ _ P _ _ Hv Hm). case_decide as Hd; [right; split; [done|by apply Hadd]|left].
    unfold vmapView. rewrite (pd_vmap_new _ _ P _ _ Hv Hm), map_filter_empty. by rewrite (right_id_L ∅ (∪)).
  - destruct (pd_vmap_old _ _ P _ _ Hv Hm) as (Hd & v0 & Hv0 & He). rewrite decide_False by done. left.
    unfold vmapView. rewrite He. destruct (sy_map _ _ _ _ S _ _ Hv0) as [->|[-> Hnil]]; [done|].
    cbn. by rewrite Hnil.
Qed.

Lemma upd_sync_set n s :
  Sync Q k0 t0 k -> Sets t !! n = Some s ->
  k_sets k' !! n = Some (setView s) \/ k_sets k' !! n = None /\ st_Elements s = ∅.
Proof.
  intros S Hs. destruct (upd_set n) as [-> Hadd]. unfold setAfter. rewrite Hs.
  destruct (st_MustFlush s) eqn:Hm.
  - rewrite (pd_set_new _ _ P _ _ Hs Hm). case_decide as Hd; [right; split; [done|by apply Hadd]|left].
    unfold setView. rewrite (pd_set_new _ _ P _ _ Hs Hm).
    by assert (st_AddedElements s ∪ ∅ ∖ st_DeletedElements s = st_AddedElements s) as -> by set_solver.
  - destruct (pd_set_old _ _ P _ _ Hs Hm) as (Hd & s0 & Hs0 & He). rewrite decide_False by done. left.
    unfold setView. rewrite He. destruct (sy_set _ _ _ _ S _ _ Hs0) as [->|[-> Hnil]]; [done|].
    cbn. by rewrite Hnil.
Qed.

Lemma upd_Sync : Sync Q k0 t0 k -> Sync Q k0 t k'.
Proof.
  intros S. split.
  - intros n c. by apply upd_sync_chain.
  - intros n Hk Hn. rewrite upd_chain in Hk. unfold chainAfter in Hk. rewrite Hn in Hk.
    case_decide as Hd; [by destruct Hk|]. destruct (Chains t0 !! n) as [c0|] eqn:Hc0.
    + destruct Hd. apply P; [by rewrite Hc0|done].
    + apply (sy_chain_only _ _ _ _ S n); [|done]. destruct (MustFlush t); [|done]. by rewrite fmap_is_Some in Hk.
  - intros n v. by apply upd_sync_map.
  - intros n Hk Hn. rewrite (proj1 (upd_map n)) in Hk. unfold mapAfter in Hk. rewrite Hn in Hk.
    case_decide as Hd; [by destruct Hk|]. apply (sy_map_only _ _ _ _ S n); [done|].
    destruct (VMaps t0 !! n) eqn:Hv0; [|done]. destruct Hd. apply P; [by rewrite Hv0|done].
  - intros n v. by apply upd_sync_set.
  - intros n Hk Hn. rewrite (proj1 (upd_set n)) in Hk. unfold setAfter in Hk. rewrite Hn in Hk.
    case_decide as Hd; [by destruct Hk|]. apply (sy_set_only _ _ _ _ S n); [done|].
    destruct (Sets t0 !! n) eqn:Hv0; [|done]. destruct Hd. apply P; [by rewrite Hv0|done].
Qed.

(** The first update flushes what was there before, later ones keep it so. *)
Lemma upd_Clean : MustFlush t0 = true \/ Clean t0 k -> Clean t k'.
Proof.
  intros C n kc Hk Hn. rewrite upd_chain in Hk. unfold chainAfter in Hk. rewrite Hn in Hk.
  case_decide as Hd; [done|]. rewrite (pd_mustflush _ _ P) in Hk.
  destruct (MustFlush t0).
  - apply fmap_Some in Hk as (kc0 & _ & ->). done.
  - destruct C as [?|C]; [done|]. apply (C n); [done|]. destruct (Chains t0 !! n) eqn:Hc0; [|done].
    destruct Hd. apply P; [by rewrite Hc0|done].
Qed.
End Update.

(** ** The operations *)

Lemma Quiet_updatesApplied t : Quiet (updatesApplied t).
Proof.
  split; [done|..|done]; intros n x; cbn [VMaps Sets updatesApplied]; rewrite lookup_fmap_Some; by intros (y & <- & _).
Qed.

Section Operations.
Context (nft : kTable -> nftCmd -> option kTable) `{!NftSpec nft}.
Context (exact : bool).
Abbreviation Q := (ruleRel exact).

(** What holds between two operations. *)
Record Inv (k0 : kTable) (t : table) (k : kTable) : Prop := {
  inv_wf : wf t; inv_quiet : Quiet t; inv_sync : Sync Q k0 t k }.

Lemma Inv_applied k0 t k t1 t' k' :
  wf t1 -> Quiet t -> Pend t t1 -> Sync Q k0 t k ->
  runFile nft k (incrementalUpdateTempl t1) = Some k' -> t' = updatesApplied t1 -> Inv k0 t' k'.
Proof.
  intros W1 Hq P S Hrun ->. split; [by apply wf_updatesApplied|apply Quiet_updatesApplied|].
  eapply Sync_teq; [apply _|apply updatesApplied_teq|]. by apply (upd_Sync nft Q k0 t t1 k k').
Qed.

Lemma nftApply_run ran k s k' : nftApply nft ran k s = Some k' -> runFile nft k s = Some k'.
Proof. by destruct ran. Qed.

Lemma reload_Inv k0 en ran t k t' k' :
  wf t -> reload nft en ran t k = (t', k', None) ->
  Inv k0 t' k' /\ k' = view t' /\ Clean t' k' /\ t' = updatesApplied t.
Proof.
  intros W. unfold reload. destruct en; [|done]. cbn [negb].
  destruct (nftApply nft ran k (reloadTempl t)) as [k1|] eqn:Hrun; [|done]. intros [= <- <-].
  apply nftApply_run in Hrun. rewrite (reload_view nft _ _ _ W Hrun).
  assert (Hv : view t = view (updatesApplied t)).
  { unfold view. cbn [VMaps Sets Chains updatesApplied]. by rewrite <- !map_fmap_compose. }
  rewrite Hv. destruct (Sync_view Q k0 (updatesApplied t)) as [S C].
  split; [|done]. split; [by apply wf_updatesApplied|apply Quiet_updatesApplied|done].
Qed.

(** A successful [Apply] of any modifier, in a state with pending updates. *)
Lemma Apply_Inv k0 en r1 r2 tm t0 t k t' k' :
  wf t -> Quiet t0 -> Pend t0 t -> Sync Q k0 t0 k -> Apply nft en r1 r2 tm t k = (t', k', None) ->
  Inv k0 t' k' /\ (MustFlush t0 = true \/ Clean t0 k -> Clean t' k').
Proof.
  intros W Hq P0 S. unfold Apply. destruct en; cbn [negb]; [|done].
  destruct (applyCmds tm t []) as [[t1 rb] err] eqn:Ha.
  destruct (Pend_applyCmds t0 _ _ _ _ _ _ W P0 Ha) as [W1 P]. destruct err; [done|].
  destruct (nftApply nft r1 k _) as [k1|] eqn:Hrun.
  - intros [= <- <-]. apply nftApply_run in Hrun. split; [by apply (Inv_applied k0 t0 k t1)|].
    intros C. eapply Clean_teq; [apply (updatesApplied_teq exact)|]. by apply (upd_Clean nft t0 t1 k k1).
  - destruct (reload nft true r2 t1 k) as [[t2 k2] [e|]] eqn:Hr; [done|]. intros [= <- <-].
    destruct (reload_Inv k0 _ _ _ _ _ _ W1 Hr) as (HI & _ & HC & _). by split.
Qed.

Lemma Apply_Quiet en r1 r2 tm t k : Quiet t -> Quiet (Apply nft en r1 r2 tm t k).1.1.
Proof.
  intros Hq. unfold Apply. destruct en; cbn [negb]; [|done].
  destruct (applyCmds tm t []) as [[t1 rb] err]. destruct err; [apply Quiet_updatesApplied|].
  destruct (nftApply nft r1 k _); [apply Quiet_updatesApplied|]. unfold reload. cbn [negb].
  destruct (nftApply nft r2 k _); apply Quiet_updatesApplied.
Qed.

(** *** [SetBaseChainPolicy] *)

Section Policy.
Context (t : table) (n : string) (c : chain) (p : string).
Context (Hc : Chains t !! n = Some c) (Hty : ChainType c <> "").
Abbreviation changed := (set_Chains t (<[n := set_policy c p true]> (Chains t))).

Lemma policy_wf : wf t -> wf changed.
Proof.
  intros W. apply wf_set_Chains; [done|]. apply map_Forall_insert_keep; [apply W|].
  by destruct (wf_chains _ W _ _ Hc); split.
Qed.

Lemma policy_Pend : Quiet t -> Pend t changed.
Proof.
  intros Hq. apply Pend_insert_chain; [by apply Pend_refl|done|]. right. exists c. split; [done|].
  unfold baseOf. cbn [ChainType set_policy]. by rewrite (proj2 (String.eqb_neq _ _)).
Qed.

Lemma policy_Quiet : Quiet t -> Quiet changed.
Proof.
  intros Hq. destruct Hq as [HD Hv Hs Hf]. split; try done. cbn [MustFlush Chains set_Chains]. intros Hm.
  rewrite (Hf Hm) in Hc. by rewrite lookup_empty in Hc.
Qed.

(** Putting the old policy back restores the table. *)
Lemma policy_restore t1 :
  teq Q t1 changed ->
  teq Q (set_Chains t1 (alter (fun c' => set_policy c' (Policy c) (ch_MustFlush c')) n (Chains t1))) t.
Proof.
  intros [Hn Hf Hch Hv Hs]. split; try done. cbn [Chains set_Chains]. intros j.
  specialize (Hch j). cbn [Chains set_Chains] in Hch. destruct (decide (n = j)) as [<-|Hne].
  - rewrite lookup_insert_eq in Hch. rewrite lookup_alter_eq, Hc. inversion Hch as [x y [] Hx Hy|]; subst.
    constructor. by split.
  - rewrite lookup_insert_ne in Hch by done. by rewrite lookup_alter_ne by done.
Qed.
End Policy.

Lemma SetBaseChainPolicy_Inv k0 en r1 r2 n p t k t' k' err :
  Inv k0 t k -> SetBaseChainPolicy nft en r1 r2 n p t k = (t', k', err) ->
  Inv k0 t' k' /\ (MustFlush t = false -> Clean t k -> Clean t' k') /\ (err <> None -> k' = k /\ teq Q t' t).
Proof.
  intros [W Hq S]. unfold SetBaseChainPolicy.
  assert (Hid : Inv k0 t k /\ (MustFlush t = false -> Clean t k -> Clean t k) /\
    (forall e : nftErr, Some e <> None -> k = k /\ teq Q t t)) by (split; [by split|]; split; [done|]; intros; split; [done|reflexivity]).
  destruct (Chains t !! n) as [c|] eqn:Hc; [|intros [= <- <- <-]; naive_solver].
  destruct (String.eqb_spec (ChainType c) "") as [|Hty]; [intros [= <- <- <-]; naive_solver|]. clear Hid.
  destruct (Apply nft en r1 r2 [] _ k) as [[t1 k1] err1] eqn:Ha.
  pose proof (policy_Quiet t n c p Hc Hq) as Hq1. destruct err1 as [e|].
  - intros [= <- <- <-].
    pose proof (Apply_Quiet en r1 r2 [] _ k Hq1) as Hq2. rewrite Ha in Hq2. cbn [fst] in Hq2.
    destruct (Apply_failed exact nft _ _ _ [] _ _ _ _ _ (policy_wf t n c p Hc W) I (List.Forall_nil _) Ha) as (-> & W1 & E).
    pose proof (policy_restore t n c p Hc t1 E) as Ht.
    split; [|split; [intros _; by eapply Clean_teq|done]]. split; [|..|by eapply Sync_teq; [apply _|..]].
    + apply wf_set_Chains; [done|]. intros j x. rewrite lookup_alter_Some. intros [(-> & y & Hy & ->)|[_ Hy]]; [|by apply W1].
      by destruct (wf_chains _ W1 _ _ Hy); split.
    + destruct Hq2 as [??? Hf]. split; try done. cbn [MustFlush Chains set_Chains]. intros Hm. rewrite (Hf Hm). apply alter_empty || done.
  - intros [= <- <- <-].
    destruct (Apply_Inv k0 _ _ _ _ t _ _ _ _ (policy_wf t n c p Hc W) Hq (policy_Pend t n c p Hc Hty Hq) S Ha) as [HI HC].
    split; [done|]. split; [intros _ ?; apply HC; by right|done].
Qed.
End Operations.
