(* ===== verification/NFTablesTheorems.v ===== *)
(** * Tables of the packet filter: properties

    The kernel stays in step with the table in every run of the operations, an incremental
    update has the effect of a reload, a failed [Apply] restores the table, a reversed
    modifier undoes the original one, and rules keep their position.  The lemmas at the end
    show where the code departs from its documentation. *)

From Stdlib Require Import String.
From stdpp Require Import gmap strings sorting.
From S2P Require Import Prelude SortedMaps NFTables NFTablesSpec NFTablesUndo NFTablesKernel NFTablesSync.

Local Open Scope string_scope.

(** ** Runs *)

Inductive op :=
| OpApply (enabled ran1 ran2 : bool) (tm : Modifier)
| OpReload (enabled ran : bool)
| OpPolicy (enabled ran1 ran2 : bool) (n : string) (p : BaseChainPolicy).

Definition exec nft (o : op) (t : table) (k : kTable) : table * kTable * option nftErr :=
  match o with
  | OpApply en r1 r2 tm => Apply nft en r1 r2 tm t k
  | OpReload en r => Reload nft en r t k
  | OpPolicy en r1 r2 n p => SetBaseChainPolicy nft en r1 r2 n p t k
  end.

(** An [Apply] that fails can only restore what the commands describe; to restore the order
    of rules as well ([exact]) it must not have deleted rules. *)
Definition recoverable (exact : bool) (o : op) (t : table) : Prop :=
  match o with
  | OpApply _ _ _ tm => faithful_cmds tm t /\ Forall (undoable exact) tm
  | _ => True
  end.

Inductive reach nft (exact : bool) (t0 : table) (k0 : kTable) : table -> kTable -> Prop :=
| reach_refl : reach nft exact t0 k0 t0 k0
| reach_op o t k t' k' err : reach nft exact t0 k0 t k -> exec nft o t k = (t', k', err) ->
    (err <> None -> recoverable exact o t) -> reach nft exact t0 k0 t' k'.

Section Runs.
Context (nft : kTable -> nftCmd -> option kTable) `{!NftSpec nft}.
Context (exact : bool).

Lemma Inv_new f name k0 : Inv exact k0 (NewTable f name) k0.
Proof.
  split; [by split| |].
  - by split.
  - split; cbn [Chains VMaps Sets NewTable]; try (intros n x; by rewrite lookup_empty); done.
Qed.

Lemma Apply_MustFlush en r1 r2 tm t k :
  MustFlush (Apply nft en r1 r2 tm t k).1.1 = if en then false else MustFlush t.
Proof.
  unfold Apply. destruct en; cbn [negb]; [|done].
  destruct (applyCmds tm t []) as [[t1 rb] [e|]]; [done|]. destruct (nftApply nft r1 k _); [done|].
  unfold reload. cbn [negb]. by destruct (nftApply nft r2 k _).
Qed.

Lemma Policy_MustFlush en r1 r2 n p t k :
  MustFlush t = false -> MustFlush (SetBaseChainPolicy nft en r1 r2 n p t k).1.1 = false.
Proof.
  intros Hm. unfold SetBaseChainPolicy. destruct (Chains t !! n) as [c|]; [|done]. case_match; [done|].
  pose proof (Apply_MustFlush en r1 r2 [] (set_Chains t (<[n:=set_policy c p true]> (Chains t))) k) as Ha.
  destruct (Apply nft en r1 r2 [] _ k) as [[t1 k1] [e|]]; cbn in *; rewrite Ha; by destruct en.
Qed.

(** Every operation keeps the invariant, and keeps the kernel free of foreign rules. *)
Lemma exec_Inv k0 o t k t' k' err :
  Inv exact k0 t k -> exec nft o t k = (t', k', err) -> (err <> None -> recoverable exact o t) ->
  Inv exact k0 t' k' /\ (MustFlush t = false -> Clean t k -> Clean t' k' /\ MustFlush t' = false).
Proof.
  intros HI He Hrec. pose proof HI as [W Hq S]. destruct o as [en r1 r2 tm|en r|en r1 r2 n p]; cbn [exec] in He.
  - pose proof (Apply_Quiet nft en r1 r2 tm t k Hq) as Hq'. rewrite He in Hq'. cbn [fst] in Hq'.
    assert (Hm : MustFlush t = false -> MustFlush t' = false).
    { intros Hm. pose proof (Apply_MustFlush en r1 r2 tm t k) as Ha. rewrite He in Ha. cbn in Ha.
      rewrite Ha. by destruct en. }
    destruct err as [e|].
    + destruct (Hrec ltac:(done)) as [F U]. destruct (Apply_failed exact nft _ _ _ _ _ _ _ _ _ W F U He) as (-> & W' & E).
      split; [split; [done|done|by eapply Sync_teq; [apply _|..]]|]. intros Hf C. split; [by eapply Clean_teq|by apply Hm].
    + destruct (Apply_Inv nft exact k0 _ _ _ _ t _ _ _ _ W Hq (Pend_refl t Hq) S He) as [HI' HC].
      split; [done|]. intros Hf C. split; [apply HC; by right|by apply Hm].
  - unfold Reload in He. destruct en; cbn [negb] in He; [|by injection He as <- <- <-].
    destruct err as [e|].
    + unfold reload in He. cbn [negb] in He. destruct (nftApply nft r k _); [done|]. by injection He as <- <- <-.
    + destruct (reload_Inv nft exact k0 _ _ _ _ _ _ W He) as (HI' & _ & HC & ->). by split.
  - destruct (SetBaseChainPolicy_Inv nft exact k0 _ _ _ _ _ _ _ _ _ _ HI He) as (HI' & HC & _).
    split; [done|]. intros Hf C. split; [by apply HC|].
    pose proof (Policy_MustFlush en r1 r2 n p t k Hf) as Hp. by rewrite He in Hp.
Qed.

Lemma reach_Inv k1 t0 k0 t k : Inv exact k1 t0 k0 -> reach nft exact t0 k0 t k -> Inv exact k1 t k.
Proof. intros HI. induction 1 as [|o t k t' k' err _ IH He Hr]; [done|]. by eapply exec_Inv. Qed.

Lemma reach_Clean k1 t0 k0 t k :
  Inv exact k1 t0 k0 -> MustFlush t0 = false -> Clean t0 k0 ->
  reach nft exact t0 k0 t k -> Clean t k /\ MustFlush t = false.
Proof.
  intros HI Hm HC Hr. induction Hr as [|o t k t' k' err Hr IH He Hrec]; [done|]. destruct IH as [HC' Hm'].
  eapply exec_Inv; [|done..]. by eapply reach_Inv.
Qed.

(** C10: in every run of [Apply], [Reload] and [SetBaseChainPolicy] on a new table, with an
    [nft] that follows its rules ([NftSpec]) and may fail at any time, and whatever the
    kernel had under the name of the table, the table is well formed and the kernel is in
    step with it: every chain of the table is in the kernel with its rules and, unless it is
    a regular chain that was there before, its settings; every map and set with its type,
    flags and elements, except that one without elements may be missing; and everything else
    in the kernel was there at the beginning.  Every [Apply] that fails deletes chains, maps
    and sets by commands that describe them as they are and creates no rule of empty text
    ([faithful_cmds]).  Rules are in their order if no failed [Apply] has deleted rules
    ([exact]), and up to their order within a group otherwise. *)
Theorem nft_in_step f name k0 t k :
  reach nft exact (NewTable f name) k0 t k -> wf t /\ Sync (ruleRel exact) k0 t k.
Proof. intros Hr. destruct (reach_Inv k0 _ _ _ _ (Inv_new f name k0) Hr). done. Qed.

(** when the first [Apply] on a new table succeeds, the chains that an earlier daemon left
    behind have no rules, and that remains so. *)
Theorem nft_leftovers_flushed f name k0 en r1 r2 tm t1 k1 t k :
  Apply nft en r1 r2 tm (NewTable f name) k0 = (t1, k1, None) -> reach nft exact t1 k1 t k ->
  forall n kc, k_chains k !! n = Some kc -> Chains t !! n = None -> kc_rules kc = [].
Proof.
  intros Ha Hr. pose proof (Inv_new f name k0) as [W Hq S].
  destruct (Apply_Inv nft exact k0 _ _ _ _ _ _ _ _ _ W Hq (Pend_refl _ Hq) S Ha) as [HI HC].
  assert (Hm : MustFlush t1 = false).
  { pose proof (Apply_MustFlush en r1 r2 tm (NewTable f name) k0) as Hp. rewrite Ha in Hp. cbn in Hp.
    rewrite Hp. destruct en; [done|]. by unfold Apply in Ha. }
  destruct (reach_Clean k0 _ _ _ _ HI Hm (HC (or_introl eq_refl)) Hr) as [HCl _]. exact HCl.
Qed.
End Runs.

(** ** Incremental updates and reloads *)

Section Reloads.
Context (nft : kTable -> nftCmd -> option kTable) `{!NftSpec nft}.

Lemma Rules_eq c1 c2 : chain_eq eq c1 c2 -> Rules c1 = Rules c2.
Proof.
  intros [_ _ _ _ _ Hg]. unfold Rules. enough (ruleGroups c1 = ruleGroups c2) as -> by done.
  apply map_eq. intros g. by destruct (Hg g) as [l1 l2 ->|].
Qed.

Lemma Sync_chains t k : Sync eq emptyKernel t k -> k_chains k = k_chains (view t).
Proof.
  intros S. apply map_eq. intros n. cbn [view k_chains]. rewrite lookup_fmap.
  destruct (Chains t !! n) as [c|] eqn:Hc.
  - destruct (sy_chain _ _ _ _ S n c Hc) as (kc & c' & -> & He & Hr & Hb). cbn. f_equal.
    destruct kc as [b rs]. cbn in *. unfold chainView. rewrite Hr, (Rules_eq _ _ He), Hb; [done|].
    right. apply lookup_empty.
  - apply eq_None_not_Some. intros Hk. destruct (sy_chain_only _ _ _ _ S n Hk Hc) as [x Hx].
    by exact (lookup_empty_Some _ _ Hx).
Qed.

(** C11: on a host without the table, with an [nft] that follows its rules, incremental updates
    leave the kernel with the same chains, base chain settings and rules in the same order
    as a full reload would, and with the same maps and sets, except that a map or a set
    without elements may be missing; and a reload gives exactly the contents of the table.
    No [Apply] that failed has deleted a rule, and each of them deletes chains, maps and sets
    by commands that describe them as they are and creates no rule of empty text. *)
Theorem nft_update_is_reload f name t k :
  reach nft true (NewTable f name) emptyKernel t k ->
  k_chains k = k_chains (view t) /\
  (forall n, k_maps k !! n = k_maps (view t) !! n \/
     k_maps k !! n = None /\ exists v, VMaps t !! n = Some v /\ vm_Elements v = ∅) /\
  (forall n, k_sets k !! n = k_sets (view t) !! n \/
     k_sets k !! n = None /\ exists s, Sets t !! n = Some s /\ st_Elements s = ∅) /\
  (forall en ran t' k', Reload nft en ran t k = (t', k', None) -> k' = view t).
Proof.
  intros Hr. destruct (reach_Inv nft true emptyKernel _ _ _ _ (Inv_new true f name emptyKernel) Hr) as [W _ S].
  split; [by apply Sync_chains|]. split; [|split].
  - intros n. cbn [view k_maps]. rewrite lookup_fmap. destruct (VMaps t !! n) as [v|] eqn:Hv.
    + destruct (sy_map _ _ _ _ S n v Hv) as [->|[-> He]]; [by left|right]. eauto.
    + left. apply eq_None_not_Some. intros Hk. destruct (sy_map_only _ _ _ _ S n Hk Hv) as [x Hx].
      by exact (lookup_empty_Some _ _ Hx).
  - intros n. cbn [view k_sets]. rewrite lookup_fmap. destruct (Sets t !! n) as [v|] eqn:Hv.
    + destruct (sy_set _ _ _ _ S n v Hv) as [->|[-> He]]; [by left|right]. eauto.
    + left. apply eq_None_not_Some. intros Hk. destruct (sy_set_only _ _ _ _ S n Hk Hv) as [x Hx].
      by exact (lookup_empty_Some _ _ Hx).
  - intros en ran t' k'. unfold Reload, reload. destruct en; cbn [negb]; [|done].
    destruct (nftApply nft ran k (reloadTempl t)) as [k1|] eqn:Hrun; [|done]. intros [= _ <-].
    eapply reload_view; [done|done|by eapply nftApply_run].
Qed.
End Reloads.

(** ** Failure and reversal *)

(** C12: an [Apply] that returns an error, because a command is refused or because [nft]
    fails for the update and for the reload, leaves the kernel as it was and the table, which
    was well formed, as it was up to the order of rules in a group and to pending changes.
    Its commands delete chains, base chains, maps and sets as they are and create no rule of
    empty text ([faithful_cmds]).  If no rule is deleted and [nft] is enabled, the table is
    exactly what [updatesApplied] makes of the old one: the same contents, nothing pending,
    and no flush asked for. *)
Theorem nft_failed_apply nft en r1 r2 tm t k t' k' e :
  wf t -> faithful_cmds tm t -> Apply nft en r1 r2 tm t k = (t', k', Some e) ->
  k' = k /\ teq Permutation t' t /\
  (Forall (undoable true) tm -> en = true -> t' = updatesApplied t).
Proof.
  intros W F Ha.
  destruct (Apply_failed false nft en r1 r2 tm t k t' k' e W F) as (-> & _ & E); [|done|].
  { apply Forall_forall. intros c _. by unfold undoable. }
  split; [done|]. split; [done|]. intros U Hen.
  destruct (Apply_failed true nft en r1 r2 tm t k t' k e W F U Ha) as (_ & _ & E').
  apply teq_exact in E'. rewrite <- E'. symmetry. rewrite Hen in Ha. revert Ha. unfold Apply, reload. cbn [negb].
  assert (Hidem : forall t, updatesApplied (updatesApplied t) = updatesApplied t).
  { intros x. unfold updatesApplied. cbn. by rewrite <- !map_fmap_compose. }
  destruct (applyCmds tm t []) as [[t1 rb] [e1|]]; [by intros [= <- _]|].
  destruct (nftApply nft r1 k _); [done|]. destruct (nftApply nft r2 k _); [done|]. by intros [= <- _].
Qed.

(** after an [Apply] in which every command took effect, applying the reversed modifier
    is refused by no command (it can only fail in [nft]), and when it succeeds the table is
    the original one, exactly if no rule was deleted and up to the order of rules in a group
    otherwise. *)
Theorem nft_reverse nft (exact en r1 r2 en' r1' r2' : bool) tm t k t1 k1 k1' t2 k2 err :
  wf t -> faithful_cmds tm t -> Forall (undoable exact) tm ->
  (applyCmds tm t []).1.2 = tm ->
  Apply nft en r1 r2 tm t k = (t1, k1, None) ->
  Apply nft en' r1' r2' (Reverse tm) t1 k1' = (t2, k2, err) ->
  match err with
  | None => teq (ruleRel exact) t2 t
  | Some e => e = ErrNft \/ en' = false
  end.
Proof.
  intros W F U Hall Ha Hb.
  assert (Ht1 : exists t', applyCmds tm t [] = (t', tm, None) /\ t1 = updatesApplied t').
  { revert Ha. unfold Apply, reload. destruct en; cbn [negb]; [|done].
    destruct (applyCmds tm t []) as [[t' rb] [e|]]; [done|]. cbn in Hall. subst rb.
    destruct (nftApply nft r1 k _); [intros [= <- _]; eauto|].
    destruct (nftApply nft r2 k _); [intros [= <- _]; eauto|done]. }
  destruct Ht1 as (t' & Happ & ->).
  destruct (applyCmds_Reverse exact tm t t' [] (updatesApplied t') [] W F U Happ (updatesApplied_teq exact t'))
    as (t3 & Hrev & He3).
  revert Hb. unfold Apply, reload. rewrite Hrev. destruct en'; cbn [negb]; [|intros [= _ _ <-]; by right].
  destruct (nftApply nft r1' k1' _).
  { intros [= <- _ <-]. etrans; [apply updatesApplied_teq|done]. }
  destruct (nftApply nft r2' k1' _); [|intros [= _ _ <-]; by left].
  intros [= <- _ <-]. etrans; [apply updatesApplied_teq|done].
Qed.

(** ** The position of rules *)

Definition rulesOf (g : gmap Z (list string)) : list string :=
  mjoin (map (fun i => default [] (g !! i)) (merge_sort Z.le (map_to_list g).*1)).

Definition groupKeys (g : gmap Z (list string)) : list Z := merge_sort Z.le (map_to_list g).*1.

Lemma elem_of_groupKeys g i : i ∈ groupKeys g <-> is_Some (g !! i).
Proof.
  unfold groupKeys. rewrite merge_sort_Permutation, list_elem_of_fmap. split.
  - intros ([j x] & -> & Hx%elem_of_map_to_list). eauto.
  - intros [x Hx]. exists (i, x). split; [done|]. by apply elem_of_map_to_list.
Qed.

Lemma groupKeys_NoDup g : NoDup (groupKeys g).
Proof. unfold groupKeys. rewrite merge_sort_Permutation. apply NoDup_fst_map_to_list. Qed.

Lemma groupKeys_sorted g : StronglySorted Z.le (groupKeys g).
Proof. apply StronglySorted_merge_sort; apply _. Qed.

(** The keys below, at and above a group, in order. *)
Lemma groupKeys_split g i :
  groupKeys g = (groupKeys (filter (fun kv => (kv.1 < i)%Z) g)
                 ++ match g !! i with Some _ => [i] | None => [] end
                 ++ groupKeys (filter (fun kv => (i < kv.1)%Z) g))%list.
Proof.
  assert (Hlo : forall j, j ∈ groupKeys (filter (fun kv => (kv.1 < i)%Z) g) <-> is_Some (g !! j) /\ j < i).
  { intros j. rewrite elem_of_groupKeys. unfold is_Some. setoid_rewrite map_lookup_filter_Some. naive_solver. }
  assert (Hhi : forall j, j ∈ groupKeys (filter (fun kv => (i < kv.1)%Z) g) <-> is_Some (g !! j) /\ i < j).
  { intros j. rewrite elem_of_groupKeys. unfold is_Some. setoid_rewrite map_lookup_filter_Some. naive_solver. }
  assert (Hmid : forall j, j ∈ match g !! i with Some _ => [i] | None => [] end <-> is_Some (g !! j) /\ j = i).
  { intros j. destruct (g !! i) as [l|] eqn:E.
    - rewrite list_elem_of_singleton. split; [|tauto]. intros ->. by rewrite E.
    - rewrite elem_of_nil. split; [done|]. intros [[x Hx] ->]. congruence. }
  apply (StronglySorted_unique Z.le); [apply groupKeys_sorted|..].
  - apply StronglySorted_app. split; [|split; [apply groupKeys_sorted|apply StronglySorted_app; split; [|split]]].
    + intros x y [_ Hx]%Hlo. rewrite elem_of_app, Hmid, Hhi. lia.
    + intros x y [_ ->]%Hmid [_ Hy]%Hhi. lia.
    + destruct (g !! i); repeat constructor.
    + apply groupKeys_sorted.
  - apply NoDup_Permutation; [apply groupKeys_NoDup|..].
    + apply list.NoDup_app. split; [apply groupKeys_NoDup|]. split.
      * intros x [_ Hx]%Hlo. rewrite elem_of_app, Hmid, Hhi. lia.
      * apply list.NoDup_app. split; [|split; [|apply groupKeys_NoDup]].
        -- destruct (g !! i); [apply NoDup_singleton|constructor].
        -- intros x [_ Hx]%Hmid. rewrite Hhi. lia.
    + intros j. rewrite !elem_of_app, Hlo, Hmid, Hhi, elem_of_groupKeys.
      split; [intros H; destruct (Z.lt_trichotomy j i) as [|[|]]; tauto|tauto].
Qed.

Lemma rulesOf_split g i :
  rulesOf g = (rulesOf (filter (fun kv => (kv.1 < i)%Z) g) ++ default [] (g !! i)
               ++ rulesOf (filter (fun kv => (i < kv.1)%Z) g))%list.
Proof.
  unfold rulesOf. fold (groupKeys g). rewrite (groupKeys_split g i), !map_app.
  assert (Happ : forall (a b : list (list string)), mjoin (a ++ b)%list = (mjoin a ++ mjoin b)%list)
    by (intros; apply join_app).
  rewrite !Happ. f_equal; [|f_equal].
  - f_equal. apply map_ext_in. intros j Hj%list_elem_of_In. apply elem_of_groupKeys in Hj as [x Hx].
    rewrite Hx. by apply map_lookup_filter_Some in Hx as [-> _].
  - destruct (g !! i) as [l|] eqn:Hl; [|done]. cbn. rewrite Hl. apply app_nil_r.
  - f_equal. apply map_ext_in. intros j Hj%list_elem_of_In. apply elem_of_groupKeys in Hj as [x Hx].
    rewrite Hx. by apply map_lookup_filter_Some in Hx as [-> _].
Qed.

(** a chain's rules are those of the lower groups, those of the group of the rule and
    those of the higher groups; creating a rule puts it after the others of its group,
    deleting one removes it, and all other rules keep their order. *)
Theorem rule_position ru t t' c :
  Chains t !! ru_Chain ru = Some c ->
  exists before group after, Rules c = (before ++ group ++ after)%list /\
    before = rulesOf (filter (fun kv => (kv.1 < ru_Group ru)%Z) (ruleGroups c)) /\
    group = default [] (ruleGroups c !! ru_Group ru) /\
    (Rule_create ru t = (t', inr true) ->
       exists c', Chains t' = <[ru_Chain ru := c']> (Chains t) /\
       Rules c' = (before ++ (group ++ [ruleText ru]) ++ after)%list) /\
    (Rule_delete ru t = (t', inr true) ->
       exists c'', Chains t' = <[ru_Chain ru := c'']> (Chains t) /\
       Rules c'' = (before ++ filter (fun r => r <> ruleText ru) group ++ after)%list).
Proof.
  intros Hc. set (i := ru_Group ru). set (g := ruleGroups c).
  exists (rulesOf (filter (fun kv => (kv.1 < i)%Z) g)), (default [] (g !! i)), (rulesOf (filter (fun kv => (i < kv.1)%Z) g)).
  assert (Hsame : forall g' : gmap Z (list string), (forall j, j <> i -> g' !! j = g !! j) ->
    Rules (set_rules c g') = (rulesOf (filter (fun kv => (kv.1 < i)%Z) g) ++ default [] (g' !! i)
       ++ rulesOf (filter (fun kv => (i < kv.1)%Z) g))%list).
  { intros g' Hg'. change (Rules (set_rules c g')) with (rulesOf g'). rewrite (rulesOf_split g' i).
    assert (Hf : forall P : Z * list string -> Prop, forall HP : (forall x, Decision (P x)), (forall x, P x -> x.1 <> i) ->
      filter P g' = filter P g).
    { intros P HP Hne. apply map_eq. intros j. apply option_eq. intros x. rewrite !map_lookup_filter_Some.
      split; intros [Hj Hp]; (split; [|done]); [rewrite <- Hg'|rewrite Hg']; try done; by apply (Hne (j, x)). }
    rewrite !Hf by (intros; lia). done. }
  split; [exact (rulesOf_split g i)|]. split; [done|]. split; [done|]. split.
  - unfold Rule_create. rewrite Hc. destruct (ru_Rule ru); [done|]. cbv zeta. case_decide; [by case_match|].
    intros [= <-]. eexists. split; [done|]. rewrite Hsame by (intros; by apply lookup_insert_ne). by rewrite lookup_insert_eq.
  - unfold Rule_delete. rewrite Hc. case_match; [done|]. fold i g. destruct (g !! i) as [rg|]; [|by case_match].
    cbv zeta. case_match; [by case_match|]. intros [= <-]. eexists. split; [done|]. cbn [default from_option id].
    destruct (filter (fun r => r <> ruleText ru) rg) as [|x l].
    + rewrite Hsame by (intros; by apply lookup_delete_ne). by rewrite lookup_delete_eq.
    + rewrite Hsame by (intros; by apply lookup_insert_ne). by rewrite lookup_insert_eq.
Qed.

(** ** A concrete nft

    It refuses what its assumptions say, and commands on objects that do not exist. *)

Definition nft0_accepts (k : kTable) (c : nftCmd) : bool :=
  match c with
  | AddMap n ty fl _ => match k_maps k !! n with Some m => bool_decide (km_type m = ty /\ km_flags m = fl) | None => true end
  | AddSet n ty fl _ => match k_sets k !! n with Some s => bool_decide (ks_type s = ty /\ ks_flags s = fl) | None => true end
  | FlushMap n | DeleteMap n | AddMapElems n _ => bool_decide (is_Some (k_maps k !! n))
  | FlushSet n | DeleteSet n | AddSetElems n _ => bool_decide (is_Some (k_sets k !! n))
  | FlushChain n | DeleteChain n => bool_decide (is_Some (k_chains k !! n))
  | DeleteMapElems n ks => match k_maps k !! n with
      Some m => forallb (fun x => bool_decide (is_Some (km_elems m !! x))) ks | None => false end
  | DeleteSetElems n ks => match k_sets k !! n with
      Some s => forallb (fun x => bool_decide (x ∈ ks_elems s)) ks | None => false end
  | _ => true
  end.

Definition nft0 (k : kTable) (c : nftCmd) : option kTable :=
  if nft0_accepts k c then Some (nftEffect k c) else None.

#[export] Instance nft0_spec : NftSpec nft0.
Proof.
  split; unfold nft0.
  - intros k c k'. destruct (nft0_accepts k c); [by intros [= <-]|done].
  - intros k n ty fl es m H Hm. cbn [nft0_accepts] in H. rewrite Hm in H.
    case_bool_decide; [done|]. by destruct H.
  - intros k n ty fl es m H Hm. cbn [nft0_accepts] in H. rewrite Hm in H.
    case_bool_decide; [done|]. by destruct H.
  - intros k n kvs H. cbn [nft0_accepts] in H. case_bool_decide; [done|]. by destruct H.
  - intros k n es H. cbn [nft0_accepts] in H. case_bool_decide; [done|]. by destruct H.
Qed.

(** A modifier with a chain, rules in two groups, a map with an element and a set. *)
Definition demo : Modifier :=
  [ mkCommand (OBaseChain (mkBaseChain "fwd" "filter" "forward" 0 "")) false;
    mkCommand (OChain "net") false;
    mkCommand (ORule (mkRule "fwd" 2 ["counter"; "accept"] false)) false;
    mkCommand (ORule (mkRule "fwd" 1 ["iifname vmap @in"] false)) false;
    mkCommand (OVMap (mkVMapObj "in" "ifname" [])) false;
    mkCommand (OVMapElement (mkVMapElement "in" "br0" "jump net")) false;
    mkCommand (OSet (mkSetObj "ports" "inet_service" [])) false;
    mkCommand (OSetElement (mkSetElement "ports" "80")) false ].

Definition start : table := NewTable IPv4 "docker-bridges".
Definition demo1 : table * kTable * option nftErr := Apply nft0 true true true demo start emptyKernel.

Example demo_kernel :
  k_chains demo1.1.2 !! "fwd" = Some (mkKChain (Some (mkBase "filter" "forward" 0 "accept"))
                                        ["iifname vmap @in"; "counter accept"]) /\
  k_maps demo1.1.2 !! "in" = Some (mkKMap "ifname" [] {["br0" := "jump net"]}).
Proof. by vm_compute. Qed.

(** A modifier that is refused at its second command. *)
Definition refused : Modifier := [mkCommand (OChain "x") false; mkCommand (OChain "") false].

Lemma reach_demo k0 :
  (Apply nft0 true true true demo start k0).2 = None ->
  reach nft0 true start k0 (Apply nft0 true true true demo start k0).1.1 (Apply nft0 true true true demo start k0).1.2.
Proof.
  intros Hok. eapply (reach_op _ _ _ _ (OpApply true true true demo) start k0); [constructor| |].
  - cbn [exec]. rewrite <- !surjective_pairing. reflexivity.
  - by rewrite Hok.
Qed.

Lemma reach_refused t0 k0 t k :
  reach nft0 true t0 k0 t k ->
  reach nft0 true t0 k0 (Apply nft0 true true true refused t k).1.1 (Apply nft0 true true true refused t k).1.2.
Proof.
  intros Hr. eapply (reach_op _ _ _ _ (OpApply true true true refused) t k); [done| |].
  - cbn [exec]. rewrite <- !surjective_pairing. reflexivity.
  - intros _. split; [|repeat constructor; by unfold undoable]. cbn [faithful_cmds refused faithful obj cdelete].
    split; [done|]. destruct (cmd_apply _ t) as [t1 [|]]; [done|]. split; [done|]. by destruct (cmd_apply _ t1) as [? []].
Qed.

(** The state after [demo] and a refused modifier. *)
Definition demo2 : table * kTable * option nftErr := Apply nft0 true true true refused demo1.1.1 demo1.1.2.

Lemma nft_in_step_witness :
  demo2.2 = Some ErrNoName /\ wf demo2.1.1 /\ Sync (ruleRel true) emptyKernel demo2.1.1 demo2.1.2.
Proof.
  split; [by vm_compute|]. apply (nft_in_step nft0 true IPv4 "docker-bridges" emptyKernel).
  apply reach_refused, reach_demo. by vm_compute.
Defined.

Lemma nft_update_is_reload_witness :
  demo2.2 = Some ErrNoName /\ k_chains demo2.1.2 = k_chains (view demo2.1.1).
Proof.
  split; [by vm_compute|].
  apply (nft_update_is_reload nft0 IPv4 "docker-bridges" demo2.1.1 demo2.1.2).
  apply reach_refused, reach_demo. by vm_compute.
Defined.

(** A kernel where an earlier daemon left a chain with a rule. *)
Definition leftover : kTable := mkKTable ∅ ∅ {["old" := mkKChain None ["drop"]]}.

Lemma nft_leftovers_flushed_witness :
  k_chains (Apply nft0 true true true demo start leftover).1.2 !! "old" = Some (mkKChain None []) /\
  kc_rules (mkKChain None []) = [].
Proof.
  assert (Hk : k_chains (Apply nft0 true true true demo start leftover).1.2 !! "old" = Some (mkKChain None []))
    by (by vm_compute).
  split; [exact Hk|].
  refine (nft_leftovers_flushed nft0 true IPv4 "docker-bridges" leftover true true true demo
    (Apply nft0 true true true demo start leftover).1.1 (Apply nft0 true true true demo start leftover).1.2
    _ _ _ (reach_refl _ _ _ _) "old" _ Hk _).
  - assert (He : (Apply nft0 true true true demo start leftover).2 = None) by (by vm_compute).
    rewrite <- He, <- !surjective_pairing. reflexivity.
  - by vm_compute.
Defined.

Lemma demo1_wf : wf demo1.1.1.
Proof.
  apply (inv_wf true emptyKernel _ demo1.1.2), (reach_Inv nft0 true emptyKernel start emptyKernel);
    [apply Inv_new|]. apply reach_demo. by vm_compute.
Qed.

Lemma nft_failed_apply_witness :
  (applyCmds refused demo1.1.1 []).1.2 = [mkCommand (OChain "x") false] /\
  demo2.1.2 = demo1.1.2 /\ demo2.1.1 = updatesApplied demo1.1.1.
Proof.
  assert (F : faithful_cmds refused demo1.1.1) by (by vm_compute).
  assert (U : Forall (undoable true) refused) by (repeat constructor; by unfold undoable).
  assert (He : demo2.2 = Some ErrNoName) by (by vm_compute).
  split; [by vm_compute|].
  destruct (nft_failed_apply nft0 true true true refused demo1.1.1 demo1.1.2 demo2.1.1 demo2.1.2 ErrNoName
    demo1_wf F) as (Hk & _ & Ht).
  - rewrite <- He, <- !surjective_pairing. reflexivity.
  - split; [exact Hk|]. exact (Ht U eq_refl).
Defined.

(** Removing what [demo] has created. *)
Definition undone : table * kTable * option nftErr := Apply nft0 true true true (Reverse demo) demo1.1.1 demo1.1.2.

Lemma nft_reverse_witness : undone.2 = None /\ teq eq undone.1.1 start.
Proof.
  assert (Hu : undone.2 = None) by (by vm_compute).
  split; [exact Hu|].
  refine (nft_reverse nft0 true true true true true true true demo start emptyKernel demo1.1.1 demo1.1.2 demo1.1.2
    undone.1.1 undone.1.2 None (inv_wf _ _ _ _ (Inv_new true IPv4 "docker-bridges" emptyKernel)) _ _ _ _ _).
  - vm_compute. by repeat split.
  - repeat constructor; by unfold undoable.
  - by vm_compute.
  - assert (He : demo1.2 = None) by (by vm_compute). rewrite <- He. unfold demo1. by rewrite <- !surjective_pairing.
  - rewrite <- Hu. unfold undone. by rewrite <- !surjective_pairing.
Defined.

Lemma rule_position_witness :
  exists before group after c, Chains demo1.1.1 !! "fwd" = Some c /\
  Rules c = (before ++ group ++ after)%list /\ group = ["counter accept"].
Proof.
  destruct (Chains demo1.1.1 !! "fwd") as [c|] eqn:Hc; [|by vm_compute in Hc].
  destruct (rule_position (mkRule "fwd" 2 ["drop"] false) demo1.1.1 demo1.1.1 c Hc)
    as (before & group & after & Hr & _ & Hg & _).
  exists before, group, after, c. split; [done|]. split; [done|]. rewrite Hg. cbn [ru_Group].
  vm_compute in Hc. injection Hc as <-. by vm_compute.
Defined.

(** ** Departures from the documentation *)

(** "[Apply]: the [Table] will be unmodified" on an error: a rule that was deleted before
    the error comes back behind the other rules of its group, while the kernel keeps the
    order; the chain is not marked for an update. *)
Definition refusedDelete : Modifier :=
  [mkCommand (ORule (mkRule "c" 0 ["a"] false)) true; mkCommand (OChain "") false].
Definition twoRules : Modifier :=
  [mkCommand (OChain "c") false; mkCommand (ORule (mkRule "c" 0 ["a"] false)) false;
   mkCommand (ORule (mkRule "c" 0 ["b"] false)) false].
Definition twoRules1 := Apply nft0 true true true twoRules start emptyKernel.
Definition reordered := Apply nft0 true true true refusedDelete twoRules1.1.1 twoRules1.1.2.

Lemma failed_apply_reorders :
  reordered.2 = Some ErrNoName /\
  Rules <$> Chains reordered.1.1 !! "c" = Some ["b"; "a"] /\
  kc_rules <$> k_chains reordered.1.2 !! "c" = Some ["a"; "b"] /\
  ch_MustFlush <$> Chains reordered.1.1 !! "c" = Some false.
Proof. by vm_compute. Qed.

(** A base chain deleted by its name alone comes back as a regular chain. *)
Definition baseOnly : Modifier := [mkCommand (OBaseChain (mkBaseChain "c" "filter" "forward" 0 "drop")) false].
Definition refusedChainDelete : Modifier := [mkCommand (OChain "c") true; mkCommand (OChain "") false].
Definition baseOnly1 := Apply nft0 true true true baseOnly start emptyKernel.

Lemma failed_apply_retypes :
  baseOf <$> Chains baseOnly1.1.1 !! "c" = Some (Some (mkBase "filter" "forward" 0 "drop")) /\
  baseOf <$> Chains (Apply nft0 true true true refusedChainDelete baseOnly1.1.1 baseOnly1.1.2).1.1 !! "c" = Some None.
Proof. by vm_compute. Qed.

(** A rule made of empty strings is accepted, and can then be removed neither by [Delete] nor
    by the roll-back. *)
Definition emptyRule : Modifier :=
  [mkCommand (OChain "c") false; mkCommand (ORule (mkRule "c" 0 [""] false)) false; mkCommand (OChain "") false].

Lemma empty_rule_stays :
  (Apply nft0 true true true emptyRule start emptyKernel).2 = Some ErrNoName /\
  Rules <$> Chains (Apply nft0 true true true emptyRule start emptyKernel).1.1 !! "c" = Some [""].
Proof. by vm_compute. Qed.

(** "It's flushed in case it already exists": an error in the first [Apply] clears
    [MustFlush], so the next one leaves the rules of an earlier daemon in place. *)
Definition afterRefused := Apply nft0 true true true refused start leftover.

Lemma failed_first_apply_keeps_leftovers :
  afterRefused.2 = Some ErrNoName /\ MustFlush afterRefused.1.1 = false /\
  (Apply nft0 true true true demo afterRefused.1.1 afterRefused.1.2).2 = None /\
  k_chains (Apply nft0 true true true demo afterRefused.1.1 afterRefused.1.2).1.2 !! "old" = Some (mkKChain None ["drop"]).
Proof. by vm_compute. Qed.

(** A map that one modifier deletes and creates again is in the table but not in the kernel:
    the command to delete it comes after its declaration. *)
Definition oneMap : Modifier := [mkCommand (OVMap (mkVMapObj "m" "ifname" [])) false].
Definition recreate : Modifier :=
  [mkCommand (OVMap (mkVMapObj "m" "ifname" [])) true; mkCommand (OVMap (mkVMapObj "m" "ifname" [])) false].
Definition oneMap1 := Apply nft0 true true true oneMap start emptyKernel.

Lemma recreated_map_missing :
  k_maps oneMap1.1.2 !! "m" = Some (mkKMap "ifname" [] ∅) /\
  (Apply nft0 true true true recreate oneMap1.1.1 oneMap1.1.2).2 = None /\
  vm_ElementType <$> VMaps (Apply nft0 true true true recreate oneMap1.1.1 oneMap1.1.2).1.1 !! "m" = Some "ifname" /\
  k_maps (Apply nft0 true true true recreate oneMap1.1.1 oneMap1.1.2).1.2 !! "m" = None.
Proof. by vm_compute. Qed.
