(* ===== verification/Datastore.v ===== *)
(** * The datastore of libnetwork

    Model of [daemon/libnetwork/internal/kvstore/boltdb/boltdb.go] (a key-value store with an
    index per entry for optimistic locking, in one bucket of a bbolt database),
    [daemon/libnetwork/datastore/cache.go] and [datastore.go] (objects in front of it), and
    of [updateToStore] and [deleteFromStore] of [daemon/libnetwork/store.go].

    Objects are shared: the cache keeps pointers to the objects of its callers, so objects
    live in a heap and the cache maps keys to pointers.  The types of objects (networks,
    endpoints, configurations of drivers) are the class [KVObject].  A bucket of bbolt is a
    finite map whose cursor visits keys in order; a transaction takes effect as a whole or,
    when it cannot be started or committed, not at all ([fault]). *)

From Stdlib Require Import String.
From stdpp Require Import gmap strings.
From S2P Require Import Prelude SortedMaps.

Local Open Scope string_scope.

Inductive kvErr :=
| ErrKeyModified | ErrKeyNotFound | ErrPreviousNotSpecified | ErrKeyExists
| ErrDB          (* the transaction failed *)
| ErrInvalidParameter
| ErrUnmarshal.

Record KVPair := mkKVPair { kvKey : string; kvValue : list Z; LastIndex : Z }.

(** ** The key-value store *)

Module BoltDB.

(** [bucket] is [None] until the bucket is created. *)
Record BoltDB := mkBoltDB { bucket : option (gmap string (list Z)); dbIndex : Z }.

(** [New]: the index starts at zero, whatever the file has. *)
Definition New (file : option (gmap string (list Z))) : BoltDB := mkBoltDB file 0.

Inductive fault := NoFault | BeginFault | CommitFault.

Definition libkvmetadatalen : nat := 8.

(** [binary.LittleEndian.AppendUint64] in front of the value, and its inverse; slicing a
    shorter value panics. *)
Definition encode (index : Z) (value : list Z) : list Z := (rev (be_put 8 index) ++ value)%list.
Definition decodeIndex (v : list Z) : option Z :=
  if (length v <? libkvmetadatalen)%nat then None else Some (be_get 0 (rev (take libkvmetadatalen v))).
Definition decodeValue (v : list Z) : list Z := drop libkvmetadatalen v.

Abbreviation res A := (BoltDB * go_result kvErr A)%type.

(** The end of [Update]: the index was advanced, the bucket changes if the commit succeeds. *)
Definition commit {A} (f : fault) (b : BoltDB) (index : Z) (m : gmap string (list Z)) (a : A) : res A :=
  match f with
  | CommitFault => (mkBoltDB (bucket b) index, GoErr ErrDB)
  | _ => (mkBoltDB (Some m) index, GoOk a)
  end.

Definition Put (f : fault) (key : string) (value : list Z) (b : BoltDB) : res unit :=
  match f with
  | BeginFault => (b, GoErr ErrDB)
  | _ =>
      let index := add64 (dbIndex b) 1 in
      commit f b index (<[key := encode index value]> (default ∅ (bucket b))) tt
  end.

Definition Exists (f : fault) (key : string) (b : BoltDB) : go_result kvErr bool :=
  match f with
  | BeginFault => GoErr ErrDB
  | _ =>
      match bucket b with
      | None => GoErr ErrKeyNotFound
      | Some m =>
          if (0 <? length (default [] (m !! key)))%nat then GoOk true else GoErr ErrKeyNotFound
      end
  end.

(** The loop of [List] over the entries at the cursor. *)
Fixpoint listEntries (l : list (string * list Z)) : option (list KVPair) :=
  match l with
  | [] => Some []
  | (k, v) :: l =>
      match decodeIndex v, listEntries l with
      | Some i, Some kvs => Some (mkKVPair k (decodeValue v) i :: kvs)
      | _, _ => None
      end
  end.

Definition List (f : fault) (keyPrefix : string) (b : BoltDB) : go_result kvErr (list KVPair) :=
  match f with
  | BeginFault => GoErr ErrDB
  | _ =>
      match bucket b with
      | None => GoErr ErrKeyNotFound
      | Some m =>
          match listEntries (whilePrefix keyPrefix (seek keyPrefix (sortedMap m))) with
          | None => GoPanic
          | Some [] => GoErr ErrKeyNotFound
          | Some kvs => GoOk kvs
          end
      end
  end.

Definition AtomicDelete (f : fault) (key : string) (previous : option Z) (b : BoltDB) : res unit :=
  match previous with
  | None => (b, GoErr ErrPreviousNotSpecified)
  | Some previous =>
      match f with
      | BeginFault => (b, GoErr ErrDB)
      | _ =>
          match bucket b with
          | None => (b, GoErr ErrKeyNotFound)
          | Some m =>
              match m !! key with
              | None => (b, GoErr ErrKeyNotFound)
              | Some val =>
                  match decodeIndex val with
                  | None => (b, GoPanic)
                  | Some index =>
                      if negb (Z.eqb index previous) then (b, GoErr ErrKeyModified)
                      else commit f b (dbIndex b) (delete key m) tt
                  end
              end
          end
      end
  end.

Definition Delete (f : fault) (key : string) (b : BoltDB) : res unit :=
  match f with
  | BeginFault => (b, GoErr ErrDB)
  | _ =>
      match bucket b with
      | None => (b, GoErr ErrKeyNotFound)
      | Some m =>
          match m !! key with
          | None => (b, GoErr ErrKeyNotFound)
          | Some _ => commit f b (dbIndex b) (delete key m) tt
          end
      end
  end.

(** The checks of [AtomicPut] inside of the transaction. *)
Definition checkPut (key : string) (previous : option Z) (b : BoltDB) : go_result kvErr unit :=
  match bucket b, previous with
  | None, Some _ => GoErr ErrKeyNotFound
  | bk, _ =>
      let val := default [] (default ∅ bk !! key) in
      match previous with
      | None => match val with [] => GoOk tt | _ => GoErr ErrKeyExists end
      | Some previous =>
          match val with
          | [] => GoErr ErrKeyNotFound
          | _ =>
              match decodeIndex val with
              | None => GoPanic
              | Some i => if negb (Z.eqb i previous) then GoErr ErrKeyModified else GoOk tt
              end
          end
      end
  end.

Definition AtomicPut (f : fault) (key : string) (value : list Z) (previous : option Z) (b : BoltDB)
    : res KVPair :=
  match f with
  | BeginFault => (b, GoErr ErrDB)
  | _ =>
      match checkPut key previous b with
      | GoErr e => (b, GoErr e)
      | GoPanic => (b, GoPanic)
      | GoOk _ =>
          let index := add64 (dbIndex b) 1 in
          commit f b index (<[key := encode index value]> (default ∅ (bucket b))) (mkKVPair key value index)
      end
  end.

End BoltDB.
Import BoltDB (BoltDB, mkBoltDB, bucket, dbIndex, fault, NoFault, BeginFault, CommitFault).

(** ** Objects *)

Definition rootChain : list string := ["docker"; "network"; "v1.0"].

(** [Key]: every part followed by a slash. *)
Definition Key (key : list string) : string :=
  foldr (fun part s => part ++ "/" ++ s) "" (rootChain ++ key)%list.

(** [KVObject]: the methods that depend on the type of the object.  [osetValue o v] is
    [SetValue(v)] on [o.New()]. *)
Class KVObject (A : Type) := {
  okey : A -> list string;
  okeyPrefix : A -> list string;
  ovalue : A -> option (list Z);
  osetValue : A -> list Z -> option A;
  oskip : A -> bool }.

(** An object in memory, with the index that [Index], [SetIndex] and [Exists] handle. *)
Record kvo (A : Type) := mkKvo { content : A; Index : Z; ObjExists : bool }.
Arguments mkKvo {A}. Arguments content {A}. Arguments Index {A}. Arguments ObjExists {A}.

Section Datastore.
Context {A : Type} `{KVObject A}.

Definition SetIndex (i : Z) (o : kvo A) : kvo A := mkKvo (content o) i true.

(** The heap, the database and the cache ([kmm]: the map of a prefix once it is filled). *)
Record Store := mkStore {
  heap : gmap nat (kvo A);
  next : nat;
  db : BoltDB;
  kmm : gmap string (gmap string nat) }.

Definition set_heap (s : Store) h := mkStore h (next s) (db s) (kmm s).
Definition set_db (s : Store) b := mkStore (heap s) (next s) b (kmm s).
Definition set_kmm (s : Store) m := mkStore (heap s) (next s) (db s) m.

(** Allocation of an object. *)
Definition alloc (o : kvo A) (s : Store) : nat * Store :=
  (next s, mkStore (<[next s := o]> (heap s)) (S (next s)) (db s) (kmm s)).

(** The loop of [kmap] over the listed pairs: objects made from [ctor]; [None] when a value
    cannot be decoded. *)
Fixpoint fillKmap (ctor : A) (kvs : list KVPair) (m : gmap string nat) (s : Store)
    : Store * option (gmap string nat) :=
  match kvs with
  | [] => (s, Some m)
  | kv :: kvs =>
      match kvValue kv with
      | [] => fillKmap ctor kvs m s
      | v =>
          match osetValue ctor v with
          | None => (s, None)
          | Some a =>
              let '(p, s) := alloc (mkKvo a (LastIndex kv) true) s in
              fillKmap ctor kvs (<[Key (okey a) := p]> m) s
          end
      end
  end.

(** [cache.kmap]: after it [kmm] has the map of the prefix of the object. *)
Definition kmap (f : fault) (a : A) (s : Store) : Store * go_result kvErr (gmap string nat) :=
  let keyPrefix := Key (okeyPrefix a) in
  match kmm s !! keyPrefix with
  | Some m => (s, GoOk m)
  | None =>
      let fill kvs :=
        match fillKmap a kvs ∅ s with
        | (s, None) => (s, GoErr ErrUnmarshal)
        | (s, Some m) => (set_kmm s (<[keyPrefix := m]> (kmm s)), GoOk m)
        end in
      match BoltDB.List f keyPrefix (db s) with
      | GoErr ErrKeyNotFound => fill []
      | GoErr e => (s, GoErr e)
      | GoPanic => (s, GoPanic)
      | GoOk kvs => fill kvs
      end
  end.

(** [cache.add] of the object at [p]. *)
Definition cache_add (f : fault) (p : nat) (o : kvo A) (atomic : bool) (s : Store) : Store * go_result kvErr unit :=
  let a := content o in
  match kmap f a s with
  | (s, GoErr e) => (s, GoErr e)
  | (s, GoPanic) => (s, GoPanic)
  | (s, GoOk m) =>
      let put s := (set_kmm s (<[Key (okeyPrefix a) := <[Key (okey a) := p]> m]> (kmm s)), GoOk tt) in
      if atomic then
        let stale := match m !! Key (okey a) ≫= (fun q => heap s !! q) with
                     | Some prev => negb (Z.eqb (Index prev) (Index o))
                     | None => false
                     end in
        if stale then (s, GoErr ErrKeyModified)
        else put (set_heap s (<[p := SetIndex (add64 (Index o) 1) o]> (heap s)))
      else put s
  end.

(** [cache.del]. *)
Definition cache_del (f : fault) (o : kvo A) (atomic : bool) (s : Store) : Store * go_result kvErr unit :=
  let a := content o in
  match kmap f a s with
  | (s, GoErr e) => (s, GoErr e)
  | (s, GoPanic) => (s, GoPanic)
  | (s, GoOk m) =>
      let stale := atomic && match m !! Key (okey a) ≫= (fun q => heap s !! q) with
                             | Some prev => negb (Z.eqb (Index prev) (Index o))
                             | None => false
                             end in
      if stale then (s, GoErr ErrKeyModified)
      else (set_kmm s (<[Key (okeyPrefix a) := delete (Key (okey a)) m]> (kmm s)), GoOk tt)
  end.

(** [cache.get]: [CopyTo] copies the content and the index into the object at [p]. *)
Definition cache_get (f : fault) (p : nat) (o : kvo A) (s : Store) : Store * go_result kvErr unit :=
  let a := content o in
  match kmap f a s with
  | (s, GoErr e) => (s, GoErr e)
  | (s, GoPanic) => (s, GoPanic)
  | (s, GoOk m) =>
      match m !! Key (okey a) ≫= (fun q => heap s !! q) with
      | None => (s, GoErr ErrKeyNotFound)
      | Some src => (set_heap s (<[p := src]> (heap s)), GoOk tt)
      end
  end.

(** [cache.list]: the pointers, in no particular order. *)
Definition cache_list (f : fault) (o : kvo A) (s : Store) : Store * go_result kvErr (list nat) :=
  match kmap f (content o) s with
  | (s, GoErr e) => (s, GoErr e)
  | (s, GoPanic) => (s, GoPanic)
  | (s, GoOk m) => (s, GoOk (map_to_list m).*2)
  end.

(** ** The store

    Methods take the pointer of the object; [f1] is the fate of the transaction that writes,
    [f2] of the one that fills the cache. *)

Definition New (file : option (gmap string (list Z))) : Store := mkStore ∅ 0 (BoltDB.New file) ∅.

Definition PutObjectAtomic (f1 f2 : fault) (p : nat) (s : Store) : Store * go_result kvErr unit :=
  match heap s !! p with
  | None => (s, GoErr ErrInvalidParameter)
  | Some o =>
      let a := content o in
      match ovalue a with
      | None => (s, GoErr ErrInvalidParameter)
      | Some v =>
          if oskip a then cache_add f2 p o true s
          else
            let previous := if ObjExists o then Some (Index o) else None in
            match BoltDB.AtomicPut f1 (Key (okey a)) v previous (db s) with
            | (b, GoOk kv) =>
                let o := SetIndex (LastIndex kv) o in
                cache_add f2 p o false (set_heap (set_db s b) (<[p := o]> (heap s)))
            | (b, GoErr ErrKeyExists) => (set_db s b, GoErr ErrKeyModified)
            | (b, GoErr e) => (set_db s b, GoErr e)
            | (b, GoPanic) => (set_db s b, GoPanic)
            end
      end
  end.

Definition GetObject (f : fault) (p : nat) (s : Store) : Store * go_result kvErr unit :=
  match heap s !! p with
  | None => (s, GoErr ErrInvalidParameter)
  | Some o => cache_get f p o s
  end.

Definition ListObjects (f : fault) (p : nat) (s : Store) : Store * go_result kvErr (list nat) :=
  match heap s !! p with
  | None => (s, GoErr ErrInvalidParameter)
  | Some o => cache_list f o s
  end.

Definition DeleteObject (f1 f2 : fault) (p : nat) (s : Store) : Store * go_result kvErr unit :=
  match heap s !! p with
  | None => (s, GoErr ErrInvalidParameter)
  | Some o =>
      if oskip (content o) then cache_del f2 o false s
      else
        match BoltDB.Delete f1 (Key (okey (content o))) (db s) with
        | (b, GoOk _) => cache_del f2 o false (set_db s b)
        | (b, GoErr e) => (set_db s b, GoErr e)
        | (b, GoPanic) => (set_db s b, GoPanic)
        end
  end.

Definition DeleteObjectAtomic (f1 f2 : fault) (p : nat) (s : Store) : Store * go_result kvErr unit :=
  match heap s !! p with
  | None => (s, GoErr ErrInvalidParameter)
  | Some o =>
      if oskip (content o) then cache_del f2 o true s
      else
        match BoltDB.AtomicDelete f1 (Key (okey (content o))) (Some (Index o)) (db s) with
        | (b, GoOk _) => cache_del f2 o false (set_db s b)
        | (b, GoErr ErrKeyExists) => (set_db s b, GoErr ErrKeyModified)
        | (b, GoErr e) => (set_db s b, GoErr e)
        | (b, GoPanic) => (set_db s b, GoPanic)
        end
  end.

(** [ensureParent] *)
Definition ensureParent (f1 f2 : fault) (parent : string) (s : Store) : Store * go_result kvErr unit :=
  match BoltDB.Exists f1 parent (db s) with
  | GoErr e => (s, GoErr e)
  | GoPanic => (s, GoPanic)
  | GoOk true => (s, GoOk tt)
  | GoOk false => let '(b, r) := BoltDB.Put f2 parent [] (db s) in (set_db s b, r)
  end.

(** The loop of [iterateKVPairsFromStore] with the callback of [Map]; [strings.Trim] of the
    slashes is the argument [trim]. *)
Fixpoint iteratePairs (trim : string -> string) (ctor : A) (kvs : list KVPair) (results : gmap string nat) (s : Store)
    : Store * option (gmap string nat) :=
  match kvs with
  | [] => (s, Some results)
  | kv :: kvs =>
      match kvValue kv with
      | [] => iteratePairs trim ctor kvs results s
      | v =>
          match osetValue ctor v with
          | None => (s, None)
          | Some a =>
              let '(p, s) := alloc (mkKvo a (LastIndex kv) true) s in
              iteratePairs trim ctor kvs (<[trim (kvKey kv) := p]> results) s
          end
      end
  end.

Definition Map (trim : string -> string) (f1 f2 f3 : fault) (key : string) (p : nat) (s : Store)
    : Store * go_result kvErr (gmap string nat) :=
  match heap s !! p with
  | None => (s, GoErr ErrInvalidParameter)
  | Some o =>
      match ensureParent f1 f2 key s with
      | (s, GoErr e) => (s, GoErr e)
      | (s, GoPanic) => (s, GoPanic)
      | (s, GoOk _) =>
          match BoltDB.List f3 key (db s) with
          | GoErr e => (s, GoErr e)
          | GoPanic => (s, GoPanic)
          | GoOk kvs =>
              match iteratePairs trim (content o) kvs ∅ s with
              | (s, None) => (s, GoErr ErrUnmarshal)
              | (s, Some m) => (s, GoOk m)
              end
          end
      end
  end.

(** ** The controller's use of it *)

(** The errors of the controller: those of the store, and those it reports as text. *)
Inductive ctlErr := ErrStore (e : kvErr) | ErrReported (e : kvErr).

Definition updateToStore (f1 f2 : fault) (p : nat) (s : Store) : Store * go_result ctlErr unit :=
  match PutObjectAtomic f1 f2 p s with
  | (s, GoErr ErrKeyModified) => (s, GoErr (ErrStore ErrKeyModified))
  | (s, GoErr e) => (s, GoErr (ErrReported e))
  | (s, GoPanic) => (s, GoPanic)
  | (s, GoOk _) => (s, GoOk tt)
  end.

(** Where a call of [deleteFromStore] is: before a call of [DeleteObjectAtomic], before one of
    [GetObject], or returned. *)
Inductive deleting :=
| AtDelete
| AtGet
| Deleted (r : go_result ctlErr unit).

(** [deleteFromStore] from one call of the store to the next.  The store is locked by each of
    these calls and not between them, where others can call it. *)
Definition deleteFromStore (f : fault * fault * fault) (p : nat) (at_ : deleting) (s : Store) : Store * deleting :=
  let '(f1, f2, f3) := f in
  match at_ with
  | AtDelete =>
      match DeleteObjectAtomic f1 f2 p s with
      | (s, GoErr ErrKeyModified) => (s, AtGet)
      | (s, GoErr e) => (s, Deleted (GoErr (ErrStore e)))
      | (s, GoPanic) => (s, Deleted GoPanic)
      | (s, GoOk _) => (s, Deleted (GoOk tt))
      end
  | AtGet =>
      match GetObject f3 p s with
      | (s, GoErr e) => (s, Deleted (GoErr (ErrReported e)))
      | (s, GoPanic) => (s, Deleted GoPanic)
      | (s, GoOk _) => (s, AtDelete)
      end
  | Deleted r => (s, Deleted r)
  end.

End Datastore.
Arguments Store : clear implicits.
