(* ===== verification/DatastoreSpec.v ===== *)
(** * The datastore of libnetwork: invariants

    Laws of the objects, encoding of entries, and the invariant that ties the cache, the
    objects in memory and the database together, kept by every operation. *)

From Stdlib Require Import String.
From stdpp Require Import gmap strings.
From S2P Require Import Prelude SortedMaps Datastore.
Import BoltDB (BoltDB, mkBoltDB, bucket, dbIndex, fault, NoFault, BeginFault, CommitFault, encode, decodeIndex, decodeValue).

Local Open Scope string_scope.

(** ** Entries *)

Lemma encode_length i v : length (encode i v) = (8 + length v)%nat.
Proof. unfold encode. by rewrite length_app, length_rev, be_put_length. Qed.

Lemma encode_nonempty i v : encode i v <> [].
Proof. intros E. pose proof (encode_length i v) as Hl. by rewrite E in Hl. Qed.

Lemma decode_encode_index i v : is_u64 i -> decodeIndex (encode i v) = Some i.
Proof.
  intros Hi. unfold decodeIndex, BoltDB.libkvmetadatalen. rewrite encode_length. cbn [Nat.ltb Nat.leb plus].
  unfold encode. rewrite take_app_length' by (by rewrite length_rev, be_put_length).
  rewrite rev_involutive, be_get_put; [done|exact Hi].
Qed.

Lemma decode_encode_value i v : decodeValue (encode i v) = v.
Proof. unfold decodeValue, encode. by rewrite drop_app_length' by (by rewrite length_rev, be_put_length). Qed.

Lemma encode_inj i v i' v' : is_u64 i -> is_u64 i' -> encode i v = encode i' v' -> i = i' /\ v = v'.
Proof.
  intros Hi Hi' E. split.
  - pose proof (decode_encode_index i v Hi) as H1. rewrite E, decode_encode_index in H1 by done. congruence.
  - by rewrite <- (decode_encode_value i v), E, decode_encode_value.
Qed.

(** ** What is asked of objects

    The key of an object is below its prefix and prefixes are not nested; an object is read
    back from its value; whether it is persistent goes with its key. *)
Class KVLaws (A : Type) `{KVObject A} : Prop := {
  key_has_prefix a : String.prefix (Key (okeyPrefix a)) (Key (okey a)) = true;
  key_siblings a b : String.prefix (Key (okeyPrefix a)) (Key (okey b)) = true ->
    Key (okeyPrefix a) = Key (okeyPrefix b);
  value_nonempty a v : ovalue a = Some v -> v <> [];
  setValue_value c a v : Key (okeyPrefix c) = Key (okeyPrefix a) -> ovalue a = Some v -> osetValue c v = Some a;
  skip_by_key a b : Key (okey a) = Key (okey b) -> oskip a = oskip b }.

Section Inv.
Context {A : Type} `{HK : KVObject A} `{!KVLaws A}.
Context (strict : bool).
Implicit Types s : Store A.

Definition keyOf (o : kvo A) : string := Key (okey (content o)).
Definition prefixOf (o : kvo A) : string := Key (okeyPrefix (content o)).

(** The entry [v] is the persistent object [a] at index [i]. *)
Definition entry (k : string) (v : list Z) (a : A) (i : Z) : Prop :=
  exists val, v = encode i val /\ ovalue a = Some val /\ Key (okey a) = k /\ oskip a = false.

(** The entries of the database. *)
Definition dbOk (b : BoltDB) : Prop :=
  is_u64 (dbIndex b) /\
  forall m k v, bucket b = Some m -> m !! k = Some v -> exists a i, entry k v a i /\ is_u64 i.

Definition stored (b : BoltDB) (k : string) : option (list Z) := bucket b ≫= (fun m => m !! k).

(** A cached object: it has been stored, it has its key and its prefix, and a persistent one
    has the index of the database, and the content if nobody changes cached objects. *)
Record cached (s : Store A) (P k : string) (q : nat) : Prop := {
  ca_obj : exists o, heap s !! q = Some o /\ keyOf o = k /\ prefixOf o = P /\ ObjExists o = true;
  ca_db o : heap s !! q = Some o -> oskip (content o) = false ->
    exists v a, stored (db s) k = Some v /\ entry k v a (Index o) /\ is_u64 (Index o) /\ (strict = true -> content o = a) }.

(** [ex]: keys whose cache entries are about to be replaced. *)
Record DInv (ex : string -> Prop) (s : Store A) : Prop := {
  di_fresh q o : heap s !! q = Some o -> (q < next s)%nat;
  di_db : dbOk (db s);
  di_cached P m k q : kmm s !! P = Some m -> m !! k = Some q -> ~ ex k -> cached s P k q;
  di_there P m k q : kmm s !! P = Some m -> m !! k = Some q -> (q < next s)%nat /\ String.prefix P k = true;
  di_complete P m k v : kmm s !! P = Some m -> stored (db s) k = Some v -> String.prefix P k = true -> ~ ex k -> is_Some (m !! k);
  di_prefix P m : kmm s !! P = Some m -> exists a : A, Key (okeyPrefix a) = P }.

Definition noex (_ : string) : Prop := False.
Lemma not_noex k : ~ noex k.
Proof. by intros []. Qed.

Lemma stored_Some b k v : stored b k = Some v <-> exists m, bucket b = Some m /\ m !! k = Some v.
Proof. unfold stored. apply bind_Some. Qed.

Lemma DInv_weaken (ex ex' : string -> Prop) s : (forall k, ex k -> ex' k) -> DInv ex s -> DInv ex' s.
Proof. intros Hsub []. split; eauto. Qed.

(** ** Filling the map of a prefix *)

(** What listing a prefix gives. *)
Definition pairOk (P : string) (b : BoltDB) (kv : KVPair) : Prop :=
  String.prefix P (kvKey kv) = true /\
  exists a v, stored b (kvKey kv) = Some v /\ entry (kvKey kv) v a (LastIndex kv) /\ is_u64 (LastIndex kv) /\
    ovalue a = Some (kvValue kv).

Lemma listEntries_ok (l : list (string * list Z)) :
  (forall k v, (k, v) ∈ l -> exists i val, v = encode i val /\ is_u64 i) ->
  exists kvs, BoltDB.listEntries l = Some kvs /\
    (forall kv, kv ∈ kvs <-> exists v, (kvKey kv, v) ∈ l /\ v = encode (LastIndex kv) (kvValue kv) /\ is_u64 (LastIndex kv)).
Proof.
  induction l as [|[k v] l IH]; intros Hl.
  { exists []. split; [done|]. intros kv. split; [by intros []%elem_of_nil|]. by intros (v & []%elem_of_nil & _). }
  destruct IH as (kvs & He & Hkvs); [intros k' v' Hin; apply (Hl k'); by right|].
  destruct (Hl k v) as (i & val & -> & Hi); [by left|]. cbn [BoltDB.listEntries].
  rewrite decode_encode_index, He, decode_encode_value by done. eexists. split; [done|].
  intros kv. rewrite elem_of_cons, Hkvs. split.
  - intros [->|(v & Hin & Hrest)]; [exists (encode i val); split; [by left|done]|]. exists v. split; [by right|done].
  - intros (v & [E|Hin]%elem_of_cons & Hv & Hu); [left|right; eauto].
    injection E as Ek ->. destruct kv as [k0 val0 i0]. cbn in *. subst k0.
    destruct (encode_inj i val i0 val0) as [-> ->]; done.
Qed.

Lemma List_ok f P (a0 : A) b :
  dbOk b -> Key (okeyPrefix a0) = P ->
  match BoltDB.List f P b with
  | GoOk kvs => Forall (pairOk P b) kvs /\
      (forall k v, stored b k = Some v -> String.prefix P k = true -> exists kv, kv ∈ kvs /\ kvKey kv = k)
  | GoErr e => e = ErrDB /\ f = BeginFault \/
      e = ErrKeyNotFound /\ (forall k v, stored b k = Some v -> String.prefix P k = true -> False)
  | GoPanic => False
  end.
Proof.
  intros [_ Hdb] HP. unfold BoltDB.List.
  assert (Hmain : match bucket b with
    | None => GoErr ErrKeyNotFound
    | Some m => match BoltDB.listEntries (whilePrefix P (seek P (sortedMap m))) with
        | None => GoPanic | Some [] => GoErr ErrKeyNotFound | Some kvs => GoOk kvs end
    end = match bucket b with
    | None => GoErr ErrKeyNotFound
    | Some m => match BoltDB.listEntries (filter (fun e => String.prefix P e.1 = true) (sortedMap m)) with
        | None => GoPanic | Some [] => GoErr ErrKeyNotFound | Some kvs => GoOk kvs end
    end) by (destruct (bucket b); [by rewrite cursor_prefix by apply sortedMap_sorted|done]).
  rewrite Hmain. clear Hmain.
  destruct (bucket b) as [m|] eqn:Hm; cycle 1.
  { destruct f; [|by left|]; right; (split; [done|]); intros k v (m & Hb & _)%stored_Some; congruence. }
  destruct (listEntries_ok (filter (fun e => String.prefix P e.1 = true) (sortedMap m))) as (kvs & -> & Hkvs).
  { intros k v [_ Hin%elem_of_sortedMap]%list_elem_of_filter. destruct (Hdb m k v eq_refl Hin) as (a & i & (val & -> & _) & Hi). eauto. }
  assert (Hall : forall k v, stored b k = Some v -> String.prefix P k = true -> exists kv, kv ∈ kvs /\ kvKey kv = k).
  { intros k v (m' & Hb & Hk)%stored_Some Hp. rewrite Hm in Hb. injection Hb as <-.
    destruct (Hdb m k v eq_refl Hk) as (a & i & (val & -> & Ha) & Hi). exists (mkKVPair k val i). split; [|done].
    apply Hkvs. exists (encode i val). cbn. split; [|done]. apply list_elem_of_filter. split; [done|]. by apply elem_of_sortedMap. }
  assert (Hok : Forall (pairOk P b) kvs).
  { apply Forall_forall. intros kv Hkv%list_elem_of_In. apply Hkvs in Hkv as (v & Hin & -> & Hu).
    apply list_elem_of_filter in Hin as [Hp Hin]. apply elem_of_sortedMap in Hin. split; [done|].
    destruct (Hdb m _ _ eq_refl Hin) as (a & i & (val & E & Hv & Hk & Hsk) & Hi).
    destruct (encode_inj _ _ _ _ Hu Hi E) as [Ei <-]. exists a, (encode (LastIndex kv) (kvValue kv)).
    split; [apply stored_Some; by exists m|]. split; [by exists (kvValue kv)|done]. }
  destruct f; [|by left|]; destruct kvs as [|kv kvs]; try done; right;
    (split; [done|]); intros k v Hk Hp; destruct (Hall k v Hk Hp) as (kv & []%elem_of_nil & _).
Qed.

(** A pointer to an object that was just read from the database. *)
Definition loaded (s : Store A) (P k : string) (q : nat) : Prop :=
  exists a i v, heap s !! q = Some (mkKvo a i true) /\ Key (okey a) = k /\ Key (okeyPrefix a) = P /\
    stored (db s) k = Some v /\ entry k v a i /\ is_u64 i.

(** The object has the content and the index of its entry. *)
Definition fromDB (b : BoltDB) (o : kvo A) (v : list Z) : Prop :=
  stored b (keyOf o) = Some v /\ entry (keyOf o) v (content o) (Index o) /\ is_u64 (Index o).

Definition extends (s s' : Store A) : Prop :=
  db s' = db s /\ kmm s' = kmm s /\ (next s <= next s')%nat /\
  (forall q o, heap s !! q = Some o -> heap s' !! q = Some o) /\
  (forall q o, heap s' !! q = Some o -> (q < next s')%nat) /\
  (forall q o, heap s' !! q = Some o -> heap s !! q = Some o \/ exists v, fromDB (db s) o v).

Lemma pairOk_read P b kv (c : A) :
  pairOk P b kv -> Key (okeyPrefix c) = P ->
  exists a v x l, kvValue kv = x :: l /\ osetValue c (x :: l) = Some a /\ Key (okey a) = kvKey kv /\
    Key (okeyPrefix a) = P /\ stored b (kvKey kv) = Some v /\ entry (kvKey kv) v a (LastIndex kv) /\ is_u64 (LastIndex kv).
Proof.
  intros (Hp & a & v & Hs & He & Hu & Hv) HP. pose proof He as (val & _ & _ & Hk & _).
  assert (Hpre : Key (okeyPrefix c) = Key (okeyPrefix a)) by (apply key_siblings; by rewrite Hk, HP).
  pose proof (value_nonempty _ _ Hv) as Hne. destruct (kvValue kv) as [|x l] eqn:E; [done|].
  exists a, v, x, l. split; [done|]. split; [by apply setValue_value|]. split; [done|]. split; [by rewrite <- Hpre|done].
Qed.

Lemma fillKmap_ok c P kvs m s :
  Key (okeyPrefix c) = P -> Forall (pairOk P (db s)) kvs -> (forall q o, heap s !! q = Some o -> (q < next s)%nat) ->
  exists s' m', fillKmap c kvs m s = (s', Some m') /\ extends s s' /\
    (forall k q, m' !! k = Some q -> m !! k = Some q \/ (q < next s')%nat /\ loaded s' P k q) /\
    (forall k, is_Some (m !! k) -> is_Some (m' !! k)) /\
    (forall kv, kv ∈ kvs -> is_Some (m' !! kvKey kv)).
Proof.
  intros HP. revert m s. induction kvs as [|kv kvs IH]; intros m s Hok Hfresh.
  { exists s, m. split; [done|]. split; [split_and!; try done; by left|]. split; [by left|]. split; [done|]. by intros kv []%elem_of_nil. }
  apply Forall_cons_1 in Hok as [Hkv Hok].
  destruct (pairOk_read _ _ _ c Hkv HP) as (a & v & x & l & Hval & Hset & Hk & Hpa & Hst & He & Hu).
  cbn [fillKmap]. rewrite Hval, Hset. cbn [alloc].
  set (s1 := mkStore (<[next s := mkKvo a (LastIndex kv) true]> (heap s)) (S (next s)) (db s) (kmm s)).
  destruct (IH (<[Key (okey a) := next s]> m) s1) as (s' & m' & Hf & (Hdb & Hkm & Hnx & Hmono & Hfr & Hsrc) & Hin & Hkeep & Hall).
  { exact Hok. }
  { intros q o. cbn [heap next s1]. rewrite lookup_insert_Some. intros [[<- _]|[_ Hq]]; [lia|]. apply Hfresh in Hq. lia. }
  exists s', m'. split; [exact Hf|]. cbn [db kmm next s1] in *.
  assert (Hext : extends s s').
  { split; [done|]. split; [done|]. split; [lia|]. split; [|split; [done|]].
    - intros q o Hq. apply Hmono. cbn [heap s1]. rewrite lookup_insert_ne; [done|]. apply Hfresh in Hq. lia.
    - intros q o [Hq|Hq]%Hsrc; [|by right]. cbn [heap s1] in Hq.
      apply lookup_insert_Some in Hq as [[<- <-]|[_ Hq]]; [right|by left]. exists v. unfold fromDB, keyOf. cbn [content Index].
      by rewrite Hk. }
  split; [done|]. split; [|split].
  - intros k q Hq. destruct (Hin k q Hq) as [Hm|?]; [|by right].
    apply lookup_insert_Some in Hm as [[<- <-]|[_ Hm]]; [right|by left]. split; [lia|].
    exists a, (LastIndex kv), v. rewrite Hdb. split; [apply Hmono; cbn [heap s1]; apply lookup_insert_eq|].
    rewrite Hk. by split_and!.
  - intros k Hm. apply Hkeep. by apply lookup_insert_is_Some'; right.
  - intros kv' [->|Hin']%elem_of_cons; [|by apply Hall]. apply Hkeep. rewrite Hk. by rewrite lookup_insert_eq.
Qed.

Lemma loaded_cached s P k q : loaded s P k q -> cached s P k q.
Proof.
  intros (a & i & v & Hq & Hk & Hp & Hs & He & Hu). split.
  - eexists. split; [exact Hq|]. by split_and!.
  - intros o Ho _. rewrite Hq in Ho. injection Ho as <-. by exists v, a.
Qed.

Lemma cached_extends s s' P k q :
  db s' = db s -> (forall q o, heap s !! q = Some o -> heap s' !! q = Some o) -> cached s P k q -> cached s' P k q.
Proof.
  intros Hdb Hmono [(o & Ho & Hrest) Hc]. split.
  - exists o. split; [by apply Hmono|done].
  - intros o' Ho'. rewrite (Hmono _ _ Ho) in Ho'. injection Ho' as <-. rewrite Hdb. by apply Hc.
Qed.

(** A new map for a prefix. *)
Lemma kmap_fill (ex : string -> Prop) a s kvs (P := Key (okeyPrefix a)) :
  DInv ex s -> kmm s !! P = None -> Forall (pairOk P (db s)) kvs ->
  (forall k v, stored (db s) k = Some v -> String.prefix P k = true -> exists kv, kv ∈ kvs /\ kvKey kv = k) ->
  exists s' m, fillKmap a kvs ∅ s = (s', Some m) /\ DInv ex (set_kmm s' (<[P := m]> (kmm s'))) /\ extends s s'.
Proof.
  intros D Hm Hok Hall.
  destruct (fillKmap_ok a P kvs ∅ s eq_refl Hok (di_fresh _ _ D)) as (s' & m & Hf & Hext & Hin & _ & Hcov).
  exists s', m. split; [exact Hf|]. split; [|done]. destruct Hext as (Hdb & Hkm & Hnx & Hmono & Hfr & _). rewrite Hkm.
  split; cbn [heap next db kmm set_kmm].
  - exact Hfr.
  - rewrite Hdb. apply D.
  - intros P' m' k q. rewrite lookup_insert_Some. intros [[<- <-]|[_ HP']] Hq Hex.
    + destruct (Hin k q Hq) as [Hx|[_ Hl]]; [by rewrite lookup_empty in Hx|]. by apply loaded_cached.
    + eapply (cached_extends s); [done|done|]. by eapply di_cached.
  - intros P' m' k q. rewrite lookup_insert_Some. intros [[<- <-]|[_ HP']] Hq.
    + destruct (Hin k q Hq) as [Hx|[? Hl]]; [by rewrite lookup_empty in Hx|]. split; [done|].
      destruct Hl as (b & i & v & _ & <- & Hp & _). subst P. rewrite <- Hp. apply key_has_prefix.
    + destruct (di_there _ _ D _ _ _ _ HP' Hq). split; [lia|done].
  - intros P' m' k v. rewrite Hdb, lookup_insert_Some. intros [[<- <-]|[_ HP']] Hk Hp Hex.
    + destruct (Hall k v Hk Hp) as (kv & Hkv & <-). by apply Hcov.
    + by eapply (di_complete _ _ D).
  - intros P' m'. rewrite lookup_insert_Some. intros [[<- _]|[_ HP']]; [by exists a|by eapply (di_prefix _ _ D)].
Qed.

(** The effect of [kmap] on objects and on the cache. *)
Definition grows (s s' : Store A) : Prop :=
  db s' = db s /\ (next s <= next s')%nat /\
  (forall q o, heap s !! q = Some o -> heap s' !! q = Some o) /\
  (forall q o, heap s' !! q = Some o -> heap s !! q = Some o \/ exists v, fromDB (db s) o v).

Lemma grows_refl s : grows s s.
Proof. split_and!; try done. by left. Qed.

(** [kmap] keeps the invariant and puts a complete map in place; it only fails when the
    database cannot be read. *)
Lemma kmap_ok (ex : string -> Prop) f a s :
  DInv ex s ->
  exists s' r, kmap f a s = (s', r) /\ DInv ex s' /\ grows s s' /\
    match r with
    | GoOk m => kmm s' !! Key (okeyPrefix a) = Some m /\
        (forall m0, kmm s !! Key (okeyPrefix a) = Some m0 -> m0 = m /\ s' = s)
    | GoErr e => e = ErrDB /\ f = BeginFault /\ kmm s !! Key (okeyPrefix a) = None /\ s' = s
    | GoPanic => False
    end.
Proof.
  intros D. unfold kmap. destruct (kmm s !! Key (okeyPrefix a)) as [m|] eqn:Hm.
  { exists s, (GoOk m). split_and!; try done; [apply grows_refl|]. by intros m0 [= <-]. }
  assert (Hgr : forall s' m, extends s s' -> grows s (set_kmm s' (<[Key (okeyPrefix a) := m]> (kmm s')))).
  { intros s' m (Hdb & Hkm & Hnx & Hmono & Hfr & Hsrc). by split_and!. }
  pose proof (List_ok f _ a (db s) (di_db _ _ D) eq_refl) as HL.
  destruct (BoltDB.List f _ (db s)) as [kvs|e|]; [|destruct HL as [[-> Hf]|[-> Hnone]]|done].
  - destruct HL as [Hok Hall]. destruct (kmap_fill ex a s kvs D Hm Hok Hall) as (s' & m & -> & HI & Hext).
    eexists _, (GoOk m). split; [done|]. split; [exact HI|]. split; [by apply Hgr|]. split; [apply lookup_insert_eq|done].
  - exists s, (GoErr ErrDB). split_and!; try done. apply grows_refl.
  - destruct (kmap_fill ex a s [] D Hm) as (s' & m & -> & HI & Hext); [constructor|intros k v Hk Hp; by destruct (Hnone k v Hk Hp)|].
    eexists _, (GoOk m). split; [done|]. split; [exact HI|]. split; [by apply Hgr|]. split; [apply lookup_insert_eq|done].
Qed.
End Inv.
#[export] Hint Resolve not_noex : core.
