(* ===== verification/DatastoreOps.v ===== *)
(** * The datastore of libnetwork: operations

    What the operations of the database do to its entries, and that every operation of the
    store keeps the invariant of [DatastoreSpec]. *)

From Stdlib Require Import String.
From stdpp Require Import gmap strings.
From S2P Require Import Prelude SortedMaps Datastore DatastoreSpec.
Import BoltDB (BoltDB, mkBoltDB, bucket, dbIndex, fault, NoFault, BeginFault, CommitFault, encode, decodeIndex, decodeValue).

Local Open Scope string_scope.

Section Ops.
Context {A : Type} `{HK : KVObject A} `{!KVLaws A}.
Context (strict : bool).
Implicit Types s : Store A.

(** ** The database *)

Definition u64_room (b : BoltDB) : Prop := dbIndex b + 1 < 2 ^ 64.

Lemma stored_None_val b k : dbOk b -> default [] (default ∅ (bucket b) !! k) = [] <-> stored b k = None.
Proof.
  intros [_ Hdb]. unfold stored. destruct (bucket b) as [m|] eqn:Hm; cbn; [|done].
  destruct (m !! k) as [v|] eqn:Hk; cbn; [|done]. split; [|done]. intros ->.
  destruct (Hdb m k [] eq_refl Hk) as (a & i & (val & E & _) & _). by destruct (encode_nonempty i val).
Qed.

Lemma stored_insert b m k v k' :
  stored (mkBoltDB (Some (<[k := v]> m)) b) k' = if decide (k = k') then Some v else m !! k'.
Proof. unfold stored. cbn. case_decide as Hd; [subst; by rewrite lookup_insert_eq|by rewrite lookup_insert_ne]. Qed.

(** What a call of [AtomicPut] can do. *)
Inductive put_outcome (f : fault) (k : string) (v : list Z) (previous : option Z) (b : BoltDB) :
    BoltDB -> go_result kvErr KVPair -> Prop :=
| put_done b' i :
    i = dbIndex b + 1 -> dbIndex b' = i ->
    (forall k', stored b' k' = if decide (k = k') then Some (encode i v) else stored b k') ->
    match previous with
    | None => stored b k = None
    | Some j => exists v0, stored b k = Some v0 /\ decodeIndex v0 = Some j
    end ->
    put_outcome f k v previous b b' (GoOk (mkKVPair k v i))
| put_fault b' :
    f <> NoFault -> bucket b' = bucket b -> (dbIndex b <= dbIndex b' <= dbIndex b + 1) ->
    put_outcome f k v previous b b' (GoErr ErrDB)
| put_exists : previous = None -> is_Some (stored b k) -> put_outcome f k v previous b b (GoErr ErrKeyExists)
| put_missing : is_Some previous -> stored b k = None -> put_outcome f k v previous b b (GoErr ErrKeyNotFound)
| put_stale i j v0 : previous = Some j -> stored b k = Some v0 -> decodeIndex v0 = Some i -> i <> j ->
    put_outcome f k v previous b b (GoErr ErrKeyModified).

(** The checks, in terms of the entry. *)
Lemma checkPut_ok k previous b :
  dbOk (A := A) b ->
  match BoltDB.checkPut k previous b with
  | GoOk _ => match previous with
              | None => stored b k = None
              | Some j => exists v0, stored b k = Some v0 /\ decodeIndex v0 = Some j
              end
  | GoErr ErrKeyExists => previous = None /\ is_Some (stored b k)
  | GoErr ErrKeyNotFound => is_Some previous /\ stored b k = None
  | GoErr ErrKeyModified => exists i j v0, previous = Some j /\ stored b k = Some v0 /\ decodeIndex v0 = Some i /\ i <> j
  | _ => False
  end.
Proof.
  intros D. pose proof D as [Hu Hdb]. assert (Hval := stored_None_val b k D). unfold BoltDB.checkPut.
  destruct (stored b k) as [v0|] eqn:Hs.
  - pose proof Hs as (m & Hm & Hk)%stored_Some. rewrite Hm. cbn [default from_option id]. rewrite Hk. cbn [default from_option id].
    destruct (Hdb m k v0 Hm Hk) as (a & i & (val & -> & _) & Hi).
    destruct (encode i val) as [|x l] eqn:He; [by destruct (encode_nonempty i val)|]. rewrite <- He.
    destruct previous as [j|]; [|done]. rewrite decode_encode_index by done.
    destruct (Z.eqb_spec i j) as [->|Hne]; cbn [negb].
    + eexists. split; [done|]. by apply decode_encode_index.
    + eexists i, j, _. split_and!; try done. by apply decode_encode_index.
  - destruct Hval as [_ Hval]. specialize (Hval eq_refl).
    destruct (bucket b) as [m|], previous as [j|]; cbn [default from_option id] in *; by rewrite ?Hval.
Qed.

Lemma AtomicPut_ok f k v previous b :
  dbOk (A := A) b -> u64_room b ->
  exists b' r, BoltDB.AtomicPut f k v previous b = (b', r) /\ put_outcome f k v previous b b' r.
Proof.
  intros D Hroom. pose proof D as [Hu _]. pose proof (checkPut_ok k previous b D) as Hc.
  assert (Hfault : f <> NoFault -> exists b' r, (b, GoErr ErrDB) = (b', r) /\ put_outcome f k v previous b b' r).
  { intros Hf. eexists _, _. split; [done|]. apply put_fault; [done|done|lia]. }
  unfold BoltDB.AtomicPut, u64_room, is_u64 in *. destruct f; [|by apply Hfault|].
  - destruct (BoltDB.checkPut k previous b) as [[]|[]|]; try done.
    + rewrite add64_small by lia. eexists _, _. split; [done|]. apply put_done; [done|done| |done].
      intros k'. rewrite stored_insert. case_decide; [done|]. unfold stored. by destruct (bucket b).
    + destruct Hc as (i & j & v0 & -> & ? & ? & ?). eexists _, _. split; [done|]. by eapply put_stale.
    + destruct Hc. eexists _, _. split; [done|]. by apply put_missing.
    + destruct Hc. eexists _, _. split; [done|]. by apply put_exists.
  - destruct (BoltDB.checkPut k previous b) as [[]|[]|]; try done.
    + rewrite add64_small by lia. eexists _, _. split; [done|]. apply put_fault; [done|done|cbn; lia].
    + destruct Hc as (i & j & v0 & -> & ? & ? & ?). eexists _, _. split; [done|]. by eapply put_stale.
    + destruct Hc. eexists _, _. split; [done|]. by apply put_missing.
    + destruct Hc. eexists _, _. split; [done|]. by apply put_exists.
Qed.

(** The two kinds of deletion, with the index that is asked for. *)
Inductive del_outcome (f : fault) (k : string) (previous : option Z) (b : BoltDB) :
    BoltDB -> go_result kvErr unit -> Prop :=
| del_done b' :
    dbIndex b' = dbIndex b -> (forall k', stored b' k' = if decide (k = k') then None else stored b k') ->
    (exists v0, stored b k = Some v0 /\ match previous with Some j => decodeIndex v0 = Some j | None => True end) ->
    del_outcome f k previous b b' (GoOk tt)
| del_fault b' : f <> NoFault -> bucket b' = bucket b -> dbIndex b' = dbIndex b -> del_outcome f k previous b b' (GoErr ErrDB)
| del_missing : stored b k = None -> del_outcome f k previous b b (GoErr ErrKeyNotFound)
| del_stale i j v0 : previous = Some j -> stored b k = Some v0 -> decodeIndex v0 = Some i -> i <> j ->
    del_outcome f k previous b b (GoErr ErrKeyModified).

Lemma stored_delete b m k k' :
  stored (mkBoltDB (Some (delete k m)) b) k' = if decide (k = k') then None else m !! k'.
Proof. unfold stored. cbn. case_decide as Hd; [subst; by rewrite lookup_delete_eq|by rewrite lookup_delete_ne]. Qed.

(** The end of a deletion. *)
Lemma commit_delete f k previous b m v0 :
  f <> BeginFault -> bucket b = Some m -> m !! k = Some v0 ->
  match previous with Some j => decodeIndex v0 = Some j | None => True end ->
  exists b' r, BoltDB.commit f b (dbIndex b) (delete k m) tt = (b', r) /\ del_outcome f k previous b b' r.
Proof.
  intros Hf Hm Hk Hp. unfold BoltDB.commit. destruct f; [|done|].
  - eexists _, _. split; [done|]. apply del_done; [done| |].
    + intros k'. rewrite stored_delete. case_decide; [done|]. unfold stored. by rewrite Hm.
    + exists v0. split; [|done]. apply stored_Some. eauto.
  - eexists _, _. split; [done|]. by apply del_fault.
Qed.

Lemma AtomicDelete_ok f k j b :
  dbOk (A := A) b ->
  exists b' r, BoltDB.AtomicDelete f k (Some j) b = (b', r) /\ del_outcome f k (Some j) b b' r.
Proof.
  intros [Hu Hdb]. unfold BoltDB.AtomicDelete. destruct f; [|by eexists _, _; split; [|apply del_fault]|].
  all: destruct (bucket b) as [m|] eqn:Hm; [|eexists _, _; split; [done|]; apply del_missing; unfold stored; by rewrite Hm].
  all: destruct (m !! k) as [v0|] eqn:Hk; [|eexists _, _; split; [done|]; apply del_missing; unfold stored; by rewrite Hm].
  all: destruct (Hdb m k v0 eq_refl Hk) as (a & i & (val & -> & _) & Hi); rewrite decode_encode_index by done.
  all: destruct (Z.eqb_spec i j) as [->|Hne]; cbn [negb];
    [eapply commit_delete; [done|done|done|by apply decode_encode_index]|].
  all: eexists _, _; split; [done|]; eapply del_stale; [done|apply stored_Some; eauto|by apply decode_encode_index|done].
Qed.

Lemma Delete_ok f k b :
  exists b' r, BoltDB.Delete f k b = (b', r) /\ del_outcome f k None b b' r.
Proof.
  unfold BoltDB.Delete. destruct f; [|by eexists _, _; split; [|apply del_fault]|].
  all: destruct (bucket b) as [m|] eqn:Hm; [|eexists _, _; split; [done|]; apply del_missing; unfold stored; by rewrite Hm].
  all: destruct (m !! k) as [v0|] eqn:Hk; [|eexists _, _; split; [done|]; apply del_missing; unfold stored; by rewrite Hm].
  all: by eapply commit_delete.
Qed.

Lemma dbOk_stored b :
  dbOk (A := A) b <-> is_u64 (dbIndex b) /\
    forall k v, stored b k = Some v -> exists (a : A) i, entry k v a i /\ is_u64 i.
Proof.
  split; intros [Hu Hdb]; (split; [done|]).
  - intros k v (m & Hm & Hk)%stored_Some. by eapply Hdb.
  - intros m k v Hm Hk. apply Hdb, stored_Some. eauto.
Qed.

Lemma put_dbOk f b b' r previous (a : A) v :
  dbOk (A := A) b -> u64_room b -> ovalue a = Some v -> oskip a = false ->
  put_outcome f (Key (okey a)) v previous b b' r -> dbOk (A := A) b'.
Proof.
  intros D Hroom Hv Hsk Ho. pose proof D as [Hu _]. apply dbOk_stored in D as [_ Hdb].
  destruct Ho as [b' i -> Hi Hst _|b' Hf Hb Hi| | |]; apply dbOk_stored; try by split.
  - unfold u64_room, is_u64 in *. split; [lia|]. intros k x. rewrite Hst. case_decide as Hd; [|apply Hdb].
    intros [= <-]. exists a, (dbIndex b + 1). split; [|lia]. exists v. by rewrite Hd.
  - unfold u64_room, is_u64 in *. split; [lia|]. intros k x. unfold stored. rewrite Hb. apply Hdb.
Qed.

Lemma del_dbOk f k previous b b' r : dbOk (A := A) b -> del_outcome f k previous b b' r -> dbOk (A := A) b'.
Proof.
  intros [Hu Hdb]%dbOk_stored Ho. destruct Ho as [b' Hi Hst _|b' Hf Hb Hi| |]; apply dbOk_stored; rewrite ?Hi; try by split.
  - split; [done|]. intros k' x. rewrite Hst. case_decide; [done|apply Hdb].
  - split; [done|]. intros k' x. unfold stored. rewrite Hb. apply Hdb.
Qed.

(** ** Changes of the state *)

Abbreviation Inv := (DInv strict).

(** The prefix map that can hold a key. *)
Lemma prefix_of_key s (a : A) P m :
  Inv (eq (Key (okey a))) s -> kmm s !! P = Some m -> String.prefix P (Key (okey a)) = true ->
  P = Key (okeyPrefix a).
Proof. intros D HP Hp. destruct (di_prefix _ _ _ D P m HP) as (c & <-). by apply key_siblings. Qed.

(** The entry of the key is not cached: nothing was left to be replaced. *)
Lemma Inv_uncached s (a : A) :
  Inv (eq (Key (okey a))) s -> kmm s !! Key (okeyPrefix a) = None -> Inv noex s.
Proof.
  intros D Hnone. pose proof D as [Hfr Hdb Hca Hth Hco Hpr].
  assert (Hne : forall P m, kmm s !! P = Some m -> String.prefix P (Key (okey a)) = true -> False).
  { intros P m HP Hp. rewrite (prefix_of_key s a P m D HP Hp) in HP. congruence. }
  split; try done.
  - intros P m k q HP Hq _. apply (Hca P m); [done..|]. intros <-. destruct (Hth P m _ q HP Hq). by eapply Hne.
  - intros P m k v HP Hs Hp _. apply (Hco P m k v); [done..|]. intros <-. by eapply Hne.
Qed.

Lemma cached_set_kmm s m P k q : cached strict s P k q -> cached strict (set_kmm s m) P k q.
Proof. by apply cached_extends. Qed.

(** The entry of the key is replaced. *)
Lemma Inv_insert s (a : A) m p :
  Inv (eq (Key (okey a))) s -> kmm s !! Key (okeyPrefix a) = Some m -> (p < next s)%nat ->
  cached strict s (Key (okeyPrefix a)) (Key (okey a)) p ->
  Inv noex (set_kmm s (<[Key (okeyPrefix a) := <[Key (okey a) := p]> m]> (kmm s))).
Proof.
  intros D Hm Hp Hc. pose proof D as [Hfr Hdb Hca Hth Hco Hpr]. split; cbn [heap next db kmm set_kmm]; try done.
  - intros P m' k q. rewrite lookup_insert_Some. intros [[<- <-]|[Hne HP]] Hq _; apply cached_set_kmm.
    + apply lookup_insert_Some in Hq as [[<- <-]|[Hne Hq]]; [done|]. by apply (Hca _ m).
    + apply (Hca P m'); [done..|]. intros <-. destruct (Hth P m' _ q HP Hq) as [_ Hpre].
      apply Hne. symmetry. by eapply prefix_of_key.
  - intros P m' k q. rewrite lookup_insert_Some. intros [[<- <-]|[Hne HP]] Hq; [|by eapply Hth].
    apply lookup_insert_Some in Hq as [[<- <-]|[_ Hq]]; [split; [done|apply key_has_prefix]|by eapply Hth].
  - intros P m' k v. rewrite lookup_insert_Some. intros [[<- <-]|[Hne HP]] Hs Hpre _.
    + destruct (decide (Key (okey a) = k)) as [->|Hk]; [by rewrite lookup_insert_eq|].
      rewrite lookup_insert_ne by done. by eapply Hco.
    + apply (Hco P m' k v); [done..|]. intros <-. apply Hne. symmetry. by eapply prefix_of_key.
  - intros P m'. rewrite lookup_insert_Some. intros [[<- _]|[_ HP]]; [by exists a|by eapply Hpr].
Qed.

(** The entry of the key is removed. *)
Lemma Inv_delete s (a : A) m :
  Inv (eq (Key (okey a))) s -> kmm s !! Key (okeyPrefix a) = Some m -> stored (db s) (Key (okey a)) = None ->
  Inv noex (set_kmm s (<[Key (okeyPrefix a) := delete (Key (okey a)) m]> (kmm s))).
Proof.
  intros D Hm Hnone. pose proof D as [Hfr Hdb Hca Hth Hco Hpr]. split; cbn [heap next db kmm set_kmm]; try done.
  - intros P m' k q. rewrite lookup_insert_Some. intros [[<- <-]|[Hne HP]] Hq _; apply cached_set_kmm.
    + apply lookup_delete_Some in Hq as [Hne Hq]. by apply (Hca _ m).
    + apply (Hca P m'); [done..|]. intros <-. destruct (Hth P m' _ q HP Hq) as [_ Hpre].
      apply Hne. symmetry. by eapply prefix_of_key.
  - intros P m' k q. rewrite lookup_insert_Some. intros [[<- <-]|[Hne HP]] Hq; [|by eapply Hth].
    apply lookup_delete_Some in Hq as [_ Hq]. by eapply Hth.
  - intros P m' k v. rewrite lookup_insert_Some. intros [[<- <-]|[Hne HP]] Hs Hpre _.
    + assert (Key (okey a) <> k) by congruence. rewrite lookup_delete_ne by done. by eapply Hco.
    + apply (Hco P m' k v); [done..|]. intros <-. congruence.
  - intros P m'. rewrite lookup_insert_Some. intros [[<- _]|[_ HP]]; [by exists a|by eapply Hpr].
Qed.

(** The database changes at one key. *)
Lemma Inv_db s k b :
  Inv noex s -> dbOk (A := A) b -> (forall k', k' <> k -> stored b k' = stored (db s) k') -> Inv (eq k) (set_db s b).
Proof.
  intros [Hfr Hdb Hca Hth Hco Hpr] Hb Hst. split; cbn [heap next db kmm set_db]; try done.
  - intros P m k' q HP Hq Hne. destruct (Hca P m k' q HP Hq (not_noex _)) as [Hobj Hcd]. split; [done|].
    cbn [heap db set_db]. rewrite Hst by congruence. done.
  - intros P m k' v HP Hs Hp Hne. rewrite Hst in Hs by congruence. by eapply Hco.
Qed.

(** The object of a key changes. *)
Lemma Inv_heap (ex : string -> Prop) s p o o' :
  Inv ex s -> heap s !! p = Some o -> ex (keyOf o) -> Inv ex (set_heap s (<[p := o']> (heap s))).
Proof.
  intros [Hfr Hdb Hca Hth Hco Hpr] Hp Hex. split; cbn [heap next db kmm set_heap]; try done.
  - intros q x. rewrite lookup_insert_Some. intros [[<- _]|[_ Hq]]; by eapply Hfr.
  - intros P m k q HP Hq Hne. destruct (Hca P m k q HP Hq Hne) as [(x & Hx & Hk & Hrest) Hcd].
    assert (p <> q) by (intros ->; rewrite Hp in Hx; injection Hx as <-; by rewrite Hk in Hex).
    split; cbn [heap db set_heap].
    + exists x. by rewrite lookup_insert_ne.
    + intros y. rewrite lookup_insert_ne by done. apply Hcd.
Qed.

(** The database is the same but for its counter. *)
Lemma Inv_db_same (ex : string -> Prop) s b :
  Inv ex s -> dbOk (A := A) b -> bucket b = bucket (db s) -> Inv ex (set_db s b).
Proof.
  intros [Hfr Hdb Hca Hth Hco Hpr] Hb Hbk.
  assert (Hst : forall k, stored b k = stored (db s) k) by (intros; unfold stored; by rewrite Hbk).
  split; cbn [heap next db kmm set_db]; try done.
  - intros P m k q HP Hq Hne. destruct (Hca P m k q HP Hq Hne) as [Hobj Hcd]. split; [done|].
    cbn [heap db set_db]. by rewrite Hst.
  - intros P m k v. rewrite Hst. apply Hco.
Qed.

Lemma Inv_excuse (ex : string -> Prop) s : Inv noex s -> Inv ex s.
Proof. apply DInv_weaken. by intros k []. Qed.

(** Persistent objects are not shadowed by others. *)
Lemma skip_not_stored s (a : A) : dbOk (A := A) (db s) -> oskip a = true -> stored (db s) (Key (okey a)) = None.
Proof.
  intros [_ Hdb]%dbOk_stored Hsk. destruct (stored (db s) (Key (okey a))) as [v|] eqn:Hs; [|done].
  destruct (Hdb _ _ Hs) as (c & i & (val & _ & _ & Hk & Hsk') & _). rewrite (skip_by_key c a Hk) in Hsk'. congruence.
Qed.

(** ** How the state evolves

    [w] is the entry written, if any. *)
Record evolves (s s' : Store A) (w : option (string * Z * list Z)) : Prop := {
  ev_db : match w with
    | None => (forall k v, stored (db s') k = Some v -> stored (db s) k = Some v) /\
        dbIndex (db s) <= dbIndex (db s')
    | Some (k, i, v) => i = dbIndex (db s) + 1 /\ dbIndex (db s') = i /\ is_u64 i /\
        forall k', stored (db s') k' = if decide (k = k') then Some (encode i v) else stored (db s) k'
    end;
  ev_heap q o : heap s' !! q = Some o -> ObjExists o = true -> oskip (content o) = false ->
    (exists q0 o0, heap s !! q0 = Some o0 /\ keyOf o0 = keyOf o /\ Index o0 = Index o /\
       ObjExists o0 = true /\ oskip (content o0) = false) \/
    (exists v, stored (db s') (keyOf o) = Some v /\ decodeIndex v = Some (Index o));
  ev_names q o : heap s !! q = Some o -> exists o', heap s' !! q = Some o' /\ keyOf o' = keyOf o /\ prefixOf o' = prefixOf o }.

Lemma evolves_same_heap s b :
  (forall k v, stored b k = Some v -> stored (db s) k = Some v) -> dbIndex (db s) <= dbIndex b ->
  evolves s (set_db s b) None.
Proof. intros H1 H2. split; [done| |by eauto]. intros q o Hq He Hs. left. exists q, o. by split_and!. Qed.

Lemma evolves_refl s : evolves s s None.
Proof. split; [done| |by eauto]. intros q o Hq He Hs. left. exists q, o. by split_and!. Qed.

Lemma evolves_grows s s1 s2 w : evolves s s1 w -> grows s1 s2 -> evolves s s2 w.
Proof.
  intros [Hdb Hh Hn] (Hd & _ & Hmono & Hsrc). split; [by rewrite Hd| |].
  2: { intros q o (o' & Ho' & ?)%Hn. exists o'. split; [by apply Hmono|done]. }
  rewrite Hd. intros q o Hq He Hs.
  destruct (Hsrc q o Hq) as [Hq1|(v & Hv & (val & -> & _) & Hu)]; [by apply (Hh q)|].
  right. eexists. split; [done|]. by apply decode_encode_index.
Qed.

Lemma evolves_kmm s s1 m w : evolves s s1 w -> evolves s (set_kmm s1 m) w.
Proof. by intros []; split. Qed.

(** Copying an object, or changing one that is not persistent. *)
Lemma evolves_copy s s1 w p o :
  evolves s s1 w -> (oskip (content o) = false -> exists q, heap s1 !! q = Some o) ->
  (forall x, heap s1 !! p = Some x -> keyOf o = keyOf x /\ prefixOf o = prefixOf x) ->
  evolves s (set_heap s1 (<[p := o]> (heap s1))) w.
Proof.
  intros [Hdb Hh Hn] Hsrc Hnm. split; [done| |]; cycle 1.
  { intros q x (x' & Hx' & Hk & Hp)%Hn. cbn [heap set_heap]. destruct (decide (p = q)) as [->|Hpq].
    - exists o. rewrite lookup_insert_eq. destruct (Hnm _ Hx') as [-> ->]. done.
    - exists x'. by rewrite lookup_insert_ne. }
  intros q x. cbn [heap set_heap db]. rewrite lookup_insert_Some.
  intros [[_ <-]|[_ Hq]] He Hs; [|by apply (Hh q)]. destruct (Hsrc Hs) as [q0 Hq0]. by apply (Hh q0).
Qed.

(** ** The operations keep the invariant *)

(** [cache.add] of a persistent object that was just stored. *)
Lemma cache_add_stored f p o s v :
  Inv (eq (keyOf o)) s -> heap s !! p = Some o -> ObjExists o = true -> fromDB (db s) o v ->
  exists s' r, cache_add f p o false s = (s', r) /\ Inv noex s' /\ (exists s1 m, grows s s1 /\ s' = set_kmm s1 m) /\
    (r = GoOk tt \/ r = GoErr ErrDB /\ f = BeginFault).
Proof.
  intros D Hp He (Hst & Hen & Hu). unfold cache_add.
  destruct (kmap_ok strict (eq (keyOf o)) f (content o) s D) as (s1 & r & -> & D1 & Hgr & Hr).
  assert (Hsame : s1 = set_kmm s1 (kmm s1)) by (by destruct s1).
  destruct r as [m|e|]; [|destruct Hr as (-> & Hf & Hnone & ->)|done].
  - eexists _, _. split; [done|]. split; [|split; [by exists s1, (<[Key (okeyPrefix (content o)):=<[Key (okey (content o)):=p]> m]> (kmm s1))|by left]].
    destruct Hgr as (Hdb & Hnx & Hmono & _). apply Inv_insert; [done|apply Hr| |].
    + pose proof (di_fresh _ _ _ D p o Hp). lia.
    + split; [exists o; split; [by apply Hmono|done]|]. intros o' Ho' _. rewrite (Hmono _ _ Hp) in Ho'. injection Ho' as <-.
      exists v, (content o). by rewrite Hdb.
  - eexists _, _. split; [done|]. split; [by eapply Inv_uncached|]. split; [exists s, (kmm s); by split; [apply grows_refl|]|by right].
Qed.

Lemma evolves_of_grows s s' : grows s s' -> evolves s s' None.
Proof. apply evolves_grows, evolves_refl. Qed.

(** [cache.add] of an object that is not persistent. *)
Lemma cache_add_skip f p o s :
  Inv noex s -> heap s !! p = Some o -> oskip (content o) = true ->
  exists s' r, cache_add f p o true s = (s', r) /\ Inv noex s' /\ evolves s s' None /\ r <> GoPanic.
Proof.
  intros D Hp Hsk. unfold cache_add.
  destruct (kmap_ok strict noex f (content o) s D) as (s1 & r & -> & D1 & Hgr & Hr).
  pose proof (evolves_of_grows _ _ Hgr) as Hev. destruct r as [m|e|]; [|by eexists _, _; split_and!|done].
  destruct Hr as [Hm _]. destruct Hgr as (Hdb & Hnx & Hmono & _). cbv zeta. case_match; [by eexists _, _; split_and!|].
  eexists _, _. split; [done|]. set (o' := SetIndex _ o).
  split; [|split; [|done]].
  - apply (Inv_insert (set_heap s1 (<[p := o']> (heap s1))) (content o)).
    + eapply Inv_heap; [by apply Inv_excuse|by apply Hmono|done].
    + done.
    + cbn [next set_heap]. pose proof (di_fresh _ _ _ D p o Hp). lia.
    + split; cbn [heap set_heap db]; [exists o'; by rewrite lookup_insert_eq|].
      intros x. rewrite lookup_insert_eq. intros [= <-] Hx. cbn [content o' SetIndex] in Hx. congruence.
  - apply evolves_kmm, evolves_copy; [done|cbn [content o' SetIndex]; congruence|].
    intros x. rewrite (Hmono _ _ Hp). by intros [= <-].
Qed.

(** [cache.del] when the key has no entry in the database. *)
Lemma cache_del_ok f atomic o s :
  Inv (eq (keyOf o)) s -> stored (db s) (keyOf o) = None ->
  (oskip (content o) = true -> Inv noex s) -> (atomic = true -> oskip (content o) = true) ->
  exists s' r, cache_del f o atomic s = (s', r) /\ Inv noex s' /\ evolves s s' None /\ r <> GoPanic /\
    (r = GoErr ErrKeyModified -> atomic = true).
Proof.
  intros D Hst Hsk Hat. unfold cache_del.
  destruct (kmap_ok strict (eq (keyOf o)) f (content o) s D) as (s1 & r & E & D1 & Hgr & Hr). rewrite E.
  pose proof (evolves_of_grows _ _ Hgr) as Hev.
  destruct r as [m|e|]; [|destruct Hr as (-> & _ & Hnone & ->); eexists _, _; split_and!; try done; by eapply Inv_uncached|done].
  destruct Hr as [Hm _]. destruct atomic; cbn [andb].
  - case_match; cycle 1.
    + eexists _, _. split; [done|]. split; [|split_and!; try done; by apply evolves_kmm].
      apply Inv_delete; [done|done|]. destruct Hgr as (-> & _). done.
    + eexists _, _. split; [done|]. split_and!; try done.
      destruct (kmap_ok strict noex f (content o) s (Hsk (Hat eq_refl))) as (s1' & r' & E' & D1' & _).
      rewrite E in E'. by injection E' as <- <-.
  - eexists _, _. split; [done|]. split; [|split_and!; try done; by apply evolves_kmm].
    apply Inv_delete; [done|done|]. destruct Hgr as (-> & _). done.
Qed.

(** The entry written by [PutObjectAtomic]. *)
Definition putWrites (f1 : fault) (p : nat) s : option (string * Z * list Z) :=
  match heap s !! p with
  | Some o =>
      match ovalue (content o) with
      | Some v =>
          if oskip (content o) then None
          else match (BoltDB.AtomicPut f1 (keyOf o) v (if ObjExists o then Some (Index o) else None) (db s)).2 with
               | GoOk kv => Some (keyOf o, LastIndex kv, v)
               | _ => None
               end
      | None => None
      end
  | None => None
  end.

Lemma set_db_same s : set_db s (db s) = s.
Proof. by destruct s. Qed.

Lemma PutObjectAtomic_ok f1 f2 p s :
  Inv noex s -> u64_room (db s) ->
  exists s' r, PutObjectAtomic f1 f2 p s = (s', r) /\ Inv noex s' /\ evolves s s' (putWrites f1 p s) /\ r <> GoPanic /\
    (r = GoOk tt -> forall o, heap s !! p = Some o -> oskip (content o) = false -> is_Some (putWrites f1 p s)).
Proof.
  intros D Hroom. unfold PutObjectAtomic, putWrites. destruct (heap s !! p) as [o|] eqn:Hp;
    [|eexists _, _; split_and!; try done; apply evolves_refl].
  destruct (ovalue (content o)) as [v|] eqn:Hv; [|eexists _, _; split_and!; try done; apply evolves_refl].
  destruct (oskip (content o)) eqn:Hsk.
  { destruct (cache_add_skip f2 p o s D Hp Hsk) as (s' & r & -> & D' & Hev & Hr).
    eexists _, _. split_and!; try done. intros _ o' [= <-]. congruence. }
  fold (keyOf o). set (prev := if ObjExists o then Some (Index o) else None).
  destruct (AtomicPut_ok f1 (keyOf o) v prev (db s) (di_db _ _ _ D) Hroom) as (b' & r & -> & Ho). cbn [snd].
  pose proof (put_dbOk f1 (db s) b' r prev (content o) v (di_db _ _ _ D) Hroom Hv Hsk Ho) as Hdb'.
  destruct Ho as [b' i -> Hi Hst Hpre|b' Hf Hb Hi|Hn Hs|Hn Hs|i j v0 Hn Hs Hd Hne].
  - set (o' := SetIndex _ o). set (s1 := set_heap (set_db s b') _). cbn [LastIndex] in *.
    assert (D1 : Inv (eq (keyOf o)) s1).
    { apply (Inv_heap _ (set_db s b') p o); [|done|done]. apply Inv_db; [done|done|].
      intros k' Hk'. rewrite Hst. by rewrite decide_False. }
    assert (Hu : is_u64 (dbIndex (db s) + 1)) by (pose proof (di_db _ _ _ D) as [? _]; unfold is_u64, u64_room in *; lia).
    assert (Hfrom : fromDB (db s1) o' (encode (dbIndex (db s) + 1) v)).
    { split; [|split; [by exists v|done]]. change (db s1) with b'. change (keyOf o') with (keyOf o).
      by rewrite Hst, decide_True. }
    assert (Hev : evolves s s1 (Some (keyOf o, dbIndex (db s) + 1, v))).
    { split; [by split_and!| |]; cbn [heap s1 set_heap set_db]; cycle 1.
      { intros q x Hq. destruct (decide (p = q)) as [->|Hpq].
        - exists o'. rewrite lookup_insert_eq. rewrite Hp in Hq. injection Hq as <-. done.
        - exists x. by rewrite lookup_insert_ne. }
      intros q x. rewrite lookup_insert_Some.
      intros [[_ <-]|[_ Hq]] He Hs; [right|left; exists q, x; by split_and!].
      eexists. split; [apply Hfrom|]. by apply decode_encode_index. }
    destruct (cache_add_stored f2 p o' s1 _ D1 (lookup_insert_eq _ _ _) eq_refl Hfrom) as (s' & r & -> & D' & (s2 & m & Hgr & ->) & Hr).
    eexists _, _. split; [done|]. split; [done|]. split; [by apply evolves_kmm; eapply evolves_grows|].
    split; [by destruct Hr as [->|[-> _]]|]. by eexists.
  - eexists _, _. split; [done|]. split; [by apply Inv_db_same|]. split_and!; try done.
    apply evolves_same_heap; [intros k x; unfold stored; by rewrite Hb|lia].
  - rewrite set_db_same. eexists _, _. split_and!; try done. apply evolves_refl.
  - rewrite set_db_same. eexists _, _. split_and!; try done. apply evolves_refl.
  - rewrite set_db_same. eexists _, _. split_and!; try done. apply evolves_refl.
Qed.

(** Deletions: what [BoltDB] and [cache.del] do together. *)
Lemma delete_then_del f2 o s b' r previous f1 :
  Inv noex s -> oskip (content o) = false -> del_outcome f1 (keyOf o) previous (db s) b' r ->
  match r with
  | GoOk _ => exists s' r', cache_del f2 o false (set_db s b') = (s', r') /\ Inv noex s' /\ evolves s s' None /\
      r' <> GoPanic /\ r' <> GoErr ErrKeyModified
  | _ => Inv noex (set_db s b') /\ evolves s (set_db s b') None
  end.
Proof.
  intros D Hsk Ho. pose proof (del_dbOk _ _ _ _ _ _ (di_db _ _ _ D) Ho) as Hdb'.
  destruct Ho as [b' Hi Hst Hpre|b' Hf Hb Hi|Hs|i j v0 Hn Hs Hd Hne].
  - assert (Hev : evolves s (set_db s b') None).
    { apply evolves_same_heap; [|lia]. intros k x. rewrite Hst. by case_decide. }
    destruct (cache_del_ok f2 false o (set_db s b')) as (s' & r' & E & D' & Hev' & Hp & Hm); try done.
    + apply Inv_db; [done|done|]. intros k' Hk'. rewrite Hst. by rewrite decide_False.
    + cbn [db set_db]. by rewrite Hst, decide_True.
    + congruence.
    + exists s', r'. split; [done|]. split; [done|]. split; [|split; [done|intros ->; by discriminate Hm]].
      destruct Hev as [Hd Hh Hn], Hev' as [Hd' Hh' Hn']. cbn [db set_db] in *. split; [| |exact Hn'].
      * split; [intros k x Hx; by apply Hd, Hd'|]. destruct Hd, Hd'. lia.
      * intros q x Hq He Hs. destruct (Hh' q x Hq He Hs) as [?|?]; [by left|by right].
  - split; [by apply Inv_db_same|]. apply evolves_same_heap; [intros k x; unfold stored; by rewrite Hb|lia].
  - rewrite set_db_same. split; [done|apply evolves_refl].
  - rewrite set_db_same. split; [done|apply evolves_refl].
Qed.

Lemma cache_del_skip f2 atomic o s :
  Inv noex s -> oskip (content o) = true ->
  exists s' r, cache_del f2 o atomic s = (s', r) /\ Inv noex s' /\ evolves s s' None /\ r <> GoPanic.
Proof.
  intros D Hsk. destruct (cache_del_ok f2 atomic o s) as (s' & r & E & D' & Hev & Hp & _); try done.
  - by apply Inv_excuse.
  - apply skip_not_stored; [apply D|done].
  - by exists s', r.
Qed.

Lemma DeleteObject_ok f1 f2 p s :
  Inv noex s -> exists s' r, DeleteObject f1 f2 p s = (s', r) /\ Inv noex s' /\ evolves s s' None /\ r <> GoPanic.
Proof.
  intros D. unfold DeleteObject. destruct (heap s !! p) as [o|]; [|eexists _, _; split_and!; try done; apply evolves_refl].
  destruct (oskip (content o)) eqn:Hsk; [by apply cache_del_skip|]. fold (keyOf o).
  destruct (Delete_ok f1 (keyOf o) (db s)) as (b' & r & -> & Ho). pose proof (delete_then_del f2 o s b' r _ f1 D Hsk Ho) as Hd.
  destruct r as [[]|e|]; [destruct Hd as (s' & r' & -> & ?); exists s', r'; naive_solver|by eexists _, _; split_and!; try apply Hd|].
  inversion Ho.
Qed.

Lemma DeleteObjectAtomic_ok f1 f2 p s :
  Inv noex s -> exists s' r, DeleteObjectAtomic f1 f2 p s = (s', r) /\ Inv noex s' /\ evolves s s' None /\ r <> GoPanic.
Proof.
  intros D. unfold DeleteObjectAtomic. destruct (heap s !! p) as [o|]; [|eexists _, _; split_and!; try done; apply evolves_refl].
  destruct (oskip (content o)) eqn:Hsk; [by apply cache_del_skip|]. fold (keyOf o).
  destruct (AtomicDelete_ok f1 (keyOf o) (Index o) (db s) (di_db _ _ _ D)) as (b' & r & -> & Ho).
  pose proof (delete_then_del f2 o s b' r _ f1 D Hsk Ho) as Hd.
  destruct r as [[]|e|]; [destruct Hd as (s' & r' & -> & ?); exists s', r'; naive_solver| |inversion Ho].
  destruct e; by eexists _, _; split_and!; try apply Hd.
Qed.

(** [GetObject] copies the cached object. *)
Lemma GetObject_ok f p s :
  Inv noex s ->
  exists s' r, GetObject f p s = (s', r) /\ Inv noex s' /\ evolves s s' None /\ db s' = db s /\
    match r with
    | GoOk _ => exists o src P m q, heap s !! p = Some o /\ heap s' !! p = Some src /\ keyOf src = keyOf o /\
        prefixOf src = prefixOf o /\ P = prefixOf o /\
        kmm s' !! P = Some m /\ m !! keyOf o = Some q /\ heap s' !! q = Some src /\ cached strict s' P (keyOf o) q
    | GoErr ErrKeyNotFound => exists o, heap s !! p = Some o /\ stored (db s) (keyOf o) = None
    | GoErr ErrDB => f = BeginFault
    | GoErr ErrInvalidParameter => heap s !! p = None
    | _ => False
    end.
Proof.
  intros D. unfold GetObject. destruct (heap s !! p) as [o|] eqn:Hp; [|eexists _, _; split_and!; try done; apply evolves_refl].
  unfold cache_get. destruct (kmap_ok strict noex f (content o) s D) as (s1 & r & -> & D1 & Hgr & Hr).
  pose proof (evolves_of_grows _ _ Hgr) as Hev. destruct Hgr as (Hdb & Hnx & Hmono & _).
  destruct r as [m|e|]; [|destruct Hr as (-> & ? & _); by eexists _, _; split_and!|done]. destruct Hr as [Hm _].
  fold (keyOf o) (prefixOf o) in *. destruct (m !! keyOf o) as [q|] eqn:Hq; cbn [mbind option_bind].
  - pose proof (di_cached _ _ _ D1 _ _ _ _ Hm Hq (not_noex _)) as Hc. pose proof Hc as [(src & Hsrc & Hk & Hpx & _) _].
    rewrite Hsrc. eexists _, _. split; [done|].
    assert (Hpq : heap (set_heap s1 (<[p := src]> (heap s1))) !! q = Some src).
    { cbn [heap set_heap]. destruct (decide (p = q)) as [->|]; [by rewrite lookup_insert_eq|by rewrite lookup_insert_ne]. }
    assert (D2 : Inv noex (set_heap s1 (<[p := src]> (heap s1)))).
    { destruct (decide (p = q)) as [->|Hpq'].
      { replace (set_heap s1 (<[q := src]> (heap s1))) with s1; [done|]. destruct s1; unfold set_heap; cbn in *. by rewrite insert_id. }
      pose proof D1 as [Hfr1 Hdb1 Hca1 Hth1 Hco1 Hpr1]. split; cbn [heap next db kmm set_heap]; try done.
      - intros q' x. rewrite lookup_insert_Some. intros [[<- _]|[_ ?]]; [|by eapply Hfr1]. pose proof (di_fresh _ _ _ D p o Hp). lia.
      - intros P' m' k' q' HP' Hq' Hex. destruct (Hca1 P' m' k' q' HP' Hq' Hex) as [(x & Hx & Hkx & Hpx' & Hex') Hcd].
        assert (p <> q').
        { intros <-. rewrite (Hmono _ _ Hp) in Hx. injection Hx as <-. subst k' P'.
          rewrite Hm in HP'. injection HP' as <-. congruence. }
        split; cbn [heap db set_heap]; [exists x; by rewrite lookup_insert_ne|]. intros y. rewrite lookup_insert_ne by done. apply Hcd. }
    split; [done|]. split.
    { apply evolves_copy; [done|by exists q|]. intros x. rewrite (Hmono _ _ Hp). by intros [= <-]. } split; [done|].
    exists o, src, (prefixOf o), m, q. split_and!; try done; [cbn [heap set_heap]; by rewrite lookup_insert_eq|].
    by apply (di_cached _ _ _ D2 _ m).
  - eexists _, _. split_and!; try done. exists o. split; [done|]. destruct (stored (db s) (keyOf o)) as [v|] eqn:Hs; [|done].
    destruct (di_complete _ _ _ D1 _ _ (keyOf o) v Hm) as [q' Hq']; try done; [by rewrite Hdb|apply key_has_prefix|congruence].
Qed.
End Ops.
