(* ===== verification/DatastoreTheorems.v ===== *)
(** * The datastore of libnetwork: theorems

    Runs of the store with objects that are created, changed, written, read and deleted:
    reading through the cache is reading the database, a write is accepted exactly when
    nobody has written the key since the object was read, entries survive a restart, and
    [deleteFromStore] ends when others let it.  Then what restarting the index and the check of
    [ensureParent] lead to. *)

From Stdlib Require Import String Sorting.Sorted.
From stdpp Require Import gmap strings.
From S2P Require Import Prelude SortedMaps Datastore DatastoreSpec DatastoreOps.
Import BoltDB (BoltDB, mkBoltDB, bucket, dbIndex, fault, NoFault, BeginFault, CommitFault, encode, decodeIndex, decodeValue).

Local Open Scope string_scope.

(** A write: key, index and value. *)
Abbreviation write := (string * Z * list Z)%type.

Section Runs.
Context {A : Type} `{HK : KVObject A} `{!KVLaws A}.
Implicit Types s : Store A.

(** ** Runs *)

Definition isCached s (p : nat) : Prop := exists P m k, kmm s !! P = Some m /\ m !! k = Some p.

(** One call, with the write it makes.  Changing an object keeps its key; in a [strict] run
    nobody changes an object that is in the cache. *)
Inductive step (strict : bool) s : option write -> Store A -> Prop :=
| st_new a : step strict s None (alloc (mkKvo a 0 false) s).2
| st_change p o a :
    heap s !! p = Some o -> Key (okey a) = keyOf o -> Key (okeyPrefix a) = prefixOf o ->
    (strict = true -> ~ isCached s p) ->
    step strict s None (set_heap s (<[p := mkKvo a (Index o) (ObjExists o)]> (heap s)))
| st_put f1 f2 p : u64_room (db s) -> step strict s (putWrites f1 p s) (PutObjectAtomic f1 f2 p s).1
| st_get f p : step strict s None (GetObject f p s).1
| st_list f p : step strict s None (ListObjects f p s).1
| st_delete f1 f2 p : step strict s None (DeleteObject f1 f2 p s).1
| st_deleteAtomic f1 f2 p : step strict s None (DeleteObjectAtomic f1 f2 p s).1.

Definition logged (w : option write) (ws : list write) : list write :=
  match w with Some w => w :: ws | None => ws end.

(** The store after a run and the writes, the last one first. *)
Inductive run (strict : bool) (s0 : Store A) : Store A -> list write -> Prop :=
| run_nil : run strict s0 s0 []
| run_step s s' w ws : run strict s0 s ws -> step strict s w s' -> run strict s0 s' (logged w ws).

Lemma Inv_New strict file : dbOk (A := A) (BoltDB.New file) -> DInv strict noex (New (A := A) file).
Proof. intros Hdb. by split. Qed.

Lemma Inv_alloc strict a s : DInv strict noex s -> DInv strict noex (alloc (mkKvo a 0 false) s).2.
Proof.
  intros [Hfr Hdb Hca Hth Hco Hpr]. split; cbn [alloc snd heap next db kmm]; try done.
  - intros q o. rewrite lookup_insert_Some. intros [[<- _]|[_ Hq]]; [lia|]. apply Hfr in Hq. lia.
  - intros P m k q HP Hq Hne. apply (cached_extends strict s); [done| |by eapply Hca].
    intros q' o Hq'. cbn [heap]. rewrite lookup_insert_ne; [done|]. apply Hfr in Hq'. lia.
  - intros P m k q HP Hq. destruct (Hth P m k q HP Hq). split; [lia|done].
Qed.

Lemma evolves_alloc strict a s : DInv strict noex s -> evolves s (alloc (mkKvo a 0 false) s).2 None.
Proof.
  intros D. split; [done| |]; cycle 1.
  { intros q o Hq. exists o. cbn [alloc snd heap]. rewrite lookup_insert_ne; [done|]. pose proof (di_fresh _ _ _ D q o Hq). lia. }
  intros q o. cbn [alloc snd heap]. rewrite lookup_insert_Some.
  intros [[_ <-]|[_ Hq]] He Hs; [done|]. left. exists q, o. by split_and!.
Qed.

Lemma change_ok strict p o a s :
  DInv strict noex s -> heap s !! p = Some o -> Key (okey a) = keyOf o -> Key (okeyPrefix a) = prefixOf o ->
  (strict = true -> ~ isCached s p) ->
  let s' := set_heap s (<[p := mkKvo a (Index o) (ObjExists o)]> (heap s)) in
  DInv strict noex s' /\ evolves s s' None.
Proof.
  intros [Hfr Hdb Hca Hth Hco Hpr] Hp Hk Hx Hst. cbv zeta. pose proof (skip_by_key _ _ Hk) as Hsk. split.
  - split; cbn [heap next db kmm set_heap]; try done.
    + intros q x. rewrite lookup_insert_Some. intros [[<- _]|[_ Hq]]; by eapply Hfr.
    + intros P m k q HP Hq Hne. destruct (Hca P m k q HP Hq Hne) as [(x & Hx' & Hkx & Hpx & Hex) Hcd].
      destruct (decide (p = q)) as [->|Hpq]; cycle 1.
      { split; cbn [heap db set_heap]; [exists x|intros y]; rewrite lookup_insert_ne by done; [done|apply Hcd]. }
      rewrite Hp in Hx'. injection Hx' as <-. split; cbn [heap db set_heap]; rewrite lookup_insert_eq.
      * eexists. split; [done|]. split; [exact (eq_trans Hk Hkx)|]. split; [exact (eq_trans Hx Hpx)|done].
      * intros y [= <-] Hy. cbn [content Index] in *. rewrite Hsk in Hy. destruct (Hcd o Hp Hy) as (v & b & ? & ? & ? & _).
        exists v, b. split_and!; try done. intros E. destruct (Hst E). by exists P, m, k.
  - split; [done| |]; cycle 1.
    { intros q x Hq. cbn [heap set_heap]. destruct (decide (p = q)) as [->|Hpq].
      - eexists. rewrite lookup_insert_eq. rewrite Hp in Hq. injection Hq as <-. done.
      - exists x. by rewrite lookup_insert_ne. }
    intros q x. cbn [heap set_heap]. rewrite lookup_insert_Some.
    intros [[<- <-]|[_ Hq]] He Hs; left; [exists p, o|exists q, x; by split_and!].
    cbn [content Index ObjExists] in *. split; [done|]. split; [done|]. split; [done|]. split; [done|].
    by rewrite <- Hsk.
Qed.

Lemma ListObjects_ok strict f p s :
  DInv strict noex s -> DInv strict noex (ListObjects f p s).1 /\ evolves s (ListObjects f p s).1 None.
Proof.
  intros D. unfold ListObjects. destruct (heap s !! p) as [o|]; [|split; [done|apply evolves_refl]].
  unfold cache_list. destruct (kmap_ok strict noex f (content o) s D) as (s' & r & -> & D' & Hgr & _).
  apply evolves_of_grows in Hgr. by destruct r.
Qed.

Lemma store_step_ok strict s w s' :
  DInv strict noex s -> step strict s w s' -> DInv strict noex s' /\ evolves s s' w.
Proof.
  intros D Hst. destruct Hst as [a|p o a Hp Hk Hx Hc|f1 f2 p Hr|f p|f p|f1 f2 p|f1 f2 p].
  - split; [by apply Inv_alloc|by eapply evolves_alloc].
  - by apply change_ok.
  - destruct (PutObjectAtomic_ok strict f1 f2 p s D Hr) as (s' & r & -> & D' & Hev & _). done.
  - destruct (GetObject_ok strict f p s D) as (s' & r & -> & D' & Hev & _). done.
  - by apply ListObjects_ok.
  - destruct (DeleteObject_ok strict f1 f2 p s D) as (s' & r & -> & D' & Hev & _). done.
  - destruct (DeleteObjectAtomic_ok strict f1 f2 p s D) as (s' & r & -> & D' & Hev & _). done.
Qed.

Lemma run_Inv strict s0 s ws : DInv strict noex s0 -> run strict s0 s ws -> DInv strict noex s.
Proof. intros D0. induction 1 as [|s s' w ws _ IH Hst]; [done|]. by eapply store_step_ok. Qed.

(** ** Reading through the cache *)

(** Reading an entry of the database without a cache, with [c] to decode it. *)
Definition readThrough (c : A) (b : BoltDB) (k : string) : option (kvo A) :=
  v ← stored b k; i ← decodeIndex v; a ← osetValue c (decodeValue v); Some (mkKvo a i true).

Lemma readThrough_entry (c : A) b k v a i :
  stored b k = Some v -> entry k v a i -> is_u64 i -> Key (okeyPrefix c) = Key (okeyPrefix a) ->
  readThrough c b k = Some (mkKvo a i true).
Proof.
  intros Hs (val & -> & Hv & _) Hi Hp. unfold readThrough. rewrite Hs. cbn [mbind option_bind].
  rewrite decode_encode_index by done. cbn [mbind option_bind]. by rewrite decode_encode_value, (setValue_value c a).
Qed.

(** A cached persistent object is what the database has. *)
Lemma cached_reads s P k q o (c : A) :
  cached true s P k q -> heap s !! q = Some o -> oskip (content o) = false -> Key (okeyPrefix c) = P ->
  readThrough c (db s) k = Some o.
Proof.
  intros [(o' & Ho' & Hk & Hp & He) Hcd] Ho Hsk Hc. rewrite Ho in Ho'. injection Ho' as <-.
  destruct (Hcd o Ho Hsk) as (v & a & Hs & Hen & Hi & Heq).
  specialize (Heq eq_refl). subst a. rewrite (readThrough_entry c _ _ v (content o) (Index o)); try done.
  - by destruct o; cbn in *; rewrite He.
  - by rewrite Hc.
Qed.

Lemma GetObject_reads s f p o :
  DInv true noex s -> heap s !! p = Some o -> oskip (content o) = false ->
  let '(s', r) := GetObject f p s in
  db s' = db s /\
  (r = GoErr ErrDB /\ f = BeginFault \/
   match readThrough (content o) (db s) (keyOf o) with
   | Some x => r = GoOk tt /\ heap s' !! p = Some x
   | None => r = GoErr ErrKeyNotFound
   end).
Proof.
  intros D Hp Hsk. destruct (GetObject_ok true f p s D) as (s' & r & -> & D' & _ & Hdb & Hr). split; [done|].
  destruct r as [[]|e|]; [|destruct e; try done|done].
  - destruct Hr as (o1 & src & P & m & q & Hp1 & Hsrc & Hk & Hpx & -> & Hm & Hq & Hqs & Hc).
    rewrite Hp in Hp1. injection Hp1 as <-. right. rewrite <- Hdb.
    rewrite (cached_reads s' (prefixOf o) (keyOf o) q src (content o) Hc Hqs); [done| |done].
    by rewrite (skip_by_key (content src) (content o)).
  - destruct Hr as (o1 & Hp1 & Hnone). rewrite Hp in Hp1. injection Hp1 as <-. right. unfold readThrough. by rewrite Hnone.
  - by left.
  - congruence.
Qed.

(** C14: the cache is transparent.  In a run in which nobody changes an object that the cache
    holds, [GetObject] of a persistent object gives content and index of the entry that the
    database has for the key, and [ErrKeyNotFound] when there is none; it fails only when
    the database cannot be read. *)
Theorem datastore_cache_transparent file s ws f p o :
  dbOk (A := A) (BoltDB.New file) -> run true (New file) s ws ->
  heap s !! p = Some o -> oskip (content o) = false ->
  let '(s', r) := GetObject f p s in
  db s' = db s /\
  (r = GoErr ErrDB /\ f = BeginFault \/
   match readThrough (content o) (db s) (keyOf o) with
   | Some x => r = GoOk tt /\ heap s' !! p = Some x
   | None => r = GoErr ErrKeyNotFound
   end).
Proof. intros Hf Hrun. by apply GetObject_reads, (run_Inv _ _ _ _ (Inv_New true _ Hf) Hrun). Qed.

(** listing objects through the cache gives one object for each entry of the database
    below the prefix, with its content and index, and apart from those only objects that are
    not persistent (in a run in which nobody changes an object that the cache holds). *)
Theorem datastore_list_complete file s ws f p o l s' :
  dbOk (A := A) (BoltDB.New file) -> run true (New file) s ws ->
  heap s !! p = Some o -> ListObjects f p s = (s', GoOk l) ->
  NoDup l /\
  (forall k x, String.prefix (prefixOf o) k = true -> readThrough (content o) (db s) k = Some x ->
     exists q, q ∈ l /\ heap s' !! q = Some x) /\
  (forall q, q ∈ l -> exists x, heap s' !! q = Some x /\ prefixOf x = prefixOf o /\
  (oskip (content x) = false -> readThrough (content o) (db s) (keyOf x) = Some x)).
Proof.
  intros Hf Hrun Hp. pose proof (run_Inv _ _ _ _ (Inv_New true _ Hf) Hrun) as D. unfold ListObjects. rewrite Hp.
  unfold cache_list. destruct (kmap_ok true noex f (content o) s D) as (s1 & r & -> & D' & (Hdb & _) & Hr).
  destruct r as [m|e|]; try done. destruct Hr as [Hm _]. intros [= <- <-]. fold (prefixOf o) in Hm.
  assert (Hget : forall k q, m !! k = Some q -> exists x, heap s1 !! q = Some x /\ keyOf x = k /\ prefixOf x = prefixOf o /\
  (oskip (content x) = false -> readThrough (content o) (db s) k = Some x)).
  { intros k q Hq. pose proof (di_cached _ _ _ D' _ _ _ _ Hm Hq (not_noex _)) as Hc. pose proof Hc as [(x & Hx & Hk & Hpx & _) _].
    exists x. split_and!; try done. intros Hsk. rewrite <- Hdb. by eapply cached_reads. }
  split; [|split].
  - apply NoDup_fmap_2_strong; [|apply NoDup_map_to_list].
    intros [k1 q1] [k2 q2] H1%elem_of_map_to_list H2%elem_of_map_to_list Hq. cbn in Hq. subst q2.
    destruct (Hget _ _ H1) as (x1 & E1 & <- & _), (Hget _ _ H2) as (x2 & E2 & <- & _). congruence.
  - intros k x Hk Hread. assert (Hst : is_Some (stored (db s1) k)).
    { unfold readThrough in Hread. rewrite Hdb. by destruct (stored (db s) k). }
    destruct Hst as [v Hv]. destruct (di_complete _ _ _ D' _ _ _ _ Hm Hv Hk (not_noex _)) as [q Hq].
    exists q. split; [apply list_elem_of_fmap; exists (k, q); split; [done|by apply elem_of_map_to_list]|].
    destruct (Hget _ _ Hq) as (y & Hy & Hky & Hpy & Hrd). destruct (oskip (content y)) eqn:Hsk.
    { pose proof (skip_not_stored s1 (content y) (di_db _ _ _ D') Hsk) as Hn. fold (keyOf y) in Hn. congruence. }
    rewrite Hrd in Hread by done. by injection Hread as ->.
  - intros q ([k q'] & -> & Hq%elem_of_map_to_list)%list_elem_of_fmap. cbn [snd].
    destruct (Hget _ _ Hq) as (x & Hx & <- & Hpx & Hrd). eauto.
Qed.

(** ** Optimistic locking *)

(** The last write to a key. *)
Fixpoint lastWrite (ws : list write) (k : string) : option (Z * list Z) :=
  match ws with
  | [] => None
  | (k', i, v) :: ws => if decide (k' = k) then Some (i, v) else lastWrite ws k
  end.

Lemma lastWrite_in ws k i v : lastWrite ws k = Some (i, v) -> (k, i, v) ∈ ws.
Proof.
  induction ws as [|[[k' j] v'] ws IH]; cbn; [done|]. case_decide as Hd; [intros [= -> ->]; subst; by left|].
  intros ?. right. auto.
Qed.

(** Entries of the database are the last writes; indexes grow; an object in memory that is
    known to be stored has the index of a write of its key. *)
Record LInv s (ws : list write) : Prop := {
  li_stored k v : stored (db s) k = Some v ->
    exists i val, v = encode i val /\ is_u64 i /\ lastWrite ws k = Some (i, val);
  li_sorted : StronglySorted (fun w w' => w'.1.2 < w.1.2) ws;
  li_bound w : w ∈ ws -> w.1.2 <= dbIndex (db s);
  li_seen q o : heap s !! q = Some o -> ObjExists o = true -> oskip (content o) = false ->
    exists v, (keyOf o, Index o, v) ∈ ws }.

Lemma evolves_LInv s s' w ws : LInv s ws -> evolves s s' w -> LInv s' (logged w ws).
Proof.
  intros [Hst Hso Hbo Hse] [Hdb Hh _]. assert (Hst' : forall k v, stored (db s') k = Some v ->
    exists i val, v = encode i val /\ is_u64 i /\ lastWrite (logged w ws) k = Some (i, val)).
  { intros k v Hk. destruct w as [[[k0 i] v0]|]; cbn [logged lastWrite].
    - destruct Hdb as (_ & _ & Hu & Hs). rewrite Hs in Hk. case_decide; [|by apply Hst]. injection Hk as <-. eauto.
    - by apply Hst, Hdb. }
  split; [done| | |].
  - destruct w as [[[k0 i] v0]|]; cbn [logged]; [|done]. constructor; [done|]. apply Forall_forall.
    intros x Hx%list_elem_of_In. apply Hbo in Hx. cbn. destruct Hdb as (-> & _). lia.
  - destruct w as [[[k0 i] v0]|]; cbn [logged].
    + destruct Hdb as (Hi & -> & _). intros x [->|Hx]%elem_of_cons; [done|]. apply Hbo in Hx. lia.
    + destruct Hdb as [_ Hle]. intros x Hx. apply Hbo in Hx. lia.
  - intros q o Hq He Hs. destruct (Hh q o Hq He Hs) as [(q0 & o0 & Hq0 & Hk & Hi & He0 & Hs0)|(v & Hv & Hd)].
    + destruct (Hse q0 o0 Hq0 He0 Hs0) as [v Hv]. rewrite Hk, Hi in Hv. exists v. destruct w; [by right|done].
    + destruct (Hst' _ _ Hv) as (i & val & -> & Hu & Hl). rewrite decode_encode_index in Hd by done. injection Hd as ->.
      exists val. by apply lastWrite_in.
Qed.

Lemma dbOk_empty : dbOk (A := A) (BoltDB.New None).
Proof. split; [unfold is_u64; cbn; lia|done]. Qed.

Lemma run_LInv strict s ws : run strict (New (A := A) None) s ws -> LInv s ws.
Proof.
  intros Hrun. pose proof (Inv_New strict None dbOk_empty) as D0. induction Hrun as [|s s' w ws Hr IH Hst].
  - split; try done; [constructor|by intros w []%elem_of_nil].
  - eapply evolves_LInv; [exact IH|]. by eapply store_step_ok; [by eapply run_Inv|].
Qed.

Lemma lastWrite_split ws k i v :
  StronglySorted (fun w w' : write => w'.1.2 < w.1.2) ws -> (k, i, v) ∈ ws ->
  exists later earlier, ws = (later ++ (k, i, v) :: earlier)%list /\
  (forall w, w ∈ later -> i < w.1.2) /\ (forall w, w ∈ earlier -> w.1.2 < i) /\
  (forall j v', lastWrite ws k = Some (j, v') -> (j = i <-> forall w, w ∈ later -> w.1.1 <> k)).
Proof.
  intros Hso (later & earlier & ->)%list_elem_of_split. exists later, earlier. split; [done|].
  assert (Hl : forall w, w ∈ later -> i < w.1.2).
  { intros w Hw. apply list_elem_of_In in Hw. induction later as [|x later IH]; [done|].
    apply StronglySorted_inv in Hso as [Hso Hx]. destruct Hw as [->|Hw]; [|by apply IH].
    rewrite List.Forall_forall in Hx. apply (Hx (k, i, v)), list_elem_of_In, elem_of_app. right. by left. }
  split; [done|]. split.
  { clear Hl. induction later as [|x later IH]; apply StronglySorted_inv in Hso as [Hso Hx]; [|by apply IH].
    rewrite List.Forall_forall in Hx. intros w Hw%list_elem_of_In. by apply (Hx w). }
  intros j v'. clear Hso. induction later as [|[[k1 i1] v1] later IH]; cbn [app lastWrite].
  { rewrite decide_True by done. intros [= -> ->]. split; [by intros _ w []%elem_of_nil|done]. }
  case_decide as Hd.
  - intros [= -> ->]. split; [intros ->|].
    + pose proof (Hl (k1, i, v') (list_elem_of_here _ _)). cbn in *. lia.
    + intros Hn. by destruct (Hn (k1, j, v') (list_elem_of_here _ _)).
  - intros Hw. rewrite IH; [|by intros w Hw'; apply Hl; right|done]. split.
    + intros Hn w [->|Hw']%elem_of_cons; [done|by apply Hn].
    + intros Hn w Hw'. apply Hn. by right.
Qed.
(** The verdict on a write. *)
Definition verdict s (o : kvo A) : go_result kvErr unit :=
  match stored (db s) (keyOf o), ObjExists o with
  | None, true => GoErr ErrKeyNotFound
  | None, false => GoOk tt
  | Some _, false => GoErr ErrKeyModified
  | Some v0, true => if bool_decide (decodeIndex v0 = Some (Index o)) then GoOk tt else GoErr ErrKeyModified
  end.

Lemma put_verdict strict p o v s :
  DInv strict noex s -> u64_room (db s) ->
  heap s !! p = Some o -> ovalue (content o) = Some v -> oskip (content o) = false ->
  (PutObjectAtomic NoFault NoFault p s).2 = verdict s o /\
  (verdict s o = GoOk tt -> putWrites NoFault p s = Some (keyOf o, dbIndex (db s) + 1, v)).
Proof.
  intros D Hroom Hp Hv Hsk. destruct (PutObjectAtomic_ok strict NoFault NoFault p s D Hroom) as (s' & r & E & _).
  unfold PutObjectAtomic, putWrites, verdict in *. rewrite Hp, Hv, Hsk in *. fold (keyOf o) in *.
  destruct (AtomicPut_ok NoFault (keyOf o) v (if ObjExists o then Some (Index o) else None) (db s) (di_db _ _ _ D) Hroom)
    as (b' & r' & -> & Ho). cbn [snd].
  pose proof (put_dbOk NoFault (db s) b' r' _ (content o) v (di_db _ _ _ D) Hroom Hv Hsk Ho) as Hdb'.
  destruct Ho as [b' i -> Hi Hst Hpre|b' Hf Hb Hi|Hn [v0 Hs]|Hn Hs|i j v0 Hn Hs Hd Hne]; [|done| | |].
  - cbn [LastIndex]. set (o' := SetIndex _ o). set (s1 := set_heap (set_db s b') _).
    assert (Hu : is_u64 (dbIndex (db s) + 1)) by (pose proof (di_db _ _ _ D) as [? _]; unfold is_u64, u64_room in *; lia).
    assert (D1 : DInv strict (eq (keyOf o)) s1).
    { apply (Inv_heap strict _ (set_db s b') p o); [|done|done]. apply Inv_db; [done|done|].
      intros k' Hk'. rewrite Hst. by rewrite decide_False. }
    assert (Hfrom : fromDB (db s1) o' (encode (dbIndex (db s) + 1) v)).
    { split; [|split; [by exists v|done]]. change (db s1) with b'. change (keyOf o') with (keyOf o).
      by rewrite Hst, decide_True. }
    destruct (cache_add_stored strict NoFault p o' s1 _ D1 (lookup_insert_eq _ _ _) eq_refl Hfrom) as (s2 & r2 & -> & _ & _ & Hr).
    split; [|done]. destruct Hr as [->|[_ ?]]; [|done]. cbn [snd]. destruct (ObjExists o).
    + destruct Hpre as (v0 & -> & Hd). by rewrite bool_decide_true.
    + by rewrite Hpre.
  - destruct (ObjExists o); [done|]. by rewrite Hs.
  - destruct (ObjExists o); [|by destruct Hn]. by rewrite Hs.
  - destruct (ObjExists o); [|done]. injection Hn as ->. rewrite Hs, bool_decide_false; [done|]. congruence.
Qed.

(** C13: no update is lost.  In a run from an empty database, an object that is known to be
    stored carries the index of one write of its key; writing it is refused with
    [ErrKeyModified] when the key was written again after that, with [ErrKeyNotFound] when
    the key is gone, and is accepted otherwise. *)
Theorem datastore_no_lost_update strict s ws p o v :
  run strict (New None) s ws -> u64_room (db s) -> heap s !! p = Some o ->
  ovalue (content o) = Some v -> oskip (content o) = false -> ObjExists o = true ->
  exists v0 later earlier,
    ws = (later ++ (keyOf o, Index o, v0) :: earlier)%list /\
    (forall w, w ∈ later -> Index o < w.1.2) /\ (forall w, w ∈ earlier -> w.1.2 < Index o) /\
    (PutObjectAtomic NoFault NoFault p s).2 =
      match stored (db s) (keyOf o) with
      | None => GoErr ErrKeyNotFound
      | Some _ => if existsb (fun w : write => String.eqb w.1.1 (keyOf o)) later then GoErr ErrKeyModified else GoOk tt
      end.
Proof.
  intros Hrun Hroom Hp Hv Hsk He. pose proof (run_Inv _ _ _ _ (Inv_New strict _ dbOk_empty) Hrun) as D.
  pose proof (run_LInv _ _ _ Hrun) as [Hst Hso _ Hse]. destruct (Hse p o Hp He Hsk) as [v0 Hin].
  destruct (lastWrite_split ws _ _ _ Hso Hin) as (later & earlier & Hws & Hl & Hea & Hlast).
  exists v0, later, earlier. split_and!; try done.
  rewrite (proj1 (put_verdict strict p o v s D Hroom Hp Hv Hsk)). unfold verdict. rewrite He.
  destruct (stored (db s) (keyOf o)) as [x|] eqn:Hx; [|done].
  destruct (Hst _ _ Hx) as (i & val & -> & Hi & Hw). rewrite decode_encode_index by done.
  specialize (Hlast i val Hw). destruct (existsb _ later) eqn:Hex.
  - rewrite bool_decide_false; [done|]. intros [= E]. pose proof (proj1 Hlast E) as Hn.
    apply existsb_exists in Hex as (w & Hw' & Hk). apply String.eqb_eq in Hk. by apply (Hn w); [apply list_elem_of_In|].
  - rewrite bool_decide_true; [done|]. f_equal. apply (proj2 Hlast). intros w Hw' Hk.
    apply not_true_iff_false in Hex. apply Hex, existsb_exists. exists w. split; [by apply list_elem_of_In|by apply String.eqb_eq].
Qed.

(** ** Restarting *)

(** what is written can be read after a restart: once [PutObjectAtomic] has succeeded,
    a new store on the same file reads the object back, with the same content and index. *)
Theorem datastore_reopen strict file s ws p o v f1 f2 c s' :
  dbOk (A := A) (BoltDB.New file) -> run strict (New file) s ws -> u64_room (db s) ->
  heap s !! p = Some o -> ovalue (content o) = Some v -> oskip (content o) = false ->
  Key (okey c) = keyOf o -> Key (okeyPrefix c) = prefixOf o ->
  PutObjectAtomic f1 f2 p s = (s', GoOk tt) ->
  let '(q, s1) := alloc (mkKvo c 0 false) (New (bucket (db s'))) in
  let '(s2, r) := GetObject NoFault q s1 in
  r = GoOk tt /\ heap s2 !! q = Some (mkKvo (content o) (dbIndex (db s) + 1) true).
Proof.
  intros Hf Hrun Hroom Hp Hv Hsk Hk Hpx Hput. pose proof (run_Inv _ _ _ _ (Inv_New strict _ Hf) Hrun) as D.
  destruct (PutObjectAtomic_ok strict f1 f2 p s D Hroom) as (x & r & E & D' & Hev & _ & Hw). rewrite Hput in E.
  injection E as <- <-. destruct (Hw eq_refl o Hp Hsk) as [w Hpw]. rewrite Hpw in Hev.
  unfold putWrites in Hpw. rewrite Hp, Hv, Hsk in Hpw. case_match; try done. injection Hpw as <-.
  destruct Hev as [(Hi & _ & Hu & Hst) _]. rewrite Hi in *.
  pose proof (di_db _ _ _ D') as [_ Hdb'].
  assert (Hok : dbOk (A := A) (BoltDB.New (bucket (db s')))) by (split; [unfold is_u64; cbn; lia|done]).
  cbn [alloc]. set (s1 := mkStore _ _ _ _).
  assert (D1 : DInv true noex s1) by apply (Inv_alloc true c _ (Inv_New true _ Hok)).
  assert (Hsk' : oskip c = false) by (by rewrite (skip_by_key c (content o))).
  pose proof (GetObject_reads s1 NoFault _ (mkKvo c 0 false) D1 (lookup_insert_eq _ _ _) Hsk') as Hget.
  destruct (GetObject NoFault (next (New (bucket (db s')))) s1) as [s2 r2]. destruct Hget as [_ [[_ ?]|Hget]]; [done|].
  cbn [content] in Hget.
  rewrite (readThrough_entry c (db s1) (keyOf (mkKvo c 0 false)) (encode (dbIndex (db s) + 1) v) (content o) (dbIndex (db s) + 1)) in Hget; try done.
  - change (stored (db s1)) with (stored (db s')). change (keyOf (mkKvo c 0 false)) with (Key (okey c)).
    rewrite Hst, Hk. by rewrite decide_True.
  - exists v. split_and!; try done.
Qed.

(** ** Deleting *)

Lemma fillKmap_db c kvs m s : db (fillKmap c kvs m s).1 = db s.
Proof.
  revert m s. induction kvs as [|kv kvs IH]; intros m s; [done|]. cbn [fillKmap].
  destruct (kvValue kv); [apply IH|]. destruct (osetValue c _); [|done]. cbn [alloc]. by rewrite IH.
Qed.

Lemma kmap_db f a s : db (kmap f a s).1 = db s.
Proof.
  unfold kmap. destruct (kmm s !! _); [done|].
  assert (Hfill : forall kvs, db (match fillKmap a kvs ∅ s with
    | (s, None) => (s, GoErr ErrUnmarshal)
    | (s, Some m) => (set_kmm s (<[Key (okeyPrefix a) := m]> (kmm s)), GoOk m) end).1 = db s).
  { intros kvs. pose proof (fillKmap_db a kvs ∅ s) as Hf. by destruct (fillKmap a kvs ∅ s) as [s' [m|]]. }
  destruct (BoltDB.List f _ (db s)) as [kvs|[]|]; try done; apply Hfill.
Qed.

Lemma cache_del_db f o atomic s : db (cache_del f o atomic s).1 = db s.
Proof.
  unfold cache_del. pose proof (kmap_db f (content o) s) as Hd. destruct (kmap f (content o) s) as [s' [m|e|]]; try done.
  cbv zeta. by case_match.
Qed.

Lemma cache_del_gone f o atomic s s' :
  cache_del f o atomic s = (s', GoOk tt) -> exists m, kmm s' !! prefixOf o = Some m /\ m !! keyOf o = None.
Proof.
  unfold cache_del. destruct (kmap f (content o) s) as [s1 [m|e|]]; try done. cbv zeta. case_match; try done.
  intros [= <-]. exists (delete (keyOf o) m). split; [apply lookup_insert_eq|apply lookup_delete_eq].
Qed.

(** The object is gone. *)
Definition goneFrom s (k P : string) : Prop :=
  stored (db s) k = None /\ exists m, kmm s !! P = Some m /\ m !! k = None.

Lemma DeleteObjectAtomic_cases strict f1 f2 p o s s' r :
  DInv strict noex s -> heap s !! p = Some o -> DeleteObjectAtomic f1 f2 p s = (s', r) ->
  (exists b atomic (ex : string -> Prop), DInv strict ex (set_db s b) /\ stored b (keyOf o) = None /\
     cache_del f2 o atomic (set_db s b) = (s', r)) \/
  (heap s' = heap s /\ (r = GoErr ErrKeyNotFound \/ r = GoErr ErrKeyModified \/ r = GoErr ErrDB /\ f1 <> NoFault)).
Proof.
  intros D Hp. unfold DeleteObjectAtomic. rewrite Hp. destruct (oskip (content o)) eqn:Hsk.
  - intros E. left. exists (db s), true, noex. rewrite set_db_same. split_and!; try done.
    apply skip_not_stored; [apply D|done].
  - fold (keyOf o). destruct (AtomicDelete_ok f1 (keyOf o) (Index o) (db s) (di_db _ _ _ D)) as (b' & r' & -> & Ho).
    pose proof (del_dbOk _ _ _ _ _ _ (di_db _ _ _ D) Ho) as Hdb'.
    destruct Ho as [b' Hi Hst _|b' Hf Hb Hi|Hs|i j v0 Hn Hs Hd Hne]; [|intros [= <- <-]; right; (split; [done|]); tauto..].
    intros E. left. exists b', false, (eq (keyOf o)). split_and!; try done.
    + apply Inv_db; [done|done|]. intros k' Hk'. rewrite Hst. by rewrite decide_False.
    + by rewrite Hst, decide_True.
Qed.

(** What a deletion does to the object and to the store. *)
Lemma DeleteObjectAtomic_effect strict f1 f2 p o s s' r :
  DInv strict noex s -> heap s !! p = Some o -> DeleteObjectAtomic f1 f2 p s = (s', r) ->
  heap s' !! p = Some o /\ (r = GoOk tt -> goneFrom s' (keyOf o) (prefixOf o)) /\
  (f1 = NoFault -> f2 = NoFault -> r = GoErr ErrKeyModified \/ r = GoOk tt \/ r = GoErr ErrKeyNotFound).
Proof.
  intros D Hp [(b & atomic & ex & Db & Hb & E)|[Hh Hr]]%(DeleteObjectAtomic_cases strict _ _ _ o); try done; cycle 1.
  { split; [by rewrite Hh|]. split; [intros ->; naive_solver|]. intros -> _. naive_solver. }
  pose proof (cache_del_db f2 o atomic (set_db s b)) as Hd. pose proof (cache_del_gone f2 o atomic (set_db s b) s') as Hgone.
  rewrite E in *. cbn [fst] in Hd. unfold cache_del in E.
  destruct (kmap_ok strict ex f2 (content o) (set_db s b) Db) as (s1 & r1 & Ek & _ & (_ & _ & Hmono & _) & Hr). rewrite Ek in E.
  assert (Hs1 : heap s1 !! p = Some o) by (by apply Hmono).
  assert (Hg : r = GoOk tt -> goneFrom s' (keyOf o) (prefixOf o)) by (intros ->; split; [by rewrite Hd|by apply Hgone]).
  split; [|split; [done|]]; destruct r1 as [m|e|]; cbv zeta in E; repeat case_match; simplify_eq; try done; auto.
  intros _ ->. by destruct Hr as (_ & ? & _).
Qed.

(** After [GetObject] the index is not old. *)
Lemma get_then_delete strict f f1 f2 p s s1 :
  DInv strict noex s -> GetObject f p s = (s1, GoOk tt) -> (DeleteObjectAtomic f1 f2 p s1).2 <> GoErr ErrKeyModified.
Proof.
  intros D Hg. destruct (GetObject_ok strict f p s D) as (s1' & r & E & D1 & _ & _ & Hr). rewrite Hg in E.
  injection E as <- <-. destruct Hr as (o & src & P & m & q & Hp & Hsrc & Hk & Hpx & -> & Hm & Hq & Hqs & Hc).
  unfold DeleteObjectAtomic. rewrite Hsrc. destruct (oskip (content src)) eqn:Hsk.
  - unfold cache_del, kmap. fold (keyOf src) (prefixOf src). rewrite Hk, Hpx, Hm. cbv zeta. rewrite Hq. cbn [mbind option_bind].
    by rewrite Hqs, Z.eqb_refl.
  - destruct Hc as [_ Hcd]. destruct (Hcd src Hqs Hsk) as (v & a & Hs & (val & -> & _) & Hu & _). rewrite <- Hk in Hs.
    fold (keyOf src). destruct (AtomicDelete_ok f1 (keyOf src) (Index src) (db s1) (di_db _ _ _ D1)) as (b' & r & -> & Ho).
    pose proof (delete_then_del strict f2 src s1 b' r _ f1 D1 Hsk Ho) as Hd.
    destruct Ho as [b' Hi Hst _|b' Hf Hb Hi|Hn|i j v0 Hn Hs' Hd' Hne]; try done.
    + destruct Hd as (s' & r' & -> & _ & _ & _ & Hne). done.
    + injection Hn as <-. rewrite Hs in Hs'. injection Hs' as <-. rewrite decode_encode_index in Hd' by done. congruence.
Qed.

(** A call of [deleteFromStore] for the object at [p], from the store [s0]: the calls of the
    store that it has made, those that others made in between, where it is, and the store. *)
Inductive deletion (strict : bool) (p : nat) (s0 : Store A) : nat -> nat -> deleting -> Store A -> Prop :=
| dl_start : deletion strict p s0 0 0 AtDelete s0
| dl_own n m at_ s f :
    deletion strict p s0 n m at_ s -> (forall r, at_ <> Deleted r) ->
    deletion strict p s0 (S n) m (deleteFromStore f p at_ s).2 (deleteFromStore f p at_ s).1
| dl_others n m at_ s w s' :
    deletion strict p s0 n m at_ s -> step strict s w s' -> deletion strict p s0 n (S m) at_ s'.

(** The object at [p] has the names of [o]. *)
Definition namedAs s (p : nat) (o : kvo A) : Prop :=
  exists x, heap s !! p = Some x /\ keyOf x = keyOf o /\ prefixOf x = prefixOf o.

Lemma evolves_named s s' w p o : evolves s s' w -> namedAs s p o -> namedAs s' p o.
Proof.
  intros [_ _ Hn] (x & Hx & Hk & Hp). destruct (Hn p x Hx) as (x' & Hx' & Hk' & Hp').
  exists x'. by rewrite Hk', Hp'.
Qed.

(** One call of the store by [deleteFromStore]. *)
Lemma deleteFromStore_call strict f p at_ s o :
  DInv strict noex s -> namedAs s p o -> (forall r, at_ <> Deleted r) ->
  let '(s', at') := deleteFromStore f p at_ s in
  DInv strict noex s' /\ namedAs s' p o /\
  match at_, at' with
  | AtDelete, AtGet => exists f1 f2, (DeleteObjectAtomic f1 f2 p s).2 = GoErr ErrKeyModified
  | AtGet, AtDelete => forall f1 f2, (DeleteObjectAtomic f1 f2 p s').2 <> GoErr ErrKeyModified
  | _, Deleted r => r <> GoErr (ErrStore ErrKeyModified) /\ r <> GoPanic /\ (r = GoOk tt -> goneFrom s' (keyOf o) (prefixOf o))
  | _, _ => False
  end /\
  (f = (NoFault, NoFault, NoFault) ->
   match at_ with
   | AtDelete => at' = AtGet \/ at' = Deleted (GoOk tt) \/ at' = Deleted (GoErr (ErrStore ErrKeyNotFound))
   | _ => at' = AtDelete \/ at' = Deleted (GoErr (ErrReported ErrKeyNotFound))
   end).
Proof.
  intros D Hnm Hrun. destruct f as [[f1 f2] f3], at_ as [| |r]; [| |by destruct (Hrun r)]; cbn [deleteFromStore]; clear Hrun.
  - destruct (DeleteObjectAtomic_ok strict f1 f2 p s D) as (s' & r & E & D' & Hev & Hpan).
    pose proof (evolves_named _ _ _ _ _ Hev Hnm) as Hnm'. destruct Hnm as (x & Hx & Hk & Hpx).
    destruct (DeleteObjectAtomic_effect strict f1 f2 p x s s' r D Hx E) as (_ & Hgone & Hnf). rewrite Hk, Hpx in Hgone.
    assert (Hmod : r = GoErr ErrKeyModified -> exists g1 g2, (DeleteObjectAtomic g1 g2 p s).2 = GoErr ErrKeyModified).
    { intros ->. exists f1, f2. by rewrite E. }
    rewrite E. destruct r as [[]|e|]; [|destruct e|done]; (split; [done|]); (split; [done|]); (split; [by eauto|]);
      intros [= -> -> ->]; destruct (Hnf eq_refl eq_refl) as [?|[?|?]]; try done; eauto.
  - destruct (GetObject_ok strict f3 p s D) as (s' & r & E & D' & Hev & _ & Hr).
    pose proof (evolves_named _ _ _ _ _ Hev Hnm) as Hnm'.
    assert (Hfr : r = GoOk tt -> forall g1 g2, (DeleteObjectAtomic g1 g2 p s').2 <> GoErr ErrKeyModified).
    { intros -> g1 g2. exact (get_then_delete strict f3 g1 g2 p s s' D E). }
    rewrite E. destruct r as [[]|e|]; [| |done]; (split; [done|]); (split; [done|]).
    + split; [by apply Hfr|by left].
    + split; [done|]. intros [= -> -> ->]. right. destruct e; try done. destruct Hnm as (x & Hx & _). congruence.
Qed.

(** While it runs, the invariant holds and the object keeps its names.  [2 * m + 3] bounds its
    calls, as only calls of others can make the version that it has read an old one. *)
Lemma deletion_inv strict p s0 o n m at_ s :
  DInv strict noex s0 -> heap s0 !! p = Some o -> deletion strict p s0 n m at_ s ->
  DInv strict noex s /\ namedAs s p o /\
  match at_ with
  | AtDelete => (n <= 2 * m)%nat \/
      (n <= 2 * m + 2)%nat /\ forall f1 f2, (DeleteObjectAtomic f1 f2 p s).2 <> GoErr ErrKeyModified
  | AtGet => (n <= 2 * m + 1)%nat
  | Deleted r => (n <= 2 * m + 3)%nat /\ r <> GoErr (ErrStore ErrKeyModified) /\ r <> GoPanic
  end.
Proof.
  intros D0 Ho. induction 1 as [|n m at_ s f Hd (D & Hn & Hc) Hrun|n m at_ s w s' Hd (D & Hn & Hc) Hst].
  - split; [done|]. split; [by exists o|]. left. lia.
  - pose proof (deleteFromStore_call strict f p at_ s o D Hn Hrun) as Hcall.
    destruct (deleteFromStore f p at_ s) as [s' at']. destruct Hcall as (D' & Hn' & Hcase & _). cbn [fst snd].
    split; [done|]. split; [done|]. destruct at_ as [| |r]; [| |by destruct (Hrun r)]; destruct at' as [| |r']; try done; [| |right|].
    + destruct Hcase as (f1 & f2 & Hm). destruct Hc as [Hc|[_ Hc]]; [lia|by destruct (Hc f1 f2)].
    + destruct Hcase as (? & ? & _). split; [|done]. lia.
    + split; [lia|done].
    + destruct Hcase as (? & ? & _). split; [|done]. lia.
  - destruct (store_step_ok strict s w s' D Hst) as [D' Hev]. split; [done|].
    split; [by eapply evolves_named|]. destruct at_ as [| |r]; [left; lia|lia|]. split; [lia|apply Hc].
Qed.

(** C15: [deleteFromStore] ends when others let it.  The store is not locked between its calls,
    so that others read, write and delete in between, and any transaction can fail: when they
    made [m] calls, it makes at most [2 * m + 3], three when it is alone.  It never returns
    [ErrKeyModified] and never panics.  When a call makes it return without an error, the
    object is neither in the database nor in the cache after that call.  When no transaction
    of a call fails, a deletion succeeds, finds nothing to delete or goes on to read the
    latest version, and the reading goes on to delete or finds that the object is gone.  As in
    every run the database was well formed at the start, its index has room for the writes,
    and changes to an object in memory keep its key ([step]). *)
Theorem deleteFromStore_ends strict file s0 ws p o n m at_ s :
  dbOk (A := A) (BoltDB.New file) -> run strict (New file) s0 ws -> heap s0 !! p = Some o ->
  deletion strict p s0 n m at_ s ->
  (n <= 2 * m + 3)%nat /\
  match at_ with
  | Deleted r => r <> GoErr (ErrStore ErrKeyModified) /\ r <> GoPanic
  | _ =>
      forall f, let '(s', at') := deleteFromStore f p at_ s in
      (at' = Deleted (GoOk tt) -> goneFrom s' (keyOf o) (prefixOf o)) /\
      (f = (NoFault, NoFault, NoFault) ->
       match at_ with
       | AtDelete => at' = AtGet \/ at' = Deleted (GoOk tt) \/ at' = Deleted (GoErr (ErrStore ErrKeyNotFound))
       | _ => at' = AtDelete \/ at' = Deleted (GoErr (ErrReported ErrKeyNotFound))
       end)
  end.
Proof.
  intros Hf Hrun Ho Hd. pose proof (run_Inv _ _ _ _ (Inv_New strict _ Hf) Hrun) as D0.
  destruct (deletion_inv strict p s0 o n m at_ s D0 Ho Hd) as (D & Hn & Hc).
  assert (Hnext : (forall r, at_ <> Deleted r) -> forall f, let '(s', at') := deleteFromStore f p at_ s in
    (at' = Deleted (GoOk tt) -> goneFrom s' (keyOf o) (prefixOf o)) /\
    (f = (NoFault, NoFault, NoFault) ->
     match at_ with
     | AtDelete => at' = AtGet \/ at' = Deleted (GoOk tt) \/ at' = Deleted (GoErr (ErrStore ErrKeyNotFound))
     | _ => at' = AtDelete \/ at' = Deleted (GoErr (ErrReported ErrKeyNotFound))
     end)).
  { intros Hr f. pose proof (deleteFromStore_call strict f p at_ s o D Hn Hr) as Hcall.
    destruct (deleteFromStore f p at_ s) as [s' at']. destruct Hcall as (_ & _ & Hcase & Hnf). split; [|done].
    intros ->. destruct at_ as [| |r]; [by apply Hcase..|by destruct (Hr r)]. }
  assert (Hd' : forall r, AtDelete <> Deleted r) by done. assert (Hg' : forall r, AtGet <> Deleted r) by done.
  destruct at_ as [| |r].
  - split; [destruct Hc as [?|[? _]]; lia|exact (Hnext Hd')].
  - split; [lia|exact (Hnext Hg')].
  - by split; apply Hc.
Qed.
End Runs.

(** ** Listing the database directly

    [ensureParent] is meant to create the parent key, but [Exists] reports a missing key as
    an error, so that nothing is ever written and [Map] fails. *)
Section Parent.
Context {A : Type} `{HK : KVObject A}.
Implicit Types s : Store A.

Lemma ensureParent_never_creates f1 f2 parent s : (ensureParent f1 f2 parent s).1 = s.
Proof.
  unfold ensureParent, BoltDB.Exists. destruct f1; [|done|]; destruct (bucket (db s)); try done; by destruct (0 <? _)%nat.
Qed.

Lemma Map_missing_parent trim f2 f3 parent p s :
  is_Some (heap s !! p) -> stored (db s) parent = None ->
  Map trim NoFault f2 f3 parent p s = (s, GoErr ErrKeyNotFound).
Proof.
  intros [o Ho] Hs. unfold Map, ensureParent, BoltDB.Exists, stored in *. rewrite Ho.
  destruct (bucket (db s)); cbn in *; [by rewrite Hs|done].
Qed.
End Parent.

(** ** Concrete objects *)

(** Two objects [net/a/] and [net/b/] with one byte of data. *)
Record tobj := mkT { tname : bool; tdata : Z }.

#[export] Instance tobj_KV : KVObject tobj := {|
  okey a := ["net"; if tname a then "a" else "b"];
  okeyPrefix _ := ["net"];
  ovalue a := Some [if tname a then 1 else 0; tdata a];
  osetValue _ v := match v with [n; d] => Some (mkT (Z.eqb n 1) d) | _ => None end;
  oskip _ := false |}.

#[export] Instance tobj_laws : KVLaws tobj.
Proof.
  split.
  - by intros [[] d].
  - done.
  - by intros a v [= <-].
  - by intros c [[] d] v _ [= <-].
  - done.
Qed.

(** Object 0 is [a], written with data 5; object 1 was read from the cache, changed to 6 and
    written; object 2 is new. *)
Definition d1 : Store tobj := (alloc (mkKvo (mkT true 5) 0 false) (New None)).2.
Definition d2 := (PutObjectAtomic NoFault NoFault 0 d1).1.
Definition d3 := (alloc (mkKvo (mkT true 0) 0 false) d2).2.
Definition d4 := (GetObject NoFault 1 d3).1.
Definition d5 := set_heap d4 (<[1%nat := mkKvo (mkT true 6) 1 true]> (heap d4)).
Definition d6 := (PutObjectAtomic NoFault NoFault 1 d5).1.

Definition keyA : string := Key ["net"; "a"].

Lemma d4_uncached : ~ isCached d4 1.
Proof.
  intros (P & m & k & HP & Hk). change (kmm d4) with ({[Key ["net"] := {[keyA := 0%nat]}]} : gmap string (gmap string nat)) in HP.
  apply lookup_singleton_Some in HP as [<- <-]. by apply lookup_singleton_Some in Hk as [_ Hk].
Qed.

Lemma d1_writes : putWrites NoFault 0 d1 = Some (keyA, 1, [1; 5]).
Proof. by vm_compute. Qed.
Lemma d5_writes : putWrites NoFault 1 d5 = Some (keyA, 2, [1; 6]).
Proof. by vm_compute. Qed.

Lemma d4_run strict : run strict (New None) d4 [(keyA, 1, [1; 5])].
Proof.
  eapply (run_step strict _ d3 _ None); [|apply (st_get strict d3 NoFault 1)].
  eapply (run_step strict _ d2 _ None); [|apply (st_new strict d2)].
  eapply (run_step strict _ d1 _ (Some (keyA, 1, [1; 5])) []); [|].
  - eapply (run_step strict _ (New None) _ None []); [constructor|apply st_new].
  - rewrite <- d1_writes. by apply (st_put strict d1 NoFault NoFault 0).
Qed.

Lemma d6_run : run true (New None) d6 [(keyA, 2, [1; 6]); (keyA, 1, [1; 5])].
Proof.
  eapply (run_step true _ d5 _ (Some (keyA, 2, [1; 6]))); [|rewrite <- d5_writes; by apply (st_put true d5 NoFault NoFault 1)].
  eapply (run_step true _ d4 _ None); [apply d4_run|].
  apply (st_change true d4 1 (mkKvo (mkT true 5) 1 true) (mkT true 6)); try reflexivity. intros _. apply d4_uncached.
Qed.

Lemma datastore_cache_transparent_witness :
  let '(s', r) := GetObject NoFault 0 d6 in r = GoOk tt /\ heap s' !! 0%nat = Some (mkKvo (mkT true 6) 2 true).
Proof.
  pose proof (datastore_cache_transparent None d6 _ NoFault 0 (mkKvo (mkT true 5) 1 true) dbOk_empty d6_run eq_refl eq_refl) as H.
  destruct (GetObject NoFault 0 d6) as [s' r]. destruct H as [_ [[_ H]|H]]; [discriminate H|exact H].
Defined.

Lemma datastore_list_complete_witness :
  exists q, q ∈ [1%nat] /\ heap d6 !! q = Some (mkKvo (mkT true 6) 2 true).
Proof.
  apply (datastore_list_complete None d6 _ NoFault 0 (mkKvo (mkT true 5) 1 true) [1%nat] d6 dbOk_empty d6_run
    eq_refl eq_refl) with (k := keyA); reflexivity.
Defined.

Lemma datastore_no_lost_update_witness :
  exists v0 later earlier, [(keyA, 2, [1; 6]); (keyA, 1, [1; 5])] = (later ++ (keyA, 1, v0) :: earlier)%list /\
    (PutObjectAtomic NoFault NoFault 0 d6).2 = GoErr ErrKeyModified.
Proof.
  destruct (datastore_no_lost_update true d6 _ 0 (mkKvo (mkT true 5) 1 true) [1; 5] d6_run eq_refl eq_refl eq_refl eq_refl eq_refl)
    as (v0 & later & earlier & Hw & _).
  exists v0, later, earlier. split; [exact Hw|reflexivity].
Defined.

Lemma datastore_reopen_witness :
  let '(q, s1) := alloc (mkKvo (mkT true 0) 0 false) (New (bucket (db d6))) in
  let '(s2, r) := GetObject NoFault q s1 in
  r = GoOk tt /\ heap s2 !! q = Some (mkKvo (mkT true 6) 2 true).
Proof.
  exact (datastore_reopen true None d5 [(keyA, 1, [1; 5])] 1 (mkKvo (mkT true 6) 1 true) [1; 6] NoFault NoFault (mkT true 0) d6
    dbOk_empty (run_step true _ d4 d5 None _ (d4_run true) (st_change true d4 1 (mkKvo (mkT true 5) 1 true) (mkT true 6)
      eq_refl eq_refl eq_refl (fun _ => d4_uncached))) eq_refl eq_refl eq_refl eq_refl eq_refl eq_refl eq_refl).
Defined.

(** The delete of object 0 finds that object 1 was written; it reads, somebody writes object 1
    again, and it reads and deletes once more. *)
Definition noFaults : fault * fault * fault := (NoFault, NoFault, NoFault).
Definition d7 := (deleteFromStore noFaults 0 AtGet (deleteFromStore noFaults 0 AtDelete d6).1).1.
Definition d8 := (PutObjectAtomic NoFault NoFault 1 d7).1.
Definition d9 := (deleteFromStore noFaults 0 AtGet (deleteFromStore noFaults 0 AtDelete d8).1).1.

Lemma own_call (s0 : Store tobj) n m at_ at' s :
  deletion true 0 s0 n m at_ s -> at_ = AtDelete \/ at_ = AtGet -> (deleteFromStore noFaults 0 at_ s).2 = at' ->
  deletion true 0 s0 (S n) m at' (deleteFromStore noFaults 0 at_ s).1.
Proof. intros Hd Hrun <-. apply dl_own; [done|]. by destruct Hrun as [->| ->]. Qed.

Lemma d9_deletion : deletion true 0 d6 4 1 AtDelete d9.
Proof.
  apply own_call; [|by right|by vm_compute]. apply own_call; [|by left|by vm_compute].
  eapply dl_others; [|by apply (st_put true d7 NoFault NoFault 1); vm_compute].
  apply own_call; [|by right|by vm_compute]. apply own_call; [|by left|by vm_compute]. apply dl_start.
Qed.

Lemma deleteFromStore_ends_witness :
  (4 <= 2 * 1 + 3)%nat /\ (deleteFromStore noFaults 0 AtDelete d9).2 = Deleted (GoOk tt) /\
  goneFrom (deleteFromStore noFaults 0 AtDelete d9).1 keyA (Key ["net"]).
Proof.
  destruct (deleteFromStore_ends true None d6 _ 0 (mkKvo (mkT true 5) 1 true) 4 1 AtDelete d9
    dbOk_empty d6_run eq_refl d9_deletion) as [Hn Hnext].
  split; [exact Hn|]. specialize (Hnext noFaults). assert (E : (deleteFromStore noFaults 0 AtDelete d9).2 = Deleted (GoOk tt)) by reflexivity.
  split; [exact E|]. destruct (deleteFromStore noFaults 0 AtDelete d9) as [s' at']. exact (proj1 Hnext E).
Defined.

(** ** What the code does not keep *)

(** The index restarts from zero with the process.  A file has [a] with index 1; objects 0
    and 1 read it; 1 is changed and written, again with index 1; then the write of 0, which
    has not seen that change, is accepted and replaces it. *)
Definition oldFile : option (gmap string (list Z)) := bucket (db d2).
Definition r1 : Store tobj := (alloc (mkKvo (mkT true 0) 0 false) (alloc (mkKvo (mkT true 0) 0 false) (New oldFile)).2).2.
Definition r2 := (GetObject NoFault 1 (GetObject NoFault 0 r1).1).1.
Definition r3 := set_heap r2 (<[1%nat := mkKvo (mkT true 6) 1 true]> (heap r2)).
Definition r4 := (PutObjectAtomic NoFault NoFault 1 r3).1.

Lemma restart_loses_update :
  heap r2 !! 0%nat = Some (mkKvo (mkT true 5) 1 true) /\ heap r2 !! 1%nat = Some (mkKvo (mkT true 5) 1 true) /\
  (PutObjectAtomic NoFault NoFault 1 r3).2 = GoOk tt /\ stored (db r4) keyA = Some (encode 1 [1; 6]) /\
  (PutObjectAtomic NoFault NoFault 0 r4).2 = GoOk tt /\
  stored (db (PutObjectAtomic NoFault NoFault 0 r4).1) keyA = Some (encode 2 [1; 5]).
Proof. by vm_compute. Qed.

(** The cache holds the object of the caller: a change that was never written is read. *)
Lemma unsaved_change_is_read :
  let s := set_heap d3 (<[0%nat := mkKvo (mkT true 9) 1 true]> (heap d3)) in
  heap (GetObject NoFault 1 s).1 !! 1%nat = Some (mkKvo (mkT true 9) 1 true) /\
  stored (db s) keyA = Some (encode 1 [1; 5]).
Proof. by vm_compute. Qed.
