(* ===== verification/Transfer.v ===== *)
(** * Transfers of layers

    Model of [daemon/internal/distribution/xfer/transfer.go]: transfers with any number of
    watchers, the goroutines that broadcast and print their progress, and the manager that
    deduplicates transfers and limits how many are active.

    Goroutines and calls are states of a step relation; a section under the mutex of a
    transfer is one step, and the mutex of the manager is part of the state, since a call of
    [transfer] keeps it while it waits.  The function that does the transfer follows the
    protocol of [download.go] and [upload.go]: it waits for [start], may then close
    [inactive], and closes its progress channel last; progress can be sent at any time before
    that. *)

From Stdlib Require Import String.
From stdpp Require Import gmap strings list.
From S2P Require Import Prelude.

Section Transfer.
Context {P : Type} `{EqDecision P}.

(** ** A transfer *)

(** The fields of [xfer]; channels that are only ever closed are flags, [lastProgress] has
    [hasLastProgress], and the keys of [watchers] are the numbers of the watchers. *)
Record xfer := mkXfer {
  ctxDone : bool;
  watchers : gset nat;
  lastProgress : option P;
  runningClosed : bool;
  releasedClosed : bool;
  broadcastDone : bool;
  closed : bool }.

Definition newTransfer : xfer := mkXfer false ∅ None false false false false.

(** The goroutine of a watcher: at the top of its loop, about to write, at its [select], about
    to ping the broadcaster, or at its end with [running] closed. *)
Inductive wstate :=
| WRead (done : bool)
| WWrite (done : bool) (p : P)
| WSelect
| WSync
| WDead.

(** A watcher: its goroutine, the last thing written, all that was written to
    [progressOutput], and whether [releaseChan] is closed.  [silent] says that the goroutine
    was never started, [mark] is the number of events received when it was released; no
    operation depends on these two. *)
Record watcher := mkWatcher {
  wst : wstate;
  lastWritten : option P;
  output : list P;
  releaseClosed : bool;
  silent : bool;
  mark : option nat }.

Definition goto (s : wstate) (w : watcher) : watcher :=
  mkWatcher s (lastWritten w) (output w) (releaseClosed w) (silent w) (mark w).
Definition set_releaseClosed (w : watcher) : watcher :=
  mkWatcher (wst w) (lastWritten w) (output w) true (silent w) (mark w).
Definition set_mark (n : nat) (w : watcher) : watcher :=
  mkWatcher (wst w) (lastWritten w) (output w) (releaseClosed w) (silent w) (Some n).

(** The end of a turn of the loop. *)
Definition turn (done : bool) : wstate := if done then WDead else WSelect.

(** Reading [lastProgress] at the top of the loop. *)
Definition watcher_read (x : xfer) (done : bool) (w : watcher) : watcher :=
  match lastProgress x with
  | Some p =>
      if negb done || bool_decide (lastWritten w = None) || bool_decide (lastWritten w <> Some p)
      then goto (WWrite done p) w
      else goto (turn done) w
  | None => goto (turn done) w
  end.

Definition watcher_write (done : bool) (p : P) (w : watcher) : watcher :=
  mkWatcher (turn done) (Some p) (output w ++ [p]) (releaseClosed w) (silent w) (mark w).

(** [watch]: the number of the new watcher is [n]. *)
Definition watch (n : nat) (x : xfer) : xfer * watcher :=
  (mkXfer (ctxDone x) ({[n]} ∪ watchers x) (lastProgress x) (runningClosed x) (releasedClosed x) (broadcastDone x) (closed x),
   mkWatcher (if broadcastDone x then WDead else WRead false) None [] false (broadcastDone x) None).

(** The section of [release] under the mutex. *)
Definition release (n : nat) (x : xfer) : xfer :=
  let left := watchers x ∖ {[n]} in
  let empty := bool_decide (left = ∅) in
  mkXfer (ctxDone x || empty && negb (closed x)) left (lastProgress x) (runningClosed x)
    (releasedClosed x || empty && closed x) (broadcastDone x) (closed x).

(** [close]; [None] when a closed channel is closed. *)
Definition close (x : xfer) : option xfer :=
  if bool_decide (watchers x = ∅) then
    if releasedClosed x then None
    else Some (mkXfer (ctxDone x) (watchers x) (lastProgress x) (runningClosed x) true (broadcastDone x) true)
  else Some (mkXfer (ctxDone x) (watchers x) (lastProgress x) (runningClosed x) (releasedClosed x) (broadcastDone x) true).

(** The broadcaster: at its outer and inner [select], after it received something ([None]: the
    channel is closed), before it closes [running], and after that. *)
Inductive bstate := BOuter | BInner | BGot (p : option P) | BEnding | BStop.

(** The function of the transfer. *)
Inductive fstate := FWaiting | FActive | FInactive | FEnd.

(** The goroutine of the manager: in its loop ([inactive] is not yet [nil]), before
    [xfer.close()], and after it. *)
Inductive mstate := MWatch (inactive : bool) | MClosing | MEnd.

(** A transfer with its goroutines.  [received] has the events that the broadcaster received. *)
Record job := mkJob {
  jkey : string;
  jx : xfer;
  jws : list watcher;
  jb : bstate;
  received : list P;
  jfn : fstate;
  start : bool;
  inactive : bool;
  jm : mstate }.

Definition set_x (x : xfer) (j : job) : job :=
  mkJob (jkey j) x (jws j) (jb j) (received j) (jfn j) (start j) (inactive j) (jm j).
Definition set_ws (l : list watcher) (j : job) : job :=
  mkJob (jkey j) (jx j) l (jb j) (received j) (jfn j) (start j) (inactive j) (jm j).
Definition set_b (b : bstate) (j : job) : job :=
  mkJob (jkey j) (jx j) (jws j) b (received j) (jfn j) (start j) (inactive j) (jm j).
Definition set_fn (f : fstate) (inact : bool) (j : job) : job :=
  mkJob (jkey j) (jx j) (jws j) (jb j) (received j) f (start j) inact (jm j).
Definition set_start (j : job) : job :=
  mkJob (jkey j) (jx j) (jws j) (jb j) (received j) (jfn j) true (inactive j) (jm j).
Definition set_m (s : mstate) (j : job) : job :=
  mkJob (jkey j) (jx j) (jws j) (jb j) (received j) (jfn j) (start j) (inactive j) s.

(** [watch] on a running transfer. *)
Definition job_watch (j : job) : job * nat :=
  let n := length (jws j) in
  let '(x, w) := watch n (jx j) in
  (set_ws (jws j ++ [w]) (set_x x j), n).

(** The first section of [release], which also notes how much was received. *)
Definition job_release (n : nat) (j : job) : job :=
  set_ws (alter (set_mark (length (received j))) n (jws j)) (set_x (release n (jx j)) j).

(** The body of [broadcast] after it received something: every watcher that is at its
    [select] is signalled. *)
Definition signalled (x : xfer) (n : nat) (w : watcher) : watcher :=
  match wst w with
  | WSelect => if bool_decide (n ∈ watchers x) then goto (WRead false) w else w
  | _ => w
  end.

Definition broadcast_handle (p : option P) (j : job) : job :=
  let x := jx j in
  match p with
  | Some _ =>
      set_b BOuter (set_ws (imap (signalled x) (jws j))
        (set_x (mkXfer (ctxDone x) (watchers x) p (runningClosed x) (releasedClosed x) (broadcastDone x) (closed x)) j))
  | None =>
      set_b BEnding
        (set_x (mkXfer (ctxDone x) (watchers x) (lastProgress x) (runningClosed x) (releasedClosed x) true (closed x)) j)
  end.

Definition broadcast_stop (j : job) : job :=
  let x := jx j in
  set_b BStop (set_x (mkXfer (ctxDone x) (watchers x) (lastProgress x) true (releasedClosed x) (broadcastDone x) (closed x)) j).

(** The broadcaster receives from the progress channel. *)
Definition atSelect (b : bstate) : bool := match b with BOuter | BInner => true | _ => false end.

Definition receive (p : P) (j : job) : job :=
  mkJob (jkey j) (jx j) (jws j) (BGot (Some p)) (received j ++ [p]) (jfn j) (start j) (inactive j) (jm j).

(** Steps of the goroutines of one transfer, apart from that of the manager. *)
Inductive job_step (j : job) : job -> Prop :=
| js_send p : jfn j <> FEnd -> atSelect (jb j) = true -> job_step j (receive p j)
| js_eof : jfn j = FEnd -> atSelect (jb j) = true -> job_step j (set_b (BGot None) j)
| js_inner : jb j = BOuter -> job_step j (set_b BInner j)
| js_handle p : jb j = BGot p -> job_step j (broadcast_handle p j)
| js_stop : jb j = BEnding -> job_step j (broadcast_stop j)
| js_fn_start : jfn j = FWaiting -> start j = true -> job_step j (set_fn FActive (inactive j) j)
| js_fn_inactive : jfn j = FActive -> job_step j (set_fn FInactive true j)
| js_fn_end : jfn j = FActive \/ jfn j = FInactive -> job_step j (set_fn FEnd (inactive j) j)
| js_read n w d : jws j !! n = Some w -> wst w = WRead d ->
    job_step j (set_ws (<[n := watcher_read (jx j) d w]> (jws j)) j)
| js_write n w d p : jws j !! n = Some w -> wst w = WWrite d p ->
    job_step j (set_ws (<[n := watcher_write d p w]> (jws j)) j)
| js_running n w : jws j !! n = Some w -> wst w = WSelect \/ wst w = WSync -> runningClosed (jx j) = true ->
    job_step j (set_ws (<[n := goto (WRead true) w]> (jws j)) j)
| js_released n w : jws j !! n = Some w -> wst w = WSelect -> releaseClosed w = true ->
    job_step j (set_ws (<[n := goto WSync w]> (jws j)) j)
| js_sync n w : jws j !! n = Some w -> wst w = WSync -> jb j = BInner ->
    job_step j (set_b BOuter (set_ws (<[n := goto (WRead true) w]> (jws j)) j)).

(** ** The manager *)

(** A call of [transfer] with the watcher it returned until that is released: before it has
    the mutex, at the top of the loop, before it checks the context, waiting for a cancelled
    transfer to end, with the transfer and watcher returned; and inside of [release], before
    it closes [releaseChan] and waiting for the watcher ([again]: the key, when [transfer]
    itself releases). *)
Inductive call :=
| KStart (key : string)
| KLoop (key : string)
| KCheck (key : string) (t n : nat)
| KRetry (key : string) (t : nat)
| KHold (t n : nat)
| KRelease (again : option string) (t n : nat)
| KWait (again : option string) (t n : nat)
| KEnd.

(** [transferManager], with all transfers there ever were, the calls, and whether a closed
    channel was closed. *)
Record manager := mkManager {
  concurrencyLimit : Z;
  activeTransfers : Z;
  transfers : gmap string nat;
  waitingTransfers : list nat;
  mu : option nat;
  jobs : list job;
  calls : list call;
  panicked : bool }.

Definition newTransferManager (limit : Z) : manager := mkManager limit 0 ∅ [] None [] [] false.

Definition set_jobs (l : list job) (m : manager) : manager :=
  mkManager (concurrencyLimit m) (activeTransfers m) (transfers m) (waitingTransfers m) (mu m) l (calls m) (panicked m).
Definition set_call (i : nat) (k : call) (lock : option nat) (m : manager) : manager :=
  mkManager (concurrencyLimit m) (activeTransfers m) (transfers m) (waitingTransfers m) lock (jobs m) (<[i := k]> (calls m)) (panicked m).
Definition set_transfers (ts : gmap string nat) (m : manager) : manager :=
  mkManager (concurrencyLimit m) (activeTransfers m) ts (waitingTransfers m) (mu m) (jobs m) (calls m) (panicked m).
Definition set_sched (active : Z) (waiting : list nat) (m : manager) : manager :=
  mkManager (concurrencyLimit m) active (transfers m) waiting (mu m) (jobs m) (calls m) (panicked m).
Definition panic (m : manager) : manager :=
  mkManager (concurrencyLimit m) (activeTransfers m) (transfers m) (waitingTransfers m) (mu m) (jobs m) (calls m) true.

Definition setConcurrency (concurrency : Z) (m : manager) : manager :=
  mkManager concurrency (activeTransfers m) (transfers m) (waitingTransfers m) (mu m) (jobs m) (calls m) (panicked m).

(** Closing the [start] channel of a transfer. *)
Definition close_start (t : nat) (m : manager) : manager :=
  match jobs m !! t with
  | Some j => if start j then panic m else set_jobs (<[t := set_start j]> (jobs m)) m
  | None => m
  end.

Definition inactivate (j : job) (m : manager) : manager :=
  if start j then
    match waitingTransfers m with
    | w :: waiting => set_sched (activeTransfers m) waiting (close_start w m)
    | [] => set_sched (activeTransfers m - 1) [] m
    end
  else m.

(** The end of [transfer]: a new transfer with its first watcher. *)
Definition newJob (key : string) (started : bool) : job :=
  (job_watch (mkJob key newTransfer [] BOuter [] FWaiting started false (MWatch true))).1.

Definition transfer_new (key : string) (m : manager) : manager :=
  let t := length (jobs m) in
  let started := (concurrencyLimit m =? 0) || (activeTransfers m <? concurrencyLimit m) in
  let m := if started then set_sched (activeTransfers m + 1) (waitingTransfers m) m
           else set_sched (activeTransfers m) (waitingTransfers m ++ [t])%list m in
  set_transfers (<[key := t]> (transfers m)) (set_jobs (jobs m ++ [newJob key started])%list m).

(** One turn of the loop of [transfer] in the call [i]. *)
Definition transfer_loop (i : nat) (key : string) (m : manager) : manager :=
  match transfers m !! key with
  | None => set_call i (KHold (length (jobs m)) 0) None (transfer_new key m)
  | Some t =>
      match jobs m !! t with
      | Some j => let '(j, n) := job_watch j in set_call i (KCheck key t n) (mu m) (set_jobs (<[t := j]> (jobs m)) m)
      | None => m
      end
  end.

(** The goroutine that waits for the end of the transfer [t]. *)
Definition on_inactive (t : nat) (j : job) (m : manager) : manager :=
  let m := inactivate j m in
  set_jobs (alter (set_m (MWatch false)) t (jobs m)) m.

Definition on_done (t : nat) (j : job) (b : bool) (m : manager) : manager :=
  let m := if b then inactivate j m else m in
  set_transfers (delete (jkey j) (transfers m)) (set_jobs (alter (set_m MClosing) t (jobs m)) m).

Definition on_close (t : nat) (j : job) (m : manager) : manager :=
  match close (jx j) with
  | None => panic m
  | Some x => set_jobs (<[t := set_m MEnd (set_x x j)]> (jobs m)) m
  end.

Inductive step (m : manager) : manager -> Prop :=
| st_job t j j' : jobs m !! t = Some j -> job_step j j' -> step m (set_jobs (<[t := j']> (jobs m)) m)
| st_call key :
    step m (mkManager (concurrencyLimit m) (activeTransfers m) (transfers m) (waitingTransfers m) (mu m) (jobs m)
      (calls m ++ [KStart key]) (panicked m))
| st_concurrency n : mu m = None -> step m (setConcurrency n m)
| st_lock i key : calls m !! i = Some (KStart key) -> mu m = None -> step m (set_call i (KLoop key) (Some i) m)
| st_loop i key : calls m !! i = Some (KLoop key) -> step m (transfer_loop i key m)
| st_return i key t n j : calls m !! i = Some (KCheck key t n) -> jobs m !! t = Some j -> ctxDone (jx j) = false ->
    step m (set_call i (KHold t n) None m)
| st_cancelled i key t n j : calls m !! i = Some (KCheck key t n) -> jobs m !! t = Some j -> ctxDone (jx j) = true ->
    step m (set_call i (KRelease (Some key) t n) (mu m) (set_jobs (<[t := job_release n j]> (jobs m)) m))
| st_release i t n j : calls m !! i = Some (KHold t n) -> jobs m !! t = Some j ->
    step m (set_call i (KRelease None t n) (mu m) (set_jobs (<[t := job_release n j]> (jobs m)) m))
| st_close_release i a t n j w : calls m !! i = Some (KRelease a t n) -> jobs m !! t = Some j -> jws j !! n = Some w ->
    step m (if releaseClosed w then panic m
            else set_call i (KWait a t n) (mu m) (set_jobs (<[t := set_ws (<[n := set_releaseClosed w]> (jws j)) j]> (jobs m)) m))
| st_waited i t n j w : calls m !! i = Some (KWait None t n) -> jobs m !! t = Some j -> jws j !! n = Some w -> wst w = WDead ->
    step m (set_call i KEnd (mu m) m)
| st_unlock i key t n j w : calls m !! i = Some (KWait (Some key) t n) -> jobs m !! t = Some j -> jws j !! n = Some w -> wst w = WDead ->
    step m (set_call i (KRetry key t) None m)
| st_retry i key t j : calls m !! i = Some (KRetry key t) -> jobs m !! t = Some j -> runningClosed (jx j) = true ->
    step m (set_call i (KStart key) (mu m) m)
| st_inactive t j : jobs m !! t = Some j -> jm j = MWatch true -> inactive j = true -> mu m = None -> step m (on_inactive t j m)
| st_done t j b : jobs m !! t = Some j -> jm j = MWatch b -> runningClosed (jx j) = true -> mu m = None -> step m (on_done t j b m)
| st_close t j : jobs m !! t = Some j -> jm j = MClosing -> step m (on_close t j m).

End Transfer.
Arguments xfer : clear implicits. Arguments watcher : clear implicits. Arguments job : clear implicits.
Arguments manager : clear implicits. Arguments wstate : clear implicits. Arguments bstate : clear implicits.
