(* ===== verification/TransferSpec.v ===== *)
(** * Transfers of layers: invariants of one transfer

    What the goroutines of one transfer keep: the broadcaster hands on what it received in
    order, and a watcher that is done has printed the latest event. *)

From Stdlib Require Import String.
From S2P Require Import Prelude Transfer.
From stdpp Require Import gmap strings list.

Section Job.
Context {P : Type} `{EqDecision P}.
Implicit Types (j : job P) (w : watcher P) (x : xfer P).

(** The event at position [k], counted from one. *)
Definition lastAt (l : list P) (k : nat) : option P := match k with O => None | S k => l !! k end.

(** How many events the broadcaster has handed on. *)
Definition processed j : nat :=
  match jb j with BGot (Some _) => pred (length (received j)) | _ => length (received j) end.

(** The watcher has seen enough at event [k]: all there will be, or all that was received when
    it was released. *)
Definition caught j w (k : nat) : Prop :=
  (jb j = BStop /\ k = length (received j)) \/ (exists n, mark w = Some n /\ (n <= k)%nat).

Record WInv j w : Prop := {
  wi_last : lastWritten w = last (output w);
  wi_some : output w <> [] -> (0 < processed j)%nat;
  wi_mark n : mark w = Some n -> (n <= length (received j))%nat;
  wi_released : releaseClosed w = true -> is_Some (mark w);
  wi_silent : silent w = true -> wst w = WDead;
  wi_state : match wst w with
    | WRead true => caught j w (processed j)
    | WWrite d p => exists k, (k <= processed j)%nat /\ lastAt (received j) k = Some p /\ (d = true -> caught j w k)
    | WSync => releaseClosed w = true
    | WDead => silent w = true \/
        exists k, (k <= processed j)%nat /\ last (output w) = lastAt (received j) k /\ caught j w k
    | _ => True
    end }.

Definition finishing (b : bstate P) : Prop := b = BGot None \/ b = BEnding \/ b = BStop.

Record XInv j : Prop := {
  xi_last : lastProgress (jx j) = lastAt (received j) (processed j);
  xi_got p : jb j = BGot (Some p) -> last (received j) = Some p;
  xi_running : runningClosed (jx j) = true <-> jb j = BStop;
  xi_done : broadcastDone (jx j) = true <-> jb j = BEnding \/ jb j = BStop;
  xi_fn : finishing (jb j) -> jfn j = FEnd;
  xi_start : jfn j <> FWaiting -> start j = true;
  xi_inactive : inactive j = true -> start j = true;
  xi_watching : jm j = MWatch false -> inactive j = true;
  xi_over : jm j = MClosing \/ jm j = MEnd -> runningClosed (jx j) = true;
  xi_closed : closed (jx j) = true <-> jm j = MEnd;
  xi_released : releasedClosed (jx j) = true <-> closed (jx j) = true /\ watchers (jx j) = ∅;
  xi_dom n : n ∈ watchers (jx j) -> (n < length (jws j))%nat;
  xi_ws n w : jws j !! n = Some w -> WInv j w }.

Lemma lastAt_app l l' k : (k <= length l)%nat -> lastAt (l ++ l') k = lastAt l k.
Proof. destruct k as [|k]; [done|]. cbn. intros. by rewrite lookup_app_l by lia. Qed.

Lemma lastAt_last l : lastAt l (length l) = last l.
Proof. rewrite last_lookup. by destruct l. Qed.

Lemma processed_le j : (processed j <= length (received j))%nat.
Proof. unfold processed. case_match; try lia. case_match; lia. Qed.

Lemma lastAt_Some l k p : lastAt l k = Some p -> (0 < k)%nat.
Proof. destruct k; [done|lia]. Qed.

(** ** Changes of a transfer *)

(** What a watcher depends on: events are added, the broadcaster moves on. *)
Definition grows_to j j' : Prop :=
  (exists l, received j' = (received j ++ l)%list) /\ (processed j <= processed j')%nat /\
  (jb j = BStop -> jb j' = BStop /\ received j' = received j).

Lemma caught_grows j j' w k : grows_to j j' -> caught j w k -> caught j' w k.
Proof. intros (_ & _ & Hs) [[Hb ->]|?]; [left|by right]. by destruct (Hs Hb) as [-> ->]. Qed.

Lemma caught_le j w k k' : caught j w k -> (k <= k')%nat -> (k' <= length (received j))%nat -> caught j w k'.
Proof. intros [[Hb ->]|(n & Hn & Hk)] Hle Hl; [left|right]; [split; [done|lia]|]. exists n. split; [done|lia]. Qed.

Lemma WInv_grows j j' w : WInv j w -> grows_to j j' -> WInv j' w.
Proof.
  intros [Hla Hso Hma Hre Hsi Hst] Hg. pose proof Hg as ((l & Hl) & Hp & Hs).
  pose proof (processed_le j) as Hpl. pose proof (processed_le j') as Hpl'. split; try done.
  - intros Ho. specialize (Hso Ho). lia.
  - intros n Hn. rewrite Hl, length_app. specialize (Hma n Hn). lia.
  - destruct (wst w) as [[]|d p| | |] eqn:Hw; try done.
    + eapply caught_le; [by eapply caught_grows|done|done].
    + destruct Hst as (k & Hk & Hat & Hc). exists k. split; [lia|]. rewrite Hl, lastAt_app by lia. split; [done|].
      intros Hd. by eapply caught_grows; [|apply Hc].
    + destruct Hst as [?|(k & Hk & Hat & Hc)]; [by left|]. right. exists k. split; [lia|].
      rewrite Hl, lastAt_app by lia. split; [done|]. by eapply caught_grows.
Qed.

Lemma grows_same j j' : received j' = received j -> jb j' = jb j -> grows_to j j'.
Proof.
  intros Hr Hb. split; [exists []; by rewrite app_nil_r|]. unfold processed. rewrite Hb, Hr. split; [done|]. by intros ->.
Qed.

(** One watcher changes. *)
Lemma XInv_watcher j n w w' :
  XInv j -> jws j !! n = Some w -> WInv j w' -> XInv (set_ws (<[n := w']> (jws j)) j).
Proof.
  intros [] Hw Hw'. split; cbn [jkey jx jws jb received jfn start inactive jm set_ws]; try done.
  - intros k. rewrite length_insert. auto.
  - intros k v [(-> & <- & _)|[_ Hk]]%list_lookup_insert_Some; [|specialize (xi_ws0 _ _ Hk)]; eapply WInv_grows; try done; by apply grows_same.
Qed.

Lemma watcher_read_inv j d w :
  XInv j -> WInv j w -> wst w = WRead d -> WInv j (watcher_read (jx j) d w).
Proof.
  intros HX [Hla Hso Hma Hre Hsi Hst] Hw. rewrite Hw in *. unfold watcher_read. rewrite (xi_last _ HX).
  assert (Hns : silent w <> true) by (intros Hs; by specialize (Hsi Hs)).
  destruct (lastAt (received j) (processed j)) as [p|] eqn:Hp.
  - destruct (negb d || _ || _) eqn:Hc; (split; cbn [goto wst lastWritten output mark silent releaseClosed]; try done).
    + exists (processed j). split; [done|]. split; [done|]. by intros ->.
    + apply orb_false_iff in Hc as [[Hd Hn]%orb_false_iff Hne]. apply negb_false_iff in Hd as ->. cbn [turn].
      right. exists (processed j). split; [done|]. split; [|done].
      apply bool_decide_eq_false in Hne. rewrite <- Hla, Hp. by apply dec_stable.
  - split; cbn [goto wst lastWritten output mark silent releaseClosed]; try done.
    destruct d; cbn [turn]; [|done]. right. exists (processed j). split; [done|]. split; [|done].
    rewrite Hp. destruct (output w) as [|a l] eqn:Ho; [done|]. assert (Hpos : (0 < processed j)%nat) by (by apply Hso).
    destruct (processed j) as [|k] eqn:Hk; [lia|]. cbn in Hp. apply lookup_ge_None in Hp. pose proof (processed_le j). lia.
Qed.

Lemma watcher_write_inv j d p w :
  WInv j w -> wst w = WWrite d p -> WInv j (watcher_write d p w).
Proof.
  intros [Hla Hso Hma Hre Hsi Hst] Hw. rewrite Hw in *. destruct Hst as (k & Hk & Hat & Hc).
  assert (Hlast : last (output w ++ [p]) = Some p) by apply last_snoc.
  split; cbn [watcher_write wst lastWritten output mark silent releaseClosed]; try done.
  - intros _. apply lastAt_Some in Hat. lia.
  - intros Hs. by specialize (Hsi Hs).
  - destruct d; cbn [turn]; [|done]. right. exists k. split; [done|]. rewrite Hlast. split; [done|]. by apply Hc.
Qed.

Lemma goto_inv j w st :
  WInv j w -> silent w = false \/ st = WDead ->
  match st with WRead true => caught j w (processed j) | WSync => releaseClosed w = true
              | WSelect | WRead false => True | _ => False end ->
  WInv j (goto st w).
Proof.
  intros [Hla Hso Hma Hre Hsi Hst] Hs Hst'. split; cbn [goto wst lastWritten output mark silent releaseClosed]; try done.
  - intros Hs'. destruct Hs; congruence.
  - destruct st as [[]|d p| | |]; try done.
Qed.

Lemma not_silent j w : WInv j w -> wst w <> WDead -> silent w = false.
Proof. intros HW Hd. destruct (silent w) eqn:Hs; [|done]. by apply (wi_silent _ _ HW) in Hs. Qed.

Lemma signalled_inv j x n w : WInv j w -> WInv j (signalled x n w).
Proof.
  intros HW. unfold signalled. destruct (wst w) eqn:Hw; try done. case_bool_decide; [|done].
  apply goto_inv; [done| |done]. left. apply (not_silent j); [done|]. by rewrite Hw.
Qed.

Lemma broadcast_handle_inv p j : XInv j -> jb j = BGot p -> XInv (broadcast_handle p j).
Proof.
  intros HX Hb. pose proof HX as [Hla Hgo Hru Hdo Hfn Hst Hin Hwa Hov Hcl Hre Hdm Hws]. rewrite Hb in *. destruct p as [p|].
  - assert (Hlr : last (received j) = Some p) by by apply Hgo.
    assert (Hg : forall j', received j' = received j -> jb j' = BOuter -> grows_to j j').
    { intros j' Hr Hb'. split; [exists []; by rewrite app_nil_r|]. unfold processed. rewrite Hb, Hb', Hr. split; [lia|done]. }
    unfold broadcast_handle. split; cbn [jkey jx jws jb received jfn start inactive jm set_ws set_x set_b
      lastProgress runningClosed broadcastDone closed releasedClosed watchers ctxDone]; try done.
    + unfold processed. cbn [jb received set_b set_ws set_x]. by rewrite lastAt_last, Hlr.
    + split; [|done]. by intros ?%Hru.
    + split; [|by intros [?|?]]. by intros [?|?]%Hdo.
    + by intros [?|[?|?]].
    + intros n. rewrite length_imap. apply Hdm.
    + intros n w. rewrite list_lookup_imap. intros (w0 & Hw0 & ->)%fmap_Some. apply signalled_inv.
      eapply WInv_grows; [by eapply Hws|by apply Hg].
  - unfold broadcast_handle. split; cbn [jkey jx jws jb received jfn start inactive jm set_ws set_x set_b
      lastProgress runningClosed broadcastDone closed releasedClosed watchers ctxDone]; try done.
    + rewrite Hla. unfold processed. by rewrite Hb.
    + split; [|done]. by intros ?%Hru.
    + split; [|done]. by left.
    + intros _. apply Hfn. by left.
    + intros n w Hn. eapply WInv_grows; [by eapply Hws|]. split; [exists []; by rewrite app_nil_r|]. unfold processed. cbn. by rewrite Hb.
Qed.

Ltac job_cbn := cbn [jkey jx jws jb received jfn start inactive jm set_ws set_x set_b set_fn set_m set_start receive
  lastProgress runningClosed broadcastDone closed releasedClosed watchers ctxDone].

Lemma grows_b j j' :
  received j' = received j -> (processed j <= processed j')%nat -> jb j <> BStop -> grows_to j j'.
Proof. intros Hr Hp Hb. split; [exists []; by rewrite app_nil_r|]. by split. Qed.

(** The broadcaster moves without handing anything on. *)
Lemma XInv_set_b j b :
  XInv j -> atSelect (jb j) = true -> (finishing b -> jfn j = FEnd) -> b = BOuter \/ b = BInner \/ b = BGot None ->
  XInv (set_b b j).
Proof.
  intros [Hla Hgo Hru Hdo Hfn Hst Hin Hwa Hov Hcl Hre Hdm Hws] Hs Hf Hb.
  assert (Hp : processed (set_b b j) = processed j).
  { unfold processed. cbn. by destruct (jb j) as [| |[]| |], Hb as [->|[->| ->]]. }
  assert (Hne : jb j <> BStop /\ jb j <> BEnding) by (by destruct (jb j)). destruct Hne as [Hne1 Hne2].
  split; job_cbn; try done.
  - by rewrite Hp.
  - intros p ->. by destruct Hb as [?|[?|?]].
  - split; [by intros ?%Hru|]. intros ->. by destruct Hb as [?|[?|?]].
  - split; [by intros [?|?]%Hdo|]. intros [->| ->]; by destruct Hb as [?|[?|?]].
  - intros n w Hn. eapply WInv_grows; [by eapply Hws|]. apply grows_b; [done| |done]. lia.
Qed.

Lemma receive_inv p j : XInv j -> jfn j <> FEnd -> atSelect (jb j) = true -> XInv (receive p j).
Proof.
  intros [Hla Hgo Hru Hdo Hfn Hst Hin Hwa Hov Hcl Hre Hdm Hws] Hf Hs.
  assert (Hp : processed j = length (received j)) by (unfold processed; by destruct (jb j) as [| |[]| |]).
  assert (Hp' : processed (receive p j) = length (received j)).
  { unfold processed. cbn. rewrite length_app. cbn. lia. }
  assert (Hne : jb j <> BStop /\ jb j <> BEnding) by (by destruct (jb j)). destruct Hne as [Hne1 Hne2].
  split; job_cbn; try done.
  - rewrite Hp', Hla, Hp. by rewrite lastAt_app.
  - intros q [= ->]. apply last_snoc.
  - split; [|done]. by intros ?%Hru.
  - split; [by intros [?|?]%Hdo|by intros [?|?]].
  - by intros [?|[?|?]].
  - intros n w Hn. eapply WInv_grows; [by eapply Hws|]. split; [by eexists|]. split; [lia|]. by intros ?%Hne1.
Qed.

Lemma broadcast_stop_inv j : XInv j -> jb j = BEnding -> XInv (broadcast_stop j).
Proof.
  intros [Hla Hgo Hru Hdo Hfn Hst Hin Hwa Hov Hcl Hre Hdm Hws] Hb. unfold broadcast_stop. split; job_cbn; try done.
  - rewrite Hla. unfold processed. cbn. by rewrite Hb.
  - split; [by right|]. intros _. apply Hdo. by left.
  - intros _. apply Hfn. right. by left.
  - intros n w Hn. eapply WInv_grows; [by eapply Hws|]. apply grows_b; [done| |by rewrite Hb]. unfold processed. cbn. by rewrite Hb.
Qed.

(** A change that the watchers do not see. *)
Lemma XInv_ws_same j j' :
  received j' = received j -> jb j' = jb j ->
  (forall n w, jws j !! n = Some w -> WInv j w) -> forall n w, jws j !! n = Some w -> WInv j' w.
Proof. intros Hr Hb Hws n w Hn. eapply WInv_grows; [by eapply Hws|by apply grows_same]. Qed.

Lemma XInv_fn j f i :
  XInv j -> start j = true -> (i = inactive j \/ i = true) -> (jfn j = FEnd -> f = FEnd) -> XInv (set_fn f i j).
Proof.
  intros [Hla Hgo Hru Hdo Hfn Hst Hin Hwa Hov Hcl Hre Hdm Hws] Hs Hi Hf. split; job_cbn; try done.
  - intros Hb. apply Hf. by apply Hfn.
  - intros Hm%Hwa. by destruct Hi as [->| ->].
  - by apply (XInv_ws_same j).
Qed.

Lemma job_step_inv j j' : XInv j -> job_step j j' -> XInv j'.
Proof.
  intros HX Hs. destruct Hs as [p Hf Hb|Hf Hb|Hb|p Hb|Hb|Hf Hst|Hf|Hf|n w d Hn Hw|n w d p Hn Hw|n w Hn Hw Hr|n w Hn Hw Hr|n w Hn Hw Hb].
  - by apply receive_inv.
  - apply XInv_set_b; tauto.
  - apply XInv_set_b; [done|by rewrite Hb| |tauto]. by intros [?|[?|?]].
  - by apply broadcast_handle_inv.
  - by apply broadcast_stop_inv.
  - apply XInv_fn; [done|done|tauto|congruence].
  - apply XInv_fn; [done| |tauto|congruence]. apply HX. congruence.
  - apply XInv_fn; [done| |tauto|done]. apply HX. destruct Hf; congruence.
  - eapply XInv_watcher; [done|done|]. apply watcher_read_inv; [done|by eapply xi_ws|done].
  - eapply XInv_watcher; [done|done|]. apply watcher_write_inv; [by eapply xi_ws|done].
  - eapply XInv_watcher; [done|done|]. pose proof (xi_ws _ HX _ _ Hn) as HW. apply goto_inv; [done| |].
    + left. apply (not_silent j); [done|]. by destruct Hw as [-> | ->].
    + left. apply (xi_running _ HX) in Hr. unfold processed. by rewrite Hr.
  - eapply XInv_watcher; [done|done|]. pose proof (xi_ws _ HX _ _ Hn) as HW. apply goto_inv; [done| |done].
    left. apply (not_silent j); [done|]. by rewrite Hw.
  - apply XInv_set_b; [|job_cbn; by rewrite Hb|by intros [?|[?|?]]|by left].
    eapply XInv_watcher; [done|done|]. pose proof (xi_ws _ HX _ _ Hn) as HW. apply goto_inv; [done| |].
    + left. apply (not_silent j); [done|]. by rewrite Hw.
    + pose proof (wi_state _ _ HW) as Hst. rewrite Hw in Hst. apply (wi_released _ _ HW) in Hst as [k Hk].
      right. exists k. split; [done|]. apply (wi_mark _ _ HW) in Hk. unfold processed. by rewrite Hb.
Qed.

(** ** Watching and releasing *)

Lemma job_watch_inv j : XInv j -> (exists b, jm j = MWatch b) -> XInv (job_watch j).1.
Proof.
  intros [Hla Hgo Hru Hdo Hfn Hst Hin Hwa Hov Hcl Hre Hdm Hws] [b Hm]. unfold job_watch, watch. cbn [fst snd].
  assert (Hnc : closed (jx j) <> true) by (intros ?%Hcl; congruence). split; job_cbn; try done.
  - split; [|by intros [? _]]. intros Hr%Hre. tauto.
  - intros n. rewrite length_app. cbn [length]. intros [->%elem_of_singleton|Hn%Hdm]%elem_of_union; lia.
  - intros n w. rewrite lookup_app_Some. intros [Hn|[_ Hn]]; [eapply WInv_grows; [by eapply Hws|by apply grows_same]|].
    apply list_lookup_singleton_Some in Hn as [_ <-]. split; cbn; try done; [by intros ->|].
    destruct (broadcastDone (jx j)); [by left|done].
Qed.

Lemma job_release_inv n w j :
  XInv j -> jws j !! n = Some w -> mark w = None -> n ∈ watchers (jx j) -> XInv (job_release n j).
Proof.
  intros [Hla Hgo Hru Hdo Hfn Hst Hin Hwa Hov Hcl Hre Hdm Hws] Hn Hm Hel. unfold job_release, release. split; job_cbn; try done.
  - assert (Hnr : releasedClosed (jx j) = false) by (apply not_true_iff_false; intros [_ ?]%Hre; set_solver).
    rewrite Hnr. cbn [orb]. rewrite andb_true_iff, bool_decide_eq_true. tauto.
  - intros k. rewrite length_alter. intros Hk. apply Hdm. set_solver.
  - intros k v. destruct (decide (n = k)) as [<-|Hne]; cycle 1.
    { rewrite list_lookup_alter_ne by done. intros Hk. eapply WInv_grows; [by eapply Hws|by apply grows_same]. }
    rewrite list_lookup_alter_eq, Hn. intros [= <-]. destruct (Hws _ _ Hn) as [Hla' Hso Hma Hre' Hsi Hst'].
    assert (Hcs : forall k, caught j w k -> jb j = BStop /\ k = length (received j)).
    { intros k [?|(y & Hy & _)]; [done|congruence]. }
    assert (Hp : forall k, caught j w k -> caught j (set_mark (length (received j)) w) k) by (intros k Hk%Hcs; by left).
    split; cbn [set_mark wst lastWritten output mark silent releaseClosed]; try done.
    + by intros y [= <-].
    + destruct (wst w) as [[]|d p| | |]; try done; [by apply Hp| |].
      * destruct Hst' as (k & Hk & Hat & Hc). exists k. split_and!; try done. intros Hd. by apply Hp, Hc.
      * destruct Hst' as [?|(k & Hk & Hat & Hc)]; [by left|]. right. exists k. split_and!; try done. by apply Hp.
Qed.

Lemma close_release_inv n w j :
  XInv j -> jws j !! n = Some w -> is_Some (mark w) -> XInv (set_ws (<[n := set_releaseClosed w]> (jws j)) j).
Proof.
  intros HX Hn Hm. eapply XInv_watcher; [done|done|]. destruct (xi_ws _ HX _ _ Hn) as [Hla' Hso Hma Hre' Hsi Hst'].
  split; cbn [set_releaseClosed wst lastWritten output mark silent releaseClosed]; try done.
  by destruct (wst w) as [[]|d p| | |].
Qed.

Lemma XInv_started j : XInv j -> XInv (set_start j).
Proof. intros []. split; job_cbn; try done. by apply (XInv_ws_same j). Qed.

Lemma XInv_m j s :
  XInv j -> (s = MWatch false -> inactive j = true) -> (s = MClosing -> runningClosed (jx j) = true) ->
  s <> MEnd -> jm j <> MEnd -> XInv (set_m s j).
Proof.
  intros [Hla Hgo Hru Hdo Hfn Hst Hin Hwa Hov Hcl Hre Hdm Hws] H1 H2 H3 H4. split; job_cbn; try done.
  - intros [?|?]; [by apply H2|done].
  - split; [by intros ?%Hcl|done].
  - by apply (XInv_ws_same j).
Qed.

Lemma close_inv j : XInv j -> jm j = MClosing -> exists x, close (jx j) = Some x /\ XInv (set_m MEnd (set_x x j)).
Proof.
  intros [Hla Hgo Hru Hdo Hfn Hst Hin Hwa Hov Hcl Hre Hdm Hws] Hm. unfold close.
  assert (Hnr : releasedClosed (jx j) = false) by (apply not_true_iff_false; intros [Hc _]%Hre; apply Hcl in Hc; congruence).
  assert (Hrun : runningClosed (jx j) = true) by (apply Hov; by left).
  rewrite Hnr. case_bool_decide as He; (eexists; split; [done|]); (split; job_cbn; try done; try by apply (XInv_ws_same j)).
  split; [done|by intros [_ ?]].
Qed.

Lemma newJob_inv key b : XInv (newJob key b : job P).
Proof.
  unfold newJob. apply job_watch_inv; [|by eexists]. split; job_cbn; try done.
  - split; [done|by intros [?|?]].
  - by intros [?|[?|?]].
  - by intros [?|?].
  - by split; [|intros [? _]].
Qed.
End Job.
