(* ===== verification/TransferSteps.v ===== *)
(** * Transfers of layers: invariant of the manager

    The invariant of the manager with its transfers and calls, kept by every step: the map
    has the transfers that have not ended, the queue those that have not been started, the
    count is the number of slots in use, and a call that holds a watcher is the only one
    that does. *)

From Stdlib Require Import String Sorting.Sorted.
From S2P Require Import Prelude Transfer TransferSpec.
From stdpp Require Import gmap strings list.

Local Open Scope Z_scope.

Section Manager.
Context {P : Type} `{EqDecision P}.
Implicit Types (j : job P) (m : manager P).

(** ** Slots *)

Definition slot j : bool := start j && match jm j with MWatch true => true | _ => false end.
Fixpoint slots (l : list (job P)) : Z := match l with [] => 0 | j :: l => Z.b2z (slot j) + slots l end.

Lemma slots_app l l' : slots (l ++ l') = slots l + slots l'.
Proof. induction l as [|j l IH]; cbn [app slots]; [done|]. rewrite IH. lia. Qed.

Lemma slots_insert l t j j' :
  l !! t = Some j -> slots (<[t := j']> l) = slots l - Z.b2z (slot j) + Z.b2z (slot j').
Proof.
  revert t. induction l as [|a l IH]; intros [|t] Ht; try done; cbn in Ht.
  - injection Ht as ->. cbn [slots insert list_insert]. lia.
  - change (<[S t := j']> (a :: l)) with (a :: <[t := j']> l). cbn [slots]. rewrite (IH t Ht). lia.
Qed.

(** ** Transfers and the queue

    [d]: slots that were given back and are still marked. *)
Record JInv (d : Z) m : Prop := {
  ji_jobs t j : jobs m !! t = Some j -> XInv j;
  ji_map key t : transfers m !! key = Some t <->
    exists j b, jobs m !! t = Some j /\ jkey j = key /\ jm j = MWatch b;
  ji_waiting t : t ∈ waitingTransfers m <-> exists j, jobs m !! t = Some j /\ start j = false;
  ji_sorted : StronglySorted lt (waitingTransfers m);
  ji_active : activeTransfers m + d = slots (jobs m) }.

(** The parts of the state that [JInv] depends on. *)
Lemma JInv_ext d m m' :
  jobs m' = jobs m -> transfers m' = transfers m -> waitingTransfers m' = waitingTransfers m ->
  activeTransfers m' = activeTransfers m -> JInv d m -> JInv d m'.
Proof. intros H1 H2 H3 H4 []. by split; rewrite ?H1, ?H2, ?H3, ?H4. Qed.

(** A transfer changes in what the manager does not look at. *)
Lemma JInv_set_job d m t j j' :
  JInv d m -> jobs m !! t = Some j -> XInv j' -> jkey j' = jkey j -> start j' = start j ->
  (forall b, jm j' = MWatch b <-> jm j = MWatch b) ->
  JInv d (set_jobs (<[t := j']> (jobs m)) m).
Proof.
  intros [Hj Hm Hw Hs Ha] Ht HX Hk Hst Hjm.
  assert (Hlt : (t < length (jobs m))%nat) by (by eapply lookup_lt_Some).
  split; cbn [jobs transfers waitingTransfers activeTransfers set_jobs]; try done.
  - intros t' x [(<- & <- & _)|[_ Hx]]%list_lookup_insert_Some; [done|by eapply Hj].
  - intros key t'. rewrite Hm. split; intros (x & b & Hx & Hkx & Hbx).
    + destruct (decide (t = t')) as [<-|Hne]; [|exists x, b; by rewrite list_lookup_insert_ne].
      rewrite Ht in Hx. injection Hx as <-. exists j', b. rewrite list_lookup_insert_eq by done. rewrite Hjm. split_and!; congruence.
    + apply list_lookup_insert_Some in Hx as [(<- & <- & _)|[_ Hx]]; [|by exists x, b].
      exists j, b. rewrite <- Hjm. split_and!; congruence.
  - intros t'. rewrite Hw. split; intros (x & Hx & Hsx).
    + destruct (decide (t = t')) as [<-|Hne]; [|exists x; by rewrite list_lookup_insert_ne].
      rewrite Ht in Hx. injection Hx as <-. exists j'. rewrite list_lookup_insert_eq by done. split; congruence.
    + apply list_lookup_insert_Some in Hx as [(<- & <- & _)|[_ Hx]]; [|by exists x].
      exists j. split; congruence.
  - rewrite (slots_insert _ _ j) by done. 
    assert (Heq : slot j' = slot j); [|rewrite Heq; lia]. unfold slot. rewrite Hst. f_equal. destruct (Hjm true) as [H1 H2].
    destruct (jm j') as [[]| |] eqn:E1, (jm j) as [[]| |] eqn:E2; try done; first [by specialize (H1 eq_refl)|by specialize (H2 eq_refl)].
Qed.

(** A transfer that waits has its slot to come. *)
Lemma waiting_watched j : XInv j -> start j = false -> jm j = MWatch true.
Proof.
  intros HX Hs. destruct (jm j) as [[]| |] eqn:Hm; [done| | |]; exfalso.
  - apply (xi_watching _ HX), (xi_inactive _ HX) in Hm. congruence.
  - assert (Hr : runningClosed (jx j) = true) by (apply (xi_over _ HX); by left).
    apply (xi_running _ HX) in Hr. pose proof (xi_fn _ HX (or_intror (or_intror Hr))) as Hf.
    rewrite (xi_start _ HX) in Hs by congruence. done.
  - assert (Hr : runningClosed (jx j) = true) by (apply (xi_over _ HX); by right).
    apply (xi_running _ HX) in Hr. pose proof (xi_fn _ HX (or_intror (or_intror Hr))) as Hf.
    rewrite (xi_start _ HX) in Hs by congruence. done.
Qed.

(** A transfer that has ended was started. *)
Lemma ended_started j : XInv j -> runningClosed (jx j) = true -> start j = true.
Proof.
  intros HX Hr%(xi_running _ HX). apply (xi_start _ HX). rewrite (xi_fn _ HX); [done|]. right. by right.
Qed.

(** [inactivate] gives a slot back or hands it on. *)
Lemma inactivate_ok m j :
  JInv 0 m -> start j = true ->
  JInv 1 (inactivate j m) /\ transfers (inactivate j m) = transfers m /\ mu (inactivate j m) = mu m /\
  calls (inactivate j m) = calls m /\ panicked (inactivate j m) = panicked m /\
  concurrencyLimit (inactivate j m) = concurrencyLimit m /\
  (jobs (inactivate j m) = jobs m \/
   exists t x, jobs m !! t = Some x /\ start x = false /\ jobs (inactivate j m) = <[t := set_start x]> (jobs m)).
Proof.
  intros [Hj Hm Hw Hs Ha] Hst. unfold inactivate. rewrite Hst. destruct (waitingTransfers m) as [|t waiting] eqn:Hq.
  { split; [|by split_and!; auto]. split; cbn [jobs transfers waitingTransfers activeTransfers set_sched]; try done.
    lia. }
  destruct (proj1 (Hw t)) as (x & Hx & Hsx); [by left|]. pose proof (waiting_watched _ (Hj _ _ Hx) Hsx) as Hmx.
  unfold close_start. rewrite Hx, Hsx.
  assert (Hlt : (t < length (jobs m))%nat) by (by eapply lookup_lt_Some).
  apply StronglySorted_inv in Hs as [Hs Hhd]. rewrite Forall_forall in Hhd.
  split; [|split_and!; try done; right; by exists t, x].
  split; cbn [jobs transfers waitingTransfers activeTransfers set_sched set_jobs]; try done.
  - intros t' y [(<- & <- & _)|[_ Hy]]%list_lookup_insert_Some; [apply XInv_started|]; by eapply Hj.
  - intros key t'. rewrite Hm. split; intros (y & b & Hy & Hky & Hby).
    + destruct (decide (t = t')) as [<-|Hne]; [|exists y, b; by rewrite list_lookup_insert_ne].
      rewrite Hx in Hy. injection Hy as <-. exists (set_start x), b. by rewrite list_lookup_insert_eq.
    + apply list_lookup_insert_Some in Hy as [(<- & <- & _)|[_ Hy]]; [|by exists y, b]. by exists x, b.
  - intros t'. split.
    + intros Hin. destruct (proj1 (Hw t')) as (y & Hy & Hsy); [by right|]. exists y.
      rewrite list_lookup_insert_ne; [done|]. intros <-. apply Hhd in Hin. lia.
    + intros (y & Hy & Hsy). apply list_lookup_insert_Some in Hy as [(<- & <- & _)|[Hne Hy]]; [done|].
      assert (Hin : t' ∈ t :: waiting) by (apply Hw; by exists y). by apply elem_of_cons in Hin as [->|?].
  - rewrite (slots_insert _ _ x) by done. unfold slot. cbn [start jm set_start]. rewrite Hsx, Hmx. cbn. lia.
Qed.

Lemma set_m_lookup t s (l : list (job P)) t' x :
  alter (set_m s) t l !! t' = Some x <-> exists j, l !! t' = Some j /\ x = if decide (t = t') then set_m s j else j.
Proof.
  case_decide as Hd.
  - subst t'. rewrite list_lookup_alter_eq, fmap_Some. done.
  - rewrite list_lookup_alter_ne by done. naive_solver.
Qed.

(** The goroutine of the manager moves on: [d] slots of the transfer had been given back. *)
Lemma JInv_set_m d m t j s ts :
  JInv d m -> jobs m !! t = Some j -> XInv (set_m s j) -> start j = true -> d = Z.b2z (slot j) -> s <> MWatch true ->
  (forall key t', ts !! key = Some t' <-> transfers m !! key = Some t' /\ (t' = t -> exists b, s = MWatch b)) ->
  (exists b, jm j = MWatch b) ->
  JInv 0 (set_transfers ts (set_jobs (alter (set_m s) t (jobs m)) m)).
Proof.
  intros [Hj Hm Hw Hs Ha] Ht HX Hst Hd Hne Hts [b0 Hb0].
  assert (Halt : alter (set_m s) t (jobs m) = <[t := set_m s j]> (jobs m)).
  { apply list_eq. intros t'. destruct (decide (t = t')) as [<-|Hn].
    - rewrite list_lookup_alter_eq, Ht, list_lookup_insert_eq by (by eapply lookup_lt_Some). done.
    - by rewrite list_lookup_alter_ne, list_lookup_insert_ne. }
  split; cbn [jobs transfers waitingTransfers activeTransfers set_jobs set_transfers]; try done.
  - intros t' x (y & Hy & ->)%set_m_lookup. case_decide as He; [|by eapply Hj]. subst t'. congruence.
  - intros key t'. rewrite Hts, Hm. setoid_rewrite set_m_lookup. split.
    + intros [(x & b & Hx & Hk & Hb) Himp]. destruct (decide (t = t')) as [<-|Hn]; [|exists x, b; split_and!; try done; by exists x].
      destruct (Himp eq_refl) as [b' ->]. exists (set_m (MWatch b') x), b'. split_and!; try done. by exists x.
    + intros (x & b & (y & Hy & ->) & Hk & Hb). case_decide as He.
      * subst t'. cbn [jm jkey set_m] in *. rewrite Ht in Hy. injection Hy as <-.
        split; [by exists j, b0|]. intros _. by exists b.
      * split; [by exists y, b|]. intros ->. done.
  - intros t'. rewrite Hw. setoid_rewrite set_m_lookup. split.
    + intros (x & Hx & Hsx). exists x. split; [|done]. exists x. split; [done|]. rewrite decide_False; [done|].
      intros <-. congruence.
    + intros (x & (y & Hy & ->) & Hsx). case_decide as He; [|by exists y]. subst t'. cbn [start set_m] in Hsx.
      rewrite Ht in Hy. injection Hy as <-. congruence.
  - rewrite Halt, (slots_insert _ _ j) by done. rewrite <- Ha.
    assert (Hs0 : slot (set_m s j) = false) by (unfold slot; cbn; rewrite Hst; destruct s as [[]| |]; done).
    rewrite Hs0. cbn. lia.
Qed.

(** A new transfer. *)
Lemma transfer_new_ok m key :
  JInv 0 m -> transfers m !! key = None -> JInv 0 (transfer_new key m).
Proof.
  intros [Hj Hm Hw Hs Ha] Hnone. unfold transfer_new. set (b := (_ =? 0) || _).
  set (t := length (jobs m)). set (x := newJob key b).
  assert (Hx : jkey x = key /\ jm x = MWatch true /\ start x = b) by done. destruct Hx as (Hxk & Hxm & Hxs).
  assert (Hlook : forall t' y, (jobs m ++ [x])%list !! t' = Some y <-> jobs m !! t' = Some y \/ t' = t /\ y = x).
  { intros t' y. rewrite lookup_app_Some, list_lookup_singleton_Some. subst t. split.
    - intros [?|(Hle & Heq & <-)]; [by left|right]. split; [lia|done].
    - intros [?|[-> ->]]; [by left|right]. split; [lia|]. split; [lia|done]. }
  assert (Hltw : forall t', t' ∈ waitingTransfers m -> (t' < t)%nat) by (intros t' (y & Hy & _)%Hw; by eapply lookup_lt_Some).
  assert (Hgoal : JInv 0 (set_transfers (<[key := t]> (transfers m))
    (set_jobs (jobs m ++ [x])%list (set_sched (activeTransfers m + Z.b2z b)
      (if b then waitingTransfers m else waitingTransfers m ++ [t])%list m)))).
  { split; cbn [jobs transfers waitingTransfers activeTransfers set_jobs set_transfers set_sched].
    - intros t' y [Hy|[_ ->]]%Hlook; [by eapply Hj|apply newJob_inv].
    - intros k t'. setoid_rewrite Hlook. rewrite lookup_insert_Some. split.
      + intros [[<- <-]|[Hne Hk]]; [exists x, true; by split; [right|]|].
        apply Hm in Hk as (y & b' & Hy & ?). exists y, b'. by split; [left|].
      + intros (y & b' & [Hy|[-> ->]] & Hk & Hb'); [|left; split; [congruence|done]]. right.
        assert (Htk : transfers m !! k = Some t') by (apply Hm; by exists y, b'). split; congruence.
    - intros t'. setoid_rewrite Hlook. split.
      + intros Hin. assert (Hin' : t' ∈ waitingTransfers m \/ b = false /\ t' = t) by (destruct b; set_solver).
        destruct Hin' as [(y & Hy & ?)%Hw|[Hb ->]]; [exists y; by split; [left|]|]. exists x. split; [by right|congruence].
      + intros (y & [Hy|[-> ->]] & Hsy).
        * assert (t' ∈ waitingTransfers m) by (apply Hw; by exists y). destruct b; set_solver.
        * rewrite Hxs in Hsy. rewrite Hsy. set_solver.
    - destruct b; [done|]. clear -Hs Hltw. induction (waitingTransfers m) as [|a l IH]; cbn; [repeat constructor|].
      apply StronglySorted_inv in Hs as [Hs Hhd]. constructor; [apply IH; [done|]; intros; apply Hltw; by right|].
      apply Forall_app. split; [done|]. constructor; [|constructor]. apply Hltw. by left.
    - rewrite slots_app. cbn [slots]. unfold slot. rewrite Hxs, Hxm, <- Ha. destruct b; cbn; lia. }
  destruct b; [exact Hgoal|]. by rewrite Z.add_0_r in Hgoal.
Qed.

(** ** Calls *)

(** The watcher of a call. *)
Definition owns (k : call) : option (nat * nat) :=
  match k with
  | KCheck _ t n | KHold t n | KRelease _ t n | KWait _ t n => Some (t, n)
  | _ => None
  end.

(** The call has the mutex of the manager. *)
Definition locks (k : call) : bool :=
  match k with KLoop _ | KCheck _ _ _ | KRelease (Some _) _ _ | KWait (Some _) _ _ => true | _ => false end.

(** What a call knows of the watcher [n] of [j]. *)
Definition watching (n : nat) j : Prop :=
  n ∈ watchers (jx j) /\ exists w, jws j !! n = Some w /\ mark w = None /\ releaseClosed w = false.
Definition detached (n : nat) (closed : bool) j : Prop :=
  exists w, jws j !! n = Some w /\ is_Some (mark w) /\ releaseClosed w = closed.

Definition CallOk (l : list (job P)) (k : call) : Prop :=
  match k with
  | KCheck _ t n => exists j, l !! t = Some j /\ watching n j
  | KHold t n => exists j, l !! t = Some j /\ watching n j /\ ctxDone (jx j) = false
  | KRelease _ t n => exists j, l !! t = Some j /\ detached n false j
  | KWait _ t n => exists j, l !! t = Some j /\ detached n true j
  | KRetry _ t => is_Some (l !! t)
  | _ => True
  end.

(** [j'] differs from [j] in what the watcher [n] does not depend on. *)
Definition keeps (n : nat) j j' : Prop :=
  (n ∈ watchers (jx j) -> n ∈ watchers (jx j') /\ (ctxDone (jx j) = false -> ctxDone (jx j') = false)) /\
  (forall w, jws j !! n = Some w -> exists w', jws j' !! n = Some w' /\ mark w' = mark w /\ releaseClosed w' = releaseClosed w).

Lemma watching_keeps n j j' : keeps n j j' -> watching n j -> watching n j'.
Proof.
  intros [Hin Hw] (Hn & w & Hl & Hm & Hr). split; [by apply Hin|]. destruct (Hw w Hl) as (w' & ? & ? & ?).
  exists w'. split_and!; congruence.
Qed.
Lemma detached_keeps n c j j' : keeps n j j' -> detached n c j -> detached n c j'.
Proof. intros [_ Hw] (w & Hl & Hm & Hr). destruct (Hw w Hl) as (w' & ? & Hm' & ?). exists w'. rewrite Hm'. split_and!; congruence. Qed.

(** The transfers change where the call does not look. *)
Definition jobs_keep (k : call) (l l' : list (job P)) : Prop :=
  forall t j, l !! t = Some j -> exists j', l' !! t = Some j' /\ forall n, owns k = Some (t, n) -> keeps n j j'.

Lemma CallOk_keep k l l' : jobs_keep k l l' -> CallOk l k -> CallOk l' k.
Proof.
  intros Hk. destruct k as [| | |key t|t n|a t n|a t n|]; cbn [CallOk]; try done.
  - intros (j & Hj & Hw). destruct (Hk _ _ Hj) as (j' & Hj' & Hn). exists j'. split; [done|]. eapply watching_keeps; [by apply Hn|done].
  - intros [j Hj]. destruct (Hk _ _ Hj) as (j' & Hj' & _). by exists j'.
  - intros (j & Hj & Hw & Hc). destruct (Hk _ _ Hj) as (j' & Hj' & Hn). exists j'. split; [done|]. specialize (Hn n eq_refl).
    split; [by eapply watching_keeps|]. by apply Hn, Hc; apply Hw.
  - intros (j & Hj & Hw). destruct (Hk _ _ Hj) as (j' & Hj' & Hn). exists j'. split; [done|]. eapply detached_keeps; [by apply Hn|done].
  - intros (j & Hj & Hw). destruct (Hk _ _ Hj) as (j' & Hj' & Hn). exists j'. split; [done|]. eapply detached_keeps; [by apply Hn|done].
Qed.

Lemma keeps_refl n j : keeps n j j.
Proof. split; [done|]. intros w Hw. by exists w. Qed.

Lemma jobs_keep_refl k l : jobs_keep k l l.
Proof. intros t j Hj. exists j. split; [done|]. intros. apply keeps_refl. Qed.

Lemma jobs_keep_insert k l t j j' :
  l !! t = Some j -> (forall n, owns k = Some (t, n) -> keeps n j j') -> jobs_keep k l (<[t := j']> l).
Proof.
  intros Hj Hk t' x Hx. destruct (decide (t = t')) as [<-|Hne].
  - rewrite Hj in Hx. injection Hx as <-. exists j'. rewrite list_lookup_insert_eq by (by eapply lookup_lt_Some). done.
  - exists x. rewrite list_lookup_insert_ne by done. split; [done|]. intros. apply keeps_refl.
Qed.

Lemma jobs_keep_app k l x : jobs_keep k l (l ++ [x]).
Proof. intros t j Hj. exists j. split; [by apply lookup_app_l_Some|]. intros. apply keeps_refl. Qed.

Lemma jobs_keep_trans k l1 l2 l3 : jobs_keep k l1 l2 -> jobs_keep k l2 l3 -> jobs_keep k l1 l3.
Proof.
  intros H1 H2 t j Hj. destruct (H1 _ _ Hj) as (j2 & Hj2 & K1), (H2 _ _ Hj2) as (j3 & Hj3 & K2).
  exists j3. split; [done|]. intros n Hn. destruct (K1 n Hn) as [A1 B1], (K2 n Hn) as [A2 B2]. split.
  - intros Hin. destruct (A1 Hin) as [Hin2 Hc]. destruct (A2 Hin2). split; [done|auto].
  - intros w Hw. destruct (B1 _ Hw) as (w2 & Hw2 & E1 & E2). destruct (B2 _ Hw2) as (w3 & ? & ? & ?). exists w3. split_and!; congruence.
Qed.

(** Which steps keep a watcher. *)
Lemma keeps_watcher n j n' w w' :
  jws j !! n' = Some w -> (n = n' -> mark w' = mark w /\ releaseClosed w' = releaseClosed w) ->
  keeps n j (set_ws (<[n' := w']> (jws j)) j).
Proof.
  intros Hw Hk. split; [done|]. cbn [jws set_ws]. intros v Hv. destruct (decide (n = n')) as [<-|Hne].
  - rewrite Hw in Hv. injection Hv as <-. exists w'. rewrite list_lookup_insert_eq by (by eapply lookup_lt_Some).
    split; [done|]. by apply Hk.
  - exists v. by rewrite list_lookup_insert_ne.
Qed.

Lemma watcher_read_same x d (w : watcher P) : mark (watcher_read x d w) = mark w /\ releaseClosed (watcher_read x d w) = releaseClosed w.
Proof. unfold watcher_read. by repeat case_match. Qed.

Lemma job_step_keeps n j j' : job_step j j' -> keeps n j j'.
Proof.
  intros Hs. destruct Hs as [p Hf Hb|Hf Hb|Hb|p Hb|Hb|Hf Hst|Hf|Hf|n' w d Hn Hw|n' w d p Hn Hw|n' w Hn Hw Hr|n' w Hn Hw Hr|n' w Hn Hw Hb];
    try (split; [done|]; intros w Hw; by exists w).
  - destruct p; cbn; [|split; [done|]; intros w Hw; by exists w]. split; [done|]. cbn. intros w Hw.
    rewrite list_lookup_imap, Hw. cbn. eexists. split; [done|]. unfold signalled. by repeat case_match.
  - eapply keeps_watcher; [done|]. intros _. apply watcher_read_same.
  - by eapply keeps_watcher.
  - by eapply keeps_watcher.
  - by eapply keeps_watcher.
  - assert (Hk : keeps n j (set_ws (<[n' := goto (WRead true) w]> (jws j)) j)) by (by eapply keeps_watcher). exact Hk.
Qed.

Lemma job_watch_keeps n j : keeps n j (job_watch j).1.
Proof.
  split; cbn; [intros; split; [set_solver|done]|]. intros w Hw. exists w. split; [by apply lookup_app_l_Some|done].
Qed.

Lemma job_watch_new j : XInv j -> watching (length (jws j)) (job_watch j).1.
Proof.
  intros HX. split; [cbn; set_solver|]. eexists. split; [cbn; by rewrite lookup_app_r, Nat.sub_diag by lia|done].
Qed.

Lemma job_release_keeps n n' j : n <> n' -> keeps n j (job_release n' j).
Proof.
  intros Hne. unfold job_release, release. split; cbn.
  - intros Hin. assert (Hl : n ∈ watchers (jx j) ∖ {[n']}) by set_solver. split; [done|]. intros ->.
    rewrite bool_decide_false; [done|]. set_solver.
  - intros w Hw. exists w. by rewrite list_lookup_alter_ne.
Qed.

Lemma job_release_detached n j : watching n j -> detached n false (job_release n j).
Proof.
  intros (_ & w & Hw & Hm & Hr). exists (set_mark (length (received j)) w). cbn. by rewrite list_lookup_alter_eq, Hw.
Qed.

(** ** The invariant *)

Record MInv m : Prop := {
  mi_jobs : JInv 0 m;
  mi_calls i k : calls m !! i = Some k -> CallOk (jobs m) k;
  mi_own i i' k k' o : calls m !! i = Some k -> calls m !! i' = Some k' -> owns k = Some o -> owns k' = Some o -> i = i';
  mi_lock i : mu m = Some i <-> exists k, calls m !! i = Some k /\ locks k = true;
  mi_panic : panicked m = false }.

Lemma CallOk_owns l k t n : CallOk l k -> owns k = Some (t, n) -> exists j w, l !! t = Some j /\ jws j !! n = Some w.
Proof.
  destruct k as [| |key t' n'|key t'|t' n'|a t' n'|a t' n'|]; cbn [CallOk owns]; try done; intros Hok [= -> ->].
  - destruct Hok as (j & Hj & _ & w & Hw & _). by exists j, w.
  - destruct Hok as (j & Hj & (_ & w & Hw & _) & _). by exists j, w.
  - destruct Hok as (j & Hj & w & Hw & _). by exists j, w.
  - destruct Hok as (j & Hj & w & Hw & _). by exists j, w.
Qed.

(** Nothing but the transfers changes. *)
Lemma MInv_jobs_step m m' :
  MInv m -> JInv 0 m' -> calls m' = calls m -> mu m' = mu m -> panicked m' = panicked m ->
  (forall i k, calls m !! i = Some k -> jobs_keep k (jobs m) (jobs m')) -> MInv m'.
Proof.
  intros [Hj Hc Ho Hl Hp] Hj' Ec Em Ep Hk. split; rewrite ?Ec, ?Em, ?Ep; try done.
  intros i k Hi. eapply CallOk_keep; [by eapply Hk|by eapply Hc].
Qed.

(** A call moves. *)
Lemma MInv_call_step m m1 i k k' lock :
  MInv m -> calls m !! i = Some k -> JInv 0 m1 -> calls m1 = calls m -> panicked m1 = panicked m ->
  (forall i' k0, i' <> i -> calls m !! i' = Some k0 -> jobs_keep k0 (jobs m) (jobs m1)) ->
  CallOk (jobs m1) k' ->
  (forall o, owns k' = Some o -> owns k = Some o \/ forall i' k0, calls m !! i' = Some k0 -> owns k0 <> Some o) ->
  lock = (if locks k' then Some i else if locks k then None else mu m) ->
  (locks k' = true -> locks k = true \/ mu m = None) ->
  MInv (set_call i k' lock m1).
Proof.
  intros [Hj Hc Ho Hl Hp] Hi Hj1 Ec Ep Hk Hok Hown Hlock Hfree.
  assert (Hlt : (i < length (calls m))%nat) by (by eapply lookup_lt_Some).
  split; cbn [jobs calls mu panicked set_call]; rewrite ?Ec, ?Ep; try done.
  - by eapply JInv_ext; [..|exact Hj1].
  - intros i' k0 [(<- & <- & _)|[Hne Hi']]%list_lookup_insert_Some; [done|].
    eapply CallOk_keep; [by apply (Hk i')|by eapply Hc].
  - intros i1 i2 k1 k2 o [(<- & <- & _)|[Hne1 H1]]%list_lookup_insert_Some [(<- & <- & _)|[Hne2 H2]]%list_lookup_insert_Some O1 O2; [done| | |by eapply Ho].
    + destruct (Hown o O1) as [O|Hf]; [by eapply Ho|by destruct (Hf _ _ H2)].
    + destruct (Hown o O2) as [O|Hf]; [by eapply Ho|by destruct (Hf _ _ H1)].
  - intros i'. rewrite Hlock. destruct (locks k') eqn:Hlk'.
    + split; [intros [= <-]; exists k'; by rewrite list_lookup_insert_eq|].
      intros (k0 & [(<- & <- & _)|[Hne Hi']]%list_lookup_insert_Some & Hlk0); [done|]. exfalso.
      assert (Hmu : mu m = Some i') by (apply Hl; by exists k0). destruct (Hfree eq_refl) as [Hlk|?]; [|congruence].
      assert (Hmu' : mu m = Some i) by (apply Hl; by exists k). congruence.
    + destruct (locks k) eqn:Hlk.
      * split; [done|]. intros (k0 & [(<- & <- & _)|[Hne Hi']]%list_lookup_insert_Some & Hlk0); [congruence|]. exfalso.
        assert (Hmu : mu m = Some i') by (apply Hl; by exists k0). assert (Hmu' : mu m = Some i) by (apply Hl; by exists k). congruence.
      * rewrite Hl. split.
        -- intros (k0 & Hi' & Hlk0). exists k0. rewrite list_lookup_insert_ne; [done|]. intros <-. congruence.
        -- intros (k0 & [(<- & <- & _)|[Hne Hi']]%list_lookup_insert_Some & Hlk0); [congruence|by exists k0].
Qed.

(** The mutex is held by the call that runs. *)
Lemma locks_mu m i k : MInv m -> calls m !! i = Some k -> locks k = true -> mu m = Some i.
Proof. intros HM Hi Hl. apply (mi_lock _ HM). by exists k. Qed.

Lemma transfer_loop_ok m i key : MInv m -> calls m !! i = Some (KLoop key) -> MInv (transfer_loop i key m).
Proof.
  intros HM Hi. pose proof HM as [Hj Hc Ho Hl Hp]. pose proof (locks_mu _ _ _ HM Hi eq_refl) as Hmu.
  unfold transfer_loop. destruct (transfers m !! key) as [t|] eqn:Ht.
  - apply (ji_map _ _ Hj) in Ht as Hx. destruct Hx as (j & b & Hjt & Hk & Hb). rewrite Hjt.
    destruct (job_watch j) as [j' n] eqn:Hw. pose proof (ji_jobs _ _ Hj _ _ Hjt) as HX.
    assert (Hj' : j' = (job_watch j).1) by (by rewrite Hw).
    assert (Hn : n = length (jws j)) by (unfold job_watch in Hw; cbn in Hw; congruence).
    assert (Hlt : (t < length (jobs m))%nat) by (by eapply lookup_lt_Some).
    eapply (MInv_call_step m _ i (KLoop key)); try done.
    + eapply JInv_set_job; [done|done|rewrite Hj'; apply job_watch_inv; eauto| | |]; by rewrite Hj'.
    + intros i' k0 Hne Hi'. eapply jobs_keep_insert; [done|]. intros n' _. rewrite Hj'. apply job_watch_keeps.
    + exists j'. cbn [jobs set_jobs]. rewrite list_lookup_insert_eq by done. split; [done|]. rewrite Hn, Hj'. by apply job_watch_new.
    + intros o [= <-]. right. intros i' k0 Hi' Hown. destruct (CallOk_owns _ _ _ _ (Hc _ _ Hi') Hown) as (x & w & Hx & Hwx).
      rewrite Hjt in Hx. injection Hx as <-. apply lookup_lt_Some in Hwx. lia.
    + by left.
  - assert (Hjn : jobs (transfer_new key m) = (jobs m ++ [newJob key ((concurrencyLimit m =? 0) || (activeTransfers m <? concurrencyLimit m))])%list).
    { unfold transfer_new. by destruct (_ || _). }
    eapply (MInv_call_step m _ i (KLoop key)); try done.
    + by apply transfer_new_ok.
    + unfold transfer_new. by destruct (_ || _).
    + unfold transfer_new. by destruct (_ || _).
    + intros i' k0 _ _. rewrite Hjn. apply jobs_keep_app.
    + eexists. rewrite Hjn. rewrite lookup_app_r, Nat.sub_diag by lia. split; [done|]. split; [|done].
      split; [cbn; set_solver|]. by eexists.
    + intros o [= <-]. right. intros i' k0 Hi' Hown. destruct (CallOk_owns _ _ _ _ (Hc _ _ Hi') Hown) as (x & w & Hx & Hwx).
      apply lookup_lt_Some in Hx. lia.
Qed.

(** [release], from both callers. *)
Lemma MInv_release m i k a t n j :
  MInv m -> calls m !! i = Some k -> owns k = Some (t, n) -> jobs m !! t = Some j -> watching n j ->
  locks (KRelease a t n) = locks k ->
  MInv (set_call i (KRelease a t n) (mu m) (set_jobs (<[t := job_release n j]> (jobs m)) m)).
Proof.
  intros HM Hi Hown Hjt Hw Hlk. pose proof HM as [Hj Hc Ho Hl Hp]. pose proof Hw as (Hin & w & Hwn & Hm & Hr).
  eapply (MInv_call_step m _ i k); try done.
  - eapply JInv_set_job; [done|done|eapply job_release_inv; try done; by eapply ji_jobs|done..].
  - intros i' k0 Hne Hi'. eapply jobs_keep_insert; [done|]. intros n' Hown'. apply job_release_keeps. intros ->.
    by apply Hne, (Ho _ _ _ _ (t, n) Hi' Hi).
  - exists (job_release n j). cbn [jobs set_jobs]. rewrite list_lookup_insert_eq by (by eapply lookup_lt_Some).
    split; [done|]. by apply job_release_detached.
  - intros o Hown'. left. cbn in Hown'. congruence.
  - rewrite Hlk. destruct (locks k) eqn:E; [|done]. by eapply locks_mu.
  - rewrite Hlk. by left.
Qed.

(** The goroutine of the manager. *)
Lemma inactivate_keeps m j : JInv 0 m -> start j = true -> forall k, jobs_keep k (jobs m) (jobs (inactivate j m)).
Proof.
  intros HJ Hs k. destruct (inactivate_ok m j HJ Hs) as (_ & _ & _ & _ & _ & _ & [->|(t & x & Hx & _ & ->)]).
  - apply jobs_keep_refl.
  - eapply jobs_keep_insert; [done|]. intros n _. split; [done|]. intros w Hw. by exists w.
Qed.

Lemma jobs_keep_set_m k l t s : jobs_keep k l (alter (set_m s) t l).
Proof.
  intros t' j Hj. exists (if decide (t = t') then set_m s j else j). split; [apply set_m_lookup; by exists j|].
  intros n _. case_decide; [split; [done|]; intros w Hw; by exists w|apply keeps_refl].
Qed.

(** The transfer itself is not touched by [inactivate]. *)
Lemma inactivate_lookup m t j :
  JInv 0 m -> start j = true -> jobs m !! t = Some j -> jobs (inactivate j m) !! t = Some j.
Proof.
  intros HJ Hs Ht. destruct (inactivate_ok m j HJ Hs) as (_ & _ & _ & _ & _ & _ & [->|(t' & x & Hx & Hsx & ->)]); [done|].
  rewrite list_lookup_insert_ne; [done|]. intros ->. congruence.
Qed.

Lemma on_inactive_ok m t j :
  MInv m -> jobs m !! t = Some j -> jm j = MWatch true -> inactive j = true -> MInv (on_inactive t j m).
Proof.
  intros HM Hjt Hm Hin. pose proof (mi_jobs _ HM) as HJ. pose proof (ji_jobs _ _ HJ _ _ Hjt) as HX.
  pose proof (xi_inactive _ HX Hin) as Hs. destruct (inactivate_ok m j HJ Hs) as (HJ1 & Ht & Hmu & Hc & Hp & _).
  eapply MInv_jobs_step; try done.
  - unfold on_inactive. eapply JInv_ext; [..|apply (JInv_set_m 1 (inactivate j m) t j (MWatch false) (transfers (inactivate j m)))]; try done.
    + by apply inactivate_lookup.
    + apply XInv_m; [done|done|done|done|congruence].
    + unfold slot. by rewrite Hs, Hm.
    + intros key t'. split; [|by intros [? _]]. intros ?. split; [done|]. intros _. by exists false.
    + by exists true.
  - intros i k Hi. eapply jobs_keep_trans; [by apply inactivate_keeps|apply jobs_keep_set_m].
Qed.

Lemma on_done_ok m t j b :
  MInv m -> jobs m !! t = Some j -> jm j = MWatch b -> runningClosed (jx j) = true -> MInv (on_done t j b m).
Proof.
  intros HM Hjt Hm Hr. pose proof (mi_jobs _ HM) as HJ. pose proof (ji_jobs _ _ HJ _ _ Hjt) as HX.
  pose proof (ended_started _ HX Hr) as Hs. destruct (inactivate_ok m j HJ Hs) as (HJ1 & Ht & Hmu & Hc & Hp & _).
  unfold on_done. set (m1 := if b then inactivate j m else m).
  assert (Hm1 : JInv (Z.b2z b) m1 /\ transfers m1 = transfers m /\ mu m1 = mu m /\ calls m1 = calls m /\
    panicked m1 = panicked m /\ jobs m1 !! t = Some j /\ forall k, jobs_keep k (jobs m) (jobs m1)).
  { unfold m1. destruct b; [|split_and!; try done; intros k; apply jobs_keep_refl].
    split_and!; try done; [by apply inactivate_lookup|by apply inactivate_keeps]. }
  destruct Hm1 as (HJm & Htm & Hmum & Hcm & Hpm & Hjm & Hkm). eapply MInv_jobs_step; try done.
  - eapply (JInv_set_m (Z.b2z b)); try done.
    + by apply XInv_m; [done..|rewrite Hm].
    + unfold slot. rewrite Hs, Hm. by destruct b.
    + intros key t'. rewrite lookup_delete_Some, Htm. split.
      * intros [Hne Hk]. split; [done|]. intros ->. apply (ji_map _ _ HJ) in Hk as (x & b' & Hx & Hkx & _). congruence.
      * intros [Hk Himp]. split; [|done]. intros <-. apply (ji_map _ _ HJ) in Hk as Hx.
        assert (Hself : transfers m !! jkey j = Some t) by (apply (ji_map _ _ HJ); by exists j, b).
        destruct Himp as [? ?]; [congruence|done].
    + by exists b.
  - intros i k Hi. eapply jobs_keep_trans; [apply Hkm|apply jobs_keep_set_m].
Qed.

Lemma on_close_ok m t j : MInv m -> jobs m !! t = Some j -> jm j = MClosing -> MInv (on_close t j m).
Proof.
  intros HM Hjt Hm. pose proof (mi_jobs _ HM) as HJ. pose proof (ji_jobs _ _ HJ _ _ Hjt) as HX.
  unfold on_close. destruct (close_inv j HX Hm) as (x & Hx & HX'). rewrite Hx.
  assert (Hkeep : forall n, keeps n j (set_m MEnd (set_x x j))).
  { intros n. unfold close in Hx. repeat case_match; simplify_eq; (split; [done|]); intros w Hw; by exists w. }
  eapply MInv_jobs_step; try done; [|intros i k Hi; eapply jobs_keep_insert; [done|auto]].
  eapply JInv_set_job; try done. intros b. cbn. by rewrite Hm.
Qed.

Lemma manager_step_ok m m' : MInv m -> step m m' -> MInv m'.
Proof.
  intros HM Hs. pose proof HM as [Hj Hc Ho Hl Hp].
  destruct Hs as [t j j' Hjt Hs|key|n Hmu|i key Hi Hmu|i key Hi|i key t n j Hi Hjt Hctx|i key t n j Hi Hjt Hctx|i t n j Hi Hjt
    |i a t n j w Hi Hjt Hw|i t n j w Hi Hjt Hw Hd|i key t n j w Hi Hjt Hw Hd|i key t j Hi Hjt Hr|t j Hjt Hm Hin Hmu|t j b Hjt Hm Hr Hmu|t j Hjt Hm].
  - eapply MInv_jobs_step; try done.
    + assert (Hf : jkey j' = jkey j /\ start j' = start j /\ jm j' = jm j) by (destruct Hs as [| | |[]| | | | | | | | |]; done).
      destruct Hf as (Hk & Hst & Hm). eapply JInv_set_job; try done; [|by rewrite Hm]. eapply job_step_inv; [by eapply ji_jobs|done].
    + intros i k Hi. eapply jobs_keep_insert; [done|]. intros n _. by apply job_step_keeps.
  - split; cbn; try done.
    + by eapply JInv_ext; [..|exact Hj].
    + intros i k [Hi|[_ [_ <-]%list_lookup_singleton_Some]]%lookup_app_Some; [by eapply Hc|done].
    + intros i i' k k' o [Hi|[_ [_ <-]%list_lookup_singleton_Some]]%lookup_app_Some; [|done].
      intros [Hi'|[_ [_ <-]%list_lookup_singleton_Some]]%lookup_app_Some; [by eapply Ho|done].
    + intros i. rewrite Hl. split; intros (k & Hi & Hk); exists k; (split; [|done]); [by apply lookup_app_l_Some|].
      by apply lookup_app_Some in Hi as [?|[_ [_ <-]%list_lookup_singleton_Some]].
  - eapply MInv_jobs_step; try done; [by eapply JInv_ext; [..|exact Hj]|]. intros i k _. apply jobs_keep_refl.
  - eapply (MInv_call_step m m i (KStart key)); try done; [intros; apply jobs_keep_refl|by right].
  - by apply transfer_loop_ok.
  - eapply (MInv_call_step m m i (KCheck key t n)); try done; [intros; apply jobs_keep_refl| |by left].
    destruct (Hc _ _ Hi) as (x & Hx & Hw). exists x. split_and!; [done|done|]. congruence.
  - destruct (Hc _ _ Hi) as (x & Hx & Hw). rewrite Hjt in Hx. injection Hx as <-. by eapply MInv_release.
  - destruct (Hc _ _ Hi) as (x & Hx & Hw & _). rewrite Hjt in Hx. injection Hx as <-. by eapply MInv_release.
  - destruct (Hc _ _ Hi) as (x & Hx & y & Hy & Hm & Hr). rewrite Hjt in Hx. injection Hx as <-.
    rewrite Hw in Hy. injection Hy as <-. rewrite Hr.
    eapply (MInv_call_step m _ i (KRelease a t n)); try done.
    + eapply JInv_set_job; try done. apply close_release_inv; [by eapply ji_jobs|done|done].
    + intros i' k0 Hne Hi'. eapply jobs_keep_insert; [done|]. intros n' Hown. eapply keeps_watcher; [done|]. intros ->.
      by destruct Hne; apply (Ho _ _ _ _ (t, n) Hi' Hi).
    + eexists. cbn [jobs set_jobs]. rewrite list_lookup_insert_eq by (by eapply lookup_lt_Some). split; [done|].
      exists (set_releaseClosed w). cbn [jws set_ws]. by rewrite list_lookup_insert_eq by (by eapply lookup_lt_Some).
    + auto.
    + destruct a; [|done]. by eapply locks_mu.
    + destruct a; [by left|done].
  - eapply (MInv_call_step m m i (KWait None t n)); try done. intros; apply jobs_keep_refl.
  - eapply (MInv_call_step m m i (KWait (Some key) t n)); try done; [intros; apply jobs_keep_refl|by exists j].
  - eapply (MInv_call_step m m i (KRetry key t)); try done. intros; apply jobs_keep_refl.
  - by apply on_inactive_ok.
  - by apply on_done_ok.
  - by apply on_close_ok.
Qed.

Lemma MInv_new limit : MInv (newTransferManager limit).
Proof.
  split; try done.
  - split; try done; cbn.
    + intros key t. split; [by rewrite lookup_empty|]. by intros (j & b & Hj & _).
    + intros t. split; [by intros []%elem_of_nil|]. by intros (j & Hj & _).
    + constructor.
  - intros i. split; [done|]. by intros (k & Hk & _).
Qed.

Lemma manager_reachable_inv limit m : rtc step (newTransferManager limit) m -> MInv m.
Proof.
  intros Hr. remember (newTransferManager limit) as m0. assert (H0 : MInv m0) by (subst; apply MInv_new). clear Heqm0.
  induction Hr as [|m0 m1 m2 Hs _ IH]; [done|]. apply IH. by eapply manager_step_ok.
Qed.
End Manager.
