(* ===== verification/TransferTheorems.v ===== *)
(** * Transfers of layers: theorems

    For every interleaving of calls, transfers and goroutines: the slots are accounted for
    and the queue is served in order, a transfer that somebody holds is not cancelled and is
    the only one of its key that runs, a watcher that has been released has printed what was
    sent before its release, no channel is closed twice, and a release always comes to its
    end without anything further from the transfer. *)

From Stdlib Require Import String Sorting.Sorted.
From S2P Require Import Prelude Transfer TransferSpec TransferSteps.
From stdpp Require Import gmap strings list.

Local Open Scope Z_scope.

Section Theorems.
Context {P : Type} `{EqDecision P}.
Implicit Types (j : job P) (m : manager P).

(** ** Scheduling *)

(** Steps while the limit stays within bounds. *)
Definition stepIn (lo hi : Z) m m' : Prop := step m m' /\ lo <= concurrencyLimit m' <= hi.

(** What a step does to the count and the queue. *)
Inductive sched m m' : Prop :=
| sc_same : activeTransfers m' = activeTransfers m -> waitingTransfers m' = waitingTransfers m ->
    (forall t j, jobs m' !! t = Some j -> start j = true -> exists j0, jobs m !! t = Some j0 /\ start j0 = true) -> sched m m'
| sc_start : activeTransfers m' = activeTransfers m + 1 -> waitingTransfers m' = waitingTransfers m ->
    concurrencyLimit m' = concurrencyLimit m ->
    concurrencyLimit m = 0 \/ activeTransfers m < concurrencyLimit m ->
    (forall t j, jobs m' !! t = Some j -> start j = true ->
       t = length (jobs m) \/ exists j0, jobs m !! t = Some j0 /\ start j0 = true) -> sched m m'
| sc_queue : activeTransfers m' = activeTransfers m -> waitingTransfers m' = (waitingTransfers m ++ [length (jobs m)])%list ->
    concurrencyLimit m' = concurrencyLimit m ->
    concurrencyLimit m <> 0 -> concurrencyLimit m <= activeTransfers m ->
    (forall t j, jobs m' !! t = Some j -> start j = true -> exists j0, jobs m !! t = Some j0 /\ start j0 = true) -> sched m m'
| sc_next w rest : waitingTransfers m = w :: rest -> waitingTransfers m' = rest -> activeTransfers m' = activeTransfers m ->
    concurrencyLimit m' = concurrencyLimit m ->
    (forall t j, jobs m' !! t = Some j -> start j = true -> t = w \/ exists j0, jobs m !! t = Some j0 /\ start j0 = true) -> sched m m'
| sc_free : waitingTransfers m = [] -> waitingTransfers m' = [] -> activeTransfers m' = activeTransfers m - 1 ->
    concurrencyLimit m' = concurrencyLimit m ->
    (forall t j, jobs m' !! t = Some j -> start j = true -> exists j0, jobs m !! t = Some j0 /\ start j0 = true) -> sched m m'.

Lemma start_insert (l : list (job P)) t j j' :
  l !! t = Some j -> start j' = start j ->
  forall t' x, <[t := j']> l !! t' = Some x -> start x = true -> exists j0, l !! t' = Some j0 /\ start j0 = true.
Proof.
  intros Ht Hs t' x [(<- & <- & _)|[_ Hx]]%list_lookup_insert_Some Hsx; [exists j; split; [done|congruence]|by exists x].
Qed.

Lemma start_set_m (l : list (job P)) t s t' x :
  alter (set_m s) t l !! t' = Some x -> start x = true -> exists j0, l !! t' = Some j0 /\ start j0 = true.
Proof. intros (y & Hy & ->)%set_m_lookup Hs. exists y. split; [done|]. by case_decide. Qed.

Lemma inactivate_sched m j :
  JInv 0 m -> start j = true ->
  let m' := inactivate j m in
  (exists w rest, waitingTransfers m = w :: rest /\ waitingTransfers m' = rest /\ activeTransfers m' = activeTransfers m /\
     (forall t j, jobs m' !! t = Some j -> start j = true -> t = w \/ exists j0, jobs m !! t = Some j0 /\ start j0 = true)) \/
  (waitingTransfers m = [] /\ waitingTransfers m' = [] /\ activeTransfers m' = activeTransfers m - 1 /\ jobs m' = jobs m).
Proof.
  intros HJ Hs. cbv zeta. unfold inactivate. rewrite Hs. destruct (waitingTransfers m) as [|w rest] eqn:Hq; [by right|left].
  destruct (proj1 (ji_waiting _ _ HJ w)) as (x & Hx & Hsx); [rewrite Hq; by left|].
  exists w, rest. unfold close_start. rewrite Hx, Hsx. cbn. split_and!; try done.
  intros t y [(<- & <- & _)|[_ Hy]]%list_lookup_insert_Some Hsy; [by left|right; by exists y].
Qed.

Lemma inactivate_limit m j : concurrencyLimit (inactivate j m) = concurrencyLimit m.
Proof. unfold inactivate, close_start. by repeat case_match. Qed.

Lemma step_sched m m' : MInv m -> step m m' -> sched m m'.
Proof.
  intros HM Hs. pose proof (mi_jobs _ HM) as HJ.
  destruct Hs as [t j j' Hjt Hs|key|n Hmu|i key Hi Hmu|i key Hi|i key t n j Hi Hjt Hctx|i key t n j Hi Hjt Hctx|i t n j Hi Hjt
    |i a t n j w Hi Hjt Hw|i t n j w Hi Hjt Hw Hd|i key t n j w Hi Hjt Hw Hd|i key t j Hi Hjt Hr|t j Hjt Hm Hin Hmu|t j b Hjt Hm Hr Hmu|t j Hjt Hm];
    try (by apply sc_same; [..|intros t0 x Hx Hsx; exists x]).
  - apply sc_same; [done..|]. eapply start_insert; [done|]. by destruct Hs as [| | |[]| | | | | | | | |].
  - unfold transfer_loop. destruct (transfers m !! key) as [t|]; [destruct (jobs m !! t) as [j|] eqn:Hjt|].
    + apply sc_same; [done..|]. by eapply start_insert.
    + apply sc_same; [done..|]. intros t' x Hx Hsx. by exists x.
    + unfold transfer_new. destruct (_ || _) eqn:Hb.
      * apply sc_start; try done; [apply orb_true_iff in Hb as [?|?]; [left|right]; lia|].
        cbn. intros t x [Hx|[Hge [Ht Hx]%list_lookup_singleton_Some]]%lookup_app_Some Hsx; [right; by exists x|left].
        lia.
      * apply orb_false_iff in Hb as [? ?]. apply sc_queue; try done; [lia..|].
        cbn. intros t x [Hx|[_ [Ht Hx]%list_lookup_singleton_Some]]%lookup_app_Some Hsx; [by exists x|]. by subst x.
  - apply sc_same; [done..|]. by eapply start_insert.
  - apply sc_same; [done..|]. by eapply start_insert.
  - destruct (releaseClosed w); (apply sc_same; [done..|]); [intros t' x Hx Hsx; by exists x|by eapply start_insert].
  - pose proof (ji_jobs _ _ HJ _ _ Hjt) as HX. pose proof (xi_inactive _ HX Hin) as Hst.
    destruct (inactivate_sched m j HJ Hst) as [(w & rest & H1 & H2 & H3 & H4)|(H1 & H2 & H3 & H4)].
    + eapply sc_next; try done; [by apply inactivate_limit|]. intros t' x Hx Hsx.
      destruct (start_set_m _ _ _ _ _ Hx Hsx) as (y & Hy & Hsy). by eapply H4.
    + apply sc_free; try done; [by apply inactivate_limit|]. intros t' x Hx Hsx.
      destruct (start_set_m _ _ _ _ _ Hx Hsx) as (y & Hy & Hsy). rewrite H4 in Hy. by exists y.
  - pose proof (ji_jobs _ _ HJ _ _ Hjt) as HX. pose proof (ended_started _ HX Hr) as Hst. unfold on_done. destruct b.
    + destruct (inactivate_sched m j HJ Hst) as [(w & rest & H1 & H2 & H3 & H4)|(H1 & H2 & H3 & H4)].
      * eapply sc_next; try done; [by apply inactivate_limit|]. intros t' x Hx Hsx.
        destruct (start_set_m _ _ _ _ _ Hx Hsx) as (y & Hy & Hsy). by eapply H4.
      * apply sc_free; try done; [by apply inactivate_limit|]. intros t' x Hx Hsx.
        destruct (start_set_m _ _ _ _ _ Hx Hsx) as (y & Hy & Hsy). rewrite H4 in Hy. by exists y.
    + apply sc_same; [done..|]. intros t' x Hx Hsx. exact (start_set_m _ _ _ _ _ Hx Hsx).
  - unfold on_close. destruct (close (jx j)); (apply sc_same; [done..|]); [by eapply start_insert|intros t' x Hx Hsx; by exists x].
Qed.

(** The count and the queue, while the limit is between [lo] and [hi]. *)
Record Sched (lo hi : Z) m : Prop := {
  sd_limit : lo <= concurrencyLimit m <= hi;
  sd_bound : activeTransfers m <= hi;
  sd_busy : waitingTransfers m <> [] -> lo <= activeTransfers m;
  sd_fifo : lo = hi -> forall t t' j, t ∈ waitingTransfers m -> jobs m !! t' = Some j -> start j = true -> (t' < t)%nat }.

Lemma step_Sched lo hi m m' : 1 <= lo -> MInv m -> Sched lo hi m -> stepIn lo hi m m' -> Sched lo hi m'.
Proof.
  intros Hlo HM [Hl Hb Hu Hf] [Hs Hl']. pose proof (step_sched _ _ HM Hs) as Hsc. pose proof (mi_jobs _ HM) as HJ.
  destruct Hsc as [Ha Hw Hj|Ha Hw Hc Hr Hj|Ha Hw Hc Hr Hge Hj|w rest Hw Hw' Ha Hc Hj|Hw Hw' Ha Hc Hj]; 
    (split; [by rewrite ?Hc| | |]); rewrite ?Ha, ?Hw, ?Hw'.
  - done.
  - done.
  - intros He t t' j Ht Hx Hsx. destruct (Hj _ _ Hx Hsx) as (j0 & Hj0 & Hs0). by eapply Hf.
  - lia.
  - intros ?%Hu. lia.
  - intros He t t' j Ht Hx Hsx. exfalso.
    assert (Hne : waitingTransfers m <> []) by (intros E; rewrite E in Ht; by apply elem_of_nil in Ht).
    apply Hu in Hne. lia.
  - done.
  - intros _. lia.
  - intros He t t' j [Ht| ->%list_elem_of_singleton]%elem_of_app Hx Hsx; destruct (Hj _ _ Hx Hsx) as (j0 & Hj0 & Hs0).
    + by eapply Hf.
    + by eapply lookup_lt_Some.
  - done.
  - intros _. apply Hu. by rewrite Hw.
  - intros He t t' j Ht Hx Hsx. destruct (Hj _ _ Hx Hsx) as [->|(j0 & Hj0 & Hs0)].
    + pose proof (ji_sorted _ _ HJ) as Hso. rewrite Hw in Hso. apply StronglySorted_inv in Hso as [_ Hhd].
      rewrite Forall_forall in Hhd. by apply Hhd.
    + eapply Hf; [done| |done|done]. rewrite Hw. by right.
  - lia.
  - done.
  - intros He t t' j. by intros []%elem_of_nil.
Qed.

(** C28: slots of transfers.  For every interleaving in which the limit is kept between [lo]
    and [hi], the number of active transfers is the number of transfers that have been
    started and have neither become inactive nor ended, it never exceeds [hi], and transfers
    wait only while at least [lo] are active.  The queue has exactly the transfers that have
    not been started, the oldest one first; under a constant limit transfers are started in
    the order in which they were asked for. *)
Theorem transfer_slots lo hi limit m :
  1 <= lo -> lo <= limit <= hi -> rtc (stepIn lo hi) (newTransferManager limit) m ->
  activeTransfers m = slots (jobs m) /\ activeTransfers m <= hi /\
  (waitingTransfers m <> [] -> lo <= activeTransfers m) /\
  StronglySorted lt (waitingTransfers m) /\
  (forall t, t ∈ waitingTransfers m <-> exists j, jobs m !! t = Some j /\ start j = false) /\
  (lo = hi -> forall t t' j, t ∈ waitingTransfers m -> jobs m !! t' = Some j -> start j = true -> (t' < t)%nat).
Proof.
  intros Hlo Hlim Hr. assert (HI : MInv m /\ Sched lo hi m).
  { remember (newTransferManager limit) as m0. assert (H0 : MInv m0 /\ Sched lo hi m0).
    { subst. split; [apply MInv_new|]. split; cbn; try done; try lia; by intros _ t t' j []%elem_of_nil. }
    clear Heqm0. induction Hr as [|m0 m1 m2 Hs _ IH]; [done|]. apply IH. destruct H0 as [HM0 HS0].
    split; [eapply manager_step_ok; [done|apply Hs]|by eapply step_Sched]. }
  destruct HI as [HM [_ Hb Hu Hf]]. destruct (mi_jobs _ HM) as [_ _ Hw Hso Ha]. split_and!; try done. lia.
Qed.

(** ** Holding a transfer *)

(** C30: a transfer that somebody holds is alive.  While a call that has returned a transfer
    has not released it, that transfer is not cancelled, [released] is not closed, and until
    it has ended it is the transfer of its key in the manager: two holders of one key whose
    transfers have not ended have the same transfer. *)
Theorem transfer_held_alive limit m i t n :
  rtc step (newTransferManager limit) m -> calls m !! i = Some (KHold t n) ->
  exists j, jobs m !! t = Some j /\ n ∈ watchers (jx j) /\
    ctxDone (jx j) = false /\ releasedClosed (jx j) = false /\
    (runningClosed (jx j) = false -> transfers m !! jkey j = Some t) /\
    (forall i' t' n' j', calls m !! i' = Some (KHold t' n') -> jobs m !! t' = Some j' -> jkey j' = jkey j ->
       runningClosed (jx j) = false -> runningClosed (jx j') = false -> t' = t).
Proof.
  intros Hr Hi. pose proof (manager_reachable_inv _ _ Hr) as HM. pose proof (mi_jobs _ HM) as HJ.
  destruct (mi_calls _ HM _ _ Hi) as (j & Hjt & [Hin Hw] & Hctx). exists j.
  assert (Hkey : forall t' j', jobs m !! t' = Some j' -> runningClosed (jx j') = false -> transfers m !! jkey j' = Some t').
  { intros t' j' Hj' Hrun. apply (ji_map _ _ HJ). pose proof (ji_jobs _ _ HJ _ _ Hj') as HX'.
    destruct (jm j') as [b| |] eqn:Hm; [by exists j', b| |]; rewrite (xi_over _ HX') in Hrun by tauto; done. }
  split_and!; try done.
  - apply not_true_iff_false. intros [_ He]%(xi_released _ (ji_jobs _ _ HJ _ _ Hjt)). set_solver.
  - by apply Hkey.
  - intros i' t' n' j' _ Hj' Hk H1 H2. pose proof (Hkey _ _ Hj' H2). pose proof (Hkey _ _ Hjt H1). congruence.
Qed.

(** ** Watching *)

(** A released watcher stays marked. *)
Lemma step_mark m m' t n j w :
  MInv m -> step m m' -> jobs m !! t = Some j -> jws j !! n = Some w -> is_Some (mark w) ->
  exists j' w', jobs m' !! t = Some j' /\ jws j' !! n = Some w' /\ mark w' = mark w.
Proof.
  intros HM Hs Ht Hn Hm. pose proof HM as [HJ Hc _ _ _].
  assert (Hkeep : jobs_keep (KHold t n) (jobs m) (jobs m') ->
    exists j' w', jobs m' !! t = Some j' /\ jws j' !! n = Some w' /\ mark w' = mark w).
  { intros Hk. destruct (Hk _ _ Ht) as (j' & Hj' & Hn'). destruct (proj2 (Hn' n eq_refl) _ Hn) as (w' & ? & ? & _). by exists j', w'. }
  assert (Hrel : forall t' n' j0, jobs m !! t' = Some j0 -> watching n' j0 ->
    jobs_keep (KHold t n) (jobs m) (<[t' := job_release n' j0]> (jobs m))).
  { intros t' n' j0 Hj0 (_ & w0 & Hw0 & Hm0 & _). eapply jobs_keep_insert; [done|]. intros n1 [= <- <-].
    apply job_release_keeps. intros <-. rewrite Ht in Hj0. injection Hj0 as <-. rewrite Hn in Hw0. injection Hw0 as <-.
    rewrite Hm0 in Hm. by destruct Hm. }
  destruct Hs as [t0 j0 j' Hjt Hs|key|l Hmu|i key Hi Hmu|i key Hi|i key t0 l j0 Hi Hjt Hctx|i key t0 l j0 Hi Hjt Hctx|i t0 l j0 Hi Hjt
    |i a t0 l j0 w0 Hi Hjt Hw|i t0 l j0 w0 Hi Hjt Hw Hd|i key t0 l j0 w0 Hi Hjt Hw Hd|i key t0 j0 Hi Hjt Hr|t0 j0 Hjt Hmm Hin Hmu|t0 j0 b Hjt Hmm Hr Hmu|t0 j0 Hjt Hmm];
    try (by apply Hkeep, jobs_keep_refl).
  - apply Hkeep. eapply jobs_keep_insert; [done|]. intros n0 _. by apply job_step_keeps.
  - unfold transfer_loop in *. destruct (transfers m !! key) as [t0|]; [destruct (jobs m !! t0) as [j0|] eqn:Hjt|].
    + apply Hkeep. eapply jobs_keep_insert; [done|]. intros n0 _. apply job_watch_keeps.
    + by apply Hkeep, jobs_keep_refl.
    + apply Hkeep. unfold transfer_new. destruct (_ || _); apply jobs_keep_app.
  - apply Hkeep. destruct (Hc _ _ Hi) as (x & Hx & Hw). rewrite Hjt in Hx. injection Hx as <-. by apply Hrel.
  - apply Hkeep. destruct (Hc _ _ Hi) as (x & Hx & Hw & _). rewrite Hjt in Hx. injection Hx as <-. by apply Hrel.
  - destruct (releaseClosed w0); [by apply Hkeep, jobs_keep_refl|]. cbn [jobs set_call set_jobs].
    destruct (decide (t0 = t)) as [->|Hne]; [|exists j, w; by rewrite list_lookup_insert_ne].
    rewrite Ht in Hjt. injection Hjt as <-. rewrite list_lookup_insert_eq by (by eapply lookup_lt_Some).
    eexists. destruct (decide (l = n)) as [->|Hne].
    + rewrite Hn in Hw. injection Hw as <-. exists (set_releaseClosed w). split; [done|].
      cbn [jws set_ws]. by rewrite list_lookup_insert_eq by (by eapply lookup_lt_Some).
    + exists w. split; [done|]. cbn [jws set_ws]. by rewrite list_lookup_insert_ne.
  - apply Hkeep. pose proof (xi_inactive _ (ji_jobs _ _ HJ _ _ Hjt) Hin) as Hst.
    eapply jobs_keep_trans; [by apply inactivate_keeps|apply jobs_keep_set_m].
  - apply Hkeep. pose proof (ended_started _ (ji_jobs _ _ HJ _ _ Hjt) Hr) as Hst.
    eapply jobs_keep_trans; [|apply jobs_keep_set_m]. destruct b; [by apply inactivate_keeps|apply jobs_keep_refl].
  - apply Hkeep. unfold on_close. destruct (close (jx j0)) as [x|] eqn:Hx; [|apply jobs_keep_refl].
    eapply jobs_keep_insert; [done|]. intros n0 _. unfold close in Hx.
    repeat case_match; simplify_eq; (split; [done|]); intros v Hv; by exists v.
Qed.

Lemma rtc_mark m m' t n j w :
  MInv m -> rtc step m m' -> jobs m !! t = Some j -> jws j !! n = Some w -> is_Some (mark w) ->
  MInv m' /\ exists j' w', jobs m' !! t = Some j' /\ jws j' !! n = Some w' /\ mark w' = mark w.
Proof.
  intros HM Hr. revert j w. induction Hr as [m|m m1 m2 Hs _ IH]; intros j w Hj Hw Hm; [split; [done|by exists j, w]|].
  destruct (step_mark _ _ _ _ _ _ HM Hs Hj Hw Hm) as (j1 & w1 & Hj1 & Hw1 & E).
  destruct (IH (manager_step_ok _ _ HM Hs) _ _ Hj1 Hw1) as (HM2 & j2 & w2 & ? & ? & ?); [by rewrite E|].
  split; [done|]. exists j2, w2. split_and!; congruence.
Qed.

(** C29: a watcher misses nothing that was sent before it was released.  When a call of
    [release] finds the goroutine of its watcher ended, the last progress that this goroutine
    wrote is one that the transfer sent at the time of the release or later: it is the
    event at a position [k] that is at least the number of events received when the release
    began (nothing, if none had been sent and none was).  Watchers of transfers whose progress
    had already ended have no goroutine. *)
Theorem watcher_sees_all limit m i t n j m1 m2 j2 w2 :
  rtc step (newTransferManager limit) m -> calls m !! i = Some (KHold t n) -> jobs m !! t = Some j ->
  m1 = set_call i (KRelease None t n) (mu m) (set_jobs (<[t := job_release n j]> (jobs m)) m) ->
  rtc step m1 m2 -> jobs m2 !! t = Some j2 -> jws j2 !! n = Some w2 ->
  wst w2 = WDead -> silent w2 = false ->
  exists k, (length (received j) <= k <= length (received j2))%nat /\ last (output w2) = lastAt (received j2) k.
Proof.
  intros Hr Hi Hj -> Hr2 Hj2 Hw2 Hd Hsil. pose proof (manager_reachable_inv _ _ Hr) as HM.
  destruct (mi_calls _ HM _ _ Hi) as (x & Hx & (_ & w & Hw & _) & _). rewrite Hj in Hx. injection Hx as <-.
  assert (Hs : step m (set_call i (KRelease None t n) (mu m) (set_jobs (<[t := job_release n j]> (jobs m)) m))) by by apply st_release.
  destruct (rtc_mark _ _ t n (job_release n j) (set_mark (length (received j)) w) (manager_step_ok _ _ HM Hs) Hr2) as (HM2 & j' & w' & Hj' & Hw' & Hm').
  { cbn [jobs set_call set_jobs]. by rewrite list_lookup_insert_eq by (by eapply lookup_lt_Some). }
  { cbn. by rewrite list_lookup_alter_eq, Hw. }
  { by eexists. }
  rewrite Hj2 in Hj'. injection Hj' as <-. rewrite Hw2 in Hw'. injection Hw' as <-. cbn [mark set_mark] in Hm'.
  pose proof (ji_jobs _ _ (mi_jobs _ HM2) _ _ Hj2) as HX. pose proof (xi_ws _ HX _ _ Hw2) as HW.
  pose proof (wi_state _ _ HW) as Hst. rewrite Hd in Hst. destruct Hst as [?|(k & Hk & Hl & Hca)]; [congruence|].
  pose proof (processed_le j2). pose proof (wi_mark _ _ HW _ Hm'). exists k. split; [|done].
  destruct Hca as [[_ ->]|(a & Ha & Hak)]; [lia|]. rewrite Hm' in Ha. injection Ha as <-. lia.
Qed.

(** no channel is closed twice in any interleaving, and [released] of a transfer is
    closed exactly when the manager has dropped the transfer and closed it and all of its
    watchers have been released. *)
Theorem transfer_released_exact limit m :
  rtc step (newTransferManager limit) m ->
  panicked m = false /\
  forall t j, jobs m !! t = Some j ->
    (releasedClosed (jx j) = true <-> jm j = MEnd /\ watchers (jx j) = ∅) /\
    (jm j = MEnd -> runningClosed (jx j) = true /\ transfers m !! jkey j <> Some t).
Proof.
  intros Hr. pose proof (manager_reachable_inv _ _ Hr) as HM. pose proof (mi_jobs _ HM) as HJ. split; [apply HM|].
  intros t j Hj. pose proof (ji_jobs _ _ HJ _ _ Hj) as HX. rewrite (xi_released _ HX), (xi_closed _ HX). split; [done|].
  intros Hm. split; [apply (xi_over _ HX); by right|]. intros (x & b & Hx & _ & Hb)%(ji_map _ _ HJ). congruence.
Qed.

(** ** Releasing ends *)

(** Steps of the broadcaster and of watchers, without the function of the transfer. *)
Definition quiet j j' : Prop := job_step j j' /\ received j' = received j /\ jfn j' = jfn j.

(** The watcher [n] can come to its end. *)
Definition ends (n : nat) j : Prop := exists j' w', rtc quiet j j' /\ jws j' !! n = Some w' /\ wst w' = WDead.

Lemma ends_step n j j' : quiet j j' -> ends n j' -> ends n j.
Proof. intros Hq (j1 & w1 & Hr & ?). exists j1, w1. split; [by eapply rtc_l|done]. Qed.

Lemma set_ws_lookup n w w' j : jws j !! n = Some w -> jws (set_ws (<[n := w']> (jws j)) j) !! n = Some w'.
Proof. intros Hw. cbn. apply list_lookup_insert_eq. by eapply lookup_lt_Some. Qed.

Lemma ends_write n w p j : jws j !! n = Some w -> wst w = WWrite true p -> ends n j.
Proof.
  intros Hw Hs. eapply ends_step; [split; [by eapply js_write|done]|]. eexists _, _. split; [apply rtc_refl|].
  split; [by eapply set_ws_lookup|done].
Qed.

Lemma ends_read n w j : jws j !! n = Some w -> wst w = WRead true -> ends n j.
Proof.
  intros Hw Hs. eapply ends_step; [split; [by eapply js_read|done]|].
  pose proof (set_ws_lookup n w (watcher_read (jx j) true w) j Hw) as Hl.
  assert (Hr : wst (watcher_read (jx j) true w) = WDead \/ exists p, wst (watcher_read (jx j) true w) = WWrite true p).
  { unfold watcher_read. repeat case_match; eauto. }
  destruct Hr as [Hr|[p Hr]]; [|by eapply ends_write]. eexists _, _. split; [apply rtc_refl|]. by split.
Qed.

(** At its ping or with the transfer over. *)
Lemma ends_running n w j : jws j !! n = Some w -> wst w = WSelect \/ wst w = WSync -> runningClosed (jx j) = true -> ends n j.
Proof.
  intros Hw Hs Hr. eapply ends_step; [split; [by eapply js_running|done]|].
  eapply ends_read; [by eapply set_ws_lookup|done].
Qed.

Lemma ends_sync_inner n w j : jws j !! n = Some w -> wst w = WSync -> jb j = BInner -> ends n j.
Proof.
  intros Hw Hs Hb. eapply ends_step; [split; [by eapply js_sync|done]|].
  eapply (ends_read n (goto (WRead true) w)); [|done]. cbn. apply list_lookup_insert_eq. by eapply lookup_lt_Some.
Qed.

Lemma ends_sync n w j : XInv j -> jws j !! n = Some w -> wst w = WSync -> ends n j.
Proof.
  intros HX Hw Hs.
  assert (Houter : forall j w, jws j !! n = Some w -> wst w = WSync -> jb j = BOuter -> ends n j).
  { intros j1 w1 Hw1 Hs1 Hb1. eapply ends_step; [split; [by apply js_inner|done]|]. by eapply ends_sync_inner. }
  assert (Hending : forall j w, jws j !! n = Some w -> wst w = WSync -> jb j = BEnding -> ends n j).
  { intros j1 w1 Hw1 Hs1 Hb1. eapply ends_step; [split; [by apply js_stop|done]|]. eapply ends_running; [done|by right|done]. }
  destruct (jb j) as [| |p| |] eqn:Hb.
  - by eapply Houter.
  - by eapply ends_sync_inner.
  - eapply ends_step; [split; [by apply js_handle|by destruct p]|]. destruct p as [p|].
    + eapply (Houter _ (signalled (jx j) n w)); [cbn; by rewrite list_lookup_imap, Hw| |done]. unfold signalled. by rewrite Hs.
    + by eapply Hending.
  - by eapply Hending.
  - eapply ends_running; [done|by right|]. by apply (xi_running _ HX).
Qed.

Lemma ends_select n w j : XInv j -> jws j !! n = Some w -> wst w = WSelect -> releaseClosed w = true -> ends n j.
Proof.
  intros HX Hw Hs Hr. assert (Hq : job_step j (set_ws (<[n := goto WSync w]> (jws j)) j)) by by eapply js_released.
  eapply ends_step; [by split|]. eapply ends_sync; [by eapply job_step_inv|by eapply set_ws_lookup|done].
Qed.

Lemma ends_released n w j : XInv j -> jws j !! n = Some w -> releaseClosed w = true -> ends n j.
Proof.
  intros HX Hw Hr. destruct (wst w) as [[]|[] p| | |] eqn:Hs.
  - by eapply ends_read.
  - assert (Hq : job_step j (set_ws (<[n := watcher_read (jx j) false w]> (jws j)) j)) by by eapply js_read.
    eapply ends_step; [by split|]. pose proof (job_step_inv _ _ HX Hq) as HX1.
    pose proof (set_ws_lookup n w (watcher_read (jx j) false w) j Hw) as Hl.
    pose proof (watcher_read_same (jx j) false w) as [_ Hrc]. rewrite Hr in Hrc.
    assert (Hc : wst (watcher_read (jx j) false w) = WSelect \/ exists p, wst (watcher_read (jx j) false w) = WWrite false p).
    { unfold watcher_read. repeat case_match; eauto. }
    destruct Hc as [Hc|[p Hc]]; [by eapply ends_select|].
    assert (Hq2 : job_step _ (set_ws (<[n := watcher_write false p (watcher_read (jx j) false w)]> (jws (set_ws (<[n := watcher_read (jx j) false w]> (jws j)) j)))
      (set_ws (<[n := watcher_read (jx j) false w]> (jws j)) j))) by by eapply js_write.
    eapply ends_step; [by split|]. eapply ends_select; [by eapply job_step_inv|by eapply set_ws_lookup|done|done].
  - by eapply ends_write.
  - assert (Hq : job_step j (set_ws (<[n := watcher_write false p w]> (jws j)) j)) by by eapply js_write.
    eapply ends_step; [by split|]. eapply ends_select; [by eapply job_step_inv|by eapply set_ws_lookup|done|done].
  - by eapply ends_select.
  - by eapply ends_sync.
  - exists j, w. split; [apply rtc_refl|done].
Qed.

Lemma rtc_quiet_step m t j j' :
  jobs m !! t = Some j -> rtc quiet j j' -> rtc step m (set_jobs (<[t := j']> (jobs m)) m).
Proof.
  intros Hj Hr. revert m Hj. induction Hr as [j|j j1 j2 [Hs _] _ IH]; intros m Hj.
  - rewrite list_insert_id by done. destruct m. apply rtc_refl.
  - eapply rtc_l; [by eapply st_job|]. specialize (IH (set_jobs (<[t := j1]> (jobs m)) m)).
    cbn [jobs set_jobs] in IH. rewrite list_insert_insert_eq in IH. apply IH.
    apply list_lookup_insert_eq. by eapply lookup_lt_Some.
Qed.

(** a release comes to its end.  Whenever a call waits in [release] for the goroutine of
    its watcher, even a call of [transfer] that has the mutex of the manager meanwhile, the
    goroutine can come to its end by steps of watchers and of the broadcaster alone: nothing
    more has to be sent, the transfer does not have to end, and no other call has to move. *)
Theorem release_returns limit m i a t n :
  rtc step (newTransferManager limit) m -> calls m !! i = Some (KWait a t n) ->
  exists j j' w', jobs m !! t = Some j /\ rtc quiet j j' /\ jws j' !! n = Some w' /\ wst w' = WDead /\
    rtc step m (set_jobs (<[t := j']> (jobs m)) m).
Proof.
  intros Hr Hi. pose proof (manager_reachable_inv _ _ Hr) as HM.
  destruct (mi_calls _ HM _ _ Hi) as (j & Hj & w & Hw & _ & Hrc). pose proof (ji_jobs _ _ (mi_jobs _ HM) _ _ Hj) as HX.
  destruct (ends_released n w j HX Hw Hrc) as (j' & w' & Hq & Hw' & Hd). exists j, j', w'. split_and!; try done.
  by eapply rtc_quiet_step.
Qed.
End Theorems.

(** ** A concrete run

    A manager with one slot; call 0 asks for [a] and gets it started, call 1 asks for [b],
    which waits.  [a] sends one event, then call 0 releases it. *)
Definition at_job (t : nat) (f : job nat -> job nat) (m : manager nat) : manager nat :=
  match jobs m !! t with Some j => set_jobs (<[t := f j]> (jobs m)) m | None => m end.
Definition at_watcher (n : nat) (f : job nat -> watcher nat -> watcher nat) (j : job nat) : job nat :=
  match jws j !! n with Some w => set_ws (<[n := f j w]> (jws j)) j | None => j end.
Definition called (key : string) (m : manager nat) : manager nat :=
  mkManager (concurrencyLimit m) (activeTransfers m) (transfers m) (waitingTransfers m) (mu m) (jobs m)
    (calls m ++ [KStart key]) (panicked m).

Lemma step_at t f (m : manager nat) j : jobs m !! t = Some j -> job_step j (f j) -> step m (at_job t f m).
Proof. intros Hj Hs. unfold at_job. rewrite Hj. by eapply st_job. Qed.

Definition c0 : manager nat := newTransferManager 1.
Definition c3 := transfer_loop 0 "a" (set_call 0 (KLoop "a") (Some 0%nat) (called "a" c0)).
Definition c6 := transfer_loop 1 "b" (set_call 1 (KLoop "b") (Some 1%nat) (called "b" c3)).
Definition c9 := at_job 0 (broadcast_handle (Some 7%nat)) (at_job 0 (receive 7%nat) (at_job 0 (fun j => set_fn FActive (inactive j) j) c6)).
Definition j9 : job nat := default (newJob "" false) (jobs c9 !! 0%nat).
Definition c10 := set_call 0 (KRelease None 0 0) (mu c9) (set_jobs (<[0%nat := job_release 0 j9]> (jobs c9)) c9).
Definition j10 : job nat := job_release 0 j9.
Definition w10 : watcher nat := default (mkWatcher WDead None [] true true None) (jws j10 !! 0%nat).
Definition c11 := set_call 0 (KWait None 0 0) (mu c10)
  (set_jobs (<[0%nat := set_ws (<[0%nat := set_releaseClosed w10]> (jws j10)) j10]> (jobs c10)) c10).
Definition c12 := at_job 0 (at_watcher 0 (fun j => watcher_read (jx j) false)) c11.
Definition c13 := at_job 0 (at_watcher 0 (fun _ => watcher_write false 7%nat)) c12.
Definition c14a := at_job 0 (at_watcher 0 (fun _ => goto WSync)) c13.
Definition c14 := at_job 0 (set_b BInner) c14a.
Definition c15 := at_job 0 (fun j => set_b BOuter (at_watcher 0 (fun _ => goto (WRead true)) j)) c14.
Definition c16 := at_job 0 (at_watcher 0 (fun j => watcher_read (jx j) true)) c15.

Lemma c6_run : rtc (stepIn 1 1) c0 c6.
Proof.
  eapply rtc_l; [split; [apply (st_call c0 "a")|done]|].
  eapply rtc_l; [split; [by apply (st_lock _ 0 "a")|done]|].
  eapply rtc_l; [split; [by apply (st_loop _ 0 "a")|done]|].
  eapply rtc_l; [split; [apply (st_call c3 "b")|done]|].
  eapply rtc_l; [split; [by apply (st_lock _ 1 "b")|done]|].
  eapply rtc_l; [split; [by apply (st_loop _ 1 "b")|done]|]. apply rtc_refl.
Qed.

Lemma c9_run : rtc step c0 c9.
Proof.
  etrans; [eapply (rtc_subrel (stepIn 1 1) step); [by intros ? ? []|apply c6_run]|].
  eapply rtc_l; [eapply (step_at 0 _ c6); [reflexivity|by apply js_fn_start]|].
  eapply rtc_l; [eapply (step_at 0); [reflexivity|by apply js_send]|].
  eapply rtc_l; [eapply (step_at 0); [reflexivity|by apply js_handle]|]. apply rtc_refl.
Qed.

Lemma c11_run : rtc step c10 c11.
Proof. apply rtc_once. exact (st_close_release c10 0 None 0 0 j10 w10 eq_refl eq_refl eq_refl). Qed.

Lemma c16_run : rtc step c10 c16.
Proof.
  etrans; [apply c11_run|].
  apply (rtc_l step c11 c12); [eapply (step_at 0); [reflexivity|by apply (js_read _ 0)]|].
  apply (rtc_l step c12 c13); [eapply (step_at 0); [reflexivity|by apply (js_write _ 0)]|].
  apply (rtc_l step c13 c14a); [eapply (step_at 0); [reflexivity|by apply (js_released _ 0)]|].
  apply (rtc_l step c14a c14); [eapply (step_at 0); [reflexivity|by apply js_inner]|].
  apply (rtc_l step c14 c15); [eapply (step_at 0); [reflexivity|by apply (js_sync _ 0)]|].
  apply (rtc_l step c15 c16); [eapply (step_at 0); [reflexivity|by apply (js_read _ 0)]|]. apply rtc_refl.
Qed.

Lemma transfer_slots_witness : waitingTransfers c6 = [1%nat] /\ activeTransfers c6 = slots (jobs c6) /\ activeTransfers c6 <= 1.
Proof.
  destruct (transfer_slots 1 1 1 c6 ltac:(lia) ltac:(lia) c6_run) as (H1 & H2 & _).
  split; [reflexivity|]. split; [exact H1|exact H2].
Defined.

Lemma transfer_held_alive_witness : exists j, jobs c9 !! 0%nat = Some j /\ ctxDone (jx j) = false /\ lastProgress (jx j) = Some 7%nat.
Proof.
  destruct (transfer_held_alive 1 c9 0 0 0 c9_run eq_refl) as (j & Hj & _ & Hc & _). exists j.
  split; [exact Hj|]. split; [exact Hc|]. injection Hj as <-. reflexivity.
Defined.

Definition j16 : job nat := default (newJob "" false) (jobs c16 !! 0%nat).
Definition w16 : watcher nat := default (mkWatcher WDead None [] true true None) (jws j16 !! 0%nat).

Lemma watcher_sees_all_witness :
  exists k, (1 <= k <= 1)%nat /\ last (output w16) = lastAt [7%nat] k.
Proof.
  assert (H9 : jobs c9 !! 0%nat = Some j9) by (vm_compute; reflexivity).
  assert (Hj : jobs c16 !! 0%nat = Some j16) by (vm_compute; reflexivity).
  assert (Hw : jws j16 !! 0%nat = Some w16) by (vm_compute; reflexivity).
  assert (Hd : wst w16 = WDead /\ silent w16 = false) by (vm_compute; split; reflexivity).
  assert (Hr : received j9 = [7%nat] /\ received j16 = [7%nat]) by (vm_compute; split; reflexivity).
  destruct (watcher_sees_all 1 c9 0 0 0 j9 c10 c16 j16 w16 c9_run eq_refl H9 eq_refl c16_run Hj Hw (proj1 Hd) (proj2 Hd))
    as (k & Hk & Hl).
  rewrite (proj1 Hr), (proj2 Hr) in Hk. rewrite (proj2 Hr) in Hl. exists k. split; [exact Hk|exact Hl].
Defined.

Lemma transfer_released_exact_witness : panicked c9 = false.
Proof. apply (transfer_released_exact 1 c9 c9_run). Defined.

Lemma release_returns_witness :
  exists j j' w', jobs c11 !! 0%nat = Some j /\ rtc quiet j j' /\ jws j' !! 0%nat = Some w' /\ wst w' = WDead.
Proof.
  destruct (release_returns 1 c11 0 None 0 0) as (j & j' & w' & H1 & H2 & H3 & H4 & _).
  - etrans; [apply c9_run|]. eapply rtc_l; [by apply (st_release c9 0 0 0 j9)|]. apply c11_run.
  - reflexivity.
  - exists j, j', w'. split; [exact H1|]. split; [exact H2|]. split; [exact H3|exact H4].
Defined.
