(* ===== verification/VolumeStore.v ===== *)
(** * The volume store

    Model of [daemon/volume/service/store.go], [db.go] and [restore.go] (volumes known by
    name, their references, labels, options and metadata on disk), of the driver store
    [daemon/volume/drivers/extpoint.go], and of the combinators of [by.go].

    A call runs under the lock of the name of its volume and is one function of the state.
    Drivers and the plugin getter are a class; contexts that end and database writes that fail
    are arguments. *)

From Stdlib Require Import String.
From S2P Require Import Prelude.
From stdpp Require Import gmap strings list.

Local Open Scope string_scope.

Record driver := mkDriver { dName : string; dScope : string }.
Record plugin := mkPlugin { plDriver : driver; plV1 : bool }.

(** A volume as a driver returns it. *)
Record vol := mkVol { vName : string; vDriverName : string }.

Inductive derr := NoErr | NetErr | OtherErr.

(** Drivers and plugins: [pluginGet] is [Get] of the plugin getter with the change of the
    reference count, [allPlugins] its [GetAllByCap]. *)
Class VolumeDrivers (E : Type) := {
  pluginGet : string -> Z -> E -> E * option plugin;
  allPlugins : E -> option (list plugin);
  drvGet : driver -> string -> E -> option vol * derr;
  drvCreate : driver -> string -> gmap string string -> E -> E * option vol;
  drvRemove : driver -> vol -> E -> E * bool;
  drvList : driver -> E -> option (list vol) }.

Inductive vErr :=
| ECtx            (* the context ended *)
| ENameConflict | EInUse | ENoSuchVolume
| EDriver         (* from a driver or the driver store *)
| EMismatch       (* the driver is not the stored one *)
| EDb             (* from the database *)
| EInvalid.

(** [volumeWrapper]; [wrapped] is [None] for a volume that is not wrapped. *)
Record details := mkDetails { dLabels : gmap string string; dScopeOf : string; dOptions : gmap string string }.
Record volw := mkVolw { wVol : vol; wrapped : option details }.
Definition Name (v : volw) : string := vName (wVol v).
Definition DriverName (v : volw) : string := vDriverName (wVol v).

(** [volumeMetadata] *)
Record volumeMetadata := mkMeta {
  mName : string; mDriver : string; mLabels : gmap string string; mOptions : gmap string string }.
Definition emptyMeta : volumeMetadata := mkMeta "" "" ∅ ∅.
Definition set_mDriver (d : string) (m : volumeMetadata) : volumeMetadata := mkMeta (mName m) d (mLabels m) (mOptions m).

Definition DefaultDriverName : string := "local".
Definition LocalScope : string := "local".
Definition GlobalScope : string := "global".
Definition RefLookup : Z := 0.
Definition RefAcquire : Z := 1.
Definition RefRelease : Z := -1.

(** Where a call looks at its context. *)
Inductive point := AtStart | AtPurge | AtNames | AtProbe (n : nat) | AtGlobal.

(** What befalls a call: whether the context has ended at a point, which accesses to the
    database fail, and the order in which a map of drivers is walked. *)
Record weather := mkWeather {
  ctxDone : point -> bool;
  getFails : bool;
  setFails : bool;
  delFails : bool;
  walk : list driver -> list driver }.

Section Store.
Context {E : Type} `{VolumeDrivers E}.

Record VolumeStore := mkStore {
  names : gmap string volw;
  refs : gmap string (gset string);
  labels : gmap string (gmap string string);
  options : gmap string (gmap string string);
  db : gmap string volumeMetadata;
  extensions : gmap string driver;
  env : E;
  events : list (string * string) }.   (* the action and the volume *)

Definition set_names x (s : VolumeStore) := mkStore x (refs s) (labels s) (options s) (db s) (extensions s) (env s) (events s).
Definition set_refs x (s : VolumeStore) := mkStore (names s) x (labels s) (options s) (db s) (extensions s) (env s) (events s).
Definition set_details l o (s : VolumeStore) := mkStore (names s) (refs s) l o (db s) (extensions s) (env s) (events s).
Definition set_db x (s : VolumeStore) := mkStore (names s) (refs s) (labels s) (options s) x (extensions s) (env s) (events s).
Definition set_ext x (s : VolumeStore) := mkStore (names s) (refs s) (labels s) (options s) (db s) x (env s) (events s).
Definition set_env x (s : VolumeStore) := mkStore (names s) (refs s) (labels s) (options s) (db s) (extensions s) x (events s).
Definition log_event a n (s : VolumeStore) :=
  mkStore (names s) (refs s) (labels s) (options s) (db s) (extensions s) (env s) (events s ++ [(a, n)]).

Abbreviation res A := (VolumeStore * (vErr + A))%type.

(** ** The driver store *)

Definition validateDriver (vd : driver) : bool := (dScope vd =? LocalScope) || (dScope vd =? GlobalScope).

Definition lookupDriver (name : string) (mode : Z) (s : VolumeStore) : res driver :=
  if name =? "" then (s, inl EInvalid)
  else match extensions s !! name with
  | Some ext => (s, inr ext)
  | None =>
      match pluginGet name mode (env s) with
      | (e, None) => (set_env e s, inl EDriver)
      | (e, Some p) =>
          let d := plDriver p in
          if validateDriver d then
            ((if plV1 p then set_ext (<[name := d]> (extensions s)) else id) (set_env e s), inr d)
          else (set_env (if (0 <? mode)%Z then (pluginGet name (mode * -1) e).1 else e) s, inl EDriver)
      end
  end.

Definition Register (d : driver) (name : string) (s : VolumeStore) : VolumeStore * bool :=
  if name =? "" then (s, false)
  else match extensions s !! name with
  | Some _ => (s, false)
  | None => if validateDriver d then (set_ext (<[name := d]> (extensions s)) s, true) else (s, false)
  end.

Definition GetDriver (name : string) := lookupDriver name RefLookup.
Definition CreateDriver (name : string) := lookupDriver name RefAcquire.
Definition ReleaseDriver (name : string) := lookupDriver name RefRelease.

(** The loop of [GetAllDrivers] over the plugins. *)
Fixpoint addPlugins (ps : list plugin) (ds : list driver) (s : VolumeStore) : VolumeStore * list driver :=
  match ps with
  | [] => (s, ds)
  | p :: ps =>
      let d := plDriver p in
      match extensions s !! dName d with
      | Some _ => addPlugins ps ds s
      | None => addPlugins ps (ds ++ [d]) (if plV1 p then set_ext (<[dName d := d]> (extensions s)) s else s)
      end
  end.

Definition GetAllDrivers (w : weather) (s : VolumeStore) : res (list driver) :=
  match allPlugins (env s) with
  | None => (s, inl EDriver)
  | Some ps => let '(s, ds) := addPlugins ps (walk w (map_to_list (extensions s)).*2) s in (s, inr ds)
  end.

(** ** Metadata *)

Definition getMeta (w : weather) (name : string) (s : VolumeStore) : vErr + volumeMetadata :=
  if getFails w then inl EDb else inr (default emptyMeta (db s !! name)).

Definition setMeta (w : weather) (name : string) (m : volumeMetadata) (s : VolumeStore) : res unit :=
  if setFails w then (s, inl EDb) else (set_db (<[name := m]> (db s)) s, inr tt).

Definition removeMeta (w : weather) (name : string) (s : VolumeStore) : VolumeStore :=
  if delFails w then s else set_db (delete name (db s)) s.

(** ** Names and references *)

Definition getNamed (name : string) (s : VolumeStore) : option volw := names s !! name.

Definition setNamed (v : volw) (ref : string) (s : VolumeStore) : VolumeStore :=
  let s := set_names (<[Name v := v]> (names s)) s in
  if ref =? "" then s
  else set_refs (<[Name v := {[ref]} ∪ default ∅ (refs s !! Name v)]> (refs s)) s.

Definition hasRef (name : string) (s : VolumeStore) : bool := (0 <? size (default ∅ (refs s !! name)))%nat.

Definition purge (w : weather) (name : string) (s : VolumeStore) : VolumeStore * option vErr :=
  if ctxDone w AtPurge then (s, Some ECtx)
  else
    let s := match names s !! name with Some v => (ReleaseDriver (DriverName v) s).1 | None => s end in
    let s := removeMeta w name s in
    (set_details (delete name (labels s)) (delete name (options s))
       (set_refs (delete name (refs s)) (set_names (delete name (names s)) s)), None).

(** ** Looking volumes up *)

Definition lookupVolume (driverName volumeName : string) (s : VolumeStore) : res (option vol) :=
  match GetDriver (if driverName =? "" then DefaultDriverName else driverName) s with
  | (s, inl e) => (s, inl e)
  | (s, inr vd) =>
      match drvGet vd volumeName (env s) with
      | (_, NetErr) => (s, inl EDriver)
      | (v, _) => (s, inr v)
      end
  end.

Definition volumeExists (v : volw) (s : VolumeStore) : res bool :=
  match lookupVolume (DriverName v) (Name v) s with
  | (s, inl e) => (s, inl e)
  | (s, inr o) => (s, inr (bool_decide (is_Some o)))
  end.

Definition checkConflict (w : weather) (name driverName : string) (s : VolumeStore) : res (option volw) :=
  match getNamed name s with
  | None => (s, inr None)
  | Some v =>
      let '(s, conflict) :=
        if driverName =? "" then (s, inr false)
        else match GetDriver driverName s with
             | (s, inl e) => (s, inl e)
             | (s, inr vd) => (s, inr (negb (DriverName v =? dName vd)))
             end in
      match conflict with
      | inl e => (s, inl e)
      | inr conflict =>
          match volumeExists v s with
          | (s, inl _) => (s, inl ENameConflict)
          | (s, inr true) => if conflict then (s, inl ENameConflict) else (s, inr (Some v))
          | (s, inr false) =>
              if hasRef (Name v) s then (s, inl ENameConflict)
              else ((purge w name s).1, inr None)
          end
      end
  end.

(** The loop of [getVolume] that asks every driver. *)
Fixpoint probe (w : weather) (name : string) (meta : volumeMetadata) (n : nat) (ds : list driver) (s : VolumeStore) : res volw :=
  match ds with
  | [] => (s, inl ENoSuchVolume)
  | d :: ds =>
      if ctxDone w (AtProbe n) then (s, inl ECtx)
      else match drvGet d name (env s) with
      | (Some v, NoErr) =>
          let meta := set_mDriver (vDriverName v) meta in
          match setMeta w name meta s with
          | (s, inl e) => (s, inl e)
          | (s, inr _) => (s, inr (mkVolw v (Some (mkDetails (mLabels meta) (dScope d) (mOptions meta)))))
          end
      | _ => probe w name meta (S n) ds s
      end
  end.

(** [getVolume] when the driver is known. *)
Definition getFrom (w : weather) (name : string) (meta : volumeMetadata) (s : VolumeStore) : res volw :=
  match lookupVolume (mDriver meta) name s with
  | (s, inl e) => (s, inl e)
  | (s, inr None) => ((purge w name s).1, inl ENoSuchVolume)
  | (s, inr (Some v)) =>
      let '(s, vd) := GetDriver (mDriver meta) s in
      let scope := match vd with inr d => dScope d | inl _ => "" end in
      (s, inr (mkVolw v (Some (mkDetails (mLabels meta) scope (mOptions meta)))))
  end.

Definition getVolume (w : weather) (name driverName : string) (s : VolumeStore) : res volw :=
  match getMeta w name s with
  | inl e => (s, inl e)
  | inr meta =>
      let meta := if (negb (driverName =? "")) && (mDriver meta =? "") then set_mDriver driverName meta else meta in
      if negb (driverName =? "") && negb (driverName =? mDriver meta) then (s, inl EMismatch)
      else
        let '(s, r) :=
          if mDriver meta =? "" then
            if ctxDone w AtNames then (s, inl ECtx)
            else match names s !! name with
            | Some v => let meta := set_mDriver (DriverName v) meta in
                match setMeta w name meta s with
                | (s, inl e) => (s, inl e)
                | (s, inr _) => (s, inr meta)
                end
            | None => (s, inr meta)
            end
          else (s, inr meta) in
        match r with
        | inl e => (s, inl e)
        | inr meta =>
            if negb (mDriver meta =? "") then getFrom w name meta s
            else match GetAllDrivers w s with
            | (s, inl e) => (s, inl e)
            | (s, inr ds) => probe w name meta 0 ds s
            end
        end
  end.

(** ** The calls *)

(** The end of [create]: a volume of the driver [driverName]. *)
Definition createIn (w : weather) (name driverName : string) (opts lbls : gmap string string) (s : VolumeStore)
    : res (volw * bool) :=
  match CreateDriver driverName s with
  | (s, inl e) => (s, inl e)
  | (s, inr vd) =>
      let '(s, v) :=
        match (drvGet vd name (env s)).1 with
        | Some v => (s, Some v)
        | None => let '(e, v) := drvCreate vd name opts (env s) in (set_env e s, v)
        end in
      match v with
      | None => ((ReleaseDriver driverName s).1, inl EDriver)
      | Some v =>
          let s := set_refs (<[name := ∅]> (refs s)) (set_details (<[name := lbls]> (labels s)) (<[name := opts]> (options s)) s) in
          match setMeta w name (mkMeta name (dName vd) lbls opts) s with
          | (s, inl e) => (s, inl e)
          | (s, inr _) => (s, inr (mkVolw v (Some (mkDetails lbls (dScope vd) opts)), true))
          end
      end
  end.

(** The check of the parser for Linux. *)
Definition ValidateVolumeName (name : string) : option vErr := None.

Definition create (w : weather) (name driverName : string) (opts lbls : gmap string string) (s : VolumeStore)
    : res (volw * bool) :=
  match ValidateVolumeName name with Some e => (s, inl e) | None =>
  match checkConflict w name driverName s with
  | (s, inl e) => (s, inl e)
  | (s, inr v) =>
      match v ≫= (fun v => getNamed (Name v) s) with
      | Some vv => (s, inr (vv, false))
      | None =>
          if driverName =? "" then
            match getVolume w name "" s with
            | (s, inr v) => (s, inr (v, false))
            | (s, inl _) => createIn w name DefaultDriverName opts lbls s
            end
          else createIn w name driverName opts lbls s
      end
  end
  end.

Definition Create (w : weather) (name driverName : string) (opts lbls : gmap string string) (ref : string) (s : VolumeStore)
    : res volw :=
  if ctxDone w AtStart then (s, inl ECtx)
  else match create w name driverName opts lbls s with
  | (s, inl e) => (s, inl e)
  | (s, inr (v, created)) => (setNamed v ref (if created then log_event "create" (Name v) s else s), inr v)
  end.

Definition Get (w : weather) (name driverName ref : string) (s : VolumeStore) : res volw :=
  match getVolume w name driverName s with
  | (s, inl e) => (s, inl e)
  | (s, inr v) =>
      if negb (driverName =? "") && negb (DriverName v =? driverName) then (s, inl EMismatch)
      else (setNamed v ref s, inr v)
  end.

Definition Remove (w : weather) (v : vol) (purgeOnError : bool) (s : VolumeStore) : res unit :=
  let name := vName v in
  if ctxDone w AtStart then (s, inl ECtx)
  else if hasRef name s then (s, inl EInUse)
  else match getVolume w name (vDriverName v) s with
  | (s, inl e) => (s, inl e)
  | (s, inr v) =>
      match GetDriver (DriverName v) s with
      | (s, inl e) => (s, inl e)
      | (s, inr vd) =>
          let '(e, ok) := drvRemove vd (wVol v) (env s) in
          let s := set_env e s in
          let '(s, perr) := if ok || purgeOnError then purge w name s else (s, None) in
          match ok, perr with
          | false, _ => (s, inl EDriver)
          | true, Some e => (s, inl e)
          | true, None => (log_event "destroy" (Name v) s, inr tt)
          end
      end
  end.

Definition Release (w : weather) (name ref : string) (s : VolumeStore) : res unit :=
  if ctxDone w AtStart then (s, inl ECtx)
  else if ctxDone w AtGlobal then (s, inl ECtx)
  else (match refs s !! name with
        | Some r => set_refs (<[name := r ∖ {[ref]}]> (refs s)) s
        | None => s
        end, inr tt).

Definition CountReferences (v : vol) (s : VolumeStore) : nat := size (default ∅ (refs s !! vName v)).

(** ** Restoring *)

(** The goroutine for one entry, with the weather of its calls; the result is the entry to
    remove from the database. *)
Definition restoreOne (w : weather) (meta : volumeMetadata) (s : VolumeStore) : VolumeStore * option volumeMetadata :=
  let cached v meta s :=
    let s := (CreateDriver (mDriver meta) s).1 in
    set_refs (<[Name v := ∅]> (refs s)) (set_names (<[Name v := v]> (names s))
      (set_details (<[Name v := mLabels meta]> (labels s)) (<[Name v := mOptions meta]> (options s)) s)) in
  if negb (mDriver meta =? "") then
    match lookupVolume (mDriver meta) (mName meta) s with
    | (s, inl _) => (s, None)
    | (s, inr None) => (s, Some meta)
    | (s, inr (Some v)) => (cached (mkVolw v None) meta s, None)
    end
  else
    match getVolume w (mName meta) (mDriver meta) s with
    | (s, inl ENoSuchVolume) => (s, Some meta)
    | (s, inl _) => (s, None)
    | (s, inr v) =>
        let meta := set_mDriver (DriverName v) meta in
        (cached v meta (setMeta w (Name v) meta s).1, None)
    end.

Fixpoint restoreAll (w : weather) (ms : list volumeMetadata) (s : VolumeStore) : VolumeStore * list volumeMetadata :=
  match ms with
  | [] => (s, [])
  | m :: ms =>
      let '(s, r) := restoreOne w m s in
      let '(s, rs) := restoreAll w ms s in
      (s, match r with Some m => m :: rs | None => rs end)
  end.

Definition restore (w : weather) (s : VolumeStore) : VolumeStore :=
  let '(s, stale) := restoreAll w (map_to_list (db s)).*2 s in
  set_db (foldr (fun m d => delete (mName m) d) (db s) stale) s.

(** [NewStore] on the metadata of an earlier daemon. *)
Definition NewStore (w : weather) (d : gmap string volumeMetadata) (ext : gmap string driver) (e : E) : VolumeStore :=
  restore w (mkStore ∅ ∅ ∅ ∅ d ext e []).

(** ** Listing *)

(** The volumes of a driver, wrapped. *)
Definition listDriver (d : driver) (s : VolumeStore) : option (list volw) :=
  map (fun v => mkVolw v (Some (mkDetails (default ∅ (labels s !! vName v)) (dScope d) (default ∅ (options s !! vName v)))))
    <$> drvList d (env s).

(** [list]; the warnings are the names of the drivers that failed. *)
Definition list_ (w : weather) (driverNames : option (list string)) (s : VolumeStore) : res (list volw * list string) :=
  match GetAllDrivers w s with
  | (s, inl e) => (s, inl e)
  | (s, inr all) =>
      let dls := match driverNames with
                 | None | Some [] => all
                 | Some ns => filter (fun d => dName d ∈ ns) all
                 end in
      let bad := map dName (filter (fun d => listDriver d s = None) dls) in
      let ls := mjoin (map (fun d => default [] (listDriver d s)) dls) in
      let cached := filter (fun v => DriverName v ∈ bad) (map_to_list (names s)).*2 in
      (s, inr (ls ++ cached, bad)%list)
  end.

(** [By] *)
Inductive By :=
| byNil
| byDriver (names : list string)
| ByReferenced (referenced : bool)
| andCombinator (bys : list By)
| orCombinator (bys : list By)
| CustomFilter (f : volw -> bool)
| FromList (vols : list volw) (by_ : By).

Definition filterByDriver (ns : list string) (v : volw) : bool := bool_decide (DriverName v ∈ ns).
Definition byReferenced (s : VolumeStore) (referenced : bool) (v : volw) : bool := Bool.eqb (hasRef (Name v) s) referenced.

(** [unique]: the first volume of each name. *)
Fixpoint unique (seen : list string) (l : list volw) : list volw :=
  match l with
  | [] => []
  | v :: l => if bool_decide (Name v ∈ seen) then unique seen l else v :: unique (Name v :: seen) l
  end.

(** The slice given, or one that [list] makes. *)
Definition orList (w : weather) (ns : option (list string)) (vols : option (list volw)) (s : VolumeStore) : res (list volw * list string) :=
  match vols with Some l => (s, inr (l, [])) | None => list_ w ns s end.

(** [append] to a slice that may be nil. *)
Definition appendTo (vols : option (list volw)) (ls : list volw) : option (list volw) :=
  match vols, ls with None, [] => None | _, _ => Some (default [] vols ++ ls)%list end.

(** [filter]: [vols] is [None] while the slice is nil. *)
Fixpoint filter_ (w : weather) (b : By) (vols : option (list volw)) (s : VolumeStore)
    : res (option (list volw) * list string) :=
  match b with
  | byNil =>
      match orList w None vols s with
      | (s, inl e) => (s, inl e)
      | (s, inr (l, warns)) => (s, inr (Some l, warns))
      end
  | byDriver ns =>
      match vols with
      | Some l => (s, inr (Some (List.filter (filterByDriver ns) l), []))
      | None =>
          match list_ w (Some ns) s with
          | (s, inl e) => (s, inl e)
          | (s, inr (l, warns)) => (s, inr (Some l, warns))
          end
      end
  | ByReferenced r =>
      match orList w None vols s with
      | (s, inl e) => (s, inl e)
      | (s, inr (l, warns)) => (s, inr (Some (List.filter (byReferenced s r) l), warns))
      end
  | CustomFilter f =>
      match orList w None vols s with
      | (s, inl e) => (s, inl e)
      | (s, inr (l, warns)) => (s, inr (Some (List.filter f l), warns))
      end
  | andCombinator bys =>
      (fix all bys vols warns s :=
         match bys with
         | [] => (s, inr (vols, warns))
         | b :: bys =>
             match filter_ w b vols s with
             | (s, inl e) => (s, inl e)
             | (s, inr (vols, w')) => all bys vols (warns ++ w')%list s
             end
         end) bys vols [] s
  | orCombinator bys =>
      (fix any bys vols warns s :=
         match bys with
         | [] => (s, inr (unique [] <$> vols, warns))
         | b :: bys =>
             match b with
             | byDriver _ =>
                 match filter_ w b None s with
                 | (s, inl e) => (s, inl e)
                 | (s, inr (_, w')) => any bys vols (warns ++ w')%list s
                 end
             | _ =>
                 match list_ w None s with
                 | (s, inl e) => (s, inl e)
                 | (s, inr (ls, w1)) =>
                     match filter_ w b (Some ls) s with
                     | (s, inl e) => (s, inl e)
                     | (s, inr (ls, w2)) => any bys (appendTo vols (default [] ls)) (warns ++ w1 ++ w2)%list s
                     end
                 end
             end
         end) bys vols [] s
  | FromList _ _ => (s, inl EInvalid)
  end.

(** [Find]: a volume whose name is stored for another driver is dropped.  [FromList] returns a
    pointer, which none of the cases of the type switch matches. *)
Definition Find (w : weather) (b : By) (s : VolumeStore) : res (list volw * list string) :=
  match b with
  | FromList _ _ => (s, inl EInvalid)
  | _ =>
      match filter_ w b None s with
      | (s, inl e) => (s, inl e)
      | (s, inr (vols, warns)) =>
          let keep v := match getNamed (Name v) s with Some st => DriverName st =? DriverName v | None => true end in
          (s, inr (List.filter keep (default [] vols), warns))
      end
  end.
End Store.
Arguments VolumeStore : clear implicits.
