(* ===== verification/VolumeStoreSpec.v ===== *)
(** * The volume store: what the operations touch

    Laws of honest drivers, the parts of the state that the driver store leaves alone, the
    invariant, and the effect of each call on the volume it is about and on the others. *)

From Stdlib Require Import String.
From S2P Require Import Prelude VolumeStore.
From stdpp Require Import gmap strings list.

Local Open Scope string_scope.

(** Drivers return volumes under the name asked for and under their own name. *)
Class HonestDrivers (E : Type) `{VolumeDrivers E} : Prop := {
  get_honest d n e v x : drvGet d n e = (Some v, x) -> vName v = n /\ vDriverName v = dName d;
  create_honest d n o e e' v : drvCreate d n o e = (e', Some v) -> vName v = n /\ vDriverName v = dName d }.

Section Spec.
Context {E : Type} `{HD : VolumeDrivers E} `{!HonestDrivers E}.
Implicit Types (s : VolumeStore E) (w : weather).

(** What is known of the volume [k]. *)
Definition core_at (k : string) s := (names s !! k, refs s !! k, labels s !! k, options s !! k, db s !! k).

(** Only the volume [n] is touched. *)
Definition frame (n : string) s s' : Prop := forall k, k <> n -> core_at k s' = core_at k s.

(** The driver store and the drivers alone are touched. *)
Definition quietly s s' : Prop :=
  names s' = names s /\ refs s' = refs s /\ labels s' = labels s /\ options s' = options s /\ db s' = db s.

Lemma quietly_refl s : quietly s s.
Proof. done. Qed.
Lemma quietly_trans s1 s2 s3 : quietly s1 s2 -> quietly s2 s3 -> quietly s1 s3.
Proof. unfold quietly. intros (?&?&?&?&?) (?&?&?&?&?). split_and!; congruence. Qed.
Lemma quietly_core k s s' : quietly s s' -> core_at k s' = core_at k s.
Proof. intros (H1 & H2 & H3 & H4 & H5). unfold core_at. by rewrite H1, H2, H3, H4, H5. Qed.
Lemma quietly_frame n s s' : quietly s s' -> frame n s s'.
Proof. intros Hq k _. by apply quietly_core. Qed.
Lemma frame_refl n s : frame n s s.
Proof. by intros k _. Qed.
Lemma frame_trans n s1 s2 s3 : frame n s1 s2 -> frame n s2 s3 -> frame n s1 s3.
Proof. intros H1 H2 k Hk. by rewrite (H2 k Hk), (H1 k Hk). Qed.

Lemma quietly_env e s : quietly s (set_env e s).
Proof. done. Qed.

Lemma lookup_quietly name mode s : quietly s (lookupDriver name mode s).1.
Proof.
  unfold lookupDriver. destruct (name =? ""); [done|]. destruct (extensions s !! name); [done|].
  destruct (pluginGet name mode (env s)) as [e [p|]]; [|done]. destruct (validateDriver _); [|done]. by destruct (plV1 p).
Qed.

Lemma addPlugins_quietly ps ds s : quietly s (addPlugins ps ds s).1.
Proof.
  revert ds s. induction ps as [|p ps IH]; intros ds s; [done|]. cbn [addPlugins]. destruct (extensions s !! _); [apply IH|].
  destruct (plV1 p); [|apply IH]. eapply quietly_trans; [|apply IH]. done.
Qed.

Lemma GetAllDrivers_quietly w s : quietly s (GetAllDrivers w s).1.
Proof.
  unfold GetAllDrivers. destruct (allPlugins (env s)) as [ps|]; [|done].
  pose proof (addPlugins_quietly ps (walk w (map_to_list (extensions s)).*2) s) as Hq. by destruct (addPlugins _ _ _).
Qed.

Lemma lookupVolume_quietly d n s : quietly s (lookupVolume d n s).1.
Proof.
  unfold lookupVolume, GetDriver. pose proof (lookup_quietly (if d =? "" then DefaultDriverName else d) RefLookup s) as Hq.
  destruct (lookupDriver _ _ s) as [s' [e|vd]]; [done|]. by destruct (drvGet vd n (env s')) as [v []].
Qed.

Lemma volumeExists_quietly v s : quietly s (volumeExists v s).1.
Proof.
  unfold volumeExists. pose proof (lookupVolume_quietly (DriverName v) (Name v) s) as Hq.
  by destruct (lookupVolume _ _ s) as [s' [e|o]].
Qed.

(** ** Changes of one volume *)

Lemma setMeta_frame w n m s : frame n s (setMeta w n m s).1.
Proof. unfold setMeta. destruct (setFails w); [done|]. intros k Hk. unfold core_at. cbn. by rewrite lookup_insert_ne. Qed.

Lemma setMeta_maps w n m s s' r : setMeta w n m s = (s', r) -> names s' = names s /\ refs s' = refs s.
Proof. unfold setMeta. destruct (setFails w); intros [= <- _]; done. Qed.

Lemma purge_frame w n s : frame n s (purge w n s).1.
Proof.
  unfold purge. destruct (ctxDone w AtPurge); [done|]. cbn [fst].
  set (s1 := match names s !! n with Some v => _ | None => s end).
  assert (Hq : quietly s s1) by (unfold s1; destruct (names s !! n); [apply lookup_quietly|done]).
  destruct Hq as (H1 & H2 & H3 & H4 & H5). intros k Hk. unfold core_at, removeMeta. destruct (delFails w); cbn;
    rewrite !lookup_delete_ne by congruence; by rewrite H1, H2, H3, H4, H5.
Qed.

(** After a purge nothing refers to the volume; a purge that does not happen changes nothing. *)
Lemma purge_effect w n s s' r :
  purge w n s = (s', r) -> (r = Some ECtx /\ s' = s) \/ (r = None /\ names s' = delete n (names s) /\ refs s' = delete n (refs s)).
Proof.
  unfold purge. destruct (ctxDone w AtPurge); [intros [= <- <-]; by left|]. intros [= <- <-]. right.
  set (s1 := match names s !! n with Some v => _ | None => s end).
  assert (Hq : quietly s s1) by (unfold s1; destruct (names s !! n); [apply lookup_quietly|done]).
  destruct Hq as (H1 & H2 & _). unfold removeMeta. destruct (delFails w); cbn; by rewrite H1, H2.
Qed.

Lemma setNamed_frame v ref s : frame (Name v) s (setNamed v ref s).
Proof.
  intros k Hk. unfold setNamed, core_at. destruct (ref =? ""); cbn; by rewrite ?lookup_insert_ne by congruence.
Qed.

(** [probe] and [getVolume]. *)
Lemma probe_effect w n meta i ds s s' r :
  probe w n meta i ds s = (s', r) ->
  frame n s s' /\ names s' = names s /\ refs s' = refs s /\ (forall v, r = inr v -> Name v = n).
Proof.
  revert i. induction ds as [|d ds IH]; intros i; cbn [probe]; [intros [= <- <-]; done|].
  destruct (ctxDone w (AtProbe i)); [intros [= <- <-]; done|]. destruct (drvGet d n (env s)) as [[v|] x] eqn:Hg; [|apply IH].
  destruct x; [|apply IH..]. destruct (setMeta w n _ s) as [s1 [e|u]] eqn:Hm; intros [= <- <-];
    pose proof (setMeta_maps _ _ _ _ _ _ Hm) as [? ?]; (split; [pose proof (setMeta_frame w n (set_mDriver (vDriverName v) meta) s) as Hf; by rewrite Hm in Hf|]);
    split_and!; try done. intros y [= <-]. unfold Name. cbn. by eapply get_honest.
Qed.

Lemma lookupVolume_name d n s s' v : lookupVolume d n s = (s', inr (Some v)) -> vName v = n.
Proof.
  unfold lookupVolume. destruct (GetDriver _ s) as [s1 [e|vd]]; [done|].
  destruct (drvGet vd n (env s1)) as [o x] eqn:Hg. destruct x; intros [= _ ->]; by eapply get_honest.
Qed.

Lemma getFrom_effect w n meta s s' r :
  getFrom w n meta s = (s', r) ->
  frame n s s' /\ (r = inl ENoSuchVolume \/ names s' = names s /\ refs s' = refs s) /\ (forall v, r = inr v -> Name v = n).
Proof.
  unfold getFrom. pose proof (lookupVolume_quietly (mDriver meta) n s) as Hq.
  destruct (lookupVolume (mDriver meta) n s) as [s1 [e|[v|]]] eqn:Hl; cbn [fst] in Hq.
  - intros [= <- <-]. split; [by apply quietly_frame|]. split; [right; by destruct Hq as (? & ? & _)|done].
  - pose proof (lookup_quietly (mDriver meta) RefLookup s1) as Hq1. unfold GetDriver.
    destruct (lookupDriver (mDriver meta) RefLookup s1) as [s2 vd]. intros [= <- <-]. cbn [fst] in Hq1.
    pose proof (quietly_trans _ _ _ Hq Hq1) as Hq2. split; [by apply quietly_frame|].
    split; [right; by destruct Hq2 as (? & ? & _)|]. intros y [= <-]. by eapply lookupVolume_name.
  - intros [= <- <-]. split; [eapply frame_trans; [by apply quietly_frame|apply purge_frame]|]. by split; [left|].
Qed.

Lemma getVolume_effect w n d s s' r :
  getVolume w n d s = (s', r) ->
  frame n s s' /\ (r = inl ENoSuchVolume \/ names s' = names s /\ refs s' = refs s) /\ (forall v, r = inr v -> Name v = n).
Proof.
  unfold getVolume. destruct (getMeta w n s) as [e|meta]; [intros [= <- <-]; split_and!; [done|by right|done]|].
  cbv zeta. set (meta1 := if _ && _ then _ else meta). clearbody meta1. destruct (negb (d =? "") && _); [intros [= <- <-]; split_and!; [done|by right|done]|].
  set (step1 := if mDriver meta1 =? "" then _ else _).
  assert (H1 : frame n s step1.1 /\ names step1.1 = names s /\ refs step1.1 = refs s /\ step1.2 <> inl ENoSuchVolume).
  { unfold step1. destruct (mDriver meta1 =? ""); [|done]. destruct (ctxDone w AtNames); [done|].
    destruct (names s !! n) as [v|]; [|done]. pose proof (setMeta_frame w n (set_mDriver (DriverName v) meta1) s) as Hf.
    unfold setMeta in *. by destruct (setFails w). }
  destruct step1 as [s1 [e|meta2]]; cbn [fst snd] in H1; destruct H1 as (Hf & Hn & Hr & Hne).
  { intros [= <- <-]. split_and!; [done|by right|done]. }
  destruct (negb (mDriver meta2 =? "")).
  - intros Hg. apply getFrom_effect in Hg as (Hf2 & Ho & Hv). split; [by eapply frame_trans|]. split; [|done].
    destruct Ho as [?|[-> ->]]; [by left|by right].
  - pose proof (GetAllDrivers_quietly w s1) as Hq. destruct (GetAllDrivers w s1) as [s2 [e|ds]]; cbn [fst] in Hq.
    + intros [= <- <-]. split; [eapply frame_trans; [done|by apply quietly_frame]|]. destruct Hq as (-> & -> & _).
      split; [by right|done].
    + intros Hp. apply probe_effect in Hp as (Hf2 & Hn2 & Hr2 & Hv).
      split; [eapply frame_trans; [done|eapply frame_trans; [by apply quietly_frame|done]]|]. split; [|done].
      destruct Hq as (Hq1 & Hq2 & _). right. split; congruence.
Qed.

(** ** The invariant *)

(** Volumes are known under their names, whatever has references is known, and an entry of the
    database has its key or no name. *)
Record VInv s : Prop := {
  vi_name n v : names s !! n = Some v -> Name v = n;
  vi_refs n : hasRef n s = true -> is_Some (names s !! n);
  vi_db n m : db s !! n = Some m -> mName m = n \/ mName m = "" }.

Lemma hasRef_true n s : hasRef n s = true <-> exists r, r ∈ default ∅ (refs s !! n).
Proof.
  unfold hasRef. rewrite Nat.ltb_lt. split.
  - intros Hs. apply size_pos_elem_of in Hs as [r Hr]. by exists r.
  - intros [r Hr]. destruct (decide (size (default ∅ (refs s !! n)) = 0%nat)) as [Hz|Hz]; [|lia].
    apply size_empty_inv in Hz. set_solver.
Qed.

Lemma hasRef_refs n s s' : refs s' !! n = refs s !! n -> hasRef n s' = hasRef n s.
Proof. intros Hr. unfold hasRef. by rewrite Hr. Qed.

(** [checkConflict]: the volume is returned as it is stored, or it is not stored and has no
    references. *)
Lemma checkConflict_effect w n d s s' r :
  VInv s -> checkConflict w n d s = (s', r) ->
  frame n s s' /\
  match r with
  | inl _ => names s' = names s /\ refs s' = refs s
  | inr (Some v) => names s' = names s /\ refs s' = refs s /\ names s !! n = Some v
  | inr None => hasRef n s = false /\
      ((names s' = names s /\ refs s' = refs s) \/ (names s' = delete n (names s) /\ refs s' = delete n (refs s)))
  end.
Proof.
  intros HI. unfold checkConflict, getNamed. destruct (names s !! n) as [v|] eqn:Hn; cycle 1.
  { intros [= <- <-]. split; [done|]. split; [|by left].
    destruct (hasRef n s) eqn:Hr; [|done]. apply (vi_refs _ HI) in Hr. rewrite Hn in Hr. by destruct Hr. }
  set (step1 := if d =? "" then _ else _).
  assert (H1 : quietly s step1.1).
  { unfold step1. destruct (d =? ""); [done|]. unfold GetDriver. pose proof (lookup_quietly d RefLookup s) as Hq.
    by destruct (lookupDriver d RefLookup s) as [s1 [e|vd]]. }
  destruct step1 as [s1 [e|conflict]]; cbn [fst] in H1.
  { intros [= <- <-]. split; [by apply quietly_frame|]. by destruct H1 as (? & ? & _). }
  pose proof (volumeExists_quietly v s1) as H2. destruct (volumeExists v s1) as [s2 ex]; cbn [fst] in H2.
  pose proof (quietly_trans _ _ _ H1 H2) as Hq. pose proof Hq as (Hqn & Hqr & _).
  destruct ex as [e|[]].
  - intros [= <- <-]. by split; [apply quietly_frame|].
  - destruct conflict; intros [= <- <-]; by split; [apply quietly_frame|].
  - rewrite (vi_name _ HI _ _ Hn). destruct (hasRef n s2) eqn:Hr; [intros [= <- <-]; by split; [apply quietly_frame|]|].
    destruct (purge w n s2) as [s3 pr] eqn:Hp. intros [= <- <-].
    split; [eapply frame_trans; [by apply quietly_frame|]; pose proof (purge_frame w n s2) as Hf; by rewrite Hp in Hf|].
    rewrite (hasRef_refs n s s2) in Hr by (by rewrite Hqr). split; [done|].
    destruct (purge_effect _ _ _ _ _ Hp) as [[_ ->]|(_ & -> & ->)]; [left|right]; split; congruence.
Qed.

(** [createIn] on a name that has no references. *)
Lemma createIn_effect w n d o l s s' r :
  createIn w n d o l s = (s', r) ->
  frame n s s' /\ names s' = names s /\ (refs s' = refs s \/ refs s' = <[n := ∅]> (refs s)) /\
  match r with
  | inr (v, created) => Name v = n /\ created = true /\ refs s' !! n = Some ∅ /\
      labels s' !! n = Some l /\ options s' !! n = Some o /\
      wrapped v = Some (mkDetails l (match wrapped v with Some x => dScopeOf x | None => "" end) o) /\
      db s' !! n = Some (mkMeta n (DriverName v) l o)
  | inl _ => True
  end.
Proof.
  unfold createIn, CreateDriver. pose proof (lookup_quietly d RefAcquire s) as Hq.
  destruct (lookupDriver d RefAcquire s) as [s1 [e|vd]]; cbn [fst] in Hq.
  { intros [= <- <-]. split; [by apply quietly_frame|]. destruct Hq as (Hn & Hr & _). by split_and!; [|left|]. }
  set (step1 := match (drvGet vd n (env s1)).1 with Some _ => _ | None => _ end).
  assert (H1 : quietly s1 step1.1 /\ forall v, step1.2 = Some v -> vName v = n /\ vDriverName v = dName vd).
  { unfold step1. destruct (drvGet vd n (env s1)) as [[v|] x] eqn:Hg; cbn [fst].
    - split; [done|]. intros v' [= <-]. by eapply get_honest.
    - destruct (drvCreate vd n o (env s1)) as [e v] eqn:Hc. split; [done|]. intros v' [= ->]. by eapply create_honest. }
  destruct step1 as [s2 v]; cbn [fst snd] in H1. destruct H1 as [Hq2 Hv]. pose proof (quietly_trans _ _ _ Hq Hq2) as Hq3.
  destruct v as [v|]; cycle 1.
  { intros [= <- <-]. pose proof (quietly_trans _ _ _ Hq3 (lookup_quietly d RefRelease s2)) as Hq4. unfold ReleaseDriver.
    split; [by apply quietly_frame|]. destruct Hq4 as (Hn & Hr & _). by split_and!; [|left|]. }
  destruct (Hv v eq_refl) as [Hvn Hvd]. destruct Hq3 as (Hn & Hr & Hl & Ho & Hd).
  unfold setMeta. destruct (setFails w); intros [= <- <-]; cbn [names refs set_db set_refs set_details].
  - split_and!; [|done|right; by rewrite Hr|done]. intros k Hk. unfold core_at. cbn. rewrite !lookup_insert_ne by congruence.
    by rewrite Hn, Hr, Hl, Ho, Hd.
  - split_and!; [|done|right; by rewrite Hr|done|done|..]; cbn; try by rewrite lookup_insert_eq.
    + intros k Hk. unfold core_at. cbn. rewrite !lookup_insert_ne by congruence. by rewrite Hn, Hr, Hl, Ho, Hd.
    + done.
    + unfold DriverName. cbn. by rewrite lookup_insert_eq, Hvd.
Qed.

(** A volume that is not found is purged or left alone. *)
Lemma getVolume_missing w n d s s' :
  getVolume w n d s = (s', inl ENoSuchVolume) ->
  (names s' = names s /\ refs s' = refs s) \/ (names s' = delete n (names s) /\ refs s' = delete n (refs s)).
Proof.
  unfold getVolume. destruct (getMeta w n s) as [e|meta] eqn:Hg; [unfold getMeta in Hg; destruct (getFails w); intros [= <- ->]; by left|].
  cbv zeta. set (meta1 := if _ && _ then _ else meta). clearbody meta1. destruct (negb (d =? "") && _); [done|].
  set (step1 := if mDriver meta1 =? "" then _ else _).
  assert (H1 : names step1.1 = names s /\ refs step1.1 = refs s).
  { unfold step1. destruct (mDriver meta1 =? ""); [|done]. destruct (ctxDone w AtNames); [done|].
    destruct (names s !! n) as [v|]; [|done]. unfold setMeta. by destruct (setFails w). }
  destruct step1 as [s1 [e|meta2]]; cbn [fst] in H1; destruct H1 as [Hn Hr]; [intros [= <- _]; by left|].
  destruct (negb (mDriver meta2 =? "")).
  - unfold getFrom. pose proof (lookupVolume_quietly (mDriver meta2) n s1) as Hq.
    destruct (lookupVolume (mDriver meta2) n s1) as [s2 [e|[v|]]]; cbn [fst] in Hq; destruct Hq as (Hqn & Hqr & _).
    + intros [= <- _]. left. split; congruence.
    + by destruct (GetDriver _ s2).
    + destruct (purge w n s2) as [s3 pr] eqn:Hp. intros [= <-].
      destruct (purge_effect _ _ _ _ _ Hp) as [[_ ->]|(_ & -> & ->)]; [left|right]; split; congruence.
  - pose proof (GetAllDrivers_quietly w s1) as Hq. destruct (GetAllDrivers w s1) as [s2 [e|ds]]; cbn [fst] in Hq; destruct Hq as (Hqn & Hqr & _).
    + intros [= <- _]. left. split; congruence.
    + intros Hp. apply probe_effect in Hp as (_ & Hn2 & Hr2 & _). left. split; congruence.
Qed.
End Spec.
