(* ===== verification/VolumeStoreTheorems.v ===== *)
(** * The volume store: theorems

    Calls about one volume leave the others alone; a reference protects its volume until it
    is released; what was created is found again after a restart; filters without [Or] select
    what they say.  Then what happens to volumes found by probing, to the reference counts of
    plugins, to the references of a volume that a driver does not report, and to [Or] and
    [FromList]. *)

From Stdlib Require Import String.
From S2P Require Import Prelude VolumeStore VolumeStoreSpec.
From stdpp Require Import gmap strings list.

Local Open Scope string_scope.

Section Theorems.
Context {E : Type} `{HD : VolumeDrivers E} `{!HonestDrivers E}.
Implicit Types (s : VolumeStore E) (w : weather).

(** ** Calls *)

Inductive vcall :=
| CCreate (name driverName : string) (opts lbls : gmap string string) (ref : string)
| CGet (name driverName ref : string)
| CRemove (v : vol) (purgeOnError : bool)
| CRelease (name ref : string).

Definition callName (c : vcall) : string :=
  match c with CCreate n _ _ _ _ | CGet n _ _ | CRelease n _ => n | CRemove v _ => vName v end.

Definition done_ {A} (r : VolumeStore E * (vErr + A)) : VolumeStore E * (vErr + unit) :=
  (r.1, match r.2 with inl e => inl e | inr _ => inr tt end).

Definition call w (c : vcall) s : VolumeStore E * (vErr + unit) :=
  match c with
  | CCreate n d o l r => done_ (Create w n d o l r s)
  | CGet n d r => done_ (Get w n d r s)
  | CRemove v p => Remove w v p s
  | CRelease n r => Release w n r s
  end.

(** *** The invariant is kept *)

Definition dbOk_at (n : string) s : Prop := forall m, db s !! n = Some m -> mName m = n \/ mName m = "".

Lemma VInv_frame n s s' :
  VInv s -> frame n s s' -> (forall v, names s' !! n = Some v -> Name v = n) ->
  (hasRef n s' = true -> is_Some (names s' !! n)) -> dbOk_at n s' -> VInv s'.
Proof.
  intros [H1 H2 H3] Hf Hn Hr Hd. split.
  - intros k v. destruct (decide (k = n)) as [->|Hk]; [apply Hn|]. specialize (Hf k Hk). injection Hf as -> _ _ _ _. apply H1.
  - intros k. destruct (decide (k = n)) as [->|Hk]; [apply Hr|]. specialize (Hf k Hk). injection Hf as -> Er _ _ _.
    rewrite (hasRef_refs k s s' Er). apply H2.
  - intros k m. destruct (decide (k = n)) as [->|Hk]; [apply Hd|]. specialize (Hf k Hk). injection Hf as _ _ _ _ ->. apply H3.
Qed.

Lemma dbOk_quietly n s s' : quietly s s' -> dbOk_at n s -> dbOk_at n s'.
Proof. intros (_ & _ & _ & _ & Hd) H m. rewrite Hd. apply H. Qed.

Lemma dbOk_setMeta w n m s : dbOk_at n s -> mName m = n \/ mName m = "" -> dbOk_at n (setMeta w n m s).1.
Proof. intros H Hm. unfold setMeta. destruct (setFails w); [done|]. intros m'. cbn. rewrite lookup_insert_eq. by intros [= <-]. Qed.

Lemma dbOk_purge w n s : dbOk_at n s -> dbOk_at n (purge w n s).1.
Proof.
  intros H. unfold purge. destruct (ctxDone w AtPurge); [done|]. cbn [fst].
  set (s1 := match names s !! n with Some v => _ | None => s end).
  assert (Hq : dbOk_at n s1) by (unfold s1; destruct (names s !! n); [eapply dbOk_quietly; [apply lookup_quietly|done]|done]).
  intros m. unfold removeMeta. destruct (delFails w); cbn; [apply Hq|]. by rewrite lookup_delete_eq.
Qed.

Lemma dbOk_probe w n meta i ds s :
  dbOk_at n s -> mName meta = n \/ mName meta = "" -> dbOk_at n (probe w n meta i ds s).1.
Proof.
  intros H Hm. revert i. induction ds as [|d ds IH]; intros i; [done|]. cbn [probe]. destruct (ctxDone w (AtProbe i)); [done|].
  destruct (drvGet d n (env s)) as [[v|] x]; [|apply IH]. destruct x; [|apply IH..].
  pose proof (dbOk_setMeta w n (set_mDriver (vDriverName v) meta) s H Hm) as Hd. by destruct (setMeta w n _ s) as [s1 [e|u]].
Qed.

Lemma dbOk_getFrom w n meta s : dbOk_at n s -> dbOk_at n (getFrom w n meta s).1.
Proof.
  intros H. unfold getFrom. pose proof (dbOk_quietly n _ _ (lookupVolume_quietly (mDriver meta) n s) H) as H1.
  destruct (lookupVolume (mDriver meta) n s) as [s1 [e|[v|]]]; cbn [fst] in H1; [done| |by apply dbOk_purge].
  pose proof (dbOk_quietly n _ _ (lookup_quietly (mDriver meta) RefLookup s1) H1) as H2. unfold GetDriver.
  by destruct (lookupDriver (mDriver meta) RefLookup s1).
Qed.

Lemma dbOk_getVolume w n d s : dbOk_at n s -> dbOk_at n (getVolume w n d s).1.
Proof.
  intros H. unfold getVolume, getMeta. destruct (getFails w); [done|]. cbv zeta. set (meta := default emptyMeta (db s !! n)).
  assert (Hm : mName meta = n \/ mName meta = "").
  { unfold meta. destruct (db s !! n) as [m|] eqn:Hd; [by apply H|by right]. }
  set (meta1 := if _ && _ then _ else meta).
  assert (Hm1 : mName meta1 = n \/ mName meta1 = "") by (unfold meta1; by destruct (_ && _)). clearbody meta1.
  destruct (negb (d =? "") && _); [done|]. set (step1 := if mDriver meta1 =? "" then _ else _).
  assert (H1 : dbOk_at n step1.1 /\ forall m, step1.2 = inr m -> mName m = n \/ mName m = "").
  { unfold step1. destruct (mDriver meta1 =? ""); [|split; [done|by intros m [= <-]]].
    destruct (ctxDone w AtNames); [done|]. destruct (names s !! n) as [v|]; [|split; [done|by intros m [= <-]]].
    pose proof (dbOk_setMeta w n (set_mDriver (DriverName v) meta1) s H Hm1) as Hd.
    destruct (setMeta w n _ s) as [s1 [e|u]]; (split; [done|]); by intros m [= <-]. }
  destruct step1 as [s1 [e|meta2]]; destruct H1 as [H1 H2]; cbn [fst snd] in *; [done|].
  destruct (negb (mDriver meta2 =? "")); [by apply dbOk_getFrom|].
  pose proof (dbOk_quietly n _ _ (GetAllDrivers_quietly w s1) H1) as H3.
  destruct (GetAllDrivers w s1) as [s2 [e|ds]]; [done|]. apply dbOk_probe; [done|by apply H2].
Qed.

(** What [getVolume] leaves behind. *)
Lemma getVolume_VInv w n d s s' r : VInv s -> getVolume w n d s = (s', r) -> VInv s'.
Proof.
  intros HI E0. pose proof (dbOk_getVolume w n d s (vi_db _ HI n)) as Hd. rewrite E0 in Hd.
  pose proof (getVolume_effect _ _ _ _ _ _ E0) as (Hf & Ho & _).
  assert (Hnr : (names s' = names s /\ refs s' = refs s) \/ (names s' = delete n (names s) /\ refs s' = delete n (refs s))).
  { destruct Ho as [->|?]; [|by left]. by apply (getVolume_missing w n d s). }
  eapply (VInv_frame n); try done.
  - intros v. destruct Hnr as [[-> _]|[-> _]]; [apply HI|]. by rewrite lookup_delete_eq.
  - unfold hasRef. destruct Hnr as [[-> ->]|[-> ->]]; [apply HI|]. by rewrite lookup_delete_eq.
Qed.

(** The volume is as before, or forgotten, or has lost nothing. *)
Definition mild (n : string) s s' : Prop :=
  (names s' = names s /\ (refs s' = refs s \/ refs s' !! n = Some ∅ /\ hasRef n s = false)) \/
  (names s' = delete n (names s) /\ (refs s' !! n = None \/ refs s' !! n = Some ∅)).

Lemma mild_VInv n s s' : VInv s -> frame n s s' -> mild n s s' -> dbOk_at n s' -> VInv s'.
Proof.
  intros HI Hf Hm Hd. eapply (VInv_frame n); try done.
  - intros v. destruct Hm as [[-> _]|[-> _]]; [apply HI|]. by rewrite lookup_delete_eq.
  - unfold hasRef. destruct Hm as [[-> [->|[-> _]]]|[_ [->| ->]]]; [apply HI|done..].
Qed.

Lemma dbOk_createIn w n d o l s : dbOk_at n s -> dbOk_at n (createIn w n d o l s).1.
Proof.
  intros H. unfold createIn, CreateDriver. pose proof (dbOk_quietly n _ _ (lookup_quietly d RefAcquire s) H) as H1.
  destruct (lookupDriver d RefAcquire s) as [s1 [e|vd]]; cbn [fst] in H1; [done|].
  set (step1 := match (drvGet vd n (env s1)).1 with Some _ => _ | None => _ end).
  assert (H2 : dbOk_at n step1.1).
  { unfold step1. destruct (drvGet vd n (env s1)).1; [done|]. by destruct (drvCreate vd n o (env s1)). }
  destruct step1 as [s2 [v|]]; cbn [fst] in H2.
  - pose proof (dbOk_setMeta w n (mkMeta n (dName vd) l o)
      (set_refs (<[n:=∅]> (refs s2)) (set_details (<[n:=l]> (labels s2)) (<[n:=o]> (options s2)) s2)) H2 (or_introl eq_refl)) as H3.
    by destruct (setMeta w n _ _) as [s3 [e|u]].
  - eapply dbOk_quietly; [apply lookup_quietly|done].
Qed.

Lemma createIn_mild w n d o l s1 s2 s' r :
  frame n s1 s2 -> mild n s1 s2 -> hasRef n s1 = false -> dbOk_at n s2 ->
  createIn w n d o l s2 = (s', r) ->
  frame n s1 s' /\ mild n s1 s' /\ dbOk_at n s' /\ (forall v c, r = inr (v, c) -> Name v = n).
Proof.
  intros Hf Hm Hr Hd E0. pose proof (dbOk_createIn w n d o l s2 Hd) as Hd'. rewrite E0 in Hd'.
  apply createIn_effect in E0 as (Hf2 & Hn2 & Hr2 & Hv). split; [by eapply frame_trans|]. split; [|split; [done|]].
  - unfold mild in *. rewrite Hn2. destruct Hr2 as [->|Hr2]; [done|]. rewrite Hr2, lookup_insert_eq.
    destruct Hm as [[-> _]|[-> _]]; [left|right]; split; auto.
  - intros v c ->. apply Hv.
Qed.

Lemma dbOk_checkConflict w n d s : VInv s -> dbOk_at n (checkConflict w n d s).1.
Proof.
  intros HI. pose proof (vi_db _ HI n) as H. unfold checkConflict, getNamed. destruct (names s !! n) as [v|] eqn:Hn; [|done].
  set (step1 := if d =? "" then _ else _).
  assert (H1 : quietly s step1.1).
  { unfold step1. destruct (d =? ""); [done|]. unfold GetDriver. pose proof (lookup_quietly d RefLookup s) as Hq.
    by destruct (lookupDriver d RefLookup s) as [s1 [e|vd]]. }
  destruct step1 as [s1 [e|conflict]]; cbn [fst] in H1; [by eapply dbOk_quietly|].
  pose proof (volumeExists_quietly v s1) as H2. destruct (volumeExists v s1) as [s2 ex]; cbn [fst] in H2.
  pose proof (dbOk_quietly n _ _ (quietly_trans _ _ _ H1 H2) H) as Hd.
  destruct ex as [e|[]]; [done|by destruct conflict|]. destruct (hasRef (Name v) s2); [done|]. by apply dbOk_purge.
Qed.

Lemma create_effect w n d o l s s' r :
  VInv s -> create w n d o l s = (s', r) ->
  frame n s s' /\ mild n s s' /\ dbOk_at n s' /\ (forall v c, r = inr (v, c) -> Name v = n) /\
  (hasRef n s = true -> names s' = names s /\ refs s' = refs s).
Proof.
  intros HI. unfold create, ValidateVolumeName. pose proof (dbOk_checkConflict w n d s HI) as Hd.
  destruct (checkConflict w n d s) as [s1 o1] eqn:Hc. cbn [fst] in Hd. apply checkConflict_effect in Hc as [Hf Ho]; [|done].
  destruct o1 as [e|[v|]].
  - destruct Ho as [Hn Hr]. intros [= <- <-]. split_and!; try done. left. split; [done|by left].
  - destruct Ho as (Hn & Hr & Hv). cbn [mbind option_bind]. unfold getNamed. rewrite (vi_name _ HI _ _ Hv), Hn, Hv.
    intros [= <- <-]. split_and!; try done; [left; split; [done|by left]|]. intros v' c [= <- _]. by apply (vi_name _ HI).
  - destruct Ho as [Hr Ho]. cbn [mbind option_bind].
    assert (Hm : mild n s s1).
    { destruct Ho as [[Hn Hr']|[Hn Hr']]; [left|right]; (split; [done|left]); [done|]. by rewrite Hr', lookup_delete_eq. }
    assert (Hgoal : forall s2, frame n s s2 -> mild n s s2 -> dbOk_at n s2 -> forall d, createIn w n d o l s2 = (s', r) ->
      frame n s s' /\ mild n s s' /\ dbOk_at n s' /\ (forall v c, r = inr (v, c) -> Name v = n) /\
      (hasRef n s = true -> names s' = names s /\ refs s' = refs s)).
    { intros s2 Hf2 Hm2 Hd2 d2 E0. destruct (createIn_mild w n d2 o l s s2 s' r Hf2 Hm2 Hr Hd2 E0) as (? & ? & ? & ?). split_and!; try done.
      by rewrite Hr. }
    destruct (d =? ""); [|by apply Hgoal]. pose proof (dbOk_getVolume w n "" s1 Hd) as Hd1.
    destruct (getVolume w n "" s1) as [s2 g] eqn:Hg. cbn [fst] in Hd1.
    pose proof (getVolume_effect _ _ _ _ _ _ Hg) as (Hf2 & Ho2 & Hv2).
    assert (Hm2 : mild n s s2).
    { assert (Hnr : (names s2 = names s1 /\ refs s2 = refs s1) \/ (names s2 = delete n (names s1) /\ refs s2 = delete n (refs s1))).
      { destruct Ho2 as [->|?]; [|by left]. by apply (getVolume_missing w n "" s1). }
      unfold mild in *. destruct Hnr as [[-> ->]|[-> ->]]; [done|]. right. split; [|left; by rewrite lookup_delete_eq].
      destruct Hm as [[-> _]|[-> _]]; [done|]. by rewrite delete_delete_eq. }
    destruct g as [e|v].
    + apply (Hgoal s2); [by eapply frame_trans|done|done].
    + intros [= <- <-]. split_and!; [by eapply frame_trans|done|done| |by rewrite Hr].
      intros v' c [= <- _]. by apply Hv2.
Qed.

Lemma setNamed_VInv v ref s : VInv s -> VInv (setNamed v ref s).
Proof.
  intros HI. eapply (VInv_frame (Name v)); [done|apply setNamed_frame| | |].
  - intros v'. unfold setNamed. destruct (ref =? ""); cbn; rewrite lookup_insert_eq; by intros [= <-].
  - intros _. unfold setNamed. destruct (ref =? ""); cbn; by rewrite lookup_insert_eq.
  - intros m. unfold setNamed. destruct (ref =? ""); cbn; apply HI.
Qed.

Lemma purge_VInv w n s : VInv s -> VInv (purge w n s).1.
Proof.
  intros HI. eapply mild_VInv; [done|apply purge_frame| |apply dbOk_purge; exact (vi_db _ HI n)].
  destruct (purge w n s) as [s' r] eqn:Hp. destruct (purge_effect _ _ _ _ _ Hp) as [[_ ->]|(_ & Hn & Hr)]; [left; split; [done|by left]|right].
  split; [done|left]. cbn. by rewrite Hr, lookup_delete_eq.
Qed.

Lemma VInv_quietly s s' : quietly s s' -> VInv s -> VInv s'.
Proof.
  intros (E1 & E2 & _ & _ & E5) [A B C]. split; [rewrite E1; apply A|unfold hasRef in *; rewrite E1, E2; apply B|rewrite E5; apply C].
Qed.

(** Every call keeps the invariant and touches its volume alone. *)
Lemma call_ok w c s s' r : VInv s -> call w c s = (s', r) -> VInv s' /\ frame (callName c) s s'.
Proof.
  intros HI. destruct c as [n d o l ref|n d ref|v p|n ref]; cbn [call callName].
  - unfold done_, Create. destruct (ctxDone w AtStart); [intros [= <- _]; by split|].
    destruct (create w n d o l s) as [s1 g] eqn:Hc. apply create_effect in Hc as (Hf & Hm & Hd & Hv & _); [|done].
    pose proof (mild_VInv n s s1 HI Hf Hm Hd) as HI1. destruct g as [e|[v created]]; cbn [fst]; intros [= <- _]; [done|].
    specialize (Hv v created eq_refl). split; [apply setNamed_VInv; destruct created; [by apply (VInv_quietly s1)|done]|].
    eapply frame_trans; [exact Hf|]. rewrite <- Hv. destruct created; [|apply setNamed_frame].
    eapply frame_trans; [|apply setNamed_frame]. done.
  - unfold done_, Get. destruct (getVolume w n d s) as [s1 g] eqn:Hg. pose proof (getVolume_VInv _ _ _ _ _ _ HI Hg) as HI1.
    apply getVolume_effect in Hg as (Hf & _ & Hv). destruct g as [e|v]; cbn [fst]; [intros [= <- _]; by split|].
    destruct (_ && _); cbn [fst]; intros [= <- _]; [done|]. split; [by apply setNamed_VInv|].
    eapply frame_trans; [exact Hf|]. rewrite <- (Hv v eq_refl). apply setNamed_frame.
  - unfold Remove. destruct (ctxDone w AtStart); [intros [= <- _]; by split|]. destruct (hasRef (vName v) s); [intros [= <- _]; by split|].
    destruct (getVolume w (vName v) (vDriverName v) s) as [s1 g] eqn:Hg. pose proof (getVolume_VInv _ _ _ _ _ _ HI Hg) as HI1.
    apply getVolume_effect in Hg as (Hf & _ & Hv). destruct g as [e|v1]; [intros [= <- _]; by split|].
    pose proof (lookup_quietly (DriverName v1) RefLookup s1) as Hq. unfold GetDriver.
    destruct (lookupDriver (DriverName v1) RefLookup s1) as [s2 x]; cbn [fst] in Hq.
    assert (HI2 : VInv s2) by (by apply (VInv_quietly s1)).
    assert (Hf2 : frame (vName v) s s2) by (eapply frame_trans; [done|by apply quietly_frame]).
    destruct x as [e|vd]; [intros [= <- _]; by split|]. destruct (drvRemove vd (wVol v1) (env s2)) as [e ok].
    assert (Hp : forall b, let '(s3, _) := if (b : bool) then purge w (vName v) (set_env e s2) else (set_env e s2, None) in VInv s3 /\ frame (vName v) s s3).
    { intros b. assert (HI3 : VInv (set_env e s2)) by (by apply (VInv_quietly s2)).
      destruct b; [|done]. pose proof (purge_VInv w (vName v) (set_env e s2) HI3) as HI4.
      pose proof (purge_frame w (vName v) (set_env e s2)) as Hf4. destruct (purge w (vName v) _); cbn [fst] in *.
      split; [done|]. eapply frame_trans; [exact Hf2|]. exact Hf4. }
    specialize (Hp (ok || p)). destruct (if ok || p then _ else _) as [s3 perr]. destruct Hp as [HI3 Hf3].
    destruct ok, perr; intros [= <- _]; try done. split; [by apply (VInv_quietly s3)|done].
  - unfold Release. destruct (ctxDone w AtStart); [intros [= <- _]; by split|]. destruct (ctxDone w AtGlobal); [intros [= <- _]; by split|].
    intros [= <- _]. destruct (refs s !! n) as [rs|] eqn:Hr; [|done]. split.
    + eapply (VInv_frame n); [done| |apply HI| |exact (vi_db _ HI n)].
      * intros k Hk. unfold core_at. cbn. by rewrite lookup_insert_ne.
      * intros Hh. apply HI. apply hasRef_true in Hh as [x Hx]. cbn in Hx. rewrite lookup_insert_eq in Hx. cbn in Hx.
        apply hasRef_true. exists x. rewrite Hr. cbn. set_solver.
    + intros k Hk. unfold core_at. cbn. by rewrite lookup_insert_ne.
Qed.

(** ** References *)

Definition refers s (n r : string) : Prop := r ∈ default ∅ (refs s !! n).

Lemma refers_hasRef s n r : refers s n r -> hasRef n s = true.
Proof. intros Hr. apply hasRef_true. by exists r. Qed.

Lemma setNamed_refers v ref s n r : refers s n r -> refers (setNamed v ref s) n r.
Proof.
  unfold refers, setNamed. destruct (ref =? ""); [done|]. cbn. destruct (decide (Name v = n)) as [<-|Hne];
    [rewrite lookup_insert_eq; cbn; set_solver|by rewrite lookup_insert_ne].
Qed.

(** What can end a reference: its release, or a [Get] that does not find the volume. *)
Lemma call_refers w c s s' res n r :
  VInv s -> refers s n r -> call w c s = (s', res) ->
  refers s' n r \/ c = CRelease n r \/ (res = inl ENoSuchVolume /\ exists d ref, c = CGet n d ref).
Proof.
  intros HI Hr Hc. destruct (decide (n = callName c)) as [->|Hne]; cycle 1.
  { left. destruct (call_ok _ _ _ _ _ HI Hc) as [_ Hf]. specialize (Hf n Hne). unfold core_at in Hf.
    unfold refers. by injection Hf as _ -> _ _ _. }
  pose proof (refers_hasRef _ _ _ Hr) as Hh. destruct c as [n d o l ref|n d ref|v p|n ref]; cbn [call callName] in *.
  - left. unfold done_, Create in Hc. destruct (ctxDone w AtStart); [by injection Hc as <- _|].
    destruct (create w n d o l s) as [s1 g] eqn:Hg. apply create_effect in Hg as (_ & _ & _ & _ & Hkeep); [|done].
    destruct (Hkeep Hh) as [_ Er]. assert (Hr1 : refers s1 n r) by (unfold refers; by rewrite Er).
    destruct g as [e|[v created]]; cbn [fst] in Hc; injection Hc as <- _; [done|]. apply setNamed_refers. by destruct created.
  - unfold done_, Get in Hc. destruct (getVolume w n d s) as [s1 g] eqn:Hg. apply getVolume_effect in Hg as (_ & Ho & _).
    destruct Ho as [->|[_ Er]]; [cbn in Hc; injection Hc as _ <-; right; right; split; [done|by exists d, ref]|left].
    assert (Hr1 : refers s1 n r) by (unfold refers; by rewrite Er).
    destruct g as [e|v]; [by injection Hc as <- _|]. destruct (_ && _); injection Hc as <- _; [done|by apply setNamed_refers].
  - left. unfold Remove in Hc. destruct (ctxDone w AtStart); [by injection Hc as <- _|]. rewrite Hh in Hc. by injection Hc as <- _.
  - unfold Release in Hc. destruct (ctxDone w AtStart); [injection Hc as <- _; by left|].
    destruct (ctxDone w AtGlobal); [injection Hc as <- _; by left|]. injection Hc as <- _.
    destruct (decide (ref = r)) as [->|Hne]; [by right; left|left]. unfold refers in *.
    destruct (refs s !! n) as [rs|]; [|done]. cbn. rewrite lookup_insert_eq. cbn in *. set_solver.
Qed.

(** Successful [Create] and [Get] take the reference. *)
Lemma call_takes w c s s' n r :
  VInv s -> r <> "" -> (exists d o l, c = CCreate n d o l r) \/ (exists d, c = CGet n d r) ->
  call w c s = (s', inr tt) -> refers s' n r.
Proof.
  intros HI Hr Hcase Hc.
  assert (Hset : forall v t, Name v = n -> refers (setNamed v r t) n r).
  { intros v t <-. unfold refers, setNamed. apply String.eqb_neq in Hr as ->. cbn. rewrite lookup_insert_eq. cbn. set_solver. }
  destruct Hcase as [(d & o & l & ->)|(d & ->)]; cbn [call] in Hc; unfold done_ in Hc.
  - unfold Create in Hc. destruct (ctxDone w AtStart); [done|]. destruct (create w n d o l s) as [s1 g] eqn:Hg.
    apply create_effect in Hg as (_ & _ & _ & Hv & _); [|done]. destruct g as [e|[v created]]; cbn in Hc; injection Hc as <-; try done.
    by apply Hset, (Hv v created).
  - unfold Get in Hc. destruct (getVolume w n d s) as [s1 g] eqn:Hg. apply getVolume_effect in Hg as (_ & _ & Hv).
    destruct g as [e|v]; [done|]. destruct (_ && _); [done|]. injection Hc as <-. by apply Hset, Hv.
Qed.

(** Calls after which the reference [r] of [n] is expected to be in force. *)
Definition keeping (n r : string) s s' : Prop :=
  exists w c res, call w c s = (s', res) /\ c <> CRelease n r /\ ~ (res = inl ENoSuchVolume /\ exists d ref, c = CGet n d ref).

Definition reaches s s' : Prop := exists w c res, call w c s = (s', res).

Lemma reaches_VInv s s' : VInv s -> rtc reaches s s' -> VInv s'.
Proof. intros HI. induction 1 as [s|s s1 s2 (w & c & res & Hc) _ IH]; [done|]. apply IH. by eapply call_ok. Qed.

(** The store a daemon starts with. *)
Definition dbWf (d : gmap string volumeMetadata) : Prop := forall n m, d !! n = Some m -> mName m = n \/ mName m = "".

Lemma restoreOne_VInv w m s : VInv s -> VInv (restoreOne w m s).1.
Proof.
  intros HI.
  assert (Hcached : forall v m0 t, VInv t -> VInv (let t := (CreateDriver (mDriver m0) t).1 in
    set_refs (<[Name v := ∅]> (refs t)) (set_names (<[Name v := v]> (names t))
      (set_details (<[Name v := mLabels m0]> (labels t)) (<[Name v := mOptions m0]> (options t)) t)))).
  { intros v m0 t Ht. cbv zeta. pose proof (VInv_quietly _ _ (lookup_quietly (mDriver m0) RefAcquire t) Ht) as H1.
    unfold CreateDriver. set (t1 := (lookupDriver _ _ t).1) in *. eapply (VInv_frame (Name v)); [exact H1| | | |exact (vi_db _ H1 (Name v))].
    - intros k Hk. unfold core_at. cbn. by rewrite !lookup_insert_ne by congruence.
    - intros v'. cbn. rewrite lookup_insert_eq. by intros [= <-].
    - intros _. cbn. by rewrite lookup_insert_eq. }
  unfold restoreOne. destruct (negb (mDriver m =? "")).
  - pose proof (VInv_quietly _ _ (lookupVolume_quietly (mDriver m) (mName m) s) HI) as H1.
    destruct (lookupVolume _ _ s) as [s1 [e|[v|]]]; cbn [fst] in *; [done| |done]. by apply Hcached.
  - destruct (getVolume w (mName m) (mDriver m) s) as [s1 g] eqn:Hg. pose proof (getVolume_VInv _ _ _ _ _ _ HI Hg) as H1.
    apply getVolume_effect in Hg as (_ & _ & Hv). destruct g as [e|v]; [by destruct e|]. cbn [fst]. apply Hcached.
    assert (Hd : dbOk_at (Name v) (setMeta w (Name v) (set_mDriver (DriverName v) m) s1).1).
    { apply dbOk_setMeta; [exact (vi_db _ H1 (Name v))|]. left. cbn. symmetry. by apply Hv. }
    eapply (mild_VInv (Name v)); [exact H1|apply setMeta_frame| |exact Hd]. left. unfold setMeta. destruct (setFails w); (split; [done|by left]).
Qed.

Lemma restore_VInv w s : VInv s -> VInv (restore w s).
Proof.
  intros HI. unfold restore. assert (Hall : forall ms s, VInv s -> VInv (restoreAll w ms s).1).
  { induction ms as [|m ms IH]; intros t Ht; [done|]. cbn [restoreAll]. pose proof (restoreOne_VInv w m t Ht) as H1.
    destruct (restoreOne w m t) as [t1 r]. specialize (IH t1 H1). by destruct (restoreAll w ms t1). }
  specialize (Hall (map_to_list (db s)).*2 s HI). destruct (restoreAll w _ s) as [s1 stale]. cbn [fst] in Hall.
  destruct Hall as [A B C]. split; [done|done|]. intros n m. cbn.
  assert (Hsub : forall d : gmap string volumeMetadata, foldr (fun m d => delete (mName m) d) d stale !! n = Some m -> d !! n = Some m).
  { intros d. induction stale as [|x l IH]; [done|]. cbn. rewrite lookup_delete_Some. intros [_ ?]. by apply IH. }
  intros Hd%Hsub. by apply C.
Qed.

Lemma NewStore_VInv w d ext (e : E) : dbWf d -> VInv (NewStore w d ext e).
Proof. intros Hd. apply restore_VInv. by split. Qed.

(** C16: a reference protects its volume.  In a store that was opened on any metadata and has
    served any calls, let [Create] or [Get] of a volume succeed with a reference, and let
    any further calls follow, with contexts that end and writes that fail, but neither the
    release of that reference nor a [Get] of that volume that reports it missing.  Then the
    reference is still recorded, it counts, and [Remove] of the volume, forced or not, is
    refused and changes nothing, in the store or in any driver. *)
Theorem volume_protected w0 d ext (e : E) s w c s1 s2 n r w' v p :
  dbWf d -> rtc reaches (NewStore w0 d ext e) s ->
  r <> "" -> (exists d o l, c = CCreate n d o l r) \/ (exists d, c = CGet n d r) ->
  call w c s = (s1, inr tt) -> rtc (keeping n r) s1 s2 -> vName v = n ->
  refers s2 n r /\ (0 < CountReferences v s2)%nat /\
  Remove w' v p s2 = (s2, inl (if ctxDone w' AtStart then ECtx else EInUse)).
Proof.
  intros Hd Hr0 Hr Hcase Hc Hk <-. pose proof (reaches_VInv _ _ (NewStore_VInv w0 d ext e Hd) Hr0) as HI.
  pose proof (call_takes _ _ _ _ _ _ HI Hr Hcase Hc) as Href. pose proof (proj1 (call_ok _ _ _ _ _ HI Hc)) as HI1.
  assert (H2 : refers s2 (vName v) r).
  { clear Hc. induction Hk as [s1|s1 s3 s2 (w1 & c1 & res & Hc1 & Hn1 & Hn2) _ IH]; [done|].
    apply IH; [|by eapply call_ok]. destruct (call_refers _ _ _ _ _ _ _ HI1 Href Hc1) as [?|[?|?]]; done. }
  pose proof (refers_hasRef _ _ _ H2) as Hh. split; [done|]. split; [unfold hasRef in Hh; by apply Nat.ltb_lt in Hh|].
  unfold Remove. destruct (ctxDone w' AtStart); [done|]. by rewrite Hh.
Qed.

(** volumes are independent.  In every reachable state a call changes the entries (name,
    references, labels, options, metadata) of the volume it names alone, whatever it returns;
    names and entries stay consistent: a volume is known under its own name, and whatever has
    references is known. *)
Theorem volume_isolation w0 d ext (e : E) s w c s' r :
  dbWf d -> rtc reaches (NewStore w0 d ext e) s -> call w c s = (s', r) ->
  (forall k, k <> callName c -> names s' !! k = names s !! k /\ refs s' !! k = refs s !! k /\
     labels s' !! k = labels s !! k /\ options s' !! k = options s !! k /\ db s' !! k = db s !! k) /\
  (forall n v, names s' !! n = Some v -> Name v = n) /\
  (forall n, hasRef n s' = true -> is_Some (names s' !! n)).
Proof.
  intros Hd Hr0 Hc. pose proof (reaches_VInv _ _ (NewStore_VInv w0 d ext e Hd) Hr0) as HI.
  destruct (call_ok _ _ _ _ _ HI Hc) as [[A B C] Hf]. split; [|done]. intros k Hk. specialize (Hf k Hk). by injection Hf.
Qed.
End Theorems.

(** ** Restarting *)

(** Asking for plugins changes neither the volumes nor which plugins there are. *)
Class StableDrivers (E : Type) `{VolumeDrivers E} : Prop := {
  stable_get d n a i (e : E) : drvGet d n (pluginGet a i e).1 = drvGet d n e;
  stable_plugin a i b j (e : E) : (pluginGet a i (pluginGet b j e).1).2 = (pluginGet a i e).2;
  stable_mode a i j (e : E) : (pluginGet a i e).2 = (pluginGet a j e).2 }.

Section Restart.
Context {E : Type} `{HD : VolumeDrivers E} `{!HonestDrivers E} `{!StableDrivers E}.
Implicit Types (s : VolumeStore E) (w : weather).

(** The driver that a name stands for. *)
Definition resolve s (a : string) : option driver :=
  if a =? "" then None
  else match extensions s !! a with
  | Some d => Some d
  | None => match (pluginGet a RefLookup (env s)).2 with
            | Some p => if validateDriver (plDriver p) then Some (plDriver p) else None
            | None => None
            end
  end.

Lemma lookupDriver_resolve a i s :
  match (lookupDriver a i s).2 with inr d => resolve s a = Some d | inl _ => resolve s a = None end.
Proof.
  unfold lookupDriver, resolve. destruct (a =? ""); [done|]. destruct (extensions s !! a); [done|].
  rewrite (stable_mode a RefLookup i). destruct (pluginGet a i (env s)) as [e [p|]]; [|done]. cbn [snd].
  by destruct (validateDriver (plDriver p)).
Qed.

Lemma lookupDriver_keeps a i s :
  (forall b, resolve (lookupDriver a i s).1 b = resolve s b) /\
  (forall d n, drvGet d n (env (lookupDriver a i s).1) = drvGet d n (env s)).
Proof.
  unfold lookupDriver. destruct (a =? "") eqn:Ha; [done|]. destruct (extensions s !! a) eqn:Hx; [done|].
  pose proof (stable_mode a RefLookup i (env s)) as Hmode.
  assert (Henv : forall b, (pluginGet b RefLookup (pluginGet a i (env s)).1).2 = (pluginGet b RefLookup (env s)).2)
    by (intros b; apply stable_plugin).
  assert (Hget : forall d n, drvGet d n (pluginGet a i (env s)).1 = drvGet d n (env s)) by (intros; apply stable_get).
  destruct (pluginGet a i (env s)) as [e [p|]] eqn:Hp; cbn [fst snd] in *.
  - destruct (validateDriver (plDriver p)) eqn:Hval.
    + destruct (plV1 p); (split; [|done]); intros b; unfold resolve; cbn; [|by rewrite Henv].
      destruct (b =? "") eqn:Hb; [done|]. destruct (decide (a = b)) as [<-|Hne].
      * rewrite lookup_insert_eq, Hx, Hmode. by rewrite Hval.
      * rewrite lookup_insert_ne by done. by rewrite Henv.
    + split; [intros b|intros d n]; cbn; [unfold resolve; cbn|]; destruct (0 <? i)%Z; try rewrite stable_plugin; try rewrite stable_get;
        by rewrite ?Henv, ?Hget.
  - split; [|done]. intros b. unfold resolve. cbn. by rewrite Henv.
Qed.

Context (n dn : string) (vd : driver) (v : vol) (l o : gmap string string).

(** The driver has the volume. *)
Definition available s : Prop :=
  resolve s dn = Some vd /\ exists x, drvGet vd n (env s) = (Some v, x) /\ x <> NetErr.

Lemma available_lookup a i s : available s -> available (lookupDriver a i s).1.
Proof.
  intros (Hr & x & Hg & Hx). destruct (lookupDriver_keeps a i s) as [H1 H2].
  split; [by rewrite H1|]. exists x. by rewrite H2.
Qed.

Lemma lookupVolume_env d k s : exists a i, env (lookupVolume d k s).1 = env (lookupDriver a i s).1 /\
  extensions (lookupVolume d k s).1 = extensions (lookupDriver a i s).1.
Proof.
  unfold lookupVolume, GetDriver. set (a := if d =? "" then DefaultDriverName else d). exists a, RefLookup.
  destruct (lookupDriver a RefLookup s) as [s1 [e|y]]; [done|]. by destruct (drvGet y k (env s1)) as [z []].
Qed.

Lemma available_ext s s' : env s' = env s -> extensions s' = extensions s -> available s -> available s'.
Proof. intros He Hx. unfold available, resolve. by rewrite He, Hx. Qed.

Lemma available_lookupVolume d k s : available s -> available (lookupVolume d k s).1.
Proof.
  intros Ha. destruct (lookupVolume_env d k s) as (a & i & He & Hx). eapply available_ext; [done|done|]. by apply available_lookup.
Qed.

(** The volume is found. *)
Lemma lookupVolume_available s : dn <> "" -> available s -> (lookupVolume dn n s).2 = inr (Some v).
Proof.
  intros Hdn (Hr & x & Hg & Hx). unfold lookupVolume, GetDriver. apply String.eqb_neq in Hdn as ->.
  pose proof (lookupDriver_resolve dn RefLookup s) as Hl. destruct (lookupDriver_keeps dn RefLookup s) as [_ Hk].
  destruct (lookupDriver dn RefLookup s) as [s1 [e|d]]; cbn [fst snd] in *; [congruence|].
  rewrite Hl in Hr. injection Hr as ->. rewrite Hk, Hg. by destruct x.
Qed.

Definition restored s : Prop :=
  names s !! n = Some (mkVolw v None) /\ labels s !! n = Some l /\ options s !! n = Some o.

Lemma restoreOne_other w m s :
  mDriver m <> "" -> mName m <> n -> available s ->
  available (restoreOne w m s).1 /\ core_at n (restoreOne w m s).1 = core_at n s /\ db (restoreOne w m s).1 = db s /\
  (forall m', (restoreOne w m s).2 = Some m' -> m' = m).
Proof.
  intros Hm Hn Ha. unfold restoreOne. apply String.eqb_neq in Hm. rewrite Hm. cbn [negb].
  pose proof (available_lookupVolume (mDriver m) (mName m) s Ha) as Ha1.
  pose proof (lookupVolume_quietly (mDriver m) (mName m) s) as Hq.
  destruct (lookupVolume (mDriver m) (mName m) s) as [s1 [e|[v'|]]] eqn:Hl; cbn [fst snd] in *.
  - split_and!; [done|by apply quietly_core|apply Hq|done].
  - assert (Hv' : Name (mkVolw v' None) <> n) by (apply lookupVolume_name in Hl; by unfold Name; cbn; rewrite Hl).
    pose proof (quietly_trans _ _ _ Hq (lookup_quietly (mDriver m) RefAcquire s1)) as Hq2. unfold CreateDriver.
    pose proof (available_lookup (mDriver m) RefAcquire s1 Ha1) as Ha2. set (s2 := (lookupDriver _ _ s1).1) in *.
    split_and!; [by eapply (available_ext s2)| |apply Hq2|done].
    rewrite <- (quietly_core n _ _ Hq2). unfold core_at. cbn. by rewrite !lookup_insert_ne by done.
  - split_and!; [done|by apply quietly_core|apply Hq|]. by intros m' [= <-].
Qed.

Lemma restoreOne_self w s :
  dn <> "" -> available s ->
  let s' := (restoreOne w (mkMeta n dn l o) s).1 in
  available s' /\ restored s' /\ db s' = db s /\ (restoreOne w (mkMeta n dn l o) s).2 = None.
Proof.
  intros Hdn Ha. unfold restoreOne. cbn [mDriver mName mLabels mOptions]. apply String.eqb_neq in Hdn as Hdn'. rewrite Hdn'. cbn [negb].
  pose proof (lookupVolume_available s Hdn Ha) as Hl. pose proof (available_lookupVolume dn n s Ha) as Ha1.
  pose proof (lookupVolume_quietly dn n s) as Hq.
  destruct (lookupVolume dn n s) as [s1 r] eqn:E1; cbn [fst snd] in *. subst r.
  apply lookupVolume_name in E1 as Hvn. unfold CreateDriver.
  pose proof (quietly_trans _ _ _ Hq (lookup_quietly dn RefAcquire s1)) as Hq2.
  pose proof (available_lookup dn RefAcquire s1 Ha1) as Ha2. set (s2 := (lookupDriver _ _ s1).1) in *. cbn [fst snd].
  unfold restored, Name. cbn. rewrite Hvn, !lookup_insert_eq. split_and!; try done; first [apply Hq2|by eapply (available_ext n dn vd v s2)|idtac].
Qed.

Lemma restoreAll_ok w ms s :
  dn <> "" -> Forall (fun m => mDriver m <> "" /\ (mName m <> n \/ m = mkMeta n dn l o)) ms -> available s ->
  available (restoreAll w ms s).1 /\ db (restoreAll w ms s).1 = db s /\
  (restored s \/ mkMeta n dn l o ∈ ms -> restored (restoreAll w ms s).1) /\
  Forall (fun m => mName m <> n) (restoreAll w ms s).2.
Proof.
  intros Hdn. revert s. induction ms as [|m ms IH]; intros s Hms Ha.
  { split_and!; try done. by intros [?|[]%elem_of_nil]. }
  apply Forall_cons in Hms as [[Hmd Hm] Hms]. cbn [restoreAll]. destruct (decide (mName m = n)) as [Hn|Hn].
  - destruct Hm as [?| ->]; [done|]. destruct (restoreOne_self w s Hdn Ha) as (Ha1 & Hr1 & Hd1 & Hx). destruct (restoreOne w _ s) as [s1 r]; cbn [fst snd] in *. subst r.
    destruct (IH s1 Hms Ha1) as (Ha2 & Hd2 & Hr2 & Hs2). destruct (restoreAll w ms s1) as [s2 rs]; cbn [fst snd] in *.
    split_and!; [done|congruence| |done]. intros _. apply Hr2. by left.
  - destruct (restoreOne_other w m s Hmd Hn Ha) as (Ha1 & Hc1 & Hd1 & Hx). destruct (restoreOne w m s) as [s1 r]; cbn [fst snd] in *.
    destruct (IH s1 Hms Ha1) as (Ha2 & Hd2 & Hr2 & Hs2). destruct (restoreAll w ms s1) as [s2 rs]; cbn [fst snd] in *.
    split_and!; [done|congruence| |].
    + intros [Hr|[Heq|Hin]%elem_of_cons]; [|by subst m|apply Hr2; by right]. apply Hr2. left. unfold core_at in Hc1.
      injection Hc1 as E1 _ E3 E4 _. unfold restored. by rewrite E1, E3, E4.
    + destruct r as [m'|]; [|done]. specialize (Hx m' eq_refl). subst m'. by constructor.
Qed.

Lemma delete_stale stale (d : gmap string volumeMetadata) :
  Forall (fun m => mName m <> n) stale -> foldr (fun m d => delete (mName m) d) d stale !! n = d !! n.
Proof. induction 1 as [|m ms Hm _ IH]; [done|]. cbn. by rewrite lookup_delete_ne. Qed.

Lemma restore_ok w s :
  dn <> "" -> n <> "" -> dbWf (db s) -> (forall k m, db s !! k = Some m -> mDriver m <> "") ->
  db s !! n = Some (mkMeta n dn l o) -> available s ->
  available (restore w s) /\ restored (restore w s) /\ db (restore w s) !! n = Some (mkMeta n dn l o).
Proof.
  intros Hdn Hn Hwf Hdrv Hd Ha. unfold restore.
  assert (Hms : Forall (fun m => mDriver m <> "" /\ (mName m <> n \/ m = mkMeta n dn l o)) (map_to_list (db s)).*2).
  { apply Forall_forall. intros m ([k m'] & -> & Hk%elem_of_map_to_list)%list_elem_of_fmap. cbn. split; [by eapply Hdrv|].
    destruct (decide (k = n)) as [->|Hne]; [right; congruence|left]. destruct (Hwf k m' Hk) as [->| ->]; congruence. }
  destruct (restoreAll_ok w _ s Hdn Hms Ha) as (Ha1 & Hd1 & Hr1 & Hs1).
  destruct (restoreAll w (map_to_list (db s)).*2 s) as [s1 stale]; cbn [fst snd] in *. split; [by eapply (available_ext s1)|].
  split; [apply Hr1; right; apply list_elem_of_fmap; exists (n, mkMeta n dn l o); split; [done|by apply elem_of_map_to_list]|].
  cbn. by rewrite delete_stale, Hd1.
Qed.

(** [Get] of a volume whose metadata is stored. *)
Lemma Get_stored w s :
  dn <> "" -> getFails w = false -> db s !! n = Some (mkMeta n dn l o) -> available s ->
  (Get w n "" "" s).2 = inr (mkVolw v (Some (mkDetails l (dScope vd) o))).
Proof.
  intros Hdn Hg Hd Ha. unfold Get, getVolume, getMeta. rewrite Hg, Hd. cbn [default mDriver]. apply String.eqb_neq in Hdn as Hdn'.
  change ("" =? "") with true. cbn [id negb andb mDriver]. rewrite Hdn'. cbn [negb mDriver]. rewrite ?Hdn'. cbn [negb]. unfold getFrom. cbn [mDriver mLabels mOptions].
  pose proof (lookupVolume_available s Hdn Ha) as Hl. pose proof (available_lookupVolume dn n s Ha) as [Hr1 _].
  destruct (lookupVolume dn n s) as [s1 r]; cbn [fst snd] in *. subst r. unfold GetDriver.
  pose proof (lookupDriver_resolve dn RefLookup s1) as Hx. destruct (lookupDriver dn RefLookup s1) as [s2 [e|d]]; cbn [snd] in *; congruence.
Qed.
End Restart.

Section RestartTheorem.
Context {E : Type} `{HD : VolumeDrivers E} `{!HonestDrivers E} `{!StableDrivers E}.

(** C17: a created volume survives a restart.  Let [Create] of a new volume, with a name and
    naming a driver, succeed, and let a new daemon open its store on the metadata that is on
    disk then, stored under the names of the volumes and all of it naming a driver.  The
    daemon has drivers of its own, among which the driver of the volume, which has a name,
    is found and has the volume.  Then the store knows the volume with the labels and the
    options it was created with, and a [Get] that is not interrupted returns it with these
    and the scope of its driver. *)
Theorem volume_restart wi di exti (ei : E) w (s s1 : VolumeStore E) n d o l ref v w0 ext (e : E) vd x w1 :
  dbWf di -> rtc reaches (NewStore wi di exti ei) s -> names s !! n = None -> d <> "" -> n <> "" -> DriverName v <> "" ->
  (forall k m, db s1 !! k = Some m -> mDriver m <> "") ->
  Create w n d o l ref s = (s1, inr v) ->
  resolve (mkStore ∅ ∅ ∅ ∅ (db s1) ext e []) (DriverName v) = Some vd -> drvGet vd n e = (Some (wVol v), x) -> x <> NetErr ->
  getFails w1 = false ->
  let s2 := NewStore w0 (db s1) ext e in
  names s2 !! n = Some (mkVolw (wVol v) None) /\ labels s2 !! n = Some l /\ options s2 !! n = Some o /\
  (Get w1 n "" "" s2).2 = inr (mkVolw (wVol v) (Some (mkDetails l (dScope vd) o))).
Proof.
  intros Hdi Hrun Hn Hd Hne Hdv Hdrv Hc Hres Hget Hx Hgf. cbv zeta.
  pose proof (reaches_VInv _ _ (NewStore_VInv wi di exti ei Hdi) Hrun) as HI.
  assert (Hmeta : db s1 !! n = Some (mkMeta n (DriverName v) l o) /\ VInv s1).
  { split; [|by apply (call_ok w (CCreate n d o l ref) s s1 (inr tt) HI); cbn; unfold done_; rewrite Hc].
    unfold Create in Hc. destruct (ctxDone w AtStart); [done|]. destruct (create w n d o l s) as [s3 g] eqn:Hg.
    unfold create, ValidateVolumeName, checkConflict, getNamed in Hg. rewrite Hn in Hg. cbn [mbind option_bind] in Hg.
    apply String.eqb_neq in Hd. rewrite Hd in Hg. apply createIn_effect in Hg as (_ & _ & _ & Hv).
    destruct g as [er|[v' c]]; [done|]. injection Hc as <- ->. destruct Hv as (_ & -> & _ & _ & _ & _ & Hdb).
    unfold setNamed. destruct (ref =? ""); exact Hdb. }
  destruct Hmeta as [Hmeta HI1].
  assert (Ha : available n (DriverName v) vd (wVol v) (mkStore ∅ ∅ ∅ ∅ (db s1) ext e [])) by (split; [done|by exists x]).
  destruct (restore_ok n (DriverName v) vd (wVol v) l o w0 (mkStore ∅ ∅ ∅ ∅ (db s1) ext e []) Hdv Hne (vi_db _ HI1) Hdrv Hmeta Ha)
    as (Ha2 & (H1 & H2 & H3) & Hdb2).
  split_and!; try done. by eapply (Get_stored n (DriverName v)).
Qed.
End RestartTheorem.

(** ** Filters *)

Section Filters.
Context {E : Type} `{HD : VolumeDrivers E}.
Implicit Types (s : VolumeStore E) (w : weather).

(** Filters without [Or], and what they mean. *)
Fixpoint simple (b : By) : bool :=
  match b with
  | byNil | byDriver _ | ByReferenced _ | CustomFilter _ => true
  | andCombinator bys => forallb simple bys
  | orCombinator _ | FromList _ _ => false
  end.

Fixpoint holds s (b : By) (v : volw) : bool :=
  match b with
  | byDriver ns => bool_decide (DriverName v ∈ ns)
  | ByReferenced r => Bool.eqb (hasRef (Name v) s) r
  | CustomFilter f => f v
  | andCombinator bys => forallb (fun b => holds s b v) bys
  | _ => true
  end.

Lemma filter_true {A} (l : list A) : List.filter (fun _ => true) l = l.
Proof. induction l as [|x l IH]; [done|]. cbn. by rewrite IH. Qed.

Lemma filter_andb {A} (f g : A -> bool) l : List.filter g (List.filter f l) = List.filter (fun x => f x && g x) l.
Proof. induction l as [|x l IH]; [done|]. cbn. destruct (f x); cbn; [destruct (g x); by rewrite IH|done]. Qed.

Lemma filter_given w s : forall b l, simple b = true ->
  filter_ w b (Some l) s = (s, inr (Some (List.filter (holds s b) l), [])).
Proof.
  fix IH 1. intros b l. destruct b as [|ns|r|bys|bys|f|vs b]; cbn [simple]; intros Hb; try done.
  - cbn. by rewrite filter_true.
  - cbn [filter_]. assert (Hall : forall l0 warns, (fix all bys vols warns s := match bys with
        | [] => (s, inr (vols, warns))
        | b :: bys => match filter_ w b vols s with
            | (s, inl e) => (s, inl e)
            | (s, inr (vols, w')) => all bys vols (warns ++ w')%list s end end) bys (Some l0) warns s
      = (s, inr (Some (List.filter (fun v => forallb (fun b => holds s b v) bys) l0), warns))); [|apply Hall].
    revert Hb. induction bys as [|b bys IHb]; intros Hb l0 warns; cbn [forallb].
    + by rewrite filter_true.
    + cbn [forallb] in Hb. apply andb_true_iff in Hb as [Hb Hbs]. rewrite (IH b l0 Hb). rewrite IHb by done.
      by rewrite app_nil_r, filter_andb.
Qed.

(** The loop of a conjunction. *)
Definition andLoop w : list By -> option (list volw) -> list string -> VolumeStore E ->
    VolumeStore E * (vErr + (option (list volw) * list string)) :=
  fix all bys vols warns s :=
    match bys with
    | [] => (s, inr (vols, warns))
    | b :: bys =>
        match filter_ w b vols s with
        | (s, inl e) => (s, inl e)
        | (s, inr (vols, w')) => all bys vols (warns ++ w')%list s
        end
    end.

Lemma andLoop_given w s bys l warns : forallb simple bys = true ->
  andLoop w bys (Some l) warns s = (s, inr (Some (List.filter (holds s (andCombinator bys)) l), warns)).
Proof.
  revert l warns. induction bys as [|b bys IH]; intros l warns Hb; cbn [andLoop].
  - cbn. by rewrite filter_true.
  - cbn [forallb] in Hb. apply andb_true_iff in Hb as [Hb Hbs]. rewrite filter_given by done.
    rewrite IH by done. by rewrite app_nil_r, filter_andb.
Qed.

(** filters select what they say.  [Find] with a conjunction that starts with a list of
    drivers lists the volumes of those drivers and keeps, in their order, those for which
    every other condition holds and whose name is not stored for another driver; nothing else
    is dropped and the drivers that failed are reported.  (For conditions without [Or].) *)
Theorem find_selects w ns bys s s1 l warns :
  forallb simple bys = true -> list_ w (Some ns) s = (s1, inr (l, warns)) ->
  Find w (andCombinator (byDriver ns :: bys)) s =
    (s1, inr (List.filter (fun v => holds s1 (andCombinator bys) v &&
                match getNamed (Name v) s1 with Some st => DriverName st =? DriverName v | None => true end) l, warns)).
Proof.
  intros Hb Hl. assert (Hand : filter_ w (andCombinator (byDriver ns :: bys)) None s =
    match filter_ w (byDriver ns) None s with
    | (s, inl e) => (s, inl e)
    | (s, inr (vols, w')) => andLoop w bys vols w' s
    end) by reflexivity.
  unfold Find. rewrite Hand. cbn [filter_].
  rewrite Hl, andLoop_given by done. cbv zeta. cbn [from_option id]. by rewrite filter_andb.
Qed.
End Filters.

(** ** A concrete host

    The driver [local] and one plugin [plug] with a reference count; [cvols] has the volumes of
    each driver. *)
Record host := mkHost { cvols : gmap string (gset string); refcount : Z }.

Definition localDriver : driver := mkDriver "local" LocalScope.
Definition plugDriver : driver := mkDriver "plug" GlobalScope.

#[export] Instance host_drivers : VolumeDrivers host := {|
  pluginGet a i e := if a =? "plug" then (mkHost (cvols e) (refcount e + i), Some (mkPlugin plugDriver false)) else (e, None);
  allPlugins _ := Some [mkPlugin plugDriver false];
  drvGet d n e := if bool_decide (n ∈ default ∅ (cvols e !! dName d)) then (Some (mkVol n (dName d)), NoErr) else (None, OtherErr);
  drvCreate d n _ e := (mkHost (<[dName d := {[n]} ∪ default ∅ (cvols e !! dName d)]> (cvols e)) (refcount e), Some (mkVol n (dName d)));
  drvRemove d v e := (mkHost (<[dName d := default ∅ (cvols e !! dName d) ∖ {[vName v]}]> (cvols e)) (refcount e), true);
  drvList d e := Some (map (fun n => mkVol n (dName d)) (elements (default ∅ (cvols e !! dName d)))) |}.

#[export] Instance host_honest : HonestDrivers host.
Proof.
  split.
  - intros d n e v x. cbn. case_bool_decide; intros [= <- <-]; done.
  - intros d n o e e' v. cbn. by intros [= _ <-].
Qed.

#[export] Instance host_stable : StableDrivers host.
Proof.
  split.
  - intros d n a i e. cbn. by destruct (a =? "plug").
  - intros a i b j e. cbn. destruct (b =? "plug"), (a =? "plug"); done.
  - intros a i j e. cbn. by destruct (a =? "plug").
Qed.

Definition calm : weather := mkWeather (fun _ => false) false false false id.
Definition exts : gmap string driver := {["local" := localDriver]}.
Definition store0 (e : host) : VolumeStore host := NewStore calm ∅ exts e.
Definition empty_host : host := mkHost ∅ 0.

(** A volume [data] of the plugin, created for the container [c1]. *)
Definition lbl : gmap string string := {["team" := "db"]}.
Definition v1 := Create calm "data" "plug" ∅ lbl "c1" (store0 empty_host).

Lemma dbWf_empty : dbWf ∅.
Proof. intros n m. by rewrite lookup_empty. Qed.

Lemma volume_protected_witness : Remove calm (mkVol "data" "plug") true v1.1 = (v1.1, inl EInUse).
Proof.
  apply (volume_protected calm ∅ exts empty_host (store0 empty_host) calm (CCreate "data" "plug" ∅ lbl "c1") v1.1 v1.1 "data" "c1"
    calm (mkVol "data" "plug") true dbWf_empty).
  - apply rtc_refl.
  - discriminate.
  - left. exists "plug", ∅, lbl. reflexivity.
  - vm_compute. reflexivity.
  - apply rtc_refl.
  - reflexivity.
Defined.

Lemma volume_isolation_witness : names (call calm (CGet "data" "" "") v1.1).1 !! "other" = names v1.1 !! "other".
Proof.
  apply (volume_isolation calm ∅ exts empty_host v1.1 calm (CGet "data" "" "") (call calm (CGet "data" "" "") v1.1).1
    (call calm (CGet "data" "" "") v1.1).2 dbWf_empty).
  - apply rtc_once. exists calm, (CCreate "data" "plug" ∅ lbl "c1"), (inr tt). vm_compute. reflexivity.
  - apply surjective_pairing.
  - discriminate.
Defined.

Lemma volume_restart_witness :
  let s2 := NewStore calm (db v1.1) exts (mkHost {["plug" := {["data"]}]} 0) in
  names s2 !! "data" = Some (mkVolw (mkVol "data" "plug") None) /\ labels s2 !! "data" = Some lbl.
Proof.
  destruct (volume_restart calm ∅ exts empty_host calm (store0 empty_host) v1.1 "data" "plug" ∅ lbl "c1"
    (mkVolw (mkVol "data" "plug") (Some (mkDetails lbl GlobalScope ∅))) calm exts (mkHost {["plug" := {["data"]}]} 0)
    plugDriver NoErr calm dbWf_empty) as (H1 & H2 & _).
  - apply rtc_refl.
  - vm_compute. reflexivity.
  - discriminate.
  - discriminate.
  - discriminate.
  - intros k m. change (db v1.1) with ({["data" := mkMeta "data" "plug" lbl ∅]} : gmap string volumeMetadata).
    intros [_ <-]%lookup_singleton_Some. discriminate.
  - vm_compute. reflexivity.
  - vm_compute. reflexivity.
  - vm_compute. reflexivity.
  - discriminate.
  - reflexivity.
  - split; [exact H1|exact H2].
Defined.

Definition used (v : volw) : bool := hasRef (Name v) v1.1.

Lemma find_selects_witness :
  exists s1 l, list_ calm (Some ["plug"]) v1.1 = (s1, inr (l, [])) /\
    Find calm (andCombinator [byDriver ["plug"]; ByReferenced true]) v1.1 =
      (s1, inr (List.filter (fun v => holds s1 (andCombinator [ByReferenced true]) v &&
         match getNamed (Name v) s1 with Some st => DriverName st =? DriverName v | None => true end) l, [])).
Proof.
  exists (list_ calm (Some ["plug"]) v1.1).1, [mkVolw (mkVol "data" "plug") (Some (mkDetails lbl GlobalScope ∅))].
  assert (Hl : list_ calm (Some ["plug"]) v1.1 = ((list_ calm (Some ["plug"]) v1.1).1,
    inr ([mkVolw (mkVol "data" "plug") (Some (mkDetails lbl GlobalScope ∅))], []))) by (vm_compute; reflexivity).
  split; [exact Hl|]. apply (find_selects calm ["plug"] [ByReferenced true] v1.1 _ _ [] eq_refl Hl).
Defined.

(** ** What the code does not keep *)

(** A volume that was found by asking the drivers is stored without its name: it is known now,
    and not after a restart, although its driver still has it. *)
Definition probed := Get calm "old" "" "" (store0 (mkHost {["plug" := {["old"]}]} 0)).
Lemma probed_volume_forgotten :
  db probed.1 !! "old" = Some (mkMeta "" "plug" ∅ ∅) /\ is_Some (names probed.1 !! "old") /\
  names (NewStore calm (db probed.1) exts (mkHost {["plug" := {["old"]}]} 0)) !! "old" = None.
Proof. by vm_compute; eauto. Qed.

(** Removing such a volume releases a reference of its plugin that was never taken. *)
Lemma plugin_released_unacquired : refcount (env (Remove calm (mkVol "old" "plug") false probed.1).1) = (-1)%Z.
Proof. by vm_compute. Qed.

(** When the driver does not report a volume that is in use, [Create] refuses to drop its
    references, but [Get] drops them. *)
Definition vanished := set_env empty_host v1.1.
Lemma get_forgets_references :
  CountReferences (mkVol "data" "plug") vanished = 1%nat /\
  (Create calm "data" "plug" ∅ ∅ "" vanished).2 = inl ENameConflict /\
  (Get calm "data" "" "" vanished).2 = inl ENoSuchVolume /\
  CountReferences (mkVol "data" "plug") (Get calm "data" "" "" vanished).1 = 0%nat.
Proof. by vm_compute. Qed.

(** [Or] drops the volumes that a list of drivers selects. *)
Lemma or_ignores_drivers :
  (exists v, (Find calm (byDriver ["plug"]) v1.1).2 = inr ([v], [])) /\
  (Find calm (orCombinator [byDriver ["plug"]]) v1.1).2 = inr ([], []).
Proof. vm_compute. split; [by eexists|done]. Qed.

(** Inside of [And], [Or] adds volumes to those selected so far. *)
Lemma and_or_is_no_intersection :
  (exists v, (Find calm (andCombinator [byDriver ["local"]; orCombinator [ByReferenced true]]) v1.1).2 = inr ([v], []) /\
     DriverName v = "plug").
Proof. vm_compute. by eexists. Qed.

Lemma from_list_unsupported vols b (s : VolumeStore host) : (Find calm (FromList vols b) s).2 = inl EInvalid.
Proof. done. Qed.
