(* ===== verification/SetMatrix.v ===== *)
(** * Maps of sets and of counters

    Model of [daemon/libnetwork/internal/setmatrix] and
    [daemon/libnetwork/internal/countmap].  [Get] gives the set; the order in which
    [ToSlice] lists it is that of the caller.  The lemmas describe the members of the sets;
    in a matrix that the operations made no set is empty. *)

From S2P Require Import Prelude.
From stdpp Require Import gmap sets.

Module SetMatrix.
Abbreviation SetMatrix K V := (gmap K (gset V)).

Section SetMatrix.
Context {K V : Type} `{Countable K} `{Countable V}.

Implicit Types (key : K) (value : V) (s : SetMatrix K V).

Definition Get key s : option (gset V) := s !! key.

Definition Contains key value s : bool * bool :=
  match s !! key with
  | None => (false, false)
  | Some set => (bool_decide (value ∈ set), true)
  end.

Definition Insert key value s : SetMatrix K V * (bool * nat) :=
  match s !! key with
  | None => (<[key := {[value]}]> s, (true, 1%nat))
  | Some set => (<[key := {[value]} ∪ set]> s, (bool_decide (value ∉ set), size ({[value]} ∪ set)))
  end.

Definition Remove key value s : SetMatrix K V * (bool * nat) :=
  match s !! key with
  | None => (s, (false, 0%nat))
  | Some set =>
      if bool_decide (value ∈ set) then
        let set := set ∖ {[value]} in
        (if bool_decide (size set = 0%nat) then delete key s else <[key := set]> s, (true, size set))
      else (s, (false, size set))
  end.

Definition Cardinality key s : nat * bool :=
  match s !! key with None => (0%nat, false) | Some set => (size set, true) end.

Definition Keys s : list K := (map_to_list s).*1.

(** The members under a key; none when the key is absent. *)
Definition members key s : gset V := default ∅ (s !! key).

(** No key has an empty set. *)
Definition tidy s : Prop := forall key set, s !! key = Some set -> set <> ∅.

Lemma members_empty key : members key (∅ : SetMatrix K V) = ∅.
Proof. unfold members. by rewrite lookup_empty. Qed.

Lemma tidy_empty : tidy ∅.
Proof. intros key set. by rewrite lookup_empty. Qed.

Lemma Insert_members key value s key' :
  members key' (Insert key value s).1 = if decide (key' = key) then {[value]} ∪ members key s else members key' s.
Proof.
  unfold Insert, members. case_decide as E.
  - subst key'. destruct (s !! key) as [set|]; cbn; rewrite lookup_insert_eq; cbn; [done|]. by rewrite union_empty_r_L.
  - destruct (s !! key) as [set|]; cbn; by rewrite lookup_insert_ne.
Qed.

Lemma Remove_members key value s key' :
  members key' (Remove key value s).1 = if decide (key' = key) then members key s ∖ {[value]} else members key' s.
Proof.
  unfold Remove, members. destruct (s !! key) as [set|] eqn:Hs; [case_bool_decide as Hv; [case_bool_decide as Hz|]|];
    cbn [fst]; case_decide as E; try subst key'; rewrite ?lookup_delete_eq, ?lookup_delete_ne, ?lookup_insert_eq,
      ?lookup_insert_ne, ?Hs by done; cbn; try done; try set_solver.
  apply size_empty_inv in Hz. set_solver.
Qed.

Lemma Insert_result key value s :
  (Insert key value s).2 = (bool_decide (value ∉ members key s), size (members key (Insert key value s).1)).
Proof.
  rewrite Insert_members, decide_True by done. unfold Insert, members. destruct (s !! key); cbn; [done|].
  rewrite bool_decide_eq_true_2 by set_solver. by rewrite union_empty_r_L, size_singleton.
Qed.

Lemma Remove_result key value s :
  (Remove key value s).2 = (bool_decide (value ∈ members key s), size (members key (Remove key value s).1)).
Proof.
  rewrite Remove_members, decide_True by done. unfold Remove, members. destruct (s !! key) as [set|]; cbn.
  - case_bool_decide as Hv; cbn; [done|]. do 2 f_equal. set_solver.
  - rewrite bool_decide_eq_false_2 by set_solver. assert (E : (∅ : gset V) ∖ {[value]} = ∅) by set_solver. by rewrite E, size_empty.
Qed.

Lemma Insert_tidy key value s : tidy s -> tidy (Insert key value s).1.
Proof.
  intros Ht k set. unfold Insert. destruct (s !! key) eqn:Hs; cbn;
    (destruct (decide (k = key)) as [->|Hne]; [rewrite lookup_insert_eq; intros [= <-]; set_solver|
       rewrite lookup_insert_ne by done; apply Ht]).
Qed.

Lemma Remove_tidy key value s : tidy s -> tidy (Remove key value s).1.
Proof.
  intros Ht k set. unfold Remove. destruct (s !! key) as [u|] eqn:Hs; [|apply Ht].
  case_bool_decide as Hv; [|apply Ht]. case_bool_decide as Hz; cbn; (destruct (decide (k = key)) as [->|Hne]).
  - by rewrite lookup_delete_eq.
  - rewrite lookup_delete_ne by done. apply Ht.
  - rewrite lookup_insert_eq. intros [= <-] E. apply Hz. rewrite E. apply size_empty.
  - rewrite lookup_insert_ne by done. apply Ht.
Qed.

(** In a tidy matrix a key is present exactly if it has members. *)
Lemma tidy_Get key s : tidy s ->
  Get key s = if bool_decide (members key s = ∅) then None else Some (members key s).
Proof.
  intros Ht. unfold Get, members. specialize (Ht key). destruct (s !! key) as [set|]; cbn; [|by rewrite bool_decide_eq_true_2].
  rewrite bool_decide_eq_false_2 by by apply Ht. done.
Qed.

Lemma tidy_eq s s' : tidy s -> tidy s' -> (forall key, members key s = members key s') -> s = s'.
Proof.
  intros Ht Ht' He. apply map_eq. intros key. pose proof (tidy_Get key s Ht) as H1. pose proof (tidy_Get key s' Ht') as H2.
  unfold Get in *. by rewrite H1, H2, He.
Qed.
End SetMatrix.
End SetMatrix.

Local Open Scope Z_scope.

Module countmap.
Abbreviation Map T := (gmap T Z).

Section countmap.
Context {T : Type} `{Countable T}.

Implicit Types (m : Map T).

Definition count (v : T) m : Z := default 0 (m !! v).

Definition Add (v : T) (delta : Z) m : Map T * Z :=
  let c := count v m + delta in
  (if c =? 0 then delete v m else <[v := c]> m, c).

Lemma Add_count v delta m w :
  count w (Add v delta m).1 = if decide (w = v) then count v m + delta else count w m.
Proof.
  unfold Add, count. cbn. destruct (_ =? 0) eqn:E; case_decide as Hw; try subst w;
    rewrite ?lookup_delete_eq, ?lookup_delete_ne, ?lookup_insert_eq, ?lookup_insert_ne by done; cbn; lia.
Qed.
End countmap.
End countmap.
