(* ===== verification/Discovery.v ===== *)
(** * Service discovery

    Model of the DNS records of [daemon/libnetwork/network.go] ([addSvcRecords] to
    [ResolveService]), of [daemon/libnetwork/service.go] and [service_common.go] (services,
    their load balancers and the names of their endpoints), of [getLBIndex] and the endpoint
    events of [daemon/libnetwork/agent.go], and of [ReverseIP] of [netutils].

    Services are objects behind pointers: [services] is the heap, [serviceBindings] the map of
    the controller.  The sections of [addServiceBinding] and [rmServiceBinding] under the locks
    of the controller and of a service are functions of their own.  Calls into the data plane
    are recorded in [dataplane].  A [net.IP] is the [Addr] that [Equal] sees in it. *)

From Stdlib Require Import Ascii String.
From S2P Require Import Prelude Slices NetIP NetworkDB SetMatrix.
From stdpp Require Import gmap strings list pretty.

Local Open Scope Z_scope.
Local Open Scope string_scope.

(** ** Strings *)

Fixpoint ToLower (s : string) : string :=
  match s with
  | EmptyString => EmptyString
  | String c s =>
      let n := Ascii.N_of_ascii c in
      String (if (65 <=? n)%N && (n <=? 90)%N then Ascii.ascii_of_N (n + 32) else c) (ToLower s)
  end.

(** [strings.TrimSuffix(s, ".")] *)
Fixpoint TrimDot (s : string) : string :=
  match s with
  | EmptyString => EmptyString
  | String c EmptyString => if Ascii.eqb c "."%char then EmptyString else s
  | String c s => String c (TrimDot s)
  end.

Fixpoint Join (l : list string) (sep : string) : string :=
  match l with
  | [] => ""
  | [s] => s
  | s :: l => s +:+ sep +:+ Join l sep
  end.

Fixpoint Repeat (s : string) (n : nat) : string :=
  match n with O => "" | S n => s +:+ Repeat s n end.

(** The characters of an ASCII string, each as a string. *)
Fixpoint chars (s : string) : list string :=
  match s with EmptyString => [] | String c s => String c EmptyString :: chars s end.

(** ** Data *)

Record PortConfig := mkPortConfig {
  pc_Name : string; pc_Protocol : string; pc_TargetPort : Z; pc_PublishedPort : Z }.

Record EndpointRecord := mkEndpointRecord {
  er_Name : string;
  er_ServiceName : string;
  er_ServiceID : string;
  er_VirtualIP : string;
  er_EndpointIP : string;
  er_IngressPorts : list PortConfig;
  er_Aliases : list string;
  er_TaskAliases : list string;
  er_ServiceDisabled : bool }.

Record svcMapEntry := mkEntry { me_ip : string; me_serviceID : string }.
Record ipInfo := mkIPInfo { ii_name : string; ii_serviceID : string; ii_extResolver : bool }.

#[export] Instance PortConfig_eq : EqDecision PortConfig.
Proof. solve_decision. Defined.
#[export] Instance PortConfig_countable : Countable PortConfig.
Proof.
  refine (inj_countable' (fun p => (pc_Name p, pc_Protocol p, pc_TargetPort p, pc_PublishedPort p))
            (fun x => mkPortConfig x.1.1.1 x.1.1.2 x.1.2 x.2) _). by intros [].
Defined.
#[export] Instance svcMapEntry_eq : EqDecision svcMapEntry.
Proof. solve_decision. Defined.
#[export] Instance svcMapEntry_countable : Countable svcMapEntry.
Proof. refine (inj_countable' (fun e => (me_ip e, me_serviceID e)) (fun x => mkEntry x.1 x.2) _). by intros []. Defined.
#[export] Instance ipInfo_eq : EqDecision ipInfo.
Proof. solve_decision. Defined.
#[export] Instance ipInfo_countable : Countable ipInfo.
Proof.
  refine (inj_countable' (fun i => (ii_name i, ii_serviceID i, ii_extResolver i)) (fun x => mkIPInfo x.1.1 x.1.2 x.2) _).
  by intros [].
Defined.

Record serviceTarget := mkTarget { st_name : string; st_ip : Addr; st_port : Z }.
Record servicePorts := mkServicePorts { sp_portName : string; sp_proto : string; sp_target : list serviceTarget }.

Import SetMatrix.

Record svcInfo := mkSvcInfo {
  svcMap : SetMatrix string svcMapEntry;
  svcIPv6Map : SetMatrix string svcMapEntry;
  ipMap : SetMatrix string ipInfo;
  service_ : gmap string (list servicePorts) }.
Definition noSvcInfo : svcInfo := mkSvcInfo ∅ ∅ ∅ ∅.

Record Network := mkNetwork { nw_id : string; nw_name : string; nw_ingress : bool }.

Record lbBackend := mkBackend { be_ip : Addr; be_disabled : bool }.
Record loadBalancer := mkLB { lb_vip : option Addr; lb_fwMark : Z; lb_backEnds : gmap string lbBackend }.
Record service := mkService {
  s_name : string;
  s_id : string;
  s_ingressPorts : list PortConfig;
  s_loadBalancers : gmap string loadBalancer;
  s_aliases : list string;
  s_ipToEndpoint : SetMatrix string string;
  s_deleted : bool }.

(** [serviceKey] *)
Abbreviation serviceKey := (string * string)%type.

(** Calls into the data plane: of [addLBBackend] and [rmLBBackend] beyond their first test. *)
Inductive lbCall :=
| AddLB (nid : string) (ip vip : Addr) (fwMark : Z)
| RmLB (nid : string) (ip vip : Addr) (fwMark : Z) (rmService fullRemove : bool).

Record Controller := mkController {
  networks_ : gmap string Network;
  svcRecords : gmap string svcInfo;
  services : gmap positive service;
  serviceBindings : gmap serviceKey positive;
  fwMarkCtr : Z;
  dataplane : list lbCall }.

Definition set_svcRecords x (c : Controller) := mkController (networks_ c) x (services c) (serviceBindings c) (fwMarkCtr c) (dataplane c).
Definition set_services x (c : Controller) := mkController (networks_ c) (svcRecords c) x (serviceBindings c) (fwMarkCtr c) (dataplane c).
Definition set_serviceBindings x (c : Controller) := mkController (networks_ c) (svcRecords c) (services c) x (fwMarkCtr c) (dataplane c).
Definition set_fwMarkCtr x (c : Controller) := mkController (networks_ c) (svcRecords c) (services c) (serviceBindings c) x (dataplane c).
Definition call_dataplane x (c : Controller) :=
  mkController (networks_ c) (svcRecords c) (services c) (serviceBindings c) (fwMarkCtr c) (dataplane c ++ [x]).

(** [NewController]: no records, no bindings. *)
Definition NewController (nws : gmap string Network) : Controller := mkController nws ∅ ∅ ∅ 256 [].

Inductive netErr := ErrNoNetwork | ErrUnmarshal.

(** Go's [net] and [netip], the protobuf decoder, and the order in which [ToSlice] lists a
    set. *)
Class NetLib := {
  IPString : Addr -> string;
  ParseIP : string -> option Addr;
  ParseAddr : string -> Addr;
  Unmarshal : string -> option EndpointRecord;
  entriesSlice : gset svcMapEntry -> list svcMapEntry;
  infosSlice : gset ipInfo -> list ipInfo }.

Section Discovery.
Context `{NetLib}.

Definition ReverseIP (IP : string) : string :=
  if match ParseIP IP with Some a => Is4 a | None => false end then Join (rev (Split IP "."%char)) "."
  else
    let parts := Split IP ":"%char in
    let colons := (List.length parts - 1)%nat in
    let expand p :=
      if p =? "" then Repeat "0000" (8 - colons)
      else if (String.length p <? 4)%nat then Repeat "0" (4 - String.length p) +:+ p else p in
    Join (rev (chars (Join (map expand parts) ""))) ".".

(** ** Records *)

Definition addIPToName (name serviceID : string) (ip : Addr) (m : SetMatrix string ipInfo) :=
  (Insert (ReverseIP (IPString ip)) (mkIPInfo name serviceID false) m).1.
Definition delIPToName (name serviceID : string) (ip : Addr) (m : SetMatrix string ipInfo) :=
  (Remove (ReverseIP (IPString ip)) (mkIPInfo name serviceID false) m).1.
Definition addNameToIP (name serviceID : string) (epIP : Addr) (m : SetMatrix string svcMapEntry) :=
  (Insert (ToLower name) (mkEntry (IPString epIP) serviceID) m).1.
Definition delNameToIP (name serviceID : string) (epIP : Addr) (m : SetMatrix string svcMapEntry) :=
  (Remove (ToLower name) (mkEntry (IPString epIP) serviceID) m).1.

(** An update for each address that is not nil. *)
Definition forIP {M} (f : Addr -> M -> M) (ip : option Addr) (m : M) : M :=
  match ip with Some a => f a m | None => m end.

Definition addSvcRecords (n : Network) (name serviceID : string) (epIPv4 epIPv6 : option Addr) (ipMapUpdate : bool)
    (c : Controller) : Controller :=
  if nw_ingress n then c
  else
    let sr := default noSvcInfo (svcRecords c !! nw_id n) in
    let im := if ipMapUpdate then forIP (addIPToName name serviceID) epIPv6 (forIP (addIPToName name serviceID) epIPv4 (ipMap sr))
              else ipMap sr in
    set_svcRecords (<[nw_id n := mkSvcInfo (forIP (addNameToIP name serviceID) epIPv4 (svcMap sr))
                                           (forIP (addNameToIP name serviceID) epIPv6 (svcIPv6Map sr)) im (service_ sr)]>
                      (svcRecords c)) c.

Definition deleteSvcRecords (n : Network) (name serviceID : string) (epIPv4 epIPv6 : option Addr) (ipMapUpdate : bool)
    (c : Controller) : Controller :=
  if nw_ingress n then c
  else match svcRecords c !! nw_id n with
  | None => c
  | Some sr =>
      let im := if ipMapUpdate then forIP (delIPToName name serviceID) epIPv6 (forIP (delIPToName name serviceID) epIPv4 (ipMap sr))
                else ipMap sr in
      set_svcRecords (<[nw_id n := mkSvcInfo (forIP (delNameToIP name serviceID) epIPv4 (svcMap sr))
                                             (forIP (delNameToIP name serviceID) epIPv6 (svcIPv6Map sr)) im (service_ sr)]>
                        (svcRecords c)) c
  end.

(** The endpoint as [updateSvcRecord] sees it; [ep_iface] has the addresses of its interface. *)
Record Endpoint := mkEndpoint {
  ep_id : string; ep_svcID : string; ep_dnsNames : list string; ep_iface : option (option Addr * option Addr) }.

Definition updateSvcRecord (n : Network) (ep : Endpoint) (isAdd : bool) (c : Controller) : Controller :=
  match ep_iface ep with
  | None => c
  | Some (ipv4, ipv6) =>
      let serviceID := if ep_svcID ep =? "" then ep_id ep else ep_svcID ep in
      let update := if isAdd then addSvcRecords else deleteSvcRecords in
      (foldl (fun '(c, i) dnsName => (update n dnsName serviceID ipv4 ipv6 (i =? 0)%nat c, S i)) (c, O) (ep_dnsNames ep)).1
  end.

(** The addresses of a list of entries, each once. *)
Fixpoint noDup (seen : list string) (l : list svcMapEntry) : list string :=
  match l with
  | [] => []
  | e :: l => if bool_decide (me_ip e ∈ seen) then noDup seen l else me_ip e :: noDup (me_ip e :: seen) l
  end.

Definition ResolveName (n : Network) (req : string) (ipv6 : bool) (c : Controller) : list (option Addr) * bool :=
  match svcRecords c !! nw_id n with
  | None => ([], false)
  | Some sr =>
      let req := ToLower (TrimDot req) in
      let ipSet := Get req (svcMap sr) in
      let ipSet6 := Get req (svcIPv6Map sr) in
      match ipSet, ipSet6 with
      | None, None => ([], false)
      | _, _ =>
          let set := if ipv6 then ipSet6 else ipSet in
          (map ParseIP (noDup [] (match set with Some s => entriesSlice s | None => [] end)), true)
      end
  end.

Definition HandleQueryResp (n : Network) (name : string) (ip : Addr) (c : Controller) : Controller :=
  match svcRecords c !! nw_id n with
  | None => c
  | Some sr =>
      let ipStr := ReverseIP (IPString ip) in
      if (Contains ipStr (mkIPInfo name "" false) (ipMap sr)).1 then
        let im := (Remove ipStr (mkIPInfo name "" false) (ipMap sr)).1 in
        let im := (Insert ipStr (mkIPInfo name "" true) im).1 in
        set_svcRecords (<[nw_id n := mkSvcInfo (svcMap sr) (svcIPv6Map sr) im (service_ sr)]> (svcRecords c)) c
      else c
  end.

Definition ResolveIP (n : Network) (ip : string) (c : Controller) : string :=
  match svcRecords c !! nw_id n with
  | None => ""
  | Some sr =>
      match from_option infosSlice [] (Get ip (ipMap sr)) with
      | [] => ""
      | elem :: _ => if ii_extResolver elem then "" else ii_name elem +:+ "." +:+ nw_name n
      end
  end.

(** The targets and addresses of the answer; [None] where the code returns nil. *)
Definition ResolveService (n : Network) (name : string) (c : Controller) : option (list (string * Z * Addr)) :=
  match Split name "."%char with
  | portName :: proto :: (_ :: _) as parts =>
      let svcName := Join (drop 2 parts) "." in
      match svcRecords c !! nw_id n with
      | None => None
      | Some sr =>
          match service_ sr !! svcName with
          | None => None
          | Some svcs =>
              Some (mjoin (map (fun svc => map (fun t => (st_name t, st_port t, st_ip t)) (sp_target svc))
                     (List.filter (fun svc => (sp_portName svc =? portName) && (sp_proto svc =? proto)) svcs)))
          end
      end
  | _ => None
  end.

(** ** Names of endpoints *)

Definition NetworkByID (nID : string) (c : Controller) : option Network :=
  if nID =? "" then None else networks_ c !! nID.

Abbreviation result := (Controller * option netErr)%type.

Definition addContainerNameResolution (nID eID containerName : string) (taskAliases : list string) (ip : Addr)
    (c : Controller) : result :=
  match NetworkByID nID c with
  | None => (c, Some ErrNoNetwork)
  | Some n =>
      let c := addSvcRecords n containerName eID (Some ip) None true c in
      (foldl (fun c alias => addSvcRecords n alias eID (Some ip) None false c) c taskAliases, None)
  end.

Definition delContainerNameResolution (nID eID containerName : string) (taskAliases : list string) (ip : Addr)
    (c : Controller) : result :=
  match NetworkByID nID c with
  | None => (c, Some ErrNoNetwork)
  | Some n =>
      let c := deleteSvcRecords n containerName eID (Some ip) None true c in
      (foldl (fun c alias => deleteSvcRecords n alias eID (Some ip) None true c) c taskAliases, None)
  end.

Definition addEndpointNameResolution (svcName svcID nID eID containerName : string) (vip : option Addr)
    (serviceAliases taskAliases : list string) (ip : Addr) (addService : bool) (c : Controller) : result :=
  match NetworkByID nID c with
  | None => (c, Some ErrNoNetwork)
  | Some n =>
      match addContainerNameResolution nID eID containerName taskAliases ip c with
      | (c, Some e) => (c, Some e)
      | (c, None) =>
          let serviceID := if svcID =? "" then eID else svcID in
          let add names a c := foldl (fun c name => addSvcRecords n name serviceID a None false c) c names in
          let names := svcName :: serviceAliases in
          let c := add (map (String.append "tasks.") names) (Some ip) c in
          let c := match vip with None => add names (Some ip) c | Some _ => c end in
          (match vip with Some _ => if addService then add names vip c else c | None => c end, None)
      end
  end.

Definition deleteEndpointNameResolution (svcName svcID nID eID containerName : string) (vip : option Addr)
    (serviceAliases taskAliases : list string) (ip : Addr) (rmService multipleEntries : bool) (c : Controller) : result :=
  match NetworkByID nID c with
  | None => (c, Some ErrNoNetwork)
  | Some n =>
      let c := (delContainerNameResolution nID eID containerName taskAliases ip c).1 in
      let serviceID := if svcID =? "" then eID else svcID in
      let del names a c := foldl (fun c name => deleteSvcRecords n name serviceID a None false c) c names in
      let names := svcName :: serviceAliases in
      let c := if negb multipleEntries then del (map (String.append "tasks.") names) (Some ip) c else c in
      let c := match vip with None => if negb multipleEntries then del names (Some ip) c else c | Some _ => c end in
      (match vip with Some _ => if rmService && negb multipleEntries then del names vip c else c | None => c end, None)
  end.

(** ** Services *)

(** [portConfigs.String] *)
Definition portString (pc : PortConfig) : string :=
  pretty (pc_PublishedPort pc) +:+ ":" +:+ pretty (pc_TargetPort pc) +:+ "/" +:+ pc_Protocol pc.
Definition portsString (p : list PortConfig) : string := Join (map portString p) ",".

Definition skeyOf (svcID : string) (ingressPorts : list PortConfig) : serviceKey := (svcID, portsString ingressPorts).

Definition newService (name id : string) (ingressPorts : list PortConfig) (aliases : list string) : service :=
  mkService name id ingressPorts ∅ aliases ∅ false.

(** What the calls say about an endpoint. *)
Record binding := mkBinding {
  b_svcName : string; b_svcID : string; b_containerName : string; b_vip : option Addr;
  b_ingressPorts : list PortConfig; b_serviceAliases : list string; b_taskAliases : list string; b_ip : Addr }.

Definition addLBBackend (n : Network) (ip : Addr) (lb : loadBalancer) (c : Controller) : Controller :=
  match lb_vip lb with None => c | Some vip => call_dataplane (AddLB (nw_id n) ip vip (lb_fwMark lb)) c end.
Definition rmLBBackend (n : Network) (ip : Addr) (lb : loadBalancer) (rmService fullRemove : bool) (c : Controller) : Controller :=
  match lb_vip lb with None => c | Some vip => call_dataplane (RmLB (nw_id n) ip vip (lb_fwMark lb) rmService fullRemove) c end.

(** [addServiceBinding], the section under the lock of the controller: the service to use,
    which is made if there is none. *)
Definition bindLookup (b : binding) (c : Controller) : Controller * positive :=
  let skey := skeyOf (b_svcID b) (b_ingressPorts b) in
  match serviceBindings c !! skey with
  | Some p => (c, p)
  | None =>
      let p := fresh (dom (services c)) in
      (set_serviceBindings (<[skey := p]> (serviceBindings c))
         (set_services (<[p := newService (b_svcName b) (b_svcID b) (b_ingressPorts b) (b_serviceAliases b)]> (services c)) c), p)
  end.

(** The section under the lock of the service, which is not deleted. *)
Definition bindLocked (n : Network) (nID eID : string) (b : binding) (p : positive) (c : Controller) : result :=
  match services c !! p with
  | None => (c, None)
  | Some s =>
      let '(lb, addService) :=
        match s_loadBalancers s !! nID with
        | Some lb => (lb, false)
        | None => (mkLB (b_vip b) (fwMarkCtr c) ∅, true)
        end in
      let c := if addService then set_fwMarkCtr ((fwMarkCtr c + 1) mod 2 ^ 32)%Z c else c in
      let lb := mkLB (lb_vip lb) (lb_fwMark lb) (<[eID := mkBackend (b_ip b) false]> (lb_backEnds lb)) in
      let s := mkService (s_name s) (s_id s) (s_ingressPorts s) (<[nID := lb]> (s_loadBalancers s)) (s_aliases s)
                 (Insert (IPString (b_ip b)) eID (s_ipToEndpoint s)).1 (s_deleted s) in
      let c := set_services (<[p := s]> (services c)) c in
      let c := addLBBackend n (b_ip b) lb c in
      addEndpointNameResolution (b_svcName b) (b_svcID b) nID eID (b_containerName b) (b_vip b) (b_serviceAliases b)
        (b_taskAliases b) (b_ip b) addService c
  end.

Definition deletedAt (p : positive) (c : Controller) : bool :=
  match services c !! p with Some s => s_deleted s | None => false end.

(** The loop of [addServiceBinding]. *)
Fixpoint bindLoop (fuel : nat) (n : Network) (nID eID : string) (b : binding) (c : Controller) : option result :=
  match fuel with
  | O => None
  | S fuel =>
      let '(c, p) := bindLookup b c in
      if deletedAt p c then bindLoop fuel n nID eID b c else Some (bindLocked n nID eID b p c)
  end.

Definition addServiceBinding (fuel : nat) (nID eID : string) (b : binding) (c : Controller) : option result :=
  match NetworkByID nID c with
  | None => Some (c, Some ErrNoNetwork)
  | Some n => bindLoop fuel n nID eID b c
  end.

(** [rmServiceBinding] after it has found the service, under its lock. *)
Definition unbindLocked (nID eID : string) (b : binding) (withRecords fullRemove : bool) (p : positive) (c : Controller) : result :=
  match services c !! p with
  | None => (c, None)
  | Some s =>
      match s_loadBalancers s !! nID with
      | None => (c, None)
      | Some lb =>
          match lb_backEnds lb !! eID with
          | None => (c, None)
          | Some be =>
              let backEnds := if fullRemove then delete eID (lb_backEnds lb)
                              else <[eID := mkBackend (be_ip be) true]> (lb_backEnds lb) in
              let lb := mkLB (lb_vip lb) (lb_fwMark lb) backEnds in
              let rmService := (size backEnds =? 0)%nat in
              let lbs := if rmService then delete nID (s_loadBalancers s) else <[nID := lb]> (s_loadBalancers s) in
              let '(ipToEndpoint, (_, entries)) := Remove (IPString (b_ip b)) eID (s_ipToEndpoint s) in
              let s := mkService (s_name s) (s_id s) (s_ingressPorts s) lbs (s_aliases s) ipToEndpoint (s_deleted s) in
              let c := set_services (<[p := s]> (services c)) c in
              let c := if (entries =? 0)%nat then
                         match NetworkByID nID c with
                         | Some n => rmLBBackend n (b_ip b) lb rmService fullRemove c
                         | None => c
                         end
                       else c in
              match
                (if withRecords then
                   deleteEndpointNameResolution (b_svcName b) (b_svcID b) nID eID (b_containerName b) (b_vip b)
                     (b_serviceAliases b) (b_taskAliases b) (b_ip b) rmService (0 <? entries)%nat c
                 else (c, None))
              with
              | (c, Some e) => (c, Some e)
              | (c, None) =>
                  if (size lbs =? 0)%nat then
                    let s := mkService (s_name s) (s_id s) (s_ingressPorts s) lbs (s_aliases s) ipToEndpoint true in
                    (set_serviceBindings (delete (skeyOf (b_svcID b) (b_ingressPorts b)) (serviceBindings c))
                       (set_services (<[p := s]> (services c)) c), None)
                  else (c, None)
              end
          end
      end
  end.

Definition rmServiceBinding (nID eID : string) (b : binding) (withRecords fullRemove : bool) (c : Controller) : result :=
  match serviceBindings c !! skeyOf (b_svcID b) (b_ingressPorts b) with
  | None => (c, None)
  | Some p => unbindLocked nID eID b withRecords fullRemove p c
  end.

(** [getLBIndex]; a service without a load balancer on the network is a nil pointer. *)
Definition getLBIndex (sid nid : string) (ingressPorts : list PortConfig) (c : Controller) : go_result netErr Z :=
  match serviceBindings c !! skeyOf sid ingressPorts ≫= (fun p => services c !! p) with
  | None => GoOk 0%Z
  | Some s => match s_loadBalancers s !! nid with
              | None => GoPanic
              | Some lb => GoOk (lb_fwMark lb)
              end
  end.

(** ** Cleaning up *)

Definition cleanupServiceDiscovery (cleanupNID : string) (c : Controller) : Controller :=
  if cleanupNID =? "" then set_svcRecords ∅ c else set_svcRecords (delete cleanupNID (svcRecords c)) c.

(** The bindings of a service that the clean-up removes. *)
Definition cleanupOf (cleanupNID : string) (s : service) : list (string * string * binding) :=
  if s_deleted s then []
  else
    mjoin (map (fun '(nid, lb) =>
      if (negb (cleanupNID =? "")) && negb (nid =? cleanupNID) then []
      else map (fun '(eid, be) => (nid, eid, mkBinding (s_name s) (s_id s) "" (lb_vip lb) (s_ingressPorts s) (s_aliases s) [] (be_ip be)))
             (map_to_list (lb_backEnds lb))) (map_to_list (s_loadBalancers s))).

Definition cleanupServiceBindings (cleanupNID : string) (c : Controller) : Controller :=
  let ss := omap (fun p => services c !! p) (map_to_list (serviceBindings c)).*2 in
  foldl (fun c '(nid, eid, b) => (rmServiceBinding nid eid b false true c).1) c (mjoin (map (cleanupOf cleanupNID) ss)).

(** ** Endpoint events *)

Definition libnetworkEPTable : string := "endpoint_table".

Record endpointEvent := mkEpEvent { ev_rec : EndpointRecord; ev_VirtualIP : Addr; ev_EndpointIP : Addr }.

Definition unmarshalEndpointRecord (data : string) : option endpointEvent :=
  match Unmarshal data with
  | None => None
  | Some epRec =>
      let vip := ParseAddr (er_VirtualIP epRec) in
      let eip := ParseAddr (er_EndpointIP epRec) in
      if (er_Name epRec =? "") || negb (AddrIsValid eip) then None else Some (mkEpEvent epRec vip eip)
  end.

(** [iterutil.SameValues] *)
Definition SameValues {A} `{EqDecision A} (a b : list A) : bool :=
  forallb (fun v => (length (filter (eq v) a) =? length (filter (eq v) b))%nat) (a ++ b)%list.

Definition EquivalentTo (ev other : endpointEvent) : bool :=
  let a := ev_rec ev in
  let b := ev_rec other in
  (er_Name a =? er_Name b) && (er_ServiceName a =? er_ServiceName b) && (er_ServiceID a =? er_ServiceID b) &&
  bool_decide (ev_VirtualIP ev = ev_VirtualIP other) && bool_decide (ev_EndpointIP ev = ev_EndpointIP other) &&
  Bool.eqb (er_ServiceDisabled a) (er_ServiceDisabled b) &&
  SameValues (er_IngressPorts a) (er_IngressPorts b) && SameValues (er_Aliases a) (er_Aliases b) &&
  SameValues (er_TaskAliases a) (er_TaskAliases b).

(** [AsSlice] as a [net.IP]. *)
Definition asIP (a : Addr) : option Addr := if AddrIsValid a then Some (Unmap a) else None.

(** The arguments that an event gives to the calls below. *)
Definition bindingOf (ev : endpointEvent) : binding :=
  let r := ev_rec ev in
  mkBinding (er_ServiceName r) (er_ServiceID r) (er_Name r) (asIP (ev_VirtualIP ev)) (er_IngressPorts r) (er_Aliases r)
    (er_TaskAliases r) (Unmap (ev_EndpointIP ev)).

(** The part of [handleEpTableEvent] that undoes the previous value; failures are logged. *)
Definition removePrev (nid eid : string) (prev : endpointEvent) (c : Controller) : Controller :=
  if negb (er_ServiceID (ev_rec prev) =? "") then
    if er_ServiceDisabled (ev_rec prev) then c else (rmServiceBinding nid eid (bindingOf prev) true true c).1
  else
    let b := bindingOf prev in
    (delContainerNameResolution nid eid (b_containerName b) (b_taskAliases b) (b_ip b) c).1.

(** The part that establishes the new value. *)
Definition addValue (fuel : nat) (nid eid : string) (prev : option endpointEvent) (epRec : endpointEvent) (c : Controller)
    : option Controller :=
  let b := bindingOf epRec in
  if negb (er_ServiceID (ev_rec epRec) =? "") then
    if er_ServiceDisabled (ev_rec epRec) then
      if match prev with
         | None => true
         | Some p => negb (er_ServiceID (ev_rec p) =? er_ServiceID (ev_rec epRec)) || negb (er_ServiceDisabled (ev_rec p))
         end
      then Some (rmServiceBinding nid eid b true false c).1
      else Some c
    else fst <$> addServiceBinding fuel nid eid b c
  else Some (addContainerNameResolution nid eid (b_containerName b) (b_taskAliases b) (b_ip b) c).1.

Definition handleEpTableEvent (fuel : nat) (event : WatchEvent) (c : Controller) : option Controller :=
  let nid := wt_NetworkID event in
  let eid := wt_Key event in
  let decode data := match data with None => Some None | Some d => Some <$> unmarshalEndpointRecord d end in
  match decode (wt_Prev event), decode (wt_Value event) with
  | Some prev, Some epRec =>
      match prev, epRec with
      | None, None => Some c
      | Some p, None => Some (removePrev nid eid p c)
      | None, Some r => addValue fuel nid eid None r c
      | Some p, Some r =>
          if EquivalentTo p r then Some c else addValue fuel nid eid (Some p) r (removePrev nid eid p c)
      end
  | _, _ => Some c
  end.
End Discovery.
