(* ===== verification/DiscoverySpec.v ===== *)
(** * Service discovery: records and bindings

    What the operations on names do to the records of a network, and what the controller
    should hold for a table of endpoints ([Tbl]): the records that each endpoint contributes
    ([expected]) and the services, load balancers and backends ([SvcRel]).  [Rel] relates a
    controller to a table; [bind_ok], [unbind_ok], [disable_ok] and their companions show that
    the calls keep it. *)

From Stdlib Require Import Ascii String.
From S2P Require Import Prelude Slices NetIP NetworkDB SetMatrix Discovery.
From stdpp Require Import gmap strings list.
Import SetMatrix.

Local Open Scope string_scope.

(** A table of endpoints by network and identifier. *)
Abbreviation Tbl := (gmap (string * string) (bool * binding)).

Section Spec.
Context `{HN : NetLib}.

(** ** Records *)

Definition recs (nid : string) (c : Controller) : svcInfo := default noSvcInfo (svcRecords c !! nid).
Definition has (c : Controller) (nid x : string) (e : svcMapEntry) : Prop := e ∈ members x (svcMap (recs nid c)).

(** Everything but the records. *)
Definition core (c : Controller) := (networks_ c, services c, serviceBindings c, fwMarkCtr c, dataplane c).

(** Keys without entries are absent, and there are no IPv6 records. *)
Definition recsOk (c : Controller) : Prop :=
  forall nid, tidy (svcMap (recs nid c)) /\ svcIPv6Map (recs nid c) = ∅.

Lemma recs_set nid sr c nid' :
  recs nid' (set_svcRecords (<[nid := sr]> (svcRecords c)) c) = if decide (nid' = nid) then sr else recs nid' c.
Proof. unfold recs. cbn. case_decide as E; [subst; by rewrite lookup_insert_eq|by rewrite lookup_insert_ne]. Qed.

Lemma recsOk_set nid sr c : recsOk c -> tidy (svcMap sr) -> svcIPv6Map sr = ∅ ->
  recsOk (set_svcRecords (<[nid := sr]> (svcRecords c)) c).
Proof. intros Hc Ht H6 nid'. rewrite recs_set. by case_decide. Qed.

Lemma has_set nid sr c nid' x e :
  has (set_svcRecords (<[nid := sr]> (svcRecords c)) c) nid' x e <->
  if decide (nid' = nid) then e ∈ members x (svcMap sr) else has c nid' x e.
Proof. unfold has. rewrite recs_set. by case_decide. Qed.

(** The records of some names for one address. *)
Definition recsFor (names : list string) (ip : Addr) (sid : string) : list (string * svcMapEntry) :=
  map (fun n => (ToLower n, mkEntry (IPString ip) sid)) names.

(** [c'] has the records [l] of the network in addition, or without them, and is as [c]
    otherwise.  A routing network has no records. *)
Definition onNet (n : Network) (l : list (string * svcMapEntry)) (nid x : string) (e : svcMapEntry) : Prop :=
  nw_ingress n = false /\ nid = nw_id n /\ (x, e) ∈ l.

Record Adds (n : Network) (l : list (string * svcMapEntry)) (c c' : Controller) : Prop := {
  ad_core : core c' = core c;
  ad_ok : recsOk c -> recsOk c';
  ad_has : forall nid x e, has c' nid x e <-> has c nid x e \/ onNet n l nid x e }.

Record Dels (n : Network) (l : list (string * svcMapEntry)) (c c' : Controller) : Prop := {
  de_core : core c' = core c;
  de_ok : recsOk c -> recsOk c';
  de_has : forall nid x e, has c' nid x e <-> has c nid x e /\ ~ onNet n l nid x e }.

Lemma Adds_nil n c : Adds n [] c c.
Proof. split; [done..|]. intros nid x e. unfold onNet. set_solver. Qed.
Lemma Dels_nil n c : Dels n [] c c.
Proof. split; [done..|]. intros nid x e. unfold onNet. set_solver. Qed.

Lemma Adds_app n l1 l2 c c1 c2 : Adds n l1 c c1 -> Adds n l2 c1 c2 -> Adds n (l1 ++ l2) c c2.
Proof.
  intros [C1 O1 H1] [C2 O2 H2]. split; [by rewrite C2|auto|]. intros nid x e. rewrite H2, H1.
  unfold onNet. rewrite elem_of_app. tauto.
Qed.
Lemma Dels_app n l1 l2 c c1 c2 : Dels n l1 c c1 -> Dels n l2 c1 c2 -> Dels n (l1 ++ l2) c c2.
Proof.
  intros [C1 O1 H1] [C2 O2 H2]. split; [by rewrite C2|auto|]. intros nid x e. rewrite H2, H1.
  unfold onNet. rewrite elem_of_app. tauto.
Qed.

Lemma add_one n name sid ip upd c :
  Adds n (recsFor [name] ip sid) c (addSvcRecords n name sid (Some ip) None upd c).
Proof.
  unfold addSvcRecords. destruct (nw_ingress n) eqn:Hi.
  { split; [done..|]. intros nid x e. unfold onNet. rewrite Hi. split; [by left|by intros [?|[? _]]]. }
  split; [done|..]; cbn [forIP].
  - intros Hc. destruct (Hc (nw_id n)) as [Ht H6]. apply recsOk_set; [done| |exact H6]. by apply Insert_tidy.
  - intros nid x e. unfold onNet. rewrite has_set. unfold recsFor. cbn [map]. rewrite list_elem_of_singleton.
    case_decide as E; [subst nid|split; [by left|by intros [?|(_ & ? & _)]]]. unfold addNameToIP. cbn [svcMap].
    rewrite Insert_members. unfold has, recs. case_decide as Ex; [subst x|]; set_solver.
Qed.

Lemma del_one n name sid ip upd c :
  Dels n (recsFor [name] ip sid) c (deleteSvcRecords n name sid (Some ip) None upd c).
Proof.
  unfold deleteSvcRecords. destruct (nw_ingress n) eqn:Hi.
  { split; [done..|]. intros nid x e. unfold onNet. rewrite Hi. split; [|by intros [? _]]. intros ?. split; [done|by intros [? _]]. }
  destruct (svcRecords c !! nw_id n) as [sr|] eqn:Hsr.
  - assert (Hr : recs (nw_id n) c = sr) by (unfold recs; by rewrite Hsr). split; [done|..]; cbn [forIP].
    + intros Hc. destruct (Hc (nw_id n)) as [Ht H6]. rewrite Hr in Ht, H6. apply recsOk_set; [done| |exact H6].
      by apply Remove_tidy.
    + intros nid x e. unfold onNet. rewrite has_set. unfold recsFor. cbn [map]. rewrite list_elem_of_singleton.
      case_decide as E; [subst nid|split; [|by intros [? _]]; intros ?; split; [done|by intros (_ & ? & _)]].
      unfold delNameToIP. cbn [svcMap]. rewrite Remove_members. unfold has. rewrite Hr. case_decide as Ex; [subst x|]; set_solver.
  - split; [done..|]. intros nid x e. split; [|by intros [? _]]. intros Hh. split; [done|].
    intros (_ & -> & _). unfold has, recs in Hh. rewrite Hsr in Hh. cbn in Hh. rewrite members_empty in Hh. set_solver.
Qed.

Lemma add_list n sid ip names c :
  Adds n (recsFor names ip sid) c (foldl (fun c name => addSvcRecords n name sid (Some ip) None false c) c names).
Proof.
  revert c. induction names as [|name names IH]; intros c; cbn [foldl]; [apply Adds_nil|].
  exact (Adds_app _ _ _ _ _ _ (add_one n name sid ip false c) (IH _)).
Qed.

Lemma del_list n sid ip upd names c :
  Dels n (recsFor names ip sid) c (foldl (fun c name => deleteSvcRecords n name sid (Some ip) None upd c) c names).
Proof.
  revert c. induction names as [|name names IH]; intros c; cbn [foldl]; [apply Dels_nil|].
  exact (Dels_app _ _ _ _ _ _ (del_one n name sid ip upd c) (IH _)).
Qed.

(** ** What an endpoint contributes *)

Definition svcNames (b : binding) : list string := b_svcName b :: b_serviceAliases b.
Definition ownRecs (eid : string) (b : binding) := recsFor (b_containerName b :: b_taskAliases b) (b_ip b) eid.
Definition taskRecs (b : binding) := recsFor (map (String.append "tasks.") (svcNames b)) (b_ip b) (b_svcID b).
Definition directRecs (b : binding) :=
  match b_vip b with None => recsFor (svcNames b) (b_ip b) (b_svcID b) | Some _ => [] end.
Definition vipRecs (b : binding) :=
  match b_vip b with None => [] | Some v => recsFor (svcNames b) v (b_svcID b) end.

(** [en] is false for a backend that is disabled: it only keeps its service alive. *)
Definition contrib (eid : string) (en : bool) (b : binding) : list (string * svcMapEntry) :=
  if b_svcID b =? "" then ownRecs eid b
  else ((if en then ownRecs eid b ++ taskRecs b ++ directRecs b else []) ++ vipRecs b)%list.

Definition expected (T : Tbl) (nid x : string) (e : svcMapEntry) : Prop :=
  exists eid en b, T !! (nid, eid) = Some (en, b) /\ (x, e) ∈ contrib eid en b.

Definition bkey (b : binding) : serviceKey := skeyOf (b_svcID b) (b_ingressPorts b).

(** The endpoint is a backend of the service of key [k]. *)
Definition backend (T : Tbl) (k : serviceKey) (nid eid : string) (en : bool) (b : binding) : Prop :=
  T !! (nid, eid) = Some (en, b) /\ b_svcID b <> "" /\ bkey b = k.

(** ** Sensible tables *)

Record coherent (nws : gmap string Network) (T : Tbl) : Prop := {
  co_net : forall nid eid en b, T !! (nid, eid) = Some (en, b) ->
    nid <> "" /\ exists n, nws !! nid = Some n /\ nw_id n = nid /\ (b_ingressPorts b <> [] -> nw_ingress n = true);
  (* the endpoints of a service on a network agree on its names and its virtual address *)
  co_version : forall k nid eid en b eid' en' b', backend T k nid eid en b -> backend T k nid eid' en' b' ->
    b_vip b = b_vip b' /\ (forall x, x ∈ svcNames b <-> x ∈ svcNames b');
  (* an address of a service belongs to one network *)
  co_ip : forall k nid eid en b nid' eid' en' b', backend T k nid eid en b -> backend T k nid' eid' en' b' ->
    IPString (b_ip b) = IPString (b_ip b') -> nid = nid';
  co_eid : forall nid nid' eid v v', T !! (nid, eid) = Some v -> T !! (nid', eid) = Some v' -> nid = nid';
  (* service identifiers are not endpoint identifiers, virtual addresses not endpoint addresses *)
  co_sid : forall nid eid v nid' eid' en b, T !! (nid, eid) = Some v -> T !! (nid', eid') = Some (en, b) -> b_svcID b <> eid;
  co_vip : forall k nid eid en b eid' en' b' v, backend T k nid eid en b -> backend T k nid eid' en' b' ->
    b_vip b = Some v -> IPString v <> IPString (b_ip b');
  (* a container that is no task is not disabled *)
  co_container : forall nid eid en b, T !! (nid, eid) = Some (en, b) -> b_svcID b = "" -> en = true }.

(** ** The controller and the table *)

(** The backends of a service on a network. *)
Definition lbEnds (s : service) (nid : string) : gmap string lbBackend := from_option lb_backEnds ∅ (s_loadBalancers s !! nid).

Record SvcRel (T : Tbl) (k : serviceKey) (s : service) : Prop := {
  sr_live : s_deleted s = false;
  sr_key : (s_id s, portsString (s_ingressPorts s)) = k;
  sr_backend : forall nid eid be, lbEnds s nid !! eid = Some be <->
    exists en b, backend T k nid eid en b /\ be = mkBackend (b_ip b) (negb en);
  sr_lb : forall nid lb, s_loadBalancers s !! nid = Some lb ->
    lb_backEnds lb <> ∅ /\ forall eid en b, backend T k nid eid en b -> lb_vip lb = b_vip b;
  sr_ips : forall ip eid, eid ∈ members ip (s_ipToEndpoint s) <->
    exists nid b, backend T k nid eid true b /\ IPString (b_ip b) = ip }.

Record Rel (c : Controller) (T : Tbl) : Prop := {
  rel_ok : recsOk c;
  rel_records : forall nid x e, has c nid x e <->
    (exists n, networks_ c !! nid = Some n /\ nw_ingress n = false) /\ expected T nid x e;
  rel_bound : forall k p, serviceBindings c !! k = Some p ->
    exists s, services c !! p = Some s /\ SvcRel T k s /\ s_loadBalancers s <> ∅;
  rel_unbound : forall k, serviceBindings c !! k = None -> forall nid eid en b, ~ backend T k nid eid en b }.

Lemma NewController_Rel nws : Rel (NewController nws) ∅.
Proof.
  split.
  - intros nid. unfold recs. cbn. rewrite lookup_empty. split; [apply tidy_empty|done].
  - intros nid x e. unfold has, recs. cbn. rewrite lookup_empty. cbn. rewrite members_empty.
    split; [set_solver|]. intros (_ & eid & en & b & H & _). by rewrite lookup_empty in H.
  - intros k p. cbn. by rewrite lookup_empty.
  - intros k _ nid eid en b [H _]. by rewrite lookup_empty in H.
Qed.
(** ** The records that a call adds or deletes *)

Lemma addContainer_adds nID eID b c n : NetworkByID nID c = Some n ->
  exists c', addContainerNameResolution nID eID (b_containerName b) (b_taskAliases b) (b_ip b) c = (c', None) /\
    Adds n (ownRecs eID b) c c'.
Proof.
  intros Hn. unfold addContainerNameResolution. rewrite Hn. eexists. split; [reflexivity|].
  exact (Adds_app _ _ _ _ _ _ (add_one _ _ _ _ _ _) (add_list _ _ _ _ _)).
Qed.

Lemma delContainer_dels nID eID b c n : NetworkByID nID c = Some n ->
  exists c', delContainerNameResolution nID eID (b_containerName b) (b_taskAliases b) (b_ip b) c = (c', None) /\
    Dels n (ownRecs eID b) c c'.
Proof.
  intros Hn. unfold delContainerNameResolution. rewrite Hn. eexists. split; [reflexivity|].
  exact (Dels_app _ _ _ _ _ _ (del_one _ _ _ _ _ _) (del_list _ _ _ _ _ _)).
Qed.

Lemma addEndpoint_adds nID eID b addService c n : NetworkByID nID c = Some n -> b_svcID b <> "" ->
  exists c', addEndpointNameResolution (b_svcName b) (b_svcID b) nID eID (b_containerName b) (b_vip b) (b_serviceAliases b)
    (b_taskAliases b) (b_ip b) addService c = (c', None) /\
    Adds n (((ownRecs eID b ++ taskRecs b) ++ directRecs b) ++ if addService then vipRecs b else []) c c'.
Proof.
  intros Hn Hs. unfold addEndpointNameResolution. rewrite Hn.
  destruct (addContainer_adds nID eID b c n Hn) as (c1 & -> & A1). apply String.eqb_neq in Hs. rewrite Hs.
  eexists. split; [reflexivity|]. unfold directRecs, vipRecs. destruct (b_vip b), addService;
    (eapply Adds_app; [eapply Adds_app; [eapply Adds_app; [exact A1|apply add_list]|]|]; first [apply Adds_nil|apply add_list]).
Qed.

Lemma deleteEndpoint_dels nID eID b rmService multiple c n : NetworkByID nID c = Some n -> b_svcID b <> "" ->
  exists c', deleteEndpointNameResolution (b_svcName b) (b_svcID b) nID eID (b_containerName b) (b_vip b) (b_serviceAliases b)
    (b_taskAliases b) (b_ip b) rmService multiple c = (c', None) /\
    Dels n (((ownRecs eID b ++ (if multiple then [] else taskRecs b)) ++ (if multiple then [] else directRecs b)) ++
            if rmService && negb multiple then vipRecs b else []) c c'.
Proof.
  intros Hn Hs. unfold deleteEndpointNameResolution. rewrite Hn.
  destruct (delContainer_dels nID eID b c n Hn) as (c1 & -> & A1). apply String.eqb_neq in Hs. rewrite Hs. cbn [fst].
  eexists. split; [reflexivity|]. unfold directRecs, vipRecs. destruct (b_vip b), rmService, multiple; cbn [negb andb];
    (eapply Dels_app; [eapply Dels_app; [eapply Dels_app; [exact A1|]|]|]; first [apply Dels_nil|apply del_list]).
Qed.
(** ** Changes of a table *)

Lemma elem_recsFor names ip sid x e :
  (x, e) ∈ recsFor names ip sid <-> exists n, n ∈ names /\ x = ToLower n /\ e = mkEntry (IPString ip) sid.
Proof.
  unfold recsFor. rewrite list_elem_of_fmap. split.
  - intros (n & [= -> ->] & Hn). by exists n.
  - intros (n & Hn & -> & ->). by exists n.
Qed.

Lemma own_sid eid b x e : (x, e) ∈ ownRecs eid b -> me_serviceID e = eid.
Proof. intros (n & _ & _ & ->)%elem_recsFor. done. Qed.
Lemma task_entry b x e : (x, e) ∈ taskRecs b -> e = mkEntry (IPString (b_ip b)) (b_svcID b).
Proof. intros (n & _ & _ & ->)%elem_recsFor. done. Qed.
Lemma direct_entry b x e : (x, e) ∈ directRecs b -> e = mkEntry (IPString (b_ip b)) (b_svcID b).
Proof. unfold directRecs. destruct (b_vip b); [set_solver|]. intros (n & _ & _ & ->)%elem_recsFor. done. Qed.
Lemma vip_entry b x e : (x, e) ∈ vipRecs b -> exists v, b_vip b = Some v /\ e = mkEntry (IPString v) (b_svcID b).
Proof. unfold vipRecs. destruct (b_vip b) as [v|]; [|set_solver]. intros (n & _ & _ & ->)%elem_recsFor. by exists v. Qed.

Lemma bkey_svcID b b' : bkey b = bkey b' -> b_svcID b = b_svcID b'.
Proof. by intros [= ? _]. Qed.

(** Endpoints of one version of a service contribute the same records. *)
Lemma agree_recs T nws nid k eid en b eid' en' b' x e :
  coherent nws T -> backend T k nid eid en b -> backend T k nid eid' en' b' ->
  ((x, e) ∈ vipRecs b -> (x, e) ∈ vipRecs b') /\
  (IPString (b_ip b) = IPString (b_ip b') -> (x, e) ∈ taskRecs b -> (x, e) ∈ taskRecs b') /\
  (IPString (b_ip b) = IPString (b_ip b') -> (x, e) ∈ directRecs b -> (x, e) ∈ directRecs b').
Proof.
  intros HC B B'. destruct (co_version _ _ HC _ _ _ _ _ _ _ _ B B') as [Hv Hn].
  assert (Hs : b_svcID b = b_svcID b') by (apply bkey_svcID; destruct B as (_ & _ & ->), B' as (_ & _ & ->); done).
  unfold vipRecs, taskRecs, directRecs. rewrite <- Hv, <- Hs. split_and!.
  - destruct (b_vip b); [|done]. rewrite !elem_recsFor. intros (n & ? & ? & ?). exists n. by rewrite <- Hn.
  - intros Hip. rewrite !elem_recsFor, <- Hip. intros (n & (m & -> & Hm)%list_elem_of_fmap & ? & ?).
    exists (String.append "tasks." m). split; [|done]. apply list_elem_of_fmap. exists m. by rewrite <- Hn.
  - intros Hip. destruct (b_vip b); [done|]. rewrite !elem_recsFor, <- Hip. intros (n & ? & ? & ?). exists n. by rewrite <- Hn.
Qed.

Lemma elem_contrib eid en b x e : (x, e) ∈ contrib eid en b <->
  (x, e) ∈ ownRecs eid b /\ (en = true \/ b_svcID b = "") \/
  b_svcID b <> "" /\ (en = true /\ ((x, e) ∈ taskRecs b \/ (x, e) ∈ directRecs b) \/ (x, e) ∈ vipRecs b).
Proof.
  unfold contrib. destruct (b_svcID b =? "") eqn:E; [apply String.eqb_eq in E|apply String.eqb_neq in E].
  - split; [intros; left; tauto|]. intros [[? _]|[? _]]; done.
  - rewrite elem_of_app. destruct en; rewrite ?elem_of_app; [tauto|]. split; [intros [?%elem_of_nil|?]; tauto|].
    intros [[_ [?|?]]|[_ [[? _]|?]]]; try done. by right.
Qed.

(** On a network with records a service has one key. *)
Lemma same_key nws T nid n eid en b eid' en' b' :
  coherent nws T -> nws !! nid = Some n -> nw_ingress n = false ->
  T !! (nid, eid) = Some (en, b) -> T !! (nid, eid') = Some (en', b') -> b_svcID b = b_svcID b' -> bkey b = bkey b'.
Proof.
  intros HC Hn Hi H H' Hs.
  assert (Hp : forall eid en b, T !! (nid, eid) = Some (en, b) -> b_ingressPorts b = []).
  { intros ? ? b0 H0. destruct (co_net _ _ HC _ _ _ _ H0) as (_ & n0 & Hn0 & _ & Hp). simplify_eq.
    destruct (b_ingressPorts b0); [done|]. rewrite Hp in Hi by done. done. }
  unfold bkey. by rewrite (Hp _ _ _ H), (Hp _ _ _ H'), Hs.
Qed.

Lemma expected_bind nws T nid eid b addService :
  coherent nws (<[(nid, eid) := (true, b)]> T) -> b_svcID b <> "" ->
  T !! (nid, eid) = None \/ T !! (nid, eid) = Some (false, b) ->
  (addService = false -> exists eid' en' b', backend T (bkey b) nid eid' en' b') ->
  forall nid' x e, expected (<[(nid, eid) := (true, b)]> T) nid' x e <->
    expected T nid' x e \/
    (nid' = nid /\ (x, e) ∈ (((ownRecs eid b ++ taskRecs b) ++ directRecs b) ++ if addService then vipRecs b else [])%list).
Proof.
  intros HC Hs Hk Hadd nid' x e. set (T' := <[(nid, eid) := (true, b)]> T) in *.
  assert (B : backend T' (bkey b) nid eid true b) by (split; [apply lookup_insert_eq|done]).
  split.
  - intros (eid0 & en0 & b0 & H & Hx). unfold T' in H. destruct (decide ((nid', eid0) = (nid, eid))) as [[= -> ->]|Hne].
    2: { rewrite lookup_insert_ne in H by done. left. by exists eid0, en0, b0. }
    rewrite lookup_insert_eq in H. injection H as <- <-. apply elem_contrib in Hx. rewrite !elem_of_app.
    destruct addService; [right; split; [done|]; tauto|].
    destruct Hx as [[? _]|[_ [[_ [?|?]]|Hv]]]; [right; tauto..|left].
    destruct (Hadd eq_refl) as (e1 & en1 & b1 & B1). exists e1, en1, b1. split; [apply B1|]. apply elem_contrib. right.
    split; [apply B1|]. right. destruct (decide (e1 = eid)) as [->|Hne].
    + destruct Hk as [Hk|Hk]; destruct B1 as (E1 & _); rewrite Hk in E1; [done|]. by injection E1 as <- <-.
    + assert (B1' : backend T' (bkey b) nid e1 en1 b1).
      { split; [|apply B1]. unfold T'. rewrite lookup_insert_ne by congruence. apply B1. }
      by apply (agree_recs T' nws nid (bkey b) eid true b e1 en1 b1 x e HC B B1').
  - intros [(eid0 & en0 & b0 & H & Hx)|[-> Hx]].
    + destruct (decide ((nid', eid0) = (nid, eid))) as [[= -> ->]|Hne].
      * exists eid, true, b. split; [apply lookup_insert_eq|]. destruct Hk as [Hk|Hk]; rewrite Hk in H; [done|].
        injection H as <- <-. apply elem_contrib in Hx. apply elem_contrib. tauto.
      * exists eid0, en0, b0. split; [|done]. unfold T'. by rewrite lookup_insert_ne.
    + exists eid, true, b. split; [apply lookup_insert_eq|]. apply elem_contrib. rewrite !elem_of_app in Hx.
      destruct addService; [tauto|]. destruct Hx as [[[?|?]|?]|?]; [tauto..|set_solver].
Qed.

(** Who contributes a record for a service is a backend of that service. *)
Lemma svc_contrib nws T nid n eid en b eid0 en0 b0 x ip :
  coherent nws T -> nws !! nid = Some n -> nw_ingress n = false ->
  T !! (nid, eid) = Some (en, b) -> b_svcID b <> "" -> T !! (nid, eid0) = Some (en0, b0) ->
  (x, mkEntry ip (b_svcID b)) ∈ contrib eid0 en0 b0 ->
  backend T (bkey b) nid eid0 en0 b0 /\
  (en0 = true /\ ip = IPString (b_ip b0) \/ exists v, b_vip b0 = Some v /\ ip = IPString v).
Proof.
  intros HC Hn Hi H Hs H0 Hx. apply elem_contrib in Hx.
  assert (Hb : b_svcID b = b_svcID b0 -> backend T (bkey b) nid eid0 en0 b0).
  { intros E. split; [done|]. split; [congruence|]. symmetry. by apply (same_key nws T nid n eid en b eid0 en0 b0). }
  destruct Hx as [[Hx%own_sid _]|[_ [[-> [Hx%task_entry|Hx%direct_entry]]|(v & Ev & Hx)%vip_entry]]].
  - cbn in Hx. by destruct (co_sid _ _ HC nid eid0 _ nid eid en b H0 H).
  - injection Hx as -> E. auto.
  - injection Hx as -> E. auto.
  - injection Hx as -> E. split; [by apply Hb|]. right. by exists v.
Qed.

Section Unbind.
Context (nws : gmap string Network) (T T' : Tbl) (nid : string) (n : Network) (eid : string) (en : bool) (b : binding).
Context (keep multiple last : bool).
Hypothesis HC : coherent nws T.
Hypothesis Hn : nws !! nid = Some n.
Hypothesis Hi : nw_ingress n = false.
Hypothesis H : T !! (nid, eid) = Some (en, b).
Hypothesis Hs : b_svcID b <> "".
(* the endpoint is removed, or disabled when [keep] *)
Hypothesis Hoth : forall k, k <> (nid, eid) -> T' !! k = T !! k.
Hypothesis Hself : T' !! (nid, eid) = (if keep then Some (false, b) else None).
Hypothesis Hm : multiple = true <-> exists nid' eid' b', (nid', eid') <> (nid, eid) /\
  backend T (bkey b) nid' eid' true b' /\ IPString (b_ip b') = IPString (b_ip b).
Hypothesis Hl : if last then keep = false /\ forall eid' en' b', backend T (bkey b) nid eid' en' b' -> eid' = eid
  else keep = false -> exists eid' en' b', eid' <> eid /\ backend T (bkey b) nid eid' en' b'.

Let removed : list (string * svcMapEntry) :=
  (((ownRecs eid b ++ (if multiple then [] else taskRecs b)) ++ (if multiple then [] else directRecs b)) ++
   if last && negb multiple then vipRecs b else [])%list.

Lemma elem_removed x e : (x, e) ∈ removed <->
  (x, e) ∈ ownRecs eid b \/ multiple = false /\ ((x, e) ∈ taskRecs b \/ (x, e) ∈ directRecs b) \/
  last = true /\ multiple = false /\ (x, e) ∈ vipRecs b.
Proof. clear HC Hn Hi H Hs Hoth Hself Hm Hl. unfold removed. rewrite !elem_of_app. destruct multiple, last; cbn; rewrite ?elem_of_nil; intuition congruence. Qed.

Lemma backend_self : backend T (bkey b) nid eid en b.
Proof. done. Qed.

(** Another endpoint of the network contributes nothing that is removed. *)
Lemma other_kept eid0 en0 b0 x e : eid0 <> eid -> T !! (nid, eid0) = Some (en0, b0) ->
  (x, e) ∈ contrib eid0 en0 b0 -> (x, e) ∉ removed.
Proof.
  intros Hne H0 Hx. rewrite elem_removed.
  assert (Hip : forall ip, e = mkEntry ip (b_svcID b) -> backend T (bkey b) nid eid0 en0 b0 /\
     (en0 = true /\ ip = IPString (b_ip b0) \/ exists v, b_vip b0 = Some v /\ ip = IPString v)).
  { intros ip ->. by apply (svc_contrib nws T nid n eid en b eid0 en0 b0 x ip). }
  assert (Hno : multiple = false -> e <> mkEntry (IPString (b_ip b)) (b_svcID b)).
  { intros Hmf E. destruct (Hip _ E) as [B0 [[-> Eip]|(v & Ev & Eip)]].
    - enough (multiple = true) by congruence. apply Hm. exists nid, eid0, b0. split; [congruence|done].
    - by apply (co_vip _ _ HC _ _ _ _ _ _ _ _ v B0 backend_self Ev). }
  intros [Hy%own_sid|[(Hmf & [Hy%task_entry|Hy%direct_entry])|(Hlt & _ & (v & _ & Hy)%vip_entry)]].
  - apply elem_contrib in Hx. assert (Hsid : me_serviceID e = eid0 \/ me_serviceID e = b_svcID b0).
    { destruct Hx as [[Hx%own_sid _]|[_ [[_ [Hx%task_entry|Hx%direct_entry]]|(v & _ & Hx)%vip_entry]]]; subst; cbn; auto. }
    destruct Hsid as [?|?]; [congruence|]. apply (co_sid _ _ HC nid eid _ nid eid0 en0 b0 H H0). congruence.
  - by apply Hno.
  - by apply Hno.
  - rewrite Hlt in Hl. destruct (Hip _ Hy) as [B0 _]. by apply Hne, (proj2 Hl _ _ _ B0).
Qed.

Lemma expected_unbind x e : expected T' nid x e <-> expected T nid x e /\ (x, e) ∉ removed.
Proof.
  split.
  - intros (eid0 & en0 & b0 & H0 & Hx). destruct (decide (eid0 = eid)) as [->|Hne].
    + rewrite Hself in H0. destruct keep eqn:Hk; [|done]. injection H0 as <- <-.
      apply elem_contrib in Hx as [[_ [?|?]]|[_ [[? _]|Hv]]]; [done..|]. split.
      { exists eid, en, b. split; [done|]. apply elem_contrib. tauto. }
      apply vip_entry in Hv as (v & Ev & ->). pose proof (co_vip _ _ HC _ _ _ _ _ _ _ _ v backend_self backend_self Ev) as Hvip.
      rewrite elem_removed. intros [Hy%own_sid|[(_ & [Hy%task_entry|Hy%direct_entry])|(Hlt & _)]].
      * by apply (co_sid _ _ HC nid eid _ nid eid en b H H).
      * by injection Hy.
      * by injection Hy.
      * rewrite Hlt in Hl. by destruct Hl.
    + rewrite Hoth in H0 by congruence. split; [by exists eid0, en0, b0|]. by eapply other_kept.
  - intros [(eid0 & en0 & b0 & H0 & Hx) Hr]. destruct (decide (eid0 = eid)) as [->|Hne].
    2: { exists eid0, en0, b0. by rewrite Hoth by congruence. }
    rewrite H in H0. injection H0 as <- <-. rewrite elem_removed in Hr. apply elem_contrib in Hx.
    assert (Hother : forall eid1 en1 b1, eid1 <> eid -> backend T (bkey b) nid eid1 en1 b1 -> (x, e) ∈ contrib eid1 en1 b1 -> expected T' nid x e).
    { intros eid1 en1 b1 Hne B1 H1. exists eid1, en1, b1. rewrite Hoth by congruence. by destruct B1. }
    assert (Hmul : multiple = true -> exists eid1 b1, eid1 <> eid /\ backend T (bkey b) nid eid1 true b1 /\ IPString (b_ip b) = IPString (b_ip b1)).
    { intros (nid1 & eid1 & b1 & Hne & B1 & Eip)%Hm. assert (nid = nid1) as <-.
      { by apply (co_ip _ _ HC _ _ _ _ _ _ _ _ _ backend_self B1). }
      exists eid1, b1. split; [congruence|done]. }
    destruct Hx as [[Hx _]|[_ [[_ Hx]|Hx]]]; [tauto|..].
    + destruct multiple eqn:Em; [|tauto]. destruct (Hmul eq_refl) as (eid1 & b1 & Hne & B1 & Eip).
      apply (Hother eid1 true b1 Hne B1). apply elem_contrib. right. split; [apply B1|]. left. split; [done|].
      destruct (agree_recs T nws nid _ _ _ _ _ _ _ x e HC backend_self B1) as (_ & Ht & Hd). tauto.
    + destruct keep eqn:Hk.
      { exists eid, false, b. split; [done|]. apply elem_contrib. tauto. }
      assert (Hex : exists eid1 en1 b1, eid1 <> eid /\ backend T (bkey b) nid eid1 en1 b1).
      { destruct multiple eqn:Em; [destruct (Hmul eq_refl) as (eid1 & b1 & ? & ? & _); by exists eid1, true, b1|].
        destruct last; [tauto|]. by apply Hl. }
      destruct Hex as (eid1 & en1 & b1 & Hne & B1). apply (Hother eid1 en1 b1 Hne B1). apply elem_contrib. right.
      split; [apply B1|]. right. by apply (agree_recs T nws nid _ _ _ _ _ _ _ x e HC backend_self B1).
Qed.
End Unbind.
End Spec.
