(* ===== verification/DiscoverySteps.v ===== *)
(** * Service discovery: the calls

    Each call of the controller leads from a state that matches a table of endpoints to one
    that matches the changed table ([Rel]). *)

From Stdlib Require Import Ascii String.
From S2P Require Import Prelude Slices NetIP NetworkDB SetMatrix Discovery DiscoverySpec.
From stdpp Require Import gmap strings list.
Import SetMatrix.

Local Open Scope string_scope.

Section Steps.
Context `{HN : NetLib}.

Lemma SvcRel_same T T' k s :
  (forall nid eid en b, backend T' k nid eid en b <-> backend T k nid eid en b) -> SvcRel T k s -> SvcRel T' k s.
Proof.
  intros He [L K Bk Lb Ip]. split; [done|done|..].
  - intros nid eid be. rewrite Bk. by setoid_rewrite He.
  - intros nid lb Hlb. destruct (Lb _ _ Hlb) as [? Hv]. split; [done|]. intros eid en b B. eapply Hv, He, B.
  - intros ip eid. rewrite Ip. by setoid_rewrite He.
Qed.

(** The backends of other services are not affected by a change of one endpoint. *)
Lemma backend_other T T' nid eid b k :
  b_svcID b <> "" -> k <> bkey b -> (forall x, x <> (nid, eid) -> T' !! x = T !! x) ->
  (T !! (nid, eid) = None \/ exists en, T !! (nid, eid) = Some (en, b)) ->
  (T' !! (nid, eid) = None \/ exists en, T' !! (nid, eid) = Some (en, b)) ->
  forall nid' eid' en' b', backend T' k nid' eid' en' b' <-> backend T k nid' eid' en' b'.
Proof.
  intros Hs Hk Hoth H H' nid' eid' en' b'. unfold backend. destruct (decide ((nid', eid') = (nid, eid))) as [[= -> ->]|Hne].
  2: by rewrite Hoth by done.
  split; intros (E & Hb & Hkey); exfalso.
  - destruct H' as [H'|[en H']]; rewrite H' in E; [done|]. injection E as <- <-. by apply Hk.
  - destruct H as [H|[en H]]; rewrite H in E; [done|]. injection E as <- <-. by apply Hk.
Qed.

Lemma newService_rel T b : (forall nid eid en b', ~ backend T (bkey b) nid eid en b') ->
  SvcRel T (bkey b) (newService (b_svcName b) (b_svcID b) (b_ingressPorts b) (b_serviceAliases b)).
Proof.
  intros Hno. split; [done|done|..].
  - intros nid eid be. unfold lbEnds. cbn. rewrite lookup_empty. cbn. rewrite lookup_empty. split; [done|].
    intros (en & b' & B & _). by apply Hno in B.
  - intros nid lb. cbn. by rewrite lookup_empty.
  - intros ip eid. cbn. rewrite members_empty. split; [set_solver|]. intros (nid & b' & B & _). by apply Hno in B.
Qed.

(** [c] as seen by a call that holds the service [p] of key [k]. *)
Record Holding (c : Controller) (T : Tbl) (k : serviceKey) (p : positive) : Prop := {
  ho_p : serviceBindings c !! k = Some p;
  ho_bound : forall k' p', k' <> k -> serviceBindings c !! k' = Some p' ->
    p' <> p /\ exists s, services c !! p' = Some s /\ SvcRel T k' s /\ s_loadBalancers s <> ∅;
  ho_unbound : forall k', k' <> k -> serviceBindings c !! k' = None -> forall nid eid en b, ~ backend T k' nid eid en b }.

Lemma Rel_holding c T k p : Rel c T -> serviceBindings c !! k = Some p -> Holding c T k p.
Proof.
  intros HR Hp. split; [done|..].
  - intros k' p' Hk Hp'. split; [|by apply (rel_bound _ _ HR)]. intros ->.
    destruct (rel_bound _ _ HR _ _ Hp) as (s & E & S & _). destruct (rel_bound _ _ HR _ _ Hp') as (s' & E' & S' & _).
    simplify_eq. apply Hk. by rewrite <- (sr_key _ _ _ S), <- (sr_key _ _ _ S').
  - intros k' _. by apply (rel_unbound _ _ HR).
Qed.

Lemma bindLookup_ok c T b : Rel c T ->
  exists c1 p s, bindLookup b c = (c1, p) /\ networks_ c1 = networks_ c /\ svcRecords c1 = svcRecords c /\
    Holding c1 T (bkey b) p /\ services c1 !! p = Some s /\ SvcRel T (bkey b) s.
Proof.
  intros HR. unfold bindLookup. fold (bkey b). destruct (serviceBindings c !! bkey b) as [p|] eqn:Hp.
  - destruct (rel_bound _ _ HR _ _ Hp) as (s & E & S & _). exists c, p, s. split_and!; try done. by apply Rel_holding.
  - eexists _, _, _. split; [reflexivity|]. split; [done|]. split; [done|]. cbn [services set_serviceBindings set_services].
    split; [|split; [by rewrite lookup_insert_eq|by apply newService_rel, (rel_unbound _ _ HR)]]. split; cbn.
    + by rewrite lookup_insert_eq.
    + intros k' p' Hk. rewrite lookup_insert_ne by done. intros Hp'. destruct (rel_bound _ _ HR _ _ Hp') as (s' & E' & S' & Hl).
      assert (Hne : p' <> fresh (dom (services c))).
      { intros ->. apply (is_fresh (dom (services c))). apply elem_of_dom. by exists s'. }
      split; [done|]. exists s'. by rewrite lookup_insert_ne.
    + intros k' Hk. rewrite lookup_insert_ne by done. by apply (rel_unbound _ _ HR).
Qed.

(** Putting the changed service back, with the records of the changed table. *)
Lemma Holding_Rel c T k p c' T' s' nid eid b :
  Holding c T k p -> k = bkey b -> b_svcID b <> "" -> (forall x, x <> (nid, eid) -> T' !! x = T !! x) ->
  (T !! (nid, eid) = None \/ exists en, T !! (nid, eid) = Some (en, b)) ->
  (T' !! (nid, eid) = None \/ exists en, T' !! (nid, eid) = Some (en, b)) ->
  services c' = <[p := s']> (services c) ->
  serviceBindings c' = (if bool_decide (s_loadBalancers s' = ∅) then delete k (serviceBindings c) else serviceBindings c) ->
  (s_loadBalancers s' = ∅ -> forall nid eid en b, ~ backend T' k nid eid en b) ->
  (s_loadBalancers s' <> ∅ -> SvcRel T' k s') ->
  recsOk c' ->
  (forall nid x e, has c' nid x e <-> (exists n, networks_ c' !! nid = Some n /\ nw_ingress n = false) /\ expected T' nid x e) ->
  Rel c' T'.
Proof.
  intros HH -> Hb Hoth Hold Hnew Hsv Hbi Hempty Hfull Hok Hrec.
  pose proof (fun k Hk => backend_other T T' nid eid b k Hb Hk Hoth Hold Hnew) as Hbo. split; [done|done|..].
  - intros k p' Hp'. rewrite Hbi in Hp'. destruct (decide (k = bkey b)) as [->|Hk].
    + case_bool_decide as He; [by rewrite lookup_delete_eq in Hp'|]. rewrite (ho_p _ _ _ _ HH) in Hp'. injection Hp' as <-.
      exists s'. rewrite Hsv, lookup_insert_eq. auto.
    + assert (Hp : serviceBindings c !! k = Some p') by (case_bool_decide; [by rewrite lookup_delete_ne in Hp'|done]).
      destruct (ho_bound _ _ _ _ HH _ _ Hk Hp) as (Hne & s & E & S & Hl). exists s. rewrite Hsv, lookup_insert_ne by done.
      split; [done|]. split; [|done]. by apply (SvcRel_same T); [apply Hbo|].
  - intros k Hp' nid' eid' en' b' B. rewrite Hbi in Hp'. destruct (decide (k = bkey b)) as [->|Hk].
    + case_bool_decide as He; [by eapply Hempty|]. by rewrite (ho_p _ _ _ _ HH) in Hp'.
    + assert (Hp : serviceBindings c !! k = None) by (case_bool_decide; [by rewrite lookup_delete_ne in Hp'|done]).
      eapply (ho_unbound _ _ _ _ HH k Hk Hp), Hbo; done.
Qed.
(** ** Adding *)

(** The service after the endpoint has been added. *)
Definition bound (s : service) (lb : loadBalancer) (nid eid : string) (b : binding) : service :=
  mkService (s_name s) (s_id s) (s_ingressPorts s)
    (<[nid := mkLB (lb_vip lb) (lb_fwMark lb) (<[eid := mkBackend (b_ip b) false]> (lb_backEnds lb))]> (s_loadBalancers s))
    (s_aliases s) (Insert (IPString (b_ip b)) eid (s_ipToEndpoint s)).1 (s_deleted s).

(** The load balancer that [bindLocked] uses. *)
Definition lbFor (s : service) (nid : string) (b : binding) (mark : Z) : loadBalancer :=
  default (mkLB (b_vip b) mark ∅) (s_loadBalancers s !! nid).

Lemma bindLocked_eq n nid eid b p c s : services c !! p = Some s ->
  exists c1, bindLocked n nid eid b p c =
    addEndpointNameResolution (b_svcName b) (b_svcID b) nid eid (b_containerName b) (b_vip b) (b_serviceAliases b)
      (b_taskAliases b) (b_ip b) (bool_decide (s_loadBalancers s !! nid = None)) c1 /\
    networks_ c1 = networks_ c /\ svcRecords c1 = svcRecords c /\ serviceBindings c1 = serviceBindings c /\
    services c1 = <[p := bound s (lbFor s nid b (fwMarkCtr c)) nid eid b]> (services c).
Proof.
  intros Hs. unfold bindLocked, lbFor. rewrite Hs. destruct (s_loadBalancers s !! nid) as [lb|] eqn:Hlb;
    [rewrite bool_decide_eq_false_2 by done|rewrite bool_decide_eq_true_2 by done];
    (eexists; split; [reflexivity|]); unfold addLBBackend, bound, id; cbn [lb_vip lb_fwMark lb_backEnds default from_option];
    [destruct (lb_vip lb)|destruct (b_vip b)]; split_and!; reflexivity.
Qed.

Lemma lbEnds_for s nid b mark : lb_backEnds (lbFor s nid b mark) = lbEnds s nid.
Proof. unfold lbFor, lbEnds. by destruct (s_loadBalancers s !! nid). Qed.

Lemma lbEnds_bound s nid eid b mark nid' :
  lbEnds (bound s (lbFor s nid b mark) nid eid b) nid' =
    if decide (nid' = nid) then <[eid := mkBackend (b_ip b) false]> (lbEnds s nid) else lbEnds s nid'.
Proof.
  unfold lbEnds at 1. cbn. case_decide as E; [subst; rewrite lookup_insert_eq; cbn; by rewrite lbEnds_for|].
  by rewrite lookup_insert_ne.
Qed.

Lemma no_lb T k s nid : SvcRel T k s -> s_loadBalancers s !! nid = None -> forall eid en b, ~ backend T k nid eid en b.
Proof.
  intros S Hlb eid en b B. assert (H : lbEnds s nid !! eid = Some (mkBackend (b_ip b) (negb en))).
  { apply (sr_backend _ _ _ S). by exists en, b. }
  unfold lbEnds in H. rewrite Hlb in H. cbn in H. by rewrite lookup_empty in H.
Qed.

Lemma some_backend T k s nid lb : SvcRel T k s -> s_loadBalancers s !! nid = Some lb -> exists eid en b, backend T k nid eid en b.
Proof.
  intros S Hlb. destruct (sr_lb _ _ _ S _ _ Hlb) as [Hne _]. apply map_choose in Hne as (eid & be & Hbe).
  assert (H : lbEnds s nid !! eid = Some be) by (unfold lbEnds; by rewrite Hlb).
  apply (sr_backend _ _ _ S) in H as (en & b & B & _). by exists eid, en, b.
Qed.

Lemma backend_insert T nid eid b k nid' eid' en' b' :
  backend (<[(nid, eid) := (true, b)]> T) k nid' eid' en' b' <->
  if decide ((nid', eid') = (nid, eid)) then en' = true /\ b' = b /\ b_svcID b <> "" /\ bkey b = k
  else backend T k nid' eid' en' b'.
Proof.
  unfold backend. case_decide as E; [injection E as -> ->; rewrite lookup_insert_eq|by rewrite lookup_insert_ne].
  split; [intros ([= <- <-] & ? & ?); done|intros (-> & -> & ? & ?); done].
Qed.

(** The virtual address of a load balancer is that of its backends. *)
Lemma lbFor_vip nws T nid eid b s mark eid' en' b' :
  coherent nws (<[(nid, eid) := (true, b)]> T) -> SvcRel T (bkey b) s -> b_svcID b <> "" ->
  T !! (nid, eid) = None \/ T !! (nid, eid) = Some (false, b) ->
  backend (<[(nid, eid) := (true, b)]> T) (bkey b) nid eid' en' b' -> lb_vip (lbFor s nid b mark) = b_vip b'.
Proof.
  intros HC S Hs Hk B'.
  assert (B : backend (<[(nid, eid) := (true, b)]> T) (bkey b) nid eid true b) by (apply backend_insert; by rewrite decide_True).
  destruct (co_version _ _ HC _ _ _ _ _ _ _ _ B B') as [Hv _]. rewrite <- Hv. unfold lbFor.
  destruct (s_loadBalancers s !! nid) as [lb|] eqn:Hlb; cbn; [|done].
  destruct (some_backend _ _ _ _ _ S Hlb) as (e1 & en1 & b1 & B1). destruct (sr_lb _ _ _ S _ _ Hlb) as [_ Hl].
  rewrite (Hl _ _ _ B1). destruct (decide (e1 = eid)) as [->|Hne].
  - destruct Hk as [Hk|Hk]; destruct B1 as (E1 & _); rewrite Hk in E1; [done|]. by injection E1 as <- <-.
  - assert (B2 : backend (<[(nid, eid) := (true, b)]> T) (bkey b) nid e1 en1 b1) by (apply backend_insert; rewrite decide_False by congruence; done).
    by destruct (co_version _ _ HC _ _ _ _ _ _ _ _ B2 B) as [? _].
Qed.

Lemma bound_rel nws T nid eid b s mark :
  coherent nws (<[(nid, eid) := (true, b)]> T) -> SvcRel T (bkey b) s -> b_svcID b <> "" ->
  T !! (nid, eid) = None \/ T !! (nid, eid) = Some (false, b) ->
  SvcRel (<[(nid, eid) := (true, b)]> T) (bkey b) (bound s (lbFor s nid b mark) nid eid b).
Proof.
  intros HC S Hs Hk. split.
  - apply S.
  - apply S.
  - intros nid' eid' be. rewrite lbEnds_bound. setoid_rewrite backend_insert.
    case_decide as E; [subst nid'; destruct (decide (eid' = eid)) as [->|Hne]|].
    + rewrite lookup_insert_eq. split; [intros [= <-]; exists true, b; by rewrite decide_True|].
      intros (en & b0 & Hb & ->). rewrite decide_True in Hb by done. by destruct Hb as (-> & -> & _).
    + rewrite lookup_insert_ne, (sr_backend _ _ _ S) by done. by setoid_rewrite (decide_False (P := (nid, eid') = (nid, eid))); [|congruence..].
    + rewrite (sr_backend _ _ _ S). by setoid_rewrite (decide_False (P := (nid', eid') = (nid, eid))); [|congruence..].
  - intros nid' lb Hlb. cbn in Hlb. destruct (decide (nid' = nid)) as [->|Hne].
    + rewrite lookup_insert_eq in Hlb. injection Hlb as <-. cbn. split; [apply insert_non_empty|].
      intros eid' en' b' B'. by eapply lbFor_vip.
    + rewrite lookup_insert_ne in Hlb by done. destruct (sr_lb _ _ _ S _ _ Hlb) as [Hn Hl]. split; [done|].
      intros eid' en' b' B'. apply backend_insert in B'. rewrite decide_False in B' by congruence. by eapply Hl.
  - intros ip eid'. cbn [s_ipToEndpoint bound]. rewrite Insert_members. setoid_rewrite backend_insert.
    assert (Ho : forall nid' b', eid' <> eid -> (if decide ((nid', eid') = (nid, eid)) then true = true /\ b' = b /\ b_svcID b <> "" /\ bkey b = bkey b
       else backend T (bkey b) nid' eid' true b') <-> backend T (bkey b) nid' eid' true b') by (intros; rewrite decide_False by congruence; done).
    destruct (decide (eid' = eid)) as [->|Hne].
    + split.
      * intros Hin. assert (Hd : ip = IPString (b_ip b) \/ eid ∈ members ip (s_ipToEndpoint s)) by (case_decide; set_solver).
        destruct Hd as [->|Hin2]; [exists nid, b; by rewrite decide_True|]. apply (sr_ips _ _ _ S) in Hin2 as (nid2 & b2 & B2 & Hip).
        exists nid2, b2. destruct (decide (nid2 = nid)) as [->|Hne2]; [|rewrite decide_False by congruence; done].
        destruct B2 as (E2 & _). destruct Hk as [Hk|Hk]; rewrite Hk in E2; done.
      * intros (nid2 & b2 & B2 & Hip). case_decide as Hd; [injection Hd as ->; destruct B2 as (_ & -> & _); subst ip; rewrite decide_True by done; set_solver|].
        assert (Hin : eid ∈ members ip (s_ipToEndpoint s)) by (apply (sr_ips _ _ _ S); by exists nid2, b2).
        case_decide; set_solver.
    + setoid_rewrite Ho; [|done..]. rewrite <- (sr_ips _ _ _ S). case_decide; set_solver.
Qed.
Lemma core_fields c c' : core c' = core c ->
  networks_ c' = networks_ c /\ services c' = services c /\ serviceBindings c' = serviceBindings c.
Proof. unfold core. by intros [= -> -> -> _ _]. Qed.

Lemma has_same c c' : svcRecords c' = svcRecords c -> forall nid x e, has c' nid x e <-> has c nid x e.
Proof. intros E nid x e. unfold has, recs. by rewrite E. Qed.
Lemma recsOk_same c c' : svcRecords c' = svcRecords c -> recsOk c -> recsOk c'.
Proof. intros E Hc nid. unfold recs. rewrite E. apply Hc. Qed.

Lemma NetworkByID_ok nws T nid eid en b c : coherent nws T -> networks_ c = nws -> T !! (nid, eid) = Some (en, b) ->
  exists n, NetworkByID nid c = Some n /\ nws !! nid = Some n /\ nw_id n = nid.
Proof.
  intros HC <- H. destruct (co_net _ _ HC _ _ _ _ H) as (Hne & n & Hn & Hid & _). exists n. unfold NetworkByID.
  apply String.eqb_neq in Hne. by rewrite Hne.
Qed.

(** [addServiceBinding] of an endpoint that is new, or disabled. *)
Lemma bind_ok c T nid eid b fuel :
  Rel c T -> (0 < fuel)%nat -> coherent (networks_ c) (<[(nid, eid) := (true, b)]> T) -> b_svcID b <> "" ->
  T !! (nid, eid) = None \/ T !! (nid, eid) = Some (false, b) ->
  exists c', addServiceBinding fuel nid eid b c = Some (c', None) /\
    Rel c' (<[(nid, eid) := (true, b)]> T) /\ networks_ c' = networks_ c.
Proof.
  intros HR Hf HC Hs Hk. destruct fuel as [|fuel]; [lia|]. set (T' := <[(nid, eid) := (true, b)]> T) in *.
  assert (HT : T' !! (nid, eid) = Some (true, b)) by apply lookup_insert_eq.
  destruct (NetworkByID_ok _ _ _ _ _ _ c HC eq_refl HT) as (n & Hn & Hnw & Hid).
  destruct (bindLookup_ok c T b HR) as (c1 & p & s & Hl & N1 & R1 & HH & Hp & S).
  destruct (bindLocked_eq n nid eid b p c1 s Hp) as (c2 & Hb & N2 & R2 & B2 & S2).
  assert (Hn2 : NetworkByID nid c2 = Some n) by (unfold NetworkByID in *; by rewrite N2, N1).
  destruct (addEndpoint_adds nid eid b (bool_decide (s_loadBalancers s !! nid = None)) c2 n Hn2 Hs) as (c' & Ha & [C' O' A']).
  exists c'. unfold addServiceBinding. rewrite Hn. cbn [bindLoop]. rewrite Hl. unfold deletedAt. rewrite Hp, (sr_live _ _ _ S).
  split; [by rewrite Hb, Ha|]. apply core_fields in C' as (N' & S' & B'). split; [|congruence].
  assert (HRR : svcRecords c2 = svcRecords c) by congruence.
  eapply (Holding_Rel c1 T (bkey b) p c' T' (bound s (lbFor s nid b (fwMarkCtr c1)) nid eid b) nid eid b HH); try done.
  - intros x Hx. by apply lookup_insert_ne.
  - destruct Hk as [Hk|Hk]; [by left|right; by exists false].
  - right. by exists true.
  - by rewrite S', S2.
  - rewrite bool_decide_eq_false_2 by apply insert_non_empty. by rewrite B', B2.
  - intros He. cbn in He. by apply insert_non_empty in He.
  - intros _. by apply (bound_rel (networks_ c)).
  - by apply O', (recsOk_same c), (rel_ok _ _ HR).
  - intros nid' x e. rewrite A', (has_same c c2) by done. rewrite (rel_records _ _ HR), N', N2, N1. unfold onNet. rewrite Hid.
    unfold T'. rewrite (expected_bind (networks_ c) T nid eid b (bool_decide (s_loadBalancers s !! nid = None)) HC Hs Hk).
    + split; [intros [?|(Hi & -> & ?)]; [tauto|split; [by exists n|tauto]]|]. intros [(n' & Hn' & Hi) [?|[-> ?]]].
      * left. split; [by exists n'|done].
      * right. simplify_eq. done.
    + intros Hd%bool_decide_eq_false. apply not_eq_None_Some in Hd as [lb Hlb]. by eapply some_backend.
Qed.
(** ** Removing *)

Definition remaining (fullRemove : bool) (eid : string) (be : lbBackend) (ends : gmap string lbBackend) : gmap string lbBackend :=
  if fullRemove then delete eid ends else <[eid := mkBackend (be_ip be) true]> ends.

(** The service after the endpoint has been removed or disabled; [del] is its mark. *)
Definition unbound (s : service) (lb : loadBalancer) (be : lbBackend) (nid eid : string) (b : binding) (fullRemove del : bool) : service :=
  let ends := remaining fullRemove eid be (lb_backEnds lb) in
  mkService (s_name s) (s_id s) (s_ingressPorts s)
    (if (size ends =? 0)%nat then delete nid (s_loadBalancers s)
     else <[nid := mkLB (lb_vip lb) (lb_fwMark lb) ends]> (s_loadBalancers s))
    (s_aliases s) (Remove (IPString (b_ip b)) eid (s_ipToEndpoint s)).1 del.

Lemma unbindLocked_eq nid eid b full p c s lb be :
  services c !! p = Some s -> s_loadBalancers s !! nid = Some lb -> lb_backEnds lb !! eid = Some be ->
  let s' := unbound s lb be nid eid b full (s_deleted s) in
  exists c1, networks_ c1 = networks_ c /\ svcRecords c1 = svcRecords c /\ serviceBindings c1 = serviceBindings c /\
    services c1 = <[p := s']> (services c) /\
    unbindLocked nid eid b true full p c =
      match deleteEndpointNameResolution (b_svcName b) (b_svcID b) nid eid (b_containerName b) (b_vip b) (b_serviceAliases b)
              (b_taskAliases b) (b_ip b) (size (remaining full eid be (lb_backEnds lb)) =? 0)%nat
              (0 <? size (members (IPString (b_ip b)) (s_ipToEndpoint s')))%nat c1 with
      | (c2, Some e) => (c2, Some e)
      | (c2, None) =>
          if (size (s_loadBalancers s') =? 0)%nat then
            (set_serviceBindings (delete (bkey b) (serviceBindings c2))
               (set_services (<[p := unbound s lb be nid eid b full true]> (services c2)) c2), None)
          else (c2, None)
      end.
Proof.
  intros Hs Hlb Hbe. cbv zeta. unfold unbindLocked, unbound. rewrite Hs, Hlb, Hbe. cbn [s_ipToEndpoint s_loadBalancers].
  pose proof (Remove_result (IPString (b_ip b)) eid (s_ipToEndpoint s)) as Hr.
  destruct (Remove (IPString (b_ip b)) eid (s_ipToEndpoint s)) as [m [ok entries]] eqn:Hrm. cbn [snd fst] in Hr. injection Hr as -> ->.
  eexists. split_and!; [..|reflexivity]; cbn [fst]; (destruct (_ =? 0)%nat; [destruct (NetworkByID _ _)|]; [|done..]);
    unfold rmLBBackend; cbn [lb_vip]; (destruct (lb_vip lb); done).
Qed.

Section Unbound.
Context (nws : gmap string Network) (T T' : Tbl) (nid eid : string) (en : bool) (b : binding) (full : bool).
Context (s : service) (lb : loadBalancer) (be : lbBackend).
Hypothesis HC : coherent nws T.
Hypothesis H : T !! (nid, eid) = Some (en, b).
Hypothesis Hs : b_svcID b <> "".
Hypothesis Hoth : forall k, k <> (nid, eid) -> T' !! k = T !! k.
Hypothesis Hself : T' !! (nid, eid) = (if negb full then Some (false, b) else None).
Hypothesis S : SvcRel T (bkey b) s.
Hypothesis Hlb : s_loadBalancers s !! nid = Some lb.
Hypothesis Hbe : lb_backEnds lb !! eid = Some be.

Let s' := unbound s lb be nid eid b full (s_deleted s).
Let ends := remaining full eid be (lb_backEnds lb).

Lemma ends_s : lb_backEnds lb = lbEnds s nid.
Proof. unfold lbEnds. by rewrite Hlb. Qed.

Lemma be_eq : be = mkBackend (b_ip b) (negb en).
Proof.
  assert (Hx : lbEnds s nid !! eid = Some be) by (by rewrite <- ends_s). apply (sr_backend _ _ _ S) in Hx as (en' & b' & (E & _) & ->).
  rewrite H in E. by injection E as <- <-.
Qed.

Lemma lbEnds_unbound nid' : lbEnds s' nid' = if decide (nid' = nid) then ends else lbEnds s nid'.
Proof.
  unfold lbEnds at 1. cbn. fold ends. destruct (size ends =? 0)%nat eqn:Ez.
  - case_decide as E; [subst; rewrite lookup_delete_eq; cbn|by rewrite lookup_delete_ne].
    apply Nat.eqb_eq, map_size_empty_inv in Ez. by rewrite Ez.
  - case_decide as E; [subst; by rewrite lookup_insert_eq|by rewrite lookup_insert_ne].
Qed.

Lemma backend_changed nid' eid' en' b' : backend T' (bkey b) nid' eid' en' b' <->
  if decide ((nid', eid') = (nid, eid)) then full = false /\ en' = false /\ b' = b else backend T (bkey b) nid' eid' en' b'.
Proof.
  unfold backend. case_decide as E; [|by rewrite Hoth]. injection E as -> ->. rewrite Hself. destruct full; cbn.
  - split; [by intros [? _]|by intros [? _]].
  - split; [intros ([= <- <-] & _); done|intros (_ & -> & ->); done].
Qed.

Lemma unbound_rel : SvcRel T' (bkey b) s'.
Proof.
  split; [apply S|apply S|..].
  - intros nid' eid' be'. rewrite lbEnds_unbound. setoid_rewrite backend_changed.
    case_decide as E; [subst nid'; destruct (decide (eid' = eid)) as [->|Hne]|].
    + unfold ends, remaining. rewrite be_eq. destruct full; [rewrite lookup_delete_eq|rewrite lookup_insert_eq].
      * split; [done|]. intros (en' & b' & Hb & _). rewrite decide_True in Hb by done. by destruct Hb.
      * split; [intros [= <-]; exists false, b; by rewrite decide_True|]. intros (en' & b' & Hb & ->).
        rewrite decide_True in Hb by done. by destruct Hb as (_ & -> & ->).
    + setoid_rewrite (decide_False (P := (nid, eid') = (nid, eid))); [|congruence..]. rewrite <- (sr_backend _ _ _ S), <- ends_s.
      unfold ends, remaining. destruct full; by rewrite ?lookup_delete_ne, ?lookup_insert_ne by done.
    + setoid_rewrite (decide_False (P := (nid', eid') = (nid, eid))); [|congruence..]. by rewrite (sr_backend _ _ _ S).
  - assert (Hv : forall nid' lb', s_loadBalancers s !! nid' = Some lb' -> forall eid' en' b', backend T' (bkey b) nid' eid' en' b' -> lb_vip lb' = b_vip b').
    { intros nid' lb' Hlb' eid' en' b' B. apply backend_changed in B. destruct (sr_lb _ _ _ S _ _ Hlb') as [_ Hl].
      case_decide as E; [|by eapply Hl]. injection E as -> ->. destruct B as (_ & _ & ->). by eapply (Hl eid en b). }
    intros nid' lb' Hlb'. cbn in Hlb'. fold ends in Hlb'. destruct (size ends =? 0)%nat eqn:Ez.
    + apply lookup_delete_Some in Hlb' as [Hne Hlb']. split; [by apply (sr_lb _ _ _ S nid')|]. by apply Hv.
    + destruct (decide (nid' = nid)) as [->|Hne].
      * rewrite lookup_insert_eq in Hlb'. injection Hlb' as <-. cbn. split; [|by apply Hv].
        apply Nat.eqb_neq in Ez. intros E. apply Ez. by rewrite E, map_size_empty.
      * rewrite lookup_insert_ne in Hlb' by done. split; [by apply (sr_lb _ _ _ S nid')|]. by apply Hv.
  - intros ip eid'. cbn [s_ipToEndpoint s' unbound]. rewrite Remove_members. setoid_rewrite backend_changed.
    destruct (decide (eid' = eid)) as [->|Hne].
    + split.
      * intros Hin. assert (Hin2 : ip <> IPString (b_ip b) /\ eid ∈ members ip (s_ipToEndpoint s)) by (case_decide; set_solver).
        destruct Hin2 as [Hne Hin2]. apply (sr_ips _ _ _ S) in Hin2 as (nid2 & b2 & (E2 & _) & <-).
        rewrite (co_eid _ _ HC _ _ _ _ _ E2 H) in E2. rewrite H in E2. injection E2 as _ <-. done.
      * intros (nid2 & b2 & B2 & _). case_decide as E; [by destruct B2 as (_ & ? & _)|]. exfalso. apply E.
        destruct B2 as (E2 & _). by rewrite (co_eid _ _ HC _ _ _ _ _ E2 H).
    + transitivity (exists nid' b', backend T (bkey b) nid' eid' true b' /\ IPString (b_ip b') = ip).
      * rewrite <- (sr_ips _ _ _ S). case_decide; set_solver.
      * split; intros (nid' & b' & B & Hip); exists nid', b'; (split; [|done]); [rewrite decide_False by congruence; done|].
        by rewrite decide_False in B by congruence.
Qed.

Lemma unbound_multiple :
  (0 <? size (members (IPString (b_ip b)) (s_ipToEndpoint s')))%nat = true <->
  exists nid' eid' b', (nid', eid') <> (nid, eid) /\ backend T (bkey b) nid' eid' true b' /\ IPString (b_ip b') = IPString (b_ip b).
Proof.
  rewrite Nat.ltb_lt. split.
  - intros Hz. apply size_pos_elem_of in Hz as [eid' Hin]. apply (sr_ips _ _ _ unbound_rel) in Hin as (nid' & b' & B & Hip).
    apply backend_changed in B. case_decide as E; [by destruct B as (_ & ? & _)|]. by exists nid', eid', b'.
  - intros (nid' & eid' & b' & Hne & B & Hip). assert (Hin : eid' ∈ members (IPString (b_ip b)) (s_ipToEndpoint s')).
    { apply (sr_ips _ _ _ unbound_rel). exists nid', b'. split; [|done]. apply backend_changed. by rewrite decide_False. }
    destruct (size _) eqn:Ez; [|lia]. apply size_empty_inv in Ez. set_solver.
Qed.

Lemma unbound_last : if (size ends =? 0)%nat
  then negb full = false /\ forall eid' en' b', backend T (bkey b) nid eid' en' b' -> eid' = eid
  else negb full = false -> exists eid' en' b', eid' <> eid /\ backend T (bkey b) nid eid' en' b'.
Proof.
  destruct (size ends =? 0)%nat eqn:Ez; unfold ends, remaining in Ez.
  - apply Nat.eqb_eq, map_size_empty_inv in Ez. destruct full; [|by apply insert_non_empty in Ez]. split; [done|].
    intros eid' en' b' B. destruct (decide (eid' = eid)) as [|Hne]; [done|exfalso].
    assert (Hx : lbEnds s nid !! eid' = Some (mkBackend (b_ip b') (negb en'))) by (apply (sr_backend _ _ _ S); by exists en', b').
    rewrite <- ends_s, <- (lookup_delete_ne _ eid) in Hx by done. by rewrite Ez, lookup_empty in Hx.
  - apply Nat.eqb_neq in Ez. destruct full; [|done]. intros _. assert (Hne : delete eid (lb_backEnds lb) <> ∅).
    { intros E. apply Ez. by rewrite E, map_size_empty. }
    apply map_choose in Hne as (eid' & be' & [Hne Hx]%lookup_delete_Some). rewrite ends_s in Hx.
    apply (sr_backend _ _ _ S) in Hx as (en' & b' & B & _). by exists eid', en', b'.
Qed.
End Unbound.
(** [rmServiceBinding] of an endpoint of the table; without [full] it is disabled. *)
Definition unbindT (nid eid : string) (b : binding) (full : bool) (T : Tbl) : Tbl :=
  if full then delete (nid, eid) T else <[(nid, eid) := (false, b)]> T.

Lemma unbindT_other nid eid b full T x : x <> (nid, eid) -> unbindT nid eid b full T !! x = T !! x.
Proof. intros Hx. unfold unbindT. destruct full; by rewrite ?lookup_delete_ne, ?lookup_insert_ne by done. Qed.
Lemma unbindT_self nid eid b full T :
  unbindT nid eid b full T !! (nid, eid) = if negb full then Some (false, b) else None.
Proof. unfold unbindT. destruct full; cbn; by rewrite ?lookup_delete_eq, ?lookup_insert_eq. Qed.

(** The records after a removal. *)
Lemma unbind_records c c1 c2 T T' nid n eid en b keep multiple last :
  Rel c T -> coherent (networks_ c) T -> networks_ c !! nid = Some n -> nw_id n = nid ->
  T !! (nid, eid) = Some (en, b) -> b_svcID b <> "" -> (forall x, x <> (nid, eid) -> T' !! x = T !! x) ->
  T' !! (nid, eid) = (if keep : bool then Some (false, b) else None) ->
  (multiple = true <-> exists nid' eid' b', (nid', eid') <> (nid, eid) /\
     backend T (bkey b) nid' eid' true b' /\ IPString (b_ip b') = IPString (b_ip b)) ->
  (if last : bool then keep = false /\ forall eid' en' b', backend T (bkey b) nid eid' en' b' -> eid' = eid
   else keep = false -> exists eid' en' b', eid' <> eid /\ backend T (bkey b) nid eid' en' b') ->
  networks_ c1 = networks_ c -> svcRecords c1 = svcRecords c -> networks_ c2 = networks_ c1 ->
  (forall nid' x e, has c2 nid' x e <-> has c1 nid' x e /\
     ~ onNet n (((ownRecs eid b ++ (if multiple then [] else taskRecs b)) ++ (if multiple then [] else directRecs b)) ++
                if last && negb multiple then vipRecs b else []) nid' x e) ->
  forall nid' x e, has c2 nid' x e <->
    (exists n, networks_ c2 !! nid' = Some n /\ nw_ingress n = false) /\ expected T' nid' x e.
Proof.
  intros HR HC Hnw Hid H Hs Hoth Hself Hm Hl N1 R1 N2 H2 nid' x e.
  rewrite H2, (has_same c c1), (rel_records _ _ HR), N2, N1 by done. unfold onNet. rewrite Hid.
  destruct (decide (nid' = nid)) as [->|Hne].
  - split.
    + intros [[(n' & Hn' & Hi) He] Hr]. rewrite Hnw in Hn'. injection Hn' as <-. split; [by exists n|].
      apply (expected_unbind (networks_ c) T T' nid n eid en b keep multiple last); tauto.
    + intros [(n' & Hn' & Hi) He]. rewrite Hnw in Hn'. injection Hn' as <-.
      apply (expected_unbind (networks_ c) T T' nid n eid en b keep multiple last) in He; try done.
      split; [split; [by exists n|]; tauto|tauto].
  - assert (Hex : expected T' nid' x e <-> expected T nid' x e) by (unfold expected; by setoid_rewrite Hoth; [|congruence]).
    rewrite Hex. split; [tauto|]. intros ?. split; [done|]. by intros (_ & ? & _).
Qed.

Lemma unbind_ok c T nid eid en b full :
  Rel c T -> coherent (networks_ c) T -> T !! (nid, eid) = Some (en, b) -> b_svcID b <> "" ->
  exists c', rmServiceBinding nid eid b true full c = (c', None) /\ Rel c' (unbindT nid eid b full T) /\ networks_ c' = networks_ c.
Proof.
  intros HR HC H Hs. set (T' := unbindT nid eid b full T).
  assert (Hoth : forall x, x <> (nid, eid) -> T' !! x = T !! x) by apply unbindT_other.
  assert (Hself : T' !! (nid, eid) = if negb full then Some (false, b) else None) by apply unbindT_self.
  destruct (serviceBindings c !! bkey b) as [p|] eqn:Hp; [|by edestruct (rel_unbound _ _ HR _ Hp nid eid en b)].
  destruct (rel_bound _ _ HR _ _ Hp) as (s & E & S & _). unfold rmServiceBinding. fold (bkey b). rewrite Hp.
  assert (Hx : lbEnds s nid !! eid = Some (mkBackend (b_ip b) (negb en))) by (apply (sr_backend _ _ _ S); by exists en, b).
  unfold lbEnds in Hx. destruct (s_loadBalancers s !! nid) as [lb|] eqn:Hlb; [cbn in Hx|cbn in Hx; by rewrite lookup_empty in Hx].
  destruct (unbindLocked_eq nid eid b full p c s lb _ E Hlb Hx) as (c1 & N1 & R1 & B1 & S1 & ->).
  destruct (NetworkByID_ok _ _ _ _ _ _ c HC eq_refl H) as (n & Hn & Hnw & Hid).
  assert (Hn1 : NetworkByID nid c1 = Some n) by (unfold NetworkByID in *; by rewrite N1).
  set (be := mkBackend (b_ip b) (negb en)) in *. set (s' := unbound s lb be nid eid b full (s_deleted s)) in *.
  assert (S' : SvcRel T' (bkey b) s') by (eapply unbound_rel; eassumption).
  pose proof (unbound_multiple _ T T' nid eid en b full s lb be HC H Hs Hoth Hself S Hlb Hx) as Hm.
  pose proof (unbound_last T T' nid eid b full s lb be Hself S Hlb) as Hl. fold s' in Hm.
  set (multiple := (0 <? _)%nat) in *. set (last := (size (remaining _ _ _ _) =? 0)%nat) in *.
  destruct (deleteEndpoint_dels nid eid b last multiple c1 n Hn1 Hs) as (c2 & -> & [C2 O2 H2]).
  apply core_fields in C2 as (N2 & S2 & B2).
  pose proof (unbind_records c c1 c2 T T' nid n eid en b (negb full) multiple last HR HC Hnw Hid H Hs Hoth Hself Hm Hl N1 R1 N2 H2) as Hrec.
  assert (Hok : recsOk c2) by by apply O2, (recsOk_same c), (rel_ok _ _ HR).
  assert (Hempty : s_loadBalancers s' = ∅ -> forall nid' eid' en' b', ~ backend T' (bkey b) nid' eid' en' b').
  { intros Hz nid' eid' en' b'. apply (no_lb _ _ _ _ S'). by rewrite Hz, lookup_empty. }
  assert (Hnew : T' !! (nid, eid) = None \/ exists en, T' !! (nid, eid) = Some (en, b)).
  { rewrite Hself. destruct full; [by left|right; by exists false]. }
  destruct (size (s_loadBalancers s') =? 0)%nat eqn:Ez; (eexists; split; [reflexivity|]; split; [|cbn; congruence]).
  - apply Nat.eqb_eq, map_size_empty_inv in Ez.
    eapply (Holding_Rel c T (bkey b) p _ T' (unbound s lb be nid eid b full true) nid eid b (Rel_holding _ _ _ _ HR Hp)); try done.
    + right. by exists en.
    + cbn. by rewrite S2, S1, insert_insert_eq.
    + change (s_loadBalancers (unbound s lb be nid eid b full true)) with (s_loadBalancers s'). rewrite Ez.
      rewrite bool_decide_eq_true_2 by done. cbn. by rewrite B2, B1.
  - apply Nat.eqb_neq in Ez. assert (Hne : s_loadBalancers s' <> ∅) by (intros Hz; apply Ez; by rewrite Hz, map_size_empty).
    eapply (Holding_Rel c T (bkey b) p _ T' s' nid eid b (Rel_holding _ _ _ _ HR Hp)); try done.
    + right. by exists en.
    + by rewrite S2, S1.
    + rewrite bool_decide_eq_false_2 by done. by rewrite B2, B1.
Qed.
(** An endpoint that the service does not have: nothing happens. *)
Lemma unbind_absent c T nid eid b full : Rel c T -> (forall en b', ~ backend T (bkey b) nid eid en b') ->
  rmServiceBinding nid eid b true full c = (c, None).
Proof.
  intros HR Hno. unfold rmServiceBinding. fold (bkey b). destruct (serviceBindings c !! bkey b) as [p|] eqn:Hp; [|done].
  destruct (rel_bound _ _ HR _ _ Hp) as (s & E & S & _). unfold unbindLocked. rewrite E.
  destruct (s_loadBalancers s !! nid) as [lb|] eqn:Hlb; [|done]. destruct (lb_backEnds lb !! eid) as [be|] eqn:Hbe; [|done].
  exfalso. assert (Hx : lbEnds s nid !! eid = Some be) by (unfold lbEnds; by rewrite Hlb).
  apply (sr_backend _ _ _ S) in Hx as (en & b' & B & _). by eapply Hno.
Qed.

(** ** Containers that are no tasks *)

Lemma Rel_names c c' T T' : Rel c T -> core c' = core c -> recsOk c' ->
  (forall k nid eid en b, backend T' k nid eid en b <-> backend T k nid eid en b) ->
  (forall nid x e, has c' nid x e <-> (exists n, networks_ c' !! nid = Some n /\ nw_ingress n = false) /\ expected T' nid x e) ->
  Rel c' T'.
Proof.
  intros HR Hc Hok Hb Hrec. apply core_fields in Hc as (_ & S' & B'). split; [done|done|..].
  - intros k p Hp. rewrite B' in Hp. destruct (rel_bound _ _ HR _ _ Hp) as (s & E & S & Hl). exists s. rewrite S'.
    split; [done|]. split; [|done]. by apply (SvcRel_same T); [apply Hb|].
  - intros k Hk nid eid en b B. rewrite B' in Hk. apply Hb in B. by eapply (rel_unbound _ _ HR).
Qed.

Lemma container_add_ok c T nid eid b :
  Rel c T -> coherent (networks_ c) (<[(nid, eid) := (true, b)]> T) -> b_svcID b = "" -> T !! (nid, eid) = None ->
  exists c', addContainerNameResolution nid eid (b_containerName b) (b_taskAliases b) (b_ip b) c = (c', None) /\
    Rel c' (<[(nid, eid) := (true, b)]> T) /\ networks_ c' = networks_ c.
Proof.
  intros HR HC Hs Hk. set (T' := <[(nid, eid) := (true, b)]> T) in *.
  assert (HT : T' !! (nid, eid) = Some (true, b)) by apply lookup_insert_eq.
  destruct (NetworkByID_ok _ _ _ _ _ _ c HC eq_refl HT) as (n & Hn & Hnw & Hid).
  destruct (addContainer_adds nid eid b c n Hn) as (c' & -> & [C' O' A']). exists c'. split; [done|].
  destruct (core_fields _ _ C') as (N' & _). split; [|done]. apply (Rel_names c c' T T' HR C').
  - by apply O', (rel_ok _ _ HR).
  - intros k nid' eid' en' b'. unfold T'. rewrite backend_insert. case_decide as E; [|done]. injection E as -> ->.
    split; [by intros (_ & _ & ? & _)|]. intros (E & _). by rewrite Hk in E.
  - intros nid' x e. rewrite A', (rel_records _ _ HR), N'. unfold onNet. rewrite Hid.
    assert (He : expected T' nid' x e <-> expected T nid' x e \/ (nid' = nid /\ (x, e) ∈ ownRecs eid b)).
    { split.
      - intros (eid0 & en0 & b0 & H0 & Hx). unfold T' in H0. destruct (decide ((nid', eid0) = (nid, eid))) as [[= -> ->]|Hne].
        + rewrite lookup_insert_eq in H0. injection H0 as <- <-. apply elem_contrib in Hx. right. tauto.
        + rewrite lookup_insert_ne in H0 by done. left. by exists eid0, en0, b0.
      - intros [(eid0 & en0 & b0 & H0 & Hx)|[-> Hx]].
        + exists eid0, en0, b0. split; [|done]. unfold T'. rewrite lookup_insert_ne; [done|]. intros [= <- <-]. by rewrite Hk in H0.
        + exists eid, true, b. split; [done|]. apply elem_contrib. tauto. }
    rewrite He. split; [intros [?|(Hi & -> & ?)]; [tauto|split; [by exists n|tauto]]|].
    intros [(n' & Hn' & Hi) [?|[-> ?]]]; [left; split; [by exists n'|done]|right]. by simplify_eq.
Qed.

Lemma container_del_ok c T nid eid en b :
  Rel c T -> coherent (networks_ c) T -> T !! (nid, eid) = Some (en, b) -> b_svcID b = "" ->
  exists c', delContainerNameResolution nid eid (b_containerName b) (b_taskAliases b) (b_ip b) c = (c', None) /\
    Rel c' (delete (nid, eid) T) /\ networks_ c' = networks_ c.
Proof.
  intros HR HC H Hs. destruct (NetworkByID_ok _ _ _ _ _ _ c HC eq_refl H) as (n & Hn & Hnw & Hid).
  destruct (delContainer_dels nid eid b c n Hn) as (c' & -> & [C' O' D']). exists c'. split; [done|].
  destruct (core_fields _ _ C') as (N' & _). split; [|done]. apply (Rel_names c c' T _ HR C').
  - by apply O', (rel_ok _ _ HR).
  - intros k nid' eid' en' b'. unfold backend. split; [intros ([? ?]%lookup_delete_Some & ?); done|].
    intros (E & ? & ?). split; [|done]. rewrite lookup_delete_ne; [done|]. intros [= <- <-]. rewrite H in E. by injection E as <- <-.
  - intros nid' x e. rewrite D', (rel_records _ _ HR), N'. unfold onNet. rewrite Hid. split.
    + intros [[(n' & Hn' & Hi) (eid0 & en0 & b0 & H0 & Hx)] Hr]. split; [by exists n'|].
      exists eid0, en0, b0. split; [|done]. rewrite lookup_delete_ne; [done|]. intros [= <- <-]. rewrite H in H0.
      injection H0 as <- <-. apply elem_contrib in Hx as [[Hx _]|[? _]]; [|done]. apply Hr. split; [|done]. by simplify_eq.
    + intros [Hex (eid0 & en0 & b0 & [Hne H0]%lookup_delete_Some & Hx)]. split; [split; [done|by exists eid0, en0, b0]|].
      intros (_ & -> & Hy%own_sid). apply elem_contrib in Hx.
      destruct Hx as [[Hx%own_sid _]|[_ [[_ [Hx%task_entry|Hx%direct_entry]]|(v & _ & Hx)%vip_entry]]]; [congruence|..];
        subst e; cbn in Hy; by apply (co_sid _ _ HC nid eid _ nid eid0 en0 b0 H H0).
Qed.
(** ** Equivalent descriptions *)

(** Two descriptions of an endpoint that lead to the same records and the same service. *)
Record similar (b b' : binding) : Prop := {
  si_svcID : b_svcID b = b_svcID b';
  si_key : bkey b = bkey b';
  si_vip : b_vip b = b_vip b';
  si_ip : b_ip b = b_ip b';
  si_names : forall x, x ∈ svcNames b <-> x ∈ svcNames b';
  si_own : forall x, x ∈ b_containerName b :: b_taskAliases b <-> x ∈ b_containerName b' :: b_taskAliases b' }.

Lemma recsFor_same names names' ip sid x e : (forall y, y ∈ names <-> y ∈ names') ->
  (x, e) ∈ recsFor names ip sid <-> (x, e) ∈ recsFor names' ip sid.
Proof. intros Hn. rewrite !elem_recsFor. by setoid_rewrite Hn. Qed.

Lemma similar_contrib eid en b b' x e : similar b b' -> (x, e) ∈ contrib eid en b <-> (x, e) ∈ contrib eid en b'.
Proof.
  intros [Hs Hk Hv Hi Hn Ho]. rewrite !elem_contrib. unfold ownRecs, taskRecs, directRecs, vipRecs. rewrite <- Hs, <- Hv, <- Hi.
  assert (Ht : forall y, y ∈ map (String.append "tasks.") (svcNames b) <-> y ∈ map (String.append "tasks.") (svcNames b')).
  { intros y. rewrite !list_elem_of_fmap. by setoid_rewrite Hn. }
  rewrite (recsFor_same _ _ _ _ _ _ Ho), (recsFor_same _ _ _ _ _ _ Ht).
  destruct (b_vip b); by rewrite (recsFor_same _ _ _ _ _ _ Hn).
Qed.

Lemma Rel_similar c T nid eid en b b' : Rel c T -> T !! (nid, eid) = Some (en, b) -> similar b b' ->
  Rel c (<[(nid, eid) := (en, b')]> T).
Proof.
  intros HR H Hsim. set (T' := <[(nid, eid) := (en, b')]> T).
  assert (Hto : forall k nid0 eid0 en0 b0, backend T k nid0 eid0 en0 b0 -> exists b1, backend T' k nid0 eid0 en0 b1 /\ b_ip b1 = b_ip b0 /\ b_vip b1 = b_vip b0).
  { intros k nid0 eid0 en0 b0 (E & Hs & Hk). unfold backend, T'. destruct (decide ((nid0, eid0) = (nid, eid))) as [[= -> ->]|Hne].
    - rewrite H in E. injection E as <- <-. exists b'. rewrite lookup_insert_eq. destruct Hsim. split_and!; congruence.
    - exists b0. by rewrite lookup_insert_ne. }
  assert (Hfrom : forall k nid0 eid0 en0 b0, backend T' k nid0 eid0 en0 b0 -> exists b1, backend T k nid0 eid0 en0 b1 /\ b_ip b1 = b_ip b0 /\ b_vip b1 = b_vip b0).
  { intros k nid0 eid0 en0 b0 (E & Hs & Hk). unfold backend. unfold T' in E. destruct (decide ((nid0, eid0) = (nid, eid))) as [[= -> ->]|Hne].
    - rewrite lookup_insert_eq in E. injection E as <- <-. exists b. destruct Hsim. split_and!; congruence.
    - exists b0. by rewrite lookup_insert_ne in E. }
  split; [apply HR|..].
  - intros nid0 x e. rewrite (rel_records _ _ HR). assert (He : expected T' nid0 x e <-> expected T nid0 x e); [|by rewrite He].
    split; intros (eid0 & en0 & b0 & E & Hx); unfold T' in *; (destruct (decide ((nid0, eid0) = (nid, eid))) as [[= -> ->]|Hne];
      [|exists eid0, en0, b0; by rewrite lookup_insert_ne in *]).
    + rewrite lookup_insert_eq in E. injection E as <- <-. exists eid, en, b. split; [done|]. by apply (similar_contrib _ _ b b').
    + rewrite H in E. injection E as <- <-. exists eid, en, b'. rewrite lookup_insert_eq. split; [done|]. by apply (similar_contrib _ _ b b').
  - intros k p Hp. destruct (rel_bound _ _ HR _ _ Hp) as (s & E & [L K Bk Lb Ip] & Hl). exists s. split; [done|]. split; [|done]. split; [done|done|..].
    + intros nid0 eid0 be. rewrite Bk. split; intros (en0 & b0 & B & ->); [apply Hto in B|apply Hfrom in B];
        destruct B as (b1 & B & Hip & _); exists en0, b1; by rewrite Hip.
    + intros nid0 lb Hlb. destruct (Lb _ _ Hlb) as [? Hv]. split; [done|]. intros eid0 en0 b0 (b1 & B & _ & <-)%Hfrom. by eapply Hv.
    + intros ip eid0. rewrite Ip. split; intros (nid0 & b0 & B & <-); [apply Hto in B|apply Hfrom in B];
        destruct B as (b1 & B & Hip & _); exists nid0, b1; by rewrite Hip.
  - intros k Hk nid0 eid0 en0 b0 (b1 & B & _)%Hfrom. by eapply (rel_unbound _ _ HR).
Qed.

Lemma SameValues_elem {A} `{EqDecision A} (a b : list A) : SameValues a b = true -> forall v, v ∈ a <-> v ∈ b.
Proof.
  unfold SameValues. rewrite forallb_forall. intros Hf.
  assert (Hc : forall l (v : A), v ∈ l <-> length (filter (eq v) l) <> 0%nat).
  { intros l v. induction l as [|w l IH]; [split; [by intros ?%elem_of_nil|done]|]. rewrite elem_of_cons, filter_cons, IH.
    case_decide; cbn; [split; [done|by left]|]. split; [by intros [?|?]|by right]. }
  assert (Hab : forall v, v ∈ (a ++ b)%list -> length (filter (eq v) a) = length (filter (eq v) b)).
  { intros v Hv. apply Nat.eqb_eq, Hf. by apply list_elem_of_In. }
  intros v. split; intros Hv; apply Hc; (rewrite <- Hab || rewrite Hab); try (apply elem_of_app; tauto); by apply Hc.
Qed.

Lemma EquivalentTo_similar p r : EquivalentTo p r = true ->
  portsString (er_IngressPorts (ev_rec p)) = portsString (er_IngressPorts (ev_rec r)) ->
  similar (bindingOf p) (bindingOf r) /\ er_ServiceDisabled (ev_rec p) = er_ServiceDisabled (ev_rec r).
Proof.
  unfold EquivalentTo. cbv zeta. rewrite !andb_true_iff, !String.eqb_eq, !bool_decide_eq_true, Bool.eqb_true_iff.
  intros ((((((((En & Es) & Ei) & Ev) & Ee) & Ed) & _) & Ha) & Ht). intros Hp. split; [|done].
  pose proof (SameValues_elem _ _ Ha) as Hae. pose proof (SameValues_elem _ _ Ht) as Hte.
  split; unfold bindingOf, bkey, skeyOf, svcNames; cbn [b_svcID b_vip b_ip b_svcName b_serviceAliases b_containerName b_taskAliases b_ingressPorts]; try congruence;
    intros x; rewrite !elem_of_cons.
  - by rewrite Es, Hae.
  - by rewrite En, Hte.
Qed.
End Steps.
