(* ===== verification/DiscoveryTheorems.v ===== *)
(** * Service discovery: properties

    A controller that handles the endpoint events of a watch answers queries with exactly the
    endpoints of the table that the events describe ([discovery_exact]) and keeps exactly their
    load balancers ([load_balancers_exact]). *)

From Stdlib Require Import Ascii String DecimalString DecimalZ DecimalPos.
From S2P Require Import Prelude Slices NetIP NetworkDB NetworkDBSpec SetMatrix Discovery DiscoverySpec DiscoverySteps.
From stdpp Require Import gmap strings list.
Import SetMatrix.

Local Open Scope string_scope.

(** What the code relies on: addresses are read back from their text, a slice of a set lists
    its members. *)
Class NetLibLaws `{NetLib} := {
  ParseIP_String : forall a, AddrIsValid a = true -> Unmap a = a -> ParseIP (IPString a) = Some a;
  entriesSlice_perm : forall s, entriesSlice s ≡ₚ elements s;
  infosSlice_perm : forall s, infosSlice s ≡ₚ elements s }.

Section Theorems.
Context `{HN : NetLib} {HL : NetLibLaws}.

(** ** The table that a watch describes *)

(** The endpoint that a value describes; a disabled task is none. *)
Definition entryOf (d : string) : option (bool * binding) :=
  ev ← unmarshalEndpointRecord d;
  if negb (er_ServiceID (ev_rec ev) =? "") && er_ServiceDisabled (ev_rec ev) then None else Some (true, bindingOf ev).

Definition epKey (V : view) (x : (string * string * string) * string) : option ((string * string) * (bool * binding)) :=
  let '((t, n, k), d) := x in if t =? libnetworkEPTable then (fun v => ((n, k), v)) <$> entryOf d else None.

(** The endpoints of the view of a client of the watch. *)
Definition tableOf (V : view) : Tbl := list_to_map (omap (epKey V) (map_to_list V)).

Lemma tableOf_elem V nid eid v :
  ((nid, eid), v) ∈ omap (epKey V) (map_to_list V) <-> V !! (libnetworkEPTable, nid, eid) ≫= entryOf = Some v.
Proof.
  rewrite list_elem_of_omap. split.
  - intros ([[[t n] k] d] & Hin%elem_of_map_to_list & Hx). cbn in Hx. destruct (t =? libnetworkEPTable) eqn:Et; [|done].
    apply String.eqb_eq in Et as ->. destruct (entryOf d) as [v'|] eqn:Hd; [|done]. injection Hx as <- <- <-. by rewrite Hin.
  - intros (d & Hd & Hv)%bind_Some. exists ((libnetworkEPTable, nid, eid), d). split; [by apply elem_of_map_to_list|].
    cbn. by rewrite Hv.
Qed.

Lemma tableOf_lookup V nid eid : tableOf V !! (nid, eid) = V !! (libnetworkEPTable, nid, eid) ≫= entryOf.
Proof.
  apply option_eq. intros v. rewrite <- tableOf_elem. unfold tableOf. symmetry. apply elem_of_list_to_map'.
  intros v' Hv'. intros Hv. apply tableOf_elem in Hv, Hv'. congruence.
Qed.

Lemma tableOf_empty : tableOf ∅ = ∅.
Proof. done. Qed.

Lemma tableOf_apply V ev : wt_Table ev = libnetworkEPTable ->
  wt_Prev ev = V !! (libnetworkEPTable, wt_NetworkID ev, wt_Key ev) ->
  tableOf (applyEvent V ev) =
    let k := (wt_NetworkID ev, wt_Key ev) in
    match wt_Value ev ≫= entryOf with Some v => <[k := v]> (tableOf V) | None => delete k (tableOf V) end.
Proof.
  intros Ht Hp. cbv zeta. apply map_eq. intros [nid eid]. rewrite tableOf_lookup.
  assert (Ha : applyEvent V ev !! (libnetworkEPTable, nid, eid) =
     if decide ((nid, eid) = (wt_NetworkID ev, wt_Key ev)) then wt_Value ev else V !! (libnetworkEPTable, nid, eid)).
  { unfold applyEvent, IsCreate, IsUpdate, IsDelete. rewrite Ht, bool_decide_eq_false_2 by done.
    destruct (wt_Value ev) as [d|] eqn:Hv, (wt_Prev ev) as [d'|] eqn:Hpv; cbn; case_decide as E;
      try (injection E as -> ->); rewrite ?lookup_insert_eq, ?lookup_delete_eq; try done;
      try (by rewrite lookup_insert_ne by congruence); try (by rewrite lookup_delete_ne by congruence). }
  rewrite Ha. case_decide as E; [injection E as -> ->|]; destruct (wt_Value ev ≫= entryOf) eqn:Hv;
    rewrite ?lookup_insert_eq, ?lookup_delete_eq, ?lookup_insert_ne, ?lookup_delete_ne, ?tableOf_lookup by done; done.
Qed.

(** ** One event *)

Lemma coherent_subset nws T T' : T' ⊆ T -> coherent nws T -> coherent nws T'.
Proof.
  intros Hsub [c1 c2 c3 c4 c5 c6 c7].
  assert (HT : forall k v, T' !! k = Some v -> T !! k = Some v) by (intros; by eapply lookup_weaken).
  assert (HB : forall k nid eid en b, backend T' k nid eid en b -> backend T k nid eid en b) by (intros ????? (?&?&?); split; auto).
  split; eauto.
Qed.

Lemma removePrev_ok c V nid eid p d :
  Rel c (tableOf V) -> coherent (networks_ c) (tableOf V) -> V !! (libnetworkEPTable, nid, eid) = Some d ->
  unmarshalEndpointRecord d = Some p ->
  Rel (removePrev nid eid p c) (delete (nid, eid) (tableOf V)) /\ networks_ (removePrev nid eid p c) = networks_ c.
Proof.
  intros HR HC Hd Hp. pose proof (tableOf_lookup V nid eid) as HT. rewrite Hd in HT. cbn in HT. unfold entryOf in HT.
  rewrite Hp in HT. cbn in HT. unfold removePrev. destruct (er_ServiceID (ev_rec p) =? "") eqn:Es; cbn [negb andb] in *; cbv zeta.
  - apply String.eqb_eq in Es. destruct (container_del_ok c (tableOf V) nid eid true (bindingOf p) HR HC HT) as (c' & -> & ? & ?); done.
  - apply String.eqb_neq in Es. destruct (er_ServiceDisabled (ev_rec p)).
    + by rewrite delete_id.
    + destruct (unbind_ok c (tableOf V) nid eid true (bindingOf p) true HR HC HT Es) as (c' & -> & ? & ?). done.
Qed.

Lemma addValue_ok c T nid eid prev r fuel d :
  Rel c T -> (0 < fuel)%nat -> T !! (nid, eid) = None -> unmarshalEndpointRecord d = Some r ->
  let T' := match entryOf d with Some v => <[(nid, eid) := v]> T | None => T end in
  coherent (networks_ c) T' ->
  exists c', addValue fuel nid eid prev r c = Some c' /\ Rel c' T' /\ networks_ c' = networks_ c.
Proof.
  intros HR Hf Hk Hr. unfold entryOf. rewrite Hr. cbn. intros HC. unfold addValue.
  destruct (er_ServiceID (ev_rec r) =? "") eqn:Es; cbn [negb andb] in *; cbv zeta.
  - apply String.eqb_eq in Es.
    destruct (container_add_ok c T nid eid (bindingOf r) HR HC Es Hk) as (c' & -> & ? & ?). by exists c'.
  - apply String.eqb_neq in Es. destruct (er_ServiceDisabled (ev_rec r)).
    + rewrite (unbind_absent c T nid eid (bindingOf r) false HR); [|by intros en b' (E & _); rewrite Hk in E].
      exists c. by destruct (match prev with None => _ | Some _ => _ end).
    + destruct (bind_ok c T nid eid (bindingOf r) fuel HR Hf HC Es (or_introl Hk)) as (c' & -> & ? & ?). by exists c'.
Qed.

(** An event tells the change of one endpoint, as the watch does. *)
Record follows (V : view) (ev : WatchEvent) : Prop := {
  fo_table : wt_Table ev = libnetworkEPTable;
  fo_prev : wt_Prev ev = V !! (libnetworkEPTable, wt_NetworkID ev, wt_Key ev);
  fo_decodes : forall d, wt_Prev ev = Some d \/ wt_Value ev = Some d -> is_Some (unmarshalEndpointRecord d);
  (* the ports of a service are always told in the same order *)
  fo_ports : forall d d' p r, wt_Prev ev = Some d -> wt_Value ev = Some d' -> unmarshalEndpointRecord d = Some p ->
    unmarshalEndpointRecord d' = Some r -> EquivalentTo p r = true ->
    portsString (er_IngressPorts (ev_rec p)) = portsString (er_IngressPorts (ev_rec r)) }.

Lemma handle_ok c V ev fuel :
  Rel c (tableOf V) -> (0 < fuel)%nat -> follows V ev -> coherent (networks_ c) (tableOf V) ->
  coherent (networks_ c) (tableOf (applyEvent V ev)) ->
  exists c', handleEpTableEvent fuel ev c = Some c' /\ Rel c' (tableOf (applyEvent V ev)) /\ networks_ c' = networks_ c.
Proof.
  intros HR Hf [Ht Hp Hd Hpo] HC HC'. rewrite tableOf_apply in * by done. cbv zeta in *. unfold handleEpTableEvent.
  destruct (wt_Prev ev) as [dp|] eqn:Ep.
  - destruct (Hd dp) as [p Hpd]; [by left|]. rewrite Hpd. symmetry in Hp. cbn [fmap option_fmap option_map].
    destruct (removePrev_ok c V _ _ p dp HR HC Hp Hpd) as [HR1 HN1].
    destruct (wt_Value ev) as [dv|] eqn:Ev.
    + destruct (Hd dv) as [r Hrd]; [by right|]. rewrite Hrd. cbn [fmap option_fmap option_map mbind option_bind] in *.
      destruct (EquivalentTo p r) eqn:Eq.
      * exists c. split; [done|]. split; [|done]. destruct (EquivalentTo_similar p r Eq) as [Hsim Hdis]; [by eapply Hpo|].
        pose proof (tableOf_lookup V (wt_NetworkID ev) (wt_Key ev)) as HT. rewrite Hp in HT. cbn in HT. unfold entryOf in *.
        rewrite Hpd in HT. rewrite Hrd in *. cbn in HT |- *. pose proof (si_svcID _ _ Hsim) as Hsi. cbn in Hsi. rewrite <- Hsi, <- Hdis.
        destruct (_ && _); [by rewrite delete_id|]. by apply (Rel_similar _ _ _ _ _ (bindingOf p)).
      * destruct (addValue_ok (removePrev (wt_NetworkID ev) (wt_Key ev) p c) _ (wt_NetworkID ev) (wt_Key ev) (Some p) r fuel dv
                    HR1 Hf (lookup_delete_eq _ _) Hrd) as (c' & -> & HR' & HN').
        { rewrite HN1. destruct (entryOf dv); [|done]. by rewrite insert_delete_eq. }
        exists c'. split; [done|]. split; [|congruence]. destruct (entryOf dv); [|done]. by rewrite insert_delete_eq in HR'.
    + cbn. by eexists.
  - assert (Hn : tableOf V !! (wt_NetworkID ev, wt_Key ev) = None) by (rewrite tableOf_lookup, <- Hp; done).
    destruct (wt_Value ev) as [dv|] eqn:Ev.
    + destruct (Hd dv) as [r Hrd]; [by right|]. rewrite Hrd. cbn [fmap option_fmap option_map mbind option_bind] in *.
      rewrite delete_id in * by done.
      destruct (addValue_ok c _ (wt_NetworkID ev) (wt_Key ev) None r fuel dv HR Hf Hn Hrd HC') as (c' & -> & ? & ?). by exists c'.
    + cbn. rewrite delete_id by done. by exists c.
Qed.

Definition handleAll (fuel : nat) (evs : list WatchEvent) (c : Controller) : option Controller :=
  foldl (fun oc ev => oc ≫= handleEpTableEvent fuel ev) (Some c) evs.

(** The events follow one another and every table on the way is sensible. *)
Fixpoint sensible (nws : gmap string Network) (V : view) (evs : list WatchEvent) : Prop :=
  coherent nws (tableOf V) /\
  match evs with [] => True | ev :: evs => follows V ev /\ sensible nws (applyEvent V ev) evs end.

Lemma handleAll_ok fuel evs c V : (0 < fuel)%nat -> Rel c (tableOf V) -> sensible (networks_ c) V evs ->
  exists c', handleAll fuel evs c = Some c' /\ Rel c' (tableOf (foldl applyEvent V evs)) /\ networks_ c' = networks_ c.
Proof.
  intros Hf. unfold handleAll. revert c V. induction evs as [|ev evs IH]; intros c V HR [HC Hs]; [by exists c|].
  destruct Hs as [Hfo Hs]. cbn [foldl].
  assert (HC' : coherent (networks_ c) (tableOf (applyEvent V ev))) by (destruct evs; apply Hs).
  destruct (handle_ok c V ev fuel HR Hf Hfo HC HC') as (c1 & Hc1 & HR1 & HN1). cbn [mbind option_bind]. rewrite Hc1.
  destruct (IH c1 (applyEvent V ev) HR1) as (c' & ? & ? & ?); [by rewrite HN1|]. exists c'. split_and!; [done|done|congruence].
Qed.
(** ** Answers *)

(** Addresses that have a text of their own. *)
Definition addrOk (a : Addr) : Prop := AddrIsValid a = true /\ Unmap a = a.

Lemma addrOk_Unmap a : AddrIsValid a = true -> addrOk (Unmap a).
Proof.
  intros Ha. unfold addrOk, Unmap. destruct (Is4In6 a) eqn:E; [done|]. by rewrite E.
Qed.

Lemma IPString_inj a a' : addrOk a -> addrOk a' -> IPString a = IPString a' -> a = a'.
Proof.
  intros [V U] [V' U'] E. pose proof (ParseIP_String a V U) as H1. pose proof (ParseIP_String a' V' U') as H2. congruence.
Qed.

Definition tableOk (T : Tbl) : Prop := forall k en b, T !! k = Some (en, b) ->
  en = true /\ addrOk (b_ip b) /\ forall v, b_vip b = Some v -> addrOk v.

Lemma tableOf_ok V : tableOk (tableOf V).
Proof.
  intros [nid eid] en b. rewrite tableOf_lookup. intros (d & _ & Hd)%bind_Some. unfold entryOf in Hd.
  apply bind_Some in Hd as (ev & Hu & Hd). destruct (_ && _); [done|]. injection Hd as <- <-. split; [done|].
  unfold unmarshalEndpointRecord in Hu. destruct (Unmarshal d) as [r|]; [|done].
  destruct (er_Name r =? ""); [done|]. destruct (AddrIsValid (ParseAddr (er_EndpointIP r))) eqn:Hv; [|done].
  injection Hu as <-. cbn. split; [by apply addrOk_Unmap|]. intros v. unfold asIP.
  destruct (AddrIsValid (ParseAddr (er_VirtualIP r))) eqn:Hvv; [|done]. intros [= <-]. by apply addrOk_Unmap.
Qed.

(** The endpoints [T] give the address [ip] to the name [x] (in lower case): an endpoint has its
    address under its own name and aliases; a task also under [tasks.] and the names of its
    service; these have the virtual address of the service if there is one, and otherwise the
    addresses of the tasks. *)
Definition answers (T : Tbl) (nid x : string) (ip : Addr) : Prop :=
  exists eid b, T !! (nid, eid) = Some (true, b) /\
    (ip = b_ip b /\ x ∈ map ToLower (b_containerName b :: b_taskAliases b) \/
     b_svcID b <> "" /\ ip = b_ip b /\ x ∈ map ToLower (map (String.append "tasks.") (svcNames b)) \/
     b_svcID b <> "" /\ default (b_ip b) (b_vip b) = ip /\ x ∈ map ToLower (svcNames b)).

Lemma elem_recs names ip sid x e : (x, e) ∈ recsFor names ip sid <-> x ∈ map ToLower names /\ e = mkEntry (IPString ip) sid.
Proof. rewrite elem_recsFor, list_elem_of_fmap. naive_solver. Qed.

Lemma answers_expected T nid x ip : tableOk T -> answers T nid x ip <->
  addrOk ip /\ exists e, expected T nid x e /\ me_ip e = IPString ip.
Proof.
  intros HT. split.
  - intros (eid & b & H & Hx). destruct (HT _ _ _ H) as (_ & Hi & Hv).
    assert (He : forall sid, addrOk ip -> (x, mkEntry (IPString ip) sid) ∈ contrib eid true b -> addrOk ip /\ exists e, expected T nid x e /\ me_ip e = IPString ip).
    { intros sid ? Hc. split; [done|]. exists (mkEntry (IPString ip) sid). split; [|done]. by exists eid, true, b. }
    destruct Hx as [[-> Hx]|[(Hs & -> & Hx)|(Hs & Hd & Hx)]].
    + apply (He eid Hi). apply elem_contrib. left. split; [by apply elem_recs|by left].
    + apply (He (b_svcID b) Hi). apply elem_contrib. right. split; [done|]. left. split; [done|]. left. by apply elem_recs.
    + destruct (b_vip b) as [v|] eqn:Ev; cbn in Hd; subst ip; [apply (He (b_svcID b) (Hv _ eq_refl))|apply (He (b_svcID b) Hi)];
        apply elem_contrib; right; (split; [done|]); unfold directRecs, vipRecs; rewrite Ev;
        [right|left; split; [done|right]]; by apply elem_recs.
  - intros (Hok & e & (eid & en & b & H & Hx) & Hip). destruct (HT _ _ _ H) as (-> & Hi & Hv). exists eid, b. split; [done|].
    apply elem_contrib in Hx. unfold ownRecs, taskRecs, directRecs, vipRecs in Hx.
    destruct (b_vip b) as [v|] eqn:Ev; rewrite !elem_recs in Hx; cbn [default from_option].
    + destruct Hx as [[[Hx ->] _]|[Hs [[_ [[Hx ->]|Hx%elem_of_nil]]|[Hx ->]]]]; [..|done|]; apply IPString_inj in Hip; auto; subst; unfold id; auto.
    + destruct Hx as [[[Hx ->] _]|[Hs [[_ [[Hx ->]|[Hx ->]]]|Hx%elem_of_nil]]]; [..|done]; apply IPString_inj in Hip; auto; subst; auto.
Qed.

Lemma noDup_spec seen l : NoDup (noDup seen l) /\
  forall a, a ∈ noDup seen l <-> a ∉ seen /\ exists e, e ∈ l /\ me_ip e = a.
Proof.
  revert seen. induction l as [|e l IH]; intros seen; cbn [noDup].
  - split; [constructor|]. intros a. set_solver.
  - destruct (IH seen) as [N1 H1]. destruct (IH (me_ip e :: seen)) as [N2 H2]. case_bool_decide as Hs.
    + split; [done|]. intros a. rewrite H1. set_solver.
    + split; [constructor; [rewrite H2; set_solver|done]|]. intros a. rewrite elem_of_cons, H2.
      destruct (decide (a = me_ip e)); set_solver.
Qed.

(** What [ResolveName] returns in a controller that matches a table. *)
Lemma ResolveName_ok c T n req v6 : Rel c T -> tableOk T -> networks_ c !! nw_id n = Some n -> nw_ingress n = false ->
  let x := ToLower (TrimDot req) in
  let '(ips, ok) := ResolveName n req v6 c in
  (ok = true <-> exists ip, answers T (nw_id n) x ip) /\
  NoDup ips /\ (forall a, a ∈ ips <-> v6 = false /\ exists ip, a = Some ip /\ answers T (nw_id n) x ip).
Proof.
  intros HR HT Hn Hi x. unfold ResolveName. fold x.
  assert (Hrec : forall e, e ∈ members x (svcMap (recs (nw_id n) c)) <-> expected T (nw_id n) x e).
  { intros e. rewrite (rel_records _ _ HR (nw_id n) x e). split; [tauto|]. intros ?. split; [by exists n|done]. }
  destruct (rel_ok _ _ HR (nw_id n)) as [Htidy H6].
  assert (Haddr : forall e, expected T (nw_id n) x e -> exists ip, me_ip e = IPString ip /\ answers T (nw_id n) x ip).
  { intros e He. pose proof He as (eid & en & b & H & Hx). destruct (HT _ _ _ H) as (-> & Hok & Hv).
    assert (Hip : exists ip, addrOk ip /\ me_ip e = IPString ip).
    { apply elem_contrib in Hx as [[(k & _ & _ & Hx)%elem_recsFor _]|[_ [[_ [Hx%task_entry|Hx%direct_entry]]|(v & Ev & Hx)%vip_entry]]];
        rewrite Hx; eauto. }
    destruct Hip as (ip & ? & ?). exists ip. split; [done|]. apply answers_expected; [done|]. eauto. }
  destruct (svcRecords c !! nw_id n) as [sr|] eqn:Hsr; unfold recs in *; rewrite Hsr in *; cbn [default from_option] in *.
  2: { cbn in Hrec. setoid_rewrite members_empty in Hrec.
       assert (Hno : forall ip, ~ answers T (nw_id n) x ip).
       { intros ip (_ & e & He & _)%answers_expected; [|done]. apply Hrec in He. set_solver. }
       split; [split; [done|by intros [ip []%Hno]]|]. split; [constructor|]. intros a. split; [by intros ?%elem_of_nil|].
       by intros (_ & ip & _ & []%Hno). }
  unfold id in *. assert (G6 : Get x (svcIPv6Map sr) = None) by (rewrite H6; apply lookup_empty).
  rewrite G6, (tidy_Get _ _ Htidy).
  case_bool_decide as Hem.
  - assert (Hno : forall ip, ~ answers T (nw_id n) x ip).
    { intros ip (_ & e & He & _)%answers_expected; [|done]. apply Hrec in He. rewrite Hem in He. set_solver. }
    split; [split; [done|by intros [ip []%Hno]]|]. split; [constructor|]. intros a. split; [by intros ?%elem_of_nil|].
    by intros (_ & ip & _ & []%Hno).
  - assert (Hin : forall e, e ∈ entriesSlice (members x (svcMap sr)) <-> expected T (nw_id n) x e).
    { intros e. rewrite entriesSlice_perm, elem_of_elements. apply Hrec. }
    split; [split; [|done]; intros _; apply set_choose_L in Hem as [e He]; apply Hrec, Haddr in He as (ip & _ & ?); by exists ip|].
    destruct v6; [split; [constructor|]; intros a; split; [by intros ?%elem_of_nil|by intros [? _]]|].
    destruct (noDup_spec [] (entriesSlice (members x (svcMap sr)))) as [N D].
    assert (Hd : forall y, y ∈ noDup [] (entriesSlice (members x (svcMap sr))) <-> exists ip, y = IPString ip /\ answers T (nw_id n) x ip).
    { intros y. rewrite D. setoid_rewrite Hin. split.
      - intros (_ & e & He & <-). destruct (Haddr e He) as (ip & ? & ?). by exists ip.
      - intros (ip & -> & (_ & e & He & ?)%answers_expected); [|done]. split; [set_solver|]. by exists e. }
    assert (Hok : forall ip, answers T (nw_id n) x ip -> ParseIP (IPString ip) = Some ip).
    { intros ip ([Hv Hu] & _)%answers_expected; [|done]. by apply ParseIP_String. }
    split.
    + apply NoDup_fmap_2_strong; [|done]. intros y y' (ip & -> & A)%Hd (ip' & -> & A')%Hd.
      rewrite (Hok _ A), (Hok _ A'). by intros [= ->].
    + intros a. rewrite list_elem_of_fmap. split.
      * intros (y & -> & (ip & -> & A)%Hd). split; [done|]. exists ip. split; [by apply Hok|done].
      * intros (_ & ip & -> & A). exists (IPString ip). split; [by rewrite Hok|]. apply Hd. by exists ip.
Qed.

(** C18: service discovery is exact.  Let a controller handle the endpoint events of a watch,
    each telling the change of one endpoint of a table that is sensible throughout.  Then no
    call blocks, and [ResolveName] finds a name on a network, other than the ingress network,
    for which no names are kept, if and only if an endpoint of the final table has it, as its
    name or alias or through its service, in upper or lower case; the addresses are exactly
    those of the endpoints, or the virtual address of the service, each once. *)
Theorem discovery_exact nws evs fuel n :
  (0 < fuel)%nat -> sensible nws ∅ evs -> nws !! nw_id n = Some n -> nw_ingress n = false ->
  exists c, handleAll fuel evs (NewController nws) = Some c /\ forall req v6,
    let x := ToLower (TrimDot req) in
    let T := tableOf (foldl applyEvent ∅ evs) in
    let '(ips, ok) := ResolveName n req v6 c in
    (ok = true <-> exists ip, answers T (nw_id n) x ip) /\
    NoDup ips /\ (forall a, a ∈ ips <-> v6 = false /\ exists ip, a = Some ip /\ answers T (nw_id n) x ip).
Proof.
  intros Hf Hs Hn Hi. destruct (handleAll_ok fuel evs (NewController nws) ∅ Hf) as (c & Hc & HR & Hnet);
    [apply NewController_Rel|done|]. exists c. split; [done|]. intros req v6. cbv zeta.
  apply (ResolveName_ok c (tableOf (foldl applyEvent ∅ evs)) n req v6 HR); [apply tableOf_ok|by rewrite Hnet|done].
Qed.

(** C19: the load balancers are those of the tasks.  After the same events a service is bound
    if and only if the table has a task of it; it is then a live object found under its own
    key, which has a load balancer exactly on the networks of its tasks, with their virtual
    address and with exactly the tasks there as its enabled backends. *)
Theorem load_balancers_exact nws evs fuel :
  (0 < fuel)%nat -> sensible nws ∅ evs ->
  exists c, handleAll fuel evs (NewController nws) = Some c /\
    let T := tableOf (foldl applyEvent ∅ evs) in
    forall k, match serviceBindings c !! k ≫= (fun p => services c !! p) with
    | None => forall nid eid en b, ~ backend T k nid eid en b
    | Some s => s_deleted s = false /\ (s_id s, portsString (s_ingressPorts s)) = k /\
        (exists nid eid b, backend T k nid eid true b) /\
        forall nid, match s_loadBalancers s !! nid with
        | None => forall eid en b, ~ backend T k nid eid en b
        | Some lb =>
            (exists eid b, backend T k nid eid true b) /\
            (forall eid en b, backend T k nid eid en b -> lb_vip lb = b_vip b) /\
            (forall eid be, lb_backEnds lb !! eid = Some be <-> exists b, backend T k nid eid true b /\ be = mkBackend (b_ip b) false)
        end
    end.
Proof.
  intros Hf Hs. destruct (handleAll_ok fuel evs (NewController nws) ∅ Hf) as (c & Hc & HR & Hnet);
    [apply NewController_Rel|done|]. exists c. split; [done|]. cbv zeta. intros k.
  pose proof (tableOf_ok (foldl applyEvent ∅ evs)) as HT. set (T := tableOf (foldl applyEvent ∅ evs)) in *.
  assert (Hen : forall nid eid en b, backend T k nid eid en b -> en = true) by (intros nid eid en b (E & _); by apply HT in E as [? _]).
  destruct (serviceBindings c !! k) as [p|] eqn:Hp; [|exact (rel_unbound _ _ HR k Hp)].
  destruct (rel_bound _ _ HR _ _ Hp) as (s & E & S & Hl). cbn [mbind option_bind]. rewrite E.
  split; [apply S|]. split; [apply S|].
  assert (Hlb : forall nid lb, s_loadBalancers s !! nid = Some lb -> exists eid b, backend T k nid eid true b).
  { intros nid lb Hlb. destruct (some_backend _ _ _ _ _ S Hlb) as (eid & en & b & B). exists eid, b.
    by rewrite (Hen _ _ _ _ B) in B. }
  split.
  - apply map_choose in Hl as (nid & lb & H). exists nid. by eapply Hlb.
  - intros nid. destruct (s_loadBalancers s !! nid) as [lb|] eqn:H; [|by apply (no_lb _ _ _ _ S)].
    split; [by eapply Hlb|]. split; [apply (sr_lb _ _ _ S _ _ H)|]. intros eid be.
    pose proof (sr_backend _ _ _ S nid eid be) as Hb. unfold lbEnds in Hb. rewrite H in Hb. cbn in Hb. rewrite Hb. split.
    + intros (en & b & B & ->). exists b. pose proof (Hen _ _ _ _ B) as ->. done.
    + intros (b & B & ->). by exists true, b.
Qed.
End Theorems.

(** ** Concurrent calls

    The sections of [addServiceBinding] and [rmServiceBinding] under the locks, interleaved in
    any way with each other, with clean-ups and with networks that come and go.  [held] are the
    services that calls have looked up and not yet locked, with their keys. *)
Section Concurrent.
Context `{HN : NetLib}.

Record sys := mkSys { sc : Controller; held : gset (serviceKey * positive) }.

Inductive sstep : sys -> sys -> Prop :=
| SLookup s b c p : bindLookup b (sc s) = (c, p) -> sstep s (mkSys c ({[(bkey b, p)]} ∪ held s))
| SAdd s n nid eid b p : (bkey b, p) ∈ held s -> deletedAt p (sc s) = false ->
    sstep s (mkSys (bindLocked n nid eid b p (sc s)).1 (held s))
| SFind s b p : serviceBindings (sc s) !! bkey b = Some p -> sstep s (mkSys (sc s) ({[(bkey b, p)]} ∪ held s))
| SRemove s nid eid b records full p : (bkey b, p) ∈ held s ->
    sstep s (mkSys (unbindLocked nid eid b records full p (sc s)).1 (held s))
| SCleanup s nid : sstep s (mkSys (cleanupServiceDiscovery nid (sc s)) (held s))
| SNetworks s nws : sstep s (mkSys (mkController nws (svcRecords (sc s)) (services (sc s)) (serviceBindings (sc s))
                                      (fwMarkCtr (sc s)) (dataplane (sc s))) (held s)).

Definition keyOf (s : service) : serviceKey := (s_id s, portsString (s_ingressPorts s)).

Record SInv (c : Controller) (h : gset (serviceKey * positive)) : Prop := {
  sv_held : forall k p, (k, p) ∈ h \/ serviceBindings c !! k = Some p -> exists s, services c !! p = Some s /\ keyOf s = k;
  sv_live : forall p s, services c !! p = Some s -> s_deleted s = false <-> serviceBindings c !! keyOf s = Some p;
  sv_dead : forall p s, services c !! p = Some s -> s_deleted s = true -> s_loadBalancers s = ∅ }.

Lemma SInv_core c c' h : services c' = services c -> serviceBindings c' = serviceBindings c -> SInv c h -> SInv c' h.
Proof. intros E1 E2 [A B D]. split; rewrite ?E1, ?E2; done. Qed.

Lemma SInv_hold c h k p : serviceBindings c !! k = Some p -> SInv c h -> SInv c ({[(k, p)]} ∪ h).
Proof. intros Hp [A B D]. split; [|done..]. intros k' p' [H|H]; [|by apply A; right]. apply A. set_solver. Qed.

(** A service is replaced by one with the same key and mark. *)
Lemma SInv_update c c' h p s s' : services c !! p = Some s -> keyOf s' = keyOf s -> s_deleted s' = s_deleted s ->
  (s_deleted s = true -> s_loadBalancers s' = ∅) ->
  services c' = <[p := s']> (services c) -> serviceBindings c' = serviceBindings c -> SInv c h -> SInv c' h.
Proof.
  intros Hs Hk Hd Hl E1 E2 [A B D]. split; rewrite ?E1, ?E2.
  - intros k q H. destruct (A k q H) as (t & Ht & Hkt). destruct (decide (q = p)) as [->|Hne].
    + exists s'. rewrite lookup_insert_eq. split; [done|]. rewrite Hs in Ht. injection Ht as <-. congruence.
    + exists t. by rewrite lookup_insert_ne.
  - intros q t. destruct (decide (q = p)) as [->|Hne]; [rewrite lookup_insert_eq; intros [= <-]|rewrite lookup_insert_ne by done; apply B].
    rewrite Hd, Hk. by apply B.
  - intros q t. destruct (decide (q = p)) as [->|Hne]; [rewrite lookup_insert_eq; intros [= <-]|rewrite lookup_insert_ne by done; apply D].
    rewrite Hd. done.
Qed.

(** A live service without load balancers is marked and leaves the map. *)
Lemma SInv_delete c c' h p s s' : services c !! p = Some s -> keyOf s' = keyOf s -> s_deleted s = false ->
  s_deleted s' = true -> s_loadBalancers s' = ∅ ->
  services c' = <[p := s']> (services c) -> serviceBindings c' = delete (keyOf s) (serviceBindings c) -> SInv c h -> SInv c' h.
Proof.
  intros Hs Hk Hd Hd' Hl E1 E2 [A B D]. split; rewrite ?E1, ?E2.
  - intros k q H. assert (H' : (k, q) ∈ h \/ serviceBindings c !! k = Some q) by (destruct H as [?|[_ ?]%lookup_delete_Some]; auto).
    destruct (A k q H') as (t & Ht & Hkt). destruct (decide (q = p)) as [->|Hne].
    + exists s'. rewrite lookup_insert_eq. split; [done|]. rewrite Hs in Ht. injection Ht as <-. congruence.
    + exists t. by rewrite lookup_insert_ne.
  - intros q t. destruct (decide (q = p)) as [->|Hne].
    + rewrite lookup_insert_eq. intros [= <-]. rewrite Hd', Hk, lookup_delete_eq. done.
    + rewrite lookup_insert_ne by done. intros Ht. rewrite (B _ _ Ht). destruct (decide (keyOf t = keyOf s)) as [E|E].
      * rewrite E, lookup_delete_eq. split; [|done]. intros Hq. apply (B _ _ Hs) in Hd. congruence.
      * by rewrite lookup_delete_ne.
  - intros q t. destruct (decide (q = p)) as [->|Hne]; [rewrite lookup_insert_eq; intros [= <-]; done|].
    rewrite lookup_insert_ne by done. apply D.
Qed.

(** Names concern the records only. *)
Lemma addSvc_core n name sid v4 v6 upd c : core (addSvcRecords n name sid v4 v6 upd c) = core c.
Proof. unfold addSvcRecords. by destruct (nw_ingress n). Qed.
Lemma delSvc_core n name sid v4 v6 upd c : core (deleteSvcRecords n name sid v4 v6 upd c) = core c.
Proof. unfold deleteSvcRecords. destruct (nw_ingress n); [done|]. by destruct (svcRecords c !! nw_id n). Qed.
Lemma foldl_core {A} (f : Controller -> A -> Controller) l c : (forall c x, core (f c x) = core c) -> core (foldl f c l) = core c.
Proof. intros Hf. revert c. induction l as [|x l IH]; intros c; [done|]. cbn. by rewrite IH. Qed.

Lemma addEndpoint_core a b c d e f g h i j c0 : core (addEndpointNameResolution a b c d e f g h i j c0).1 = core c0.
Proof.
  unfold addEndpointNameResolution. destruct (NetworkByID c c0) as [n|] eqn:Hn; [|done].
  unfold addContainerNameResolution. rewrite Hn. cbn. destruct f, j; cbn [fst];
    repeat (rewrite ?addSvc_core, ?foldl_core; try (intros; apply addSvc_core)); done.
Qed.

Lemma deleteEndpoint_core a b c d e f g h i j k c0 : core (deleteEndpointNameResolution a b c d e f g h i j k c0).1 = core c0.
Proof.
  unfold deleteEndpointNameResolution. destruct (NetworkByID c c0) as [n|] eqn:Hn; [|done].
  unfold delContainerNameResolution. rewrite Hn. cbn. destruct f, j, k; cbn;
    repeat (rewrite ?delSvc_core, ?foldl_core; try (intros; apply delSvc_core)); done.
Qed.

Lemma bindLookup_SInv b c h c1 p : SInv c h -> bindLookup b c = (c1, p) -> SInv c1 ({[(bkey b, p)]} ∪ h).
Proof.
  intros HI. unfold bindLookup. fold (bkey b). destruct (serviceBindings c !! bkey b) as [q|] eqn:Hq; intros [= <- <-]; [by apply SInv_hold|].
  set (q := fresh (dom (services c))). assert (Hfr : services c !! q = None) by apply not_elem_of_dom, is_fresh.
  apply SInv_hold; [apply lookup_insert_eq|]. destruct HI as [A B D]. split; cbn.
  - intros k p' Hp'. destruct (decide (k = bkey b /\ p' = q)) as [[-> ->]|Hne].
    + eexists. rewrite lookup_insert_eq. split; [reflexivity|done].
    + assert (H' : (k, p') ∈ h \/ serviceBindings c !! k = Some p').
      { destruct Hp' as [?|Hp']; [by left|right]. apply lookup_insert_Some in Hp' as [[<- <-]|[_ ?]]; [by destruct Hne|done]. }
      destruct (A k p' H') as (t & Ht & ?). exists t. rewrite lookup_insert_ne; [done|]. congruence.
  - intros p' t [[<- <-]|[Hne Ht]]%lookup_insert_Some; [cbn; change (keyOf _) with (bkey b); by rewrite lookup_insert_eq|].
    rewrite (B _ _ Ht). destruct (decide (keyOf t = bkey b)) as [E|E]; [|by rewrite lookup_insert_ne].
    rewrite E, lookup_insert_eq, Hq. split; [done|congruence].
  - intros p' t [[<- <-]|[Hne Ht]]%lookup_insert_Some; [done|]. by apply (D p').
Qed.

Lemma bindLocked_SInv n nid eid b p c h : SInv c h -> deletedAt p c = false -> SInv (bindLocked n nid eid b p c).1 h.
Proof.
  intros HI Hd. unfold deletedAt in Hd. destruct (services c !! p) as [s|] eqn:Hs; [|by unfold bindLocked; rewrite Hs].
  destruct (bindLocked_eq n nid eid b p c s Hs) as (c1 & -> & _ & _ & B1 & S1).
  match goal with |- context [addEndpointNameResolution ?a ?b ?c ?d ?e ?f ?g ?h ?i ?j ?k] =>
    destruct (core_fields _ _ (addEndpoint_core a b c d e f g h i j k)) as (_ & S2 & B2) end.
  eapply (SInv_update c _ h p s (bound s (lbFor s nid b (fwMarkCtr c)) nid eid b)); first [done|by rewrite S2, S1|by rewrite B2, B1|by rewrite Hd].
Qed.

Lemma unbindLocked_SInv nid eid b records full p c h : SInv c h -> (bkey b, p) ∈ h -> SInv (unbindLocked nid eid b records full p c).1 h.
Proof.
  intros HI Hh. destruct (sv_held _ _ HI _ _ (or_introl Hh)) as (s & Hs & Hk). unfold unbindLocked. rewrite Hs.
  destruct (s_loadBalancers s !! nid) as [lb|] eqn:Hlb; [|done]. destruct (lb_backEnds lb !! eid) as [be|] eqn:Hbe; [|done].
  assert (Hd : s_deleted s = false).
  { destruct (s_deleted s) eqn:E; [|done]. by rewrite (sv_dead _ _ HI _ _ Hs E), lookup_empty in Hlb. }
  destruct (Remove (IPString (b_ip b)) eid (s_ipToEndpoint s)) as [m [ok entries]]. cbv zeta.
  match goal with |- context [set_services (<[p := ?t]> (services c)) c] => set (s' := t) in * end.
  match goal with |- context [if (entries =? 0)%nat then ?x else ?y] => set (c1 := if (entries =? 0)%nat then x else y) end.
  assert (Hc1 : services c1 = <[p := s']> (services c) /\ serviceBindings c1 = serviceBindings c).
  { unfold c1. destruct (entries =? 0)%nat; [|done]. destruct (NetworkByID _ _); [|done]. unfold rmLBBackend. cbn. by destruct (lb_vip lb). }
  clearbody c1.
  match goal with |- context [match ?x with (_, _) => _ end] => set (r := x) end.
  assert (Hr : core r.1 = core c1) by (unfold r; destruct records; [apply deleteEndpoint_core|done]).
  clearbody r. destruct r as [c2 [e|]]; cbn [fst] in *; apply core_fields in Hr as (_ & S2 & B2); destruct Hc1 as [S1 B1].
  { eapply (SInv_update c _ h p s s'); try exact HI; try exact Hs; first [done|by rewrite S2, S1|by rewrite B2, B1|by rewrite Hd]. }
  match goal with |- context [if (size ?x =? 0)%nat then _ else _] => destruct (size x =? 0)%nat eqn:Ez end; cbn [fst].
  - eapply (SInv_delete c _ h p s); try exact HI; try exact Hs; [..|cbn; by rewrite S2, S1, insert_insert_eq|cbn; fold (bkey b); by rewrite B2, B1, Hk]; try done.
    cbn. by apply Nat.eqb_eq, map_size_empty_inv in Ez.
  - eapply (SInv_update c _ h p s s'); try exact HI; try exact Hs; first [done|by rewrite S2, S1|by rewrite B2, B1|by rewrite Hd].
Qed.

Lemma sstep_SInv s s' : SInv (sc s) (held s) -> sstep s s' -> SInv (sc s') (held s').
Proof.
  intros HI Hst. destruct Hst as [s b c p Hl|s n nid eid b p Hh Hd|s b p Hp|s nid eid b records full p Hh|s nid|s nws]; cbn [sc held].
  - by eapply bindLookup_SInv.
  - by apply bindLocked_SInv.
  - by apply SInv_hold.
  - by apply unbindLocked_SInv.
  - apply (SInv_core (sc s)); [| |done]; unfold cleanupServiceDiscovery; by destruct (nid =? "").
  - by apply (SInv_core (sc s)).
Qed.

(** C20: no binding is lost.  In every interleaving of the sections of additions and removals,
    with networks that come and go, at most one service of a key is alive, it is the one that
    the controller has for the key, and every service with a load balancer is alive; so the
    backend that a call adds under the lock is found under the key of its service. *)
Theorem binding_not_lost nws s :
  rtc sstep (mkSys (NewController nws) ∅) s ->
  (forall p sv, services (sc s) !! p = Some sv ->
     (s_deleted sv = false <-> serviceBindings (sc s) !! keyOf sv = Some p) /\
     (s_loadBalancers sv <> ∅ -> serviceBindings (sc s) !! keyOf sv = Some p)) /\
  (forall n nid eid b p, (bkey b, p) ∈ held s -> deletedAt p (sc s) = false ->
     let c := (bindLocked n nid eid b p (sc s)).1 in
     serviceBindings c !! bkey b = Some p /\
     exists sv lb, services c !! p = Some sv /\ keyOf sv = bkey b /\ s_loadBalancers sv !! nid = Some lb /\
       lb_backEnds lb !! eid = Some (mkBackend (b_ip b) false)).
Proof.
  intros Hrun. assert (HI : SInv (sc s) (held s)).
  { assert (H0 : SInv (NewController nws) ∅) by (split; cbn; [intros k p [?|?]|..]; set_solver).
    change (NewController nws) with (sc (mkSys (NewController nws) ∅)) in H0.
    change ∅ with (held (mkSys (NewController nws) ∅)) in H0 at 2.
    induction Hrun as [|s1 s2 s3 Hs _ IH]; [done|]. apply IH. by eapply sstep_SInv. }
  split.
  - intros p sv Hp. split; [by apply (sv_live _ _ HI)|]. intros Hl. apply (sv_live _ _ HI); [done|].
    destruct (s_deleted sv) eqn:Hd; [|done]. by destruct Hl, (sv_dead _ _ HI p sv).
  - intros n nid eid b p Hh Hd. cbv zeta. destruct (sv_held _ _ HI _ _ (or_introl Hh)) as (sv & Hs & Hk).
    unfold deletedAt in Hd. rewrite Hs in Hd. destruct (bindLocked_eq n nid eid b p (sc s) sv Hs) as (c1 & -> & _ & _ & B1 & S1).
    match goal with |- context [addEndpointNameResolution ?a ?b ?c ?d ?e ?f ?g ?h ?i ?j ?k] =>
      destruct (core_fields _ _ (addEndpoint_core a b c d e f g h i j k)) as (_ & S2 & B2) end.
    rewrite B2, B1, S2, S1, lookup_insert_eq. split; [rewrite <- Hk; by apply (sv_live _ _ HI)|].
    eexists _, _. split; [reflexivity|]. split; [done|]. cbn. rewrite lookup_insert_eq. split; [reflexivity|]. cbn.
    by rewrite lookup_insert_eq.
Qed.
End Concurrent.

(** ** Checking a table *)

Section Check_table.
Context `{HN : NetLib}.

Definition pairOk (x y : (string * string) * (bool * binding)) : bool :=
  let '((nid, eid), (en, b)) := x in
  let '((nid', eid'), (en', b')) := y in
  let same := negb (b_svcID b =? "") && negb (b_svcID b' =? "") && bool_decide (bkey b = bkey b') in
  (negb same || negb (nid =? nid') ||
     bool_decide (b_vip b = b_vip b') && bool_decide (list_to_set (svcNames b) =@{gset string} list_to_set (svcNames b')) &&
     match b_vip b with Some v => negb (IPString v =? IPString (b_ip b')) | None => true end) &&
  (negb same || negb (IPString (b_ip b) =? IPString (b_ip b')) || (nid =? nid')) &&
  (negb (eid =? eid') || (nid =? nid')) && negb (b_svcID b' =? eid).

Definition oneOk (nws : gmap string Network) (x : (string * string) * (bool * binding)) : bool :=
  let '((nid, eid), (en, b)) := x in
  negb (nid =? "") && (negb (b_svcID b =? "") || en) &&
  match nws !! nid with
  | Some n => (nw_id n =? nid) && (bool_decide (b_ingressPorts b = []) || nw_ingress n)
  | None => false
  end.

Definition coherentb (nws : gmap string Network) (T : Tbl) : bool :=
  let l := map_to_list T in forallb (oneOk nws) l && forallb (fun x => forallb (pairOk x) l) l.

Lemma coherentb_sound nws T : coherentb nws T = true -> coherent nws T.
Proof.
  unfold coherentb. rewrite andb_true_iff, !forallb_forall. intros [H1 H2].
  assert (Ho : forall nid eid v, T !! (nid, eid) = Some v -> oneOk nws ((nid, eid), v) = true).
  { intros nid eid v H. apply H1, list_elem_of_In, elem_of_map_to_list, H. }
  assert (Hp : forall nid eid v nid' eid' v', T !! (nid, eid) = Some v -> T !! (nid', eid') = Some v' ->
            pairOk ((nid, eid), v) ((nid', eid'), v') = true).
  { intros nid eid v nid' eid' v' H H'. specialize (H2 ((nid, eid), v)). rewrite forallb_forall in H2.
    apply H2; by apply list_elem_of_In, elem_of_map_to_list. }
  assert (Hs : forall k nid eid en b nid' eid' en' b', backend T k nid eid en b -> backend T k nid' eid' en' b' ->
            (nid = nid' -> b_vip b = b_vip b' /\ (list_to_set (svcNames b) =@{gset string} list_to_set (svcNames b')) /\
               forall v, b_vip b = Some v -> IPString v <> IPString (b_ip b')) /\
            (IPString (b_ip b) = IPString (b_ip b') -> nid = nid')).
  { intros k nid eid en b nid' eid' en' b' (E & N & K) (E' & N' & K'). specialize (Hp _ _ _ _ _ _ E E'). unfold pairOk in Hp.
    apply String.eqb_neq in N, N'. rewrite N, N', bool_decide_eq_true_2 in Hp by congruence. cbn [negb andb orb] in Hp.
    rewrite !andb_true_iff in Hp. destruct Hp as [[[Ha Hb] _] _]. split.
    - intros <-. rewrite String.eqb_refl in Ha. cbn in Ha. rewrite !andb_true_iff, !bool_decide_eq_true in Ha.
      destruct Ha as [[? ?] Hv]. split_and!; [done..|]. intros v Ev. rewrite Ev in Hv. by apply negb_true_iff, String.eqb_neq in Hv.
    - intros Eip. apply String.eqb_eq in Eip. rewrite Eip in Hb. by apply String.eqb_eq. }
  split.
  - intros nid eid en b H. specialize (Ho _ _ _ H). unfold oneOk in Ho. rewrite !andb_true_iff in Ho.
    destruct Ho as [[Hn _] Hw]. split; [by apply negb_true_iff, String.eqb_neq in Hn|].
    destruct (nws !! nid) as [n|]; [|done]. apply andb_true_iff in Hw as [Hid%String.eqb_eq Hi]. exists n. split_and!; [done..|].
    intros Hpo. by rewrite bool_decide_eq_false_2 in Hi.
  - intros k nid eid en b eid' en' b' B B'. destruct (Hs _ _ _ _ _ _ _ _ _ B B') as [Ha _].
    destruct (Ha eq_refl) as (? & Hset & _). split; [done|]. intros x. rewrite <- !(elem_of_list_to_set (C := gset string)). by rewrite Hset.
  - intros k nid eid en b nid' eid' en' b' B B'. apply (Hs _ _ _ _ _ _ _ _ _ B B').
  - intros nid nid' eid v v' H H'. specialize (Hp _ _ _ _ _ _ H H'). destruct v as [en b], v' as [en' b']. unfold pairOk in Hp.
    rewrite !andb_true_iff, String.eqb_refl in Hp. destruct Hp as [[_ Hp] _]. cbn in Hp. by apply String.eqb_eq.
  - intros nid eid [en0 b0] nid' eid' en b H H'. specialize (Hp _ _ _ _ _ _ H H'). unfold pairOk in Hp.
    rewrite !andb_true_iff in Hp. destruct Hp as [_ Hp]. by apply negb_true_iff, String.eqb_neq in Hp.
  - intros k nid eid en b eid' en' b' v B B' Ev. destruct (Hs _ _ _ _ _ _ _ _ _ B B') as [Ha _]. by apply (Ha eq_refl).
  - intros nid eid en b H Hz. specialize (Ho _ _ _ H). unfold oneOk in Ho. rewrite Hz in Ho. cbn in Ho.
    rewrite !andb_true_iff in Ho. tauto.
Qed.
End Check_table.

(** ** A concrete library

    Addresses as decimal numbers separated by dots, or with a colon in front. *)
Definition decimal (z : Z) : string := DecimalString.NilZero.string_of_int (Z.to_int z).
Definition undecimal (s : string) : option Z := Z.of_int <$> DecimalString.NilZero.int_of_string s.

Lemma undecimal_decimal z : undecimal (decimal z) = Some z.
Proof.
  unfold undecimal, decimal. rewrite DecimalString.NilZero.isi; [cbn; by rewrite DecimalZ.of_to|..];
    destruct z as [|p|p]; try done; cbn; intros [= E]; by apply DecimalPos.Unsigned.to_uint_nonnil in E.
Qed.

Definition exString (a : Addr) : string :=
  match a with
  | AddrZero => ""
  | Addr4 v => Discovery.Join [decimal (v / 2 ^ 24); decimal (v / 2 ^ 16 mod 256); decimal (v / 2 ^ 8 mod 256); decimal (v mod 256)]%Z "."
  | Addr6 v => String ":"%char (decimal v)
  end.

Definition exParse4 (s : string) : option Addr :=
  match Split s "."%char with
  | [a; b; c; d] =>
      a ← undecimal a; b ← undecimal b; c ← undecimal c; d ← undecimal d;
      Some (Addr4 (a * 2 ^ 24 + b * 2 ^ 16 + c * 2 ^ 8 + d))
  | _ => None
  end%Z.

Definition exParse (s : string) : option Addr :=
  match s with
  | String c t => if Ascii.eqb c ":"%char then Addr6 <$> undecimal t else exParse4 s
  | EmptyString => None
  end.

(** Characters of the text of a number. *)
Lemma uint_char c d : c = "."%char \/ c = ":"%char -> has_char c (NilEmpty.string_of_uint d) = false.
Proof. intros [-> | ->]; induction d; cbn; done. Qed.

Lemma decimal_char c z : c = "."%char \/ c = ":"%char -> has_char c (decimal z) = false.
Proof.
  intros Hc. unfold decimal, NilZero.string_of_int, NilZero.string_of_uint.
  destruct (Z.to_int z) as [d|d]; destruct d; cbn [has_char]; rewrite ?(uint_char c _ Hc); destruct Hc as [-> | ->]; try done;
    cbn; by rewrite uint_char by auto.
Qed.

Lemma dot_app x : "." +:+ x = String "."%char x.
Proof. done. Qed.

Lemma exParse_exString a : AddrIsValid a = true -> exParse (exString a) = Some a.
Proof.
  destruct a as [|v|v]; [done| |]; intros _.
  - assert (H4 : exParse4 (exString (Addr4 v)) = Some (Addr4 v)).
    { unfold exParse4, exString, Discovery.Join. rewrite !dot_app.
      rewrite !Split_app by (apply decimal_char; auto). rewrite Split_none by (apply decimal_char; auto). cbn [mbind option_bind].
      rewrite !undecimal_decimal. cbn. do 2 f_equal.
      change (2 ^ 24)%Z with 16777216%Z. change (2 ^ 16)%Z with 65536%Z. change (2 ^ 8)%Z with 256%Z.
      pose proof (Z.div_mod v 256) as E1. pose proof (Z.div_mod (v / 256) 256) as E2. pose proof (Z.div_mod (v / 65536) 256) as E3.
      rewrite Z.div_div in E2, E3 by done.
      change (256 * 256)%Z with 65536%Z in E2. change (65536 * 256)%Z with 16777216%Z in E3. lia. }
    rewrite <- H4. unfold exParse. destruct (exString (Addr4 v)) as [|c t] eqn:E; [done|].
    destruct (Ascii.eqb c ":"%char) eqn:Ec; [|done]. exfalso. unfold exString, Discovery.Join in E.
    pose proof (decimal_char ":"%char (v / 2 ^ 24) (or_intror eq_refl)) as Hc.
    destruct (decimal (v / 2 ^ 24)) as [|c0 t0]; cbn in E; injection E as <- _; [done|]. cbn in Hc. by rewrite Ec in Hc.
  - unfold exString, exParse. cbn. by rewrite undecimal_decimal.
Qed.

(** ** A concrete cluster

    Two networks and the routing network; a service [svc1] with a virtual address and a
    container. *)
Definition task (name : string) (aliases : list string) (ip : string) (disabled : bool) : EndpointRecord :=
  mkEndpointRecord name "web" "svc1" "10.0.0.2" ip [] aliases ["t1"] disabled.
Definition port (n : Z) : PortConfig := mkPortConfig "" "TCP" n n.
Definition routed (ports : list PortConfig) : EndpointRecord :=
  mkEndpointRecord "web.1" "web" "svc1" "10.0.0.2" "10.0.0.3" ports [] [] false.

Definition exRecord (d : string) : option EndpointRecord :=
  if d =? "task" then Some (task "web.1" ["www"] "10.0.0.3" false)
  else if d =? "disabled" then Some (task "web.1" ["www"] "10.0.0.3" true)
  else if d =? "task2" then Some (task "web.2" ["www"] "10.1.0.4" false)
  else if d =? "disabled2" then Some (task "web.2" ["www"] "10.1.0.4" true)
  else if d =? "newer" then Some (task "web.3" ["shop"] "10.0.0.6" false)
  else if d =? "container" then Some (mkEndpointRecord "db" "" "" "" "10.0.0.5" [] [] ["data"] false)
  else if d =? "ports" then Some (routed [port 80; port 443])
  else if d =? "strop" then Some (routed [port 443; port 80])
  else None.

#[local] Instance exLib : NetLib := {|
  IPString := exString; ParseIP := exParse; ParseAddr s := default AddrZero (exParse s); Unmarshal := exRecord;
  entriesSlice := elements; infosSlice := elements |}.

#[local] Instance exLib_laws : NetLibLaws.
Proof. split; [intros a Ha _; by apply exParse_exString|done|done]. Qed.

Definition exNet : Network := mkNetwork "n1" "net" false.
Definition exNws : gmap string Network :=
  {["n1" := exNet; "n2" := mkNetwork "n2" "back" false; "ingress" := mkNetwork "ingress" "ingress" true]}.

Definition told (nid eid : string) (value prev : option string) : WatchEvent := MkWatchEvent libnetworkEPTable nid eid value prev.
Definition exEvs : list WatchEvent :=
  [told "n1" "ep1" (Some "task") None; told "n1" "ep2" (Some "container") None].

Lemma told_follows V nid eid value prev : prev = V !! (libnetworkEPTable, nid, eid) ->
  (forall d, prev = Some d \/ value = Some d -> is_Some (unmarshalEndpointRecord d)) -> prev = None ->
  follows V (told nid eid value prev).
Proof. intros Hp Hd Hn. split; cbn; [done|done|done|]. intros d d' p r Hd'. by rewrite Hn in Hd'. Qed.

Lemma exEvs_sensible : sensible exNws ∅ exEvs.
Proof.
  split; [apply coherentb_sound; vm_compute; reflexivity|].
  split; [apply told_follows; [vm_compute; reflexivity|intros d [?|[= <-]]; [done|vm_compute; by eexists]|done]|].
  split; [apply coherentb_sound; vm_compute; reflexivity|].
  split; [apply told_follows; [vm_compute; reflexivity|intros d [?|[= <-]]; [done|vm_compute; by eexists]|done]|].
  split; [apply coherentb_sound; vm_compute; reflexivity|done].
Qed.

Definition exVIP : Addr := Addr4 167772162.

Lemma discovery_exact_witness :
  exists c, handleAll 1 exEvs (NewController exNws) = Some c /\ Some exVIP ∈ (ResolveName exNet "WWW." false c).1.
Proof.
  destruct (discovery_exact exNws exEvs 1 exNet (le_n 1) exEvs_sensible eq_refl eq_refl) as (c & Hc & Hr).
  exists c. split; [exact Hc|]. specialize (Hr "WWW." false). cbv zeta in Hr.
  destruct (ResolveName exNet "WWW." false c) as [ips ok]. destruct Hr as (_ & _ & Hr). apply Hr. split; [reflexivity|].
  exists exVIP. split; [reflexivity|].
  exists "ep1", (bindingOf (mkEpEvent (task "web.1" ["www"] "10.0.0.3" false) exVIP (Addr4 167772163))).
  split; [vm_compute; reflexivity|]. right. right. split; [discriminate|]. split; [vm_compute; reflexivity|]. vm_compute. right. left.
Defined.

Lemma load_balancers_exact_witness :
  exists c, handleAll 1 exEvs (NewController exNws) = Some c /\ is_Some (serviceBindings c !! ("svc1", "")).
Proof.
  destruct (load_balancers_exact exNws exEvs 1 (le_n 1) exEvs_sensible) as (c & Hc & Hr).
  exists c. split; [exact Hc|]. cbv zeta in Hr. specialize (Hr ("svc1", "")).
  destruct (serviceBindings c !! ("svc1", "")); [by eexists|]. exfalso.
  apply (Hr "n1" "ep1" true (bindingOf (mkEpEvent (task "web.1" ["www"] "10.0.0.3" false) exVIP (Addr4 167772163)))).
  split; [vm_compute; reflexivity|]. split; [discriminate|vm_compute; reflexivity].
Defined.

Definition exB : binding := bindingOf (mkEpEvent (task "web.1" ["www"] "10.0.0.3" false) exVIP (Addr4 167772163)).

Lemma binding_not_lost_witness :
  let c := (bindLookup exB (NewController exNws)).1 in
  exists p, serviceBindings (bindLocked exNet "n1" "ep1" exB p c).1 !! bkey exB = Some p.
Proof.
  cbv zeta. destruct (bindLookup exB (NewController exNws)) as [c p] eqn:Hl. exists p. cbn [fst].
  apply (binding_not_lost exNws (mkSys c ({[(bkey exB, p)]} ∪ ∅))).
  - apply rtc_once. exact (SLookup (mkSys (NewController exNws) ∅) exB c p Hl).
  - cbn [held]. set_solver.
  - vm_compute in Hl. injection Hl as <- <-. reflexivity.
Defined.

(** ** What the code does not keep *)

Definition after (evs : list WatchEvent) : Controller := default (NewController exNws) (handleAll 1 evs (NewController exNws)).
Definition servicesBound (c : Controller) : list serviceKey := (map_to_list (serviceBindings c)).*1.

(** An update that only permutes the ports of an endpoint is ignored as equivalent; the
    service stays under the key of the old order and outlives its last endpoint. *)
Lemma permuted_ports_leak :
  let evs := [told "ingress" "ep1" (Some "ports") None; told "ingress" "ep1" (Some "strop") (Some "ports");
              told "ingress" "ep1" None (Some "strop")] in
  tableOf (foldl applyEvent ∅ evs) = ∅ /\ servicesBound (after evs) = [("svc1", "80:80/TCP,443:443/TCP")].
Proof. by vm_compute. Qed.

(** When its network is gone the removal of the last endpoint stops before it removes the
    service. *)
Lemma network_gone_leaks_service :
  let c := after [told "n1" "ep1" (Some "task") None] in
  let c := mkController ∅ (svcRecords c) (services c) (serviceBindings c) (fwMarkCtr c) (dataplane c) in
  let '(c', err) := rmServiceBinding "n1" "ep1" exB true true c in
  err = Some ErrNoNetwork /\ servicesBound c' = [("svc1", "")] /\
  omap (fun p => s_loadBalancers <$> services c' !! p) (map_to_list (serviceBindings c')).*2 = [∅].
Proof. by vm_compute. Qed.

(** [Services] asks for the load balancer of every endpoint in the table.  A disabled task has
    none left, which is a nil pointer when the service has one on another network. *)
Lemma getLBIndex_panics :
  let evs := [told "n1" "ep1" (Some "task") None; told "n2" "ep2" (Some "task2") None;
              told "n2" "ep2" (Some "disabled2") (Some "task2")] in
  foldl applyEvent ∅ evs !! (libnetworkEPTable, "n2", "ep2") = Some "disabled2" /\
  getLBIndex "svc1" "n2" [] (after evs) = GoPanic.
Proof. by vm_compute. Qed.

(** Disabling a task of another node removes its backend in full, although [rmLBBackend] means
    to keep it without weight. *)
Lemma remote_disable_removes :
  dataplane (after [told "n1" "ep1" (Some "task") None; told "n1" "ep1" (Some "disabled") (Some "task")]) =
    [AddLB "n1" (Addr4 167772163) exVIP 256; RmLB "n1" (Addr4 167772163) exVIP 256 true true].
Proof. by vm_compute. Qed.

(** An alias that only later tasks of a service have is not resolved to its virtual address. *)
Lemma later_alias_unknown :
  let c := after [told "n1" "ep1" (Some "task") None; told "n1" "ep3" (Some "newer") None] in
  ResolveName exNet "www" false c = ([Some exVIP], true) /\ ResolveName exNet "shop" false c = ([], false) /\
  ResolveName exNet "tasks.shop" false c = ([Some (Addr4 167772166)], true).
Proof. by vm_compute. Qed.

(** The record of an answer of an external server never matches: the local records carry the
    identifier of their service or endpoint. *)
Lemma query_resp_ignored :
  let c := after [told "n1" "ep1" (Some "task") None] in
  ResolveIP exNet "3.0.0.10" c = "web.1.net" /\ HandleQueryResp exNet "web.1" (Addr4 167772163) c = c.
Proof. by vm_compute. Qed.

Lemma query_resp_never_matches `{NetLib} n name ip c :
  (forall nid x i, i ∈ members x (ipMap (recs nid c)) -> ii_serviceID i <> "") -> HandleQueryResp n name ip c = c.
Proof.
  intros Hi. unfold HandleQueryResp. destruct (svcRecords c !! nw_id n) as [sr|] eqn:Hsr; [|done].
  specialize (Hi (nw_id n) (ReverseIP (IPString ip)) (mkIPInfo name "" false)). unfold recs in Hi. rewrite Hsr in Hi. cbn in Hi.
  unfold Contains. unfold members in Hi. destruct (ipMap sr !! _) as [set|]; cbn in *; [|done].
  rewrite bool_decide_eq_false_2; [done|]. intros Hin. by apply Hi in Hin.
Qed.

(** The reverse name of an IPv6 address that begins (or ends) with [::] has too many digits. *)
Lemma ReverseIP_leading_zeros `{NetLib} :
  match ParseIP "::1" with Some a => Is4 a | None => false end = false ->
  match ParseIP "fd00:1:2:3:4:5:6:7" with Some a => Is4 a | None => false end = false ->
  String.length (ReverseIP "fd00:1:2:3:4:5:6:7") = 63%nat /\ String.length (ReverseIP "::1") = 103%nat.
Proof. intros H1 H2. unfold ReverseIP. rewrite H1, H2. by vm_compute. Qed.

(** Nothing fills the table of service ports, so that queries for them have no answer. *)
Lemma srv_unanswered : ResolveService exNet "http.tcp.web" (after exEvs) = None.
Proof. by vm_compute. Qed.
