(* ===== verification/OverlayKeys.v ===== *)
(** * Encryption of overlay networks

    Model of [daemon/libnetwork/drivers/overlay/encryption.go] and of the notifications of
    [overlay.go]: the keys of the data plane, the parameters of every remote node and the
    associations and policies of IPsec that are programmed for it.

    The kernel's transformation tables are the class [Xfrm].  A [net.IP] is the [Addr] whose
    bytes it has; protocol (ESP), mode (transport) and algorithm are the same everywhere and
    left out of the states.  [None] as the result of an operation is a panic. *)

From S2P Require Import Prelude Slices NetIP.
From stdpp Require Import gmap list.

Local Open Scope Z_scope.

Definition mark : Z := 0xD0C4E3.

Definition forward : Z := 1.
Definition reverse : Z := 2.
Definition bidir : Z := 3.

Record key := mkKey { k_value : list Z; k_tag : Z }.
Record spi := mkSpi { spi_forward : Z; spi_reverse : Z }.
Record encrNode := mkNode { en_spi : list spi; en_count : Z }.

#[export] Instance key_eq : EqDecision key.
Proof. solve_decision. Defined.
#[export] Instance spi_eq : EqDecision spi.
Proof. solve_decision. Defined.

(** [netlink.XfrmState]; [sa_Aead] is the key of the algorithm. *)
Record XfrmState := mkSA { sa_Src : Addr; sa_Dst : Addr; sa_Spi : Z; sa_Reqid : Z; sa_Aead : option (list Z) }.

(** [netlink.XfrmPolicy] for outgoing datagrams, with its one template. *)
Record XfrmPolicy := mkSP {
  sp_Src : Addr; sp_Dst : Addr; sp_DstPort : Z; sp_Mark : option Z;
  sp_TmplSrc : Addr; sp_TmplDst : Addr; sp_TmplSpi : Z; sp_TmplReqid : Z }.

#[export] Instance XfrmState_eq : EqDecision XfrmState.
Proof. solve_decision. Defined.
#[export] Instance XfrmPolicy_eq : EqDecision XfrmPolicy.
Proof. solve_decision. Defined.

Inductive errno := EEXIST | ESRCH | ENOENT | EOTHER.

(** The netlink handle. *)
Class Xfrm := {
  XK : Type;
  XfrmStateAdd : XfrmState -> XK -> XK * option errno;
  XfrmStateDel : XfrmState -> XK -> XK * option errno;
  XfrmStateGet : XfrmState -> XK -> option errno;
  XfrmStateList : XK -> list XfrmState;
  XfrmPolicyAdd : XfrmPolicy -> XK -> XK * option errno;
  XfrmPolicyDel : XfrmPolicy -> XK -> XK * option errno;
  XfrmPolicyUpdate : XfrmPolicy -> XK -> XK * option errno;
  XfrmPolicyGet : XfrmPolicy -> XK -> option errno;
  XfrmPolicyList : XK -> list XfrmPolicy }.

Definition AsSlice (a : Addr) : list Z :=
  match a with AddrZero => [] | Addr4 _ => As4 a | Addr6 _ => As16 a end.

Definition getMinimalIP (ip : Addr) : Addr := Unmap ip.

(** [fnv.New32a] *)
Definition fnv32a (b : list Z) : Z := foldl (fun h c => (Z.lxor h c * 16777619) mod 2 ^ 32) 2166136261 b.

Definition buildSPI (src dst : Addr) (st : Z) : Z := fnv32a (AsSlice src ++ be_put 4 st ++ AsSlice dst).

Definition buildAeadAlgo (k : key) (s : Z) : list Z := k_value k ++ be_put 4 s.

(** [l[i]] for an [int] index. *)
Definition at_ {A} (l : list A) (i : Z) : option A := if i <? 0 then None else l !! Z.to_nat i.

(** [append(l[:i], l[i+1:]...)] *)
Definition cut {A} (l : list A) (i : Z) : option (list A) :=
  if (i <? 0) || (Z.of_nat (length l) <=? i) then None else Some (delete_at (Z.to_nat i) l).

(** Swapping [l[0]] and [l[i]]. *)
Definition swap0 {A} (l : list A) (i : Z) : option (list A) :=
  match at_ l 0, at_ l i with
  | Some a, Some b => Some (<[Z.to_nat i := a]> (<[0%nat := b]> l))
  | _, _ => None
  end.

(** The index of the last key with a tag, or -1. *)
Definition indexOfTag (t : Z) (ks : list key) : Z :=
  (foldl (fun '(i, r) k => (i + 1, if k_tag k =? t then i else r)) (0, -1) ks).2.

Section Keys.
Context `{Xfrm}.

Record driver := mkDriver {
  secMap : gmap Addr encrNode;
  keys : list key;
  bindAddress : Addr;
  advertiseAddress : Addr;
  vxlanUDPPort : Z;
  xfrm : XK }.

Definition set_secMap m (d : driver) := mkDriver m (keys d) (bindAddress d) (advertiseAddress d) (vxlanUDPPort d) (xfrm d).
Definition set_keys ks (d : driver) := mkDriver (secMap d) ks (bindAddress d) (advertiseAddress d) (vxlanUDPPort d) (xfrm d).
Definition set_xfrm x (d : driver) := mkDriver (secMap d) (keys d) (bindAddress d) (advertiseAddress d) (vxlanUDPPort d) x.

(** ** Associations and policies *)

Definition saExists (sa : XfrmState) (x : XK) : bool * option errno :=
  match XfrmStateGet sa x with
  | None => (true, None)
  | Some ESRCH => (false, None)
  | Some e => (false, Some e)
  end.
Definition spExists (sp : XfrmPolicy) (x : XK) : bool * option errno :=
  match XfrmPolicyGet sp x with
  | None => (true, None)
  | Some ENOENT => (false, None)
  | Some e => (false, Some e)
  end.

(** One direction of [programSA]: a failed question counts as a reason to try. *)
Definition programState (sa : XfrmState) (add : bool) (x : XK) : XK * option errno :=
  let '(exists_, err) := saExists sa x in
  let exists_ := match err with Some _ => negb add | None => exists_ end in
  (if xorb add exists_ then ((if add then XfrmStateAdd else XfrmStateDel) sa x).1 else x, err).

Definition programSA (localIP remoteIP : Addr) (s : spi) (k : option key) (dir : Z) (add : bool) (x : XK)
    : XK * (option XfrmState * option XfrmState * option errno) :=
  let aead v := if add then option_map (fun k => buildAeadAlgo k v) k else None in
  let '(x, rSA, lastErr) :=
    if 0 <? Z.land dir reverse then
      let rSA := mkSA remoteIP localIP (spi_reverse s) mark (aead (spi_reverse s)) in
      let '(x, err) := programState rSA add x in (x, Some rSA, err)
    else (x, None, None) in
  let '(x, fSA, lastErr) :=
    if 0 <? Z.land dir forward then
      let fSA := mkSA localIP remoteIP (spi_forward s) mark (aead (spi_forward s)) in
      let '(x, err) := programState fSA add x in
      (x, Some fSA, match err with Some e => Some e | None => lastErr end)
    else (x, None, lastErr) in
  (x, (fSA, rSA, lastErr)).

(** The policy that selects datagrams for the association [fSA]. *)
Definition policyOf (fSA : XfrmState) (port : Z) : XfrmPolicy :=
  mkSP (getMinimalIP (sa_Src fSA)) (getMinimalIP (sa_Dst fSA)) port (Some mark) (sa_Src fSA) (sa_Dst fSA) (sa_Spi fSA) mark.

(** [programSP]; [programSA] in both directions always gives an [fSA]. *)
Definition programSP (fSA : option XfrmState) (port : Z) (add : bool) (x : XK) : XK :=
  match fSA with
  | None => x
  | Some fSA =>
      let fPol := policyOf fSA port in
      let '(exists_, err) := spExists fPol x in
      let exists_ := match err with Some _ => negb add | None => exists_ end in
      if xorb add exists_ then ((if add then XfrmPolicyAdd else XfrmPolicyDel) fPol x).1 else x
  end.

Definition clearEncryptionStates (x : XK) : XK :=
  let spList := XfrmPolicyList x in
  let saList := XfrmStateList x in
  let x := foldl (fun x sp => if bool_decide (sp_Mark sp = Some mark) then (XfrmPolicyDel sp x).1 else x) x spList in
  foldl (fun x sa => if sa_Reqid sa =? mark then (XfrmStateDel sa x).1 else x) x saList.

(** ** Remote nodes *)

(** The indices of the tunnel to [remoteIP] under a key. *)
Definition spisOf (advIP remoteIP : Addr) (k : key) : spi :=
  mkSpi (buildSPI advIP remoteIP (k_tag k)) (buildSPI remoteIP advIP (k_tag k)).

Definition setupEncryption (remoteIP : Addr) (d : driver) : driver * bool :=
  if (length (keys d) =? 0)%nat then (d, true)
  else
    let localIP := bindAddress d in
    let '(x, indices, _) :=
      foldl (fun '(x, indices, i) k =>
        let spis := spisOf (advertiseAddress d) remoteIP k in
        let dir := if (i =? 0)%nat then bidir else reverse in
        let '(x, (fSA, _, _)) := programSA localIP remoteIP spis (Some k) dir true x in
        (if (i =? 0)%nat then programSP fSA (vxlanUDPPort d) true x else x, (indices ++ [spis])%list, S i))
        (xfrm d, [], O) (keys d) in
    let node := default (mkNode [] 0) (secMap d !! remoteIP) in
    (set_xfrm x (set_secMap (<[remoteIP := mkNode indices (en_count node + 1)]> (secMap d)) d), false).

Definition removeEncryption (remoteIP : Addr) (d : driver) : driver :=
  let node := default (mkNode [] 0) (secMap d !! remoteIP) in
  let '(m, spi) :=
    if en_count node =? 1 then (delete remoteIP (secMap d), en_spi node)
    else (<[remoteIP := mkNode (en_spi node) (en_count node - 1)]> (secMap d), []) in
  let '(x, _) :=
    foldl (fun '(x, i) idxs =>
      let dir := if (i =? 0)%nat then bidir else reverse in
      let '(x, (fSA, _, _)) := programSA (bindAddress d) remoteIP idxs None dir false x in
      (if (i =? 0)%nat then programSP fSA (vxlanUDPPort d) false x else x, S i)) (xfrm d, O) spi in
  set_xfrm x (set_secMap m d).

(** ** Keys *)

Definition setKeys (ks : list key) (d : driver) : driver :=
  set_keys ks (set_secMap ∅ (set_xfrm (clearEncryptionStates (xfrm d)) d)).

Definition updateNodeKey (lIP aIP rIP : Addr) (idxs : list spi) (curKeys : list key) (newIdx priIdx delIdx port : Z) (x : XK)
    : option (XK * list spi) :=
  spis ← (if newIdx =? -1 then Some idxs else k ← at_ curKeys newIdx; Some (idxs ++ [spisOf aIP rIP k])%list);
  x ← (if delIdx =? -1 then Some x else s ← at_ spis delIdx; Some (programSA lIP rIP s None reverse false x).1);
  x ← (if newIdx >? -1 then
         s ← at_ spis newIdx; k ← at_ curKeys newIdx; Some (programSA lIP rIP s (Some k) reverse true x).1
       else Some x);
  x ← (if priIdx >? 0 then
         s ← at_ spis priIdx; k ← at_ curKeys priIdx;
         '(x, fSA2) ← (let '(x, (fSA2, _, _)) := programSA lIP rIP s (Some k) forward true x in option_map (pair x) fSA2);
         let x := (XfrmPolicyUpdate (policyOf fSA2 port) x).1 in
         s0 ← at_ spis 0; Some (programSA lIP rIP s0 None forward false x).1
       else Some x);
  spis ← (if priIdx >? 0 then swap0 spis priIdx else Some spis);
  spis ← (if delIdx =? -1 then Some spis else cut spis (if delIdx =? 0 then priIdx else delIdx));
  Some (x, spis).

(** The new driver and whether the update was refused. *)
Definition updateKeys (newKey primary pruneKey : option key) (d : driver) : option (driver * bool) :=
  let d := match newKey with Some k => set_keys (keys d ++ [k])%list d | None => d end in
  let newIdx := match newKey with Some _ => Z.of_nat (length (keys d)) - 1 | None => -1 end in
  let idx k := match k with Some k => indexOfTag (k_tag k) (keys d) | None => -1 end in
  let priIdx := idx primary in
  let delIdx := idx pruneKey in
  if (bool_decide (is_Some newKey) && (newIdx =? -1)) || (bool_decide (is_Some primary) && (priIdx =? -1)) ||
     (bool_decide (is_Some pruneKey) && (delIdx =? -1)) then Some (d, true)
  else if negb (priIdx =? -1) && (priIdx =? delIdx) then Some (d, true)
  else
    '(x, m) ← foldl (fun acc '(rIP, node) =>
        '(x, m) ← acc;
        '(x, idxs) ← updateNodeKey (bindAddress d) (advertiseAddress d) rIP (en_spi node) (keys d) newIdx priIdx delIdx
                       (vxlanUDPPort d) x;
        Some (x, <[rIP := mkNode idxs (en_count node)]> m)) (Some (xfrm d, secMap d)) (map_to_list (secMap d));
    ks ← (if priIdx =? -1 then Some (keys d) else swap0 (keys d) priIdx);
    ks ← (if delIdx =? -1 then Some ks else cut ks (if delIdx =? 0 then priIdx else delIdx));
    Some (set_keys ks (set_xfrm x (set_secMap m d)), false).

(** ** Notifications *)

Record DriverEncryptionConfig := mkEncConfig { dc_Keys : list (list Z); dc_Tags : list Z }.
Record DriverEncryptionUpdate := mkEncUpdate {
  du_Key : option (list Z); du_Tag : Z;
  du_Primary : option (list Z); du_PrimaryTag : Z;
  du_Prune : option (list Z); du_PruneTag : Z }.

(** The addresses of [NodeDiscoveryData] as [ParseAddr] gives them. *)
Inductive discovery :=
| NodeDiscovery (Address BindAddress : Addr) (Self : bool)
| EncryptionKeysConfig (c : DriverEncryptionConfig)
| EncryptionKeysUpdate (u : DriverEncryptionUpdate).

Definition nodeJoin (advAddr bindAddr : Addr) (Self : bool) (d : driver) : driver * bool :=
  if Self then
    if AddrIsValid advAddr then (mkDriver (secMap d) (keys d) bindAddr advAddr (vxlanUDPPort d) (xfrm d), false) else (d, true)
  else (d, false).

(** [uint32(tag)] *)
Definition keyOf (value : list Z) (tag : Z) : key := mkKey value (wrap32 tag).

Definition DiscoverNew (data : discovery) (d : driver) : option (driver * bool) :=
  match data with
  | NodeDiscovery a b self => Some (nodeJoin a b self d)
  | EncryptionKeysConfig c =>
      if (length (dc_Keys c) <=? length (dc_Tags c))%nat then Some (setKeys (zip_with keyOf (dc_Keys c) (dc_Tags c)) d, false)
      else None
  | EncryptionKeysUpdate u =>
      updateKeys (option_map (fun v => keyOf v (du_Tag u)) (du_Key u)) (option_map (fun v => keyOf v (du_PrimaryTag u)) (du_Primary u))
        (option_map (fun v => keyOf v (du_PruneTag u)) (du_Prune u)) d
  end.
End Keys.
