(* ===== verification/OverlayKeysSpec.v ===== *)
(** * What encryption keeps

    The laws of the kernel's transformation tables, the effect of each primitive on their
    contents, and the two invariants of the driver: the indices of a node follow the keys
    ([aligned]), and the tables have exactly what the nodes need ([programmed]); setting up,
    removing and an accepted update of the keys keep them. *)

From S2P Require Import Prelude Slices NetIP OverlayKeys.
From stdpp Require Import gmap list.

Local Open Scope Z_scope.

(** The kernel finds an association by its destination and index, a policy by its selector
    and mark. *)
Definition ident (sa : XfrmState) : Addr * Z := (sa_Dst sa, sa_Spi sa).
Definition selector (sp : XfrmPolicy) : Addr * Addr * Z * option Z := (sp_Src sp, sp_Dst sp, sp_DstPort sp, sp_Mark sp).

(** What [ip-xfrm] documents.  Adding what exists is refused; deleting what does not exist is
    refused as well, so that in either case it is absent afterwards. *)
Class XfrmLaws `{Xfrm} := {
  states : XK -> gmap (Addr * Z) XfrmState;
  policies : XK -> gmap (Addr * Addr * Z * option Z) XfrmPolicy;
  state_get sa x : XfrmStateGet sa x = match states x !! ident sa with Some _ => None | None => Some ESRCH end;
  state_add sa x : states x !! ident sa = None ->
    states (XfrmStateAdd sa x).1 = <[ident sa := sa]> (states x) /\ policies (XfrmStateAdd sa x).1 = policies x;
  state_del sa x :
    states (XfrmStateDel sa x).1 = delete (ident sa) (states x) /\ policies (XfrmStateDel sa x).1 = policies x;
  state_list sa x : sa ∈ XfrmStateList x <-> states x !! ident sa = Some sa;
  state_ident i sa x : states x !! i = Some sa -> ident sa = i;
  policy_get sp x : XfrmPolicyGet sp x = match policies x !! selector sp with Some _ => None | None => Some ENOENT end;
  policy_add sp x : policies x !! selector sp = None ->
    policies (XfrmPolicyAdd sp x).1 = <[selector sp := sp]> (policies x) /\ states (XfrmPolicyAdd sp x).1 = states x;
  policy_del sp x :
    policies (XfrmPolicyDel sp x).1 = delete (selector sp) (policies x) /\ states (XfrmPolicyDel sp x).1 = states x;
  policy_update sp x :
    policies (XfrmPolicyUpdate sp x).1 = <[selector sp := sp]> (policies x) /\ states (XfrmPolicyUpdate sp x).1 = states x;
  policy_list sp x : sp ∈ XfrmPolicyList x <-> policies x !! selector sp = Some sp;
  policy_selector i sp x : policies x !! i = Some sp -> selector sp = i }.

(** ** Indices of slices *)

Lemma at_map {A B} (f : A -> B) l i : at_ (map f l) i = f <$> at_ l i.
Proof. unfold at_. destruct (i <? 0); [done|]. by rewrite list_lookup_fmap. Qed.

Lemma at_nat {A} (l : list A) (i : nat) : at_ l (Z.of_nat i) = l !! i.
Proof. unfold at_. rewrite (proj2 (Z.ltb_ge _ _)) by lia. by rewrite Nat2Z.id. Qed.

Lemma at_nonneg {A} (l : list A) i x : at_ l i = Some x -> 0 <= i < Z.of_nat (length l) /\ l !! Z.to_nat i = Some x.
Proof.
  unfold at_. destruct (Z.ltb_spec i 0); [done|]. intros Hl. split; [|done]. apply lookup_lt_Some in Hl. lia.
Qed.

Lemma swap0_map {A B} (f : A -> B) l i : swap0 (map f l) i = map f <$> swap0 l i.
Proof.
  unfold swap0. rewrite !at_map. destruct (at_ l 0), (at_ l i); cbn; [|done..].
  by rewrite !list_fmap_insert.
Qed.

Lemma cut_map {A B} (f : A -> B) l i : cut (map f l) i = map f <$> cut l i.
Proof.
  unfold cut. rewrite length_map. destruct (_ || _); [done|]. cbn. unfold delete_at. by rewrite map_app, firstn_map, skipn_map.
Qed.

(** Swapping keeps the elements and puts the one at [i] first. *)
Lemma swap0_spec {A} (l : list A) i x :
  at_ l i = Some x -> exists l', swap0 l i = Some l' /\ l' ≡ₚ l /\ head l' = Some x
    /\ l' !! Z.to_nat i = head l /\ (forall j, j <> 0%nat -> j <> Z.to_nat i -> l' !! j = l !! j).
Proof.
  intros Hi. destruct (at_nonneg _ _ _ Hi) as [Hr Hl]. destruct l as [|a l]; [done|]. unfold swap0. rewrite Hi. cbn [at_ Z.ltb].
  change (at_ (a :: l) 0) with (Some a). cbn iota. eexists. split; [done|]. destruct (Z.to_nat i) as [|n] eqn:Hn.
  - injection Hl as ->. cbn. done.
  - change (<[S n := a]> (<[0%nat := x]> (a :: l))) with (x :: <[n := a]> l).
    change (l !! n = Some x) in Hl. split_and!; [|done| |].
    + rewrite (insert_take_drop l n a) by by eapply lookup_lt_Some. rewrite <-(take_drop_middle l n x) at 3 by done.
      rewrite <-!Permutation_middle. apply perm_swap.
    + apply (list_lookup_insert_eq l n a). by eapply lookup_lt_Some.
    + intros [|j] H1 H2; [done|]. apply (list_lookup_insert_ne l n j a). congruence.
Qed.

Lemma cut_spec {A} (l : list A) i x : at_ l i = Some x -> exists l', cut l i = Some l' /\ l ≡ₚ x :: l' /\ (0 < i -> head l' = head l).
Proof.
  intros Hi. destruct (at_nonneg _ _ _ Hi) as [Hr Hl]. unfold cut. rewrite (proj2 (Z.ltb_ge _ _)), (proj2 (Z.leb_gt _ _)) by lia.
  cbn. eexists. split; [done|]. unfold delete_at. split.
  - rewrite <-(take_drop_middle l _ x) at 1 by done. symmetry. apply Permutation_middle.
  - intros H0. destruct (Z.to_nat i) eqn:E; [lia|]. by destruct l.
Qed.

Lemma at_app {A} (l l' : list A) i x : at_ l i = Some x -> at_ (l ++ l') i = Some x.
Proof. intros [Hr Hl]%at_nonneg. unfold at_. rewrite (proj2 (Z.ltb_ge _ _)) by lia. by apply lookup_app_l_Some. Qed.

Lemma at_elem {A} (l : list A) i x : at_ l i = Some x -> x ∈ l.
Proof. intros [_ Hl]%at_nonneg. by eapply list_elem_of_lookup_2. Qed.

(** ** The index of a tag *)

Lemma indexOfTag_snoc t ks k :
  indexOfTag t (ks ++ [k]) = if k_tag k =? t then Z.of_nat (length ks) else indexOfTag t ks.
Proof.
  unfold indexOfTag. assert (H1 : forall l i r, (foldl (fun '(i, r) k => (i + 1, if k_tag k =? t then i else r)) (i, r) l).1
    = i + Z.of_nat (length l)).
  { induction l as [|a l IH]; intros i r; cbn [foldl]; [cbn; lia|]. rewrite IH. cbn. lia. }
  rewrite foldl_app. cbn. specialize (H1 ks 0 (-1)). destruct (foldl _ _ ks) as [i r]. cbn in *. by rewrite H1.
Qed.

(** It points to a key with the tag, if there is one. *)
Lemma indexOfTag_spec t ks :
  (indexOfTag t ks = -1 /\ forall k, k ∈ ks -> k_tag k <> t)
  \/ exists k, at_ ks (indexOfTag t ks) = Some k /\ k_tag k = t.
Proof.
  induction ks as [|k ks IH] using rev_ind.
  - left. split; [done|]. intros k Hk. inversion Hk.
  - rewrite indexOfTag_snoc. destruct (Z.eqb_spec (k_tag k) t) as [Hk|Hk].
    + right. exists k. split; [|done]. rewrite at_nat. rewrite lookup_app_r by done. by rewrite Nat.sub_diag.
    + destruct IH as [[-> Hn]|(k' & Ha & Ht)].
      * left. split; [done|]. intros k'. rewrite elem_of_app, list_elem_of_singleton. intros [?| ->]; [by apply Hn|done].
      * right. exists k'. split; [by apply at_app|done].
Qed.

Lemma indexOfTag_found k ks : NoDup (map k_tag ks) -> k ∈ ks -> at_ ks (indexOfTag (k_tag k) ks) = Some k.
Proof.
  intros Hnd Hk. destruct (indexOfTag_spec (k_tag k) ks) as [[_ Hn]|(k' & Ha & Ht)]; [by destruct (Hn k Hk)|].
  rewrite Ha. f_equal. apply at_elem in Ha. apply list_elem_of_lookup in Hk as [i Hi], Ha as [j Hj].
  assert (i = j) as <-; [|congruence].
  apply (NoDup_lookup _ _ _ (k_tag k) Hnd); rewrite list_lookup_fmap; [by rewrite Hi|rewrite Hj; cbn; congruence].
Qed.

(** ** The tables as sets

    [st x P]: the associations in the tables are those of [P]; [pl x Q]: the policies are
    those of [Q]. *)

Section Tables.
Context `{HX : Xfrm} `{!XfrmLaws}.

Definition st (x : XK) (P : XfrmState -> Prop) : Prop := forall i sa, states x !! i = Some sa <-> P sa /\ ident sa = i.
Definition pl (x : XK) (Q : XfrmPolicy -> Prop) : Prop := forall i sp, policies x !! i = Some sp <-> Q sp /\ selector sp = i.

Lemma st_ext x P P' : st x P -> (forall y, P y <-> P' y) -> st x P'.
Proof. intros HP E i sa. by rewrite (HP i sa), E. Qed.
Lemma pl_ext x Q Q' : pl x Q -> (forall y, Q y <-> Q' y) -> pl x Q'.
Proof. intros HQ E i sp. by rewrite (HQ i sp), E. Qed.

Lemma st_policies x x' P : states x' = states x -> st x P -> st x' P.
Proof. unfold st. by intros ->. Qed.
Lemma pl_states x x' Q : policies x' = policies x -> pl x Q -> pl x' Q.
Proof. unfold pl. by intros ->. Qed.

Lemma st_lookup x P sa : st x P -> states x !! ident sa = None <-> forall y, P y -> ident y <> ident sa.
Proof.
  intros HE. split.
  - intros Hn y Hy E. assert (states x !! ident sa = Some y) by by apply HE. congruence.
  - intros Hn. destruct (states x !! ident sa) as [y|] eqn:E; [|done]. apply HE in E as [Hy E]. by destruct (Hn y).
Qed.

(** Adding an association that no other one shares its place with. *)
Lemma programState_add sa x P :
  st x P -> (forall y, P y -> ident y = ident sa -> y = sa) ->
  st (programState sa true x).1 (fun y => P y \/ y = sa) /\ policies (programState sa true x).1 = policies x.
Proof.
  intros HP Hu. unfold programState, saExists. rewrite state_get. destruct (states x !! ident sa) as [y|] eqn:Hs; cbn.
  - split; [|done]. apply HP in Hs as [Hy Hi]. pose proof (Hu y Hy Hi) as ->.
    apply (st_ext x P); [done|]. intros y. split; [by left|by intros [?| ->]].
  - destruct (state_add sa x Hs) as [E Ep]. split; [|done]. intros i y. rewrite E, lookup_insert_Some, (HP i y).
    pose proof (proj1 (st_lookup x P sa HP) Hs) as Hn. split.
    + intros [[<- <-]|[Hi [Hy <-]]]; (split; [|done]); [by right|by left].
    + intros [[Hy| ->] <-]; [right|by left]. split; [|done]. intros E'. by apply (Hn y).
Qed.

(** Deleting frees the place. *)
Lemma programState_del sa x P :
  st x P -> st (programState sa false x).1 (fun y => P y /\ ident y <> ident sa) /\ policies (programState sa false x).1 = policies x.
Proof.
  intros HP. unfold programState, saExists. rewrite state_get. destruct (states x !! ident sa) as [y|] eqn:Hs; cbn.
  - destruct (state_del sa x) as [E Ep]. split; [|done]. intros i z. rewrite E, lookup_delete_Some, (HP i z).
    split; [intros [Hi [? <-]]; by split_and!|intros [[? ?] <-]; by split_and!].
  - split; [|done]. apply (st_ext x P); [done|]. pose proof (proj1 (st_lookup x P sa HP) Hs) as Hn. intros y. split; [intros Hy; split; [done|by apply Hn]|by intros [? ?]].
Qed.

Lemma pl_lookup x Q sp : pl x Q -> policies x !! selector sp = None <-> forall y, Q y -> selector y <> selector sp.
Proof.
  intros HE. split.
  - intros Hn y Hy E. assert (policies x !! selector sp = Some y) by by apply HE. congruence.
  - intros Hn. destruct (policies x !! selector sp) as [y|] eqn:E; [|done]. apply HE in E as [Hy E]. by destruct (Hn y).
Qed.

Lemma programSP_add sa port x Q :
  pl x Q -> (forall y, Q y -> selector y = selector (policyOf sa port) -> y = policyOf sa port) ->
  pl (programSP (Some sa) port true x) (fun y => Q y \/ y = policyOf sa port) /\
  states (programSP (Some sa) port true x) = states x.
Proof.
  intros HQ Hu. set (sp := policyOf sa port) in *. unfold programSP, spExists. fold sp. rewrite policy_get.
  destruct (policies x !! selector sp) as [y|] eqn:Hs; cbn.
  - split; [|done]. apply HQ in Hs as [Hy Hi]. pose proof (Hu y Hy Hi) as ->.
    apply (pl_ext x Q); [done|]. intros y. split; [by left|by intros [?| ->]].
  - destruct (policy_add sp x Hs) as [E Ep]. split; [|done]. intros i y. rewrite E, lookup_insert_Some, (HQ i y).
    pose proof (proj1 (pl_lookup x Q sp HQ) Hs) as Hn. split.
    + intros [[<- <-]|[Hi [Hy <-]]]; (split; [|done]); [by right|by left].
    + intros [[Hy| ->] <-]; [right|by left]. split; [|done]. intros E'. by apply (Hn y).
Qed.

Lemma programSP_del sa port x Q :
  pl x Q -> pl (programSP (Some sa) port false x) (fun y => Q y /\ selector y <> selector (policyOf sa port)) /\
  states (programSP (Some sa) port false x) = states x.
Proof.
  intros HQ. set (sp := policyOf sa port) in *. unfold programSP, spExists. fold sp. rewrite policy_get.
  destruct (policies x !! selector sp) as [y|] eqn:Hs; cbn.
  - destruct (policy_del sp x) as [E Ep]. split; [|done]. intros i z. rewrite E, lookup_delete_Some, (HQ i z).
    split; [intros [Hi [? <-]]; by split_and!|intros [[? ?] <-]; by split_and!].
  - split; [|done]. apply (pl_ext x Q); [done|]. pose proof (proj1 (pl_lookup x Q sp HQ) Hs) as Hn. intros y. split; [intros Hy; split; [done|by apply Hn]|by intros [? ?]].
Qed.

Lemma policy_update_pl sp x Q :
  pl x Q -> pl (XfrmPolicyUpdate sp x).1 (fun y => (Q y /\ selector y <> selector sp) \/ y = sp) /\
  states (XfrmPolicyUpdate sp x).1 = states x.
Proof.
  intros HQ. destruct (policy_update sp x) as [E Es]. split; [|done]. intros i y. rewrite E, lookup_insert_Some, (HQ i y).
  naive_solver.
Qed.

Lemma keep_marked {A} (M R : A -> Prop) (P : Prop) a l :
  M a -> (P /\ R a) /\ (forall b, b ∈ l -> M b -> R b) <-> P /\ (forall b, b ∈ a :: l -> M b -> R b).
Proof.
  intros Ha. split.
  - intros [[HP HR] Hl]. split; [done|]. intros b [->|Hb]%elem_of_cons ?; [done|by apply Hl].
  - intros [HP Hl]. split_and!; [done|apply Hl; [by apply list_elem_of_here|done]|]. intros b Hb. apply Hl. by apply list_elem_of_further.
Qed.
Lemma keep_unmarked {A} (M R : A -> Prop) (P : Prop) a l :
  ~ M a -> P /\ (forall b, b ∈ l -> M b -> R b) <-> P /\ (forall b, b ∈ a :: l -> M b -> R b).
Proof.
  intros Ha. split; (intros [HP Hl]; split; [done|]).
  - intros b [->|Hb]%elem_of_cons ?; [done|by apply Hl].
  - intros b Hb. apply Hl. by apply list_elem_of_further.
Qed.

(** Clearing leaves what does not carry the mark. *)
Lemma clear_ok x P Q :
  st x P -> pl x Q ->
  st (clearEncryptionStates x) (fun y => P y /\ sa_Reqid y <> mark) /\
  pl (clearEncryptionStates x) (fun y => Q y /\ sp_Mark y <> Some mark).
Proof.
  intros HP HQ. unfold clearEncryptionStates.
  assert (H1 : forall l x Q, pl x Q ->
    let x' := foldl (fun x sp => if bool_decide (sp_Mark sp = Some mark) then (XfrmPolicyDel sp x).1 else x) x l in
    pl x' (fun y => Q y /\ forall sp, sp ∈ l -> sp_Mark sp = Some mark -> selector y <> selector sp) /\ states x' = states x).
  { clear. induction l as [|sp l IH]; intros x Q HQ; cbn [foldl].
    - split; [|done]. apply (pl_ext x Q); [done|]. intros y. split; [|by intros [? ?]]. intros Hy. split; [done|]. intros sp Hsp. inversion Hsp.
    - case_bool_decide as Hm.
      + destruct (policy_del sp x) as [E Es]. destruct (IH (XfrmPolicyDel sp x).1 (fun y => Q y /\ selector y <> selector sp)) as [IHq IHs].
        { intros i y. rewrite E, lookup_delete_Some, (HQ i y). split; [intros [Hi [? <-]]; by split_and!|intros [[? ?] <-]; by split_and!]. }
        split; [|congruence]. eapply pl_ext; [exact IHq|]. intros y. by apply (keep_marked (fun sp => sp_Mark sp = Some mark) (fun sp => selector y <> selector sp)).
      + destruct (IH x Q HQ) as [IHq IHs]. split; [|done]. eapply pl_ext; [exact IHq|]. intros y. by apply (keep_unmarked (fun sp => sp_Mark sp = Some mark) (fun sp => selector y <> selector sp)). }
  assert (H2 : forall l x P, st x P ->
    let x' := foldl (fun x sa => if sa_Reqid sa =? mark then (XfrmStateDel sa x).1 else x) x l in
    st x' (fun y => P y /\ forall sa, sa ∈ l -> sa_Reqid sa = mark -> ident y <> ident sa) /\ policies x' = policies x).
  { clear. induction l as [|sa l IH]; intros x P HP; cbn [foldl].
    - split; [|done]. apply (st_ext x P); [done|]. intros y. split; [|by intros [? ?]]. intros Hy. split; [done|]. intros sp Hsp. inversion Hsp.
    - destruct (Z.eqb_spec (sa_Reqid sa) mark) as [Hm|Hm].
      + destruct (state_del sa x) as [E Es]. destruct (IH (XfrmStateDel sa x).1 (fun y => P y /\ ident y <> ident sa)) as [IHq IHs].
        { intros i y. rewrite E, lookup_delete_Some, (HP i y). split; [intros [Hi [? <-]]; by split_and!|intros [[? ?] <-]; by split_and!]. }
        split; [|congruence]. eapply st_ext; [exact IHq|]. intros y. by apply (keep_marked (fun sa => sa_Reqid sa = mark) (fun sa => ident y <> ident sa)).
      + destruct (IH x P HP) as [IHq IHs]. split; [|done]. eapply st_ext; [exact IHq|]. intros y. by apply (keep_unmarked (fun sa => sa_Reqid sa = mark) (fun sa => ident y <> ident sa)). }
  destruct (H1 (XfrmPolicyList x) x Q HQ) as [Hp Hs]. set (x1 := foldl _ x (XfrmPolicyList x)) in *.
  destruct (H2 (XfrmStateList x) x1 P) as [Hst Hpl]; [by apply (st_policies x)|]. split.
  - eapply st_ext; [exact Hst|]. intros y. split; intros [Hy Hn]; split; try done.
    + intros Hm. apply (Hn y); [|done..]. apply state_list. by apply HP.
    + intros sa Hsa Hm E. apply state_list in Hsa. assert (states x !! ident sa = Some y) by by apply HP. congruence.
  - eapply pl_states; [exact Hpl|]. eapply pl_ext; [exact Hp|]. intros y. split; intros [Hy Hn]; split; try done.
    + intros Hm. apply (Hn y); [|done..]. apply policy_list. by apply HQ.
    + intros sp _ Hm E. apply Hn. unfold selector in E. congruence.
Qed.
End Tables.

(** ** Changing the list of keys *)

(** What [updateKeys] does to the keys and [updateNodeKey] to the indices, after a new one
    has been appended. *)
Definition rotateList {A} (l : list A) (priIdx delIdx : Z) : option (list A) :=
  l ← (if priIdx >? 0 then swap0 l priIdx else Some l);
  if delIdx =? -1 then Some l else cut l (if delIdx =? 0 then priIdx else delIdx).

Lemma rotateList_map {A B} (f : A -> B) l p d : rotateList (map f l) p d = map f <$> rotateList l p d.
Proof.
  unfold rotateList. destruct (p >? 0); [rewrite swap0_map; destruct (swap0 l p)|]; cbn; [|done|];
    (destruct (d =? -1); [done|apply cut_map]).
Qed.

(** An index that is -1 or points to the key given. *)
Definition points (l : list key) (i : Z) (k : option key) : Prop :=
  match k with Some k => at_ l i = Some k | None => i = -1 end.

(** The update is sensible: the key to drop is not the primary key, neither the new one nor
    the old one without a successor. *)
Definition sensible (pri del : Z) : Prop := (del = -1 \/ del <> pri) /\ (del = 0 -> 0 < pri).

Lemma rotateList_spec ks pri del kp kd :
  ks <> [] -> points ks pri kp -> points ks del kd -> sensible pri del ->
  exists ks', rotateList ks pri del = Some ks' /\ ks ≡ₚ (option_list kd ++ ks')%list
    /\ head ks' = match kp with Some k => Some k | None => head ks end.
Proof.
  intros Hne Hp Hd [Hdp Hd0]. unfold rotateList.
  assert (Hswap : exists l, (if pri >? 0 then swap0 ks pri else Some ks) = Some l /\ l ≡ₚ ks
    /\ head l = match kp with Some k => Some k | None => head ks end
    /\ (pri > 0 -> l !! Z.to_nat pri = head ks)
    /\ (forall j, j <> 0%nat -> j <> Z.to_nat pri -> l !! j = ks !! j)).
  { destruct kp as [kp|]; cbn in Hp.
    - destruct (Z.gtb_spec pri 0) as [H0|H0].
      + destruct (swap0_spec ks pri kp Hp) as (l & E & Hl & Hh & Hi & Hj). exists l. by split_and!.
      + apply at_nonneg in Hp as [Hr Hl]. assert (pri = 0) as -> by lia. exists ks. split_and!; [done|done| |lia|done].
        destruct ks; [done|]. by injection Hl as ->.
    - subst pri. cbn. exists ks. split_and!; [done|done|done|lia|done]. }
  destruct Hswap as (l & -> & Hl & Hh & Hi & Hj). cbn. destruct kd as [kd|]; cbn in Hd; cbn [option_list app].
  - pose proof (at_nonneg _ _ _ Hd) as [Hr Hlk]. rewrite (proj2 (Z.eqb_neq _ _)) by lia.
    assert (Ha : exists j, (if del =? 0 then pri else del) = j /\ 0 < j /\ at_ l j = Some kd).
    { destruct (Z.eqb_spec del 0) as [->|H0].
      - exists pri. specialize (Hd0 eq_refl). split_and!; [done|done|]. unfold at_. rewrite (proj2 (Z.ltb_ge _ _)) by lia.
        rewrite Hi by lia. by destruct ks.
      - exists del. split_and!; [done|lia|]. unfold at_. rewrite (proj2 (Z.ltb_ge _ _)) by lia. rewrite Hj; [done|lia|].
        destruct (Z_lt_dec pri 0); [|lia]. assert (Z.to_nat pri = 0%nat) as -> by lia. lia. }
    destruct Ha as (j & -> & H0 & Ha).
    destruct (cut_spec l j kd Ha) as (l' & -> & Hc & Hhd). exists l'. split_and!; [done|by rewrite <-Hl|]. rewrite Hhd by lia. done.
  - subst del. cbn. exists l. by split_and!.
Qed.

(** ** The indices follow the keys *)

Section Aligned.
Context `{HX : Xfrm}.

Definition spisAt (d : driver) (r : Addr) : list spi := map (spisOf (advertiseAddress d) r) (keys d).

Record aligned (d : driver) : Prop := {
  al_tags : NoDup (map k_tag (keys d));
  al_some : keys d <> [];
  al_node r node : secMap d !! r = Some node -> en_spi node = spisAt d r /\ 0 < en_count node }.

(** What no call but [nodeJoin] changes. *)
Definition same_addr (d d' : driver) : Prop :=
  bindAddress d' = bindAddress d /\ advertiseAddress d' = advertiseAddress d /\ vxlanUDPPort d' = vxlanUDPPort d.

(** The count of a node; an unknown one has none. *)
Definition count (d : driver) (r : Addr) : Z := default 0 (en_count <$> secMap d !! r).

Lemma setup_indices r (d : driver) x l i :
  let step := fun '(x, indices, i) k =>
    let spis := spisOf (advertiseAddress d) r k in
    let dir := if (i =? 0)%nat then bidir else OverlayKeys.reverse in
    let '(x, (fSA, _, _)) := programSA (bindAddress d) r spis (Some k) dir true x in
    (if (i =? 0)%nat then programSP fSA (vxlanUDPPort d) true x else x, (indices ++ [spis])%list, S i) in
  forall ks, (foldl step (x, l, i) ks).1.2 = (l ++ map (spisOf (advertiseAddress d) r) ks)%list.
Proof.
  intros step ks. revert x l i. induction ks as [|k ks IH]; intros x l i; cbn [foldl map]; [by rewrite app_nil_r|].
  unfold step at 2. destruct (programSA _ _ _ _ _ _ _) as [x' [[f r'] e]]. rewrite IH. by rewrite <-app_assoc.
Qed.

Lemma setup_eq r (d : driver) : keys d <> [] ->
  exists x, setupEncryption r d =
    (set_xfrm x (set_secMap (<[r := mkNode (spisAt d r) (count d r + 1)]> (secMap d)) d), false).
Proof.
  intros Hk. unfold setupEncryption. destruct (keys d) as [|k ks] eqn:E; [done|]. rewrite <-E. clear Hk.
  rewrite (proj2 (Nat.eqb_neq _ _)) by (by rewrite E).
  pose proof (setup_indices r d (xfrm d) [] 0 (keys d)) as Hi. destruct (foldl _ _ (keys d)) as [[x l] i]. cbn in Hi. subst l.
  exists x. unfold count, spisAt. by destruct (secMap d !! r).
Qed.

Lemma setup_aligned r d : aligned d ->
  aligned (setupEncryption r d).1 /\ (setupEncryption r d).2 = false /\ same_addr d (setupEncryption r d).1 /\
  keys (setupEncryption r d).1 = keys d /\
  secMap (setupEncryption r d).1 = <[r := mkNode (spisAt d r) (count d r + 1)]> (secMap d).
Proof.
  intros [Ht Hs Hn]. destruct (setup_eq r d Hs) as [x ->]. cbn. split_and!; try done. split; try done. intros r' node. cbn.
  rewrite lookup_insert_Some. intros [[<- <-]|[_ E]]; [|by apply Hn]. split; [done|]. cbn. unfold count.
  destruct (secMap d !! r) as [n|] eqn:E; cbn; [|lia]. apply Hn in E. lia.
Qed.

Lemma remove_aligned r d : aligned d -> 0 < count d r ->
  aligned (removeEncryption r d) /\ same_addr d (removeEncryption r d) /\ keys (removeEncryption r d) = keys d /\
  secMap (removeEncryption r d) = if count d r =? 1 then delete r (secMap d)
                                  else <[r := mkNode (spisAt d r) (count d r - 1)]> (secMap d).
Proof.
  intros [Ht Hs Hn] Hc. unfold removeEncryption, count in *. destruct (secMap d !! r) as [n|] eqn:E; cbn in *; [|lia].
  destruct (Hn _ _ E) as [Hsp _].
  destruct (Z.eqb_spec (en_count n) 1) as [H1|H1]; cbn;
    [destruct (foldl _ (xfrm d, O) (en_spi n)) as [x i]|]; cbn; rewrite ?Hsp; (split_and!; [split|..]; try done).
  - intros r' node. cbn. rewrite lookup_delete_Some. intros [_ ?]. by apply Hn.
  - intros r' node. cbn. rewrite lookup_insert_Some. intros [[<- <-]|[_ ?]]; [|by apply Hn]. split; [done|cbn; lia].
Qed.

Lemma programSA_reverse lIP r s v add x :
  programSA lIP r s v OverlayKeys.reverse add x =
  let sa := mkSA r lIP (spi_reverse s) mark (if add then option_map (fun k => buildAeadAlgo k (spi_reverse s)) v else None) in
  let '(x, err) := programState sa add x in (x, (None, Some sa, err)).
Proof.
  unfold programSA. change (0 <? Z.land OverlayKeys.reverse OverlayKeys.reverse) with true.
  change (0 <? Z.land OverlayKeys.reverse forward) with false. cbn. by destruct (programState _ add x).
Qed.

Lemma programSA_forward lIP r s v add x :
  programSA lIP r s v forward add x =
  let sa := mkSA lIP r (spi_forward s) mark (if add then option_map (fun k => buildAeadAlgo k (spi_forward s)) v else None) in
  let '(x, err) := programState sa add x in (x, (Some sa, None, err)).
Proof.
  unfold programSA. change (0 <? Z.land forward OverlayKeys.reverse) with false. change (0 <? Z.land forward forward) with true.
  cbn. by destruct (programState _ add x) as [x' [e|]].
Qed.

Lemma programSA_bidir lIP r s v add x :
  exists e, programSA lIP r s v bidir add x =
  let aead w := if add then option_map (fun k => buildAeadAlgo k w) v else None in
  let rSA := mkSA r lIP (spi_reverse s) mark (aead (spi_reverse s)) in
  let fSA := mkSA lIP r (spi_forward s) mark (aead (spi_forward s)) in
  ((programState fSA add (programState rSA add x).1).1, (Some fSA, Some rSA, e)).
Proof.
  unfold programSA. change (0 <? Z.land bidir OverlayKeys.reverse) with true. change (0 <? Z.land bidir forward) with true.
  cbn. destruct (programState _ add x) as [x' e]. cbn. destruct (programState _ add x') as [x'' e']. by eexists.
Qed.

(** The calls into the kernel that [updateNodeKey] makes for a node, given the new key, the
    next primary key, the key to drop and the former primary key. *)
Definition nodeCalls (lIP aIP r : Addr) (port : Z) (nk kp kd : option key) (k0 : key) (x : XK) : XK :=
  let sa k v dir add x := programSA lIP r (spisOf aIP r k) v dir add x in
  let x := match kd with Some k => (sa k None OverlayKeys.reverse false x).1 | None => x end in
  let x := match nk with Some k => (sa k (Some k) OverlayKeys.reverse true x).1 | None => x end in
  match kp with
  | Some k =>
      let '(x, (fSA2, _, _)) := sa k (Some k) forward true x in
      let x := match fSA2 with Some f => (XfrmPolicyUpdate (policyOf f port) x).1 | None => x end in
      (sa k0 None forward false x).1
  | None => x
  end.

Lemma updateNodeKey_eq lIP aIP r ks nk pri del kp kd k0 port x :
  let ks1 := (ks ++ option_list nk)%list in
  let newIdx := match nk with Some _ => Z.of_nat (length ks) | None => -1 end in
  head ks = Some k0 -> points ks1 pri kp -> points ks1 del kd ->
  updateNodeKey lIP aIP r (map (spisOf aIP r) ks) ks1 newIdx pri del port x =
  (fun ks' => (nodeCalls lIP aIP r port nk (if pri >? 0 then kp else None) kd k0 x, map (spisOf aIP r) ks'))
    <$> rotateList ks1 pri del.
Proof.
  intros ks1 newIdx H0 Hp Hd. set (f := spisOf aIP r).
  assert (H1 : (if newIdx =? -1 then Some (map f ks) else k ← at_ ks1 newIdx; Some (map f ks ++ [f k])%list) = Some (map f ks1)).
  { unfold newIdx, ks1. destruct nk as [k|]; cbn [option_list]; [|by rewrite app_nil_r].
    rewrite (proj2 (Z.eqb_neq _ _)) by lia. rewrite at_nat, lookup_app_r, Nat.sub_diag by done. cbn. by rewrite map_app. }
  assert (Hnew : points ks1 newIdx nk).
  { destruct nk as [k|]; [|done]. unfold newIdx, ks1. cbn. by rewrite at_nat, lookup_app_r, Nat.sub_diag. }
  assert (Hz : at_ (map f ks1) 0 = Some (f k0)) by (unfold ks1; by destruct ks; [|injection H0 as ->]).
  unfold updateNodeKey. fold f. rewrite H1. cbn [mbind option_bind].
  assert (Hx1 : forall x, (if del =? -1 then Some x else s ← at_ (map f ks1) del; Some (programSA lIP r s None OverlayKeys.reverse false x).1)
    = Some (match kd with Some k => (programSA lIP r (f k) None OverlayKeys.reverse false x).1 | None => x end)).
  { intros y. destruct kd as [kd|]; cbn in Hd; [|by subst del]. pose proof (at_nonneg _ _ _ Hd) as [? _].
    by rewrite (proj2 (Z.eqb_neq del (-1))), at_map, Hd by lia. }
  assert (Hx2 : forall x, (if newIdx >? -1 then s ← at_ (map f ks1) newIdx; k ← at_ ks1 newIdx;
       Some (programSA lIP r s (Some k) OverlayKeys.reverse true x).1 else Some x)
    = Some (match nk with Some k => (programSA lIP r (f k) (Some k) OverlayKeys.reverse true x).1 | None => x end)).
  { intros y. destruct nk as [nk|]; cbn in Hnew; [|by rewrite Hnew]. pose proof (at_nonneg _ _ _ Hnew) as [? _].
    by rewrite (proj2 (Z.gtb_lt newIdx (-1))), at_map, Hnew by lia. }
  rewrite Hx1. cbn [mbind option_bind]. rewrite Hx2. cbn [mbind option_bind]. unfold nodeCalls. fold f.
  rewrite Hz. rewrite at_map. set (x2 := match nk with Some k => _ | None => _ end).
  transitivity ((fun l => (match (if pri >? 0 then kp else None) with
       | Some k => let '(x, (fSA2, _, _)) := programSA lIP r (f k) (Some k) forward true x2 in
                   let x := match fSA2 with Some f => (XfrmPolicyUpdate (policyOf f port) x).1 | None => x end in
                   (programSA lIP r (f k0) None forward false x).1
       | None => x2 end, l)) <$> rotateList (map f ks1) pri del); [|rewrite rotateList_map; by destruct (rotateList ks1 pri del)].
  unfold rotateList. destruct (pri >? 0) eqn:Hpri.
  - destruct kp as [kp|]; cbn in Hp; [|exfalso; lia]. rewrite Hp. cbn. rewrite programSA_forward. cbn.
    destruct (programState _ true x2) as [x3 e]. cbn. destruct (swap0 (map f ks1) pri); cbn; [|done].
    destruct (del =? -1); cbn; [done|]. by destruct (cut _ _).
  - cbn. destruct (del =? -1); cbn; [done|]. by destruct (cut _ _).
Qed.
(** Overwriting every entry of a map on the way through it. *)
Lemma foldl_overwrite {B} (g : Addr -> B -> B) (l : list (Addr * B)) (m : gmap Addr B) r :
  NoDup l.*1 ->
  foldl (fun m '(r, n) => <[r := g r n]> m) m l !! r =
  match (list_to_map l : gmap Addr B) !! r with Some n => Some (g r n) | None => m !! r end.
Proof.
  revert m. induction l as [|[r0 n0] l IH]; intros m; cbn; [done|]. intros [Hr0 Hnd]%NoDup_cons. rewrite IH by done.
  destruct (decide (r = r0)) as [->|Hne].
  - rewrite lookup_insert_eq, not_elem_of_list_to_map_1 by done. by rewrite lookup_insert_eq.
  - by rewrite !lookup_insert_ne by done.
Qed.

Lemma overwrite_all {B} (g : Addr -> B -> B) (m : gmap Addr B) :
  foldl (fun m '(r, n) => <[r := g r n]> m) m (map_to_list m) = map_imap (fun r n => Some (g r n)) m.
Proof.
  apply map_eq. intros r. rewrite foldl_overwrite by apply NoDup_fst_map_to_list. rewrite list_to_map_to_list, map_lookup_imap.
  by destruct (m !! r).
Qed.

(** An update of the keys that is accepted: the new key has a new tag, the next primary key
    and the key to drop are there and differ, and a primary key is dropped only with a
    successor. *)
Record acceptable (ks : list key) (nk kp kd : option key) : Prop := {
  ac_tags : NoDup (map k_tag (ks ++ option_list nk));
  ac_pri k : kp = Some k -> k ∈ ks ++ option_list nk;
  ac_del k : kd = Some k -> k ∈ ks ++ option_list nk;
  ac_ne k : kd = Some k -> kp <> Some k;
  ac_head k : kd = Some k -> head ks = Some k -> is_Some kp }.

Definition priIndex (ks : list key) (k : option key) : Z := match k with Some k => indexOfTag (k_tag k) ks | None => -1 end.

Lemma acceptable_points ks nk kp kd :
  ks <> [] -> acceptable ks nk kp kd ->
  let ks1 := (ks ++ option_list nk)%list in
  points ks1 (priIndex ks1 kp) kp /\ points ks1 (priIndex ks1 kd) kd /\ sensible (priIndex ks1 kp) (priIndex ks1 kd).
Proof.
  intros Hne [Ht Hp Hd Hpd Hh] ks1. fold ks1 in Ht, Hp, Hd.
  assert (Hpt : forall k, (forall k', k = Some k' -> k' ∈ ks1) -> points ks1 (priIndex ks1 k) k).
  { intros [k|] Hk; [|done]. apply indexOfTag_found; [done|by apply Hk]. }
  pose proof (Hpt kp Hp) as Hpp. pose proof (Hpt kd Hd) as Hdd. split_and!; [done|done|]. split.
  - destruct kd as [kd|]; [right|by left]. intros E. destruct kp as [kp|]; cbn in Hpp, Hdd, E.
    + rewrite E in Hdd. apply (Hpd kd); [done|congruence].
    + apply at_nonneg in Hdd. lia.
  - intros E. destruct kd as [kd|]; cbn in Hdd, E; [|done]. rewrite E in Hdd.
    assert (Hk : head ks = Some kd) by (unfold ks1 in Hdd; destruct ks; [done|]; done).
    destruct (Hh kd eq_refl Hk) as [kp' ->]. cbn [priIndex points] in *. apply at_nonneg in Hpp as Hr. destruct Hr as [Hr _].
    destruct (decide (indexOfTag (k_tag kp') ks1 = 0)) as [E0|]; [|lia]. exfalso. rewrite E0 in Hpp. apply (Hpd kd); [done|congruence].
Qed.

(** The driver after an accepted update. *)
Definition rekeyed (d : driver) (nk kp kd : option key) (k0 : key) (ks' : list key) : driver :=
  let ks1 := (keys d ++ option_list nk)%list in
  set_keys ks' (set_xfrm (foldl (fun x '(r, _) => nodeCalls (bindAddress d) (advertiseAddress d) r (vxlanUDPPort d) nk
                            (if priIndex ks1 kp >? 0 then kp else None) kd k0 x) (xfrm d) (map_to_list (secMap d)))
    (set_secMap (map_imap (fun r n => Some (mkNode (map (spisOf (advertiseAddress d) r) ks') (en_count n))) (secMap d)) d)).

Lemma updateKeys_eq d nk kp kd k0 :
  aligned d -> head (keys d) = Some k0 -> acceptable (keys d) nk kp kd ->
  let ks1 := (keys d ++ option_list nk)%list in
  exists ks', rotateList ks1 (priIndex ks1 kp) (priIndex ks1 kd) = Some ks' /\
    updateKeys nk kp kd d = Some (rekeyed d nk kp kd k0 ks', false).
Proof.
  intros [Ht Hne Hn] H0 Hacc ks1. destruct (acceptable_points _ _ _ _ Hne Hacc) as (Hp & Hd & Hs). fold ks1 in Hp, Hd, Hs.
  destruct (rotateList_spec ks1 (priIndex ks1 kp) (priIndex ks1 kd) kp kd) as (ks' & Hrot & _);
    [unfold ks1; by destruct (keys d)|done..|].
  exists ks'. split; [done|]. unfold updateKeys.
  set (d1 := match nk with Some k => set_keys (keys d ++ [k]) d | None => d end).
  assert (Hd1 : keys d1 = ks1 /\ secMap d1 = secMap d /\ xfrm d1 = xfrm d /\ same_addr d d1).
  { unfold d1, ks1, same_addr. destruct nk; cbn; [done|]. by rewrite app_nil_r. }
  destruct Hd1 as (Ek & Em & Ex & Eb & Ea & Ep). rewrite Ek, Em, Ex, Eb, Ea, Ep. fold (priIndex ks1 kp) (priIndex ks1 kd).
  assert (Hnew : match nk with Some _ => Z.of_nat (length ks1) - 1 | None => -1 end
    = match nk with Some _ => Z.of_nat (length (keys d)) | None => -1 end).
  { destruct nk; [|done]. unfold ks1. rewrite length_app. cbn. lia. }
  rewrite Hnew. set (newIdx := match nk with Some _ => _ | None => _ end).
  rewrite (proj2 (orb_false_iff _ _)); [|split; [apply orb_false_iff; split|]].
  2: { destruct nk; [|done]. apply andb_false_iff. right. unfold newIdx. lia. }
  2: { destruct kp; [|done]. cbn in Hp. apply at_nonneg in Hp. apply andb_false_iff. right. cbn. lia. }
  2: { destruct kd; [|done]. cbn in Hd. apply at_nonneg in Hd. apply andb_false_iff. right. cbn. lia. }
  rewrite (proj2 (andb_false_iff _ _)).
  2: { destruct Hs as [[Hs|Hs] _]; [|right; lia]. destruct (Z.eq_dec (priIndex ks1 kp) (-1)); [left|right]; lia. }
  assert (Hfold : forall l x (m : gmap Addr encrNode), (forall r n, (r, n) ∈ l -> en_spi n = spisAt d r) ->
    foldl (fun acc '(rIP, node) => '(x, m) ← acc;
        '(x, idxs) ← updateNodeKey (bindAddress d) (advertiseAddress d) rIP (en_spi node) ks1 newIdx (priIndex ks1 kp)
                       (priIndex ks1 kd) (vxlanUDPPort d) x;
        Some (x, <[rIP := mkNode idxs (en_count node)]> m)) (Some (x, m)) l =
    Some (foldl (fun x '(r, _) => nodeCalls (bindAddress d) (advertiseAddress d) r (vxlanUDPPort d) nk
                            (if priIndex ks1 kp >? 0 then kp else None) kd k0 x) x l,
          foldl (fun m '(r, n) => <[r := mkNode (map (spisOf (advertiseAddress d) r) ks') (en_count n)]> m) m l)).
  { induction l as [|[r n] l IH]; intros x m Hl; cbn [foldl]; [done|]. cbn [mbind option_bind].
    rewrite (Hl r n) by by apply list_elem_of_here. unfold spisAt.
    pose proof (updateNodeKey_eq (bindAddress d) (advertiseAddress d) r (keys d) nk (priIndex ks1 kp) (priIndex ks1 kd)
      kp kd k0 (vxlanUDPPort d) x H0 Hp Hd) as E. cbv zeta in E. fold ks1 newIdx in E. rewrite E, Hrot. cbn [fmap option_fmap option_map mbind option_bind].
    apply IH. intros r' n' Hin. apply Hl. by apply list_elem_of_further. }
  rewrite Hfold by (intros r n Hin; apply elem_of_map_to_list in Hin; by apply Hn).
  cbn [mbind option_bind]. rewrite (overwrite_all (fun r n => mkNode (map (spisOf (advertiseAddress d) r) ks') (en_count n))).
  unfold rotateList in Hrot.
  assert (Hsw : (if priIndex ks1 kp =? -1 then Some ks1 else swap0 ks1 (priIndex ks1 kp)) =
                (if priIndex ks1 kp >? 0 then swap0 ks1 (priIndex ks1 kp) else Some ks1)).
  { destruct kp as [kp|]; cbn in Hp; [|done]. apply at_nonneg in Hp as Hr. destruct Hr as [Hr Hl].
    rewrite (proj2 (Z.eqb_neq _ _)) by (cbn; lia). destruct (Z.gtb_spec (priIndex ks1 (Some kp)) 0) as [|Hle]; [done|].
    cbn in Hle |- *. assert (indexOfTag (k_tag kp) ks1 = 0) as -> by lia.
    unfold ks1. destruct (keys d) as [|a l]; done. }
  rewrite Hsw. destruct (if priIndex ks1 kp >? 0 then _ else _) as [l|]; cbn [mbind option_bind] in Hrot |- *; [|done].
  rewrite Hrot. cbn [mbind option_bind]. unfold rekeyed. fold ks1. do 2 f_equal.
  unfold d1, set_keys, set_xfrm, set_secMap. by destruct nk.
Qed.

Lemma rekeyed_aligned d nk kp kd k0 :
  aligned d -> head (keys d) = Some k0 -> acceptable (keys d) nk kp kd ->
  exists d' ks', updateKeys nk kp kd d = Some (d', false) /\ d' = rekeyed d nk kp kd k0 ks' /\ aligned d' /\ same_addr d d' /\
    keys d' = ks' /\ (keys d ++ option_list nk)%list ≡ₚ (option_list kd ++ ks')%list /\
    head ks' = match kp with Some k => Some k | None => Some k0 end /\
    (forall r, count d' r = count d r).
Proof.
  intros Hal H0 Hacc. destruct (updateKeys_eq d nk kp kd k0 Hal H0 Hacc) as (ks' & Hrot & Hu).
  destruct Hal as [Ht Hne Hn]. destruct (acceptable_points _ _ _ _ Hne Hacc) as (Hp & Hd & Hs).
  assert (Hne1 : (keys d ++ option_list nk)%list <> []) by by destruct (keys d).
  destruct (rotateList_spec _ _ _ kp kd Hne1 Hp Hd Hs) as (ks2 & Hrot2 & Hperm & Hhead).
  rewrite Hrot in Hrot2. injection Hrot2 as <-.
  assert (Hh : head ks' = match kp with Some k => Some k | None => Some k0 end).
  { rewrite Hhead. destruct kp; [done|]. by destruct (keys d). }
  eexists _, ks'. split_and!; [exact Hu|done| |done|done|done|done|].
  - split; cbn.
    + pose proof (ac_tags _ _ _ _ Hacc) as Hnd. rewrite Hperm, map_app in Hnd. by apply NoDup_app in Hnd as (_ & _ & ?).
    + intros ->. clear -Hh. revert Hh. cbn. by destruct kp.
    + intros r node. rewrite map_lookup_imap. destruct (secMap d !! r) as [n|] eqn:E; cbn; [|done]. intros [= <-]. cbn.
      split; [done|]. apply (Hn r n E).
  - intros r. unfold count. cbn. rewrite map_lookup_imap. by destruct (secMap d !! r).
Qed.
End Aligned.

(** ** The tables have what the nodes need

    Of each node with its keys: an association for what it sends under every key, one for
    what it receives under the primary key, and the policy that uses the latter. *)

Section Programmed.
Context `{HX : Xfrm} `{!XfrmLaws}.
Context (lIP aIP : Addr) (port : Z).

Definition rSA (r : Addr) (k : key) : XfrmState :=
  let v := buildSPI r aIP (k_tag k) in mkSA r lIP v mark (Some (buildAeadAlgo k v)).
Definition fSA (r : Addr) (k : key) : XfrmState :=
  let v := buildSPI aIP r (k_tag k) in mkSA lIP r v mark (Some (buildAeadAlgo k v)).
Definition pol (r : Addr) (k : key) : XfrmPolicy := policyOf (fSA r k) port.

Definition nodeSA (r : Addr) (ks : list key) (y : XfrmState) : Prop :=
  (exists k, k ∈ ks /\ y = rSA r k) \/ (exists k, head ks = Some k /\ y = fSA r k).

(** The remote nodes and the keys in use, and the associations and policies of others. *)
Context (Host : Addr -> Prop) (Key : key -> Prop) (F : XfrmState -> Prop) (G : XfrmPolicy -> Prop).

(** The hash of the indices does not collide on them. *)
Record clean : Prop := {
  cl_rev r r' k k' : Host r -> Host r' -> Key k -> Key k' ->
    buildSPI r aIP (k_tag k) = buildSPI r' aIP (k_tag k') -> r = r' /\ k = k';
  cl_fwd r k k' : Host r -> Key k -> Key k' -> buildSPI aIP r (k_tag k) = buildSPI aIP r (k_tag k') -> k = k';
  cl_self r : Host r -> r <> lIP;
  cl_unmap r r' : Host r -> Host r' -> Unmap r = Unmap r' -> r = r';
  cl_F r k y : Host r -> Key k -> F y -> ident y <> ident (rSA r k) /\ ident y <> ident (fSA r k);
  cl_F_mark y : F y -> sa_Reqid y <> mark;
  cl_G y : G y -> sp_Mark y <> Some mark }.

Context (Hcl : clean).

Definition ours (A : gmap Addr (list key)) (y : XfrmState) : Prop := exists r ks, A !! r = Some ks /\ nodeSA r ks y.
Definition oursP (A : gmap Addr (list key)) (y : XfrmPolicy) : Prop :=
  exists r ks k, A !! r = Some ks /\ head ks = Some k /\ y = pol r k.

Definition holds (x : XK) (A : gmap Addr (list key)) : Prop :=
  st x (fun y => ours A y \/ F y) /\ pl x (fun y => oursP A y \/ G y).

Definition wfA (A : gmap Addr (list key)) : Prop := forall r ks, A !! r = Some ks -> Host r /\ Forall Key ks.

(** What may be in the tables on the way. *)
Definition U (y : XfrmState) : Prop := exists r k, Host r /\ Key k /\ (y = rSA r k \/ y = fSA r k).
Definition W (y : XfrmPolicy) : Prop := exists r k, Host r /\ Key k /\ y = pol r k.

Lemma U_inj y y' : U y -> U y' -> ident y = ident y' -> y = y'.
Proof.
  intros (r & k & Hr & Hk & [->| ->]) (r' & k' & Hr' & Hk' & [->| ->]); unfold ident; intros E;
    pose proof (f_equal fst E) as E1; pose proof (f_equal snd E) as E2; cbn in E1, E2.
  - by destruct (cl_rev Hcl r r' k k') as [-> ->].
  - by destruct (cl_self Hcl r' Hr').
  - by destruct (cl_self Hcl r Hr).
  - subst r'. by rewrite (cl_fwd Hcl r k k').
Qed.

Lemma UF_inj y y' : U y \/ F y -> U y' -> ident y = ident y' -> y = y'.
Proof.
  intros [Hy|Hy] Hy' E; [by apply U_inj|]. destruct Hy' as (r & k & Hr & Hk & Hy').
  destruct (cl_F Hcl r k y Hr Hk Hy) as [H1 H2]. by destruct Hy' as [->| ->].
Qed.

Lemma WG_selector y r k : W y \/ G y -> Host r -> selector y = selector (pol r k) -> exists k', Key k' /\ y = pol r k'.
Proof.
  intros [(r' & k' & Hr' & Hk' & ->)|Hy] Hr E.
  - unfold selector, pol, policyOf, getMinimalIP in E. cbn in E. injection E as E. apply (cl_unmap Hcl) in E as ->; [|done..].
    by exists k'.
  - exfalso. apply (cl_G Hcl y Hy). unfold selector in E. cbn in E. congruence.
Qed.

Lemma rSA_fSA r k r' k' : Host r' -> rSA r k <> fSA r' k'.
Proof. intros Hr E. apply (f_equal sa_Dst) in E. by apply (cl_self Hcl r'). Qed.

Lemma rSA_inj r k r' k' : Host r -> Host r' -> Key k -> Key k' -> rSA r k = rSA r' k' -> r = r' /\ k = k'.
Proof. intros Hr Hr' Hk Hk' E. apply (f_equal sa_Spi) in E. by apply (cl_rev Hcl). Qed.

Lemma fSA_inj r k r' k' : Host r -> Host r' -> Key k -> Key k' -> fSA r k = fSA r' k' -> r = r' /\ k = k'.
Proof.
  intros Hr Hr' Hk Hk' E. pose proof (f_equal sa_Dst E) as E1. cbn in E1. subst r'. split; [done|].
  apply (f_equal sa_Spi) in E. by apply (cl_fwd Hcl r).
Qed.

(** *** Single calls *)

(** [P] stays within [U] and [F]. *)
Definition within (P : XfrmState -> Prop) : Prop := forall y, P y -> U y \/ F y.

Lemma add_rSA x P r k : within P -> Host r -> Key k -> st x P ->
  let x' := (programState (rSA r k) true x).1 in
  st x' (fun y => P y \/ y = rSA r k) /\ policies x' = policies x /\ within (fun y => P y \/ y = rSA r k).
Proof.
  intros HP Hr Hk Hst. assert (HU : U (rSA r k)) by (exists r, k; auto).
  destruct (programState_add (rSA r k) x P Hst) as [H1 H2]; [intros y Hy E; apply UF_inj; [by apply HP|done..]|].
  split_and!; [done|done|]. intros y [Hy| ->]; [by apply HP|by left].
Qed.

Lemma add_fSA x P r k : within P -> Host r -> Key k -> st x P ->
  let x' := (programState (fSA r k) true x).1 in
  st x' (fun y => P y \/ y = fSA r k) /\ policies x' = policies x /\ within (fun y => P y \/ y = fSA r k).
Proof.
  intros HP Hr Hk Hst. assert (HU : U (fSA r k)) by (exists r, k; auto).
  destruct (programState_add (fSA r k) x P Hst) as [H1 H2]; [intros y Hy E; apply UF_inj; [by apply HP|done..]|].
  split_and!; [done|done|]. intros y [Hy| ->]; [by apply HP|by left].
Qed.

(** A state to delete is given without its key. *)
Lemma del_SA x P sa sa0 : within P -> U sa -> ident sa0 = ident sa -> st x P ->
  let x' := (programState sa0 false x).1 in
  st x' (fun y => P y /\ y <> sa) /\ policies x' = policies x /\ within (fun y => P y /\ y <> sa).
Proof.
  intros HP Hsa E Hst. destruct (programState_del sa0 x P Hst) as [H1 H2]. split_and!; [|done|intros y [Hy _]; by apply HP].
  eapply st_ext; [exact H1|]. intros y. rewrite E. split; intros [Hy Hn]; (split; [done|]).
  - intros ->. by apply Hn.
  - intros Ei. apply Hn. apply UF_inj; [by apply HP|done..].
Qed.
(** *** One node among the others *)

Definition nodeP (r : Addr) (ks : list key) (y : XfrmPolicy) : Prop := exists k, head ks = Some k /\ y = pol r k.

(** What is there for the other nodes and for others. *)
Definition rest (A : gmap Addr (list key)) (r : Addr) (y : XfrmState) : Prop := ours (delete r A) y \/ F y.
Definition restP (A : gmap Addr (list key)) (r : Addr) (y : XfrmPolicy) : Prop := oursP (delete r A) y \/ G y.

Lemma ours_split A r ks y : A !! r = Some ks -> ours A y \/ F y <-> nodeSA r ks y \/ rest A r y.
Proof.
  intros Hr. unfold rest. split.
  - intros [(r' & ks' & E & Hy)|?]; [|by auto]. destruct (decide (r' = r)) as [->|Hne]; [left; congruence|].
    right. left. exists r', ks'. by rewrite lookup_delete_ne by done.
  - intros [Hy|[(r' & ks' & [_ E]%lookup_delete_Some & Hy)|?]]; [left; by exists r, ks|left; by exists r', ks'|by right].
Qed.

Lemma oursP_split A r ks y : A !! r = Some ks -> oursP A y \/ G y <-> nodeP r ks y \/ restP A r y.
Proof.
  intros Hr. unfold restP, nodeP. split.
  - intros [(r' & ks' & k & E & Hy)|?]; [|by auto]. destruct (decide (r' = r)) as [->|Hne]; [left; exists k; naive_solver|].
    right. left. exists r', ks', k. by rewrite lookup_delete_ne by done.
  - intros [(k & Hy)|[(r' & ks' & k & [_ E]%lookup_delete_Some & Hy)|?]]; [left; by exists r, ks, k|left; by exists r', ks', k|by right].
Qed.

Lemma rest_insert A r ks y : rest (<[r := ks]> A) r y <-> rest A r y.
Proof. unfold rest. by rewrite delete_insert_eq. Qed.
Lemma restP_insert A r ks y : restP (<[r := ks]> A) r y <-> restP A r y.
Proof. unfold restP. by rewrite delete_insert_eq. Qed.

Lemma ours_absent A r y : A !! r = None -> ours A y \/ F y <-> rest A r y.
Proof. intros Hr. unfold rest. by rewrite delete_id. Qed.
Lemma oursP_absent A r y : A !! r = None -> oursP A y \/ G y <-> restP A r y.
Proof. intros Hr. unfold restP. by rewrite delete_id. Qed.

Lemma wfA_within A r y : wfA A -> rest A r y -> U y \/ F y.
Proof.
  intros HA [(r' & ks & [_ E]%lookup_delete_Some & Hy)|?]; [|by right]. left. destruct (HA _ _ E) as [Hr' Hks].
  rewrite Forall_forall in Hks. destruct Hy as [(k & Hk & ->)|(k & Hk & ->)]; exists r', k; split_and!; auto.
  apply Hks. by apply head_Some_elem_of.
Qed.

Lemma node_within r ks y : Host r -> Forall Key ks -> nodeSA r ks y -> U y.
Proof.
  intros Hr Hks. rewrite Forall_forall in Hks. intros [(k & Hk & ->)|(k & Hk & ->)]; exists r, k; split_and!; auto.
  apply Hks. by apply head_Some_elem_of.
Qed.

Lemma rest_not_rSA A r k y : wfA A -> Host r -> Key k -> rest A r y -> y <> rSA r k.
Proof.
  intros HA Hr Hk [(r' & ks & [Hne E]%lookup_delete_Some & Hy)|Hy] ->; [|by apply (cl_F_mark Hcl _ Hy)].
  destruct (HA _ _ E) as [Hr' Hks]. rewrite Forall_forall in Hks. destruct Hy as [(k' & Hk' & Ey)|(k' & Hk' & Ey)].
  - apply rSA_inj in Ey as [-> _]; auto.
  - by apply rSA_fSA in Ey.
Qed.

Lemma rest_not_fSA A r k y : wfA A -> Host r -> Key k -> rest A r y -> y <> fSA r k.
Proof.
  intros HA Hr Hk [(r' & ks & [Hne E]%lookup_delete_Some & Hy)|Hy] ->; [|by apply (cl_F_mark Hcl _ Hy)].
  destruct (HA _ _ E) as [Hr' Hks]. rewrite Forall_forall in Hks. destruct Hy as [(k' & Hk' & Ey)|(k' & Hk' & Ey)].
  - symmetry in Ey. by apply rSA_fSA in Ey.
  - apply fSA_inj in Ey as [-> _]; auto. apply Hks. by apply head_Some_elem_of.
Qed.

Lemma restP_selector A r k y : wfA A -> Host r -> restP A r y -> selector y <> selector (pol r k).
Proof.
  intros HA Hr [(r' & ks & k' & [Hne E]%lookup_delete_Some & Hk' & ->)|Hy] Es.
  - destruct (HA _ _ E) as [Hr' Hks]. unfold selector in Es. cbn in Es. injection Es as Es. by apply (cl_unmap Hcl) in Es.
  - apply (cl_G Hcl y Hy). unfold selector in Es. cbn in Es. congruence.
Qed.
(** *** Setting up, removing and changing the keys of a node *)

Definition setupStep (r : Addr) : XK * list spi * nat -> key -> XK * list spi * nat := fun '(x, indices, i) k =>
  let spis := spisOf aIP r k in
  let dir := if (i =? 0)%nat then bidir else OverlayKeys.reverse in
  let '(x, (fSA, _, _)) := programSA lIP r spis (Some k) dir true x in
  (if (i =? 0)%nat then programSP fSA port true x else x, (indices ++ [spis])%list, S i).

Definition removeStep (r : Addr) : XK * nat -> spi -> XK * nat := fun '(x, i) idxs =>
  let dir := if (i =? 0)%nat then bidir else OverlayKeys.reverse in
  let '(x, (fSA, _, _)) := programSA lIP r idxs None dir false x in
  (if (i =? 0)%nat then programSP fSA port false x else x, S i).

Lemma reverse_add r k x :
  exists e, programSA lIP r (spisOf aIP r k) (Some k) OverlayKeys.reverse true x
    = ((programState (rSA r k) true x).1, (None, Some (rSA r k), e)).
Proof.
  rewrite programSA_reverse. cbn [spisOf spi_reverse option_map]. fold (rSA r k). destruct (programState (rSA r k) true x) as [x' e].
  by exists e.
Qed.

Lemma setup_others r ks x P l n :
  within P -> Host r -> Forall Key ks -> st x P ->
  st (foldl (setupStep r) (x, l, S n) ks).1.1 (fun y => P y \/ exists k, k ∈ ks /\ y = rSA r k) /\
  policies (foldl (setupStep r) (x, l, S n) ks).1.1 = policies x.
Proof.
  intros HP Hr. revert x P l n HP. induction ks as [|k ks IH]; intros x P l n HP Hks Hst; cbn [foldl].
  - split; [|done]. eapply st_ext; [exact Hst|]. intros y. split; [by left|]. intros [?|(k & Hk & _)]; [done|inversion Hk].
  - apply Forall_cons in Hks as [Hk Hks]. unfold setupStep at 2 4. cbn [Nat.eqb].
    destruct (reverse_add r k x) as [e ->]. destruct (add_rSA x P r k HP Hr Hk Hst) as (H1 & H2 & H3).
    destruct (IH _ _ (l ++ [spisOf aIP r k])%list (S n) H3 Hks H1) as [H4 H5]. rewrite H5. split; [|done].
    eapply st_ext; [exact H4|]. intros y. setoid_rewrite elem_of_cons. naive_solver.
Qed.

(** Setting up a node that has its keys already changes nothing. *)
Lemma setup_holds r k0 ks x A :
  Host r -> Forall Key (k0 :: ks) -> wfA A -> holds x A -> (A !! r = None \/ A !! r = Some (k0 :: ks)) ->
  holds (foldl (setupStep r) (x, [], O) (k0 :: ks)).1.1 (<[r := k0 :: ks]> A).
Proof.
  intros Hr [Hk0 Hks]%Forall_cons HA [Hst Hpl] HAr. cbn [foldl].
  assert (Hw : within (fun y => ours A y \/ F y)).
  { intros y [(r' & ks' & E & Hy)|?]; [|by right]. destruct (HA _ _ E). left. by eapply node_within. }
  unfold setupStep at 2. cbn [Nat.eqb].
  destruct (programSA_bidir lIP r (spisOf aIP r k0) (Some k0) true x) as [e ->]. cbn zeta.
  cbn [spisOf spi_reverse spi_forward option_map]. fold (rSA r k0) (fSA r k0).
  destruct (add_rSA x _ r k0 Hw Hr Hk0 Hst) as (H1 & H2 & H3).
  destruct (add_fSA _ _ r k0 H3 Hr Hk0 H1) as (H4 & H5 & H6).
  set (x2 := (programState (fSA r k0) true _).1) in *.
  assert (Hpl2 : pl x2 (fun y => oursP A y \/ G y)) by (eapply pl_states; [|exact Hpl]; congruence).
  destruct (programSP_add (fSA r k0) port x2 _ Hpl2) as [H7 H8].
  { intros y Hy E. destruct HAr as [HAr|HAr].
    - exfalso. apply (oursP_absent A r y HAr) in Hy. by apply (restP_selector A r k0 y).
    - apply (oursP_split A r _ y HAr) in Hy as [(k & Hk & ->)|Hy]; [|exfalso; by apply (restP_selector A r k0 y)].
      by injection Hk as ->. }
  set (x3 := programSP _ port true x2) in *.
  destruct (setup_others r ks x3 _ ([] ++ [spisOf aIP r k0])%list 0 H6 Hr Hks) as [H9 H10]; [by apply (st_policies x2)|].
  set (x4 := (foldl _ _ ks).1.1) in *. split.
  - eapply st_ext; [exact H9|]. intros y. rewrite (ours_split (<[r := k0 :: ks]> A) r (k0 :: ks) y) by by rewrite lookup_insert_eq.
    rewrite rest_insert. assert (E : ours A y \/ F y -> nodeSA r (k0 :: ks) y \/ rest A r y).
    { intros Hy. destruct HAr as [HAr|HAr]; [right; by apply (ours_absent A r y)|by apply (ours_split A r _ y)]. }
    assert (E' : rest A r y -> ours A y \/ F y).
    { intros Hy. destruct HAr as [HAr|HAr]; [by apply (ours_absent A r y)|apply (ours_split A r _ y HAr); by right]. }
    unfold nodeSA in *. setoid_rewrite elem_of_cons. cbn [head] in *. setoid_rewrite elem_of_cons in E. naive_solver.
  - eapply pl_states; [exact H10|]. eapply pl_ext; [exact H7|]. intros y.
    rewrite (oursP_split (<[r := k0 :: ks]> A) r (k0 :: ks) y) by by rewrite lookup_insert_eq.
    rewrite restP_insert. fold (pol r k0). destruct HAr as [HAr|HAr]; [rewrite (oursP_absent A r y HAr)|rewrite (oursP_split A r _ y HAr)];
      unfold nodeP; cbn [head]; naive_solver.
Qed.
Lemma reverse_del r k x :
  exists sa0 e, programSA lIP r (spisOf aIP r k) None OverlayKeys.reverse false x
    = ((programState sa0 false x).1, (None, Some sa0, e)) /\ ident sa0 = ident (rSA r k).
Proof.
  rewrite programSA_reverse. cbn zeta. destruct (programState _ false x) as [x' e] eqn:E. eexists _, _. split; [by rewrite E|done].
Qed.

Lemma forward_del r k x :
  exists sa0 e, programSA lIP r (spisOf aIP r k) None forward false x
    = ((programState sa0 false x).1, (Some sa0, None, e)) /\ ident sa0 = ident (fSA r k).
Proof.
  rewrite programSA_forward. cbn zeta. destruct (programState _ false x) as [x' e] eqn:E. eexists _, _. split; [by rewrite E|done].
Qed.

Lemma U_rSA r k : Host r -> Key k -> U (rSA r k).
Proof. intros. exists r, k. auto. Qed.
Lemma U_fSA r k : Host r -> Key k -> U (fSA r k).
Proof. intros. exists r, k. auto. Qed.

Lemma remove_others r ks x P n :
  within P -> Host r -> Forall Key ks -> st x P ->
  st (foldl (removeStep r) (x, S n) (map (spisOf aIP r) ks)).1 (fun y => P y /\ forall k, k ∈ ks -> y <> rSA r k) /\
  policies (foldl (removeStep r) (x, S n) (map (spisOf aIP r) ks)).1 = policies x.
Proof.
  intros HP Hr. revert x P n HP. induction ks as [|k ks IH]; intros x P n HP Hks Hst; cbn [foldl map].
  - split; [|done]. eapply st_ext; [exact Hst|]. intros y. split; [|by intros [? _]]. intros Hy. split; [done|].
    intros k Hk. inversion Hk.
  - apply Forall_cons in Hks as [Hk Hks]. unfold removeStep at 2 4. cbn [Nat.eqb].
    destruct (reverse_del r k x) as (sa0 & e & -> & Hid).
    destruct (del_SA x P (rSA r k) sa0 HP (U_rSA r k Hr Hk) Hid Hst) as (H1 & H2 & H3).
    destruct (IH _ _ (S n) H3 Hks H1) as [H4 H5]. rewrite H5. split; [|done].
    eapply st_ext; [exact H4|]. intros y. setoid_rewrite elem_of_cons. naive_solver.
Qed.

Lemma remove_holds r k0 ks x A :
  Host r -> Forall Key (k0 :: ks) -> wfA A -> holds x A -> A !! r = Some (k0 :: ks) ->
  holds (foldl (removeStep r) (x, O) (map (spisOf aIP r) (k0 :: ks))).1 (delete r A).
Proof.
  intros Hr Hkk HA [Hst Hpl] HAr. pose proof Hkk as [Hk0 Hks]%Forall_cons. cbn [foldl map].
  assert (Hw : within (fun y => ours A y \/ F y)).
  { intros y [(r' & ks' & E & Hy)|?]; [|by right]. destruct (HA _ _ E). left. by eapply node_within. }
  unfold removeStep at 2. cbn [Nat.eqb].
  destruct (programSA_bidir lIP r (spisOf aIP r k0) None false x) as [e ->]. cbn zeta. cbn [spisOf spi_reverse spi_forward].
  set (r0 := mkSA r lIP _ mark None). set (f0 := mkSA lIP r _ mark None).
  destruct (del_SA x _ (rSA r k0) r0 Hw (U_rSA r k0 Hr Hk0) eq_refl Hst) as (H1 & H2 & H3).
  destruct (del_SA _ _ (fSA r k0) f0 H3 (U_fSA r k0 Hr Hk0) eq_refl H1) as (H4 & H5 & H6).
  set (x2 := (programState f0 false _).1) in *.
  assert (Hpl2 : pl x2 (fun y => oursP A y \/ G y)) by (eapply pl_states; [|exact Hpl]; congruence).
  destruct (programSP_del f0 port x2 _ Hpl2) as [H7 H8].
  set (x3 := programSP _ port false x2) in *.
  destruct (remove_others r ks x3 _ 0 H6 Hr Hks) as [H9 H10]; [by apply (st_policies x2)|].
  set (x4 := (foldl _ _ (map _ ks)).1) in *. split.
  - eapply st_ext; [exact H9|]. intros y. cbn beta. fold (rest A r y). rewrite (ours_split A r _ y HAr). split.
    + intros [[[[Hy|Hy] Hn1] Hn2] Hn3]; [|done]. exfalso. destruct Hy as [(k & [->|Hk]%elem_of_cons & ->)|(k & [= <-] & ->)]; [done| |done].
      by apply (Hn3 k).
    + intros Hy. rewrite Forall_forall in Hks. split_and!; [by right|by apply (rest_not_rSA A r k0)|by apply (rest_not_fSA A r k0)|].
      intros k Hk. apply (rest_not_rSA A r k); auto.
  - eapply pl_states; [exact H10|]. eapply pl_ext; [exact H7|]. intros y. cbn beta. fold (restP A r y). rewrite (oursP_split A r _ y HAr).
    change (selector (policyOf f0 port)) with (selector (pol r k0)). split.
    + intros [[(k & [= <-] & ->)|Hy] Hn]; done.
    + intros Hy. split; [by right|by apply (restP_selector A r k0)].
Qed.

(** The keys of a node after a change. *)
Record rekeys (ks : list key) (nk kp kd : option key) (ks' : list key) : Prop := {
  rk_perm : (ks ++ option_list nk)%list ≡ₚ (option_list kd ++ ks')%list;
  rk_nodup : NoDup (ks ++ option_list nk);
  rk_head : head ks' = match kp with Some k => Some k | None => head ks end;
  rk_new : kp <> None -> kp <> head ks;
  rk_fresh : nk <> None -> nk <> kd }.

Lemma rekeys_elem ks nk kp kd ks' k :
  rekeys ks nk kp kd ks' -> k ∈ ks' <-> (k ∈ ks \/ nk = Some k) /\ kd <> Some k.
Proof.
  intros [Hp Hn _ _ _]. assert (E : k ∈ (ks ++ option_list nk)%list <-> k ∈ (option_list kd ++ ks')%list) by by rewrite Hp.
  rewrite Hp in Hn. apply NoDup_app in Hn as (_ & Hd & _). rewrite !elem_of_app in E.
  destruct nk as [n|], kd as [d|]; cbn in *; rewrite ?list_elem_of_singleton, ?elem_of_nil in E; try specialize (Hd d);
    rewrite ?list_elem_of_singleton in Hd; naive_solver.
Qed.
(** Dropping and adding what the node receives under. *)
Lemma nodeCalls_reverse r nk kd x P :
  within P -> Host r -> (forall k, nk = Some k \/ kd = Some k -> Key k) -> st x P ->
  let sa k v dir add x := programSA lIP r (spisOf aIP r k) v dir add x in
  let x' := match kd with Some k => (sa k None OverlayKeys.reverse false x).1 | None => x end in
  let x' := match nk with Some k => (sa k (Some k) OverlayKeys.reverse true x').1 | None => x' end in
  let P' := fun y => (P y /\ (forall k, kd = Some k -> y <> rSA r k)) \/ (exists k, nk = Some k /\ y = rSA r k) in
  st x' P' /\ policies x' = policies x /\ within P'.
Proof.
  intros HP Hr Hk Hst. cbn zeta.
  assert (H1 : let x1 := match kd with Some k => (programSA lIP r (spisOf aIP r k) None OverlayKeys.reverse false x).1 | None => x end in
    let P1 := fun y => P y /\ (forall k, kd = Some k -> y <> rSA r k) in st x1 P1 /\ policies x1 = policies x /\ within P1).
  { cbn zeta. destruct kd as [kd|].
    - destruct (reverse_del r kd x) as (sa0 & e & -> & Hid).
      destruct (del_SA x P (rSA r kd) sa0 HP) as (H1 & H2 & H3); [apply U_rSA; auto|done|done|].
      split_and!; [|done|intros y [Hy _]; by apply HP]. eapply st_ext; [exact H1|]. naive_solver.
    - split_and!; [|done|intros y [Hy _]; by apply HP]. eapply st_ext; [exact Hst|]. naive_solver. }
  cbn zeta in H1. set (x1 := match kd with Some k => _ | None => _ end) in *. destruct H1 as (H1 & H2 & H3).
  destruct nk as [n|].
  - destruct (reverse_add r n x1) as [e ->]. destruct (add_rSA x1 _ r n H3 Hr) as (H4 & H5 & H6); [by auto|done|].
    split_and!; [|cbn in *; congruence|].
    + eapply st_ext; [exact H4|]. naive_solver.
    + intros y Hy. apply H6. naive_solver.
  - split_and!; [|done|]; [eapply st_ext; [exact H1|]; naive_solver|]. intros y Hy. apply H3. naive_solver.
Qed.

Lemma rekey_reverse r ks nk kp kd k0 ks' A y :
  Host r -> Forall Key (ks ++ option_list nk) -> wfA A -> A !! r = Some ks -> head ks = Some k0 -> rekeys ks nk kp kd ks' ->
  (forall k, kd = Some k -> Key k) ->
  ((ours A y \/ F y) /\ (forall k, kd = Some k -> y <> rSA r k)) \/ (exists k, nk = Some k /\ y = rSA r k) <->
  (exists k, k ∈ ks' /\ y = rSA r k) \/ y = fSA r k0 \/ rest A r y.
Proof.
  intros Hr Hkk HA HAr H0 Hrk Hkd. pose proof (fun k => rekeys_elem ks nk kp kd ks' k Hrk) as Hel.
  rewrite Forall_app, !Forall_forall in Hkk. destruct Hkk as [Hks Hnk].
  rewrite (ours_split A r ks y HAr). unfold nodeSA. split.
  - intros [[[[(k & Hk & ->)|(k & Hk & ->)]|Hy] Hn]|(k & Hk & ->)].
    + left. exists k. split; [|done]. apply Hel. split; [by left|]. intros E. by apply (Hn k).
    + right. left. congruence.
    + by right; right.
    + left. exists k. split; [|done]. apply Hel. split; [by right|]. intros E. apply (rk_fresh _ _ _ _ _ Hrk); congruence.
  - intros [(k & [[Hk|Hk] Hne]%Hel & ->)|[->|Hy]].
    + left. split; [left; left; by exists k|]. intros k' Hk' E. apply rSA_inj in E as [_ ->]; auto.
    + right. by exists k.
    + left. split; [left; right; by exists k0|]. intros k' _ E. symmetry in E. by apply rSA_fSA in E.
    + left. split; [by right|]. intros k' Hk'. apply (rest_not_rSA A r k'); auto.
Qed.

(** Moving the primary key from [k0] to [kp]. *)
Lemma rekey_primary r ks kp k0 ks' x P A :
  Host r -> wfA A -> within P -> st x P -> pl x (fun y => oursP A y \/ G y) -> A !! r = Some ks -> head ks = Some k0 ->
  Key k0 -> Key kp -> kp <> k0 -> head ks' = Some kp ->
  (forall y, P y <-> (exists k, k ∈ ks' /\ y = rSA r k) \/ y = fSA r k0 \/ rest A r y) ->
  let '(x2, (fSA2, _, _)) := programSA lIP r (spisOf aIP r kp) (Some kp) forward true x in
  let x3 := match fSA2 with Some f => (XfrmPolicyUpdate (policyOf f port) x2).1 | None => x2 end in
  let x' := (programSA lIP r (spisOf aIP r k0) None forward false x3).1 in
  st x' (fun y => nodeSA r ks' y \/ rest A r y) /\ pl x' (fun y => nodeP r ks' y \/ restP A r y).
Proof.
  intros Hr HA HP Hst Hpl HAr H0 Hk0 Hkp Hne Hhd HPy.
  rewrite programSA_forward. cbn [spisOf spi_forward option_map]. cbn zeta. fold (fSA r kp).
  destruct (add_fSA x P r kp HP Hr Hkp Hst) as (H4 & H5 & H6).
  destruct (programState (fSA r kp) true x) as [x2 e2]. cbn [fst] in H4, H5, H6 |- *.
  assert (Hpl2 : pl x2 (fun y => oursP A y \/ G y)) by by eapply pl_states.
  destruct (policy_update_pl (policyOf (fSA r kp) port) x2 _ Hpl2) as [H7 H8].
  set (x3 := (XfrmPolicyUpdate _ x2).1) in *.
  destruct (forward_del r k0 x3) as (sa0 & e & -> & Hid). cbn [fst].
  destruct (del_SA x3 _ (fSA r k0) sa0 H6 (U_fSA r k0 Hr Hk0) Hid) as (H9 & H10 & _); [by apply (st_policies x2)|].
  split.
  - eapply st_ext; [exact H9|]. intros y. cbn beta. rewrite HPy. unfold nodeSA. rewrite Hhd. split.
    + intros [[[Hy|[Hy|Hy]]| ->] Hn]; [left; by left|done|by right|left; right; by exists kp].
    + intros [[Hy|(k & [= <-] & ->)]|Hy]; (split; [auto|]).
      * destruct Hy as (k & _ & ->). by apply rSA_fSA.
      * intros E. by apply fSA_inj in E as [_ ?].
      * by apply (rest_not_fSA A r k0).
  - eapply pl_states; [exact H10|]. eapply pl_ext; [exact H7|]. intros y. cbn beta. rewrite (oursP_split A r ks y HAr).
    unfold nodeP. rewrite Hhd, H0. fold (pol r kp). split.
    + intros [[[(k & [= <-] & ->)|Hy] Hn]| ->]; [done|by right|left; by exists kp].
    + intros [(k & [= <-] & ->)|Hy]; [by right|left]. split; [by right|by apply (restP_selector A r kp)].
Qed.

Lemma rekey_holds r ks nk kp kd k0 ks' x A :
  Host r -> Forall Key (ks ++ option_list nk) -> wfA A -> holds x A -> A !! r = Some ks -> head ks = Some k0 ->
  rekeys ks nk kp kd ks' -> (forall k, kp = Some k \/ kd = Some k -> Key k) ->
  holds (nodeCalls lIP aIP r port nk kp kd k0 x) (<[r := ks']> A).
Proof.
  intros Hr Hkk HA [Hst Hpl] HAr H0 Hrk Hkpd. unfold nodeCalls. cbn zeta.
  assert (Hw : within (fun y => ours A y \/ F y)).
  { intros y [(r' & ks2 & E & Hy)|?]; [|by right]. destruct (HA _ _ E). left. by eapply node_within. }
  pose proof Hkk as [Hks Hnk]%Forall_app.
  assert (Hk0 : Key k0) by (rewrite Forall_forall in Hks; apply Hks; by apply head_Some_elem_of).
  destruct (nodeCalls_reverse r nk kd x _ Hw Hr) as (H1 & H2 & H3); [|exact Hst|].
  { intros k [-> | ->]; [|auto]. by apply Forall_singleton. }
  cbn zeta in H1, H2, H3. set (x1 := match nk with Some k => _ | None => _ end) in *.
  assert (Hpl1 : pl x1 (fun y => oursP A y \/ G y)) by by eapply pl_states.
  pose proof (fun y => rekey_reverse r ks nk kp kd k0 ks' A y Hr Hkk HA HAr H0 Hrk (fun k E => Hkpd k (or_intror E))) as Hy1.
  pose proof (rk_head _ _ _ _ _ Hrk) as Hhd. rewrite H0 in Hhd.
  assert (Hins : forall y, ours (<[r := ks']> A) y \/ F y <-> nodeSA r ks' y \/ rest A r y).
  { intros y. rewrite <-(rest_insert A r ks' y). apply ours_split. by rewrite lookup_insert_eq. }
  assert (HinsP : forall y, oursP (<[r := ks']> A) y \/ G y <-> nodeP r ks' y \/ restP A r y).
  { intros y. rewrite <-(restP_insert A r ks' y). apply oursP_split. by rewrite lookup_insert_eq. }
  destruct kp as [kp|].
  - assert (Hkp : Key kp) by auto. assert (Hne : kp <> k0) by (pose proof (rk_new _ _ _ _ _ Hrk); naive_solver).
    pose proof (rekey_primary r ks kp k0 ks' x1 _ A Hr HA H3 H1 Hpl1 HAr H0 Hk0 Hkp Hne Hhd Hy1) as Hfin.
    destruct (programSA lIP r (spisOf aIP r kp) (Some kp) forward true x1) as [x2 [[f r2] e]]. destruct Hfin as [Hs Hp].
    split; [by eapply st_ext; [exact Hs|]|by eapply pl_ext; [exact Hp|]].
  - split.
    + eapply st_ext; [exact H1|]. intros y. cbn beta. rewrite Hy1, Hins. unfold nodeSA. rewrite Hhd. naive_solver.
    + eapply pl_ext; [exact Hpl1|]. intros y. cbn beta. rewrite HinsP, (oursP_split A r ks y HAr). unfold nodeP. by rewrite Hhd, H0.
Qed.
End Programmed.

(** ** Calls of the driver keep the tables in step

    [programmed]: every node has exactly its associations and policy under the current keys. *)

Section Steps.
Context `{HX : Xfrm} `{!XfrmLaws}.
Context (Host : Addr -> Prop) (Key : key -> Prop) (F : XfrmState -> Prop) (G : XfrmPolicy -> Prop).

(** Every node has all keys. *)
Definition assign (d : driver) : gmap Addr (list key) := (fun _ => keys d) <$> secMap d.

Definition cleanFor (d : driver) : Prop := clean (bindAddress d) (advertiseAddress d) Host Key F G.

Record programmed (d : driver) : Prop := {
  pg_holds : holds (bindAddress d) (advertiseAddress d) (vxlanUDPPort d) F G (xfrm d) (assign d);
  pg_host r : is_Some (secMap d !! r) -> Host r;
  pg_keys : Forall Key (keys d) }.

Lemma holds_ext lIP aIP port x A A' : A = A' -> holds lIP aIP port F G x A -> holds lIP aIP port F G x A'.
Proof. by intros ->. Qed.

Lemma assign_wf d : programmed d -> wfA Host Key (assign d).
Proof.
  intros [_ Hh Hk] r ks. unfold assign. rewrite lookup_fmap. intros (n & Hn & ->)%fmap_Some. split; [apply Hh; by eexists|done].
Qed.

Lemma assign_lookup d r : assign d !! r = (fun _ => keys d) <$> secMap d !! r.
Proof. apply lookup_fmap. Qed.

Lemma setup_programmed r d : cleanFor d -> aligned d -> programmed d -> Host r -> programmed (setupEncryption r d).1.
Proof.
  intros Hcl Hal Hpg Hr. pose proof (assign_wf d Hpg) as HA. destruct Hpg as [Hh Hho Hk].
  unfold setupEncryption. destruct (keys d) as [|k0 ks] eqn:Ek; [by destruct (al_some d Hal)|].
  rewrite (proj2 (Nat.eqb_neq _ _)) by done.
  pose proof (setup_holds _ _ (vxlanUDPPort d) _ _ F G Hcl r k0 ks (xfrm d) (assign d) Hr Hk HA Hh) as Hs.
  assert (Hpre : assign d !! r = None \/ assign d !! r = Some (k0 :: ks)).
  { rewrite assign_lookup, Ek. destruct (secMap d !! r); [by right|by left]. }
  specialize (Hs Hpre). match type of Hs with context [foldl ?f ?a ?b] => set (res := foldl f a b) in Hs end.
  match goal with |- context [foldl ?f ?a ?b] => change (foldl f a b) with res end.
  destruct res as [[x l] i]. cbn [fst] in Hs. split; cbn.
  - eapply holds_ext; [|exact Hs]. unfold assign. cbn. by rewrite fmap_insert, Ek.
  - intros r'. rewrite lookup_insert_is_Some. intros [<-|[_ ?]]; auto.
  - by rewrite Ek.
Qed.

Lemma remove_programmed r d : cleanFor d -> aligned d -> programmed d -> 0 < count d r -> programmed (removeEncryption r d).
Proof.
  intros Hcl Hal Hpg Hc. pose proof (assign_wf d Hpg) as HA. destruct Hpg as [Hh Hho Hk].
  unfold removeEncryption, count in *. destruct (secMap d !! r) as [n|] eqn:En; cbn [default fmap option_fmap option_map from_option id] in *; [|done].
  destruct (al_node d Hal r n En) as [Hsp _].
  destruct (Z.eqb_spec (en_count n) 1) as [H1|H1].
  - destruct (keys d) as [|k0 ks] eqn:Ek; [by destruct (al_some d Hal)|].
    assert (HAr : assign d !! r = Some (k0 :: ks)) by by rewrite assign_lookup, En, Ek.
    pose proof (remove_holds _ _ (vxlanUDPPort d) _ _ F G Hcl r k0 ks (xfrm d) (assign d) (Hho r (ltac:(by eexists))) Hk HA Hh HAr) as Hs.
    rewrite Hsp. unfold spisAt. rewrite Ek. cbn [fst snd].
    match type of Hs with context [foldl ?f ?a ?b] => set (res := foldl f a b) in Hs end.
    match goal with |- context [foldl ?f ?a ?b] => change (foldl f a b) with res end.
    destruct res as [x i]. cbn [fst] in Hs.
    split; cbn; [|intros r'; rewrite lookup_delete_is_Some; intros [_ ?]; auto|by rewrite Ek].
    eapply holds_ext; [|exact Hs]. unfold assign. cbn. by rewrite fmap_delete.
  - cbn. split; cbn; [|intros r'; rewrite lookup_insert_is_Some; intros [<-|[_ ?]]; apply Hho; [by eexists|done]|done].
    eapply holds_ext; [|exact Hh]. unfold assign. cbn. rewrite fmap_insert. symmetry. apply insert_id. by rewrite lookup_fmap, En.
Qed.

(** The calls for all nodes. *)
Lemma rekey_all d nk kp kd k0 ks' : cleanFor d ->
  head (keys d) = Some k0 -> Forall Key (keys d ++ option_list nk) -> (forall k, kp = Some k \/ kd = Some k -> Key k) ->
  rekeys (keys d) nk kp kd ks' -> Forall Key ks' ->
  forall (l : list (Addr * encrNode)) x A, NoDup l.*1 -> (forall r n, (r, n) ∈ l -> Host r /\ A !! r = Some (keys d)) -> wfA Host Key A ->
  holds (bindAddress d) (advertiseAddress d) (vxlanUDPPort d) F G x A ->
  holds (bindAddress d) (advertiseAddress d) (vxlanUDPPort d) F G
    (foldl (fun x '(r, _) => nodeCalls (bindAddress d) (advertiseAddress d) r (vxlanUDPPort d) nk kp kd k0 x) x l)
    (foldl (fun A '(r, _) => <[r := ks']> A) A l).
Proof.
  intros Hcl H0 Hkk Hkpd Hrk Hks'. induction l as [|[r n] l IH]; intros x A Hnd Hl HA Hh; cbn [foldl]; [done|].
  apply NoDup_cons in Hnd as [Hr Hnd]. cbn in Hr. destruct (Hl r n) as [Hhost HAr]; [by apply list_elem_of_here|].
  apply IH; [done| | |].
  - intros r' n' Hin. destruct (Hl r' n') as [? E]; [by apply list_elem_of_further|]. split; [done|].
    rewrite lookup_insert_ne; [done|]. intros ->. apply Hr. by apply (list_elem_of_fmap_2 fst _ (r', n')).
  - intros r' ks2. rewrite lookup_insert_Some. intros [[<- <-]|[_ E]]; [done|by apply HA].
  - by eapply rekey_holds.
Qed.

Lemma foldl_assign (l : list (Addr * encrNode)) (m : gmap Addr encrNode) (ks ks' : list key) :
  map_to_list m = l -> foldl (fun A '(r, _) => <[r := ks']> A) ((fun _ => ks) <$> m) l = (fun _ => ks') <$> m.
Proof.
  intros <-. apply map_eq. intros r.
  assert (Hgen : forall (l : list (Addr * encrNode)) (A : gmap Addr (list key)),
    foldl (fun A '(r, _) => <[r := ks']> A) A l !! r = if bool_decide (r ∈ l.*1) then Some ks' else A !! r).
  { induction l as [|[r' n] l IH]; intros A; cbn [foldl]; [done|]. rewrite IH. cbn.
    destruct (decide (r = r')) as [->|Hne].
    - rewrite lookup_insert_eq. rewrite (bool_decide_eq_true_2 (r' ∈ r' :: _)) by by apply list_elem_of_here. by case_bool_decide.
    - rewrite lookup_insert_ne by done. case_bool_decide as Hin; [rewrite bool_decide_eq_true_2; [done|by apply list_elem_of_further]|].
      rewrite bool_decide_eq_false_2; [done|]. by intros [?|?]%elem_of_cons. }
  rewrite Hgen, !lookup_fmap. case_bool_decide as Hin.
  - apply list_elem_of_fmap in Hin as ([r' n] & -> & Hin). apply elem_of_map_to_list in Hin. cbn. by rewrite Hin.
  - destruct (m !! r) as [n|] eqn:E; [|done]. exfalso. apply Hin. apply (list_elem_of_fmap_2 fst _ (r, n)).
    by apply elem_of_map_to_list.
Qed.

Lemma update_programmed d d' nk kp kd k0 ks' :
  cleanFor d -> aligned d -> programmed d -> head (keys d) = Some k0 -> acceptable (keys d) nk kp kd ->
  (forall k, nk = Some k -> Key k) -> (nk <> None -> nk <> kd) ->
  updateKeys nk kp kd d = Some (d', false) -> d' = rekeyed d nk kp kd k0 ks' ->
  (keys d ++ option_list nk)%list ≡ₚ (option_list kd ++ ks')%list -> head ks' = match kp with Some k => Some k | None => Some k0 end ->
  programmed d'.
Proof.
  intros Hcl Hal Hpg H0 Hacc Hnk Hfr _ -> Hperm Hhd. pose proof (assign_wf d Hpg) as HA. destruct Hpg as [Hh Hho Hk].
  assert (Hkk : Forall Key (keys d ++ option_list nk)).
  { apply Forall_app. split; [done|]. destruct nk; [|by constructor]. apply Forall_singleton. auto. }
  assert (Hks' : Forall Key ks') by (rewrite Hperm in Hkk; by apply Forall_app in Hkk as [_ ?]).
  pose proof (fun k => proj1 (Forall_forall _ _) Hkk k) as Hin.
  destruct (acceptable_points _ _ _ _ (al_some d Hal) Hacc) as (Hp & _ & _).
  set (pri := priIndex _ kp) in *.
  assert (Hrk : rekeys (keys d) nk (if pri >? 0 then kp else None) kd ks').
  { pose proof (ac_tags _ _ _ _ Hacc) as Hnd. split; [done|by apply NoDup_fmap_1 in Hnd| | |done].
    - rewrite Hhd, H0. destruct kp as [kp|]; [|by destruct (pri >? 0)]. destruct (Z.gtb_spec pri 0) as [|Hle]; [done|].
      apply (at_nonneg _ pri kp) in Hp as [? Hlk]. assert (E : pri = 0) by lia. rewrite E in Hlk.
      clear -Hlk H0. destruct (keys d) as [|a l]; [done|]. injection H0 as ->. injection Hlk as ->. done.
    - destruct (Z.gtb_spec pri 0) as [Hgt|]; [|done]. destruct kp as [kp|]; [|done]. intros _ E.
      apply (at_nonneg _ pri kp) in Hp as [? Hlk].
      assert (Z.to_nat pri = 0)%nat; [|lia]. apply NoDup_fmap_1 in Hnd. eapply NoDup_lookup; [exact Hnd|exact Hlk|].
      clear -H0 E. destruct (keys d) as [|a l]; [done|]. injection E as ->. done. }
  assert (Hkpd : forall k, (if pri >? 0 then kp else None) = Some k \/ kd = Some k -> Key k).
  { intros k [E|E]; apply Hin; [|by apply (ac_del _ _ _ _ Hacc)]. apply (ac_pri _ _ _ _ Hacc). by destruct (pri >? 0). }
  split; cbn; [|intros r; rewrite map_lookup_imap; intros [? E]; apply Hho; destruct (secMap d !! r); [by eexists|done]|done].
  eapply holds_ext; [|eapply (rekey_all d nk (if pri >? 0 then kp else None) kd k0 ks' Hcl H0 Hkk Hkpd Hrk Hks' (map_to_list (secMap d)) (xfrm d) (assign d)
      (NoDup_fst_map_to_list _)); [|done|done]].
  - unfold assign. rewrite (foldl_assign _ (secMap d)) by done. cbn. apply map_eq. intros r.
    rewrite !lookup_fmap, map_lookup_imap. by destruct (secMap d !! r).
  - intros r n E%elem_of_map_to_list. split; [apply Hho; by eexists|]. by rewrite assign_lookup, E.
Qed.

(** Resetting the keys leaves what others have. *)
Lemma setKeys_programmed ks d P Q :
  st (xfrm d) P -> pl (xfrm d) Q -> (forall y, F y <-> P y /\ sa_Reqid y <> mark) -> (forall y, G y <-> Q y /\ sp_Mark y <> Some mark) ->
  Forall Key ks -> programmed (setKeys ks d).
Proof.
  intros HP HQ HF HG Hk. destruct (clear_ok (xfrm d) P Q HP HQ) as [H1 H2]. split; [|by intros r [? ?]|done]. split; cbn.
  - eapply st_ext; [exact H1|]. intros y. unfold ours, assign. cbn. setoid_rewrite fmap_empty. setoid_rewrite lookup_empty.
    rewrite HF. naive_solver.
  - eapply pl_ext; [exact H2|]. intros y. unfold oursP, assign. cbn. setoid_rewrite fmap_empty. setoid_rewrite lookup_empty.
    rewrite HG. naive_solver.
Qed.
End Steps.
