(* ===== verification/AgentKeys.v ===== *)
(** * Keys of the cluster agent

    Model of how [daemon/libnetwork/controller.go] ([SetKeys]) and [agent.go]
    ([handleKeyChange], [getKeys], [getPrimaryKeyTag], the key part of [agentInit]) follow the
    keys that the cluster's manager distributes: gossip keys go to the key ring of the gossip
    database ([networkdb/cluster.go] over the key ring of [memberlist]), keys of the data
    plane to the overlay driver. *)

From Stdlib Require Import String.
From S2P Require Import Prelude Slices NetIP OverlayKeys.
From stdpp Require Import gmap list.

Local Open Scope Z_scope.

Definition subsysGossip : string := "networking:gossip".
Definition subsysIPSec : string := "networking:ipsec".
Definition keyringSize : nat := 3.

Record EncryptionKey := mkEK { ek_Subsystem : string; ek_Key : list Z; ek_LamportTime : Z }.

#[export] Instance EncryptionKey_eq : EqDecision EncryptionKey.
Proof. solve_decision. Defined.

(** ** The key ring of memberlist: the primary key is the first. *)
Module Keyring.

Definition ValidateKey (k : list Z) : bool :=
  let l := Z.of_nat (length k) in (l =? 16) || (l =? 24) || (l =? 32).

Definition installKeys (ks : list (list Z)) (primaryKey : list Z) : list (list Z) :=
  primaryKey :: List.filter (fun k => negb (bool_decide (k = primaryKey))) ks.

Definition AddKey (k : list Z) (ring : list (list Z)) : list (list Z) :=
  if negb (ValidateKey k) then ring
  else if bool_decide (k ∈ ring) then ring
  else installKeys (ring ++ [k])%list (default k (head ring)).

Definition UseKey (k : list Z) (ring : list (list Z)) : list (list Z) :=
  if bool_decide (k ∈ ring) then installKeys ring k else ring.

(** A key is on the ring once; the ring is not empty. *)
Definition RemoveKey (k : list Z) (ring : list (list Z)) : list (list Z) :=
  match ring with
  | [] => []
  | primary :: _ =>
      if bool_decide (k = primary) then ring
      else match list_find (eq k) ring with
           | Some (i, _) => installKeys (delete_at i ring) primary
           | None => ring
           end
  end.

(** [NewKeyring(keys, primaryKey)]; [None] is an error. *)
Definition NewKeyring (ks : list (list Z)) (primaryKey : list Z) : option (list (list Z)) :=
  if (length primaryKey =? 0)%nat then None
  else if forallb ValidateKey (primaryKey :: ks) then Some (foldl (fun r k => AddKey k r) [] (primaryKey :: ks)) else None.

End Keyring.

(** The keys of the gossip database: [nDB.config.Keys], and [nDB.keyring], which is made when
    there are keys. *)
Record gossipKeys := mkGossip { cfgKeys : list (list Z); keyring : option (list (list Z)) }.

Definition SetKey (k : list Z) (g : gossipKeys) : gossipKeys :=
  if bool_decide (k ∈ cfgKeys g) then g
  else mkGossip (cfgKeys g ++ [k]) (option_map (Keyring.AddKey k) (keyring g)).

Definition SetPrimaryKey (k : list Z) (g : gossipKeys) : gossipKeys :=
  if bool_decide (k ∈ cfgKeys g) then mkGossip (cfgKeys g) (option_map (Keyring.UseKey k) (keyring g)) else g.

Definition RemoveKey (k : list Z) (g : gossipKeys) : gossipKeys :=
  match list_find (eq k) (cfgKeys g) with
  | Some (i, _) => mkGossip (delete_at i (cfgKeys g)) (option_map (Keyring.RemoveKey k) (keyring g))
  | None => g
  end.

(** ** The controller *)

Definition byTime (a b : EncryptionKey) : Z := ek_LamportTime a - ek_LamportTime b.

(** [sort.Sort(ByTime(c.keys))] *)
Definition sortByTime (ks : list EncryptionKey) : list EncryptionKey := SortFunc byTime ks.

Definition ofSubsystem (subsys : string) (ks : list EncryptionKey) : list EncryptionKey :=
  List.filter (fun k => String.eqb (ek_Subsystem k) subsys) ks.

(** [getKeys] and [getPrimaryKeyTag] on the keys of the controller, which they sort. *)
Definition swap01 {A} (l : list A) : list A := match l with a :: b :: l => b :: a :: l | _ => l end.

Definition getKeys (subsys : string) (ks : list EncryptionKey) : list (list Z) * list Z :=
  let l := ofSubsystem subsys (sortByTime ks) in
  (swap01 (map ek_Key l), swap01 (map ek_LamportTime l)).

Definition getPrimaryKeyTag (subsys : string) (ks : list EncryptionKey) : option (list Z * Z) :=
  match ofSubsystem subsys (sortByTime ks) with
  | _ :: k :: _ => Some (ek_Key k, ek_LamportTime k)
  | _ => None
  end.

Definition sameKey (a b : EncryptionKey) : bool := ek_LamportTime a =? ek_LamportTime b.

(** What the first loop of [handleKeyChange] finds: the deleted gossip key and the key to
    prune. *)
Record gone := mkGone { g_deleted : list Z; g_prune : option (list Z * Z) }.

Definition noteGone (k : EncryptionKey) (g : gone) : gone :=
  let g := if String.eqb (ek_Subsystem k) subsysGossip then mkGone (ek_Key k) (g_prune g) else g in
  if String.eqb (ek_Subsystem k) subsysIPSec then mkGone (g_deleted g) (Some (ek_Key k, ek_LamportTime k)) else g.

(** [l[i], l[j-1] = l[j-1], l[i]] and dropping the last. *)
Definition swapRemove {A} (i : nat) (l : list A) : list A :=
  match last l with Some z => take (length l - 1) (<[i := z]> l) | None => l end.

(** The first loop; [l] is the part of [c.keys] before [j]. *)
Fixpoint dropLoop (fuel : nat) (ks : list EncryptionKey) (i : nat) (l : list EncryptionKey) (g : gone) : list EncryptionKey * gone :=
  match fuel with
  | O => (l, g)
  | S fuel =>
      match l !! i with
      | None => (l, g)
      | Some cKey => if existsb (sameKey cKey) ks then dropLoop fuel ks (S i) l g
                     else dropLoop fuel ks (S i) (swapRemove i l) (noteGone cKey g)
      end
  end.

(** What the second loop finds: the added gossip key and the key for the driver. *)
Record fresh_ := mkFresh { f_added : list Z; f_key : option (list Z * Z) }.

Definition noteFresh (k : EncryptionKey) (f : fresh_) : fresh_ :=
  let f := if String.eqb (ek_Subsystem k) subsysGossip then mkFresh (ek_Key k) (f_key f) else f in
  if String.eqb (ek_Subsystem k) subsysIPSec then mkFresh (f_added f) (Some (ek_Key k, ek_LamportTime k)) else f.

Definition addLoop (ks l : list EncryptionKey) : list EncryptionKey * fresh_ :=
  foldl (fun '(l, f) k => if existsb (sameKey k) l then (l, f) else ((l ++ [k])%list, noteFresh k f)) (l, mkFresh [] None) ks.

Section Agent.
Context `{Xfrm}.

(** The controller with its agent, present or not, and the overlay driver. *)
Record agent := mkAgent { c_keys : list EncryptionKey; c_gossip : option gossipKeys; c_driver : driver }.

Inductive keyErr := ErrPrimaryKey | ErrSubsystem | ErrKeyCount.

Definition update_of (g : gone) (f : fresh_) (primary : list Z * Z) : DriverEncryptionUpdate :=
  mkEncUpdate (fst <$> f_key f) (default 0 (snd <$> f_key f)) (Some primary.1) primary.2
    (fst <$> g_prune g) (default 0 (snd <$> g_prune g)).

(** What the walk over the drivers does with the one driver here. *)
Definition notifyDriver (u : DriverEncryptionUpdate) (ks : list EncryptionKey) (d : driver) : option driver :=
  match DiscoverNew (EncryptionKeysUpdate u) d with
  | None => None
  | Some (d, false) => Some d
  | Some (d, true) =>
      let '(values, tags) := getKeys subsysIPSec ks in
      fst <$> DiscoverNew (EncryptionKeysConfig (mkEncConfig values tags)) d
  end.

(** [None] is a panic of the driver. *)
Definition handleKeyChange (ks : list EncryptionKey) (c : agent) : option (agent * option keyErr) :=
  match c_gossip c with
  | None => Some (c, None)
  | Some g =>
      let '(l, gn) := dropLoop (length (c_keys c)) ks 0 (c_keys c) (mkGone [] None) in
      let '(l, f) := addLoop ks l in
      let g := if (0 <? length (f_added f))%nat then SetKey (f_added f) g else g in
      let l := sortByTime l in
      match getPrimaryKeyTag subsysGossip l with
      | None => Some (mkAgent l (Some g) (c_driver c), Some ErrPrimaryKey)
      | Some (k, _) =>
          let g := SetPrimaryKey k g in
          match getPrimaryKeyTag subsysIPSec l with
          | None => Some (mkAgent l (Some g) (c_driver c), Some ErrPrimaryKey)
          | Some primary =>
              let g := if (0 <? length (g_deleted gn))%nat then RemoveKey (g_deleted gn) g else g in
              d ← notifyDriver (update_of gn f primary) l (c_driver c);
              Some (mkAgent l (Some g) d, None)
          end
      end
  end.

Definition SetKeys (ks : list EncryptionKey) (c : agent) : option (agent * option keyErr) :=
  if negb (forallb (fun k => String.eqb (ek_Subsystem k) subsysGossip || String.eqb (ek_Subsystem k) subsysIPSec) ks)
  then Some (c, Some ErrSubsystem)
  else if negb (forallb (fun s => let n := length (ofSubsystem s ks) in (n =? 0)%nat || (n =? keyringSize)%nat)
                  [subsysGossip; subsysIPSec])
  then Some (c, Some ErrKeyCount)
  else match c_gossip c with
       | None => Some (mkAgent ks None (c_driver c), None)
       | Some _ => handleKeyChange ks c
       end.

(** The key part of [agentInit] and, for the local node with its addresses, of
    [agentDriverNotify]; [None] when the gossip database cannot be made. *)
Definition agentInit (advAddr bindAddr : Addr) (c : agent) : option agent :=
  let '(gk, _) := getKeys subsysGossip (c_keys c) in
  let '(values, tags) := getKeys subsysIPSec (c_keys c) in
  let config := EncryptionKeysConfig (mkEncConfig values tags) in
  ring ← (match gk with [] => Some None | k :: _ => Some <$> Keyring.NewKeyring gk k end);
  d ← fst <$> DiscoverNew config (c_driver c);
  d ← fst <$> DiscoverNew (NodeDiscovery advAddr bindAddr true) d;
  d ← fst <$> DiscoverNew config d;
  Some (mkAgent (sortByTime (c_keys c)) (Some (mkGossip gk ring)) d).
End Agent.
