(* ===== verification/AgentKeysSpec.v ===== *)
(** * The two loops of a key change

    What [handleKeyChange] finds when the manager has replaced the oldest key of each
    subsystem by a new one, and that sorting by time gives the primary keys. *)

From Stdlib Require Import String.
From S2P Require Import Prelude Slices NetIP OverlayKeys OverlayKeysSpec AgentKeys.
From stdpp Require Import gmap list sorting.

Local Open Scope Z_scope.

(** ** The loop that drops keys *)

Lemma swapRemove_spec {A} (i : nat) (l : list A) x z l0 :
  l = (l0 ++ [z])%list -> l !! i = Some x ->
  swapRemove i l = if bool_decide (i = length l0) then l0 else <[i := z]> l0.
Proof.
  intros -> Hi. unfold swapRemove. rewrite last_snoc, length_app. cbn [length]. rewrite Nat.add_sub.
  assert (Hlen : length (<[i := z]> (l0 ++ [z])) = S (length l0)) by (rewrite length_insert, length_app; cbn; lia).
  apply lookup_lt_Some in Hi. rewrite length_app in Hi. cbn in Hi. case_bool_decide as Hb.
  - subst i. rewrite insert_app_r_alt, Nat.sub_diag by done. cbn. by rewrite take_app_length.
  - rewrite insert_app_l by lia. by rewrite take_app_length' by by rewrite length_insert.
Qed.

Lemma swapRemove_perm {A} (i : nat) (l : list A) x : l !! i = Some x -> l ≡ₚ x :: swapRemove i l.
Proof.
  intros Hi. destruct l as [|z l0 _] using rev_ind; [done|]. rewrite (swapRemove_spec i _ x z l0 eq_refl Hi).
  case_bool_decide as Hb.
  - subst i. rewrite lookup_app_r, Nat.sub_diag in Hi by done. injection Hi as ->. symmetry. apply Permutation_cons_append.
  - apply lookup_lt_Some in Hi as Hlt. rewrite length_app in Hlt. cbn in Hlt. rewrite lookup_app_l in Hi by lia.
    rewrite (insert_take_drop l0 i z) by lia. rewrite <-(take_drop_middle l0 i x) at 1 by done.
    rewrite <-!Permutation_middle, Permutation_app_comm. cbn. apply perm_swap.
Qed.

Section Drop.
Context (ks : list EncryptionKey).

Definition stale (k : EncryptionKey) : bool := negb (existsb (sameKey k) ks).

(** Passing what stays. *)
Lemma dropLoop_keep fuel i l g n :
  (forall j k, (i <= j < i + n)%nat -> l !! j = Some k -> stale k = false) -> (i + n <= length l)%nat -> (n <= fuel)%nat ->
  dropLoop fuel ks i l g = dropLoop (fuel - n) ks (i + n) l g.
Proof.
  revert fuel i. induction n as [|n IH]; intros fuel i Hk Hlen Hf; [by rewrite Nat.sub_0_r, Nat.add_0_r|].
  destruct fuel as [|fuel]; [lia|]. cbn [dropLoop]. destruct (lookup_lt_is_Some_2 l i) as [k Hi]; [lia|]. rewrite Hi.
  specialize (Hk i k (ltac:(lia)) Hi) as Hs. unfold stale in Hs. apply negb_false_iff in Hs. rewrite Hs.
  rewrite IH; [|intros j k' Hj; apply Hk; lia|lia|lia]. f_equal; lia.
Qed.

Lemma dropLoop_end fuel l g : dropLoop fuel ks (length l) l g = (l, g).
Proof. destruct fuel; cbn; [done|]. by rewrite lookup_ge_None_2. Qed.

(** Without stale keys nothing changes. *)
Lemma dropLoop_none fuel i l g :
  (length l <= i + fuel)%nat -> (forall j k, (i <= j)%nat -> l !! j = Some k -> stale k = false) ->
  dropLoop fuel ks i l g = (l, g).
Proof.
  intros Hf Hk. destruct (decide (i <= length l)%nat) as [Hi|Hi].
  2: { destruct fuel; cbn; [done|]. by rewrite lookup_ge_None_2 by lia. }
  rewrite (dropLoop_keep fuel i l g (length l - i)); [|intros j k [? _]; by apply Hk|lia|lia].
  replace (i + (length l - i))%nat with (length l) by lia. apply dropLoop_end.
Qed.

(** The first stale key is removed; what comes in its place is not looked at. *)
Lemma dropLoop_first fuel i l g p k :
  (i <= p)%nat -> l !! p = Some k -> stale k = true -> (forall j k, (i <= j < p)%nat -> l !! j = Some k -> stale k = false) ->
  (p < i + fuel)%nat ->
  dropLoop fuel ks i l g = dropLoop (fuel - (p - i) - 1) ks (S p) (swapRemove p l) (noteGone k g).
Proof.
  intros Hip Hp Hs Hk Hf. apply lookup_lt_Some in Hp as Hlt.
  rewrite (dropLoop_keep fuel i l g (p - i)); [|intros j k' Hj; apply Hk; lia|lia|lia].
  replace (i + (p - i))%nat with p by lia. destruct (fuel - (p - i))%nat as [|f] eqn:E; [lia|]. cbn [dropLoop]. rewrite Hp.
  unfold stale in Hs. apply negb_true_iff in Hs. rewrite Hs. f_equal. lia.
Qed.

(** Two stale keys, the last key not among them: both are removed. *)
Lemma dropLoop_two l g p q a b z :
  (p < q)%nat -> l !! p = Some a -> l !! q = Some b -> stale a = true -> stale b = true -> NoDup l ->
  (forall k, k ∈ l -> stale k = true -> k = a \/ k = b) -> last l = Some z -> stale z = false ->
  exists l', dropLoop (length l) ks 0 l g = (l', noteGone b (noteGone a g)) /\ l ≡ₚ a :: b :: l'.
Proof.
  intros Hpq Hp Hq Ha Hb Hnd Honly Hl Hz.
  assert (Hkeep : forall j k, l !! j = Some k -> j <> p -> j <> q -> stale k = false).
  { intros j k Hj Hjp Hjq. destruct (stale k) eqn:E; [|done]. exfalso.
    destruct (Honly k (list_elem_of_lookup_2 _ _ _ Hj) E) as [-> | ->]; [apply Hjp|apply Hjq]; by eapply NoDup_lookup. }
  destruct l as [|z' l0 _] using rev_ind; [done|]. rewrite last_snoc in Hl. injection Hl as ->.
  assert (Hq0 : (q < length l0)%nat).
  { apply lookup_lt_Some in Hq as Hql. rewrite length_app in Hql. cbn in Hql.
    destruct (decide (q = length l0)) as [->|]; [|lia]. rewrite lookup_app_r, Nat.sub_diag in Hq by done. injection Hq as ->. congruence. }
  assert (Hlen : length (l0 ++ [z]) = S (length l0)) by (rewrite length_app; cbn; lia). rewrite Hlen.
  rewrite (dropLoop_first _ 0 _ g p a); [|lia|done|done|intros j k Hj Hk; apply (Hkeep j k Hk); lia|lia].
  pose proof (swapRemove_perm p _ a Hp) as Hperm1.
  rewrite (swapRemove_spec p _ a z l0) in Hperm1 |- * by done. rewrite bool_decide_eq_false_2 in Hperm1 |- * by lia.
  assert (Hl1 : forall j, j <> p -> <[p := z]> l0 !! j = l0 !! j) by (intros; by apply list_lookup_insert_ne).
  assert (Hq1 : <[p := z]> l0 !! q = Some b) by (rewrite Hl1 by lia; by rewrite lookup_app_l in Hq by lia).
  rewrite (dropLoop_first _ (S p) _ _ q b); [|lia|done|done| |lia].
  2: { intros j k Hj Hk. rewrite Hl1 in Hk by lia. apply (Hkeep j k); [by apply lookup_app_l_Some|lia|lia]. }
  pose proof (swapRemove_perm q _ b Hq1) as Hperm2. set (l2 := swapRemove q (<[p := z]> l0)) in *.
  assert (Hall : l0 ++ [z] ≡ₚ a :: b :: l2) by by rewrite Hperm1, Hperm2.
  exists l2. split; [|done]. apply Permutation_length in Hall as Hlen2. rewrite Hlen in Hlen2. cbn in Hlen2.
  apply dropLoop_none; [lia|]. intros j k _ Hj. apply list_elem_of_lookup_2 in Hj.
  rewrite Hall in Hnd. apply NoDup_cons in Hnd as [Hna Hnd]. apply NoDup_cons in Hnd as [Hnb _].
  destruct (stale k) eqn:E; [|done]. exfalso.
  destruct (Honly k) as [-> | ->]; [rewrite Hall; by do 2 apply list_elem_of_further|done| |done].
  apply Hna. by apply list_elem_of_further.
Qed.
End Drop.

(** ** The loop that adds keys *)

Definition missing (l : list EncryptionKey) (k : EncryptionKey) : bool := negb (existsb (sameKey k) l).

Lemma existsb_sameKey k l : existsb (sameKey k) l = true <-> ek_LamportTime k ∈ map ek_LamportTime l.
Proof.
  rewrite existsb_exists, list_elem_of_fmap. unfold sameKey. split.
  - intros (x & Hx & E%Z.eqb_eq). exists x. split; [done|]. by apply list_elem_of_In.
  - intros (x & E & Hx). exists x. split; [by apply list_elem_of_In|]. by apply Z.eqb_eq.
Qed.

Lemma addLoop_eq ks l :
  NoDup (map ek_LamportTime ks) ->
  addLoop ks l = ((l ++ List.filter (missing l) ks)%list, foldl (fun f k => noteFresh k f) (mkFresh [] None) (List.filter (missing l) ks)).
Proof.
  unfold addLoop. generalize (mkFresh [] None). revert l. induction ks as [|k ks IH]; intros l f Hnd; cbn [foldl List.filter].
  - by rewrite app_nil_r.
  - cbn in Hnd. apply NoDup_cons in Hnd as [Hk Hnd]. assert (Em : missing l k = negb (existsb (sameKey k) l)) by done.
    rewrite Em. destruct (existsb (sameKey k) l) eqn:E; cbn [negb].
    + by rewrite IH by done.
    + rewrite IH by done. assert (Ef : List.filter (missing (l ++ [k])) ks = List.filter (missing l) ks).
      { apply List.filter_ext_in. intros k' Hk'. unfold missing. f_equal. rewrite existsb_app. cbn.
        replace (sameKey k' k) with false; [by rewrite !orb_false_r|]. symmetry. apply Z.eqb_neq. intros E'.
        apply Hk. rewrite <-E'. apply list_elem_of_fmap_2. by apply list_elem_of_In. }
      rewrite Ef. cbn [foldl]. by rewrite <-app_assoc.
Qed.

(** ** Sorting *)

Lemma StronglySorted_filter {A} (R : A -> A -> Prop) (f : A -> bool) l : StronglySorted R l -> StronglySorted R (List.filter f l).
Proof.
  induction 1 as [|x l Hs IH Hx]; cbn; [constructor|]. destruct (f x); [|done]. constructor; [done|].
  rewrite List.Forall_forall in *. intros y [Hy _]%List.filter_In. by apply Hx.
Qed.

Lemma filter_perm {A} (f : A -> bool) l l' : l ≡ₚ l' -> List.filter f l ≡ₚ List.filter f l'.
Proof.
  induction 1 as [|x l l' _ IH|x y l|l l' l'' _ IH1 _ IH2]; cbn; [done| | |by etrans].
  - destruct (f x); by rewrite IH.
  - destruct (f x), (f y); try done. apply perm_swap.
Qed.

Definition before (a b : EncryptionKey) : Prop := ek_LamportTime a <= ek_LamportTime b.
Definition strictly (a b : EncryptionKey) : Prop := ek_LamportTime a < ek_LamportTime b.

Lemma sortByTime_sorted l : StronglySorted before (sortByTime l).
Proof.
  apply SortFunc_sorted; unfold before, byTime; try lia. intros a b c. unfold before. lia.
Qed.

Lemma sortByTime_perm l : sortByTime l ≡ₚ l.
Proof. apply SortFunc_perm. Qed.

Lemma strictly_inj l a b : StronglySorted strictly l -> a ∈ l -> b ∈ l -> ek_LamportTime a = ek_LamportTime b -> a = b.
Proof.
  induction 1 as [|x l Hs IH Hx]; intros Ha Hb E; [inversion Ha|]. rewrite List.Forall_forall in Hx. unfold strictly in Hx.
  apply elem_of_cons in Ha as [->|Ha], Hb as [->|Hb]; [done| | |auto].
  - apply list_elem_of_In, Hx in Hb. lia.
  - apply list_elem_of_In, Hx in Ha. lia.
Qed.

(** The keys of a subsystem, in the order of time. *)
Lemma ofSubsystem_sorted subsys l L :
  ofSubsystem subsys l ≡ₚ L -> StronglySorted strictly L -> ofSubsystem subsys (sortByTime l) = L.
Proof.
  intros Hp Hs.
  assert (Hperm : ofSubsystem subsys (sortByTime l) ≡ₚ L) by (rewrite <-Hp; apply filter_perm, sortByTime_perm).
  apply (StronglySorted_unique_strong before); [|apply StronglySorted_filter, sortByTime_sorted| |done].
  - intros a b Ha Hb H1 H2. rewrite Hperm in Ha. unfold before in *. apply (strictly_inj L); try done. lia.
  - clear -Hs. induction Hs as [|x l Hs IH Hx]; constructor; [done|]. eapply List.Forall_impl; [|exact Hx].
    unfold strictly, before. intros. lia.
Qed.

(** ** The key ring *)

Lemma filter_all {A} (f : A -> bool) l : (forall x, x ∈ l -> f x = true) -> List.filter f l = l.
Proof.
  induction l as [|x l IH]; intros Hf; cbn; [done|]. rewrite (Hf x) by by apply list_elem_of_here.
  f_equal. apply IH. intros y Hy. apply Hf. by apply list_elem_of_further.
Qed.

(** Making a key of the ring the primary one reorders the ring. *)
Lemma installKeys_perm ks p : NoDup ks -> p ∈ ks -> Keyring.installKeys ks p ≡ₚ ks.
Proof.
  unfold Keyring.installKeys. intros Hnd Hp. apply elem_of_Permutation in Hp as [l Hl]. pose proof Hl as Hf.
  apply (filter_perm (fun k => negb (bool_decide (k = p)))) in Hf. rewrite Hf, Hl. cbn. rewrite bool_decide_eq_true_2 by done. cbn.
  rewrite Hl in Hnd. apply NoDup_cons in Hnd as [Hn _]. rewrite filter_all; [done|]. intros x Hx.
  rewrite bool_decide_eq_false_2; [done|]. intros ->. done.
Qed.

Lemma AddKey_perm k ring p : Keyring.ValidateKey k = true -> k ∉ ring -> NoDup ring -> head ring = Some p ->
  Keyring.AddKey k ring ≡ₚ k :: ring /\ head (Keyring.AddKey k ring) = Some p.
Proof.
  intros Hv Hk Hnd Hp. unfold Keyring.AddKey. rewrite Hv, (bool_decide_eq_false_2 (k ∈ ring)), Hp by done. split; [|done]. cbn [default from_option negb].
  rewrite installKeys_perm; [by rewrite Permutation_app_comm| |].
  - apply NoDup_app. split_and!; [done| |apply NoDup_singleton]. intros x Hx ->%list_elem_of_singleton. done.
  - apply elem_of_app. left. by apply head_Some_elem_of.
Qed.

Lemma AddKey_known k ring : k ∈ ring -> Keyring.AddKey k ring = ring.
Proof. intros Hk. unfold Keyring.AddKey. rewrite (bool_decide_eq_true_2 _ Hk). by destruct (negb _). Qed.

Lemma AddKey_first k : Keyring.ValidateKey k = true -> Keyring.AddKey k [] = [k].
Proof.
  intros Hv. unfold Keyring.AddKey. rewrite Hv, bool_decide_eq_false_2 by by intros E; inversion E.
  unfold Keyring.installKeys. cbn. by rewrite bool_decide_eq_true_2.
Qed.

Lemma UseKey_perm k ring : NoDup ring -> k ∈ ring -> Keyring.UseKey k ring ≡ₚ ring /\ head (Keyring.UseKey k ring) = Some k.
Proof. intros Hnd Hk. unfold Keyring.UseKey. rewrite bool_decide_eq_true_2 by done. split; [by apply installKeys_perm|done]. Qed.

Lemma list_find_elem {A} `{EqDecision A} (k : A) l : k ∈ l -> exists i, list_find (eq k) l = Some (i, k) /\ l ≡ₚ k :: delete_at i l.
Proof.
  intros Hk. destruct (list_find_elem_of (eq k) l k Hk eq_refl) as [[i y] E]. rewrite E.
  apply list_find_Some in E as (Hi & <- & _). exists i. split; [done|]. symmetry. by apply delete_at_perm.
Qed.

Lemma RemoveKey_perm k ring p : NoDup ring -> head ring = Some p -> k <> p -> k ∈ ring ->
  ring ≡ₚ k :: Keyring.RemoveKey k ring /\ head (Keyring.RemoveKey k ring) = Some p.
Proof.
  intros Hnd Hp Hkp Hk. unfold Keyring.RemoveKey. destruct ring as [|p' ring]; [done|]. injection Hp as ->.
  rewrite bool_decide_eq_false_2 by done. destruct (list_find_elem k (p :: ring) Hk) as (i & -> & Hperm). split; [|done].
  rewrite Hperm at 1. rewrite Hperm in Hnd. apply NoDup_cons in Hnd as [_ Hnd].
  rewrite installKeys_perm; [done|done|]. assert (Hin : p ∈ k :: delete_at i (p :: ring)) by (rewrite <-Hperm; by apply list_elem_of_here).
  by apply elem_of_cons in Hin as [->|?].
Qed.

(** The gossip database with keys [ks] of which [p] is the primary one. *)
Definition gossips (g : gossipKeys) (ks : list (list Z)) (p : list Z) : Prop :=
  cfgKeys g ≡ₚ ks /\ exists l, keyring g = Some l /\ l ≡ₚ ks /\ head l = Some p.

Lemma SetKey_gossips g ks p k : gossips g ks p -> NoDup ks -> Keyring.ValidateKey k = true -> k ∉ ks -> gossips (SetKey k g) (k :: ks) p.
Proof.
  intros (Hc & l & Hl & Hp & Hh) Hnd Hv Hk. unfold SetKey. rewrite (bool_decide_eq_false_2 (k ∈ cfgKeys g)) by by rewrite Hc.
  split; cbn; [by rewrite Hc, Permutation_app_comm|]. rewrite Hl. eexists. split; [done|].
  destruct (AddKey_perm k l p Hv) as [H1 H2]; [by rewrite Hp|by rewrite Hp|done|]. split; [by rewrite H1, Hp|done].
Qed.

Lemma SetPrimaryKey_gossips g ks p k : gossips g ks p -> NoDup ks -> k ∈ ks -> gossips (SetPrimaryKey k g) ks k.
Proof.
  intros (Hc & l & Hl & Hp & Hh) Hnd Hk. unfold SetPrimaryKey. rewrite bool_decide_eq_true_2 by by rewrite Hc.
  split; cbn; [done|]. rewrite Hl. eexists. split; [done|]. destruct (UseKey_perm k l) as [H1 H2]; [by rewrite Hp..|].
  split; [by rewrite H1|done].
Qed.

Lemma RemoveKey_gossips g ks p k : gossips g (k :: ks) p -> NoDup (k :: ks) -> k <> p -> gossips (RemoveKey k g) ks p.
Proof.
  intros (Hc & l & Hl & Hp & Hh) Hnd Hk. unfold RemoveKey.
  destruct (list_find_elem k (cfgKeys g)) as (i & -> & Hperm); [rewrite Hc; by apply list_elem_of_here|].
  split; cbn; [apply (Permutation_cons_inv (a := k)); by rewrite <-Hperm|]. rewrite Hl. eexists. split; [done|].
  destruct (RemoveKey_perm k l p) as [H1 H2]; [by rewrite Hp|done|done|rewrite Hp; by apply list_elem_of_here|].
  split; [|done]. apply (Permutation_cons_inv (a := k)). by rewrite <-H1.
Qed.
