(* ===== verification/AgentKeysSteps.v ===== *)
(** * Following the manager's keys

    The manager's history of keys: one gossip key and one key of the data plane after the
    other.  At version [v] it distributes three of each, from the [v]th on.  An agent that has
    been told of version [v] ([follows]) is brought to the next one by the next set. *)

From Stdlib Require Import String.
From S2P Require Import Prelude Slices NetIP OverlayKeys OverlayKeysSpec AgentKeys AgentKeysSpec.
From stdpp Require Import gmap list sorting.

Local Open Scope Z_scope.

Section History.
Context `{HX : Xfrm}.
Context (gk ik : nat -> EncryptionKey).

(** The last key of the data plane whose time fits the 32 bits of a tag. *)
Context (N : nat).

Record history : Prop := {
  h_gossip i : ek_Subsystem (gk i) = subsysGossip;
  h_ipsec i : ek_Subsystem (ik i) = subsysIPSec;
  h_gt i : ek_LamportTime (gk i) < ek_LamportTime (gk (S i));
  h_it i : ek_LamportTime (ik i) < ek_LamportTime (ik (S i));
  h_apart i j : ek_LamportTime (gk i) <> ek_LamportTime (ik j);
  h_tag i : (i <= N)%nat -> 0 <= ek_LamportTime (ik i) < 2 ^ 32;
  h_valid i : Keyring.ValidateKey (ek_Key (gk i)) = true;
  h_inj i j : ek_Key (gk i) = ek_Key (gk j) -> i = j }.

Context (Hh : history).

Definition window (f : nat -> EncryptionKey) (v : nat) : list EncryptionKey := [f v; f (S v); f (S (S v))].
Definition ring (v : nat) : list EncryptionKey := window gk v ++ window ik v.

Definition ipKey (k : EncryptionKey) : key := keyOf (ek_Key k) (ek_LamportTime k).

(** ** Times *)

Lemma g_mono i j : (i < j)%nat -> ek_LamportTime (gk i) < ek_LamportTime (gk j).
Proof. induction 1 as [|j Hj IH]; [apply (h_gt Hh)|]. etrans; [exact IH|apply (h_gt Hh)]. Qed.
Lemma i_mono i j : (i < j)%nat -> ek_LamportTime (ik i) < ek_LamportTime (ik j).
Proof. induction 1 as [|j Hj IH]; [apply (h_it Hh)|]. etrans; [exact IH|apply (h_it Hh)]. Qed.

Lemma g_time i j : ek_LamportTime (gk i) = ek_LamportTime (gk j) -> i = j.
Proof.
  intros E. destruct (Nat.lt_trichotomy i j) as [Hl|[?|Hl]]; [apply g_mono in Hl; lia|done|apply g_mono in Hl; lia].
Qed.
Lemma i_time i j : ek_LamportTime (ik i) = ek_LamportTime (ik j) -> i = j.
Proof.
  intros E. destruct (Nat.lt_trichotomy i j) as [Hl|[?|Hl]]; [apply i_mono in Hl; lia|done|apply i_mono in Hl; lia].
Qed.

Lemma window_sorted f v : (forall i, ek_LamportTime (f i) < ek_LamportTime (f (S i))) -> StronglySorted strictly (window f v).
Proof.
  intros Hf. pose proof (Hf v). pose proof (Hf (S v)). unfold strictly. repeat constructor; lia.
Qed.

Lemma elem_of_window f v k : k ∈ window f v <-> k = f v \/ k = f (S v) \/ k = f (S (S v)).
Proof. unfold window. rewrite !elem_of_cons, elem_of_nil. naive_solver. Qed.

Lemma elem_of_ring v k :
  k ∈ ring v <-> exists i, (v <= i <= S (S v))%nat /\ (k = gk i \/ k = ik i).
Proof.
  unfold ring. rewrite elem_of_app, !elem_of_window. split.
  - intros [[->|[->| ->]]|[->|[->| ->]]]; eexists; (split; [|by auto]); lia.
  - intros (i & Hi & Hk). assert (i = v \/ i = S v \/ i = S (S v)) as [->|[->| ->]] by lia; naive_solver.
Qed.

(** A key of the history is recognised by its time. *)
Lemma has_time_g v i : existsb (sameKey (gk i)) (ring v) = bool_decide (v <= i <= S (S v))%nat.
Proof.
  apply eq_bool_prop_intro. rewrite !Is_true_true, bool_decide_eq_true, existsb_sameKey, list_elem_of_fmap. split.
  - intros (k & E & (j & Hj & [->| ->])%elem_of_ring); [by apply g_time in E as ->|by destruct (h_apart Hh i j)].
  - intros Hi. exists (gk i). split; [done|]. apply elem_of_ring. eauto.
Qed.
Lemma has_time_i v i : existsb (sameKey (ik i)) (ring v) = bool_decide (v <= i <= S (S v))%nat.
Proof.
  apply eq_bool_prop_intro. rewrite !Is_true_true, bool_decide_eq_true, existsb_sameKey, list_elem_of_fmap. split.
  - intros (k & E & (j & Hj & [->| ->])%elem_of_ring); [by destruct (h_apart Hh j i)|by apply i_time in E as ->].
  - intros Hi. exists (ik i). split; [done|]. apply elem_of_ring. eauto.
Qed.

Lemma existsb_perm k l l' : l ≡ₚ l' -> existsb (sameKey k) l = existsb (sameKey k) l'.
Proof. intros Hp. apply eq_bool_prop_intro. rewrite !Is_true_true, !existsb_sameKey. by rewrite Hp. Qed.

Lemma ring_times v : NoDup (map ek_LamportTime (ring v)).
Proof.
  pose proof (h_apart Hh) as Ha. pose proof (h_gt Hh) as Hg. pose proof (h_it Hh) as Hi. unfold ring, window. cbn.
  pose proof (Hg v). pose proof (Hg (S v)). pose proof (Hi v). pose proof (Hi (S v)).
  repeat (apply NoDup_cons; split; [rewrite ?elem_of_cons, ?elem_of_nil; intros E; repeat destruct E as [E|E]; try lia; by eapply Ha|]).
  apply NoDup_nil_2.
Qed.

Lemma ring_nodup v : NoDup (ring v).
Proof. eapply NoDup_fmap_1, ring_times. Qed.

(** ** What the loops find *)

Lemma stale_ring v ks k : ks ≡ₚ ring (S v) -> k ∈ ring v -> stale ks k = true <-> k = gk v \/ k = ik v.
Proof.
  intros Hks (i & Hi & Hk)%elem_of_ring. unfold stale. rewrite (existsb_perm k ks _ Hks), negb_true_iff.
  destruct Hk as [->| ->]; rewrite ?has_time_g, ?has_time_i, bool_decide_eq_false; split.
  - intros Hn. left. f_equal. lia.
  - intros [E|E]; apply (f_equal ek_LamportTime) in E; [apply g_time in E; lia|by apply (h_apart Hh) in E].
  - intros Hn. right. f_equal. lia.
  - intros [E|E]; apply (f_equal ek_LamportTime) in E; [symmetry in E; by apply (h_apart Hh) in E|apply i_time in E; lia].
Qed.

(** The last of the sorted keys is not one of the oldest. *)
Lemma last_ring v l z : l ≡ₚ ring v -> StronglySorted before l -> last l = Some z -> z ∈ l /\ z <> gk v /\ z <> ik v.
Proof.
  intros Hl Hs Ez. assert (Hz : z ∈ l) by by apply last_Some_elem_of.
  assert (Hmax : forall k, k ∈ ring v -> ek_LamportTime k <= ek_LamportTime z).
  { intros k. rewrite <-Hl. intros Hk. apply last_Some in Ez as [l0 ->]. apply elem_of_app in Hk as [Hk| ->%list_elem_of_singleton]; [|lia].
    apply StronglySorted_app in Hs as (Hb & _ & _). apply (Hb k z); [done|by apply list_elem_of_here]. }
  split_and!; [done| |]; intros ->.
  - pose proof (h_gt Hh v). specialize (Hmax (gk (S v)) (ltac:(apply elem_of_ring; exists (S v); split; [lia|by left]))). lia.
  - pose proof (h_it Hh v). specialize (Hmax (ik (S v)) (ltac:(apply elem_of_ring; exists (S v); split; [lia|by right]))). lia.
Qed.

Lemma note_g v g f :
  noteGone (gk v) g = mkGone (ek_Key (gk v)) (g_prune g) /\ noteFresh (gk v) f = mkFresh (ek_Key (gk v)) (f_key f).
Proof. unfold noteGone, noteFresh. by rewrite (h_gossip Hh). Qed.

Lemma note_i v g f :
  noteGone (ik v) g = mkGone (g_deleted g) (Some (ek_Key (ik v), ek_LamportTime (ik v))) /\
  noteFresh (ik v) f = mkFresh (f_added f) (Some (ek_Key (ik v), ek_LamportTime (ik v))).
Proof. unfold noteGone, noteFresh. by rewrite (h_ipsec Hh). Qed.

Lemma drop_ring v ks l :
  l ≡ₚ ring v -> StronglySorted before l -> ks ≡ₚ ring (S v) ->
  exists l', dropLoop (length l) ks 0 l (mkGone [] None)
      = (l', mkGone (ek_Key (gk v)) (Some (ek_Key (ik v), ek_LamportTime (ik v)))) /\
    l' ≡ₚ [gk (S v); gk (S (S v)); ik (S v); ik (S (S v))].
Proof.
  intros Hl Hs Hks.
  assert (Hstale : forall k, k ∈ l -> stale ks k = true <-> k = gk v \/ k = ik v) by (intros k; rewrite Hl; by apply stale_ring).
  assert (Hg : gk v ∈ l) by (rewrite Hl; apply elem_of_ring; exists v; split; [lia|by left]).
  assert (Hi : ik v ∈ l) by (rewrite Hl; apply elem_of_ring; exists v; split; [lia|by right]).
  assert (Hnd : NoDup l) by (rewrite Hl; apply ring_nodup).
  assert (Hsg : stale ks (gk v) = true) by (apply Hstale; auto). assert (Hsi : stale ks (ik v) = true) by (apply Hstale; auto).
  destruct (last l) as [z|] eqn:Ez; [|by apply last_None in Ez as ->; inversion Hg].
  destruct (last_ring v l z Hl Hs Ez) as (Hzin & Hz1 & Hz2).
  assert (Hz : stale ks z = false) by (apply not_true_iff_false; rewrite Hstale by done; naive_solver).
  apply list_elem_of_lookup in Hg as [p Hp], Hi as [q Hq].
  assert (Hpq : p <> q).
  { intros ->. rewrite Hp in Hq. injection Hq as E. apply (f_equal ek_LamportTime) in E. by apply (h_apart Hh) in E. }
  assert (Hcase : exists l', dropLoop (length l) ks 0 l (mkGone [] None)
      = (l', mkGone (ek_Key (gk v)) (Some (ek_Key (ik v), ek_LamportTime (ik v)))) /\ l ≡ₚ gk v :: ik v :: l').
  { destruct (decide (p < q)%nat) as [Hlt|Hlt].
    - destruct (dropLoop_two ks l (mkGone [] None) p q (gk v) (ik v) z) as (l' & E & Hperm); try done.
      { intros k Hk. by rewrite Hstale. }
      exists l'. split; [|done]. by rewrite E, (proj1 (note_i v _ (mkFresh [] None))), (proj1 (note_g v _ (mkFresh [] None))).
    - destruct (dropLoop_two ks l (mkGone [] None) q p (ik v) (gk v) z) as (l' & E & Hperm); try done; [lia| |].
      { intros k Hk. rewrite Hstale by done. naive_solver. }
      exists l'. split; [|rewrite Hperm; apply perm_swap]. by rewrite E, (proj1 (note_g v _ (mkFresh [] None))), (proj1 (note_i v _ (mkFresh [] None))). }
  destruct Hcase as (l' & E & Hperm). exists l'. split; [done|].
  apply (Permutation_cons_inv (a := ik v)), (Permutation_cons_inv (a := gk v)). rewrite <-Hperm, Hl.
  unfold ring, window. cbn. apply perm_skip. symmetry. apply (Permutation_middle [gk (S v); gk (S (S v))] [ik (S v); ik (S (S v))]).
Qed.

Lemma add_ring v ks l' :
  ks ≡ₚ ring (S v) -> l' ≡ₚ [gk (S v); gk (S (S v)); ik (S v); ik (S (S v))] ->
  exists l, addLoop ks l' = (l, mkFresh (ek_Key (gk (S (S (S v))))) (Some (ek_Key (ik (S (S (S v)))), ek_LamportTime (ik (S (S (S v)))))))
    /\ l ≡ₚ ring (S v).
Proof.
  intros Hks Hl. rewrite addLoop_eq by (rewrite Hks; apply ring_times).
  set (g3 := gk (S (S (S v)))). set (i3 := ik (S (S (S v)))).
  assert (Hm : List.filter (missing l') (ring (S v)) = [g3; i3]).
  { assert (Hin : forall k, k ∈ l' -> missing l' k = false).
    { intros k Hk. unfold missing. apply negb_false_iff, existsb_sameKey. by apply list_elem_of_fmap_2. }
    assert (Hg3 : missing l' g3 = true).
    { unfold missing. rewrite (existsb_perm _ _ _ Hl). apply negb_true_iff, not_true_iff_false. rewrite existsb_sameKey. cbn.
      rewrite !elem_of_cons, elem_of_nil. unfold g3. intros E. repeat destruct E as [E|E]; try done;
        try (apply g_time in E; lia); by apply (h_apart Hh) in E. }
    assert (Hi3 : missing l' i3 = true).
    { unfold missing. rewrite (existsb_perm _ _ _ Hl). apply negb_true_iff, not_true_iff_false. rewrite existsb_sameKey. cbn.
      rewrite !elem_of_cons, elem_of_nil. unfold i3. intros E. repeat destruct E as [E|E]; try done;
        try (apply i_time in E; lia); symmetry in E; by apply (h_apart Hh) in E. }
    assert (H4 : forall k, k ∈ [gk (S v); gk (S (S v)); ik (S v); ik (S (S v))] -> missing l' k = false) by (intros k; rewrite <-Hl; auto).
    unfold ring, window. cbn [List.filter app]. fold g3 i3. rewrite Hg3, Hi3.
    rewrite !H4 by (rewrite !elem_of_cons; auto). done. }
  pose proof (filter_perm (missing l') _ _ Hks) as Hp. rewrite Hm in Hp.
  assert (Hring : l' ++ [g3; i3] ≡ₚ ring (S v)).
  { rewrite Hl. unfold ring, window. cbn. do 2 apply perm_skip. fold g3 i3.
    symmetry. apply (Permutation_middle [ik (S v); ik (S (S v))] [i3]). }
  symmetry in Hp. apply Permutation_length_2_inv in Hp as [-> | ->]; cbn [foldl]; unfold g3, i3 in Hring |- *.
  - rewrite (proj2 (note_g _ (mkGone [] None) _)), (proj2 (note_i _ (mkGone [] None) _)). eexists. split; [done|]. done.
  - rewrite (proj2 (note_i _ (mkGone [] None) _)), (proj2 (note_g _ (mkGone [] None) _)). eexists. split; [done|].
    rewrite <-Hring. apply Permutation_app_head, perm_swap.
Qed.
(** ** An agent in step *)

Record follows (v : nat) (c : agent) : Prop := {
  fo_keys : c_keys c ≡ₚ ring v;
  fo_sorted : StronglySorted before (c_keys c);
  fo_gossip : exists g, c_gossip c = Some g /\ gossips g (map ek_Key (window gk v)) (ek_Key (gk (S v)));
  fo_driver : keys (c_driver c) ≡ₚ map ipKey (window ik v);
  fo_primary : head (keys (c_driver c)) = Some (ipKey (ik (S v)));
  fo_aligned : aligned (c_driver c) }.

Lemma ip_tag i j : (i <= N)%nat -> (j <= N)%nat -> k_tag (ipKey (ik i)) = k_tag (ipKey (ik j)) -> i = j.
Proof.
  intros Hi Hj. unfold ipKey, keyOf. cbn. pose proof (h_tag Hh i Hi). pose proof (h_tag Hh j Hj). unfold wrap32.
  rewrite !Z.mod_small by done. apply i_time.
Qed.

Lemma window_tags v : (v + 3 <= N)%nat -> NoDup (map k_tag (map ipKey [ik v; ik (S v); ik (S (S v)); ik (S (S (S v)))])).
Proof.
  intros HN. cbn [map]. repeat (apply NoDup_cons; split; [rewrite ?elem_of_cons, ?elem_of_nil; intros E;
    repeat destruct E as [E|E]; try done; apply ip_tag in E; lia|]). apply NoDup_nil_2.
Qed.

Lemma gossip_nodup v : NoDup (map ek_Key [gk v; gk (S v); gk (S (S v)); gk (S (S (S v)))]).
Proof.
  cbn [map]. repeat (apply NoDup_cons; split; [rewrite ?elem_of_cons, ?elem_of_nil; intros E; repeat destruct E as [E|E]; try done;
    apply (h_inj Hh) in E; lia|]). apply NoDup_nil_2.
Qed.

(** The update that a rotation gives the driver is accepted. *)
Lemma rotation_acceptable v (ks : list key) :
  (v + 3 <= N)%nat -> ks ≡ₚ map ipKey (window ik v) -> head ks = Some (ipKey (ik (S v))) ->
  acceptable ks (Some (ipKey (ik (S (S (S v)))))) (Some (ipKey (ik (S (S v))))) (Some (ipKey (ik v))).
Proof.
  intros HN Hks Hp. assert (Hk : ks ++ [ipKey (ik (S (S (S v))))] ≡ₚ map ipKey [ik v; ik (S v); ik (S (S v)); ik (S (S (S v)))]).
  { rewrite Hks. done. }
  split; cbn [option_list].
  - rewrite Hk. by apply window_tags.
  - intros k [= <-]. rewrite Hk. cbn. rewrite !elem_of_cons. auto.
  - intros k [= <-]. rewrite Hk. cbn. rewrite !elem_of_cons. auto.
  - intros k [= <-] E. assert (E' : ipKey (ik (S (S v))) = ipKey (ik v)) by congruence.
    apply (f_equal k_tag), ip_tag in E'; lia.
  - done.
Qed.

(** The gossip keys of a rotation. *)
Lemma rotation_gossips v g :
  gossips g (map ek_Key (window gk v)) (ek_Key (gk (S v))) ->
  gossips (RemoveKey (ek_Key (gk v)) (SetPrimaryKey (ek_Key (gk (S (S v)))) (SetKey (ek_Key (gk (S (S (S v))))) g)))
    (map ek_Key (window gk (S v))) (ek_Key (gk (S (S v)))).
Proof.
  intros Hg. pose proof (gossip_nodup v) as Hnd. cbn [map] in Hnd.
  set (a := ek_Key (gk v)) in *. set (b := ek_Key (gk (S v))) in *. set (c := ek_Key (gk (S (S v)))) in *. set (d := ek_Key (gk (S (S (S v))))) in *.
  change (map ek_Key (window gk v)) with [a; b; c] in Hg. change (map ek_Key (window gk (S v))) with [b; c; d].
  assert (Hnd' : NoDup (d :: [a; b; c])) by (by rewrite (Permutation_cons_append [a; b; c] d)).
  pose proof Hnd' as [Hd Habc]%NoDup_cons.
  pose proof (SetKey_gossips g [a; b; c] b d Hg Habc (h_valid Hh _) Hd) as H1.
  assert (Hc : c ∈ d :: [a; b; c]) by (rewrite !elem_of_cons; auto).
  pose proof (SetPrimaryKey_gossips _ _ _ c H1 Hnd' Hc) as H2.
  assert (Hperm : d :: [a; b; c] ≡ₚ a :: [b; c; d]) by (rewrite (Permutation_cons_append [a; b; c] d); done).
  assert (H3 : gossips (SetPrimaryKey c (SetKey d g)) (a :: [b; c; d]) c).
  { destruct H2 as (E1 & l & E2 & E3 & E4). split; [by rewrite <-Hperm|]. exists l. by rewrite <-Hperm. }
  apply RemoveKey_gossips; [done|by rewrite <-Hperm|]. intros E. apply (h_inj Hh) in E. lia.
Qed.
Lemma ring_subsystem v :
  ofSubsystem subsysGossip (ring v) = window gk v /\ ofSubsystem subsysIPSec (ring v) = window ik v.
Proof.
  unfold ofSubsystem, ring, window. cbn [app List.filter]. by rewrite !(h_gossip Hh), !(h_ipsec Hh).
Qed.

Lemma sorted_ring v l : l ≡ₚ ring v ->
  ofSubsystem subsysGossip (sortByTime l) = window gk v /\ ofSubsystem subsysIPSec (sortByTime l) = window ik v.
Proof.
  intros Hl. destruct (ring_subsystem v) as [Eg Ei]. split; apply ofSubsystem_sorted.
  - rewrite <-Eg. by apply filter_perm.
  - apply window_sorted, (h_gt Hh).
  - rewrite <-Ei. by apply filter_perm.
  - apply window_sorted, (h_it Hh).
Qed.

Lemma primary_ring v l : l ≡ₚ ring v ->
  getPrimaryKeyTag subsysGossip l = Some (ek_Key (gk (S v)), ek_LamportTime (gk (S v))) /\
  getPrimaryKeyTag subsysIPSec l = Some (ek_Key (ik (S v)), ek_LamportTime (ik (S v))).
Proof. intros Hl. unfold getPrimaryKeyTag. destruct (sorted_ring v l Hl) as [-> ->]. done. Qed.

Lemma valid_length k : Keyring.ValidateKey k = true -> (0 <? length k)%nat = true.
Proof. unfold Keyring.ValidateKey. intros Hv. apply Nat.ltb_lt. destruct k; [done|cbn; lia]. Qed.

(** The set that the manager distributes passes the tests of [SetKeys]. *)
Lemma SetKeys_tests v ks c : ks ≡ₚ ring v ->
  SetKeys ks c = match c_gossip c with None => Some (mkAgent ks None (c_driver c), None) | Some _ => handleKeyChange ks c end.
Proof.
  intros Hks. unfold SetKeys.
  assert (Hsub : forallb (fun k => String.eqb (ek_Subsystem k) subsysGossip || String.eqb (ek_Subsystem k) subsysIPSec) ks = true).
  { apply forallb_forall. intros k Hk. apply list_elem_of_In in Hk. rewrite Hks in Hk.
    apply elem_of_ring in Hk as (i & _ & [->| ->]); [by rewrite (h_gossip Hh)|by rewrite (h_ipsec Hh)]. }
  rewrite Hsub. cbn [negb forallb]. destruct (ring_subsystem v) as [Eg Ei].
  assert (Hlen : forall s L, ofSubsystem s (ring v) = L -> length (ofSubsystem s ks) = length L).
  { intros s L <-. apply Permutation_length, filter_perm. done. }
  by rewrite (Hlen _ _ Eg), (Hlen _ _ Ei).
Qed.

(** The next set brings the agent to the next version. *)
Lemma rotation_step v ks c :
  (v + 3 <= N)%nat -> follows v c -> ks ≡ₚ ring (S v) ->
  exists c', SetKeys ks c = Some (c', None) /\ follows (S v) c' /\
    updateKeys (Some (ipKey (ik (S (S (S v)))))) (Some (ipKey (ik (S (S v))))) (Some (ipKey (ik v))) (c_driver c) = Some (c_driver c', false) /\
    same_addr (c_driver c) (c_driver c') /\ (forall r, count (c_driver c') r = count (c_driver c) r).
Proof.
  intros HN [Hk Hs (g & Hg & Hgo) Hd Hp Hal] Hks. rewrite (SetKeys_tests (S v) ks c Hks). unfold handleKeyChange. rewrite Hg.
  destruct (drop_ring v ks (c_keys c) Hk Hs Hks) as (l' & -> & Hl').
  destruct (add_ring v ks l' Hks Hl') as (l & -> & Hl). cbn [f_added f_key g_deleted g_prune].
  rewrite !valid_length by apply (h_valid Hh).
  destruct (primary_ring (S v) (sortByTime l)) as [-> ->]; [by rewrite sortByTime_perm|].
  pose proof (rotation_acceptable v _ HN Hd Hp) as Hacc.
  destruct (rekeyed_aligned (c_driver c) _ _ _ _ Hal Hp Hacc) as (d' & ks' & Hu & Ed & Hal' & Hsame & Ek & Hperm & Hhd & Hcnt).
  unfold notifyDriver, DiscoverNew, update_of.
  cbn [du_Key du_Tag du_Primary du_PrimaryTag du_Prune du_PruneTag f_key g_prune fmap option_fmap option_map fst snd default from_option id].
  change (updateKeys _ _ _ (c_driver c)) with (updateKeys (Some (ipKey (ik (S (S (S v)))))) (Some (ipKey (ik (S (S v))))) (Some (ipKey (ik v))) (c_driver c)).
  rewrite Hu. cbn [mbind option_bind]. eexists. split; [done|]. split_and!; [|done|done|done]. split; cbn.
  - by rewrite sortByTime_perm.
  - apply sortByTime_sorted.
  - eexists. split; [done|]. by apply rotation_gossips.
  - rewrite Ek. apply (Permutation_cons_inv (a := ipKey (ik v))). cbn [option_list app] in Hperm. rewrite <-Hperm, Hd. done.
  - by rewrite Ek, Hhd.
  - done.
Qed.
(** The first set of keys and the start of the agent. *)
Lemma NewKeyring_gossips v :
  let ks := map ek_Key [gk (S v); gk v; gk (S (S v))] in
  exists l, Keyring.NewKeyring ks (ek_Key (gk (S v))) = Some l /\ l ≡ₚ map ek_Key (window gk v) /\ head l = Some (ek_Key (gk (S v))).
Proof.
  intros ks. pose proof (gossip_nodup v) as Hnd. pose proof (h_valid Hh) as Hv. unfold ks. cbn [map] in Hnd |- *.
  set (a := ek_Key (gk v)) in *. set (b := ek_Key (gk (S v))) in *. set (c := ek_Key (gk (S (S v)))) in *.
  change (NoDup ([a; b; c] ++ [ek_Key (gk (S (S (S v))))])) in Hnd. apply NoDup_app in Hnd as (Hnd & _ & _).
  apply NoDup_cons in Hnd as [Ha [Hb _]%NoDup_cons]. rewrite !elem_of_cons, elem_of_nil in Ha. rewrite !elem_of_cons, elem_of_nil in Hb.
  unfold Keyring.NewKeyring. assert (Hl : (length b =? 0)%nat = false).
  { apply Nat.eqb_neq. intros E. specialize (Hv (S v)). fold b in Hv. unfold Keyring.ValidateKey in Hv. by rewrite E in Hv. }
  assert (Hva : Keyring.ValidateKey a = true) by apply Hv. assert (Hvb : Keyring.ValidateKey b = true) by apply Hv.
  assert (Hvc : Keyring.ValidateKey c = true) by apply Hv.
  rewrite Hl. cbn [forallb]. rewrite Hva, Hvb, Hvc. cbn [andb foldl]. rewrite (AddKey_first b Hvb), (AddKey_known b [b]) by by apply list_elem_of_here.
  destruct (AddKey_perm a [b] b Hva) as [H1 H2]; [rewrite list_elem_of_singleton; naive_solver|apply NoDup_singleton|done|].
  destruct (AddKey_perm c (Keyring.AddKey a [b]) b Hvc) as [H3 H4]; [| |done|].
  - rewrite H1, !elem_of_cons, elem_of_nil. naive_solver.
  - rewrite H1. apply NoDup_cons. split; [rewrite list_elem_of_singleton; naive_solver|apply NoDup_singleton].
  - eexists. split; [done|]. split; [|done]. rewrite H3, H1. unfold window. cbn [map]. fold a b c.
    apply (Permutation_middle [a; b] [] c).
Qed.

Lemma agentInit_follows v ks c adv bind :
  (v + 3 <= N)%nat -> ks ≡ₚ ring v -> c_gossip c = None -> AddrIsValid adv = true ->
  exists c1 c2, SetKeys ks c = Some (c1, None) /\ agentInit adv bind c1 = Some c2 /\ follows v c2 /\
    exists d0, c_driver c2 = setKeys (map ipKey [ik (S v); ik v; ik (S (S v))]) d0 /\
      bindAddress d0 = bind /\ advertiseAddress d0 = adv /\ vxlanUDPPort d0 = vxlanUDPPort (c_driver c) /\
      xfrm d0 = clearEncryptionStates (xfrm (c_driver c)).
Proof.
  intros HN Hks Hg Hadv. exists (mkAgent ks None (c_driver c)). unfold agentInit. cbn [c_keys c_driver]. unfold getKeys.
  destruct (sorted_ring v ks Hks) as [-> ->]. unfold window. cbn [map swap01].
  destruct (NewKeyring_gossips v) as (l & Hn & Hl & Hhd). cbn [map] in Hn. rewrite Hn.
  unfold DiscoverNew, nodeJoin. cbn [length Nat.leb dc_Keys dc_Tags fmap option_fmap option_map mbind option_bind fst zip_with]. rewrite Hadv.
  cbn [mbind option_bind fst]. eexists. split; [by rewrite (SetKeys_tests v ks c Hks), Hg|]. split; [done|]. split.
  - split; cbn.
    + by rewrite sortByTime_perm.
    + apply sortByTime_sorted.
    + eexists. split; [done|]. split; cbn; [apply perm_swap|]. exists l. done.
    + apply perm_swap.
    + done.
    + split; cbn; [|done|by intros r node Hr].
      pose proof (window_tags v HN) as Hnd. change (NoDup (map k_tag (map ipKey [ik v; ik (S v); ik (S (S v))]) ++ [k_tag (ipKey (ik (S (S (S v)))))])) in Hnd.
      apply NoDup_app in Hnd as (Hnd & _ & _). cbn in Hnd. by rewrite perm_swap in Hnd.
  - eexists. split; [done|]. done.
Qed.
End History.
