(* ===== verification/AgentKeysTheorems.v ===== *)
(** * Theorems on keys and encryption

    A node in a cluster whose manager rotates the keys: the sets of keys that [SetKeys] gets,
    remote nodes that come and go.  Then a concrete kernel, the witnesses, and what happens
    beside the rotation. *)

From Stdlib Require Import String.
From S2P Require Import Prelude Slices NetIP OverlayKeys OverlayKeysSpec AgentKeys AgentKeysSpec AgentKeysSteps.
From stdpp Require Import gmap list sorting.

Local Open Scope Z_scope.

Section System.
Context `{HX : Xfrm}.
Context (gk ik : nat -> EncryptionKey) (N : nat).

Definition with_driver (d : driver) (c : agent) : agent := mkAgent (c_keys c) (c_gossip c) d.

(** The version of the manager's keys and the agent that has been told of it.  [Host] has the
    remote nodes. *)
Inductive kstep (Host : Addr -> Prop) : nat * agent -> nat * agent -> Prop :=
| KRotate v ks c c' e : (v + 3 <= N)%nat -> ks ≡ₚ ring gk ik (S v) -> SetKeys ks c = Some (c', e) -> kstep Host (v, c) (S v, c')
| KSetup v r c : Host r -> kstep Host (v, c) (v, with_driver (setupEncryption r (c_driver c)).1 c)
| KRemove v r c : 0 < count (c_driver c) r -> kstep Host (v, c) (v, with_driver (removeEncryption r (c_driver c)) c).

(** An agent that has just started at version [v], on a host with the tables [x0]. *)
Definition started (v : nat) (bind adv : Addr) (x0 : XK) (c : agent) : Prop :=
  exists ks c0 c1, ks ≡ₚ ring gk ik v /\ c_gossip c0 = None /\ xfrm (c_driver c0) = x0 /\ AddrIsValid adv = true /\
    SetKeys ks c0 = Some (c1, None) /\ agentInit adv bind c1 = Some c.

Lemma with_driver_follows v c d :
  follows gk ik v c -> keys d = keys (c_driver c) -> aligned d -> follows gk ik v (with_driver d c).
Proof. intros [H1 H2 H3 H4 H5 H6] Ek Hal. by split; cbn; rewrite ?Ek. Qed.

Lemma started_follows v bind adv x0 c : history gk ik N -> (v + 3 <= N)%nat -> started v bind adv x0 c ->
  follows gk ik v c /\ exists d0, c_driver c = setKeys (map ipKey [ik (S v); ik v; ik (S (S v))]) d0 /\
    bindAddress d0 = bind /\ advertiseAddress d0 = adv /\ xfrm d0 = clearEncryptionStates x0.
Proof.
  intros Hh HN (ks & c0 & c1 & Hks & Hg & Hx & Hadv & Hset & Hinit).
  destruct (agentInit_follows gk ik N Hh v ks c0 adv bind HN Hks Hg Hadv) as (c1' & c2 & E1 & E2 & Hf & d0 & Hd & Hb & Ha & _ & Hxc).
  rewrite Hset in E1. injection E1 as <-. rewrite Hinit in E2. injection E2 as <-. split; [done|]. exists d0. by rewrite Hxc, Hx.
Qed.

Lemma kstep_follows Host s s' : history gk ik N -> kstep Host s s' -> follows gk ik s.1 s.2 -> follows gk ik s'.1 s'.2.
Proof.
  intros Hh Hs. destruct Hs as [v ks c c' e HN Hks E|v r c Hr|v r c Hc]; cbn; intros Hf.
  - destruct (rotation_step gk ik N Hh v ks c HN Hf Hks) as (c'' & E' & Hf' & _). congruence.
  - destruct (setup_aligned r _ (fo_aligned _ _ _ _ Hf)) as (Hal & _ & _ & Ek & _). by apply with_driver_follows.
  - destruct (remove_aligned r _ (fo_aligned _ _ _ _ Hf) Hc) as (Hal & _ & Ek & _). by apply with_driver_follows.
Qed.

Lemma run_follows Host v0 bind adv x0 c0 s : history gk ik N -> (v0 + 3 <= N)%nat -> started v0 bind adv x0 c0 ->
  rtc (kstep Host) (v0, c0) s -> follows gk ik s.1 s.2.
Proof.
  intros Hh HN Hst Hrun. destruct (started_follows v0 bind adv x0 c0 Hh HN Hst) as [Hf _].
  apply (rtc_ind_r (R := kstep Host) (fun s => follows gk ik s.1 s.2) (v0, c0)); [done| |done]. intros. by eapply kstep_follows.
Qed.

(** C22: the agent follows the manager's keys.  After any rotations, with remote nodes that
    come and go in between, whatever the kernel does: the controller has exactly the keys of
    the last version; the gossip key ring and the overlay driver have those of their
    subsystem, the second oldest as the primary one; every remote node has the indices of
    exactly the driver's keys, in their order; and the next version is accepted without an
    error or a panic.  Every version reaches the agent, in order and none missed ([kstep];
    [missed_version_keeps_stale_key] below); the times of the keys increase within each
    subsystem and are all different, the tags of the first [N] IPsec keys fit 32 bits, the
    gossip keys are valid and different ([history]); and only nodes in use are removed. *)
Theorem rotation_followed Host v0 bind adv x0 c0 v c :
  history gk ik N -> (v0 + 3 <= N)%nat -> started v0 bind adv x0 c0 -> rtc (kstep Host) (v0, c0) (v, c) ->
  c_keys c ≡ₚ ring gk ik v /\
  (exists g, c_gossip c = Some g /\ gossips g (map ek_Key (window gk v)) (ek_Key (gk (S v)))) /\
  keys (c_driver c) ≡ₚ map ipKey (window ik v) /\ head (keys (c_driver c)) = Some (ipKey (ik (S v))) /\
  (forall r node, secMap (c_driver c) !! r = Some node ->
     en_spi node = map (spisOf (advertiseAddress (c_driver c)) r) (keys (c_driver c)) /\ 0 < en_count node) /\
  forall ks, (v + 3 <= N)%nat -> ks ≡ₚ ring gk ik (S v) -> exists c', SetKeys ks c = Some (c', None).
Proof.
  intros Hh HN Hst Hrun. pose proof (run_follows Host v0 bind adv x0 c0 (v, c) Hh HN Hst Hrun) as Hf. cbn in Hf.
  pose proof Hf as [H1 H2 H3 H4 H5 H6]. split_and!; try done; [by apply (al_node _ H6)|].
  intros ks Hv Hks. destruct (rotation_step gk ik N Hh v ks c Hv Hf Hks) as (c' & E & _). by exists c'.
Qed.

Section Laws.
Context `{!XfrmLaws}.

(** The keys of the history, and what others have in the tables. *)
Definition historyKey (k : key) : Prop := exists i, (i <= N)%nat /\ k = ipKey (ik i).
Definition othersSA (x0 : XK) (y : XfrmState) : Prop := states x0 !! ident y = Some y /\ sa_Reqid y <> mark.
Definition othersSP (x0 : XK) (y : XfrmPolicy) : Prop := policies x0 !! selector y = Some y /\ sp_Mark y <> Some mark.

Lemma st_any x : st x (fun y => states x !! ident y = Some y).
Proof. intros i sa. split; [intros E; by rewrite (state_ident i sa x E)|by intros [? <-]]. Qed.
Lemma pl_any x : pl x (fun y => policies x !! selector y = Some y).
Proof. intros i sp. split; [intros E; by rewrite (policy_selector i sp x E)|by intros [? <-]]. Qed.

Definition inStep (Host : Addr -> Prop) (bind adv : Addr) (x0 : XK) (s : nat * agent) : Prop :=
  follows gk ik s.1 s.2 /\ bindAddress (c_driver s.2) = bind /\ advertiseAddress (c_driver s.2) = adv /\
  programmed Host historyKey (othersSA x0) (othersSP x0) (c_driver s.2).

Lemma historyKey_window v : (v + 3 <= N)%nat -> Forall historyKey (map ipKey [ik (S v); ik v; ik (S (S v))]).
Proof.
  intros HN. cbn [map]. repeat constructor; eexists; (split; [|done]); lia.
Qed.

Lemma started_inStep Host v bind adv x0 c : history gk ik N -> (v + 3 <= N)%nat -> started v bind adv x0 c ->
  inStep Host bind adv x0 (v, c).
Proof.
  intros Hh HN Hst. destruct (started_follows v bind adv x0 c Hh HN Hst) as (Hf & d0 & Hd & Hb & Ha & Hx).
  split; [done|]. cbn. rewrite Hd. split; [done|]. split; [done|].
  destruct (clear_ok x0 _ _ (st_any x0) (pl_any x0)) as [H1 H2]. rewrite <-Hx in H1, H2.
  eapply setKeys_programmed; [exact H1|exact H2| | |by apply historyKey_window]; intros y; unfold othersSA, othersSP; naive_solver.
Qed.

Lemma kstep_inStep Host bind adv x0 s s' : history gk ik N -> clean bind adv Host historyKey (othersSA x0) (othersSP x0) ->
  kstep Host s s' -> inStep Host bind adv x0 s -> inStep Host bind adv x0 s'.
Proof.
  intros Hh Hcl Hs (Hf & Hb & Ha & Hp). split; [by eapply kstep_follows|].
  assert (Hcf : cleanFor Host historyKey (othersSA x0) (othersSP x0) (c_driver s.2)) by (unfold cleanFor; by rewrite Hb, Ha).
  pose proof (fo_aligned _ _ _ _ Hf) as Hal.
  destruct Hs as [v ks c c' e HN Hks E|v r c Hr|v r c Hc]; cbn in *.
  - destruct (rotation_step gk ik N Hh v ks c HN Hf Hks) as (c'' & E' & Hf' & Hu & (Hb' & Ha' & _) & _).
    assert (c'' = c') as -> by congruence. rewrite Hb', Ha'. split; [done|]. split; [done|].
    pose proof (rotation_acceptable gk ik N Hh v _ HN (fo_driver _ _ _ _ Hf) (fo_primary _ _ _ _ Hf)) as Hacc.
    destruct (rekeyed_aligned _ _ _ _ _ Hal (fo_primary _ _ _ _ Hf) Hacc) as (d2 & ks2 & Hu2 & Ed & _ & _ & _ & Hperm & Hhd & _).
    rewrite Hu in Hu2. injection Hu2 as E2. rewrite <-E2 in Ed.
    apply (update_programmed Host historyKey _ _ (c_driver c) (c_driver c') _ _ _ _ ks2 Hcf Hal Hp (fo_primary _ _ _ _ Hf) Hacc); try done.
    + intros k [= <-]. exists (S (S (S v))). split; [lia|done].
    + intros _ E3. assert (E4 : ipKey (ik (S (S (S v)))) = ipKey (ik v)) by congruence.
      apply (f_equal k_tag), (ip_tag gk ik N Hh) in E4; lia.
  - destruct (setup_aligned r _ Hal) as (_ & _ & (Hb' & Ha' & _) & _ & _). rewrite Hb', Ha'. split; [done|]. split; [done|].
    by apply setup_programmed.
  - destruct (remove_aligned r _ Hal Hc) as (_ & (Hb' & Ha' & _) & _ & _). rewrite Hb', Ha'. split; [done|]. split; [done|].
    by apply remove_programmed.
Qed.

Lemma run_inStep Host v0 bind adv x0 c0 s : history gk ik N -> clean bind adv Host historyKey (othersSA x0) (othersSP x0) ->
  (v0 + 3 <= N)%nat -> started v0 bind adv x0 c0 -> rtc (kstep Host) (v0, c0) s -> inStep Host bind adv x0 s.
Proof.
  intros Hh Hcl HN Hst Hrun. pose proof (started_inStep Host v0 bind adv x0 c0 Hh HN Hst) as Hi.
  apply (rtc_ind_r (R := kstep Host) (inStep Host bind adv x0) (v0, c0)); [done| |done]. intros. by eapply kstep_inStep.
Qed.
Lemma count_known d r : aligned d -> 0 < count d r <-> is_Some (secMap d !! r).
Proof.
  intros Hal. unfold count. destruct (secMap d !! r) as [n|] eqn:E; cbn.
  - split; [by eexists|]. intros _. by apply (al_node d Hal r n).
  - split; [lia|by intros [? ?]].
Qed.

Lemma ours_known d y (lIP aIP : Addr) : aligned d ->
  ours lIP aIP (assign d) y <-> exists r, 0 < count d r /\ nodeSA lIP aIP r (keys d) y.
Proof.
  intros Hal. unfold ours. setoid_rewrite (count_known d _ Hal). split.
  - intros (r & ks & E & Hy). rewrite assign_lookup in E. apply fmap_Some in E as (n & E & ->). exists r. split; [by eexists|done].
  - intros (r & [n E] & Hy). exists r, (keys d). by rewrite assign_lookup, E.
Qed.

Lemma inStep_tables Host bind adv x0 v c : inStep Host bind adv x0 (v, c) ->
  let d := c_driver c in
  (forall i sa, states (xfrm d) !! i = Some sa <-> ident sa = i /\
     (othersSA x0 sa \/ exists r, 0 < count d r /\
        ((exists k, k ∈ keys d /\ sa = rSA bind adv r k) \/ sa = fSA bind adv r (ipKey (ik (S v)))))) /\
  (forall i sp, policies (xfrm d) !! i = Some sp <-> selector sp = i /\
     (othersSP x0 sp \/ exists r, 0 < count d r /\ sp = pol bind adv (vxlanUDPPort d) r (ipKey (ik (S v))))).
Proof.
  intros (Hf & Hb & Ha & Hp) d.
  cbn in Hf, Hb, Ha, Hp. pose proof (fo_aligned _ _ _ _ Hf) as Hal. pose proof (fo_primary _ _ _ _ Hf) as Hpr. fold d in Hb, Ha, Hp, Hal, Hpr.
  destruct (pg_holds _ _ _ _ _ Hp) as [Hs Hl]. rewrite Hb, Ha in Hs, Hl. split.
  - intros i sa. rewrite (Hs i sa), (ours_known d sa bind adv Hal). unfold nodeSA. rewrite Hpr. naive_solver.
  - intros i sp. rewrite (Hl i sp). unfold oursP. setoid_rewrite (count_known d _ Hal). split.
    + intros [[(r & ks & k & E & Hk & ->)|Hy] Hi]; (split; [done|]); [right|by left]. rewrite assign_lookup in E.
      apply fmap_Some in E as (n & E & ->). exists r. split; [by eexists|]. congruence.
    + intros [Hi [Hy|(r & [n E] & ->)]]; (split; [|done]); [by right|left]. exists r, (keys d), (ipKey (ik (S v))).
      by rewrite assign_lookup, E.
Qed.

(** C23: the kernel has exactly the associations that are needed.  On a kernel that keeps to
    its documented rules, in every run of rotations and of remote nodes that come and go, the
    associations in the kernel are those of others, untouched, and for every remote node in
    use one for receiving under each of the current keys and one for sending under the
    primary key; the policies are those of others and for every node in use the one that
    sends through the latter association.  As before every version reaches the agent, none
    missed or refused, and the keys are a [history].  The hash of the SPIs does not collide
    on the nodes and keys that occur, remote nodes differ from the bind address and from each
    other also after [Unmap], and the entries of others have no mark of the driver and none
    of its SPIs ([clean]). *)
Theorem associations_exact Host v0 bind adv x0 c0 v c :
  history gk ik N -> clean bind adv Host historyKey (othersSA x0) (othersSP x0) ->
  (v0 + 3 <= N)%nat -> started v0 bind adv x0 c0 -> rtc (kstep Host) (v0, c0) (v, c) ->
  let d := c_driver c in
  (forall i sa, states (xfrm d) !! i = Some sa <-> ident sa = i /\
     (othersSA x0 sa \/ exists r, 0 < count d r /\
        ((exists k, k ∈ keys d /\ sa = rSA bind adv r k) \/ sa = fSA bind adv r (ipKey (ik (S v)))))) /\
  (forall i sp, policies (xfrm d) !! i = Some sp <-> selector sp = i /\
     (othersSP x0 sp \/ exists r, 0 < count d r /\ sp = pol bind adv (vxlanUDPPort d) r (ipKey (ik (S v))))).
Proof.
  intros Hh Hcl HN Hst Hrun. by apply (inStep_tables Host), (run_inStep Host v0 bind adv x0 c0 (v, c)).
Qed.

(** C24: rolling rotations do not interrupt traffic.  Let two hosts, each of which binds to
    the address it advertises, follow the same manager, not necessarily at the same pace, and
    have each other in use.  As long as neither is more than one version ahead of the other,
    what the first sends to the second goes through an association that the kernel of the
    second has as well, with the same key; and the second can read what the first gossips.
    Neither misses a version, the keys are a [history], the kernels keep to their rules and
    are [clean] for the nodes of either host: SPIs do not collide, nodes are different also
    after [Unmap], the entries of others have neither mark nor SPI of the driver. *)
Theorem rolling_rotation HostA HostB a b x0A x0B vA0 vB0 cA0 cB0 vA vB cA cB :
  history gk ik N -> (vA0 + 3 <= N)%nat -> (vB0 + 3 <= N)%nat ->
  clean a a HostA historyKey (othersSA x0A) (othersSP x0A) -> clean b b HostB historyKey (othersSA x0B) (othersSP x0B) ->
  started vA0 a a x0A cA0 -> rtc (kstep HostA) (vA0, cA0) (vA, cA) ->
  started vB0 b b x0B cB0 -> rtc (kstep HostB) (vB0, cB0) (vB, cB) ->
  (vA <= S vB)%nat -> (vB <= S vA)%nat -> 0 < count (c_driver cA) b -> 0 < count (c_driver cB) a ->
  (exists sa, sa_Src sa = a /\ sa_Dst sa = b /\
     let sp := policyOf sa (vxlanUDPPort (c_driver cA)) in
     policies (xfrm (c_driver cA)) !! selector sp = Some sp /\
     states (xfrm (c_driver cA)) !! ident sa = Some sa /\ states (xfrm (c_driver cB)) !! ident sa = Some sa) /\
  exists gA gB lA lB p, c_gossip cA = Some gA /\ c_gossip cB = Some gB /\ keyring gA = Some lA /\ keyring gB = Some lB /\
    head lA = Some p /\ p ∈ lB.
Proof.
  intros Hh HNA HNB HclA HclB HsA HrA HsB HrB Hab Hba Hb Ha.
  pose proof (run_inStep HostA vA0 a a x0A cA0 (vA, cA) Hh HclA HNA HsA HrA) as HiA.
  pose proof (run_inStep HostB vB0 b b x0B cB0 (vB, cB) Hh HclB HNB HsB HrB) as HiB.
  destruct (inStep_tables HostA a a x0A vA cA HiA) as [HA HPA]. destruct (inStep_tables HostB b b x0B vB cB HiB) as [HB _].
  destruct HiA as (HfA & _). destruct HiB as (HfB & _). cbn in HfA, HfB. split.
  - exists (fSA a a b (ipKey (ik (S vA)))). split; [done|]. split; [done|]. split_and!.
    + apply HPA. split; [done|]. right. by exists b.
    + apply HA. split; [done|]. right. exists b. split; [done|by right].
    + apply HB. split; [done|]. right. exists a. split; [done|]. left. exists (ipKey (ik (S vA))). split; [|done].
      rewrite (fo_driver _ _ _ _ HfB). apply list_elem_of_fmap_2, elem_of_window.
      assert (S vA = vB \/ S vA = S vB \/ S vA = S (S vB)) as [->|[->| ->]] by lia; auto.
  - destruct (fo_gossip _ _ _ _ HfA) as (gA & EA & _ & lA & ElA & _ & HhA).
    destruct (fo_gossip _ _ _ _ HfB) as (gB & EB & _ & lB & ElB & HpB & _).
    exists gA, gB, lA, lB, (ek_Key (gk (S vA))). split_and!; try done. rewrite HpB. apply list_elem_of_fmap_2, elem_of_window.
    assert (S vA = vB \/ S vA = S vB \/ S vA = S (S vB)) as [->|[->| ->]] by lia; auto.
Qed.
End Laws.
End System.

(** ** A kernel

    Tables as lists of entries with different places. *)

Module Tables.
Section Table.
Context {I E : Type} `{Countable I} (place : E -> I).

Definition table (l : list E) : gmap I E := list_to_map (map (fun e => (place e, e)) l).
Definition add (eexist : errno) (e : E) (l : list E) : list E * option errno :=
  match table l !! place e with Some _ => (l, Some eexist) | None => (e :: l, None) end.
Definition del (enoent : errno) (e : E) (l : list E) : list E * option errno :=
  match table l !! place e with
  | Some _ => (List.filter (fun e' => negb (bool_decide (place e' = place e))) l, None)
  | None => (l, Some enoent)
  end.

Lemma table_place i e l : table l !! i = Some e -> place e = i.
Proof.
  induction l as [|e' l IH]; cbn; [by rewrite lookup_empty|]. rewrite lookup_insert_Some. intros [[<- <-]|[_ ?]]; auto.
Qed.

Lemma table_del e l : table (del ENOENT e l).1 = delete (place e) (table l).
Proof.
  unfold del. destruct (table l !! place e) as [e0|] eqn:E0; cbn [fst]; [clear e0 E0|by rewrite delete_id].
  induction l as [|e' l IH]; cbn; [by rewrite delete_empty|]. case_bool_decide as Hb; cbn.
  - rewrite <-Hb, delete_insert_eq. by rewrite Hb.
  - fold (table (List.filter (fun e' => negb (bool_decide (place e' = place e))) l)). rewrite IH. by rewrite delete_insert_ne.
Qed.
Lemma table_del_errno x e l : (del x e l).1 = (del ENOENT e l).1.
Proof. unfold del. by destruct (table l !! place e). Qed.

Lemma table_add x e l : table l !! place e = None -> table (add x e l).1 = <[place e := e]> (table l).
Proof. unfold add. by intros ->. Qed.
End Table.

#[export] Instance kernel : Xfrm := {
  XK := list XfrmState * list XfrmPolicy;
  XfrmStateAdd sa x := let '(l, e) := add ident EEXIST sa x.1 in ((l, x.2), e);
  XfrmStateDel sa x := let '(l, e) := del ident ESRCH sa x.1 in ((l, x.2), e);
  XfrmStateGet sa x := match table ident x.1 !! ident sa with Some _ => None | None => Some ESRCH end;
  XfrmStateList x := (map_to_list (table ident x.1)).*2;
  XfrmPolicyAdd sp x := let '(l, e) := add selector EEXIST sp x.2 in ((x.1, l), e);
  XfrmPolicyDel sp x := let '(l, e) := del selector ENOENT sp x.2 in ((x.1, l), e);
  XfrmPolicyUpdate sp x := ((x.1, sp :: x.2), None);
  XfrmPolicyGet sp x := match table selector x.2 !! selector sp with Some _ => None | None => Some ENOENT end;
  XfrmPolicyList x := (map_to_list (table selector x.2)).*2 }.

Lemma table_list {I E} `{Countable I} (place : E -> I) e l : e ∈ (map_to_list (table place l)).*2 <-> table place l !! place e = Some e.
Proof.
  rewrite list_elem_of_fmap. split.
  - intros ([i e'] & -> & Hin%elem_of_map_to_list). cbn. pose proof (table_place place i e' l Hin) as E1. by rewrite E1.
  - intros He. exists (place e, e). split; [done|]. by apply elem_of_map_to_list.
Qed.

#[export] Instance kernel_laws : XfrmLaws.
Proof.
  refine (Build_XfrmLaws kernel (fun x => table ident x.1) (fun x => table selector x.2) _ _ _ _ _ _ _ _ _ _ _).
  - done.
  - intros sa x Hn. cbn. rewrite <-(table_add ident EEXIST sa x.1 Hn). by destruct (add ident EEXIST sa x.1).
  - intros sa x. cbn. rewrite <-(table_del ident sa x.1), <-(table_del_errno ident ESRCH). by destruct (del ident ESRCH sa x.1).
  - intros sa x. apply table_list.
  - intros i sa x. apply table_place.
  - done.
  - intros sp x Hn. cbn. rewrite <-(table_add selector EEXIST sp x.2 Hn). by destruct (add selector EEXIST sp x.2).
  - intros sp x. cbn. rewrite <-(table_del selector sp x.2). by destruct (del selector ENOENT sp x.2).
  - done.
  - intros sp x. apply table_list.
  - intros i sp x. apply table_place.
Defined.
End Tables.

(** ** Examples *)

Module Example.
Import Tables.

Definition noTables : @XK kernel := ([], []).

Definition exG (i : nat) : EncryptionKey := mkEK subsysGossip (Z.of_nat i :: repeat 0 15) (2 * Z.of_nat i + 1).
Definition exI (i : nat) : EncryptionKey := mkEK subsysIPSec (Z.of_nat i :: repeat 1 15) (2 * Z.of_nat i + 2).

Lemma exHistory : history exG exI 4.
Proof.
  split; cbn; try done; try lia. intros i j [= E]. lia.
Qed.

Definition hostA : Addr := Addr4 167772161.
Definition hostB : Addr := Addr4 167772162.
Definition hostC : Addr := Addr4 167772163.

Definition exKeys : list key := map (fun i => ipKey (exI i)) (seq 0 5).

(** A test that the indices of these nodes and keys do not collide. *)
Definition cleanb (bind adv : Addr) (hosts : list Addr) (ks : list key) : bool :=
  forallb (fun r => forallb (fun k => forallb (fun r' => forallb (fun k' =>
    implb (buildSPI r adv (k_tag k) =? buildSPI r' adv (k_tag k')) (bool_decide (r = r' /\ k = k'))) ks) hosts) ks) hosts &&
  forallb (fun r => forallb (fun k => forallb (fun k' =>
    implb (buildSPI adv r (k_tag k) =? buildSPI adv r (k_tag k')) (bool_decide (k = k'))) ks) ks) hosts &&
  forallb (fun r => negb (bool_decide (r = bind))) hosts &&
  forallb (fun r => forallb (fun r' => implb (bool_decide (Unmap r = Unmap r')) (bool_decide (r = r'))) hosts) hosts.

Lemma cleanb_sound bind adv hosts :
  cleanb bind adv hosts exKeys = true ->
  clean bind adv (fun r => r ∈ hosts) (historyKey exI 4) (othersSA noTables) (othersSP noTables).
Proof.
  unfold cleanb. rewrite !andb_true_iff. intros [[[H1 H2] H3] H4].
  assert (Hk : forall k, historyKey exI 4 k -> In k exKeys).
  { intros k (i & Hi & ->). unfold exKeys. apply in_map_iff. exists i. split; [done|]. apply in_seq. lia. }
  rewrite forallb_forall in H1, H2, H3, H4. split.
  - intros r r' k k' Hr%list_elem_of_In Hr'%list_elem_of_In Hk1%Hk Hk2%Hk E. specialize (H1 r Hr). rewrite forallb_forall in H1.
    specialize (H1 k Hk1). rewrite forallb_forall in H1. specialize (H1 r' Hr'). rewrite forallb_forall in H1. specialize (H1 k' Hk2).
    rewrite (proj2 (Z.eqb_eq _ _) E) in H1. cbn in H1. by apply bool_decide_eq_true in H1.
  - intros r k k' Hr%list_elem_of_In Hk1%Hk Hk2%Hk E. specialize (H2 r Hr). rewrite forallb_forall in H2. specialize (H2 k Hk1).
    rewrite forallb_forall in H2. specialize (H2 k' Hk2). rewrite (proj2 (Z.eqb_eq _ _) E) in H2. by apply bool_decide_eq_true in H2.
  - intros r Hr%list_elem_of_In. specialize (H3 r Hr). by apply negb_true_iff, bool_decide_eq_false in H3.
  - intros r r' Hr%list_elem_of_In Hr'%list_elem_of_In E. specialize (H4 r Hr). rewrite forallb_forall in H4. specialize (H4 r' Hr').
    rewrite (bool_decide_eq_true_2 _ E) in H4. by apply bool_decide_eq_true in H4.
  - intros r k y _ _ [Hy _]. change ((∅ : gmap (Addr * Z) XfrmState) !! ident y = Some y) in Hy. by rewrite lookup_empty in Hy.
  - intros y [_ ?]. done.
  - intros y [_ ?]. done.
Qed.

(** A host that starts at version 0 and gets to know another one. *)
Definition blank : agent := mkAgent [] None (mkDriver ∅ [] AddrZero AddrZero 4789 noTables).
Definition tell (v : nat) (c : agent) : agent :=
  match SetKeys (ring exG exI v) c with Some (c, _) => c | None => blank end.
Definition start (host : Addr) : agent := default blank (agentInit host host (tell 0 blank)).
Definition meet (r : Addr) (c : agent) : agent := with_driver (setupEncryption r (c_driver c)).1 c.

Lemma start_started host : AddrIsValid host = true -> started exG exI 0 host host noTables (start host).
Proof.
  intros Hv. by exists (ring exG exI 0), blank, (tell 0 blank).
Qed.

Lemma startA : started exG exI 0 hostA hostA noTables (start hostA).
Proof. by apply start_started. Qed.
Lemma startB : started exG exI 0 hostB hostB noTables (start hostB).
Proof. by apply start_started. Qed.

Lemma runA : rtc (kstep exG exI 4 (fun r => r ∈ [hostB; hostC])) (0%nat, start hostA) (1%nat, tell 1 (meet hostB (start hostA))).
Proof.
  eapply rtc_l; [apply (KSetup exG exI 4 _ 0 hostB); by apply list_elem_of_here|].
  apply rtc_once. apply (KRotate exG exI 4 _ 0 (ring exG exI 1) _ _ None); [lia|done|].
  assert (Hok : match SetKeys (ring exG exI 1) (meet hostB (start hostA)) with Some (_, None) => true | _ => false end = true)
    by (vm_compute; reflexivity).
  fold (meet hostB (start hostA)). unfold tell at 1. by destruct (SetKeys (ring exG exI 1) (meet hostB (start hostA))) as [[c' [e|]]|].
Qed.
Lemma runB : rtc (kstep exG exI 4 (fun r => r ∈ [hostA; hostC])) (0%nat, start hostB) (0%nat, meet hostA (start hostB)).
Proof. apply rtc_once, (KSetup exG exI 4 _ 0 hostA). by apply list_elem_of_here. Qed.

Lemma cleanA : clean hostA hostA (fun r => r ∈ [hostB; hostC]) (historyKey exI 4) (othersSA noTables) (othersSP noTables).
Proof. apply cleanb_sound. by vm_compute. Qed.
Lemma cleanB : clean hostB hostB (fun r => r ∈ [hostA; hostC]) (historyKey exI 4) (othersSA noTables) (othersSP noTables).
Proof. apply cleanb_sound. by vm_compute. Qed.

Lemma rotation_followed_witness :
  let c := tell 1 (meet hostB (start hostA)) in
  head (keys (c_driver c)) = Some (ipKey (exI 2)) /\ exists c', SetKeys (ring exG exI 2) c = Some (c', None).
Proof.
  destruct (rotation_followed exG exI 4 _ 0 hostA hostA noTables (start hostA) 1 _ exHistory ltac:(lia) startA runA)
    as (_ & _ & _ & H1 & _ & H2).
  split; [exact H1|]. apply H2; [lia|done].
Defined.

Lemma associations_exact_witness :
  let d := c_driver (tell 1 (meet hostB (start hostA))) in
  exists sa, states (xfrm d) !! ident sa = Some sa /\ sa = fSA hostA hostA hostB (ipKey (exI 2)).
Proof.
  destruct (associations_exact exG exI 4 _ 0 hostA hostA noTables (start hostA) 1 _ exHistory cleanA ltac:(lia) startA runA) as [H1 _].
  eexists. split; [|reflexivity]. apply H1. split; [reflexivity|]. right. exists hostB. split; [vm_compute; reflexivity|by right].
Defined.

Lemma rolling_rotation_witness :
  exists sa, sa_Src sa = hostA /\ sa_Dst sa = hostB /\
    states (xfrm (c_driver (tell 1 (meet hostB (start hostA))))) !! ident sa = Some sa /\
    states (xfrm (c_driver (meet hostA (start hostB)))) !! ident sa = Some sa.
Proof.
  destruct (rolling_rotation exG exI 4 _ _ hostA hostB noTables noTables 0 0 _ _ 1 0 _ _ exHistory ltac:(lia) ltac:(lia) cleanA cleanB
    startA runA startB runB ltac:(lia) ltac:(lia) ltac:(by vm_compute) ltac:(by vm_compute)) as [(sa & H1 & H2 & _ & H3 & H4) _].
  exists sa. exact (conj H1 (conj H2 (conj H3 H4))).
Defined.
(** ** Beside the rotation *)

Definition lost (r : Addr) (c : agent) : agent := with_driver (removeEncryption r (c_driver c)) c.

(** An agent that misses version 1 keeps a key that version 2 does not have, since the loop
    does not look at the key that it swaps in, and hands only the last of the new keys to the
    driver: the primary key of version 2 is missing there. *)
Lemma missed_version_keeps_stale_key :
  let c := tell 2 (meet hostB (start hostA)) in
  exI 1 ∈ c_keys c /\ exI 1 ∉ ring exG exI 2 /\ exI 3 ∈ ring exG exI 2 /\ ipKey (exI 3) ∉ keys (c_driver c).
Proof. split_and!; apply (bool_decide_unpack _); vm_compute; exact I. Qed.

(** Two versions later the update is refused and the agent sets the driver's keys anew, which
    forgets the encryption of all remote nodes although they are still there. *)
Definition afterReset : agent := tell 4 (tell 3 (tell 2 (meet hostB (start hostA)))).

Lemma refused_update_forgets_nodes :
  count (c_driver (meet hostB (start hostA))) hostB = 1 /\ count (c_driver afterReset) hostB = 0 /\
  xfrm (c_driver afterReset) = noTables.
Proof. split_and!; vm_compute; reflexivity. Qed.

(** When one of them leaves then, its count becomes negative and it has no indices; the next
    rotation indexes the empty list. *)
Lemma leave_after_reset_panics :
  count (c_driver (lost hostB afterReset)) hostB = -1 /\ SetKeys (ring exG exI 5) (lost hostB afterReset) = None.
Proof.
  assert (E : match SetKeys (ring exG exI 5) (lost hostB afterReset) with None => true | Some _ => false end = true) by (vm_compute; reflexivity).
  split; [vm_compute; reflexivity|]. by destruct (SetKeys _ _).
Qed.

(** Dropping the primary key without naming a new one slices at -1. *)
Lemma prune_primary_panics k0 k1 m x : k_tag k0 <> k_tag k1 ->
  updateKeys None None (Some k0) (mkDriver m [k0; k1] hostA hostA 4789 x) = None.
Proof.
  intros Hne. unfold updateKeys. cbn [keys option_map].
  assert (E : indexOfTag (k_tag k0) [k0; k1] = 0).
  { unfold indexOfTag. cbn. rewrite Z.eqb_refl, (proj2 (Z.eqb_neq _ _)) by congruence. done. }
  rewrite E. cbn. destruct (foldl _ _ _) as [[x' m']|]; [|done]. cbn. done.
Qed.
End Example.
