(* ===== verification/OverlayPeers.v ===== *)
(** * Peers of overlay networks

    Model of the data plane of an overlay network in [daemon/libnetwork/drivers/overlay]:
    the peers of a network ([peerdb.go]), its sandbox with the tunnels of its subnets
    ([ov_network.go]), its endpoints ([ov_endpoint.go], [joinleave.go]), the rules that
    require encryption ([encryption.go]) and the neighbours of a sandbox
    ([osl/neigh_linux.go]).

    The host is the class [Host]: namespaces with their links and neighbours, and iptables.
    The keys and associations are those of [OverlayKeys].  A MAC address is the number that
    [hashable.MACAddr] has.  Where the source walks a Go map or lists a set the order is the
    one of the model's map. *)

From Stdlib Require Import String Ascii.
From S2P Require Import Prelude Slices NetIP SetMatrix OverlayKeys.
From stdpp Require Import gmap list strings pretty.

Local Open Scope Z_scope.

(** ** Errors

    [ErrW] wraps with [%w], [ErrV] with [%v], which hides what it wraps from [errors.As]. *)
Inductive err :=
| ErrNew (what : string)
| NeighborSearchError (present : bool)
| ErrSys (e : errno)
| ErrW (e : err)
| ErrV (e : err)
| ErrJoin (a b : err).

Fixpoint AsNeighborSearchError (e : err) : bool :=
  match e with
  | NeighborSearchError _ => true
  | ErrW e => AsNeighborSearchError e
  | ErrJoin a b => AsNeighborSearchError a || AsNeighborSearchError b
  | _ => false
  end.

(** ** Addresses *)

Definition MACAddrFrom6 (b : list Z) : Z := be_get 0 b.
Definition MACAddrFromSlice (b : list Z) : option Z := if (length b =? 6)%nat then Some (MACAddrFrom6 b) else None.
Definition MACAsSlice (mac : Z) : list Z := be_put 6 mac.

Definition GenerateMACFromIP (ip : Addr) : list Z :=
  [0x02; 0x42] ++ match Unmap ip with Addr4 _ => As4 (Unmap ip) | _ => [0; 0; 0; 0] end.

(** ** Peers *)

Record peerEntry := mkPeer { pe_eid : string; pe_mac : Z; pe_vtep : Addr }.

#[export] Instance peerEntry_eq : EqDecision peerEntry.
Proof. solve_decision. Defined.
#[export] Instance peerEntry_countable : Countable peerEntry.
Proof.
  refine (inj_countable' (fun e => (pe_eid e, pe_mac e, pe_vtep e)) (fun '(i, m, v) => mkPeer i m v) _). by intros [].
Defined.

Definition isLocal (p : peerEntry) : bool := negb (AddrIsValid (pe_vtep p)).

Module peerMap.
Abbreviation t := (gmap Prefix (gset peerEntry)).

Definition Get (peerIP : Prefix) (pm : t) : option peerEntry :=
  match SetMatrix.Get peerIP pm with Some c => head (elements c) | None => None end.

Definition Walk (pm : t) : list (Prefix * peerEntry) := omap (fun p => pair p <$> Get p pm) (SetMatrix.Keys pm).

Definition Add (eid : string) (peerIP : Prefix) (peerMac : Z) (vtep : Addr) (pm : t) : t * (bool * nat) :=
  SetMatrix.Insert peerIP (mkPeer eid peerMac vtep) pm.

Definition Delete (eid : string) (peerIP : Prefix) (peerMac : Z) (vtep : Addr) (pm : t) : t * (bool * nat) :=
  SetMatrix.Remove peerIP (mkPeer eid peerMac vtep) pm.
End peerMap.

(** ** The host *)

Definition AF_BRIDGE : Z := 7.

(** [netlink.Neigh]: the address family is 0 or [AF_BRIDGE]; [nl_Master] for [NTF_MASTER]. *)
Record Neigh := mkNeigh { nl_Link : Z; nl_Family : Z; nl_IP : Addr; nl_Mac : Z; nl_Master : bool }.

(** The two rules of an encrypted network: mark outgoing VXLAN datagrams, drop incoming ones
    that were not encrypted. *)
Inductive ruleTarget := MARK (value : Z) | DROP.
Record vxlanRule := mkRule { ru_v6 : bool; ru_port : Z; ru_vni : Z; ru_target : ruleTarget }.
Inductive Action := Append_ | Insert_ | Delete_.

#[export] Instance ruleTarget_eq : EqDecision ruleTarget.
Proof. solve_decision. Defined.
#[export] Instance vxlanRule_eq : EqDecision vxlanRule.
Proof. solve_decision. Defined.

(** Sandboxes go by the name of their file.  [true] stands for an error. *)
Class Host := {
  HK : Type;
  NewSandbox : string -> HK -> HK * bool;
  (** [Interface.Remove] of all interfaces, and [Namespace.Destroy]. *)
  RemoveInterfaces : string -> HK -> HK;
  DestroySandbox : string -> HK -> HK;
  (** Remove the namespaces of an earlier daemon by their names, or by a VNI in use. *)
  RemoveStale : (string -> bool) -> HK -> HK;
  ReclaimVNI : Z -> HK -> HK;
  AddInterface : string -> string -> HK -> HK * bool;
  RemoveInterface : string -> string -> HK -> HK;
  setDefaultVLAN : string -> HK -> HK;
  (** [findDst] and [LinkByName] in a sandbox. *)
  LinkIndex : string -> string -> HK -> option Z;
  NeighAdd : string -> Neigh -> HK -> HK * option errno;
  NeighDel : string -> Neigh -> HK -> HK * option errno;
  createVxlan : string -> Z -> Z -> bool -> HK -> HK * bool;
  deleteInterface : string -> HK -> HK;
  createVethPair : HK -> HK * option (string * string);
  LinkSetMTU : string -> Z -> HK -> HK * bool;
  LinkSetHardwareAddr : string -> list Z -> HK -> HK * bool;
  ProgramRule : Action -> vxlanRule -> HK -> HK * bool }.

(** Decoding peer records: [proto.Unmarshal], [ParsePrefix], [net.ParseMAC], [ParseAddr]. *)
Class PeerCodec := {
  UnmarshalRecord : list Z -> option (string * string * string);
  ParsePrefix : string -> option Prefix;
  net_ParseMAC : string -> option (list Z);
  ParseAddr : string -> option Addr }.

Record Peer := mkPeerRecord { EndpointIP : Prefix; EndpointMAC : Z; TunnelEndpointIP : Addr }.

#[export] Instance Peer_eq : EqDecision Peer.
Proof. solve_decision. Defined.

Definition ParseMAC `{PeerCodec} (s : string) : option Z := hw ← net_ParseMAC s; MACAddrFromSlice hw.

Definition UnmarshalPeerRecord `{PeerCodec} (data : list Z) : option Peer :=
  '(ip, mac, tep) ← UnmarshalRecord data;
  ip ← ParsePrefix ip; mac ← ParseMAC mac; tep ← ParseAddr tep;
  Some (mkPeerRecord ip mac tep).

(** ** Networks *)

Record subnet := mkSubnet {
  s_sboxInit : bool; s_vxlanName : string; s_brName : string; s_vni : Z; s_initErr : option err;
  s_subnetIP : Prefix; s_gwIP : Prefix }.

Record endpoint := mkEndpoint { ep_id : string; ep_nid : string; ep_ifName : string; ep_mac : Z; ep_addr : Prefix }.

Record network := mkNetwork {
  n_id : string; n_secure : bool; n_mtu : Z;
  n_sbox : option string;
  n_endpoints : gmap string endpoint;
  n_joinCnt : Z;
  n_fdbCnt : gmap (Addr * Z) Z;
  n_sboxInit : bool; n_initEpoch : Z; n_initErr : option err;
  n_subnets : list subnet;
  n_peerdb : peerMap.t }.

Definition set_sbox v n := mkNetwork (n_id n) (n_secure n) (n_mtu n) v (n_endpoints n) (n_joinCnt n) (n_fdbCnt n) (n_sboxInit n) (n_initEpoch n) (n_initErr n) (n_subnets n) (n_peerdb n).
Definition set_endpoints v n := mkNetwork (n_id n) (n_secure n) (n_mtu n) (n_sbox n) v (n_joinCnt n) (n_fdbCnt n) (n_sboxInit n) (n_initEpoch n) (n_initErr n) (n_subnets n) (n_peerdb n).
Definition set_joinCnt v n := mkNetwork (n_id n) (n_secure n) (n_mtu n) (n_sbox n) (n_endpoints n) v (n_fdbCnt n) (n_sboxInit n) (n_initEpoch n) (n_initErr n) (n_subnets n) (n_peerdb n).
Definition set_fdbCnt v n := mkNetwork (n_id n) (n_secure n) (n_mtu n) (n_sbox n) (n_endpoints n) (n_joinCnt n) v (n_sboxInit n) (n_initEpoch n) (n_initErr n) (n_subnets n) (n_peerdb n).
Definition set_sboxInit v n := mkNetwork (n_id n) (n_secure n) (n_mtu n) (n_sbox n) (n_endpoints n) (n_joinCnt n) (n_fdbCnt n) v (n_initEpoch n) (n_initErr n) (n_subnets n) (n_peerdb n).
Definition set_initEpoch v n := mkNetwork (n_id n) (n_secure n) (n_mtu n) (n_sbox n) (n_endpoints n) (n_joinCnt n) (n_fdbCnt n) (n_sboxInit n) v (n_initErr n) (n_subnets n) (n_peerdb n).
Definition set_initErr v n := mkNetwork (n_id n) (n_secure n) (n_mtu n) (n_sbox n) (n_endpoints n) (n_joinCnt n) (n_fdbCnt n) (n_sboxInit n) (n_initEpoch n) v (n_subnets n) (n_peerdb n).
Definition set_subnets v n := mkNetwork (n_id n) (n_secure n) (n_mtu n) (n_sbox n) (n_endpoints n) (n_joinCnt n) (n_fdbCnt n) (n_sboxInit n) (n_initEpoch n) (n_initErr n) v (n_peerdb n).
Definition set_peerdb v n := mkNetwork (n_id n) (n_secure n) (n_mtu n) (n_sbox n) (n_endpoints n) (n_joinCnt n) (n_fdbCnt n) (n_sboxInit n) (n_initEpoch n) (n_initErr n) (n_subnets n) v.

Definition set_init i (s : subnet) := mkSubnet i (s_vxlanName s) (s_brName s) (s_vni s) None (s_subnetIP s) (s_gwIP s).
Definition set_names vx br (s : subnet) := mkSubnet (s_sboxInit s) vx br (s_vni s) (s_initErr s) (s_subnetIP s) (s_gwIP s).

(** [getSubnetforIP]; a subnet goes by its index. *)
Definition inSubnet (ip : Prefix) (s : subnet) : bool :=
  (pfx_bits (s_subnetIP s) =? pfx_bits ip) && Contains (s_subnetIP s) (pfx_addr ip).
Definition getSubnetforIP (ip : Prefix) (n : network) : option nat := fst <$> list_find (fun s => inSubnet ip s = true) (n_subnets n).

Definition vxlanEncap : Z := 50.
Definition pktExpansion : Z := 26.

Definition maxMTU (n : network) : Z :=
  let mtu := (if n_mtu n =? 0 then 1500 else n_mtu n) - vxlanEncap in
  if n_secure n then let mtu := mtu - pktExpansion in mtu - Z.rem mtu 4 else mtu.

(** ** Names *)

Definition hexDigit (d : Z) : string :=
  default ""%string (["0"; "1"; "2"; "3"; "4"; "5"; "6"; "7"; "8"; "9"; "a"; "b"; "c"; "d"; "e"; "f"]%string !! Z.to_nat d).
Fixpoint hexDigits (width : nat) (v : Z) : string :=
  match width with O => "" | S w => hexDigits w (v / 16) +:+ hexDigit (v mod 16) end.
(** ["%06x"] of a [uint32]. *)
Definition hex6 (v : Z) : string := hexDigits (if v <? 16 ^ 6 then 6%nat else if v <? 16 ^ 7 then 7%nat else 8%nat) v.

Definition firstChars (k : nat) (s : string) : string := String.substring 0 k s.

Definition generateVxlanName (n : network) (s : subnet) : string := "vx-" +:+ hex6 (s_vni s) +:+ "-" +:+ firstChars 5 (n_id n).
Definition getBridgeNamePrefix (s : subnet) : string := "ov-" +:+ hex6 (s_vni s).
Definition generateBridgeName (n : network) (s : subnet) : string := getBridgeNamePrefix s +:+ "-" +:+ firstChars 5 (n_id n).

(** [osl.GenerateKey] of the epoch and the network, without the directory. *)
Definition sandboxKey (epoch : Z) (id : string) : string := firstChars 12 (pretty epoch +:+ "-" +:+ id).

(** The namespaces that [cleanupStaleSandboxes] removes. *)
Definition isStale (id fname : string) : bool :=
  match Split fname "-"%char with
  | _ :: pattern :: _ => match String.index 0 pattern id with Some _ => true | None => false end
  | _ => false
  end.

Section Overlay.
Context `{Xfrm} `{Host} `{PeerCodec}.

(** ** Neighbours of a sandbox ([osl/neigh_linux.go]) *)

Definition nlNeigh (ns : string) (dstIP : Addr) (dstMac : Z) (linkName : string) (family : Z) (h : HK) : option Neigh :=
  (fun link => mkNeigh link family dstIP dstMac false) <$>
  (if bool_decide (linkName = ""%string) then Some 0 else LinkIndex ns linkName h).

Definition AddNeighbor (ns : string) (dstIP : Addr) (dstMac : Z) (linkName : string) (family : Z) (h : HK) : HK * option err :=
  match nlNeigh ns dstIP dstMac linkName family h with
  | None => (h, Some (ErrNew "could not find the interface"))
  | Some nlnh =>
      match NeighAdd ns nlnh h with
      | (h, None) => (h, None)
      | (h, Some EEXIST) => (h, Some (NeighborSearchError true))
      | (h, Some e) => (h, Some (ErrW (ErrSys e)))
      end
  end.

Definition DeleteNeighbor (ns : string) (dstIP : Addr) (dstMac : Z) (linkName : string) (family : Z) (h : HK) : HK * option err :=
  match nlNeigh ns dstIP dstMac linkName family h with
  | None => (h, Some (ErrNew "could not find the interface"))
  | Some nlnh =>
      match NeighDel ns nlnh h with
      | (h, Some ENOENT) => (h, Some (NeighborSearchError false))
      | (h, Some e) => (h, Some (ErrW (ErrSys e)))
      | (h, None) =>
          (if 0 <? nl_Family nlnh then (NeighDel ns (mkNeigh (nl_Link nlnh) family dstIP dstMac true) h).1 else h, None)
      end
  end.

(** ** A network with the driver and the host *)

Record world := mkWorld { net : network; drv : driver; host : HK }.

Definition on_net (f : network -> network) (w : world) : world := mkWorld (f (net w)) (drv w) (host w).
Definition set_drv d (w : world) : world := mkWorld (net w) d (host w).
Definition set_host h (w : world) : world := mkWorld (net w) (drv w) h.

Definition isIPv6Transport (d : driver) : option bool :=
  if AddrIsValid (advertiseAddress d) then Some (Is6 (advertiseAddress d)) else None.

Definition ErrTransport : err := ErrNew "cannot determine address family of transport".
Definition ErrHost (failed : bool) (what : string) : option err := if failed then Some (ErrNew what) else None.

Definition programMangle (vni : Z) (add : bool) (w : world) : world * option err :=
  match isIPv6Transport (drv w) with
  | None => (w, Some ErrTransport)
  | Some v6 =>
      let '(h, e) := ProgramRule (if add then Append_ else Delete_) (mkRule v6 (vxlanUDPPort (drv w)) vni (MARK mark)) (host w) in
      (set_host h w, ErrHost e "could not program mangle rule")
  end.

Definition programInput (vni : Z) (add : bool) (w : world) : world * option err :=
  match isIPv6Transport (drv w) with
  | None => (w, Some ErrTransport)
  | Some v6 =>
      let '(h, e) := ProgramRule (if add then Insert_ else Delete_) (mkRule v6 (vxlanUDPPort (drv w)) vni DROP) (host w) in
      (set_host h w, ErrHost e "could not program input drop rule")
  end.

(** ** The sandbox *)

Definition initSandbox (w : world) : world * option err :=
  let n := set_initEpoch (n_initEpoch (net w) + 1) (net w) in
  let h := RemoveStale (isStale (n_id n)) (host w) in
  let key := sandboxKey (n_initEpoch n) (n_id n) in
  match NewSandbox key h with
  | (h, true) => (mkWorld n (drv w) h, Some (ErrNew "could not get network sandbox"))
  | (h, false) => (mkWorld (set_fdbCnt ∅ (set_sbox (Some key) n)) (drv w) h, None)
  end.

(** The operations below use the sandbox of the network, [n.sbox]; where the source does not
    check that it is there, [None] is the panic of a nil namespace. *)
Definition setupSubnetSandbox (s : subnet) (brName vxlanName : string) (w : world) : option (world * option err) :=
  let h := ReclaimVNI (s_vni s) (host w) in
  ns ← n_sbox (net w);
  match AddInterface ns brName h with
  | (h, true) => Some (set_host h w, Some (ErrNew "bridge creation in sandbox failed"))
  | (h, false) =>
      let v6transport := default false (isIPv6Transport (drv w)) in
      match createVxlan vxlanName (s_vni s) (maxMTU (net w)) v6transport h with
      | (h, true) => Some (set_host h w, Some (ErrNew "error creating vxlan interface"))
      | (h, false) =>
          match AddInterface ns vxlanName h with
          | (h, true) =>
              Some (set_host (deleteInterface vxlanName (RemoveInterface ns brName h)) w,
                    Some (ErrNew "vxlan interface creation failed"))
          | (h, false) => Some (set_host (setDefaultVLAN ns h) w, None)
          end
      end
  end.

Definition initSubnetSandbox (i : nat) (s : subnet) (w : world) : option (world * option err) :=
  let brName := generateBridgeName (net w) s in
  let vxlanName := generateVxlanName (net w) s in
  let setup w :=
    '(w, e) ← setupSubnetSandbox s brName vxlanName w;
    match e with
    | Some e => Some (w, Some e)
    | None => Some (on_net (fun n => set_subnets (<[i := set_names vxlanName brName s]> (n_subnets n)) n) w, None)
    end in
  match programMangle (s_vni s) (n_secure (net w)) w with
  | (w, Some e) => Some (w, Some e)
  | (w, None) =>
      match programInput (s_vni s) (n_secure (net w)) w with
      | (w, Some e) =>
          if n_secure (net w) then
            let '(w, e') := programMangle (s_vni s) false w in
            Some (w, Some (match e' with Some e' => ErrJoin e e' | None => e end))
          else setup w
      | (w, None) => setup w
      end
  end.

(** [addNeighbor], given how it joins the sandbox. *)
Definition addNeighborWith (join : nat -> bool -> world -> option (world * option err))
    (peerIP : Prefix) (peerMac : Z) (vtep : Addr) (w : world) : option (world * option err) :=
  match n_sbox (net w) with
  | None => Some (w, None)
  | Some _ =>
      match getSubnetforIP peerIP (net w) with
      | None => Some (w, Some (ErrNew "couldn't find the subnet"))
      | Some i =>
          '(w, e) ← join i false w;
          match e with
          | Some e => Some (w, Some (ErrV e))
          | None =>
              let w := if n_secure (net w) then set_drv (setupEncryption vtep (drv w)).1 w else w in
              ns ← n_sbox (net w);
              let vxlan := default ""%string (s_vxlanName <$> n_subnets (net w) !! i) in
              match AddNeighbor ns (pfx_addr peerIP) peerMac vxlan 0 (host w) with
              | (h, Some e) => Some (set_host h w, Some (ErrW e))
              | (h, None) =>
                  let '(fdbCnt, c) := countmap.Add (vtep, peerMac) 1 (n_fdbCnt (net w)) in
                  let w := on_net (set_fdbCnt fdbCnt) (set_host h w) in
                  if c =? 1 then
                    let '(h, e) := AddNeighbor ns vtep peerMac vxlan AF_BRIDGE (host w) in
                    Some (set_host h w, option_map ErrW e)
                  else Some (w, None)
              end
          end
      end
  end.

(** [initSandboxPeerDB]; its errors are only logged. *)
Definition initSandboxPeerDBWith (join : nat -> bool -> world -> option (world * option err)) (w : world) : option world :=
  foldl (fun acc '(peerIP, pEntry) =>
           w ← acc;
           if isLocal pEntry then Some w else fst <$> addNeighborWith join peerIP (pe_mac pEntry) (pe_vtep pEntry) w)
    (Some w) (peerMap.Walk (n_peerdb (net w))).

(** The first part of [joinSandbox]. *)
Definition joinInit (w : world) : world * bool :=
  if n_sboxInit (net w) then (w, false)
  else let '(w, e) := initSandbox w in (on_net (fun n => set_sboxInit true (set_initErr e n)) w, negb (is_err e)).

Definition joinSubnet (i : nat) (s : subnet) (w : world) : option (world * option err) :=
  if s_sboxInit s then Some (w, s_initErr s)
  else
    '(w, e) ← initSubnetSandbox i s w;
    match e with
    | Some e => Some (w, Some e)
    | None => Some (on_net (fun n => set_subnets (alter (set_init true) i (n_subnets n)) n) w, None)
    end.

(** [joinSandbox], which may come back to itself through the peers; [None] also when the fuel
    is used up. *)
Fixpoint joinSandbox (fuel : nat) (i : nat) (incJoinCount : bool) (w : world) : option (world * option err) :=
  match fuel with
  | O => None
  | S fuel =>
      let '(w, initialized) := joinInit w in
      match n_initErr (net w), n_subnets (net w) !! i with
      | Some e, _ => Some (w, Some (ErrV e))
      | None, None => Some (w, Some (ErrNew "no subnet"))
      | None, Some s =>
          '(w, e) ← joinSubnet i s w;
          match e with
          | Some e => Some (w, Some (ErrV e))
          | None =>
              let w := if incJoinCount then on_net (fun n => set_joinCnt (n_joinCnt n + 1) n) w else w in
              w ← (if initialized then initSandboxPeerDBWith (joinSandbox fuel) w else Some w);
              Some (w, None)
          end
      end
  end.

(** The sandbox is initialised once; peers are added after that. *)
Definition joinFuel : nat := 2.
Definition addNeighbor := addNeighborWith (joinSandbox joinFuel).

Definition destroySandbox (w : world) : world :=
  match n_sbox (net w) with
  | None => w
  | Some ns =>
      let h := foldl (fun h s => if bool_decide (s_vxlanName s = ""%string) then h else deleteInterface (s_vxlanName s) h)
                 (RemoveInterfaces ns (host w)) (n_subnets (net w)) in
      mkWorld (set_sbox None (net w)) (drv w) (DestroySandbox ns h)
  end.

Definition leaveSandbox (w : world) : world :=
  let w := on_net (fun n => set_joinCnt (n_joinCnt n - 1) n) w in
  if n_joinCnt (net w) =? 0 then
    on_net (fun n => set_sboxInit false (set_initErr None (set_subnets (map (set_init false) (n_subnets n)) n))) (destroySandbox w)
  else w.

(** ** Peers of a network *)

Definition peerAdd (eid : string) (peerIP : Prefix) (peerMac : Z) (vtep : Addr) (w : world) : option (world * option err) :=
  if bool_decide (eid = ""%string) then Some (w, Some (ErrNew "invalid endpoint id"))
  else
    let '(pm, (_, dbEntries)) := peerMap.Add eid peerIP peerMac vtep (n_peerdb (net w)) in
    let w := on_net (set_peerdb pm) w in
    if AddrIsValid vtep then
      '(w, e) ← addNeighbor peerIP peerMac vtep w;
      match e with
      | Some e => if (1 <? dbEntries)%nat && AsNeighborSearchError e then Some (w, None) else Some (w, Some (ErrW e))
      | None => Some (w, None)
      end
    else Some (w, None).

Definition deleteNeighbor (peerIP : Prefix) (peerMac : Z) (vtep : Addr) (w : world) : world * option err :=
  match n_sbox (net w) with
  | None => (w, None)
  | Some ns =>
      let w := if n_secure (net w) then set_drv (removeEncryption vtep (drv w)) w else w in
      match getSubnetforIP peerIP (net w) with
      | None => (w, Some (ErrNew "could not find the subnet"))
      | Some i =>
          let vxlan := default ""%string (s_vxlanName <$> n_subnets (net w) !! i) in
          let '(fdbCnt, c) := countmap.Add (vtep, peerMac) (-1) (n_fdbCnt (net w)) in
          let w := on_net (set_fdbCnt fdbCnt) w in
          let '(h, e) := if c =? 0 then DeleteNeighbor ns vtep peerMac vxlan AF_BRIDGE (host w) else (host w, None) in
          let w := set_host h w in
          match e with
          | Some e => (w, Some (ErrW e))
          | None =>
              let '(h, e) := DeleteNeighbor ns (pfx_addr peerIP) peerMac vxlan 0 (host w) in
              (set_host h w, option_map ErrV e)
          end
      end
  end.

Definition peerDelete (eid : string) (peerIP : Prefix) (peerMac : Z) (vtep : Addr) (w : world) : option (world * option err) :=
  if bool_decide (eid = ""%string) then Some (w, Some (ErrNew "invalid endpoint id"))
  else
    let '(pm, (_, dbEntries)) := peerMap.Delete eid peerIP peerMac vtep (n_peerdb (net w)) in
    let w := on_net (set_peerdb pm) w in
    let '(w, e) := if AddrIsValid vtep then deleteNeighbor peerIP peerMac vtep w else (w, None) in
    let absent := match e with Some e => AsNeighborSearchError e | None => false end in
    if (0 <? dbEntries)%nat && absent then Some (w, None)
    else if (0 <? dbEntries)%nat then
      match peerMap.Get peerIP (n_peerdb (net w)) with
      | None => Some (w, Some (ErrNew "unable to restore a configuration"))
      | Some p =>
          '(w, e) ← addNeighbor peerIP (pe_mac p) (pe_vtep p) w;
          Some (w, option_map ErrW e)
      end
    else Some (w, None).

(** ** The driver *)

Record overlay := mkOverlay { o_drv : driver; o_networks : gmap string network; o_host : HK }.

(** What a call did to a network it had locked. *)
Definition worldOf (n : network) (o : overlay) : world := mkWorld n (o_drv o) (o_host o).
Definition put (nid : string) (w : world) (o : overlay) : overlay :=
  mkOverlay (drv w) (<[nid := net w]> (o_networks o)) (host w).

Definition validateID (nid eid : string) : option err :=
  if bool_decide (nid = ""%string) then Some (ErrNew "invalid network id")
  else if bool_decide (eid = ""%string) then Some (ErrNew "invalid endpoint id") else None.

Definition ErrNotFound : err := ErrNew "network not found".

(** [CreateNetwork] with its options decoded: the list of VNIs, the option [encrypted] and
    the MTU; [pools] has the pool and the gateway of each entry of [ipV4Data], [registered]
    is whether [TableEventRegister] worked. *)
Definition CreateNetwork (id : string) (vnis : list Z) (secure : bool) (mtu : Z) (pools : list (Prefix * Prefix)) (registered : bool)
    (o : overlay) : overlay * option err :=
  if bool_decide (id = ""%string) then (o, Some (ErrNew "invalid network id"))
  else if (match pools with [] => true | (p, _) :: _ => bool_decide (p = mkPrefix (Addr4 0) 0) end) then (o, Some (ErrNew "ipv4 pool is empty"))
  else if mtu <? 0 then (o, Some (ErrNew "invalid MTU value"))
  else if (length vnis =? 0)%nat then (o, Some (ErrNew "no VNI provided"))
  else if (length vnis <? length pools)%nat then (o, Some (ErrNew "insufficient vnis passed to overlay"))
  else
    let subnets := zip_with (fun vni '(pool, gw) => mkSubnet false "" "" vni None pool gw) vnis pools in
    let n := mkNetwork id secure mtu None ∅ 0 ∅ false 0 None subnets ∅ in
    match o_networks o !! id with
    | Some _ => (o, Some (ErrNew "attempt to create overlay network that already exists"))
    | None =>
        let w := worldOf n o in
        let w := if secure then w
                 else foldl (fun w vni => (programInput vni false (programMangle vni false w).1).1) w vnis in
        (put id w o, if registered then None else Some (ErrNew "TableEventRegister"))
    end.

(** [DeleteNetwork]; the interfaces of its endpoints go as well. *)
Definition DeleteNetwork (nid : string) (o : overlay) : overlay * option err :=
  if bool_decide (nid = ""%string) then (o, Some (ErrNew "invalid network id"))
  else match o_networks o !! nid with
  | None => (o, Some ErrNotFound)
  | Some n =>
      let w := worldOf n o in
      let h := foldl (fun h '(_, ep) => if bool_decide (ep_ifName ep = ""%string) then h else deleteInterface (ep_ifName ep) h)
                 (host w) (map_to_list (n_endpoints n)) in
      let w := set_host h w in
      let w := if n_secure n then
                 foldl (fun w s => (programInput (s_vni s) false (programMangle (s_vni s) false w).1).1) w (n_subnets n)
               else w in
      (mkOverlay (drv w) (delete nid (o_networks o)) (host w), None)
  end.

(** [ifAddr] and [ifMac]: what the interface has; [macSet]: whether it accepts a new MAC. *)
Definition CreateEndpoint (nid eid : string) (ifAddr : option Prefix) (ifMac : option (list Z)) (macSet : bool) (o : overlay)
    : overlay * option err :=
  match validateID nid eid, o_networks o !! nid with
  | Some e, _ => (o, Some e)
  | None, None => (o, Some ErrNotFound)
  | None, Some n =>
      match ifAddr with
      | None => (o, Some (ErrNew "create endpoint was not passed interface IP address"))
      | Some addr =>
          match getSubnetforIP addr n with
          | None => (o, Some (ErrNew "no matching subnet for IP"))
          | Some _ =>
              let add mac := (put nid (worldOf (set_endpoints (<[eid := mkEndpoint eid (n_id n) "" mac addr]> (n_endpoints n)) n) o) o, None) in
              match ifMac with
              | Some hw => match MACAddrFromSlice hw with
                           | None => (o, Some (ErrNew "invalid MAC address"))
                           | Some mac => add mac
                           end
              | None => if macSet then add (MACAddrFrom6 (GenerateMACFromIP (pfx_addr addr))) else (o, Some (ErrNew "SetMacAddress"))
              end
          end
      end
  end.

Definition DeleteEndpoint (nid eid : string) (o : overlay) : overlay * option err :=
  match validateID nid eid, o_networks o !! nid with
  | Some e, _ => (o, Some e)
  | None, None => (o, Some ErrNotFound)
  | None, Some n =>
      match n_endpoints n !! eid with
      | None => (o, Some (ErrNew "endpoint id not found"))
      | Some ep =>
          let h := if bool_decide (ep_ifName ep = ""%string) then o_host o else deleteInterface (ep_ifName ep) (o_host o) in
          (put nid (mkWorld (set_endpoints (delete eid (n_endpoints n)) n) (o_drv o) h) o, None)
      end
  end.

(** The part of [Join] between joining the sandbox and recording the peer: the interface of
    the container.  [named]: whether the sandbox takes the name. *)
Definition attach (eid : string) (ep : endpoint) (i : nat) (named : bool) (w : world) : option (world * option err) :=
  let fail what w := Some (w, Some (ErrNew what)) in
  match createVethPair (host w) with
  | (h, None) => fail "error creating veth pair"%string (set_host h w)
  | (h, Some (overlayIfName, containerIfName)) =>
      let ep := mkEndpoint (ep_id ep) (ep_nid ep) containerIfName (ep_mac ep) (ep_addr ep) in
      let w := on_net (fun n => set_endpoints (<[eid := ep]> (n_endpoints n)) n) (set_host h w) in
      let mtu := maxMTU (net w) in
      match LinkSetMTU overlayIfName mtu (host w) with
      | (h, true) => fail "LinkSetMTU"%string (set_host h w)
      | (h, false) =>
          ns ← n_sbox (net w);
          match AddInterface ns overlayIfName h with
          | (h, true) => fail "could not add veth pair inside the network sandbox"%string (set_host h w)
          | (h, false) =>
              match LinkSetMTU containerIfName mtu h with
              | (h, true) => fail "LinkSetMTU"%string (set_host h w)
              | (h, false) =>
                  match LinkSetHardwareAddr containerIfName (MACAsSlice (ep_mac ep)) h with
                  | (h, true) => fail "could not set mac address"%string (set_host h w)
                  | (h, false) => if named then Some (set_host h w, None) else fail "SetNames"%string (set_host h w)
                  end
              end
          end
      end
  end.

(** [Join]; with the peer that it announces. [xfrmSupported]: whether the kernel has IPsec. *)
Definition Join (nid eid : string) (xfrmSupported named : bool) (o : overlay) : option (overlay * option err * option Peer) :=
  match validateID nid eid, o_networks o !! nid with
  | Some e, _ => Some (o, Some e, None)
  | None, None => Some (o, Some ErrNotFound, None)
  | None, Some n =>
      match n_endpoints n !! eid with
      | None => Some (o, Some (ErrNew "could not find endpoint"), None)
      | Some ep =>
          if n_secure n && ((length (keys (o_drv o)) =? 0)%nat || negb xfrmSupported)
          then Some (o, Some (ErrNew "cannot join secure network"), None)
          else match getSubnetforIP (ep_addr ep) n with
          | None => Some (o, Some (ErrNew "could not find subnet for endpoint"), None)
          | Some i =>
              '(w, e) ← joinSandbox joinFuel i true (worldOf n o);
              match e with
              | Some e => Some (put nid w o, Some (ErrV e), None)
              | None =>
                  '(w, e) ← attach eid ep i named w;
                  match e with
                  | Some e => Some (put nid w o, Some e, None)
                  | None =>
                      '(w, e) ← peerAdd eid (ep_addr ep) (ep_mac ep) AddrZero w;
                      match e with
                      | Some e => Some (put nid w o, Some (ErrW e), None)
                      | None => Some (put nid w o, None, Some (mkPeerRecord (ep_addr ep) (ep_mac ep) (advertiseAddress (drv w))))
                      end
                  end
              end
          end
      end
  end.

Definition Leave (nid eid : string) (o : overlay) : option (overlay * option err) :=
  match validateID nid eid, o_networks o !! nid with
  | Some e, _ => Some (o, Some e)
  | None, None => Some (o, Some ErrNotFound)
  | None, Some n =>
      match n_endpoints n !! eid with
      | None => Some (o, Some (ErrNew "could not find endpoint"))
      | Some ep =>
          '(w, e) ← peerDelete eid (ep_addr ep) (ep_mac ep) AddrZero (worldOf n o);
          match e with
          | Some e => Some (put nid w o, Some (ErrW e))
          | None => Some (put nid (leaveSandbox w) o, None)
          end
      end
  end.

Definition OverlayPeerTable : string := "overlay_peer_table".

(** The peer of a record, if it is one of another node. *)
Definition remotePeer (d : driver) (data : option (list Z)) : option Peer :=
  p ← (data ≫= UnmarshalPeerRecord); if bool_decide (TunnelEndpointIP p = advertiseAddress d) then None else Some p.

(** [EventNotify]; what goes wrong is only logged. *)
Definition EventNotify (nid tableName key : string) (prev value : option (list Z)) (o : overlay) : option overlay :=
  if negb (bool_decide (tableName = OverlayPeerTable)) then Some o
  else
    let prevPeer := remotePeer (o_drv o) prev in
    let newPeer := remotePeer (o_drv o) value in
    if bool_decide (prevPeer = newPeer) then Some o
    else match o_networks o !! nid with
    | None => Some o
    | Some n =>
        let w := worldOf n o in
        w ← (match prevPeer with
             | Some p => fst <$> peerDelete key (EndpointIP p) (EndpointMAC p) (TunnelEndpointIP p) w
             | None => Some w
             end);
        w ← (match newPeer with
             | Some p => fst <$> peerAdd key (EndpointIP p) (EndpointMAC p) (TunnelEndpointIP p) w
             | None => Some w
             end);
        Some (put nid w o)
    end.
End Overlay.
