(* ===== verification/OverlayPeersSpec.v ===== *)
(** * What the data plane of an overlay network keeps

    The laws of the host ([HostLaws]: namespaces with links, neighbours and forwarding
    entries, and the rules of iptables; [Healthy]: a host on which nothing fails), that
    joining a sandbox returns, and what the neighbours, the forwarding entries and their
    counters are for a set of peers of other nodes ([tablesOk]), with how adding and deleting
    one peer changes them. *)

From Stdlib Require Import String Ascii.
From S2P Require Import Prelude Slices NetIP SetMatrix OverlayKeys OverlayKeysSpec OverlayPeers.
From stdpp Require Import gmap list strings pretty.

Local Open Scope Z_scope.

(** ** The host *)

(** A namespace: the index of a link, the neighbours of a link by their address, and the
    forwarding entries of a link by their MAC address. *)
Record space := mkSpace { sp_links : gmap string Z; sp_neighs : gmap (Z * Addr) Z; sp_fdb : gmap (Z * Z) Addr }.

Definition emptySpace : space := mkSpace ∅ ∅ ∅.

(** What the kernel does with a neighbour: an entry that exists is not replaced; a forwarding
    entry is found by its MAC address and deleted with its destination, a neighbour by its
    address. *)
Definition space_add (n : Neigh) (sp : space) : space * option errno :=
  if nl_Family n =? AF_BRIDGE then
    match sp_fdb sp !! (nl_Link n, nl_Mac n) with
    | Some _ => (sp, Some EEXIST)
    | None => (mkSpace (sp_links sp) (sp_neighs sp) (<[(nl_Link n, nl_Mac n) := nl_IP n]> (sp_fdb sp)), None)
    end
  else
    match sp_neighs sp !! (nl_Link n, nl_IP n) with
    | Some _ => (sp, Some EEXIST)
    | None => (mkSpace (sp_links sp) (<[(nl_Link n, nl_IP n) := nl_Mac n]> (sp_neighs sp)) (sp_fdb sp), None)
    end.

Definition space_del (n : Neigh) (sp : space) : space * option errno :=
  if nl_Master n then (sp, Some ENOENT)
  else if nl_Family n =? AF_BRIDGE then
    if bool_decide (sp_fdb sp !! (nl_Link n, nl_Mac n) = Some (nl_IP n))
    then (mkSpace (sp_links sp) (sp_neighs sp) (delete (nl_Link n, nl_Mac n) (sp_fdb sp)), None)
    else (sp, Some ENOENT)
  else
    match sp_neighs sp !! (nl_Link n, nl_IP n) with
    | Some _ => (mkSpace (sp_links sp) (delete (nl_Link n, nl_IP n) (sp_neighs sp)) (sp_fdb sp), None)
    | None => (sp, Some ENOENT)
    end.

Definition add_link (name : string) (i : Z) (sp : space) : space :=
  match sp_links sp !! name with
  | Some _ => sp
  | None => mkSpace (<[name := i]> (sp_links sp)) (sp_neighs sp) (sp_fdb sp)
  end.

Class HostLaws `{Host} := {
  spaces : HK -> gmap string space;
  hasRule : vxlanRule -> HK -> bool;
  new_sandbox ns h : (NewSandbox ns h).2 = false ->
    spaces (NewSandbox ns h).1 = <[ns := emptySpace]> (spaces h) /\ forall r, hasRule r (NewSandbox ns h).1 = hasRule r h;
  remove_interfaces ns h :
    delete ns (spaces (RemoveInterfaces ns h)) = delete ns (spaces h) /\ forall r, hasRule r (RemoveInterfaces ns h) = hasRule r h;
  destroy_sandbox ns h :
    spaces (DestroySandbox ns h) = delete ns (spaces h) /\ forall r, hasRule r (DestroySandbox ns h) = hasRule r h;
  remove_stale p h : (forall ns, spaces (RemoveStale p h) !! ns = if p ns then None else spaces h !! ns) /\
    forall r, hasRule r (RemoveStale p h) = hasRule r h;
  add_interface ns name h sp : spaces h !! ns = Some sp -> (AddInterface ns name h).2 = false ->
    (exists i, (forall name', sp_links sp !! name' <> Some i) /\
       spaces (AddInterface ns name h).1 = <[ns := add_link name i sp]> (spaces h)) /\
    forall r, hasRule r (AddInterface ns name h).1 = hasRule r h;
  link_index ns name h : LinkIndex ns name h = (sp ← spaces h !! ns; sp_links sp !! name);
  neigh_add ns n h sp : spaces h !! ns = Some sp ->
    spaces (NeighAdd ns n h).1 = <[ns := (space_add n sp).1]> (spaces h) /\ (NeighAdd ns n h).2 = (space_add n sp).2 /\
    forall r, hasRule r (NeighAdd ns n h).1 = hasRule r h;
  neigh_del ns n h sp : spaces h !! ns = Some sp ->
    spaces (NeighDel ns n h).1 = <[ns := (space_del n sp).1]> (spaces h) /\
    (nl_Master n = false -> (NeighDel ns n h).2 = (space_del n sp).2) /\
    forall r, hasRule r (NeighDel ns n h).1 = hasRule r h;
  program_rule a r h : (ProgramRule a r h).2 = false ->
    spaces (ProgramRule a r h).1 = spaces h /\
    forall r', hasRule r' (ProgramRule a r h).1 = if bool_decide (r' = r) then match a with Delete_ => false | _ => true end else hasRule r' h;
  veth_name h h' a b : createVethPair h = (h', Some (a, b)) -> String.prefix "veth" a = true;
  others_quiet h h' :
    (exists vni, h' = ReclaimVNI vni h) \/ (exists ns, h' = setDefaultVLAN ns h) \/
    (exists name vni mtu v6, h' = (createVxlan name vni mtu v6 h).1) \/ (exists name, h' = deleteInterface name h) \/
    h' = (createVethPair h).1 \/ (exists name mtu, h' = (LinkSetMTU name mtu h).1) \/
    (exists name hw, h' = (LinkSetHardwareAddr name hw h).1) ->
    spaces h' = spaces h /\ forall r, hasRule r h' = hasRule r h }.

(** A host that grants what the driver needs for its sandboxes. *)
Class Healthy `{Host} := {
  new_sandbox_works ns h : (NewSandbox ns h).2 = false;
  add_interface_works ns name h : (AddInterface ns name h).2 = false;
  create_vxlan_works name vni mtu v6 h : (createVxlan name vni mtu v6 h).2 = false;
  program_rule_works a r h : (ProgramRule a r h).2 = false }.

(** ** Every call returns *)

Section Returns.
Context `{Xfrm} `{Host}.

(** A network whose sandbox was initialised without an error has one. *)
Definition sane (n : network) : Prop := n_sboxInit n = true -> n_initErr n = None -> is_Some (n_sbox n).
Definition boxed (n : network) : Prop := n_sboxInit n = true /\ n_initErr n = None /\ is_Some (n_sbox n).

Lemma boxed_sane n : boxed n -> sane n.
Proof. by intros (_ & _ & ?) _ _. Qed.

(** The sandbox and how it was initialised stay. *)
Definition sameBox (n n' : network) : Prop :=
  n_sboxInit n' = n_sboxInit n /\ n_initErr n' = n_initErr n /\ n_sbox n' = n_sbox n.

#[export] Instance sameBox_preorder : PreOrder sameBox.
Proof. split; [by intros n|]. intros a b c (E1 & E2 & E3) (E4 & E5 & E6). repeat split; congruence. Qed.

Lemma sane_same n n' : sameBox n n' -> sane n -> sane n'.
Proof. intros (E1 & E2 & E3). unfold sane. by rewrite E1, E2, E3. Qed.

Lemma boxed_same n n' : sameBox n n' -> boxed n -> boxed n'.
Proof. intros (E1 & E2 & E3). unfold boxed. by rewrite E1, E2, E3. Qed.

Lemma rules_net vni add w : net (programMangle vni add w).1 = net w /\ net (programInput vni add w).1 = net w.
Proof.
  unfold programMangle, programInput. destruct (isIPv6Transport (drv w)); [|done].
  split; by destruct (ProgramRule _ _ _).
Qed.

Lemma setup_returns s br vx w : is_Some (n_sbox (net w)) -> exists h e, setupSubnetSandbox s br vx w = Some (set_host h w, e).
Proof.
  intros [ns E]. unfold setupSubnetSandbox. rewrite E. cbn [mbind option_bind].
  destruct (AddInterface _ _ _) as [h []]; [by eexists _, _|]. destruct (createVxlan _ _ _ _ _) as [h' []]; [by eexists _, _|].
  destruct (AddInterface _ _ h') as [h'' []]; by eexists _, _.
Qed.

Lemma initSubnet_returns i s w : is_Some (n_sbox (net w)) ->
  exists w' e, initSubnetSandbox i s w = Some (w', e) /\ sameBox (net w) (net w').
Proof.
  intros Hb. unfold initSubnetSandbox. cbn zeta. set (br := generateBridgeName _ _). set (vx := generateVxlanName _ _).
  assert (Hs : forall w1, net w1 = net w -> exists w' e, ('(w0, e) ← setupSubnetSandbox s br vx w1;
    match e with
    | Some e => Some (w0, Some e)
    | None => Some (on_net (fun n => set_subnets (<[i := set_names vx br s]> (n_subnets n)) n) w0, None)
    end) = Some (w', e) /\ sameBox (net w) (net w')).
  { intros w1 E. destruct (setup_returns s br vx w1) as (h & e & ->); [by rewrite E|]. cbn.
    destruct e; eexists _, _; (split; [done|]); cbn; by rewrite E. }
  pose proof (proj1 (rules_net (s_vni s) (n_secure (net w)) w)) as E1.
  destruct (programMangle (s_vni s) (n_secure (net w)) w) as [w1 [e1|]]; cbn in E1; [eexists _, _; split; [done|]; by rewrite E1|].
  pose proof (proj2 (rules_net (s_vni s) (n_secure (net w1)) w1)) as E2.
  destruct (programInput (s_vni s) (n_secure (net w1)) w1) as [w2 [e2|]]; cbn in E2; [|apply Hs; congruence].
  destruct (n_secure (net w2)); [|apply Hs; congruence].
  pose proof (proj1 (rules_net (s_vni s) false w2)) as E3. destruct (programMangle (s_vni s) false w2) as [w3 e3].
  eexists _, _. split; [done|]. cbn in E3. by rewrite E3, E2, E1.
Qed.

Lemma joinSubnet_returns i s w : is_Some (n_sbox (net w)) ->
  exists w' e, joinSubnet i s w = Some (w', e) /\ sameBox (net w) (net w').
Proof.
  intros Hb. unfold joinSubnet. destruct (s_sboxInit s); [by eexists _, _|].
  destruct (initSubnet_returns i s w Hb) as (w' & e & -> & Hs). cbn. destruct e; by eexists _, _.
Qed.

Lemma joinInit_sane w : sane (net w) -> n_sboxInit (net (joinInit w).1) = true /\ sane (net (joinInit w).1).
Proof.
  intros Hn. unfold joinInit. destruct (n_sboxInit (net w)) eqn:E; [by split|]. unfold initSandbox.
  destruct (NewSandbox _ _) as [h []]; (split; [done|]); intros _; [done|by eexists].
Qed.

(** The second part of [joinSandbox], [k] for what follows the subnet. *)
Lemma join_rest_returns i (k : world -> option world) w : n_sboxInit (net w) = true -> sane (net w) ->
  (forall w', boxed (net w') -> exists w2, k w' = Some w2 /\ boxed (net w2)) ->
  exists w' e, match n_initErr (net w), n_subnets (net w) !! i with
    | Some e, _ => Some (w, Some (ErrV e))
    | None, None => Some (w, Some (ErrNew "no subnet"))
    | None, Some s =>
        '(w, e) ← joinSubnet i s w;
        match e with Some e => Some (w, Some (ErrV e)) | None => w ← k w; Some (w, None) end
    end = Some (w', e) /\ sane (net w') /\ (boxed (net w) -> boxed (net w')) /\ (e = None -> boxed (net w')).
Proof.
  intros Hi Hn Hk. destruct (n_initErr (net w)) eqn:He; [by eexists _, _|].
  destruct (n_subnets (net w) !! i) as [s|]; [|by eexists _, _]. pose proof (Hn Hi He) as Hb.
  destruct (joinSubnet_returns i s w Hb) as (w1 & e & -> & Hs). cbn [mbind option_bind].
  assert (H1 : boxed (net w1)) by (apply (boxed_same (net w)); [done|by split]).
  destruct e; [eexists _, _; split; [done|]; split; [by apply boxed_sane|done]|].
  destruct (Hk w1 H1) as (w2 & -> & H2). eexists _, _. split; [done|]. split; [by apply boxed_sane|done].
Qed.

Definition counted (inc : bool) (w : world) : world :=
  if inc then on_net (fun n => set_joinCnt (n_joinCnt n + 1) n) w else w.

Lemma counted_boxed inc w : boxed (net w) -> boxed (net (counted inc w)).
Proof. apply boxed_same. by destruct inc. Qed.

(** With an initialised sandbox no peer is walked. *)
Lemma join_boxed fuel i inc w : boxed (net w) ->
  exists w' e, joinSandbox (S fuel) i inc w = Some (w', e) /\ boxed (net w').
Proof.
  intros Hb. cbn [joinSandbox]. unfold joinInit. rewrite (proj1 Hb).
  destruct (join_rest_returns i (fun w => Some (counted inc w)) w) as (w' & e & E & _ & H' & _);
    [apply Hb|by apply boxed_sane|intros w' H'; eexists; split; [done|by apply counted_boxed]|].
  exists w', e. split; [exact E|by apply H'].
Qed.

(** [P] is what joining keeps. *)
Lemma addNeighborWith_returns (P : network -> Prop) join ip mac vtep w : (forall n n', sameBox n n' -> P n -> P n') -> P (net w) ->
  (forall i, exists w' e, join i false w = Some (w', e) /\ P (net w') /\ (e = None -> boxed (net w'))) ->
  exists w' e, addNeighborWith join ip mac vtep w = Some (w', e) /\ P (net w').
Proof.
  intros HP Hw Hj. unfold addNeighborWith. destruct (n_sbox (net w)); [|by eexists _, _].
  destruct (getSubnetforIP ip (net w)) as [i|]; [|by eexists _, _].
  destruct (Hj i) as (w1 & e & -> & H1 & Hb). cbn [mbind option_bind]. destruct e; [by eexists _, _|].
  destruct (Hb eq_refl) as (_ & _ & ns & Hns). clear Hj Hb.
  set (w2 := if n_secure (net w1) then _ else w1). assert (E2 : net w2 = net w1) by (unfold w2; by destruct (n_secure (net w1))).
  rewrite E2, Hns. cbn [mbind option_bind]. rewrite <-E2 in H1. clearbody w2. clear E2 Hns.
  destruct (AddNeighbor _ _ _ _ _ (host w2)) as [h []]; [by eexists _, _|].
  match goal with |- context [countmap.Add ?a ?b ?c] => destruct (countmap.Add a b c) as [f c'] end.
  assert (H3 : P (set_fdbCnt f (net w2))) by by apply (HP (net w2)).
  destruct (c' =? 1); [|by eexists _, _]. destruct (AddNeighbor _ _ _ _ _ _) as [h' e']. by eexists _, _.
Qed.

Lemma initPeers_returns fuel w : boxed (net w) ->
  exists w', initSandboxPeerDBWith (joinSandbox (S fuel)) w = Some w' /\ boxed (net w').
Proof.
  intros Hb. unfold initSandboxPeerDBWith. generalize (peerMap.Walk (n_peerdb (net w))). intros l. revert w Hb.
  induction l as [|[ip p] l IH]; intros w Hb; cbn [foldl]; [by eexists|]. cbn [mbind option_bind].
  destruct (isLocal p); [by apply IH|].
  destruct (addNeighborWith_returns boxed (joinSandbox (S fuel)) ip (pe_mac p) (pe_vtep p) w) as (w' & e & -> & H');
    [apply boxed_same|done| |by apply IH].
  intros i. destruct (join_boxed fuel i false w Hb) as (w' & e & E & H'). by exists w', e.
Qed.

Lemma joinSandbox_returns fuel i inc w : sane (net w) ->
  exists w' e, joinSandbox (S (S fuel)) i inc w = Some (w', e) /\ sane (net w') /\ (e = None -> boxed (net w')).
Proof.
  intros Hn. remember (S fuel) as f eqn:Ef. cbn [joinSandbox]. destruct (joinInit_sane w Hn) as [Hi H1].
  destruct (joinInit w) as [w1 b]. cbn [fst] in *.
  destruct (join_rest_returns i (fun w => if b then initSandboxPeerDBWith (joinSandbox f) (counted inc w) else Some (counted inc w)) w1)
    as (w' & e & E & H' & _ & Hb); [done|done| |by exists w', e].
  intros w2 H2%(counted_boxed inc). destruct b; [|by eexists]. rewrite Ef. by apply initPeers_returns.
Qed.
End Returns.

Abbreviation peerSet := (gset (Prefix * peerEntry)).

(** ** The peers of a network *)

Definition remotesOf (pm : peerMap.t) : peerSet :=
  list_to_set (flat_map (fun '(ip, c) => map (pair ip) (filter (fun e => isLocal e = false) (elements c))) (map_to_list pm)).

Lemma elem_of_remotes ip e pm : (ip, e) ∈ remotesOf pm <-> e ∈ SetMatrix.members ip pm /\ isLocal e = false.
Proof.
  unfold remotesOf, SetMatrix.members. rewrite elem_of_list_to_set, list_elem_of_In, in_flat_map. split.
  - intros ([ip' c] & Hin%list_elem_of_In%elem_of_map_to_list & He%list_elem_of_In). apply list_elem_of_fmap in He as (e' & [= <- <-] & He).
    apply list_elem_of_filter in He as [Hl He%elem_of_elements]. by rewrite Hin.
  - intros [He Hl]. destruct (pm !! ip) as [c|] eqn:E; cbn in He; [|set_solver].
    exists (ip, c). split; [by apply list_elem_of_In, elem_of_map_to_list|]. apply list_elem_of_In, list_elem_of_fmap. exists e. split; [done|].
    apply list_elem_of_filter. split; [done|by apply elem_of_elements].
Qed.

(** No address belongs to two endpoints. *)
Definition single (pm : peerMap.t) : Prop :=
  forall ip e e', e ∈ SetMatrix.members ip pm -> e' ∈ SetMatrix.members ip pm -> e = e'.

Lemma single_members ip e pm : single pm -> e ∈ SetMatrix.members ip pm -> SetMatrix.members ip pm = {[e]}.
Proof. intros Hs He. apply set_eq. intros e'. rewrite elem_of_singleton. split; [intros He'; by eapply Hs|by intros ->]. Qed.

Lemma Get_single ip e pm : single pm -> e ∈ SetMatrix.members ip pm -> peerMap.Get ip pm = Some e.
Proof.
  intros Hs He. pose proof (single_members ip e pm Hs He) as Hm. unfold peerMap.Get, SetMatrix.Get, SetMatrix.members in *.
  destruct (pm !! ip) as [c|]; cbn in Hm; [|set_solver]. by rewrite Hm, elements_singleton.
Qed.

Lemma Get_members ip e pm : peerMap.Get ip pm = Some e -> e ∈ SetMatrix.members ip pm.
Proof.
  unfold peerMap.Get, SetMatrix.Get, SetMatrix.members. destruct (pm !! ip) as [c|]; [|done]. cbn.
  intros Hh. destruct (elements c) as [|e' l] eqn:E; [done|]. injection Hh as ->. apply elem_of_elements. rewrite E. by apply list_elem_of_here.
Qed.

Lemma Walk_elem ip e pm : single pm -> (ip, e) ∈ peerMap.Walk pm <-> e ∈ SetMatrix.members ip pm.
Proof.
  intros Hs. unfold peerMap.Walk. rewrite list_elem_of_omap. split.
  - intros (ip' & _ & (e' & Hg & [= <- <-])%fmap_Some). by apply Get_members.
  - intros He. exists ip. split; [|by rewrite (Get_single ip e pm Hs He)]. unfold SetMatrix.Keys, SetMatrix.members in *.
    destruct (pm !! ip) as [c|] eqn:E; cbn in He; [|set_solver].
    apply (list_elem_of_fmap_2 fst _ (ip, c)), elem_of_map_to_list, E.
Qed.

Lemma Walk_NoDup pm : NoDup (peerMap.Walk pm).
Proof.
  unfold peerMap.Walk, SetMatrix.Keys. pose proof (NoDup_fst_map_to_list pm) as Hnd. revert Hnd.
  generalize ((map_to_list pm).*1). induction l as [|ip l IH]; [constructor|]. intros [Hi Hn]%NoDup_cons. cbn.
  destruct (peerMap.Get ip pm) as [e|]; cbn; [|by apply IH]. apply NoDup_cons. split; [|by apply IH].
  rewrite list_elem_of_omap. intros (ip' & Hin & (e' & _ & [= <- _])%fmap_Some). done.
Qed.

(** ** Subnets *)

(** What stays the same during the life of a network. *)
Definition same_static (n n' : network) : Prop :=
  n_id n' = n_id n /\ n_secure n' = n_secure n /\ n_mtu n' = n_mtu n /\
  map (fun s => (s_vni s, s_subnetIP s)) (n_subnets n') = map (fun s => (s_vni s, s_subnetIP s)) (n_subnets n).

#[export] Instance same_static_preorder : PreOrder same_static.
Proof. split; [by intros n|]. intros a b c (?&?&?&?) (?&?&?&?). repeat split; congruence. Qed.

Lemma inSubnet_static ip s s' : s_subnetIP s' = s_subnetIP s -> inSubnet ip s' = inSubnet ip s.
Proof. unfold inSubnet. by intros ->. Qed.

Lemma getSubnet_static ip n n' : same_static n n' -> getSubnetforIP ip n' = getSubnetforIP ip n.
Proof.
  intros (_ & _ & _ & Hm). unfold getSubnetforIP. revert Hm. generalize (n_subnets n), (n_subnets n'). intros l l'.
  revert l'. induction l as [|s l IH]; intros [|s' l']; try done. cbn. intros [= _ Ei Hm].
  pose proof (inSubnet_static ip s s' Ei) as E. rewrite E. destruct (decide (inSubnet ip s = true)); [done|].
  specialize (IH l' Hm). destruct (list_find _ l') as [[i a]|], (list_find _ l) as [[j b]|]; cbn in *; congruence.
Qed.

Lemma static_lookup n n' i s' : same_static n n' -> n_subnets n' !! i = Some s' ->
  exists s, n_subnets n !! i = Some s /\ s_vni s = s_vni s' /\ s_subnetIP s = s_subnetIP s'.
Proof.
  intros (_ & _ & _ & Hm) Hs. pose proof (f_equal (.!! i) Hm) as E. cbn in E. rewrite !list_lookup_fmap, Hs in E. cbn in E.
  destruct (n_subnets n !! i) as [s|]; [|done]. injection E as E1 E2. by exists s.
Qed.

Lemma getSubnet_some ip n i : getSubnetforIP ip n = Some i -> exists s, n_subnets n !! i = Some s /\ inSubnet ip s = true.
Proof.
  unfold getSubnetforIP. intros ([j s] & E & ->)%fmap_Some. apply list_find_Some in E as (E1 & E2 & _). by exists s.
Qed.

Lemma vxlan_bridge n s n' s' : generateVxlanName n s <> generateBridgeName n' s'.
Proof. done. Qed.

(** The names of the links tell the subnets apart. *)
Definition names_ok (n : network) : Prop :=
  NoDup (map (generateVxlanName n) (n_subnets n)) /\ NoDup (map (generateBridgeName n) (n_subnets n)).

Lemma vxlan_static n n' s s' : n_id n' = n_id n -> s_vni s' = s_vni s ->
  generateVxlanName n' s' = generateVxlanName n s /\ generateBridgeName n' s' = generateBridgeName n s.
Proof. unfold generateVxlanName, generateBridgeName, getBridgeNamePrefix. by intros -> ->. Qed.

Lemma names_static n n' : same_static n n' -> names_ok n -> names_ok n'.
Proof.
  intros (Hi & _ & _ & Hm) [H1 H2]. unfold names_ok.
  assert (E : map (generateVxlanName n') (n_subnets n') = map (generateVxlanName n) (n_subnets n) /\
              map (generateBridgeName n') (n_subnets n') = map (generateBridgeName n) (n_subnets n)); [|by destruct E as [-> ->]].
  revert Hm. generalize (n_subnets n), (n_subnets n'). clear H1 H2. intros l l'. revert l'. induction l as [|s l IH]; intros [|s' l']; try done.
  cbn. intros [= Ev _ Hm]. destruct (IH l' Hm) as [-> ->]. by destruct (vxlan_static n n' s s' Hi Ev) as [-> ->].
Qed.

Lemma vxlan_index n i j s s' : names_ok n -> n_subnets n !! i = Some s -> n_subnets n !! j = Some s' ->
  generateVxlanName n s = generateVxlanName n s' -> i = j.
Proof. intros [Hn _] Hi Hj E. eapply NoDup_lookup; [exact Hn|rewrite list_lookup_fmap, Hi; done|rewrite list_lookup_fmap, Hj; cbn; by rewrite E]. Qed.

Lemma bridge_index n i j s s' : names_ok n -> n_subnets n !! i = Some s -> n_subnets n !! j = Some s' ->
  generateBridgeName n s = generateBridgeName n s' -> i = j.
Proof. intros [_ Hn] Hi Hj E. eapply NoDup_lookup; [exact Hn|rewrite list_lookup_fmap, Hi; done|rewrite list_lookup_fmap, Hj; cbn; by rewrite E]. Qed.

(** ** Links *)

(** The tunnel link of the subnet of an address. *)
Definition home (n : network) (sp : space) (ip : Prefix) (l : Z) : Prop :=
  exists i s, getSubnetforIP ip n = Some i /\ n_subnets n !! i = Some s /\ s_sboxInit s = true /\
    sp_links sp !! generateVxlanName n s = Some l.

Definition links_inj (sp : space) : Prop := forall a b l, sp_links sp !! a = Some l -> sp_links sp !! b = Some l -> a = b.

Lemma home_fun n sp ip l l' : home n sp ip l -> home n sp ip l' -> l = l'.
Proof. intros (i & s & E1 & E2 & _ & E3) (i' & s' & E1' & E2' & _ & E3'). congruence. Qed.

Lemma home_addr n sp ip ip' l : names_ok n -> links_inj sp -> home n sp ip l -> home n sp ip' l -> pfx_addr ip = pfx_addr ip' -> ip = ip'.
Proof.
  intros Hn Hi (i & s & E1 & E2 & _ & E3) (i' & s' & E1' & E2' & _ & E3') Ha.
  pose proof (vxlan_index n i i' s s' Hn E2 E2' (Hi _ _ _ E3 E3')) as <-. assert (s' = s) as -> by congruence.
  apply getSubnet_some in E1 as (t & Et & Hb), E1' as (t' & Et' & Hb'). assert (t = s) as -> by congruence. assert (t' = s) as -> by congruence.
  unfold inSubnet in *. apply andb_prop in Hb as [Hb%Z.eqb_eq _], Hb' as [Hb'%Z.eqb_eq _]. destruct ip, ip'; cbn in *. congruence.
Qed.

(** ** Peers that do not conflict *)

Record coherent (n : network) (R : peerSet) : Prop := {
  co_ip ip e e' : (ip, e) ∈ R -> (ip, e') ∈ R -> e = e';
  co_mac ip e ip' e' : (ip, e) ∈ R -> (ip', e') ∈ R -> pe_mac e = pe_mac e' ->
    pe_vtep e = pe_vtep e' /\ getSubnetforIP ip n = getSubnetforIP ip' n;
  co_subnet ip e : (ip, e) ∈ R -> is_Some (getSubnetforIP ip n) }.

Lemma coherent_shrink n R R' : R' ⊆ R -> coherent n R -> coherent n R'.
Proof. intros Hs [H1 H2 H3]. split; eauto. Qed.

Lemma coherent_static n n' R : same_static n n' -> coherent n R -> coherent n' R.
Proof.
  intros Hs [H1 H2 H3]. split; [done|intros ip e ip' e' Hx Hy Hm; rewrite !(getSubnet_static _ n n' Hs); by apply (H2 ip e ip' e')|].
  intros ip e Hx. rewrite (getSubnet_static _ n n' Hs). by apply (H3 ip e).
Qed.

Definition uses (v : Addr) (m : Z) (x : Prefix * peerEntry) : Prop := pe_vtep x.2 = v /\ pe_mac x.2 = m.
#[export] Instance uses_dec v m x : Decision (uses v m x) := ltac:(unfold uses; apply _).

(** The tables of a sandbox for the peers [D]. *)
Record tablesOk (n : network) (sp : space) (cnt : gmap (Addr * Z) Z) (D : peerSet) : Prop := {
  ta_inj : links_inj sp;
  ta_home ip e : (ip, e) ∈ D -> exists l, home n sp ip l;
  ta_neigh l a m : sp_neighs sp !! (l, a) = Some m <->
    exists ip e, (ip, e) ∈ D /\ home n sp ip l /\ pfx_addr ip = a /\ pe_mac e = m;
  ta_fdb l m v : sp_fdb sp !! (l, m) = Some v <->
    exists ip e, (ip, e) ∈ D /\ home n sp ip l /\ pe_mac e = m /\ pe_vtep e = v;
  ta_cnt v m : countmap.count (v, m) cnt = Z.of_nat (size (filter (uses v m) D)) }.

Lemma home_mac n sp R ip e ip' e' l l' : coherent n R -> (ip, e) ∈ R -> (ip', e') ∈ R -> pe_mac e = pe_mac e' ->
  home n sp ip l -> home n sp ip' l' -> l = l'.
Proof.
  intros Hc Hx Hy Hm (i & s & E1 & E2 & _ & E3) (i' & s' & E1' & E2' & _ & E3').
  destruct (co_mac n R Hc _ _ _ _ Hx Hy Hm) as [_ E]. congruence.
Qed.

(** ** Counting *)

Lemma size_filter_add (P : Prefix * peerEntry -> Prop) `{!forall x, Decision (P x)} (x : Prefix * peerEntry) (D : peerSet) : x ∉ D ->
  Z.of_nat (size (filter P ({[x]} ∪ D))) = (if decide (P x) then 1 else 0) + Z.of_nat (size (filter P D)).
Proof.
  intros Hx. rewrite filter_union_L, filter_singleton_L. destruct (decide (P x)).
  - rewrite size_union, size_singleton; [lia|]. set_solver.
  - by rewrite union_empty_l_L.
  - apply _.
  - apply _.
Qed.

Lemma size_filter_del (P : Prefix * peerEntry -> Prop) `{!forall x, Decision (P x)} (x : Prefix * peerEntry) (D : peerSet) : x ∈ D ->
  Z.of_nat (size (filter P (D ∖ {[x]}))) = Z.of_nat (size (filter P D)) - (if decide (P x) then 1 else 0).
Proof.
  intros Hx. assert (Hnx : x ∉ D ∖ {[x]}) by set_solver. pose proof (size_filter_add P x _ Hnx) as Hs.
  assert (E : {[x]} ∪ D ∖ {[x]} = D) by (symmetry; by apply union_difference_singleton_L).
  rewrite E in Hs. case_decide; lia.
Qed.

Lemma size_filter_zero (P : Prefix * peerEntry -> Prop) `{!forall x, Decision (P x)} (D : peerSet) :
  size (filter P D) = 0%nat <-> forall x, x ∈ D -> ~ P x.
Proof.
  split.
  - intros E x Hx HP. apply size_empty_inv in E. apply (not_elem_of_empty (C := peerSet) x), E. by apply elem_of_filter.
  - intros Hn. apply size_empty_iff. intros x. rewrite elem_of_filter, elem_of_empty. split; [|done]. intros [HP Hx]. by apply (Hn x).
Qed.

Lemma size_filter_pos (P : Prefix * peerEntry -> Prop) `{!forall x, Decision (P x)} (D : peerSet) :
  0 < Z.of_nat (size (filter P D)) -> exists x, x ∈ D /\ P x.
Proof.
  intros Hz. destruct (size_pos_elem_of (filter P D)) as [x Hx]; [lia|]. apply elem_of_filter in Hx as [? ?]. by exists x.
Qed.

(** ** One peer more *)

Definition with_neigh (f : gmap (Z * Addr) Z -> gmap (Z * Addr) Z) (sp : space) : space := mkSpace (sp_links sp) (f (sp_neighs sp)) (sp_fdb sp).
Definition with_fdb (f : gmap (Z * Z) Addr -> gmap (Z * Z) Addr) (sp : space) : space := mkSpace (sp_links sp) (sp_neighs sp) (f (sp_fdb sp)).

Section Add.
Context (n : network) (sp : space) (cnt : gmap (Addr * Z) Z) (R D : peerSet) (ip : Prefix) (e : peerEntry) (l : Z).
Context (Hn : names_ok n) (Hc : coherent n R) (HD : D ⊆ R) (Hx : (ip, e) ∈ R) (Ht : tablesOk n sp cnt D) (Hh : home n sp ip l).

Lemma neigh_free : (ip, e) ∉ D -> sp_neighs sp !! (l, pfx_addr ip) = None.
Proof.
  intros Hnd. destruct (sp_neighs sp !! _) as [m|] eqn:E; [|done]. exfalso.
  apply (ta_neigh _ _ _ _ Ht) in E as (ip' & e' & Hy & Hh' & Ha & _).
  pose proof (home_addr n sp ip' ip l Hn (ta_inj _ _ _ _ Ht) Hh' Hh Ha) as ->.
  pose proof (co_ip n R Hc _ _ _ Hx (HD _ Hy)) as ->. done.
Qed.

Lemma fdb_free : (forall y, y ∈ D -> ~ uses (pe_vtep e) (pe_mac e) y) -> sp_fdb sp !! (l, pe_mac e) = None.
Proof.
  intros Hno. destruct (sp_fdb sp !! _) as [v|] eqn:E; [|done]. exfalso.
  apply (ta_fdb _ _ _ _ Ht) in E as (ip' & e' & Hy & Hh' & Hm & Hv).
  apply (Hno _ Hy). destruct (co_mac n R Hc _ _ _ _ Hx (HD _ Hy) (eq_sym Hm)) as [-> _]. done.
Qed.

(** The forwarding entry is there if another peer has it already. *)
Lemma fdb_known y : y ∈ D -> uses (pe_vtep e) (pe_mac e) y -> sp_fdb sp !! (l, pe_mac e) = Some (pe_vtep e).
Proof.
  intros Hy [Hv Hm]. destruct y as [ip' e']. cbn in *. destruct (ta_home _ _ _ _ Ht _ _ Hy) as [l' Hh'].
  pose proof (home_mac n sp R _ _ _ _ l' l Hc (HD _ Hy) Hx Hm Hh' Hh) as ->.
  apply (ta_fdb _ _ _ _ Ht). by exists ip', e'.
Qed.

Lemma tables_add cnt' sp' : (ip, e) ∉ D ->
  sp_links sp' = sp_links sp -> sp_neighs sp' = <[(l, pfx_addr ip) := pe_mac e]> (sp_neighs sp) ->
  sp_fdb sp' = <[(l, pe_mac e) := pe_vtep e]> (sp_fdb sp) ->
  (forall v m, countmap.count (v, m) cnt' = if bool_decide (pe_vtep e = v /\ pe_mac e = m) then countmap.count (v, m) cnt + 1 else countmap.count (v, m) cnt) ->
  tablesOk n sp' cnt' ({[(ip, e)]} ∪ D).
Proof.
  intros Hnd El En Ef Hcnt. assert (Hho : forall ip l, home n sp' ip l <-> home n sp ip l).
  { intros ? ?. unfold home. by rewrite El. }
  split.
  - intros a b l'. rewrite El. apply (ta_inj _ _ _ _ Ht).
  - intros ip' e'. rewrite elem_of_union, elem_of_singleton. intros [[= -> ->]|Hy].
    + exists l. by apply Hho.
    + destruct (ta_home _ _ _ _ Ht _ _ Hy) as [l' ?]. exists l'. by apply Hho.
  - intros l' a m. rewrite En, lookup_insert_Some. split.
    + intros [[[= <- <-] <-]|[_ Ho]].
      * exists ip, e. rewrite Hho. split; [set_solver|done].
      * apply (ta_neigh _ _ _ _ Ht) in Ho as (ip' & e' & Hy & Hh' & ? & ?). exists ip', e'. rewrite Hho. split; [set_solver|done].
    + intros (ip' & e' & Hy & Hh' & Ha & Hm). rewrite Hho in Hh'. rewrite elem_of_union, elem_of_singleton in Hy.
      destruct Hy as [[= -> ->]|Hy]; [left; split; [|done]; f_equal; [by eapply home_fun|done]|].
      right. split; [|apply (ta_neigh _ _ _ _ Ht); by exists ip', e'].
      intros [= <- Ha2]. pose proof (neigh_free Hnd) as Hf. rewrite Ha2 in Hf.
      assert (Hs : sp_neighs sp !! (l, a) = Some m); [|congruence]. apply (ta_neigh _ _ _ _ Ht). by exists ip', e'.
  - intros l' m v. rewrite Ef, lookup_insert_Some. split.
    + intros [[[= <- <-] <-]|[_ Ho]].
      * exists ip, e. rewrite Hho. split; [set_solver|done].
      * apply (ta_fdb _ _ _ _ Ht) in Ho as (ip' & e' & Hy & Hh' & ? & ?). exists ip', e'. rewrite Hho. split; [set_solver|done].
    + intros (ip' & e' & Hy & Hh' & Hm & Hv). rewrite Hho in Hh'. rewrite elem_of_union, elem_of_singleton in Hy.
      destruct Hy as [[= -> ->]|Hy]; [left; split; [|done]; f_equal; [by eapply home_fun|done]|].
      destruct (decide ((l, pe_mac e) = (l', m))) as [[= <- Hm2]|Hne]; [left; split; [by rewrite Hm2|]|right; split; [done|apply (ta_fdb _ _ _ _ Ht); by exists ip', e']].
      destruct (co_mac n R Hc _ _ _ _ Hx (HD _ Hy)) as [-> _]; congruence.
  - intros v m. rewrite Hcnt, (ta_cnt _ _ _ _ Ht), size_filter_add by done. unfold uses at 2. cbn.
    case_bool_decide; case_decide; try done; lia.
Qed.
End Add.

(** ** One peer less *)

Section Del.
Context (n : network) (sp : space) (cnt : gmap (Addr * Z) Z) (R D : peerSet) (ip : Prefix) (e : peerEntry) (l : Z).
Context (Hn : names_ok n) (Hc : coherent n R) (HD : D ⊆ R) (Hx : (ip, e) ∈ D) (Ht : tablesOk n sp cnt D) (Hh : home n sp ip l).

Lemma tables_del cnt' sp' :
  let D' := D ∖ {[(ip, e)]} in
  sp_links sp' = sp_links sp -> sp_neighs sp' = delete (l, pfx_addr ip) (sp_neighs sp) ->
  sp_fdb sp' = (if countmap.count (pe_vtep e, pe_mac e) cnt' =? 0 then delete (l, pe_mac e) (sp_fdb sp) else sp_fdb sp) ->
  (forall v m, countmap.count (v, m) cnt' = if bool_decide (pe_vtep e = v /\ pe_mac e = m) then countmap.count (v, m) cnt - 1 else countmap.count (v, m) cnt) ->
  tablesOk n sp' cnt' D'.
Proof.
  intros D' El En Ef Hcnt. assert (Hho : forall ip l, home n sp' ip l <-> home n sp ip l).
  { intros ? ?. unfold home. by rewrite El. }
  assert (Hcn : forall v m, countmap.count (v, m) cnt' = Z.of_nat (size (filter (uses v m) D'))).
  { intros v m. unfold D'. rewrite Hcnt, (ta_cnt _ _ _ _ Ht), size_filter_del by done.
    case_bool_decide; case_decide; try done; lia. }
  split; [| | | |done].
  - intros a b l'. rewrite El. apply (ta_inj _ _ _ _ Ht).
  - intros ip' e' [Hy _]%elem_of_difference. destruct (ta_home _ _ _ _ Ht _ _ Hy) as [l' ?]. exists l'. by apply Hho.
  - intros l' a m. rewrite En, lookup_delete_Some, (ta_neigh _ _ _ _ Ht). setoid_rewrite Hho. split.
    + intros [Hne (ip' & e' & Hy & Hh' & Ha & Hm)]. exists ip', e'. split; [|done]. apply elem_of_difference. split; [done|].
      rewrite elem_of_singleton. intros [= -> ->]. apply Hne. f_equal; [by eapply home_fun|done].
    + intros (ip' & e' & [Hy Hne]%elem_of_difference & Hh' & Ha & Hm). split; [|by exists ip', e'].
      intros [= <- Ha2]. apply Hne, elem_of_singleton.
      pose proof (home_addr n sp ip' ip l Hn (ta_inj _ _ _ _ Ht) Hh' Hh ltac:(congruence)) as ->.
      pose proof (co_ip n R Hc _ _ _ (HD _ Hx) (HD _ Hy)) as ->. done.
  - intros l' m v. rewrite Ef. destruct (Z.eqb_spec (countmap.count (pe_vtep e, pe_mac e) cnt') 0) as [Hz|Hz].
    + rewrite Hcn in Hz. assert (Hno := proj1 (size_filter_zero (uses (pe_vtep e) (pe_mac e)) D') ltac:(lia)).
      rewrite lookup_delete_Some, (ta_fdb _ _ _ _ Ht). setoid_rewrite Hho. split.
      * intros [Hne (ip' & e' & Hy & Hh' & Hm & Hv)]. exists ip', e'. split; [|done]. apply elem_of_difference. split; [done|].
        rewrite elem_of_singleton. intros [= -> ->]. apply Hne. f_equal; [by eapply home_fun|done].
      * intros (ip' & e' & Hy & Hh' & Hm & Hv). pose proof Hy as [Hy' _]%elem_of_difference. split; [|by exists ip', e'].
        intros [= <- Hm2]. apply (Hno _ Hy). split; cbn; [|congruence].
        destruct (co_mac n R Hc _ _ _ _ (HD _ Hx) (HD _ Hy')) as [-> _]; congruence.
    + rewrite Hcn in Hz. destruct (size_filter_pos (uses (pe_vtep e) (pe_mac e)) D') as ([ip2 e2] & Hy2 & Hv2 & Hm2); [lia|]. cbn in Hv2, Hm2.
      pose proof Hy2 as [Hy2' _]%elem_of_difference.
      rewrite (ta_fdb _ _ _ _ Ht). setoid_rewrite Hho. split.
      * intros (ip' & e' & Hy & Hh' & Hm & Hv). destruct (decide ((ip', e') = (ip, e))) as [[= -> ->]|Hne].
        -- exists ip2, e2. split; [done|]. destruct (ta_home _ _ _ _ Ht _ _ Hy2') as [l2 Hh2].
           pose proof (home_mac n sp R _ _ _ _ l2 l' Hc (HD _ Hy2') (HD _ Hx) Hm2 Hh2 Hh') as ->. split; [done|]. split; congruence.
        -- exists ip', e'. split; [|done]. apply elem_of_difference. split; [done|]. by rewrite elem_of_singleton.
      * intros (ip' & e' & [Hy _]%elem_of_difference & ?). by exists ip', e'.
Qed.
End Del.
