(* ===== verification/OverlayPeersSteps.v ===== *)
(** * Peers come and go

    The invariant of a network whose sandbox exists ([live]): the links of its initialised
    subnets, its tables for a set of peers, the rules of an encrypted network, and the driver
    with its associations; joining the sandbox, adding a peer and deleting one keep it.  Then
    [worldOk]: a network with or without a sandbox, its peer database free of conflicts, the
    sandbox in step with it.  Every call on peers and on the sandbox keeps it, leaves other
    networks alone and keeps the driver's count of each remote node as large as the peers
    require ([moves]). *)

From Stdlib Require Import String Ascii.
From S2P Require Import Prelude Slices NetIP SetMatrix OverlayKeys OverlayKeysSpec OverlayPeers OverlayPeersSpec.
From stdpp Require Import gmap list strings pretty.

Local Open Scope Z_scope.

(** Links may be added to a sandbox, and subnets initialised, without touching its tables. *)
Lemma tables_links n n' sp sp' cnt D : tablesOk n sp cnt D ->
  (forall ip l, home n sp ip l -> home n' sp' ip l) -> links_inj sp' ->
  sp_neighs sp' = sp_neighs sp -> sp_fdb sp' = sp_fdb sp -> tablesOk n' sp' cnt D.
Proof.
  intros [Hi Hh Hn Hf Hc] Hm Hi' En Ef.
  assert (Hb : forall ip e l, (ip, e) ∈ D -> home n' sp' ip l <-> home n sp ip l).
  { intros ip e l Hx. destruct (Hh _ _ Hx) as [l0 H0]. split; [|by apply Hm]. intros H1. by rewrite (home_fun n' sp' ip l l0 H1 (Hm _ _ H0)). }
  split; [done| | | |done].
  - intros ip e Hx. destruct (Hh _ _ Hx) as [l H0]. exists l. by apply Hm.
  - intros l a m. rewrite En, Hn. split; intros (ip & e & Hx & Ho & ?); exists ip, e; (split; [done|]); (split; [|done]); by apply (Hb _ _ _ Hx).
  - intros l m v. rewrite Ef, Hf. split; intros (ip & e & Hx & Ho & ?); exists ip, e; (split; [done|]); (split; [|done]); by apply (Hb _ _ _ Hx).
Qed.

Lemma tables_empty n cnt : (forall x, countmap.count x cnt = 0) -> tablesOk n emptySpace cnt ∅.
Proof.
  intros Hc. split.
  - intros a b l. cbn. by rewrite lookup_empty.
  - intros ip e Hx. set_solver.
  - intros l a m. cbn. rewrite lookup_empty. split; [done|]. intros (ip & e & Hx & _). set_solver.
  - intros l m v. cbn. rewrite lookup_empty. split; [done|]. intros (ip & e & Hx & _). set_solver.
  - intros v m. by rewrite Hc.
Qed.

Record subnetsOk (n : network) (sp : space) : Prop := {
  su_err i s : n_subnets n !! i = Some s -> s_initErr s = None;
  su_init i s : n_subnets n !! i = Some s -> s_sboxInit s = true ->
    s_vxlanName s = generateVxlanName n s /\ is_Some (sp_links sp !! generateVxlanName n s);
  su_free i s : n_subnets n !! i = Some s -> s_sboxInit s = false ->
    sp_links sp !! generateVxlanName n s = None /\ sp_links sp !! generateBridgeName n s = None }.

Definition vnis (n : network) : list Z := map s_vni (n_subnets n).

Lemma vnis_static n n' : same_static n n' -> vnis n' = vnis n.
Proof.
  intros (_ & _ & _ & Hm). unfold vnis. revert Hm. generalize (n_subnets n), (n_subnets n'). intros l l'. revert l'.
  induction l as [|s l IH]; intros [|s' l']; try done. cbn. intros [= -> _ Hm]. f_equal. by apply IH.
Qed.

Lemma elem_vnis n i s : n_subnets n !! i = Some s -> s_vni s ∈ vnis n.
Proof. intros Hs. apply list_elem_of_fmap_2. by eapply list_elem_of_lookup_2. Qed.

(** Subnet [i] replaced by one with the same VNI and addresses. *)
Lemma static_subnet n i s s' : n_subnets n !! i = Some s -> s_vni s' = s_vni s -> s_subnetIP s' = s_subnetIP s ->
  same_static n (set_subnets (<[i := s']> (n_subnets n)) n).
Proof.
  intros Hs Ev Ei. repeat split. cbn. change (map ?f ?l) with (f <$> l). rewrite list_fmap_insert. apply list_insert_id.
  by rewrite list_lookup_fmap, Hs, Ev, Ei.
Qed.

Lemma vxlan_named n s s' : s_vni s' = s_vni s -> generateVxlanName n s' = generateVxlanName n s /\ generateBridgeName n s' = generateBridgeName n s.
Proof. by apply vxlan_static. Qed.

Section Steps.
Context `{HX : Xfrm} `{!XfrmLaws} `{HH : Host} `{!HostLaws} `{!Healthy}.
Context (bind adv : Addr) (port : Z) (HostP : Addr -> Prop) (Key : key -> Prop) (F : XfrmState -> Prop) (G : XfrmPolicy -> Prop).
Context (Hclean : clean bind adv HostP Key F G) (Hadv : AddrIsValid adv = true).

Record drvOk (d : driver) : Prop := {
  do_bind : bindAddress d = bind; do_adv : advertiseAddress d = adv; do_port : vxlanUDPPort d = port;
  do_aligned : aligned d; do_prog : programmed HostP Key F G d }.

Lemma drv_clean d : drvOk d -> cleanFor HostP Key F G d.
Proof. intros [Eb Ea _ _ _]. unfold cleanFor. by rewrite Eb, Ea. Qed.

Definition one (r r' : Addr) : Z := if bool_decide (r = r') then 1 else 0.

Lemma setup_drv r d : drvOk d -> HostP r ->
  drvOk (setupEncryption r d).1 /\ keys (setupEncryption r d).1 = keys d /\
  forall r', count (setupEncryption r d).1 r' = count d r' + one r r'.
Proof.
  intros Hd Hr. pose proof (drv_clean d Hd) as Hcl. destruct Hd as [Eb Ea Ep Hal Hp].
  destruct (setup_aligned r d Hal) as (Hal' & _ & (Hb & Ha & Hpo) & Hk & Hm).
  split; [split; [congruence..|done|by apply setup_programmed]|]. split; [done|].
  intros r'. unfold count at 1. rewrite Hm. unfold one. case_bool_decide as E; [subst r'; by rewrite lookup_insert_eq|].
  rewrite lookup_insert_ne by done. unfold count. lia.
Qed.

Lemma remove_drv r d : drvOk d -> 0 < count d r ->
  drvOk (removeEncryption r d) /\ keys (removeEncryption r d) = keys d /\
  forall r', count (removeEncryption r d) r' = count d r' - one r r'.
Proof.
  intros Hd Hr. pose proof (drv_clean d Hd) as Hcl. destruct Hd as [Eb Ea Ep Hal Hp].
  destruct (remove_aligned r d Hal Hr) as (Hal' & (Hb & Ha & Hpo) & Hk & Hm).
  split; [split; [congruence..|done|by apply remove_programmed]|]. split; [done|].
  intros r'. unfold count at 1. rewrite Hm. unfold one. destruct (Z.eqb_spec (count d r) 1) as [E1|E1]; case_bool_decide as E; try subst r'.
  - rewrite lookup_delete_eq. cbn. lia.
  - rewrite lookup_delete_ne by done. unfold count. lia.
  - by rewrite lookup_insert_eq.
  - rewrite lookup_insert_ne by done. unfold count. lia.
Qed.

(** ** Rules *)

Definition markRule (vni : Z) : vxlanRule := mkRule (Is6 adv) port vni (MARK mark).
Definition dropRule (vni : Z) : vxlanRule := mkRule (Is6 adv) port vni DROP.

Lemma transport d : drvOk d -> isIPv6Transport d = Some (Is6 adv).
Proof. intros Hd. unfold isIPv6Transport. by rewrite (do_adv d Hd), Hadv. Qed.

(** What a call may change besides the network it is about. *)
Definition keepsRules (ns : list Z) (h h' : HK) : Prop := forall r, ru_vni r ∉ ns -> hasRule r h' = hasRule r h.

Lemma programRules_ok vni add w : drvOk (drv w) ->
  exists h1 h2, programMangle vni add w = (set_host h1 w, None) /\ programInput vni add (set_host h1 w) = (set_host h2 w, None) /\
    spaces h2 = spaces (host w) /\
    (forall r, r <> markRule vni -> r <> dropRule vni -> hasRule r h2 = hasRule r (host w)) /\
    hasRule (markRule vni) h2 = add /\ hasRule (dropRule vni) h2 = add.
Proof.
  intros Hd. unfold programMangle, programInput. cbn. rewrite (transport _ Hd), (do_port _ Hd). fold (markRule vni) (dropRule vni).
  pose proof (program_rule (if add then Append_ else Delete_) (markRule vni) (host w) (program_rule_works _ _ _)) as [S1 R1].
  pose proof (program_rule_works (if add then Append_ else Delete_) (markRule vni) (host w)) as W1.
  destruct (ProgramRule _ (markRule vni) (host w)) as [h1 e1]. cbn in *. subst e1. exists h1. cbn.
  pose proof (program_rule (if add then Insert_ else Delete_) (dropRule vni) h1 (program_rule_works _ _ _)) as [S2 R2].
  pose proof (program_rule_works (if add then Insert_ else Delete_) (dropRule vni) h1) as W2.
  destruct (ProgramRule _ (dropRule vni) h1) as [h2 e2]. cbn in *. subst e2.
  exists h2. split; [done|]. split; [done|]. split; [congruence|]. split_and!.
  - intros r Hm Hdr. rewrite R2, bool_decide_eq_false_2 by done. by rewrite R1, bool_decide_eq_false_2.
  - rewrite R2, bool_decide_eq_false_2 by (intros Em; discriminate Em). rewrite R1, bool_decide_eq_true_2 by done. by destruct add.
  - rewrite R2, bool_decide_eq_true_2 by done. by destruct add.
Qed.

(** ** A live sandbox *)

(** The rules of an encrypted network are in place for every subnet with a tunnel. *)
Definition guarded (n : network) (h : HK) : Prop :=
  n_secure n = true -> forall i s, n_subnets n !! i = Some s -> s_sboxInit s = true ->
    hasRule (markRule (s_vni s)) h = true /\ hasRule (dropRule (s_vni s)) h = true.

Record live (key : string) (D : peerSet) (w : world) : Prop := {
  lv_sbox : n_sbox (net w) = Some key;
  lv_init : n_sboxInit (net w) = true;
  lv_err : n_initErr (net w) = None;
  lv_names : names_ok (net w);
  lv_guard : guarded (net w) (host w);
  lv_drv : drvOk (drv w);
  lv_space : exists sp, spaces (host w) !! key = Some sp /\ subnetsOk (net w) sp /\ tablesOk (net w) sp (n_fdbCnt (net w)) D }.

(** What is left alone: other sandboxes, unless their names look like those of an earlier
    sandbox of the network, and the rules of other networks. *)
Record frame (key : string) (w w' : world) : Prop := {
  fr_static : same_static (net w) (net w');
  fr_spaces ns : ns <> key -> isStale (n_id (net w)) ns = false -> spaces (host w') !! ns = spaces (host w) !! ns;
  fr_rules : keepsRules (vnis (net w)) (host w) (host w') }.

#[export] Instance frame_preorder key : PreOrder (frame key).
Proof.
  split.
  - intros w. by split.
  - intros a b c [S1 P1 R1] [S2 P2 R2]. split; [by etrans| |].
    + intros ns Hn Hs. rewrite P2, P1; [done..|]. by rewrite (proj1 S1).
    + intros r Hr. rewrite R2, R1; [done..|]. by rewrite (vnis_static _ _ S1).
Qed.

(** The calls of [setupEncryption] that the peers stand for, and how many more the driver
    counts. *)
Definition demand (D : peerSet) (r : Addr) : Z := Z.of_nat (size (filter (fun x => pe_vtep x.2 = r) D)).
Definition due (n : network) (D : peerSet) (r : Addr) : Z := if n_secure n then demand D r else 0.
Definition spare (D : peerSet) (w : world) (r : Addr) : Z := count (drv w) r - due (net w) D r.

Lemma due_add n x D r : x ∉ D -> due n ({[x]} ∪ D) r = due n D r + (if n_secure n then one (pe_vtep x.2) r else 0).
Proof.
  intros Hx. unfold due, demand, one. destruct (n_secure n); [|done]. rewrite size_filter_add by done.
  case_decide; case_bool_decide; try done; lia.
Qed.

Lemma due_del n x D r : x ∈ D -> due n (D ∖ {[x]}) r = due n D r - (if n_secure n then one (pe_vtep x.2) r else 0).
Proof.
  intros Hx. unfold due, demand, one. destruct (n_secure n); [|done]. rewrite size_filter_del by done.
  case_decide; case_bool_decide; try done; lia.
Qed.

Lemma due_empty n r : due n ∅ r = 0.
Proof.
  unfold due, demand. destruct (n_secure n); [|done]. apply (f_equal Z.of_nat (y := O)), size_filter_zero. intros x Hx. by apply elem_of_empty in Hx.
Qed.

Lemma due_static n n' D r : same_static n n' -> due n' D r = due n D r.
Proof. intros (_ & E & _). unfold due. by rewrite E. Qed.


(** Two new links, and nothing else. *)
Lemma setupSubnet_ok s br vx w key sp : n_sbox (net w) = Some key -> spaces (host w) !! key = Some sp ->
  sp_links sp !! br = None -> sp_links sp !! vx = None -> vx <> br -> links_inj sp ->
  exists h' sp' l, setupSubnetSandbox s br vx w = Some (set_host h' w, None) /\ spaces h' = <[key := sp']> (spaces (host w)) /\
    (forall r, hasRule r h' = hasRule r (host w)) /\ links_inj sp' /\ sp_neighs sp' = sp_neighs sp /\ sp_fdb sp' = sp_fdb sp /\
    sp_links sp' !! vx = Some l /\ (forall name, name <> vx -> name <> br -> sp_links sp' !! name = sp_links sp !! name) /\
    (forall name l, sp_links sp !! name = Some l -> sp_links sp' !! name = Some l).
Proof.
  intros Hk Hsp Hbr Hvx Hne Hinj. unfold setupSubnetSandbox. rewrite Hk. cbn [mbind option_bind].
  destruct (others_quiet (host w) (ReclaimVNI (s_vni s) (host w))) as [S0 R0]; [by left; eexists|]. set (h0 := ReclaimVNI _ _) in *.
  destruct (add_interface key br h0 sp) as [(i1 & F1 & S1) R1]; [by rewrite S0|apply add_interface_works|].
  pose proof (add_interface_works key br h0) as W1. destruct (AddInterface key br h0) as [h1 e1]. cbn in S1, R1, W1. subst e1.
  destruct (others_quiet h1 (createVxlan vx (s_vni s) (maxMTU (net w)) (default false (isIPv6Transport (drv w))) h1).1) as [S2 R2]; [do 2 right; left; by eexists _, _, _, _|].
  pose proof (create_vxlan_works vx (s_vni s) (maxMTU (net w)) (default false (isIPv6Transport (drv w))) h1) as W2.
  destruct (createVxlan _ _ _ _ h1) as [h2 e2]. cbn in S2, R2, W2. subst e2.
  unfold add_link in S1. rewrite Hbr in S1. set (sp1 := mkSpace (<[br := i1]> (sp_links sp)) (sp_neighs sp) (sp_fdb sp)) in *.
  destruct (add_interface key vx h2 sp1) as [(i2 & F2 & S3) R3]; [by rewrite S2, S1, lookup_insert_eq|apply add_interface_works|].
  pose proof (add_interface_works key vx h2) as W3. destruct (AddInterface key vx h2) as [h3 e3]. cbn in S3, R3, W3. subst e3.
  destruct (others_quiet h3 (setDefaultVLAN key h3)) as [S4 R4]; [right; left; by eexists|].
  unfold add_link in S3. cbn [sp1 sp_links] in S3. rewrite lookup_insert_ne, Hvx in S3 by done.
  cbn [sp1 sp_links] in F2. set (sp2 := mkSpace (<[vx := i2]> (<[br := i1]> (sp_links sp))) (sp_neighs sp) (sp_fdb sp)).
  exists (setDefaultVLAN key h3), sp2, i2. split; [done|].
  split; [rewrite S4, S3, S2, S1, insert_insert_eq, S0; done|]. split; [intros r; congruence|].
  split; [|split; [done|]; split; [done|]; split; [by apply lookup_insert_eq|]; split].
  - intros a b l. unfold sp2. cbn. rewrite !lookup_insert_Some.
    intros [[<- <-]|[Ha [[<- <-]|[Ha2 Hla]]]] [[<- Hl]|[Hb [[<- Hl]|[Hb2 Hlb]]]]; try done.
    + exfalso. apply (F2 br). by rewrite Hl, lookup_insert_eq.
    + exfalso. apply (F2 b). by rewrite lookup_insert_ne.
    + exfalso. apply (F2 br). by rewrite Hl, lookup_insert_eq.
    + by destruct (F1 b).
    + exfalso. apply (F2 a). by rewrite lookup_insert_ne, Hla, Hl.
    + subst l. by destruct (F1 a).
    + by apply (Hinj a b l).
  - intros name N1 N2. unfold sp2. cbn. by rewrite !lookup_insert_ne.
  - intros name l Hl. unfold sp2. cbn. rewrite !lookup_insert_ne; [done|congruence|congruence].
Qed.

Lemma home_static n n' sp sp' ip l : same_static n n' ->
  (forall i s, n_subnets n !! i = Some s -> s_sboxInit s = true -> exists s', n_subnets n' !! i = Some s' /\ s_sboxInit s' = true) ->
  (forall name l, sp_links sp !! name = Some l -> sp_links sp' !! name = Some l) ->
  home n sp ip l -> home n' sp' ip l.
Proof.
  intros Hs Hi Hl (i & s & E1 & E2 & E3 & E4). destruct (Hi i s E2 E3) as (s' & E2' & E3').
  exists i, s'. split; [by rewrite (getSubnet_static _ n n' Hs)|]. split; [done|]. split; [done|].
  destruct (static_lookup n n' i s' Hs E2') as (s2 & E5 & Ev & _). assert (s2 = s) as -> by congruence.
  destruct (vxlan_static n n' s s' (proj1 Hs) (eq_sym Ev)) as [-> _]. by apply Hl.
Qed.

(** The tunnel of a subnet is set up. *)
Definition set_up (n : network) (s : subnet) : subnet := set_init true (set_names (generateVxlanName n s) (generateBridgeName n s) s).

Lemma alter_insert_list {A} (f : A -> A) i (x : A) l : (i < length l)%nat -> alter f i (<[i := x]> l) = <[i := f x]> l.
Proof.
  intros Hi. apply list_eq. intros j. destruct (decide (j = i)) as [->|Hne].
  - rewrite list_lookup_alter_eq, !list_lookup_insert_eq by done. done.
  - by rewrite list_lookup_alter_ne, !list_lookup_insert_ne.
Qed.

Lemma initSubnet_ok i s w key sp : n_sbox (net w) = Some key -> spaces (host w) !! key = Some sp -> subnetsOk (net w) sp -> links_inj sp ->
  drvOk (drv w) -> n_subnets (net w) !! i = Some s -> s_sboxInit s = false ->
  exists h' sp' l, joinSubnet i s w = Some (mkWorld (set_subnets (<[i := set_up (net w) s]> (n_subnets (net w))) (net w)) (drv w) h', None) /\
    spaces h' = <[key := sp']> (spaces (host w)) /\ links_inj sp' /\ sp_neighs sp' = sp_neighs sp /\ sp_fdb sp' = sp_fdb sp /\
    sp_links sp' !! generateVxlanName (net w) s = Some l /\
    (forall name, name <> generateVxlanName (net w) s -> name <> generateBridgeName (net w) s -> sp_links sp' !! name = sp_links sp !! name) /\
    (forall name l, sp_links sp !! name = Some l -> sp_links sp' !! name = Some l) /\
    (forall r, r <> markRule (s_vni s) -> r <> dropRule (s_vni s) -> hasRule r h' = hasRule r (host w)) /\
    hasRule (markRule (s_vni s)) h' = n_secure (net w) /\ hasRule (dropRule (s_vni s)) h' = n_secure (net w).
Proof.
  intros Hk Hsp Hsu Hinj Hd Hs Hf. destruct (su_free _ _ Hsu i s Hs Hf) as [Hvx Hbr].
  destruct (programRules_ok (s_vni s) (n_secure (net w)) w Hd) as (h1 & h2 & E1 & E2 & S2 & R2 & Rm & Rd).
  destruct (setupSubnet_ok s (generateBridgeName (net w) s) (generateVxlanName (net w) s) (set_host h2 w) key sp)
    as (h3 & sp' & l & E3 & S3 & R3 & Hinj' & En & Ef & Hl & Ho & Hm); [done|by cbn; rewrite S2|done|done|apply vxlan_bridge|done|].
  exists h3, sp', l. split_and!; try done.
  - unfold joinSubnet, initSubnetSandbox. rewrite Hf, E1. cbn zeta. change (n_secure (net w)) with (n_secure (net (set_host h1 w))) in E2 at 1.
    rewrite E2, E3. cbn. unfold on_net. cbn. f_equal. f_equal. f_equal. unfold set_subnets. cbn. f_equal.
    unfold set_up. rewrite alter_insert_list; [done|by eapply lookup_lt_Some].
  - by rewrite S3; cbn; rewrite S2.
  - intros r H1' H2'. by rewrite R3; cbn; rewrite R2.
  - by rewrite R3.
  - by rewrite R3.
Qed.

Lemma set_subnets_lookup n i j s s' t : n_subnets n !! i = Some s -> <[i := s']> (n_subnets n) !! j = Some t ->
  (j = i /\ t = s') \/ (j <> i /\ n_subnets n !! j = Some t).
Proof.
  intros Hi Hj. destruct (decide (j = i)) as [->|Hne].
  - left. rewrite list_lookup_insert_eq in Hj by by eapply lookup_lt_Some. by injection Hj.
  - right. by rewrite list_lookup_insert_ne in Hj.
Qed.

Lemma joinSubnet_live i s w key D : live key D w -> n_subnets (net w) !! i = Some s ->
  exists w', joinSubnet i s w = Some (w', None) /\ live key D w' /\ frame key w w' /\ drv w' = drv w /\ n_peerdb (net w') = n_peerdb (net w) /\
    exists s', n_subnets (net w') !! i = Some s' /\ s_sboxInit s' = true.
Proof.
  intros Hl Hs. pose proof Hl as [Hk Hi He Hn Hg Hd (sp & Hsp & Hsu & Ht)]. destruct (s_sboxInit s) eqn:Hb.
  { exists w. unfold joinSubnet. rewrite Hb, (su_err _ _ Hsu i s Hs). split; [done|]. split; [done|]. split; [done|].
    split; [done|]. split; [done|]. by exists s. }
  destruct (initSubnet_ok i s w key sp Hk Hsp Hsu (ta_inj _ _ _ _ Ht) Hd Hs Hb)
    as (h' & sp' & l & -> & S' & Hinj & En & Ef & Hlk & Hlo & Hlm & R' & Rm & Rd).
  set (n' := set_subnets _ (net w)). set (s' := set_up (net w) s) in *.
  assert (Hst : same_static (net w) n') by by apply (static_subnet (net w) i s s').
  assert (Hlen : (i < length (n_subnets (net w)))%nat) by by eapply lookup_lt_Some.
  assert (Hs' : n_subnets n' !! i = Some s') by by apply list_lookup_insert_eq.
  exists (mkWorld n' (drv w) h'). split; [done|]. split; [|split; [|split; [done|split; [done|by exists s']]]].
  - split; cbn; try done; [by eapply names_static| |].
    + intros Hsec j t Hj Ht'. destruct (set_subnets_lookup (net w) i j s s' t Hs Hj) as [[-> ->]|[Hne Hj']].
      * change (s_vni s') with (s_vni s). cbn in Hsec. by rewrite Rm, Rd.
      * destruct (decide (s_vni t = s_vni s)) as [->|Hv]; [cbn in Hsec; by rewrite Rm, Rd|].
        destruct (Hg Hsec j t Hj' Ht') as [G1 G2]. rewrite !R'; [done|..]; intros E; unfold markRule, dropRule in E; congruence.
    + exists sp'. split; [by rewrite S', lookup_insert_eq|]. split; [split|].
      * intros j t Hj. destruct (set_subnets_lookup (net w) i j s s' t Hs Hj) as [[-> ->]|[Hne Hj']]; [done|by apply (su_err _ _ Hsu j)].
      * intros j t Hj Ht'. destruct (set_subnets_lookup (net w) i j s s' t Hs Hj) as [[-> ->]|[Hne Hj']].
        -- split; [done|]. change (generateVxlanName n' s') with (generateVxlanName (net w) s). by eexists.
        -- destruct (su_init _ _ Hsu j t Hj' Ht') as [-> [l' Hl']]. split; [done|]. exists l'. by apply Hlm.
      * intros j t Hj Ht'. destruct (set_subnets_lookup (net w) i j s s' t Hs Hj) as [[-> ->]|[Hne Hj']]; [done|].
        destruct (su_free _ _ Hsu j t Hj' Ht') as [F1 F2]. change (generateVxlanName n' t) with (generateVxlanName (net w) t).
        change (generateBridgeName n' t) with (generateBridgeName (net w) t).
        assert (Hnv : generateVxlanName (net w) t <> generateVxlanName (net w) s).
        { intros E. by pose proof (vxlan_index (net w) j i t s Hn Hj' Hs E). }
        assert (Hnb : generateBridgeName (net w) t <> generateBridgeName (net w) s).
        { intros E. by pose proof (bridge_index (net w) j i t s Hn Hj' Hs E). }
        rewrite !Hlo; [done|..]; try done.
      * apply (tables_links (net w) n' sp sp' _ D Ht); [|done..]. intros ip l' Hh.
        apply (home_static (net w) n' sp sp' ip l' Hst); [|done..]. intros j t Hj Ht'.
        destruct (decide (j = i)) as [->|Hne]; [by exists s'|]. exists t. split; [|done]. cbn. by rewrite list_lookup_insert_ne.
  - split; cbn; [done| |].
    + intros ns Hns _. by rewrite S', lookup_insert_ne.
    + intros r Hr. apply R'; intros ->; apply Hr; by apply (elem_vnis _ i).
Qed.

(** New tables for a live sandbox. *)
Lemma live_update key D D' w sp sp' cnt d h : live key D w -> spaces (host w) !! key = Some sp ->
  sp_links sp' = sp_links sp -> spaces h = <[key := sp']> (spaces (host w)) -> (forall r, hasRule r h = hasRule r (host w)) ->
  drvOk d -> tablesOk (net w) sp' cnt D' ->
  live key D' (mkWorld (set_fdbCnt cnt (net w)) d h) /\ frame key w (mkWorld (set_fdbCnt cnt (net w)) d h).
Proof.
  intros [Hk Hi He Hn Hg Hd (sp0 & Hsp0 & Hsu & Ht)] Hsp El S' R' Hd' Ht'. assert (sp0 = sp) as -> by congruence. split; split; cbn; try done.
  - intros Hsec i s Hs Hb. rewrite !R'. by apply (Hg Hsec i s).
  - exists sp'. split; [by rewrite S', lookup_insert_eq|]. split; [|by destruct Ht'].
    destruct Hsu as [U1 U2 U3]. split; cbn; rewrite ?El; auto.
  - intros ns Hns _. by rewrite S', lookup_insert_ne.
  - intros r _. apply R'.
Qed.

Lemma live_joinCnt key D w c : live key D w -> live key D (on_net (set_joinCnt c) w) /\ frame key w (on_net (set_joinCnt c) w).
Proof.
  intros [Hk Hi He Hn Hg Hd (sp & Hsp & [U1 U2 U3] & Ht)]. split; split; cbn; try done.
  exists sp. split; [done|]. split; [by split|]. by destruct Ht.
Qed.

(** Neighbours of a link. *)
Lemma vxlan_named_link n s : bool_decide (generateVxlanName n s = ""%string) = false.
Proof. by apply bool_decide_eq_false_2. Qed.

Lemma AddNeighbor_ok n s key sp sp' link fam dst mac h : spaces h !! key = Some sp -> sp_links sp !! generateVxlanName n s = Some link ->
  space_add (mkNeigh link fam dst mac false) sp = (sp', None) ->
  exists h', AddNeighbor key dst mac (generateVxlanName n s) fam h = (h', None) /\ spaces h' = <[key := sp']> (spaces h) /\ forall r, hasRule r h' = hasRule r h.
Proof.
  intros Hsp Hl Ha. unfold AddNeighbor, nlNeigh. rewrite vxlan_named_link, link_index, Hsp. cbn. rewrite Hl. cbn.
  destruct (neigh_add key (mkNeigh link fam dst mac false) h sp Hsp) as (S' & E & R').
  destruct (NeighAdd key _ h) as [h' e]. rewrite Ha in *. cbn in *. subst e. by exists h'.
Qed.

Lemma DeleteNeighbor_ok n s key sp sp' link fam dst mac h : spaces h !! key = Some sp -> sp_links sp !! generateVxlanName n s = Some link ->
  space_del (mkNeigh link fam dst mac false) sp = (sp', None) ->
  exists h', DeleteNeighbor key dst mac (generateVxlanName n s) fam h = (h', None) /\ spaces h' = <[key := sp']> (spaces h) /\ forall r, hasRule r h' = hasRule r h.
Proof.
  intros Hsp Hl Ha. unfold DeleteNeighbor, nlNeigh. rewrite vxlan_named_link, link_index, Hsp. cbn. rewrite Hl. cbn.
  destruct (neigh_del key (mkNeigh link fam dst mac false) h sp Hsp) as (S1 & E1 & R1). specialize (E1 eq_refl).
  destruct (NeighDel key _ h) as [h1 e1]. rewrite Ha in *. cbn in *. subst e1. destruct (0 <? fam); [|by exists h1].
  destruct (neigh_del key (mkNeigh link fam dst mac true) h1 sp') as (S2 & _ & R2); [by rewrite S1, lookup_insert_eq|].
  destruct (NeighDel key _ h1) as [h2 e2]. cbn in *. exists h2. split; [done|]. split; [by rewrite S2, S1, insert_insert_eq|].
  intros r. by rewrite R2.
Qed.

Lemma joinSandbox_live fuel i w key D s : live key D w -> n_subnets (net w) !! i = Some s ->
  exists w', joinSandbox (S fuel) i false w = Some (w', None) /\ live key D w' /\ frame key w w' /\ drv w' = drv w /\
    n_peerdb (net w') = n_peerdb (net w) /\ exists s', n_subnets (net w') !! i = Some s' /\ s_sboxInit s' = true.
Proof.
  intros Hl Hs. destruct (joinSubnet_live i s w key D Hl Hs) as (w' & E & H').
  exists w'. cbn. unfold joinInit. rewrite (lv_init _ _ _ Hl), (lv_err _ _ _ Hl), Hs, E. by split.
Qed.

Lemma add_counts (v : Addr) (m : Z) (cnt : gmap (Addr * Z) Z) delta v' m' :
  countmap.count (v', m') (countmap.Add (v, m) delta cnt).1 =
  if bool_decide (v = v' /\ m = m') then countmap.count (v', m') cnt + delta else countmap.count (v', m') cnt.
Proof.
  rewrite countmap.Add_count. case_decide as E; case_bool_decide as E'; try done; [by injection E as -> ->|injection E as -> ->; naive_solver|].
  destruct E' as [-> ->]. done.
Qed.

Lemma addNeighbor_live fuel ip e w key D R : live key D w -> coherent (net w) R -> D ⊆ R -> (ip, e) ∈ R -> (ip, e) ∉ D -> HostP (pe_vtep e) ->
  exists w', addNeighborWith (joinSandbox (S fuel)) ip (pe_mac e) (pe_vtep e) w = Some (w', None) /\ live key ({[(ip, e)]} ∪ D) w' /\
    frame key w w' /\ n_peerdb (net w') = n_peerdb (net w) /\ keys (drv w') = keys (drv w) /\
    forall r, spare ({[(ip, e)]} ∪ D) w' r = spare D w r.
Proof.
  intros Hl Hc HD Hx Hnx Hv. unfold addNeighborWith. rewrite (lv_sbox _ _ _ Hl). cbn [default from_option].
  destruct (co_subnet _ _ Hc _ _ Hx) as [i Hi]. rewrite Hi. destruct (getSubnet_some _ _ _ Hi) as (s & Hs & _).
  destruct (joinSandbox_live fuel i w key D s Hl Hs) as (w1 & -> & Hl1 & Hf1 & Ed1 & Edb1 & s1 & Hs1 & Hb1). cbn [mbind option_bind].
  pose proof (fr_static _ _ _ Hf1) as Hst. apply (coherent_static _ _ _ Hst) in Hc. rewrite <-(getSubnet_static ip _ _ Hst) in Hi.
  clear Hs s Hl.
  set (d := if n_secure (net w1) then (setupEncryption (pe_vtep e) (drv w1)).1 else drv w1).
  assert (Hd : drvOk d /\ keys d = keys (drv w) /\ forall r, count d r = count (drv w) r + (if n_secure (net w1) then one (pe_vtep e) r else 0)).
  { unfold d. rewrite <-Ed1. destruct (n_secure (net w1)); [by apply setup_drv; [apply (lv_drv _ _ _ Hl1)|]|].
    split; [apply (lv_drv _ _ _ Hl1)|]. split; [done|]. intros r. lia. }
  destruct Hd as (Hd & Hkd & Hcd).
  replace (if n_secure (net w1) then set_drv (setupEncryption (pe_vtep e) (drv w1)).1 w1 else w1) with (set_drv d w1)
    by (unfold d; destruct (n_secure (net w1)); [done|by destruct w1]).
  cbn [net set_drv host]. rewrite (lv_sbox _ _ _ Hl1), Hs1. cbn [mbind option_bind default from_option fmap option_fmap option_map id].
  destruct (lv_space _ _ _ Hl1) as (sp & Hsp & Hsu & Ht). destruct (su_init _ _ Hsu i s1 Hs1 Hb1) as [-> [l Hlk]].
  assert (Hh : home (net w1) sp ip l) by by exists i, s1.
  pose proof (neigh_free (net w1) sp _ R D ip e l (lv_names _ _ _ Hl1) Hc HD Hx Ht Hh Hnx) as Hfree.
  set (sp1 := mkSpace (sp_links sp) (<[(l, pfx_addr ip) := pe_mac e]> (sp_neighs sp)) (sp_fdb sp)).
  destruct (AddNeighbor_ok (net w1) s1 key sp sp1 l 0 (pfx_addr ip) (pe_mac e) (host w1)) as (h1 & -> & S1 & R1);
    [done|done|unfold space_add; cbn; by rewrite Hfree|].
  pose proof (add_counts (pe_vtep e) (pe_mac e) (n_fdbCnt (net w1)) 1) as Hcnt.
  assert (Hc1 : (countmap.Add (pe_vtep e, pe_mac e) 1 (n_fdbCnt (net w1))).2 = Z.of_nat (size (filter (uses (pe_vtep e) (pe_mac e)) D)) + 1).
  { cbn. by rewrite (ta_cnt _ _ _ _ Ht). }
  cbn [net set_host] in *. destruct (countmap.Add (pe_vtep e, pe_mac e) 1 (n_fdbCnt (net w1))) as [cnt c]. cbn [fst snd] in Hcnt, Hc1. subst c.
  set (sp2 := mkSpace (sp_links sp) (sp_neighs sp1) (<[(l, pe_mac e) := pe_vtep e]> (sp_fdb sp))).
  assert (Hdone : forall h, spaces h = <[key := sp2]> (spaces (host w1)) -> (forall r, hasRule r h = hasRule r (host w1)) ->
    live key ({[(ip, e)]} ∪ D) (mkWorld (set_fdbCnt cnt (net w1)) d h) /\ frame key w (mkWorld (set_fdbCnt cnt (net w1)) d h)).
  { intros h Sh Rh. destruct (live_update key D ({[(ip, e)]} ∪ D) w1 sp sp2 cnt d h) as [L1 L2]; try done; [|split; [done|by etrans]].
    by apply (tables_add (net w1) sp (n_fdbCnt (net w1)) R D ip e l (lv_names _ _ _ Hl1) Hc HD Hx Ht Hh). }
  assert (Hsp' : forall h r, spare ({[(ip, e)]} ∪ D) (mkWorld (set_fdbCnt cnt (net w1)) d h) r = spare D w r).
  { intros h r. unfold spare. cbn [net drv]. rewrite Hcd, (due_static (net w1)), due_add, (due_static _ _ D r Hst) by done. cbn. lia. }
  destruct (Z.eqb_spec (Z.of_nat (size (filter (uses (pe_vtep e) (pe_mac e)) D)) + 1) 1) as [Hz|Hz].
  - pose proof (fdb_free (net w1) sp _ R D ip e l Hc HD Hx Ht (proj1 (size_filter_zero (uses (pe_vtep e) (pe_mac e)) D) ltac:(lia))) as Hff.
    destruct (AddNeighbor_ok (net w1) s1 key sp1 sp2 l AF_BRIDGE (pe_vtep e) (pe_mac e) h1) as (h2 & E2 & S2 & R2);
      [by rewrite S1, lookup_insert_eq|done|unfold space_add; cbn; by rewrite Hff|].
    cbn. rewrite E2. destruct (Hdone h2) as [L1 L2]; [by rewrite S2, S1, insert_insert_eq|intros r; by rewrite R2|].
    eexists. split; [done|]. split_and!; try done. apply Hsp'.
  - destruct (size_filter_pos (uses (pe_vtep e) (pe_mac e)) D) as (y & Hy & Hu); [lia|].
    pose proof (fdb_known (net w1) sp _ R D ip e l Hc HD Hx Ht Hh y Hy Hu) as Hk.
    destruct (Hdone h1) as [L1 L2]; [rewrite S1; f_equal; unfold sp2; f_equal; by rewrite insert_id|done|].
    eexists. split; [done|]. split_and!; try done. apply Hsp'.
Qed.

Lemma deleteNeighbor_live ip e w key D R : live key D w -> coherent (net w) R -> D ⊆ R -> (ip, e) ∈ D ->
  (n_secure (net w) = true -> 0 < count (drv w) (pe_vtep e)) ->
  exists w', deleteNeighbor ip (pe_mac e) (pe_vtep e) w = (w', None) /\ live key (D ∖ {[(ip, e)]}) w' /\
    frame key w w' /\ n_peerdb (net w') = n_peerdb (net w) /\ keys (drv w') = keys (drv w) /\
    forall r, spare (D ∖ {[(ip, e)]}) w' r = spare D w r.
Proof.
  intros Hl Hc HD Hx Hcp. unfold deleteNeighbor. rewrite (lv_sbox _ _ _ Hl).
  destruct (lv_space _ _ _ Hl) as (sp & Hsp & Hsu & Ht). destruct (ta_home _ _ _ _ Ht _ _ Hx) as [l Hh].
  pose proof Hh as (i & s & Hi & Hs & Hb & Hlk).
  set (d := if n_secure (net w) then removeEncryption (pe_vtep e) (drv w) else drv w).
  assert (Hd : drvOk d /\ keys d = keys (drv w) /\ forall r, count d r = count (drv w) r - (if n_secure (net w) then one (pe_vtep e) r else 0)).
  { unfold d. destruct (n_secure (net w)); [by apply remove_drv; [apply (lv_drv _ _ _ Hl)|apply Hcp]|].
    split; [apply (lv_drv _ _ _ Hl)|]. split; [done|]. intros r. lia. }
  destruct Hd as (Hd & Hkd & Hcd).
  replace (if n_secure (net w) then set_drv (removeEncryption (pe_vtep e) (drv w)) w else w) with (set_drv d w)
    by (unfold d; destruct (n_secure (net w)); [done|by destruct w]).
  cbn [net set_drv host]. rewrite Hi, Hs. cbn [default from_option fmap option_fmap option_map id].
  rewrite (proj1 (su_init _ _ Hsu i s Hs Hb)).
  pose proof (add_counts (pe_vtep e) (pe_mac e) (n_fdbCnt (net w)) (-1)) as Hcnt.
  assert (Hc1 : (countmap.Add (pe_vtep e, pe_mac e) (-1) (n_fdbCnt (net w))).2 = countmap.count (pe_vtep e, pe_mac e) (countmap.Add (pe_vtep e, pe_mac e) (-1) (n_fdbCnt (net w))).1).
  { rewrite Hcnt, bool_decide_eq_true_2 by done. done. }
  destruct (countmap.Add (pe_vtep e, pe_mac e) (-1) (n_fdbCnt (net w))) as [cnt c]. cbn [fst snd] in Hcnt, Hc1. subst c.
  set (c := countmap.count (pe_vtep e, pe_mac e) cnt).
  set (sp1 := mkSpace (sp_links sp) (sp_neighs sp) (if c =? 0 then delete (l, pe_mac e) (sp_fdb sp) else sp_fdb sp)).
  assert (Hfd : exists h1, (if c =? 0 then DeleteNeighbor key (pe_vtep e) (pe_mac e) (generateVxlanName (net w) s) AF_BRIDGE (host w) else (host w, None)) = (h1, None) /\
    spaces h1 = <[key := sp1]> (spaces (host w)) /\ forall r, hasRule r h1 = hasRule r (host w)).
  { unfold sp1. destruct (c =? 0).
    - apply (DeleteNeighbor_ok (net w) s key sp _ l); [done|done|]. unfold space_del. cbn. rewrite bool_decide_eq_true_2; [done|].
      apply (ta_fdb _ _ _ _ Ht). by exists ip, e.
    - exists (host w). split; [done|]. split; [|done]. symmetry. apply insert_id. rewrite Hsp. by destruct sp. }
  destruct Hfd as (h1 & E1 & S1 & R1). cbn [net set_drv host on_net]. rewrite E1. cbn [set_host host].
  set (sp2 := mkSpace (sp_links sp) (delete (l, pfx_addr ip) (sp_neighs sp)) (sp_fdb sp1)).
  destruct (DeleteNeighbor_ok (net w) s key sp1 sp2 l 0 (pfx_addr ip) (pe_mac e) h1) as (h2 & -> & S2 & R2);
    [by rewrite S1, lookup_insert_eq|done| |].
  { unfold space_del. cbn. replace (sp_neighs sp !! (l, pfx_addr ip)) with (Some (pe_mac e)); [done|]. symmetry.
    apply (ta_neigh _ _ _ _ Ht). by exists ip, e. }
  destruct (live_update key D (D ∖ {[(ip, e)]}) w sp sp2 cnt d h2 Hl Hsp) as [L1 L2]; try done.
  - by rewrite S2, S1, insert_insert_eq.
  - intros r. by rewrite R2.
  - by apply (tables_del (net w) sp (n_fdbCnt (net w)) R D ip e l (lv_names _ _ _ Hl) Hc HD Hx Ht Hh).
  - eexists. split; [done|]. split_and!; try done. intros r. unfold spare. cbn [net drv].
    rewrite Hcd, (due_static (net w)), due_del by done. cbn. lia.
Qed.

(** ** The first endpoint joins *)

Definition remoteOnly (l : list (Prefix * peerEntry)) : peerSet := list_to_set (filter (fun x => isLocal x.2 = false) l).

Lemma initPeers_fold fuel key R l : forall w D, live key D w -> coherent (net w) R -> D ⊆ R -> NoDup l ->
  (forall x, x ∈ l -> isLocal x.2 = false -> x ∈ R /\ x ∉ D /\ HostP (pe_vtep x.2)) ->
  exists w', foldl (fun acc '(peerIP, pEntry) =>
      w ← acc; if isLocal pEntry then Some w else fst <$> addNeighborWith (joinSandbox (S fuel)) peerIP (pe_mac pEntry) (pe_vtep pEntry) w)
    (Some w) l = Some w' /\ live key (remoteOnly l ∪ D) w' /\ frame key w w' /\ n_peerdb (net w') = n_peerdb (net w) /\
    keys (drv w') = keys (drv w) /\ forall r, spare (remoteOnly l ∪ D) w' r = spare D w r.
Proof.
  induction l as [|[ip e] l IH]; intros w D Hl Hc HD Hnd Hin; cbn [foldl].
  { exists w. assert (E : remoteOnly [] ∪ D = D) by (unfold remoteOnly; set_solver). rewrite E. by split_and!. }
  apply NoDup_cons in Hnd as [Hne Hnd]. cbn [mbind option_bind]. destruct (isLocal e) eqn:He.
  - destruct (IH w D Hl Hc HD Hnd) as (w' & Hw'); [intros x Hx; apply Hin; by apply list_elem_of_further|].
    exists w'. unfold remoteOnly in *. rewrite filter_cons_False by (cbn; congruence). done.
  - destruct (Hin (ip, e)) as (HxR & HxD & Hv); [by apply list_elem_of_here|done|].
    destruct (addNeighbor_live fuel ip e w key D R Hl Hc HD HxR HxD Hv) as (w1 & -> & Hl1 & Hf1 & Edb1 & Ek1 & Hsp1). cbn [fmap option_fmap option_map fst].
    destruct (IH w1 ({[(ip, e)]} ∪ D) Hl1) as (w' & E' & Hl' & Hf' & Edb' & Ek' & Hsp'); [|set_solver|done| |].
    + by apply (coherent_static _ _ _ (fr_static _ _ _ Hf1)).
    + intros x Hx Hr. destruct (Hin x) as (? & ? & ?); [by apply list_elem_of_further|done|]. split; [done|]. split; [|done].
      rewrite elem_of_union, elem_of_singleton. intros [->|?]; done.
    + assert (E : remoteOnly ((ip, e) :: l) ∪ D = remoteOnly l ∪ ({[(ip, e)]} ∪ D)).
      { unfold remoteOnly. rewrite filter_cons_True by done. cbn [list_to_set]. set_solver. }
      exists w'. rewrite E. split_and!; try done; [by etrans|congruence|congruence|]. intros r. by rewrite Hsp'.
Qed.

Lemma remoteOnly_Walk pm : single pm -> remoteOnly (peerMap.Walk pm) = remotesOf pm.
Proof.
  intros Hs. apply set_eq. intros [ip e]. unfold remoteOnly. rewrite elem_of_list_to_set, list_elem_of_filter, elem_of_remotes, Walk_elem by done.
  cbn. tauto.
Qed.

(** A network without a sandbox. *)
Record dormant (n : network) : Prop := {
  dm_sbox : n_sbox n = None; dm_init : n_sboxInit n = false;
  dm_subnets i s : n_subnets n !! i = Some s -> s_sboxInit s = false /\ s_initErr s = None }.

Lemma initSandbox_live w : dormant (net w) -> names_ok (net w) -> drvOk (drv w) ->
  let key := sandboxKey (n_initEpoch (net w) + 1) (n_id (net w)) in
  exists w', joinInit w = (w', true) /\ live key ∅ w' /\ frame key w w' /\ drv w' = drv w /\ n_peerdb (net w') = n_peerdb (net w) /\
    n_initEpoch (net w') = n_initEpoch (net w) + 1.
Proof.
  intros [Hk Hi Hs] Hn Hd key. unfold joinInit, initSandbox. rewrite Hi. cbn [n_initEpoch n_id set_initEpoch].
  destruct (remove_stale (isStale (n_id (net w))) (host w)) as [S1 R1]. set (h1 := RemoveStale _ _) in *. fold key.
  destruct (new_sandbox key h1 (new_sandbox_works key h1)) as [S2 R2]. pose proof (new_sandbox_works key h1) as W.
  destruct (NewSandbox key h1) as [h2 e]. cbn in S2, R2, W. subst e. eexists. split; [done|]. cbn.
  split; [|split; [|done]].
  - split; cbn; try done.
    + intros _ i s E Hb. by destruct (Hs i s E) as [? _]; congruence.
    + exists emptySpace. split; [by rewrite S2, lookup_insert_eq|]. split; [|apply tables_empty; intros x; unfold countmap.count; by rewrite lookup_empty].
      split; cbn.
      * intros i s E. by apply (Hs i s).
      * intros i s E Hb. destruct (Hs i s E) as [? _]. congruence.
      * intros i s E _. by rewrite !lookup_empty.
  - split; cbn; [done| |].
    + intros ns Hns Hst. rewrite S2, lookup_insert_ne, S1, Hst by done. done.
    + intros r _. by rewrite R2, R1.
Qed.

Lemma joinSandbox_first fuel i s w : dormant (net w) -> names_ok (net w) -> drvOk (drv w) ->
  single (n_peerdb (net w)) -> coherent (net w) (remotesOf (n_peerdb (net w))) ->
  (forall x, x ∈ remotesOf (n_peerdb (net w)) -> HostP (pe_vtep x.2)) -> n_subnets (net w) !! i = Some s ->
  let key := sandboxKey (n_initEpoch (net w) + 1) (n_id (net w)) in
  exists w', joinSandbox (S (S fuel)) i true w = Some (w', None) /\ live key (remotesOf (n_peerdb (net w))) w' /\ frame key w w' /\
    n_peerdb (net w') = n_peerdb (net w) /\ keys (drv w') = keys (drv w) /\
    forall r, spare (remotesOf (n_peerdb (net w))) w' r = count (drv w) r.
Proof.
  intros Hdm Hn Hd Hsi Hc Hh Hs key.
  destruct (initSandbox_live w Hdm Hn Hd) as (w1 & E1 & Hl1 & Hf1 & Ed1 & Edb1 & _). fold key in Hl1, Hf1.
  pose proof (fr_static _ _ _ Hf1) as Hst1.
  assert (Hs1 : exists s1, n_subnets (net w1) !! i = Some s1).
  { destruct Hst1 as (_ & _ & _ & Hm). pose proof (f_equal (.!! i) Hm) as E. cbn in E. rewrite !list_lookup_fmap, Hs in E. cbn in E.
    destruct (n_subnets (net w1) !! i) as [s1|]; [by exists s1|done]. }
  destruct Hs1 as [s1 Hs1]. remember (S fuel) as f eqn:Ef. cbn [joinSandbox]. rewrite E1, (lv_err _ _ _ Hl1), Hs1.
  destruct (joinSubnet_live i s1 w1 key ∅ Hl1 Hs1) as (w2 & -> & Hl2 & Hf2 & Ed2 & Edb2 & _). cbn [mbind option_bind].
  set (w3 := on_net _ w2). destruct (live_joinCnt key ∅ w2 (n_joinCnt (net w2) + 1) Hl2) as [Hl3 Hf3].
  change (on_net (set_joinCnt (n_joinCnt (net w2) + 1)) w2) with w3 in Hl3, Hf3.
  assert (Hf : frame key w w3) by (by etrans; [|etrans]). pose proof (fr_static _ _ _ Hf) as Hst.
  assert (Edb : n_peerdb (net w3) = n_peerdb (net w)) by (cbn; congruence).
  unfold initSandboxPeerDBWith. rewrite Edb. subst f.
  destruct (initPeers_fold fuel key (remotesOf (n_peerdb (net w))) (peerMap.Walk (n_peerdb (net w))) w3 ∅ Hl3) as (w4 & -> & Hl4 & Hf4 & Edb4 & Ek4 & Hsp4);
    [by apply (coherent_static (net w))|set_solver|apply Walk_NoDup| |].
  - intros [ip e] Hx Hr. apply Walk_elem in Hx; [|done]. assert (Hin : (ip, e) ∈ remotesOf (n_peerdb (net w))) by by apply elem_of_remotes.
    split; [done|]. split; [set_solver|by apply (Hh (ip, e))].
  - rewrite remoteOnly_Walk, union_empty_r_L in * by done. exists w4. cbn [mbind option_bind].
    split; [done|]. split; [done|]. split; [by etrans|]. split; [congruence|]. split; [cbn in Ek4; congruence|].
    intros r. rewrite Hsp4. unfold spare. rewrite due_empty. change (drv w3) with (drv w2). rewrite Ed2, Ed1. lia.
Qed.
End Steps.

(** ** Calls on one network *)

Lemma remotes_add eid ip mac vtep pm :
  remotesOf (peerMap.Add eid ip mac vtep pm).1 =
  if AddrIsValid vtep then {[(ip, mkPeer eid mac vtep)]} ∪ remotesOf pm else remotesOf pm.
Proof.
  apply set_eq. intros [ip' e']. rewrite elem_of_remotes. unfold peerMap.Add. rewrite SetMatrix.Insert_members.
  destruct (AddrIsValid vtep) eqn:Hv; rewrite ?elem_of_union, ?elem_of_singleton, elem_of_remotes; case_decide as E; try subst ip';
    rewrite ?elem_of_union, ?elem_of_singleton; split.
  - intros [[->|?] ?]; [by left|by right].
  - intros [[= ->]|[? ?]]; [split; [by left|unfold isLocal; cbn; by rewrite Hv]|split; [by right|done]].
  - intros [? ?]. by right.
  - intros [[= ? ?]|?]; done.
  - intros [[->|?] Hl]; [unfold isLocal in Hl; cbn in Hl; by rewrite Hv in Hl|done].
  - intros [? ?]. split; [by right|done].
  - done.
  - done.
Qed.

Lemma remotes_delete eid ip mac vtep pm :
  remotesOf (peerMap.Delete eid ip mac vtep pm).1 = remotesOf pm ∖ {[(ip, mkPeer eid mac vtep)]}.
Proof.
  apply set_eq. intros [ip' e']. rewrite elem_of_difference, !elem_of_remotes, elem_of_singleton. unfold peerMap.Delete.
  rewrite SetMatrix.Remove_members. case_decide as E; try subst ip'; rewrite ?elem_of_difference, ?elem_of_singleton; split.
  - intros [[? Hne] ?]. split; [done|]. intros [= ->]. done.
  - intros [[? ?] Hne]. split; [|done]. split; [done|]. intros ->. done.
  - intros [? ?]. split; [done|]. intros [= ? ?]. done.
  - by intros [[? ?] _].
Qed.

Lemma single_add eid ip mac vtep pm : single pm -> SetMatrix.members ip pm ⊆ {[mkPeer eid mac vtep]} ->
  single (peerMap.Add eid ip mac vtep pm).1.
Proof.
  intros Hs Hm ip' e e'. unfold peerMap.Add. rewrite SetMatrix.Insert_members. case_decide; [|by apply Hs]. set_solver.
Qed.

Lemma single_delete eid ip mac vtep pm : single pm -> single (peerMap.Delete eid ip mac vtep pm).1.
Proof.
  intros Hs ip' e e'. unfold peerMap.Delete. rewrite SetMatrix.Remove_members. case_decide; [|by apply Hs].
  intros [? _]%elem_of_difference [? _]%elem_of_difference. subst. by eapply Hs.
Qed.

(** Deleting the only peer with an address leaves none. *)
Lemma delete_last eid ip mac vtep pm : single pm -> mkPeer eid mac vtep ∈ SetMatrix.members ip pm ->
  (peerMap.Delete eid ip mac vtep pm).2.2 = 0%nat.
Proof.
  intros Hs Hx. unfold peerMap.Delete. rewrite SetMatrix.Remove_result, SetMatrix.Remove_members, decide_True by done. cbn.
  rewrite (single_members _ _ _ Hs Hx). apply size_empty_iff. set_solver.
Qed.

Section Net.
Context `{HX : Xfrm} `{!XfrmLaws} `{HH : Host} `{!HostLaws} `{!Healthy}.
Context (bind adv : Addr) (port : Z) (HostP : Addr -> Prop) (Key : key -> Prop) (F : XfrmState -> Prop) (G : XfrmPolicy -> Prop).
Context (Hclean : clean bind adv HostP Key F G) (Hadv : AddrIsValid adv = true).

Abbreviation drvOk := (drvOk bind adv port HostP Key F G).
Abbreviation live := (live bind adv port HostP Key F G).

Definition peersOf (w : world) : peerSet := remotesOf (n_peerdb (net w)).

Record worldOk (w : world) : Prop := {
  wk_names : names_ok (net w);
  wk_single : single (n_peerdb (net w));
  wk_coherent : coherent (net w) (peersOf w);
  wk_hosts x : x ∈ peersOf w -> HostP (pe_vtep x.2);
  wk_drv : drvOk (drv w);
  wk_box : dormant (net w) \/ exists epoch, live (sandboxKey epoch (n_id (net w))) (peersOf w) w }.

(** The calls of [setupEncryption] that a network is due. *)
Definition dueOf (n : network) (r : Addr) : Z :=
  match n_sbox n with Some _ => due n (remotesOf (n_peerdb n)) r | None => 0 end.
Definition spareOf (w : world) (r : Addr) : Z := count (drv w) r - dueOf (net w) r.

Record moves (w w' : world) : Prop := {
  mv_ok : worldOk w';
  mv_static : same_static (net w) (net w');
  mv_spaces ns : (forall epoch, ns <> sandboxKey epoch (n_id (net w))) -> isStale (n_id (net w)) ns = false ->
    spaces (host w') !! ns = spaces (host w) !! ns;
  mv_rules : keepsRules (vnis (net w)) (host w) (host w');
  mv_keys : keys (drv w') = keys (drv w);
  mv_spare r : spareOf w r <= spareOf w' r }.

Lemma moves_refl w : worldOk w -> moves w w.
Proof. intros Hw. by split. Qed.

Lemma moves_trans a b c : moves a b -> moves b c -> moves a c.
Proof.
  intros [O1 S1 P1 R1 K1 Q1] [O2 S2 P2 R2 K2 Q2]. split; [done|by etrans| | |congruence|].
  - intros ns Hn Hs. rewrite P2, P1; [done..|rewrite (proj1 S1)|rewrite (proj1 S1)]; done.
  - intros r Hr. rewrite R2, R1; [done..|]. by rewrite (vnis_static _ _ S1).
  - intros r. etrans; [apply Q1|apply Q2].
Qed.

Lemma moves_frame epoch w w' : frame (sandboxKey epoch (n_id (net w))) w w' -> worldOk w' -> keys (drv w') = keys (drv w) ->
  (forall r, spareOf w r <= spareOf w' r) -> moves w w'.
Proof. intros [S1 P1 R1] Ho Hk Hs. split; try done. intros ns Hn Hst. apply P1; [apply Hn|done]. Qed.

Lemma live_dueOf key w r : live key (peersOf w) w -> dueOf (net w) r = due (net w) (peersOf w) r.
Proof. intros Hl. unfold dueOf. by rewrite (lv_sbox _ _ _ _ _ _ _ _ _ _ Hl). Qed.

Lemma live_peerdb key D w pm : live key D w -> live key D (on_net (set_peerdb pm) w).
Proof.
  intros [Hk Hi He Hn Hg Hd (sp & Hsp & [U1 U2 U3] & Ht)]. split; cbn; try done. exists sp. split; [done|]. split; [by split|by destruct Ht].
Qed.

Lemma dormant_peerdb n pm : dormant n -> dormant (set_peerdb pm n).
Proof. by intros []. Qed.

(** A live sandbox and a database without conflicts make a good network. *)
Lemma live_ok epoch w : live (sandboxKey epoch (n_id (net w))) (peersOf w) w -> single (n_peerdb (net w)) -> coherent (net w) (peersOf w) ->
  (forall x, x ∈ peersOf w -> HostP (pe_vtep x.2)) -> worldOk w.
Proof.
  intros Hl Hs Hc Hh. split; try done; [apply (lv_names _ _ _ _ _ _ _ _ _ _ Hl)|apply (lv_drv _ _ _ _ _ _ _ _ _ _ Hl)|]. right. by exists epoch.
Qed.

(** ** Peers *)

(** The database changes in local endpoints only. *)
Lemma local_moves pm w : worldOk w -> single pm -> remotesOf pm = peersOf w -> moves w (on_net (set_peerdb pm) w).
Proof.
  intros [Hn Hs Hc Hh Hd Hb] Hs' Ep. assert (Ep' : peersOf (on_net (set_peerdb pm) w) = peersOf w) by done. split; try done.
  - split; rewrite ?Ep'; try done; [by apply (coherent_static (net w))|].
    destruct Hb as [Hb|[epoch Hl]]; [left; by apply dormant_peerdb|right]. exists epoch. by apply live_peerdb.
  - intros r. unfold spareOf, dueOf. cbn. by rewrite Ep.
Qed.

Lemma peerAdd_local eid ip mac w : worldOk w -> eid <> ""%string -> SetMatrix.members ip (n_peerdb (net w)) ⊆ {[mkPeer eid mac AddrZero]} ->
  exists w', peerAdd eid ip mac AddrZero w = Some (w', None) /\ moves w w' /\
    net w' = set_peerdb (peerMap.Add eid ip mac AddrZero (n_peerdb (net w))).1 (net w).
Proof.
  intros Hw He Hm. pose proof (wk_single _ Hw) as Hs. unfold peerAdd. rewrite bool_decide_eq_false_2 by done.
  pose proof (remotes_add eid ip mac AddrZero (n_peerdb (net w))) as Hr. pose proof (single_add eid ip mac AddrZero _ Hs Hm) as Hs'. cbn [AddrIsValid] in *.
  destruct (peerMap.Add _ _ _ _ _) as [pm [b k]]. cbn [fst] in Hr, Hs'. eexists. split; [done|]. split; [|done].
  by apply local_moves.
Qed.

Lemma peerAdd_remote eid ip mac vtep w : worldOk w -> eid <> ""%string -> AddrIsValid vtep = true -> HostP vtep ->
  SetMatrix.members ip (n_peerdb (net w)) = ∅ -> coherent (net w) ({[(ip, mkPeer eid mac vtep)]} ∪ peersOf w) ->
  exists w', peerAdd eid ip mac vtep w = Some (w', None) /\ moves w w' /\
    n_peerdb (net w') = (peerMap.Add eid ip mac vtep (n_peerdb (net w))).1.
Proof.
  intros [Hn Hs Hc Hh Hd Hb] He Hv HP Hm Hc'. unfold peerAdd. rewrite bool_decide_eq_false_2 by done.
  set (e := mkPeer eid mac vtep) in *.
  pose proof (remotes_add eid ip mac vtep (n_peerdb (net w))) as Hr.
  pose proof (single_add eid ip mac vtep _ Hs ltac:(rewrite Hm; set_solver)) as Hs'. rewrite Hv in Hr. fold e in Hr.
  destruct (peerMap.Add _ _ _ _ _) as [pm [b k]]. cbn [fst] in Hr, Hs'.
  set (w1 := on_net (set_peerdb pm) w). assert (Ep : peersOf w1 = {[(ip, e)]} ∪ peersOf w) by apply Hr.
  assert (Hh' : forall x, x ∈ peersOf w1 -> HostP (pe_vtep x.2)).
  { intros x. rewrite Ep, elem_of_union, elem_of_singleton. intros [->|?]; [done|by apply Hh]. }
  assert (Hnx : (ip, e) ∉ peersOf w) by (unfold peersOf; rewrite elem_of_remotes, Hm; set_solver).
  assert (Hc1 : coherent (net w1) (peersOf w1)) by (rewrite Ep; by apply (coherent_static (net w))).
  destruct Hb as [Hb|[epoch Hl]].
  - unfold addNeighbor, addNeighborWith. rewrite (dm_sbox _ Hb : n_sbox (net w1) = None). rewrite Hv. eexists. split; [done|]. split; [|done].
    split; try done.
    + split; try done. left. by apply dormant_peerdb.
    + intros r. unfold spareOf, dueOf. change (n_sbox (net w1)) with (n_sbox (net w)). rewrite (dm_sbox _ Hb). done.
  - destruct (addNeighbor_live bind adv port HostP Key F G Hclean Hadv 1 ip e w1 _ _ _ (live_peerdb _ _ _ pm Hl) Hc1) as (w' & E' & Hl' & Hf' & Edb & Ek & Hsp);
      [set_solver|set_solver|done|done|]. unfold addNeighbor, joinFuel. cbn [e pe_mac pe_vtep] in E'. rewrite Hv, E'. cbn [mbind option_bind].
    exists w'. split; [done|]. split; [|done]. rewrite <-Ep in Hl', Hsp.
    assert (Ep' : peersOf w' = peersOf w1) by (unfold peersOf; by rewrite Edb).
    assert (Eid : n_id (net w') = n_id (net w)) by apply (fr_static _ _ _ Hf').
    assert (Hok : worldOk w').
    { apply (live_ok epoch); rewrite ?Ep', ?Edb, ?Eid; try done. by apply (coherent_static (net w1)); [apply (fr_static _ _ _ Hf')|]. }
    assert (Hf : frame (sandboxKey epoch (n_id (net w))) w w') by (by destruct Hf'; split).
    apply (moves_frame epoch); try done. intros r. unfold spareOf. rewrite (live_dueOf _ w r Hl), (live_dueOf (sandboxKey epoch (n_id (net w))) w' r) by (by rewrite Ep').
    specialize (Hsp r). unfold spare in Hsp. rewrite Ep'. cbn [net drv w1 on_net] in Hsp. rewrite Hsp.
    apply Z.eq_le_incl. f_equal.
Qed.

Lemma peerDelete_local eid ip mac w : worldOk w -> eid <> ""%string -> mkPeer eid mac AddrZero ∈ SetMatrix.members ip (n_peerdb (net w)) ->
  exists w', peerDelete eid ip mac AddrZero w = Some (w', None) /\ moves w w' /\
    n_peerdb (net w') = (peerMap.Delete eid ip mac AddrZero (n_peerdb (net w))).1.
Proof.
  intros Hw He Hx. pose proof (wk_single _ Hw) as Hs. unfold peerDelete. rewrite bool_decide_eq_false_2 by done.
  pose proof (remotes_delete eid ip mac AddrZero (n_peerdb (net w))) as Hr. pose proof (single_delete eid ip mac AddrZero _ Hs) as Hs'.
  pose proof (delete_last eid ip mac AddrZero _ Hs Hx) as Hz. cbn [AddrIsValid].
  destruct (peerMap.Delete _ _ _ _ _) as [pm [b k]]. cbn [fst snd] in *. subst k. cbn. eexists. split; [done|]. split; [|done].
  apply local_moves; [done|done|]. rewrite Hr. apply set_eq. intros [ip' e']. rewrite elem_of_difference, elem_of_singleton. unfold peersOf.
  rewrite elem_of_remotes. split; [by intros [? _]|]. intros [? Hl]. split; [done|]. intros [= -> ->]. done.
Qed.

Lemma demand_pos (x : Prefix * peerEntry) (D : peerSet) : x ∈ D -> 1 <= demand D (pe_vtep x.2).
Proof.
  intros Hx. unfold demand. assert (E : size (filter (fun y : Prefix * peerEntry => pe_vtep y.2 = pe_vtep x.2) D) <> 0%nat); [|lia].
  intros E. by apply (proj1 (size_filter_zero (fun y : Prefix * peerEntry => pe_vtep y.2 = pe_vtep x.2) D) E x Hx).
Qed.

Lemma peerDelete_remote ip e w : worldOk w -> pe_eid e <> ""%string -> (ip, e) ∈ peersOf w -> (forall r, 0 <= spareOf w r) ->
  exists w', peerDelete (pe_eid e) ip (pe_mac e) (pe_vtep e) w = Some (w', None) /\ moves w w' /\
    n_peerdb (net w') = (peerMap.Delete (pe_eid e) ip (pe_mac e) (pe_vtep e) (n_peerdb (net w))).1.
Proof.
  intros [Hn Hs Hc Hh Hd Hb] He Hx Hcp. unfold peerDelete. rewrite bool_decide_eq_false_2 by done.
  pose proof (remotes_delete (pe_eid e) ip (pe_mac e) (pe_vtep e) (n_peerdb (net w))) as Hr.
  pose proof (single_delete (pe_eid e) ip (pe_mac e) (pe_vtep e) _ Hs) as Hs'. pose proof Hx as [Hm Hv]%elem_of_remotes.
  pose proof (delete_last (pe_eid e) ip (pe_mac e) (pe_vtep e) _ Hs ltac:(by destruct e)) as Hz.
  replace (mkPeer (pe_eid e) (pe_mac e) (pe_vtep e)) with e in Hr by by destruct e.
  assert (Hvalid : AddrIsValid (pe_vtep e) = true) by (unfold isLocal in Hv; by destruct (AddrIsValid (pe_vtep e))).
  destruct (peerMap.Delete _ _ _ _ _) as [pm [b k]]. cbn [fst snd] in *. subst k. rewrite Hvalid.
  set (w1 := on_net (set_peerdb pm) w). assert (Ep : peersOf w1 = peersOf w ∖ {[(ip, e)]}) by apply Hr.
  assert (Hh' : forall x, x ∈ peersOf w1 -> HostP (pe_vtep x.2)).
  { intros x. rewrite Ep, elem_of_difference. intros [? _]. by apply Hh. }
  assert (Hc1 : coherent (net w1) (peersOf w)) by by apply (coherent_static (net w)).
  assert (Hc2 : coherent (net w1) (peersOf w1)) by (eapply coherent_shrink; [|exact Hc1]; set_solver).
  destruct Hb as [Hb|[epoch Hl]].
  - unfold deleteNeighbor. rewrite (dm_sbox _ Hb : n_sbox (net w1) = None). cbn. eexists. split; [done|]. split; [|done].
    split; try done.
    + split; try done. left. by apply dormant_peerdb.
    + intros r. unfold spareOf, dueOf. change (n_sbox (net w1)) with (n_sbox (net w)). rewrite (dm_sbox _ Hb). done.
  - destruct (deleteNeighbor_live bind adv port HostP Key F G Hclean ip e w1 _ _ (peersOf w) (live_peerdb _ _ _ pm Hl) Hc1) as (w' & E' & Hl' & Hf' & Edb & Ek & Hsp); [done|done| |].
    { intros Hsec. specialize (Hcp (pe_vtep e)). unfold spareOf in Hcp. rewrite (live_dueOf _ w _ Hl) in Hcp. unfold due in Hcp.
      change (n_secure (net w1)) with (n_secure (net w)) in Hsec. rewrite Hsec in Hcp. pose proof (demand_pos _ _ Hx) as Hp. cbn in *. lia. }
    rewrite E'. cbn. exists w'. split; [done|]. split; [|done]. rewrite <-Ep in Hl', Hsp.
    assert (Ep' : peersOf w' = peersOf w1) by (unfold peersOf; by rewrite Edb).
    assert (Eid : n_id (net w') = n_id (net w)) by apply (fr_static _ _ _ Hf').
    assert (Hok : worldOk w').
    { apply (live_ok epoch); rewrite ?Ep', ?Edb, ?Eid; try done. by apply (coherent_static (net w1)); [apply (fr_static _ _ _ Hf')|]. }
    assert (Hf : frame (sandboxKey epoch (n_id (net w))) w w') by (by destruct Hf'; split).
    apply (moves_frame epoch); try done. intros r. unfold spareOf. rewrite (live_dueOf _ w r Hl), (live_dueOf (sandboxKey epoch (n_id (net w))) w' r) by (by rewrite Ep').
    specialize (Hsp r). unfold spare in Hsp. rewrite Ep'. cbn [net drv w1 on_net] in Hsp. rewrite Hsp.
    apply Z.eq_le_incl. f_equal.
Qed.

(** ** Joining and leaving *)

Lemma dueOf_nonneg n r : 0 <= dueOf n r.
Proof. unfold dueOf, due, demand. destruct (n_sbox n), (n_secure n); lia. Qed.

(** The host changes in what no network is about. *)
Lemma moves_host w h : worldOk w ->
  (forall key D, live key D w -> live key D (set_host h w)) ->
  (forall ns, (forall epoch, ns <> sandboxKey epoch (n_id (net w))) -> spaces h !! ns = spaces (host w) !! ns) ->
  (forall r, hasRule r h = hasRule r (host w)) -> moves w (set_host h w).
Proof.
  intros [Hn Hs Hc Hh Hd Hb] Hl Hsp Hr. split; try done.
  - split; try done. destruct Hb as [Hb|[epoch Hb]]; [by left|right]. exists epoch. by apply Hl.
  - intros ns Hns _. by apply Hsp.
  - intros r _. apply Hr.
Qed.

Lemma moves_quiet w h : worldOk w -> (spaces h = spaces (host w) /\ forall r, hasRule r h = hasRule r (host w)) -> moves w (set_host h w).
Proof.
  intros Hw [Hs Hr]. apply moves_host; [done| |by rewrite Hs|done].
  intros key D [Hk Hi He Hn Hg Hd (sp & Hsp & Hsu & Ht)]. split; cbn; try done.
  - intros Hsec i s Es Eb. rewrite !Hr. by apply (Hg Hsec i s).
  - exists sp. by rewrite Hs.
Qed.

Lemma moves_veth w key a h : worldOk w -> n_sbox (net w) = Some key -> String.prefix "veth" a = true ->
  (AddInterface key a (host w)).1 = h -> moves w (set_host h w).
Proof.
  intros Hw Hk Ha <-. destruct (wk_box _ Hw) as [Hb|[epoch Hl]]; [rewrite (dm_sbox _ Hb) in Hk; discriminate Hk|].
  pose proof Hl as [Hk' _ _ _ _ _ (sp & Hsp & _)]. assert (key = sandboxKey epoch (n_id (net w))) as -> by congruence.
  destruct (add_interface _ a (host w) sp Hsp (add_interface_works _ _ _)) as [(i0 & _ & Hs0) Hr].
  apply moves_host; [done| |intros ns Hns; by rewrite Hs0, lookup_insert_ne|done]. clear dependent sp. intros key D Hl'.
  assert (key = sandboxKey epoch (n_id (net w))) as -> by (pose proof (lv_sbox _ _ _ _ _ _ _ _ _ _ Hl'); congruence).
  destruct Hl' as [_ Hi He Hn Hg Hd (sp & Hsp & [U1 U2 U3] & Ht)].
  destruct (add_interface _ a (host w) sp Hsp (add_interface_works _ _ _)) as [(i & Fi & Hs) _].
  split; cbn; try done; [intros Hsec j s Es Eb; rewrite !Hr; by apply (Hg Hsec j s)|].
  assert (Hkeep : forall name l, sp_links sp !! name = Some l -> sp_links (add_link a i sp) !! name = Some l).
  { intros name l Hnl. unfold add_link. destruct (sp_links sp !! a) eqn:Ea; [done|]. cbn. rewrite lookup_insert_ne; [done|congruence]. }
  assert (Hoth : forall name, name <> a -> sp_links (add_link a i sp) !! name = sp_links sp !! name).
  { intros name Hne. unfold add_link. destruct (sp_links sp !! a); [done|]. cbn. by rewrite lookup_insert_ne. }
  exists (add_link a i sp). split; [by rewrite Hs, lookup_insert_eq|]. split; [split; [done| |]|].
  - intros j s Es Eb. destruct (U2 j s Es Eb) as [? [l Hnl]]. split; [done|]. exists l. by apply Hkeep.
  - intros j s Es Eb. destruct (U3 j s Es Eb) as [? ?]. rewrite !Hoth; [done|..]; intros E; by rewrite <-E in Ha.
  - apply (tables_links (net w) _ sp); [done| | |by unfold add_link; destruct (sp_links sp !! a)..].
    + intros ip l. apply home_static; [done|intros j s Es Eb; by exists s|done].
    + intros x y l. unfold add_link. destruct (sp_links sp !! a) eqn:Ea; [apply (ta_inj _ _ _ _ Ht)|]. cbn. rewrite !lookup_insert_Some.
      intros [[<- <-]|[? Hx]] [[<- Hy1]|[? Hy]]; [done|by destruct (Fi y)|subst l; by destruct (Fi x)|by apply (ta_inj _ _ _ _ Ht x y l)].
Qed.

Lemma moves_endpoints w eps : worldOk w -> moves w (on_net (set_endpoints eps) w).
Proof.
  intros [Hn Hs Hc Hh Hd Hb]. split; try done. split; try done; [by apply (coherent_static (net w))|].
  destruct Hb as [[]|[epoch [Hk Hi He Hn' Hg Hd' (sp & Hsp & [U1 U2 U3] & Ht)]]]; [by left|right]. exists epoch.
  split; cbn; try done. exists sp. split; [done|]. split; [by split|by destruct Ht].
Qed.

Lemma attach_moves eid ep i named w : worldOk w -> is_Some (n_sbox (net w)) ->
  exists w' e, attach eid ep i named w = Some (w', e) /\ moves w w' /\ n_peerdb (net w') = n_peerdb (net w).
Proof.
  intros Hw [key Hk]. unfold attach.
  assert (Hret : forall w' (e : option err), moves w w' -> n_peerdb (net w') = n_peerdb (net w) ->
    exists w2 e2, Some (w', e) = Some (w2, e2) /\ moves w w2 /\ n_peerdb (net w2) = n_peerdb (net w)) by (intros w' e0 ? ?; by exists w', e0).
  pose proof (others_quiet (host w) (createVethPair (host w)).1 ltac:(tauto)) as Q1. pose proof (veth_name (host w)) as Hveth.
  destruct (createVethPair (host w)) as [h1 [[a b]|]]; cbn in Q1; [|apply Hret; [by apply moves_quiet|done]].
  specialize (Hveth _ _ _ eq_refl). cbn zeta. cbn [ep_ifName ep_mac].
  set (w1 := on_net _ (set_host h1 w)).
  assert (M1 : moves w w1) by (eapply moves_trans; [by apply (moves_quiet w h1)|apply moves_endpoints, (mv_ok _ _ (moves_quiet w h1 Hw Q1))]).
  assert (Hk1 : n_sbox (net w1) = Some key) by done.
  assert (Hdb : n_peerdb (net w1) = n_peerdb (net w)) by done. clearbody w1. rewrite Hk1. cbn [mbind option_bind].
  pose proof (others_quiet (host w1) (LinkSetMTU a (maxMTU (net w1)) (host w1)).1 ltac:(naive_solver)) as Q2.
  destruct (LinkSetMTU a (maxMTU (net w1)) (host w1)) as [h2 []]; cbn [fst] in *; [apply Hret; [|done]; eapply moves_trans; [exact M1|apply moves_quiet; [apply (mv_ok _ _ M1)|exact Q2]]|].
  assert (M2 : moves w (set_host h2 w1)) by (eapply moves_trans; [done|]; apply moves_quiet; [by apply mv_ok in M1|done]).
  pose proof (moves_veth (set_host h2 w1) key a _ (mv_ok _ _ M2) Hk1 Hveth eq_refl) as M3. cbn [host set_host] in M3.
  pose proof (add_interface_works key a h2) as W. destruct (AddInterface key a h2) as [h3 e3]. cbn [fst snd] in *. subst e3.
  pose proof (moves_trans _ _ _ M2 M3) as M3'. clear M3. change (set_host h3 (set_host h2 w1)) with (set_host h3 w1) in M3'.
  pose proof (others_quiet h3 (LinkSetMTU b (maxMTU (net w1)) h3).1 ltac:(naive_solver)) as Q4.
  destruct (LinkSetMTU b (maxMTU (net w1)) h3) as [h4 e4]. cbn [fst] in Q4.
  assert (M4 : moves w (set_host h4 w1)) by (eapply moves_trans; [exact M3'|]; apply (moves_quiet (set_host h3 w1)); [by apply mv_ok in M3'|done]).
  destruct e4; [by apply Hret|].
  pose proof (others_quiet h4 (LinkSetHardwareAddr b (MACAsSlice (ep_mac ep)) h4).1 ltac:(naive_solver)) as Q5.
  destruct (LinkSetHardwareAddr b _ h4) as [h5 e5]. cbn [fst] in Q5.
  assert (M5 : moves w (set_host h5 w1)) by (eapply moves_trans; [exact M4|]; apply (moves_quiet (set_host h4 w1)); [by apply mv_ok in M4|done]).
  destruct e5; [by apply Hret|]. destruct named; by apply Hret.
Qed.

Lemma join_moves i s w : worldOk w -> n_subnets (net w) !! i = Some s ->
  exists w', joinSandbox joinFuel i true w = Some (w', None) /\ moves w w' /\ n_peerdb (net w') = n_peerdb (net w) /\ is_Some (n_sbox (net w')).
Proof.
  intros Hw Hs. pose proof Hw as [Hn Hsi Hc Hh Hd Hb]. destruct Hb as [Hb|[epoch Hl]].
  - destruct (joinSandbox_first bind adv port HostP Key F G Hclean Hadv 0 i s w Hb Hn Hd Hsi Hc Hh Hs) as (w' & E & Hl & Hf & Edb & Ek & Hsp).
    exists w'. split; [exact E|]. assert (Ep : peersOf w' = peersOf w) by (unfold peersOf; by rewrite Edb).
    pose proof (fr_static _ _ _ Hf) as Hst. split; [|split; [done|by rewrite (lv_sbox _ _ _ _ _ _ _ _ _ _ Hl)]].
    apply (moves_frame (n_initEpoch (net w) + 1)); [done| |done|].
    + apply (live_ok (n_initEpoch (net w) + 1)); rewrite ?Ep, ?Edb; try done; [by rewrite (proj1 Hst)|by apply (coherent_static (net w))].
    + intros r. unfold spareOf. rewrite (live_dueOf _ w' r) by by rewrite Ep. rewrite Ep. specialize (Hsp r). unfold spare in Hsp.
      change (remotesOf (n_peerdb (net w))) with (peersOf w) in Hsp. pose proof (dueOf_nonneg (net w) r). lia.
  - destruct (joinSubnet_live bind adv port HostP Key F G Hadv i s w _ _ Hl Hs) as (w1 & E & Hl1 & Hf & Ed & Edb & _).
    destruct (live_joinCnt bind adv port HostP Key F G _ _ w1 (n_joinCnt (net w1) + 1) Hl1) as [Hl2 Hf2]. set (w2 := on_net _ w1) in *.
    exists w2. assert (Ep : peersOf w2 = peersOf w) by (unfold peersOf; by rewrite <-Edb). pose proof (fr_static _ _ _ Hf) as Hst.
    split; [|split; [|split; [done|by rewrite (lv_sbox _ _ _ _ _ _ _ _ _ _ Hl2)]]].
    + unfold joinFuel. cbn [joinSandbox]. unfold joinInit. rewrite (lv_init _ _ _ _ _ _ _ _ _ _ Hl), (lv_err _ _ _ _ _ _ _ _ _ _ Hl), Hs, E. done.
    + assert (Hst2 : same_static (net w) (net w2)) by done.
      apply (moves_frame epoch); [by etrans| |cbn; by rewrite Ed|].
      * apply (live_ok epoch); rewrite ?Ep; try done; [by rewrite (proj1 Hst2)|by rewrite <-Edb in Hsi|by apply (coherent_static (net w))].
      * intros r. unfold spareOf. rewrite (live_dueOf _ w r Hl), (live_dueOf (sandboxKey epoch (n_id (net w))) w2 r) by by rewrite Ep. rewrite Ep.
        rewrite (due_static _ _ _ r Hst2). change (drv w2) with (drv w1). rewrite Ed. done.
Qed.

Lemma deleteInterfaces_quiet l : forall h : HK, let h' := foldl (fun h s => if bool_decide (s_vxlanName s = ""%string) then h else deleteInterface (s_vxlanName s) h) h l in
  spaces h' = spaces h /\ forall r, hasRule r h' = hasRule r h.
Proof.
  induction l as [|s l IH]; intros h; cbn; [done|]. case_bool_decide; [apply IH|].
  destruct (others_quiet h (deleteInterface (s_vxlanName s) h)) as [S0 R0]; [naive_solver|].
  destruct (IH (deleteInterface (s_vxlanName s) h)) as [S1 R1]. cbn in *. split; [congruence|]. intros r. congruence.
Qed.

(** A network whose sandbox is gone. *)
Definition reset_net (n : network) : network := set_sboxInit false (set_initErr None (set_subnets (map (set_init false) (n_subnets n)) n)).

Lemma reset_moves w d : worldOk w -> n_sbox (net d) = None ->
  (exists v, net d = set_sbox v (net w)) -> drv d = drv w ->
  (forall ns, (forall epoch, ns <> sandboxKey epoch (n_id (net w))) -> spaces (host d) !! ns = spaces (host w) !! ns) ->
  (forall r, hasRule r (host d) = hasRule r (host w)) -> moves w (on_net reset_net d).
Proof.
  intros [Hn Hs Hc Hh Hd Hb] Hk [v En] Ed Hsp Hr.
  assert (Hst : same_static (net w) (reset_net (net d))).
  { rewrite En. repeat split. cbn. rewrite map_map. by apply map_ext. }
  assert (Edb : n_peerdb (reset_net (net d)) = n_peerdb (net w)) by by rewrite En.
  assert (Ep : peersOf (on_net reset_net d) = peersOf w) by (unfold peersOf; cbn in *; by rewrite Edb).
  split; [|done| | |by cbn; rewrite Ed|].
  - split; rewrite ?Ep; try done.
    + by apply (names_static (net w)).
    + change (single (n_peerdb (reset_net (net d)))). by rewrite Edb.
    + by apply (coherent_static (net w)).
    + cbn. by rewrite Ed.
    + left. split; [done|done|]. intros i s. cbn. rewrite list_lookup_fmap. intros (s0 & _ & ->)%fmap_Some. done.
  - intros ns Hns _. by apply Hsp.
  - intros r _. apply Hr.
  - intros r. unfold spareOf. pose proof (dueOf_nonneg (net w) r). cbn [on_net drv net]. rewrite Ed.
    unfold dueOf at 2. cbn. rewrite Hk. lia.
Qed.

Lemma leave_moves w : worldOk w -> moves w (leaveSandbox w) /\ n_peerdb (net (leaveSandbox w)) = n_peerdb (net w).
Proof.
  intros Hw. pose proof Hw as [Hn Hs Hc Hh Hd Hb]. unfold leaveSandbox. cbn zeta. set (w1 := on_net _ w).
  assert (M1 : moves w w1).
  { split; try done. split; try done; [by apply (coherent_static (net w))|]. destruct Hb as [[]|[epoch Hl]]; [by left|right]. exists epoch. by apply live_joinCnt. }
  destruct (n_joinCnt (net w1) =? 0); [|done]. fold (reset_net).
  change (fun n => set_sboxInit false (set_initErr None (set_subnets (map (set_init false) (n_subnets n)) n))) with reset_net.
  pose proof (mv_ok _ _ M1) as Hw1. split; [eapply moves_trans; [exact M1|]|]; unfold destroySandbox; destruct (n_sbox (net w1)) as [key|] eqn:Hk; [| |done..].
  - destruct (remove_interfaces key (host w1)) as [S2 R2].
    destruct (deleteInterfaces_quiet (n_subnets (net w1)) (RemoveInterfaces key (host w1))) as [S0 R0].
    match goal with |- context [DestroySandbox key ?h] => set (h0 := h) in *; destruct (destroy_sandbox key h0) as [S1 R1] end.
    apply reset_moves; cbn [net drv host]; [done|done|by eexists|done| |by intros r; rewrite R1, <- R2].
    intros ns Hns. rewrite S1, S0, S2, lookup_delete_ne; [done|]. destruct Hb as [Hb|[epoch Hl]].
    + unfold w1 in Hk. cbn in Hk. by rewrite (dm_sbox _ Hb) in Hk.
    + pose proof (lv_sbox _ _ _ _ _ _ _ _ _ _ Hl) as Hk'. unfold w1 in Hk. cbn in Hk. intros ->. apply (Hns epoch). cbn. congruence.
  - apply reset_moves; [done|done|exists None|done|done|done]. destruct w1 as [n1 ? ?]. cbn in *. by destruct n1; cbn in *; subst.
Qed.
End Net.
