(* ===== verification/OverlayPeersTheorems.v ===== *)
(** * Theorems on the data plane of overlay networks

    All networks of a node: the calls of the controller, the events of the peer table, and
    the rotation of keys in between.  Then a host of namespaces and rules that keeps the laws,
    the witnesses, and what the driver does outside the assumptions. *)

From Stdlib Require Import String Ascii.
From S2P Require Import Prelude Slices NetIP SetMatrix OverlayKeys OverlayKeysSpec AgentKeys AgentKeysSteps AgentKeysTheorems OverlayPeers OverlayPeersSpec OverlayPeersSteps.
From stdpp Require Import gmap list strings pretty.

Local Open Scope Z_scope.

(** ** Every call returns *)

Section Returns.
Context `{Xfrm} `{Host} `{PeerCodec}.

Lemma addNeighbor_returns ip mac vtep w : sane (net w) -> exists w' e, addNeighbor ip mac vtep w = Some (w', e) /\ sane (net w').
Proof.
  intros Hn. apply addNeighborWith_returns; [apply sane_same|done|]. intros i. by apply (joinSandbox_returns 0).
Qed.

Lemma peerAdd_returns eid ip mac vtep w : sane (net w) -> exists w' e, peerAdd eid ip mac vtep w = Some (w', e) /\ sane (net w').
Proof.
  intros Hn. unfold peerAdd. case_bool_decide; [by eexists _, _|]. destruct (peerMap.Add _ _ _ _ _) as [pm [b k]].
  destruct (AddrIsValid vtep); [|by eexists _, _].
  destruct (addNeighbor_returns ip mac vtep (on_net (set_peerdb pm) w)) as (w' & e & -> & H'); [done|]. cbn.
  destruct e; [|by eexists _, _]. destruct (_ && _); by eexists _, _.
Qed.

Lemma deleteNeighbor_same ip mac vtep w : sameBox (net w) (net (deleteNeighbor ip mac vtep w).1).
Proof.
  unfold deleteNeighbor. destruct (n_sbox (net w)) as [ns|]; [|done]. set (w1 := if n_secure (net w) then _ else w).
  assert (E : net w1 = net w) by (unfold w1; by destruct (n_secure (net w))). destruct (getSubnetforIP _ _); [|by cbn; rewrite E].
  destruct (countmap.Add _ _ _) as [f c]. destruct (if c =? 0 then _ else _) as [h [e|]]; [by cbn; rewrite E|].
  destruct (DeleteNeighbor _ _ _ _ _ _) as [h' e']. cbn. by rewrite E.
Qed.

Lemma peerDelete_returns eid ip mac vtep w : sane (net w) -> exists w' e, peerDelete eid ip mac vtep w = Some (w', e) /\ sane (net w').
Proof.
  intros Hn. unfold peerDelete. case_bool_decide; [by eexists _, _|]. destruct (peerMap.Delete _ _ _ _ _) as [pm [b k]].
  assert (Hw1 : sane (net (if AddrIsValid vtep then deleteNeighbor ip mac vtep (on_net (set_peerdb pm) w) else (on_net (set_peerdb pm) w, None)).1)).
  { destruct (AddrIsValid vtep); [|done]. by eapply sane_same; [apply deleteNeighbor_same|]. }
  destruct (if AddrIsValid vtep then _ else _) as [w1 e1]. cbn [fst] in Hw1. cbv zeta. destruct (_ && _); [by eexists _, _|].
  destruct (0 <? k)%nat; [|by eexists _, _]. destruct (peerMap.Get _ _); [|by eexists _, _].
  destruct (addNeighbor_returns ip (pe_mac p) (pe_vtep p) w1 Hw1) as (w' & e & -> & H'). by eexists _, _.
Qed.

Lemma attach_returns eid ep i named w : is_Some (n_sbox (net w)) ->
  exists w' e, attach eid ep i named w = Some (w', e) /\ sameBox (net w) (net w').
Proof.
  intros [ns Hns]. unfold attach. destruct (createVethPair (host w)) as [h1 [[a b]|]]; [|by eexists _, _]. cbv zeta.
  destruct (LinkSetMTU a _ _) as [h2 []]; [by eexists _, _|]. cbn [net on_net set_host set_endpoints n_sbox]. rewrite Hns.
  cbn [mbind option_bind]. destruct (AddInterface _ _ _) as [h3 []]; [by eexists _, _|].
  destruct (LinkSetMTU b _ _) as [h4 []]; [by eexists _, _|]. destruct (LinkSetHardwareAddr _ _ _) as [h5 []]; [by eexists _, _|].
  destruct named; by eexists _, _.
Qed.

Lemma leaveSandbox_sane w : sane (net w) -> sane (net (leaveSandbox w)).
Proof. intros Hn. unfold leaveSandbox. cbv zeta. destruct (_ =? 0); [by intros Hi|done]. Qed.

Definition allSane (o : overlay) : Prop := forall nid n, o_networks o !! nid = Some n -> sane n.

Lemma put_sane nid w o : allSane o -> sane (net w) -> allSane (put nid w o).
Proof. intros Ho Hw nid' n. cbn. rewrite lookup_insert_Some. intros [[_ <-]|[_ Hn]]; [done|by eapply Ho]. Qed.

Lemma Join_returns nid eid xs named o : allSane o ->
  exists o' e p, OverlayPeers.Join nid eid xs named o = Some (o', e, p) /\ allSane o'.
Proof.
  intros Ho. unfold OverlayPeers.Join. destruct (validateID nid eid); [by eexists _, _, _|].
  destruct (o_networks o !! nid) as [n|] eqn:Hn; [|by eexists _, _, _].
  destruct (n_endpoints n !! eid) as [ep|]; [|by eexists _, _, _]. destruct (_ && _); [by eexists _, _, _|].
  destruct (getSubnetforIP _ _) as [i|]; [|by eexists _, _, _].
  destruct (joinSandbox_returns 0 i true (worldOf n o) (Ho nid n Hn)) as (w & e & E & Hw & Hb). unfold joinFuel. rewrite E. cbn [mbind option_bind].
  destruct e; [eexists _, _, _; split; [done|by apply put_sane]|]. destruct (Hb eq_refl) as (_ & _ & Hbox).
  destruct (attach_returns eid ep i named w Hbox) as (w1 & e & -> & Hs). cbn [mbind option_bind].
  assert (Hw1 : sane (net w1)) by by apply (sane_same (net w)). destruct e; [eexists _, _, _; split; [done|by apply put_sane]|].
  destruct (peerAdd_returns eid (ep_addr ep) (ep_mac ep) AddrZero w1 Hw1) as (w2 & e & -> & Hw2). cbn [mbind option_bind].
  destruct e; eexists _, _, _; (split; [done|by apply put_sane]).
Qed.

Lemma Leave_returns nid eid o : allSane o -> exists o' e, Leave nid eid o = Some (o', e) /\ allSane o'.
Proof.
  intros Ho. unfold Leave. destruct (validateID nid eid); [by eexists _, _|].
  destruct (o_networks o !! nid) as [n|] eqn:Hn; [|by eexists _, _]. destruct (n_endpoints n !! eid) as [ep|]; [|by eexists _, _].
  destruct (peerDelete_returns eid (ep_addr ep) (ep_mac ep) AddrZero (worldOf n o) (Ho nid n Hn)) as (w & e & -> & Hw). cbn [mbind option_bind].
  destruct e; eexists _, _; (split; [done|]); apply put_sane; try done. by apply leaveSandbox_sane.
Qed.

Lemma EventNotify_returns nid table k prev value o : allSane o ->
  exists o', EventNotify nid table k prev value o = Some o' /\ allSane o'.
Proof.
  intros Ho. unfold EventNotify. destruct (negb _); [by eexists|]. case_bool_decide; [by eexists|].
  destruct (o_networks o !! nid) as [n|] eqn:Hn; [|by eexists].
  assert (Hd : exists w, match remotePeer (o_drv o) prev with
    | Some p => fst <$> peerDelete k (EndpointIP p) (EndpointMAC p) (TunnelEndpointIP p) (worldOf n o) | None => Some (worldOf n o) end = Some w /\ sane (net w)).
  { pose proof (Ho nid n Hn) as Hs. destruct (remotePeer (o_drv o) prev) as [p|]; [|by eexists].
    destruct (peerDelete_returns k (EndpointIP p) (EndpointMAC p) (TunnelEndpointIP p) (worldOf n o) Hs) as (w & e & -> & Hw). by exists w. }
  destruct Hd as (w & -> & Hw). cbn [mbind option_bind]. destruct (remotePeer (o_drv o) value) as [p|]; [|eexists; split; [done|by apply put_sane]].
  destruct (peerAdd_returns k (EndpointIP p) (EndpointMAC p) (TunnelEndpointIP p) w Hw) as (w' & e & -> & H'). cbn.
  eexists. split; [done|by apply put_sane].
Qed.

(** The calls of the driver, and anything that happens to its keys and to the host in
    between. *)
Inductive ocall :=
| CCreateNetwork (id : string) (vnis : list Z) (secure : bool) (mtu : Z) (pools : list (Prefix * Prefix)) (registered : bool)
| CDeleteNetwork (nid : string)
| CCreateEndpoint (nid eid : string) (ifAddr : option Prefix) (ifMac : option (list Z)) (macSet : bool)
| CDeleteEndpoint (nid eid : string)
| CJoin (nid eid : string) (xfrmSupported named : bool)
| CLeave (nid eid : string)
| CEvent (nid tableName key : string) (prev value : option (list Z))
| CDriver (d : driver)
| CHost (h : HK).

Definition ocall_run (c : ocall) (o : overlay) : option overlay :=
  match c with
  | CCreateNetwork id vnis secure mtu pools registered => Some (CreateNetwork id vnis secure mtu pools registered o).1
  | CDeleteNetwork nid => Some (DeleteNetwork nid o).1
  | CCreateEndpoint nid eid ifAddr ifMac macSet => Some (CreateEndpoint nid eid ifAddr ifMac macSet o).1
  | CDeleteEndpoint nid eid => Some (DeleteEndpoint nid eid o).1
  | CJoin nid eid xfrmSupported named => (fun r => r.1.1) <$> OverlayPeers.Join nid eid xfrmSupported named o
  | CLeave nid eid => fst <$> Leave nid eid o
  | CEvent nid tableName key prev value => EventNotify nid tableName key prev value o
  | CDriver d => Some (mkOverlay d (o_networks o) (o_host o))
  | CHost h => Some (mkOverlay (o_drv o) (o_networks o) h)
  end.

Fixpoint ocalls (cs : list ocall) (o : overlay) : option overlay :=
  match cs with [] => Some o | c :: cs => o ← ocall_run c o; ocalls cs o end.

Lemma rules_fold_net l : forall w, net (foldl (fun w vni => (programInput vni false (programMangle vni false w).1).1) w l) = net w.
Proof. induction l as [|v l IH]; intros w; cbn; [done|]. rewrite IH. by rewrite (proj2 (rules_net _ _ _)), (proj1 (rules_net _ _ _)). Qed.

Lemma CreateNetwork_sane id vnis secure mtu pools registered o : allSane o -> allSane (CreateNetwork id vnis secure mtu pools registered o).1.
Proof.
  intros Ho. unfold CreateNetwork. case_bool_decide; [done|]. destruct (match pools with [] => true | _ => _ end); [done|].
  destruct (mtu <? 0); [done|]. destruct (length vnis =? 0)%nat; [done|]. destruct (length vnis <? length pools)%nat; [done|].
  destruct (o_networks o !! id); [done|]. cbv zeta. cbn [fst]. apply put_sane; [done|]. destruct secure; [done|]. by rewrite rules_fold_net.
Qed.

Lemma ocall_returns c o : allSane o -> exists o', ocall_run c o = Some o' /\ allSane o'.
Proof.
  intros Ho. destruct c as [id vnis secure mtu pools reg|nid|nid eid ifAddr ifMac macSet|nid eid|nid eid xs named|nid eid|nid t k prev value|d|h];
    cbn [ocall_run]; [| | | | | | |by eexists|by eexists].
  - eexists. split; [done|by apply CreateNetwork_sane].
  - eexists. split; [done|]. unfold DeleteNetwork. case_bool_decide; [done|]. destruct (o_networks o !! nid); [|done].
    cbv zeta. intros nid' n'. cbn. rewrite lookup_delete_Some. intros [_ Hn]. by eapply Ho.
  - eexists. split; [done|]. unfold CreateEndpoint. destruct (validateID nid eid); [done|]. destruct (o_networks o !! nid) as [n|] eqn:Hn; [|done].
    pose proof (Ho nid n Hn) as Hs. destruct ifAddr; [|done]. destruct (getSubnetforIP _ _); [|done].
    destruct ifMac; [destruct (MACAddrFromSlice _)|destruct macSet]; try done; by apply put_sane.
  - eexists. split; [done|]. unfold DeleteEndpoint. destruct (validateID nid eid); [done|]. destruct (o_networks o !! nid) as [n|] eqn:Hn; [|done].
    pose proof (Ho nid n Hn) as Hs. destruct (n_endpoints n !! eid); [|done]. by apply put_sane.
  - destruct (Join_returns nid eid xs named o Ho) as (o' & e & p & -> & H'). by exists o'.
  - destruct (Leave_returns nid eid o Ho) as (o' & e & -> & H'). by exists o'.
  - by apply EventNotify_returns.
Qed.

(** C27: every call returns.  Joining a sandbox adds the known peers, each of which joins the
    sandbox again, and the sandbox of a network is used without a check in many places.  In
    any sequence of calls of the driver, from one without networks, whatever the calls are
    given, whatever fails on the host and however host and keys change in between, no call
    runs forever or dereferences a missing sandbox. *)
Theorem overlay_calls_return (d : driver) (h : HK) (cs : list ocall) : is_Some (ocalls cs (mkOverlay d ∅ h)).
Proof.
  assert (Ho : allSane (mkOverlay d ∅ h)) by (by intros nid n; cbn; rewrite lookup_empty).
  revert Ho. generalize (mkOverlay d ∅ h). induction cs as [|c cs IH]; intros o Ho; cbn [ocalls]; [by eexists|].
  destruct (ocall_returns c o Ho) as (o' & -> & H'). by apply IH.
Qed.
End Returns.

(** ** Counting over all networks *)

Section Total.
Context `{Xfrm} `{Host}.

Definition total (nets : gmap string network) (r : Addr) : Z := map_fold (fun _ n acc => dueOf n r + acc) 0 nets.

Lemma total_insert nets nid n r : nets !! nid = None -> total (<[nid := n]> nets) r = dueOf n r + total nets r.
Proof. intros Hn. unfold total. rewrite map_fold_insert_L; [done|intros; lia|done]. Qed.

Lemma total_delete nets nid n r : nets !! nid = Some n -> total nets r = dueOf n r + total (delete nid nets) r.
Proof.
  intros Hn. rewrite <-(insert_delete_id nets nid n) at 1 by done. apply total_insert, lookup_delete_eq.
Qed.

Lemma total_update nets nid n n' r : nets !! nid = Some n -> total (<[nid := n']> nets) r = total nets r - dueOf n r + dueOf n' r.
Proof.
  intros Hn. rewrite (total_delete nets nid n r Hn). rewrite <-insert_delete_eq, total_insert by apply lookup_delete_eq. lia.
Qed.

Lemma due_total_nonneg nets r : 0 <= total nets r.
Proof.
  induction nets as [|nid n nets Hn IH] using map_ind; [done|]. rewrite total_insert by done.
  pose proof (dueOf_nonneg n r). lia.
Qed.
End Total.

(** ** Runs *)

Section Runs.
Context `{HX : Xfrm} `{!XfrmLaws} `{HH : Host} `{!HostLaws} `{!Healthy} `{PeerCodec}.
Context (bind adv : Addr) (port : Z) (HostP : Addr -> Prop) (Key : key -> Prop) (F : XfrmState -> Prop) (G : XfrmPolicy -> Prop).

Abbreviation drvOk := (drvOk bind adv port HostP Key F G).
Abbreviation worldOk := (worldOk bind adv port HostP Key F G).
Abbreviation moves := (moves bind adv port HostP Key F G).

(** What the peer table says: the peer of an endpoint of a network. *)
Abbreviation peerTable := (gmap (string * string) Peer).

(** The sandboxes of two networks never share a name, nor does one look like a leftover of
    the other. *)
Definition apart (id id' : string) : Prop :=
  forall e e', sandboxKey e id <> sandboxKey e' id' /\ isStale id (sandboxKey e' id') = false.

(** The entry of another node's peer, and the database without it. *)
Definition remote (p : option Peer) : option Peer := p ← p; if bool_decide (TunnelEndpointIP p = adv) then None else Some p.
Definition entryOf (eid : string) (p : Peer) : Prefix * peerEntry := (EndpointIP p, mkPeer eid (EndpointMAC p) (TunnelEndpointIP p)).
Definition without (eid : string) (prev : option Peer) (pm : peerMap.t) : peerMap.t :=
  match prev with
  | Some p => (peerMap.Delete eid (EndpointIP p) (EndpointMAC p) (TunnelEndpointIP p) pm).1
  | None => pm
  end.

(** The new peer is on a node in use, its address is free, and it agrees with the others. *)
Record fits (n : network) (eid : string) (p : Peer) (pm : peerMap.t) : Prop := {
  ft_valid : AddrIsValid (TunnelEndpointIP p) = true;
  ft_host : HostP (TunnelEndpointIP p);
  ft_free : SetMatrix.members (EndpointIP p) pm = ∅;
  ft_coherent : coherent n ({[entryOf eid p]} ∪ remotesOf pm) }.

(** The steps of a node: what the controller calls, the events of the peer table, which tell
    the table as it changes, and a rotation of the keys. *)
Inductive ostep : peerTable * overlay -> peerTable * overlay -> Prop :=
| OCreate T o id vs secure mtu pools reg o' e :
    CreateNetwork id vs secure mtu pools reg o = (o', e) -> o_networks o !! id = None ->
    (forall n, o_networks o' !! id = Some n -> names_ok n) ->
    (forall nid n, o_networks o !! nid = Some n -> apart id nid /\ apart nid id /\ forall v, v ∈ vs -> v ∉ vnis n) ->
    ostep (T, o) (T, o')
| ODelete T o nid n o' :
    o_networks o !! nid = Some n -> n_sbox n = None -> DeleteNetwork nid o = (o', None) ->
    ostep (T, o) (filter (fun kv => kv.1.1 <> nid) T, o')
| OCreateEndpoint T o nid eid ifAddr ifMac macSet o' e :
    CreateEndpoint nid eid ifAddr ifMac macSet o = (o', e) -> ostep (T, o) (T, o')
| ODeleteEndpoint T o nid eid o' e :
    DeleteEndpoint nid eid o = (o', e) -> ostep (T, o) (T, o')
| OJoin T o nid eid xs named o' e p :
    (forall n ep, o_networks o !! nid = Some n -> n_endpoints n !! eid = Some ep ->
       SetMatrix.members (ep_addr ep) (n_peerdb n) ⊆ {[mkPeer eid (ep_mac ep) AddrZero]}) ->
    OverlayPeers.Join nid eid xs named o = Some (o', e, p) -> ostep (T, o) (T, o')
| OLeave T o nid eid o' e :
    (forall n ep, o_networks o !! nid = Some n -> n_endpoints n !! eid = Some ep ->
       mkPeer eid (ep_mac ep) AddrZero ∈ SetMatrix.members (ep_addr ep) (n_peerdb n)) ->
    Leave nid eid o = Some (o', e) -> ostep (T, o) (T, o')
| OEvent T o nid n eid prev value o' :
    o_networks o !! nid = Some n -> eid <> ""%string -> prev ≫= UnmarshalPeerRecord = T !! (nid, eid) ->
    (forall p, remote (value ≫= UnmarshalPeerRecord) = Some p -> remote (T !! (nid, eid)) <> Some p ->
       fits n eid p (without eid (remote (T !! (nid, eid))) (n_peerdb n))) ->
    EventNotify nid OverlayPeerTable eid prev value o = Some o' ->
    ostep (T, o) (partial_alter (fun _ => value ≫= UnmarshalPeerRecord) (nid, eid) T, o')
| ORotate T o nk kp kd d' :
    acceptable (keys (o_drv o)) nk kp kd -> (forall k, nk = Some k -> Key k) -> (nk <> None -> nk <> kd) ->
    updateKeys nk kp kd (o_drv o) = Some (d', false) ->
    ostep (T, o) (T, mkOverlay d' (o_networks o) (o_host o)).

(** ** The invariant *)

Record overlayOk (o : overlay) : Prop := {
  ov_drv : drvOk (o_drv o);
  ov_net nid n : o_networks o !! nid = Some n -> n_id n = nid /\ worldOk (worldOf n o);
  ov_apart nid nid' n n' : o_networks o !! nid = Some n -> o_networks o !! nid' = Some n' -> nid <> nid' ->
    apart nid nid' /\ forall v, v ∈ vnis n -> v ∉ vnis n';
  ov_due r : total (o_networks o) r <= count (o_drv o) r }.

Record tableOk (T : peerTable) (o : overlay) : Prop := {
  tb_dom nid eid : is_Some (T !! (nid, eid)) -> is_Some (o_networks o !! nid);
  tb_peers nid n x : o_networks o !! nid = Some n ->
    x ∈ remotesOf (n_peerdb n) <-> exists eid p, remote (T !! (nid, eid)) = Some p /\ x = entryOf eid p }.

(** A network is left alone when others move. *)
Lemma worldOk_frame n d h d' h' : worldOk (mkWorld n d h) -> drvOk d' ->
  (forall epoch, spaces h' !! sandboxKey epoch (n_id n) = spaces h !! sandboxKey epoch (n_id n)) ->
  (forall r, ru_vni r ∈ vnis n -> hasRule r h' = hasRule r h) -> worldOk (mkWorld n d' h').
Proof.
  intros [Hn Hs Hc Hh Hd Hb] Hd' Hsp Hr. split; try done. destruct Hb as [Hb|[epoch Hl]]; [by left|right]. exists epoch.
  destruct Hl as [Hk Hi He Hn' Hg _ (sp & Es & Hsu & Ht)]. split; try done.
  - intros Hsec i s Ei Eb. cbn in *. rewrite !Hr by (by apply (elem_vnis n i)). by apply (Hg Hsec i s).
  - exists sp. cbn in *. by rewrite Hsp.
Qed.

Lemma put_ok o nid n w' : overlayOk o -> o_networks o !! nid = Some n -> moves (worldOf n o) w' -> overlayOk (put nid w' o).
Proof.
  intros Ho Hn Hm. destruct (ov_net _ Ho nid n Hn) as [Hid Hw]. pose proof (mv_ok _ _ _ _ _ _ _ _ _ Hm) as Hw'.
  pose proof (mv_static _ _ _ _ _ _ _ _ _ Hm) as Hst. cbn in Hst. split; cbn.
  - apply (wk_drv _ _ _ _ _ _ _ _ Hw').
  - intros nid2 n2. rewrite lookup_insert_Some. intros [[<- <-]|[Hne Hn2]].
    + split; [by rewrite (proj1 Hst)|]. by destruct w'.
    + destruct (ov_net _ Ho nid2 n2 Hn2) as [Hid2 Hw2]. split; [done|].
      destruct (ov_apart _ Ho nid nid2 n n2 Hn Hn2 Hne) as [Hap Hvn].
      apply (worldOk_frame n2 (o_drv o) (o_host o)); [done|apply (wk_drv _ _ _ _ _ _ _ _ Hw')| |].
      * intros epoch. apply (mv_spaces _ _ _ _ _ _ _ _ _ Hm); cbn; rewrite Hid, Hid2; [intros e' E; by destruct (Hap e' epoch)|by destruct (Hap epoch epoch)].
      * intros r Hr. apply (mv_rules _ _ _ _ _ _ _ _ _ Hm). cbn. intros Hr'. by apply (Hvn _ Hr').
  - intros nid1 nid2 n1 n2. rewrite !lookup_insert_Some. intros [[<- <-]|[Hne1 Hn1]] [[<- <-]|[Hne2 Hn2]] Hne; try done.
    + rewrite (vnis_static _ _ Hst). by eapply (ov_apart _ Ho).
    + rewrite (vnis_static _ _ Hst). by eapply (ov_apart _ Ho).
    + by eapply (ov_apart _ Ho).
  - intros r. rewrite (total_update _ nid n _ r Hn). pose proof (ov_due _ Ho r). pose proof (mv_spare _ _ _ _ _ _ _ _ _ Hm r) as Hsp.
    unfold spareOf in Hsp. cbn in Hsp. lia.
Qed.

(** What a network is due is covered. *)
Lemma spare_nonneg o nid n r : overlayOk o -> o_networks o !! nid = Some n -> 0 <= spareOf (worldOf n o) r.
Proof.
  intros Ho Hn. pose proof (ov_due _ Ho r) as Hd. rewrite (total_delete _ nid n r Hn) in Hd.
  pose proof (due_total_nonneg (delete nid (o_networks o)) r). unfold spareOf. cbn. lia.
Qed.

Context (Hclean : clean bind adv HostP Key F G) (Hadv : AddrIsValid adv = true).

Lemma remotePeer_remote d data : drvOk d -> remotePeer d data = remote (data ≫= UnmarshalPeerRecord).
Proof. intros Hd. unfold remotePeer, remote. by rewrite (do_adv _ _ _ _ _ _ _ _ Hd). Qed.

(** The old peer goes. *)
Lemma drop_old T o nid n eid : overlayOk o -> tableOk T o -> o_networks o !! nid = Some n -> eid <> ""%string ->
  exists w, match remote (T !! (nid, eid)) with
            | Some p => fst <$> peerDelete eid (EndpointIP p) (EndpointMAC p) (TunnelEndpointIP p) (worldOf n o)
            | None => Some (worldOf n o)
            end = Some w /\ moves (worldOf n o) w /\ n_peerdb (net w) = without eid (remote (T !! (nid, eid))) (n_peerdb n).
Proof.
  intros Ho Ht Hn He. destruct (ov_net _ Ho nid n Hn) as [_ Hw]. destruct (remote _) as [p|] eqn:Hp.
  - assert (Hx : entryOf eid p ∈ remotesOf (n_peerdb n)) by (apply (tb_peers _ _ Ht nid n); [done|by exists eid, p]).
    destruct (peerDelete_remote bind adv port HostP Key F G Hclean Hadv (EndpointIP p) (entryOf eid p).2 (worldOf n o) Hw He Hx) as (w & E & Hm & Hdb);
      [intros r; by apply (spare_nonneg o nid)|].
    cbn in E. exists w. rewrite E. done.
  - exists (worldOf n o). split; [done|]. split; [by apply moves_refl|done].
Qed.

(** The new peer comes. *)
Lemma add_new n q eid w : worldOk w -> eid <> ""%string -> same_static n (net w) ->
  (forall p, q = Some p -> fits n eid p (n_peerdb (net w))) ->
  exists w', match q with
            | Some p => fst <$> peerAdd eid (EndpointIP p) (EndpointMAC p) (TunnelEndpointIP p) w
            | None => Some w
            end = Some w' /\ moves w w' /\
    forall x, x ∈ remotesOf (n_peerdb (net w')) <-> (exists p, q = Some p /\ x = entryOf eid p) \/ x ∈ remotesOf (n_peerdb (net w)).
Proof.
  intros Hw He Hst Hf. destruct q as [p|].
  - destruct (Hf p eq_refl) as [Hv Hh Hfr Hc].
    destruct (peerAdd_remote bind adv port HostP Key F G Hclean Hadv eid (EndpointIP p) (EndpointMAC p) (TunnelEndpointIP p) w Hw He Hv Hh Hfr) as (w' & E & Hm & Hdb);
      [by apply (coherent_static n)|].
    exists w'. rewrite E. split; [done|]. split; [done|]. intros x. rewrite Hdb, remotes_add, Hv, elem_of_union, elem_of_singleton.
    split; [intros [->|?]; [left; by exists p|by right]|intros [(p' & [= <-] & ->)|?]; [by left|by right]].
  - exists w. split; [done|]. split; [by apply moves_refl|]. intros x. split; [by right|]. by intros [(p & ? & _)|?].
Qed.

Lemma without_elem T o nid n eid x : tableOk T o -> o_networks o !! nid = Some n ->
  x ∈ remotesOf (without eid (remote (T !! (nid, eid))) (n_peerdb n)) <->
  exists eid' p, eid' <> eid /\ remote (T !! (nid, eid')) = Some p /\ x = entryOf eid' p.
Proof.
  intros Ht Hn. assert (Hall := tb_peers _ _ Ht nid n x Hn). destruct (remote (T !! (nid, eid))) as [p0|] eqn:Hp; cbn [without].
  - rewrite remotes_delete, elem_of_difference, elem_of_singleton, Hall. split.
    + intros [(eid' & p & E & ->) Hne]. exists eid', p. split; [|done]. intros ->. apply Hne. by assert (p = p0) as -> by congruence.
    + intros (eid' & p & Hne & E & ->). split; [by exists eid', p|]. by intros [= _ E1 _ _].
  - rewrite Hall. split; intros (eid' & p & Hx); [|by exists eid', p; destruct Hx as (_ & ?)]. destruct Hx as [E ->]. exists eid', p. split; [|done]. intros ->. congruence.
Qed.

Lemma event_ok T o nid n eid prev value o' : overlayOk o -> tableOk T o ->
  o_networks o !! nid = Some n -> eid <> ""%string -> prev ≫= UnmarshalPeerRecord = T !! (nid, eid) ->
  (forall p, remote (value ≫= UnmarshalPeerRecord) = Some p -> remote (T !! (nid, eid)) <> Some p ->
     fits n eid p (without eid (remote (T !! (nid, eid))) (n_peerdb n))) ->
  EventNotify nid OverlayPeerTable eid prev value o = Some o' ->
  overlayOk o' /\ tableOk (partial_alter (fun _ => value ≫= UnmarshalPeerRecord) (nid, eid) T) o'.
Proof.
  intros Ho Ht Hn He Hprev Hfit. unfold EventNotify. rewrite bool_decide_eq_true_2 by done. cbn [negb].
  rewrite !(remotePeer_remote (o_drv o)) by apply (ov_drv _ Ho). rewrite Hprev. set (q := value ≫= UnmarshalPeerRecord) in *.
  assert (Hoth : forall nid' eid', (nid', eid') <> (nid, eid) -> partial_alter (fun _ => q) (nid, eid) T !! (nid', eid') = T !! (nid', eid')).
  { intros. by rewrite lookup_partial_alter_ne. }
  assert (Hself : partial_alter (fun _ => q) (nid, eid) T !! (nid, eid) = q) by apply lookup_partial_alter_eq.
  case_bool_decide as Heq.
  - intros [= <-]. split; [done|]. split.
    + intros nid' eid' Hx. destruct (decide ((nid', eid') = (nid, eid))) as [[= -> ->]|Hne]; [by eexists|]. rewrite Hoth in Hx by done. by apply (tb_dom _ _ Ht nid' eid').
    + intros nid' n' x Hn'. rewrite (tb_peers _ _ Ht nid' n' x Hn'). split; intros (eid' & p & E & ->); exists eid', p; (split; [|done]);
        destruct (decide ((nid', eid') = (nid, eid))) as [[= -> ->]|Hne]; rewrite ?Hself, ?Hoth in * by done; congruence.
  - rewrite Hn. destruct (drop_old T o nid n eid Ho Ht Hn He) as (w1 & -> & M1 & Hdb1). cbn [mbind option_bind].
    destruct (add_new n (remote q) eid w1 (mv_ok _ _ _ _ _ _ _ _ _ M1) He (mv_static _ _ _ _ _ _ _ _ _ M1)) as (w2 & -> & M2 & Hr).
    { intros p Hp. rewrite Hdb1. apply Hfit; [done|congruence]. }
    cbn [mbind option_bind]. intros [= <-]. split; [apply (put_ok o nid n); [done|done|by eapply moves_trans]|]. split; cbn.
    + intros nid' eid' Hx. rewrite lookup_insert_is_Some'. destruct (decide ((nid', eid') = (nid, eid))) as [[= -> ->]|Hne]; [by left|].
      right. rewrite Hoth in Hx by done. by apply (tb_dom _ _ Ht nid' eid').
    + intros nid' n' x. rewrite lookup_insert_Some. intros [[<- <-]|[Hne Hn']].
      * rewrite Hr, Hdb1, (without_elem T o nid n eid x Ht Hn). split.
        -- intros [(p & E & ->)|(eid' & p & Hne & E & ->)]; [exists eid, p; by rewrite Hself|].
           exists eid', p. rewrite Hoth; [done|congruence].
        -- intros (eid' & p & E & ->). destruct (decide (eid' = eid)) as [->|Hne]; [left; exists p; by rewrite Hself in E|].
           right. exists eid', p. rewrite Hoth in E; [done|congruence].
      * rewrite (tb_peers _ _ Ht nid' n' x Hn'). split; intros (eid' & p & E & ->); exists eid', p;
          [rewrite Hoth by congruence|rewrite Hoth in E by congruence]; done.
Qed.

(** A call that leaves the peers of other nodes alone. *)
Lemma table_put T o nid n w : tableOk T o -> o_networks o !! nid = Some n ->
  remotesOf (n_peerdb (net w)) = remotesOf (n_peerdb n) -> tableOk T (put nid w o).
Proof.
  intros [Hd Hp] Hn Hr. split; cbn.
  - intros nid' eid' Hx. rewrite lookup_insert_is_Some'. right. by eapply Hd.
  - intros nid' n' x. rewrite lookup_insert_Some. intros [[<- <-]|[Hne Hn']]; [rewrite Hr|]; by apply Hp.
Qed.

Lemma validate_eid nid eid : validateID nid eid = None -> eid <> ""%string.
Proof. unfold validateID. case_bool_decide; [done|]. by case_bool_decide. Qed.

Lemma join_ok T o nid eid xs named o' e p : overlayOk o -> tableOk T o ->
  (forall n ep, o_networks o !! nid = Some n -> n_endpoints n !! eid = Some ep ->
     SetMatrix.members (ep_addr ep) (n_peerdb n) ⊆ {[mkPeer eid (ep_mac ep) AddrZero]}) ->
  OverlayPeers.Join nid eid xs named o = Some (o', e, p) -> overlayOk o' /\ tableOk T o'.
Proof.
  intros Ho Ht Hfree. unfold OverlayPeers.Join. destruct (validateID nid eid) eqn:Hv; [by intros [= <- _ _]|].
  destruct (o_networks o !! nid) as [n|] eqn:Hn; [|by intros [= <- _ _]].
  destruct (n_endpoints n !! eid) as [ep|] eqn:Hep; [|by intros [= <- _ _]]. destruct (_ && _); [by intros [= <- _ _]|].
  destruct (getSubnetforIP _ _) as [i|] eqn:Hi; [|by intros [= <- _ _]]. destruct (getSubnet_some _ _ _ Hi) as (s & Hs & _).
  destruct (ov_net _ Ho nid n Hn) as [_ Hw]. specialize (Hfree n ep eq_refl Hep).
  destruct (join_moves bind adv port HostP Key F G Hclean Hadv i s (worldOf n o) Hw Hs) as (w1 & -> & M1 & Hdb1 & Hk1). cbn [mbind option_bind].
  destruct (attach_moves bind adv port HostP Key F G eid ep i named w1 (mv_ok _ _ _ _ _ _ _ _ _ M1) Hk1) as (w2 & e2 & -> & M2 & Hdb2).
  pose proof (moves_trans _ _ _ _ _ _ _ _ _ _ M1 M2) as M. cbn [mbind option_bind]. destruct e2 as [e2|].
  - intros [= <- _ _]. split; [by apply (put_ok o nid n)|]. apply (table_put T o nid n); [done|done|]. by rewrite Hdb2, Hdb1.
  - destruct (peerAdd_local bind adv port HostP Key F G eid (ep_addr ep) (ep_mac ep) w2 (mv_ok _ _ _ _ _ _ _ _ _ M2) (validate_eid _ _ Hv)) as (w3 & -> & M3 & En);
      [by rewrite Hdb2, Hdb1|]. cbn. intros [= <- _ _]. split; [by apply (put_ok o nid n); [| |eapply moves_trans]|].
    apply (table_put T o nid n); [done|done|]. rewrite En. cbn. rewrite remotes_add, Hdb2, Hdb1. done.
Qed.

Lemma leave_ok T o nid eid o' e : overlayOk o -> tableOk T o ->
  (forall n ep, o_networks o !! nid = Some n -> n_endpoints n !! eid = Some ep ->
     mkPeer eid (ep_mac ep) AddrZero ∈ SetMatrix.members (ep_addr ep) (n_peerdb n)) ->
  Leave nid eid o = Some (o', e) -> overlayOk o' /\ tableOk T o'.
Proof.
  intros Ho Ht Hin. unfold Leave. destruct (validateID nid eid) eqn:Hv; [by intros [= <- _]|].
  destruct (o_networks o !! nid) as [n|] eqn:Hn; [|by intros [= <- _]].
  destruct (n_endpoints n !! eid) as [ep|] eqn:Hep; [|by intros [= <- _]]. specialize (Hin n ep eq_refl Hep).
  destruct (ov_net _ Ho nid n Hn) as [_ Hw].
  destruct (peerDelete_local bind adv port HostP Key F G eid (ep_addr ep) (ep_mac ep) (worldOf n o) Hw (validate_eid _ _ Hv) Hin) as (w1 & -> & M1 & Hdb1).
  cbn [mbind option_bind]. destruct (leave_moves bind adv port HostP Key F G w1 (mv_ok _ _ _ _ _ _ _ _ _ M1)) as [M2 Hdb2].
  intros [= <- _]. split; [by apply (put_ok o nid n); [| |eapply moves_trans]|].
  apply (table_put T o nid n); [done|done|]. rewrite Hdb2, Hdb1, remotes_delete. cbn. apply set_eq. intros [ip' e'].
  rewrite elem_of_difference, elem_of_singleton, elem_of_remotes. split; [by intros [? _]|]. intros [? Hl]. split; [done|]. intros [= -> ->]. done.
Qed.

(** Removing rules of some VNIs. *)
Lemma drop_rules l : forall w, drvOk (drv w) ->
  let w' := foldl (fun w vni => (programInput vni false (programMangle vni false w).1).1) w l in
  net w' = net w /\ drv w' = drv w /\ spaces (host w') = spaces (host w) /\ forall r, ru_vni r ∉ l -> hasRule r (host w') = hasRule r (host w).
Proof.
  induction l as [|v l IH]; intros w Hd; cbn [foldl]; [done|].
  destruct (programRules_ok bind adv port HostP Key F G Hadv v false w Hd) as (h1 & h2 & E1 & E2 & S2 & R2 & _). rewrite E1. cbn [fst]. rewrite E2. cbn [fst].
  destruct (IH (set_host h2 w) Hd) as (En & Ed & Es & Er). split; [exact En|]. split; [exact Ed|]. split; [by rewrite Es|].
  intros r. rewrite elem_of_cons. intros Hr. rewrite Er by tauto. apply R2; intros ->; cbn in Hr; tauto.
Qed.

Lemma drop_rules_subnets l : forall w, foldl (fun w s => (programInput (s_vni s) false (programMangle (s_vni s) false w).1).1) w l =
  foldl (fun w vni => (programInput vni false (programMangle vni false w).1).1) w (map s_vni l).
Proof. induction l as [|s l IH]; intros w; cbn; [done|apply IH]. Qed.

Lemma vnis_zip (vs : list Z) (pools : list (Prefix * Prefix)) v :
  v ∈ map s_vni (zip_with (fun vni '(pool, gw) => mkSubnet false "" "" vni None pool gw) vs pools) -> v ∈ vs.
Proof.
  revert pools. induction vs as [|v0 vs IH]; intros [|[p g] pools]; cbn; try (by intros ?%elem_of_nil).
  rewrite !elem_of_cons. intros [->|?]; [by left|right; by eapply IH].
Qed.

(** Other networks while rules of VNIs that are not theirs go. *)
Lemma others_ok o d' h' n (l : list Z) : overlayOk o -> drvOk d' -> spaces h' = spaces (o_host o) ->
  (forall r, ru_vni r ∉ l -> hasRule r h' = hasRule r (o_host o)) ->
  worldOk (worldOf n o) -> (forall v, v ∈ vnis n -> v ∉ l) -> worldOk (mkWorld n d' h').
Proof.
  intros Ho Hd' Hs Hr Hw Hv. apply (worldOk_frame n (o_drv o) (o_host o)); [done|done|intros; by rewrite Hs|].
  intros r Hr'. apply Hr. by apply Hv.
Qed.

Lemma create_ok T o id vs secure mtu pools reg o' e : overlayOk o -> tableOk T o ->
  CreateNetwork id vs secure mtu pools reg o = (o', e) -> o_networks o !! id = None ->
  (forall n, o_networks o' !! id = Some n -> names_ok n) ->
  (forall nid n, o_networks o !! nid = Some n -> apart id nid /\ apart nid id /\ forall v, v ∈ vs -> v ∉ vnis n) ->
  overlayOk o' /\ tableOk T o'.
Proof.
  intros Ho Ht HC Hid Hnames Hap. unfold CreateNetwork in HC.
  destruct (bool_decide _); [by injection HC as <- _|]. destruct (match pools with [] => true | _ => _ end); [by injection HC as <- _|].
  destruct (mtu <? 0); [by injection HC as <- _|]. destruct (length vs =? 0)%nat; [by injection HC as <- _|].
  destruct (length vs <? length pools)%nat; [by injection HC as <- _|]. rewrite Hid in HC. injection HC as <- _. revert Hnames.
  match goal with |- context [worldOf ?n o] => set (n0 := n) in * end. match goal with |- context [put id ?w0 o] => set (w := w0) in * end.
  assert (Hw : net w = n0 /\ drv w = o_drv o /\ spaces (host w) = spaces (o_host o) /\
    forall r, ru_vni r ∉ vs -> hasRule r (host w) = hasRule r (o_host o))
    by (subst w; destruct secure; [done|apply (drop_rules vs (worldOf n0 o)), (ov_drv _ Ho)]).
  clearbody w. destruct Hw as (En & Ed & Es & Er). intros Hnames. unfold put in *. rewrite En, Ed in *. cbn [o_networks] in Hnames.
  specialize (Hnames n0 (lookup_insert_eq _ _ _)).
  assert (Hvs : forall v, v ∈ vnis n0 -> v ∈ vs) by apply vnis_zip.
  split; [split; cbn|split; cbn].
  - apply (ov_drv _ Ho).
  - intros nid n. rewrite lookup_insert_Some. intros [[<- <-]|[Hne Hn]].
    + split; [done|]. assert (Er0 : remotesOf (∅ : gmap Prefix (gset peerEntry)) = ∅).
      { apply set_eq. intros [ip x]. rewrite elem_of_remotes, SetMatrix.members_empty. set_solver. }
      split; cbn; [done| | | |apply (ov_drv _ Ho)|left].
      * intros ip x x'. rewrite SetMatrix.members_empty. set_solver.
      * unfold peersOf. cbn. rewrite Er0. split; set_solver.
      * unfold peersOf. cbn. rewrite Er0. set_solver.
      * split; [done|done|]. intros i s. cbn. intros Hs%list_elem_of_lookup_2. revert Hs. clear.
        revert pools. induction vs as [|v vs IH]; intros [|[p g] pools]; cbn; try (by intros ?%elem_of_nil).
        rewrite elem_of_cons. intros [->|?]; [done|by eapply IH].
    + destruct (ov_net _ Ho nid n Hn) as [? Hw]. split; [done|]. apply (others_ok o _ _ n vs); try done; [apply (ov_drv _ Ho)|].
      intros v Hv Hin. by apply (proj2 (proj2 (Hap nid n Hn)) v).
  - intros nid1 nid2 n1 n2. rewrite !lookup_insert_Some. intros [[<- <-]|[Hne1 Hn1]] [[<- <-]|[Hne2 Hn2]] Hne; try done.
    + destruct (Hap nid2 n2 Hn2) as (? & _ & Hv). split; [done|]. intros v Hv1%Hvs. by apply Hv.
    + destruct (Hap nid1 n1 Hn1) as (_ & ? & Hv). split; [done|]. intros v Hv1 Hv2%Hvs. by apply (Hv v).
    + by eapply (ov_apart _ Ho).
  - intros r. rewrite total_insert by done. apply (ov_due _ Ho).
  - intros nid eid Hx. rewrite lookup_insert_is_Some'. right. by apply (tb_dom _ _ Ht nid eid).
  - intros nid n x. rewrite lookup_insert_Some. intros [[<- <-]|[Hne Hn]]; [|by apply (tb_peers _ _ Ht)]. cbn.
    destruct x as [ip y]. rewrite elem_of_remotes, SetMatrix.members_empty. split; [set_solver|]. intros (eid & p & E & _).
    destruct (T !! (id, eid)) as [p'|] eqn:ET; [|done]. destruct (tb_dom _ _ Ht id eid ltac:(by eexists)) as [n' Hn']. congruence.
Qed.

Lemma deleteLinks_quiet (l : list (string * endpoint)) : forall h : HK,
  let h' := foldl (fun h '(_, ep) => if bool_decide (ep_ifName ep = ""%string) then h else deleteInterface (ep_ifName ep) h) h l in
  spaces h' = spaces h /\ forall r, hasRule r h' = hasRule r h.
Proof.
  induction l as [|[eid ep] l IH]; intros h; cbn; [done|]. case_bool_decide; [apply IH|].
  destruct (others_quiet h (deleteInterface (ep_ifName ep) h)) as [S0 R0]; [naive_solver|].
  destruct (IH (deleteInterface (ep_ifName ep) h)) as [S1 R1]. cbn in *. split; [congruence|]. intros r. congruence.
Qed.

Lemma delete_ok T o nid n o' : overlayOk o -> tableOk T o -> o_networks o !! nid = Some n -> n_sbox n = None ->
  DeleteNetwork nid o = (o', None) -> overlayOk o' /\ tableOk (filter (fun kv => kv.1.1 <> nid) T) o'.
Proof.
  intros Ho Ht Hn Hk HC. unfold DeleteNetwork in HC. case_bool_decide; [done|]. rewrite Hn in HC. injection HC as <-.
  match goal with |- context [set_host ?h _] => set (h0 := h) in * end.
  destruct (deleteLinks_quiet (map_to_list (n_endpoints n)) (o_host o)) as [Sh Rh]. fold h0 in Sh, Rh.
  match goal with |- context [mkOverlay (drv ?w0) _ (host ?w0)] => set (w := w0) end.
  assert (Hw : drv w = o_drv o /\ spaces (host w) = spaces (o_host o) /\ forall r, ru_vni r ∉ vnis n -> hasRule r (host w) = hasRule r (o_host o)).
  { subst w. destruct (n_secure n); [|done]. rewrite drop_rules_subnets.
    destruct (drop_rules (map s_vni (n_subnets n)) (set_host h0 (worldOf n o)) (ov_drv _ Ho)) as (_ & E2 & E3 & E4).
    split; [exact E2|]. split; [by rewrite E3|]. intros r Hr. by rewrite E4; cbn; rewrite ?Rh. }
  clearbody w. destruct Hw as (Ed & Es & Er). rewrite Ed. split; [split; cbn|split; cbn].
  - apply (ov_drv _ Ho).
  - intros nid2 n2. rewrite lookup_delete_Some. intros [Hne Hn2]. destruct (ov_net _ Ho nid2 n2 Hn2) as [? Hw2]. split; [done|].
    apply (others_ok o _ _ n2 (vnis n)); try done; [apply (ov_drv _ Ho)|]. by apply (ov_apart _ Ho nid2 nid).
  - intros nid1 nid2 n1 n2. rewrite !lookup_delete_Some. intros [_ ?] [_ ?]. by apply (ov_apart _ Ho).
  - intros r. pose proof (ov_due _ Ho r) as Hd. rewrite (total_delete _ nid n r Hn) in Hd. pose proof (dueOf_nonneg n r). lia.
  - intros nid' eid [p Hx]. apply map_lookup_filter_Some in Hx as [Hx Hne]. cbn in Hne. rewrite lookup_delete_is_Some. split; [congruence|].
    by apply (tb_dom _ _ Ht nid' eid).
  - intros nid' n' x. rewrite lookup_delete_Some. intros [Hne Hn']. rewrite (tb_peers _ _ Ht nid' n' x Hn').
    assert (E : forall eid, filter (fun kv : (string * string) * Peer => kv.1.1 <> nid) T !! (nid', eid) = T !! (nid', eid)).
    { intros eid. destruct (T !! (nid', eid)) as [p|] eqn:Ep; [apply map_lookup_filter_Some; cbn; split; [done|congruence]|].
      apply map_lookup_filter_None. by left. }
    by setoid_rewrite E.
Qed.

Lemma create_endpoint_ok T o nid eid ifAddr ifMac macSet o' e : overlayOk o -> tableOk T o ->
  CreateEndpoint nid eid ifAddr ifMac macSet o = (o', e) -> overlayOk o' /\ tableOk T o'.
Proof.
  intros Ho Ht. unfold CreateEndpoint. destruct (validateID nid eid); [by intros [= <- _]|].
  destruct (o_networks o !! nid) as [n|] eqn:Hn; [|by intros [= <- _]]. destruct ifAddr as [addr|]; [|by intros [= <- _]].
  destruct (getSubnetforIP addr n); [|by intros [= <- _]]. destruct (ov_net _ Ho nid n Hn) as [_ Hw].
  assert (Hput : forall eps, overlayOk (put nid (worldOf (set_endpoints eps n) o) o) /\ tableOk T (put nid (worldOf (set_endpoints eps n) o) o)).
  { intros eps. split; [apply (put_ok o nid n); [done|done|]; by apply (moves_endpoints bind adv port HostP Key F G (worldOf n o))|by apply (table_put T o nid n)]. }
  destruct ifMac as [hw|]; [destruct (MACAddrFromSlice hw)|destruct macSet]; intros [= <- _]; [apply Hput|done|apply Hput|done].
Qed.

Lemma delete_endpoint_ok T o nid eid o' e : overlayOk o -> tableOk T o ->
  DeleteEndpoint nid eid o = (o', e) -> overlayOk o' /\ tableOk T o'.
Proof.
  intros Ho Ht. unfold DeleteEndpoint. destruct (validateID nid eid); [by intros [= <- _]|].
  destruct (o_networks o !! nid) as [n|] eqn:Hn; [|by intros [= <- _]]. destruct (n_endpoints n !! eid) as [ep|]; [|by intros [= <- _]].
  destruct (ov_net _ Ho nid n Hn) as [_ Hw]. set (h := if bool_decide _ then _ else _). intros [= <- _].
  assert (Hq : spaces h = spaces (o_host o) /\ forall r, hasRule r h = hasRule r (o_host o)).
  { unfold h. case_bool_decide; [done|]. apply others_quiet. naive_solver. }
  split; [|by apply (table_put T o nid n)]. apply (put_ok o nid n); [done|done|].
  pose proof (moves_quiet bind adv port HostP Key F G (worldOf n o) h Hw Hq) as M1. eapply moves_trans; [exact M1|].
  apply (moves_endpoints bind adv port HostP Key F G (set_host h (worldOf n o))). apply (mv_ok _ _ _ _ _ _ _ _ _ M1).
Qed.

Lemma rotate_drv d nk kp kd d' : drvOk d -> acceptable (keys d) nk kp kd -> (forall k, nk = Some k -> Key k) -> (nk <> None -> nk <> kd) ->
  updateKeys nk kp kd d = Some (d', false) -> drvOk d' /\ forall r, count d' r = count d r.
Proof.
  intros Hd Hacc Hk Hfr Hu. pose proof (drv_clean _ _ _ _ _ _ _ Hclean _ Hd) as Hcl. pose proof Hd as [Eb Ea Ep Hal Hp].
  assert (Hhead : exists k0, head (keys d) = Some k0).
  { pose proof (al_some _ Hal) as Hne. destruct (keys d) as [|k0 l]; [done|by exists k0]. }
  destruct Hhead as [k0 Hk0].
  destruct (rekeyed_aligned d nk kp kd k0 Hal Hk0 Hacc) as (d2 & ks2 & Hu2 & Ed & Hal' & (Eb' & Ea' & Ep') & _ & Hperm & Hhd & Hc).
  assert (d2 = d') as -> by congruence. split; [|done]. split; [congruence..|done|].
  by apply (update_programmed HostP Key F G d d' nk kp kd k0 ks2).
Qed.

Lemma ostep_ok s s' : ostep s s' -> overlayOk s.2 /\ tableOk s.1 s.2 -> overlayOk s'.2 /\ tableOk s'.1 s'.2.
Proof.
  intros Hs [Ho Ht]. destruct Hs; cbn in *.
  - by eapply create_ok.
  - by eapply delete_ok.
  - by eapply create_endpoint_ok.
  - by eapply delete_endpoint_ok.
  - by eapply join_ok.
  - by eapply leave_ok.
  - by eapply event_ok.
  - destruct (rotate_drv (o_drv o) nk kp kd d' (ov_drv _ Ho)) as [Hd' Hc]; [done..|]. split; [|by split; cbn; apply Ht].
    split; cbn; [done| |by apply (ov_apart _ Ho)|intros r; rewrite Hc; by apply (ov_due _ Ho)].
    intros nid n Hn. destruct (ov_net _ Ho nid n Hn) as [? Hw]. split; [done|]. by apply (worldOk_frame n (o_drv o) (o_host o)).
Qed.

(** A node that has keys and no network yet. *)
Lemma initial_ok d h : drvOk d -> overlayOk (mkOverlay d ∅ h) /\ tableOk ∅ (mkOverlay d ∅ h).
Proof.
  intros Hd. split; split; cbn; try done.
  - intros r. unfold total. rewrite map_fold_empty. pose proof (do_aligned _ _ _ _ _ _ _ _ Hd) as Hal. unfold count.
    destruct (secMap d !! r) as [node|] eqn:E; cbn; [|done]. destruct (al_node _ Hal _ _ E). lia.
  - intros nid eid [? Hx]. by rewrite lookup_empty in Hx.
Qed.

Lemma overlay_run_ok d h T o : drvOk d -> rtc ostep (∅, mkOverlay d ∅ h) (T, o) -> overlayOk o /\ tableOk T o.
Proof.
  intros Hd Hrun. change (overlayOk (T, o).2 /\ tableOk (T, o).1 (T, o).2).
  apply (rtc_ind_r (R := ostep) (fun s => overlayOk s.2 /\ tableOk s.1 s.2) (∅, mkOverlay d ∅ h)); [by apply initial_ok| |done].
  intros y z _ Hs Hy. by apply (ostep_ok y).
Qed.


End Runs.

(** ** A host *)

Record hostState := mkHostState { hs_spaces : gmap string space; hs_rules : list vxlanRule; hs_vxlans : nat }.

Definition on_spaces (f : gmap string space -> gmap string space) (h : hostState) : hostState := mkHostState (f (hs_spaces h)) (hs_rules h) (hs_vxlans h).

(** An index that no link has. *)
Definition freshLink (sp : space) : Z := 1 + foldr Z.max 0 (map_to_list (sp_links sp)).*2.

Definition in_space {A} (d : A) (ns : string) (f : space -> space * A) (h : hostState) : hostState * A :=
  match hs_spaces h !! ns with
  | None => (h, d)
  | Some sp => let '(sp, r) := f sp in (on_spaces <[ns := sp]> h, r)
  end.

(** With [flaky] the first tunnel cannot be created. *)
Definition tablesHost (flaky : bool) : Host := {|
  HK := hostState;
  NewSandbox ns h := (on_spaces <[ns := emptySpace]> h, false);
  RemoveInterfaces ns h := on_spaces (alter (fun _ => emptySpace) ns) h;
  DestroySandbox ns h := on_spaces (delete ns) h;
  RemoveStale p h := on_spaces (filter (fun kv => p kv.1 = false)) h;
  ReclaimVNI _ h := h;
  AddInterface ns name h := in_space false ns (fun sp => (add_link name (freshLink sp) sp, false)) h;
  RemoveInterface _ _ h := h;
  setDefaultVLAN _ h := h;
  LinkIndex ns name h := sp ← hs_spaces h !! ns; sp_links sp !! name;
  NeighAdd ns n h := in_space (Some EOTHER) ns (space_add n) h;
  NeighDel ns n h := in_space (Some EOTHER) ns (space_del n) h;
  createVxlan _ _ _ _ h := (mkHostState (hs_spaces h) (hs_rules h) (S (hs_vxlans h)), flaky && (hs_vxlans h =? 0)%nat);
  deleteInterface _ h := h;
  createVethPair h := (h, Some ("veth0"%string, "veth1"%string));
  LinkSetMTU _ _ h := (h, false);
  LinkSetHardwareAddr _ _ h := (h, false);
  ProgramRule a r h :=
    (mkHostState (hs_spaces h)
       match a with Delete_ => List.filter (fun r' => negb (bool_decide (r' = r))) (hs_rules h) | _ => r :: hs_rules h end (hs_vxlans h), false) |}.

Lemma freshLink_fresh sp name : sp_links sp !! name <> Some (freshLink sp).
Proof.
  intros Hl. assert (Hin : freshLink sp ∈ (map_to_list (sp_links sp)).*2).
  { apply (list_elem_of_fmap_2 snd _ (name, freshLink sp)). by apply elem_of_map_to_list. }
  unfold freshLink in Hin. revert Hin. generalize ((map_to_list (sp_links sp)).*2). intros l.
  assert (Hle : forall z, z ∈ l -> z <= foldr Z.max 0 l).
  { induction l as [|a l IH]; cbn; [by intros z ?%elem_of_nil|]. intros z [->|Hz]%elem_of_cons; [lia|]. specialize (IH z Hz). lia. }
  intros Hin%Hle. lia.
Qed.

Lemma in_cons_dec (r' r : vxlanRule) l : bool_decide (r' ∈ r :: l) = if bool_decide (r' = r) then true else bool_decide (r' ∈ l).
Proof.
  destruct (decide (r' = r)) as [->|Hne]; [rewrite !bool_decide_eq_true_2; [done|done|by apply list_elem_of_here]|].
  rewrite (bool_decide_eq_false_2 (r' = r)) by done. apply bool_decide_ext. rewrite elem_of_cons. naive_solver.
Qed.

Lemma in_filter_dec (r' r : vxlanRule) l : bool_decide (r' ∈ List.filter (fun x => negb (bool_decide (x = r))) l) =
  if bool_decide (r' = r) then false else bool_decide (r' ∈ l).
Proof.
  destruct (decide (r' = r)) as [->|Hne].
  - rewrite (bool_decide_eq_true_2 (r = r)) by done. apply bool_decide_eq_false_2. rewrite list_elem_of_In, filter_In.
    intros [_ E]. by rewrite bool_decide_eq_true_2 in E.
  - rewrite (bool_decide_eq_false_2 (r' = r)) by done. apply bool_decide_ext. rewrite !list_elem_of_In, filter_In.
    rewrite bool_decide_eq_false_2 by done. naive_solver.
Qed.

#[export] Instance tablesHost_laws flaky : @HostLaws (tablesHost flaky).
Proof.
  refine (Build_HostLaws (tablesHost flaky) hs_spaces (fun r h => bool_decide (r ∈ hs_rules h)) _ _ _ _ _ _ _ _ _ _ _).
  - done.
  - intros ns h. split; [|done]. cbn. apply delete_alter_eq.
  - done.
  - intros p h. split; [|done]. intros ns. cbn. destruct (p ns) eqn:E.
    + apply map_lookup_filter_None. right. intros sp _. cbn. congruence.
    + destruct (hs_spaces h !! ns) as [sp|] eqn:Es; [by apply map_lookup_filter_Some|]. apply map_lookup_filter_None. by left.
  - intros ns name h sp Hs _. cbn. unfold in_space. rewrite Hs. split; [|done]. exists (freshLink sp). split; [|done]. apply freshLink_fresh.
  - done.
  - intros ns n h sp Hs. cbn. unfold in_space. rewrite Hs. by destruct (space_add n sp).
  - intros ns n h sp Hs. cbn. unfold in_space. rewrite Hs. by destruct (space_del n sp).
  - intros a r h _. split; [done|]. intros r'. cbn. by destruct a; cbn; rewrite ?in_cons_dec, ?in_filter_dec.
  - intros h h' a b. cbn. by intros [= _ <- _].
  - intros h h' Hq. cbn in Hq. destruct Hq as [(? & ->)|[(? & ->)|[(? & ? & ? & ? & ->)|[(? & ->)|[->|[(? & ? & ->)|(? & ? & ->)]]]]]]; done.
Defined.

Definition steadyHost : Host := tablesHost false.

#[export] Instance steadyHost_healthy : @Healthy steadyHost.
Proof. split; try done. intros ns name h. cbn. unfold in_space. by destruct (hs_spaces h !! ns). Defined.

(** ** A run *)

Import Tables AgentKeysTheorems.Example.

(** Peer records are numbered; each stands for three texts. *)
Definition exRecords : list (string * string * string) :=
  [("10.1.0.3/24", "02:42:0a:01:00:03", "10.0.0.2"); ("10.1.0.4/24", "02:42:0a:01:00:04", "10.0.0.3");
   ("10.1.0.3/24", "02:42:0a:01:00:03", "10.0.0.3"); ("192.168.0.9/24", "02:42:c0:a8:00:09", "10.0.0.2")]%string.

#[export] Instance exCodec : PeerCodec := {|
  UnmarshalRecord b := match b with [k] => exRecords !! Z.to_nat k | _ => None end;
  ParsePrefix s :=
    match s with
    | "10.1.0.3/24"%string => Some (mkPrefix (Addr4 167837699) 24)
    | "10.1.0.4/24"%string => Some (mkPrefix (Addr4 167837700) 24)
    | "192.168.0.9/24"%string => Some (mkPrefix (Addr4 3232235529) 24)
    | _ => None
    end;
  net_ParseMAC s :=
    match s with
    | "02:42:0a:01:00:03"%string => Some [2; 66; 10; 1; 0; 3]
    | "02:42:0a:01:00:04"%string => Some [2; 66; 10; 1; 0; 4]
    | "02:42:c0:a8:00:09"%string => Some [2; 66; 192; 168; 0; 9]
    | _ => None
    end;
  ParseAddr s :=
    match s with
    | "10.0.0.2"%string => Some hostB
    | "10.0.0.3"%string => Some hostC
    | _ => None
    end |}.

Definition exHostP (r : Addr) : Prop := r ∈ [hostB; hostC].
Definition exKey : key -> Prop := historyKey exI 4.
Definition exDriver : driver := c_driver (start hostA).

Lemma exClean : clean hostA hostA exHostP exKey (othersSA noTables) (othersSP noTables).
Proof. exact cleanA. Qed.

Lemma exDriver_ok : drvOk hostA hostA 4789 exHostP exKey (othersSA noTables) (othersSP noTables) exDriver.
Proof.
  destruct (started_inStep exG exI 4 exHostP 0 hostA hostA noTables (start hostA) exHistory ltac:(lia) startA) as (Hf & Hb & Ha & Hp).
  cbn [snd fst] in *. split; [exact Hb|exact Ha|vm_compute; reflexivity|exact (fo_aligned _ _ _ _ Hf)|exact Hp].
Qed.

(** The steps as functions. *)
Section Steps.
Context (flaky : bool).
Let HF : Host := tablesHost flaky.
#[local] Existing Instance HF.

Definition exStart : @overlay kernel HF := mkOverlay exDriver ∅ (mkHostState ∅ [] 0).
Definition exNet : string := "abcdefghijklmnop".
Definition exPool : Prefix := mkPrefix (Addr4 167837696) 24.

Definition created (o : @overlay kernel HF) : @overlay kernel HF :=
  (CreateNetwork exNet [4097] true 0 [(exPool, mkPrefix (Addr4 167837697) 24)] true o).1.
Definition endpoint_made (eid : string) (o : @overlay kernel HF) : @overlay kernel HF :=
  (CreateEndpoint exNet eid (Some (mkPrefix (Addr4 167837698) 24)) None true o).1.
Definition joined (eid : string) (named : bool) (o : @overlay kernel HF) : @overlay kernel HF :=
  match OverlayPeers.Join exNet eid true named o with Some (o', _, _) => o' | None => o end.
Definition left_ (eid : string) (o : @overlay kernel HF) : @overlay kernel HF :=
  match Leave exNet eid o with Some (o', _) => o' | None => o end.
Definition told (eid : string) (prev value : option (list Z)) (o : @overlay kernel HF) : @overlay kernel HF :=
  default o (EventNotify exNet OverlayPeerTable eid prev value o).

(** What is looked at in the end. *)
Definition exNetwork (o : @overlay kernel HF) : option network := o_networks o !! exNet.
Definition exSpace (o : @overlay kernel HF) : option space :=
  n ← exNetwork o; ns ← n_sbox n; hs_spaces (o_host o) !! ns.
End Steps.

(** A network that hears of a peer, gets its first endpoint, and hears of another peer. *)
Abbreviation steady := (@overlay kernel steadyHost).
Definition run1 : steady := created false (exStart false).
Definition run2 : steady := told false "ep3" None (Some [0]) run1.
Definition run3 : steady := endpoint_made false "ep1" run2.
Definition run4 : steady := joined false "ep1" true run3.
Definition run5 : steady := told false "ep4" None (Some [1]) run4.

Definition peer3 : Peer := mkPeerRecord (mkPrefix (Addr4 167837699) 24) 2482658934787 hostB.
Definition peer4 : Peer := mkPeerRecord (mkPrefix (Addr4 167837700) 24) 2482658934788 hostC.
Definition tell_table (eid : string) (value : option (list Z)) (T : gmap (string * string) Peer) : gmap (string * string) Peer :=
  partial_alter (fun _ => value ≫= UnmarshalPeerRecord) (exNet, eid) T.
Definition table1 := tell_table "ep3" (Some [0]) ∅.
Definition table2 := tell_table "ep4" (Some [1]) table1.

Abbreviation exstep := (@ostep kernel steadyHost exCodec hostA exHostP exKey).

(** The calls of the run return. *)
Definition returned {R} (r : option R) : bool := match r with Some _ => true | None => false end.

Lemma told_step T n eid prev value (o : steady) : returned (EventNotify exNet OverlayPeerTable eid prev value o) = true -> o_networks o !! exNet = Some n -> eid <> ""%string ->
  prev ≫= UnmarshalPeerRecord = T !! (exNet, eid) ->
  (forall p, remote hostA (value ≫= UnmarshalPeerRecord) = Some p -> remote hostA (T !! (exNet, eid)) <> Some p ->
     fits exHostP n eid p (without eid (remote hostA (T !! (exNet, eid))) (n_peerdb n))) ->
  exstep (T, o) (partial_alter (fun _ => value ≫= UnmarshalPeerRecord) (exNet, eid) T, told false eid prev value o).
Proof.
  intros Hr Hn He Hp Hf. eapply (OEvent hostA exHostP exKey T o exNet n eid prev value); [exact Hn|exact He|exact Hp|exact Hf|].
  unfold told. change (tablesHost false) with steadyHost. destruct (EventNotify exNet OverlayPeerTable eid prev value o) as [o'|]; [done|discriminate Hr].
Qed.

Lemma joined_step T eid named (o : steady) :
  returned (OverlayPeers.Join exNet eid true named o) = true ->
  (forall n ep, o_networks o !! exNet = Some n -> n_endpoints n !! eid = Some ep ->
     SetMatrix.members (ep_addr ep) (n_peerdb n) ⊆ {[mkPeer eid (ep_mac ep) AddrZero]}) ->
  exstep (T, o) (T, joined false eid named o).
Proof.
  intros Hr Hf. destruct (OverlayPeers.Join exNet eid true named o) as [[[o' e] p]|] eqn:E; [|discriminate Hr].
  eapply (OJoin hostA exHostP exKey T o exNet eid true named o' e p) in Hf; [|exact E]. unfold joined. change (tablesHost false) with steadyHost.
  by rewrite E.
Qed.

(** Tests for what the steps ask of a network. *)
Definition coherentb (n : network) (R : gset (Prefix * peerEntry)) : bool :=
  let l := elements R in
  forallb (fun x => forallb (fun y =>
    implb (bool_decide (x.1 = y.1)) (bool_decide (x.2 = y.2)) &&
    implb (pe_mac x.2 =? pe_mac y.2) (bool_decide (pe_vtep x.2 = pe_vtep y.2 /\ getSubnetforIP x.1 n = getSubnetforIP y.1 n))) l &&
    bool_decide (is_Some (getSubnetforIP x.1 n))) l.

Lemma coherentb_peers n R : coherentb n R = true -> coherent n R.
Proof.
  unfold coherentb. cbn zeta. rewrite forallb_forall. intros Hall.
  assert (Hx : forall x, x ∈ R -> In x (elements R)) by (intros x Hx; apply list_elem_of_In; by apply elem_of_elements).
  split.
  - intros ip e e' H1%Hx H2%Hx. apply Hall, andb_prop in H1 as [H1 _]. rewrite forallb_forall in H1. apply H1, andb_prop in H2 as [H2 _].
    cbn in H2. rewrite bool_decide_eq_true_2 in H2 by done. by apply bool_decide_eq_true in H2.
  - intros ip e ip' e' H1%Hx H2%Hx Hm. apply Hall, andb_prop in H1 as [H1 _]. rewrite forallb_forall in H1. apply H1, andb_prop in H2 as [_ H2].
    cbn in H2. rewrite Hm, Z.eqb_refl in H2. by apply bool_decide_eq_true in H2.
  - intros ip e H1%Hx. apply Hall, andb_prop in H1 as [_ H1]. by apply bool_decide_eq_true in H1.
Qed.

Definition fitsb (n : network) (eid : string) (p : Peer) (pm : gmap Prefix (gset peerEntry)) : bool :=
  AddrIsValid (TunnelEndpointIP p) && bool_decide (exHostP (TunnelEndpointIP p)) &&
  bool_decide (SetMatrix.members (EndpointIP p) pm = ∅) && coherentb n ({[entryOf eid p]} ∪ remotesOf pm).

Lemma fitsb_sound n eid p pm : fitsb n eid p pm = true -> fits exHostP n eid p pm.
Proof.
  unfold fitsb. rewrite !andb_true_iff. intros [[[H1 H2] H3] H4]. split; [done| | |by apply coherentb_peers].
  - by apply bool_decide_eq_true in H2.
  - by apply bool_decide_eq_true in H3.
Qed.

Definition noNet : network := mkNetwork "" false 0 None ∅ 0 ∅ false 0 None [] ∅.
Definition netOf (o : steady) : network := default noNet (o_networks o !! exNet).

Lemma netOf_some (o : steady) : match o_networks o !! exNet with Some _ => true | None => false end = true -> o_networks o !! exNet = Some (netOf o).
Proof. unfold netOf. by destruct (o_networks o !! exNet). Qed.

Definition freeb (eid : string) (n : network) : bool :=
  match n_endpoints n !! eid with
  | Some ep => bool_decide (SetMatrix.members (ep_addr ep) (n_peerdb n) ⊆ {[mkPeer eid (ep_mac ep) AddrZero]})
  | None => true
  end.

Definition names_okb (n : network) : bool :=
  bool_decide (NoDup (map (generateVxlanName n) (n_subnets n))) && bool_decide (NoDup (map (generateBridgeName n) (n_subnets n))).

(** Everything the run needs, as one computation. *)
Definition run_tests : bool :=
  forallb (fun o => match o_networks o !! exNet with Some _ => true | None => false end) [run1; run2; run3; run4; run5] &&
  names_okb (netOf run1) && fitsb (netOf run1) "ep3" peer3 (n_peerdb (netOf run1)) && freeb "ep1" (netOf run3) &&
  fitsb (netOf run4) "ep4" peer4 (n_peerdb (netOf run4)) &&
  returned (EventNotify exNet OverlayPeerTable "ep3" None (Some [0]) run1) && returned (OverlayPeers.Join exNet "ep1" true true run3) &&
  returned (EventNotify exNet OverlayPeerTable "ep4" None (Some [1]) run4).

Lemma run_tests_pass : run_tests = true.
Proof. vm_compute. reflexivity. Qed.

Lemma exrun : rtc exstep (∅, exStart false) (table2, run5).
Proof.
  pose proof run_tests_pass as Ht. unfold run_tests in Ht. rewrite !andb_true_iff in Ht. destruct Ht as [[[[[[[Hn Hnm] H3] Hf] H4] R1] R2] R3].
  cbn [forallb] in Hn. rewrite !andb_true_iff in Hn. destruct Hn as (N1%netOf_some & N2%netOf_some & N3%netOf_some & N4%netOf_some & _).
  assert (E3 : remote hostA (Some [0] ≫= UnmarshalPeerRecord) = Some peer3) by (vm_compute; reflexivity).
  assert (E4 : remote hostA (Some [1] ≫= UnmarshalPeerRecord) = Some peer4) by (vm_compute; reflexivity).
  eapply rtc_l.
  { apply (OCreate hostA exHostP exKey ∅ (exStart false) exNet [4097] true 0 [(exPool, mkPrefix (Addr4 167837697) 24)] true run1
      (CreateNetwork exNet [4097] true 0 [(exPool, mkPrefix (Addr4 167837697) 24)] true (exStart false)).2).
    - apply surjective_pairing.
    - apply lookup_empty.
    - intros n Hn1. assert (n = netOf run1) as -> by (apply (f_equal (fun x => x)) in Hn1; unfold steadyHost in *; congruence). unfold names_okb in Hnm. apply andb_prop in Hnm as [A B].
      split; [by apply bool_decide_eq_true in A|by apply bool_decide_eq_true in B].
    - intros nid n. cbn. by rewrite lookup_empty. }
  eapply rtc_l.
  { apply (told_step ∅ (netOf run1) "ep3" None (Some [0]) run1 R1 N1); [done|by rewrite lookup_empty|].
    intros p. rewrite E3, lookup_empty. intros [= <-] _. by apply fitsb_sound. }
  eapply rtc_l.
  { apply (OCreateEndpoint hostA exHostP exKey _ run2 exNet "ep1" (Some (mkPrefix (Addr4 167837698) 24)) None true run3
      (CreateEndpoint exNet "ep1" (Some (mkPrefix (Addr4 167837698) 24)) None true run2).2). apply surjective_pairing. }
  eapply rtc_l.
  { apply (joined_step _ "ep1" true run3 R2). intros n ep. rewrite N3. intros [= <-] Hep. unfold freeb in Hf. rewrite Hep in Hf.
    by apply bool_decide_eq_true in Hf. }
  apply rtc_once. apply (told_step table1 (netOf run4) "ep4" None (Some [1]) run4 R3 N4); [done| |].
  - vm_compute. reflexivity.
  - assert (E0 : remote hostA (table1 !! (exNet, "ep4"%string)) = None) by (vm_compute; reflexivity).
    intros p. rewrite E4, E0. intros [= <-] _. by apply fitsb_sound.
Qed.

(** The sandbox of the run's end. *)
Definition boxed : bool := match n_sbox (netOf run5) with Some _ => n_secure (netOf run5) | None => false end.
Lemma boxed_true : boxed = true.
Proof. vm_compute. reflexivity. Qed.

Lemma run5_net : o_networks run5 !! exNet = Some (netOf run5).
Proof. apply netOf_some. vm_compute. reflexivity. Qed.

Lemma run5_sbox : exists key, n_sbox (netOf run5) = Some key.
Proof. pose proof boxed_true as Hb. unfold boxed in Hb. destruct (n_sbox (netOf run5)) as [key|]; [by exists key|done]. Qed.

Lemma run5_secure : n_secure (netOf run5) = true.
Proof. pose proof boxed_true as Hb. unfold boxed in Hb. by destruct (n_sbox (netOf run5)). Qed.

Lemma table2_peer3 : remote hostA (table2 !! (exNet, "ep3"%string)) = Some peer3.
Proof. vm_compute. reflexivity. Qed.



(** A network, a peer, an endpoint that joins, leaves and joins again, and a tunnel that
    cannot be created. *)
Definition exCalls (f : bool) : list (@ocall kernel (tablesHost f)) :=
  [CCreateNetwork exNet [4097] true 0 [(exPool, mkPrefix (Addr4 167837697) 24)] true;
   CEvent exNet OverlayPeerTable "ep3" None (Some [0]);
   CCreateEndpoint exNet "ep1" (Some (mkPrefix (Addr4 167837698) 24)) None true;
   CJoin exNet "ep1" true true; CLeave exNet "ep1"; CJoin exNet "ep1" true true;
   CEvent exNet OverlayPeerTable "ep3" (Some [0]) None].

Definition endOf (f : bool) : option (@overlay kernel (tablesHost f)) := ocalls (exCalls f) (exStart f).

Lemma overlay_calls_return_witness : is_Some (endOf true) /\ is_Some (endOf false) /\
  (endOf false ≫= fun o => n_joinCnt <$> exNetwork false o) = Some 1.
Proof.
  split; [exact (@overlay_calls_return kernel (tablesHost true) exCodec exDriver (mkHostState ∅ [] 0) (exCalls true))|].
  split; [exact (@overlay_calls_return kernel (tablesHost false) exCodec exDriver (mkHostState ∅ [] 0) (exCalls false))|].
  vm_compute. reflexivity.
Defined.

(** ** Beside the assumptions *)

(** What a network's sandbox has, and the counts of its two nodes. *)
Definition tablesOf (f : bool) (o : @overlay kernel (tablesHost f)) : option (list (Z * Addr * Z) * list (Z * Z * Addr)) :=
  option_map (fun sp => (map_to_list (sp_neighs sp), map_to_list (sp_fdb sp))) (exSpace f o).
Definition countsOf (f : bool) (o : @overlay kernel (tablesHost f)) : Z * Z := (count (o_drv o) hostB, count (o_drv o) hostC).
Definition known (f : bool) (o : @overlay kernel (tablesHost f)) : nat :=
  match exNetwork f o with Some n => length (map_to_list (n_peerdb n)) | None => 0 end.

(** When the tunnel of the first endpoint cannot be created, the second attempt works, but
    the peers that were known before are not added any more: the sandbox counts as
    initialised since the first attempt. *)
Definition retried : @overlay kernel (tablesHost true) :=
  joined true "ep1" true (joined true "ep1" true (endpoint_made true "ep1" (told true "ep3" None (Some [0]) (created true (exStart true))))).

Lemma retried_join_forgets_peers : tablesOf true retried = Some ([], []) /\ known true retried = 2%nat /\ countsOf true retried = (0, 0).
Proof. split_and!; vm_compute; reflexivity. Qed.

(** A peer with an address outside all subnets is not added, but its deletion ends the
    encryption of its node, which another peer still uses. *)
Definition intruded : steady := told false "ep9" (Some [3]) None (told false "ep9" None (Some [3]) run5).

Lemma foreign_address_drops_encryption : countsOf false run5 = (1, 1) /\ countsOf false intruded = (0, 1) /\
  tablesOf false intruded = tablesOf false run5.
Proof. split_and!; vm_compute; reflexivity. Qed.

(** Two endpoints report the same address; the one that was not programmed goes first.  In
    the end no peer is left, but the forwarding entry and the encryption of its node are. *)
Definition conflicted : steady :=
  told false "ep3" (Some [0]) None (told false "ep5" (Some [2]) None (told false "ep5" None (Some [2]) (told false "ep3" None (Some [0])
    (joined false "ep1" true (endpoint_made false "ep1" run1))))).

Lemma conflict_leaves_entries : exists l m, tablesOf false conflicted = Some ([], [(l, m, hostB)]) /\
  known false conflicted = 1%nat /\ countsOf false conflicted = (1, 0).
Proof. eexists _, _. split_and!; vm_compute; reflexivity. Qed.

(** The last endpoint leaves: the sandbox goes, the counts of the remote nodes stay, so that
    after the next one has joined and all peers have gone the nodes are still encrypted. *)
Definition rejoined : steady :=
  told false "ep4" (Some [1]) None (told false "ep3" (Some [0]) None (joined false "ep1" true (left_ false "ep1" run5))).

Lemma leave_leaks_encryption : tablesOf false (left_ false "ep1" run5) = None /\ countsOf false (left_ false "ep1" run5) = (1, 1) /\
  tablesOf false rejoined = Some ([], []) /\ countsOf false rejoined = (1, 1).
Proof. split_and!; vm_compute; reflexivity. Qed.

(** A [Join] that fails after the sandbox was joined keeps its place in the count, and the
    sandbox outlives all endpoints. *)
Definition failedJoin : steady := joined false "ep1" false (endpoint_made false "ep1" run1).

Lemma failed_join_keeps_sandbox :
  option_map n_joinCnt (exNetwork false failedJoin) = Some 1 /\
  tablesOf false (left_ false "ep1" (joined false "ep1" true failedJoin)) = Some ([], []).
Proof. split; vm_compute; reflexivity. Qed.
